(* ===== verification/_CoqProject ===== *)
-Q . S2P
Prelude.v
BoolExpr.v
BoolExprTok.v
BoolExprYard.v
BoolExprFacts.v
Kconfig.v
KconfigFacts.v
KconfigCheck.v
Kcmdline.v
UjsonUtf.v
UjsonReader.v
UjsonReaderFacts.v
UjsonWriter.v
UjsonWriterFacts.v
UjsonRoundtrip.v
UjsonReadback.v
UjsonFilter.v
UjsonTyped.v
TstTest.v
TstTestFacts.v
TstTimer.v
TstRtc.v
Kvercmp.v
Bitmask.v
BitmaskFacts.v
BitmaskText.v
BitmaskTextFacts.v
Bytes.v
Netlink.v
NetlinkFacts.v
NetlinkSend.v
NetlinkAcks.v
NetlinkBounds.v
NetlinkDemo.v
Checksum.v
DataPattern.v
WriteLog.v
WriteLogFacts.v
PanCmd.v
PanCmdFacts.v
Zoolib.v
Pan.v
PanFacts.v
PanRuns.v
PanDemo.v
PanTest.v
DataStorage.v
DataStorageFacts.v
Metaparse.v
MetaparseEnds.v
MetaparseLex.v
MetaparseDoc.v
MetaparseInit.v
MetaparseSize.v
MetaparseFile.v
MetaparseDecls.v
MetaparseMain.v
MetaparseDemo.v
MetaparseSh.v
RunShell.v
RunShellFacts.v
MetaparseShFacts.v
RunShellSafe.v
RunShellDemo.v
MetaparseShDemo.v
Fsx.v
FsxFacts.v
FsxRun.v
FsxDemo.v
TimerTest.v
TimerTestFacts.v
Cgroup.v
CgroupFacts.v
CgroupRequire.v
CgroupCleanup.v
CgroupRestore.v
CgroupDemo.v
RandomRange.v
RandomRangeFacts.v
RandomRangeParse.v
