(* ===== verification/Prelude.v ===== *)
(** * Verification library of the Linux Test Project sources (ltp-ddt)

    ** The program

    The repository is a collection of test programs for the kernel and the
    library they are built on (lib/, libs/, include/).  A test program links
    with the runner (lib/tst_test.c), which decides what is run and what the
    exit code is.  Before a test runs, the runner checks its requirements: the
    constraints on the kernel config (lib/tst_kconfig.c), which are boolean
    expressions (lib/tst_bool_expr.c), and the version of the kernel
    (lib/tst_kvercmp.c).  Tests use the time arithmetic of
    include/tst_timer.h; the runner saves the clocks and sets them again
    (lib/tst_wallclock.c, lib/tst_rtctime.c).  A test that is a shell script is
    run by a loader (testcases/lib/tst_run_shell.c), which fills the structure
    of the runner from metadata in the comments of the script, by the JSON
    library (libs/ujson).  Many tests are run by the driver pan/ltp-pan.c from
    a list of commands.  The catalogue of tests is made by metadata/metaparse.c,
    which reads the structures from the sources of the tests and prints them
    as JSON, and for shell tests by metadata/metaparse-sh.c.  Tests set up
    what they need with further parts of the library: control groups
    (lib/tst_cgroup.c), messages to the kernel (lib/tst_netlink.c), measured
    sleeps (lib/tst_timer_test.c) and random numbers (lib/random_range.c).  Of
    the test programs, the parts that are libraries of their own are treated,
    the bit masks of the cpuset tests and the data patterns and the write log
    of the I/O tests (doio), and one whole test, the file system exerciser
    fsx-linux.c.

    ** Conventions

    Definitions keep the names of the C functions.  A [char] is its unsigned
    value, a C string the list of its bytes before the terminator, a pointer
    into it an index (in Kvercmp the rest of the string).  Integers are [Z]
    with the wrap-around written out where the code stores them in a smaller
    type, or [nat] for sizes and positions.  Undefined behaviour (an access
    outside an object) is [None] in the option monad; a function that may also
    end the program with [tst_brk] is in the monad [cres] ([CRet], [CBrk],
    [CUB]).  Components with more ways to end have a monad of their own:
    [outcome] in Pan, [res] in Metaparse, [lres] in RunShell.  Messages are a
    [log].  What the operating system answers is an argument, and so is the
    content of memory that the code reads before it is written.  Where the
    answers may depend on what was done before, as those of the file system in
    Fsx and of the kernel in Cgroup, the argument is a function of the history
    of calls, which is part of the state.

    ** Files

    - Prelude: characters and strings, the monads, string functions of the C
      library, decimal numbers, tactics.
    - BoolExpr: lib/tst_bool_expr.c ([tokenize], [shunting_yard],
      [tst_bool_expr_parse], [tst_bool_expr_eval], the printers), with the
      arrays and their capacities.  BoolExprTok shows that the tokenizer
      refines a one-pass lexer, BoolExprYard that the shunting yard accepts
      exactly a grammar, BoolExprFacts puts them together.
    - Kconfig: lib/tst_kconfig.c ([kconfig_parse_line], [tst_kconfig_read],
      [tst_kconfig_check], [tst_kconfig_get], [tst_has_slow_kconfig]);
      [kworld] is the environment, the file system and the allocator.
      KconfigFacts treats reading, KconfigCheck the constraints, with the
      theorems on boolean expressions.  Kcmdline: [tst_kcmdline_parse].
    - UjsonUtf, UjsonReader, UjsonWriter: libs/ujson.  [ujson_reader] and
      [ujson_val] are the records of the reader, [writer] that of the writer,
      over any output function.  UjsonReaderFacts and UjsonWriterFacts hold
      the invariants; the class [AppendSink] is what the writer relies on in
      its output, with the string and the file sink as instances.
      UjsonRoundtrip defines documents and the clients that write and read
      them, UjsonReadback proves the round trip.  UjsonFilter treats skipping
      and the loops over listed attributes, UjsonTyped what the reader hands
      out on any bytes.
    - TstTest: lib/tst_test.c.  [ipc] is the shared memory of the processes
      with, as ghost state, the reports and the ends of test processes; a
      [tst_run] is what the code of a test does in one test process, as
      sequences of events, and a [world] holds these for every test process
      and what the setup, the preparation of file systems and each call of
      [do_cleanup] report in the process of the library.  TstTestFacts holds
      the theorems.
    - TstTimer: include/tst_timer.h, lib/tst_timer.c and the wall clock of
      lib/tst_wallclock.c.  TstRtc: lib/tst_rtctime.c and the RTC of
      lib/tst_wallclock.c.  Kvercmp: lib/tst_kvercmp.c.
    - Bitmask: testcases/kernel/controllers/cpuset/cpuset_lib/libbitmask.c over
      a store of masks; BitmaskFacts relates it to finite sets.  BitmaskText
      and BitmaskTextFacts: lists and hexadecimal words.
    - Checksum: lib/tst_checksum.c.  DataPattern, WriteLog, WriteLogFacts: the
      files pattern.c, databin.c, dataascii.c and write_log.c of
      testcases/kernel/fs/doio.
    - PanCmd, PanCmdFacts: the command lists of pan/ltp-pan.c and
      pan/splitstr.c.  Zoolib: pan/zoolib.c.  Pan: the scheduler of
      pan/ltp-pan.c as a machine, one step for each round of its loops, with
      the answers of the kernel as inputs and signals between the steps; its
      active file is an interface with zoolib as the instance.  PanFacts holds
      the invariant, PanRuns what holds of whole runs, PanTest connects the
      result of a test with the reports of TstTest, PanDemo holds examples.
    - DataStorage, DataStorageFacts: metadata/data_storage.h.  Metaparse:
      metadata/metaparse.c.  MetaparseEnds: its loops end.  MetaparseLex,
      MetaparseDoc, MetaparseInit, MetaparseSize, MetaparseFile,
      MetaparseDecls: the tokenizer with comments, doc comments, initializers,
      array sizes, test structures and whole files with their directives
      against the source text they denote.  MetaparseMain: the whole program, MetaparseDemo
      examples.  MetaparseSh, MetaparseShFacts, MetaparseShDemo:
      metadata/metaparse-sh.c, against the same scripts as the shell loader.
    - RunShell: testcases/lib/tst_run_shell.c.  RunShellFacts treats the loops
      over the text of a document, RunShellSafe those over any bytes,
      RunShellDemo holds examples.
    - Bytes: numbers in buffers of bytes.  Netlink: lib/tst_netlink.c, with the
      buffers as bytes and pointers as offsets.  NetlinkFacts relates the
      buffer to a list of messages, NetlinkSend treats building, sending and
      receiving, NetlinkAcks the acknowledgements, NetlinkBounds all calls
      without assumptions on their arguments, NetlinkDemo examples.
    - Fsx: testcases/kernel/fs/fsx-linux/fsx-linux.c.  FsxFacts compares the
      buffer of the test with the content that the operations denote, FsxRun
      treats whole runs, FsxDemo examples.
    - TimerTest, TimerTestFacts: lib/tst_timer_test.c.
    - Cgroup: lib/tst_cgroup.c, the tables of controllers and hierarchies
      ([cgroups]) with [tst_cg_scan], [tst_cg_require] and [tst_cg_cleanup].
      CgroupFacts holds the invariant and scanning, CgroupRequire requests,
      CgroupCleanup the cleanup and sequences of calls, CgroupRestore both
      together, CgroupDemo examples.
    - RandomRange, RandomRangeFacts, RandomRangeParse: lib/random_range.c.

    ** What is shown

    - The runner: the exit code is a function of the reports of all processes
      before the last cleanup of the library, whatever the test does (what that
      cleanup reports is lost, which is an example); 0 is returned only if
      nothing failed before it and every test process exited with 0; a
      well-behaved test is run completely, on all its file systems; a silent
      test function breaks the test; nothing is run after an abort.
    - Boolean expressions: parsing is memory safe on all strings and accepts
      exactly the grammar; evaluation computes the value of the derivation;
      printed expressions are parsed back.
    - Kernel config and command line: reading gives every variable its value
      in the file, when that has no blanks; a check succeeds exactly when all
      constraints hold (values with blanks are cut, an example); safety
      of the command line parser on lines that end in white space.  Both
      parsers read past a line without it, which is stated as a theorem.
    - JSON: the reader is memory safe and ends on all inputs that are followed
      by a terminator and all sequences of calls; the writer keeps its stack, refuses misuse and keeps the first
      error; written documents are read back.  Defects of the code are stated
      as theorems: a loop that does not end on invalid UTF-8, four-byte
      characters that are decoded to 0, long pieces that overtake short ones
      in the file, short writes that repeat, values of a wrong type that are
      handed on.
    - The shell loader: well-formed metadata fill the structure with exactly
      their values; on any script the loader ends, and if it gets that far,
      what it returns is well typed.  Its defects are examples: an attribute that is never found, a
      number used as a pointer, an array that is overrun, truncations.
    - The driver: at every moment of every run the counts, the slots and the
      active file agree; a sequential run ends, each start is waited for once
      and logged, the exit status counts the failures modulo 256 when that is
      asked for; signals stop the tests; the log
      line of a test agrees with what the test reported to its runner.
    - The metadata parser: every loop ends or is one of two that are shown to
      hang; a file with a test structure among declarations, directives and
      comments is printed as JSON that the JSON reader reads back as the
      normalised structure and the doc string, for fields of the described
      forms.  The tree of data_storage.h is a finite map, when keys are not
      added twice, and prints readable JSON.
    - Bit masks are finite sets under all operations, and their texts are
      parsed back.  The table-driven checksum is the bitwise CRC-32C.  Data
      patterns are checked exactly, a write log is scanned back in order.
    - Times: arithmetic and conversions are exact within the stated ranges,
      dates and seconds are inverse, the clocks are restored.
    - Versions: the comparisons have the sign of the lexicographic order.
    - Netlink: what is built and sent is received, in any cut into datagrams;
      validation returns what the replies say; all calls stay within their
      buffers on any arguments and any received bytes, except where realloc
      moves a buffer without a message, which is an example.
    - The catalogue of shell tests: the JSON that metaparse-sh writes has the
      same members that the shell loader reads.
    - The file system exerciser: it stays within its buffers whatever the file
      system answers, a passed run has checked every read, and on a correct
      file system every run passes.  That mapped reads check nothing is an
      example.
    - Timer tests: the reports are those that the measured times call for; the
      loops leave the array exactly in two stated cases.
    - Control groups: scanning finds every hierarchy, a request leaves its
      controller ready, no sequence of calls leaves the tables, and a cleanup
      restores the directories of all hierarchies, when all requests are for
      one test directory that is new.
    - Random numbers are exactly the multiples in a range that is not
      negative and not near the end of its type, random bits are spread evenly, and lists of ranges are parsed
      to what they spell.

    ** Fuel

    Loops that are not structural take fuel computed from the data: the length
    of the string or of the file for the parsers, the bytes that are left for
    [skip_loop] and [filter_fuel] (every round consumes one), the number of
    tokens for the shunting yard, the size of the document for [decode_doc]
    ([mfuel]).  The theorems show a result, so this fuel is enough.
    [esc_loop] is shown to exhaust every fuel on a string that is not UTF-8.
    [iter_loop] is bounded by the iterations and by how often the clock says
    that there is time left, which is part of the input.  Every round of
    [year_loop] adds at least 365 of the missing days.  The loops of the bit
    masks are bounded by their bits, those of the pattern, the log, the active
    file and the command lists by the bytes, those of Metaparse by the
    characters of all the files ([NoFuel] is shown to be impossible), those of
    RunShell by the bytes of the metadata ([LUB] likewise).  [walk] over
    messages consumes bytes of the buffer.  The loop [run_loop] of Fsx has no
    bound of its own, since skipped operations are not counted; that some fuel
    is enough is the theorem on passing runs.  [divider] halves its range and
    counts the steps.

    ** What is not modelled

    Input and output themselves, memory release, printf of doubles, and of
    lib/tst_test.c what [do_setup] and [do_cleanup] do besides reporting, the
    options, the timers and the signal handlers (a timeout is an event of the
    test process).  Of the
    interleaving of processes only the order in which their reports reach the
    shared memory is kept.  Layouts are those of a 64-bit target.  Of the
    driver the options, the texts and times of its reports and signals within
    [propagate_signal] are left out (that /dev/kmsg cannot be opened, which
    ends it, is kept), of the metadata parser its options and
    messages; allocation succeeds in both.  Of lib/tst_cgroup.c the saved
    configuration and the groups below the test group are left out, of
    lib/tst_timer_test.c the plot, which uses floating point numbers, of
    fsx-linux.c the options.  Not treated although pure in parts: the old API
    in lib/tst_res.c, which the runner replaces, and lib/tlibio.c, which are
    variants of read and write.  The other test programs, the wrappers of
    system calls and the scripts are outside the scope: they are sequences of
    calls of the kernel, whose behaviour they test. *)

From stdpp Require Export prelude strings.
From Stdlib Require Export ZArith Lia.
From Stdlib Require Strings.Byte Strings.String.
Open Scope Z_scope.

(** ** Characters and C strings

    A [char] is modelled by its unsigned value, a [Z] in [0 .. 255].  The
    scope [cc] reads a one-character literal as that value, so that a model
    can be compared with the [case] labels of the source. *)
Declare Scope cchar_scope.
Delimit Scope cchar_scope with cc.

Definition cchar_parse (l : list Init.Byte.byte) : option Z :=
  match l with [b] => Some (Z.of_N (Stdlib.Strings.Byte.to_N b)) | _ => None end.
Definition cchar_print (z : Z) : option (list Init.Byte.byte) := None.
String Notation Z cchar_parse cchar_print : cchar_scope.

(** The bytes of a string literal, without its terminator. *)
Definition str (s : string) : list Z :=
  (λ b, Z.of_N (Stdlib.Strings.Byte.to_N b)) <$> Stdlib.Strings.String.list_byte_of_string s.

(** The double quote, which a literal of this file's scope cannot hold. *)
Definition cDQ : Z := 34.

(** A C string is the list of the bytes before its terminator.  Reading at
    the index of the terminator gives 0, reading past it is undefined. *)
Definition cget (s : list Z) (i : nat) : option Z :=
  if decide (i = length s) then Some 0 else s !! i.

(** The bytes of a C string are not 0. *)
Definition cstring (s : list Z) : Prop := Forall (λ c, 0 < c < 256) s.

#[export] Instance cstring_dec s : Decision (cstring s).
Proof. apply _. Defined.

Lemma cget_lt s i : (i < length s)%nat → cget s i = s !! i.
Proof. intros. unfold cget. rewrite decide_False; [done|lia]. Qed.

Lemma cget_end s : cget s (length s) = Some 0.
Proof. unfold cget. by rewrite decide_True. Qed.

Lemma cget_total s i : (i ≤ length s)%nat → is_Some (cget s i).
Proof.
  intros Hi. unfold cget. case_decide; [done|].
  apply lookup_lt_is_Some. lia.
Qed.

Lemma cget_app_mid (a : list Z) c b : cget (a ++ c :: b) (length a) = Some c.
Proof.
  rewrite cget_lt by (rewrite length_app; simpl; lia).
  by rewrite list_lookup_middle.
Qed.

Lemma cget_app_at (a l b : list Z) k c : l !! k = Some c → cget (a ++ l ++ b) (length a + k) = Some c.
Proof.
  intros H. pose proof (lookup_lt_Some _ _ _ H) as Hk.
  rewrite cget_lt by (rewrite !length_app; lia).
  rewrite lookup_app_r by lia. replace (length a + k - length a)%nat with k by lia.
  by apply lookup_app_l_Some.
Qed.

(** ** Machine integers *)

(** The value of a byte as a [char] of the target. *)
Definition char_val (char_signed : bool) (b : Z) : Z := if char_signed && (128 <=? b) then b - 256 else b.

(** The value of [z] in an unsigned type of [w] bits. *)
Definition wrapu (w : Z) (z : Z) : Z := z mod 2 ^ w.

(** The value of [z] in a two's complement type of [w] bits. *)
Definition wraps (w : Z) (z : Z) : Z := (z + 2 ^ (w - 1)) mod 2 ^ w - 2 ^ (w - 1).

Lemma wrapu_small w z : 0 ≤ z < 2 ^ w → wrapu w z = z.
Proof. intros. unfold wrapu. by apply Z.mod_small. Qed.

Lemma wraps_small w z : 0 < w → - 2 ^ (w - 1) ≤ z < 2 ^ (w - 1) → wraps w z = z.
Proof.
  intros Hw Hz. unfold wraps.
  assert (2 ^ w = 2 * 2 ^ (w - 1)) as E.
  { rewrite <- Z.pow_succ_r by lia. f_equal. lia. }
  rewrite Z.mod_small by lia. lia.
Qed.

Lemma wrapu_range w z : 0 ≤ w → 0 ≤ wrapu w z < 2 ^ w.
Proof. intros. unfold wrapu. apply Z.mod_pos_bound. lia. Qed.

Lemma wraps_range w z : 0 < w → - 2 ^ (w - 1) ≤ wraps w z < 2 ^ (w - 1).
Proof.
  intros Hw. unfold wraps. assert (2 ^ w = 2 * 2 ^ (w - 1)) as ->.
  { rewrite <- Z.pow_succ_r by lia. f_equal. lia. }
  pose proof (Z.mod_pos_bound (z + 2 ^ (w - 1)) (2 * 2 ^ (w - 1))). lia.
Qed.

(** A decidable fact about all the values of a small range, by computation. *)
Lemma range_forall (P : Z → bool) (n z : Z) :
  forallb P (seqZ 0 n) = true → 0 ≤ z < n → P z = true.
Proof.
  intros H Hz. rewrite List.forallb_forall in H. apply H, list_elem_of_In, elem_of_seqZ. lia.
Qed.

(** [lor] of a multiple of a power of two and a smaller number is their sum. *)
Lemma lor_add n a b : 0 ≤ n → 0 ≤ b < 2 ^ n → Z.lor (a * 2 ^ n) b = a * 2 ^ n + b.
Proof.
  intros Hn Hb.
  assert (Z.land (a * 2 ^ n) b = 0) as H0.
  { apply Z.bits_inj'. intros i Hi. rewrite Z.land_spec, Z.bits_0.
    destruct (Z.ltb_spec i n) as [Hlt|Hge]; [by rewrite Z.mul_pow2_bits_low|].
    rewrite <- (Z.mod_small b (2 ^ n)) by done. by rewrite Z.mod_pow2_bits_high, andb_false_r by lia. }
  rewrite <- Z.lxor_lor by done. symmetry. by apply Z.add_nocarry_lxor.
Qed.

Lemma land_low n a : 0 ≤ n → Z.land a (2 ^ n - 1) = a mod 2 ^ n.
Proof. intros Hn. rewrite <- Z.land_ones by done. f_equal. rewrite Z.ones_equiv. lia. Qed.

(** C truth values. *)
Definition c_bool (b : bool) : Z := if b then 1 else 0.

(** ** Small facts shared by the components *)

Lemma obind_Some {A B} (x : A) (f : A → option B) : (y ← Some x; f y) = f x.
Proof. done. Qed.

(** A decidable proposition that is evaluated. *)
Ltac by_dec := apply (bool_decide_unpack _); vm_compute; exact I.

(** A bind on a value that is there. *)
Ltac bind_step := rewrite obind_Some; cbn beta iota.

(** Case analysis on a comparison of numbers; impossible cases go. *)
Ltac zcase :=
  match goal with
  | |- context [Z.eqb ?a ?b] => destruct (Z.eqb_spec a b); try lia
  | |- context [Z.ltb ?a ?b] => destruct (Z.ltb_spec a b); try lia
  | |- context [Z.leb ?a ?b] => destruct (Z.leb_spec a b); try lia
  end.

(** Reading C strings. *)
Create Rewrite HintDb cstr.
#[export] Hint Rewrite cget_end cget_app_mid : cstr.

(** ** The C library functions the components share *)

(** [isspace] in the C locale. *)
Definition isspace (c : Z) : bool := (c =? " "%cc) || ((9 <=? c) && (c <=? 13)).

Definition isdigit (c : Z) : bool := ("0"%cc <=? c) && (c <=? "9"%cc).

Definition isalnum (c : Z) : bool :=
  isdigit c || (("A"%cc <=? c) && (c <=? "Z"%cc)) || (("a"%cc <=? c) && (c <=? "z"%cc)).

(** The C string at the start of a buffer. *)
Fixpoint c_str (s : list Z) : list Z :=
  match s with [] => [] | c :: s => if c =? 0 then [] else c :: c_str s end.

Lemma c_str_clean s : 0 ∉ s → c_str s = s.
Proof.
  induction s as [|c s IH]; intros H; [done|]. apply not_elem_of_cons in H as [Hc H]. cbn.
  rewrite (proj2 (Z.eqb_neq _ _)), IH by done. done.
Qed.

Lemma c_str_app key x : cstring key → c_str (key ++ 0 :: x) = key.
Proof.
  induction 1 as [|c key Hc _ IH]; [done|]. cbn. rewrite IH. by destruct (Z.eqb_spec c 0); [lia|].
Qed.

Fixpoint skip_spaces (s : list Z) : list Z :=
  match s with [] => [] | c :: s' => if isspace c then skip_spaces s' else s end.

(** [strncmp] on C strings: the difference at the first position where they
    differ, within [n] characters. *)
Fixpoint strncmp (a b : list Z) (n : nat) : Z :=
  match n with
  | O => 0
  | S n =>
      match a, b with
      | [], [] => 0
      | [], y :: _ => - y
      | x :: _, [] => x
      | x :: a, y :: b => if x =? y then strncmp a b n else x - y
      end
  end.

(** [strcmp]: the lists end where the strings do. *)
Fixpoint strcmp (a b : list Z) : Z :=
  match a, b with
  | [], [] => 0
  | [], y :: _ => - y
  | x :: _, [] => x
  | x :: a, y :: b => if x =? y then strcmp a b else x - y
  end.

(** [strstr]: the suffix of [s] that starts with the first [sub]. *)
Fixpoint strstr (s sub : list Z) : option (list Z) :=
  if decide (take (length sub) s = sub) then Some s
  else match s with [] => None | _ :: s => strstr s sub end.

(** [strtok] with one separator, up to the end. *)
Fixpoint split_sep (sep : Z) (s : list Z) : list (list Z) :=
  match s with
  | [] => [[]]
  | c :: s =>
      if c =? sep then [] :: split_sep sep s
      else match split_sep sep s with x :: xs => (c :: x) :: xs | [] => [[c]] end
  end.

Definition strtok_all (sep : Z) (s : list Z) : list (list Z) := filter (λ t, t ≠ []) (split_sep sep s).

(** [snprintf] into a buffer of [n] bytes. *)
Definition snprintf (n : nat) (text : list Z) : list Z := take (n - 1) text.

(** The decimal digits of a number that is not negative; a number of [k]
    bits has at most [k] digits. *)
Fixpoint dec_go (fuel : nat) (n : Z) : list Z :=
  match fuel with
  | O => []
  | S fuel => if n <? 10 then ["0"%cc + n] else dec_go fuel (n / 10) ++ ["0"%cc + n mod 10]
  end.

Definition dec (n : Z) : list Z := dec_go (S (Z.to_nat (Z.log2 n))) n.

(** The conversions ["%li"] and ["%03zu"]. *)
Definition fmt_li (z : Z) : list Z := if z <? 0 then "-"%cc :: dec (- z) else dec z.
Definition fmt_03zu (n : nat) : list Z :=
  let d := dec (Z.of_nat n) in replicate (3 - length d) ("0"%cc) ++ d.

Definition digit (c : Z) : Prop := "0"%cc ≤ c ≤ "9"%cc.

(** The value of digits read after [v]. *)
Definition dval (v : Z) (ds : list Z) : Z := fold_left (λ v c, v * 10 + (c - "0"%cc)) ds v.

Lemma dval_ge v ds : 0 ≤ v → Forall digit ds → v ≤ dval v ds.
Proof.
  intros Hv Hd. revert v Hv. induction Hd as [|c ds Hc _ IH]; intros v Hv; cbn; [lia|].
  unfold digit in Hc. change ("0"%cc) with 48 in *. change ("9"%cc) with 57 in *.
  etransitivity; [|apply IH; lia]. lia.
Qed.

Lemma dec_go_spec fuel n :
  0 ≤ n < 2 ^ Z.of_nat fuel → (0 < fuel)%nat →
  Forall digit (dec_go fuel n) ∧ dval 0 (dec_go fuel n) = n ∧
  (∃ c ds, dec_go fuel n = c :: ds ∧ (ds ≠ [] → c ≠ "0"%cc)).
Proof.
  revert n. induction fuel as [|fuel IH]; intros n Hn Hf; [lia|]. cbn [dec_go].
  unfold digit in *. change ("0"%cc) with 48 in *. change ("9"%cc) with 57 in *.
  destruct (Z.ltb_spec n 10) as [L|L].
  { split_and!; [repeat constructor; lia|cbn; lia|]. exists (48 + n), []. by split. }
  rewrite Nat2Z.inj_succ, Z.pow_succ_r in Hn by lia.
  assert (n = 10 * (n / 10) + n mod 10 ∧ 0 ≤ n mod 10 < 10) as [En Hm] by (split; [apply Z.div_mod|apply Z.mod_pos_bound]; lia).
  destruct fuel as [|fuel]; [simpl in Hn; lia|].
  destruct (IH (n / 10)) as (H1 & H2 & (c & ds & E & Hc)); [|lia|].
  { split; [apply Z.div_pos; lia|]. apply Z.div_lt_upper_bound; lia. }
  split_and!.
  - apply Forall_app; split; [done|repeat constructor; lia].
  - unfold dval in *. rewrite fold_left_app, H2. cbn. change ("0"%cc) with 48. lia.
  - rewrite E. exists c, (ds ++ [48 + n mod 10]). split; [done|]. intros _.
    destruct ds as [|x ds]; [|by apply Hc]. rewrite E in H2. cbn in H2. change ("0"%cc) with 48 in *. lia.
Qed.

Lemma dec_go_length fuel k n : 0 ≤ n < 10 ^ Z.of_nat k → (0 < k)%nat → (length (dec_go fuel n) ≤ k)%nat.
Proof.
  revert k n. induction fuel as [|fuel IH]; intros k n Hn Hk; cbn [dec_go]; [simpl; lia|].
  destruct (Z.ltb_spec n 10); [simpl; lia|]. destruct k as [|k]; [lia|].
  rewrite Nat2Z.inj_succ, Z.pow_succ_r in Hn by lia. destruct k as [|k]; [simpl in Hn; lia|].
  rewrite length_app. cbn [length]. assert (length (dec_go fuel (n / 10)) ≤ S k)%nat; [|lia].
  apply IH; [|lia]. split; [apply Z.div_pos; lia|]. apply Z.div_lt_upper_bound; lia.
Qed.

Lemma dec_spec n :
  0 ≤ n < 2 ^ 63 →
  Forall digit (dec n) ∧ dval 0 (dec n) = n ∧ (∃ c ds, dec n = c :: ds ∧ (ds ≠ [] → c ≠ "0"%cc)).
Proof.
  intros Hn. unfold dec. pose proof (Z.log2_nonneg n). apply dec_go_spec; [|lia].
  rewrite Nat2Z.inj_succ, Z2Nat.id by done. destruct (decide (n = 0)) as [->|]; [split; [lia|done]|].
  pose proof (Z.log2_spec n). lia.
Qed.

Lemma fmt_li_length z : - 2 ^ 63 < z < 2 ^ 63 → (length (fmt_li z) ≤ 20)%nat.
Proof.
  assert (2 ^ 63 < 10 ^ Z.of_nat 19) by (vm_compute; reflexivity).
  intros Hz. unfold fmt_li, dec. destruct (Z.ltb_spec z 0); cbn [length].
  - apply le_n_S, dec_go_length; lia.
  - transitivity 19%nat; [|lia]. apply dec_go_length; lia.
Qed.

(** [strtol] in base 10.  The digits at the start of a string and the rest, an
    optional sign. *)
Fixpoint span_digits (s : list Z) : list Z * list Z :=
  match s with
  | c :: s' => if isdigit c then let '(ds, r) := span_digits s' in (c :: ds, r) else ([], s)
  | [] => ([], [])
  end.

Definition span_sign (s : list Z) : bool * list Z :=
  match s with
  | c :: s' => if c =? "-"%cc then (true, s') else if c =? "+"%cc then (false, s') else (false, s)
  | [] => (false, [])
  end.

(** The number, of any size, and what follows it; [None] without digits. *)
Definition scan_int (s : list Z) : option (Z * list Z) :=
  let '(neg, s) := span_sign (skip_spaces s) in
  let '(ds, r) := span_digits s in
  match ds with
  | [] => None
  | _ => Some (if (neg : bool) then - dval 0 ds else dval 0 ds, r)
  end.

(** The value, in the range of long, and [endptr]; whether errno is ERANGE. *)
Definition strtol (s : list Z) : Z * list Z :=
  match scan_int s with
  | None => (0, s)
  | Some (v, r) => (Z.max (- 2 ^ 63) (Z.min (2 ^ 63 - 1) v), r)
  end.
Definition strtol_erange (s : list Z) : bool :=
  match scan_int s with Some (v, _) => (v <? - 2 ^ 63) || (2 ^ 63 - 1 <? v) | None => false end.

Lemma isdigit_digit c : digit c → isdigit c = true.
Proof. unfold digit, isdigit. intros H. by rewrite !(proj2 (Z.leb_le _ _)) by lia. Qed.

Lemma digit_class c : digit c → isspace c = false ∧ (c =? "-"%cc) = false ∧ (c =? "+"%cc) = false ∧ (c =? "#"%cc) = false.
Proof.
  unfold digit, isspace. change ("0"%cc) with 48. change ("9"%cc) with 57. change (" "%cc) with 32.
  change ("-"%cc) with 45. change ("+"%cc) with 43. change ("#"%cc) with 35. intros Hc. split_and!; repeat zcase; done.
Qed.

Lemma span_digits_app ds r : Forall digit ds → isdigit (default 0 (head r)) = false → span_digits (ds ++ r) = (ds, r).
Proof.
  intros Hd Hr. induction Hd as [|d ds Hd _ IH]; cbn [app span_digits].
  - destruct r as [|c r]; [done|]. cbn in Hr. cbn [span_digits]. by rewrite Hr.
  - by rewrite isdigit_digit, IH.
Qed.

Lemma scan_int_dec p r :
  0 ≤ p < 2 ^ 63 → isdigit (default 0 (head r)) = false → scan_int (dec p ++ r) = Some (p, r).
Proof.
  intros Hp Hr. destruct (dec_spec p Hp) as (Hd & Hv & (x & ds & E & _)). unfold scan_int.
  assert (digit x) as Hx by (rewrite E in Hd; by apply Forall_cons in Hd as [? _]).
  destruct (digit_class x Hx) as (H1 & H2 & H3 & _).
  assert (skip_spaces (dec p ++ r) = dec p ++ r) as -> by (rewrite E; cbn; by rewrite H1).
  assert (span_sign (dec p ++ r) = (false, dec p ++ r)) as -> by (rewrite E; cbn; by rewrite H2, H3).
  rewrite span_digits_app by done. rewrite E in *. by rewrite Hv.
Qed.

Lemma strtol_dec p r :
  0 ≤ p < 2 ^ 63 → isdigit (default 0 (head r)) = false → strtol (dec p ++ r) = (p, r) ∧ strtol_erange (dec p ++ r) = false.
Proof.
  intros Hp Hr. unfold strtol, strtol_erange. rewrite scan_int_dec by done. split; [f_equal; lia|]. by repeat zcase.
Qed.

(** [fgets] with a buffer of [n] bytes on the rest of a file: at most [n - 1]
    bytes, up to and including a newline. *)
Fixpoint fgets_go (n : nat) (file : list Z) : list Z * list Z :=
  match n, file with
  | S n, c :: file => if c =? 10 then ([c], file) else let '(l, r) := fgets_go n file in (c :: l, r)
  | _, _ => ([], file)
  end.

Definition fgets (n : nat) (file : list Z) : option (list Z * list Z) :=
  match file with [] => None | _ => Some (fgets_go (n - 1) file) end.

Lemma fgets_go_line n body rest :
  Forall (λ c, c ≠ 10) body → (length body < n)%nat →
  fgets_go n (body ++ 10 :: rest) = (body ++ [10], rest).
Proof.
  intros Hb. revert n. induction Hb as [|c body Hc _ IH]; intros [|n] Hn; simpl in *; try lia; [done|].
  destruct (Z.eqb_spec c 10); [done|]. rewrite IH by lia. done.
Qed.

Lemma strcmp_eq a b : cstring a → cstring b → strcmp a b = 0 ↔ a = b.
Proof.
  revert b. induction a as [|x a IH]; intros [|y b] Ha Hb; simpl; [done| | |].
  { apply Forall_cons in Hb as [Hy _]. split; [lia|done]. }
  { apply Forall_cons in Ha as [Hx _]. split; [lia|done]. }
  apply Forall_cons in Ha as [Hx Ha]. apply Forall_cons in Hb as [Hy Hb].
  destruct (Z.eqb_spec x y) as [->|Hne].
  - rewrite IH by done. split; [by intros ->|by intros [= ->]].
  - split; [lia|]. intros [= ? ?]. done.
Qed.

Lemma strncmp_eq a b n : cstring a → cstring b → strncmp a b n = 0 ↔ take n a = take n b.
Proof.
  revert a b. induction n as [|n IH]; intros [|x a] [|y b] Ha Hb; simpl; try done.
  - apply Forall_cons in Hb as [Hy _]. split; [lia|done].
  - apply Forall_cons in Ha as [Hx _]. split; [lia|done].
  - apply Forall_cons in Ha as [Hx Ha]. apply Forall_cons in Hb as [Hy Hb].
    destruct (Z.eqb_spec x y) as [->|Hne].
    + rewrite IH by done. split; [by intros ->|by intros [= ->]].
    + split; [lia|]. intros [= ? ?]. done.
Qed.

(** ** Results of functions that can end the process

    [CBrk ttype msg] is a call of [tst_brk] (include/tst_test.h), which does
    not return; [CUB] is undefined behaviour. *)
Inductive cres (A : Type) : Type :=
  | CRet (a : A)
  | CBrk (ttype : Z) (msg : list Z)
  | CUB.
Arguments CRet {A} a.
Arguments CBrk {A} ttype msg.
Arguments CUB {A}.

#[export] Instance cres_ret : MRet cres := @CRet.
#[export] Instance cres_bind : MBind cres := λ A B f m,
  match m with CRet a => f a | CBrk t s => CBrk t s | CUB => CUB end.

(** A partial operation whose failure is undefined behaviour. *)
Definition defined {A} (o : option A) : cres A :=
  match o with Some a => CRet a | None => CUB end.

Lemma cbind_Ret {A B} (x : A) (f : A → cres B) : (y ← CRet x; f y) = f x.
Proof. done. Qed.

(** A result that is not undefined, and good if there is one. *)
Definition good {A} (Q : A → Prop) (x : cres A) : Prop :=
  match x with CRet a => Q a | CBrk _ _ => True | CUB => False end.

Lemma good_bind {A B} (Q : A → Prop) (R : B → Prop) x (f : A → cres B) : good Q x → (∀ a, Q a → good R (f a)) → good R (x ≫= f).
Proof. destruct x; cbn; auto. Qed.

Lemma good_mono {A} (Q R : A → Prop) x : good Q x → (∀ a, Q a → R a) → good R x.
Proof. destruct x; cbn; auto. Qed.

(** The result types of include/tst_res_flags.h. *)
Definition TPASS := 0.
Definition TFAIL := 1.
Definition TBROK := 2.
Definition TWARN := 4.
Definition TDEBUG := 8.
Definition TINFO := 16.
Definition TCONF := 32.
Definition TERRNO := 256.
Definition TTERRNO := 512.
Definition TRERRNO := 1024.
Definition TTYPE_MASK := 63.
Definition TTYPE_RESULT (ttype : Z) : Z := Z.land ttype TTYPE_MASK.

(** One message reported with [tst_res]. *)
Definition log := list (Z * list Z).
