(* ===== verification/BoolExprTok.v ===== *)
(** * The tokenizer of lib/tst_bool_expr.c refines a one-pass lexer

    [lex] is a lexer written as a two-state machine over the characters.
    The two passes of the C tokenizer agree on the number of tokens, the
    second pass fits exactly into the buffer sized by the first one, and the
    texts of the tokens are those of [lex]. *)

From S2P Require Import Prelude BoolExpr.
Open Scope Z_scope.

Definition flush (cur : list Z) : list (list Z) := if decide (cur = []) then [] else [cur].

(** [q] is set between double quotes, [cur] is the word read so far. *)
Fixpoint lex (q : bool) (cur s : list Z) : list (list Z) :=
  match s with
  | [] => flush cur
  | c :: s =>
      if q then lex (negb (c =? cDQ)) (cur ++ [c]) s
      else if is_op_char c then flush cur ++ [[c]] ++ lex false [] s
      else if is_blank_char c then flush cur ++ lex false [] s
      else lex (c =? cDQ) (cur ++ [c]) s
  end.

(** The token with the given text boundaries. *)
Definition spec_tok (expr : list Z) (off len : nat) : tst_expr_tok :=
  mk_tok (char_to_op (default 0 (cget expr off))) off len None None.

Definition spec_toks (expr : list Z) (off len : nat) : list tst_expr_tok :=
  if decide (len = 0%nat) then [] else [spec_tok expr off len].

(** Storing the tokens [l] through [last]. *)
Definition emit (last : tok_ptr) (cnt : nat) (l : list tst_expr_tok) : option (tok_ptr * nat) :=
  match last with
  | TokNull => Some (TokNull, (cnt + length l)%nat)
  | TokBuf cap l0 =>
      if decide (length l0 + length l ≤ cap ∨ l = [])%nat
      then Some (TokBuf cap (l0 ++ l), (cnt + length l)%nat) else None
  end.

(** A token of the string: not empty, inside it, classified by its first
    character and not linked yet. *)
Definition tok_ok (expr : list Z) (t : tst_expr_tok) : Prop :=
  (0 < tok_len t)%nat ∧ (tok t + tok_len t ≤ length expr)%nat ∧
  t = spec_tok expr (tok t) (tok_len t).

Section Tokenizer.
Context (expr : list Z) (Hexpr : cstring expr).

Definition sub (j i : nat) : list Z := take (i - j) (drop j expr).

Lemma sub_snoc j i c :
  (j ≤ i)%nat → expr !! i = Some c → sub j (S i) = sub j i ++ [c].
Proof.
  intros Hji Hc. unfold sub. replace (S i - j)%nat with (S (i - j)) by lia.
  apply take_S_r. rewrite lookup_drop. by replace (j + (i - j))%nat with i by lia.
Qed.

Lemma sub_nil i : sub i i = [].
Proof. unfold sub. by rewrite Nat.sub_diag. Qed.

Lemma sub_app j i k : (j ≤ i ≤ k)%nat → sub j i ++ sub i k = sub j k.
Proof.
  intros H. unfold sub. replace (k - j)%nat with ((i - j) + (k - i))%nat by lia.
  rewrite <- take_take_drop, drop_drop. do 3 f_equal. lia.
Qed.

Lemma flush_sub j i :
  (j ≤ i ≤ length expr)%nat →
  tok_text expr <$> spec_toks expr j (i - j) = flush (sub j i).
Proof.
  intros Hji. unfold spec_toks, flush.
  destruct (decide (i - j = 0)%nat) as [E|E].
  - replace i with j by lia. by rewrite sub_nil.
  - rewrite decide_False; [done|].
    intros Hn. apply (f_equal length) in Hn. unfold sub in Hn.
    rewrite length_take, length_drop in Hn. simpl in Hn. lia.
Qed.

Lemma spec_toks_ok j i :
  (j ≤ i ≤ length expr)%nat → Forall (tok_ok expr) (spec_toks expr j (i - j)).
Proof.
  intros Hji. unfold spec_toks. case_decide; constructor; [|done].
  unfold tok_ok. simpl. split_and!; [lia|lia|done].
Qed.

Lemma new_tok_emit last off len :
  (off ≤ length expr)%nat →
  new_tok expr last off len = emit last 0 (spec_toks expr off len).
Proof.
  intros Hoff. unfold new_tok, spec_toks, emit.
  destruct (decide (len = 0%nat)); destruct last as [|cap l0]; simpl; try done.
  - rewrite decide_True by auto. by rewrite app_nil_r.
  - destruct (cget_total expr off Hoff) as [c Hc]. rewrite Hc. simpl.
    unfold spec_tok. rewrite Hc. simpl.
    case_decide as D1; case_decide as D2; [done| | |done]; exfalso.
    + apply D2. left. lia.
    + destruct D2 as [D2|D2]; [lia|done].
Qed.

Lemma emit_app last cnt l1 l2 last' n' :
  emit last 0 l1 = Some (last', n') →
  emit last' (cnt + n') l2 = emit last cnt (l1 ++ l2).
Proof.
  destruct last as [|cap l0]; simpl.
  - intros [= <- <-]. simpl. rewrite length_app. do 2 f_equal. lia.
  - case_decide as D1; intros [= <- <-]. simpl.
    rewrite !length_app, <- app_assoc.
    destruct (decide (length l0 + length l1 + length l2 ≤ cap ∨ l2 = [])%nat) as [D2|D2];
      destruct (decide (length l0 + (length l1 + length l2) ≤ cap ∨ l1 ++ l2 = [])%nat) as [D3|D3];
      [do 2 f_equal; lia| | |done].
    + exfalso. apply D3. destruct D2 as [D2| ->]; [left; lia|].
      destruct D1 as [D1| ->]; [left; simpl; lia|by right].
    + exfalso. apply D2. destruct D3 as [D3|D3]; [left; lia|].
      right. by apply app_eq_nil in D3 as [_ ->].
Qed.

Lemma emit_fail last cnt l1 l2 :
  emit last 0 l1 = None → emit last cnt (l1 ++ l2) = None.
Proof.
  destruct last as [|cap l0]; simpl; [done|]. case_decide as D1; [done|]. intros _.
  apply decide_False. intros [D|D]; apply D1.
  - rewrite length_app in D. left. lia.
  - right. by apply app_eq_nil in D as [-> _].
Qed.

(** Emitting some tokens and continuing with a computation that emits more. *)
Lemma emit_bind last cnt l1 l2 (k : tok_ptr → nat → option (tok_ptr * nat)) :
  (∀ last' n', k last' n' = emit last' (cnt + n') l2) →
  ('(last', n') ← emit last 0 l1; k last' n') = emit last cnt (l1 ++ l2).
Proof.
  intros Hk. destruct (emit last 0 l1) as [[last' n']|] eqn:E; simpl.
  - rewrite Hk. by apply emit_app.
  - by rewrite emit_fail.
Qed.

Lemma char_ok i c : expr !! i = Some c → (c =? 0) = false.
Proof.
  intros Hc. apply Z.eqb_neq.
  pose proof (Forall_lookup_1 _ _ _ _ Hexpr Hc) as H. simpl in H. lia.
Qed.

Lemma skip_quoted_spec fuel i :
  (i < length expr)%nat → (length expr - i ≤ fuel)%nat →
  ∃ i', skip_quoted fuel expr i = Some i' ∧ (i ≤ i' < length expr)%nat ∧
    ∀ cur, lex true cur (drop (S i) expr) = lex false (cur ++ sub (S i) (S i')) (drop (S i') expr).
Proof.
  revert i. induction fuel as [|fuel IH]; intros i Hi Hf; [lia|]. simpl.
  destruct (decide (S i = length expr)) as [E|E].
  - unfold cget. rewrite decide_True by done. simpl.
    exists i. split_and!; [done|lia|lia|]. intros cur.
    rewrite sub_nil, app_nil_r, drop_ge by lia. done.
  - assert (S i < length expr)%nat as Hlt by lia.
    destruct (lookup_lt_is_Some_2 expr _ Hlt) as [c Hc].
    rewrite cget_lt, Hc by done. simpl.
    rewrite (drop_S _ _ _ Hc).
    destruct (c =? cDQ) eqn:Eq.
    + exists (S i). split_and!; [done|lia|lia|]. intros cur. simpl. rewrite Eq. simpl.
      rewrite (sub_snoc _ _ c), sub_nil; done.
    + rewrite (char_ok _ _ Hc).
      destruct (IH (S i)) as (i' & Hs & Hb & Hl); [lia|lia|].
      exists i'. split_and!; [done|lia|lia|]. intros cur. cbn [lex]. rewrite Eq. simpl negb.
      rewrite Hl, <- app_assoc. f_equal. f_equal. unfold sub.
      replace (S i' - S i)%nat with (S (S i' - S (S i))) by lia.
      rewrite (drop_S _ _ _ Hc). done.
Qed.

Lemma tokenize_loop_spec fuel i j :
  (j ≤ i ≤ length expr)%nat → (length expr - i < fuel)%nat →
  ∃ L, (∀ last cnt, tokenize_loop fuel expr last i j cnt = emit last cnt L) ∧
    tok_text expr <$> L = lex false (sub j i) (drop i expr) ∧
    Forall (tok_ok expr) L.
Proof.
  revert i j. induction fuel as [|fuel IH]; intros i j Hij Hf; [lia|].
  destruct (decide (i = length expr)) as [Ei|Ei].
  { exists (spec_toks expr j (i - j)). split_and!.
    - intros last cnt. simpl. rewrite Ei, cget_end. simpl. rewrite new_tok_emit by lia.
      rewrite <- Ei. etrans; [apply (emit_bind _ cnt _ [])|by rewrite app_nil_r].
      intros last' n'. destruct last'; simpl.
      + by rewrite Nat.add_0_r.
      + rewrite decide_True by auto. by rewrite app_nil_r, Nat.add_0_r.
    - rewrite (drop_ge expr) by lia. by apply flush_sub.
    - by apply spec_toks_ok. }
  assert (i < length expr)%nat as Hi by lia.
  destruct (lookup_lt_is_Some_2 expr _ Hi) as [c Hc].
  assert (sub i (S i) = [c]) as Hsub by (rewrite (sub_snoc _ _ c), sub_nil; done).
  cbn [tokenize_loop]. rewrite cget_lt, Hc by done. simpl. rewrite (char_ok _ _ Hc).
  rewrite (drop_S _ _ _ Hc). cbn [lex].
  destruct (is_op_char c) eqn:Eop.
  { destruct (IH (S i) (S i)) as (L & HL & Ht & Hok); [lia|lia|].
    exists (spec_toks expr j (i - j) ++ spec_toks expr i 1 ++ L). split_and!.
    - intros last cnt. rewrite new_tok_emit by lia.
      apply emit_bind. intros last' n'. rewrite new_tok_emit by lia.
      apply emit_bind. intros last'' n''. apply HL.
    - rewrite !fmap_app, flush_sub by done. f_equal.
      replace 1%nat with (S i - i)%nat by lia.
      rewrite flush_sub, Hsub by lia. f_equal. by rewrite Ht, sub_nil.
    - rewrite !Forall_app. split_and!; [by apply spec_toks_ok| |done].
      replace 1%nat with (S i - i)%nat by lia. apply spec_toks_ok. lia. }
  destruct (is_blank_char c) eqn:Ebl.
  { destruct (IH (S i) (S i)) as (L & HL & Ht & Hok); [lia|lia|].
    exists (spec_toks expr j (i - j) ++ L). split_and!.
    - intros last cnt. rewrite new_tok_emit by lia.
      apply emit_bind. intros last' n'. apply HL.
    - rewrite fmap_app, flush_sub by done. f_equal. by rewrite Ht, sub_nil.
    - rewrite Forall_app. split; [by apply spec_toks_ok|done]. }
  rewrite <- (sub_snoc j i c) by (done || lia).
  destruct (c =? cDQ) eqn:Edq.
  { destruct (skip_quoted_spec fuel i) as (i' & Hs & Hb & Hl); [lia|lia|].
    destruct (IH (S i') j) as (L & HL & Ht & Hok); [lia|lia|].
    exists L. split_and!; [|rewrite Ht, Hl; f_equal|done].
    - intros last cnt. rewrite Hs. simpl. apply HL.
    - symmetry. apply sub_app. lia. }
  destruct (IH (S i) j) as (L & HL & Ht & Hok); [lia|lia|].
  exists L. split_and!; [|done|done]. intros last cnt. apply HL.
Qed.
End Tokenizer.

(** The characters of [s] without the blanks outside quotes. *)
Fixpoint visible (q : bool) (s : list Z) : list Z :=
  match s with
  | [] => []
  | c :: s =>
      if q then c :: visible (negb (c =? cDQ)) s
      else if is_blank_char c && negb (is_op_char c) then visible false s
      else c :: visible (c =? cDQ) s
  end.

Lemma concat_flush cur : concat (flush cur) = cur.
Proof. unfold flush. case_decide; subst; simpl; [done|by rewrite app_nil_r]. Qed.

Lemma op_char_not_dq c : is_op_char c = true → (c =? cDQ) = false.
Proof.
  intros H. apply Z.eqb_neq. intros ->. by vm_compute in H.
Qed.

Lemma concat_lex q cur s : concat (lex q cur s) = cur ++ visible q s.
Proof.
  revert q cur. induction s as [|c s IH]; intros q cur; simpl.
  - by rewrite concat_flush, app_nil_r.
  - destruct q; [by rewrite IH, <- app_assoc|].
    destruct (is_op_char c) eqn:Eo.
    + rewrite concat_app, concat_flush, andb_false_r. simpl. by rewrite IH, (op_char_not_dq c Eo).
    + destruct (is_blank_char c) eqn:Eb; simpl.
      * by rewrite concat_app, concat_flush, IH.
      * by rewrite IH, <- app_assoc.
Qed.

Lemma tokenize_spec expr :
  cstring expr →
  ∃ toks, tokenize expr TokNull = Some (TokNull, length toks) ∧
    tokenize expr (TokBuf (length toks) []) = Some (TokBuf (length toks) toks, length toks) ∧
    tok_text expr <$> toks = lex false [] expr ∧ Forall (tok_ok expr) toks.
Proof.
  intros Hexpr. destruct (tokenize_loop_spec expr Hexpr (2 + length expr) 0 0) as (L & HL & Ht & Hok);
    [lia|lia|]. rewrite drop_0, sub_nil in Ht.
  exists L. split_and!; [apply HL| |done|done].
  unfold tokenize. rewrite HL. simpl. by rewrite decide_True by auto.
Qed.
