(* ===== verification/BoolExprYard.v ===== *)
(** * The shunting yard of lib/tst_bool_expr.c accepts exactly a grammar

    First the arrays with capacities are refined by lists that cannot
    overflow; then the lists are related to derivations of the grammar
    [prim ::= VAR | NOT prim | LPAR expr RPAR],
    [expr ::= prim | expr AND prim | expr OR prim]
    whose two binary operators have the same precedence and associate to the
    left. *)

From S2P Require Import Prelude BoolExpr.
Open Scope nat_scope.

(** ** Derivations, with the index of every token *)

Inductive prim :=
  | PVar (i : nat)
  | PNot (i : nat) (p : prim)
  | PPar (l : nat) (e : expr) (r : nat)
with expr :=
  | EPrim (p : prim)
  | EBin (e : expr) (o : nat) (p : prim).

Scheme prim_mut := Induction for prim Sort Prop
  with expr_mut := Induction for expr Sort Prop.
Combined Scheme prim_expr_ind from prim_mut, expr_mut.

(** The tokens in the order of the text. *)
Fixpoint prim_toks (p : prim) : list nat :=
  match p with
  | PVar i => [i]
  | PNot i p => i :: prim_toks p
  | PPar l e r => l :: expr_toks e ++ [r]
  end
with expr_toks (e : expr) : list nat :=
  match e with
  | EPrim p => prim_toks p
  | EBin e o p => expr_toks e ++ o :: prim_toks p
  end.

(** The tokens in postfix order; parentheses are dropped. *)
Fixpoint prim_rpn (p : prim) : list nat :=
  match p with
  | PVar i => [i]
  | PNot i p => prim_rpn p ++ [i]
  | PPar _ e _ => expr_rpn e
  end
with expr_rpn (e : expr) : list nat :=
  match e with
  | EPrim p => prim_rpn p
  | EBin e o p => expr_rpn e ++ prim_rpn p ++ [o]
  end.

Section Grammar.
Context (tb : list tst_expr_tok).

Definition opn (i : nat) : option tst_op := op <$> tb !! i.

Definition is_binop (o : option tst_op) : Prop := o = Some TST_OP_AND ∨ o = Some TST_OP_OR.

#[export] Instance is_binop_dec o : Decision (is_binop o).
Proof. apply _. Defined.
#[local] Typeclasses Opaque is_binop.

Fixpoint prim_wf (p : prim) : Prop :=
  match p with
  | PVar i => opn i = Some TST_OP_VAR
  | PNot i p => opn i = Some TST_OP_NOT ∧ prim_wf p
  | PPar l e r => opn l = Some TST_OP_LPAR ∧ expr_wf e ∧ opn r = Some TST_OP_RPAR
  end
with expr_wf (e : expr) : Prop :=
  match e with
  | EPrim p => prim_wf p
  | EBin e o p => expr_wf e ∧ is_binop (opn o) ∧ prim_wf p
  end.

(** [e] derives the whole token buffer. *)
Definition derives (e : expr) : Prop := expr_wf e ∧ expr_toks e = seq 0 (length tb).

(** ** The yard on lists: the operator stack with its top first *)

Fixpoint a_nots (st out : list nat) : list nat * list nat :=
  match st with
  | x :: st' => if decide (opn x = Some TST_OP_NOT) then a_nots st' (out ++ [x]) else (st, out)
  | [] => ([], out)
  end.

Fixpoint a_lpar (st out : list nat) : option (list nat * list nat) :=
  match st with
  | x :: st' => if decide (opn x = Some TST_OP_LPAR) then Some (st', out) else a_lpar st' (out ++ [x])
  | [] => None
  end.

Fixpoint a_rest (st out : list nat) : nat + list nat :=
  match st with
  | x :: st' => if decide (opn x = Some TST_OP_LPAR) then inl x else a_rest st' (out ++ [x])
  | [] => inr out
  end.

Definition a_binop (st out : list nat) : list nat * list nat :=
  match st with
  | x :: st' => if decide (is_binop (opn x)) then (st', out ++ [x]) else (st, out)
  | [] => ([], out)
  end.

(** A step that does not fail. *)
Definition a_step (i : nat) (o : tst_op) (prev : option tst_op) (st out : list nat)
    : option (list nat * list nat) :=
  match o with
  | TST_OP_VAR => if check_one prev then None else Some (a_nots st (out ++ [i]))
  | TST_OP_LPAR | TST_OP_NOT => if check_one prev then None else Some (i :: st, out)
  | TST_OP_RPAR =>
      if check_two prev then '(st, out) ← a_lpar st out; Some (a_nots st out) else None
  | TST_OP_AND | TST_OP_OR =>
      if check_two prev then let '(st, out) := a_binop st out in Some (i :: st, out) else None
  end.

Fixpoint a_loop (ops : list tst_op) (i : nat) (prev : option tst_op) (st out : list nat)
    : option (list nat * list nat) :=
  match ops with
  | [] => Some (st, out)
  | o :: ops => '(st, out) ← a_step i o prev st out; a_loop ops (S i) (Some o) st out
  end.

(** ** The arrays refine the lists *)

Lemma stack_pop_rev x st : stack_pop (rev (x :: st)) = (Some x, rev st).
Proof.
  unfold stack_pop, stack_empty. simpl. rewrite bool_decide_eq_false_2 by (by destruct (rev st)).
  rewrite last_snoc, length_app. simpl.
  replace (length (rev st) + 1 - 1) with (length (rev st)) by lia.
  by rewrite take_app_length.
Qed.

Lemma stack_peek_rev x st o :
  opn x = Some o → stack_peek_op tb (rev (x :: st)) = Some (Some o).
Proof.
  unfold opn, stack_peek_op. simpl. rewrite last_snoc. intros H.
  destruct (tb !! x); simplify_eq/=. done.
Qed.

Lemma stack_push_ok cap st x : length st < cap → stack_push cap st x = Some (st ++ [x]).
Proof. intros. unfold stack_push. by rewrite decide_True. Qed.

(** The pointers of the two arrays are distinct tokens before token [i]. *)
Definition yinv (i : nat) (st out : list nat) : Prop := st ++ out ⊆+ seq 0 i.

Lemma yinv_length i st out : yinv i st out → length st + length out ≤ i.
Proof.
  intros H%submseteq_length. by rewrite length_app, length_seq in H.
Qed.

Lemma yinv_lookup i x st out :
  i ≤ length tb → yinv i (x :: st) out → ∃ o, opn x = Some o.
Proof.
  intros Hi H. unfold opn.
  assert (x ∈ seq 0 i) as Hx%elem_of_seq by (eapply elem_of_submseteq; [|done]; set_solver).
  destruct (lookup_lt_is_Some_2 tb x) as [t ->]; [lia|]. by exists (op t).
Qed.

Lemma yinv_move i x st out : yinv i (x :: st) out → yinv i st (out ++ [x]).
Proof.
  unfold yinv. intros H. etrans; [|done]. rewrite app_assoc. simpl.
  apply Permutation_submseteq. by rewrite <- Permutation_cons_append.
Qed.

Lemma yinv_drop i x st out : yinv i (x :: st) out → yinv i st out.
Proof. unfold yinv. intros H. etrans; [|done]. simpl. by apply submseteq_cons. Qed.

Lemma yinv_push_st i st out : yinv i st out → yinv (S i) (i :: st) out.
Proof.
  unfold yinv. intros H. rewrite seq_S. simpl.
  rewrite <- Permutation_cons_append. by constructor.
Qed.

Lemma yinv_push_out i st out : yinv i st out → yinv (S i) st (out ++ [i]).
Proof. intros H. by apply yinv_move, yinv_push_st. Qed.

Lemma yinv_mono i j st out : i ≤ j → yinv i st out → yinv j st out.
Proof.
  unfold yinv. intros Hij H. etrans; [done|].
  replace j with (i + (j - i)) by lia. rewrite seq_app. by apply submseteq_inserts_r.
Qed.

Lemma pop_nots_ok i fuel st out :
  i ≤ length tb → yinv i st out → length st < fuel →
  pop_nots tb fuel (mk_sy (rev st) out) = (let '(st, out) := a_nots st out in Some (mk_sy (rev st) out))
  ∧ (let '(st, out) := a_nots st out in yinv i st out).
Proof.
  intros Hi. revert st out. induction fuel as [|fuel IH]; intros st out Hinv Hf; [lia|].
  cbn [pop_nots op_stack]. destruct st as [|x st]; [done|].
  destruct (yinv_lookup _ _ _ _ Hi Hinv) as [o Ho].
  rewrite (stack_peek_rev x st o Ho). cbn [mbind option_bind a_nots]. rewrite Ho.
  destruct (decide (Some o = Some TST_OP_NOT)); [|done].
  rewrite stack_pop_rev. cbn [BoolExpr.out]. pose proof (yinv_length _ _ _ Hinv) as Hl. simpl in Hl, Hf.
  rewrite stack_push_ok by lia. simpl. apply IH; [by apply yinv_move|lia].
Qed.

Lemma pop_till_lpar_ok i fuel st out :
  i ≤ length tb → yinv i st out → length st < fuel →
  match a_lpar st out with
  | Some (st', out') =>
      pop_till_lpar tb fuel i (mk_sy (rev st) out) = Some (SyOk (mk_sy (rev st') out')) ∧
      yinv i st' out'
  | None => ∃ m, pop_till_lpar tb fuel i (mk_sy (rev st) out) = Some (SyErr i m)
  end.
Proof.
  intros Hi. revert st out. induction fuel as [|fuel IH]; intros st out Hinv Hf; [lia|].
  cbn [pop_till_lpar op_stack]. destruct st as [|x st]; [by eexists|].
  destruct (yinv_lookup _ _ _ _ Hi Hinv) as [o Ho]. rewrite stack_pop_rev.
  cbn [a_lpar]. rewrite Ho. unfold opn in Ho.
  destruct (tb !! x) as [t|]; simplify_eq/=.
  destruct (decide (Some (op t) = Some TST_OP_LPAR)) as [E|E];
    destruct (decide (op t = TST_OP_LPAR)) as [E'|E']; try congruence.
  - split; [done|by eapply yinv_drop].
  - pose proof (yinv_length _ _ _ Hinv) as Hl. simpl in Hl, Hf.
    rewrite stack_push_ok by lia. simpl. apply IH; [by apply yinv_move|lia].
Qed.

Lemma pop_rest_ok fuel st out :
  yinv (length tb) st out → length st < fuel →
  match a_rest st out with
  | inr out' => pop_rest tb fuel (mk_sy (rev st) out) = Some (SyOk (mk_sy [] out')) ∧
      yinv (length tb) [] out'
  | inl x => ∃ m, pop_rest tb fuel (mk_sy (rev st) out) = Some (SyErr x m) ∧ x < length tb
  end.
Proof.
  revert st out. induction fuel as [|fuel IH]; intros st out Hinv Hf; [lia|].
  cbn [pop_rest op_stack]. destruct st as [|x st]; [done|].
  destruct (yinv_lookup _ _ _ _ (Nat.le_refl _) Hinv) as [o Ho]. rewrite stack_pop_rev.
  cbn [a_rest]. rewrite Ho. unfold opn in Ho.
  destruct (tb !! x) as [t|] eqn:Ht; simplify_eq/=.
  destruct (decide (Some (op t) = Some TST_OP_LPAR)) as [E|E];
    destruct (decide (op t = TST_OP_LPAR)) as [E'|E']; try congruence.
  - eexists. split; [done|]. by eapply lookup_lt_Some.
  - pose proof (yinv_length _ _ _ Hinv) as Hl. simpl in Hl, Hf.
    rewrite stack_push_ok by lia. simpl. apply IH; [by apply yinv_move|lia].
Qed.

(** What a step of the lists says of the step of the arrays. *)
Definition step_ok (i : nat) (r : option sy_res) (a : option (list nat * list nat)) : Prop :=
  match a with
  | Some (st, out) => r = Some (SyOk (mk_sy (rev st) out)) ∧ yinv (S i) st out
  | None => ∃ m, r = Some (SyErr i m)
  end.

Lemma push_ok i st out :
  i < length tb → yinv i st out →
  step_ok i (st' ← stack_push (length tb) (rev st) i; Some (SyOk (mk_sy st' out))) (Some (i :: st, out)).
Proof.
  intros Hi Hinv. pose proof (yinv_length _ _ _ Hinv).
  rewrite stack_push_ok by (rewrite length_rev; lia). split; [done|by apply yinv_push_st].
Qed.

Lemma peek_binop_ok i st out :
  i ≤ length tb → yinv i st out →
  ∃ o, stack_peek_op tb (rev st) = Some o ∧
    (if decide (o = Some TST_OP_AND ∨ o = Some TST_OP_OR) then
       match stack_pop (rev st) with
       | (Some x, st) => out' ← stack_push (length tb + 1) out x; Some (mk_sy st out')
       | (None, _) => None
       end
     else Some (mk_sy (rev st) out)) =
    (let '(st, out) := a_binop st out in Some (mk_sy (rev st) out)) ∧
    (let '(st, out) := a_binop st out in yinv i st out).
Proof.
  intros Hi Hinv. destruct st as [|x st]; [by exists None|].
  destruct (yinv_lookup _ _ _ _ Hi Hinv) as [o Ho].
  exists (Some o). rewrite (stack_peek_rev x st o Ho), stack_pop_rev. split; [done|].
  cbn [a_binop]. rewrite Ho. unfold is_binop.
  destruct (decide (Some o = Some TST_OP_AND ∨ Some o = Some TST_OP_OR)); [|done].
  pose proof (yinv_length _ _ _ Hinv) as Hl. simpl in Hl.
  rewrite stack_push_ok by lia. split; [done|by apply yinv_move].
Qed.

Lemma yard_step_ok i o prev st out :
  i < length tb → yinv i st out →
  step_ok i (yard_step tb i o prev (mk_sy (rev st) out)) (a_step i o prev st out).
Proof.
  intros Hi Hinv. pose proof (yinv_length _ _ _ Hinv) as Hl.
  destruct o; cbn [yard_step a_step BoolExpr.op_stack BoolExpr.out].
  - destruct (check_one prev); [by eexists|]. by apply push_ok.
  - destruct (check_two prev); [|by eexists]. cbn [negb].
    destruct (peek_binop_ok i st out) as (o & -> & E & Hinv'); [lia|done|].
    rewrite obind_Some, E.
    destruct (a_binop st out) as [st' out']. by apply push_ok.
  - destruct (check_two prev); [|by eexists]. cbn [negb].
    destruct (peek_binop_ok i st out) as (o & -> & E & Hinv'); [lia|done|].
    rewrite obind_Some, E.
    destruct (a_binop st out) as [st' out']. by apply push_ok.
  - destruct (check_one prev); [by eexists|].
    rewrite stack_push_ok by lia. cbn [mbind option_bind BoolExpr.op_stack].
    destruct (pop_nots_ok (S i) (S (length tb)) st (out ++ [i])) as [E Hinv'];
      [lia|by apply yinv_push_out|lia|].
    rewrite E. destruct (a_nots st (out ++ [i])) as [st' out']. done.
  - destruct (check_one prev); [by eexists|]. by apply push_ok.
  - destruct (check_two prev); [|by eexists]. cbn [negb].
    pose proof (pop_till_lpar_ok i (S (length tb)) st out) as H.
    destruct (a_lpar st out) as [[st' out']|].
    + destruct H as [-> Hinv']; [lia|done|lia|]. cbn [mbind option_bind].
      apply (yinv_mono _ (S i)) in Hinv'; [|lia]. pose proof (yinv_length _ _ _ Hinv').
      destruct (pop_nots_ok (S i) (S (length tb)) st' out') as [E Hinv'']; [lia|done|lia|].
      rewrite E. destruct (a_nots st' out') as [st'' out'']. done.
    + destruct H as [m ->]; [lia|done|lia|]. by eexists.
Qed.

Lemma yard_loop_ok ts i prev st out :
  i + length ts ≤ length tb → yinv i st out →
  match a_loop (op <$> ts) i prev st out with
  | Some (st', out') => yard_loop tb ts i prev (mk_sy (rev st) out) = Some (SyOk (mk_sy (rev st') out'))
      ∧ yinv (i + length ts) st' out'
  | None => ∃ j m, yard_loop tb ts i prev (mk_sy (rev st) out) = Some (SyErr j m) ∧ j < i + length ts
  end.
Proof.
  revert i prev st out. induction ts as [|t ts IH]; intros i prev st out Hi Hinv; simpl in *.
  - by rewrite Nat.add_0_r.
  - pose proof (yard_step_ok i (op t) prev st out) as H. unfold step_ok in H.
    destruct (a_step i (op t) prev st out) as [[st' out']|]; simpl.
    + destruct H as [-> Hinv']; [lia|done|]. simpl.
      specialize (IH (S i) (Some (op t)) st' out'). rewrite Nat.add_succ_comm in IH.
      apply IH; [lia|done].
    + destruct H as [m ->]; [lia|done|]. simpl. exists i, m. split; [done|lia].
Qed.

(** The result of the yard, on lists: the postfix order, when accepted. *)
Definition a_yard : option (list nat) :=
  '(st, out) ← a_loop (op <$> tb) 0 None [] [];
  if check_two (op <$> last tb) then
    match a_rest st out with inr out => Some out | inl _ => None end
  else None.

(** The yard never leaves its arrays; it fails at some token of the buffer
    exactly when [a_yard] rejects. *)
#[local] Arguments pop_rest : simpl never.
#[local] Arguments check_two : simpl never.

Lemma yard_ok :
  tb ≠ [] →
  match a_yard with
  | Some out => yard tb = Some (SyOk (mk_sy [] out)) ∧ out ⊆+ seq 0 (length tb)
  | None => ∃ j m, yard tb = Some (SyErr j m) ∧ j < length tb
  end.
Proof.
  intros Htb. unfold a_yard, yard.
  pose proof (yard_loop_ok tb 0 None [] []) as H.
  destruct (a_loop (op <$> tb) 0 None [] []) as [[st out]|]; simpl.
  2:{ destruct H as (j & m & E & Hj); [lia|by apply submseteq_nil_l|].
      simpl in E. rewrite E. simpl. by exists j, m. }
  destruct H as [E Hinv]; [lia|by apply submseteq_nil_l|]. simpl in E, Hinv. rewrite E. rewrite obind_Some.
  assert (length tb ≠ 0) as Hl by (by destruct tb).
  rewrite decide_False by done.
  replace (length tb - 1) with (pred (length tb)) by lia.
  rewrite <- last_lookup. destruct (last tb) as [t|] eqn:Et; [|by apply last_None in Et].
  rewrite obind_Some. cbn [fmap option_fmap option_map].
  destruct (check_two (Some (op t))); cbn [negb].
  - pose proof (yinv_length _ _ _ Hinv).
    pose proof (pop_rest_ok (S (length tb)) st out Hinv) as H'.
    destruct (a_rest st out) as [x|out'].
    + destruct H' as (m & E' & Hx); [lia|]. exists x, m. done.
    + apply H'. lia.
  - eexists _, _. split; [done|]. lia.
Qed.

(** ** Derivations are accepted *)

Definition base (st : list nat) : Prop :=
  match st with [] => True | x :: _ => opn x = Some TST_OP_LPAR end.

(** The last binary operator stays on the stack until the next one. *)
Definition pend (e : expr) : list nat :=
  match e with EPrim _ => [] | EBin _ o _ => [o] end.

Definition body (e : expr) : list nat :=
  match e with EPrim p => prim_rpn p | EBin e _ p => expr_rpn e ++ prim_rpn p end.

Lemma expr_rpn_body e : expr_rpn e = body e ++ pend e.
Proof. destruct e; simpl; by rewrite ?app_nil_r, <- ?app_assoc. Qed.

Fixpoint prim_last (p : prim) : tst_op :=
  match p with PVar _ => TST_OP_VAR | PNot _ p => prim_last p | PPar _ _ _ => TST_OP_RPAR end.

Definition expr_last (e : expr) : tst_op :=
  match e with EPrim p => prim_last p | EBin _ _ p => prim_last p end.

Lemma prim_last_ok p : check_two (Some (prim_last p)) = true.
Proof. by induction p. Qed.

Lemma expr_last_ok e : check_two (Some (expr_last e)) = true.
Proof. destruct e; apply prim_last_ok. Qed.

Lemma a_nots_stop st out :
  (∀ x st', st = x :: st' → opn x ≠ Some TST_OP_NOT) → a_nots st out = (st, out).
Proof. intros H. destruct st as [|x st]; [done|]. simpl. rewrite decide_False; [done|by eapply H]. Qed.

Lemma a_nots_app ns st out :
  Forall (λ n, opn n = Some TST_OP_NOT) ns →
  (∀ x st', st = x :: st' → opn x ≠ Some TST_OP_NOT) →
  a_nots (ns ++ st) out = (st, out ++ ns).
Proof.
  intros Hns Hst. revert out. induction Hns as [|n ns Hn _ IH]; intros out; simpl.
  - by rewrite a_nots_stop, app_nil_r.
  - by rewrite decide_True, IH, <- app_assoc.
Qed.

Lemma base_not_top st x st' : base st → st = x :: st' → opn x ≠ Some TST_OP_NOT.
Proof. intros Hb ->. simpl in Hb. congruence. Qed.

Lemma binop_not_top o st x st' : is_binop (opn o) → o :: st = x :: st' → opn x ≠ Some TST_OP_NOT.
Proof. intros Hb [= -> ->]. destruct Hb; congruence. Qed.

Lemma a_lpar_pend e l st out :
  expr_wf e → opn l = Some TST_OP_LPAR → a_lpar (pend e ++ l :: st) out = Some (st, out ++ pend e).
Proof.
  intros He Hl. destruct e as [p|e o p]; simpl.
  - by rewrite decide_True, app_nil_r.
  - destruct He as (_ & [Ho|Ho] & _); rewrite Ho, decide_False by done; by rewrite decide_True.
Qed.

Lemma a_binop_pend e st out :
  expr_wf e → base st → a_binop (pend e ++ st) out = (st, out ++ pend e).
Proof.
  intros He Hst. destruct e as [p|e o p]; simpl.
  - rewrite app_nil_r. destruct st as [|x st]; [done|]. simpl in *. rewrite Hst.
    by rewrite decide_False by (by intros [|]).
  - destruct He as (_ & Ho & _). by rewrite decide_True.
Qed.

Lemma check_one_two prev : check_one prev = check_two prev.
Proof. by destruct prev as [[]|]. Qed.

(** The operators of consecutive tokens. *)
Definition has_ops (i : nat) (toks : list nat) (ops : list tst_op) : Prop :=
  toks = seq i (length ops) ∧ Forall2 (λ x o, opn x = Some o) toks ops.

Lemma has_ops_app i t1 t2 ops :
  has_ops i (t1 ++ t2) ops →
  ∃ o1 o2, ops = o1 ++ o2 ∧ has_ops i t1 o1 ∧ has_ops (i + length o1) t2 o2.
Proof.
  intros [Hs Hf]. apply Forall2_app_inv_l in Hf as (o1 & o2 & H1 & H2 & ->).
  rewrite length_app, seq_app in Hs. pose proof (Forall2_length _ _ _ H1) as Hl.
  apply app_inj_1 in Hs as [-> ->]; [|by rewrite length_seq].
  exists o1, o2. done.
Qed.

Lemma has_ops_cons i x t ops :
  has_ops i (x :: t) ops → ∃ o ops', ops = o :: ops' ∧ x = i ∧ opn x = Some o ∧ has_ops (S i) t ops'.
Proof.
  intros [Hs Hf]. apply Forall2_cons_inv_l in Hf as (o & ops' & Ho & Hf & ->).
  simpl in Hs. injection Hs as -> Hs. exists o, ops'. done.
Qed.

Lemma has_ops_nil i ops : has_ops i [] ops → ops = [].
Proof. intros [_ Hf]. by apply Forall2_nil_inv_l in Hf. Qed.

Lemma accept_mut :
  (∀ p i prev ns st out ops rest, prim_wf p → has_ops i (prim_toks p) ops →
     check_one prev = false → Forall (λ n, opn n = Some TST_OP_NOT) ns →
     (∀ x st', st = x :: st' → opn x ≠ Some TST_OP_NOT) →
     a_loop (ops ++ rest) i prev (ns ++ st) out =
     a_loop rest (i + length ops) (Some (prim_last p)) st (out ++ prim_rpn p ++ ns)) ∧
  (∀ e i prev st out ops rest, expr_wf e → has_ops i (expr_toks e) ops →
     check_one prev = false → base st →
     a_loop (ops ++ rest) i prev st out =
     a_loop rest (i + length ops) (Some (expr_last e)) (pend e ++ st) (out ++ body e)).
Proof.
  apply prim_expr_ind.
  - intros x i prev ns st out ops rest Hwf Hops Hprev Hns Hst. simpl in Hwf, Hops.
    apply has_ops_cons in Hops as (o & ops' & -> & -> & Ho & ->%has_ops_nil).
    rewrite Hwf in Ho. injection Ho as <-. simpl. rewrite Hprev. simpl.
    rewrite a_nots_app by done. by rewrite Nat.add_1_r, <- app_assoc.
  - intros x p IH i prev ns st out ops rest [Hx Hwf] Hops Hprev Hns Hst. simpl in Hops.
    apply has_ops_cons in Hops as (o & ops' & -> & -> & Ho & Hops).
    rewrite Hx in Ho. injection Ho as <-. simpl. rewrite Hprev. simpl.
    change (i :: ns ++ st) with ((i :: ns) ++ st). rewrite IH by (done || by constructor).
    rewrite Nat.add_succ_r. simpl. f_equal. by rewrite <- app_assoc.
  - intros l e IH r i prev ns st out ops rest (Hl & Hwf & Hr) Hops Hprev Hns Hst. simpl in Hops.
    apply has_ops_cons in Hops as (o & ops' & -> & -> & Ho & Hops).
    rewrite Hl in Ho. injection Ho as <-.
    apply has_ops_app in Hops as (oe & orr & -> & Hoe & Hor).
    apply has_ops_cons in Hor as (o & ? & -> & -> & Ho & ->%has_ops_nil).
    rewrite Hr in Ho. injection Ho as <-. simpl. rewrite Hprev. simpl.
    rewrite <- app_assoc, (IH _ _ (i :: ns ++ st)) by done. simpl.
    rewrite expr_last_ok, a_lpar_pend by done. simpl. rewrite a_nots_app by done.
    rewrite length_app, expr_rpn_body, <- !app_assoc. simpl. f_equal. lia.
  - intros p IH i prev st out ops rest Hwf Hops Hprev Hst. simpl in *.
    rewrite <- (app_nil_l st) at 1.
    rewrite IH by (done || intros; by eapply base_not_top). by rewrite app_nil_r.
  - intros e IHe o p IHp i prev st out ops rest (He & Ho & Hp) Hops Hprev Hst. simpl in Hops.
    apply has_ops_app in Hops as (oe & op' & -> & Hoe & Hop).
    apply has_ops_cons in Hop as (ob & opp & -> & -> & Hob & Hopp).
    rewrite <- app_assoc, (IHe _ _ st) by done. simpl.
    assert (∀ out, a_step (i + length oe) ob (Some (expr_last e)) (pend e ++ st) out =
      Some (i + length oe :: st, out ++ pend e)) as ->.
    { intros out'. rewrite Hob in Ho.
      destruct Ho as [[= ->]|[= ->]]; simpl; by rewrite expr_last_ok, a_binop_pend. }
    simpl. rewrite <- (app_nil_l (i + length oe :: st)). rewrite IHp; try done.
    + rewrite app_nil_r, length_app. simpl. rewrite expr_rpn_body, <- !app_assoc. f_equal. lia.
    + rewrite Hob in Ho. by destruct Ho as [[= ->]|[= ->]].
    + intros. by eapply binop_not_top.
Qed.

(** ** What is accepted has a derivation *)

(** The tokens [c] consumed while an operand is expected, the output and the
    stack they lead to. *)
Inductive ctx : list nat → list nat → list nat → Prop :=
  | ctx_nil : ctx [] [] []
  | ctx_not c out st n : ctx c out st → opn n = Some TST_OP_NOT → ctx (c ++ [n]) out (n :: st)
  | ctx_lpar c out st l : ctx c out st → opn l = Some TST_OP_LPAR → ctx (c ++ [l]) out (l :: st)
  | ctx_bin c out st e o : ctx c out st → base st → expr_wf e → is_binop (opn o) →
      ctx (c ++ expr_toks e ++ [o]) (out ++ expr_rpn e) (o :: st).

(** The same after an operand. *)
Definition after (c out st : list nat) : Prop :=
  ∃ c0 out0 st0 e, ctx c0 out0 st0 ∧ base st0 ∧ expr_wf e ∧
    c = c0 ++ expr_toks e ∧ out = out0 ++ body e ∧ st = pend e ++ st0.

Lemma ctx_operand c out st p :
  ctx c out st → prim_wf p →
  ∃ out' st', a_nots st (out ++ prim_rpn p) = (st', out') ∧ after (c ++ prim_toks p) out' st'.
Proof.
  intros Hc. revert p. induction Hc as [|c out st n Hc IH Hn|c out st l Hc IH Hl|c out st e o Hc IH Hb He Ho];
    intros p Hp.
  - exists (prim_rpn p), []. split; [done|]. exists [], [], [], (EPrim p). split_and!; try done. constructor.
  - simpl. rewrite decide_True by done.
    destruct (IH (PNot n p)) as (out' & st' & E & Ha); [done|].
    exists out', st'. simpl in *. split; [by rewrite <- app_assoc|by rewrite <- app_assoc].
  - rewrite a_nots_stop by (intros x st' [= -> ->]; congruence).
    eexists _, _. split; [done|]. exists (c ++ [l]), out, (l :: st), (EPrim p). split_and!; try done. by constructor.
  - rewrite a_nots_stop by (intros; by eapply binop_not_top).
    eexists _, _. split; [done|].
    exists c, out, st, (EBin e o p). split_and!; try done; simpl; by rewrite <- !app_assoc.
Qed.

Lemma base_cases st : base st → st = [] ∨ ∃ l st', st = l :: st' ∧ opn l = Some TST_OP_LPAR.
Proof. destruct st as [|l st]; [by left|]. right. by exists l, st. Qed.

Lemma ctx_lpar_inv c out l st :
  ctx c out (l :: st) → opn l = Some TST_OP_LPAR → ∃ c', c = c' ++ [l] ∧ ctx c' out st.
Proof.
  intros Hc Hl. inversion Hc; subst; [congruence|by eexists|].
  by match goal with H : is_binop _ |- _ => destruct H; congruence end.
Qed.

Lemma a_lpar_none_nil e out : expr_wf e → a_lpar (pend e) out = None.
Proof.
  intros He. destruct e as [p|e o p]; [done|]. simpl.
  destruct He as (_ & [Ho|Ho] & _); by rewrite Ho, decide_False.
Qed.

(** The states of the loop, by whether an operand or an operator comes next. *)
Definition yard_state (i : nat) (prev : option tst_op) (st out : list nat) : Prop :=
  if check_two prev then after (seq 0 i) out st else ctx (seq 0 i) out st.

Lemma step_sound i o prev st out st' out' :
  opn i = Some o → yard_state i prev st out → a_step i o prev st out = Some (st', out') →
  yard_state (S i) (Some o) st' out'.
Proof.
  intros Ho Hs. unfold yard_state in *. rewrite seq_S. cbn [Nat.add].
  unfold a_step. rewrite check_one_two.
  destruct (check_two prev).
  - destruct Hs as (c0 & out0 & st0 & e & Hc & Hb & He & -> & -> & ->).
    destruct o; try done.
    1,2: rewrite a_binop_pend by done; intros [= <- <-];
         rewrite <- !app_assoc, <- expr_rpn_body; constructor; try done; by constructor.
    destruct (base_cases _ Hb) as [->|(l & st1 & -> & Hl)].
    + rewrite app_nil_r, a_lpar_none_nil by done. done.
    + rewrite a_lpar_pend by done. cbn. intros [= E].
      destruct (ctx_lpar_inv _ _ _ _ Hc Hl) as (c' & -> & Hc').
      destruct (ctx_operand _ _ _ (PPar l e i) Hc') as (out2 & st2 & E' & Ha); [done|].
      simpl in E'. rewrite expr_rpn_body, app_assoc, E in E'. injection E' as <- <-.
      simpl in Ha. by rewrite <- !app_assoc.
  - destruct o; try done.
    + intros [= <- <-]. by constructor.
    + intros [= E]. destruct (ctx_operand _ _ _ (PVar i) Hs) as (out2 & st2 & E' & Ha); [done|].
      simpl in E'. rewrite E in E'. by injection E' as <- <-.
    + intros [= <- <-]. by constructor.
Qed.

Lemma loop_sound ts i prev st out st' out' :
  (∀ j t, ts !! j = Some t → opn (i + j) = Some (op t)) →
  yard_state i prev st out → a_loop (op <$> ts) i prev st out = Some (st', out') →
  yard_state (i + length ts) (match last ts with Some t => Some (op t) | None => prev end) st' out'.
Proof.
  revert i prev st out. induction ts as [|t ts IH]; intros i prev st out Hts Hs; simpl.
  - intros [= <- <-]. by rewrite Nat.add_0_r.
  - destruct (a_step i (op t) prev st out) as [[st1 out1]|] eqn:E; [|done]. simpl.
    pose proof (Hts 0 t eq_refl) as H0. rewrite Nat.add_0_r in H0.
    intros H. apply IH in H; [|intros j t' Hj; specialize (Hts (S j) t' Hj); by rewrite Nat.add_succ_comm|].
    + rewrite Nat.add_succ_comm in H. rewrite last_cons. by destruct (last ts).
    + by eapply step_sound.
Qed.

Lemma derives_has_ops e : derives e → has_ops 0 (expr_toks e) (op <$> tb).
Proof.
  intros [_ E]. split; [by rewrite length_fmap|]. rewrite E. apply Forall2_same_length_lookup_2.
  { by rewrite length_seq, length_fmap. }
  intros i x o Hx Ho. apply lookup_seq in Hx as [-> _].
  rewrite list_lookup_fmap in Ho. done.
Qed.

Lemma expr_last_toks e : expr_wf e → opn <$> last (expr_toks e) = Some (Some (expr_last e)).
Proof.
  assert (∀ p, prim_wf p → opn <$> last (prim_toks p) = Some (Some (prim_last p))) as Hp.
  { induction p as [i|i p IH|l e' r]; simpl.
    - by intros ->.
    - intros [_ H]. rewrite last_cons. specialize (IH H). by destruct (last (prim_toks p)).
    - intros (_ & _ & H). change (l :: expr_toks e' ++ [r]) with ((l :: expr_toks e') ++ [r]).
      rewrite last_snoc. simpl. by rewrite H. }
  destruct e as [p|e o p]; simpl; [apply Hp|]. intros (_ & _ & H).
  change (o :: prim_toks p) with ([o] ++ prim_toks p). rewrite app_assoc, last_app.
  specialize (Hp p H). by destruct (last (prim_toks p)).
Qed.

Lemma derives_last e : derives e → op <$> last tb = Some (expr_last e).
Proof.
  intros [Hwf E]. pose proof (expr_last_toks e Hwf) as H. rewrite E in H.
  rewrite last_lookup, length_seq in H. rewrite last_lookup.
  destruct (tb !! pred (length tb)) as [t|] eqn:Ht.
  - apply lookup_lt_Some in Ht as Hlt. rewrite lookup_seq_lt in H by done. simpl in H.
    unfold opn in H. rewrite Ht in H. simpl in *. by injection H as ->.
  - apply lookup_ge_None in Ht. rewrite lookup_seq_ge in H by done. done.
Qed.

Lemma a_rest_pend e out : expr_wf e → a_rest (pend e) out = inr (out ++ pend e).
Proof.
  intros He. destruct e as [p|e o p]; simpl; [by rewrite app_nil_r|].
  destruct He as (_ & [Ho|Ho] & _); by rewrite Ho, decide_False.
Qed.

(** The yard accepts exactly the derivable token sequences, with the postfix
    order of the derivation as output. *)
Lemma a_yard_iff out :
  tb ≠ [] → a_yard = Some out ↔ ∃ e, derives e ∧ out = expr_rpn e.
Proof.
  intros Htb. unfold a_yard. split.
  - destruct (a_loop (op <$> tb) 0 None [] []) as [[st out1]|] eqn:E; [|done]. simpl.
    destruct (check_two (op <$> last tb)) eqn:Ec; [|done].
    apply loop_sound in E; [|intros j t Hj; unfold opn; simpl; by rewrite Hj|constructor].
    unfold yard_state in E. simpl in E.
    destruct (last tb) as [t|] eqn:Et; [|by apply last_None in Et].
    cbn [fmap option_fmap option_map] in Ec. rewrite Ec in E.
    destruct E as (c0 & out0 & st0 & e & Hc & Hb & He & Ec0 & -> & ->).
    destruct (base_cases _ Hb) as [->|(l & st1 & -> & Hl)].
    + rewrite app_nil_r, a_rest_pend by done. intros [= <-].
      inversion Hc; subst. exists e. split; [by split|]. by rewrite expr_rpn_body.
    + assert (∃ y, a_rest (pend e ++ l :: st1) (out0 ++ body e) = inl y) as [y ->]; [|done].
      exists l. destruct e as [p|e o p]; simpl; [by rewrite decide_True|].
      destruct He as (_ & [Ho|Ho] & _); rewrite Ho, decide_False by done; by rewrite decide_True.
  - intros (e & Hd & ->). pose proof (proj2 accept_mut e 0 None [] [] (op <$> tb) []) as H.
    rewrite app_nil_r in H. rewrite H; [|apply Hd|by apply derives_has_ops|done|done]. simpl.
    rewrite (derives_last e Hd), expr_last_ok, app_nil_r, a_rest_pend by apply Hd.
    by rewrite expr_rpn_body.
Qed.
End Grammar.
