(* ===== verification/BoolExprFacts.v ===== *)
(** * Parsing and evaluating boolean expressions: the theorems

    The linked list built by the parser is the postfix order of a derivation
    of the tokens, the parser accepts exactly the derivable token sequences,
    and the evaluator computes the value of the derivation with a stack of
    [MAX_STACK] entries. *)

From S2P Require Import Prelude BoolExpr BoolExprTok BoolExprYard.
Open Scope nat_scope.

(** ** The linked list *)

Lemma length_link_out tb out : length (link_out tb out) = length tb.
Proof. revert tb. induction out as [|x out IH]; intros tb; simpl; [done|]. by rewrite IH, length_alter. Qed.

Lemma link_out_other tb out x : x ∉ out → link_out tb out !! x = tb !! x.
Proof.
  revert tb. induction out as [|y out IH]; intros tb Hx; simpl; [done|].
  rewrite IH by set_solver. rewrite list_lookup_alter_ne by set_solver. done.
Qed.

Lemma link_out_lookup tb out k x :
  NoDup out → out !! k = Some x →
  link_out tb out !! x = set_next (out !! S k) <$> tb !! x.
Proof.
  revert tb k. induction out as [|y out IH]; intros tb k Hnd Hk; [done|].
  apply NoDup_cons in Hnd as [Hy Hnd]. destruct k as [|k]; simpl in *.
  - injection Hk as ->. rewrite link_out_other by done.
    rewrite list_lookup_alter_eq. by destruct out.
  - rewrite (IH _ k) by done. rewrite list_lookup_alter_ne; [done|].
    intros ->. apply Hy. by eapply list_elem_of_lookup_2.
Qed.

Lemma link_out_op tb out x : op <$> link_out tb out !! x = op <$> tb !! x.
Proof.
  revert tb. induction out as [|y out IH]; intros tb; simpl; [done|]. rewrite IH.
  rewrite list_lookup_alter. case_decide; [|done]. subst. by destruct (tb !! _).
Qed.

Lemma walk_link_out tb out k fuel :
  NoDup out → Forall (λ x, x < length tb) out → length out ≤ k + fuel →
  walk_list fuel (link_out tb out) (out !! k) = Some (drop k out).
Proof.
  intros Hnd Hlt. revert k. induction fuel as [|fuel IH]; intros k Hk.
  - rewrite lookup_ge_None_2, drop_ge by lia. done.
  - destruct (out !! k) as [x|] eqn:Hx.
    + cbn [walk_list]. rewrite (link_out_lookup _ _ _ _ Hnd Hx).
      pose proof (Forall_lookup_1 _ _ _ _ Hlt Hx) as Hlx. simpl in Hlx.
      destruct (lookup_lt_is_Some_2 _ _ Hlx) as [t ->]. simpl.
      rewrite IH by lia. simpl. by rewrite (drop_S _ _ _ Hx).
    + apply lookup_ge_None in Hx. rewrite drop_ge by done. done.
Qed.

Lemma submseteq_seq out n : out ⊆+ seq 0 n → NoDup out ∧ Forall (λ x, x < n) out ∧ length out ≤ n.
Proof.
  intros H. split_and!.
  - destruct (submseteq_Permutation _ _ H) as [k Hk]. pose proof (NoDup_seq 0 n) as Hn.
    rewrite Hk in Hn. by apply NoDup_app in Hn as [? _].
  - apply Forall_forall. intros x Hx. eapply elem_of_submseteq in Hx; [|done].
    apply elem_of_seq in Hx. lia.
  - apply submseteq_length in H. by rewrite length_seq in H.
Qed.

Lemma rpn_list_link tb out :
  out ⊆+ seq 0 (length tb) → rpn_list (mk_expr (head out) (link_out tb out)) = Some out.
Proof.
  intros (Hnd & Hlt & Hle)%submseteq_seq. unfold rpn_list. simpl.
  rewrite length_link_out, head_lookup, walk_link_out by (done || lia).
  by rewrite drop_0.
Qed.

(** ** The value of a derivation *)

Section Value.
Context (b : list tst_expr_tok) (map : tst_expr_tok → Z).

Definition op_val (o : option tst_op) (x y : Z) : Z :=
  match o with
  | Some TST_OP_AND => c_bool (negb (x =? 0)%Z && negb (y =? 0)%Z)
  | _ => c_bool (negb (x =? 0)%Z || negb (y =? 0)%Z)
  end.

(** [None] when some variable is undefined. *)
Fixpoint prim_val (p : prim) : option Z :=
  match p with
  | PVar i => t ← b !! i; if (map t =? -1)%Z then None else Some (map t)
  | PNot _ p => v ← prim_val p; Some (c_bool (v =? 0)%Z)
  | PPar _ e _ => expr_val e
  end
with expr_val (e : expr) : option Z :=
  match e with
  | EPrim p => prim_val p
  | EBin e o p => x ← expr_val e; y ← prim_val p; Some (op_val (opn b o) x y)
  end.

(** The stack entries an evaluation needs. *)
Fixpoint prim_depth (p : prim) : nat :=
  match p with
  | PVar _ => 1
  | PNot _ p => prim_depth p
  | PPar _ e _ => expr_depth e
  end
with expr_depth (e : expr) : nat :=
  match e with
  | EPrim p => prim_depth p
  | EBin e _ p => expr_depth e `max` S (prim_depth p)
  end.

(** The tokens of a list of indices. *)
Definition toks_of (l : list nat) (ts : list tst_expr_tok) : Prop :=
  Forall2 (λ x t, b !! x = Some t) l ts.

Lemma toks_of_app l1 l2 ts :
  toks_of (l1 ++ l2) ts → ∃ t1 t2, ts = t1 ++ t2 ∧ toks_of l1 t1 ∧ toks_of l2 t2.
Proof. intros H. apply Forall2_app_inv_l in H as (t1 & t2 & ? & ? & ->). eauto. Qed.

Lemma toks_of_one x ts : toks_of [x] ts → ∃ t, ts = [t] ∧ b !! x = Some t ∧ opn b x = Some (op t).
Proof.
  intros H. apply Forall2_cons_inv_l in H as (t & ts' & Ht & H & ->).
  apply Forall2_nil_inv_l in H as ->. exists t. split_and!; [done|done|]. unfold opn. by rewrite Ht.
Qed.

Definition eval_to (d : nat) (v : option Z) (ts : list tst_expr_tok) : Prop :=
  ∀ rest st, eval_loop map (ts ++ rest) st =
    if decide (length st + d ≤ MAX_STACK) then
      match v with Some v => eval_loop map rest (v :: st) | None => Some (-1)%Z end
    else Some (-1)%Z.

Lemma eval_to_var t :
  op t = TST_OP_VAR → eval_to 1 (if (map t =? -1)%Z then None else Some (map t)) [t].
Proof.
  intros Ho rest st. simpl. unfold eval_step. rewrite Ho.
  destruct (decide (MAX_STACK ≤ length st)), (decide (length st + 1 ≤ MAX_STACK)); try lia; [done|].
  by destruct (map t =? -1)%Z.
Qed.

Lemma eval_to_not d v ts t :
  op t = TST_OP_NOT → eval_to d v ts → eval_to d (x ← v; Some (c_bool (x =? 0)%Z)) (ts ++ [t]).
Proof.
  intros Ho H rest st. rewrite <- app_assoc, H. case_decide; [|done].
  destruct v as [v|]; [|done]. simpl. unfold eval_step. by rewrite Ho.
Qed.

Lemma eval_to_bin d1 d2 v1 v2 ts1 ts2 t :
  op t = TST_OP_AND ∨ op t = TST_OP_OR → eval_to d1 v1 ts1 → eval_to d2 v2 ts2 →
  eval_to (d1 `max` S d2) (x ← v1; y ← v2; Some (op_val (Some (op t)) x y)) (ts1 ++ ts2 ++ [t]).
Proof.
  intros Ho H1 H2 rest st. rewrite <- !app_assoc, H1.
  destruct (decide (length st + d1 ≤ MAX_STACK)) as [D1|D1].
  2:{ rewrite decide_False by lia. done. }
  destruct v1 as [v1|]; [|by case_decide].
  rewrite H2. simpl length.
  destruct (decide (S (length st) + d2 ≤ MAX_STACK)) as [D2|D2].
  - rewrite decide_True by lia. destruct v2 as [v2|]; [|done]. simpl. unfold eval_step.
    destruct Ho as [-> | ->]; simpl; do 3 f_equal; by destruct (v1 =? 0)%Z, (v2 =? 0)%Z.
  - by rewrite decide_False by lia.
Qed.

Lemma eval_mut :
  (∀ p ts, prim_wf b p → toks_of (prim_rpn p) ts → eval_to (prim_depth p) (prim_val p) ts) ∧
  (∀ e ts, expr_wf b e → toks_of (expr_rpn e) ts → eval_to (expr_depth e) (expr_val e) ts).
Proof.
  apply prim_expr_ind; simpl.
  - intros i ts Hi Hts. apply toks_of_one in Hts as (t & -> & Ht & Ho).
    rewrite Hi in Ho. injection Ho as Ho. rewrite Ht. by apply eval_to_var.
  - intros i p IH ts [Hi Hp] Hts. apply toks_of_app in Hts as (t1 & t2 & -> & H1 & H2).
    apply toks_of_one in H2 as (t & -> & Ht & Ho). rewrite Hi in Ho. injection Ho as Ho.
    apply eval_to_not; auto.
  - intros l e IH r ts (_ & He & _) Hts. auto.
  - auto.
  - intros e IHe o p IHp ts (He & Ho & Hp) Hts.
    apply toks_of_app in Hts as (t1 & t2 & -> & H1 & H2).
    apply toks_of_app in H2 as (t2' & t3 & -> & H2 & H3).
    apply toks_of_one in H3 as (t & -> & Ht & Ho'). rewrite Ho'.
    apply eval_to_bin; auto. rewrite Ho' in Ho. destruct Ho as [[= ->]|[= ->]]; auto.
Qed.
End Value.

(** ** Parsing *)

Lemma wf_ext b1 b2 :
  (∀ i, opn b1 i = opn b2 i) →
  (∀ p, prim_wf b1 p → prim_wf b2 p) ∧ (∀ e, expr_wf b1 e → expr_wf b2 e).
Proof. intros H. apply prim_expr_ind; simpl; intros; rewrite <- ?H; tauto. Qed.

Lemma derives_link tb out d : derives (link_out tb out) d ↔ derives tb d.
Proof.
  assert (∀ i, opn (link_out tb out) i = opn tb i) as H by (intros i; apply link_out_op).
  unfold derives. rewrite length_link_out. split; intros [Hw Ht]; split; try done.
  - eapply wf_ext; [|done]. done.
  - eapply wf_ext; [|done]. done.
Qed.

(** The text written for the message [err] of token [t]. *)
Definition err_text (s : list Z) (toks : list tst_expr_tok) (t : tst_expr_tok) (err : list Z) : list Z :=
  let off := default 0 (tok <$> head toks) in
  let spaces := tok t - off in
  drop off s ++ [10%Z] ++ print_spaces spaces ++ str "^" ++ [10%Z]
  ++ (if decide (length err < spaces) then print_spaces (spaces - length err + 1) else [])
  ++ err ++ [10%Z].

Lemma err_ok s toks j t m :
  Forall (tok_ok s) toks → toks !! j = Some t →
  tst_bool_expr_err s (mk_expr None (alter (set_priv (Some (PrivErr m))) j toks))
  = Some (err_text s toks t m).
Proof.
  intros Hok Hj. unfold tst_bool_expr_err, err_text. cbn [buf].
  destruct (lookup_lt_is_Some_2 toks 0) as [t0 Ht0].
  { apply lookup_lt_Some in Hj. lia. }
  assert (∃ t0', alter (set_priv (Some (PrivErr m))) j toks !! 0 = Some t0' ∧ tok t0' = tok t0)
    as (t0' & -> & Et0') by (destruct toks, j; simplify_eq/=; eauto).
  rewrite obind_Some, head_lookup, Ht0, Et0'. cbn [fmap option_fmap option_map default].
  assert (list_find (λ t, is_Some (priv t)) (alter (set_priv (Some (PrivErr m))) j toks)
    = Some (j, set_priv (Some (PrivErr m)) t)) as ->; [|done].
  apply list_find_Some. split_and!.
  - by rewrite list_lookup_alter_eq, Hj.
  - by eexists.
  - intros k t' Hk Hlt. rewrite list_lookup_alter_ne in Hk by lia.
    pose proof (Forall_lookup_1 _ _ _ _ Hok Hk) as (_ & _ & ->). simpl. by intros [? ?].
Qed.

Lemma parse_spec s :
  cstring s →
  ∃ toks, tok_text s <$> toks = lex false [] s ∧ Forall (tok_ok s) toks ∧
    (toks = [] → tst_bool_expr_parse true s = Some (None, [])) ∧
    (toks ≠ [] →
     match a_yard toks with
     | Some out => out ⊆+ seq 0 (length toks) ∧
         tst_bool_expr_parse true s = Some (Some (mk_expr (head out) (link_out toks out)), [])
     | None => ∃ j t m, toks !! j = Some t ∧
         tst_bool_expr_parse true s = Some (None, err_text s toks t m)
     end).
Proof.
  intros Hs. destruct (tokenize_spec s Hs) as (toks & E1 & E2 & Ht & Hok).
  exists toks. split_and!; [done|done| |]; unfold tst_bool_expr_parse; rewrite E1, obind_Some.
  { by intros ->. }
  intros Hne. assert (length toks ≠ 0) by (by destruct toks).
  rewrite decide_False by done. cbn [negb]. rewrite E2, obind_Some.
  unfold shunting_yard. pose proof (yard_ok toks Hne) as Hy.
  destruct (a_yard toks) as [out|].
  - destruct Hy as [-> Hsub]. done.
  - destruct Hy as (j & m & -> & Hj). rewrite obind_Some.
    destruct (lookup_lt_is_Some_2 _ _ Hj) as [t Hjt].
    exists j, t, m. split; [done|]. cbn -[tst_bool_expr_err]. by rewrite (err_ok _ _ _ t).
Qed.

Lemma mapM_lookup {A} (b : list A) l : Forall (λ x, x < length b) l → is_Some (mapM (λ x, b !! x) l).
Proof.
  intros H. apply mapM_is_Some. eapply Forall_impl; [done|]. intros x Hx. simpl.
  by apply lookup_lt_is_Some_2.
Qed.

(** The value of [e] with a bounded stack: -1 for an undefined variable or
    when the stack does not suffice. *)
Definition stack_val (b : list tst_expr_tok) (map : tst_expr_tok → Z) (d : expr) : Z :=
  if decide (expr_depth d ≤ MAX_STACK) then default (-1)%Z (expr_val b map d) else (-1)%Z.

Lemma eval_rpn e d map :
  expr_wf (buf e) d → rpn_list e = Some (expr_rpn d) → Forall (λ x, x < length (buf e)) (expr_rpn d) →
  tst_bool_expr_eval e map = Some (stack_val (buf e) map d).
Proof.
  intros Hwf Hr Hlt. unfold tst_bool_expr_eval. rewrite Hr, obind_Some.
  destruct (mapM_lookup (buf e) (expr_rpn d) Hlt) as [ts Hts].
  rewrite Hts, obind_Some. apply mapM_Some in Hts.
  pose proof (proj2 (eval_mut (buf e) map) d ts Hwf Hts [] []) as He.
  rewrite app_nil_r in He. rewrite He. unfold stack_val. cbn [length Nat.add].
  destruct (decide (expr_depth d ≤ MAX_STACK)) as [D|D]; [|done].
  by destruct (expr_val _ _ d).
Qed.

Lemma eval_spec tb out d map :
  tb ≠ [] → derives tb d → a_yard tb = Some out → out ⊆+ seq 0 (length tb) →
  let e := mk_expr (head out) (link_out tb out) in
  tst_bool_expr_eval e map = Some (stack_val (buf e) map d).
Proof.
  intros Htb Hd Hy Hsub e.
  assert (out = expr_rpn d) as Eo.
  { assert (a_yard tb = Some (expr_rpn d)) as E by (apply a_yard_iff; eauto).
    rewrite Hy in E. by injection E. }
  apply eval_rpn.
  - apply (derives_link tb out) in Hd as [Hwf _]. exact Hwf.
  - unfold e. rewrite rpn_list_link by done. by f_equal.
  - unfold e. cbn [buf]. rewrite length_link_out, <- Eo. by apply submseteq_seq in Hsub as (_ & ? & _).
Qed.

(** ** From an expression to its text and back *)

Inductive nprim :=
  | NVar (w : list Z)
  | NNot (p : nprim)
  | NPar (e : nexpr)
with nexpr :=
  | NPrim (p : nprim)
  | NBin (e : nexpr) (cj : bool) (p : nprim).

Scheme nprim_mut := Induction for nprim Sort Prop
  with nexpr_mut := Induction for nexpr Sort Prop.
Combined Scheme nprim_nexpr_ind from nprim_mut, nexpr_mut.

Fixpoint nprim_texts (p : nprim) : list (list Z) :=
  match p with
  | NVar w => [w]
  | NNot p => str "!" :: nprim_texts p
  | NPar e => str "(" :: nexpr_texts e ++ [str ")"]
  end
with nexpr_texts (e : nexpr) : list (list Z) :=
  match e with
  | NPrim p => nprim_texts p
  | NBin e cj p => nexpr_texts e ++ (if cj then str "&" else str "|") :: nprim_texts p
  end.

Definition render (e : nexpr) : list Z := join_sp (nexpr_texts e).

(** A word without operators, blanks and quotes. *)
Definition plain_char (c : Z) : Prop :=
  (0 < c < 256)%Z ∧ is_op_char c = false ∧ is_blank_char c = false ∧ (c =? cDQ)%Z = false.

Definition plain_word (w : list Z) : Prop := w ≠ [] ∧ Forall plain_char w.

Fixpoint nprim_plain (p : nprim) : Prop :=
  match p with NVar w => plain_word w | NNot p => nprim_plain p | NPar e => nexpr_plain e end
with nexpr_plain (e : nexpr) : Prop :=
  match e with NPrim p => nprim_plain p | NBin e _ p => nexpr_plain e ∧ nprim_plain p end.

Fixpoint nprim_val (env : list Z → Z) (p : nprim) : option Z :=
  match p with
  | NVar w => if (env w =? -1)%Z then None else Some (env w)
  | NNot p => v ← nprim_val env p; Some (c_bool (v =? 0)%Z)
  | NPar e => nexpr_val env e
  end
with nexpr_val (env : list Z → Z) (e : nexpr) : option Z :=
  match e with
  | NPrim p => nprim_val env p
  | NBin e cj p =>
      x ← nexpr_val env e; y ← nprim_val env p;
      Some (op_val (Some (if cj then TST_OP_AND else TST_OP_OR)) x y)
  end.

Fixpoint nprim_depth (p : nprim) : nat :=
  match p with NVar _ => 1 | NNot p => nprim_depth p | NPar e => nexpr_depth e end
with nexpr_depth (e : nexpr) : nat :=
  match e with NPrim p => nprim_depth p | NBin e _ p => nexpr_depth e `max` S (nprim_depth p) end.

(** The lexer splits the rendered text into its lexemes. *)
Definition lexeme (x : list Z) : Prop := plain_word x ∨ ∃ c, x = [c] ∧ is_op_char c = true ∧ (0 < c < 256)%Z.

Lemma lex_word w cur s : Forall plain_char w → lex false cur (w ++ s) = lex false (cur ++ w) s.
Proof.
  intros H. revert cur. induction H as [|c w (_ & H1 & H2 & H3) _ IH]; intros cur; simpl.
  - by rewrite app_nil_r.
  - by rewrite H1, H2, H3, IH, <- app_assoc.
Qed.

Lemma lex_lexeme x s :
  lexeme x → s = [] ∨ (∃ s', s = " "%cc :: s') →
  lex false [] (x ++ s) = x :: lex false [] s.
Proof.
  intros [[Hne Hx]|(c & -> & Hc & _)] Hs.
  - rewrite lex_word by done. simpl app.
    destruct Hs as [->|[s' ->]]; simpl; unfold flush; by rewrite decide_False by done.
  - simpl. by rewrite Hc.
Qed.

Lemma lex_join l : Forall lexeme l → lex false [] (join_sp l) = l.
Proof.
  induction 1 as [|x l Hx Hl IH]; [done|]. destruct l as [|y l].
  - simpl. rewrite <- (app_nil_r x) at 1. rewrite lex_lexeme by auto. done.
  - change (join_sp (x :: y :: l)) with (x ++ " "%cc :: join_sp (y :: l)).
    rewrite lex_lexeme by eauto. f_equal. exact IH.
Qed.

Lemma lexemes_mut :
  (∀ p, nprim_plain p → Forall lexeme (nprim_texts p)) ∧
  (∀ e, nexpr_plain e → Forall lexeme (nexpr_texts e)).
Proof.
  assert (∀ c, is_op_char c = true → (0 < c < 256)%Z → lexeme [c]) as Hop by (right; eauto).
  apply nprim_nexpr_ind; simpl.
  - intros w Hw. constructor; [by left|done].
  - intros p IH Hp. constructor; [by apply Hop|auto].
  - intros e IH He. constructor; [by apply Hop|]. apply Forall_app. split; [auto|].
    constructor; [by apply Hop|done].
  - auto.
  - intros e IHe cj p IHp [He Hp]. apply Forall_app. split; [auto|].
    constructor; [destruct cj; by apply Hop|auto].
Qed.

Lemma cstring_join l : Forall lexeme l → cstring (join_sp l).
Proof.
  assert (∀ x, lexeme x → cstring x) as Hx.
  { intros x [[_ H]|(c & -> & _ & H)]; [|by apply Forall_singleton].
    eapply Forall_impl; [exact H|]. by intros c [? _]. }
  induction 1 as [|x l Hl _ IH]; [constructor|]. destruct l as [|y l]; [by apply Hx|].
  change (join_sp (x :: y :: l)) with (x ++ " "%cc :: join_sp (y :: l)).
  apply Forall_app. split; [by apply Hx|]. constructor; [done|exact IH].
Qed.

(** The derivation of the text, the first token having index [i]. *)
Fixpoint nprim_idx (i : nat) (p : nprim) : prim :=
  match p with
  | NVar _ => PVar i
  | NNot p => PNot i (nprim_idx (S i) p)
  | NPar e => PPar i (nexpr_idx (S i) e) (S i + length (nexpr_texts e))
  end
with nexpr_idx (i : nat) (e : nexpr) : expr :=
  match e with
  | NPrim p => EPrim (nprim_idx i p)
  | NBin e _ p =>
      EBin (nexpr_idx i e) (i + length (nexpr_texts e)) (nprim_idx (i + length (nexpr_texts e) + 1) p)
  end.

Lemma idx_toks_mut :
  (∀ p i, prim_toks (nprim_idx i p) = seq i (length (nprim_texts p))) ∧
  (∀ e i, expr_toks (nexpr_idx i e) = seq i (length (nexpr_texts e))).
Proof.
  apply nprim_nexpr_ind; simpl; intros.
  - done.
  - by rewrite H.
  - rewrite H, length_app, seq_app. done.
  - apply H.
  - rewrite H, H0, length_app, seq_app. simpl. by rewrite Nat.add_1_r.
Qed.

Section Rendered.
Context (s : list Z) (b : list tst_expr_tok) (env : list Z → Z).

(** The tokens [b] from index [i] on have the texts [l]. *)
Definition texts_at (i : nat) (l : list (list Z)) : Prop :=
  ∀ k x, l !! k = Some x → ∃ t, b !! (i + k) = Some t ∧ tok_text s t = x ∧
    op t = char_to_op (default 0%Z (head x)).

Lemma texts_at_app i l1 l2 :
  texts_at i (l1 ++ l2) → texts_at i l1 ∧ texts_at (i + length l1) l2.
Proof.
  intros H. split; intros k x Hk.
  - apply H. by apply lookup_app_l_Some.
  - rewrite <- Nat.add_assoc. apply H. rewrite lookup_app_r by lia.
    by replace (length l1 + k - length l1) with k by lia.
Qed.

Lemma texts_at_cons i x l :
  texts_at i (x :: l) → (∃ t, b !! i = Some t ∧ tok_text s t = x ∧ opn b i = Some (op t) ∧
    op t = char_to_op (default 0%Z (head x))) ∧ texts_at (S i) l.
Proof.
  intros H. split.
  - destruct (H 0 x eq_refl) as (t & Ht & Hx & Ho). rewrite Nat.add_0_r in Ht.
    exists t. split_and!; try done. unfold opn. by rewrite Ht.
  - intros k y Hk. rewrite Nat.add_succ_comm. by apply (H (S k)).
Qed.

Lemma plain_word_op w : plain_word w → char_to_op (default 0%Z (head w)) = TST_OP_VAR.
Proof.
  intros [Hne Hw]. destruct w as [|c w]; [done|]. simpl.
  apply Forall_cons in Hw as [(_ & Hc & _) _].
  unfold is_op_char in Hc. unfold char_to_op.
  repeat match type of Hc with context [(c =? ?x)%Z] => destruct (c =? x)%Z; [done|] end. done.
Qed.

Lemma idx_wf_mut :
  (∀ p i, nprim_plain p → texts_at i (nprim_texts p) →
    prim_wf b (nprim_idx i p) ∧ prim_depth (nprim_idx i p) = nprim_depth p ∧
    prim_val b (λ t, env (tok_text s t)) (nprim_idx i p) = nprim_val env p) ∧
  (∀ e i, nexpr_plain e → texts_at i (nexpr_texts e) →
    expr_wf b (nexpr_idx i e) ∧ expr_depth (nexpr_idx i e) = nexpr_depth e ∧
    expr_val b (λ t, env (tok_text s t)) (nexpr_idx i e) = nexpr_val env e).
Proof.
  assert (∀ d o q map, expr_val b map (EBin d o q) =
    (x ← expr_val b map d; y ← prim_val b map q; Some (op_val (opn b o) x y))) as Ebin by done.
  apply nprim_nexpr_ind; cbn -[str length Nat.add expr_val nexpr_val].
  - intros w i Hw H. apply texts_at_cons in H as [(t & Ht & Hx & Ho & Hop) _].
    rewrite Ho, Hop, Ht, plain_word_op by done. simpl. by rewrite Hx.
  - intros p IH i Hp H. apply texts_at_cons in H as [(t & Ht & Hx & Ho & Hop) H].
    destruct (IH (S i) Hp H) as (H1 & H2 & H3). rewrite Ho, Hop, H2, H3. done.
  - intros e IH i He H. apply texts_at_cons in H as [(t & Ht & Hx & Ho & Hop) H].
    apply texts_at_app in H as [H H'].
    apply texts_at_cons in H' as [(t' & Ht' & Hx' & Ho' & Hop') _].
    destruct (IH (S i) He H) as (H1 & H2 & H3).
    split_and!; [by rewrite Ho, Hop|exact H1|by rewrite Ho', Hop'|exact H2|exact H3].
  - auto.
  - intros e IHe cj p IHp i [He Hp] H. apply texts_at_app in H as [H H'].
    apply texts_at_cons in H' as [(t & Ht & Hx & Ho & Hop) H'].
    destruct (IHe i He H) as (H1 & H2 & H3).
    rewrite <- Nat.add_1_r in H'. destruct (IHp _ Hp H') as (H4 & H5 & H6).
    rewrite Ebin, Ho, Hop, H2, H3, H5, H6. destruct cj; split_and!; try done; [by left|by right].
Qed.
End Rendered.

Lemma tok_ok_op s t : tok_ok s t → op t = char_to_op (default 0%Z (head (tok_text s t))).
Proof.
  intros (H1 & H2 & H3). rewrite H3 at 1. unfold spec_tok. cbn [op]. f_equal.
  rewrite cget_lt by lia. unfold tok_text. rewrite head_lookup, lookup_take, lookup_drop.
  rewrite decide_True by lia. by rewrite Nat.add_0_r.
Qed.

Lemma link_out_text s tb out x : tok_text s <$> link_out tb out !! x = tok_text s <$> tb !! x.
Proof.
  revert tb. induction out as [|y out IH]; intros tb; simpl; [done|]. rewrite IH.
  rewrite list_lookup_alter. case_decide; [|done]. subst. by destruct (tb !! _).
Qed.

Lemma texts_at_link s toks out l :
  Forall (tok_ok s) toks → tok_text s <$> toks = l → texts_at s (link_out toks out) 0 l.
Proof.
  intros Hok <- k x Hk. rewrite list_lookup_fmap in Hk. simpl.
  destruct (toks !! k) as [t|] eqn:Ht; [|done]. injection Hk as <-.
  pose proof (link_out_text s toks out k) as E1. pose proof (link_out_op toks out k) as E2.
  rewrite Ht in E1, E2. destruct (link_out toks out !! k) as [t'|]; [|done].
  injection E1 as E1. injection E2 as E2. exists t'. split_and!; [done|done|].
  rewrite E2. apply tok_ok_op. by eapply Forall_lookup_1.
Qed.

(** ** Properties *)

(** For every C string the counting pass and the storing pass of the
    tokenizer are defined and agree: the second pass fills exactly the
    buffer that the first one sized.  The texts of the tokens are those of
    the one-pass lexer and together they are the characters of the string
    without the blanks outside quotes. *)
Theorem tokenize_two_passes_agree (s : list Z) :
  cstring s →
  ∃ toks, tokenize s TokNull = Some (TokNull, length toks) ∧
    tokenize s (TokBuf (length toks) []) = Some (TokBuf (length toks) toks, length toks) ∧
    tok_text s <$> toks = lex false [] s ∧ concat (tok_text s <$> toks) = visible false s ∧
    Forall (tok_ok s) toks.
Proof.
  intros Hs. destruct (tokenize_spec s Hs) as (toks & ? & ? & Ht & ?).
  exists toks. split_and!; try done. rewrite Ht. apply concat_lex.
Qed.

Lemma tokenize_two_passes_agree_witness :
  ∃ toks, tokenize (str "A & !B") (TokBuf 4 []) = Some (TokBuf 4 toks, 4) ∧
    tok_text (str "A & !B") <$> toks = [str "A"; str "&"; str "!"; str "B"].
Proof.
  destruct (tokenize_two_passes_agree (str "A & !B")) as (toks & H1 & H2 & H3 & _);
    [by repeat constructor|].
  assert (Hl : Some (TokNull, length toks) = Some (TokNull, 4)) by (rewrite <- H1; reflexivity).
  injection Hl as Hl. rewrite Hl in H2.
  exists toks. split; [exact H2|]. rewrite H3. reflexivity.
Defined.

(** C27. Parsing is defined for every C string and whatever the allocation
    does.  It returns an expression exactly when the string has tokens and
    they are derivable in the grammar (parentheses match, every operator has
    its operands); otherwise it returns NULL, and unless the string is blank
    it prints a message that points at one of the tokens. *)
Theorem tst_bool_expr_parse_exact (s : list Z) (malloc_ok : bool) :
  cstring s →
  is_Some (tst_bool_expr_parse malloc_ok s) ∧
  ∃ toks, tok_text s <$> toks = lex false [] s ∧
    ((∃ e, tst_bool_expr_parse true s = Some (Some e, [])) ↔ ∃ d, derives toks d) ∧
    (toks ≠ [] → (¬ ∃ d, derives toks d) →
     ∃ j t m, toks !! j = Some t ∧ tst_bool_expr_parse true s = Some (None, err_text s toks t m)).
Proof.
  intros Hs. destruct (parse_spec s Hs) as (toks & Ht & Hok & Hnil & Hcons).
  assert (derives_ne : ∀ d, derives toks d → toks ≠ []).
  { intros d Hd ->. apply derives_last in Hd. done. }
  destruct (decide (toks = [])) as [E|Hne].
  - split.
    + destruct malloc_ok; [by rewrite Hnil|]. unfold tst_bool_expr_parse in *.
      destruct (tokenize s TokNull) as [[? [|n]]|] eqn:Et; [by eexists|by eexists|].
      specialize (Hnil E). done.
    + exists toks. split_and!; [done| |done]. rewrite (Hnil E). split; [by intros (? & ?)|].
      intros [d Hd]. by apply derives_ne in Hd.
  - specialize (Hcons Hne). pose proof (a_yard_iff toks) as Hiff.
    destruct (a_yard toks) as [out|].
    + destruct Hcons as [_ Hp]. split.
      * destruct malloc_ok; [by rewrite Hp|]. unfold tst_bool_expr_parse in *.
        destruct (tokenize s TokNull) as [[? [|n]]|]; [by eexists|by eexists|done].
      * exists toks. split_and!; [done| |].
        -- rewrite Hp. split; [|eauto]. intros _. destruct (Hiff out Hne) as [(d & Hd & _) _]; eauto.
        -- intros _ Hno. exfalso. apply Hno. destruct (Hiff out Hne) as [(d & Hd & _) _]; eauto.
    + destruct Hcons as (j & t & m & Hj & Hp). split.
      * destruct malloc_ok; [by rewrite Hp|]. unfold tst_bool_expr_parse in *.
        destruct (tokenize s TokNull) as [[? [|n]]|]; [by eexists|by eexists|done].
      * exists toks. split_and!; [done| |eauto 10]. rewrite Hp. split; [by intros [? ?]|].
        intros [d Hd]. destruct (Hiff (expr_rpn d) Hne) as [_ H]. by discriminate H; eauto.
Qed.

Lemma tst_bool_expr_parse_exact_witness :
  ∃ toks j t m, tok_text (str "A & (B") <$> toks = [str "A"; str "&"; str "("; str "B"] ∧
    toks !! j = Some t ∧
    tst_bool_expr_parse true (str "A & (B") = Some (None, err_text (str "A & (B") toks t m).
Proof.
  destruct (tst_bool_expr_parse_exact (str "A & (B") true) as (_ & toks & Ht & Hiff & Herr);
    [by repeat constructor|].
  destruct Herr as (j & t & m & Hj & Hp).
  - intros ->. vm_compute in Ht. discriminate.
  - intros Hd. apply Hiff in Hd as [e He]. vm_compute in He. discriminate.
  - exists toks, j, t, m. split_and!; [rewrite Ht; reflexivity|exact Hj|exact Hp].
Defined.

(** C9. A parsed expression evaluates, for every variable mapping, to the
    value of the derivation of its tokens ([!], [&] and [|] as in C, the two
    binary operators with one precedence and to the left), or to -1 when a
    variable is undefined or the derivation needs more than MAX_STACK stack
    entries; the evaluator never touches a missing stack entry. *)
Theorem tst_bool_expr_eval_correct (s : list Z) (e : tst_expr) (w : list Z) :
  cstring s → tst_bool_expr_parse true s = Some (Some e, w) →
  (∃ d, derives (buf e) d) ∧
  ∀ d map, derives (buf e) d →
    rpn_list e = Some (expr_rpn d) ∧
    tst_bool_expr_eval e map = Some (stack_val (buf e) map d).
Proof.
  intros Hs Hp. destruct (parse_spec s Hs) as (toks & Ht & Hok & Hnil & Hcons).
  destruct (decide (toks = [])) as [E|Hne]; [by rewrite Hnil in Hp|].
  specialize (Hcons Hne). destruct (a_yard toks) as [out|] eqn:Hy.
  2:{ destruct Hcons as (? & ? & ? & _ & Hp'). congruence. }
  destruct Hcons as [Hsub Hp']. rewrite Hp' in Hp. injection Hp as <- <-. cbn [buf].
  split.
  - destruct (a_yard_iff toks out Hne) as [(d & Hd & _) _]; [done|].
    exists d. by apply derives_link.
  - intros d map Hd%derives_link. split; [|by apply eval_spec].
    rewrite rpn_list_link by done. destruct (a_yard_iff toks (expr_rpn d) Hne) as [_ H].
    rewrite H in Hy by eauto. by injection Hy as ->.
Qed.

Lemma tst_bool_expr_eval_correct_witness :
  ∃ e d, tst_bool_expr_parse true (str "A & !(B | C)") = Some (Some e, []) ∧
    derives (buf e) d ∧
    tst_bool_expr_eval e (λ t, if decide (tok t = 0) then 1%Z else 0%Z) = Some 1%Z ∧
    stack_val (buf e) (λ t, if decide (tok t = 0) then 1%Z else 0%Z) d = 1%Z.
Proof.
  destruct (tst_bool_expr_parse true (str "A & !(B | C)")) as [[[e|] w]|] eqn:E;
    [|vm_compute in E; discriminate..].
  destruct (tst_bool_expr_eval_correct (str "A & !(B | C)") e w) as [[d Hd] H];
    [by repeat constructor|exact E|].
  assert (Ev : tst_bool_expr_eval e (λ t, if decide (tok t = 0) then 1%Z else 0%Z) = Some 1%Z).
  { vm_compute in E. injection E as <- <-. reflexivity. }
  exists e, d. split_and!.
  - rewrite <- E. vm_compute in E. injection E as <- <-. reflexivity.
  - exact Hd.
  - exact Ev.
  - destruct (H d (λ t, if decide (tok t = 0) then 1%Z else 0%Z) Hd) as [_ H'].
    rewrite H' in Ev. by injection Ev.
Defined.

(** Parsing the text of any expression whose variable names hold no
    operator, blank or quote succeeds, and evaluating the result with an
    environment on names gives the value of the expression. *)
Theorem parse_render_eval (e : nexpr) (env : list Z → Z) :
  nexpr_plain e →
  ∃ x, tst_bool_expr_parse true (render e) = Some (Some x, []) ∧
    tst_bool_expr_eval x (λ t, env (tok_text (render e) t)) =
    Some (if decide (nexpr_depth e ≤ MAX_STACK) then default (-1)%Z (nexpr_val env e) else (-1)%Z).
Proof.
  intros He. pose proof (proj2 lexemes_mut e He) as Hlx.
  pose proof (cstring_join _ Hlx) as Hs.
  destruct (parse_spec (render e) Hs) as (toks & Ht & Hok & _ & Hcons).
  unfold render in Ht. rewrite (lex_join _ Hlx) in Ht.
  assert (length toks = length (nexpr_texts e)) as Hlen by (rewrite <- Ht; by rewrite length_fmap).
  assert (Hd0 : ∀ out, derives (link_out toks out) (nexpr_idx 0 e)).
  { intros out. split.
    - by apply (proj2 (idx_wf_mut (render e) _ env)), texts_at_link.
    - by rewrite (proj2 idx_toks_mut), length_link_out, Hlen. }
  assert (Hd : derives toks (nexpr_idx 0 e)) by (eapply derives_link, (Hd0 [])).
  assert (Hne : toks ≠ []) by (intros ->; by apply derives_last in Hd).
  specialize (Hcons Hne). destruct (a_yard_iff toks (expr_rpn (nexpr_idx 0 e)) Hne) as [_ Hy].
  rewrite Hy in Hcons by eauto. destruct Hcons as [Hsub Hp].
  eexists. split; [exact Hp|]. rewrite (eval_spec _ _ _ _ Hne Hd); [|by apply Hy; eauto|done].
  unfold stack_val. cbn [buf].
  destruct (proj2 (idx_wf_mut (render e) (link_out toks (expr_rpn (nexpr_idx 0 e))) env) e 0)
    as (_ & -> & ->); [done|by apply texts_at_link|done].
Qed.

Lemma parse_render_eval_witness :
  nexpr_plain (NBin (NPrim (NVar (str "CONFIG_A"))) false (NNot (NVar (str "CONFIG_B=y")))) ∧
  ∃ x, tst_bool_expr_parse true (str "CONFIG_A | ! CONFIG_B=y") = Some (Some x, []) ∧
    tst_bool_expr_eval x (λ t, c_bool (bool_decide (tok t = 0))) = Some 1%Z.
Proof.
  split; [by split; (split; [done|]); repeat constructor|].
  destruct (parse_render_eval
    (NBin (NPrim (NVar (str "CONFIG_A"))) false (NNot (NVar (str "CONFIG_B=y")))) (λ _, 1%Z))
    as (x & Hx & _); [by split; (split; [done|]); repeat constructor|].
  exists x. split; [exact Hx|]. vm_compute in Hx. injection Hx as <-. reflexivity.
Defined.
