(* ===== verification/Kconfig.v ===== *)
(** * Kernel configuration checks (lib/tst_kconfig.c, include/tst_kconfig.h)

    The search for the kernel config file, the line parser, the validation
    of the variables of the constraints, the mapping of variables to values,
    [tst_kconfig_check], [tst_kconfig_get] and [tst_has_slow_kconfig].  The
    parser of /proc/cmdline is in Kcmdline.  What the operating system answers is in a
    [kworld]; reading past the end of a string is undefined behaviour. *)

From S2P Require Import Prelude BoolExpr.
Open Scope Z_scope.

(** What the functions learn from the environment. *)
Record kworld := mk_kworld {
  env_skip_check : bool;                        (* KCONFIG_SKIP_CHECK is set *)
  env_kconfig_path : option (list Z);           (* KCONFIG_PATH *)
  file_exists : list Z → bool;                  (* access(path, F_OK) == 0 *)
  un_release : list Z;                          (* uname().release *)
  fopen : list Z → option (list Z);             (* the content of a file *)
  popen : list Z → option (list Z);             (* the output of a command *)
  malloc_ok : bool;
}.

(** ** struct tst_kconfig_var *)

Record tst_kconfig_var := mk_kvar {
  id : list Z;
  id_len : nat;
  choice : Z;
  val : option (list Z);
}.

(** [sizeof(var.id)] *)
Definition ID_SIZE : nat := 64.

Definition TST_KCONFIG_INIT (confname : list Z) : tst_kconfig_var :=
  mk_kvar confname (length confname) 0 None.

Definition set_choice (c : Z) (v : tst_kconfig_var) : tst_kconfig_var :=
  mk_kvar (id v) (id_len v) c (val v).

Definition set_value (s : list Z) (v : tst_kconfig_var) : tst_kconfig_var :=
  mk_kvar (id v) (id_len v) "v"%cc (Some s).

(** ** Finding and opening the config *)

(** The return value and the messages reported on the way. *)
Definition kconfig_skip_check (w : kworld) : bool * log :=
  if env_skip_check w then (true, [(TINFO, str "Skipping kernel config check as requested")])
  else (false, []).

Definition PATH_BUF_LEN : nat := 1024.

Definition kconfig_path (w : kworld) : option (list Z) * log :=
  let un := un_release w in
  let lookup (warn : log) :=
    if file_exists w (str "/proc/config.gz") then (Some (str "/proc/config.gz"), warn) else
    let path_buf := snprintf PATH_BUF_LEN (str "/lib/modules/" ++ un ++ str "/build/.config") in
    if file_exists w path_buf then (Some path_buf, warn) else
    let path_buf := snprintf PATH_BUF_LEN (str "/lib/modules/" ++ un ++ str "/config") in
    if file_exists w path_buf then (Some path_buf, warn) else
    let path_buf := snprintf PATH_BUF_LEN (str "/boot/config-" ++ un) in
    if file_exists w path_buf then (Some path_buf, warn) else
    let path_buf := snprintf PATH_BUF_LEN (str "/lib/kernel/config-" ++ un) in
    if file_exists w path_buf then (Some path_buf, warn) else
    (None, warn ++ [(TINFO, str "Couldn't locate kernel config!")]) in
  match env_kconfig_path w with
  | Some path =>
      if file_exists w path then (Some path, [])
      else lookup [(TWARN, str "KCONFIG_PATH='" ++ path ++ str "' does not exist")]
  | None => lookup []
  end.

Definition open_kconfig (w : kworld) : cres (option (list Z) * log) :=
  match kconfig_path w with
  | (None, l) => CRet (None, l)
  | (Some path, l) =>
      let is_gzip := bool_decide (is_Some (strstr path (str ".gz"))) in
      let fp := if is_gzip then popen w (snprintf 1064 (str "zcat '" ++ path ++ str "'"))
                else fopen w path in
      match fp with
      | None => CBrk (TBROK + TERRNO) (str "Failed to open '" ++ path ++ str "'")
      | Some file => CRet (Some file, l ++ [(TINFO, str "Parsing kernel config '" ++ path ++ str "'")])
      end
  end.

(** ** Parsing a line *)

Fixpoint skip_space (s : list Z) : list Z :=
  match s with
  | c :: s' => if isspace c then skip_space s' else s
  | [] => []
  end.

Definition is_var_char (c : Z) : bool :=
  (("A"%cc <=? c) && (c <=? "Z"%cc)) || (("0"%cc <=? c) && (c <=? "9"%cc)) || (c =? "_"%cc).

Fixpoint var_span (s : list Z) : nat :=
  match s with
  | c :: s => if is_var_char c then S (var_span s) else 0
  | [] => 0
  end.

(** [while (!isspace(val[val_len])) val_len++;]  The terminator is no space,
    the loop goes on past it. *)
Fixpoint value_span (s : list Z) : option nat :=
  match s with
  | c :: s => if isspace c then Some 0%nat else n ← value_span s; Some (S n)
  | [] => None
  end.

(** The loop over the variables, for the identifier of [var_len] characters
    at [var].  The return value and the variables. *)
Fixpoint match_vars (is_not_set : bool) (var : list Z) (var_len : nat)
    (vars : list tst_kconfig_var) : option (Z * list tst_kconfig_var) :=
  match vars with
  | [] => Some (0, [])
  | v :: vs =>
      if negb (bool_decide (id_len v = var_len)) then
        '(r, vs) ← match_vars is_not_set var var_len vs; Some (r, v :: vs)
      else if negb (strncmp (id v) var var_len =? 0) then
        '(r, vs) ← match_vars is_not_set var var_len vs; Some (r, v :: vs)
      else if is_not_set then Some (1, set_choice "n"%cc v :: vs)
      else
        match skip_space (drop var_len var) with
        | c :: vl =>
            if negb (c =? "="%cc) then Some (0, v :: vs) else
            let vl := skip_space vl in
            val_len ← value_span vl;
            if bool_decide (val_len = 1%nat) && (default 0 (head vl) =? "y"%cc) then
              Some (1, set_choice "y"%cc v :: vs)
            else if bool_decide (val_len = 1%nat) && (default 0 (head vl) =? "m"%cc) then
              Some (1, set_choice "m"%cc v :: vs)
            else
              '(r, vs) ← match_vars is_not_set var var_len vs;
              Some (r, set_value (take val_len vl) v :: vs)
        | [] => Some (0, v :: vs)
        end
  end.

Definition kconfig_parse_line (line : list Z) (vars : list tst_kconfig_var)
    : option (Z * list tst_kconfig_var) :=
  let line := skip_space line in
  let is_comment := default 0 (head line) =? "#"%cc in
  if is_comment && bool_decide (strstr line (str "is not set") = None) then Some (0, vars) else
  match strstr line (str "CONFIG_") with
  | None => Some (0, vars)
  | Some var => match_vars is_comment var (var_span var) vars
  end.

Definition LINE_SIZE : nat := 128.

(** [while (fgets(line, sizeof(line), fp))]; [fuel] bounds the number of
    lines, which is at most the size of the file. *)
Fixpoint read_lines (fuel : nat) (file : list Z) (vars : list tst_kconfig_var) (vars_found : nat)
    : option (list tst_kconfig_var) :=
  match fgets LINE_SIZE file with
  | None => Some vars
  | Some (line, file) =>
      match fuel with
      | O => None
      | S fuel =>
          '(r, vars) ← kconfig_parse_line line vars;
          let vars_found := if r =? 0 then vars_found else S vars_found in
          if bool_decide (vars_found = length vars) then Some vars
          else read_lines fuel file vars vars_found
      end
  end.

Definition tst_kconfig_read (w : kworld) (vars : list tst_kconfig_var)
    : cres (list tst_kconfig_var * log) :=
  '(fp, l) ← open_kconfig w;
  match fp with
  | None => CBrk TBROK (str "Cannot parse kernel .config")
  | Some file => vars ← defined (read_lines (length file) file vars 0); CRet (vars, l)
  end.

(** ** Validating the variables of an expression *)

(** [while (kconfigs[++i]);] over an array of [length l] strings and a NULL. *)
Fixpoint array_len_loop (fuel : nat) (l : list (list Z)) (i : nat) : option nat :=
  match fuel with
  | O => None
  | S fuel =>
      if decide (S i = length l) then Some (S i)
      else match l !! S i with Some _ => array_len_loop fuel l (S i) | None => None end
  end.

Definition array_len (l : list (list Z)) : option nat := array_len_loop (length l) l 0.

(** The offset of the first [c] among [len] characters. *)
Fixpoint strnchr (s : list Z) (c : Z) (len : nat) : option nat :=
  match len, s with
  | S len, x :: s => if x =? c then Some 0%nat else n ← strnchr s c len; Some (S n)
  | _, _ => None
  end.

Definition get_len (s : list Z) (len : nat) : nat := default len (strnchr s "="%cc len).

Definition print_err (expr : list Z) (var : tst_expr_tok) (spaces : nat) (err : list Z) : list Z :=
  tok_text expr var ++ [10] ++ print_spaces spaces ++ str "^" ++ [10] ++ err ++ [10; 10].

Section Validate.
Context (expr : list Z) (var : tst_expr_tok).

(** [var->tok[i]] *)
Definition tokc (i : nat) : option Z := cget expr (tok var + i).

(** The loop over the name: an early return of 0 or 1 ([inl], with the
    offset of the bad character), or the offset where it ends. *)
Fixpoint name_loop (fuel i : nat) : option (option nat + nat) :=
  match fuel with
  | O => None
  | S fuel =>
      c ← tokc i;
      if c =? 0 then Some (inr i)
      else if decide (tok_len var ≤ i)%nat then Some (inl None)
      else if (("A"%cc <=? c) && (c <=? "Z"%cc)) || (c =? "_"%cc) then name_loop fuel (S i)
      else if isdigit c then name_loop fuel (S i)
      else if c =? "="%cc then Some (inr (S i))
      else Some (inl (Some i))
  end.

(** [do { i++; } while (i < var->tok_len && p(var->tok[i]));] *)
Fixpoint do_while (fuel : nat) (p : Z → bool) (i : nat) : option nat :=
  match fuel with
  | O => None
  | S fuel =>
      if decide (S i < tok_len var)%nat then
        c ← tokc (S i); if p c then do_while fuel p (S i) else Some (S i)
      else Some (S i)
  end.

(** The return value and what is printed. *)
Definition validate_var : option (Z * list Z) :=
  let fuel := S (tok_len var) in
  if decide (tok_len var < 7)%nat then
    Some (1, print_err expr var 0 (str "Expected CONFIG_ prefix"))
  else if negb (strncmp (drop (tok var) expr) (str "CONFIG_") 7 =? 0) then
    Some (1, print_err expr var 0 (str "Expected CONFIG_ prefix"))
  else
    r ← name_loop fuel 7;
    match r with
    | inl None => Some (0, [])
    | inl (Some i) => Some (1, print_err expr var i (str "Unexpected character in variable name"))
    | inr i =>
        if decide (tok_len var ≤ i)%nat then
          c ← tokc (i - 1);
          if c =? "="%cc then Some (-1, print_err expr var i (str "Missing value")) else Some (0, [])
        else
          c ← tokc i;
          if c =? cDQ then
            i ← do_while fuel (λ c, negb (c =? cDQ)) i;
            if decide (i < tok_len var - 1)%nat then
              Some (1, print_err expr var i (str "Garbage after a string"))
            else
              c ← tokc i;
              if negb (c =? cDQ) then Some (1, print_err expr var i (str "Untermianted string"))
              else Some (0, [])
          else
            i ← do_while fuel isalnum i;
            if decide (i < tok_len var)%nat then
              Some (1, print_err expr var i (str "Invalid character in variable value"))
            else Some (0, [])
    end.
End Validate.

(** The tokens of the postfix list, in order. *)
Definition rpn_toks (e : tst_expr) : option (list tst_expr_tok) :=
  l ← rpn_list e; mapM (λ x, buf e !! x) l.

Definition is_var (t : tst_expr_tok) : bool := bool_decide (op t = TST_OP_VAR).

(** [ret |= validate_var(j)] in an unsigned int. *)
Fixpoint validate_toks (expr : list Z) (ts : list tst_expr_tok) (ret : Z) : option Z :=
  match ts with
  | [] => Some ret
  | t :: ts =>
      if is_var t then
        '(r, _) ← validate_var expr t; validate_toks expr ts (Z.lor ret (wrapu 32 r))
      else validate_toks expr ts ret
  end.

(** An expression with the string its tokens point into. *)
Fixpoint validate_vars (exprs : list (list Z * tst_expr)) (ret : Z) : option Z :=
  match exprs with
  | [] => Some ret
  | (s, e) :: exprs => ts ← rpn_toks e; ret ← validate_toks s ts ret; validate_vars exprs ret
  end.

Fixpoint get_var_cnt (exprs : list (list Z * tst_expr)) : option nat :=
  match exprs with
  | [] => Some 0%nat
  | (_, e) :: exprs =>
      ts ← rpn_toks e; n ← get_var_cnt exprs; Some (length (List.filter is_var ts) + n)%nat
  end.

(** The index of the variable with that name. *)
Fixpoint find_var (vars : list tst_kconfig_var) (name : list Z) : option nat :=
  match vars with
  | [] => None
  | v :: vars => if strcmp (id v) name =? 0 then Some 0%nat else n ← find_var vars name; Some (S n)
  end.

(** One variable token: the array of [cap] entries (of which [vars] are used)
    and the entry [priv] is made to point to. *)
Definition populate_tok (cap : nat) (s : list Z) (t : tst_expr_tok) (vars : list tst_kconfig_var)
    : cres (list tst_kconfig_var * nat) :=
  if decide (length vars < cap)%nat then
    let len := get_len (drop (tok t) s) (tok_len t) in
    if decide (ID_SIZE ≤ len + 1)%nat then CBrk TBROK (str "kconfig var id too long!") else
    let new := mk_kvar (take len (drop (tok t) s)) len 0 None in
    match find_var vars (id new) with
    | Some k => CRet (vars, k)
    | None => CRet (vars ++ [new], length vars)
    end
  else CUB.

(** The postfix list [l] of one expression. *)
Fixpoint populate_expr (cap : nat) (s : list Z) (l : list nat) (b : list tst_expr_tok)
    (vars : list tst_kconfig_var) : cres (list tst_kconfig_var * list tst_expr_tok) :=
  match l with
  | [] => CRet (vars, b)
  | x :: l =>
      t ← defined (b !! x);
      if is_var t then
        '(vars, k) ← populate_tok cap s t vars;
        populate_expr cap s l (alter (set_priv (Some (PrivVar k))) x b) vars
      else populate_expr cap s l b vars
  end.

Fixpoint populate_vars (cap : nat) (exprs : list (list Z * tst_expr)) (vars : list tst_kconfig_var)
    : cres (list tst_kconfig_var * list (list Z * tst_expr)) :=
  match exprs with
  | [] => CRet (vars, [])
  | (s, e) :: exprs =>
      l ← defined (rpn_list e);
      '(vars, b) ← populate_expr cap s l (buf e) vars;
      '(vars, es) ← populate_vars cap exprs vars;
      CRet (vars, (s, mk_expr (rpn e) b) :: es)
  end.

(** ** The value of a variable token *)

Definition map_var (s : list Z) (vars : list tst_kconfig_var) (t : tst_expr_tok) : option Z :=
  k ← match priv t with Some (PrivVar k) => Some k | _ => None end;
  var ← vars !! k;
  if choice var =? 0 then Some 0 else
  match strnchr (drop (tok t) s) "="%cc (tok_len t) with
  | None => Some (c_bool ((choice var =? "y"%cc) || (choice var =? "m"%cc)))
  | Some off =>
      let vl := drop (tok t + off + 1) s in
      let len := (tok_len t - (off + 1))%nat in
      let ch := "v"%cc in
      let ch := if strncmp vl (str "n") len =? 0 then "n"%cc else ch in
      let ch := if strncmp vl (str "y") len =? 0 then "y"%cc else ch in
      let ch := if strncmp vl (str "m") len =? 0 then "m"%cc else ch in
      if negb (ch =? "v"%cc) then Some (c_bool (choice var =? ch))
      else if negb (choice var =? "v"%cc) then Some 0
      else
        value ← val var;
        if negb (bool_decide (length value = len)) then Some 0
        else Some (c_bool (strncmp vl value len =? 0))
  end.

Definition dump_var (v : tst_kconfig_var) : Z * list Z :=
  if choice v =? 0 then (TINFO, str " " ++ id v ++ str " Undefined")
  else if choice v =? "v"%cc then (TINFO, str " " ++ id v ++ str "=" ++ default [] (val v))
  else (TINFO, str " " ++ id v ++ str "=" ++ [choice v]).

Definition dump_vars (vars : list tst_kconfig_var) (e : tst_expr) : option log :=
  ts ← rpn_toks e;
  vs ← mapM (λ t, k ← match priv t with Some (PrivVar k) => Some k | _ => None end; vars !! k)
        (List.filter is_var ts);
  Some ((TINFO, str "Variables:") :: (dump_var <$> vs)).

(** ** tst_kconfig_check *)

Fixpoint parse_exprs (w : kworld) (kconfigs : list (list Z)) : cres (list (list Z * tst_expr)) :=
  match kconfigs with
  | [] => CRet []
  | s :: kconfigs =>
      '(e, _) ← defined (tst_bool_expr_parse (malloc_ok w) s);
      match e with
      | None => CBrk TBROK (str "Invalid kconfig expression!")
      | Some e => es ← parse_exprs w kconfigs; CRet ((s, e) :: es)
      end
  end.

Fixpoint check_exprs (vars : list tst_kconfig_var) (exprs : list (list Z * tst_expr)) (ret : Z) (l : log)
    : cres (Z * log) :=
  match exprs with
  | [] => CRet (ret, l)
  | (s, e) :: exprs =>
      v ← defined (tst_bool_expr_eval e (λ t, default 0 (map_var s vars t)));
      if negb (v =? 1) then
        d ← defined (dump_vars vars e);
        check_exprs vars exprs 1
          (l ++ [(TINFO, str "Constraint '" ++ s ++ str "' not satisfied!")] ++ d)
      else check_exprs vars exprs ret l
  end.

Definition tst_kconfig_check (w : kworld) (kconfigs : list (list Z)) : cres (Z * log) :=
  _ ← defined (array_len kconfigs);
  let '(skip, l) := kconfig_skip_check w in
  if (skip : bool) then CRet (0, l) else
  exprs ← parse_exprs w kconfigs;
  bad ← defined (validate_vars exprs 0);
  if negb (bad =? 0) then CBrk TBROK (str "Invalid kconfig variables!") else
  var_cnt ← defined (get_var_cnt exprs);
  '(vars, exprs) ← populate_vars var_cnt exprs [];
  '(vars, l) ← tst_kconfig_read w vars;
  check_exprs vars exprs 0 l.

Definition tst_kconfig_get (w : kworld) (confname : list Z) : cres Z :=
  let '(skip, _) := kconfig_skip_check w in
  if (skip : bool) then CRet 0 else
  if decide (ID_SIZE ≤ length confname)%nat then
    CBrk TBROK (str "Kconfig var name " ++ [cDQ] ++ confname ++ [cDQ] ++ str " too long")
  else
    '(vars, _) ← tst_kconfig_read w [TST_KCONFIG_INIT confname];
    v ← defined (head vars); CRet (choice v).

(** ** tst_has_slow_kconfig, with its cached answer *)

Record slow_state := mk_slow {
  slow_kconfig_cached : bool;
  slow_kconfig_result : bool;
  slow_kconfigs : list tst_kconfig_var;
}.

Definition slow_init : slow_state :=
  mk_slow false false (TST_KCONFIG_INIT <$>
    [str "CONFIG_PROVE_LOCKING"; str "CONFIG_LOCKDEP"; str "CONFIG_DEBUG_SPINLOCK";
     str "CONFIG_DEBUG_RT_MUTEXES"; str "CONFIG_DEBUG_MUTEXES"; str "CONFIG_KASAN";
     str "CONFIG_SLUB_RCU_DEBUG"; str "CONFIG_TRACE_IRQFLAGS"; str "CONFIG_DEBUG_NET";
     str "CONFIG_EXT4_DEBUG"; str "CONFIG_QUOTA_DEBUG"; str "CONFIG_FAULT_INJECTION";
     str "CONFIG_DEBUG_OBJECTS"]).

Definition tst_has_slow_kconfig (w : kworld) (st : slow_state) : cres (Z * slow_state) :=
  if slow_kconfig_cached st then CRet (c_bool (slow_kconfig_result st), st) else
  match fst (kconfig_path w) with
  | None => CRet (0, mk_slow true false (slow_kconfigs st))
  | Some _ =>
      '(vars, _) ← tst_kconfig_read w (slow_kconfigs st);
      let slow := existsb (λ v, choice v =? "y"%cc) vars in
      CRet (c_bool slow, mk_slow true slow vars)
  end.
