(* ===== verification/KconfigFacts.v ===== *)
(** * Reading a kernel config: what the variables hold afterwards

    A config file is a list of entries.  Parsing the text of an entry updates
    exactly the variable it names, and reading the whole file, with its early
    exit, resolves every variable to its entry. *)

From S2P Require Import Prelude BoolExpr Kconfig.
Open Scope Z_scope.

(** ** Config files *)

Inductive centry :=
  | CSet (name value : list Z)       (* NAME=VALUE *)
  | CUnset (name : list Z)           (* # NAME is not set *)
  | CComment (text : list Z)         (* any other comment *)
  | CBlank.                          (* an empty line *)

Definition entry_name (e : centry) : option (list Z) :=
  match e with CSet n _ | CUnset n => Some n | CComment _ | CBlank => None end.

Definition entry_body (e : centry) : list Z :=
  match e with
  | CSet n v => n ++ str "=" ++ v
  | CUnset n => str "# " ++ n ++ str " is not set"
  | CComment t => str "#" ++ t
  | CBlank => []
  end.

Definition entry_line (e : centry) : list Z := entry_body e ++ [10].

Definition file_text (es : list centry) : list Z := concat (entry_line <$> es).

Definition kname (n : list Z) : Prop :=
  take 7 n = str "CONFIG_" ∧ Forall (λ c, is_var_char c = true) n.

(** A value, which may have blanks in it when it is a quoted string. *)
Definition kvalue (v : list Z) : Prop :=
  Forall (λ c, 0 < c < 256 ∧ c ≠ 10) v ∧ v ≠ [] ∧ isspace (default 0 (head v)) = false.

(** The part of a value that is kept. *)
Fixpoint first_word (v : list Z) : list Z :=
  match v with
  | c :: v => if isspace c then [] else c :: first_word v
  | [] => []
  end.

Definition entry_ok (e : centry) : Prop :=
  (length (entry_line e) < LINE_SIZE)%nat ∧
  match e with
  | CSet n v => kname n ∧ kvalue v
  | CUnset n => kname n
  | CComment t => Forall (λ c, 0 < c < 256 ∧ c ≠ 10) t ∧ strstr (str "#" ++ t ++ [10]) (str "is not set") = None
  | CBlank => True
  end.

(** No option occurs twice. *)
Definition file_ok (es : list centry) : Prop :=
  Forall entry_ok es ∧ NoDup (omap entry_name es).

#[export] Instance kname_dec n : Decision (kname n).
Proof. apply _. Defined.
#[export] Instance kvalue_dec v : Decision (kvalue v).
Proof. apply _. Defined.
#[export] Instance entry_ok_dec e : Decision (entry_ok e).
Proof. destruct e; apply _. Defined.
#[export] Instance file_ok_dec es : Decision (file_ok es).
Proof. apply _. Defined.

(** What an entry does to a variable. *)
Definition upd (e : centry) (v : tst_kconfig_var) : tst_kconfig_var :=
  match e with
  | CSet n vl =>
      if decide (id v = n) then
        if decide (first_word vl = str "y") then set_choice "y"%cc v
        else if decide (first_word vl = str "m") then set_choice "m"%cc v
        else set_value (first_word vl) v
      else v
  | CUnset n => if decide (id v = n) then set_choice "n"%cc v else v
  | CComment _ | CBlank => v
  end.

Definition resolve (es : list centry) (v : tst_kconfig_var) : tst_kconfig_var :=
  foldl (λ v e, upd e v) v es.

(** The line settles the variable: it counts for the early exit. *)
Definition settles (e : centry) : bool :=
  match e with
  | CSet _ vl => bool_decide (first_word vl = str "y" ∨ first_word vl = str "m")
  | CUnset _ => true
  | CComment _ | CBlank => false
  end.

Definition var_ok (v : tst_kconfig_var) : Prop := id_len v = length (id v) ∧ cstring (id v).

Lemma upd_id e v : id (upd e v) = id v.
Proof. destruct e; simpl; repeat case_decide; done. Qed.

Lemma upd_ok e v : var_ok v → var_ok (upd e v).
Proof. unfold var_ok. destruct e; simpl; repeat case_decide; done. Qed.

Lemma upd_other e v : entry_name e ≠ Some (id v) → upd e v = v.
Proof. intros H. destruct e; simpl in *; [|case_decide; congruence|done..]. rewrite decide_False; congruence. Qed.

(** ** One line *)

Lemma var_char_range c : is_var_char c = true → 0 < c < 256.
Proof. unfold is_var_char. lia. Qed.

Lemma var_char_not_space c : is_var_char c = true → isspace c = false.
Proof. unfold is_var_char, isspace. lia. Qed.

Lemma kname_cstring n : kname n → cstring n.
Proof. intros [_ H]. eapply Forall_impl; [exact H|]. intros c. apply var_char_range. Qed.

Lemma kname_head n : kname n → ∃ n', n = "C"%cc :: n'.
Proof. intros [H _]. destruct n as [|c n]; [done|]. simpl in H. injection H as -> _. eauto. Qed.

Lemma kname_len n : kname n → (7 ≤ length n)%nat.
Proof. intros [H _]. apply (f_equal length) in H. rewrite length_take in H.
  change (length (str "CONFIG_")) with 7%nat in H. lia. Qed.

Lemma var_span_app n s :
  Forall (λ c, is_var_char c = true) n → is_var_char (default 0 (head s)) = false →
  var_span (n ++ s) = length n.
Proof.
  intros Hn Hc. induction Hn as [|x n Hx _ IH]; simpl; [|by rewrite Hx, IH].
  destruct s; simpl in *; [done|by rewrite Hc].
Qed.

Lemma strstr_here s sub : take (length sub) s = sub → strstr s sub = Some s.
Proof. intros H. destruct s; simpl; by rewrite decide_True. Qed.

Lemma strstr_later c s sub : take (length sub) (c :: s) ≠ sub → strstr (c :: s) sub = strstr s sub.
Proof. intros H. simpl. by rewrite decide_False. Qed.

Lemma strstr_app a sub b : is_Some (strstr (a ++ sub ++ b) sub).
Proof.
  induction a as [|c a IH].
  - simpl. rewrite strstr_here; [by eexists|]. by rewrite take_app_length.
  - simpl. case_decide; [by eexists|done].
Qed.

Lemma kname_strstr n s : kname n → strstr (n ++ s) (str "CONFIG_") = Some (n ++ s).
Proof.
  intros H. apply strstr_here. rewrite take_app_le by (apply kname_len in H; exact H). apply H.
Qed.

Lemma value_span_word v : value_span (v ++ [10]) = Some (length (first_word v)).
Proof. induction v as [|c v IH]; [done|]. simpl. destruct (isspace c); [done|]. by rewrite IH. Qed.

Lemma take_first_word v s : take (length (first_word v)) (v ++ s) = first_word v.
Proof. induction v as [|c v IH]; [done|]. simpl. destruct (isspace c); [done|]. simpl. by rewrite IH. Qed.

Lemma skip_space_stop c s : isspace c = false → skip_space (c :: s) = c :: s.
Proof. intros H. simpl. by rewrite H. Qed.

(** The two tests of the loop select the variable with that name. *)
Lemma var_test v n s :
  var_ok v → cstring n → cstring (n ++ s) →
  id_len v = length n ∧ strncmp (id v) (n ++ s) (length n) = 0 ↔ id v = n.
Proof.
  intros [Hl Hv] Hn Hs. rewrite strncmp_eq by done.
  rewrite take_app_length, Hl. split.
  - intros [E Ht]. by rewrite take_ge in Ht by lia.
  - intros <-. split; [done|]. by rewrite take_ge by lia.
Qed.

Lemma match_vars_skip ns n s v vs :
  var_ok v → cstring n → cstring (n ++ s) → id v ≠ n →
  match_vars ns (n ++ s) (length n) (v :: vs) =
  ('(r, vs) ← match_vars ns (n ++ s) (length n) vs; Some (r, v :: vs)).
Proof.
  intros Hv Hn Hs Hne. cbn [match_vars].
  destruct (bool_decide_reflect (id_len v = length n)) as [E|E]; [|done]. cbn [negb].
  destruct (Z.eqb_spec (strncmp (id v) (n ++ s) (length n)) 0) as [E'|E']; [|done].
  exfalso. apply Hne. by apply (var_test v n s).
Qed.

Lemma match_vars_none ns n s vs :
  Forall var_ok vs → cstring n → cstring (n ++ s) → n ∉ id <$> vs →
  match_vars ns (n ++ s) (length n) vs = Some (0, vs).
Proof.
  intros Hvs Hn Hs. induction Hvs as [|v vs Hv Hvs IH]; [done|].
  intros Hin. rewrite fmap_cons in Hin. apply not_elem_of_cons in Hin as [Hne Hin].
  by rewrite match_vars_skip, IH by done.
Qed.

Lemma match_vars_hit n s v :
  var_ok v → cstring n → cstring (n ++ s) → id v = n →
  bool_decide (id_len v = length n) = true ∧ (strncmp (id v) (n ++ s) (length n) =? 0) = true.
Proof.
  intros Hv Hn Hs E. apply (var_test v n s) in E as [E1 E2]; try done.
  rewrite bool_decide_true by done. by rewrite E2.
Qed.

(** What the loop does when the rest of the line is that of the entry [e]. *)
Definition rest_of (e : centry) : list Z :=
  match e with
  | CSet _ v => str "=" ++ v ++ [10]
  | CUnset _ => str " is not set" ++ [10]
  | CComment _ | CBlank => []
  end.

Definition unset (e : centry) : bool := match e with CUnset _ => true | _ => false end.

Definition hits (e : centry) (vs : list tst_kconfig_var) : Z :=
  match entry_name e with
  | Some n => c_bool (bool_decide (n ∈ id <$> vs) && settles e)
  | None => 0
  end.

Lemma upd_rest e n v vs :
  entry_name e = Some n → id v = n → NoDup (id <$> v :: vs) → upd e <$> vs = vs.
Proof.
  intros He Hv Hnd. rewrite <- (list_fmap_id vs) at 2.
  apply list_fmap_ext. intros i x Hx%list_elem_of_lookup_2. apply upd_other. rewrite He. intros [= ->].
  rewrite fmap_cons in Hnd. apply NoDup_cons in Hnd as [Hnd _]. apply Hnd. rewrite Hv.
  by apply list_elem_of_fmap_2.
Qed.

Lemma match_vars_entry e n vs :
  entry_ok e → entry_name e = Some n → Forall var_ok vs → NoDup (id <$> vs) →
  match_vars (unset e) (n ++ rest_of e) (length n) vs = Some (hits e vs, upd e <$> vs).
Proof.
  intros [_ He] En Hvs Hnd. unfold hits. rewrite En.
  assert (kname n) as Hk by (destruct e; simplify_eq/=; [apply He|done]).
  pose proof (kname_cstring n Hk) as Hn.
  assert (cstring (n ++ rest_of e)) as Hs.
  { apply Forall_app. split; [done|]. destruct e as [n' v|n'| |]; simplify_eq/=; [|by repeat constructor].
    destruct He as [_ [Hv _]]. constructor; [done|]. apply Forall_app. split; [|by repeat constructor].
    eapply Forall_impl; [exact Hv|]. by intros c [? _]. }
  induction Hvs as [|v vs Hv Hvs IH]; [by destruct (settles e)|].
  destruct (decide (id v = n)) as [E|E].
  - rewrite bool_decide_true by (rewrite fmap_cons, E; set_solver).
    rewrite fmap_cons, (upd_rest e n v vs) by done.
    destruct (match_vars_hit n (rest_of e) v Hv Hn Hs E) as [T1 T2].
    cbn [match_vars]. rewrite T1, T2. cbn [negb].
    assert (n ∉ id <$> vs) as Hni.
    { rewrite fmap_cons in Hnd. apply NoDup_cons in Hnd as [? _]. by rewrite <- E. }
    destruct e as [n' vl|n'| |]; simplify_eq/=; [|by rewrite decide_True].
    rewrite drop_app_length. cbn [skip_space]. destruct He as [_ [_ [Hne Hc]]].
    destruct vl as [|c vl]; [done|]. cbn [head default] in Hc.
    cbn [isspace Z.eqb Pos.eqb Z.leb Z.compare Pos.compare Pos.compare_cont andb orb negb app].
    rewrite skip_space_stop by done.
    change (c :: vl ++ [10]) with ((c :: vl) ++ [10]). rewrite value_span_word, obind_Some, take_first_word.
    rewrite match_vars_none by done.
    rewrite decide_True by done. simpl. change (isspace (Datatypes.id c)) with (isspace c) in Hc. rewrite Hc.
    destruct (first_word vl) as [|c' fw]; simpl.
    + destruct (Z.eqb_spec c "y"%cc) as [->|Hy]; [done|].
      destruct (Z.eqb_spec c "m"%cc) as [->|Hm]; [done|].
      rewrite !decide_False by (intros [= ?]; done). rewrite bool_decide_false; [done|].
      intros [[= ?]|[= ?]]; done.
    + rewrite !decide_False by (by intros [= ? ?]). rewrite bool_decide_false; [done|].
      intros [[=]|[=]].
  - rewrite match_vars_skip by done. rewrite fmap_cons in Hnd. apply NoDup_cons in Hnd as [_ Hnd].
    rewrite IH by done. simpl. rewrite (upd_other e v) by congruence.
    do 4 f_equal. apply bool_decide_ext. rewrite elem_of_cons. split; [by right|]. intros [?|?]; [congruence|done].
Qed.

Lemma parse_line_entry e vs :
  entry_ok e → Forall var_ok vs → NoDup (id <$> vs) →
  kconfig_parse_line (entry_line e) vs = Some (hits e vs, upd e <$> vs).
Proof.
  intros He Hvs Hnd. destruct He as [Hlen He]. unfold kconfig_parse_line, entry_line.
  destruct e as [n v|n|t|]; cbn [entry_body].
  - destruct (kname_head n) as [n' En]; [apply He|].
    assert (skip_space ((n ++ str "=" ++ v) ++ [10]) = n ++ str "=" ++ v ++ [10]) as ->.
    { rewrite <- !app_assoc, En. cbn [app]. by rewrite skip_space_stop. }
    assert ((default 0 (head (n ++ str "=" ++ v ++ [10])) =? "#"%cc) = false) as -> by (by rewrite En).
    cbn [andb]. rewrite kname_strstr by apply He.
    rewrite var_span_app; [|apply He|done].
    by apply (match_vars_entry (CSet n v)).
  - destruct (kname_head n) as [n' En]; [apply He|].
    assert (skip_space ((str "# " ++ n ++ str " is not set") ++ [10])
      = "#"%cc :: " "%cc :: n ++ str " is not set" ++ [10]) as ->.
    { rewrite <- !app_assoc. done. }
    cbn [head default Z.eqb Pos.eqb andb].
    destruct (strstr_app ("#"%cc :: " "%cc :: n ++ str " ") (str "is not set") [10]) as [x Hx].
    assert (strstr ("#"%cc :: " "%cc :: n ++ str " is not set" ++ [10]) (str "is not set") = Some x) as Hx'.
    { rewrite <- Hx. cbn [app]. by rewrite <- app_assoc. }
    rewrite Hx'. cbn [bool_decide decide]. rewrite bool_decide_false by done.
    rewrite !strstr_later by (intros H; apply (f_equal head) in H; discriminate H).
    rewrite kname_strstr by done.
    rewrite var_span_app; [|apply He|done].
    by apply (match_vars_entry (CUnset n)).
  - destruct He as [Ht Hno]. rewrite <- app_assoc.
    assert (skip_space (str "#" ++ t ++ [10]) = str "#" ++ t ++ [10]) as -> by done.
    rewrite Hno, bool_decide_true by done. cbn [str head default andb]. simpl.
    rewrite list_fmap_id. done.
  - simpl. by rewrite list_fmap_id.
Qed.

(** ** A whole file *)

Lemma var_chars_no_nl n : Forall (λ c, is_var_char c = true) n → Forall (λ c, c ≠ 10) n.
Proof. intros H. eapply Forall_impl; [exact H|]. intros c Hc ->. discriminate Hc. Qed.

Lemma entry_body_no_nl e : entry_ok e → Forall (λ c, c ≠ 10) (entry_body e).
Proof.
  intros [_ He]. destruct e as [n v|n|t|]; cbn [entry_body].
  - destruct He as [[_ Hn] [Hv _]]. rewrite !Forall_app. split_and!.
    + by apply var_chars_no_nl.
    + by repeat constructor.
    + eapply Forall_impl; [exact Hv|]. by intros c [_ ?].
  - destruct He as [_ Hn]. rewrite !Forall_app. split_and!; [by repeat constructor| |by repeat constructor].
    by apply var_chars_no_nl.
  - destruct He as [Ht _]. rewrite Forall_app. split; [by repeat constructor|].
    eapply Forall_impl; [exact Ht|]. by intros c [_ ?].
  - constructor.
Qed.

Lemma fgets_entry e rest :
  entry_ok e → fgets LINE_SIZE (entry_line e ++ rest) = Some (entry_line e, rest).
Proof.
  intros He. pose proof (entry_body_no_nl e He) as Hb. destruct He as [Hl _].
  unfold entry_line in *. rewrite <- app_assoc. cbn [app].
  assert (∀ s, s ≠ [] → fgets LINE_SIZE s = Some (fgets_go 127 s)) as Hf by (by intros []).
  rewrite Hf by (by destruct (entry_body e)).
  rewrite fgets_go_line; [done|done|]. rewrite length_app in Hl. unfold LINE_SIZE in Hl. simpl in Hl. lia.
Qed.

Definition settled (v : tst_kconfig_var) : bool :=
  (choice v =? "y"%cc) || (choice v =? "m"%cc) || (choice v =? "n"%cc).

Definition nsettled (vs : list tst_kconfig_var) : nat := length (List.filter settled vs).

Lemma nsettled_all vs : nsettled vs = length vs → Forall (λ v, settled v = true) vs.
Proof.
  unfold nsettled. induction vs as [|v vs IH]; simpl; [done|].
  pose proof (List.filter_length_le settled vs) as Hle.
  destruct (settled v) eqn:E; simpl; [|lia]. intros H. constructor; [done|]. apply IH. lia.
Qed.

(** Every variable that has a value already is not named by the entries [es]. *)
Definition fresh (es : list centry) (vs : list tst_kconfig_var) : Prop :=
  Forall (λ v, choice v ≠ 0 → id v ∉ omap entry_name es) vs.

Lemma settled_upd e n v :
  entry_name e = Some n → id v = n → settled (upd e v) = settles e.
Proof.
  intros He Hv. destruct e as [n' vl|n'| |]; simplify_eq/=; rewrite decide_True by done; [|done].
  destruct (decide (first_word vl = str "y")) as [E|H1]; [by rewrite E|].
  destruct (decide (first_word vl = str "m")) as [E|H2]; [by rewrite E|].
  rewrite bool_decide_false by (by intros [|]). done.
Qed.

Lemma nsettled_upd e es vs :
  fresh (e :: es) vs → NoDup (id <$> vs) →
  nsettled (upd e <$> vs) = (nsettled vs + Z.to_nat (hits e vs))%nat.
Proof.
  unfold hits. destruct (entry_name e) as [n|] eqn:En.
  2:{ intros _ _. assert (upd e <$> vs = vs) as ->; [|simpl; lia].
      rewrite <- (list_fmap_id vs) at 2. apply list_fmap_ext. intros i x _. apply upd_other. by rewrite En. }
  induction vs as [|v vs IH]; intros Hf Hnd; [by destruct (settles e)|].
  apply Forall_cons in Hf as [Hv Hf]. pose proof Hnd as Hnd0.
  rewrite fmap_cons in Hnd0. apply NoDup_cons in Hnd0 as [Hni Hnd'].
  destruct (decide (id v = n)) as [E|E].
  - rewrite bool_decide_true by (rewrite fmap_cons, E; set_solver).
    rewrite fmap_cons, (upd_rest e n v vs) by done.
    unfold nsettled. cbn [List.filter]. rewrite (settled_upd e n v) by done.
    assert (settled v = false) as ->.
    { destruct (decide (choice v = 0)) as [H0|H0]; [unfold settled; by rewrite H0|].
      exfalso. apply (Hv H0). rewrite E. simpl. rewrite En. set_solver. }
    destruct (settles e); simpl; lia.
  - rewrite fmap_cons, (upd_other e v) by congruence.
    assert (bool_decide (n ∈ id <$> v :: vs) = bool_decide (n ∈ id <$> vs)) as ->.
    { apply bool_decide_ext. rewrite fmap_cons, elem_of_cons. split; [|by right]. intros [?|?]; [congruence|done]. }
    specialize (IH Hf Hnd'). unfold nsettled in *. cbn [List.filter].
    destruct (settled v); simpl; rewrite IH; lia.
Qed.

Lemma fresh_upd e es vs :
  fresh (e :: es) vs → NoDup (omap entry_name (e :: es)) → fresh es (upd e <$> vs).
Proof.
  intros Hf Hnd. apply Forall_fmap. eapply Forall_impl; [exact Hf|]. intros v Hv. simpl.
  rewrite upd_id. simpl in Hnd, Hv. destruct (entry_name e) as [n|] eqn:En.
  - apply NoDup_cons in Hnd as [Hn _]. destruct (decide (n = id v)) as [->|Hne]; [done|].
    rewrite upd_other by congruence. intros H0. specialize (Hv H0). set_solver.
  - rewrite upd_other by (by rewrite En). done.
Qed.

Lemma resolve_fresh es vs :
  fresh es vs → Forall (λ v, settled v = true) vs → resolve es <$> vs = vs.
Proof.
  intros Hf Hs. rewrite <- (list_fmap_id vs) at 2. apply list_fmap_ext. intros i v Hv. simpl.
  pose proof (Forall_lookup_1 _ _ _ _ Hf Hv) as H1. pose proof (Forall_lookup_1 _ _ _ _ Hs Hv) as H2.
  simpl in H1, H2. assert (choice v ≠ 0) as H0 by (intros E; unfold settled in H2; by rewrite E in H2).
  specialize (H1 H0). clear Hf Hs Hv H2. unfold resolve. induction es as [|e es IH]; [done|]. simpl.
  rewrite upd_other.
  - apply IH. simpl in H1. destruct (entry_name e); set_solver.
  - simpl in H1. destruct (entry_name e); [|done]. intros [= ->]. set_solver.
Qed.

Lemma read_lines_file fuel es vs :
  (length (file_text es) ≤ fuel)%nat → file_ok es → Forall var_ok vs → NoDup (id <$> vs) →
  fresh es vs →
  read_lines fuel (file_text es) vs (nsettled vs) = Some (resolve es <$> vs).
Proof.
  revert fuel vs. induction es as [|e es IH]; intros fuel vs Hfuel [Hok Hnd] Hvs Hids Hfr.
  - unfold resolve. simpl. destruct fuel; simpl; by rewrite list_fmap_id.
  - apply Forall_cons in Hok as [He Hok]. change (file_text (e :: es)) with (entry_line e ++ file_text es) in *.
    destruct fuel as [|fuel].
    { rewrite length_app in Hfuel. unfold entry_line in Hfuel. rewrite length_app in Hfuel. simpl in Hfuel. lia. }
    cbn [read_lines]. rewrite fgets_entry by done. rewrite parse_line_entry by done. rewrite obind_Some.
    cbn beta iota. rewrite length_fmap.
    assert (id <$> (upd e <$> vs) = id <$> vs) as Hid.
    { rewrite <- list_fmap_compose. apply list_fmap_ext. intros i v _. apply upd_id. }
    assert ((if hits e vs =? 0 then nsettled vs else S (nsettled vs)) = nsettled (upd e <$> vs)) as ->.
    { rewrite (nsettled_upd e es) by done. unfold hits.
      destruct (entry_name e); [|simpl; lia]. destruct (_ && _); simpl; lia. }
    assert (fresh es (upd e <$> vs)) as Hfr' by (by apply fresh_upd).
    assert (Hres : resolve (e :: es) <$> vs = resolve es <$> (upd e <$> vs)) by (by rewrite <- list_fmap_compose).
    rewrite Hres.
    destruct (bool_decide_reflect (nsettled (upd e <$> vs) = length vs)) as [E|E].
    + rewrite resolve_fresh; [done|done|]. apply nsettled_all. by rewrite length_fmap.
    + apply IH.
      * rewrite length_app in Hfuel. unfold entry_line in Hfuel. rewrite length_app in Hfuel. simpl in Hfuel. lia.
      * split; [done|]. simpl in Hnd. destruct (entry_name e); [by apply NoDup_cons in Hnd as [_ ?]|done].
      * apply Forall_fmap. eapply Forall_impl; [exact Hvs|]. intros v. apply upd_ok.
      * by rewrite Hid.
      * done.
Qed.
