(* ===== verification/KconfigCheck.v ===== *)
(** * Kernel config constraints: the value of a term and the whole check

    A variable token of a constraint is a term, NAME or NAME=VALUE.  This
    file gives terms a meaning in a config file, shows that [validate_var]
    accepts the well-formed ones and that [map_var] computes their meaning
    from the variables the config was read into, and puts the steps of
    [tst_kconfig_check] together. *)

From S2P Require Import Prelude BoolExpr BoolExprTok BoolExprYard BoolExprFacts Kconfig KconfigFacts.
Open Scope nat_scope.

(** ** The value of an option in a config file *)

Inductive cval := KUndef | KNo | KSet (v : list Z).

#[export] Instance cval_eq_dec : EqDecision cval.
Proof. solve_decision. Defined.

Definition entry_val (e : centry) : cval :=
  match e with
  | CSet _ v => KSet v
  | CUnset _ => KNo
  | CComment _ | CBlank => KUndef
  end.

Fixpoint conf (es : list centry) (name : list Z) : cval :=
  match es with
  | [] => KUndef
  | e :: es => if decide (entry_name e = Some name) then entry_val e else conf es name
  end.

(** How [struct tst_kconfig_var] represents a value. *)
Definition has (v : tst_kconfig_var) (c : cval) : Prop :=
  match c with
  | KUndef => choice v = 0%Z
  | KNo => choice v = "n"%cc
  | KSet s =>
      if decide (s = str "y") then choice v = "y"%cc
      else if decide (s = str "m") then choice v = "m"%cc
      else choice v = "v"%cc ∧ val v = Some s
  end.

Lemma has_cases v c :
  has v c →
  (c = KUndef ∧ choice v = 0%Z) ∨ (c = KNo ∧ choice v = "n"%cc) ∨
  (c = KSet (str "y") ∧ choice v = "y"%cc) ∨ (c = KSet (str "m") ∧ choice v = "m"%cc) ∨
  ∃ s, c = KSet s ∧ choice v = "v"%cc ∧ val v = Some s ∧ s ≠ str "y" ∧ s ≠ str "m".
Proof.
  destruct c as [| |s]; simpl; [by eauto 10..|]. repeat case_decide; subst; [by eauto 10..|].
  intros [? ?]. do 4 right. by exists s.
Qed.

(** A value without blanks. *)
Definition unblank (c : cval) : Prop :=
  match c with KSet v => Forall (λ x, isspace x = false) v | _ => True end.

#[export] Instance unblank_dec c : Decision (unblank c).
Proof. destruct c; apply _. Defined.

(** What is left of a value by the line parser, which ends it at a blank. *)
Definition kept (c : cval) : cval :=
  match c with KSet v => KSet (first_word v) | c => c end.

Lemma kept_unblank c : unblank c → kept c = c.
Proof.
  destruct c as [| |v]; [done..|]. simpl. intros H. f_equal.
  induction H as [|x v Hx _ IH]; simpl; [done|]. by rewrite Hx, IH.
Qed.

Lemma upd_has e v : entry_name e = Some (id v) → has (upd e v) (kept (entry_val e)).
Proof.
  intros He. destruct e as [n vl|n| |]; simplify_eq/=; repeat case_decide; done.
Qed.

Lemma resolve_skip es v : id v ∉ omap entry_name es → resolve es v = v.
Proof.
  unfold resolve. revert v. induction es as [|e es IH]; intros v Hv; [done|]. simpl in *.
  rewrite upd_other.
  - apply IH. destruct (entry_name e); set_solver.
  - destruct (entry_name e); [|done]. intros [= ->]. set_solver.
Qed.

Lemma resolve_has es v :
  NoDup (omap entry_name es) → choice v = 0%Z → has (resolve es v) (kept (conf es (id v))).
Proof.
  induction es as [|e es IH]; intros Hnd H0; [done|]. simpl in Hnd |- *.
  change (resolve (e :: es) v) with (resolve es (upd e v)).
  case_decide as E.
  - rewrite resolve_skip; [by apply upd_has|]. rewrite upd_id. rewrite E in Hnd.
    by apply NoDup_cons in Hnd as [? _].
  - rewrite upd_other by done. apply IH; [|done]. destruct (entry_name e); [by apply NoDup_cons in Hnd as [_ ?]|done].
Qed.

Lemma resolve_id es v : id (resolve es v) = id v.
Proof. unfold resolve. revert v. induction es as [|e es IH]; intros v; simpl; [done|]. by rewrite IH, upd_id. Qed.

(** ** Terms *)

Definition term_name (w : list Z) : list Z := take (get_len w (length w)) w.

Definition term_value (w : list Z) : option (list Z) :=
  off ← strnchr w "="%cc (length w); Some (drop (S off) w).

(** A term NAME holds when the option is set to y or m; NAME=VALUE when it
    has that value, where an option that is not set has the value n. *)
Definition term_holds (c : cval) (value : option (list Z)) : bool :=
  match value with
  | None => bool_decide (c = KSet (str "y") ∨ c = KSet (str "m"))
  | Some v => bool_decide (c = KSet v ∨ c = KNo ∧ v = str "n")
  end.

(** The terms that are accepted: a name with the CONFIG_ prefix, and a value
    that is a quoted string or alphanumeric after its first character. *)
Definition value_ok (v : list Z) : bool :=
  match v with
  | [] => false
  | c :: v =>
      if (c =? cDQ)%Z then bool_decide (strnchr v cDQ (length v) = Some (length v - 1))
      else forallb isalnum v
  end.

Definition term_ok (w : list Z) : bool :=
  bool_decide (take 7 w = str "CONFIG_") &&
  match drop (var_span w) w with
  | [] => true
  | c :: v => (c =? "="%cc)%Z && value_ok v
  end.

Definition term_val (es : list centry) (w : list Z) : Z :=
  c_bool (term_holds (conf es (term_name w)) (term_value w)).

(** ** Validation *)

(** The number of leading characters with [p]. *)
Fixpoint span (p : Z → bool) (l : list Z) : nat :=
  match l with
  | c :: l => if p c then S (span p l) else 0
  | [] => 0
  end.

Lemma span_le p l : span p l ≤ length l.
Proof. induction l as [|c l IH]; simpl; [done|]. destruct (p c); lia. Qed.

Lemma span_all p l : forallb p l = true → span p l = length l.
Proof.
  induction l as [|c l IH]; simpl; [done|].
  intros [Hc Hl]%andb_true_iff. rewrite Hc. by rewrite IH.
Qed.

Lemma var_span_span l : var_span l = span is_var_char l.
Proof. induction l as [|c l IH]; simpl; [done|]. by rewrite IH. Qed.

Lemma strnchr_span s c n : strnchr s c (length s) = Some n → n = span (λ x, negb (x =? c)%Z) s ∧ s !! n = Some c.
Proof.
  revert n. induction s as [|x s IH]; intros n; simpl; [done|].
  destruct (Z.eqb_spec x c) as [->|Hx]; simpl; [by intros [= <-]|].
  destruct (strnchr s c (length s)) as [k|]; [|done]. intros [= <-].
  destruct (IH k eq_refl) as [-> ?]. done.
Qed.

Lemma strnchr_take (l : list Z) c n : strnchr l c n = strnchr (take n l) c (length (take n l)).
Proof.
  revert n. induction l as [|x l IH]; intros [|n]; simpl; [done..|].
  by rewrite IH.
Qed.

Lemma strnchr_lt (l : list Z) c n k : strnchr l c n = Some k → k < n ∧ k < length l.
Proof.
  revert n k. induction l as [|x l IH]; intros [|n] k; simpl; [done..|].
  destruct (x =? c)%Z; [intros [= <-]; lia|].
  destruct (strnchr l c n) as [j|] eqn:E; [|done]. intros [= <-]. apply IH in E. lia.
Qed.

Lemma get_len_le (l : list Z) n : get_len l n ≤ n.
Proof. unfold get_len. destruct (strnchr l _ n) eqn:E; simpl; [|done]. apply strnchr_lt in E. lia. Qed.

Section Token.
Context (s : list Z) (t : tst_expr_tok).
Context (Hs : cstring s) (Hin : tok t + tok_len t ≤ length s).

#[local] Abbreviation w := (tok_text s t).

Lemma length_tok_text : length w = tok_len t.
Proof. unfold tok_text. rewrite length_take, length_drop. lia. Qed.

Lemma tokc_lt i : i < tok_len t → tokc s t i = w !! i.
Proof.
  intros Hi. unfold tokc, tok_text. rewrite cget_lt by lia.
  rewrite lookup_take, decide_True by done. by rewrite lookup_drop.
Qed.

Lemma tokc_le i : i ≤ tok_len t → is_Some (tokc s t i).
Proof. intros Hi. apply cget_total. lia. Qed.

Lemma tok_char i c : w !! i = Some c → (0 < c)%Z.
Proof.
  unfold tok_text. rewrite lookup_take. case_decide; [|done]. rewrite lookup_drop.
  intros Hc. pose proof (Forall_lookup_1 _ _ _ _ Hs Hc). simpl in *. lia.
Qed.

(** Where the loop over the name ends. *)
Definition name_end (j : nat) (r : option nat + nat) : Prop :=
  match w !! j with
  | None => j = tok_len t ∧ (r = inr j ∨ r = inl None)
  | Some c => r = if (c =? "="%cc)%Z then inr (S j) else inl (Some j)
  end.

Lemma name_loop_spec fuel i :
  i ≤ tok_len t → tok_len t < fuel + i →
  ∃ r, name_loop s t fuel i = Some r ∧ name_end (i + span is_var_char (drop i w)) r.
Proof.
  revert i. induction fuel as [|fuel IH]; intros i Hi Hf; [lia|].
  cbn [name_loop]. destruct (tokc_le i Hi) as [c Hc]. rewrite Hc, obind_Some.
  destruct (decide (tok_len t = i)) as [E|E].
  - assert (w !! i = None) as Hn by (apply lookup_ge_None; rewrite length_tok_text; lia).
    rewrite drop_ge by (rewrite length_tok_text; lia). cbn [span]. rewrite Nat.add_0_r.
    unfold name_end. rewrite Hn. destruct (c =? 0)%Z; [eauto|].
    rewrite decide_True by lia. eauto.
  - assert (w !! i = Some c) as Hw by (by rewrite <- tokc_lt by lia).
    pose proof (tok_char i c Hw) as Hpos. destruct (Z.eqb_spec c 0); [lia|].
    rewrite decide_False by lia. rewrite (drop_S _ _ _ Hw). cbn [span].
    destruct (is_var_char c) eqn:Hvc.
    + destruct (IH (S i)) as (r & Hr & He); [lia|lia|].
      exists r. rewrite <- Nat.add_succ_comm. split; [|done]. rewrite Hr. unfold is_var_char, isdigit in *.
      destruct ((("A"%cc <=? c) && (c <=? "Z"%cc)) || (c =? "_"%cc))%Z eqn:E1; [done|].
      destruct (("0"%cc <=? c) && (c <=? "9"%cc))%Z eqn:E2; [done|]. lia.
    + rewrite Nat.add_0_r. unfold name_end. rewrite Hw. unfold is_var_char, isdigit in *.
      destruct ((("A"%cc <=? c) && (c <=? "Z"%cc)) || (c =? "_"%cc))%Z eqn:E1; [lia|].
      destruct (("0"%cc <=? c) && (c <=? "9"%cc))%Z eqn:E2; [lia|].
      destruct (c =? "="%cc)%Z; eauto.
Qed.

Lemma do_while_spec fuel p i :
  i < tok_len t → tok_len t < fuel + i →
  do_while s t fuel p i = Some (S i + span p (drop (S i) w)).
Proof.
  revert i. induction fuel as [|fuel IH]; intros i Hi Hf; [lia|]. cbn [do_while].
  case_decide as E.
  - rewrite tokc_lt by done. destruct (lookup_lt_is_Some_2 w (S i)) as [c Hc];
      [by rewrite length_tok_text|].
    rewrite Hc, obind_Some, (drop_S _ _ _ Hc). cbn [span].
    destruct (p c); [|by rewrite Nat.add_0_r]. rewrite IH by lia. f_equal. lia.
  - rewrite drop_ge by (rewrite length_tok_text; lia). simpl. by rewrite Nat.add_0_r.
Qed.

Lemma tok_prefix : take 7 w = str "CONFIG_" → 7 ≤ tok_len t ∧ strncmp (drop (tok t) s) (str "CONFIG_") 7 = 0%Z.
Proof.
  intros H. pose proof (f_equal length H) as Hl. rewrite length_take, length_tok_text in Hl.
  change (length (str "CONFIG_")) with 7 in Hl. split; [lia|].
  apply strncmp_eq; [by apply Forall_drop|by repeat constructor|].
  change (take 7 (str "CONFIG_")) with (str "CONFIG_"). rewrite <- H.
  unfold tok_text. rewrite take_take. f_equal. lia.
Qed.

Lemma var_span_prefix : take 7 w = str "CONFIG_" → var_span w = 7 + span is_var_char (drop 7 w).
Proof.
  intros H. rewrite <- (take_drop 7 w) at 1. rewrite H, var_span_span. done.
Qed.

Lemma validate_var_ok : term_ok w = true → validate_var s t = Some (0%Z, []).
Proof.
  unfold term_ok. intros [H7%bool_decide_eq_true Hrest]%andb_true_iff.
  destruct (tok_prefix H7) as [Hlen Hcmp]. unfold validate_var.
  rewrite decide_False by lia. rewrite Hcmp. cbn [Z.eqb negb].
  destruct (name_loop_spec (S (tok_len t)) 7 Hlen) as (r & -> & He); [lia|]. rewrite obind_Some.
  rewrite <- var_span_prefix in He by done. unfold name_end in He.
  destruct (w !! var_span w) as [c|] eqn:Hc.
  - rewrite (drop_S _ _ _ Hc) in Hrest. apply andb_true_iff in Hrest as [Heq Hv].
    rewrite Heq in He. subst r. set (j := var_span w) in *.
    destruct (drop (S j) w) as [|q v] eqn:Hd; [done|].
    assert (w !! S j = Some q) as Hq.
    { rewrite <- (Nat.add_0_r (S j)), <- lookup_drop, Hd. done. }
    assert (drop (S (S j)) w = v) as Hd2.
    { rewrite (drop_S _ _ _ Hq) in Hd. by injection Hd. }
    assert (length v = tok_len t - S (S j)) as Hlv by (by rewrite <- Hd2, length_drop, length_tok_text).
    pose proof (lookup_lt_Some _ _ _ Hq) as Hj. rewrite length_tok_text in Hj.
    rewrite decide_False by lia. rewrite tokc_lt, Hq, obind_Some by lia.
    cbn [value_ok] in Hv. destruct (q =? cDQ)%Z.
    + apply bool_decide_eq_true in Hv. destruct (strnchr_span _ _ _ Hv) as [Hsp Hlast].
      apply lookup_lt_Some in Hlast as Hlt.
      rewrite do_while_spec by lia. rewrite obind_Some, Hd2, <- Hsp.
      rewrite decide_False by lia. rewrite tokc_lt by lia. rewrite <- lookup_drop, Hd2, Hlast. done.
    + rewrite do_while_spec by lia. rewrite obind_Some, Hd2, span_all by done.
      by rewrite decide_False by lia.
  - destruct He as [Hj [-> | ->]]; [|done]. rewrite decide_True by lia.
    destruct (tokc_le (var_span w - 1)) as [c' Hc']; [lia|]. rewrite Hc', obind_Some.
    destruct (Z.eqb_spec c' "="%cc) as [->|]; [exfalso|done].
    rewrite tokc_lt in Hc' by lia.
    assert (∀ l i, i < var_span l → ∃ c, l !! i = Some c ∧ is_var_char c = true) as Hsp.
    { induction l as [|x l IH]; simpl; intros i Hi; [lia|]. destruct (is_var_char x) eqn:Ex; [|lia].
      destruct i as [|i]; [by exists x|]. apply IH. lia. }
    destruct (Hsp w (var_span w - 1)) as (c & Hw & Hvc); [lia|].
    rewrite Hc' in Hw. injection Hw as <-. discriminate Hvc.
Qed.
(** ** The value of a variable token *)

Lemma strnchr_tok c : strnchr (drop (tok t) s) c (tok_len t) = strnchr w c (length w).
Proof. apply strnchr_take. Qed.

Lemma get_len_tok : get_len (drop (tok t) s) (tok_len t) = get_len w (length w).
Proof. unfold get_len. by rewrite strnchr_tok, length_tok_text. Qed.

Lemma take_get_len : take (get_len (drop (tok t) s) (tok_len t)) (drop (tok t) s) = term_name w.
Proof.
  rewrite get_len_tok. pose proof (get_len_le w (length w)) as Hle. rewrite length_tok_text in Hle at 2.
  transitivity (take (get_len w (length w)) (take (tok_len t) (drop (tok t) s))); [|done].
  rewrite take_take. f_equal. lia.
Qed.

(** Comparing the value of a term with a text. *)
Lemma value_cmp off x :
  strnchr w "="%cc (length w) = Some off → cstring x → length x ≤ tok_len t - (off + 1) →
  (strncmp (drop (tok t + off + 1) s) x (tok_len t - (off + 1)) =? 0)%Z =
  bool_decide (drop (S off) w = x).
Proof.
  intros Hoff Hx Hl. apply Bool.eq_true_iff_eq. rewrite Z.eqb_eq, bool_decide_eq_true.
  rewrite strncmp_eq by (done || by apply Forall_drop).
  rewrite (take_ge x) by done.
  assert (take (tok_len t - (off + 1)) (drop (tok t + off + 1) s) = drop (S off) w) as ->; [|done].
  unfold tok_text. rewrite skipn_firstn_comm, drop_drop. f_equal; [lia|]. f_equal. lia.
Qed.

Lemma value_ok_pos off : term_ok w = true → strnchr w "="%cc (length w) = Some off → 1 ≤ tok_len t - (off + 1).
Proof.
  unfold term_ok. intros [_ H]%andb_true_iff Hoff.
  assert (off = var_span w) as ->.
  { apply strnchr_span in Hoff as [-> Hc]. revert H Hc. generalize w. intros l.
    induction l as [|x l IH]; [done|]. cbn [var_span span drop].
    destruct (is_var_char x) eqn:Ex; cbn [drop].
    - intros H. destruct (Z.eqb_spec x "="%cc) as [->|]; [discriminate Ex|]. cbn [negb lookup list_lookup].
      intros Hc. f_equal. by apply IH.
    - intros [Heq _]%andb_true_iff. by rewrite Heq. }
  apply strnchr_lt in Hoff as [Hlt _]. destruct (lookup_lt_is_Some_2 _ _ Hlt) as [c Hc].
  rewrite (drop_S _ _ _ Hc) in H. apply andb_true_iff in H as [_ H].
  destruct (drop (S (var_span w)) w) as [|q v] eqn:Hd; [done|].
  apply (f_equal length) in Hd. rewrite length_drop, length_tok_text in Hd. simpl in Hd. lia.
Qed.

Lemma map_var_spec vars k var c :
  priv t = Some (PrivVar k) → vars !! k = Some var → has var c →
  (∀ v, c = KSet v → cstring v ∧ v ≠ str "n") → term_ok w = true →
  map_var s vars t = Some (c_bool (term_holds c (term_value w))).
Proof.
  intros Hp Hk Hc Hcv Hok. unfold map_var. rewrite Hp, obind_Some, Hk, obind_Some.
  rewrite strnchr_tok. unfold term_value.
  pose proof (value_ok_pos) as Hpos.
  destruct (strnchr w "="%cc (length w)) as [off|] eqn:Hoff.
  2:{ apply (has_cases var c) in Hc as [[-> ->]|[[-> ->]|[[-> ->]|[[-> ->]|(v & -> & -> & ? & ? & ?)]]]]; [done..|].
    change (term_holds _ _) with (bool_decide (KSet v = KSet (str "y") ∨ KSet v = KSet (str "m"))).
    rewrite bool_decide_false; [done|]. by intros [[= ->]|[= ->]]. }
  specialize (Hpos off Hok eq_refl). rewrite obind_Some. cbn [term_holds].
  rewrite !(value_cmp off) by (done || by repeat constructor).
  set (v := drop (S off) w).
  assert (length v = tok_len t - (off + 1)) as Hlv.
  { unfold v. rewrite length_drop, length_tok_text. lia. }
  assert (∀ (a b : bool), a = b → Some (c_bool a) = Some (c_bool b)) as Hcong by (by intros ? ? ->).
  apply (has_cases var c) in Hc as [[-> ->]|[[-> ->]|[[-> ->]|[[-> ->]|(cv & -> & -> & Hval & ? & ?)]]]].
  - rewrite (bool_decide_false (KUndef = _ ∨ _)) by (by intros [|[? _]]). done.
  - rewrite (bool_decide_ext (KNo = _ ∨ _) (v = str "n")) by (split; [by intros [|[_ ?]]|by right]).
    destruct (decide (v = str "n")) as [->|Hn]; [done|]. rewrite (bool_decide_false (v = str "n")) by done.
    repeat case_bool_decide; done.
  - rewrite (bool_decide_ext (KSet _ = _ ∨ _) (v = str "y")) by (split; [by intros [[= ->]|[? _]]|intros ->; by left]).
    destruct (decide (v = str "y")) as [->|Hn]; [done|]. rewrite (bool_decide_false (v = str "y")) by done.
    repeat case_bool_decide; done.
  - rewrite (bool_decide_ext (KSet _ = _ ∨ _) (v = str "m")) by (split; [by intros [[= ->]|[? _]]|intros ->; by left]).
    destruct (decide (v = str "m")) as [->|Hn]; [done|]. rewrite (bool_decide_false (v = str "m")) by done.
    repeat case_bool_decide; done.
  - destruct (Hcv cv eq_refl) as [Hcs Hn].
    rewrite (bool_decide_ext (KSet cv = _ ∨ _) (v = cv)) by (split; [by intros [[= ->]|[? _]]|intros ->; by left]).
    destruct (decide (v = cv)) as [E|Hne].
    + rewrite !(bool_decide_false (v = str _)) by congruence. cbn [Z.eqb Pos.eqb negb].
      rewrite Hval, obind_Some, bool_decide_true by congruence. cbn [negb].
      by rewrite value_cmp by (done || rewrite <- E; lia).
    + rewrite (bool_decide_false (v = cv)) by done.
      repeat case_bool_decide; try done; cbn [Z.eqb Pos.eqb negb]; rewrite Hval, obind_Some;
        case_bool_decide; try done; cbn [negb]; rewrite value_cmp by (done || lia);
        by rewrite (bool_decide_false (_ = cv)).
Qed.
End Token.

(** ** Parsed constraints *)

Definition in_str (s : list Z) (t : tst_expr_tok) : Prop := tok t + tok_len t ≤ length s.

(** [e] is the postfix list of the derivation [d] of the text [s]. *)
Record parsed (s : list Z) (e : tst_expr) (d : expr) : Prop := mk_parsed {
  parsed_str : cstring s;
  parsed_wf : expr_wf (buf e) d;
  parsed_rpn : rpn_list e = Some (expr_rpn d);
  parsed_lt : Forall (λ x, x < length (buf e)) (expr_rpn d);
  parsed_in : Forall (in_str s) (buf e);
}.

Lemma link_out_in s tb out : Forall (in_str s) tb → Forall (in_str s) (link_out tb out).
Proof.
  revert tb. induction out as [|x out IH]; intros tb H; simpl; [done|].
  apply IH. apply Forall_alter; [done|]. by intros t _ Ht.
Qed.

Lemma parse_parsed s e msg d :
  cstring s → tst_bool_expr_parse true s = Some (Some e, msg) → derives (buf e) d → parsed s e d.
Proof.
  intros Hs Hp Hd. destruct (parse_spec s Hs) as (toks & Ht & Hok & Hnil & Hcons).
  destruct (decide (toks = [])) as [E|Hne]; [by rewrite Hnil in Hp|].
  specialize (Hcons Hne). destruct (a_yard toks) as [out|] eqn:Hy.
  2:{ destruct Hcons as (? & ? & ? & _ & Hp'). congruence. }
  destruct Hcons as [Hsub Hp']. rewrite Hp' in Hp. injection Hp as <- <-. cbn [buf] in Hd.
  assert (out = expr_rpn d) as ->.
  { apply derives_link in Hd. destruct (a_yard_iff toks (expr_rpn d) Hne) as [_ H].
    rewrite H in Hy by eauto. by injection Hy. }
  split; cbn [buf].
  - done.
  - apply Hd.
  - by apply rpn_list_link.
  - rewrite length_link_out. by apply submseteq_seq in Hsub as (_ & ? & _).
  - apply link_out_in. eapply Forall_impl; [exact Hok|]. intros t (H1 & H2 & _). unfold in_str. lia.
Qed.

(** Buffers that differ in [priv] only. *)
Definition same_toks (b b' : list tst_expr_tok) : Prop := set_priv None <$> b = set_priv None <$> b'.

#[export] Instance same_toks_equiv : Equivalence same_toks.
Proof.
  split; unfold same_toks; [by intros b|by intros b b' H|].
  intros b1 b2 b3 H1 H2. by rewrite H1.
Qed.

Lemma same_toks_lookup b b' x t' :
  same_toks b b' → b' !! x = Some t' → ∃ t, b !! x = Some t ∧ set_priv None t = set_priv None t'.
Proof.
  intros H Hx. apply (f_equal (.!! x)) in H. rewrite !list_lookup_fmap, Hx in H.
  destruct (b !! x) as [t|]; [|done]. exists t. split; [done|]. by apply (inj Some) in H.
Qed.

Lemma same_toks_alter b x p : same_toks b (alter (set_priv p) x b).
Proof.
  unfold same_toks. apply list_eq. intros i. rewrite !list_lookup_fmap, list_lookup_alter.
  case_decide as E; [subst|done]. by destruct (b !! i).
Qed.

Lemma same_toks_length b b' : same_toks b b' → length b' = length b.
Proof. intros H%(f_equal length). by rewrite !length_fmap in H. Qed.

Lemma same_toks_fields b b' {A} (f : tst_expr_tok → A) x :
  (∀ t, f (set_priv None t) = f t) → same_toks b b' → f <$> b !! x = f <$> b' !! x.
Proof.
  intros Hf H. apply (f_equal (.!! x)) in H. rewrite !list_lookup_fmap in H.
  destruct (b !! x) as [t|], (b' !! x) as [t'|]; [|done..]. apply (inj Some) in H. simpl. f_equal.
  by rewrite <- (Hf t), H, Hf.
Qed.

Lemma walk_same b b' fuel i : same_toks b b' → walk_list fuel b i = walk_list fuel b' i.
Proof.
  intros H. revert i. induction fuel as [|fuel IH]; intros [x|]; simpl; try done.
  pose proof (same_toks_fields b b' next x (λ _, eq_refl) H) as E.
  destruct (b !! x), (b' !! x); simplify_eq/=; [|done]. by rewrite E, IH.
Qed.

Lemma parsed_same s e d b' :
  parsed s e d → same_toks (buf e) b' → parsed s (mk_expr (rpn e) b') d.
Proof.
  intros [Hs Hw Hr Hl Hi] H. split; cbn [buf].
  - done.
  - eapply wf_ext; [|exact Hw]. intros i. by apply same_toks_fields.
  - rewrite <- Hr. unfold rpn_list. cbn [rpn buf]. rewrite (same_toks_length _ _ H). symmetry. by apply walk_same.
  - by rewrite (same_toks_length _ _ H).
  - apply Forall_lookup_2. intros x t' Hx. destruct (same_toks_lookup _ _ _ _ H Hx) as (t & Ht & E).
    pose proof (Forall_lookup_1 _ _ _ _ Hi Ht) as Hin. unfold in_str in *.
    apply (f_equal (λ t, (tok t, tok_len t))) in E. simpl in E. injection E as <- <-. done.
Qed.

(** ** Collecting the variables *)

(** The variables before the config is read: distinct names without values. *)
Definition new_var (n : list Z) : tst_kconfig_var := mk_kvar n (length n) 0 None.

Definition vars_ok (vars : list tst_kconfig_var) : Prop :=
  ∃ names, vars = new_var <$> names ∧ NoDup names ∧ Forall cstring names.

Lemma vars_ok_ids (names : list (list Z)) : id <$> (new_var <$> names) = names.
Proof. rewrite <- list_fmap_compose. apply list_fmap_id. Qed.

Lemma find_var_spec names n :
  Forall cstring names → cstring n →
  match find_var (new_var <$> names) n with Some k => names !! k = Some n | None => n ∉ names end.
Proof.
  intros H Hn. induction H as [|x names Hx H IH]; simpl; [set_solver|].
  destruct (Z.eqb_spec (strcmp x n) 0) as [E|E].
  - apply strcmp_eq in E as ->; done.
  - assert (x ≠ n) by (intros ->; apply E; by apply strcmp_eq).
    destruct (find_var _ n) as [k|]; simpl; [done|]. by apply not_elem_of_cons.
Qed.

Definition fits (n : list Z) : Prop := length n + 1 < ID_SIZE.

#[export] Instance fits_dec n : Decision (fits n).
Proof. apply _. Defined.

Lemma populate_tok_spec cap s t names :
  cstring s → in_str s t → fits (term_name (tok_text s t)) →
  NoDup names → Forall cstring names → length names < cap →
  ∃ names' k, populate_tok cap s t (new_var <$> names) = CRet (new_var <$> names', k) ∧
    names `prefix_of` names' ∧ length names' ≤ S (length names) ∧ NoDup names' ∧ Forall cstring names' ∧
    names' !! k = Some (term_name (tok_text s t)).
Proof.
  intros Hs Hin Hfit Hnd Hc Hcap. unfold populate_tok.
  rewrite length_fmap, decide_True by done.
  assert (get_len (drop (tok t) s) (tok_len t) = length (term_name (tok_text s t))) as El.
  { rewrite <- take_get_len by done. rewrite length_take, length_drop.
    pose proof (get_len_le (drop (tok t) s) (tok_len t)). unfold in_str in Hin. lia. }
  rewrite take_get_len by done. rewrite El.
  unfold fits in Hfit. rewrite decide_False by lia. cbn [id].
  assert (cstring (term_name (tok_text s t))) as Hn.
  { apply Forall_take, Forall_take, Forall_drop, Hs. }
  change (mk_kvar ?n (length ?n) 0 None) with (new_var n).
  pose proof (find_var_spec names _ Hc Hn) as Hf.
  destruct (find_var _ _) as [k|].
  - exists names, k. split_and!; try done; lia.
  - exists (names ++ [term_name (tok_text s t)]), (length names). split_and!.
    + by rewrite fmap_app.
    + by eexists.
    + rewrite length_app. simpl. lia.
    + apply NoDup_app. split_and!; [done| |apply NoDup_singleton].
      intros y Hy Hy'%list_elem_of_singleton. by subst y.
    + apply Forall_app. split; [done|]. by apply Forall_singleton.
    + by rewrite list_lookup_middle.
Qed.

(** The variable tokens among [l] point to the entry of their name. *)
Definition bound (s : list Z) (b : list tst_expr_tok) (names : list (list Z)) (l : list nat) : Prop :=
  ∀ x t, x ∈ l → b !! x = Some t → is_var t = true →
    ∃ k, priv t = Some (PrivVar k) ∧ names !! k = Some (term_name (tok_text s t)).

Lemma bound_mono s b names names' l : names `prefix_of` names' → bound s b names l → bound s b names' l.
Proof.
  intros Hp Hb x t Hx Ht Hv. destruct (Hb x t Hx Ht Hv) as (k & Hk & Hn).
  exists k. split; [done|]. by eapply prefix_lookup_Some.
Qed.

Definition nvars (b : list tst_expr_tok) (l : list nat) : nat :=
  length (List.filter is_var (omap (b !!.) l)).

(** What is required of every variable token. *)
Definition toks_fit (s : list Z) (b : list tst_expr_tok) : Prop :=
  Forall (λ t, is_var t = true → fits (term_name (tok_text s t))) b.

Lemma toks_fit_same s b b' : same_toks b b' → toks_fit s b → toks_fit s b'.
Proof.
  intros H Hf. apply Forall_lookup_2. intros x t' Hx.
  destruct (same_toks_lookup _ _ _ _ H Hx) as (t & Ht & E).
  pose proof (Forall_lookup_1 _ _ _ _ Hf Ht) as HH. simpl in HH.
  unfold is_var, tok_text in *. apply (f_equal (λ t, (op t, tok t, tok_len t))) in E. simpl in E. by injection E as <- <- <-.
Qed.

Lemma nvars_same b b' l : same_toks b b' → nvars b l = nvars b' l.
Proof.
  intros H. unfold nvars. induction l as [|x l IH]; simpl; [done|].
  pose proof (same_toks_fields b b' is_var x (λ _, eq_refl) H) as E.
  destruct (b !! x) as [t|], (b' !! x) as [t'|]; [|done..]. apply (inj Some) in E. cbn [List.filter].
  rewrite E. destruct (is_var t'); cbn [length]; [f_equal|]; exact IH.
Qed.

Lemma populate_expr_spec cap s l b names dn :
  cstring s → Forall (in_str s) b → toks_fit s b → Forall (λ x, x < length b) l →
  NoDup names → Forall cstring names → length names + nvars b l ≤ cap → bound s b names dn →
  ∃ names' b', populate_expr cap s l b (new_var <$> names) = CRet (new_var <$> names', b') ∧
    names `prefix_of` names' ∧ length names' ≤ length names + nvars b l ∧ NoDup names' ∧ Forall cstring names' ∧
    same_toks b b' ∧ bound s b' names' (dn ++ l).
Proof.
  intros Hs. revert b names dn. induction l as [|x l IH]; intros b names dn Hin Hfit Hlt Hnd Hc Hcap Hb.
  { exists names, b. rewrite app_nil_r. split_and!; try done. lia. }
  apply Forall_cons in Hlt as [Hx Hlt]. destruct (lookup_lt_is_Some_2 _ _ Hx) as [t Ht].
  cbn [populate_expr]. rewrite Ht. cbn [defined]. rewrite cbind_Ret.
  unfold nvars in Hcap |- *. cbn [omap list_omap] in Hcap |- *. rewrite Ht in Hcap |- *. cbn [List.filter] in Hcap |- *.
  assert (∀ names' : list (list Z), dn ++ x :: l = (dn ++ [x]) ++ l) as Eapp by (by rewrite <- app_assoc).
  destruct (is_var t) eqn:Hv.
  - cbn [length] in Hcap |- *.
    destruct (populate_tok_spec cap s t names) as (names1 & k & -> & Hp1 & Hl1 & Hn1 & Hc1 & Hk); try done; [| |lia|].
    { by eapply Forall_lookup_1 in Hin. }
    { pose proof (Forall_lookup_1 _ _ _ _ Hfit Ht) as HH. by apply HH. }
    rewrite cbind_Ret. cbn beta iota.
    set (b1 := alter (set_priv (Some (PrivVar k))) x b).
    assert (same_toks b b1) as Hs1 by apply same_toks_alter.
    assert (nvars b1 l = nvars b l) as Hnv by (symmetry; by apply nvars_same).
    destruct (IH b1 names1 (dn ++ [x])) as (names2 & b2 & E & Hp2 & Hl2 & Hn2 & Hc2 & Hs2 & Hb2).
    + apply Forall_alter; [done|]. by intros t' _ Ht'.
    + by eapply toks_fit_same.
    + unfold b1. by rewrite length_alter.
    + done.
    + done.
    + rewrite Hnv. unfold nvars. lia.
    + intros y t' Hy Ht' Hv'. unfold b1 in Ht'. destruct (decide (y = x)) as [->|Hyx].
      * rewrite list_lookup_alter_eq, Ht in Ht'. injection Ht' as <-. exists k. by split.
      * rewrite list_lookup_alter_ne in Ht' by done.
        apply (bound_mono _ _ _ _ _ Hp1 Hb y t'); [|done|done].
        by apply elem_of_app in Hy as [Hy|Hy%list_elem_of_singleton].
    + exists names2, b2. split_and!; try done.
      * by transitivity names1.
      * rewrite Hnv in Hl2. unfold nvars in Hl2. lia.
      * by transitivity b1.
      * by rewrite (Eapp names).
  - destruct (IH b names (dn ++ [x])) as (names2 & b2 & E & Hp2 & Hl2 & Hn2 & Hc2 & Hs2 & Hb2); try done.
    + intros y t' Hy Ht' Hv'. apply elem_of_app in Hy as [Hy|Hy%list_elem_of_singleton]; [by eapply Hb|].
      subst y. rewrite Ht in Ht'. injection Ht' as <-. congruence.
    + exists names2, b2. split_and!; try done. by rewrite (Eapp names).
Qed.

Lemma mapM_omap {A B} (f : A → option B) l ts : mapM f l = Some ts → ts = omap f l.
Proof.
  intros H%mapM_Some. induction H as [|x t l ts Hx _ IH]; simpl; [done|]. by rewrite Hx, IH.
Qed.

Lemma parsed_toks s e d : parsed s e d → rpn_toks e = Some (omap (buf e !!.) (expr_rpn d)).
Proof.
  intros H. unfold rpn_toks. rewrite (parsed_rpn _ _ _ H), obind_Some.
  destruct (mapM_lookup _ _ (parsed_lt _ _ _ H)) as [ts Hts]. by rewrite Hts, (mapM_omap _ _ _ Hts).
Qed.

(** A constraint: its text and its parsed form. *)
Abbreviation constraint := (list Z * tst_expr)%type.

Definition c_parsed (x : constraint) (d : expr) : Prop := parsed x.1 x.2 d.

(** Every variable token is a well-formed term whose name fits. *)
Definition c_terms (x : constraint) : Prop :=
  Forall (λ t, is_var t = true → term_ok (tok_text x.1 t) = true ∧ fits (term_name (tok_text x.1 t))) (buf x.2).

#[export] Instance c_terms_dec x : Decision (c_terms x).
Proof. apply _. Defined.

Definition c_same (x x' : constraint) : Prop :=
  x'.1 = x.1 ∧ rpn x'.2 = rpn x.2 ∧ same_toks (buf x.2) (buf x'.2).

Lemma c_terms_fit x : c_terms x → toks_fit x.1 (buf x.2).
Proof. intros H. eapply Forall_impl; [exact H|]. simpl. tauto. Qed.

Lemma get_var_cnt_spec xs ds :
  Forall2 c_parsed xs ds →
  get_var_cnt xs = Some (sum_list (zip_with (λ x d, nvars (buf x.2) (expr_rpn d)) xs ds)).
Proof.
  induction 1 as [|[s e] d xs ds Hx _ IH]; simpl; [done|].
  rewrite (parsed_toks s e d) by done. rewrite obind_Some, IH. done.
Qed.

Lemma populate_vars_spec cap xs ds names :
  Forall2 c_parsed xs ds → Forall c_terms xs → NoDup names → Forall cstring names →
  length names + sum_list (zip_with (λ x d, nvars (buf x.2) (expr_rpn d)) xs ds) ≤ cap →
  ∃ names' xs', populate_vars cap xs (new_var <$> names) = CRet (new_var <$> names', xs') ∧
    names `prefix_of` names' ∧ NoDup names' ∧ Forall cstring names' ∧ Forall2 c_same xs xs' ∧
    Forall2 (λ x d, bound x.1 (buf x.2) names' (expr_rpn d)) xs' ds.
Proof.
  intros Hp. revert names. induction Hp as [|[s e] d xs ds Hx Hp IH]; intros names Ht Hnd Hc Hcap.
  { exists names, []. split_and!; try done; constructor. }
  apply Forall_cons in Ht as [Ht0 Ht]. cbn [populate_vars zip_with sum_list fst snd] in *.
  pose proof Hx as [Hs Hwf Hr Hlt Hin]. cbn [fst snd] in *.
  rewrite Hr. cbn [defined]. rewrite cbind_Ret.
  destruct (populate_expr_spec cap s (expr_rpn d) (buf e) names []) as
    (names1 & b1 & -> & Hp1 & Hl1 & Hn1 & Hc1 & Hs1 & Hb1); try done.
  { by apply (c_terms_fit (s, e)). }
  { simpl in Hcap. lia. }
  { intros x t Hx'. by apply not_elem_of_nil in Hx'. }
  rewrite cbind_Ret. cbn beta iota.
  destruct (IH names1) as (names2 & xs2 & -> & Hp2 & Hn2 & Hc2 & Hs2 & Hb2); try done.
  { simpl in Hcap. lia. }
  exists names2, ((s, mk_expr (rpn e) b1) :: xs2). split_and!; try done.
  - by transitivity names1.
  - by constructor.
  - constructor; [|done]. by eapply bound_mono.
Qed.

Lemma c_same_parsed x x' d : c_parsed x d → c_same x x' → c_parsed x' d.
Proof.
  destruct x as [s e], x' as [s' [r b']]. unfold c_parsed, c_same. simpl.
  intros H (-> & -> & Hs). by apply parsed_same.
Qed.

(** ** Evaluating the constraints *)

Lemma val_ext b (f g : tst_expr_tok → Z) :
  (∀ p, prim_wf b p → (∀ x t, x ∈ prim_rpn p → b !! x = Some t → is_var t = true → f t = g t) →
    prim_val b f p = prim_val b g p) ∧
  (∀ e, expr_wf b e → (∀ x t, x ∈ expr_rpn e → b !! x = Some t → is_var t = true → f t = g t) →
    expr_val b f e = expr_val b g e).
Proof.
  apply prim_expr_ind; simpl.
  - intros i Hi H. unfold opn in Hi. destruct (b !! i) as [t|] eqn:Ht; [|done]. simpl.
    rewrite (H i t); [done|by apply list_elem_of_singleton|done|].
    injection Hi as Hi. unfold is_var. by rewrite Hi.
  - intros i p IH [_ Hp] H. rewrite IH; [done|done|]. intros x t Hx. apply H. apply elem_of_app. by left.
  - intros l e IH r (_ & He & _) H. by apply IH.
  - intros p IH Hp H. by apply IH.
  - intros e IHe o p IHp (He & _ & Hp) H. rewrite IHe, IHp; [done|done| |done|].
    + intros x t Hx. apply H. apply elem_of_app. right. apply elem_of_app. by left.
    + intros x t Hx. apply H. apply elem_of_app. by left.
Qed.

Lemma val_same b b' f :
  (∀ t, f (set_priv None t) = f t) → same_toks b b' →
  (∀ p, prim_val b f p = prim_val b' f p) ∧ (∀ e, expr_val b f e = expr_val b' f e).
Proof.
  intros Hf H. assert (∀ i, opn b i = opn b' i) as Ho by (intros i; by apply same_toks_fields).
  apply prim_expr_ind; simpl.
  - intros i. pose proof (same_toks_fields b b' f i Hf H) as E.
    destruct (b !! i), (b' !! i); simplify_eq/=; [|done]. by rewrite E.
  - intros i p IH. by rewrite IH.
  - done.
  - done.
  - intros e IHe o p IHp. by rewrite IHe, IHp, Ho.
Qed.

Lemma parsed_eval s e d f : parsed s e d → tst_bool_expr_eval e f = Some (stack_val (buf e) f d).
Proof. intros [_ ? ? ? _]. by apply eval_rpn. Qed.

(** The value of a constraint in a config file. *)
Definition c_val (es : list centry) (x : constraint) (d : expr) : Z :=
  stack_val (buf x.2) (λ t, term_val es (tok_text x.1 t)) d.

Lemma c_val_same es x x' d : c_same x x' → c_val es x' d = c_val es x d.
Proof.
  intros (E & _ & H). unfold c_val, stack_val. rewrite E.
  case_decide; [|done]. f_equal. symmetry. by apply val_same.
Qed.

Lemma c_terms_same x x' : c_same x x' → c_terms x → c_terms x'.
Proof.
  destruct x as [s e], x' as [s' e']. intros (E & _ & H) Ht. cbn [fst snd] in *. subst s'.
  apply Forall_lookup_2. intros i t' Hi. destruct (same_toks_lookup _ _ _ _ H Hi) as (t & Hti & Et).
  pose proof (Forall_lookup_1 _ _ _ _ Ht Hti) as HH. simpl in HH |- *. unfold is_var, tok_text in *.
  apply (f_equal (λ t, (op t, tok t, tok_len t))) in Et. simpl in Et. by injection Et as <- <- <-.
Qed.

(** The options a constraint is about have values without blanks, and none is
    given the value n, for which a config file has "is not set". *)
Definition c_plain (es : list centry) (x : constraint) : Prop :=
  Forall (λ t, is_var t = true →
    unblank (conf es (term_name (tok_text x.1 t))) ∧
    conf es (term_name (tok_text x.1 t)) ≠ KSet (str "n")) (buf x.2).

#[export] Instance c_plain_dec es x : Decision (c_plain es x).
Proof. apply _. Defined.

Lemma c_plain_same es x x' : c_same x x' → c_plain es x → c_plain es x'.
Proof.
  destruct x as [s e], x' as [s' e']. intros (E & _ & H) Ht. cbn [fst snd] in *. subst s'.
  apply Forall_lookup_2. intros i t' Hi. destruct (same_toks_lookup _ _ _ _ H Hi) as (t & Hti & Et).
  pose proof (Forall_lookup_1 _ _ _ _ Ht Hti) as HH. simpl in HH |- *. unfold is_var, tok_text in *.
  apply (f_equal (λ t, (op t, tok t, tok_len t))) in Et. simpl in Et. by injection Et as <- <- <-.
Qed.

Lemma conf_cstring es n v : Forall entry_ok es → conf es n = KSet v → cstring v.
Proof.
  intros Hok. induction Hok as [|e es He _ IH]; simpl; [done|].
  case_decide; [|done]. destruct e as [m vl|m| |]; simpl; [|done..].
  intros [= <-]. destruct He as (_ & _ & Hv & _). eapply Forall_impl; [exact Hv|]. by intros c [? _].
Qed.

Section Read.
Context (es : list centry) (names : list (list Z)).
Context (Hes : file_ok es).

#[local] Abbreviation vars := (resolve es <$> (new_var <$> names)).

Lemma vars_lookup k n : names !! k = Some n → ∃ v, vars !! k = Some v ∧ has v (kept (conf es n)).
Proof.
  intros Hk. exists (resolve es (new_var n)). rewrite !list_lookup_fmap, Hk. split; [done|].
  by apply resolve_has; [apply Hes|].
Qed.

Lemma c_eval x d :
  c_parsed x d → c_terms x → c_plain es x → bound x.1 (buf x.2) names (expr_rpn d) →
  tst_bool_expr_eval x.2 (λ t, default 0%Z (map_var x.1 vars t)) = Some (c_val es x d).
Proof.
  intros Hp Ht Hpl Hb. rewrite (parsed_eval x.1 x.2 d) by done. f_equal.
  unfold c_val, stack_val. case_decide; [|done]. f_equal.
  apply val_ext; [apply Hp|]. intros y t Hy Hyt Hv.
  destruct (Hb y t Hy Hyt Hv) as (k & Hk & Hn). destruct (vars_lookup k _ Hn) as (var & Hvar & Hh).
  pose proof (Forall_lookup_1 _ _ _ _ Ht Hyt Hv) as [Hok _].
  destruct (Forall_lookup_1 _ _ _ _ Hpl Hyt Hv) as [Hun Hnn]. rewrite kept_unblank in Hh by done.
  rewrite (map_var_spec x.1 t (parsed_str _ _ _ Hp)
    (Forall_lookup_1 _ _ _ _ (parsed_in _ _ _ Hp) Hyt) vars k var _ Hk Hvar Hh); [done| |done].
  intros v E. split; [by eapply conf_cstring; [apply Hes|]|congruence].
Qed.

Lemma dump_vars_ok x d :
  c_parsed x d → bound x.1 (buf x.2) names (expr_rpn d) → is_Some (dump_vars vars x.2).
Proof.
  intros Hp Hb. unfold dump_vars. rewrite (parsed_toks x.1 x.2 d Hp), obind_Some.
  destruct (mapM _ _) as [vs|] eqn:E; [by eexists|]. exfalso. revert E.
  apply not_eq_None_Some, mapM_is_Some, Forall_forall. intros t Ht%list_elem_of_In%List.filter_In.
  destruct Ht as [Ht Hv]. apply list_elem_of_In, list_elem_of_omap in Ht as (y & Hy & Hyt).
  destruct (Hb y t Hy Hyt Hv) as (k & Hk & Hn). destruct (vars_lookup k _ Hn) as (var & Hvar & _).
  unfold compose. rewrite Hk, obind_Some, Hvar. by eexists.
Qed.

Lemma check_exprs_spec xs ds ret l :
  Forall2 c_parsed xs ds → Forall c_terms xs → Forall (c_plain es) xs →
  Forall2 (λ x d, bound x.1 (buf x.2) names (expr_rpn d)) xs ds →
  ∃ l', check_exprs vars xs ret l =
    CRet (if forallb (λ v, v =? 1)%Z (zip_with (c_val es) xs ds) then ret else 1%Z, l').
Proof.
  intros Hp. revert ret l. induction Hp as [|[s e] d xs ds Hx _ IH]; intros ret l Ht Hq Hb; [by eexists|].
  apply Forall_cons in Ht as [Ht0 Ht]. apply Forall_cons in Hq as [Hq0 Hq]. apply Forall2_cons in Hb as [Hb0 Hb].
  cbn [check_exprs zip_with forallb]. pose proof (c_eval (s, e) d Hx Ht0 Hq0 Hb0) as He. cbn [fst snd] in He.
  rewrite He. cbn [defined]. rewrite cbind_Ret.
  destruct (c_val es (s, e) d =? 1)%Z; cbn [negb andb]; [by apply IH|].
  destruct (dump_vars_ok (s, e) d Hx Hb0) as [dl Hd]. cbn [snd] in Hd. rewrite Hd. cbn [defined]. rewrite cbind_Ret.
  destruct (IH 1%Z (l ++ [(TINFO, str "Constraint '" ++ s ++ str "' not satisfied!")] ++ dl) Ht Hq Hb) as [l' ->].
  exists l'. by destruct (forallb _ _).
Qed.
End Read.

(** ** The whole check *)

Lemma validate_toks_ok s ts :
  Forall (λ t, is_var t = true → validate_var s t = Some (0%Z, [])) ts → validate_toks s ts 0 = Some 0%Z.
Proof.
  induction 1 as [|t ts Ht _ IH]; simpl; [done|]. destruct (is_var t); [|done].
  rewrite Ht by done. rewrite obind_Some. exact IH.
Qed.

Lemma validate_vars_ok xs ds :
  Forall2 c_parsed xs ds → Forall c_terms xs → validate_vars xs 0 = Some 0%Z.
Proof.
  induction 1 as [|[s e] d xs ds Hx _ IH]; intros Ht; [done|]. apply Forall_cons in Ht as [Ht0 Ht].
  cbn [validate_vars]. rewrite (parsed_toks s e d Hx), obind_Some, validate_toks_ok; [by rewrite obind_Some, IH|].
  apply Forall_forall. intros t (y & Hy & Hyt)%list_elem_of_omap Hv.
  apply validate_var_ok; [apply Hx| |].
  - exact (Forall_lookup_1 _ _ _ _ (parsed_in _ _ _ Hx) Hyt).
  - by apply (Forall_lookup_1 _ _ _ _ Ht0 Hyt).
Qed.

(** The constraints [kconfigs] parse to [es]. *)
Definition parse_to (s : list Z) (e : tst_expr) : Prop := tst_bool_expr_parse true s = Some (Some e, []).

Lemma parse_exprs_ok w ks es :
  malloc_ok w = true → Forall2 parse_to ks es → parse_exprs w ks = CRet (zip ks es).
Proof.
  intros Hm. induction 1 as [|s e ks es H _ IH]; [done|]. cbn [parse_exprs zip zip_with].
  rewrite Hm, H. cbn [defined]. rewrite cbind_Ret. cbn beta iota. by rewrite IH.
Qed.

Lemma parse_exprs_parsed ks es ds :
  Forall cstring ks → Forall2 parse_to ks es → Forall2 (λ e, derives (buf e)) es ds →
  Forall2 c_parsed (zip ks es) ds.
Proof.
  intros Hs Hp. revert ds. induction Hp as [|s e ks es H _ IH]; intros ds Hd.
  - apply Forall2_nil_inv_l in Hd as ->. constructor.
  - apply Forall2_cons_inv_l in Hd as (d & ds' & Hd & Hds & ->). apply Forall_cons in Hs as [Hs0 Hs].
    constructor; [|by apply IH]. by eapply parse_parsed.
Qed.

(** The config file that is found has the entries [es]. *)
Definition config_is (w : kworld) (es : list centry) : Prop :=
  ∃ l, open_kconfig w = CRet (Some (file_text es), l).

Lemma read_config w es names :
  config_is w es → file_ok es → NoDup names → Forall cstring names →
  ∃ l, tst_kconfig_read w (new_var <$> names) = CRet (resolve es <$> (new_var <$> names), l).
Proof.
  intros [l Hl] Hes Hnd Hc. exists l. unfold tst_kconfig_read. rewrite Hl, cbind_Ret. cbn beta iota.
  assert (0 = nsettled (new_var <$> names)) as E0.
  { clear. induction names as [|n names IH]; [done|]. exact IH. }
  rewrite E0 at 1. rewrite read_lines_file; [done|done|done| | |].
  - apply Forall_fmap. eapply Forall_impl; [exact Hc|]. intros n Hn. by split.
  - by rewrite vars_ok_ids.
  - apply Forall_fmap. apply Forall_true. intros n H. by destruct H.
Qed.

Lemma Forall2_same_parsed xs xs' ds :
  Forall2 c_same xs xs' → Forall2 c_parsed xs ds → Forall2 c_parsed xs' ds.
Proof.
  intros H. revert ds. induction H as [|x x' xs xs' Hx _ IH]; intros ds Hp.
  - by apply Forall2_nil_inv_l in Hp as ->.
  - apply Forall2_cons_inv_l in Hp as (d & ds' & Hd & Hds & ->). constructor; [|by apply IH].
    by eapply c_same_parsed.
Qed.

Lemma Forall2_same_terms xs xs' : Forall2 c_same xs xs' → Forall c_terms xs → Forall c_terms xs'.
Proof.
  induction 1 as [|x x' xs xs' Hx _ IH]; intros Ht; [done|].
  apply Forall_cons in Ht as [? ?]. constructor; [by eapply c_terms_same|by apply IH].
Qed.

Lemma Forall2_same_plain es xs xs' : Forall2 c_same xs xs' → Forall (c_plain es) xs → Forall (c_plain es) xs'.
Proof.
  induction 1 as [|x x' xs xs' Hx _ IH]; intros Ht; [done|].
  apply Forall_cons in Ht as [? ?]. constructor; [by eapply c_plain_same|by apply IH].
Qed.

Lemma zip_val_same es xs xs' ds :
  Forall2 c_same xs xs' → zip_with (c_val es) xs' ds = zip_with (c_val es) xs ds.
Proof.
  intros H. revert ds. induction H as [|x x' xs xs' Hx _ IH]; intros [|d ds]; simpl; try done.
  by rewrite IH, (c_val_same _ x x').
Qed.

Lemma array_len_ok ks : ks ≠ [] → array_len ks = Some (length ks).
Proof.
  intros Hne. unfold array_len.
  assert (∀ fuel i, i < length ks → length ks ≤ fuel + i → array_len_loop fuel ks i = Some (length ks)) as H.
  { induction fuel as [|fuel IH]; intros i Hi Hf; [lia|]. cbn [array_len_loop].
    case_decide as E; [by rewrite E|]. destruct (lookup_lt_is_Some_2 ks (S i)) as [x ->]; [lia|].
    apply IH; lia. }
  apply H; destruct ks; simpl; try done; lia.
Qed.

(** ** An example *)

Lemma conf_has es n : file_ok es → unblank (conf es n) → has (resolve es (new_var n)) (conf es n).
Proof. intros Hes Hu. rewrite <- (kept_unblank _ Hu). apply (resolve_has es (new_var n)); [apply Hes|done]. Qed.

Definition demo_entries : list centry :=
  [CComment (str " Linux/arm64 6.1 Kernel Configuration"); CBlank;
   CSet (str "CONFIG_A") (str "y"); CUnset (str "CONFIG_B");
   CSet (str "CONFIG_NR_CPUS") (str "256"); CSet (str "CONFIG_NAME") (cDQ :: str "two words" ++ [cDQ]);
   CSet (str "CONFIG_KASAN") (str "y")].

Definition demo_world : kworld :=
  mk_kworld false (Some (str "/tmp/config")) (λ p, bool_decide (p = str "/tmp/config"))
    (str "6.1.0") (λ p, if decide (p = str "/tmp/config") then Some (file_text demo_entries) else None)
    (λ _, None) true.

Lemma demo_config : config_is demo_world demo_entries.
Proof. eexists. vm_compute. reflexivity. Qed.

Lemma demo_ok : file_ok demo_entries.
Proof. apply (bool_decide_eq_true_1 (file_ok demo_entries)). vm_compute. reflexivity. Qed.

Definition demo_parse (s : list Z) : tst_expr :=
  match tst_bool_expr_parse true s with Some (Some e, _) => e | _ => mk_expr None [] end.

Definition demo_constraints : list (list Z) :=
  [str "CONFIG_A & !CONFIG_B=y"; str "CONFIG_NR_CPUS=256 | CONFIG_X"].

Definition demo_derivations : list expr :=
  [EBin (EPrim (PVar 0)) 1 (PNot 2 (PVar 3)); EBin (EPrim (PVar 0)) 1 (PVar 2)].

(** ** Properties *)

(** C28. [tst_kconfig_read] on a config file of entries NAME=VALUE, "# NAME is
    not set", comments and blank lines, whose lines fit the buffer of 128
    bytes and end with a newline, and which mentions no option twice: for
    distinct variables whose values in the file have no blanks the loop never
    reads past a line and ends, and afterwards, whether or not it left the
    loop early, every variable holds the value its option has in the file. *)
Theorem tst_kconfig_read_correct (w : kworld) (es : list centry) (names : list (list Z)) :
  config_is w es → file_ok es → NoDup names → Forall cstring names →
  Forall (λ n, unblank (conf es n)) names →
  ∃ vars l, tst_kconfig_read w (TST_KCONFIG_INIT <$> names) = CRet (vars, l) ∧
    id <$> vars = names ∧ Forall2 (λ n v, has v (conf es n)) names vars.
Proof.
  intros Hw Hes Hnd Hc Hu. destruct (read_config w es names Hw Hes Hnd Hc) as [l Hl].
  exists (resolve es <$> (new_var <$> names)), l. split_and!; [exact Hl| |].
  - rewrite <- (vars_ok_ids names) at 2. rewrite <- list_fmap_compose. apply list_fmap_ext.
    intros i v _. apply resolve_id.
  - apply Forall2_fmap_r, Forall2_fmap_r, Forall_Forall2_diag. eapply Forall_impl; [exact Hu|].
    intros n Hn. by apply conf_has.
Qed.

Lemma tst_kconfig_read_correct_witness :
  ∃ vars l, tst_kconfig_read demo_world (TST_KCONFIG_INIT <$> [str "CONFIG_NR_CPUS"; str "CONFIG_B"]) = CRet (vars, l) ∧
    Forall2 (λ n v, has v (conf demo_entries n)) [str "CONFIG_NR_CPUS"; str "CONFIG_B"] vars ∧
    conf demo_entries (str "CONFIG_NR_CPUS") = KSet (str "256") ∧ conf demo_entries (str "CONFIG_B") = KNo.
Proof.
  destruct (tst_kconfig_read_correct demo_world demo_entries [str "CONFIG_NR_CPUS"; str "CONFIG_B"])
    as (vars & l & H & _ & H').
  - exact demo_config.
  - exact demo_ok.
  - apply (bool_decide_eq_true_1 (NoDup _)). vm_compute. reflexivity.
  - by repeat constructor.
  - apply (bool_decide_eq_true_1 (Forall _ _)). vm_compute. reflexivity.
  - exists vars, l. split_and!; [exact H|exact H'|vm_compute; reflexivity..].
Defined.



(** The character [tst_kconfig_get] returns for a value. *)
Definition cval_char (c : cval) : Z :=
  match c with
  | KUndef => 0
  | KNo => "n"%cc
  | KSet v => if decide (v = str "y") then "y"%cc else if decide (v = str "m") then "m"%cc else "v"%cc
  end.

Lemma has_choice v c : has v c → choice v = cval_char c.
Proof. destruct c; simpl; repeat case_decide; tauto. Qed.

(** [tst_kconfig_get] returns the kind of value the option has in the
    config file, 0 for an option that is not mentioned, and gives up with
    TBROK on a name that does not fit the 64 bytes of the variable. *)
Theorem tst_kconfig_get_correct (w : kworld) (es : list centry) (n : list Z) :
  env_skip_check w = false → config_is w es → file_ok es → cstring n → unblank (conf es n) →
  (length n < ID_SIZE → tst_kconfig_get w n = CRet (cval_char (conf es n))) ∧
  (ID_SIZE ≤ length n → ∃ msg, tst_kconfig_get w n = CBrk TBROK msg).
Proof.
  intros Hskip Hw Hes Hn Hu. unfold tst_kconfig_get, kconfig_skip_check. rewrite Hskip. split; intros Hl.
  - rewrite decide_False by lia.
    destruct (read_config w es [n]) as [l E]; [done|done|apply NoDup_singleton|by apply Forall_singleton|].
    change (new_var <$> [n]) with [TST_KCONFIG_INIT n] in E. rewrite E, cbind_Ret. simpl. f_equal.
    by apply has_choice, (conf_has es n).
  - rewrite decide_True by done. by eexists.
Qed.

Lemma tst_kconfig_get_correct_witness :
  tst_kconfig_get demo_world (str "CONFIG_A") = CRet ("y"%cc) ∧
  ∃ msg, tst_kconfig_get demo_world (replicate 64 ("A"%cc)) = CBrk TBROK msg.
Proof.
  split.
  - destruct (tst_kconfig_get_correct demo_world demo_entries (str "CONFIG_A")) as [H _];
      [reflexivity|exact demo_config|exact demo_ok|by repeat constructor|by repeat constructor|].
    rewrite H; [vm_compute; reflexivity|vm_compute; lia].
  - destruct (tst_kconfig_get_correct demo_world demo_entries (replicate 64 ("A"%cc))) as [_ H];
      [reflexivity|exact demo_config|exact demo_ok|by repeat constructor|by repeat constructor|].
    apply H. vm_compute. lia.
Defined.

(** The first call of [tst_has_slow_kconfig] answers 1 exactly when one
    of the listed debugging options is built in, and every later call gives
    the same answer, whatever the environment has become. *)
Theorem tst_has_slow_kconfig_correct (w : kworld) (es : list centry) :
  config_is w es → file_ok es → Forall (λ n, unblank (conf es n)) (id <$> slow_kconfigs slow_init) →
  let r := c_bool (existsb (λ n, bool_decide (conf es n = KSet (str "y"))) (id <$> slow_kconfigs slow_init)) in
  ∃ st, tst_has_slow_kconfig w slow_init = CRet (r, st) ∧
    ∀ w', tst_has_slow_kconfig w' st = CRet (r, st).
Proof.
  intros [l Hl] Hes Hu. set (names := id <$> slow_kconfigs slow_init).
  destruct (read_config w es names) as [l' E]; [by exists l|done| |by repeat constructor|].
  { apply (bool_decide_eq_true_1 (NoDup names)). by vm_compute. }
  unfold tst_has_slow_kconfig.
  assert (∃ p, fst (kconfig_path w) = Some p) as [p Hp].
  { unfold open_kconfig in Hl. destruct (kconfig_path w) as [[p|] lp]; [by exists p|done]. }
  rewrite Hp. change (slow_kconfig_cached slow_init) with false. cbn beta iota.
  change (slow_kconfigs slow_init) with (new_var <$> names) at 1. rewrite E, cbind_Ret. cbn beta iota.
  assert (existsb (λ v, choice v =? "y"%cc)%Z (resolve es <$> (new_var <$> names)) =
    existsb (λ n, bool_decide (conf es n = KSet (str "y"))) names) as ->; [|by eexists].
  change (id <$> slow_kconfigs slow_init) with names in Hu. clear -Hes Hu.
  induction Hu as [|n names Hn _ IH]; [done|].
  rewrite !fmap_cons. cbn [existsb]. rewrite IH. f_equal.
  rewrite (has_choice _ (conf es n)) by (by apply conf_has).
  destruct (conf es n) as [| |v]; [done..|]. cbn [cval_char].
  rewrite (bool_decide_ext (KSet v = _) (v = str "y")) by (split; congruence).
  by repeat case_decide; case_bool_decide.
Qed.

Lemma tst_has_slow_kconfig_correct_witness :
  ∃ st, tst_has_slow_kconfig demo_world slow_init = CRet (1%Z, st) ∧
    ∀ w', tst_has_slow_kconfig w' st = CRet (1%Z, st).
Proof.
  apply (tst_has_slow_kconfig_correct demo_world demo_entries demo_config demo_ok).
  apply (bool_decide_eq_true_1 (Forall _ _)). vm_compute. reflexivity.
Defined.

(** A value with a blank in it is cut at the blank: CONFIG_NAME is "two words"
    in the file, the variable is left with the first of them, and the
    constraint that asks for the value in the file is not satisfied. *)
Example blank_value_truncated :
  conf demo_entries (str "CONFIG_NAME") = KSet (cDQ :: str "two words" ++ [cDQ]) ∧
  (∃ l, tst_kconfig_read demo_world [TST_KCONFIG_INIT (str "CONFIG_NAME")] =
    CRet ([mk_kvar (str "CONFIG_NAME") 11 "v"%cc (Some (cDQ :: str "two"))], l)) ∧
  ∃ l, tst_kconfig_check demo_world [str "CONFIG_NAME=" ++ cDQ :: str "two words" ++ [cDQ]] = CRet (1%Z, l).
Proof. split_and!; [vm_compute; reflexivity|eexists; vm_compute; reflexivity..]. Qed.

Lemma value_span_end v : Forall (λ c, isspace c = false) v → value_span v = None.
Proof. induction 1 as [|c v Hc _ IH]; simpl; [done|]. by rewrite Hc, IH. Qed.

(** The loop that measures a value stops only at white space, so a line
    that ends with the value, the last line of a file without a newline or a
    line that does not fit the buffer, makes the parser read past the
    terminator of its line buffer. *)
Theorem kconfig_parse_line_overrun (n v : list Z) (vs : list tst_kconfig_var) :
  kname n → Forall (λ c, (0 < c < 256)%Z ∧ isspace c = false) v →
  kconfig_parse_line (n ++ str "=" ++ v) (new_var n :: vs) = None.
Proof.
  intros Hn Hv. destruct (kname_head n Hn) as [n' En]. unfold kconfig_parse_line.
  assert (skip_space (n ++ str "=" ++ v) = n ++ str "=" ++ v) as ->.
  { rewrite En. cbn [app]. by rewrite skip_space_stop. }
  assert ((default 0 (head (n ++ str "=" ++ v)) =? "#"%cc)%Z = false) as -> by (by rewrite En).
  cbn [andb]. rewrite kname_strstr by done. rewrite var_span_app; [|apply Hn|done].
  assert (cstring v) as Hcv by (eapply Forall_impl; [exact Hv|]; by intros c [? _]).
  assert (cstring (n ++ str "=" ++ v)) as Hs.
  { apply Forall_app. split; [by apply kname_cstring|]. by constructor. }
  destruct (match_vars_hit n (str "=" ++ v) (new_var n)) as [T1 T2];
    [by split; [|apply kname_cstring]|by apply kname_cstring|done|done|].
  cbn [match_vars]. rewrite T1, T2. cbn [negb]. rewrite drop_app_length.
  change (skip_space (str "=" ++ v)) with (("="%cc) :: v). cbn [Z.eqb Pos.eqb negb].
  assert (skip_space v = v) as ->.
  { destruct v as [|c v]; [done|]. apply Forall_cons in Hv as [[_ Hc] _]. by apply skip_space_stop. }
  rewrite value_span_end; [done|]. eapply Forall_impl; [exact Hv|]. by intros c [_ ?].
Qed.

Lemma kconfig_parse_line_overrun_witness :
  kconfig_parse_line (str "CONFIG_NR_CPUS=256") [new_var (str "CONFIG_NR_CPUS")] = None.
Proof.
  apply (kconfig_parse_line_overrun (str "CONFIG_NR_CPUS") (str "256") []).
  - apply (bool_decide_eq_true_1 (kname _)). vm_compute. reflexivity.
  - by repeat constructor.
Defined.
