(* ===== verification/Kcmdline.v ===== *)
(** * The kernel command line (tst_kcmdline_parse of lib/tst_kconfig.c)

    One pass over /proc/cmdline with a word buffer of 256 bytes.  Writes
    outside the word buffer or a value and reads past the line are undefined.
    The theorems give the parameters that are found and their values, show
    that a line that ends in white space is always parsed in bounds, and that
    an overlong last word is not. *)

From S2P Require Import Prelude.
Open Scope nat_scope.

Record tst_kcmdline_var := mk_kcv {
  key : list Z;
  value : list Z;
  found : bool;
}.

Definition TST_KCMDLINE_INIT (paraname : list Z) : tst_kcmdline_var := mk_kcv paraname [] false.

Definition BUF_SIZE : nat := 256.
Definition VALUE_SIZE : nat := 256.
Definition CMDLINE_SIZE : nat := 1024.

(** The local variables: [buf[0..b_pos)], [l_pos], [var_id] (None for -1),
    and the parameters. *)
Record kc_state := mk_kc {
  buf : list Z;
  l_pos : nat;
  var_id : option nat;
  params : list tst_kcmdline_var;
  warnings : log;
}.

Definition set_found (p : tst_kcmdline_var) : tst_kcmdline_var := mk_kcv (key p) (value p) true.
Definition set_val (v : list Z) (p : tst_kcmdline_var) : tst_kcmdline_var := mk_kcv (key p) v (found p).

(** [buf[b_pos] = '\0'] *)
Definition terminate (b : list Z) : option (list Z) :=
  if decide (length b < BUF_SIZE) then Some b else None.

(** The loop over the parameters at a '='. *)
Fixpoint match_keys (b : list Z) (i : nat) (ps : list tst_kcmdline_var) (id : option nat)
    : option nat * list tst_kcmdline_var :=
  match ps with
  | [] => (id, [])
  | p :: ps =>
      if (strcmp b (key p) =? 0)%Z then
        let '(id, ps) := match_keys b (S i) ps (Some i) in (id, set_found p :: ps)
      else let '(id, ps) := match_keys b (S i) ps id in (id, p :: ps)
  end.

(** [strcpy(params[var_id].value, buf)] under its guard. *)
Definition store_value (id : option nat) (b : list Z) (ps : list tst_kcmdline_var)
    : option (list tst_kcmdline_var) :=
  match id with
  | Some i =>
      if decide (i < length ps) then
        if decide (length b < VALUE_SIZE) then Some (alter (set_val b) i ps) else None
      else Some ps
  | None => Some ps
  end.

Definition is_end (c : Z) : bool := ((c =? " "%cc) || (c =? 10))%Z.

(** [while (line[l_pos] != '\0' && line[l_pos] != ' ' && line[l_pos] != '\n') l_pos++;] *)
Fixpoint skip_word (fuel : nat) (line : list Z) (l_pos : nat) : option nat :=
  match fuel with
  | O => None
  | S fuel =>
      c ← cget line l_pos;
      if (c =? 0)%Z || is_end c then Some l_pos else skip_word fuel line (S l_pos)
  end.

Definition overflow_msg : Z * list Z := (TINFO, str "WARNING: Buffer overflowed while parsing /proc/cmdline").

(** One round of the loop for the character [c]; the increment of [l_pos] is
    in [kc_loop]. *)
Definition kc_step (line : list Z) (c : Z) (st : kc_state) : option kc_state :=
  if (c =? "="%cc)%Z then
    b ← terminate (buf st);
    let '(id, ps) := match_keys b 0 (params st) (var_id st) in
    Some (mk_kc [] (l_pos st) id ps (warnings st))
  else if is_end c then
    b ← terminate (buf st);
    ps ← store_value (var_id st) b (params st);
    Some (mk_kc [] (l_pos st) None ps (warnings st))
  else if decide (BUF_SIZE ≤ length (buf st) + 1) then
    l ← skip_word (2 + length line) line (l_pos st);
    c ← cget line l;
    Some (mk_kc [] (if (c =? 0)%Z then l else l - 1) None (params st) (warnings st ++ [overflow_msg]))
  else Some (mk_kc (buf st ++ [c]) (l_pos st) (var_id st) (params st) (warnings st)).

Fixpoint kc_loop (fuel : nat) (line : list Z) (st : kc_state) : option kc_state :=
  match fuel with
  | O => None
  | S fuel =>
      c ← cget line (l_pos st);
      if (c =? 0)%Z then Some st else
      st ← kc_step line c st;
      kc_loop fuel line (mk_kc (buf st) (S (l_pos st)) (var_id st) (params st) (warnings st))
  end.

Definition report (p : tst_kcmdline_var) : Z * list Z :=
  if found p then (TINFO, key p ++ str " is found in /proc/cmdline")
  else (TINFO, key p ++ str " is not found in /proc/cmdline").

(** [file] is the content of /proc/cmdline.  Every round moves [l_pos]
    forward, one more round than characters is enough. *)
Definition tst_kcmdline_parse (file : list Z) (ps : list tst_kcmdline_var)
    : cres (list tst_kcmdline_var * log) :=
  match fgets CMDLINE_SIZE file with
  | None => CBrk TBROK (str "Failed to read /proc/cmdline")
  | Some (line, _) =>
      st ← defined (kc_loop (S (length line)) line (mk_kc [] 0 None ps []));
      CRet (params st, warnings st ++ (report <$> params st))
  end.

(** ** Words *)

(** A word of the command line. *)
Inductive cword :=
  | CFlag (w : list Z)
  | CParam (k v : list Z).

Definition cword_text (x : cword) : list Z :=
  match x with CFlag w => w | CParam k v => k ++ "="%cc :: v end.

Definition line_text (ws : list (cword * Z)) : list Z := concat ((λ x, cword_text x.1 ++ [x.2]) <$> ws).

Definition kc_char (c : Z) : Prop := (0 < c < 256)%Z ∧ is_end c = false ∧ c ≠ "="%cc.

Definition piece_ok (w : list Z) : Prop := Forall kc_char w ∧ length w < BUF_SIZE.

Definition cword_ok (x : cword * Z) : Prop :=
  is_end x.2 = true ∧ match x.1 with CFlag w => piece_ok w | CParam k v => piece_ok k ∧ piece_ok v end.

(** What one word does to a parameter. *)
Definition take_word (x : cword) (p : tst_kcmdline_var) : tst_kcmdline_var :=
  match x with
  | CParam k v => if decide (k = key p) then mk_kcv (key p) v true else p
  | CFlag _ => p
  end.

(** The value of the last word that sets the parameter. *)
Definition take_line (ws : list (cword * Z)) (p : tst_kcmdline_var) : tst_kcmdline_var :=
  foldl (λ p x, take_word x.1 p) p ws.

#[export] Instance kc_char_dec c : Decision (kc_char c).
Proof. apply _. Defined.
#[export] Instance piece_ok_dec w : Decision (piece_ok w).
Proof. apply _. Defined.
#[export] Instance cword_ok_dec x : Decision (cword_ok x).
Proof. destruct x as [[]]; apply _. Defined.

Lemma piece_cstring w : Forall kc_char w → cstring w.
Proof. intros H. eapply Forall_impl; [exact H|]. by intros c [? _]. Qed.

Definition keys_ok (ps : list tst_kcmdline_var) : Prop :=
  NoDup (key <$> ps) ∧ Forall cstring (key <$> ps).

Lemma match_keys_none b i ps id :
  cstring b → Forall cstring (key <$> ps) → b ∉ key <$> ps → match_keys b i ps id = (id, ps).
Proof.
  intros Hb. revert i id. induction ps as [|p ps IH]; intros i id Hk Hni; [done|].
  rewrite fmap_cons in Hk, Hni. apply Forall_cons in Hk as [Hp Hk]. apply not_elem_of_cons in Hni as [Hne Hni].
  cbn [match_keys]. destruct (Z.eqb_spec (strcmp b (key p)) 0) as [E|E].
  - by apply strcmp_eq in E.
  - by rewrite IH.
Qed.

Lemma match_keys_one i l p r id :
  Forall cstring (key <$> l ++ p :: r) → NoDup (key <$> l ++ p :: r) →
  match_keys (key p) i (l ++ p :: r) id = (Some (i + length l), l ++ set_found p :: r).
Proof.
  revert i id. induction l as [|q l IH]; intros i id Hk Hnd; cbn [app] in *; rewrite fmap_cons in Hk, Hnd;
    apply Forall_cons in Hk as [Hq Hk]; apply NoDup_cons in Hnd as [Hni Hnd]; cbn [match_keys].
  - assert (strcmp (key p) (key p) = 0%Z) as -> by (by apply strcmp_eq). cbn [Z.eqb].
    rewrite match_keys_none by done. by rewrite Nat.add_0_r.
  - assert (cstring (key p)) as Hp.
    { rewrite fmap_app, fmap_cons in Hk. apply Forall_app in Hk as [_ Hk]. by apply Forall_cons in Hk as [? _]. }
    destruct (Z.eqb_spec (strcmp (key p) (key q)) 0) as [E|E].
    + apply strcmp_eq in E as E'; [|done|done]. exfalso. apply Hni. rewrite <- E', fmap_app, fmap_cons.
      apply elem_of_app. right. by constructor.
    + rewrite IH by done. do 2 f_equal. simpl. lia.
Qed.

Lemma take_word_other k v (ps : list tst_kcmdline_var) : k ∉ key <$> ps → take_word (CParam k v) <$> ps = ps.
Proof.
  intros H. rewrite <- (list_fmap_id ps) at 2. apply list_fmap_ext. intros i p Hp%list_elem_of_lookup_2. simpl.
  rewrite decide_False; [done|]. intros ->. apply H. by apply list_elem_of_fmap_2.
Qed.

(** A key and its value, as the two marks of a word process them. *)
Lemma set_param k v ps :
  keys_ok ps → cstring k → length v < VALUE_SIZE →
  (let '(id, ps') := match_keys k 0 ps None in store_value id v ps') = Some (take_word (CParam k v) <$> ps).
Proof.
  intros [Hnd Hc] Hk Hv. destruct (decide (k ∈ key <$> ps)) as [Hin|Hni].
  - apply list_elem_of_fmap_1 in Hin as (p & -> & Hp). apply list_elem_of_split in Hp as (l & r & ->).
    rewrite match_keys_one by done. cbn [store_value Nat.add].
    rewrite decide_True by (rewrite length_app; simpl; lia). rewrite decide_True by done. f_equal.
    rewrite fmap_app, fmap_cons in Hnd. rewrite fmap_app, fmap_cons. apply NoDup_app in Hnd as (Hl & Hlr & Hr).
    apply NoDup_cons in Hr as [Hr _].
    rewrite !take_word_other; [|done|intros H; apply (Hlr _ H); by constructor].
    simpl. rewrite decide_True by done.
    rewrite <- (Nat.add_0_r (length l)), alter_app_r. done.
  - rewrite match_keys_none by done. simpl store_value. by rewrite take_word_other.
Qed.

Lemma take_word_keys x (ps : list tst_kcmdline_var) : key <$> (take_word x <$> ps) = key <$> ps.
Proof.
  rewrite <- list_fmap_compose. apply list_fmap_ext. intros i p _. destruct x; simpl; [done|]. by case_decide.
Qed.

Section Line.
Context (line : list Z).

#[local] Abbreviation st b l id ps ws := (mk_kc b l id ps ws).

Lemma kc_char_step c b l id ps ws :
  kc_char c → length b + 1 < BUF_SIZE → kc_step line c (st b l id ps ws) = Some (st (b ++ [c]) l id ps ws).
Proof.
  intros (_ & He & Hc) Hb. unfold kc_step. destruct (Z.eqb_spec c "="%cc); [done|].
  rewrite He. cbn [buf]. by rewrite decide_False by lia.
Qed.

(** The characters of a piece go to the buffer. *)
Lemma kc_loop_piece n pre w rest b id ps ws :
  line = pre ++ w ++ rest → Forall kc_char w → length b + length w < BUF_SIZE →
  kc_loop (length w + n) line (st b (length pre) id ps ws) =
  kc_loop n line (st (b ++ w) (length pre + length w) id ps ws).
Proof.
  intros Hl Hw. revert pre b Hl. induction Hw as [|c w Hc _ IH]; intros pre b Hl Hb.
  { by rewrite app_nil_r, Nat.add_0_r. }
  cbn [length Nat.add kc_loop l_pos].
  assert (cget line (length pre) = Some c) as -> by (rewrite Hl; apply cget_app_mid).
  rewrite obind_Some. destruct (Z.eqb_spec c 0) as [->|_]; [destruct Hc; lia|].
  rewrite kc_char_step by (done || simpl in Hb; lia). rewrite obind_Some. cbn [buf l_pos var_id params warnings].
  specialize (IH (pre ++ [c]) (b ++ [c])). rewrite !length_app in IH. cbn [length] in IH, Hb.
  replace (S (length pre)) with (length pre + 1) by lia.
  rewrite IH; [|by rewrite Hl, <- app_assoc|lia].
  rewrite <- app_assoc. f_equal. f_equal. lia.
Qed.

Lemma kc_loop_eq n pre rest b ps ws :
  line = pre ++ "="%cc :: rest → length b < BUF_SIZE →
  kc_loop (S n) line (st b (length pre) None ps ws) =
  let '(id, ps') := match_keys b 0 ps None in kc_loop n line (st [] (S (length pre)) id ps' ws).
Proof.
  intros Hl Hb. cbn [kc_loop l_pos].
  assert (cget line (length pre) = Some ("="%cc)) as -> by (rewrite Hl; apply cget_app_mid).
  rewrite obind_Some. cbn [Z.eqb Pos.eqb]. unfold kc_step. cbn [Z.eqb Pos.eqb buf var_id params].
  unfold terminate. rewrite decide_True by done. rewrite obind_Some.
  by destruct (match_keys b 0 ps None).
Qed.

Lemma kc_loop_end n pre e rest b id ps ws ps' :
  line = pre ++ e :: rest → is_end e = true → length b < BUF_SIZE → store_value id b ps = Some ps' →
  kc_loop (S n) line (st b (length pre) id ps ws) = kc_loop n line (st [] (S (length pre)) None ps' ws).
Proof.
  intros Hl He Hb Hs. cbn [kc_loop l_pos].
  assert (cget line (length pre) = Some e) as -> by (rewrite Hl; apply cget_app_mid).
  rewrite obind_Some. destruct (Z.eqb_spec e 0) as [->|_]; [done|].
  unfold kc_step. destruct (Z.eqb_spec e "="%cc) as [->|_]; [done|]. rewrite He. cbn [buf var_id params].
  unfold terminate. rewrite decide_True by done. rewrite obind_Some, Hs, obind_Some. done.
Qed.

Lemma kc_loop_word n pre x rest ps ws :
  line = pre ++ (cword_text x.1 ++ [x.2]) ++ rest → cword_ok x → keys_ok ps →
  kc_loop (length (cword_text x.1) + 1 + n) line (st [] (length pre) None ps ws) =
  kc_loop n line (st [] (length pre + (length (cword_text x.1) + 1)) None (take_word x.1 <$> ps) ws).
Proof.
  destruct x as [[w|k v] e]; cbn [fst snd cword_text]; intros Hl [He Hx] Hps.
  - destruct Hx as [Hw Hlen]. rewrite <- Nat.add_assoc.
    rewrite (kc_loop_piece _ pre w ([e] ++ rest)) by (rewrite ?Hl, <- ?app_assoc; done).
    replace (length pre + length w) with (length (pre ++ w)) by (by rewrite length_app).
    rewrite (kc_loop_end _ _ e rest _ _ _ _ ps) by (rewrite ?Hl, <- ?app_assoc; done).
    f_equal. f_equal; [rewrite length_app; lia|]. symmetry. apply list_fmap_id.
  - destruct Hx as [[Hk Hkl] [Hv Hvl]]. rewrite length_app. cbn [length].
    replace (length k + S (length v) + 1 + n) with (length k + S (length v + S n)) by lia.
    rewrite (kc_loop_piece _ pre k (("="%cc :: v) ++ [e] ++ rest)) by (rewrite ?Hl, <- ?app_assoc; done).
    replace (length pre + length k) with (length (pre ++ k)) by (by rewrite length_app).
    rewrite (kc_loop_eq _ _ (v ++ [e] ++ rest)) by (rewrite ?Hl, <- ?app_assoc; done).
    pose proof (set_param k v ps Hps (piece_cstring k Hk) Hvl) as Hset. cbn [app].
    destruct (match_keys k 0 ps None) as [id ps'].
    replace (S (length (pre ++ k))) with (length (pre ++ k ++ ["="%cc])) by (rewrite !length_app; simpl; lia).
    rewrite (kc_loop_piece _ _ v ([e] ++ rest)); [|by rewrite Hl, <- !app_assoc|done|done].
    rewrite <- length_app.
    rewrite (kc_loop_end _ _ e rest _ _ _ _ (take_word (CParam k v) <$> ps)); [|by rewrite Hl, <- !app_assoc|done..].
    f_equal. f_equal. rewrite !length_app. simpl. lia.
Qed.

Lemma kc_loop_words ws pre ps wn :
  line = pre ++ line_text ws → Forall cword_ok ws → keys_ok ps →
  kc_loop (S (length (line_text ws))) line (st [] (length pre) None ps wn) =
  Some (st [] (length line) None (take_line ws <$> ps) wn).
Proof.
  intros Hl Hws. revert pre ps Hl. induction Hws as [|x ws Hx _ IH]; intros pre ps Hl Hps.
  - cbn [line_text concat fmap list_fmap] in Hl. rewrite app_nil_r in Hl. subst pre.
    cbn [line_text concat fmap list_fmap length kc_loop l_pos]. rewrite cget_end, obind_Some.
    cbn [Z.eqb]. unfold take_line. simpl. by rewrite list_fmap_id.
  - change (line_text (x :: ws)) with ((cword_text x.1 ++ [x.2]) ++ line_text ws) in *.
    rewrite !length_app. cbn [length].
    replace (S (length (cword_text x.1) + 1 + length (line_text ws)))
      with (length (cword_text x.1) + 1 + S (length (line_text ws))) by lia.
    rewrite (kc_loop_word _ pre x (line_text ws)) by done.
    replace (length pre + (length (cword_text x.1) + 1)) with (length (pre ++ cword_text x.1 ++ [x.2]))
      by (rewrite !length_app; done).
    rewrite IH.
    + unfold take_line. cbn [foldl]. by rewrite <- list_fmap_compose.
    + by rewrite Hl, <- !app_assoc.
    + unfold keys_ok. by rewrite take_word_keys.
Qed.
End Line.

(** ** Any line *)

(** The position the overflow branch skips to. *)
Lemma skip_word_spec fuel line l :
  l ≤ length line → length line < fuel + l →
  ∃ l', skip_word fuel line l = Some l' ∧ l ≤ l' ≤ length line ∧
    (l' < length line → ∃ c, line !! l' = Some c ∧ ((c =? 0)%Z || is_end c = true)) ∧
    (∀ i c, l ≤ i < l' → line !! i = Some c → is_end c = false).
Proof.
  revert l. induction fuel as [|fuel IH]; intros l Hl Hf; [lia|]. cbn [skip_word].
  destruct (cget_total line l Hl) as [c Hc]. rewrite Hc, obind_Some.
  destruct ((c =? 0)%Z || is_end c) eqn:E.
  - exists l. split_and!; [done|lia|lia| |intros; lia]. intros Hlt. exists c. rewrite <- cget_lt by done. by split.
  - assert (l < length line) as Hlt.
    { destruct (decide (l = length line)) as [->|]; [|lia]. rewrite cget_end in Hc. by injection Hc as <-. }
    destruct (IH (S l)) as (l' & -> & Hr & Hend & Hbetw); [lia|lia|]. exists l'. split_and!; [done|lia|lia|done|].
    intros i c' Hi Hc'. destruct (decide (i = l)) as [->|]; [|by apply (Hbetw i); [lia|]].
    rewrite cget_lt in Hc by done. rewrite Hc in Hc'. injection Hc' as <-. by apply orb_false_iff in E as [_ ?].
Qed.

(** The invariant of the loop: the word fits its buffer and the values fit
    theirs. *)
Definition kc_inv (ks : list (list Z)) (st : kc_state) : Prop :=
  length (buf st) < BUF_SIZE ∧ key <$> params st = ks ∧ Forall (λ p, length (value p) < VALUE_SIZE) (params st).

Lemma match_keys_inv b i ps id id' ps' :
  match_keys b i ps id = (id', ps') →
  key <$> ps' = key <$> ps ∧ value <$> ps' = value <$> ps.
Proof.
  revert i id ps'. induction ps as [|p ps IH]; intros i id ps'; cbn [match_keys]; [by intros [= <- <-]|].
  destruct (strcmp b (key p) =? 0)%Z.
  - destruct (match_keys b (S i) ps (Some i)) as [id1 ps1] eqn:E. intros [= <- <-].
    apply IH in E as [E1 E2]. rewrite !fmap_cons, E1, E2. done.
  - destruct (match_keys b (S i) ps id) as [id1 ps1] eqn:E. intros [= <- <-].
    apply IH in E as [E1 E2]. rewrite !fmap_cons, E1, E2. done.
Qed.

Lemma store_value_inv id b ps :
  length b < VALUE_SIZE → Forall (λ p, length (value p) < VALUE_SIZE) ps →
  ∃ ps', store_value id b ps = Some ps' ∧ key <$> ps' = key <$> ps ∧ Forall (λ p, length (value p) < VALUE_SIZE) ps'.
Proof.
  intros Hb Hps. destruct id as [i|]; [|by eauto]. cbn [store_value].
  case_decide; [|by eauto]. rewrite decide_True by done. eexists. split_and!; [done| |].
  - apply list_eq. intros j. rewrite !list_lookup_fmap, list_lookup_alter. case_decide; [subst|done].
    by destruct (ps !! _).
  - apply Forall_alter; [done|]. by intros p _ _.
Qed.

(** A round keeps the invariant and does not move past the next position. *)
Lemma kc_step_inv line ks st c :
  cstring line → is_end (default 0%Z (last line)) = true →
  kc_inv ks st → line !! l_pos st = Some c →
  ∃ st', kc_step line c st = Some st' ∧ kc_inv ks st' ∧ l_pos st ≤ l_pos st' < length line.
Proof.
  intros Hs Hlast (Hb & Hk & Hv) Hc. pose proof (lookup_lt_Some _ _ _ Hc) as Hlt. unfold kc_step.
  unfold terminate. rewrite (decide_True (P:=length (buf st) < BUF_SIZE)) by done. rewrite !obind_Some.
  destruct (c =? "="%cc)%Z eqn:Eeq.
  { destruct (match_keys (buf st) 0 (params st) (var_id st)) as [id ps] eqn:E.
    apply match_keys_inv in E as [E1 E2]. eexists. split_and!; [done| |done|done].
    split_and!; cbn [buf params]; [unfold BUF_SIZE; simpl; lia|congruence|].
    apply (Forall_fmap value (λ v, length v < VALUE_SIZE)). rewrite E2. by apply Forall_fmap. }
  destruct (is_end c) eqn:Eend.
  { destruct (store_value_inv (var_id st) (buf st) (params st)) as (ps & -> & E1 & E2); [done|done|].
    rewrite obind_Some. eexists. split_and!; [done| |done|done].
    split_and!; cbn [buf params]; [unfold BUF_SIZE; simpl; lia|congruence|done]. }
  case_decide as Hov.
  - destruct (skip_word_spec (2 + length line) line (l_pos st)) as (l & -> & Hr & Hend & Hbetw); [lia|lia|].
    rewrite obind_Some.
    assert (l < length line) as Hl.
    { destruct (decide (l = length line)) as [->|]; [exfalso|lia].
      rewrite last_lookup in Hlast. destruct (lookup_lt_is_Some_2 line (pred (length line))) as [x Hx]; [lia|].
      rewrite Hx in Hlast. cbn [default] in Hlast. change (is_end x = true) in Hlast.
      rewrite (Hbetw (pred (length line)) x) in Hlast; [done|lia|done]. }
    destruct (Hend Hl) as (x & Hx & Hxe). rewrite cget_lt, Hx, obind_Some by done.
    pose proof (Forall_lookup_1 _ _ _ _ Hs Hx) as Hx0. simpl in Hx0.
    destruct (Z.eqb_spec x 0) as [->|_]; [lia|]. cbn [orb] in Hxe.
    assert (l ≠ l_pos st) by (intros ->; congruence).
    eexists. split_and!; [done| |cbn [l_pos]; lia..].
    split_and!; cbn [buf params]; [unfold BUF_SIZE; simpl; lia|done..].
  - eexists. split_and!; [done| |cbn [l_pos]; lia..]. split_and!; cbn [buf params]; [|done..].
    rewrite length_app. simpl. lia.
Qed.

Lemma kc_loop_inv fuel line ks st :
  cstring line → is_end (default 0%Z (last line)) = true →
  kc_inv ks st → l_pos st ≤ length line → length line < fuel + l_pos st →
  ∃ st', kc_loop fuel line st = Some st' ∧ kc_inv ks st'.
Proof.
  intros Hs Hlast. revert st. induction fuel as [|fuel IH]; intros st Hinv Hl Hf; [lia|]. cbn [kc_loop].
  destruct (cget_total line (l_pos st) Hl) as [c Hc]. rewrite Hc, obind_Some.
  destruct (decide (l_pos st = length line)) as [E|E].
  { rewrite E, cget_end in Hc. injection Hc as <-. eauto. }
  rewrite cget_lt in Hc by lia. pose proof (Forall_lookup_1 _ _ _ _ Hs Hc) as Hc0. simpl in Hc0.
  destruct (Z.eqb_spec c 0) as [->|_]; [lia|].
  destruct (kc_step_inv line ks st c Hs Hlast Hinv Hc) as (st' & -> & Hinv' & Hl'). rewrite obind_Some.
  apply IH; [exact Hinv'|cbn [l_pos]; lia..].
Qed.

(** ** Properties *)

(** On a line of flags and key=value words (no further '=' and no piece
    of 256 characters or more) [tst_kcmdline_parse] marks as found exactly
    the parameters whose key occurs, and gives them the value of the last
    word with that key; the others are left alone. *)
Theorem tst_kcmdline_parse_correct (file rest : list Z) (ws : list (cword * Z)) (ps : list tst_kcmdline_var) :
  fgets CMDLINE_SIZE file = Some (line_text ws, rest) → Forall cword_ok ws → keys_ok ps →
  tst_kcmdline_parse file ps = CRet (take_line ws <$> ps, report <$> (take_line ws <$> ps)).
Proof.
  intros Hf Hws Hps. unfold tst_kcmdline_parse. rewrite Hf.
  rewrite (kc_loop_words _ ws [] ps []) by done. done.
Qed.

Lemma tst_kcmdline_parse_correct_witness :
  tst_kcmdline_parse (str "ro mem=1G console=ttyS0 mem=2G" ++ [10%Z]) (TST_KCMDLINE_INIT <$> [str "mem"; str "ro"])
  = CRet ([mk_kcv (str "mem") (str "2G") true; mk_kcv (str "ro") [] false],
      [(TINFO, str "mem is found in /proc/cmdline"); (TINFO, str "ro is not found in /proc/cmdline")]).
Proof.
  etransitivity.
  apply (tst_kcmdline_parse_correct (str "ro mem=1G console=ttyS0 mem=2G" ++ [10%Z]) []
    [(CFlag (str "ro"), " "%cc); (CParam (str "mem") (str "1G"), " "%cc);
     (CParam (str "console") (str "ttyS0"), " "%cc); (CParam (str "mem") (str "2G"), 10%Z)]
    (TST_KCMDLINE_INIT <$> [str "mem"; str "ro"])).
  - vm_compute. reflexivity.
  - apply (bool_decide_eq_true_1 (Forall cword_ok _)). vm_compute. reflexivity.
  - split; [|by repeat constructor]. apply (bool_decide_eq_true_1 (NoDup _)). vm_compute. reflexivity.
  - vm_compute. reflexivity.
Defined.

(** Whatever the words are, a line that ends in white space is parsed
    without a write outside the word buffer or a value and without a read
    past the line, the loop ends, the keys are kept and every value stays
    shorter than its array. *)
Theorem tst_kcmdline_parse_safe (file line rest : list Z) (ps : list tst_kcmdline_var) :
  fgets CMDLINE_SIZE file = Some (line, rest) → cstring line → is_end (default 0%Z (last line)) = true →
  Forall (λ p, length (value p) < VALUE_SIZE) ps →
  ∃ ps' l, tst_kcmdline_parse file ps = CRet (ps', l) ∧ key <$> ps' = key <$> ps ∧
    Forall (λ p, length (value p) < VALUE_SIZE) ps'.
Proof.
  intros Hf Hs Hlast Hv. unfold tst_kcmdline_parse. rewrite Hf.
  destruct (kc_loop_inv (S (length line)) line (key <$> ps) (mk_kc [] 0 None ps [])) as (st & -> & _ & Hk & Hv').
  - done.
  - done.
  - split_and!; [unfold BUF_SIZE; simpl; lia|done|done].
  - simpl. lia.
  - simpl. lia.
  - eexists _, _. split_and!; [reflexivity|exact Hk|exact Hv'].
Qed.

Lemma tst_kcmdline_parse_safe_witness :
  ∃ ps' l, tst_kcmdline_parse (str "root=UUID=7 a==b " ++ replicate 300 ("x"%cc) ++ str " mem=1G" ++ [10%Z])
      [TST_KCMDLINE_INIT (str "root"); TST_KCMDLINE_INIT (str "mem")] = CRet (ps', l) ∧
    key <$> ps' = [str "root"; str "mem"] ∧ Forall (λ p, length (value p) < VALUE_SIZE) ps'.
Proof.
  apply (tst_kcmdline_parse_safe _
    (str "root=UUID=7 a==b " ++ replicate 300 ("x"%cc) ++ str " mem=1G" ++ [10%Z]) []
    [TST_KCMDLINE_INIT (str "root"); TST_KCMDLINE_INIT (str "mem")]).
  - vm_compute. reflexivity.
  - apply (bool_decide_eq_true_1 (cstring _)). vm_compute. reflexivity.
  - vm_compute. reflexivity.
  - repeat constructor; vm_compute; lia.
Defined.

(** After an overlong word that ends with the string, the increment of
    the loop steps over the terminator and the next test reads past it. *)
Theorem tst_kcmdline_parse_overrun (w : list Z) (ps : list tst_kcmdline_var) :
  Forall kc_char w → BUF_SIZE ≤ length w < CMDLINE_SIZE → tst_kcmdline_parse w ps = CUB.
Proof.
  intros Hw Hl. unfold tst_kcmdline_parse, BUF_SIZE in *.
  assert (fgets CMDLINE_SIZE w = Some (w, [])) as ->.
  { unfold fgets. destruct w as [|c w]; [simpl in Hl; lia|].
    assert (∀ n u, Forall kc_char u → length u ≤ n → fgets_go n u = (u, [])) as Hgo.
    { induction n as [|n IH]; intros [|x u] Hu Hn; try done; [simpl in Hn; lia|].
      apply Forall_cons in Hu as [Hx Hu]. cbn [fgets_go]. destruct (Z.eqb_spec x 10) as [->|_]; [by destruct Hx as (_ & ? & _)|].
      rewrite IH; [done|done|simpl in Hn; lia]. }
    rewrite Hgo; [done|done|]. unfold CMDLINE_SIZE in *. simpl in *. lia. }
  rewrite <- (take_drop 255 w) in Hw. apply Forall_app in Hw as [H1 H2].
  assert (length (take 255 w) = 255) as E1 by (rewrite length_take; lia).
  replace (S (length w)) with (length (take 255 w) + S (S (length w) - 256)) by lia.
  rewrite (kc_loop_piece w _ [] (take 255 w) (drop 255 w)); [|by rewrite take_drop|done|unfold BUF_SIZE; simpl; lia].
  destruct (lookup_lt_is_Some_2 w 255) as [c Hc]; [lia|].
  pose proof (drop_S _ _ _ Hc) as Hd. rewrite Hd in H2. apply Forall_cons in H2 as [(Hc0 & Hce & Hceq) H2].
  cbn [app length Nat.add]. rewrite E1. cbn [kc_loop l_pos]. rewrite cget_lt, Hc, obind_Some by lia.
  destruct (Z.eqb_spec c 0) as [->|_]; [lia|].
  unfold kc_step. destruct (Z.eqb_spec c "="%cc) as [->|_]; [done|]. rewrite Hce. cbn [buf l_pos].
  rewrite decide_True by (rewrite E1; done).
  destruct (skip_word_spec (2 + length w) w 255) as (l & -> & Hr & Hend & _); [lia|lia|]. rewrite obind_Some.
  assert (l = length w) as ->.
  { destruct (decide (l = length w)) as [|Hne]; [done|]. exfalso.
    destruct Hend as (x & Hx & Hxe); [lia|]. destruct (decide (l = 255)) as [->|].
    - rewrite Hc in Hx. injection Hx as <-. rewrite Hce in Hxe. destruct (Z.eqb_spec c 0); [lia|done].
    - assert (drop 256 w !! (l - 256) = Some x) as Hx' by (rewrite lookup_drop; by replace (256 + (l - 256)) with l by lia).
      destruct (Forall_lookup_1 _ _ _ _ H2 Hx') as (Hx0 & Hxe' & _).
      rewrite Hxe' in Hxe. destruct (Z.eqb_spec x 0); [lia|done]. }
  rewrite cget_end, !obind_Some. cbn [Z.eqb]. cbn [params warnings var_id buf l_pos].
  assert (kc_loop (S (length w) - 256) w (mk_kc [] (S (length w)) None ps [overflow_msg]) = None) as Hn.
  { destruct (S (length w) - 256); [done|]. cbn [kc_loop l_pos]. unfold cget. rewrite decide_False by lia.
    by rewrite lookup_ge_None_2 by lia. }
  cbn [app]. rewrite Hn. done.
Qed.

Lemma tst_kcmdline_parse_overrun_witness :
  tst_kcmdline_parse (replicate 300 ("x"%cc)) [TST_KCMDLINE_INIT (str "mem")] = CUB.
Proof.
  apply (tst_kcmdline_parse_overrun (replicate 300 ("x"%cc))).
  - apply (bool_decide_eq_true_1 (Forall kc_char _)). vm_compute. reflexivity.
  - vm_compute. lia.
Defined.
