(* ===== verification/UjsonUtf.v ===== *)
(** * UTF-8 helpers (libs/ujson/ujson_utf.c, include/ujson_utf.h)

    Encoding and decoding of one character, the sizes of the next and the
    previous character of a string and the number of characters.  The
    theorems show the round trip for the characters of up to three bytes, the
    sizes for all encoded characters, and that a four-byte character is
    always decoded to 0. *)

From S2P Require Import Prelude.
Open Scope Z_scope.

Definition UJSON_UTF8_IS_ASCII (ch : Z) : bool := Z.land ch 128 =? 0.
Definition UJSON_UTF8_IS_NBYTE (ch : Z) : bool := Z.land ch 192 =? 128.
Definition UJSON_UTF8_IS_2BYTE (ch : Z) : bool := Z.land ch 224 =? 192.
Definition UJSON_UTF8_IS_3BYTE (ch : Z) : bool := Z.land ch 240 =? 224.
Definition UJSON_UTF8_IS_4BYTE (ch : Z) : bool := Z.land ch 248 =? 240.
Definition UJSON_UTF8_NBYTE_MASK : Z := 63.

(** The character and the position after it; [None] is a read past the
    terminator. *)
Definition ujson_utf8_next (str : list Z) (p : nat) : option (Z * nat) :=
  s0 ← cget str p;
  let p := S p in
  if UJSON_UTF8_IS_ASCII s0 then Some (s0, p) else
  s1 ← cget str p;
  if negb (UJSON_UTF8_IS_NBYTE s1) then Some (0, p) else
  let s1 := Z.land s1 UJSON_UTF8_NBYTE_MASK in
  let p := S p in
  if UJSON_UTF8_IS_2BYTE s0 then Some (Z.lor (Z.shiftl (Z.land s0 31) 6) s1, p) else
  s2 ← cget str p;
  if negb (UJSON_UTF8_IS_NBYTE s2) then Some (0, p) else
  let s2 := Z.land s2 UJSON_UTF8_NBYTE_MASK in
  let p := S p in
  if UJSON_UTF8_IS_3BYTE s0 then
    Some (Z.lor (Z.lor (Z.shiftl (Z.land s0 15) 12) (Z.shiftl s1 6)) s2, p) else
  let p := S p in
  s3 ← cget str p;
  if negb (UJSON_UTF8_IS_NBYTE s2) then Some (0, p) else
  let s3 := Z.land s3 UJSON_UTF8_NBYTE_MASK in
  if UJSON_UTF8_IS_4BYTE s0 then
    Some (Z.lor (Z.lor (Z.lor (Z.shiftl (Z.land s0 7) 18) (Z.shiftl s1 12)) (Z.shiftl s2 6)) s3, p)
  else Some (0, p).

Definition ujson_utf8_next_chsz (str : list Z) (off : nat) : option Z :=
  ch ← cget str off;
  if ch =? 0 then Some 0 else
  if UJSON_UTF8_IS_ASCII ch then Some 1 else
  let len := if UJSON_UTF8_IS_2BYTE ch then 2 else if UJSON_UTF8_IS_3BYTE ch then 3
             else if UJSON_UTF8_IS_4BYTE ch then 4 else 0 in
  if len =? 0 then Some (-1) else
  c1 ← cget str (off + 1);
  if negb (UJSON_UTF8_IS_NBYTE c1) then Some (-1) else
  r2 ← (if 2 <? len then c2 ← cget str (off + 2); Some (UJSON_UTF8_IS_NBYTE c2) else Some true);
  if negb r2 then Some (-1) else
  r3 ← (if 3 <? len then c3 ← cget str (off + 3); Some (UJSON_UTF8_IS_NBYTE c3) else Some true);
  if negb r3 then Some (-1) else Some len.

Definition ujson_utf8_prev_chsz (str : list Z) (off : nat) : option Z :=
  match off with
  | O => Some 0
  | S off =>
      ch ← cget str off;
      if UJSON_UTF8_IS_ASCII ch then Some 1 else
      if negb (UJSON_UTF8_IS_NBYTE ch) then Some (-1) else
      match off with
      | O => Some (-1)
      | S off =>
          ch ← cget str off;
          if UJSON_UTF8_IS_2BYTE ch then Some 2 else
          if negb (UJSON_UTF8_IS_NBYTE ch) then Some (-1) else
          match off with
          | O => Some (-1)
          | S off =>
              ch ← cget str off;
              if UJSON_UTF8_IS_3BYTE ch then Some 3 else
              if negb (UJSON_UTF8_IS_NBYTE ch) then Some (-1) else
              match off with
              | O => Some (-1)
              | S off => ch ← cget str off; if UJSON_UTF8_IS_4BYTE ch then Some 4 else Some (-1)
              end
          end
      end
  end.

(** [while (ujson_utf8_next(&str)) cnt++;] *)
Fixpoint utf8_strlen_loop (fuel : nat) (str : list Z) (p cnt : nat) : option nat :=
  match fuel with
  | O => None
  | S fuel =>
      '(u, p) ← ujson_utf8_next str p;
      if u =? 0 then Some cnt else utf8_strlen_loop fuel str p (S cnt)
  end.

Definition ujson_utf8_strlen (str : list Z) : option nat := utf8_strlen_loop (S (length str)) str 0 0.

Definition ujson_utf8_bytes (unicode : Z) : nat :=
  if unicode <? 128 then 1 else if unicode <? 2048 then 2 else if unicode <? 65536 then 3 else 4.

(** The bytes that are written to the buffer. *)
Definition ujson_to_utf8 (unicode : Z) : list Z :=
  if unicode <? 128 then [Z.land unicode 127]
  else if unicode <? 2048 then
    [Z.lor 192 (Z.land 31 (Z.shiftr unicode 6)); Z.lor 128 (Z.land 63 unicode)]
  else if unicode <? 65536 then
    [Z.lor 224 (Z.land 15 (Z.shiftr unicode 12)); Z.lor 128 (Z.land 63 (Z.shiftr unicode 6));
     Z.lor 128 (Z.land 63 unicode)]
  else
    [Z.lor 240 (Z.land 7 (Z.shiftr unicode 18)); Z.lor 128 (Z.land 63 (Z.shiftr unicode 12));
     Z.lor 128 (Z.land 63 (Z.shiftr unicode 6)); Z.lor 128 (Z.land 63 unicode)].

(** ** The bytes of an encoded character *)

(** A character that has an encoding. *)
Definition ucode (u : Z) : Prop := 0 < u < 2 ^ 21.

Ltac split_bits H := repeat (apply andb_true_iff in H as [H ?]); rewrite ?negb_true_iff in *; done.

Lemma cont_bits x : 0 ≤ x < 64 →
  UJSON_UTF8_IS_NBYTE (128 + x) = true ∧ UJSON_UTF8_IS_ASCII (128 + x) = false ∧
  UJSON_UTF8_IS_2BYTE (128 + x) = false ∧ UJSON_UTF8_IS_3BYTE (128 + x) = false.
Proof.
  intros Hx. pose proof (range_forall (λ x, UJSON_UTF8_IS_NBYTE (128 + x) && negb (UJSON_UTF8_IS_ASCII (128 + x)) &&
    negb (UJSON_UTF8_IS_2BYTE (128 + x)) && negb (UJSON_UTF8_IS_3BYTE (128 + x))) 64 x eq_refl Hx) as H.
  split_bits H.
Qed.

Lemma lead2_bits x : 0 ≤ x < 32 →
  UJSON_UTF8_IS_2BYTE (192 + x) = true ∧ UJSON_UTF8_IS_ASCII (192 + x) = false ∧
  UJSON_UTF8_IS_NBYTE (192 + x) = false.
Proof.
  intros Hx. pose proof (range_forall (λ x, UJSON_UTF8_IS_2BYTE (192 + x) && negb (UJSON_UTF8_IS_ASCII (192 + x)) &&
    negb (UJSON_UTF8_IS_NBYTE (192 + x))) 32 x eq_refl Hx) as H.
  split_bits H.
Qed.

Lemma lead3_bits x : 0 ≤ x < 16 →
  UJSON_UTF8_IS_3BYTE (224 + x) = true ∧ UJSON_UTF8_IS_ASCII (224 + x) = false ∧
  UJSON_UTF8_IS_2BYTE (224 + x) = false ∧ UJSON_UTF8_IS_NBYTE (224 + x) = false.
Proof.
  intros Hx. pose proof (range_forall (λ x, UJSON_UTF8_IS_3BYTE (224 + x) && negb (UJSON_UTF8_IS_ASCII (224 + x)) &&
    negb (UJSON_UTF8_IS_2BYTE (224 + x)) && negb (UJSON_UTF8_IS_NBYTE (224 + x))) 16 x eq_refl Hx) as H.
  split_bits H.
Qed.

Lemma lead4_bits x : 0 ≤ x < 8 →
  UJSON_UTF8_IS_4BYTE (240 + x) = true ∧ UJSON_UTF8_IS_ASCII (240 + x) = false ∧
  UJSON_UTF8_IS_2BYTE (240 + x) = false ∧ UJSON_UTF8_IS_3BYTE (240 + x) = false ∧
  UJSON_UTF8_IS_NBYTE (240 + x) = false.
Proof.
  intros Hx. pose proof (range_forall (λ x, UJSON_UTF8_IS_4BYTE (240 + x) && negb (UJSON_UTF8_IS_ASCII (240 + x)) &&
    negb (UJSON_UTF8_IS_2BYTE (240 + x)) && negb (UJSON_UTF8_IS_3BYTE (240 + x)) &&
    negb (UJSON_UTF8_IS_NBYTE (240 + x))) 8 x eq_refl Hx) as H.
  split_bits H.
Qed.

Lemma ascii_bits x : 0 ≤ x < 128 → UJSON_UTF8_IS_ASCII x = true.
Proof. by apply (range_forall UJSON_UTF8_IS_ASCII 128 x). Qed.

Lemma mask_low k m x : 0 ≤ k → m = 2 ^ k - 1 → Z.land m x = x mod 2 ^ k.
Proof. intros Hk ->. rewrite Z.land_comm. by apply land_low. Qed.

Lemma lor_head h k m x : 0 ≤ k → m = 2 ^ k - 1 → Z.lor (h * 2 ^ k) (Z.land m x) = h * 2 ^ k + x mod 2 ^ k.
Proof.
  intros Hk Hm. rewrite (mask_low k) by done. apply lor_add; [done|].
  apply Z.mod_pos_bound. by apply Z.pow_pos_nonneg.
Qed.

(** The encoding in terms of quotients and remainders. *)
Lemma to_utf8_eq u :
  ucode u →
  ujson_to_utf8 u =
  if u <? 128 then [u]
  else if u <? 2048 then [192 + u / 64; 128 + u mod 64]
  else if u <? 65536 then [224 + u / 4096; 128 + (u / 64) mod 64; 128 + u mod 64]
  else [240 + u / 262144; 128 + (u / 4096) mod 64; 128 + (u / 64) mod 64; 128 + u mod 64].
Proof.
  intros Hu. unfold ucode in Hu. unfold ujson_to_utf8.
  assert (∀ x, Z.lor 128 (Z.land 63 x) = 128 + x mod 64) as E6 by (intros x; by apply (lor_head 2 6)).
  assert (∀ x, Z.lor 192 (Z.land 31 x) = 192 + x mod 32) as E5 by (intros x; by apply (lor_head 6 5)).
  assert (∀ x, Z.lor 224 (Z.land 15 x) = 224 + x mod 16) as E4 by (intros x; by apply (lor_head 14 4)).
  assert (∀ x, Z.lor 240 (Z.land 7 x) = 240 + x mod 8) as E3 by (intros x; by apply (lor_head 30 3)).
  rewrite !E6, E5, E4, E3, !Z.shiftr_div_pow2 by lia.
  repeat case_match; repeat f_equal; try done.
  - rewrite Z.land_comm, (mask_low 7) by done. apply Z.mod_small. lia.
  - apply Z.mod_small. split; [apply Z.div_pos; lia|apply Z.div_lt_upper_bound; lia].
  - apply Z.mod_small. split; [apply Z.div_pos; lia|apply Z.div_lt_upper_bound; lia].
  - apply Z.mod_small. split; [apply Z.div_pos; lia|apply Z.div_lt_upper_bound; lia].
Qed.

Lemma length_to_utf8 u : length (ujson_to_utf8 u) = ujson_utf8_bytes u.
Proof. unfold ujson_to_utf8, ujson_utf8_bytes. by repeat case_match. Qed.

Lemma land_mask63 x : 0 ≤ x < 64 → Z.land (128 + x) UJSON_UTF8_NBYTE_MASK = x.
Proof.
  intros Hx. unfold UJSON_UTF8_NBYTE_MASK. rewrite Z.land_comm, (mask_low 6) by done.
  replace (128 + x) with (x + 2 * 2 ^ 6) by lia. rewrite Z.mod_add by done. by apply Z.mod_small.
Qed.

Lemma land_lead k h m x : 0 ≤ k → m = 2 ^ k - 1 → 0 ≤ x < 2 ^ k → Z.land (h * 2 ^ k + x) m = x.
Proof.
  intros Hk Hm Hx. rewrite Z.land_comm, (mask_low k) by done.
  rewrite Z.add_comm, Z.mod_add by lia. by apply Z.mod_small.
Qed.

Lemma join2 a b : 0 ≤ b < 64 → Z.lor (Z.shiftl a 6) b = a * 64 + b.
Proof. intros Hb. rewrite Z.shiftl_mul_pow2 by lia. by rewrite lor_add. Qed.

Lemma join3 a b c : 0 ≤ b < 64 → 0 ≤ c < 64 →
  Z.lor (Z.lor (Z.shiftl a 12) (Z.shiftl b 6)) c = (a * 64 + b) * 64 + c.
Proof.
  intros Hb Hc. change 12 with (6 + 6). rewrite <- Z.shiftl_shiftl, <- Z.shiftl_lor by lia.
  by rewrite join2, join2.
Qed.

Section Encoded.
Context (pre rest : list Z) (u : Z).
Context (Hu : ucode u).

#[local] Abbreviation s := (pre ++ ujson_to_utf8 u ++ rest).
#[local] Abbreviation p := (length pre).

Lemma enc_get k c : ujson_to_utf8 u !! k = Some c → cget s (p + k) = Some c.
Proof. apply cget_app_at. Qed.

Lemma rem64 x : 0 ≤ x mod 64 < 64.
Proof. by apply Z.mod_pos_bound. Qed.

Lemma next_bmp : u < 65536 → ujson_utf8_next s p = Some (u, (p + ujson_utf8_bytes u)%nat).
Proof.
  intros Hlt. pose proof enc_get as G. rewrite to_utf8_eq in G |- * by done. unfold ujson_utf8_next, ujson_utf8_bytes.
  pose proof (G 0%nat) as G0. pose proof (G 1%nat) as G1. pose proof (G 2%nat) as G2. clear G.
  replace (p + 0)%nat with p in G0 by lia. replace (p + 1)%nat with (S p) in G1 by lia.
  replace (p + 2)%nat with (S (S p)) in G2 by lia.
  unfold ucode in Hu. destruct (Z.ltb_spec u 128) as [L1|L1].
  { rewrite (G0 u), obind_Some, ascii_bits by (done || lia). f_equal. f_equal. lia. }
  pose proof (land_mask63 _ (rem64 u)) as M0. pose proof (land_mask63 _ (rem64 (u / 64))) as M1.
  destruct (cont_bits _ (rem64 u)) as [C0 _]. destruct (cont_bits _ (rem64 (u / 64))) as [C1 _].
  pose proof (Z.div_mod u 64) as D. pose proof (Z.div_mod (u / 64) 64) as D'.
  rewrite Zdiv.Zdiv_Zdiv in D' by lia. change (64 * 64) with 4096 in D'.
  destruct (Z.ltb_spec u 2048) as [L2|L2].
  - assert (0 ≤ u / 64 < 32) as B by (split; [apply Z.div_pos; lia|apply Z.div_lt_upper_bound; lia]).
    destruct (lead2_bits _ B) as (A1 & A2 & _).
    rewrite (G0 _ eq_refl), obind_Some, A2, (G1 _ eq_refl), obind_Some, C0, A1, M0. cbn [negb].
    assert (Z.land (192 + u / 64) 31 = u / 64) as -> by (by apply (land_lead 5 6 31)).
    rewrite join2 by apply rem64. f_equal. f_equal; lia.
  - destruct (Z.ltb_spec u 65536) as [_|]; [|lia].
    assert (0 ≤ u / 4096 < 16) as B by (split; [apply Z.div_pos; lia|apply Z.div_lt_upper_bound; lia]).
    destruct (lead3_bits _ B) as (A1 & A2 & A3 & _).
    rewrite (G0 _ eq_refl), obind_Some, A2, (G1 _ eq_refl), obind_Some, C1, A3. cbn [negb].
    rewrite (G2 _ eq_refl), obind_Some, C0, A1, M0, M1. cbn [negb].
    assert (Z.land (224 + u / 4096) 15 = u / 4096) as -> by (by apply (land_lead 4 14 15)).
    rewrite join3 by apply rem64. f_equal. f_equal; lia.
Qed.

(** The four bytes of a character outside the basic plane. *)
Lemma astral_bytes : 65536 ≤ u → ∃ a b c d, ujson_to_utf8 u = [240 + a; 128 + b; 128 + c; 128 + d] ∧
  0 ≤ a < 8 ∧ 0 ≤ b < 64 ∧ 0 ≤ c < 64 ∧ 0 ≤ d < 64.
Proof.
  intros Hge. unfold ucode in Hu. rewrite to_utf8_eq by done.
  destruct (Z.ltb_spec u 128), (Z.ltb_spec u 2048), (Z.ltb_spec u 65536); try lia.
  exists (u / 262144), ((u / 4096) mod 64), ((u / 64) mod 64), (u mod 64).
  split_and!; try done; try apply rem64; [apply Z.div_pos; lia|apply Z.div_lt_upper_bound; lia].
Qed.

Lemma next_astral : 65536 ≤ u → ujson_utf8_next s p = Some (0, (p + 4)%nat).
Proof.
  intros Hge. destruct (astral_bytes Hge) as (a & b & c & d & E & Ha & Hb & Hc & Hd).
  pose proof enc_get as G. rewrite E in G |- *.
  pose proof (G 0%nat _ eq_refl) as G0. pose proof (G 1%nat _ eq_refl) as G1. pose proof (G 2%nat _ eq_refl) as G2.
  replace (p + 0)%nat with p in G0 by lia. replace (p + 1)%nat with (S p) in G1 by lia.
  replace (p + 2)%nat with (S (S p)) in G2 by lia.
  destruct (lead4_bits a Ha) as (A1 & A2 & A3 & A4 & _).
  destruct (cont_bits b Hb) as [B1 _]. destruct (cont_bits c Hc) as [C1 _].
  unfold ujson_utf8_next. rewrite G0, obind_Some, A2, G1, obind_Some, B1, A3. cbn [negb].
  rewrite G2, obind_Some, C1, A4. cbn [negb]. rewrite land_mask63 by done.
  destruct (cget_total (pre ++ [240 + a; 128 + b; 128 + c; 128 + d] ++ rest) (S (S (S (S p))))) as [x ->].
  { rewrite !length_app. simpl. lia. }
  rewrite obind_Some.
  assert (UJSON_UTF8_IS_NBYTE c = false) as ->.
  { pose proof (range_forall (λ x, negb (UJSON_UTF8_IS_NBYTE x)) 64 c eq_refl Hc). simpl in *. by apply negb_true_iff. }
  cbn [negb]. f_equal. f_equal. lia.
Qed.

(** The bytes of the character: the first one says how many follow. *)
Lemma bytes_cases :
  (u < 128 ∧ ujson_to_utf8 u = [u] ∧ ujson_utf8_bytes u = 1%nat) ∨
  (∃ a b, ujson_to_utf8 u = [192 + a; 128 + b] ∧ ujson_utf8_bytes u = 2%nat ∧ 0 ≤ a < 32 ∧ 0 ≤ b < 64) ∨
  (∃ a b c, ujson_to_utf8 u = [224 + a; 128 + b; 128 + c] ∧ ujson_utf8_bytes u = 3%nat ∧
    0 ≤ a < 16 ∧ 0 ≤ b < 64 ∧ 0 ≤ c < 64) ∨
  (∃ a b c d, ujson_to_utf8 u = [240 + a; 128 + b; 128 + c; 128 + d] ∧ ujson_utf8_bytes u = 4%nat ∧
    0 ≤ a < 8 ∧ 0 ≤ b < 64 ∧ 0 ≤ c < 64 ∧ 0 ≤ d < 64).
Proof.
  destruct (Z.ltb_spec u 65536) as [L|L].
  2:{ destruct (astral_bytes L) as (a & b & c & d & E & ?). do 3 right. exists a, b, c, d.
      split_and!; try tauto. by rewrite <- length_to_utf8, E. }
  unfold ucode in Hu. rewrite to_utf8_eq by done. unfold ujson_utf8_bytes.
  destruct (Z.ltb_spec u 128) as [L1|L1]; [by left|]. destruct (Z.ltb_spec u 2048) as [L2|L2].
  - right. left. exists (u / 64), (u mod 64). split_and!; try done; try apply rem64;
      [apply Z.div_pos; lia|apply Z.div_lt_upper_bound; lia].
  - do 2 right. left. exists (u / 4096), ((u / 64) mod 64), (u mod 64).
    destruct (Z.ltb_spec u 65536); [|lia]. split_and!; try done; try apply rem64;
      [apply Z.div_pos; lia|apply Z.div_lt_upper_bound; lia].
Qed.

Lemma next_chsz : ujson_utf8_next_chsz s p = Some (Z.of_nat (ujson_utf8_bytes u)).
Proof.
  unfold ucode in Hu. pose proof enc_get as G. unfold ujson_utf8_next_chsz.
  pose proof (G 0%nat) as G0. replace (p + 0)%nat with p in G0 by lia.
  destruct bytes_cases as [(L & E & ->)|[(a & b & E & -> & Ha & Hb)|[(a & b & c & E & -> & Ha & Hb & Hc)|
    (a & b & c & d & E & -> & Ha & Hb & Hc & Hd)]]]; rewrite E in G, G0 |- *; rewrite (G0 _ eq_refl), obind_Some.
  - destruct (Z.eqb_spec u 0); [lia|]. by rewrite ascii_bits by lia.
  - destruct (lead2_bits a Ha) as (A1 & A2 & _). destruct (Z.eqb_spec (192 + a) 0); [lia|].
    rewrite A2, A1. cbn [Z.eqb]. rewrite (G 1%nat _ eq_refl), obind_Some. by destruct (cont_bits b Hb) as [-> _].
  - destruct (lead3_bits a Ha) as (A1 & A2 & A3 & _). destruct (Z.eqb_spec (224 + a) 0); [lia|].
    rewrite A2, A3, A1. cbn [Z.eqb]. rewrite (G 1%nat _ eq_refl), obind_Some.
    destruct (cont_bits b Hb) as [-> _]. cbn [negb Z.ltb Z.compare Pos.compare Pos.compare_cont].
    rewrite (G 2%nat _ eq_refl), !obind_Some. by destruct (cont_bits c Hc) as [-> _].
  - destruct (lead4_bits a Ha) as (A1 & A2 & A3 & A4 & _). destruct (Z.eqb_spec (240 + a) 0); [lia|].
    rewrite A2, A3, A4, A1. cbn [Z.eqb]. rewrite (G 1%nat _ eq_refl), obind_Some.
    destruct (cont_bits b Hb) as [-> _]. cbn [negb Z.ltb Z.compare Pos.compare Pos.compare_cont].
    rewrite (G 2%nat _ eq_refl), !obind_Some. destruct (cont_bits c Hc) as [-> _]. cbn [negb].
    rewrite (G 3%nat _ eq_refl), !obind_Some. by destruct (cont_bits d Hd) as [-> _].
Qed.

Lemma prev_chsz : ujson_utf8_prev_chsz s (p + ujson_utf8_bytes u) = Some (Z.of_nat (ujson_utf8_bytes u)).
Proof.
  unfold ucode in Hu. pose proof enc_get as G. pose proof (G 0%nat) as G0. pose proof (G 1%nat) as G1.
  pose proof (G 2%nat) as G2. pose proof (G 3%nat) as G3. clear G.
  replace (p + 0)%nat with p in G0 by lia. replace (p + 1)%nat with (S p) in G1 by lia.
  replace (p + 2)%nat with (S (S p)) in G2 by lia. replace (p + 3)%nat with (S (S (S p))) in G3 by lia.
  destruct bytes_cases as [(L & E & ->)|[(a & b & E & -> & Ha & Hb)|[(a & b & c & E & -> & Ha & Hb & Hc)|
    (a & b & c & d & E & -> & Ha & Hb & Hc & Hd)]]]; rewrite E in G0, G1, G2, G3 |- *.
  - replace (p + 1)%nat with (S p) by lia. cbn [ujson_utf8_prev_chsz].
    by rewrite (G0 _ eq_refl), obind_Some, ascii_bits by lia.
  - replace (p + 2)%nat with (S (S p)) by lia. cbn [ujson_utf8_prev_chsz].
    destruct (cont_bits b Hb) as (B1 & B2 & B3 & B4). destruct (lead2_bits a Ha) as (A1 & A2 & A3).
    rewrite (G1 _ eq_refl), obind_Some, B2, B1. cbn [negb]. by rewrite (G0 _ eq_refl), obind_Some, A1.
  - replace (p + 3)%nat with (S (S (S p))) by lia. cbn [ujson_utf8_prev_chsz].
    destruct (cont_bits c Hc) as (C1 & C2 & C3 & C4). destruct (cont_bits b Hb) as (B1 & B2 & B3 & B4).
    destruct (lead3_bits a Ha) as (A1 & A2 & A3 & A4).
    rewrite (G2 _ eq_refl), obind_Some, C2, C1. cbn [negb]. rewrite (G1 _ eq_refl), obind_Some, B3, B1. cbn [negb].
    by rewrite (G0 _ eq_refl), obind_Some, A1.
  - replace (p + 4)%nat with (S (S (S (S p)))) by lia. cbn [ujson_utf8_prev_chsz].
    destruct (cont_bits d Hd) as (D1 & D2 & D3 & D4). destruct (cont_bits c Hc) as (C1 & C2 & C3 & C4).
    destruct (cont_bits b Hb) as (B1 & B2 & B3 & B4). destruct (lead4_bits a Ha) as (A1 & A2 & A3 & A4 & A5).
    rewrite (G3 _ eq_refl), obind_Some, D2, D1. cbn [negb]. rewrite (G2 _ eq_refl), obind_Some, C3, C1. cbn [negb].
    rewrite (G1 _ eq_refl), obind_Some, B4, B1. cbn [negb]. by rewrite (G0 _ eq_refl), obind_Some, A1.
Qed.
End Encoded.

(** ** Strings *)

Definition utf8_string (us : list Z) : list Z := concat (ujson_to_utf8 <$> us).

Definition bmp (u : Z) : Prop := 0 < u < 65536.

Lemma bmp_ucode u : bmp u → ucode u.
Proof. unfold bmp, ucode. lia. Qed.

Lemma length_utf8_string us : (length us ≤ length (utf8_string us))%nat.
Proof.
  induction us as [|u us IH]; [done|]. change (utf8_string (u :: us)) with (ujson_to_utf8 u ++ utf8_string us).
  rewrite length_app, length_to_utf8. simpl. unfold ujson_utf8_bytes. repeat case_match; lia.
Qed.

Lemma strlen_bmp fuel us pre rest n :
  Forall bmp us → (length us ≤ fuel)%nat →
  utf8_strlen_loop fuel (pre ++ utf8_string us ++ rest) (length pre) n =
  utf8_strlen_loop (fuel - length us) (pre ++ utf8_string us ++ rest) (length pre + length (utf8_string us)) (n + length us).
Proof.
  intros Hus. revert fuel pre n. induction Hus as [|u us Hu _ IH]; intros fuel pre n Hf.
  { rewrite !Nat.add_0_r. by rewrite Nat.sub_0_r. }
  destruct fuel as [|fuel]; [simpl in Hf; lia|]. cbn [utf8_strlen_loop].
  change (utf8_string (u :: us)) with (ujson_to_utf8 u ++ utf8_string us).
  rewrite <- app_assoc, next_bmp, obind_Some by (by apply bmp_ucode || by destruct Hu).
  cbn beta iota. destruct (Z.eqb_spec u 0) as [->|_]; [destruct Hu; lia|].
  rewrite <- length_to_utf8, <- length_app, app_assoc, IH by (simpl in Hf; lia).
  rewrite !length_app. cbn [length Nat.sub]. f_equal; lia.
Qed.

(** ** Properties *)

(** An encoded character can be read back at its place in a string: the
    decoder returns it and moves over its bytes (up to U+FFFF), and the sizes
    of the next character before it and of the previous character after it
    are the number of its bytes (for all characters). *)
Theorem ujson_utf8_roundtrip (pre rest : list Z) (u : Z) :
  ucode u →
  (u < 65536 → ujson_utf8_next (pre ++ ujson_to_utf8 u ++ rest) (length pre) =
     Some (u, (length pre + ujson_utf8_bytes u)%nat)) ∧
  ujson_utf8_next_chsz (pre ++ ujson_to_utf8 u ++ rest) (length pre) = Some (Z.of_nat (ujson_utf8_bytes u)) ∧
  ujson_utf8_prev_chsz (pre ++ ujson_to_utf8 u ++ rest) (length pre + ujson_utf8_bytes u) =
    Some (Z.of_nat (ujson_utf8_bytes u)).
Proof. intros Hu. split_and!; [by apply next_bmp|by apply next_chsz|by apply prev_chsz]. Qed.

Lemma ujson_utf8_roundtrip_witness :
  ujson_to_utf8 8364 = [226; 130; 172] ∧
  ujson_utf8_next (str "a" ++ [226; 130; 172] ++ str "b") 1 = Some (8364, 4%nat) ∧
  ujson_utf8_prev_chsz (str "a" ++ [226; 130; 172] ++ str "b") 4 = Some 3.
Proof.
  split; [reflexivity|].
  destruct (ujson_utf8_roundtrip (str "a") (str "b") 8364) as (H1 & _ & H2); [by split|].
  split; [apply H1; lia|exact H2].
Defined.

(** [ujson_utf8_strlen] counts the characters of a string of encoded
    characters up to U+FFFF. *)
Theorem ujson_utf8_strlen_correct (us : list Z) :
  Forall bmp us → ujson_utf8_strlen (utf8_string us) = Some (length us).
Proof.
  intros Hus. unfold ujson_utf8_strlen.
  pose proof (length_utf8_string us) as Hle.
  pose proof (strlen_bmp (S (length (utf8_string us))) us [] [] 0 Hus) as H.
  rewrite app_nil_r in H. cbn [app length] in H. rewrite H by lia.
  replace (S (length (utf8_string us)) - length us)%nat with (S (length (utf8_string us) - length us)) by lia.
  cbn [utf8_strlen_loop]. unfold ujson_utf8_next. autorewrite with cstr. done.
Qed.

Lemma ujson_utf8_strlen_correct_witness : ujson_utf8_strlen [97; 195; 169; 226; 130; 172] = Some 3%nat.
Proof.
  apply (ujson_utf8_strlen_correct [97; 233; 8364]). by repeat constructor.
Defined.

(** A four-byte character is decoded to 0 wherever it stands, since the
    check for the fourth byte looks at the already masked third one: the
    length of a string ends at its first character above U+FFFF. *)
Theorem ujson_utf8_strlen_astral (us rest : list Z) (u : Z) :
  Forall bmp us → 65536 ≤ u < 2 ^ 21 →
  ujson_utf8_strlen (utf8_string us ++ ujson_to_utf8 u ++ rest) = Some (length us).
Proof.
  intros Hus Hu. unfold ujson_utf8_strlen. set (s := _ ++ _).
  assert (length us < length s)%nat as Hle.
  { unfold s. rewrite !length_app, length_to_utf8.
    pose proof (length_utf8_string us). unfold ujson_utf8_bytes. repeat case_match; lia. }
  pose proof (strlen_bmp (S (length s)) us [] (ujson_to_utf8 u ++ rest) 0 Hus) as H.
  cbn [app length] in H. fold s in H. rewrite H by lia.
  replace (S (length s) - length us)%nat with (S (length s - length us)) by lia.
  cbn [utf8_strlen_loop Nat.add]. unfold s. rewrite next_astral by (unfold ucode; lia). done.
Qed.

Lemma ujson_utf8_strlen_astral_witness :
  ujson_to_utf8 128512 = [240; 159; 152; 128] ∧
  ujson_utf8_strlen ([97] ++ [240; 159; 152; 128] ++ [98; 99]) = Some 1%nat.
Proof.
  split; [reflexivity|].
  apply (ujson_utf8_strlen_astral [97] [98; 99] 128512); [by repeat constructor|lia].
Defined.
