(* ===== verification/UjsonReader.v ===== *)
(** * The JSON reader (libs/ujson/ujson_reader.c, include/ujson_reader.h)

    The recursive descent parser over a byte buffer: a record for
    [struct ujson_reader] and one for [struct ujson_val], one definition per
    function, with the state passed explicitly.  [None] stands for a write
    outside a buffer (or for exhausted fuel, which the theorems exclude), and
    for a read past the terminator of the text where messages are printed.
    The parser reads the text only in [eatws], [getb], [peekb] and
    [peekb_off], after comparing the offset with [len]: there a lookup that
    fails is the branch at the end of the text, which returns 0.
    Doubles are not computed: a [double] is kept as the text or the integer
    it is converted from.  The long of [get_int] wraps around. *)

From S2P Require Import Prelude UjsonUtf.
Open Scope Z_scope.

Inductive ujson_type :=
  | UJSON_VOID
  | UJSON_INT
  | UJSON_FLOAT
  | UJSON_BOOL
  | UJSON_NULL
  | UJSON_STR
  | UJSON_OBJ
  | UJSON_ARR.

#[export] Instance ujson_type_eq_dec : EqDecision ujson_type.
Proof. solve_decision. Defined.

Definition ujson_type_name (t : ujson_type) : list Z :=
  match t with
  | UJSON_VOID => str "void"
  | UJSON_INT => str "integer"
  | UJSON_FLOAT => str "float"
  | UJSON_BOOL => str "boolean"
  | UJSON_NULL => str "null"
  | UJSON_STR => str "string"
  | UJSON_OBJ => str "object"
  | UJSON_ARR => str "array"
  end.

Definition UJSON_ERR_MAX : nat := 128.
Definition UJSON_ID_MAX : nat := 64.
Definition UJSON_RECURSION_MAX : Z := 128.

(** ** The reader *)

(** [len] is the length of [json]; the empty [err] is no error; [printed]
    are the lines given to the handler [err_print], if there is one. *)
Record ujson_reader := mk_rd {
  json : list Z;
  off : nat;
  sub_off : nat;
  depth : Z;
  max_depth : Z;
  strict : bool;
  err_print : bool;
  err : list Z;
  printed : list (list Z);
}.

Definition UJSON_READER_INIT (buf : list Z) (rstrict : bool) : ujson_reader :=
  mk_rd buf 0 0 0 UJSON_RECURSION_MAX rstrict true [] [].

Definition set_off (n : nat) (b : ujson_reader) : ujson_reader :=
  mk_rd (json b) n (sub_off b) (depth b) (max_depth b) (strict b) (err_print b) (err b) (printed b).
Definition set_sub_off (n : nat) (b : ujson_reader) : ujson_reader :=
  mk_rd (json b) (off b) n (depth b) (max_depth b) (strict b) (err_print b) (err b) (printed b).
Definition set_depth (d : Z) (b : ujson_reader) : ujson_reader :=
  mk_rd (json b) (off b) (sub_off b) d (max_depth b) (strict b) (err_print b) (err b) (printed b).
Definition set_err (m : list Z) (b : ujson_reader) : ujson_reader :=
  mk_rd (json b) (off b) (sub_off b) (depth b) (max_depth b) (strict b) (err_print b) m (printed b).
Definition add_line (l : list Z) (b : ujson_reader) : ujson_reader :=
  mk_rd (json b) (off b) (sub_off b) (depth b) (max_depth b) (strict b) (err_print b) (err b) (printed b ++ [l]).

Definition ujson_reader_err (b : ujson_reader) : bool := negb (bool_decide (err b = [])).

(** [vsnprintf] into the 128 bytes of [err]. *)
Definition ujson_err (msg : list Z) (b : ujson_reader) : ujson_reader :=
  set_err (snprintf UJSON_ERR_MAX msg) b.

Definition buf_empty (b : ujson_reader) : bool := (length (json b) <=? off b)%nat.

Definition is_ws (c : Z) : bool := (c =? " "%cc) || (c =? 9) || (c =? 10) || (c =? 13).

(** The loop of [eatws], at most [n] rounds, [n] being what is left. *)
Fixpoint eatws_loop (n : nat) (b : ujson_reader) : ujson_reader :=
  match n with
  | O => b
  | S n =>
      match json b !! off b with
      | Some c => if is_ws c then eatws_loop n (set_off (S (off b)) b) else b
      | None => b
      end
  end.

Definition eatws (b : ujson_reader) : bool * ujson_reader :=
  let b := eatws_loop (length (json b) - off b) b in (buf_empty b, b).

Definition getb (b : ujson_reader) : Z * ujson_reader :=
  match json b !! off b with
  | None => (0, b)                          (* buf_empty(buf) *)
  | Some c => (c, set_off (S (off b)) b)
  end.

Definition peekb_off (b : ujson_reader) (o : nat) : Z :=
  match json b !! (off b + o)%nat with
  | None => 0                               (* buf->off + off >= buf->len *)
  | Some c => c
  end.

Definition peekb (b : ujson_reader) : Z :=
  match json b !! off b with
  | None => 0                               (* buf_empty(buf) *)
  | Some c => c
  end.

Definition eatb (b : ujson_reader) (ch : Z) : bool * ujson_reader :=
  if negb (peekb b =? ch) then (false, b) else (true, snd (getb b)).

Definition eatb2 (b : ujson_reader) (ch1 ch2 : Z) : bool * ujson_reader :=
  if negb (peekb b =? ch1) && negb (peekb b =? ch2) then (false, b) else (true, snd (getb b)).

Fixpoint eatstr (b : ujson_reader) (s : list Z) : bool * ujson_reader :=
  match s with
  | [] => (true, b)
  | c :: s => let '(ok, b) := eatb b c in if ok then eatstr b s else (false, b)
  end.

Definition hex2val (b : Z) : Z :=
  if ("0"%cc <=? b) && (b <=? "9"%cc) then b - "0"%cc
  else if ("a"%cc <=? b) && (b <=? "f"%cc) then b - "a"%cc + 10
  else if ("A"%cc <=? b) && (b <=? "F"%cc) then b - "A"%cc + 10
  else -1.

(** [n] more digits of [parse_ucode_cp]. *)
Fixpoint ucode_cp_loop (n : nat) (ret : Z) (b : ujson_reader) : Z * ujson_reader :=
  match n with
  | O => (ret, b)
  | S n =>
      let '(c, b) := getb b in
      if hex2val c <? 0 then (-1, ujson_err (str "Expected four hexadecimal digits") b)
      else ucode_cp_loop n (ret * 16 + hex2val c) b
  end.

Definition parse_ucode_cp (b : ujson_reader) : Z * ujson_reader := ucode_cp_loop 4 0 b.

(** The return value, the bytes that are written at [str + off] and the
    reader; [have_str] is [str != NULL]. *)
Definition parse_ucode_esc (have_str : bool) (pos len : nat) (b : ujson_reader)
    : Z * list Z * ujson_reader :=
  let '(ucode, b) := parse_ucode_cp b in
  if ucode <? 0 then (0, [], b)
  else if negb have_str then (ucode, [], b)
  else if (len - pos <=? ujson_utf8_bytes ucode + 1)%nat then
    (0, [], ujson_err (str "String buffer too short!") b)
  else (Z.of_nat (length (ujson_to_utf8 ucode)), ujson_to_utf8 ucode, b).

(** ["%02x"] of a byte. *)
Definition hex_digit (d : Z) : Z := if d <? 10 then "0"%cc + d else "a"%cc + (d - 10).
Definition fmt_02x (b : Z) : list Z := [hex_digit (b / 16); hex_digit (b mod 16)].

(** The character an escape stands for; [None] for an invalid one. *)
Definition unescape (b : Z) : option Z :=
  if (b =? cDQ) || (b =? "\"%cc) || (b =? "/"%cc) then Some b
  else if b =? "b"%cc then Some 8
  else if b =? "f"%cc then Some 12
  else if b =? "n"%cc then Some 10
  else if b =? "r"%cc then Some 13
  else if b =? "t"%cc then Some 9
  else None.

(** [if (str && b) { ... str[pos++] = b; }] with [acc] for [str[0..pos)]:
    [inl] is the return of 1. *)
Definition put_char (have_str : bool) (len : nat) (acc : list Z) (b : Z) (r : ujson_reader)
    : ujson_reader + list Z :=
  if have_str && negb (b =? 0) then
    if (len <=? length acc + 1)%nat then inl (ujson_err (str "String buffer too short!") r)
    else inr (acc ++ [b])
  else inr acc.

(** The loop of [copy_str]: the return value, what is in [str] and the
    reader. *)
Fixpoint copy_str_loop (fuel : nat) (have_str : bool) (len : nat) (esc : bool) (acc : list Z)
    (b : ujson_reader) : option (Z * list Z * ujson_reader) :=
  match fuel with
  | O => None
  | S fuel =>
      if buf_empty b then Some (1, acc, ujson_err (str "Unterminated string") b) else
      let '(q, b) := if esc then (false, b) else eatb b cDQ in
      if q then
        if have_str && (len <=? length acc)%nat then None else Some (0, acc, b)
      else
        let '(c, b) := getb b in
        if c <? 32 then
          if peekb b =? 0 then Some (1, acc, ujson_err (str "Unterminated string") b)
          else Some (1, acc, ujson_err (str "Invalid string character 0x" ++ fmt_02x c) b)
        else if negb esc && (c =? "\"%cc) then copy_str_loop fuel have_str len true acc b
        else if esc then
          if c =? "u"%cc then
            let '(l, bytes, b) := parse_ucode_esc have_str (length acc) len b in
            if l =? 0 then Some (1, acc, b)
            else copy_str_loop fuel have_str len false (acc ++ bytes) b
          else
            match unescape c with
            | None => Some (1, acc, ujson_err (str "Invalid escape \" ++ [c]) b)
            | Some c =>
                match put_char have_str len acc c b with
                | inl b => Some (1, acc, b)
                | inr acc => copy_str_loop fuel have_str len false acc b
                end
            end
        else
          match put_char have_str len acc c b with
          | inl b => Some (1, acc, b)
          | inr acc => copy_str_loop fuel have_str len false acc b
          end
  end.

(** Every round takes a byte. *)
Definition copy_str (have_str : bool) (len : nat) (b : ujson_reader) : option (Z * list Z * ujson_reader) :=
  let b := snd (eatb b cDQ) in
  copy_str_loop (S (length (json b) - off b)) have_str len false [] b.

(** ** Object keys *)

(** The loop of [copy_id_str] on the [UJSON_ID_MAX] bytes of [id]: the return
    value ([None]: the string ended), the array and the reader. *)
Fixpoint copy_id_loop (fuel : nat) (id : list Z) (pos : nat) (b : ujson_reader)
    : option (option Z * list Z * ujson_reader) :=
  match fuel with
  | O => None
  | S fuel =>
      if buf_empty b then Some (Some 1, id, ujson_err (str "Unterminated ID string") b) else
      let '(q, b) := eatb b cDQ in
      if q then
        if (pos <? length id)%nat then Some (None, <[pos := 0]> id, b) else None
      else if (UJSON_ID_MAX - 1 <=? pos)%nat then Some (Some 1, id, ujson_err (str "ID string too long") b)
      else
        let '(c, b) := getb b in
        if (pos <? length id)%nat then copy_id_loop fuel (<[pos := c]> id) (S pos) b else None
  end.

Definition copy_id_str (id : list Z) (b : ujson_reader) : option (Z * list Z * ujson_reader) :=
  let err0 b := Some (1, id, ujson_err (str "Expected ID string") b) in
  let '(e, b) := eatws b in
  if (e : bool) then err0 b else
  let '(q, b) := eatb b cDQ in
  if negb q then err0 b else
  '(r, id, b) ← copy_id_loop (S (length (json b) - off b)) id 0 b;
  match r with
  | Some r => Some (r, id, b)
  | None =>
      let err1 b := Some (1, id, ujson_err (str "Expected ':' after ID string") b) in
      let '(e, b) := eatws b in
      if (e : bool) then err1 b else
      let '(q, b) := eatb b (":"%cc) in
      if negb q then err1 b else Some (0, id, b)
  end.

(** ** Values *)

(** A double: where it comes from. *)
Inductive double :=
  | DOfLong (z : Z)
  | DStrtod (text : list Z).

(** The anonymous union. *)
Inductive uval :=
  | VNone
  | VBool (b : Z)
  | VInt (z : Z)
  | VStr (s : list Z).

(** [have_buf] is [buf != NULL], [buf_str] the string in it. *)
Record ujson_val := mk_val {
  type : ujson_type;
  have_buf : bool;
  buf_size : nat;
  idx : option nat;
  val : uval;
  val_float : option double;
  id : list Z;
}.

(** [struct ujson_val res = {}] *)
Definition val_zero : ujson_val := mk_val UJSON_VOID false 0 (Some 0%nat) VNone None (replicate UJSON_ID_MAX 0).

Definition UJSON_VAL_INIT (sbuf_size : nat) : ujson_val :=
  mk_val UJSON_VOID true sbuf_size (Some 0%nat) VNone None (replicate UJSON_ID_MAX 0).

Definition set_type (t : ujson_type) (v : ujson_val) : ujson_val :=
  mk_val t (have_buf v) (buf_size v) (idx v) (val v) (val_float v) (id v).
Definition set_id (i : list Z) (v : ujson_val) : ujson_val :=
  mk_val (type v) (have_buf v) (buf_size v) (idx v) (val v) (val_float v) i.
Definition set_idx (i : option nat) (v : ujson_val) : ujson_val :=
  mk_val (type v) (have_buf v) (buf_size v) i (val v) (val_float v) (id v).
Definition set_uval (u : uval) (v : ujson_val) : ujson_val :=
  mk_val (type v) (have_buf v) (buf_size v) (idx v) u (val_float v) (id v).
Definition set_float (f : double) (v : ujson_val) : ujson_val :=
  mk_val (type v) (have_buf v) (buf_size v) (idx v) (val v) (Some f) (id v).

Definition ujson_val_valid (v : ujson_val) : bool := negb (bool_decide (type v = UJSON_VOID)).

Definition is_digit (b : Z) : bool := ("0"%cc <=? b) && (b <=? "9"%cc).

(** [while (is_digit(peekb(buf))) { val *= 10; val += getb(buf) - '0'; }] *)
Fixpoint digits_loop (n : nat) (v : Z) (b : ujson_reader) : Z * ujson_reader :=
  match n with
  | O => (v, b)
  | S n =>
      if is_digit (peekb b) then
        let '(c, b) := getb b in digits_loop n (wraps 64 (wraps 64 (v * 10) + (c - "0"%cc))) b
      else (v, b)
  end.

Definition get_int (b : ujson_reader) (res : ujson_val) : Z * ujson_val * ujson_reader :=
  let '(neg, b) := eatb b ("-"%cc) in
  if neg && negb (is_digit (peekb b)) then (1, res, ujson_err (str "Expected digit(s)") b)
  else if (peekb b =? "0"%cc) && is_digit (peekb_off b 1) then
    (1, res, ujson_err (str "Leading zero in number!") b)
  else
    let '(v, b) := digits_loop (length (json b) - off b) 0 b in
    let v := if (neg : bool) then wraps 64 (- v) else v in
    (0, set_float (DOfLong v) (set_uval (VInt v) res), b).

Fixpoint skip_digits (n : nat) (b : ujson_reader) : ujson_reader :=
  match n with
  | O => b
  | S n => if is_digit (peekb b) then skip_digits n (snd (getb b)) else b
  end.

Definition eat_digits (b : ujson_reader) : Z * ujson_reader :=
  if negb (is_digit (peekb b)) then (1, ujson_err (str "Expected digit(s)") b)
  else (0, skip_digits (length (json b) - off b) b).

(** The exponent: the fallthrough cases of the switch. *)
Definition get_exp (b : ujson_reader) : Z * ujson_reader :=
  let '(_, b) := eatb2 b ("+"%cc) ("-"%cc) in eat_digits b.

Definition get_float (b : ujson_reader) (res : ujson_val) : Z * ujson_val * ujson_reader :=
  let start := off b in
  let '(_, b) := eatb b ("-"%cc) in
  if (peekb b =? "0"%cc) && is_digit (peekb_off b 1) then
    (1, res, ujson_err (str "Leading zero in float") b)
  else
    let '(r, b) := eat_digits b in
    if negb (r =? 0) then (1, res, b) else
    let '(c, b) := getb b in
    let '(r, b) :=
      if c =? "."%cc then
        let '(r, b) := eat_digits b in
        if negb (r =? 0) then (1, b) else
        let '(e, b) := eatb2 b ("e"%cc) ("E"%cc) in
        if negb e then (0, b) else get_exp b
      else if (c =? "e"%cc) || (c =? "E"%cc) then get_exp b
      else (0, b) in
    if negb (r =? 0) then (1, res, b)
    else (0, set_float (DStrtod (take (off b - start) (drop start (json b)))) res, b).

Definition get_bool (b : ujson_reader) (res : ujson_val) : Z * ujson_val * ujson_reader :=
  if peekb b =? "f"%cc then
    let '(ok, b) := eatstr b (str "false") in
    if negb ok then (1, res, ujson_err (str "Expected 'false'") b) else (0, set_uval (VBool 0) res, b)
  else if peekb b =? "t"%cc then
    let '(ok, b) := eatstr b (str "true") in
    if negb ok then (1, res, ujson_err (str "Expected 'true'") b) else (0, set_uval (VBool 1) res, b)
  else (0, res, b).

Definition get_null (b : ujson_reader) : Z * ujson_reader :=
  let '(ok, b) := eatstr b (str "null") in
  if negb ok then (1, ujson_err (str "Expected 'null'") b) else (0, b).

(** The scan of [next_num_type] from offset [o]; past the buffer it reads 0. *)
Fixpoint num_type_loop (fuel : nat) (b : ujson_reader) (o : nat) : ujson_type :=
  let c := peekb_off b o in
  if (c =? 0) || (c =? ","%cc) then UJSON_INT
  else if (c =? "."%cc) || (c =? "e"%cc) || (c =? "E"%cc) then UJSON_FLOAT
  else match fuel with O => UJSON_VOID | S fuel => num_type_loop fuel b (S o) end.

Definition next_num_type (b : ujson_reader) : ujson_type := num_type_loop (length (json b) - off b) b 0.

Definition ujson_next_type (b : ujson_reader) : ujson_type * ujson_reader :=
  let '(e, b) := eatws b in
  if (e : bool) then (UJSON_VOID, ujson_err (str "Unexpected end") b) else
  let c := peekb b in
  if c =? "{"%cc then (UJSON_OBJ, b)
  else if c =? "["%cc then (UJSON_ARR, b)
  else if c =? cDQ then (UJSON_STR, b)
  else if (c =? "-"%cc) || is_digit c then (next_num_type b, b)
  else if (c =? "f"%cc) || (c =? "t"%cc) then (UJSON_BOOL, b)
  else if c =? "n"%cc then (UJSON_NULL, b)
  else (UJSON_VOID, ujson_err (str "Expected object, array, number or string") b).

Definition ujson_reader_start (b : ujson_reader) : ujson_type * ujson_reader :=
  let '(t, b) := ujson_next_type b in
  match t with
  | UJSON_ARR | UJSON_OBJ | UJSON_VOID => (t, b)
  | _ => (UJSON_VOID, ujson_err (str "JSON can start only with array or object") b)
  end.

(** The return value, the value and the reader. *)
Definition get_value (b : ujson_reader) (res : ujson_val) : option (Z * ujson_val * ujson_reader) :=
  let '(t, b) := ujson_next_type b in
  let res := set_type t res in
  let finish ret res b :=
    if negb (ret =? 0) then Some (0, set_type UJSON_VOID res, b) else Some (1, res, b) in
  match t with
  | UJSON_STR =>
      '(r, s, b) ← copy_str (have_buf res) (buf_size res) b;
      if negb (r =? 0) then Some (0, set_type UJSON_VOID res, b)
      else Some (1, set_uval (VStr s) res, b)
  | UJSON_INT => let '(ret, res, b) := get_int b res in finish ret res b
  | UJSON_FLOAT => let '(ret, res, b) := get_float b res in finish ret res b
  | UJSON_BOOL => let '(ret, res, b) := get_bool b res in finish ret res b
  | UJSON_NULL => let '(ret, b) := get_null b in finish ret res b
  | UJSON_VOID => Some (0, res, b)
  | UJSON_ARR | UJSON_OBJ => Some (1, res, set_sub_off (off b) b)
  end.

(** ** Objects and arrays *)

Definition pre_next (b : ujson_reader) (res : ujson_val) : Z * ujson_val * ujson_reader :=
  let '(c, b) := eatb b (","%cc) in
  if negb c then (1, set_type UJSON_VOID res, ujson_err (str "Expected ','") b) else
  let '(e, b) := eatws b in
  if (e : bool) then (1, set_type UJSON_VOID res, ujson_err (str "Unexpected end") b)
  else (0, res, b).

Definition check_end (b : ujson_reader) (res : ujson_val) (ch : Z) : Z * ujson_val * ujson_reader :=
  let '(e, b) := eatws b in
  if (e : bool) then (1, res, ujson_err (str "Unexpected end") b) else
  let '(c, b) := eatb b ch in
  if (c : bool) then
    let '(_, b) := eatws b in
    let '(_, b) := eatb b 0 in
    (1, set_type UJSON_VOID res, set_depth (wrapu 32 (depth b - 1)) b)
  else (0, res, b).

Definition check_err (b : ujson_reader) (res : ujson_val) : bool * ujson_val :=
  if ujson_reader_err b then (true, set_type UJSON_VOID res) else (false, res).

Definition any_first (b : ujson_reader) (ch : Z) : Z * ujson_reader :=
  let '(e, b) := eatws b in
  if (e : bool) then (1, ujson_err (str "Unexpected end") b) else
  let '(c, b) := eatb b ch in
  if negb c then (1, ujson_err (str "Expected '" ++ [ch] ++ str "'") b) else
  let b := set_depth (wrapu 32 (depth b + 1)) b in
  if max_depth b <? depth b then (1, ujson_err (str "Recursion too deep") b) else (0, b).

Definition obj_next (b : ujson_reader) (res : ujson_val) : option (Z * ujson_val * ujson_reader) :=
  '(r, i, b) ← copy_id_str (id res) b;
  let res := set_id i res in
  if negb (r =? 0) then Some (0, res, b) else get_value b res.

Definition obj_pre_next (b : ujson_reader) (res : ujson_val) : Z * ujson_val * ujson_reader :=
  if ujson_reader_err b then (1, res, b) else
  let '(e, res, b) := check_end b res ("}"%cc) in
  if negb (e =? 0) then (1, res, b) else
  let '(p, res, b) := pre_next b res in
  if negb (p =? 0) then (1, res, b) else (0, res, b).

Definition ujson_obj_first (b : ujson_reader) (res : ujson_val) : option (Z * ujson_val * ujson_reader) :=
  let '(e, res) := check_err b res in
  if (e : bool) then Some (0, res, b) else
  let '(f, b) := any_first b ("{"%cc) in
  if negb (f =? 0) then Some (0, res, b) else
  let '(e, res, b) := check_end b res ("}"%cc) in
  if negb (e =? 0) then Some (0, res, b) else obj_next b res.

Definition ujson_obj_next (b : ujson_reader) (res : ujson_val) : option (Z * ujson_val * ujson_reader) :=
  let '(e, res) := check_err b res in
  if (e : bool) then Some (0, res, b) else
  let '(p, res, b) := obj_pre_next b res in
  if negb (p =? 0) then Some (0, res, b) else obj_next b res.

Definition arr_next (b : ujson_reader) (res : ujson_val) : option (Z * ujson_val * ujson_reader) :=
  get_value b res.

Definition ujson_arr_first (b : ujson_reader) (res : ujson_val) : option (Z * ujson_val * ujson_reader) :=
  let '(e, res) := check_err b res in
  if (e : bool) then Some (0, res, b) else
  let '(f, b) := any_first b ("["%cc) in
  if negb (f =? 0) then Some (0, res, b) else
  let '(e, res, b) := check_end b res ("]"%cc) in
  if negb (e =? 0) then Some (0, res, b) else arr_next b res.

Definition ujson_arr_next (b : ujson_reader) (res : ujson_val) : option (Z * ujson_val * ujson_reader) :=
  let '(e, res) := check_err b res in
  if (e : bool) then Some (0, res, b) else
  let '(e, res, b) := check_end b res ("]"%cc) in
  if negb (e =? 0) then Some (0, res, b) else
  let '(p, res, b) := pre_next b res in
  if negb (p =? 0) then Some (0, res, b) else arr_next b res.

(** The two loop macros, by the container. *)
Inductive container := InObj | InArr.

Definition first_of (k : container) : ujson_reader → ujson_val → option (Z * ujson_val * ujson_reader) :=
  match k with InObj => ujson_obj_first | InArr => ujson_arr_first end.
Definition next_of (k : container) : ujson_reader → ujson_val → option (Z * ujson_val * ujson_reader) :=
  match k with InObj => ujson_obj_next | InArr => ujson_arr_next end.

(** [ujson_obj_skip] and [ujson_arr_skip]: the loop over the container [k],
    whose body skips nested containers. *)
Fixpoint skip_loop (fuel : nat) (k : container) (res : ujson_val) (b : ujson_reader)
    : option (Z * ujson_reader) :=
  match fuel with
  | O => None
  | S fuel =>
      if negb (ujson_val_valid res) then Some (0, b) else
      let skip k' := '(_, res', b) ← first_of k' b val_zero; skip_loop fuel k' res' b in
      '(r, b) ← match type res with
               | UJSON_OBJ => skip InObj
               | UJSON_ARR => skip InArr
               | _ => Some (0, b)
               end;
      if negb (r =? 0) then Some (1, b) else
      '(_, res, b) ← next_of k b res;
      skip_loop fuel k res b
  end.

(** The depth of the calls and the number of rounds are bounded by the
    bytes that are left. *)
Definition skip_fuel (b : ujson_reader) : nat := (length (json b) - off b) + 3.

Definition ujson_skip (k : container) (b : ujson_reader) : option (Z * ujson_reader) :=
  '(_, res, b') ← first_of k b val_zero; skip_loop (skip_fuel b) k res b'.

Definition ujson_obj_skip (b : ujson_reader) : option (Z * ujson_reader) := ujson_skip InObj b.
Definition ujson_arr_skip (b : ujson_reader) : option (Z * ujson_reader) := ujson_skip InArr b.

(** ** Lookup of keys *)

(** [while (r - l > 1)]: [inl] is an early return; [mid] is [None] before
    the first round. *)
Fixpoint lookup_loop (fuel : nat) (arr : list (list Z)) (key : list Z) (l r : nat) (mid : option nat)
    : option (nat + nat * nat * option nat) :=
  if (r - l <=? 1)%nat then Some (inr (l, r, mid)) else
  match fuel with
  | O => None
  | S fuel =>
      let m := ((l + r) / 2)%nat in
      e ← arr !! m;
      let ret := strcmp e key in
      if ret =? 0 then Some (inl m)
      else if ret <? 0 then lookup_loop fuel arr key m r (Some m)
      else lookup_loop fuel arr key l m (Some m)
  end.

(** [Some None] is the return of (size_t)-1. *)
Definition ujson_lookup (arr : list (list Z)) (key : list Z) : option (option nat) :=
  if decide (length arr = 0%nat) then Some None else
  x ← lookup_loop (length arr) arr key 0 (length arr - 1) None;
  match x with
  | inl m => Some (Some m)
  | inr (l, r, mid) =>
      hr ← ((if decide (mid = Some r) then Some false else e ← arr !! r; Some (strcmp e key =? 0)) : option bool);
      if (hr : bool) then Some (Some r) else
      hl ← ((if decide (mid = Some l) then Some false else e ← arr !! l; Some (strcmp e key =? 0)) : option bool);
      if (hl : bool) then Some (Some l) else Some None
  end.

Record ujson_obj_attr := mk_attr { attr_key : list Z; attr_type : ujson_type }.

Abbreviation ujson_obj := (list ujson_obj_attr).

Definition ujson_obj_lookup (obj : ujson_obj) (key : list Z) : option (option nat) :=
  ujson_lookup (attr_key <$> obj) key.

(** ** Saved states *)

Record ujson_reader_state := mk_rs { st_off : nat; st_depth : Z }.

Definition ujson_reader_state_save (b : ujson_reader) : ujson_reader_state := mk_rs (sub_off b) (depth b).

Definition ujson_reader_state_load (b : ujson_reader) (st : ujson_reader_state) : ujson_reader :=
  if ujson_reader_err b then b
  else set_depth (st_depth st) (set_sub_off (st_off st) (set_off (st_off st) b)).

Definition ujson_reader_reset (b : ujson_reader) : ujson_reader :=
  set_err [] (set_depth 0 (set_sub_off 0 (set_off 0 b))).

Definition ujson_reader_consumed (b : ujson_reader) : bool := (length (json b) <=? off b)%nat.

(** ** Errors and warnings *)

Definition printf_line (b : ujson_reader) (text : list Z) : ujson_reader :=
  add_line (snprintf (UJSON_ERR_MAX + 1) text) b.

(** The bytes at [json]: the text is followed by a terminator ("Pointer to a
    null terminated JSON string"), and what comes after it must not be read. *)
Definition mem (b : ujson_reader) : list Z := json b ++ [0].

(** At most [n] characters before the end of the line. *)
Fixpoint to_eol (n : nat) (s : list Z) : option (list Z) :=
  match n with
  | O => Some []
  | S n =>
      match s with
      | [] => None
      | c :: s => if (c =? 0) || (c =? 10) then Some [] else r ← to_eol n s; Some (c :: r)
      end
  end.

(** The line with its number, at most UJSON_ERR_MAX characters. *)
Definition json_line (m : list Z) (line_nr pos : nat) : option (list Z) :=
  let prefix := fmt_03zu line_nr ++ str ": " in
  s ← to_eol (UJSON_ERR_MAX - length prefix) (drop pos m);
  Some (prefix ++ s).

Definition printf_json_line (b : ujson_reader) (line_nr pos : nat) : option ujson_reader :=
  l ← json_line (mem b) line_nr pos; Some (add_line l b).

(** The arrow below column [count] of the line at [pos]. *)
Definition arrow_line (m : list Z) (pos count : nat) : list Z :=
  replicate 5 (" "%cc) ++ ((λ c, if c =? 9 then 9 else " "%cc) <$> take count (drop pos m)) ++ str "^".

Definition print_arrow (b : ujson_reader) (pos count : nat) : option ujson_reader :=
  if (length (mem b) <? pos + count)%nat then None else Some (add_line (arrow_line (mem b) pos count) b).

Definition ERR_LINES : nat := 10.

(** [while (cur_off < buf->len && buf->json[cur_off] != '\n') cur_off++;] *)
Fixpoint find_nl (s : list Z) : nat :=
  match s with
  | c :: s => if c =? 10 then 0 else S (find_nl s)
  | [] => 0
  end.

(** The loop of [print_snippet]: the ring of line starts, the number of
    lines and the column. *)
Fixpoint snippet_loop (fuel : nat) (b : ujson_reader) (lines : list nat) (cur_line cur_off last_off : nat)
    : option (list nat * nat * nat) :=
  match fuel with
  | O => None
  | S fuel =>
      let lines := <[(cur_line mod ERR_LINES)%nat := cur_off]> lines in
      let cur_line := S cur_line in
      let cur_off := (cur_off + find_nl (drop cur_off (json b)))%nat in
      if (off b <=? cur_off)%nat then Some (lines, cur_line, last_off)
      else snippet_loop fuel b lines cur_line (S cur_off) (off b - S cur_off)
  end.

(** The lines [cur_line - i + 1 .. cur_line], and the index of the last. *)
Fixpoint snippet_lines (i : nat) (lines : list nat) (cur_line idx : nat) (b : ujson_reader) : option (nat * ujson_reader) :=
  match i with
  | O => Some (idx, b)
  | S i' =>
      let idx := ((cur_line - i) mod ERR_LINES)%nat in
      pos ← lines !! idx;
      b ← printf_json_line b (cur_line - i + 1) pos;
      snippet_lines i' lines cur_line idx b
  end.

Definition print_snippet (b : ujson_reader) (ty : list Z) : option ujson_reader :=
  '(lines, cur_line, last_off) ← snippet_loop (S (length (json b))) b (replicate ERR_LINES 0%nat) 0 0 (off b);
  let b := printf_line b (ty ++ str " at line " ++ fmt_03zu cur_line) in
  let b := add_line [] b in
  '(idx, b) ← snippet_lines (Nat.min ERR_LINES cur_line) lines cur_line 0 b;
  pos ← lines !! idx;
  print_arrow b pos last_off.

Definition ujson_err_print (b : ujson_reader) : option ujson_reader :=
  if negb (err_print b) then Some b else
  b ← print_snippet b (str "Parse error"); Some (add_line (err b) b).

Definition ujson_warn (msg : list Z) (b : ujson_reader) : option ujson_reader :=
  if strict b then Some (set_err (snprintf UJSON_ERR_MAX msg) b) else
  if negb (err_print b) then Some b else
  b ← print_snippet b (str "Warning"); Some (printf_line b msg).

Definition ujson_reader_finish (b : ujson_reader) : option ujson_reader :=
  if ujson_reader_err b then ujson_err_print b
  else if negb (ujson_reader_consumed b) then
    b ← ujson_warn (str "Garbage after JSON string!") b;
    if ujson_reader_err b then ujson_err_print b else Some b
  else Some b.

(** ** Objects with attribute lists *)

Definition skip_obj_val (b : ujson_reader) : option (Z * ujson_reader) :=
  '(r, dummy, b) ← get_value b val_zero;
  if r =? 0 then Some (0, b) else
  match type dummy with
  | UJSON_OBJ => '(r, b) ← ujson_obj_skip b; Some (c_bool (r =? 0), b)
  | UJSON_ARR => '(r, b) ← ujson_arr_skip b; Some (c_bool (r =? 0), b)
  | _ => Some (1, b)
  end.

(** The attribute accepts the type. *)
Definition type_matches (attr res : ujson_type) : bool :=
  bool_decide (attr = UJSON_VOID) || bool_decide (attr = res) ||
  (bool_decide (attr = UJSON_FLOAT) && bool_decide (res = UJSON_INT)).

(** The [for (;;)] of [obj_next_filter]; every round takes a byte. *)
Fixpoint obj_next_filter (fuel : nat) (obj ign : option ujson_obj) (b : ujson_reader) (res : ujson_val)
    : option (Z * ujson_val * ujson_reader) :=
  match fuel with
  | O => None
  | S fuel =>
      '(r, i, b) ← copy_id_str (id res) b;
      let res := set_id i res in
      if negb (r =? 0) then Some (0, res, b) else
      ix ← match obj with Some o => ujson_obj_lookup o (c_str (id res)) | None => Some None end;
      let res := set_idx ix res in
      let continue res b :=
        let '(p, res, b) := obj_pre_next b res in
        if negb (p =? 0) then Some (0, res, b) else obj_next_filter fuel obj ign b res in
      match ix with
      | Some n =>
          '(r, res, b) ← get_value b res;
          if r =? 0 then Some (0, res, b) else
          attr ← (o ← obj; o !! n);
          if type_matches (attr_type attr) (type res) then Some (1, res, b) else
          b ← ujson_warn (str "Wrong '" ++ attr_key attr ++ str "' type expected " ++ ujson_type_name (attr_type attr)) b;
          continue res b
      | None =>
          '(r, b) ← skip_obj_val b;
          if r =? 0 then Some (0, res, b) else
          b ← match ign with
              | Some g =>
                  k ← ujson_obj_lookup g (c_str (id res));
                  match k with
                  | None => ujson_warn (str "Unexpected key '" ++ c_str (id res) ++ str "'") b
                  | Some _ => Some b
                  end
              | None => Some b
              end;
          continue res b
      end
  end.

Definition filter_fuel (b : ujson_reader) : nat := S (length (json b)).

Definition ujson_obj_first_filter (obj ign : option ujson_obj) (b : ujson_reader) (res : ujson_val)
    : option (Z * ujson_val * ujson_reader) :=
  let '(e, res) := check_err b res in
  if (e : bool) then Some (0, res, b) else
  let '(f, b) := any_first b ("{"%cc) in
  if negb (f =? 0) then Some (0, res, b) else
  let '(e, res, b) := check_end b res ("}"%cc) in
  if negb (e =? 0) then Some (0, res, b) else obj_next_filter (filter_fuel b) obj ign b res.

Definition ujson_obj_next_filter (obj ign : option ujson_obj) (b : ujson_reader) (res : ujson_val)
    : option (Z * ujson_val * ujson_reader) :=
  let '(e, res) := check_err b res in
  if (e : bool) then Some (0, res, b) else
  let '(p, res, b) := obj_pre_next b res in
  if negb (p =? 0) then Some (0, res, b) else obj_next_filter (filter_fuel b) obj ign b res.
