(* ===== verification/UjsonReaderFacts.v ===== *)
(** * The JSON reader stays in its buffers and ends

    Every function of the reader only moves forward in the buffer and never
    clears an error.  On this rest the theorems: all functions are defined
    on any bytes and keep the string and the key within their arrays, skipping a
    container ends, the binary search finds exactly the keys that are there,
    and an error is reported at its line and column. *)

From S2P Require Import Prelude UjsonUtf UjsonReader.
Open Scope Z_scope.

(** ** Moving forward *)

(** What every function does to the reader it gets. *)
Record adv (b b' : ujson_reader) : Prop := mk_adv {
  adv_json : json b' = json b;
  adv_max : max_depth b' = max_depth b;
  adv_strict : strict b' = strict b;
  adv_print : err_print b' = err_print b;
  adv_off : (off b ≤ off b')%nat;
  adv_len : (off b ≤ length (json b) → off b' ≤ length (json b))%nat;
  adv_err : err b ≠ [] → err b' ≠ [];
  adv_sub : (off b ≤ length (json b) → sub_off b ≤ length (json b) → sub_off b' ≤ length (json b))%nat;
}.

#[export] Instance adv_refl : Reflexive adv.
Proof. intros b. by split. Qed.

#[export] Instance adv_trans : Transitive adv.
Proof.
  intros b1 b2 b3 [J1 M1 S1 P1 O1 L1 E1 U1] [J2 M2 S2 P2 O2 L2 E2 U2].
  rewrite J1 in L2, U2. split; try congruence; [lia|tauto..].
Qed.

Create HintDb ujson.
#[export] Hint Resolve adv_refl : ujson.

Lemma adv_ujson_err b m : m ≠ [] → adv b (ujson_err m b) ∧ err (ujson_err m b) ≠ [].
Proof. intros Hm. assert (snprintf UJSON_ERR_MAX m ≠ []) by (by destruct m). by split; [split|]. Qed.

Lemma adv_set_off b n : (off b ≤ n)%nat → (off b ≤ length (json b) → n ≤ length (json b))%nat → adv b (set_off n b).
Proof. intros. by split. Qed.

Lemma adv_set_depth b d : adv b (set_depth d b).
Proof. by split. Qed.

Lemma adv_set_sub b : adv b (set_sub_off (off b) b).
Proof. by split. Qed.

Lemma adv_add_line b l : adv b (add_line l b).
Proof. by split. Qed.
#[export] Hint Resolve adv_set_depth adv_set_sub adv_add_line : ujson.

Lemma buf_empty_false b : buf_empty b = false ↔ (off b < length (json b))%nat.
Proof. unfold buf_empty. by rewrite Nat.leb_gt. Qed.

Lemma buf_empty_lookup b : buf_empty b = true ↔ json b !! off b = None.
Proof. unfold buf_empty. by rewrite Nat.leb_le, lookup_ge_None. Qed.

Lemma eatws_loop_adv n b : adv b (eatws_loop n b).
Proof.
  revert b. induction n as [|n IH]; intros b; simpl; [done|].
  destruct (json b !! off b) as [c|] eqn:Hc; [|done]. destruct (is_ws c); [|done].
  etransitivity; [|apply IH]. apply lookup_lt_Some in Hc. apply adv_set_off; lia.
Qed.

Lemma eatws_adv b e b' : eatws b = (e, b') → adv b b' ∧ e = buf_empty b' ∧ depth b' = depth b ∧ err b' = err b.
Proof.
  unfold eatws. intros [= <- <-]. split_and!; [apply eatws_loop_adv|done| |]; generalize (length (json b) - off b)%nat;
    intros n; revert b; induction n as [|n IH]; intros b; simpl; try done;
    destruct (json b !! off b); try done; destruct (is_ws _); try done; by rewrite IH.
Qed.

Lemma getb_adv b : adv b (snd (getb b)).
Proof.
  unfold getb. destruct (json b !! off b) eqn:E; [|done]. apply lookup_lt_Some in E. simpl. apply adv_set_off; lia.
Qed.

Lemma getb_fields b : depth (snd (getb b)) = depth b ∧ err (snd (getb b)) = err b.
Proof. unfold getb. by destruct (json b !! off b). Qed.

(** A byte that is not 0 can be seen only before the end. *)
Lemma peekb_off_lt b : peekb b ≠ 0 → (off b < length (json b))%nat.
Proof. unfold peekb. destruct (json b !! off b) eqn:E; [|done]. intros _. by eapply lookup_lt_Some. Qed.

Lemma getb_off b : (off b < length (json b))%nat → off (snd (getb b)) = S (off b).
Proof. intros H. unfold getb. by destruct (lookup_lt_is_Some_2 _ _ H) as [c ->]. Qed.

Lemma eatb_adv b c q b' :
  eatb b c = (q, b') → adv b b' ∧ depth b' = depth b ∧ err b' = err b ∧
    (q = true → c ≠ 0 → (off b < off b')%nat) ∧ (q = false → b' = b).
Proof.
  unfold eatb. destruct (Z.eqb_spec (peekb b) c) as [E|E]; intros [= <- <-].
  - split_and!; [apply getb_adv|apply getb_fields|apply getb_fields| |done].
    intros _ Hc. rewrite getb_off; [lia|]. apply peekb_off_lt. congruence.
  - by split_and!.
Qed.

Lemma eatb2_adv b c1 c2 q b' : eatb2 b c1 c2 = (q, b') → adv b b'.
Proof. unfold eatb2. destruct (_ && _); intros [= <- <-]; [done|apply getb_adv]. Qed.

Lemma eatstr_adv b s q b' : eatstr b s = (q, b') → adv b b' ∧ depth b' = depth b ∧ (err b' = err b).
Proof.
  revert b. induction s as [|c s IH]; intros b; simpl; [by intros [= <- <-]|].
  destruct (eatb b c) as [ok b1] eqn:E. apply eatb_adv in E as (A & D & R & _).
  destruct ok; [|by intros [= <- <-]]. intros (A2 & D2 & R2)%IH. split_and!; [by etransitivity|congruence..].
Qed.

Lemma ucode_cp_adv n r b v b' : ucode_cp_loop n r b = (v, b') → adv b b' ∧ depth b' = depth b.
Proof.
  revert r b. induction n as [|n IH]; intros r b; simpl; [by intros [= <- <-]|].
  pose proof (getb_adv b) as A. destruct (getb_fields b) as [D _]. destruct (getb b) as [c b1]. simpl in A, D.
  destruct (hex2val c <? 0).
  - intros [= <- <-]. split; [|done]. etransitivity; [exact A|]. by apply adv_ujson_err.
  - intros [A2 D2]%IH. split; [by etransitivity|congruence].
Qed.

Lemma ucode_esc_adv h p l b v bs b' :
  parse_ucode_esc h p l b = (v, bs, b') →
  adv b b' ∧ depth b' = depth b ∧ (v ≠ 0 → h = true → (p + length bs + 1 < l)%nat) ∧ (h = false → bs = []).
Proof.
  unfold parse_ucode_esc. destruct (parse_ucode_cp b) as [u b1] eqn:E. apply ucode_cp_adv in E as [A D].
  destruct (u <? 0); [by intros [= <- <- <-]|]. destruct h; cbn [negb].
  2:{ intros [= <- <- <-]. done. }
  destruct (Nat.leb_spec (l - p) (ujson_utf8_bytes u + 1)) as [Hl|Hl]; intros [= <- <- <-].
  - split_and!; try done. etransitivity; [exact A|]. by apply adv_ujson_err.
  - split_and!; try done. intros _ _. rewrite length_to_utf8. lia.
Qed.

(** The string fits with its terminator: what copy_str keeps. *)
Definition fits_buf (h : bool) (len : nat) (acc : list Z) : Prop := if h then (length acc < len)%nat else acc = [].

Lemma put_char_spec h len acc c b :
  fits_buf h len acc →
  match put_char h len acc c b with
  | inl b' => adv b b' ∧ depth b' = depth b ∧ err b' ≠ []
  | inr acc' => fits_buf h len acc'
  end.
Proof.
  intros Hf. unfold put_char. destruct h; cbn [andb]; [|done].
  destruct (c =? 0); cbn [negb]; [done|]. destruct (Nat.leb_spec len (length acc + 1)) as [L|L].
  - split_and!; [by apply adv_ujson_err|done|by apply adv_ujson_err].
  - simpl. rewrite length_app. simpl. lia.
Qed.

Lemma copy_str_loop_spec fuel h len esc acc b :
  fits_buf h len acc → (length (json b) < fuel + off b)%nat → (off b ≤ length (json b))%nat →
  ∃ r acc' b', copy_str_loop fuel h len esc acc b = Some (r, acc', b') ∧ adv b b' ∧ depth b' = depth b ∧
    fits_buf h len acc'.
Proof.
  revert esc acc b. induction fuel as [|fuel IH]; intros esc acc b Hf Hfuel Hoff; [lia|]. cbn [copy_str_loop].
  destruct (buf_empty b) eqn:Em.
  { eexists _, _, _. split_and!; [done|by apply adv_ujson_err|done|done]. }
  apply buf_empty_false in Em.
  destruct (if esc then (false, b) else eatb b cDQ) as [q b1] eqn:Eq.
  assert (adv b b1 ∧ depth b1 = depth b ∧ (q = false → b1 = b)) as (A1 & D1 & Q1).
  { destruct esc; [by injection Eq as <- <-|]. apply eatb_adv in Eq as (? & ? & _ & _ & ?). done. }
  destruct q.
  { assert (h && (len <=? length acc)%nat = false) as ->.
    { destruct h; [|done]. cbn [andb]. apply Nat.leb_gt. exact Hf. }
    eexists _, _, _. split_and!; done. }
  rewrite (Q1 eq_refl). clear Eq A1 D1 Q1 b1.
  pose proof (getb_adv b) as A2. destruct (getb_fields b) as [D2 _]. pose proof (getb_off b Em) as O2.
  destruct (getb b) as [c b2]. cbn [snd] in *.
  assert (length (json b2) < fuel + off b2)%nat as Hf2 by (rewrite (adv_json _ _ A2); lia).
  assert (off b2 ≤ length (json b2))%nat as Ho2 by (rewrite (adv_json _ _ A2); lia).
  assert (Hgo : ∀ esc acc b3, fits_buf h len acc → adv b2 b3 → depth b3 = depth b →
    ∃ r acc' b', copy_str_loop fuel h len esc acc b3 = Some (r, acc', b') ∧ adv b b' ∧ depth b' = depth b ∧ fits_buf h len acc').
  { intros esc' acc' b3 Ha A3 D3. destruct (IH esc' acc' b3) as (r & a & b' & -> & A' & D' & F').
    - done.
    - rewrite (adv_json _ _ A3). pose proof (adv_off _ _ A3). lia.
    - rewrite (adv_json _ _ A3). by apply A3.
    - eexists _, _, _. split_and!; [done| |congruence|done]. etransitivity; [exact A2|]. by etransitivity. }
  assert (Herr : ∀ m, m ≠ [] → adv b (ujson_err m b2)) by (intros m Hm; etransitivity; [exact A2|by apply adv_ujson_err]).
  destruct (c <? 32).
  { destruct (peekb b2 =? 0); eexists _, _, _; (split_and!; [done|by apply Herr|done|done]). }
  destruct (negb esc && (c =? "\"%cc)); [by apply Hgo|].
  assert (Hput : ∀ c, ∃ r acc' b', match put_char h len acc c b2 with
      | inl b => Some (1, acc, b) | inr acc => copy_str_loop fuel h len false acc b2 end = Some (r, acc', b') ∧
      adv b b' ∧ depth b' = depth b ∧ fits_buf h len acc').
  { intros c'. pose proof (put_char_spec h len acc c' b2 Hf) as Hp. destruct (put_char h len acc c' b2) as [b3|acc3].
    - destruct Hp as (A3 & D3 & _). eexists _, _, _. split_and!; [done|by etransitivity|congruence|done].
    - by apply Hgo. }
  destruct esc; [|apply Hput]. destruct (c =? "u"%cc).
  - destruct (parse_ucode_esc h (length acc) len b2) as [[v bs] b3] eqn:E.
    apply ucode_esc_adv in E as (A3 & D3 & Hb & Hn). destruct (Z.eqb_spec v 0) as [->|Hv].
    + eexists _, _, _. split_and!; [done|by etransitivity|congruence|done].
    + apply Hgo; [|done|congruence]. unfold fits_buf in *. destruct h; [rewrite length_app; specialize (Hb Hv eq_refl); lia|].
      by rewrite Hf, (Hn eq_refl).
  - destruct (unescape c) as [c'|]; [apply Hput|].
    eexists _, _, _. split_and!; [done|by apply Herr|done|done].
Qed.

Lemma copy_str_spec h len b :
  (h = true → 0 < len)%nat → (off b ≤ length (json b))%nat →
  ∃ r s b', copy_str h len b = Some (r, s, b') ∧ adv b b' ∧ depth b' = depth b ∧ fits_buf h len s.
Proof.
  intros Hl Hoff. unfold copy_str. destruct (eatb b cDQ) as [q b1] eqn:E. apply eatb_adv in E as (A & D & _).
  cbn [snd]. destruct (copy_str_loop_spec (S (length (json b1) - off b1)) h len false [] b1) as (r & s & b' & -> & A' & D' & F).
  - destruct h; simpl; [by apply Hl|done].
  - lia.
  - rewrite (adv_json _ _ A). by apply A.
  - eexists _, _, _. split_and!; [done|by etransitivity|congruence|done].
Qed.

Lemma copy_id_loop_spec fuel i pos b :
  length i = UJSON_ID_MAX → (pos < UJSON_ID_MAX)%nat →
  (length (json b) < fuel + off b)%nat → (off b ≤ length (json b))%nat →
  ∃ r i' b', copy_id_loop fuel i pos b = Some (r, i', b') ∧ adv b b' ∧ depth b' = depth b ∧
    length i' = UJSON_ID_MAX ∧ (is_Some r → err b' ≠ []).
Proof.
  revert i pos b. induction fuel as [|fuel IH]; intros i pos b Hi Hp Hfuel Hoff; [lia|]. cbn [copy_id_loop].
  destruct (buf_empty b) eqn:Em.
  { eexists _, _, _. split_and!; [done|by apply adv_ujson_err|done|done|]. intros _. by apply adv_ujson_err. }
  apply buf_empty_false in Em. destruct (eatb b cDQ) as [q b1] eqn:Eq.
  apply eatb_adv in Eq as (A1 & D1 & R1 & _ & Q1). destruct q.
  { destruct (Nat.ltb_spec pos (length i)); [|lia]. eexists _, _, _.
    split_and!; [done|done|done|by rewrite length_insert|by intros [? ?]]. }
  rewrite (Q1 eq_refl). destruct (Nat.leb_spec (UJSON_ID_MAX - 1) pos) as [L|L].
  { eexists _, _, _. split_and!; [done|by apply adv_ujson_err|done|done|]. intros _. by apply adv_ujson_err. }
  pose proof (getb_adv b) as A2. destruct (getb_fields b) as [D2 _]. pose proof (getb_off b Em) as O2.
  destruct (getb b) as [c b2]. cbn [snd] in *. destruct (Nat.ltb_spec pos (length i)); [|lia].
  destruct (IH (<[pos:=c]> i) (S pos) b2) as (r & i' & b' & -> & A' & D' & L' & E').
  - by rewrite length_insert.
  - lia.
  - rewrite (adv_json _ _ A2). lia.
  - rewrite (adv_json _ _ A2). lia.
  - eexists _, _, _. split_and!; [done|by etransitivity|congruence|done|done].
Qed.

Lemma copy_id_str_spec i b :
  length i = UJSON_ID_MAX → (off b ≤ length (json b))%nat →
  ∃ r i' b', copy_id_str i b = Some (r, i', b') ∧ adv b b' ∧ depth b' = depth b ∧
    length i' = UJSON_ID_MAX ∧ (r ≠ 0 → err b' ≠ []).
Proof.
  intros Hi Hoff. unfold copy_id_str.
  destruct (eatws b) as [e b1] eqn:E1. apply eatws_adv in E1 as (A1 & _ & D1 & _).
  assert (Hend : ∀ m (b2 : ujson_reader) (i' : list Z), m ≠ [] → adv b b2 → depth b2 = depth b → length i' = UJSON_ID_MAX →
    ∃ r i'' b', Some (1, i', ujson_err m b2) = Some (r, i'', b') ∧ adv b b' ∧ depth b' = depth b ∧
    length i'' = UJSON_ID_MAX ∧ (r ≠ 0 → err b' ≠ [])).
  { intros m b2 i' Hm A D Hi'. eexists _, _, _. split_and!; [done| |done|done|intros _; by apply adv_ujson_err].
    etransitivity; [exact A|by apply adv_ujson_err]. }
  destruct e; [by apply Hend|]. destruct (eatb b1 cDQ) as [q b2] eqn:E2. apply eatb_adv in E2 as (A2 & D2 & _ & O2 & Q2).
  assert (adv b b2) as A2' by (by etransitivity). assert (depth b2 = depth b) as D2' by congruence.
  destruct q; cbn [negb]; [|by apply Hend].
  destruct (copy_id_loop_spec (S (length (json b2) - off b2)) i 0 b2) as (r & i' & b3 & -> & A3 & D3 & L3 & E3).
  { done. } { unfold UJSON_ID_MAX. lia. } { lia. } { rewrite (adv_json _ _ A2'). by apply A2'. }
  bind_step. assert (adv b b3) as A3' by (by etransitivity).
  destruct r as [r|]; [eexists _, _, _; split_and!; [done|done|congruence|done|]; intros _; by apply E3|].
  destruct (eatws b3) as [e b4] eqn:E4. apply eatws_adv in E4 as (A4 & _ & D4 & _).
  assert (adv b b4) as A4' by (by etransitivity). destruct e; [apply Hend; [done|done|congruence|done]|].
  destruct (eatb b4 (":"%cc)) as [q b5] eqn:E5. apply eatb_adv in E5 as (A5 & D5 & _ & _ & _).
  assert (adv b b5) as A5' by (by etransitivity). destruct q; cbn [negb]; [|apply Hend; [done|done|congruence|done]].
  eexists _, _, _. split_and!; [done|done|congruence|done|done].
Qed.

(** ** Numbers and constants *)

Lemma digits_loop_adv n v b r b' : digits_loop n v b = (r, b') → adv b b' ∧ depth b' = depth b ∧ err b' = err b.
Proof.
  revert v b. induction n as [|n IH]; intros v b; simpl; [by intros [= <- <-]|].
  destruct (is_digit (peekb b)); [|by intros [= <- <-]].
  pose proof (getb_adv b) as A. destruct (getb_fields b) as [D R]. destruct (getb b) as [c b1]. simpl in *.
  intros (A2 & D2 & R2)%IH. split_and!; [by etransitivity|congruence..].
Qed.

Lemma skip_digits_adv n b : adv b (skip_digits n b) ∧ depth (skip_digits n b) = depth b.
Proof.
  revert b. induction n as [|n IH]; intros b; simpl; [done|]. destruct (is_digit (peekb b)); [|done].
  destruct (IH (snd (getb b))) as [A D]. split; [etransitivity; [apply getb_adv|done]|].
  rewrite D. apply getb_fields.
Qed.

Lemma eat_digits_adv b r b' : eat_digits b = (r, b') → adv b b' ∧ depth b' = depth b ∧ (r ≠ 0 → err b' ≠ []).
Proof.
  unfold eat_digits. destruct (negb _); intros [= <- <-].
  - split_and!; [by apply adv_ujson_err|done|intros _; by apply adv_ujson_err].
  - by destruct (skip_digits_adv (length (json b) - off b) b).
Qed.

(** A function that reads a value: its reader and value afterwards. *)
Definition val_step (b : ujson_reader) (res : ujson_val) (r : Z) (res' : ujson_val) (b' : ujson_reader) : Prop :=
  adv b b' ∧ depth b' = depth b ∧ (r ≠ 0 → err b' ≠ []) ∧
  type res' = type res ∧ id res' = id res ∧ have_buf res' = have_buf res ∧ buf_size res' = buf_size res ∧ idx res' = idx res ∧
  (∀ s, val res' = VStr s → val res = VStr s).

Lemma get_int_step b res r res' b' : get_int b res = (r, res', b') → val_step b res r res' b'.
Proof.
  unfold get_int. destruct (eatb b ("-"%cc)) as [neg b1] eqn:E. apply eatb_adv in E as (A & D & _).
  assert (Hend : ∀ m, m ≠ [] → val_step b res 1 res (ujson_err m b1)).
  { intros m Hm. split_and!; [etransitivity; [exact A|by apply adv_ujson_err]|done|intros _; by apply adv_ujson_err|done..]. }
  destruct (neg && _); [intros [= <- <- <-]; by apply Hend|].
  destruct (_ && _); [intros [= <- <- <-]; by apply Hend|].
  destruct (digits_loop _ 0 b1) as [v b2] eqn:E2. apply digits_loop_adv in E2 as (A2 & D2 & _).
  intros [= <- <- <-]. split_and!; [by etransitivity|congruence|done..].
Qed.

Lemma get_exp_adv b r b' : get_exp b = (r, b') → adv b b' ∧ depth b' = depth b ∧ (r ≠ 0 → err b' ≠ []).
Proof.
  unfold get_exp. destruct (eatb2 b _ _) as [e b1] eqn:E.
  assert (depth b1 = depth b) as D.
  { unfold eatb2 in E. destruct (_ && _); injection E as <- <-; [done|apply getb_fields]. }
  apply eatb2_adv in E. intros (A2 & D2 & R2)%eat_digits_adv. split_and!; [by etransitivity|congruence|done].
Qed.

Lemma get_float_step b res r res' b' : get_float b res = (r, res', b') → val_step b res r res' b'.
Proof.
  unfold get_float. destruct (eatb b ("-"%cc)) as [neg b1] eqn:E. apply eatb_adv in E as (A & D & _).
  destruct (_ && _).
  { intros [= <- <- <-]. split_and!; [etransitivity; [exact A|by apply adv_ujson_err]|done|intros _; by apply adv_ujson_err|done..]. }
  destruct (eat_digits b1) as [r2 b2] eqn:E2. apply eat_digits_adv in E2 as (A2 & D2 & R2).
  assert (adv b b2) as A2' by (by etransitivity).
  destruct (Z.eqb_spec r2 0) as [->|H2]; cbn [negb].
  2:{ intros [= <- <- <-]. split_and!; [done|congruence|intros _; by apply R2|done..]. }
  pose proof (getb_adv b2) as A3. destruct (getb_fields b2) as [D3 _]. destruct (getb b2) as [c b3]. simpl in A3, D3.
  assert (adv b b3) as A3' by (by etransitivity).
  set (tail := if c =? "."%cc then _ else _). destruct tail as [r4 b4] eqn:E4.
  assert (adv b3 b4 ∧ depth b4 = depth b3 ∧ (r4 ≠ 0 → err b4 ≠ [])) as (A4 & D4 & R4).
  { unfold tail in E4. destruct (c =? "."%cc).
    - destruct (eat_digits b3) as [r5 b5] eqn:E5. apply eat_digits_adv in E5 as (A5 & D5 & R5).
      destruct (Z.eqb_spec r5 0) as [->|H5]; cbn [negb] in E4; [|injection E4 as <- <-; split_and!; [done|done|intros _; by apply R5]].
      destruct (eatb2 b5 _ _) as [e b6] eqn:E6.
      assert (depth b6 = depth b5) as D6.
      { unfold eatb2 in E6. destruct (_ && _); injection E6 as <- <-; [done|apply getb_fields]. }
      apply eatb2_adv in E6. destruct e; cbn [negb] in E4; [|injection E4 as <- <-; split_and!; [by etransitivity|congruence|done]].
      apply get_exp_adv in E4 as (A7 & D7 & R7). split_and!; [etransitivity; [exact A5|by etransitivity]|congruence|done].
    - destruct (_ || _); [by apply get_exp_adv in E4|]. by injection E4 as <- <-. }
  destruct (Z.eqb_spec r4 0) as [->|H4]; cbn [negb]; intros [= <- <- <-].
  - split_and!; [by etransitivity|congruence|done..].
  - split_and!; [by etransitivity|congruence|intros _; by apply R4|done..].
Qed.

Lemma eatstr_step b s m (res res0 : ujson_val) r res' b' :
  m ≠ [] → type res = type res0 → id res = id res0 → have_buf res = have_buf res0 →
  buf_size res = buf_size res0 → idx res = idx res0 → (∀ s, val res = VStr s → val res0 = VStr s) →
  (let '(ok, b) := eatstr b s in if negb ok then (1, res0, ujson_err m b) else (0, res, b)) = (r, res', b') →
  val_step b res0 r res' b'.
Proof.
  intros Hm Ht Hi Hh Hb Hx Hs. destruct (eatstr b s) as [ok b1] eqn:E. apply eatstr_adv in E as (A & D & _).
  destruct ok; intros [= <- <- <-].
  - by split_and!.
  - split_and!; [etransitivity; [exact A|by apply adv_ujson_err]|done|intros _; by apply adv_ujson_err|done..].
Qed.

Lemma get_bool_step b res r res' b' : get_bool b res = (r, res', b') → val_step b res r res' b'.
Proof.
  unfold get_bool. destruct (peekb b =? "f"%cc); [by apply eatstr_step|].
  destruct (peekb b =? "t"%cc); [by apply eatstr_step|]. intros [= <- <- <-]. by split_and!.
Qed.

Lemma get_null_step b r b' : get_null b = (r, b') → adv b b' ∧ depth b' = depth b ∧ (r ≠ 0 → err b' ≠ []).
Proof.
  unfold get_null. destruct (eatstr b (str "null")) as [ok b1] eqn:E. apply eatstr_adv in E as (A & D & _).
  destruct ok; intros [= <- <-]; [done|].
  split_and!; [etransitivity; [exact A|by apply adv_ujson_err]|done|intros _; by apply adv_ujson_err].
Qed.

Lemma num_type_loop_not_void fuel b o :
  (length (json b) ≤ off b + o + fuel)%nat →
  num_type_loop fuel b o = UJSON_INT ∨ num_type_loop fuel b o = UJSON_FLOAT.
Proof.
  revert o. induction fuel as [|fuel IH]; intros o Hf; simpl.
  - unfold peekb_off. rewrite lookup_ge_None_2 by lia. by left.
  - destruct (_ || _); [by left|]. destruct (_ || _); [by right|]. apply IH. lia.
Qed.

Lemma next_type_adv b t b' :
  ujson_next_type b = (t, b') → adv b b' ∧ depth b' = depth b ∧ (t = UJSON_VOID → err b' ≠ []).
Proof.
  unfold ujson_next_type. destruct (eatws b) as [e b1] eqn:E. apply eatws_adv in E as (A & _ & D & _).
  assert (Hend : ∀ m, m ≠ [] → adv b (ujson_err m b1) ∧ depth (ujson_err m b1) = depth b ∧ (UJSON_VOID = UJSON_VOID → err (ujson_err m b1) ≠ [])).
  { intros m Hm. split_and!; [etransitivity; [exact A|by apply adv_ujson_err]|done|intros _; by apply adv_ujson_err]. }
  destruct e; [intros [= <- <-]; by apply Hend|].
  assert (Hgo : ∀ t, t ≠ UJSON_VOID → adv b b1 ∧ depth b1 = depth b ∧ (t = UJSON_VOID → err b1 ≠ [])) by done.
  destruct (_ =? "{"%cc); [intros [= <- <-]; by apply Hgo|].
  destruct (_ =? "["%cc); [intros [= <- <-]; by apply Hgo|].
  destruct (_ =? cDQ); [intros [= <- <-]; by apply Hgo|].
  destruct (_ || _).
  { intros [= <- <-]. apply Hgo. unfold next_num_type.
    destruct (num_type_loop_not_void (length (json b1) - off b1) b1 0) as [-> | ->]; [lia|done|done]. }
  destruct (_ || _); [intros [= <- <-]; by apply Hgo|].
  destruct (_ =? "n"%cc); [intros [= <- <-]; by apply Hgo|].
  intros [= <- <-]. by apply Hend.
Qed.

(** A value the functions may write to: a string buffer is not empty, the
    key has its size. *)
Definition val_ok (v : ujson_val) : Prop :=
  (have_buf v = true → 0 < buf_size v)%nat ∧ length (id v) = UJSON_ID_MAX.

(** The string of a value fits its buffer, also while the value has another
    type and the string is that of an earlier one. *)
Definition str_ok (v : ujson_val) : Prop :=
  match val v with VStr s => fits_buf (have_buf v) (buf_size v) s | _ => True end.

Definition same_buf (v v' : ujson_val) : Prop := have_buf v' = have_buf v ∧ buf_size v' = buf_size v.

Lemma get_value_spec b res :
  val_ok res → str_ok res → (off b ≤ length (json b))%nat →
  ∃ r res' b', get_value b res = Some (r, res', b') ∧ adv b b' ∧ depth b' = depth b ∧
    id res' = id res ∧ idx res' = idx res ∧ same_buf res res' ∧ str_ok res' ∧ (r = 0 → type res' = UJSON_VOID).
Proof.
  intros [Hb Hi] Hs Hoff. unfold get_value. destruct (ujson_next_type b) as [t b1] eqn:E.
  apply next_type_adv in E as (A & D & _).
  assert (Hfin : ∀ res r res2 b2, val_step b1 (set_type t res) r res2 b2 → str_ok res →
    ∃ r' res' b', (if negb (r =? 0) then Some (0, set_type UJSON_VOID res2, b2) else Some (1, res2, b2)) = Some (r', res', b') ∧
      adv b b' ∧ depth b' = depth b ∧ id res' = id res ∧ idx res' = idx res ∧ same_buf res res' ∧ str_ok res' ∧ (r' = 0 → type res' = UJSON_VOID)).
  { intros res0 r res2 b2 (A2 & D2 & _ & T2 & I2 & H2 & B2 & X2 & U2) Ht.
    assert (str_ok res2) as Hs2.
    { unfold str_ok in *. rewrite H2, B2. destruct (val res2) eqn:Eu; try done. pose proof (U2 _ eq_refl) as U. cbn in U. by rewrite U in Ht. }
    destruct (Z.eqb_spec r 0) as [->|Hr]; cbn [negb]; eexists _, _, _;
      (split_and!; [done|by etransitivity|congruence|done|done|by split|exact Hs2|done]). }
  destruct t.
  - eexists _, _, _. split_and!; [done|done|done|done|done|by split|exact Hs|done].
  - destruct (get_int b1 (set_type UJSON_INT res)) as [[r res2] b2] eqn:E2. apply get_int_step in E2. by apply Hfin.
  - destruct (get_float b1 (set_type UJSON_FLOAT res)) as [[r res2] b2] eqn:E2. apply get_float_step in E2. by apply Hfin.
  - destruct (get_bool b1 (set_type UJSON_BOOL res)) as [[r res2] b2] eqn:E2. apply get_bool_step in E2. by apply Hfin.
  - destruct (get_null b1) as [r b2] eqn:E2. apply get_null_step in E2 as (A2 & D2 & R2).
    apply (Hfin res r (set_type UJSON_NULL res) b2); [|done]. by split_and!.
  - cbn [set_type have_buf buf_size].
    destruct (copy_str_spec (have_buf res) (buf_size res) b1 Hb) as (r & s & b2 & -> & A2 & D2 & F2).
    { rewrite (adv_json _ _ A). by apply A. }
    bind_step. destruct (Z.eqb_spec r 0) as [->|Hr]; cbn [negb]; eexists _, _, _;
      (split_and!; [done|by etransitivity|congruence|done|done|by split| |done]); [exact F2|exact Hs].
  - eexists _, _, _. split_and!; [done|etransitivity; [exact A|apply adv_set_sub]|done|done|done|by split|exact Hs|done].
  - eexists _, _, _. split_and!; [done|etransitivity; [exact A|apply adv_set_sub]|done|done|done|by split|exact Hs|done].
Qed.

(** ** Containers *)

(** A value keeps its invariant when its type is changed to VOID. *)
Lemma str_ok_void v : str_ok v → str_ok (set_type UJSON_VOID v).
Proof. done. Qed.

Lemma check_end_spec b res ch r res' b' :
  ch ≠ 0 → check_end b res ch = (r, res', b') →
  adv b b' ∧ (res' = res ∨ res' = set_type UJSON_VOID res) ∧
  (r ≠ 0 → err b' ≠ [] ∨ type res' = UJSON_VOID) ∧ (r = 0 → res' = res ∧ depth b' = depth b ∧ err b' = err b).
Proof.
  intros Hch. unfold check_end. destruct (eatws b) as [e b1] eqn:E. apply eatws_adv in E as (A & _ & D & R).
  destruct e.
  { intros [= <- <- <-]. split_and!; [etransitivity; [exact A|by apply adv_ujson_err]|by left| |done].
    intros _. left. by apply adv_ujson_err. }
  destruct (eatb b1 ch) as [c b2] eqn:E2. apply eatb_adv in E2 as (A2 & D2 & R2 & _ & Q2). destruct c.
  - destruct (eatws b2) as [e3 b3] eqn:E3. apply eatws_adv in E3 as (A3 & _ & _ & _).
    destruct (eatb b3 0) as [c4 b4] eqn:E4. apply eatb_adv in E4 as (A4 & _).
    intros [= <- <- <-]. split_and!; [|by right|by right|done].
    etransitivity; [exact A|]. etransitivity; [exact A2|]. etransitivity; [exact A3|]. etransitivity; [exact A4|apply adv_set_depth].
  - intros [= <- <- <-]. split_and!; [by etransitivity|by left|done|]. intros _. split_and!; [done|congruence..].
Qed.

Lemma pre_next_spec b res r res' b' :
  pre_next b res = (r, res', b') →
  adv b b' ∧ (r ≠ 0 → err b' ≠ [] ∧ res' = set_type UJSON_VOID res) ∧
  (r = 0 → (off b < off b')%nat ∧ res' = res ∧ depth b' = depth b ∧ err b' = err b).
Proof.
  unfold pre_next. destruct (eatb b (","%cc)) as [c b1] eqn:E. apply eatb_adv in E as (A & D & R & O & _).
  destruct c; cbn [negb].
  2:{ intros [= <- <- <-]. split_and!; [etransitivity; [exact A|by apply adv_ujson_err]| |done].
      intros _. split; [by apply adv_ujson_err|done]. }
  destruct (eatws b1) as [e b2] eqn:E2. apply eatws_adv in E2 as (A2 & _ & D2 & R2). destruct e; intros [= <- <- <-].
  - split_and!; [etransitivity; [exact A|etransitivity; [exact A2|by apply adv_ujson_err]]| |done].
    intros _. split; [by apply adv_ujson_err|done].
  - split_and!; [by etransitivity|done|]. intros _. split_and!; [|done|congruence..].
    pose proof (O eq_refl ltac:(done)). pose proof (adv_off _ _ A2). lia.
Qed.

Lemma any_first_spec b ch r b' :
  ch ≠ 0 → any_first b ch = (r, b') → adv b b' ∧ (r ≠ 0 → err b' ≠ []) ∧ (r = 0 → (off b < off b')%nat ∧ err b' = err b).
Proof.
  intros Hch. unfold any_first. destruct (eatws b) as [e b1] eqn:E. apply eatws_adv in E as (A & _ & D & R).
  destruct e.
  { intros [= <- <-]. split_and!; [etransitivity; [exact A|by apply adv_ujson_err]|intros _; by apply adv_ujson_err|done]. }
  destruct (eatb b1 ch) as [c b2] eqn:E2. apply eatb_adv in E2 as (A2 & D2 & R2 & O2 & Q2). destruct c; cbn [negb].
  2:{ intros [= <- <-]. split_and!; [etransitivity; [exact A|etransitivity; [exact A2|by apply adv_ujson_err]]|intros _; by apply adv_ujson_err|done]. }
  assert (adv b (set_depth (wrapu 32 (depth b2 + 1)) b2)) as A3.
  { etransitivity; [exact A|]. etransitivity; [exact A2|apply adv_set_depth]. }
  destruct (_ <? _); intros [= <- <-].
  - split_and!; [etransitivity; [exact A3|by apply adv_ujson_err]|intros _; by apply adv_ujson_err|done].
  - split_and!; [exact A3|done|]. intros _. split; [|cbn; congruence].
    pose proof (O2 eq_refl Hch). pose proof (adv_off _ _ A). simpl. lia.
Qed.

(** What reading the first or the next value of a container leaves. *)
Definition nav_step (b : ujson_reader) (res res' : ujson_val) (b' : ujson_reader) : Prop :=
  adv b b' ∧ val_ok res' ∧ str_ok res' ∧ same_buf res res' ∧
  (err b' ≠ [] ∨ type res' = UJSON_VOID ∨ (off b < off b')%nat).

Lemma obj_next_spec b res :
  val_ok res → str_ok res → (off b ≤ length (json b))%nat →
  ∃ r res' b', obj_next b res = Some (r, res', b') ∧ adv b b' ∧ val_ok res' ∧ str_ok res' ∧ same_buf res res' ∧
    (r = 0 → err b' ≠ [] ∨ type res' = UJSON_VOID).
Proof.
  intros [Hb Hi] Hs Hoff. unfold obj_next.
  destruct (copy_id_str_spec (id res) b Hi Hoff) as (r & i & b1 & -> & A & D & L & E). bind_step.
  destruct (Z.eqb_spec r 0) as [->|Hr]; cbn [negb].
  - destruct (get_value_spec b1 (set_id i res)) as (r2 & res2 & b2 & -> & A2 & D2 & I2 & X2 & [B2 S2] & F2 & T2).
    + by split.
    + exact Hs.
    + rewrite (adv_json _ _ A). by apply A.
    + eexists _, _, _. split_and!; [done|by etransitivity| |done|by split|intros H; right; by apply T2].
      split; [by rewrite B2, S2|by rewrite I2].
  - eexists _, _, _. split_and!; [done|done|by split|exact Hs|by split|]. intros _. left. by apply E.
Qed.

Lemma reader_err_false b : ujson_reader_err b = false → err b = [].
Proof. unfold ujson_reader_err. destruct (bool_decide_reflect (err b = [])); done. Qed.

Lemma first_of_spec k b res :
  val_ok res → str_ok res → (off b ≤ length (json b))%nat →
  ∃ r res' b', first_of k b res = Some (r, res', b') ∧ nav_step b res res' b' ∧
    (err b ≠ [] → type res' = UJSON_VOID).
Proof.
  intros Hv Hs Hoff.
  assert (∃ o c, (c = "}"%cc ∨ c = "]"%cc) ∧ (o = "{"%cc ∨ o = "["%cc) ∧ first_of k b res =
    (let '(e, res) := check_err b res in if (e : bool) then Some (0, res, b) else
     let '(f, b) := any_first b o in if negb (f =? 0) then Some (0, res, b) else
     let '(e, res, b) := check_end b res c in if negb (e =? 0) then Some (0, res, b) else
     match k with InObj => obj_next b res | InArr => arr_next b res end)) as (o & c & Hc & Ho & ->).
  { destruct k; [by exists ("{"%cc), ("}"%cc); split_and!; auto|by exists ("["%cc), ("]"%cc); split_and!; auto]. }
  unfold check_err. destruct (ujson_reader_err b) eqn:Er.
  { eexists _, _, _. split; [done|]. split; [|done]. split_and!; [done|by destruct Hv|by apply str_ok_void|by split|by right; left]. }
  apply reader_err_false in Er.
  destruct (any_first b o) as [f b1] eqn:E1. apply any_first_spec in E1 as (A1 & R1 & O1); [|by destruct Ho as [-> | ->]].
  destruct (Z.eqb_spec f 0) as [->|Hf]; cbn [negb].
  2:{ eexists _, _, _. split; [done|]. split; [|done]. split_and!; [done|done|done|by split|left; by apply R1]. }
  destruct (check_end b1 res c) as [[e res2] b2] eqn:E2.
  apply check_end_spec in E2 as (A2 & V2 & T2 & Z2); [|by destruct Hc as [-> | ->]].
  assert (adv b b2) as A2' by (by etransitivity).
  destruct (Z.eqb_spec e 0) as [->|He]; cbn [negb].
  2:{ eexists _, _, _. split; [done|]. split; [|done]. split_and!; [done|by destruct V2 as [-> | ->]| |by destruct V2 as [-> | ->]|].
      - destruct V2 as [-> | ->]; [done|by apply str_ok_void].
      - destruct (T2 He); tauto. }
  destruct (Z2 eq_refl) as (-> & _). destruct (O1 eq_refl) as [Hlt _].
  assert (off b2 ≤ length (json b2))%nat as Ho2 by (rewrite (adv_json _ _ A2'); by apply A2').
  assert (off b < off b2)%nat as Hlt2 by (pose proof (adv_off _ _ A2); lia).
  destruct k.
  - destruct (obj_next_spec b2 res Hv Hs Ho2) as (r3 & res3 & b3 & -> & A3 & V3 & S3 & B3 & _).
    eexists _, _, _. split; [done|]. split; [|done]. split_and!; [by etransitivity|done|done|done|].
    do 2 right. pose proof (adv_off _ _ A3). lia.
  - unfold arr_next. destruct (get_value_spec b2 res Hv Hs Ho2) as (r3 & res3 & b3 & -> & A3 & D3 & I3 & X3 & [B3 S3] & F3 & T3).
    eexists _, _, _. split; [done|]. split; [|done]. split_and!; [by etransitivity| |done|by split|].
    + destruct Hv. split; [by rewrite B3, S3|by rewrite I3].
    + do 2 right. pose proof (adv_off _ _ A3). lia.
Qed.

Lemma next_of_spec k b res :
  val_ok res → str_ok res → (off b ≤ length (json b))%nat →
  ∃ r res' b', next_of k b res = Some (r, res', b') ∧ nav_step b res res' b' ∧
    (err b ≠ [] → type res' = UJSON_VOID).
Proof.
  intros Hv Hs Hoff.
  assert (∃ c, (c = "}"%cc ∨ c = "]"%cc) ∧ next_of k b res =
    (let '(e, res) := check_err b res in if (e : bool) then Some (0, res, b) else
     let '(e, res, b) := check_end b res c in if negb (e =? 0) then Some (0, res, b) else
     let '(p, res, b) := pre_next b res in if negb (p =? 0) then Some (0, res, b) else
     match k with InObj => obj_next b res | InArr => arr_next b res end)) as (c & Hc & ->).
  { destruct k; [exists ("}"%cc)|by exists ("]"%cc); split; auto]. split; [auto|]. simpl. unfold ujson_obj_next, check_err.
    destruct (ujson_reader_err b) eqn:Er; [done|]. unfold obj_pre_next. rewrite Er.
    destruct (check_end b res ("}"%cc)) as [[e res2] b2]. destruct (negb (e =? 0)); [done|].
    destruct (pre_next b2 res2) as [[p res3] b3]. destruct (p =? 0) eqn:Ep; done. }
  unfold check_err. destruct (ujson_reader_err b) eqn:Er.
  { eexists _, _, _. split; [done|]. split; [|done]. split_and!; [done|by destruct Hv|by apply str_ok_void|by split|by right; left]. }
  apply reader_err_false in Er.
  destruct (check_end b res c) as [[e res2] b2] eqn:E2.
  apply check_end_spec in E2 as (A2 & V2 & T2 & Z2); [|by destruct Hc as [-> | ->]].
  destruct (Z.eqb_spec e 0) as [->|He]; cbn [negb].
  2:{ eexists _, _, _. split; [done|]. split; [|done]. split_and!; [done|by destruct V2 as [-> | ->]| |by destruct V2 as [-> | ->]|].
      - destruct V2 as [-> | ->]; [done|by apply str_ok_void].
      - destruct (T2 He); tauto. }
  destruct (Z2 eq_refl) as (-> & _).
  destruct (pre_next b2 res) as [[p res3] b3] eqn:E3. apply pre_next_spec in E3 as (A3 & T3 & Z3).
  assert (adv b b3) as A3' by (by etransitivity).
  destruct (Z.eqb_spec p 0) as [->|Hp]; cbn [negb].
  2:{ destruct (T3 Hp) as [He3 ->]. eexists _, _, _. split; [done|]. split; [|done].
      split_and!; [done|done|by apply str_ok_void|by split|by left]. }
  destruct (Z3 eq_refl) as (Hlt & -> & _).
  assert (off b3 ≤ length (json b3))%nat as Ho3 by (rewrite (adv_json _ _ A3'); by apply A3').
  assert (off b < off b3)%nat as Hlt3 by (pose proof (adv_off _ _ A2); lia).
  destruct k.
  - destruct (obj_next_spec b3 res Hv Hs Ho3) as (r4 & res4 & b4 & -> & A4 & V4 & S4 & B4 & _).
    eexists _, _, _. split; [done|]. split; [|done]. split_and!; [by etransitivity|done|done|done|].
    do 2 right. pose proof (adv_off _ _ A4). lia.
  - unfold arr_next. destruct (get_value_spec b3 res Hv Hs Ho3) as (r4 & res4 & b4 & -> & A4 & D4 & I4 & X4 & [B4 S4] & F4 & T4).
    eexists _, _, _. split; [done|]. split; [|done]. split_and!; [by etransitivity| |done|by split|].
    + destruct Hv. split; [by rewrite B4, S4|by rewrite I4].
    + do 2 right. pose proof (adv_off _ _ A4). lia.
Qed.

(** ** Skipping a container *)

Lemma val_zero_ok : val_ok val_zero ∧ str_ok val_zero.
Proof. by split. Qed.

(** The rounds that are left: two once there is an error, otherwise bounded
    by the bytes. *)
Definition rounds (b : ujson_reader) : nat :=
  if decide (err b = []) then (length (json b) - off b) + 3 else 2.

Lemma rounds_adv b b' : adv b b' → (rounds b' ≤ rounds b)%nat.
Proof.
  intros A. unfold rounds. rewrite (adv_json _ _ A). pose proof (adv_off _ _ A).
  destruct (decide (err b = [])) as [E|E]; destruct (decide (err b' = [])) as [E'|E']; try lia.
  by destruct (adv_err _ _ A E).
Qed.

Lemma rounds_nav b res res' b' :
  nav_step b res res' b' → err b = [] → (off b ≤ length (json b))%nat →
  type res' = UJSON_VOID ∨ (S (rounds b') ≤ rounds b)%nat.
Proof.
  intros (A & _ & _ & _ & H) He Hoff. unfold rounds. rewrite (adv_json _ _ A). rewrite (decide_True (P:=err b = [])) by done.
  destruct (decide (err b' = [])) as [E|E]; [|lia]. destruct H as [H|[H|H]]; [done|by left|right].
  pose proof (adv_len _ _ A Hoff). lia.
Qed.

Lemma skip_loop_total fuel k res b :
  val_ok res → str_ok res → (off b ≤ length (json b))%nat →
  (type res = UJSON_VOID → 1 ≤ fuel)%nat → (type res ≠ UJSON_VOID → rounds b ≤ fuel)%nat →
  ∃ r b', skip_loop fuel k res b = Some (r, b') ∧ adv b b'.
Proof.
  revert k res b. induction fuel as [|fuel IH]; intros k res b Hv Hs Hoff Hf0 Hf1.
  { destruct (decide (type res = UJSON_VOID)) as [E|E]; [specialize (Hf0 E); lia|].
    specialize (Hf1 E). unfold rounds in Hf1. case_decide; lia. }
  cbn [skip_loop]. unfold ujson_val_valid.
  destruct (bool_decide_reflect (type res = UJSON_VOID)) as [Ev|Ev]; cbn [negb]; [by eexists _, _|].
  specialize (Hf1 Ev).
  assert (Hsub : ∀ k', ∃ r b', ('(_, res', b) ← first_of k' b val_zero; skip_loop fuel k' res' b) = Some (r, b') ∧ adv b b').
  { intros k'. destruct val_zero_ok as [Z1 Z2].
    destruct (first_of_spec k' b val_zero Z1 Z2 Hoff) as (r & res' & b' & -> & N & Hvoid). bind_step.
    pose proof N as (A & V & S & _ & _). destruct (IH k' res' b') as (r2 & b2 & -> & A2); [done|done| | | |].
    - rewrite (adv_json _ _ A). by apply A.
    - intros _. unfold rounds in Hf1. case_decide; lia.
    - intros Hne. destruct (decide (err b = [])) as [E|E].
      + destruct (rounds_nav _ _ _ _ N E Hoff); [done|lia].
      + by destruct Hne; apply Hvoid.
    - eexists _, _. split; [done|]. by etransitivity. }
  assert (Hbody : ∃ r b', match type res with
      | UJSON_OBJ => '(_, res', b) ← first_of InObj b val_zero; skip_loop fuel InObj res' b
      | UJSON_ARR => '(_, res', b) ← first_of InArr b val_zero; skip_loop fuel InArr res' b
      | _ => Some (0, b) end = Some (r, b') ∧ adv b b').
  { destruct (type res); try (by exists 0, b); apply Hsub. }
  destruct Hbody as (r & b1 & -> & A1). bind_step.
  destruct (negb (r =? 0)); [by eexists _, _|].
  assert (off b1 ≤ length (json b1))%nat as Ho1 by (rewrite (adv_json _ _ A1); by apply A1).
  destruct (next_of_spec k b1 res Hv Hs Ho1) as (r2 & res2 & b2 & -> & N & Hvoid). bind_step.
  pose proof N as (A2 & V2 & S2 & _ & _). pose proof (rounds_adv _ _ A1) as Hr1.
  destruct (IH k res2 b2) as (r3 & b3 & -> & A3); [done|done| | | |].
  - rewrite (adv_json _ _ A2). by apply A2.
  - intros _. unfold rounds in Hf1. case_decide; lia.
  - intros Hne. destruct (decide (err b1 = [])) as [E|E].
    + destruct (rounds_nav _ _ _ _ N E Ho1); [done|lia].
    + by destruct Hne; apply Hvoid.
  - eexists _, _. split; [done|]. etransitivity; [exact A1|]. by etransitivity.
Qed.

(** ** Keys *)

Lemma strcmp_opp a b : strcmp b a = - strcmp a b.
Proof.
  revert b. induction a as [|x a IH]; intros [|y b]; simpl; try lia.
  rewrite (Z.eqb_sym y x). destruct (Z.eqb_spec x y); [apply IH|lia].
Qed.

(** The search stays in the array, sorted or not. *)
Lemma lookup_loop_total fuel arr key l r mid :
  (l ≤ r)%nat → (r < length arr)%nat → (r - l ≤ S fuel)%nat →
  ∃ x, lookup_loop fuel arr key l r mid = Some x ∧
    match x with inl m => (m < length arr)%nat | inr (l', r', _) => (l' < length arr)%nat ∧ (r' < length arr)%nat end.
Proof.
  revert l r mid. induction fuel as [|fuel IH]; intros l r mid Hlr Hr Hf; cbn [lookup_loop];
    (destruct (Nat.leb_spec (r - l) 1) as [H1|H1]; [eexists; split; [done|]; simpl; lia|]); [lia|].
  set (m := ((l + r) / 2)%nat).
  assert (l < m < r)%nat as Hmid.
  { pose proof (Nat.div_mod (l + r) 2). pose proof (Nat.mod_upper_bound (l + r) 2). unfold m. lia. }
  destruct (lookup_lt_is_Some_2 arr m) as [e He]; [lia|]. rewrite He, obind_Some.
  destruct (strcmp e key =? 0); [eexists; split; [done|]; simpl; lia|].
  destruct (strcmp e key <? 0); apply IH; lia.
Qed.

Lemma lookup_total arr key :
  ∃ x, ujson_lookup arr key = Some x ∧ ∀ i, x = Some i → (i < length arr)%nat.
Proof.
  unfold ujson_lookup. destruct (decide (length arr = 0%nat)) as [E|E]; [by exists None|].
  destruct (lookup_loop_total (length arr) arr key 0 (length arr - 1) None) as (x & -> & Hx); [lia..|].
  rewrite obind_Some. destruct x as [m|[[l r] mid]]; [exists (Some m); by split; [|intros i [= <-]]|].
  destruct Hx as [Hl Hr]. destruct (lookup_lt_is_Some_2 arr l Hl) as [el ->].
  destruct (lookup_lt_is_Some_2 arr r Hr) as [er ->]. rewrite !obind_Some.
  assert (Hs : ∀ i : nat, (i < length arr)%nat → ∀ j, Some i = Some j → (j < length arr)%nat) by (by intros i Hi j [= <-]).
  destruct (decide (mid = Some r)); rewrite obind_Some; [|destruct (strcmp er key =? 0); [exists (Some r); split; [done|by apply Hs]|]];
    (destruct (decide (mid = Some l)); rewrite obind_Some; [by exists None|destruct (strcmp el key =? 0); [exists (Some l); split; [done|by apply Hs]|by exists None]]).
Qed.

Section Lookup.
Context (arr : list (list Z)) (key : list Z).

(** An array sorted by [strcmp] without duplicates. *)
Definition sorted_keys : Prop :=
  Forall cstring arr ∧ ∀ i j a b, arr !! i = Some a → arr !! j = Some b → (i < j)%nat → strcmp a b < 0.

Context (Hs : sorted_keys) (Hk : cstring key).

(** No key outside [l .. r] and not at [mid]. *)
Definition inside (l r : nat) (mid : option nat) : Prop :=
  ∀ i, arr !! i = Some key → (l ≤ i ≤ r)%nat ∧ Some i ≠ mid.

Lemma key_cstring i a : arr !! i = Some a → cstring a.
Proof. intros H. destruct Hs as [Hc _]. by eapply Forall_lookup_1 in Hc. Qed.

Lemma lookup_loop_spec fuel l r mid :
  (l ≤ r)%nat → (r < length arr)%nat → (r - l ≤ S fuel)%nat → inside l r mid →
  (mid = None ∨ mid = Some l ∨ mid = Some r) →
  match lookup_loop fuel arr key l r mid with
  | Some (inl m) => arr !! m = Some key
  | Some (inr (l', r', mid')) => (l' ≤ r')%nat ∧ (r' < length arr)%nat ∧ (r' - l' ≤ 1)%nat ∧ inside l' r' mid' ∧
      (mid' = None ∨ mid' = Some l' ∨ mid' = Some r')
  | None => False
  end.
Proof.
  revert l r mid. induction fuel as [|fuel IH]; intros l r mid Hlr Hr Hf Hin Hm; cbn [lookup_loop].
  { destruct (Nat.leb_spec (r - l) 1); [done|lia]. }
  destruct (Nat.leb_spec (r - l) 1) as [H1|H1]; [done|]. set (m := ((l + r) / 2)%nat).
  assert (l < m < r)%nat as Hmid.
  { pose proof (Nat.div_mod (l + r) 2). pose proof (Nat.mod_upper_bound (l + r) 2). unfold m. lia. }
  destruct (lookup_lt_is_Some_2 arr m) as [e He]; [lia|]. rewrite He, obind_Some.
  pose proof (key_cstring _ _ He) as Hec. destruct Hs as [_ Hso].
  destruct (Z.eqb_spec (strcmp e key) 0) as [E|E]; [apply strcmp_eq in E as ->; done|].
  assert (∀ i, arr !! i = Some key → i ≠ m) as Hne.
  { intros i Hi ->. rewrite Hi in He. injection He as <-. apply E. by apply strcmp_eq. }
  destruct (Z.ltb_spec (strcmp e key) 0) as [L|L].
  - apply IH; [lia|done|lia| |by right; left]. intros i Hi. destruct (Hin i Hi) as [? _]. specialize (Hne i Hi).
    split; [|congruence]. destruct (decide (i < m)%nat) as [Hlt|]; [exfalso|lia].
    pose proof (Hso i m _ _ Hi He Hlt). rewrite (strcmp_opp e key) in *. lia.
  - apply IH; [lia|lia|lia| |by right; right]. intros i Hi. destruct (Hin i Hi) as [? _]. specialize (Hne i Hi).
    split; [|congruence]. destruct (decide (m < i)%nat) as [Hlt|]; [exfalso|lia].
    pose proof (Hso m i _ _ He Hi Hlt). lia.
Qed.

Lemma lookup_spec :
  ∃ r, ujson_lookup arr key = Some r ∧
    match r with Some i => arr !! i = Some key | None => key ∉ arr end.
Proof.
  unfold ujson_lookup. destruct (decide (length arr = 0%nat)) as [E|E].
  { apply nil_length_inv in E as ->. exists None. split; [done|]. apply not_elem_of_nil. }
  pose proof (lookup_loop_spec (length arr) 0 (length arr - 1) None) as H.
  destruct (lookup_loop (length arr) arr key 0 (length arr - 1) None) as [[m|[[l r] mid]]|].
  - rewrite obind_Some. eexists. split; [done|]. apply H; [lia..| |by left].
    intros i Hi. apply lookup_lt_Some in Hi. split; [lia|done].
  - rewrite obind_Some. destruct H as (Hlr & Hr & H1 & Hin & Hm); [lia..| |by left|].
    { intros i Hi. apply lookup_lt_Some in Hi. split; [lia|done]. }
    destruct (lookup_lt_is_Some_2 arr r) as [er Her]; [done|].
    destruct (lookup_lt_is_Some_2 arr l) as [el Hel]; [lia|].
    assert (∀ i e, arr !! i = Some e → (strcmp e key =? 0) = true ↔ e = key) as Heq.
    { intros i e Hi. rewrite Z.eqb_eq. apply strcmp_eq; [by eapply key_cstring|done]. }
    assert (∀ i, arr !! i = Some key → (i = r ∨ i = l) ∧ Some i ≠ mid) as Honly.
    { intros i Hi. destruct (Hin i Hi). split; [lia|done]. }
    rewrite Her, Hel, !obind_Some.
    destruct (decide (mid = Some r)) as [Mr|Mr].
    + rewrite obind_Some. destruct (decide (mid = Some l)) as [Ml|Ml]; rewrite obind_Some.
      * exists None. split; [done|]. intros [i Hi]%list_elem_of_lookup_1. destruct (Honly i Hi) as [[-> | ->] ?]; congruence.
      * destruct (strcmp el key =? 0) eqn:El.
        -- exists (Some l). split; [done|]. rewrite Hel. f_equal. by apply (Heq l).
        -- exists None. split; [done|]. intros [i Hi]%list_elem_of_lookup_1. destruct (Honly i Hi) as [[-> | ->] ?]; [congruence|].
           assert (el = key) as Hk' by congruence. apply (Heq l) in Hk'; congruence.
    + rewrite obind_Some. destruct (strcmp er key =? 0) eqn:Eer.
      { exists (Some r). split; [done|]. rewrite Her. f_equal. by apply (Heq r). }
      assert (arr !! r ≠ Some key) as Hnr.
      { intros Hr'. assert (er = key) as Hk' by congruence. apply (Heq r) in Hk'; congruence. }
      destruct (decide (mid = Some l)) as [Ml|Ml]; rewrite obind_Some.
      * exists None. split; [done|]. intros [i Hi]%list_elem_of_lookup_1. destruct (Honly i Hi) as [[-> | ->] ?]; congruence.
      * destruct (strcmp el key =? 0) eqn:El.
        -- exists (Some l). split; [done|]. rewrite Hel. f_equal. by apply (Heq l).
        -- exists None. split; [done|]. intros [i Hi]%list_elem_of_lookup_1. destruct (Honly i Hi) as [[-> | ->] ?]; [congruence|].
           assert (el = key) as Hk' by congruence. apply (Heq l) in Hk'; congruence.
  - exfalso. apply H; [lia..| |by left]. intros i Hi. apply lookup_lt_Some in Hi. split; [lia|done].
Qed.
End Lookup.

(** ** Where errors are reported *)

(** The newlines of a text and the length of its last line. *)
Definition nl_count (s : list Z) : nat := length (List.filter (λ c, c =? 10) s).
Definition last_col (s : list Z) : nat := find_nl (reverse s).

Lemma find_nl_app l x : find_nl (l ++ 10 :: x) = find_nl l.
Proof. induction l as [|c l IH]; simpl; [done|]. destruct (c =? 10); [done|]. by rewrite IH. Qed.

Lemma find_nl_split s :
  (find_nl s = length s ∧ Forall (λ c, c ≠ 10) s) ∨
  (∃ t, s = take (find_nl s) s ++ 10 :: t ∧ Forall (λ c, c ≠ 10) (take (find_nl s) s)).
Proof.
  induction s as [|c s IH]; simpl; [by left|].
  destruct (Z.eqb_spec c 10) as [->|Hc]; [right; by exists s|].
  destruct IH as [[E F]|[t [E F]]].
  - left. split; [by rewrite E|by constructor].
  - right. exists t. simpl. split; [by f_equal|by constructor].
Qed.

Lemma no_nl_count s : Forall (λ c, c ≠ 10) s → nl_count s = 0%nat.
Proof. induction 1 as [|c s Hc _ IH]; [done|]. unfold nl_count in *. simpl. by destruct (Z.eqb_spec c 10). Qed.

Lemma no_nl_find s : Forall (λ c, c ≠ 10) s → find_nl s = length s.
Proof. induction 1 as [|c s Hc _ IH]; simpl; [done|]. destruct (Z.eqb_spec c 10); [done|]. by rewrite IH. Qed.

Lemma last_col_le s : (last_col s ≤ length s)%nat.
Proof.
  unfold last_col. rewrite <- (length_reverse s). generalize (reverse s). intros l.
  induction l as [|c l IH]; simpl; [done|]. destruct (c =? 10); lia.
Qed.

Section Snippet.
Context (b : ujson_reader) (Hoff : (off b ≤ length (json b))%nat).

(** The text from position [p] to the error. *)
Definition upto (p : nat) : list Z := take (off b - p) (drop p (json b)).

Lemma upto_length p : (p ≤ off b)%nat → length (upto p) = (off b - p)%nat.
Proof. intros Hp. unfold upto. rewrite length_take, length_drop. lia. Qed.

Lemma upto_last p k :
  (p ≤ off b)%nat → k = find_nl (drop p (json b)) → (off b ≤ p + k)%nat →
  nl_count (upto p) = 0%nat ∧ last_col (upto p) = (off b - p)%nat.
Proof.
  intros Hp -> Hk. assert (Forall (λ c, c ≠ 10) (upto p)) as Hn.
  { unfold upto. destruct (find_nl_split (drop p (json b))) as [[E F]|[t [E F]]].
    - by apply Forall_take.
    - assert (take (off b - p) (drop p (json b)) = take (off b - p) (take (find_nl (drop p (json b))) (drop p (json b)))) as ->.
      { rewrite take_take. f_equal. lia. }
      by apply Forall_take. }
  split; [by apply no_nl_count|]. unfold last_col.
  rewrite no_nl_find; [by rewrite length_reverse, upto_length|]. by apply Forall_reverse.
Qed.

Lemma upto_next p k :
  (p ≤ off b)%nat → k = find_nl (drop p (json b)) → (p + k < off b)%nat →
  nl_count (upto p) = S (nl_count (upto (S (p + k)))) ∧ last_col (upto p) = last_col (upto (S (p + k))).
Proof.
  intros Hp -> Hk. set (k := find_nl (drop p (json b))) in *.
  destruct (find_nl_split (drop p (json b))) as [[E F]|[t [E F]]].
  { fold k in E. rewrite length_drop in E. lia. }
  fold k in E, F.
  assert (length (take k (drop p (json b))) = k) as Hlk by (rewrite length_take, length_drop; lia).
  assert (t = drop (S (p + k)) (json b)) as Ht.
  { rewrite <- Nat.add_succ_r, <- drop_drop, E, (app_assoc _ [10] t : _ ++ 10 :: t = (_ ++ [10]) ++ t).
    rewrite drop_app_length'; [done|]. rewrite length_app, Hlk. simpl. lia. }
  assert (upto p = take k (drop p (json b)) ++ 10 :: upto (S (p + k))) as ->.
  { unfold upto at 1. rewrite E at 1. rewrite take_app_ge by lia. f_equal. rewrite Hlk.
    replace (off b - p - k)%nat with (S (off b - S (p + k))) by lia. simpl. by rewrite Ht. }
  split.
  - unfold nl_count. rewrite List.filter_app, length_app. fold (nl_count (take k (drop p (json b)))).
    rewrite no_nl_count by done. done.
  - unfold last_col. rewrite reverse_app, reverse_cons, <- app_assoc. simpl. apply find_nl_app.
Qed.

(** The loop ends at the line of the error, and all lines start in the text. *)
Lemma snippet_loop_spec fuel lines cl p :
  (p ≤ off b)%nat → (off b < fuel + p)%nat → length lines = ERR_LINES → Forall (λ q, q ≤ off b)%nat lines →
  ∃ lines', snippet_loop fuel b lines cl p (off b - p) =
      Some (lines', (cl + S (nl_count (upto p)))%nat, last_col (upto p)) ∧
    length lines' = ERR_LINES ∧ Forall (λ q, q ≤ off b)%nat lines' ∧
    lines' !! ((cl + nl_count (upto p)) mod ERR_LINES)%nat = Some (off b - last_col (upto p))%nat.
Proof.
  revert lines cl p. induction fuel as [|fuel IH]; intros lines cl p Hp Hf Hl Hb; [lia|]. cbn [snippet_loop].
  set (k := find_nl (drop p (json b))).
  assert (Forall (λ q, q ≤ off b)%nat (<[(cl mod ERR_LINES)%nat:=p]> lines)) as Hb' by by apply Forall_insert.
  destruct (Nat.leb_spec (off b) (p + k)) as [L|L].
  - destruct (upto_last p k Hp eq_refl L) as [-> ->]. eexists. split_and!.
    + do 2 f_equal. f_equal. lia.
    + by rewrite length_insert.
    + done.
    + rewrite Nat.add_0_r, list_lookup_insert_eq; [f_equal; lia|]. rewrite Hl. by apply Nat.mod_upper_bound.
  - destruct (upto_next p k Hp eq_refl L) as [-> ->].
    destruct (IH (<[(cl mod ERR_LINES)%nat:=p]> lines) (S cl) (S (p + k))) as (lines' & E & Hl' & Hq & Hi).
    + lia.
    + lia.
    + by rewrite length_insert.
    + done.
    + exists lines'. rewrite E. split_and!; [do 3 f_equal; lia|done|done|].
      by replace (cl + S (nl_count (upto (S (p + k)))))%nat with (S cl + nl_count (upto (S (p + k))))%nat by lia.
Qed.
End Snippet.

(** A line that starts in the text is printed without reading past the
    terminator. *)
Lemma to_eol_defined n s : is_Some (to_eol n (s ++ [0])).
Proof.
  revert s. induction n as [|n IH]; intros s; [by eexists|]. destruct s as [|c s]; cbn [app to_eol]; [by eexists|].
  destruct (_ || _); [by eexists|]. destruct (IH s) as [r ->]. by eexists.
Qed.

Lemma json_line_defined b nr pos : (pos ≤ length (json b))%nat → is_Some (json_line (mem b) nr pos).
Proof.
  intros Hp. unfold json_line, mem. rewrite drop_app_le by done. set (n := (UJSON_ERR_MAX - _)%nat).
  destruct (to_eol_defined n (drop pos (json b))) as [r ->]. by eexists.
Qed.

Lemma snippet_lines_spec i lines cl ix b :
  (S i ≤ cl)%nat → length lines = ERR_LINES → Forall (λ q, q ≤ length (json b))%nat lines →
  ∃ ctx b' pos l, snippet_lines (S i) lines cl ix b = Some (((cl - 1) mod ERR_LINES)%nat, b') ∧
    adv b b' ∧ off b' = off b ∧ err b' = err b ∧ printed b' = printed b ++ ctx ∧ length ctx = S i ∧
    lines !! ((cl - 1) mod ERR_LINES)%nat = Some pos ∧ json_line (mem b) cl pos = Some l ∧ last ctx = Some l.
Proof.
  intros Hi Hl Hq. revert ix b Hi Hq. induction i as [|i IH]; intros ix b Hi Hq.
  - cbn [snippet_lines]. destruct (lookup_lt_is_Some_2 lines ((cl - 1) mod ERR_LINES)%nat) as [pos Hpos].
    { rewrite Hl. by apply Nat.mod_upper_bound. }
    assert (pos ≤ length (json b))%nat as Hp by exact (Forall_lookup_1 _ _ _ _ Hq Hpos).
    destruct (json_line_defined b cl pos Hp) as [l El]. rewrite Hpos, obind_Some. unfold printf_json_line.
    replace (cl - 1 + 1)%nat with cl by lia. rewrite El, !obind_Some.
    eexists [_], _, pos, l. split_and!; [done|apply adv_add_line|done..].
  - remember (S i) as n. cbn [snippet_lines]. subst n. destruct (lookup_lt_is_Some_2 lines ((cl - S (S i)) mod ERR_LINES)%nat) as [pos Hpos].
    { rewrite Hl. by apply Nat.mod_upper_bound. }
    assert (pos ≤ length (json b))%nat as Hp by exact (Forall_lookup_1 _ _ _ _ Hq Hpos).
    destruct (json_line_defined b (cl - S (S i) + 1) pos Hp) as [l El]. rewrite Hpos, obind_Some. unfold printf_json_line at 1.
    rewrite El, !obind_Some. set (b1 := add_line l b).
    destruct (IH ((cl - S (S i)) mod ERR_LINES)%nat b1) as (ctx & b' & pos' & l' & E & A & O & R & P & L & H1 & H2 & Last); [lia|done|].
    eexists (_ :: ctx), b', pos', l'. rewrite E. split_and!; [done| |by rewrite O|by rewrite R| |by simpl; rewrite L|done|done|by rewrite last_cons, Last].
    + etransitivity; [|exact A]. apply adv_add_line.
    + rewrite P. unfold b1, add_line. cbn [printed]. by rewrite <- app_assoc.
Qed.

Lemma print_snippet_spec b ty :
  (off b ≤ length (json b))%nat →
  let nr := S (nl_count (upto b 0)) in
  let pos := (off b - last_col (upto b 0))%nat in
  ∃ ctx b' l, print_snippet b ty = Some b' ∧ adv b b' ∧ off b' = off b ∧ err b' = err b ∧
    printed b' = printed b ++ snprintf (UJSON_ERR_MAX + 1) (ty ++ str " at line " ++ fmt_03zu nr) :: [] ::
      ctx ++ [arrow_line (mem b) pos (last_col (upto b 0))] ∧
    length ctx = Nat.min ERR_LINES nr ∧ last ctx = Some l ∧ json_line (mem b) nr pos = Some l.
Proof.
  intros Hoff nr pos. unfold print_snippet.
  destruct (snippet_loop_spec b Hoff (S (length (json b))) (replicate ERR_LINES 0%nat) 0 0) as (lines & E & Hl & Hq & Hi);
    [lia|lia|by rewrite length_replicate|apply Forall_replicate; lia|].
  rewrite Nat.sub_0_r in E. rewrite E, obind_Some. cbn beta iota. cbn [Nat.add]. fold nr.
  set (b2 := add_line [] _).
  assert (Nat.min ERR_LINES nr = S (Nat.min (ERR_LINES - 1) (nr - 1))) as Em by (unfold ERR_LINES, nr; lia).
  destruct (snippet_lines_spec (Nat.min (ERR_LINES - 1) (nr - 1)) lines nr 0 b2) as (ctx & b3 & p3 & l & E3 & A3 & O3 & R3 & P3 & L3 & Hp3 & Hl3 & Last3).
  { unfold nr. lia. }
  { done. }
  { eapply Forall_impl; [exact Hq|]. cbn. lia. }
  rewrite Em, E3, obind_Some. cbn beta iota. rewrite Hp3, obind_Some.
  replace (nr - 1)%nat with (nl_count (upto b 0)) in Hp3 by (unfold nr; lia). cbn [Nat.add] in Hi. rewrite Hi in Hp3.
  fold pos in Hp3. injection Hp3 as <-. pose proof (last_col_le (upto b 0)) as Hc. rewrite upto_length in Hc by (done || lia).
  unfold print_arrow. assert (mem b3 = mem b) as Em3 by (unfold mem; by rewrite (adv_json _ _ A3)). rewrite Em3.
  destruct (Nat.ltb_spec (length (mem b)) (pos + last_col (upto b 0))) as [Lt|_].
  { unfold mem, pos in Lt. rewrite length_app in Lt. simpl in Lt. lia. }
  eexists ctx, _, l. split_and!; [done| |exact O3|exact R3| |lia|exact Last3|exact Hl3].
  - etransitivity; [|apply adv_add_line]. etransitivity; [|exact A3]. etransitivity; [|apply adv_add_line]. apply adv_add_line.
  - cbn [printed add_line]. rewrite P3. unfold b2, printf_line, add_line. cbn [printed json]. by rewrite <- !app_assoc.
Qed.

(** ** Filters *)

Lemma warn_spec m b :
  m ≠ [] → (off b ≤ length (json b))%nat →
  ∃ b', ujson_warn m b = Some b' ∧ adv b b' ∧ off b' = off b.
Proof.
  intros Hm Hoff. unfold ujson_warn. destruct (strict b).
  { eexists. split_and!; [done|by apply (adv_ujson_err b m)|done]. }
  destruct (err_print b); cbn [negb]; [|by eexists].
  destruct (print_snippet_spec b (str "Warning") Hoff) as (ctx & b' & l & -> & A & O & _). rewrite obind_Some.
  eexists. split_and!; [done|etransitivity; [exact A|apply adv_add_line]|exact O].
Qed.

Lemma skip_total k b :
  (off b ≤ length (json b))%nat → ∃ r b', ujson_skip k b = Some (r, b') ∧ adv b b'.
Proof.
  intros Hoff. unfold ujson_skip. destruct val_zero_ok as [Z1 Z2].
  destruct (first_of_spec k b val_zero Z1 Z2 Hoff) as (r & res & b1 & -> & N & Hv). bind_step.
  pose proof N as (A & V & S & _ & _).
  destruct (skip_loop_total (skip_fuel b) k res b1) as (r2 & b2 & -> & A2); [done|done| | | |].
  - rewrite (adv_json _ _ A). by apply A.
  - unfold skip_fuel. lia.
  - intros _. etransitivity; [by apply rounds_adv|]. unfold rounds, skip_fuel. case_decide; lia.
  - eexists _, _. split; [done|by etransitivity].
Qed.

Lemma skip_obj_val_spec b :
  (off b ≤ length (json b))%nat → ∃ r b', skip_obj_val b = Some (r, b') ∧ adv b b'.
Proof.
  intros Hoff. unfold skip_obj_val. destruct (get_value_spec b val_zero) as (r & res & b1 & -> & A & _); [apply val_zero_ok..|done|].
  bind_step. destruct (r =? 0); [by eexists _, _|].
  assert (off b1 ≤ length (json b1))%nat as Ho by (rewrite (adv_json _ _ A); by apply A).
  destruct (type res); try (by eexists _, _);
    [destruct (skip_total InObj b1 Ho) as (r2 & b2 & E & A2)|destruct (skip_total InArr b1 Ho) as (r2 & b2 & E & A2)];
    unfold ujson_obj_skip, ujson_arr_skip; rewrite E, obind_Some; eexists _, _; (split; [done|by etransitivity]).
Qed.

Lemma obj_pre_next_spec b res r res' b' :
  obj_pre_next b res = (r, res', b') →
  adv b b' ∧ (res' = res ∨ res' = set_type UJSON_VOID res) ∧ (r = 0 → (off b < off b')%nat).
Proof.
  unfold obj_pre_next. destruct (ujson_reader_err b); [intros [= <- <- <-]; split_and!; [done|by left|done]|].
  destruct (check_end b res ("}"%cc)) as [[e res2] b2] eqn:E2. apply check_end_spec in E2 as (A2 & V2 & T2 & Z2); [|done].
  destruct (Z.eqb_spec e 0) as [->|He]; cbn [negb]; [|by intros [= <- <- <-]].
  destruct (pre_next b2 res2) as [[p res3] b3] eqn:E3. apply pre_next_spec in E3 as (A3 & T3 & Z3).
  destruct (Z2 eq_refl) as (-> & _). destruct (Z.eqb_spec p 0) as [->|Hp]; cbn [negb]; intros [= <- <- <-].
  - destruct (Z3 eq_refl) as (O & -> & _). split_and!; [by etransitivity|by left|]. intros _.
    pose proof (adv_off _ _ A2). lia.
  - destruct (T3 Hp) as [_ ->]. split_and!; [by etransitivity|by right|done].
Qed.

(** A value with its invariant. *)
Definition good (res res' : ujson_val) : Prop := val_ok res' ∧ str_ok res' ∧ same_buf res res'.

Lemma good_trans r1 r2 r3 : good r1 r2 → good r2 r3 → good r1 r3.
Proof. intros (_ & _ & [H1 H2]) (V & S & [H3 H4]). split_and!; [done|done|split; congruence]. Qed.

Lemma good_pre res res' : val_ok res → str_ok res → res' = res ∨ res' = set_type UJSON_VOID res → good res res'.
Proof. intros V S [-> | ->]; split_and!; try done. Qed.

Lemma get_value_good b res :
  val_ok res → str_ok res → (off b ≤ length (json b))%nat →
  ∃ r res' b', get_value b res = Some (r, res', b') ∧ adv b b' ∧ good res res'.
Proof.
  intros Hv Hs Hoff. destruct (get_value_spec b res Hv Hs Hoff) as (r & res' & b' & E & A & _ & I & _ & [B S] & F & _).
  eexists _, _, _. split_and!; [done|done|]. split_and!; [|done|by split]. destruct Hv. split; [by rewrite B, S|by rewrite I].
Qed.

Lemma lookup_defined o i :
  ∃ x, match o with Some o => ujson_obj_lookup o (c_str i) | None => Some None end = Some x ∧
    ∀ n, x = Some n → ∃ attr, (o ← o; o !! n) = Some attr.
Proof.
  destruct o as [o|]; [|by exists None].
  destruct (lookup_total (attr_key <$> o) (c_str i)) as (x & E & Hx).
  exists x. split; [exact E|]. intros n ->. specialize (Hx n eq_refl). rewrite length_fmap in Hx.
  by apply lookup_lt_is_Some_2.
Qed.

(** The warning about a key that is not in the filters. *)
Lemma unexpected_key_spec ign i b :
  (off b ≤ length (json b))%nat →
  ∃ b', match ign with
    | Some g => k ← ujson_obj_lookup g (c_str i);
        match k with None => ujson_warn (str "Unexpected key '" ++ c_str i ++ str "'") b | Some _ => Some b end
    | None => Some b end = Some b' ∧ adv b b'.
Proof.
  intros Ho. destruct ign as [g|]; [|by eexists]. destruct (lookup_defined (Some g) i) as (x & -> & _).
  rewrite obind_Some. destruct x; [by eexists|].
  destruct (warn_spec (str "Unexpected key '" ++ c_str i ++ str "'") b) as (b' & -> & A & _); [done|done|]. by exists b'.
Qed.

Lemma obj_next_filter_spec fuel obj ign b res :
  val_ok res → str_ok res → (off b ≤ length (json b))%nat → (length (json b) < fuel + off b)%nat →
  ∃ r res' b', obj_next_filter fuel obj ign b res = Some (r, res', b') ∧ adv b b' ∧ good res res'.
Proof.
  revert b res. induction fuel as [|fuel IH]; intros b res Hv Hs Hoff Hf; [lia|].
  cbn [obj_next_filter]. pose proof Hv as [Hv1 Hv2].
  destruct (copy_id_str_spec (id res) b Hv2 Hoff) as (r & i & b1 & E1 & A1 & _ & L1 & R1).
  rewrite E1, obind_Some. cbn beta iota.
  assert (good res (set_id i res)) as G1 by (split_and!; [by split|done|by split]).
  destruct (Z.eqb_spec r 0) as [->|Hr]; cbn [negb]; [|by eexists _, _, _].
  cbn [id set_id]. destruct (lookup_defined obj i) as (ix & -> & Hix). rewrite obind_Some.
  set (res1 := set_idx ix (set_id i res)). assert (good res res1) as G1' by (split_and!; [by split|done|by split]).
  assert (off b1 ≤ length (json b1))%nat as Ho1 by (rewrite (adv_json _ _ A1); by apply A1).
  assert (Hcont : ∀ res2 b2, adv b b2 → good res res2 →
    ∃ r res' b', (let '(p, res, b) := obj_pre_next b2 res2 in
      if negb (p =? 0) then Some (0, res, b) else obj_next_filter fuel obj ign b res) = Some (r, res', b') ∧ adv b b' ∧ good res res').
  { intros res2 b2 A2 G2. destruct (obj_pre_next b2 res2) as [[p res3] b3] eqn:E3.
    apply obj_pre_next_spec in E3 as (A3 & V3 & O3). pose proof G2 as (V2 & S2 & _).
    pose proof (good_pre _ _ V2 S2 V3) as G3. assert (adv b b3) as A3' by (by etransitivity).
    assert (good res res3) as G3' by (by eapply good_trans).
    destruct (Z.eqb_spec p 0) as [->|Hp]; cbn [negb]; [|by eexists _, _, _].
    destruct G3 as (V3' & S3' & _). specialize (O3 eq_refl).
    destruct (IH b3 res3) as (r4 & res4 & b4 & -> & A4 & G4).
    - done.
    - done.
    - rewrite (adv_json _ _ A3'). by apply A3'.
    - rewrite (adv_json _ _ A3'). pose proof (adv_off _ _ A2). lia.
    - eexists _, _, _. split_and!; [done|by etransitivity|by eapply good_trans]. }
  destruct ix as [n|].
  - destruct (get_value_spec b1 res1) as (r2 & res2 & b2 & -> & A2 & _ & I2 & _ & [B2 S2] & F2 & _); [by destruct G1'|by destruct G1' as (_ & ? & _)|done|].
    assert (good res res2) as G2.
    { eapply good_trans; [exact G1'|]. destruct G1' as ([? ?] & _). split_and!; [|done|by split]. split; [by rewrite B2, S2|by rewrite I2]. }
    bind_step. assert (adv b b2) as A2' by (by etransitivity).
    destruct (r2 =? 0); [by eexists _, _, _|]. destruct (Hix n eq_refl) as [attr ->]. rewrite obind_Some.
    destruct (type_matches _ _); [by eexists _, _, _|].
    destruct (warn_spec (str "Wrong '" ++ attr_key attr ++ str "' type expected " ++ ujson_type_name (attr_type attr)) b2)
      as (b3 & -> & A3 & _); [done|rewrite (adv_json _ _ A2'); by apply A2'|].
    rewrite obind_Some. apply Hcont; [by etransitivity|done].
  - destruct (skip_obj_val_spec b1 Ho1) as (r2 & b2 & -> & A2). bind_step.
    assert (adv b b2) as A2' by (by etransitivity). destruct (r2 =? 0); [by eexists _, _, _|].
    cbn [id res1 set_idx set_id]. destruct (unexpected_key_spec ign i b2) as (b3 & -> & A3).
    { rewrite (adv_json _ _ A2'). by apply A2'. }
    rewrite obind_Some. apply Hcont; [by etransitivity|done].
Qed.

(** ** Properties *)

(** The calls a client can make. *)
Inductive rcall :=
  | CObjFirst | CObjNext | CArrFirst | CArrNext
  | CObjFirstFilter (obj ign : option ujson_obj)
  | CObjNextFilter (obj ign : option ujson_obj)
  | CSkip (k : container)
  | CRestart           (* load the state saved at the last object or array *)
  | CReset
  | CFinish.

Definition rcall_exec (c : rcall) (b : ujson_reader) (res : ujson_val) : option (ujson_val * ujson_reader) :=
  let ret x := '(_, res, b) ← x; Some (res, b) in
  match c with
  | CObjFirst => ret (ujson_obj_first b res)
  | CObjNext => ret (ujson_obj_next b res)
  | CArrFirst => ret (ujson_arr_first b res)
  | CArrNext => ret (ujson_arr_next b res)
  | CObjFirstFilter obj ign => ret (ujson_obj_first_filter obj ign b res)
  | CObjNextFilter obj ign => ret (ujson_obj_next_filter obj ign b res)
  | CSkip k => '(_, b) ← ujson_skip k b; Some (res, b)
  | CRestart => Some (res, ujson_reader_state_load b (ujson_reader_state_save b))
  | CReset => Some (res, ujson_reader_reset b)
  | CFinish => b ← ujson_reader_finish b; Some (res, b)
  end.

Fixpoint rcalls (cs : list rcall) (b : ujson_reader) (res : ujson_val) : option (ujson_val * ujson_reader) :=
  match cs with
  | [] => Some (res, b)
  | c :: cs => '(res, b) ← rcall_exec c b res; rcalls cs b res
  end.

Definition reader_inv (b : ujson_reader) (res : ujson_val) : Prop :=
  (off b ≤ length (json b))%nat ∧ (sub_off b ≤ length (json b))%nat ∧ val_ok res ∧ str_ok res.

Lemma inv_adv b res b' res' : reader_inv b res → adv b b' → good res res' → reader_inv b' res'.
Proof.
  intros (H1 & H2 & _ & _) A (V & S & _). split_and!; [rewrite (adv_json _ _ A); by apply A| |done|done].
  rewrite (adv_json _ _ A). by apply A.
Qed.

Lemma finish_spec b : (off b ≤ length (json b))%nat → ∃ b', ujson_reader_finish b = Some b' ∧ adv b b'.
Proof.
  intros Hoff. unfold ujson_reader_finish.
  assert (Hp : ∀ b2, adv b b2 → ∃ b', ujson_err_print b2 = Some b' ∧ adv b b').
  { intros b2 A2. unfold ujson_err_print. destruct (err_print b2); cbn [negb]; [|by eexists].
    destruct (print_snippet_spec b2 (str "Parse error")) as (ctx & b3 & l & -> & A3 & _).
    { rewrite (adv_json _ _ A2). by apply A2. }
    rewrite obind_Some. eexists. split; [done|]. etransitivity; [exact A2|]. etransitivity; [exact A3|apply adv_add_line]. }
  destruct (ujson_reader_err b); [by apply Hp|]. destruct (ujson_reader_consumed b); cbn [negb]; [by eexists|].
  destruct (warn_spec (str "Garbage after JSON string!") b) as (b2 & -> & A2 & _); [done|done|]. rewrite obind_Some.
  destruct (ujson_reader_err b2); [by apply Hp|by eexists].
Qed.

Lemma first_filter_spec obj ign b res :
  val_ok res → str_ok res → (off b ≤ length (json b))%nat →
  ∃ r res' b', ujson_obj_first_filter obj ign b res = Some (r, res', b') ∧ adv b b' ∧ good res res'.
Proof.
  intros Hv Hs Hoff. unfold ujson_obj_first_filter, check_err. destruct (ujson_reader_err b).
  { eexists _, _, _. split_and!; [done|done|by apply good_pre; [..|right]]. }
  destruct (any_first b ("{"%cc)) as [f b1] eqn:E1. apply any_first_spec in E1 as (A1 & _ & _); [|done].
  destruct (negb (f =? 0)); [eexists _, _, _; split_and!; [done|done|by apply good_pre; [..|left]]|].
  destruct (check_end b1 res ("}"%cc)) as [[e res2] b2] eqn:E2. apply check_end_spec in E2 as (A2 & V2 & _); [|done].
  pose proof (good_pre _ _ Hv Hs V2) as G2. assert (adv b b2) as A2' by (by etransitivity).
  destruct (negb (e =? 0)); [by eexists _, _, _|]. pose proof G2 as (V2' & S2' & _).
  destruct (obj_next_filter_spec (filter_fuel b2) obj ign b2 res2 V2' S2') as (r3 & res3 & b3 & -> & A3 & G3).
  - rewrite (adv_json _ _ A2'). by apply A2'.
  - unfold filter_fuel. lia.
  - eexists _, _, _. split_and!; [done|by etransitivity|by eapply good_trans].
Qed.

Lemma next_filter_spec obj ign b res :
  val_ok res → str_ok res → (off b ≤ length (json b))%nat →
  ∃ r res' b', ujson_obj_next_filter obj ign b res = Some (r, res', b') ∧ adv b b' ∧ good res res'.
Proof.
  intros Hv Hs Hoff. unfold ujson_obj_next_filter, check_err. destruct (ujson_reader_err b).
  { eexists _, _, _. split_and!; [done|done|by apply good_pre; [..|right]]. }
  destruct (obj_pre_next b res) as [[p res2] b2] eqn:E2. apply obj_pre_next_spec in E2 as (A2 & V2 & _).
  pose proof (good_pre _ _ Hv Hs V2) as G2. destruct (negb (p =? 0)); [by eexists _, _, _|]. pose proof G2 as (V2' & S2' & _).
  destruct (obj_next_filter_spec (filter_fuel b2) obj ign b2 res2 V2' S2') as (r3 & res3 & b3 & -> & A3 & G3).
  - rewrite (adv_json _ _ A2). by apply A2.
  - unfold filter_fuel. lia.
  - eexists _, _, _. split_and!; [done|by etransitivity|by eapply good_trans].
Qed.

Lemma rcall_exec_inv c b res :
  reader_inv b res → ∃ res' b', rcall_exec c b res = Some (res', b') ∧ json b' = json b ∧ reader_inv b' res'.
Proof.
  intros Hinv. pose proof Hinv as (Hoff & Hsub & Hv & Hs).
  assert (Hnav : ∀ (x : option (Z * ujson_val * ujson_reader)),
    (∃ r res' b', x = Some (r, res', b') ∧ adv b b' ∧ good res res') →
    ∃ res' b', ('(_, res, b) ← x; Some (res, b)) = Some (res', b') ∧ json b' = json b ∧ reader_inv b' res').
  { intros x (r & res' & b' & -> & A & G). eexists _, _. split_and!; [done|by apply A|by eapply inv_adv]. }
  assert (Hfirst : ∀ k, ∃ r res' b', first_of k b res = Some (r, res', b') ∧ adv b b' ∧ good res res').
  { intros k. destruct (first_of_spec k b res Hv Hs Hoff) as (r & res' & b' & E & (A & V & S & B & _) & _).
    eexists _, _, _. split_and!; [exact E|exact A|by split_and!]. }
  assert (Hnext : ∀ k, ∃ r res' b', next_of k b res = Some (r, res', b') ∧ adv b b' ∧ good res res').
  { intros k. destruct (next_of_spec k b res Hv Hs Hoff) as (r & res' & b' & E & (A & V & S & B & _) & _).
    eexists _, _, _. split_and!; [exact E|exact A|by split_and!]. }
  assert (good res res) as Grefl by (by apply good_pre; [..|left]).
  destruct c; cbn [rcall_exec].
  - apply Hnav, (Hfirst InObj).
  - apply Hnav, (Hnext InObj).
  - apply Hnav, (Hfirst InArr).
  - apply Hnav, (Hnext InArr).
  - by apply Hnav, first_filter_spec.
  - by apply Hnav, next_filter_spec.
  - destruct (skip_total k b Hoff) as (r & b' & -> & A). eexists _, _. split_and!; [done|by apply A|by eapply inv_adv].
  - unfold ujson_reader_state_load. destruct (ujson_reader_err b); eexists _, _; (split_and!; [done|done|]); [done|].
    by split_and!.
  - eexists _, _. split_and!; [done|done|]. split_and!; [simpl; lia..|done|done].
  - destruct (finish_spec b Hoff) as (b' & -> & A). eexists _, _. split_and!; [done|by apply A|by eapply inv_adv].
Qed.

(** C15. On any bytes that are followed by a terminator, any sequence of calls
    of the reader (first and next value of objects and arrays, with or without
    attribute lists, skipping, going back to the last container, resetting,
    finishing) ends, without a write outside the string buffer of the caller
    or the 64 bytes of the key, and without a read past the terminator where
    the lines of a message are printed; the position stays in the text, so
    that the parser, which compares it with the length before each read, stays
    there too, and a string that was read is terminated within its buffer. *)
Theorem ujson_reader_safe (cs : list rcall) (b : ujson_reader) (res : ujson_val) :
  reader_inv b res →
  ∃ res' b', rcalls cs b res = Some (res', b') ∧ json b' = json b ∧ reader_inv b' res'.
Proof.
  revert b res. induction cs as [|c cs IH]; intros b res Hinv; [by eexists _, _|]. cbn [rcalls].
  destruct (rcall_exec_inv c b res Hinv) as (res1 & b1 & -> & J1 & H1). bind_step.
  destruct (IH b1 res1 H1) as (res2 & b2 & -> & J2 & H2). eexists _, _. split_and!; [done|congruence|done].
Qed.

Lemma ujson_reader_safe_witness :
  ∃ res' b', rcalls [CObjFirst; CObjNext; CSkip InArr; CObjNext; CFinish]
    (UJSON_READER_INIT (str "{" ++ [cDQ; 97; cDQ] ++ str ": 1, garbage") true) (UJSON_VAL_INIT 4) = Some (res', b') ∧
    reader_inv b' res'.
Proof.
  destruct (ujson_reader_safe [CObjFirst; CObjNext; CSkip InArr; CObjNext; CFinish]
    (UJSON_READER_INIT (str "{" ++ [cDQ; 97; cDQ] ++ str ": 1, garbage") true) (UJSON_VAL_INIT 4))
    as (res' & b' & H & _ & H').
  - split_and!; [simpl; lia|simpl; lia| |done]. split; [simpl; lia|reflexivity].
  - exists res', b'. split; [exact H|exact H'].
Defined.

(** [ujson_lookup] on an array sorted by strcmp is defined and returns
    the index of the key, or -1 exactly when the key is not in the array. *)
Theorem ujson_lookup_correct (arr : list (list Z)) (key : list Z) :
  sorted_keys arr → cstring key →
  ∃ r, ujson_lookup arr key = Some r ∧
    match r with Some i => arr !! i = Some key | None => key ∉ arr end.
Proof. intros Hs Hk. by apply lookup_spec. Qed.

Lemma ujson_lookup_correct_witness :
  ujson_lookup [str "bool"; str "id"; str "number"; str "type"] (str "type") = Some (Some 3%nat).
Proof.
  destruct (ujson_lookup_correct [str "bool"; str "id"; str "number"; str "type"] (str "type")) as (r & H & H').
  - split; [by repeat constructor|]. intros i j a b Hi Hj Hij.
    destruct i as [|[|[|[|i]]]], j as [|[|[|[|j]]]]; simplify_eq/=; try lia; vm_compute; reflexivity.
  - by repeat constructor.
  - assert (E : ujson_lookup [str "bool"; str "id"; str "number"; str "type"] (str "type") = Some (Some 3%nat))
      by (vm_compute; reflexivity).
    rewrite E in H. injection H as <-. exact E.
Defined.

(** [ujson_err_print] reports the line of the error, counted from 1, the
    last up to ten lines before it with the line of the error as the last
    one, an arrow below its column, and the message. *)
Theorem ujson_err_print_position (b : ujson_reader) :
  (off b ≤ length (json b))%nat → err_print b = true →
  let before := take (off b) (json b) in
  let nr := S (nl_count before) in
  let col := last_col before in
  ∃ ctx b' l, ujson_err_print b = Some b' ∧
    printed b' = printed b ++ snprintf (UJSON_ERR_MAX + 1) (str "Parse error at line " ++ fmt_03zu nr) :: [] ::
      ctx ++ [arrow_line (mem b) (off b - col) col; err b] ∧
    length ctx = Nat.min ERR_LINES nr ∧ last ctx = Some l ∧ json_line (mem b) nr (off b - col) = Some l.
Proof.
  intros Hoff Hp before nr col. unfold ujson_err_print. rewrite Hp. cbn [negb].
  destruct (print_snippet_spec b (str "Parse error") Hoff) as (ctx & b' & l & -> & _ & _ & R & P & L & Last & Hl).
  rewrite obind_Some. unfold upto in *. rewrite Nat.sub_0_r, drop_0 in *.
  eexists ctx, _, l. split_and!; [done| |exact L|exact Last|exact Hl].
  cbn [printed add_line]. rewrite P, R, <- app_assoc. cbn [app]. by rewrite <- app_assoc.
Qed.

Lemma ujson_err_print_position_witness :
  ∃ ctx b', ujson_err_print (set_err (str "bad") (set_off 9 (UJSON_READER_INIT (str "{" ++ [10; 9] ++ str "1: x" ++ [10; 125]) false))) = Some b' ∧
    printed b' = str "Parse error at line 003" :: [] ::
      ctx ++ [arrow_line (str "{" ++ [10; 9] ++ str "1: x" ++ [10; 125; 0]) 8 1; str "bad"] ∧ length ctx = 3%nat.
Proof.
  destruct (ujson_err_print_position
    (set_err (str "bad") (set_off 9 (UJSON_READER_INIT (str "{" ++ [10; 9] ++ str "1: x" ++ [10; 125]) false))))
    as (ctx & b' & l & H & H' & H'' & _); [vm_compute; lia|reflexivity|].
  exists ctx, b'. split_and!; [exact H|rewrite H'; reflexivity|rewrite H''; reflexivity].
Defined.

(** When the key of the next member is malformed, [ujson_obj_next] sets
    the error but leaves the type of the previous value, so the loop macro
    runs its body once more on the old value. *)
Theorem ujson_obj_next_stale (b b1 b2 : ujson_reader) (res res1 : ujson_val) (i : list Z) :
  err b = [] → obj_pre_next b res = (0, res1, b1) → copy_id_str (id res1) b1 = Some (1, i, b2) →
  val_ok res1 → (off b1 ≤ length (json b1))%nat →
  ujson_obj_next b res = Some (0, set_id i res1, b2) ∧ type (set_id i res1) = type res ∧ err b2 ≠ [].
Proof.
  intros He Hpre Hid [_ Hv] Hoff. unfold ujson_obj_next, check_err.
  assert (ujson_reader_err b = false) as -> by (unfold ujson_reader_err; by rewrite He).
  rewrite Hpre. cbn [Z.eqb negb]. unfold obj_next. rewrite Hid, obind_Some. cbn beta iota.
  split_and!; [done| |].
  - pose proof (obj_pre_next_spec _ _ _ _ _ Hpre) as (_ & V & _). cbn.
    unfold obj_pre_next in Hpre. assert (ujson_reader_err b = false) as Hr by (unfold ujson_reader_err; by rewrite He).
    rewrite Hr in Hpre. destruct (check_end b res _) as [[e r2] b3] eqn:E2. apply check_end_spec in E2 as (_ & _ & _ & Z2); [|done].
    destruct (Z.eqb_spec e 0) as [->|Hne]; cbn [negb] in Hpre; [|discriminate Hpre].
    destruct (pre_next b3 r2) as [[p r3] b4] eqn:E3. apply pre_next_spec in E3 as (_ & _ & Z3).
    destruct (Z.eqb_spec p 0) as [->|Hne]; cbn [negb] in Hpre; [|discriminate Hpre].
    injection Hpre as <- <-. destruct (Z2 eq_refl) as (-> & _). destruct (Z3 eq_refl) as (_ & -> & _). done.
  - destruct (copy_id_str_spec (id res1) b1 Hv Hoff) as (r & i' & b' & E & _ & _ & _ & R).
    rewrite Hid in E. injection E as <- <- <-. by apply R.
Qed.

Definition stale_json : list Z := str "{" ++ [cDQ; 97; cDQ] ++ str ": 7, b".

Lemma ujson_obj_next_stale_witness :
  ∃ v b v' b', ujson_obj_first (UJSON_READER_INIT stale_json false) (UJSON_VAL_INIT 8) = Some (1, v, b) ∧
    type v = UJSON_INT ∧ ujson_obj_next b v = Some (0, v', b') ∧ type v' = UJSON_INT ∧ err b' ≠ [].
Proof.
  assert (∃ v b, ujson_obj_first (UJSON_READER_INIT stale_json false) (UJSON_VAL_INIT 8) = Some (1, v, b)) as (v & b & E)
    by (eexists _, _; vm_compute; reflexivity).
  pose proof E as E'. vm_compute in E'. injection E' as Ev Eb.
  assert (∃ v1 b1, obj_pre_next b v = (0, v1, b1)) as (v1 & b1 & E1) by (rewrite <- Ev, <- Eb; eexists _, _; vm_compute; reflexivity).
  pose proof E1 as E1'. rewrite <- Ev, <- Eb in E1'. vm_compute in E1'. injection E1' as Ev1 Eb1.
  assert (∃ i b2, copy_id_str (id v1) b1 = Some (1, i, b2)) as (i & b2 & E2) by (rewrite <- Ev1, <- Eb1; eexists _, _; vm_compute; reflexivity).
  destruct (ujson_obj_next_stale b b1 b2 v v1 i) as (H1 & H2 & H3).
  - rewrite <- Eb. reflexivity.
  - exact E1.
  - exact E2.
  - rewrite <- Ev1. split; [simpl; lia|reflexivity].
  - rewrite <- Eb1. vm_compute. lia.
  - exists v, b, (set_id i v1), b2. rewrite <- Ev in H2 |- *. split_and!; [rewrite Ev; exact E|reflexivity|rewrite Ev; exact H1|exact H2|exact H3].
Defined.

(** A strict reader that meets a value of the wrong type for a listed
    attribute sets its error and returns 0, but leaves the value with its
    type and index: the loop over the object still hands it to the body. *)
Theorem strict_filter_passes_wrong_type (fuel : nat) (obj : ujson_obj) (ign : option ujson_obj)
    (b b1 b2 : ujson_reader) (res res2 : ujson_val) (i : list Z) (n : nat) (attr : ujson_obj_attr) :
  strict b = true → val_ok res → str_ok res → (off b ≤ length (json b))%nat →
  copy_id_str (id res) b = Some (0, i, b1) → ujson_obj_lookup obj (c_str i) = Some (Some n) → obj !! n = Some attr →
  get_value b1 (set_idx (Some n) (set_id i res)) = Some (1, res2, b2) →
  type_matches (attr_type attr) (type res2) = false →
  ∃ b3, obj_next_filter (S fuel) (Some obj) ign b res = Some (0, res2, b3) ∧ ujson_reader_err b3 = true ∧
    idx res2 = Some n.
Proof.
  intros Hst [Hv1 Hv2] Hs Hoff Hid Hlk Hn Hget Hty. cbn [obj_next_filter]. rewrite Hid, obind_Some. cbn beta iota.
  cbn [Z.eqb negb id set_id]. rewrite Hlk, obind_Some, Hget, obind_Some. cbn beta iota. cbn [Z.eqb].
  rewrite obind_Some, Hn, obind_Some, Hty.
  destruct (copy_id_str_spec (id res) b Hv2 Hoff) as (r & i' & b' & E & A & _ & L & _).
  rewrite Hid in E. injection E as <- <- <-.
  destruct (get_value_spec b1 (set_idx (Some n) (set_id i res))) as (r & res' & b' & E & A2 & _ & _ & X & _).
  { by split. } { exact Hs. }
  { rewrite (adv_json _ _ A). by apply A. }
  rewrite Hget in E. injection E as <- <- <-.
  unfold ujson_warn. rewrite (adv_strict _ _ A2), (adv_strict _ _ A), Hst, obind_Some.
  unfold obj_pre_next. set (b3 := set_err _ b2). assert (ujson_reader_err b3 = true) as -> by done.
  eexists. split_and!; [done|done|exact X].
Qed.

Definition wrong_json : list Z := [cDQ; 97; cDQ] ++ str ": " ++ [cDQ; 115; cDQ] ++ str "}".

Lemma strict_filter_passes_wrong_type_witness :
  ∃ v b, obj_next_filter 20 (Some [mk_attr (str "a") UJSON_INT]) None (UJSON_READER_INIT wrong_json true) (UJSON_VAL_INIT 8)
    = Some (0, v, b) ∧ ujson_reader_err b = true ∧ type v = UJSON_STR.
Proof.
  assert (∃ i b1, copy_id_str (id (UJSON_VAL_INIT 8)) (UJSON_READER_INIT wrong_json true) = Some (0, i, b1)) as (i & b1 & E1)
    by (eexists _, _; vm_compute; reflexivity).
  pose proof E1 as E1'. vm_compute in E1'. injection E1' as Ei Eb1.
  assert (∃ v b2, get_value b1 (set_idx (Some 0%nat) (set_id i (UJSON_VAL_INIT 8))) = Some (1, v, b2)) as (v & b2 & E2)
    by (rewrite <- Ei, <- Eb1; eexists _, _; vm_compute; reflexivity).
  pose proof E2 as E2'. rewrite <- Ei, <- Eb1 in E2'. vm_compute in E2'. injection E2' as Ev Eb2.
  destruct (strict_filter_passes_wrong_type 19 [mk_attr (str "a") UJSON_INT] None (UJSON_READER_INIT wrong_json true)
    b1 b2 (UJSON_VAL_INIT 8) v i 0 (mk_attr (str "a") UJSON_INT)) as (b3 & H1 & H2 & _).
  - reflexivity.
  - split; [simpl; lia|reflexivity].
  - done.
  - simpl. lia.
  - exact E1.
  - rewrite <- Ei. vm_compute. reflexivity.
  - reflexivity.
  - exact E2.
  - rewrite <- Ev. reflexivity.
  - exists v, b3. split_and!; [exact H1|exact H2|rewrite <- Ev; reflexivity].
Defined.
