(* ===== verification/UjsonWriter.v ===== *)
(** * The JSON writer (libs/ujson/ujson_writer.c, include/ujson_writer.h)

    The writer keeps for every open object or array one bit for its kind and
    one bit for "nothing written yet", and produces the text through an
    output function.  The output function is a parameter here: given the
    state of the sink and some bytes it returns its result, an error message
    if it sets one, and the new state.  [None] stands for an access outside
    an array, or a loop that does not end. *)

From S2P Require Import Prelude UjsonUtf UjsonReader.
Open Scope Z_scope.

Record ujson_writer (S : Type) := mk_wr {
  wdepth : Z;
  depth_type : list Z;
  depth_first : list Z;
  werr : list Z;
  sink : S;
}.
Arguments mk_wr {S}.
Arguments wdepth {S}.
Arguments depth_type {S}.
Arguments depth_first {S}.
Arguments werr {S}.
Arguments sink {S}.

(** [UJSON_RECURSION_MAX/8] *)
Definition MASK_BYTES : nat := 16.

Section Writer.
Context {S : Type}.
Context (out_fn : S → list Z → Z * option (list Z) * S).

#[local] Abbreviation writer := (ujson_writer S).

Definition UJSON_WRITER_INIT (s : S) : writer :=
  mk_wr 0 (replicate MASK_BYTES 0) (replicate MASK_BYTES 0) [] s.

Definition set_wdepth (d : Z) (w : writer) : writer :=
  mk_wr d (depth_type w) (depth_first w) (werr w) (sink w).
Definition set_masks (t f : list Z) (w : writer) : writer :=
  mk_wr (wdepth w) t f (werr w) (sink w).
Definition set_werr (m : list Z) (w : writer) : writer :=
  mk_wr (wdepth w) (depth_type w) (depth_first w) m (sink w).

(** ** The depth bits *)

(** [int depth = self->depth - 1;] *)
Definition top_depth (w : writer) : Z := wraps 32 (wdepth w - 1).

Definition get_depth_bit (w : writer) (mask : list Z) : option Z :=
  let d := top_depth w in
  if d <? 0 then Some (-1) else
  m ← mask !! Z.to_nat (d / 8);
  Some (c_bool (negb (Z.land m (Z.shiftl 1 (d mod 8)) =? 0))).

Definition set_depth_bit (w : writer) (v : bool) : option writer :=
  let d := wdepth w in
  let k := Z.to_nat (d / 8) in
  let bit := Z.shiftl 1 (d mod 8) in
  t ← depth_type w !! k;
  f ← depth_first w !! k;
  let t := if v then Z.lor t bit else Z.land t (Z.lnot bit) in
  Some (set_wdepth (wrapu 32 (d + 1))
          (set_masks (<[k := t]> (depth_type w)) (<[k := Z.lor f bit]> (depth_first w)) w)).

Definition clear_depth_bit (w : writer) : writer := set_wdepth (wrapu 32 (wdepth w - 1)) w.

Definition in_arr (w : writer) : option bool := r ← get_depth_bit w (depth_type w); Some (r =? 0).

Definition in_obj (w : writer) : option bool := r ← get_depth_bit w (depth_type w); Some (negb (r =? 0)).

Definition clear_depth_first (w : writer) : option writer :=
  let d := top_depth w in
  let k := Z.to_nat (d / 8) in
  f ← depth_first w !! k;
  Some (set_masks (depth_type w) (<[k := Z.land f (Z.lnot (Z.shiftl 1 (d mod 8)))]> (depth_first w)) w).

Definition is_first (w : writer) : option (Z * writer) :=
  r ← get_depth_bit w (depth_first w);
  if r =? 1 then w ← clear_depth_first w; Some (r, w) else Some (r, w).

(** ** Output *)

Definition werror (msg : list Z) (w : writer) : writer := set_werr (snprintf UJSON_ERR_MAX msg) w.

Definition is_err (w : writer) : bool := negb (bool_decide (werr w = [])).

Definition out (w : writer) (bytes : list Z) : Z * writer :=
  let '(r, e, s) := out_fn (sink w) bytes in
  (r, mk_wr (wdepth w) (depth_type w) (depth_first w)
        (match e with Some m => snprintf UJSON_ERR_MAX m | None => werr w end) s).

Definition out_str (w : writer) (s : list Z) : Z * writer := out w s.
Definition out_ch (w : writer) (ch : Z) : Z * writer := out w [ch].

(** The escape sequence of a character that has one. *)
Definition esc_of (c : Z) : option (list Z) :=
  if c =? cDQ then Some ["\"%cc; cDQ]
  else if c =? "\"%cc then Some (str "\\")
  else if c =? "/"%cc then Some (str "\/")
  else if c =? 8 then Some (str "\b")
  else if c =? 12 then Some (str "\f")
  else if c =? 10 then Some (str "\n")
  else if c =? 13 then Some (str "\r")
  else if c =? 9 then Some (str "\t")
  else None.

(** ESC_FLUSH: the results of the two calls are not looked at. *)
Definition esc_flush (w : writer) (v : list Z) (i : nat) (esc : list Z) : writer :=
  snd (out_str (snd (out w (take i v))) esc).

(** [i += next_chsz], where -1 steps back and before the start of the string
    when [i] is 0. *)
Definition step_i (i : nat) (n : Z) : option nat :=
  if n <? 0 then match i with O => None | Datatypes.S i => Some i end else Some (i + Z.to_nat n)%nat.

(** The do-while loop: the writer, and the rest of the string with the
    number of its bytes that are still to be written. *)
Fixpoint esc_loop (fuel : nat) (w : writer) (v : list Z) (i : nat) : option (writer * list Z * nat) :=
  match fuel with
  | O => None
  | Datatypes.S fuel =>
      n ← ujson_utf8_next_chsz v i;
      if n =? 0 then Some (w, v, i) else
      if n =? 1 then
        c ← cget v i;
        match esc_of c with
        | Some esc => esc_loop fuel (esc_flush w v i esc) (drop (i + 1) v) 0
        | None => esc_loop fuel w v (i + 1)
        end
      else i ← step_i i n; esc_loop fuel w v i
  end.

(** One round for every character, and one for the terminator. *)
Definition out_esc_str (w : writer) (v : list Z) : option (Z * writer) :=
  let '(r, w) := out_ch w cDQ in
  if negb (r =? 0) then Some (1, w) else
  '(w, v, i) ← esc_loop (Datatypes.S (length v)) w v 0;
  let '(r, w) := if decide (i = 0%nat) then (0, w) else out w (take i v) in
  if negb (r =? 0) then Some (1, w) else
  let '(r, w) := out_ch w cDQ in
  if negb (r =? 0) then Some (1, w) else Some (0, w).

Fixpoint padd_loop (n : nat) (w : writer) : Z * writer :=
  match n with
  | O => (0, w)
  | Datatypes.S n =>
      let '(r, w) := out_ch w (" "%cc) in
      if negb (r =? 0) then (1, w) else padd_loop n w
  end.

Definition do_padd (w : writer) : Z * writer := padd_loop (Z.to_nat (wdepth w)) w.

Definition newline (w : writer) : Z * writer :=
  let '(r, w) := out_ch w 10 in
  if negb (r =? 0) then (0, w) else
  let '(r, w) := do_padd w in
  if negb (r =? 0) then (1, w) else (0, w).

(** ** Adding values.  The key is [None] for NULL. *)

Definition add_common (w : writer) (id : option (list Z)) : option (Z * writer) :=
  if is_err w then Some (1, w) else
  if wdepth w =? 0 then Some (1, werror (str "Object/Array has to be started first") w) else
  a ← in_arr w;
  if a && bool_decide (is_Some id) then Some (1, werror (str "Array entries can't have id") w) else
  if negb a && bool_decide (id = None) then Some (1, werror (str "Object entries must have id") w) else
  '(first, w) ← is_first w;
  let '(r, w) := if first =? 0 then out_ch w (","%cc) else (0, w) in
  if negb (r =? 0) then Some (1, w) else
  let '(r, w) := if negb (wdepth w =? 0) then newline w else (0, w) in
  if negb (r =? 0) then Some (1, w) else
  match id with
  | None => Some (0, w)
  | Some id =>
      '(r, w) ← out_esc_str w id;
      if negb (r =? 0) then Some (1, w) else
      let '(r, w) := out_str w (str ": ") in
      if negb (r =? 0) then Some (1, w) else Some (0, w)
  end.

(** The common end of [ujson_obj_start] and [ujson_arr_start]. *)
Definition start_common (w : writer) (id : option (list Z)) (what : list Z) (ch : Z) (v : bool)
    : option (Z * writer) :=
  if (wdepth w =? 0) && bool_decide (is_Some id) then
    Some (1, werror (str "Top level " ++ what ++ str " cannot have id") w) else
  '(r, w) ← (if negb (wdepth w =? 0) then add_common w id else Some (0, w));
  if negb (r =? 0) then Some (1, w) else
  let '(r, w) := out_ch w ch in
  if negb (r =? 0) then Some (1, w) else
  w ← set_depth_bit w v; Some (0, w).

Definition ujson_obj_start (w : writer) (id : option (list Z)) : option (Z * writer) :=
  if UJSON_RECURSION_MAX <=? wdepth w then Some (1, w)
  else start_common w id (str "object") ("{"%cc) true.

Definition ujson_arr_start (w : writer) (id : option (list Z)) : option (Z * writer) :=
  if UJSON_RECURSION_MAX <=? wdepth w then Some (1, werror (str "Recursion too deep") w)
  else start_common w id (str "array") ("["%cc) false.

(** The common end of [ujson_obj_finish] and [ujson_arr_finish]. *)
Definition finish_common (w : writer) (ch : Z) : option (Z * writer) :=
  '(first, w) ← is_first w;
  let w := clear_depth_bit w in
  let w := if first =? 0 then snd (newline w) else w in
  Some (out_ch w ch).

Definition ujson_obj_finish (w : writer) : option (Z * writer) :=
  if is_err w then Some (1, w) else
  o ← in_obj w;
  if negb o then Some (1, werror (str "Not in object!") w) else finish_common w ("}"%cc).

Definition ujson_arr_finish (w : writer) : option (Z * writer) :=
  if is_err w then Some (1, w) else
  a ← in_arr w;
  if negb a then Some (1, werror (str "Not in array!") w) else finish_common w ("]"%cc).

Definition ujson_null_add (w : writer) (id : option (list Z)) : option (Z * writer) :=
  '(r, w) ← add_common w id;
  if negb (r =? 0) then Some (1, w) else Some (out_str w (str "null")).

Definition ujson_int_add (w : writer) (id : option (list Z)) (v : Z) : option (Z * writer) :=
  '(r, w) ← add_common w id;
  if negb (r =? 0) then Some (1, w) else Some (out_str w (snprintf 64 (fmt_li v))).

Definition ujson_bool_add (w : writer) (id : option (list Z)) (v : Z) : option (Z * writer) :=
  '(r, w) ← add_common w id;
  if negb (r =? 0) then Some (1, w) else
  Some (if negb (v =? 0) then out_str w (str "true") else out_str w (str "false")).

Definition ujson_str_add (w : writer) (id : option (list Z)) (v : list Z) : option (Z * writer) :=
  '(r, w) ← add_common w id;
  if negb (r =? 0) then Some (1, w) else
  '(r, w) ← out_esc_str w v;
  if negb (r =? 0) then Some (1, w) else Some (0, w).

(** [lg] is what ["%lg"] prints for the double. *)
Definition ujson_float_add (w : writer) (id : option (list Z)) (lg : list Z) : option (Z * writer) :=
  '(r, w) ← add_common w id;
  if negb (r =? 0) then Some (1, w) else Some (out_str w (snprintf 64 lg)).

(** The result, the writer and what is given to the error handler. *)
Definition ujson_writer_finish (w : writer) : Z * writer * option (list Z) :=
  if is_err w then (1, w, Some (werr w)) else
  if negb (wdepth w =? 0) then
    let w := werror (str "Objects and/or Arrays not finished") w in (1, w, Some (werr w))
  else let '(r, w) := newline w in if negb (r =? 0) then (1, w, None) else (0, w, None).
End Writer.

(** ** The file sink *)

(** [struct json_writer_file] with the content of the file and what the next
    calls of write(2) return; when the list is used up a write is complete. *)
Record json_writer_file := mk_wf {
  wbuf : list Z;            (* buf[0..buf_used) *)
  file : list Z;
  writes : list Z;
}.

Definition WF_BUF_SIZE : nat := 1024.

(** [write(fd, buf, buf_len)] *)
Definition sys_write (f : json_writer_file) (bytes : list Z) (len : nat) : Z * json_writer_file :=
  let '(r, ws) := match writes f with [] => (Z.of_nat len, []) | r :: ws => (r, ws) end in
  (r, mk_wf (wbuf f) (file f ++ take (Nat.min (Z.to_nat r) len) bytes) ws).

(** [buf_len] goes down while [buf] stays.  A successful write takes at least
    one byte, so [len] rounds are enough and the fuel is never used up. *)
Fixpoint file_write_loop (fuel : nat) (f : json_writer_file) (bytes : list Z) (len : nat)
    : Z * option (list Z) * json_writer_file :=
  let '(r, f) := sys_write f bytes len in
  if r <=? 0 then (1, Some (str "Failed to write to a file"), f)
  else if Z.of_nat len <? r then (1, Some (str "Wrote more bytes than requested?!"), f)
  else
    let len := (len - Z.to_nat r)%nat in
    match len, fuel with
    | O, _ => (0, None, f)
    | _, O => (0, None, f)
    | _, Datatypes.S fuel => file_write_loop fuel f bytes len
    end.

Definition out_writer_file_write (f : json_writer_file) (bytes : list Z) (len : nat)
    : Z * option (list Z) * json_writer_file := file_write_loop len f bytes len.

Definition out_writer_file (f : json_writer_file) (bytes : list Z) : Z * option (list Z) * json_writer_file :=
  let len := length bytes in
  let avail := (WF_BUF_SIZE - length (wbuf f))%nat in
  if (WF_BUF_SIZE / 4 <? len)%nat then out_writer_file_write f bytes len
  else if (avail <=? len)%nat then
    let '(r, e, f) := out_writer_file_write f (wbuf f) (length (wbuf f)) in
    if negb (r =? 0) then (1, e, f) else (0, None, mk_wf bytes (file f) (writes f))
  else (0, None, mk_wf (wbuf f ++ bytes) (file f) (writes f)).

(** [werrno] and [cerrno] are errno after a failed write and after close, 0
    when close succeeds. *)
Definition ujson_writer_file_close (f : json_writer_file) (werrno cerrno : Z) : Z * json_writer_file :=
  let '(r, f) := if decide (wbuf f = []) then (0, f) else
                 let '(r, _, f) := out_writer_file_write f (wbuf f) (length (wbuf f)) in (r, f) in
  let saved_errno := if negb (r =? 0) then werrno else 0 in
  let saved_errno := if negb (cerrno =? 0) && (saved_errno =? 0) then cerrno else saved_errno in
  (c_bool (negb (saved_errno =? 0)), f).

Definition ujson_writer_file_open : ujson_writer json_writer_file :=
  UJSON_WRITER_INIT (mk_wf [] [] []).
