(* ===== verification/UjsonWriterFacts.v ===== *)
(** * The JSON writer keeps a stack and writes well-nested text

    The two bit masks and the depth of the writer are shown to represent a
    stack of open containers.  On this the calls are described against any
    sink that appends what it gets ([AppendSink]); the buffered file sink is
    one for pieces of at most 256 bytes. *)

From S2P Require Import Prelude UjsonUtf UjsonReader UjsonWriter.
Open Scope Z_scope.

(** ** Bits in an array of bytes *)

Definition bit (m : list Z) (k : nat) : bool := Z.testbit (default 0 (m !! (k / 8)%nat)) (Z.of_nat (k mod 8)).

Lemma land_bit m k : 0 ≤ k → (Z.land m (Z.shiftl 1 k) =? 0) = negb (Z.testbit m k).
Proof.
  intros Hk. rewrite Z.shiftl_1_l. destruct (Z.testbit m k) eqn:E; cbn [negb].
  - apply Z.eqb_neq. intros H. apply (f_equal (λ z, Z.testbit z k)) in H.
    rewrite Z.land_spec, Z.pow2_bits_true, Z.bits_0, E in H by done. done.
  - apply Z.eqb_eq. apply Z.bits_inj'. intros i Hi. rewrite Z.land_spec, Z.bits_0.
    destruct (decide (i = k)) as [->|Hne]; [by rewrite E|]. by rewrite Z.pow2_bits_false, andb_false_r.
Qed.

(** Changing one bit of one byte. *)
Lemma bit_insert m k x v :
  (k / 8 < length m)%nat →
  (∀ j, 0 ≤ j < 8 → Z.testbit x j = if decide (j = Z.of_nat (k mod 8)) then v
                                    else Z.testbit (default 0 (m !! (k / 8)%nat)) j) →
  ∀ i, bit (<[(k / 8)%nat := x]> m) i = if decide (i = k) then v else bit m i.
Proof.
  intros Hlt Hx i. unfold bit. pose proof (Nat.div_mod i 8) as Di. pose proof (Nat.div_mod k 8) as Dk.
  pose proof (Nat.mod_upper_bound i 8) as Mi. pose proof (Nat.mod_upper_bound k 8) as Mk.
  destruct (decide (i / 8 = k / 8)%nat) as [E|E].
  - rewrite E, list_lookup_insert_eq by done. cbn [default]. change (Datatypes.id x) with x.
    rewrite Hx by lia. destruct (decide (i = k)) as [->|Hne]; [by rewrite decide_True|].
    rewrite decide_False; [done|]. intros Hm. apply Hne. lia.
  - rewrite list_lookup_insert_ne by congruence. rewrite decide_False; [done|]. by intros ->.
Qed.

Lemma testbit_lor_bit t k j : 0 ≤ k → 0 ≤ j → Z.testbit (Z.lor t (Z.shiftl 1 k)) j = if decide (j = k) then true else Z.testbit t j.
Proof.
  intros Hk Hj. rewrite Z.lor_spec, Z.shiftl_1_l. destruct (decide (j = k)) as [->|Hne].
  - by rewrite Z.pow2_bits_true, orb_true_r.
  - by rewrite Z.pow2_bits_false, orb_false_r.
Qed.

Lemma testbit_clear_bit t k j :
  0 ≤ k → 0 ≤ j → Z.testbit (Z.land t (Z.lnot (Z.shiftl 1 k))) j = if decide (j = k) then false else Z.testbit t j.
Proof.
  intros Hk Hj. rewrite Z.land_spec, Z.lnot_spec, Z.shiftl_1_l by done. destruct (decide (j = k)) as [->|Hne].
  - by rewrite Z.pow2_bits_true, andb_false_r.
  - by rewrite Z.pow2_bits_false, andb_true_r.
Qed.

(** ** The stack of containers *)

(** One open container: it is an object, and nothing was written to it. *)
Abbreviation frame := (bool * bool)%type.

Section Stack.
Context {S : Type}.
#[local] Abbreviation writer := (ujson_writer S).

(** The bits of depth [i] describe the [i]-th open container. *)
Record rep (w : writer) (st : list frame) : Prop := mk_rep {
  rep_depth : wdepth w = Z.of_nat (length st);
  rep_max : (length st ≤ 128)%nat;
  rep_type_len : length (depth_type w) = MASK_BYTES;
  rep_first_len : length (depth_first w) = MASK_BYTES;
  rep_bits : ∀ i f, st !! i = Some f → bit (depth_type w) i = f.1 ∧ bit (depth_first w) i = f.2;
}.

Lemma top_depth_eq (w : writer) st f : rep w (st ++ [f]) → top_depth w = Z.of_nat (length st).
Proof.
  intros [D M _ _ _]. unfold top_depth. rewrite D, length_app in *. cbn [length] in *.
  rewrite wraps_small by (change (2 ^ (32 - 1)) with 2147483648; lia). lia.
Qed.

Lemma get_bit (w : writer) st f (mask : list Z) v :
  rep w (st ++ [f]) → length mask = MASK_BYTES → bit mask (length st) = v →
  get_depth_bit w mask = Some (c_bool v).
Proof.
  intros R Hl Hv. unfold get_depth_bit. rewrite (top_depth_eq w st f R).
  pose proof (rep_max _ _ R) as M. rewrite length_app in M. cbn [length] in M.
  destruct (Z.ltb_spec (Z.of_nat (length st)) 0); [lia|].
  assert (Z.to_nat (Z.of_nat (length st) / 8) = length st / 8)%nat as ->.
  { change 8 with (Z.of_nat 8). rewrite <- Nat2Z.inj_div. lia. }
  assert (length st / 8 < length mask)%nat as Hk.
  { rewrite Hl. unfold MASK_BYTES. apply Nat.Div0.div_lt_upper_bound. lia. }
  destruct (lookup_lt_is_Some_2 _ _ Hk) as [m Hm]. rewrite Hm, obind_Some.
  rewrite land_bit by (apply Z.mod_pos_bound; lia). rewrite negb_involutive.
  unfold bit in Hv. rewrite Hm in Hv. cbn [default] in Hv. change (Datatypes.id m) with m in Hv.
  rewrite Nat2Z.inj_mod in Hv. change (Z.of_nat 8) with 8 in Hv. by rewrite Hv.
Qed.

Lemma get_type (w : writer) st f : rep w (st ++ [f]) → get_depth_bit w (depth_type w) = Some (c_bool f.1).
Proof.
  intros R. apply (get_bit w st f); [done|apply R|]. apply (rep_bits _ _ R). by rewrite list_lookup_middle.
Qed.

Lemma get_first (w : writer) st f : rep w (st ++ [f]) → get_depth_bit w (depth_first w) = Some (c_bool f.2).
Proof.
  intros R. apply (get_bit w st f); [done|apply R|]. apply (rep_bits _ _ R). by rewrite list_lookup_middle.
Qed.

Lemma in_arr_eq (w : writer) st f : rep w (st ++ [f]) → in_arr w = Some (negb f.1).
Proof. intros R. unfold in_arr. rewrite (get_type w st f R). by destruct f.1. Qed.

Lemma in_obj_eq (w : writer) st f : rep w (st ++ [f]) → in_obj w = Some f.1.
Proof. intros R. unfold in_obj. rewrite (get_type w st f R). by destruct f.1. Qed.

(** [set_depth_bit] pushes a container. *)
Lemma push_rep (w : writer) st v :
  rep w st → (length st < 128)%nat →
  ∃ w', set_depth_bit w v = Some w' ∧ rep w' (st ++ [(v, true)]) ∧ werr w' = werr w ∧ sink w' = sink w.
Proof.
  intros [D M T F B] Hlt. unfold set_depth_bit. rewrite D.
  assert (Z.to_nat (Z.of_nat (length st) / 8) = length st / 8)%nat as ->.
  { change 8 with (Z.of_nat 8). rewrite <- Nat2Z.inj_div. lia. }
  assert (length st / 8 < MASK_BYTES)%nat as Hk by (unfold MASK_BYTES; apply Nat.Div0.div_lt_upper_bound; lia).
  destruct (lookup_lt_is_Some_2 (depth_type w) (length st / 8)) as [t Ht]; [by rewrite T|].
  destruct (lookup_lt_is_Some_2 (depth_first w) (length st / 8)) as [f Hf]; [by rewrite F|].
  rewrite Ht, obind_Some, Hf, obind_Some.
  assert (Z.of_nat (length st) mod 8 = Z.of_nat (length st mod 8)) as Em by (by rewrite Nat2Z.inj_mod).
  rewrite Em. eexists. split_and!; [reflexivity| |done|done]. split; cbn [wdepth depth_type depth_first set_wdepth set_masks].
  - rewrite length_app. cbn [length]. rewrite wrapu_small by (change (2 ^ 32) with 4294967296; lia). lia.
  - rewrite length_app. simpl. lia.
  - by rewrite length_insert.
  - by rewrite length_insert.
  - intros i g Hg.
    rewrite (bit_insert (depth_type w) (length st) _ v); [|by rewrite T| ].
    2:{ intros j Hj. rewrite Ht. cbn [default]. change (Datatypes.id t) with t.
        destruct v; [apply testbit_lor_bit|apply testbit_clear_bit]; lia. }
    rewrite (bit_insert (depth_first w) (length st) _ true); [|by rewrite F| ].
    2:{ intros j Hj. rewrite Hf. cbn [default]. change (Datatypes.id f) with f. apply testbit_lor_bit; lia. }
    apply lookup_app_Some in Hg as [Hg|[Hge Hg]].
    + assert (i ≠ length st) as Hne by (apply lookup_lt_Some in Hg; intros ->; lia).
      destruct (decide (i = length st)); [done|]. by apply B.
    + apply list_lookup_singleton_Some in Hg as [Hi <-]. assert (i = length st) as -> by lia.
      by destruct (decide (length st = length st)).
Qed.

(** [is_first] tells whether the container is empty and marks it used. *)
Lemma is_first_rep (w : writer) st k f :
  rep w (st ++ [(k, f)]) →
  ∃ w', is_first w = Some (c_bool f, w') ∧ rep w' (st ++ [(k, false)]) ∧ werr w' = werr w ∧ sink w' = sink w.
Proof.
  intros R. unfold is_first. rewrite (get_first w st (k, f) R), obind_Some. cbn [snd].
  destruct f; cbn [c_bool]; [|by exists w]. change (1 =? 1) with true. cbn beta iota.
  unfold clear_depth_first. rewrite (top_depth_eq w st _ R).
  pose proof R as [D M T F B]. rewrite length_app in M, D. cbn [length] in M, D.
  assert (Z.to_nat (Z.of_nat (length st) / 8) = length st / 8)%nat as ->.
  { change 8 with (Z.of_nat 8). rewrite <- Nat2Z.inj_div. lia. }
  assert (length st / 8 < MASK_BYTES)%nat as Hk by (unfold MASK_BYTES; apply Nat.Div0.div_lt_upper_bound; lia).
  destruct (lookup_lt_is_Some_2 (depth_first w) (length st / 8)) as [g Hg]; [by rewrite F|].
  rewrite Hg, !obind_Some.
  assert (Z.of_nat (length st) mod 8 = Z.of_nat (length st mod 8)) as Em by (by rewrite Nat2Z.inj_mod).
  rewrite Em. eexists. split_and!; [reflexivity| |done|done].
  split; cbn [wdepth depth_type depth_first set_masks]; rewrite ?length_app, ?length_insert; cbn [length]; [lia|lia|done|done|].
  intros i h Hh. rewrite (bit_insert (depth_first w) (length st) _ false); [|by rewrite F| ].
  2:{ intros j Hj. rewrite Hg. cbn [default]. change (Datatypes.id g) with g. apply testbit_clear_bit; lia. }
  apply lookup_app_Some in Hh as [Hh|[Hge Hh]].
  - destruct (decide (i = length st)) as [->|_]; [apply lookup_lt_Some in Hh; lia|].
    apply B. by apply lookup_app_l_Some.
  - apply list_lookup_singleton_Some in Hh as [Hi <-]. assert (i = length st) as -> by lia.
    rewrite decide_True by done. split; [|done]. by apply (B (length st) (k, true)), list_lookup_middle.
Qed.

(** [clear_depth_bit] pops a container. *)
Lemma pop_rep (w : writer) st f :
  rep w (st ++ [f]) →
  rep (clear_depth_bit w) st ∧ werr (clear_depth_bit w) = werr w ∧ sink (clear_depth_bit w) = sink w.
Proof.
  intros [D M T F B]. rewrite length_app in D, M. cbn [length] in D, M. split_and!; [|done|done].
  split; cbn [wdepth depth_type depth_first clear_depth_bit set_wdepth]; [|lia|done|done|].
  - rewrite D, wrapu_small by (change (2 ^ 32) with 4294967296; lia). lia.
  - intros i g Hg. apply B. by apply lookup_app_l_Some.
Qed.
End Stack.

(** ** Sinks *)

(** A sink that appends the pieces it gets, if they are not too long. *)
Class AppendSink (S : Type) (out_fn : S → list Z → Z * option (list Z) * S) := mk_sink {
  sink_ok : S → Prop;
  content : S → list Z;
  piece_len : nat → Prop;
  piece_small : ∀ n, (n ≤ 64)%nat → piece_len n;
  piece_mono : ∀ m n, (m ≤ n)%nat → piece_len n → piece_len m;
  sink_append : ∀ s bs, sink_ok s → piece_len (length bs) →
    ∃ s', out_fn s bs = (0, None, s') ∧ sink_ok s' ∧ content s' = content s ++ bs;
}.

(** A string that grows. *)
Definition string_out (s : list Z) (bs : list Z) : Z * option (list Z) * list Z := (0, None, s ++ bs).

#[export] Program Instance string_sink : AppendSink (list Z) string_out :=
  mk_sink _ _ (λ _, True) (λ s, s) (λ _, True) _ _ _.
Next Obligation. done. Qed.
Next Obligation. done. Qed.
Next Obligation. intros s bs _ _. eexists. by split_and!. Qed.

(** The file sink, while every write is complete. *)
Definition file_ok (f : json_writer_file) : Prop := writes f = [] ∧ (length (wbuf f) < WF_BUF_SIZE)%nat.

Lemma file_write_complete f bs n :
  writes f = [] → n = length bs → (0 < n)%nat →
  out_writer_file_write f bs n = (0, None, mk_wf (wbuf f) (file f ++ bs) []).
Proof.
  intros Hw -> Hn. unfold out_writer_file_write. destruct (length bs) as [|n] eqn:E; [lia|].
  cbn [file_write_loop]. unfold sys_write. rewrite Hw.
  destruct (Z.leb_spec (Z.of_nat (Datatypes.S n)) 0); [lia|].
  destruct (Z.ltb_spec (Z.of_nat (Datatypes.S n)) (Z.of_nat (Datatypes.S n))); [lia|].
  rewrite Nat2Z.id, Nat.sub_diag, Nat.min_id, take_ge by lia. done.
Qed.

#[export] Program Instance file_sink : AppendSink json_writer_file out_writer_file :=
  mk_sink _ _ file_ok (λ f, file f ++ wbuf f) (λ n, (n ≤ WF_BUF_SIZE / 4)%nat) _ _ _.
Next Obligation. intros n Hn. simpl. change (WF_BUF_SIZE / 4)%nat with 256%nat. lia. Qed.
Next Obligation. intros m n Hmn Hn. simpl in *. lia. Qed.
Next Obligation.
  intros f bs [Hw Hl] Hn. simpl in Hn. unfold out_writer_file.
  change (WF_BUF_SIZE / 4)%nat with 256%nat. destruct (Nat.ltb_spec 256 (length bs)) as [L|L]; [lia|].
  unfold WF_BUF_SIZE in *.
  destruct (Nat.leb_spec (1024 - length (wbuf f)) (length bs)) as [L2|L2].
  - rewrite file_write_complete by (done || lia). eexists. cbn [Z.eqb negb]. split_and!; [done| |].
    + split; cbn; [done|unfold WF_BUF_SIZE; lia].
    + cbn. by rewrite <- app_assoc.
  - eexists. split_and!; [done| |].
    + split; cbn; [done|]. rewrite length_app. unfold WF_BUF_SIZE. lia.
    + cbn. by rewrite app_assoc.
Qed.

(** ** The calls *)

(** The line break before a member at depth [d]. *)
Definition nl (d : nat) : list Z := 10 :: replicate d (" "%cc).

(** A byte of a string as it is written. *)
Definition esc_byte (c : Z) : list Z := match esc_of c with Some e => e | None => [c] end.
Definition esc_bytes (s : list Z) : list Z := concat (esc_byte <$> s).

Lemma esc_bytes_app a b : esc_bytes (a ++ b) = esc_bytes a ++ esc_bytes b.
Proof. unfold esc_bytes. by rewrite fmap_app, concat_app. Qed.

Lemma esc_of_high c : 128 ≤ c → esc_of c = None.
Proof.
  intros Hc. unfold esc_of, cDQ.
  repeat match goal with |- context [c =? ?x] => destruct (Z.eqb_spec c x); [lia|] end. done.
Qed.

Lemma esc_bytes_high s : Forall (λ c, 128 ≤ c) s → esc_bytes s = s.
Proof.
  induction 1 as [|c s Hc _ IH]; [done|]. change (esc_bytes (c :: s)) with (esc_byte c ++ esc_bytes s).
  unfold esc_byte. rewrite esc_of_high by done. by rewrite IH.
Qed.

(** A string of encoded characters. *)
Definition utf8 (s : list Z) : Prop := ∃ us, s = utf8_string us ∧ Forall ucode us.

Section Ops.
Context {S : Type} {out_fn : S → list Z → Z * option (list Z) * S} `{!AppendSink S out_fn}.
#[local] Abbreviation writer := (ujson_writer S).

(** The writer has the containers [st] open and has written [t]. *)
Definition wr (w : writer) (st : list frame) (t : list Z) : Prop :=
  rep w st ∧ werr w = [] ∧ sink_ok (sink w) ∧ content (sink w) = t.

Lemma out_wr w st t bs :
  wr w st t → piece_len (length bs) → ∃ w', out out_fn w bs = (0, w') ∧ wr w' st (t ++ bs).
Proof.
  intros ([D M T F B] & E & O & C) Hp. unfold out.
  destruct (sink_append (sink w) bs O Hp) as (s' & -> & O' & C'). eexists. split; [done|].
  split_and!; [by split|done|done|]. by rewrite <- C.
Qed.

Lemma out_small w st t bs :
  wr w st t → (length bs ≤ 64)%nat → ∃ w', out out_fn w bs = (0, w') ∧ wr w' st (t ++ bs).
Proof. intros Hw Hl. by apply out_wr; [|apply piece_small]. Qed.

Lemma padd_wr n w st t :
  wr w st t → ∃ w', padd_loop out_fn n w = (0, w') ∧ wr w' st (t ++ replicate n (" "%cc)).
Proof.
  revert w t. induction n as [|n IH]; intros w t Hw; cbn [padd_loop].
  { exists w. by rewrite app_nil_r. }
  unfold out_ch. destruct (out_small w st t [" "%cc] Hw) as (w1 & -> & Hw1); [simpl; lia|]. cbn [Z.eqb negb].
  destruct (IH w1 _ Hw1) as (w2 & -> & Hw2). exists w2. split; [done|]. by rewrite <- app_assoc in Hw2.
Qed.

Lemma newline_wr w st t : wr w st t → ∃ w', newline out_fn w = (0, w') ∧ wr w' st (t ++ nl (length st)).
Proof.
  intros Hw. unfold newline, out_ch. destruct (out_small w st t [10] Hw) as (w1 & -> & Hw1); [simpl; lia|].
  cbn [Z.eqb negb]. unfold do_padd. pose proof Hw1 as ([D _ _ _ _] & _). rewrite D, Nat2Z.id.
  destruct (padd_wr (length st) w1 st _ Hw1) as (w2 & -> & Hw2). cbn [Z.eqb negb].
  exists w2. split; [done|]. by rewrite <- app_assoc in Hw2.
Qed.

Lemma esc_bytes_cons c s : esc_bytes (c :: s) = esc_byte c ++ esc_bytes s.
Proof. done. Qed.

(** Characters of more than one byte have no escape. *)
Lemma esc_bytes_long u : ucode u → ujson_utf8_bytes u ≠ 1%nat → esc_bytes (ujson_to_utf8 u) = ujson_to_utf8 u.
Proof.
  intros Hu Hb. apply esc_bytes_high.
  destruct (bytes_cases u Hu) as [(_ & _ & H1)|[(a & b & -> & _ & ? & ?)|[(a & b & c & -> & _ & ? & ? & ?)|
    (a & b & c & d & -> & _ & ? & ? & ? & ?)]]]; [done|repeat constructor; lia..].
Qed.

Lemma esc_flush_wr w st t p u esc rest :
  wr w st t → piece_len (length p) → esc_of u = Some esc →
  wr (esc_flush out_fn w (p ++ u :: rest) (length p) esc) st (t ++ p ++ esc).
Proof.
  intros Hw Hp Ee. unfold esc_flush, out_str. rewrite take_app_length.
  destruct (out_wr w st t p Hw Hp) as (w1 & -> & Hw1). cbn [snd]. assert (length esc ≤ 64)%nat as Hle.
  { unfold esc_of in Ee. repeat case_match; simplify_eq/=; lia. }
  destruct (out_small w1 st _ esc Hw1 Hle) as (w2 & -> & Hw2). by rewrite <- app_assoc in Hw2.
Qed.

(** What the loop leaves: [x] is written, and [take i v] is still to come. *)
Definition esc_done (r : option (writer * list Z * nat)) (st : list frame) (t y : list Z) : Prop :=
  ∃ w' v i x, r = Some (w', v, i) ∧ wr w' st (t ++ x) ∧ x ++ take i v = y ∧ piece_len (length (take i v)).

Lemma esc_loop_wr fuel us p w st t :
  Forall ucode us → (length us < fuel)%nat → wr w st t → piece_len (length (p ++ utf8_string us)) →
  esc_done (esc_loop out_fn fuel w (p ++ utf8_string us) (length p)) st t (p ++ esc_bytes (utf8_string us)).
Proof.
  intros Hus. revert fuel p w t. induction Hus as [|u us Hu Hus IH]; intros fuel p w t Hf Hw Hp;
    (destruct fuel as [|fuel]; [simpl in Hf; lia|]); cbn [esc_loop].
  { cbn [utf8_string concat fmap list_fmap] in *. rewrite app_nil_r in *.
    unfold ujson_utf8_next_chsz. autorewrite with cstr. exists w, p, (length p), []. split_and!; [done| | |].
    - by rewrite app_nil_r.
    - rewrite take_ge by done. by rewrite app_nil_r.
    - by rewrite take_ge. }
  change (utf8_string (u :: us)) with (ujson_to_utf8 u ++ utf8_string us) in *.
  rewrite next_chsz, obind_Some by done. simpl in Hf. rewrite esc_bytes_app.
  assert (esc_bytes (ujson_to_utf8 u) = ujson_to_utf8 u →
    esc_done (esc_loop out_fn fuel w (p ++ ujson_to_utf8 u ++ utf8_string us) (length p + ujson_utf8_bytes u)) st t
      (p ++ esc_bytes (ujson_to_utf8 u) ++ esc_bytes (utf8_string us))) as Hplain.
  { intros ->. rewrite <- length_to_utf8, <- length_app, !app_assoc. apply IH; [lia|done|by rewrite <- app_assoc]. }
  destruct (decide (ujson_utf8_bytes u = 1%nat)) as [Eb|Hb].
  - destruct (bytes_cases u Hu) as [(L & E & _)|[(a & b & _ & E & _)|[(a & b & c & _ & E & _)|(a & b & c & d & _ & E & _)]]]; [|lia..].
    rewrite Eb in *. change (Z.of_nat 1) with 1. cbn [Z.eqb Pos.eqb]. rewrite E in *. cbn [app] in *.
    rewrite cget_app_mid, obind_Some. destruct (esc_of u) as [esc|] eqn:Ee.
    + pose proof (esc_flush_wr w st t p u esc (utf8_string us) Hw) as Hw2.
      assert (drop (length p + 1) (p ++ u :: utf8_string us) = utf8_string us) as ->.
      { rewrite <- drop_drop, drop_app_length. done. }
      destruct (IH fuel [] (esc_flush out_fn w (p ++ u :: utf8_string us) (length p) esc) (t ++ p ++ esc)) as (w' & v & i & x & E' & Hw' & Hx & Hp'); [lia| | |].
      { apply Hw2; [|done]. eapply piece_mono; [|exact Hp]. rewrite length_app. lia. }
      { eapply piece_mono; [|exact Hp]. rewrite !length_app. simpl. lia. }
      exists w', v, i, (p ++ esc ++ x). split_and!; [exact E'|by rewrite <- !app_assoc in Hw'; rewrite !app_assoc in *| |done].
      rewrite <- !app_assoc, Hx. f_equal. unfold esc_bytes at 2, esc_byte. simpl. by rewrite Ee, app_nil_r.
    + apply Hplain. unfold esc_bytes, esc_byte. simpl. by rewrite Ee.
  - unfold step_i. destruct (Z.eqb_spec (Z.of_nat (ujson_utf8_bytes u)) 0) as [E0|].
    { pose proof (length_to_utf8 u). destruct (bytes_cases u Hu) as [(_ & _ & ?)|[(a & b & _ & ? & _)|[(a & b & c & _ & ? & _)|(a & b & c & d & _ & ? & _)]]]; lia. }
    destruct (Z.eqb_spec (Z.of_nat (ujson_utf8_bytes u)) 1); [lia|].
    destruct (Z.ltb_spec (Z.of_nat (ujson_utf8_bytes u)) 0); [lia|]. rewrite Nat2Z.id, obind_Some.
    by apply Hplain, esc_bytes_long.
Qed.

Lemma out_esc_str_wr w st t s :
  wr w st t → utf8 s → piece_len (length s) →
  ∃ w', out_esc_str out_fn w s = Some (0, w') ∧ wr w' st (t ++ [cDQ] ++ esc_bytes s ++ [cDQ]).
Proof.
  intros Hw (us & -> & Hus) Hp. unfold out_esc_str, out_ch.
  destruct (out_small w st t [cDQ] Hw) as (w1 & -> & Hw1); [simpl; lia|]. cbn [Z.eqb negb].
  destruct (esc_loop_wr (Datatypes.S (length (utf8_string us))) us [] w1 st (t ++ [cDQ]) Hus) as (w2 & v & i & x & E & Hw2 & Hx & Hp2).
  { pose proof (length_utf8_string us). lia. } { exact Hw1. } { done. }
  cbn [app length] in E, Hx. rewrite E, obind_Some. cbn beta iota.
  assert (∃ w3, (if decide (i = 0%nat) then (0, w2) else out out_fn w2 (take i v)) = (0, w3) ∧
    wr w3 st ((t ++ [cDQ]) ++ esc_bytes (utf8_string us))) as (w3 & -> & Hw3).
  { rewrite <- Hx. destruct (decide (i = 0%nat)) as [->|Hi].
    - exists w2. split; [done|]. by rewrite app_nil_r.
    - destruct (out_wr w2 st _ (take i v) Hw2 Hp2) as (w3 & E3 & Hw3). exists w3. split; [done|]. by rewrite <- app_assoc in Hw3. }
  cbn [Z.eqb negb]. destruct (out_small w3 st _ [cDQ] Hw3) as (w4 & -> & Hw4); [simpl; lia|]. cbn [Z.eqb negb].
  exists w4. split; [done|]. by rewrite <- !app_assoc in Hw4.
Qed.

(** What is written before a value: the comma, the line break and the key. *)
Definition lead (d : nat) (k first : bool) (key : list Z) : list Z :=
  (if first then [] else str ",") ++ nl d ++ (if k then [cDQ] ++ esc_bytes key ++ [cDQ] ++ str ": " else []).

(** The key argument in a container of kind [k]. *)
Definition key_arg (k : bool) (key : list Z) : option (list Z) := if k then Some key else None.

Lemma add_common_wr w st k f t key :
  wr w (st ++ [(k, f)]) t → (k = true → utf8 key ∧ piece_len (length key)) →
  ∃ w', add_common out_fn w (key_arg k key) = Some (0, w') ∧
    wr w' (st ++ [(k, false)]) (t ++ lead (Datatypes.S (length st)) k f key).
Proof.
  intros (R & E & O & C) Hk. unfold add_common, is_err. rewrite E, bool_decide_true by done. cbn [negb].
  assert ((wdepth w =? 0) = false) as ->.
  { rewrite (rep_depth _ _ R), length_app. simpl. apply Z.eqb_neq. lia. }
  rewrite (in_arr_eq w st (k, f) R), obind_Some. cbn [fst].
  assert (negb k && bool_decide (is_Some (key_arg k key)) = false) as -> by (by destruct k).
  assert (negb (negb k) && bool_decide (key_arg k key = None) = false) as -> by (by destruct k).
  destruct (is_first_rep w st k f R) as (w1 & -> & R1 & E1 & S1). bind_step.
  assert (wr w1 (st ++ [(k, false)]) t) as Hw1 by (split_and!; [done|congruence|by rewrite S1|by rewrite S1]).
  assert (∃ w2, (if c_bool f =? 0 then out_ch out_fn w1 (","%cc) else (0, w1)) = (0, w2) ∧
    wr w2 (st ++ [(k, false)]) (t ++ (if f then [] else str ","))) as (w2 & -> & Hw2).
  { destruct f; cbn [c_bool Z.eqb]; [exists w1; by rewrite app_nil_r|]. by apply out_small; [|simpl; lia]. }
  cbn [Z.eqb negb].
  assert ((wdepth w2 =? 0) = false) as ->.
  { destruct Hw2 as (R2 & _). rewrite (rep_depth _ _ R2), length_app. simpl. apply Z.eqb_neq. lia. }
  cbn [negb]. destruct (newline_wr w2 _ _ Hw2) as (w3 & -> & Hw3). cbn [Z.eqb negb].
  rewrite length_app, Nat.add_1_r, <- app_assoc in Hw3. unfold lead.
  destruct k; cbn [key_arg].
  - destruct (Hk eq_refl) as [Hu Hp]. destruct (out_esc_str_wr w3 _ _ key Hw3 Hu Hp) as (w4 & -> & Hw4).
    rewrite obind_Some. cbn [Z.eqb negb]. unfold out_str.
    destruct (out_small w4 _ _ (str ": ") Hw4) as (w5 & -> & Hw5); [vm_compute; lia|]. cbn [Z.eqb negb].
    exists w5. split; [done|]. by rewrite <- !app_assoc in Hw5.
  - exists w3. split; [done|]. by rewrite app_nil_r.
Qed.

Lemma start_wr w st t ch v k f key :
  wr w (st ++ [(k, f)]) t → (length st + 1 < 128)%nat → (k = true → utf8 key ∧ piece_len (length key)) →
  ∀ what, ∃ w', start_common out_fn w (key_arg k key) what ch v = Some (0, w') ∧
    wr w' ((st ++ [(k, false)]) ++ [(v, true)]) (t ++ lead (Datatypes.S (length st)) k f key ++ [ch]).
Proof.
  intros Hw Hlt Hk what. unfold start_common. pose proof Hw as (R & _).
  assert ((wdepth w =? 0) = false) as ->.
  { rewrite (rep_depth _ _ R), length_app. simpl. apply Z.eqb_neq. lia. }
  cbn [andb negb]. destruct (add_common_wr w st k f t key Hw Hk) as (w1 & -> & Hw1).
  rewrite obind_Some. cbn [Z.eqb negb]. unfold out_ch.
  destruct (out_small w1 _ _ [ch] Hw1) as (w2 & -> & (R2 & E2 & O2 & C2)); [simpl; lia|]. cbn [Z.eqb negb].
  destruct (push_rep w2 _ v R2) as (w3 & -> & R3 & E3 & S3); [rewrite length_app; simpl; lia|].
  rewrite obind_Some. exists w3. split; [done|]. rewrite app_assoc.
  split_and!; [done|congruence|by rewrite S3|by rewrite S3].
Qed.

Lemma start_top_wr w t ch v :
  wr w [] t → ∀ what, ∃ w', start_common out_fn w None what ch v = Some (0, w') ∧ wr w' [(v, true)] (t ++ [ch]).
Proof.
  intros Hw what. unfold start_common. pose proof Hw as (R & _). rewrite (rep_depth _ _ R).
  change (Z.of_nat (length []) =? 0) with true. rewrite bool_decide_false by (by intros [? ?]). cbn [negb andb].
  rewrite obind_Some. cbn [Z.eqb negb]. unfold out_ch.
  destruct (out_small w _ _ [ch] Hw) as (w2 & -> & (R2 & E2 & O2 & C2)); [simpl; lia|]. cbn [Z.eqb negb].
  destruct (push_rep w2 _ v R2) as (w3 & -> & R3 & E3 & S3); [simpl; lia|].
  rewrite obind_Some. exists w3. split; [done|]. split_and!; [done|congruence|by rewrite S3|by rewrite S3].
Qed.

(** Closing a container breaks the line unless it is empty. *)
Lemma finish_wr w st k f t ch :
  wr w (st ++ [(k, f)]) t →
  ∃ w', finish_common out_fn w ch = Some (0, w') ∧ wr w' st (t ++ (if f then [] else nl (length st)) ++ [ch]).
Proof.
  intros (R & E & O & C). unfold finish_common.
  destruct (is_first_rep w st k f R) as (w1 & -> & R1 & E1 & S1). bind_step.
  destruct (pop_rep w1 st _ R1) as (R2 & E2 & S2). set (w2 := clear_depth_bit w1) in *.
  assert (wr w2 st t) as Hw2 by (split_and!; [done|congruence|by rewrite S2, S1|by rewrite S2, S1]).
  assert (∃ w3, (if c_bool f =? 0 then snd (newline out_fn w2) else w2) = w3 ∧ wr w3 st (t ++ (if f then [] else nl (length st))))
    as (w3 & -> & Hw3).
  { destruct f; cbn [c_bool Z.eqb]; [exists w2; by rewrite app_nil_r|].
    destruct (newline_wr w2 st t Hw2) as (w3 & -> & Hw3). by exists w3. }
  unfold out_ch. destruct (out_small w3 st _ [ch] Hw3) as (w4 & -> & Hw4); [simpl; lia|].
  exists w4. split; [done|]. by rewrite <- app_assoc in Hw4.
Qed.

Lemma obj_finish_wr w st f t :
  wr w (st ++ [(true, f)]) t →
  ∃ w', ujson_obj_finish out_fn w = Some (0, w') ∧ wr w' st (t ++ (if f then [] else nl (length st)) ++ str "}").
Proof.
  intros Hw. pose proof Hw as (R & E & _). unfold ujson_obj_finish, is_err. rewrite E, bool_decide_true by done.
  cbn [negb]. rewrite (in_obj_eq w st _ R), obind_Some. cbn [fst negb]. by apply (finish_wr w st true f).
Qed.

Lemma arr_finish_wr w st f t :
  wr w (st ++ [(false, f)]) t →
  ∃ w', ujson_arr_finish out_fn w = Some (0, w') ∧ wr w' st (t ++ (if f then [] else nl (length st)) ++ str "]").
Proof.
  intros Hw. pose proof Hw as (R & E & _). unfold ujson_arr_finish, is_err. rewrite E, bool_decide_true by done.
  cbn [negb]. rewrite (in_arr_eq w st _ R), obind_Some. cbn [fst negb]. by apply (finish_wr w st false f).
Qed.
End Ops.

(** ** Errors *)

Section Errors.
Context {S : Type} (out_fn : S → list Z → Z * option (list Z) * S).
#[local] Abbreviation writer := (ujson_writer S).

(** The calls that add something to an open container or close it. *)
Inductive wcall :=
  | CNull (id : option (list Z))
  | CInt (id : option (list Z)) (v : Z)
  | CBool (id : option (list Z)) (v : Z)
  | CStr (id : option (list Z)) (v : list Z)
  | CFloat (id : option (list Z)) (lg : list Z)
  | CObjStart (id : option (list Z))
  | CArrStart (id : option (list Z))
  | CObjFinish
  | CArrFinish.

Definition wcall_exec (c : wcall) (w : writer) : option (Z * writer) :=
  match c with
  | CNull id => ujson_null_add out_fn w id
  | CInt id v => ujson_int_add out_fn w id v
  | CBool id v => ujson_bool_add out_fn w id v
  | CStr id v => ujson_str_add out_fn w id v
  | CFloat id lg => ujson_float_add out_fn w id lg
  | CObjStart id => ujson_obj_start out_fn w id
  | CArrStart id => ujson_arr_start out_fn w id
  | CObjFinish => ujson_obj_finish out_fn w
  | CArrFinish => ujson_arr_finish out_fn w
  end.

(** The key the call gives, for the calls that take one. *)
Definition call_id (c : wcall) : option (option (list Z)) :=
  match c with
  | CNull id | CInt id _ | CBool id _ | CStr id _ | CFloat id _ | CObjStart id | CArrStart id => Some id
  | CObjFinish | CArrFinish => None
  end.

Lemma add_common_fails c id w w' :
  call_id c = Some id → 0 < wdepth w < 128 → add_common out_fn w id = Some (1, w') → wcall_exec c w = Some (1, w').
Proof.
  intros Hc Hd H. assert ((wdepth w =? 0) = false) as E0 by (apply Z.eqb_neq; lia).
  assert ((UJSON_RECURSION_MAX <=? wdepth w) = false) as E1 by (apply Z.leb_gt; unfold UJSON_RECURSION_MAX; lia).
  destruct c; cbn in Hc; simplify_eq; cbn [wcall_exec];
    unfold ujson_null_add, ujson_int_add, ujson_bool_add, ujson_str_add, ujson_float_add, ujson_obj_start, ujson_arr_start, start_common;
    rewrite ?E1, ?E0; cbn [andb negb]; by rewrite H, obind_Some.
Qed.

Definition wrong_key (k : bool) (id : option (list Z)) : Prop := k = bool_decide (id = None).

(** Misuse inside a container is an error: a key in an array, no key in
    an object, or the end of the other kind of container.  The call returns
    1, the error is set and nothing is written. *)
Theorem ujson_writer_misuse (w : writer) st k f c :
  rep w (st ++ [(k, f)]) → werr w = [] → (length st < 127)%nat →
  match call_id c with Some id => wrong_key k id | None => c = (if k then CArrFinish else CObjFinish) end →
  ∃ w', wcall_exec c w = Some (1, w') ∧ werr w' ≠ [] ∧ sink w' = sink w ∧ wdepth w' = wdepth w.
Proof.
  intros R E Hl Hc. pose proof (rep_depth _ _ R) as Hd. rewrite length_app in Hd. simpl in Hd.
  destruct (call_id c) as [id|] eqn:Ec.
  - assert (∃ w', add_common out_fn w id = Some (1, w') ∧ werr w' ≠ [] ∧ sink w' = sink w ∧ wdepth w' = wdepth w) as (w' & Ea & H).
    { unfold add_common, is_err. rewrite E, bool_decide_true by done. cbn [negb].
      rewrite (proj2 (Z.eqb_neq (wdepth w) 0)) by lia. rewrite (in_arr_eq w st (k, f) R), obind_Some. cbn [fst].
      unfold wrong_key in Hc. subst k. destruct id as [id|]; by eexists. }
    exists w'. split; [|done]. by apply (add_common_fails c id); [|lia|].
  - subst c. destruct k; cbn [wcall_exec]; unfold ujson_arr_finish, ujson_obj_finish, is_err;
      (rewrite E, bool_decide_true by done; cbn [negb]);
      [rewrite (in_arr_eq w st _ R)|rewrite (in_obj_eq w st _ R)]; rewrite obind_Some; by eexists.
Qed.

(** Errors stick: inside a container, after an error every call returns 1
    and leaves the writer, and what it wrote, as it is; the end of the
    document reports the error that was set first. *)
Theorem ujson_writer_err_sticks (w : writer) c :
  werr w ≠ [] → 0 < wdepth w < 128 →
  wcall_exec c w = Some (1, w) ∧ ujson_writer_finish out_fn w = (1, w, Some (werr w)).
Proof.
  intros E Hd. assert (is_err w = true) as He by (unfold is_err; by rewrite bool_decide_false).
  split; [|unfold ujson_writer_finish; by rewrite He].
  destruct (call_id c) as [id|] eqn:Ec.
  - apply (add_common_fails c id); [done|lia|]. unfold add_common. by rewrite He.
  - destruct c; try done; cbn; unfold ujson_obj_finish, ujson_arr_finish; by rewrite He.
Qed.

(** Closing an object that was never opened is not noticed: at depth 0
    [in_obj] is -1, which is true.  The brace is written and the depth wraps
    around to UINT_MAX. *)
Theorem ujson_obj_finish_underflow (w : writer) :
  wdepth w = 0 → werr w = [] →
  ∃ w', ujson_obj_finish out_fn w = Some (out out_fn w' (str "}")) ∧ wdepth w' = 2 ^ 32 - 1.
Proof.
  intros Hd He. unfold ujson_obj_finish, is_err, in_obj, finish_common, is_first, get_depth_bit, top_depth.
  rewrite He, Hd, bool_decide_true by done. cbn [negb]. change (wraps 32 (0 - 1) <? 0) with true. cbn iota.
  rewrite !obind_Some. eexists. split; [reflexivity|]. cbn. by rewrite Hd.
Qed.

(** A string that is not UTF-8 is never finished: at a byte that starts
    no character the size of the next character is -1, and the loop steps
    back to the character before, again and again. *)
Theorem ujson_esc_str_diverges (w : writer) (a c : Z) :
  0 < a < 128 → esc_of a = None → 128 ≤ c < 192 → ∀ fuel, esc_loop out_fn fuel w [a; c] 0 = None.
Proof.
  intros Ha He Hc.
  assert (ujson_utf8_next_chsz [a; c] 0 = Some 1) as E0.
  { unfold ujson_utf8_next_chsz. change (cget [a; c] 0) with (Some a). rewrite obind_Some.
    destruct (Z.eqb_spec a 0); [lia|]. by rewrite ascii_bits by lia. }
  assert (ujson_utf8_next_chsz [a; c] 1 = Some (-1)) as E1.
  { pose proof (range_forall (λ x, negb (UJSON_UTF8_IS_ASCII (128 + x)) && negb (UJSON_UTF8_IS_2BYTE (128 + x)) &&
      negb (UJSON_UTF8_IS_3BYTE (128 + x)) && negb (UJSON_UTF8_IS_4BYTE (128 + x))) 64 (c - 128) eq_refl) as H.
    cbn beta in H. replace (128 + (c - 128)) with c in H by lia. specialize (H ltac:(lia)). rewrite !andb_true_iff, !negb_true_iff in H.
    destruct H as [[[H1 H2] H3] H4]. unfold ujson_utf8_next_chsz. change (cget [a; c] 1) with (Some c). rewrite obind_Some.
    destruct (Z.eqb_spec c 0); [lia|]. by rewrite H1, H2, H3, H4. }
  intros fuel. assert (∀ n fuel i, (fuel ≤ n)%nat → (i ≤ 1)%nat → esc_loop out_fn fuel w [a; c] i = None) as H; [|by apply (H fuel); lia].
  clear fuel. induction n as [|n IH]; intros fuel i Hf Hi; (destruct fuel as [|fuel]; [done|]); [lia|]. cbn [esc_loop].
  destruct i as [|[|i]]; [| |lia].
  - rewrite E0, obind_Some. cbn [Z.eqb Pos.eqb]. change (cget [a; c] 0) with (Some a). rewrite obind_Some, He. apply IH; lia.
  - rewrite E1, obind_Some. cbn [Z.eqb Pos.eqb]. change (step_i 1 (-1)) with (Some 0%nat). rewrite obind_Some. apply IH; lia.
Qed.
End Errors.

(** ** The file sink out of its limits *)

(** A piece of more than a quarter of the buffer is written at once,
    before what is still in the buffer: a short piece and then a long one end
    up in the file in the opposite order. *)
Theorem out_writer_file_reorders (a b : list Z) :
  (0 < length a ≤ 256)%nat → (256 < length b)%nat →
  ∃ f1 f2 f3, out_writer_file (mk_wf [] [] []) a = (0, None, f1) ∧ out_writer_file f1 b = (0, None, f2) ∧
    ujson_writer_file_close f2 0 0 = (0, f3) ∧ file f3 = b ++ a.
Proof.
  intros Ha Hb. exists (mk_wf a [] []), (mk_wf a b []), (mk_wf a (b ++ a) []).
  assert (a ≠ []) by (by intros ->; simpl in Ha; lia).
  split_and!; [| | |done].
  - unfold out_writer_file. change (WF_BUF_SIZE / 4)%nat with 256%nat. destruct (Nat.ltb_spec 256 (length a)); [lia|].
    unfold WF_BUF_SIZE. cbn [wbuf length]. by destruct (Nat.leb_spec (1024 - 0) (length a)); [lia|].
  - unfold out_writer_file. change (WF_BUF_SIZE / 4)%nat with 256%nat. destruct (Nat.ltb_spec 256 (length b)); [|lia].
    by rewrite file_write_complete by (done || lia).
  - unfold ujson_writer_file_close. cbn [wbuf]. rewrite decide_False by done.
    by rewrite file_write_complete by (done || lia).
Qed.

(** After a short write of [n] bytes the start of the piece is written
    again in place of its rest. *)
Theorem out_writer_file_write_short (bs buf0 file0 : list Z) (n : nat) :
  (0 < n < length bs)%nat →
  out_writer_file_write (mk_wf buf0 file0 [Z.of_nat n]) bs (length bs) =
    (0, None, mk_wf buf0 (file0 ++ take n bs ++ take (length bs - n) bs) []).
Proof.
  intros Hn. unfold out_writer_file_write. destruct (length bs) as [|[|m]] eqn:El; [lia..|]. cbn [file_write_loop].
  unfold sys_write at 1. cbn [writes wbuf file]. destruct (Z.leb_spec (Z.of_nat n) 0); [lia|].
  destruct (Z.ltb_spec (Z.of_nat (Datatypes.S (Datatypes.S m))) (Z.of_nat n)); [lia|]. rewrite Nat2Z.id, Nat.min_l by lia.
  destruct (Datatypes.S (Datatypes.S m) - n)%nat as [|r] eqn:Er; [lia|]. unfold sys_write. cbn [writes wbuf file].
  destruct (Z.leb_spec (Z.of_nat (Datatypes.S r)) 0); [lia|].
  destruct (Z.ltb_spec (Z.of_nat (Datatypes.S r)) (Z.of_nat (Datatypes.S r))); [lia|].
  by rewrite Nat2Z.id, Nat.sub_diag, Nat.min_id, <- app_assoc.
Qed.

(** ** Witnesses *)

(** A writer inside an array. *)
Definition in_array : ujson_writer (list Z) :=
  match ujson_arr_start string_out (UJSON_WRITER_INIT []) None with Some (_, w) => w | None => UJSON_WRITER_INIT [] end.

Lemma in_array_rep : rep in_array [(false, true)].
Proof.
  split; [reflexivity|simpl; lia|reflexivity|reflexivity|].
  intros [|i] f Hf; [|by destruct i]. by injection Hf as <-.
Qed.

Lemma ujson_writer_misuse_witness :
  ∃ w', ujson_int_add string_out in_array (Some (str "k")) 1 = Some (1, w') ∧ werr w' ≠ [] ∧ sink w' = str "[" ∧ wdepth w' = 1.
Proof.
  destruct (ujson_writer_misuse string_out in_array [] false true (CInt (Some (str "k")) 1)) as (w' & H1 & H2 & H3 & H4).
  - apply in_array_rep.
  - reflexivity.
  - simpl. lia.
  - reflexivity.
  - exists w'. by split_and!.
Defined.

Lemma ujson_writer_err_sticks_witness :
  let w := werror (str "Array entries can't have id") in_array in
  ujson_null_add string_out w None = Some (1, w) ∧
  ujson_writer_finish string_out w = (1, w, Some (str "Array entries can't have id")).
Proof. apply (ujson_writer_err_sticks string_out (werror (str "Array entries can't have id") in_array) (CNull None)); [done|by vm_compute]. Defined.

Lemma ujson_obj_finish_underflow_witness :
  ∃ w', ujson_obj_finish string_out (UJSON_WRITER_INIT []) = Some (out string_out w' (str "}")) ∧ wdepth w' = 2 ^ 32 - 1.
Proof. apply (ujson_obj_finish_underflow string_out (UJSON_WRITER_INIT [])); reflexivity. Defined.

Lemma ujson_esc_str_diverges_witness : esc_loop string_out 1000 (UJSON_WRITER_INIT []) ["a"%cc; 160] 0 = None.
Proof. apply ujson_esc_str_diverges; [by vm_compute|reflexivity|lia]. Defined.

Lemma out_writer_file_reorders_witness :
  ∃ f1 f2 f3, out_writer_file (mk_wf [] [] []) (str "[") = (0, None, f1) ∧
    out_writer_file f1 (replicate 300 65) = (0, None, f2) ∧
    ujson_writer_file_close f2 0 0 = (0, f3) ∧ file f3 = replicate 300 65 ++ str "[".
Proof. apply out_writer_file_reorders; [simpl|rewrite length_replicate]; lia. Defined.

Lemma out_writer_file_write_short_witness :
  out_writer_file_write (mk_wf [] [] [2]) (str "abcde") 5 = (0, None, mk_wf [] (str "ababc") []).
Proof. apply (out_writer_file_write_short (str "abcde") [] [] 2). vm_compute. lia. Defined.
