(* ===== verification/UjsonRoundtrip.v ===== *)
(** * What the JSON writer writes the JSON reader reads back

    Documents, a client of the writer that writes one and a client of the
    reader that reads one with the loop macros.  The text of a document is
    computed by the writer for every appending sink, and reading that text
    gives the document. *)

From S2P Require Import Prelude UjsonUtf UjsonReader UjsonReaderFacts UjsonWriter UjsonWriterFacts.
Open Scope Z_scope.

(** ** Documents *)

Inductive jval :=
  | JNull
  | JBool (x : bool)
  | JInt (z : Z)
  | JStr (s : list Z)
  | JCont (k : container) (l : jmems)
with jmems :=
  | JNil
  | JCons (key : list Z) (v : jval) (l : jmems).

Scheme jval_mut := Induction for jval Sort Prop
  with jmems_mut := Induction for jmems Sort Prop.
Combined Scheme jval_jmems_ind from jval_mut, jmems_mut.

Definition is_obj (k : container) : bool := match k with InObj => true | InArr => false end.
Definition open_ch (k : container) : Z := match k with InObj => "{"%cc | InArr => "["%cc end.
Definition close_ch (k : container) : Z := match k with InObj => "}"%cc | InArr => "]"%cc end.

(** The text of a value that is a member at depth [d], and of the members at
    depth [d]. *)
Fixpoint vtext (d : nat) (j : jval) : list Z :=
  match j with
  | JNull => str "null"
  | JBool x => if x then str "true" else str "false"
  | JInt z => fmt_li z
  | JStr s => [cDQ] ++ esc_bytes s ++ [cDQ]
  | JCont k l => [open_ch k] ++ mtext (S d) k true l ++
                 (match l with JNil => [] | _ => nl d end) ++ [close_ch k]
  end
with mtext (d : nat) (k : container) (first : bool) (l : jmems) : list Z :=
  match l with
  | JNil => []
  | JCons key v l => lead d (is_obj k) first key ++ vtext d v ++ mtext d k false l
  end.

(** The key as it is written, and as it is read. *)
Definition ktext (k : container) (key : list Z) : list Z :=
  match k with InObj => [cDQ] ++ esc_bytes key ++ [cDQ] ++ str ": " | InArr => [] end.

Lemma lead_eq d k f key : lead d (is_obj k) f key = (if f then [] else str ",") ++ nl d ++ ktext k key.
Proof. by destruct k. Qed.

(** The texts of a value, whatever white space stands around its members and
    whichever characters are escaped. *)
Definition ws (s : list Z) : Prop := Forall (λ c, is_ws c = true) s.

(** A character of a string stands for itself or is escaped. *)
Definition char_text (c : Z) (x : list Z) : Prop :=
  (32 ≤ c ∧ c ≠ cDQ ∧ c ≠ "\"%cc ∧ x = [c]) ∨ esc_of c = Some x.

Fixpoint is_stext (s x : list Z) : Prop :=
  match s with
  | [] => x = []
  | c :: s => ∃ y z, char_text c y ∧ is_stext s z ∧ x = y ++ z
  end.

Fixpoint is_text (j : jval) (s : list Z) : Prop :=
  match j with
  | JNull => s = str "null"
  | JBool x => s = if x then str "true" else str "false"
  | JInt z => s = fmt_li z
  | JStr x => ∃ y, is_stext x y ∧ s = [cDQ] ++ y ++ [cDQ]
  | JCont k l => ∃ m w, is_mtext k true l m ∧ ws w ∧ s = open_ch k :: m ++ w ++ [close_ch k]
  end
with is_mtext (k : container) (first : bool) (l : jmems) (s : list Z) : Prop :=
  match l with
  | JNil => s = []
  | JCons key v l => ∃ w1 w2 sv sl, ws w1 ∧ ws w2 ∧ is_text v sv ∧ is_mtext k false l sl ∧
      s = (if first then [] else w1 ++ str ",") ++ w2 ++ ktext k key ++ sv ++ sl
  end.

Lemma ws_nl d : ws (nl d).
Proof. constructor; [done|]. by apply Forall_replicate. Qed.

(** A key that needs no escape and fits the reader's array. *)
Definition key_ok (k : container) (key : list Z) : Prop :=
  match k with
  | InObj => utf8 key ∧ (length key < UJSON_ID_MAX)%nat ∧ Forall (λ c, esc_of c = None) key
  | InArr => key = []
  end.

Definition string_ok (s : list Z) : Prop := utf8 s ∧ Forall (λ c, 32 ≤ c ∨ esc_of c ≠ None) s.

Section Wf.
Context (slen : nat → Prop).

(** Documents within the limits of the two sides; [slen] bounds strings. *)
Fixpoint jwf (d : nat) (j : jval) : Prop :=
  match j with
  | JNull | JBool _ => True
  | JInt z => - 2 ^ 63 < z < 2 ^ 63
  | JStr s => string_ok s ∧ slen (length s)
  | JCont k l => (d < 128)%nat ∧ mwf (S d) k l
  end
with mwf (d : nat) (k : container) (l : jmems) : Prop :=
  match l with
  | JNil => True
  | JCons key v l => key_ok k key ∧ jwf d v ∧ mwf d k l
  end.

Lemma esc_bytes_is_stext s : Forall (λ c, 32 ≤ c ∨ esc_of c ≠ None) s → is_stext s (esc_bytes s).
Proof.
  induction 1 as [|c s Hc _ IH]; [done|]. exists (esc_byte c), (esc_bytes s). split_and!; [|done|done].
  unfold esc_byte. destruct (esc_of c) as [x|] eqn:E; [by right|]. left. split_and!; [by destruct Hc|..|done]; intros ->; by vm_compute in E.
Qed.

(** The text of the writer is one of the texts of the document. *)
Lemma vtext_is_text :
  (∀ j d, jwf d j → is_text j (vtext d j)) ∧ (∀ l d k f, mwf d k l → is_mtext k f l (mtext d k f l)).
Proof.
  apply jval_jmems_ind; try done.
  - intros s d [[_ Hs] _]. exists (esc_bytes s). split; [by apply esc_bytes_is_stext|done].
  - intros k l IH d [_ Hl]. exists (mtext (S d) k true l), (match l with JNil => [] | _ => nl d end).
    split_and!; [by apply IH|destruct l; [constructor|apply ws_nl]|done].
  - intros key v IHv l IHl d k f (_ & Hv & Hl). exists [], (nl d), (vtext d v), (mtext d k false l).
    split_and!; [constructor|apply ws_nl|by apply IHv|by apply IHl|]. cbn [mtext]. rewrite lead_eq, <- !app_assoc. by destruct f.
Qed.
End Wf.

(** Strings and keys in ASCII. *)
Lemma ascii_string_ok s : Forall (λ c, 32 ≤ c < 128) s → string_ok s.
Proof.
  intros Hs. split.
  - exists s. split; [|eapply Forall_impl; [exact Hs|]; unfold ucode; cbn; lia].
    induction Hs as [|c s Hc _ IH]; [done|]. unfold utf8_string in *. cbn. rewrite <- IH.
    unfold ujson_to_utf8. rewrite (proj2 (Z.ltb_lt c 128)) by lia. change 127 with (2 ^ 7 - 1). by rewrite land_low, Z.mod_small by lia.
  - eapply Forall_impl; [exact Hs|]. cbn. lia.
Qed.

(** A key of identifier characters. *)
Lemma ascii_key_ok key :
  Forall (λ c, 32 ≤ c < 128 ∧ esc_of c = None) key → (length key < UJSON_ID_MAX)%nat → key_ok InObj key.
Proof.
  intros Hk Hl. rewrite Forall_and in Hk. destruct Hk as [Ha He]. split_and!; [|done|done]. by apply ascii_string_ok.
Qed.

(** Documents in ASCII, as a check. *)
Fixpoint jwfb (bs d : nat) (j : jval) : bool :=
  match j with
  | JNull | JBool _ => true
  | JInt z => (- 2 ^ 63 <? z) && (z <? 2 ^ 63)
  | JStr s => bool_decide (Forall (λ c, 32 ≤ c < 128) s) && (length s <? bs)%nat
  | JCont k l => (d <? 128)%nat && mwfb bs (S d) k l
  end
with mwfb (bs d : nat) (k : container) (l : jmems) : bool :=
  match l with
  | JNil => true
  | JCons key v l =>
      (match k with
       | InObj => bool_decide (Forall (λ c, 32 ≤ c < 128 ∧ esc_of c = None) key) && (length key <? UJSON_ID_MAX)%nat
       | InArr => bool_decide (key = [])
       end) && jwfb bs d v && mwfb bs d k l
  end.

Lemma jwfb_sound bs :
  (∀ j d, jwfb bs d j = true → jwf (λ n, n < bs)%nat d j) ∧ (∀ l d k, mwfb bs d k l = true → mwf (λ n, n < bs)%nat d k l).
Proof.
  apply jval_jmems_ind; try done.
  - intros z d [H1%Z.ltb_lt H2%Z.ltb_lt]%andb_true_iff. by split.
  - intros s d [H1%bool_decide_eq_true_1 H2%Nat.ltb_lt]%andb_true_iff. split; [by apply ascii_string_ok|done].
  - intros k l IH d [H1%Nat.ltb_lt H2]%andb_true_iff. split; [done|by apply IH].
  - intros key v IHv l IHl d k [[H1 H2]%andb_true_iff H3]%andb_true_iff. refine (conj _ (conj (IHv _ H2) (IHl _ _ H3))).
    destruct k; [|by apply bool_decide_eq_true_1 in H1]. apply andb_true_iff in H1 as [H4%bool_decide_eq_true_1 H5%Nat.ltb_lt].
    by apply ascii_key_ok.
Qed.

(** ** Writing *)

Section Write.
Context {S : Type} (out_fn : S → list Z → Z * option (list Z) * S).
#[local] Abbreviation writer := (ujson_writer S).

Definition start_of (k : container) : writer → option (list Z) → option (Z * writer) :=
  match k with InObj => ujson_obj_start out_fn | InArr => ujson_arr_start out_fn end.
Definition finish_of (k : container) : writer → option (Z * writer) :=
  match k with InObj => ujson_obj_finish out_fn | InArr => ujson_arr_finish out_fn end.

(** The calls that write a value with the key [id]; they end at the first
    failure. *)
Fixpoint jwrite (w : writer) (id : option (list Z)) (j : jval) : option (Z * writer) :=
  match j with
  | JNull => ujson_null_add out_fn w id
  | JBool x => ujson_bool_add out_fn w id (c_bool x)
  | JInt z => ujson_int_add out_fn w id z
  | JStr s => ujson_str_add out_fn w id s
  | JCont k l =>
      '(r, w) ← start_of k w id;
      if negb (r =? 0) then Some (r, w) else
      '(r, w) ← mwrite w k l;
      if negb (r =? 0) then Some (r, w) else finish_of k w
  end
with mwrite (w : writer) (k : container) (l : jmems) : option (Z * writer) :=
  match l with
  | JNil => Some (0, w)
  | JCons key v l =>
      '(r, w) ← jwrite w (key_arg (is_obj k) key) v;
      if negb (r =? 0) then Some (r, w) else mwrite w k l
  end.

Lemma jwrite_cont w id k l :
  jwrite w id (JCont k l) =
  ('(r, w) ← start_of k w id;
   if negb (r =? 0) then Some (r, w) else
   '(r, w) ← mwrite w k l;
   if negb (r =? 0) then Some (r, w) else finish_of k w).
Proof. done. Qed.

Lemma mwrite_cons w k key v l :
  mwrite w k (JCons key v l) =
  ('(r, w) ← jwrite w (key_arg (is_obj k) key) v;
   if negb (r =? 0) then Some (r, w) else mwrite w k l).
Proof. done. Qed.

(** A whole document. *)
Definition write_doc (w : writer) (j : jval) : option (Z * writer) :=
  '(r, w) ← jwrite w None j;
  if negb (r =? 0) then Some (r, w) else
  let '(r, w, _) := ujson_writer_finish out_fn w in Some (r, w).
End Write.

(** ** Reading *)

(** A container that is to be entered, with a value of its own; [bs] is the
    size of the string buffer, [loop] the loop over the members. *)
Definition decode_nested (loop : container → ujson_val → ujson_reader → option (jmems * ujson_reader))
    (bs : nat) (k : container) (b : ujson_reader) : option (jval * ujson_reader) :=
  '(_, res, b) ← first_of k b (UJSON_VAL_INIT bs);
  '(l, b) ← loop k res b;
  Some (JCont k l, b).

(** The value that was found. *)
Definition decode_val (loop : container → ujson_val → ujson_reader → option (jmems * ujson_reader))
    (bs : nat) (res : ujson_val) (b : ujson_reader) : option (jval * ujson_reader) :=
  match type res, val res with
  | UJSON_OBJ, _ => decode_nested loop bs InObj b
  | UJSON_ARR, _ => decode_nested loop bs InArr b
  | UJSON_NULL, _ => Some (JNull, b)
  | UJSON_BOOL, VBool x => Some (JBool (negb (x =? 0)), b)
  | UJSON_INT, VInt z => Some (JInt z, b)
  | UJSON_STR, VStr s => Some (JStr s, b)
  | _, _ => None
  end.

(** The loop macro over a container: the members that are left. *)
Fixpoint decode_loop (fuel : nat) (bs : nat) (k : container) (res : ujson_val) (b : ujson_reader)
    : option (jmems * ujson_reader) :=
  match fuel with
  | O => None
  | Datatypes.S fuel =>
      if negb (ujson_val_valid res) then Some (JNil, b) else
      '(v, b) ← decode_val (decode_loop fuel bs) bs res b;
      let key := match k with InObj => c_str (id res) | InArr => [] end in
      '(_, res, b) ← next_of k b res;
      '(l, b) ← decode_loop fuel bs k res b;
      Some (JCons key v l, b)
  end.

(** A whole document. *)
Definition decode_doc (fuel bs : nat) (b : ujson_reader) : option (jval * ujson_reader) :=
  let '(t, b) := ujson_reader_start b in
  match t with
  | UJSON_OBJ => decode_nested (decode_loop fuel bs) bs InObj b
  | UJSON_ARR => decode_nested (decode_loop fuel bs) bs InArr b
  | _ => None
  end.

(** The rounds that a document takes, nested or in a row. *)
Fixpoint vfuel (j : jval) : nat :=
  match j with JCont _ l => mfuel l | _ => 0 end
with mfuel (l : jmems) : nat :=
  match l with JNil => 1 | JCons _ v l => Datatypes.S (Nat.max (vfuel v) (mfuel l)) end.

(** ** What is written *)

Section Written.
Context {S : Type} {out_fn : S → list Z → Z * option (list Z) * S} `{!AppendSink S out_fn}.
#[local] Abbreviation writer := (ujson_writer S).

Lemma key_ok_out k key : key_ok k key → is_obj k = true → utf8 key ∧ piece_len (length key).
Proof. destruct k; [|done]. intros (Hu & Hl & _) _. split; [done|]. apply piece_small. unfold UJSON_ID_MAX in Hl. lia. Qed.

(** A value is written after what introduces it. *)
Lemma added_wr w st k f t key x (act : writer → Z * writer) :
  wr w (st ++ [(is_obj k, f)]) t → key_ok k key →
  (∀ w t, wr w (st ++ [(is_obj k, false)]) t → ∃ w', act w = (0, w') ∧ wr w' (st ++ [(is_obj k, false)]) (t ++ x)) →
  ∃ w', ('(r, w) ← add_common out_fn w (key_arg (is_obj k) key);
         if negb (r =? 0) then Some (1, w) else Some (act w)) = Some (0, w') ∧
    wr w' (st ++ [(is_obj k, false)]) (t ++ lead (Datatypes.S (length st)) (is_obj k) f key ++ x).
Proof.
  intros Hw Hk Hact. destruct (add_common_wr w st (is_obj k) f t key Hw (key_ok_out k key Hk)) as (w1 & -> & Hw1).
  rewrite obind_Some. cbn [Z.eqb negb]. destruct (Hact _ _ Hw1) as (w2 & -> & Hw2).
  exists w2. split; [done|]. by rewrite <- app_assoc in Hw2.
Qed.

Lemma start_of_wr w st k f t key k' :
  wr w (st ++ [(is_obj k, f)]) t → (Datatypes.S (length st) < 128)%nat → key_ok k key →
  ∃ w', start_of out_fn k' w (key_arg (is_obj k) key) = Some (0, w') ∧
    wr w' ((st ++ [(is_obj k, false)]) ++ [(is_obj k', true)])
      (t ++ lead (Datatypes.S (length st)) (is_obj k) f key ++ [open_ch k']).
Proof.
  intros Hw Hlt Hk. assert ((UJSON_RECURSION_MAX <=? wdepth w) = false) as E.
  { destruct Hw as (R & _). rewrite (rep_depth _ _ R), length_app. unfold UJSON_RECURSION_MAX. simpl.
    apply Z.leb_gt. lia. }
  destruct k'; cbn [start_of]; unfold ujson_obj_start, ujson_arr_start; rewrite E;
    apply start_wr; try done; try lia; by apply key_ok_out.
Qed.

Lemma start_top w t k :
  wr w [] t → ∃ w', start_of out_fn k w None = Some (0, w') ∧ wr w' [(is_obj k, true)] (t ++ [open_ch k]).
Proof.
  intros Hw. assert ((UJSON_RECURSION_MAX <=? wdepth w) = false) as E.
  { destruct Hw as (R & _). by rewrite (rep_depth _ _ R). }
  destruct k; cbn [start_of]; unfold ujson_obj_start, ujson_arr_start; rewrite E; by apply start_top_wr.
Qed.

Lemma finish_of_wr w st k f t :
  wr w (st ++ [(is_obj k, f)]) t →
  ∃ w', finish_of out_fn k w = Some (0, w') ∧ wr w' st (t ++ (if f then [] else nl (length st)) ++ [close_ch k]).
Proof. destruct k; [apply obj_finish_wr|apply arr_finish_wr]. Qed.

Definition is_nil (l : jmems) : bool := match l with JNil => true | _ => false end.

Definition writes_val (j : jval) : Prop := ∀ w st k f t key,
  wr w (st ++ [(is_obj k, f)]) t → key_ok k key → jwf piece_len (Datatypes.S (length st)) j →
  ∃ w', jwrite out_fn w (key_arg (is_obj k) key) j = Some (0, w') ∧
    wr w' (st ++ [(is_obj k, false)])
      (t ++ lead (Datatypes.S (length st)) (is_obj k) f key ++ vtext (Datatypes.S (length st)) j).

Definition writes_mems (l : jmems) : Prop := ∀ w st k f t,
  wr w (st ++ [(is_obj k, f)]) t → mwf piece_len (Datatypes.S (length st)) k l →
  ∃ w', mwrite out_fn w k l = Some (0, w') ∧
    wr w' (st ++ [(is_obj k, f && is_nil l)]) (t ++ mtext (Datatypes.S (length st)) k f l).

Lemma cont_wr w st k l t :
  writes_mems l → wr w (st ++ [(is_obj k, true)]) t → mwf piece_len (Datatypes.S (length st)) k l →
  ∃ w', ('(r, w) ← mwrite out_fn w k l; if negb (r =? 0) then Some (r, w) else finish_of out_fn k w) = Some (0, w') ∧
    wr w' st (t ++ mtext (Datatypes.S (length st)) k true l ++
              (match l with JNil => [] | _ => nl (length st) end) ++ [close_ch k]).
Proof.
  intros IH Hw Hl. destruct (IH w st k true t Hw Hl) as (w1 & -> & Hw1). rewrite obind_Some. cbn [Z.eqb negb andb] in *.
  destruct (finish_of_wr w1 st k _ _ Hw1) as (w2 & -> & Hw2). exists w2. split; [done|].
  rewrite <- app_assoc in Hw2. by destruct l.
Qed.

Lemma write_val_mems : (∀ j, writes_val j) ∧ (∀ l, writes_mems l).
Proof.
  apply jval_jmems_ind.
  - intros w st k f t key Hw Hk _. apply added_wr; [done..|]. intros w1 t1 Hw1. by apply out_small; [|vm_compute; lia].
  - intros x w st k f t key Hw Hk _.
    apply (added_wr w st k f t key _ (λ w, if negb (c_bool x =? 0) then out_str out_fn w (str "true") else out_str out_fn w (str "false")));
      [done..|]. intros w1 t1 Hw1. destruct x; by apply out_small; [|vm_compute; lia].
  - intros z w st k f t key Hw Hk Hz. pose proof (fmt_li_length z Hz). cbn [vtext].
    rewrite <- (take_ge (fmt_li z) 63) by lia.
    apply (added_wr w st k f t key _ (λ w, out_str out_fn w (snprintf 64 (fmt_li z)))); [done..|].
    intros w1 t1 Hw1. apply out_small; [done|]. rewrite length_take. lia.
  - intros s w st k f t key Hw Hk [[Hu _] Hl]. cbn [jwrite]. unfold ujson_str_add.
    destruct (add_common_wr w st (is_obj k) f t key Hw (key_ok_out k key Hk)) as (w1 & -> & Hw1).
    rewrite obind_Some. cbn [Z.eqb negb]. destruct (out_esc_str_wr _ _ _ s Hw1 Hu Hl) as (w2 & -> & Hw2).
    rewrite obind_Some. exists w2. split; [done|]. by rewrite <- app_assoc in Hw2.
  - intros k' l IH w st k f t key Hw Hk [Hd Hl]. rewrite jwrite_cont.
    destruct (start_of_wr w st k f t key k' Hw Hd Hk) as (w1 & -> & Hw1). rewrite obind_Some. cbn [Z.eqb negb].
    assert (length (st ++ [(is_obj k, false)]) = Datatypes.S (length st)) as El by (rewrite length_app; simpl; lia).
    destruct (cont_wr w1 _ k' l _ IH Hw1) as (w2 & -> & Hw2); rewrite El in *; [done|].
    exists w2. split; [done|]. by rewrite <- !app_assoc in Hw2.
  - intros w st k f t Hw _. exists w. split; [done|]. cbn. by rewrite app_nil_r, andb_true_r.
  - intros key v IHv l IHl w st k f t Hw (Hk & Hv & Hl). rewrite mwrite_cons.
    destruct (IHv w st k f t key Hw Hk Hv) as (w1 & -> & Hw1). rewrite obind_Some. cbn [Z.eqb negb].
    destruct (IHl w1 st k false _ Hw1 Hl) as (w2 & -> & Hw2). exists w2. split; [done|].
    rewrite andb_false_r. by rewrite <- !app_assoc in Hw2.
Qed.

Lemma write_doc_wr w t k l :
  wr w [] t → mwf piece_len 1 k l →
  ∃ w', write_doc out_fn w (JCont k l) = Some (0, w') ∧ wr w' [] (t ++ vtext 0 (JCont k l) ++ [10]).
Proof.
  intros Hw Hl. unfold write_doc. rewrite jwrite_cont.
  destruct (start_top w t k Hw) as (w1 & -> & Hw1). rewrite obind_Some. cbn [Z.eqb negb].
  destruct (cont_wr w1 [] k l _ (proj2 write_val_mems l) Hw1 Hl) as (w2 & -> & Hw2). rewrite obind_Some. cbn [Z.eqb negb].
  pose proof Hw2 as (R & E & _). unfold ujson_writer_finish, is_err. rewrite E, bool_decide_true by done. cbn [negb].
  rewrite (rep_depth _ _ R). destruct (newline_wr w2 _ _ Hw2) as (w3 & -> & Hw3). exists w3. split; [done|].
  rewrite <- !app_assoc in Hw3. cbn [vtext]. by rewrite <- !app_assoc.
Qed.
End Written.
