(* ===== verification/UjsonReadback.v ===== *)
(** * Reading a written document

    What the functions of the reader do on the text of a document, in terms
    of the text that is left, and the round trip through the writer and the
    reader. *)

From S2P Require Import Prelude UjsonUtf UjsonReader UjsonReaderFacts UjsonWriter UjsonWriterFacts UjsonRoundtrip.
Open Scope Z_scope.

(** ** The text that is left *)

Definition rest (b : ujson_reader) : list Z := drop (off b) (json b).

(** [b'] is [b] moved to where [t] is left. *)
Definition mv (b b' : ujson_reader) (t : list Z) : Prop := (∃ n, b' = set_off n b) ∧ rest b' = t.

Lemma mv_refl b : mv b b (rest b).
Proof. split; [|done]. exists (off b). by destruct b. Qed.

Lemma mv_trans b1 b2 b3 t2 t3 : mv b1 b2 t2 → mv b2 b3 t3 → mv b1 b3 t3.
Proof. intros [[n ->] _] [[m ->] H]. split; [|done]. by exists m. Qed.

Lemma rest_cons b c r :
  rest b = c :: r → buf_empty b = false ∧ json b !! off b = Some c ∧ mv b (set_off (S (off b)) b) r ∧
    (length (json b) - off b = S (length r))%nat.
Proof.
  unfold rest. intros E. assert (json b !! off b = Some c) as Hc.
  { replace (off b) with (off b + 0)%nat by lia. by rewrite <- lookup_drop, E. }
  pose proof (lookup_lt_Some _ _ _ Hc). split_and!.
  - by apply buf_empty_false.
  - done.
  - split; [by eexists|]. unfold rest. cbn. by rewrite (drop_S (json b) c (off b) Hc) in E; simplify_eq.
  - apply (f_equal length) in E. rewrite length_drop in E. simpl in E. lia.
Qed.

Lemma rest_nil b : rest b = [] → buf_empty b = true ∧ json b !! off b = None ∧ (length (json b) - off b = 0)%nat.
Proof.
  unfold rest, buf_empty. intros E. apply (f_equal length) in E. rewrite length_drop in E. simpl in E.
  split_and!; [apply Nat.leb_le; lia|apply lookup_ge_None_2; lia|done].
Qed.

Lemma rest_length b : (length (json b) - off b = length (rest b))%nat.
Proof. unfold rest. by rewrite length_drop. Qed.

Lemma peekb_rest b : peekb b = default 0 (head (rest b)).
Proof.
  unfold peekb. destruct (rest b) as [|c r] eqn:E.
  - by destruct (rest_nil b E) as (_ & -> & _).
  - by destruct (rest_cons b c r E) as (_ & -> & _).
Qed.

Lemma getb_rest b c r : rest b = c :: r → ∃ b', getb b = (c, b') ∧ mv b b' r.
Proof.
  intros E. destruct (rest_cons b c r E) as (He & Hc & Hm & _). unfold getb. rewrite Hc. by eexists.
Qed.

Lemma eatb_yes b c r : rest b = c :: r → ∃ b', eatb b c = (true, b') ∧ mv b b' r.
Proof.
  intros E. unfold eatb. rewrite peekb_rest, E. cbn [head default]. change (Datatypes.id c) with c. rewrite Z.eqb_refl.
  destruct (getb_rest b c r E) as (b' & -> & Hm). by exists b'.
Qed.

Lemma eatb_no b c : default 0 (head (rest b)) ≠ c → eatb b c = (false, b).
Proof. intros H. unfold eatb. rewrite peekb_rest. by destruct (Z.eqb_spec (default 0 (head (rest b))) c). Qed.

Lemma eatstr_yes s b t : rest b = s ++ t → ∃ b', eatstr b s = (true, b') ∧ mv b b' t.
Proof.
  revert b. induction s as [|c s IH]; intros b E; cbn [eatstr].
  { exists b. split; [done|]. cbn in E. rewrite <- E. apply mv_refl. }
  destruct (eatb_yes b c (s ++ t) E) as (b1 & -> & Hm1). destruct (IH b1) as (b2 & -> & Hm2); [apply Hm1|].
  exists b2. split; [done|]. by eapply mv_trans.
Qed.

(** The text without leading white space. *)
Fixpoint trim (t : list Z) : list Z :=
  match t with
  | c :: t' => if is_ws c then trim t' else t
  | [] => []
  end.

Lemma eatws_rest b :
  ∃ b', eatws b = (match trim (rest b) with [] => true | _ => false end, b') ∧ mv b b' (trim (rest b)).
Proof.
  assert (∀ n b, (length (rest b) ≤ n)%nat → mv b (eatws_loop n b) (trim (rest b))) as Hloop.
  { clear. induction n as [|n IH]; intros b Hn; cbn [eatws_loop].
    - destruct (rest b) eqn:E; [|simpl in Hn; lia]. cbn [trim]. rewrite <- E. apply mv_refl.
    - destruct (rest b) as [|c r] eqn:E.
      + destruct (rest_nil b E) as (_ & -> & _). cbn [trim]. rewrite <- E. apply mv_refl.
      + destruct (rest_cons b c r E) as (_ & -> & Hm & _). cbn [trim].
        destruct (is_ws c); [|rewrite <- E; apply mv_refl].
        eapply mv_trans; [exact Hm|]. destruct Hm as [_ Hr]. rewrite <- Hr. apply IH. rewrite Hr. simpl in Hn. lia. }
  unfold eatws. rewrite rest_length. pose proof (Hloop _ b (Nat.le_refl _)) as Hm.
  eexists. split; [|exact Hm]. f_equal. destruct Hm as [_ Hr]. destruct (trim (rest b)) as [|c r].
  - by destruct (rest_nil _ Hr) as (-> & _).
  - by destruct (rest_cons _ _ _ Hr) as (-> & _).
Qed.

Lemma eatws_ne b c t : trim (rest b) = c :: t → ∃ b', eatws b = (false, b') ∧ mv b b' (c :: t).
Proof. intros E. destruct (eatws_rest b) as (b' & H1 & H2). rewrite E in *. by exists b'. Qed.

Lemma trim_nows c t : is_ws c = false → trim (c :: t) = c :: t.
Proof. intros E. cbn. by rewrite E. Qed.

Lemma trim_ws w t : ws w → trim (w ++ t) = trim t.
Proof. induction 1 as [|c w Hc _ IH]; [done|]. cbn. by rewrite Hc. Qed.

(** ** Strings and keys *)

Lemma esc_of_unescape c x :
  esc_of c = Some x → ∃ e, x = ["\"%cc; e] ∧ unescape e = Some c ∧ 32 ≤ e ∧ e ≠ "u"%cc ∧ c ≠ 0.
Proof.
  unfold esc_of. intros H. repeat (case_match; [simplify_eq|]); [..|done];
    repeat match goal with H : (_ =? _) = true |- _ => apply Z.eqb_eq in H as -> end;
    (eexists; split; [reflexivity|]; split_and!; [reflexivity|vm_compute; congruence|done|done]).
Qed.

Lemma esc_of_none c : esc_of c = None → c ≠ cDQ ∧ c ≠ "\"%cc.
Proof. intros H. split; intros ->; by vm_compute in H. Qed.

(** What is in the string buffer after [s] was read, if there is one. *)
Definition kept (h : bool) (acc s : list Z) : list Z := if h then acc ++ s else acc.

Lemma put_char_room h len acc c b :
  c ≠ 0 → (h = true → length acc + 1 < len)%nat → put_char h len acc c b = inr (kept h acc [c]).
Proof.
  intros Hc Hl. unfold put_char. destruct h; [|done]. specialize (Hl eq_refl).
  destruct (Z.eqb_spec c 0); [done|]. cbn [andb negb].
  by destruct (Nat.leb_spec len (length acc + 1)); [lia|].
Qed.

(** A round of [copy_str] takes a byte that is not escaped, ... *)
Lemma copy_str_plain fuel h len acc c b r :
  rest b = c :: r → c ≠ cDQ → c ≠ "\"%cc → 32 ≤ c → (h = true → length acc + 1 < len)%nat →
  ∃ b', copy_str_loop (S fuel) h len false acc b = copy_str_loop fuel h len false (kept h acc [c]) b' ∧ mv b b' r.
Proof.
  intros E H1 H2 Hc Hl. cbn [copy_str_loop].
  destruct (rest_cons b c r E) as (-> & _). rewrite eatb_no by (by rewrite E).
  destruct (getb_rest b c r E) as (b' & -> & Hm). exists b'. split; [|done].
  destruct (Z.ltb_spec c 32); [lia|]. destruct (Z.eqb_spec c ("\"%cc)); [done|]. cbn [negb andb].
  rewrite put_char_room by (done || lia). done.
Qed.

(** ... and two rounds take one that is. *)
Lemma copy_str_escaped fuel h len acc e c b r :
  rest b = "\"%cc :: e :: r → unescape e = Some c → 32 ≤ e → e ≠ "u"%cc → c ≠ 0 → (h = true → length acc + 1 < len)%nat →
  ∃ b', copy_str_loop (S (S fuel)) h len false acc b = copy_str_loop fuel h len false (kept h acc [c]) b' ∧ mv b b' r.
Proof.
  intros E Hu He Hn Hc Hl. cbn [copy_str_loop]. destruct (rest_cons b _ _ E) as (-> & _).
  rewrite eatb_no by (by rewrite E). destruct (getb_rest b _ _ E) as (b1 & -> & Hm1).
  change ("\"%cc <? 32) with false. change (negb false && ("\"%cc =? "\"%cc)) with true. cbn iota.
  pose proof Hm1 as [_ E1]. destruct (rest_cons b1 _ _ E1) as (-> & _). destruct (getb_rest b1 _ _ E1) as (b2 & -> & Hm2).
  exists b2. split; [|by eapply mv_trans]. destruct (Z.ltb_spec e 32); [lia|].
  destruct (Z.eqb_spec e ("u"%cc)); [done|]. cbn [negb andb]. rewrite Hu, put_char_room by (done || lia). done.
Qed.

Lemma kept_app h acc s s' : kept h (kept h acc s) s' = kept h acc (s ++ s').
Proof. destruct h; [|done]. cbn. by rewrite app_assoc. Qed.

Lemma copy_str_text s x fuel h len acc b t :
  is_stext s x → rest b = x ++ cDQ :: t → (h = true → length acc + length s < len)%nat → (length (rest b) < fuel)%nat →
  ∃ b', copy_str_loop fuel h len false acc b = Some (0, kept h acc s, b') ∧ mv b b' t.
Proof.
  revert x fuel acc b. induction s as [|c s IH]; intros x fuel acc b Hs E Hl Hf.
  { cbn in Hs. subst x. destruct fuel as [|fuel]; [lia|]. cbn [copy_str_loop app] in *.
    destruct (rest_cons b _ _ E) as (-> & _). destruct (eatb_yes b _ _ E) as (b' & -> & Hm). exists b'. split; [|done].
    destruct h; cbn [andb kept]; [|done]. specialize (Hl eq_refl). simpl in Hl.
    destruct (Nat.leb_spec len (length acc)); [lia|]. by rewrite app_nil_r. }
  destruct Hs as (y & z & Hc & Hz & ->). rewrite <- app_assoc in E. simpl in Hl.
  assert (∀ fuel' b1, mv b b1 (z ++ cDQ :: t) → (length (z ++ cDQ :: t) < fuel')%nat →
    ∃ b', copy_str_loop fuel' h len false (kept h acc [c]) b1 = Some (0, kept h acc (c :: s), b') ∧ mv b b' t) as Hnext.
  { intros fuel' b1 Hm Hf'. destruct (IH z fuel' (kept h acc [c]) b1 Hz) as (b' & E' & Hm').
    - apply Hm.
    - intros ->. specialize (Hl eq_refl). cbn. rewrite length_app. simpl. lia.
    - by rewrite (proj2 Hm).
    - exists b'. rewrite kept_app in E'. split; [done|]. by eapply mv_trans. }
  rewrite E in Hf. destruct Hc as [(H1 & H2 & H3 & ->)|Ee].
  - cbn [app length] in *. destruct fuel as [|fuel]; [lia|].
    destruct (copy_str_plain fuel h len acc c b _ E) as (b1 & -> & Hm1); [done..|intros Eh; specialize (Hl Eh); lia|]. apply Hnext; [done|lia].
  - destruct (esc_of_unescape c y Ee) as (e & -> & Hu & He & Hn & H0). cbn [app length] in *.
    destruct fuel as [|[|fuel]]; [lia..|].
    destruct (copy_str_escaped fuel h len acc e c b _ E) as (b1 & -> & Hm1); [done..|intros Eh; specialize (Hl Eh); lia|]. apply Hnext; [done|lia].
Qed.

Lemma copy_str_reads s x h len b t :
  is_stext s x → rest b = cDQ :: x ++ cDQ :: t → (h = true → length s < len)%nat →
  ∃ b', copy_str h len b = Some (0, kept h [] s, b') ∧ mv b b' t.
Proof.
  intros Hs E Hl. unfold copy_str. destruct (eatb_yes b _ _ E) as (b1 & -> & Hm1). cbn [snd].
  rewrite rest_length. destruct (copy_str_text s x (S (length (rest b1))) h len [] b1 t) as (b2 & -> & Hm2);
    [done|apply Hm1|done|lia|]. exists b2. split; [done|]. by eapply mv_trans.
Qed.

Lemma take_insert_S n (x : Z) i : (n < length i)%nat → take (S n) (<[n := x]> i) = take n i ++ [x].
Proof.
  intros H. rewrite (take_S_r _ _ x) by (by rewrite list_lookup_insert, decide_True by done).
  by rewrite take_insert_ge by lia.
Qed.

Lemma copy_id_text key fuel i pos b t :
  Forall (λ c, esc_of c = None) key → rest b = key ++ cDQ :: t → (length (rest b) < fuel)%nat →
  length i = UJSON_ID_MAX → (pos + length key < UJSON_ID_MAX)%nat →
  ∃ i' b', copy_id_loop fuel i pos b = Some (None, i', b') ∧ mv b b' t ∧ length i' = UJSON_ID_MAX ∧
    take (pos + length key + 1) i' = take pos i ++ key ++ [0].
Proof.
  intros Hk. revert fuel i pos b. induction Hk as [|c key Hc _ IH]; intros fuel i pos b E Hf Hi Hl;
    (destruct fuel as [|fuel]; [lia|]); cbn [copy_id_loop length app] in *; destruct (rest_cons b _ _ E) as (-> & _).
  - destruct (eatb_yes b _ _ E) as (b' & -> & Hm). destruct (Nat.ltb_spec pos (length i)); [|lia].
    exists (<[pos := 0]> i), b'. split_and!; [done|done|by rewrite length_insert|].
    rewrite Nat.add_0_r, Nat.add_1_r. by apply take_insert_S.
  - destruct (esc_of_none c Hc) as [H1 _]. rewrite eatb_no by (by rewrite E).
    destruct (Nat.leb_spec (UJSON_ID_MAX - 1) pos); [lia|]. destruct (getb_rest b _ _ E) as (b1 & -> & Hm1).
    destruct (Nat.ltb_spec pos (length i)); [|lia].
    destruct (IH fuel (<[pos := c]> i) (S pos) b1) as (i' & b' & E' & Hm' & Hi' & Ht).
    + apply Hm1.
    + rewrite (proj2 Hm1). rewrite E in Hf. simpl in Hf. lia.
    + by rewrite length_insert.
    + lia.
    + exists i', b'. split_and!; [done|by eapply mv_trans|done|].
      replace (pos + S (length key) + 1)%nat with (S pos + length key + 1)%nat by lia. rewrite Ht.
      rewrite take_insert_S by done. by rewrite <- app_assoc.
Qed.

Lemma utf8_cstring s : utf8 s → cstring s.
Proof.
  intros (us & -> & Hus). induction Hus as [|u us Hu _ IH]; [constructor|].
  apply Forall_app; split; [|done].
  destruct (bytes_cases u Hu) as [(? & -> & _)|[(a & b & -> & _ & ? & ?)|[(a & b & c & -> & _ & ? & ? & ?)|
    (a & b & c & d & -> & _ & ? & ? & ? & ?)]]]; repeat constructor; unfold ucode in Hu; lia.
Qed.

Lemma esc_bytes_plain s : Forall (λ c, esc_of c = None) s → esc_bytes s = s.
Proof.
  induction 1 as [|c s Hc _ IH]; [done|].
  change (esc_bytes (c :: s)) with (esc_byte c ++ esc_bytes s). rewrite IH. unfold esc_byte. by rewrite Hc.
Qed.

Lemma copy_id_reads key i b t :
  key_ok InObj key → length i = UJSON_ID_MAX → trim (rest b) = cDQ :: key ++ cDQ :: ":"%cc :: t →
  ∃ i' b', copy_id_str i b = Some (0, i', b') ∧ mv b b' t ∧ length i' = UJSON_ID_MAX ∧ c_str i' = key.
Proof.
  intros (Hu & Hl & He) Hi E. unfold copy_id_str. destruct (eatws_ne b _ _ E) as (b1 & -> & Hm1). cbn iota.
  destruct (eatb_yes b1 _ _ (proj2 Hm1)) as (b2 & -> & Hm2). cbn [negb]. rewrite rest_length.
  destruct (copy_id_text key (S (length (rest b2))) i 0 b2 _ He (proj2 Hm2)) as (i' & b3 & -> & Hm3 & Hi' & Ht); [lia|done|done|].
  bind_step.
  destruct (eatws_ne b3 (":"%cc) t) as (b4 & -> & Hm4); [by rewrite (proj2 Hm3)|]. cbn iota.
  destruct (eatb_yes b4 _ _ (proj2 Hm4)) as (b5 & -> & Hm5). cbn [negb]. exists i', b5. split_and!; [done| |done|].
  - do 4 (eapply mv_trans; [eassumption|]). done.
  - rewrite <- (take_drop (0 + length key + 1) i'), Ht. change (take 0 i) with (@nil Z).
    rewrite app_nil_l, <- app_assoc. apply c_str_app.
    by apply utf8_cstring.
Qed.

(** ** Numbers *)

Definition no_digit (t : list Z) : Prop := is_digit (default 0 (head t)) = false.

(** Scanning [t], [next_num_type] takes the number for an integer. *)
Fixpoint calm (t : list Z) : Prop :=
  match t with
  | [] => True
  | c :: t => c = 0 ∨ c = ","%cc ∨ (c ≠ "."%cc ∧ c ≠ "e"%cc ∧ c ≠ "E"%cc ∧ calm t)
  end.

Lemma calm_app s t : Forall (λ c, c ≠ "."%cc ∧ c ≠ "e"%cc ∧ c ≠ "E"%cc) s → calm t → calm (s ++ t).
Proof. induction 1 as [|c s Hc _ IH]; intros Ht; [done|]. cbn. right; right.
  destruct Hc as (? & ? & ?). split_and!; try done. by apply IH. Qed.

Lemma digit_is c : digit c → is_digit c = true.
Proof. unfold digit, is_digit. intros H. by rewrite !(proj2 (Z.leb_le _ _)) by lia. Qed.

Lemma peekb_off_rest b o : peekb_off b o = default 0 (rest b !! o).
Proof.
  unfold peekb_off, rest. rewrite lookup_drop. by destruct (json b !! _).
Qed.

Lemma num_type_int fuel b o t :
  drop o (rest b) = t → calm t → (length t ≤ fuel)%nat → num_type_loop fuel b o = UJSON_INT.
Proof.
  revert o t. induction fuel as [|fuel IH]; intros o t E Hc Hf; cbn [num_type_loop]; rewrite peekb_off_rest;
    (replace (rest b !! o) with (head t) by (rewrite <- E; by destruct (rest b !! o) eqn:L;
      [rewrite (drop_S _ _ _ L)|rewrite drop_ge by (by apply lookup_ge_None_1)])).
  - by destruct t; [|simpl in Hf; lia].
  - destruct t as [|c t]; [done|]. cbn [head default]. change (Datatypes.id c) with c.
    destruct Hc as [->|[->|(H1 & H2 & H3 & Hc)]]; [done|done|].
    destruct (Z.eqb_spec c 0); [done|]. destruct (Z.eqb_spec c (","%cc)); [done|].
    rewrite !(proj2 (Z.eqb_neq _ _)) by done. cbn [orb]. apply (IH (S o) t); [|done|simpl in Hf; lia].
    rewrite <- Nat.add_1_r, <- drop_drop, E. done.
Qed.

Lemma digits_text ds n v b t :
  Forall digit ds → rest b = ds ++ t → no_digit t → (length (rest b) ≤ n)%nat → 0 ≤ v → dval v ds < 2 ^ 63 →
  ∃ b', digits_loop n v b = (dval v ds, b') ∧ mv b b' t.
Proof.
  intros Hd. revert n v b. induction Hd as [|c ds Hc Hds IH]; intros n v b E Ht Hn Hv Hlt.
  - exists b. split; [|rewrite <- (app_nil_l t), <- E; apply mv_refl].
    destruct n as [|n]; [done|]. cbn [digits_loop]. rewrite peekb_rest, E, app_nil_l. unfold no_digit in Ht.
    by rewrite Ht.
  - change ((c :: ds) ++ t) with (c :: (ds ++ t)) in E. rewrite E in Hn. destruct n as [|n]; [simpl in Hn; lia|].
    cbn [digits_loop]. rewrite peekb_rest, E. cbn [head default].
    change (Datatypes.id c) with c. rewrite digit_is by done. destruct (getb_rest b _ _ E) as (b1 & -> & Hm1).
    change (dval v (c :: ds)) with (dval (v * 10 + (c - "0"%cc)) ds) in *.
    assert (v * 10 ≤ v * 10 + (c - "0"%cc) ≤ dval (v * 10 + (c - "0"%cc)) ds) as Hb.
    { unfold digit in Hc. split; [lia|]. apply dval_ge; [change ("0"%cc) with 48 in *; lia|done]. }
    rewrite (wraps_small 64 (v * 10)), wraps_small by (change (64 - 1) with 63; lia).
    destruct (IH n (v * 10 + (c - "0"%cc)) b1) as (b' & E' & Hm'); [apply Hm1|done| |lia|done|].
    { rewrite (proj2 Hm1). simpl in Hn. lia. }
    exists b'. split; [done|]. by eapply mv_trans.
Qed.

Lemma get_int_reads z b res t :
  - 2 ^ 63 < z < 2 ^ 63 → rest b = fmt_li z ++ t → no_digit t →
  ∃ b', get_int b res = (0, set_float (DOfLong z) (set_uval (VInt z) res), b') ∧ mv b b' t.
Proof.
  intros Hz E Ht.
  assert (∃ b1, eatb b ("-"%cc) = (z <? 0, b1) ∧ mv b b1 (dec (Z.abs z) ++ t)) as (b1 & E1 & Hm1).
  { unfold fmt_li in E. destruct (Z.ltb_spec z 0) as [L|L].
    - rewrite Z.abs_neq by lia. by apply eatb_yes.
    - rewrite Z.abs_eq by lia. exists b. split; [|rewrite <- E; apply mv_refl]. apply eatb_no. rewrite E.
      destruct (dec_spec z) as (Hd & _ & (c & ds & Ed & _)); [lia|]. rewrite Ed in *.
      apply Forall_cons in Hd as [Hc _]. cbn. unfold digit in Hc. change ("0"%cc) with 48 in Hc. change ("-"%cc) with 45. lia. }
  destruct (dec_spec (Z.abs z)) as (Hd & Hv & (c & ds & Ed & Hz0)); [lia|].
  pose proof Hm1 as [_ E2]. unfold get_int. rewrite E1, peekb_rest, peekb_off_rest, E2.
  assert (is_digit (default 0 (head (dec (Z.abs z) ++ t))) = true) as ->.
  { rewrite Ed in *. apply Forall_cons in Hd as [Hc _]. by apply digit_is. }
  rewrite andb_false_r.
  assert ((default 0 (head (dec (Z.abs z) ++ t)) =? "0"%cc) && is_digit (default 0 ((dec (Z.abs z) ++ t) !! 1%nat)) = false) as ->.
  { rewrite Ed. destruct ds as [|c' ds].
    - change (([c] ++ t) !! 1%nat) with (t !! 0%nat). rewrite <- head_lookup. unfold no_digit in Ht.
      by rewrite Ht, andb_false_r.
    - cbn [app head default]. change (Datatypes.id c) with c. by rewrite (proj2 (Z.eqb_neq c _)) by (by apply Hz0). }
  rewrite rest_length.
  destruct (digits_text (dec (Z.abs z)) (length (rest b1)) 0 b1 t Hd E2 Ht) as (b2 & -> & Hm2); [done|lia|lia|].
  rewrite Hv. exists b2. split; [|by eapply mv_trans].
  assert ((if z <? 0 then wraps 64 (- Z.abs z) else Z.abs z) = z) as ->; [|done].
  destruct (Z.ltb_spec z 0); [rewrite wraps_small by (change (64 - 1) with 63; lia)|]; lia.
Qed.

(** ** Values *)

(** Moves that keep the depth, and report nothing. *)
Definition keep (b b' : ujson_reader) : Prop :=
  json b' = json b ∧ depth b' = depth b ∧ max_depth b' = max_depth b ∧ err b' = err b.

Lemma mv_keep b b' t : mv b b' t → keep b b'.
Proof. intros [[n ->] _]. by split_and!. Qed.

Lemma keep_trans b1 b2 b3 : keep b1 b2 → keep b2 b3 → keep b1 b3.
Proof. unfold keep. intros (? & ? & ? & ?) (? & ? & ? & ?). split_and!; congruence. Qed.

(** [res], which has a string buffer or not, presents the value [j], whose
    text is [s], and [t] follows it.  A container is still to be entered. *)
Definition presents (hb : bool) (s : list Z) (res : ujson_val) (j : jval) (b : ujson_reader) (t : list Z) : Prop :=
  match j with
  | JNull => type res = UJSON_NULL ∧ rest b = t
  | JBool x => type res = UJSON_BOOL ∧ val res = VBool (c_bool x) ∧ rest b = t
  | JInt z => type res = UJSON_INT ∧ val res = VInt z ∧ rest b = t
  | JStr x => type res = UJSON_STR ∧ val res = VStr (kept hb [] x) ∧ rest b = t
  | JCont k l => type res = (match k with InObj => UJSON_OBJ | InArr => UJSON_ARR end) ∧
                 rest b = s ++ t ∧ sub_off b = off b
  end.

(** What may follow a value. *)
Definition follows (t : list Z) : Prop := no_digit t ∧ calm t.

(** The part of the value that is not the result of the call. *)
Definition same_val (res res' : ujson_val) : Prop :=
  have_buf res' = have_buf res ∧ buf_size res' = buf_size res ∧ id res' = id res ∧ idx res' = idx res.

Lemma text_head bs d j s : jwf bs d j → is_text j s → ∃ c x, s = c :: x ∧ is_ws c = false ∧ c ≠ "]"%cc.
Proof.
  destruct j as [|x|z|y|k l]; intros Hj Hs; cbn in Hs; [subst; by do 2 eexists|subst; destruct x; by do 2 eexists| | |].
  - subst. unfold fmt_li. destruct (Z.ltb_spec z 0); [by do 2 eexists|]. cbn in Hj.
    destruct (dec_spec z) as (Hd & _ & (c & ds & Ed & _)); [lia|]. exists c, ds. rewrite Ed in Hd.
    apply Forall_cons in Hd as [[? ?] _]. unfold is_ws. change ("0"%cc) with 48 in *. change ("9"%cc) with 57 in *.
    change ("]"%cc) with 93. split_and!; [done| |lia].
    by rewrite !(proj2 (Z.eqb_neq c _)) by (try change (" "%cc) with 32; lia).
  - destruct Hs as (x & _ & ->). by do 2 eexists.
  - destruct Hs as (m & w & _ & _ & ->). destruct k; by do 2 eexists.
Qed.

Section Read.
(** [J] is the text of the reader. *)
Context (J : list Z) (slen : nat → Prop) (hb : bool) (bs : nat) (Hslen : hb = true → ∀ n, slen n → (n < bs)%nat).

(** A value for [FOREACH] loops, with a string buffer of [bs] bytes or, when
    something is skipped, without one. *)
Definition val_buf (res : ujson_val) : Prop :=
  have_buf res = hb ∧ buf_size res = bs ∧ length (id res) = UJSON_ID_MAX.

(** [ujson_next_type] looks at the first character. *)
Lemma next_type_reads d j s b t :
  jwf slen d j → is_text j s → trim (rest b) = s ++ t → follows t →
  ∃ b', ujson_next_type b = (match j with
                             | JNull => UJSON_NULL
                             | JBool _ => UJSON_BOOL
                             | JInt _ => UJSON_INT
                             | JStr _ => UJSON_STR
                             | JCont InObj _ => UJSON_OBJ
                             | JCont InArr _ => UJSON_ARR
                             end, b') ∧ mv b b' (s ++ t).
Proof.
  intros Hj Hs E [Hd Hc]. destruct (text_head slen d j s Hj Hs) as (c & x & Ev & _ & _).
  destruct (eatws_ne b c (x ++ t)) as (b' & Ew & Hm); [by rewrite E, Ev|].
  exists b'. rewrite Ev. split; [|done]. unfold ujson_next_type. rewrite Ew. cbn iota. rewrite peekb_rest, (proj2 Hm).
  cbn [head default]. change (Datatypes.id c) with c.
  destruct j as [|y|z|s'|k l]; cbn in Hs; [|destruct y| |destruct Hs as (y & _ & Hs)|destruct Hs as (m & w & _ & _ & Hs); destruct k]; rewrite Hs in Ev;
    try (apply (f_equal head) in Ev; cbv in Ev; injection Ev as <-; reflexivity).
  assert (Forall (λ c, c = "-"%cc ∨ digit c) (c :: x)) as Hds.
  { rewrite <- Ev. unfold fmt_li. cbn in Hj. destruct (Z.ltb_spec z 0).
    - constructor; [by left|]. eapply Forall_impl; [apply (dec_spec (- z)); lia|]. by right.
    - eapply Forall_impl; [apply (dec_spec z); lia|]. by right. }
  assert (next_num_type b' = UJSON_INT) as Hi.
  { unfold next_num_type. rewrite rest_length. apply (num_type_int _ b' 0 (rest b')); [done| |done].
    rewrite (proj2 Hm). apply (calm_app (c :: x) t); [|done]. eapply Forall_impl; [exact Hds|].
    unfold digit. change ("-"%cc) with 45. change ("0"%cc) with 48. change ("9"%cc) with 57.
    change ("."%cc) with 46. change ("e"%cc) with 101. change ("E"%cc) with 69. lia. }
  apply Forall_cons in Hds as [[->|Hc0] _]; [by rewrite Hi|]. rewrite (digit_is c Hc0), orb_true_r, Hi.
  unfold digit in Hc0. change ("0"%cc) with 48 in *. change ("9"%cc) with 57 in *.
  change ("{"%cc) with 123. change ("["%cc) with 91. change cDQ with 34.
  by rewrite !(proj2 (Z.eqb_neq c _)) by lia.
Qed.

Lemma get_value_reads d j s b res t :
  jwf slen d j → is_text j s → val_buf res → trim (rest b) = s ++ t → follows t →
  ∃ res' b', get_value b res = Some (1, res', b') ∧ presents hb s res' j b' t ∧ keep b b' ∧ same_val res res'.
Proof.
  intros Hj Ht (Hb & Hs & _) E Hf. destruct (next_type_reads d j s b t Hj Ht E Hf) as (b1 & E1 & Hm1).
  unfold get_value. rewrite E1. pose proof (mv_keep _ _ _ Hm1) as Hk1. pose proof Hm1 as [_ E2].
  destruct j as [|x|z|y|k l]; cbn [is_text] in Ht; [rewrite Ht in E2..|destruct Ht as (x & Hx & ->)|].
  - unfold get_null. destruct (eatstr_yes _ b1 t E2) as (b2 & -> & Hm2). cbn [negb Z.eqb]. do 2 eexists. split; [done|].
    split_and!; [by split; [|apply Hm2]|by eapply keep_trans, mv_keep|done].
  - unfold get_bool. rewrite peekb_rest, E2.
    assert (∃ b2, eatstr b1 (if x then str "true" else str "false") = (true, b2) ∧ mv b1 b2 t) as (b2 & Es & Hm2)
      by (by apply eatstr_yes).
    destruct x; (rewrite Es || (cbn; rewrite Es)); do 2 eexists; (split; [done|]);
      (split_and!; [by split_and!; [| |apply Hm2]|by eapply keep_trans, mv_keep|done]).
  - destruct (get_int_reads z b1 (set_type UJSON_INT res) t Hj E2 (proj1 Hf)) as (b2 & -> & Hm2). cbn [negb Z.eqb].
    do 2 eexists. split; [done|]. split_and!; [by split_and!; [| |apply Hm2]|by eapply keep_trans, mv_keep|done].
  - destruct Hj as [_ Hl]. cbn [set_type have_buf buf_size]. rewrite Hb, Hs.
    destruct (copy_str_reads y x hb bs b1 t Hx) as (b2 & -> & Hm2); [by rewrite E2, <- !app_assoc|intros Eh; by apply (Hslen Eh)|].
    rewrite obind_Some. cbn [negb Z.eqb]. do 2 eexists. split; [done|].
    split_and!; [by split_and!; [| |apply Hm2]|by eapply keep_trans, mv_keep|done].
  - destruct k; do 2 eexists; (split; [done|]); (split_and!; [by split_and!|done|done]).
Qed.

(** ** Members *)

Definition mem_next (k : container) : ujson_reader → ujson_val → option (Z * ujson_val * ujson_reader) :=
  match k with InObj => obj_next | InArr => arr_next end.

(** The key as it is read. *)
Definition key_of (k : container) (res : ujson_val) : list Z :=
  match k with InObj => c_str (id res) | InArr => [] end.

(** The reader is at depth [d], without an error. *)
Definition ok (d : nat) (b : ujson_reader) : Prop :=
  err b = [] ∧ max_depth b = UJSON_RECURSION_MAX ∧ depth b = Z.of_nat d ∧ json b = J.

Lemma keep_ok d b b' : keep b b' → ok d b → ok d b'.
Proof. intros (H0 & H1 & H2 & H3) (? & ? & ? & ?). unfold ok. by rewrite H0, H1, H2, H3. Qed.

Lemma mv_ok d b b' t : mv b b' t → ok d b → ok d b'.
Proof. intros H. by eapply keep_ok, mv_keep. Qed.

Lemma member_head k d key v s :
  jwf slen d v → is_text v s → ∃ c x, ktext k key ++ s = c :: x ∧ is_ws c = false ∧ c ≠ close_ch k.
Proof.
  intros Hv Hs. destruct k; [by do 2 eexists|]. destruct (text_head slen d v s Hv Hs) as (c & x & E & Hw & Hc). by exists c, x.
Qed.

(** The result of a call that finds the member [key], [v]. *)
Definition found (d : nat) (k : container) (key : list Z) (v : jval) (s t : list Z)
    (r : option (Z * ujson_val * ujson_reader)) : Prop :=
  ∃ res b, r = Some (1, res, b) ∧ presents hb s res v b t ∧ ok d b ∧ val_buf res ∧ key_of k res = key.

Lemma member_reads d k key v s b res t :
  key_ok k key → jwf slen d v → is_text v s → val_buf res → ok d b → trim (rest b) = ktext k key ++ s ++ t → follows t →
  found d k key v s t (mem_next k b res).
Proof.
  intros Hk Hv Hs Hr Ho E Hf. destruct k; cbn [mem_next].
  - unfold obj_next. pose proof Hk as (_ & _ & He). pose proof Hr as (H1 & H2 & H3).
    cbn [ktext] in E. rewrite (esc_bytes_plain key He), <- !app_assoc in E.
    destruct (copy_id_reads key (id res) b _ Hk H3 E) as (i & b1 & -> & Hm1 & Hi & Hc).
    rewrite obind_Some. cbn [negb Z.eqb].
    destruct (text_head slen d v s Hv Hs) as (c & x & Ev & Hw & _).
    destruct (get_value_reads d v s b1 (set_id i res) t Hv Hs) as (res' & b2 & -> & Hp & Hk2 & (S1 & S2 & S3 & S4)).
    { by split_and!. }
    { rewrite (proj2 Hm1). cbn [app trim]. change (is_ws (" "%cc)) with true. cbn iota. rewrite Ev. by apply trim_nows. }
    { done. }
    exists res', b2. split_and!; [done|done| | |].
    + by eapply keep_ok, mv_ok.
    + unfold val_buf. by rewrite S1, S2, S3.
    + cbn. by rewrite S3.
  - cbn in Hk. subst key. cbn [ktext app] in E.
    destruct (get_value_reads d v s b res t Hv Hs Hr E Hf) as (res' & b2 & E2 & Hp & Hk2 & (S1 & S2 & S3 & S4)).
    exists res', b2. split_and!; [done|done|by eapply keep_ok| |done]. unfold val_buf. by rewrite S1, S2, S3.
Qed.

Lemma check_end_no b res ch c t :
  trim (rest b) = c :: t → c ≠ ch → ∃ b', check_end b res ch = (0, res, b') ∧ mv b b' (c :: t).
Proof.
  intros E Hc. unfold check_end. destruct (eatws_ne b c t E) as (b1 & -> & Hm1). cbn iota.
  rewrite eatb_no by (by rewrite (proj2 Hm1)). by exists b1.
Qed.

(** The end of a container, or of the text. *)
Definition after (d : nat) (t : list Z) (b : ujson_reader) : Prop := ok d b ∧ rest b = trim t.

Lemma trim_trim t : trim (trim t) = trim t.
Proof. induction t as [|c t IH]; [done|]. cbn. destruct (is_ws c) eqn:E; [done|]. cbn. by rewrite E. Qed.

Lemma check_end_yes d b res ch t :
  ok (S d) b → (d < 128)%nat → trim (rest b) = ch :: t → head (trim t) ≠ Some 0 →
  ∃ b', check_end b res ch = (1, set_type UJSON_VOID res, b') ∧ after d t b'.
Proof.
  intros Ho Hd E H0. unfold check_end. destruct (eatws_ne b ch t E) as (b1 & -> & Hm1). cbn iota.
  destruct (eatb_yes b1 ch t (proj2 Hm1)) as (b2 & -> & Hm2). cbn iota.
  destruct (eatws_rest b2) as (b3 & -> & Hm3). rewrite (proj2 Hm2) in Hm3.
  assert (eatb b3 0 = (match trim t with [] => true | _ => false end, b3)) as ->.
  { unfold eatb. rewrite peekb_rest, (proj2 Hm3). destruct (trim t) as [|c x] eqn:Et.
    - unfold getb. by destruct (rest_nil b3 (proj2 Hm3)) as (_ & -> & _).
    - cbn [head default]. change (Datatypes.id c) with c. by destruct (Z.eqb_spec c 0) as [->|]. }
  eexists. split; [done|].
  assert (ok (S d) b3) as (O1 & O2 & O3 & O4) by (do 3 (eapply mv_ok; [eassumption|]); done).
  split.
  - split_and!; [done|done| |done]. cbn. rewrite O3, wrapu_small by (change (2 ^ 32) with 4294967296; lia). lia.
  - apply Hm3.
Qed.

Lemma any_first_yes d b ch t :
  ok d b → (d < 128)%nat → trim (rest b) = ch :: t →
  ∃ b', any_first b ch = (0, b') ∧ ok (S d) b' ∧ rest b' = t.
Proof.
  intros Ho Hd E. unfold any_first. destruct (eatws_ne b ch t E) as (b1 & -> & Hm1). cbn iota.
  destruct (eatb_yes b1 ch t (proj2 Hm1)) as (b2 & -> & Hm2). cbn [negb].
  assert (ok d b2) as (O1 & O2 & O3 & O4) by (do 2 (eapply mv_ok; [eassumption|]); done).
  cbn [set_depth max_depth depth]. rewrite O2, O3, wrapu_small by (change (2 ^ 32) with 4294967296; lia).
  unfold UJSON_RECURSION_MAX. destruct (Z.ltb_spec 128 (Z.of_nat d + 1)); [lia|].
  eexists. split; [done|]. split; [|apply Hm2]. split_and!; [done|done| |done]. cbn. lia.
Qed.

Lemma ok_err d b : ok d b → ∀ res, check_err b res = (false, res).
Proof. intros (He & _) res. unfold check_err, ujson_reader_err. rewrite He. done. Qed.

(** The result of a call at the end of a container. *)
Definition ended (d : nat) (t : list Z) (res : ujson_val) (r : option (Z * ujson_val * ujson_reader)) : Prop :=
  ∃ b, r = Some (0, set_type UJSON_VOID res, b) ∧ after d t b.

(** The four ways a loop over a container goes on, in common terms. *)
Lemma first_of_eq k b res d :
  ok d b → first_of k b res =
  (let '(f, b) := any_first b (open_ch k) in
   if negb (f =? 0) then Some (0, res, b) else
   let '(e, res, b) := check_end b res (close_ch k) in
   if negb (e =? 0) then Some (0, res, b) else mem_next k b res).
Proof. intros Ho. destruct k; cbn; unfold ujson_obj_first, ujson_arr_first; by rewrite (ok_err d b Ho). Qed.

Lemma next_of_eq k b res d :
  ok d b → next_of k b res =
  (let '(e, res, b) := check_end b res (close_ch k) in
   if negb (e =? 0) then Some (0, res, b) else
   let '(p, res, b) := pre_next b res in
   if negb (p =? 0) then Some (0, res, b) else mem_next k b res).
Proof.
  intros Ho. destruct k; cbn [next_of mem_next close_ch]; unfold ujson_obj_next, ujson_arr_next;
    rewrite (ok_err d b Ho); cbn iota; [|done].
  unfold obj_pre_next, ujson_reader_err. destruct Ho as (He & _). rewrite He, bool_decide_true by done. cbn [negb].
  destruct (check_end b res ("}"%cc)) as [[e res1] b1]. destruct (e =? 0); [|done]. cbn [negb].
  destruct (pre_next b1 res1) as [[p res2] b2]. by destruct (p =? 0).
Qed.

Lemma first_nil d k w b res t :
  ok d b → (d < 128)%nat → ws w → trim (rest b) = open_ch k :: w ++ close_ch k :: t → head (trim t) ≠ Some 0 →
  ended d t res (first_of k b res).
Proof.
  intros Ho Hd Hw E H0. rewrite (first_of_eq k b res d Ho).
  destruct (any_first_yes d b _ _ Ho Hd E) as (b1 & -> & Ho1 & E1). cbn [negb Z.eqb].
  destruct (check_end_yes d b1 res (close_ch k) t Ho1 Hd) as (b2 & -> & Ha); [by rewrite E1, trim_ws; [destruct k|]|done|].
  by exists b2.
Qed.

Lemma first_cons d k key v s w b res t :
  ok d b → (d < 128)%nat → val_buf res → key_ok k key → jwf slen (S d) v → is_text v s → follows t → ws w →
  trim (rest b) = open_ch k :: w ++ ktext k key ++ s ++ t →
  found (S d) k key v s t (first_of k b res).
Proof.
  intros Ho Hd Hr Hk Hv Hs Hf Hws E. rewrite (first_of_eq k b res d Ho).
  destruct (any_first_yes d b _ _ Ho Hd E) as (b1 & -> & Ho1 & E1). cbn [negb Z.eqb].
  destruct (member_head k (S d) key v s Hv Hs) as (c & x & Ec & Hw & Hc).
  destruct (check_end_no b1 res (close_ch k) c (x ++ t)) as (b2 & -> & Hm2); [|done|].
  { rewrite E1, trim_ws, app_assoc, Ec by done. by apply trim_nows. }
  cbn [negb Z.eqb]. apply member_reads; try done; [by eapply mv_ok|].
  rewrite (proj2 Hm2), app_assoc, Ec. by apply trim_nows.
Qed.

Lemma next_nil d k b res t :
  ok (S d) b → (d < 128)%nat → trim (rest b) = close_ch k :: t → head (trim t) ≠ Some 0 →
  ended d t res (next_of k b res).
Proof.
  intros Ho Hd E H0. rewrite (next_of_eq k b res (S d) Ho).
  destruct (check_end_yes d b res (close_ch k) t Ho Hd E H0) as (b2 & -> & Ha). by exists b2.
Qed.

Lemma next_cons d k key v s w b res t :
  ok d b → val_buf res → key_ok k key → jwf slen d v → is_text v s → follows t → ws w →
  trim (rest b) = ","%cc :: w ++ ktext k key ++ s ++ t →
  found d k key v s t (next_of k b res).
Proof.
  intros Ho Hr Hk Hv Hs Hf Hws E. rewrite (next_of_eq k b res d Ho).
  destruct (member_head k d key v s Hv Hs) as (c & x & Ec & Hw & Hc).
  destruct (check_end_no b res (close_ch k) _ _ E) as (b1 & -> & Hm1); [by destruct k|]. cbn [negb Z.eqb].
  unfold pre_next. destruct (eatb_yes b1 _ _ (proj2 Hm1)) as (b2 & -> & Hm2). cbn [negb].
  destruct (eatws_ne b2 c (x ++ t)) as (b3 & -> & Hm3).
  { rewrite (proj2 Hm2), trim_ws, app_assoc, Ec by done. by apply trim_nows. }
  cbn [negb Z.eqb]. apply member_reads; try done; [by do 3 (eapply mv_ok; [eassumption|])|].
  rewrite (proj2 Hm3), app_assoc, Ec. by apply trim_nows.
Qed.

(** ** Documents *)

(** What may follow a container. *)
Definition tail_ok (t : list Z) : Prop := follows t ∧ head (trim t) ≠ Some 0.

(** The other members and the end of the container. *)
Definition is_ctext (k : container) (l : jmems) (t s : list Z) : Prop :=
  ∃ m w, is_mtext k false l m ∧ ws w ∧ s = m ++ w ++ close_ch k :: t.

Lemma ctext_cons k key v l t s :
  is_ctext k (JCons key v l) t s →
  ∃ w1 w2 sv s', ws w1 ∧ ws w2 ∧ is_text v sv ∧ is_ctext k l t s' ∧
    s = w1 ++ ","%cc :: w2 ++ ktext k key ++ sv ++ s'.
Proof.
  intros (m & w & (w1 & w2 & sv & sl & H1 & H2 & Hv & Hl & ->) & Hw & ->).
  exists w1, w2, sv, (sl ++ w ++ close_ch k :: t). split_and!; try done; [by exists sl, w|]. by rewrite <- !app_assoc.
Qed.

(** White space may be put before what follows. *)
Lemma tail_ws w t : ws w → tail_ok t → tail_ok (w ++ t).
Proof.
  intros Hw [[Hd Hc] H0]. split; [split|by rewrite trim_ws].
  - unfold no_digit. destruct Hw as [|x w Hx _]; [done|]. cbn. unfold is_ws in Hx. unfold is_digit.
    change (" "%cc) with 32 in Hx. repeat (apply orb_true_iff in Hx as [Hx|Hx]); apply Z.eqb_eq in Hx; by rewrite Hx.
  - apply calm_app; [|done]. eapply Forall_impl; [exact Hw|]. intros x Hx. cbn in Hx. by split_and!; intros ->.
Qed.

Lemma tail_ctext k l t s : tail_ok t → is_ctext k l t s → tail_ok s.
Proof.
  intros [[_ Hc] _] Hs. destruct l as [|key v l].
  - destruct Hs as (m & w & -> & Hw & ->). rewrite app_nil_l. apply tail_ws; [done|]. destruct k; (split; [split; [done|by right; right]|done]).
  - apply ctext_cons in Hs as (w1 & w2 & sv & s' & H1 & H2 & _ & _ & ->). apply tail_ws; [done|].
    split; [|done]. split; [done|right; by left].
Qed.

Definition reads_val (v : jval) : Prop := ∀ d s res b t fuel,
  ok d b → jwf slen d v → is_text v s → presents hb s res v b t → tail_ok t → (vfuel v ≤ fuel)%nat →
  ∃ b', decode_val (decode_loop fuel bs) bs res b = Some (v, b') ∧ ok d b' ∧ trim (rest b') = trim t.

Definition reads_rest (l : jmems) : Prop := ∀ d k key v sv s res b t fuel,
  reads_val v → is_text v sv → is_ctext k l t s → presents hb sv res v b s → ok (S d) b → (d < 128)%nat → val_buf res →
  jwf slen (S d) v → mwf slen (S d) k l → key_of k res = key → tail_ok t → (mfuel (JCons key v l) ≤ fuel)%nat →
  ∃ b', decode_loop fuel bs k res b = Some (JCons key v l, b') ∧ after d t b'.

Definition reads_cont (l : jmems) : Prop := ∀ d k s b t fuel,
  ok d b → is_text (JCont k l) s → trim (rest b) = s ++ t → (d < 128)%nat → mwf slen (S d) k l → tail_ok t →
  (mfuel l ≤ fuel)%nat →
  ∃ b', decode_nested (decode_loop fuel bs) bs k b = Some (JCont k l, b') ∧ after d t b'.

Lemma presents_valid s res v b t : presents hb s res v b t → ujson_val_valid res = true.
Proof. destruct v as [|x|z|y|k l]; [..|destruct k]; intros [H _]; unfold ujson_val_valid; by rewrite H. Qed.

Lemma decode_end fuel k res b : type res = UJSON_VOID → (0 < fuel)%nat → decode_loop fuel bs k res b = Some (JNil, b).
Proof. intros H Hf. destruct fuel; [lia|]. cbn [decode_loop]. unfold ujson_val_valid. by rewrite H. Qed.

(** From here on the strings are kept. *)
Context (Hhb : hb = true).

Lemma val_init_buf : val_buf (UJSON_VAL_INIT bs).
Proof. by split_and!. Qed.

Lemma reads_scalar v : (∀ k l, v ≠ JCont k l) → reads_val v.
Proof.
  intros Hv d s res b t fuel Ho _ _ Hp _ _. exists b.
  destruct v as [|x|z|y|k l]; [| | | |by destruct (Hv k l)]; cbn in Hp; unfold decode_val;
    [destruct Hp as [-> Hr]|destruct Hp as (-> & -> & Hr)..]; (split; [|split; [done|by rewrite Hr]]); try done.
  - by destruct x.
  - by rewrite Hhb.
Qed.

Lemma reads_container k l : reads_cont l → reads_val (JCont k l).
Proof.
  intros IH d s res b t fuel Ho [Hd Hl] Hs (Ht & Hr & _) Htl Hf.
  assert (decode_val (decode_loop fuel bs) bs res b = decode_nested (decode_loop fuel bs) bs k b) as ->.
  { unfold decode_val. rewrite Ht. by destruct k. }
  destruct (IH d k s b t fuel) as (b' & E & Ho' & Hr'); try done.
  { rewrite Hr. destruct Hs as (m & w & _ & _ & ->). by destruct k. }
  exists b'. split_and!; [done|done|]. by rewrite Hr', trim_trim.
Qed.

Lemma reads_rest_nil : reads_rest JNil.
Proof.
  intros d k key v sv s res b t fuel Hv Hsv Hs Hp Ho Hd Hb Hj _ Hkey Ht Hf. cbn [mfuel] in Hf.
  destruct fuel as [|fuel]; [lia|]. cbn [decode_loop]. rewrite (presents_valid _ _ _ _ _ Hp). cbn [negb].
  destruct (Hv (S d) sv res b _ fuel Ho Hj Hsv Hp) as (b1 & -> & Ho1 & E1); [by eapply tail_ctext|lia|]. bind_step.
  destruct Hs as (m & w & -> & Hw & ->). rewrite app_nil_l, trim_ws in E1 by done.
  destruct (next_nil d k b1 res t Ho1 Hd) as (b2 & -> & Ha); [by rewrite E1; destruct k|apply Ht|].
  bind_step. rewrite decode_end by (done || lia). rewrite obind_Some.
  exists b2. split; [|done]. unfold key_of in Hkey. by rewrite Hkey.
Qed.

Lemma reads_rest_cons key v l : reads_val v → reads_rest l → reads_rest (JCons key v l).
Proof.
  intros Hv Hl d k key0 v0 sv0 s res b t fuel Hv0 Hsv Hs Hp Ho Hd Hb Hj (Hk & Hj1 & Hj2) Hkey Ht Hf. cbn [mfuel] in Hf.
  destruct fuel as [|fuel]; [lia|]. cbn [decode_loop]. rewrite (presents_valid _ _ _ _ _ Hp). cbn [negb].
  destruct (Hv0 (S d) sv0 res b _ fuel Ho Hj Hsv Hp) as (b1 & -> & Ho1 & E1); [by eapply tail_ctext|cbn in *; lia|].
  bind_step. apply ctext_cons in Hs as (w1 & w2 & sv & s' & Hw1 & Hw2 & Hv1 & Hs' & ->).
  rewrite trim_ws in E1 by done.
  destruct (next_cons (S d) k key v sv w2 b1 res s' Ho1 Hb Hk Hj1 Hv1) as (res2 & b2 & -> & Hp2 & Ho2 & Hb2 & Hk2);
    [by eapply tail_ctext|done|done|].
  bind_step.
  destruct (Hl d k key v sv s' res2 b2 t fuel Hv Hv1 Hs' Hp2 Ho2 Hd Hb2 Hj1 Hj2 Hk2 Ht) as (b3 & -> & Ha); [cbn in *; lia|].
  rewrite obind_Some. exists b3. split; [|done]. unfold key_of in Hkey. by rewrite Hkey.
Qed.

Lemma reads_cont_nil : reads_cont JNil.
Proof.
  intros d k s b t fuel Ho (m & w & -> & Hw & ->) E Hd _ Ht Hf. unfold decode_nested.
  destruct (first_nil d k w b (UJSON_VAL_INIT bs) t Ho Hd Hw) as (b1 & -> & Ha);
    [by rewrite E, app_nil_l; cbn; rewrite <- app_assoc|apply Ht|].
  bind_step. rewrite decode_end by done. rewrite obind_Some. by exists b1.
Qed.

Lemma reads_cont_cons key v l : reads_val v → reads_rest l → reads_cont (JCons key v l).
Proof.
  intros Hv Hl d k s b t fuel Ho (m & w & (w1 & w2 & sv & sl & _ & Hw2 & Hsv & Hsl & ->) & Hw & ->) E Hd (Hk & Hj1 & Hj2) Ht Hf.
  assert (is_ctext k l t (sl ++ w ++ close_ch k :: t)) as Hc by (by exists sl, w). unfold decode_nested.
  destruct (first_cons d k key v sv w2 b (UJSON_VAL_INIT bs) _ Ho Hd val_init_buf Hk Hj1 Hsv (proj1 (tail_ctext _ _ _ _ Ht Hc)) Hw2)
    as (res2 & b2 & -> & Hp2 & Ho2 & Hb2 & Hk2).
  { rewrite E, app_nil_l. cbn. by rewrite <- !app_assoc. }
  bind_step.
  destruct (Hl d k key v sv _ res2 b2 t fuel Hv Hsv Hc Hp2 Ho2 Hd Hb2 Hj1 Hj2 Hk2 Ht Hf) as (b3 & -> & Ha).
  rewrite obind_Some. by exists b3.
Qed.

Lemma reads_all : (∀ v, reads_val v) ∧ (∀ l, reads_rest l ∧ reads_cont l).
Proof.
  apply jval_jmems_ind; try (intros; by apply reads_scalar).
  - intros k l [_ IH]. by apply reads_container.
  - split; [apply reads_rest_nil|apply reads_cont_nil].
  - intros key v Hv l [Hl _]. split; [by apply reads_rest_cons|by apply reads_cont_cons].
Qed.

Lemma decode_doc_reads k l s t fuel strict :
  J = s ++ t → mwf slen 1 k l → is_text (JCont k l) s → tail_ok t → (mfuel l ≤ fuel)%nat →
  ∃ b', decode_doc fuel bs (UJSON_READER_INIT (s ++ t) strict) = Some (JCont k l, b') ∧ after 0 t b'.
Proof.
  intros EJ Hl Hs Ht Hf. rewrite <- EJ. set (b := UJSON_READER_INIT _ strict).
  assert (jwf slen 0 (JCont k l)) as Hj by (split; [lia|done]).
  destruct (text_head slen 0 (JCont k l) s Hj Hs) as (c & x & Ev & Hw & _).
  destruct (next_type_reads 0 (JCont k l) s b t Hj Hs) as (b1 & E1 & Hm1); [|apply Ht|].
  { change (rest b) with J. rewrite EJ, Ev. by apply trim_nows. }
  unfold decode_doc, ujson_reader_start. rewrite E1.
  assert (ok 0 b1) as Ho1 by (by apply (mv_ok 0 b b1 _ Hm1)).
  destruct (proj2 (proj2 reads_all l) 0%nat k s b1 t fuel Ho1 Hs) as (b2 & E2 & Ha); [|lia|done|done|done|].
  { rewrite (proj2 Hm1), Ev. by apply trim_nows. }
  exists b2. split; [|done]. by destruct k.
Qed.

(** A text and white space after it, as the clients see it. *)
Lemma decode_doc_text k l s w fuel strict :
  J = s ++ w → mwf slen 1 k l → is_text (JCont k l) s → ws w → (mfuel l ≤ fuel)%nat →
  ∃ b, decode_doc fuel bs (UJSON_READER_INIT (s ++ w) strict) = Some (JCont k l, b) ∧
    ujson_reader_err b = false ∧ ujson_reader_consumed b = true.
Proof.
  intros EJ Hl Hs Hw Hf.
  assert (tail_ok w) as Ht by (rewrite <- (app_nil_r w); by apply tail_ws).
  destruct (decode_doc_reads k l s w fuel strict EJ Hl Hs Ht Hf) as (b & E & (He & _) & Hr).
  exists b. split_and!; [done| |].
  - unfold ujson_reader_err. by rewrite He.
  - rewrite <- (app_nil_r w), trim_ws in Hr by done. by destruct (rest_nil b Hr) as (? & _).
Qed.
End Read.

Lemma jwf_mono (p q : nat → Prop) :
  (∀ n, p n → q n) → (∀ j d, jwf p d j → jwf q d j) ∧ (∀ l d k, mwf p d k l → mwf q d k l).
Proof.
  intros Hpq. apply jval_jmems_ind; try done.
  - intros s d [Hs Hl]. split; [done|by apply Hpq].
  - intros k l IH d [Hd Hl]. split; [done|by apply IH].
  - intros key v IHv l IHl d k (Hk & Hv & Hl). split_and!; [done|by apply IHv|by apply IHl].
Qed.

(** ** The round trip *)

Section Roundtrip.
Context {S : Type} {out_fn : S → list Z → Z * option (list Z) * S} `{!AppendSink S out_fn}.

Lemma init_wr s : sink_ok s → wr (UJSON_WRITER_INIT s) [] (content s).
Proof. intros Hs. split_and!; [|done..]. split; try done. simpl. lia. Qed.

Lemma roundtrip s k l bs strict fuel :
  sink_ok s → content s = [] → mwf (λ n, piece_len n ∧ (n < bs)%nat) 1 k l → (mfuel l ≤ fuel)%nat →
  ∃ w, write_doc out_fn (UJSON_WRITER_INIT s) (JCont k l) = Some (0, w) ∧ sink_ok (sink w) ∧
    content (sink w) = vtext 0 (JCont k l) ++ [10] ∧
    ∃ b, decode_doc fuel bs (UJSON_READER_INIT (content (sink w)) strict) = Some (JCont k l, b) ∧
      ujson_reader_err b = false ∧ ujson_reader_consumed b = true.
Proof.
  intros Hs Hc Hl Hf.
  destruct (write_doc_wr (UJSON_WRITER_INIT s) (content s) k l (init_wr s Hs)) as (w & E & (_ & _ & Ho & Hw)).
  { exact (proj2 (jwf_mono _ piece_len (λ n H, proj1 H)) l 1%nat k Hl). }
  exists w. split_and!; [done|done|by rewrite Hw, Hc|].
  rewrite Hw, Hc, app_nil_l.
  by apply (decode_doc_text _ (λ n, piece_len n ∧ (n < bs)%nat) true bs (λ _ n H, proj2 H) eq_refl k l _ [10] fuel strict eq_refl Hl);
    [eapply vtext_is_text; split; [|exact Hl]; lia|constructor|].
Qed.
End Roundtrip.

(** C6. What the writer writes the reader reads: a document without
    floating-point numbers, whose containers are nested at most 128 deep, whose
    keys need no escape and have at most 63 bytes, whose integers are longs
    above LONG_MIN and whose strings are UTF-8 without control characters that
    have no escape and fit the reader's buffer, is written by the calls of the
    writer without an error, and the loops of the reader over the text that
    was written find the document again, without an error and up to the end of
    the text. *)
Theorem ujson_roundtrip (k : container) (l : jmems) (bs : nat) (strict : bool) (fuel : nat) :
  mwf (λ n, n < bs)%nat 1 k l → (mfuel l ≤ fuel)%nat →
  ∃ w, write_doc string_out (UJSON_WRITER_INIT []) (JCont k l) = Some (0, w) ∧
    ∃ b, decode_doc fuel bs (UJSON_READER_INIT (sink w) strict) = Some (JCont k l, b) ∧
      ujson_reader_err b = false ∧ ujson_reader_consumed b = true.
Proof.
  intros Hl Hf. destruct (roundtrip (out_fn := string_out) [] k l bs strict fuel) as (w & E & _ & _ & H); [done|done| |done|].
  { by apply (proj2 (jwf_mono _ _ (λ n H, conj I H)) l 1%nat k). }
  by exists w.
Qed.

(** The same through the file writer: when every write(2) is complete
    and no string is longer than a quarter of the 1024 bytes buffer, the file
    holds after close the text of the document, and it is read back. *)
Theorem ujson_file_roundtrip (k : container) (l : jmems) (bs : nat) (strict : bool) (fuel : nat) :
  mwf (λ n, n ≤ 256 ∧ n < bs)%nat 1 k l → (mfuel l ≤ fuel)%nat →
  ∃ w f, write_doc out_writer_file ujson_writer_file_open (JCont k l) = Some (0, w) ∧
    ujson_writer_file_close (sink w) 0 0 = (0, f) ∧ file f = vtext 0 (JCont k l) ++ [10] ∧
    ∃ b, decode_doc fuel bs (UJSON_READER_INIT (file f) strict) = Some (JCont k l, b) ∧
      ujson_reader_err b = false ∧ ujson_reader_consumed b = true.
Proof.
  intros Hl Hf. destruct (roundtrip (out_fn := out_writer_file) (mk_wf [] [] []) k l bs strict fuel) as (w & E & Ho & Hc & H).
  { split; [done|]. cbn. unfold WF_BUF_SIZE. lia. } { done. } { exact Hl. } { done. }
  assert (∃ f, ujson_writer_file_close (sink w) 0 0 = (0, f) ∧ file f = content (sink w)) as (f & Ef & Hfile).
  { unfold ujson_writer_file_close. destruct Ho as [Hw _]. cbn [content file_sink]. destruct (decide (wbuf (sink w) = [])) as [En|Hn].
    - eexists. split; [done|]. by rewrite En, app_nil_r.
    - rewrite file_write_complete; [by eexists|done|done|]. destruct (wbuf (sink w)); [done|simpl; lia]. }
  exists w, f. rewrite Hfile. by split_and!.
Qed.

(** A document with every kind of value. *)
Definition demo : jmems :=
  JCons (str "id") (JInt (-42))
    (JCons (str "msg") (JStr (utf8_string [34; 10; 233; 8364]))
      (JCons (str "list") (JCont InArr (JCons [] JNull (JCons [] (JBool true) (JCons [] (JCont InObj JNil) JNil)))) JNil)).

Lemma utf8_intro us s : bool_decide (Forall (λ u, 0 < u < 65536) us) = true → s = utf8_string us → utf8 s.
Proof.
  intros H ->. exists us. split; [done|]. apply bool_decide_eq_true_1 in H. eapply Forall_impl; [exact H|].
  intros u Hu. by apply bmp_ucode.
Qed.

Lemma demo_wf p : p 7%nat → mwf p 1 InObj demo.
Proof.
  assert (∀ s, bool_decide (Forall (λ c, esc_of c = None) s) = true → (length s < UJSON_ID_MAX)%nat →
    utf8 s → key_ok InObj s) as Hk.
  { intros s Hs Hl Hu. split_and!; [done|done|]. by apply bool_decide_eq_true_1 in Hs. }
  intros Hp. refine (conj _ (conj _ (conj _ (conj (conj (conj _ _) Hp) (conj _ (conj _ I)))))).
  - apply Hk; [by vm_compute|vm_compute; lia|]. by apply (utf8_intro (str "id")).
  - cbn. lia.
  - apply Hk; [by vm_compute|vm_compute; lia|]. by apply (utf8_intro (str "msg")).
  - by apply (utf8_intro [34; 10; 233; 8364]).
  - refine (bool_decide_eq_true_1 (Forall (λ c, 32 ≤ c ∨ esc_of c ≠ None) _) _). by vm_compute.
  - apply Hk; [by vm_compute|vm_compute; lia|]. by apply (utf8_intro (str "list")).
  - refine (conj _ (conj eq_refl (conj I (conj eq_refl (conj I (conj eq_refl (conj (conj _ I) I))))))); lia.
Qed.

Lemma ujson_roundtrip_witness :
  ∃ w, write_doc string_out (UJSON_WRITER_INIT []) (JCont InObj demo) = Some (0, w) ∧
    ∃ b, decode_doc 10 8 (UJSON_READER_INIT (sink w) true) = Some (JCont InObj demo, b) ∧
      ujson_reader_err b = false ∧ ujson_reader_consumed b = true.
Proof. apply (ujson_roundtrip InObj demo 8 true 10); [apply demo_wf; lia|vm_compute; lia]. Defined.

Lemma ujson_file_roundtrip_witness :
  ∃ w f, write_doc out_writer_file ujson_writer_file_open (JCont InObj demo) = Some (0, w) ∧
    ujson_writer_file_close (sink w) 0 0 = (0, f) ∧ file f = vtext 0 (JCont InObj demo) ++ [10] ∧
    ∃ b, decode_doc 10 8 (UJSON_READER_INIT (file f) true) = Some (JCont InObj demo, b) ∧
      ujson_reader_err b = false ∧ ujson_reader_consumed b = true.
Proof. apply (ujson_file_roundtrip InObj demo 8 true 10); [apply demo_wf; lia|vm_compute; lia]. Defined.
