(* ===== verification/UjsonFilter.v ===== *)
(** * Skipping and filtering what is read

    What [ujson_obj_skip], [ujson_arr_skip] and the loops with attribute
    lists do on the text of a document. *)

From S2P Require Import Prelude UjsonUtf UjsonReader UjsonReaderFacts UjsonWriter UjsonWriterFacts UjsonRoundtrip UjsonReadback.
Open Scope Z_scope.

(** ** The rounds of a loop are bounded by the text *)

Lemma fuel_text slen :
  (∀ v d s, jwf slen d v → is_text v s → (vfuel v ≤ length s)%nat) ∧
  (∀ l d k f s, mwf slen d k l → is_mtext k f l s → (mfuel l ≤ S (length s))%nat).
Proof.
  apply jval_jmems_ind; try (intros; cbn [vfuel]; lia).
  - intros k l IH d s [_ Hl] (m & w & Hm & _ & ->). cbn [vfuel]. specialize (IH _ _ _ _ Hl Hm).
    cbn [length]. rewrite !length_app. simpl. lia.
  - intros d k f s _ ->. simpl. lia.
  - intros key v IHv l IHl d k f s (_ & Hv & Hl) (w1 & w2 & sv & sl & _ & _ & Hsv & Hsl & ->).
    specialize (IHv _ _ Hv Hsv). specialize (IHl _ _ _ _ Hl Hsl).
    destruct (text_head slen d v sv Hv Hsv) as (c & x & -> & _). cbn [mfuel]. rewrite !length_app. simpl in *. lia.
Qed.

(** ** Skipping *)

Section Skip.
Context (J : list Z) (slen : nat → Prop).
#[local] Abbreviation ok := (ok J).
#[local] Abbreviation after := (after J).

(** No string is kept. *)
#[local] Abbreviation skip_buf := (val_buf false 0).

Lemma no_strings : false = true → ∀ n, slen n → (n < 0)%nat.
Proof. done. Qed.

Lemma val_zero_buf : skip_buf val_zero.
Proof. by split_and!. Qed.

(** Entering a container and skipping its members. *)
Definition skip_in (fuel : nat) (k : container) (b : ujson_reader) : option (Z * ujson_reader) :=
  '(_, res, b) ← first_of k b val_zero; skip_loop fuel k res b.

(** The body of the loop. *)
Definition skip_value (fuel : nat) (res : ujson_val) (b : ujson_reader) : option (Z * ujson_reader) :=
  match type res with
  | UJSON_OBJ => skip_in fuel InObj b
  | UJSON_ARR => skip_in fuel InArr b
  | _ => Some (0, b)
  end.

Lemma skip_loop_S fuel k res b :
  skip_loop (S fuel) k res b =
  if negb (ujson_val_valid res) then Some (0, b) else
  '(r, b) ← skip_value fuel res b;
  if negb (r =? 0) then Some (1, b) else
  '(_, res, b) ← next_of k b res;
  skip_loop fuel k res b.
Proof. done. Qed.

Definition skips_val (v : jval) : Prop := ∀ d s res b t fuel,
  ok d b → jwf slen d v → is_text v s → presents false s res v b t → tail_ok t → (vfuel v ≤ fuel)%nat →
  ∃ b', skip_value fuel res b = Some (0, b') ∧ ok d b' ∧ trim (rest b') = trim t.

Definition skips_rest (l : jmems) : Prop := ∀ d k v sv s res b t fuel,
  skips_val v → is_text v sv → is_ctext k l t s → presents false sv res v b s → ok (S d) b → (d < 128)%nat → skip_buf res →
  jwf slen (S d) v → mwf slen (S d) k l → tail_ok t → (mfuel (JCons [] v l) ≤ fuel)%nat →
  ∃ b', skip_loop fuel k res b = Some (0, b') ∧ after d t b'.

Definition skips_cont (l : jmems) : Prop := ∀ d k s b t fuel,
  ok d b → is_text (JCont k l) s → trim (rest b) = s ++ t → (d < 128)%nat → mwf slen (S d) k l → tail_ok t →
  (mfuel l ≤ fuel)%nat →
  ∃ b', skip_in fuel k b = Some (0, b') ∧ after d t b'.

Lemma skip_end fuel k res b : type res = UJSON_VOID → (0 < fuel)%nat → skip_loop fuel k res b = Some (0, b).
Proof. intros H Hf. destruct fuel; [lia|]. rewrite skip_loop_S. unfold ujson_val_valid. by rewrite H. Qed.

Lemma skips_scalar v : (∀ k l, v ≠ JCont k l) → skips_val v.
Proof.
  intros Hv d s res b t fuel Ho _ _ Hp _ _. exists b. unfold skip_value.
  destruct v as [|x|z|y|k l]; [| | | |by destruct (Hv k l)]; cbn in Hp;
    [destruct Hp as [-> Hr]|destruct Hp as (-> & _ & Hr)..]; (split; [done|split; [done|by rewrite Hr]]).
Qed.

Lemma skips_container k l : skips_cont l → skips_val (JCont k l).
Proof.
  intros IH d s res b t fuel Ho [Hd Hl] Hs (Ht & Hr & _) Htl Hf.
  assert (skip_value fuel res b = skip_in fuel k b) as -> by (unfold skip_value; rewrite Ht; by destruct k).
  destruct (IH d k s b t fuel) as (b' & E & Ho' & Hr'); try done.
  { rewrite Hr. destruct Hs as (m & w & _ & _ & ->). by destruct k. }
  exists b'. split_and!; [done|done|]. by rewrite Hr', trim_trim.
Qed.

Lemma skips_rest_nil : skips_rest JNil.
Proof.
  intros d k v sv s res b t fuel Hv Hsv Hs Hp Ho Hd Hb Hj _ Ht Hf. cbn [mfuel] in Hf.
  destruct fuel as [|fuel]; [lia|]. rewrite skip_loop_S, (presents_valid _ _ _ _ _ _ Hp). cbn [negb].
  destruct (Hv (S d) sv res b _ fuel Ho Hj Hsv Hp) as (b1 & -> & Ho1 & E1); [by eapply tail_ctext|lia|]. bind_step. cbn [Z.eqb negb].
  destruct Hs as (m & w & -> & Hw & ->). rewrite app_nil_l, trim_ws in E1 by done.
  destruct (next_nil J d k b1 res t Ho1 Hd) as (b2 & -> & Ha); [by rewrite E1; destruct k|apply Ht|].
  bind_step. rewrite skip_end by (done || lia). by exists b2.
Qed.

Lemma skips_rest_cons key v l : skips_val v → skips_rest l → skips_rest (JCons key v l).
Proof.
  intros Hv Hl d k v0 sv0 s res b t fuel Hv0 Hsv Hs Hp Ho Hd Hb Hj (Hk & Hj1 & Hj2) Ht Hf. cbn [mfuel] in Hf.
  destruct fuel as [|fuel]; [lia|]. rewrite skip_loop_S, (presents_valid _ _ _ _ _ _ Hp). cbn [negb].
  destruct (Hv0 (S d) sv0 res b _ fuel Ho Hj Hsv Hp) as (b1 & -> & Ho1 & E1); [by eapply tail_ctext|cbn in *; lia|].
  bind_step. cbn [Z.eqb negb]. apply ctext_cons in Hs as (w1 & w2 & sv & s' & Hw1 & Hw2 & Hv1 & Hs' & ->).
  rewrite trim_ws in E1 by done.
  destruct (next_cons J slen false 0 no_strings (S d) k key v sv w2 b1 res s' Ho1 Hb Hk Hj1 Hv1) as (res2 & b2 & -> & Hp2 & Ho2 & Hb2 & Hk2);
    [by eapply tail_ctext|done|done|].
  bind_step.
  destruct (Hl d k v sv s' res2 b2 t fuel Hv Hv1 Hs' Hp2 Ho2 Hd Hb2 Hj1 Hj2 Ht) as (b3 & -> & Ha); [cbn in *; lia|].
  by exists b3.
Qed.

Lemma skips_cont_nil : skips_cont JNil.
Proof.
  intros d k s b t fuel Ho (m & w & -> & Hw & ->) E Hd _ Ht Hf. unfold skip_in.
  destruct (first_nil J d k w b val_zero t Ho Hd Hw) as (b1 & -> & Ha);
    [by rewrite E, app_nil_l; cbn; rewrite <- app_assoc|apply Ht|].
  bind_step. rewrite skip_end by done. by exists b1.
Qed.

Lemma skips_cont_cons key v l : skips_val v → skips_rest l → skips_cont (JCons key v l).
Proof.
  intros Hv Hl d k s b t fuel Ho (m & w & (w1 & w2 & sv & sl & _ & Hw2 & Hsv & Hsl & ->) & Hw & ->) E Hd (Hk & Hj1 & Hj2) Ht Hf.
  assert (is_ctext k l t (sl ++ w ++ close_ch k :: t)) as Hc by (by exists sl, w). unfold skip_in.
  destruct (first_cons J slen false 0 no_strings d k key v sv w2 b val_zero _ Ho Hd val_zero_buf Hk Hj1 Hsv (proj1 (tail_ctext _ _ _ _ Ht Hc)) Hw2)
    as (res2 & b2 & -> & Hp2 & Ho2 & Hb2 & Hk2).
  { rewrite E, app_nil_l. cbn. by rewrite <- !app_assoc. }
  bind_step.
  destruct (Hl d k v sv _ res2 b2 t fuel Hv Hsv Hc Hp2 Ho2 Hd Hb2 Hj1 Hj2 Ht Hf) as (b3 & -> & Ha). by exists b3.
Qed.

Lemma skips_all : (∀ v, skips_val v) ∧ (∀ l, skips_rest l ∧ skips_cont l).
Proof.
  apply jval_jmems_ind; try (intros; by apply skips_scalar).
  - intros k l [_ IH]. by apply skips_container.
  - split; [apply skips_rest_nil|apply skips_cont_nil].
  - intros key v Hv l [Hl _]. split; [by apply skips_rest_cons|by apply skips_cont_cons].
Qed.

(** Skipping a container ends behind its text. *)
Lemma skip_text k l d s b t :
  ok d b → is_text (JCont k l) s → rest b = s ++ t → (d < 128)%nat → mwf slen (S d) k l → tail_ok t →
  ∃ b', ujson_skip k b = Some (0, b') ∧ after d t b'.
Proof.
  intros Ho Hs E Hd Hl Ht. pose proof Hs as (m & w & Hm & _ & Es).
  assert (trim (rest b) = s ++ t) as E' by (rewrite E, Es; by destruct k).
  apply (proj2 (proj2 skips_all l) d k s b t (skip_fuel b)); try done.
  pose proof (proj2 (fuel_text slen) l (S d) k true m Hl Hm). unfold skip_fuel. rewrite rest_length, E, Es.
  cbn [app length]. rewrite !length_app. lia.
Qed.
End Skip.

(** ** Attribute lists *)

Definition jtype (v : jval) : ujson_type :=
  match v with
  | JNull => UJSON_NULL
  | JBool _ => UJSON_BOOL
  | JInt _ => UJSON_INT
  | JStr _ => UJSON_STR
  | JCont InObj _ => UJSON_OBJ
  | JCont InArr _ => UJSON_ARR
  end.

Lemma presents_type hb s res v b t : presents hb s res v b t → type res = jtype v.
Proof. destruct v as [|x|z|y|[] l]; by intros [H _]. Qed.

Section Filter.
Context (J : list Z) (slen : nat → Prop) (hb : bool) (bs : nat) (Hslen : hb = true → ∀ n, slen n → (n < bs)%nat).
Context (obj : ujson_obj) (ign : option ujson_obj).
#[local] Abbreviation ok := (ok J).
#[local] Abbreviation ended := (ended J).

(** The key is found as the attribute [n], and the value has its type. *)
Definition known (key : list Z) (v : jval) (n : nat) : Prop :=
  ∃ attr, ujson_obj_lookup obj key = Some (Some n) ∧ obj !! n = Some attr ∧ type_matches (attr_type attr) (jtype v) = true.

(** The result of a call that finds the attribute. *)
Definition found_attr (d : nat) (key : list Z) (v : jval) (n : nat) (s t : list Z)
    (r : option (Z * ujson_val * ujson_reader)) : Prop :=
  ∃ res b, r = Some (1, res, b) ∧ presents hb s res v b t ∧ ok d b ∧ val_buf hb bs res ∧ idx res = Some n.

Lemma attr_reads d key v n s fuel b res t :
  key_ok InObj key → jwf slen d v → is_text v s → val_buf hb bs res → ok d b →
  trim (rest b) = ktext InObj key ++ s ++ t → follows t → known key v n →
  found_attr d key v n s t (obj_next_filter (S fuel) (Some obj) ign b res).
Proof.
  intros Hk Hv Hs (H1 & H2 & H3) Ho E Hf (attr & Hl & Ha & Hty). cbn [obj_next_filter].
  pose proof Hk as (_ & _ & He). cbn [ktext] in E. rewrite (esc_bytes_plain key He), <- !app_assoc in E.
  destruct (copy_id_reads key (id res) b _ Hk H3 E) as (i & b1 & -> & Hm1 & Hi & Hc).
  bind_step. cbn [negb Z.eqb id set_id]. rewrite Hc, Hl. bind_step.
  destruct (text_head slen d v s Hv Hs) as (c & x & Ev & Hw & _).
  destruct (get_value_reads slen hb bs Hslen d v s b1 (set_idx (Some n) (set_id i res)) t Hv Hs)
    as (res' & b2 & -> & Hp & Hk2 & (S1 & S2 & S3 & S4)).
  { by split_and!. }
  { rewrite (proj2 Hm1). cbn [app trim]. change (is_ws (" "%cc)) with true. cbn iota. rewrite Ev. by apply trim_nows. }
  { done. }
  bind_step. cbn [Z.eqb]. rewrite obind_Some, Ha. bind_step. rewrite (presents_type _ _ _ _ _ _ Hp), Hty.
  exists res', b2. split_and!; [done|done|by eapply keep_ok, mv_ok| |by rewrite S4].
  unfold val_buf. by rewrite S1, S2, S3.
Qed.

Lemma first_filter_nil d w b res t :
  ok d b → (d < 128)%nat → ws w → trim (rest b) = "{"%cc :: w ++ "}"%cc :: t → head (trim t) ≠ Some 0 →
  ended d t res (ujson_obj_first_filter (Some obj) ign b res).
Proof.
  intros Ho Hd Hw E H0. unfold ujson_obj_first_filter. rewrite (ok_err J d b Ho). cbn iota.
  destruct (any_first_yes J d b _ _ Ho Hd E) as (b1 & -> & Ho1 & E1). cbn [negb Z.eqb].
  destruct (check_end_yes J d b1 res ("}"%cc) t Ho1 Hd) as (b2 & -> & Ha); [by rewrite E1, trim_ws|done|].
  by exists b2.
Qed.

Lemma first_filter_cons d key v n s w b res t :
  ok d b → (d < 128)%nat → val_buf hb bs res → key_ok InObj key → jwf slen (S d) v → is_text v s → follows t → ws w →
  known key v n → trim (rest b) = "{"%cc :: w ++ ktext InObj key ++ s ++ t →
  found_attr (S d) key v n s t (ujson_obj_first_filter (Some obj) ign b res).
Proof.
  intros Ho Hd Hr Hk Hv Hs Hf Hws Hn E. unfold ujson_obj_first_filter. rewrite (ok_err J d b Ho). cbn iota.
  destruct (any_first_yes J d b _ _ Ho Hd E) as (b1 & -> & Ho1 & E1). cbn [negb Z.eqb].
  destruct (member_head slen InObj (S d) key v s Hv Hs) as (c & x & Ec & Hw & Hc).
  destruct (check_end_no b1 res ("}"%cc) c (x ++ t)) as (b2 & -> & Hm2); [|done|].
  { rewrite E1, trim_ws, app_assoc, Ec by done. by apply trim_nows. }
  cbn [negb Z.eqb]. apply attr_reads; try done; [by eapply mv_ok|].
  rewrite (proj2 Hm2), app_assoc, Ec. by apply trim_nows.
Qed.

Lemma next_filter_nil d b res t :
  ok (S d) b → (d < 128)%nat → trim (rest b) = "}"%cc :: t → head (trim t) ≠ Some 0 →
  ended d t res (ujson_obj_next_filter (Some obj) ign b res).
Proof.
  intros Ho Hd E H0. unfold ujson_obj_next_filter, obj_pre_next, ujson_reader_err. rewrite (ok_err J (S d) b Ho). cbn iota.
  rewrite (proj1 Ho), bool_decide_true by done. cbn [negb].
  destruct (check_end_yes J d b res ("}"%cc) t Ho Hd E H0) as (b2 & -> & Ha). by exists b2.
Qed.

Lemma next_filter_cons d key v n s w b res t :
  ok d b → val_buf hb bs res → key_ok InObj key → jwf slen d v → is_text v s → follows t → ws w →
  known key v n → trim (rest b) = ","%cc :: w ++ ktext InObj key ++ s ++ t →
  found_attr d key v n s t (ujson_obj_next_filter (Some obj) ign b res).
Proof.
  intros Ho Hr Hk Hv Hs Hf Hws Hn E. unfold ujson_obj_next_filter, obj_pre_next, ujson_reader_err.
  rewrite (ok_err J d b Ho). cbn iota. rewrite (proj1 Ho), bool_decide_true by done. cbn [negb].
  destruct (member_head slen InObj d key v s Hv Hs) as (c & x & Ec & Hw & Hc).
  destruct (check_end_no b res ("}"%cc) _ _ E) as (b1 & -> & Hm1); [done|]. cbn [negb Z.eqb].
  unfold pre_next. destruct (eatb_yes b1 _ _ (proj2 Hm1)) as (b2 & -> & Hm2). cbn [negb].
  destruct (eatws_ne b2 c (x ++ t)) as (b3 & -> & Hm3).
  { rewrite (proj2 Hm2), trim_ws, app_assoc, Ec by done. by apply trim_nows. }
  cbn [negb Z.eqb]. apply attr_reads; try done; [by do 3 (eapply mv_ok; [eassumption|])|].
  rewrite (proj2 Hm3), app_assoc, Ec. by apply trim_nows.
Qed.
End Filter.
