(* ===== verification/UjsonTyped.v ===== *)
(** * What the JSON reader hands out

    On any bytes: as long as the reader has no error, a value that is valid
    has the member of its union written that its type names, an object or an
    array is at the place where its reading can start again, and a member of
    a filtered object has the type of its attribute. *)

From S2P Require Import Prelude UjsonUtf UjsonReader UjsonReaderFacts.
Open Scope Z_scope.

Definition typed_val (v : ujson_val) : Prop :=
  match type v with
  | UJSON_INT => ∃ z, val v = VInt z ∧ - 2 ^ 63 ≤ z < 2 ^ 63
  | UJSON_BOOL => ∃ z, val v = VBool z ∧ (z = 0 ∨ z = 1)
  | UJSON_STR => ∃ s, val v = VStr s
  | _ => True
  end.

(** The state that is saved at [b] is [b] itself. *)
Definition here (v : ujson_val) (b : ujson_reader) : Prop :=
  type v = UJSON_OBJ ∨ type v = UJSON_ARR → sub_off b = off b.

Definition fresh (v : ujson_val) (b : ujson_reader) : Prop :=
  err b = [] → type v ≠ UJSON_VOID → typed_val v ∧ here v b.

(** The value of a member of a filtered object; a key that is not listed has
    no index. *)
Definition found (obj : ujson_obj) (v : ujson_val) (b : ujson_reader) : Prop :=
  err b = [] → type v ≠ UJSON_VOID → ∀ n, idx v = Some n →
  ∃ attr, obj !! n = Some attr ∧ type_matches (attr_type attr) (type v) = true ∧
    (∃ key, ujson_obj_lookup obj (c_str key) = Some (Some n)) ∧ typed_val v ∧ here v b.

Lemma fresh_void v b : type v = UJSON_VOID → fresh v b.
Proof. by intros H _ Hn. Qed.

Lemma fresh_err v b : err b ≠ [] → fresh v b.
Proof. by intros H He. Qed.

Lemma found_void obj v b : type v = UJSON_VOID → found obj v b.
Proof. by intros H _ Hn. Qed.

Lemma found_err obj v b : err b ≠ [] → found obj v b.
Proof. by intros H He. Qed.
#[export] Hint Resolve fresh_void fresh_err found_void found_err : ujson.

(** ** Values *)

Lemma wraps64_range z : - 2 ^ 63 ≤ wraps 64 z < 2 ^ 63.
Proof. apply (wraps_range 64 z). lia. Qed.

Lemma digits_loop_range n v b r b' : - 2 ^ 63 ≤ v < 2 ^ 63 → digits_loop n v b = (r, b') → - 2 ^ 63 ≤ r < 2 ^ 63.
Proof.
  revert v b. induction n as [|n IH]; intros v b Hv; simpl; [by intros [= <- <-]|].
  destruct (is_digit (peekb b)); [|by intros [= <- <-]]. destruct (getb b) as [c b1]. apply IH, wraps64_range.
Qed.

Lemma get_int_typed b res r res' b' :
  type res = UJSON_INT → get_int b res = (r, res', b') → r = 0 → typed_val res'.
Proof.
  intros Ht. unfold get_int. destruct (eatb b _) as [neg b1]. destruct (neg && _); [by intros [= <- <- <-]|].
  destruct (_ && _); [by intros [= <- <- <-]|]. destruct (digits_loop _ 0 b1) as [v b2] eqn:E.
  apply digits_loop_range in E; [|lia]. intros [= <- <- <-] _. unfold typed_val. cbn. rewrite Ht. eexists. split; [done|].
  destruct neg; [apply wraps64_range|done].
Qed.

Lemma get_bool_typed b res r res' b' :
  type res = UJSON_BOOL → peekb b = "f"%cc ∨ peekb b = "t"%cc → get_bool b res = (r, res', b') → r = 0 → typed_val res'.
Proof.
  intros Ht Hp. unfold get_bool.
  destruct Hp as [-> | ->]; cbn [Z.eqb Pos.eqb]; (destruct (eatstr b _) as [ok b1]; destruct ok; cbn [negb]; intros [= <- <- <-]; [intros _|done]);
    unfold typed_val; cbn; rewrite Ht; eexists; (split; [done|auto]).
Qed.

Lemma next_type_bool b b' : ujson_next_type b = (UJSON_BOOL, b') → peekb b' = "f"%cc ∨ peekb b' = "t"%cc.
Proof.
  unfold ujson_next_type. destruct (eatws b) as [e b1]. destruct e; [done|].
  destruct (_ =? "{"%cc); [done|]. destruct (_ =? "["%cc); [done|]. destruct (_ =? cDQ); [done|].
  destruct (_ || _).
  { unfold next_num_type. destruct (num_type_loop_not_void (length (json b1) - off b1) b1 0) as [-> | ->]; [lia|done|done]. }
  destruct (_ || _) eqn:E.
  - intros [= <-]. apply orb_true_iff in E as [E|E]; apply Z.eqb_eq in E; auto.
  - destruct (_ =? "n"%cc); done.
Qed.

Lemma get_value_fresh b res r res' b' :
  get_value b res = Some (r, res', b') → fresh res' b' ∧ (r = 0 → type res' = UJSON_VOID) ∧ idx res' = idx res.
Proof.
  unfold get_value. destruct (ujson_next_type b) as [t b1] eqn:E.
  assert (Hfin : ∀ ret (res2 : ujson_val) b2, (ret = 0 → typed_val res2 ∧ here res2 b2) → idx res2 = idx res →
    (if negb (ret =? 0) then Some (0, set_type UJSON_VOID res2, b2) else Some (1, res2, b2)) = Some (r, res', b') →
    fresh res' b' ∧ (r = 0 → type res' = UJSON_VOID) ∧ idx res' = idx res).
  { intros ret res2 b2 Hok Hi. destruct (Z.eqb_spec ret 0) as [->|Hr]; cbn [negb]; intros [= <- <- <-];
      (split_and!; [|done|done]); [intros _ _; by apply Hok|by apply fresh_void]. }
  destruct t.
  - intros [= <- <- <-]. split_and!; [by apply fresh_void|done|done].
  - destruct (get_int _ _) as [[ret res2] b2] eqn:E2. pose proof (get_int_step _ _ _ _ _ E2) as (_ & _ & _ & T2 & _ & _ & _ & X2 & _).
    apply Hfin; [|exact X2]. intros ->. split; [eapply get_int_typed; [|exact E2|]; done|]. intros [H|H]; rewrite T2 in H; done.
  - destruct (get_float _ _) as [[ret res2] b2] eqn:E2. pose proof (get_float_step _ _ _ _ _ E2) as (_ & _ & _ & T2 & _ & _ & _ & X2 & _).
    apply Hfin; [|exact X2]. intros ->. split; [unfold typed_val; by rewrite T2|]. intros [H|H]; rewrite T2 in H; done.
  - destruct (get_bool _ _) as [[ret res2] b2] eqn:E2. pose proof (get_bool_step _ _ _ _ _ E2) as (_ & _ & _ & T2 & _ & _ & _ & X2 & _).
    apply Hfin; [|exact X2]. intros ->. split; [eapply get_bool_typed; [|by eapply next_type_bool|exact E2|]; done|].
    intros [H|H]; rewrite T2 in H; done.
  - destruct (get_null b1) as [ret b2]. apply Hfin; [|done]. intros _. split; [done|]. by intros [H|H].
  - destruct (copy_str _ _ _) as [[[ret s] b2]|]; [|done]. rewrite obind_Some. cbn beta iota.
    destruct (negb (ret =? 0)); intros [= <- <- <-]; (split_and!; [|done|done]); [by apply fresh_void|].
    intros _ _. split; [by exists s|]. by intros [H|H].
  - intros [= <- <- <-]. split_and!; [|done|done]. intros _ _. by split.
  - intros [= <- <- <-]. split_and!; [|done|done]. intros _ _. by split.
Qed.

(** ** Keys *)

Lemma lookup_loop_hit fuel arr key l r mid m :
  lookup_loop fuel arr key l r mid = Some (inl m) → ∃ e, arr !! m = Some e ∧ strcmp e key = 0.
Proof.
  revert l r mid. induction fuel as [|fuel IH]; intros l r mid; cbn [lookup_loop]; (destruct (r - l <=? 1)%nat; [done|]); [done|].
  destruct (arr !! ((l + r) / 2)%nat) as [e|] eqn:Ee; [|done]. rewrite obind_Some.
  destruct (Z.eqb_spec (strcmp e key) 0) as [E|_]; [intros [= <-]; by exists e|]. destruct (_ <? 0); apply IH.
Qed.

(** What the search finds, sorted or not. *)
Lemma lookup_hit arr key i : ujson_lookup arr key = Some (Some i) → ∃ e, arr !! i = Some e ∧ strcmp e key = 0.
Proof.
  unfold ujson_lookup. destruct (decide _); [done|].
  destruct (lookup_loop _ _ _ _ _ _) as [[m|[[l r] mid]]|] eqn:E; [|rewrite obind_Some|done].
  { rewrite obind_Some. intros [= <-]. by eapply lookup_loop_hit. }
  assert (Hhit : ∀ k (d : bool), (if d then Some false else e ← arr !! k; Some (strcmp e key =? 0)) = Some true →
    ∃ e, arr !! k = Some e ∧ strcmp e key = 0).
  { intros k [] H; [done|]. destruct (arr !! k) as [e|] eqn:Ek; [|done]. rewrite obind_Some in H. injection H as H. apply Z.eqb_eq in H. by exists e. }
  destruct (if decide (mid = Some r) then _ else _) as [hr|] eqn:Er; [|done]. rewrite obind_Some. destruct hr.
  { intros [= <-]. apply (Hhit r (bool_decide (mid = Some r))). rewrite <- Er. by destruct (decide (mid = Some r)); case_bool_decide. }
  destruct (if decide (mid = Some l) then _ else _) as [hl|] eqn:El; [|done]. rewrite obind_Some. destruct hl; [|done].
  intros [= <-]. apply (Hhit l (bool_decide (mid = Some l))). rewrite <- El. by destruct (decide (mid = Some l)); case_bool_decide.
Qed.

Lemma obj_lookup_hit obj key i :
  ujson_obj_lookup obj key = Some (Some i) → ∃ attr, obj !! i = Some attr ∧ strcmp (attr_key attr) key = 0.
Proof.
  intros (e & He & H)%lookup_hit. rewrite list_lookup_fmap in He. apply fmap_Some in He as (attr & Ha & ->). by exists attr.
Qed.

Lemma strcmp_0 a b : 0 ∉ a → 0 ∉ b → strcmp a b = 0 → a = b.
Proof.
  revert b. induction a as [|x a IH]; intros [|y b] Ha Hb; cbn; [done| | |].
  - intros E. destruct Hb. assert (y = 0) as -> by lia. by left.
  - intros ->. destruct Ha. by left.
  - destruct (Z.eqb_spec x y) as [->|Hne]; [|lia]. intros E. f_equal. apply IH; [| |done]; intros H; [apply Ha|apply Hb]; by right.
Qed.

Lemma c_str_no_nul s : 0 ∉ c_str s.
Proof.
  induction s as [|c s IH]; cbn; [apply not_elem_of_nil|]. destruct (Z.eqb_spec c 0); [apply not_elem_of_nil|].
  apply not_elem_of_cons. by split.
Qed.

(** ** Loops *)

(** A call that starts or continues a loop: it is defined, moves forward,
    ends the loop after an error, and leaves a value with [P]. *)
Definition nav_total (P : ujson_val → ujson_reader → Prop)
    (nav : ujson_reader → ujson_val → option (Z * ujson_val * ujson_reader)) : Prop :=
  ∀ b res, val_ok res → str_ok res → (off b ≤ length (json b))%nat →
  ∃ r res' b', nav b res = Some (r, res', b') ∧ nav_step b res res' b' ∧ (err b ≠ [] → type res' = UJSON_VOID) ∧ P res' b'.

Lemma check_end_fresh b res ch e res' b' :
  check_end b res ch = (e, res', b') → ch ≠ 0 → e ≠ 0 → err b' ≠ [] ∨ type res' = UJSON_VOID.
Proof. intros E Hch He. apply check_end_spec in E as (_ & _ & H & _); [by apply H|done]. Qed.

Lemma err_or_void_fresh v b : err b ≠ [] ∨ type v = UJSON_VOID → fresh v b.
Proof. intros [H|H]; auto with ujson. Qed.

Lemma err_or_void_found obj v b : err b ≠ [] ∨ type v = UJSON_VOID → found obj v b.
Proof. intros [H|H]; auto with ujson. Qed.

Lemma arr_first_total : nav_total fresh ujson_arr_first.
Proof.
  intros b res Hv Hs Hoff. destruct (first_of_spec InArr b res Hv Hs Hoff) as (r & res' & b' & E & N & Hvoid).
  exists r, res', b'. split_and!; [exact E|exact N|exact Hvoid|]. cbn [first_of] in E. unfold ujson_arr_first, check_err in E.
  destruct (ujson_reader_err b); [injection E as <- <- <-; by apply fresh_void|].
  destruct (any_first b _) as [f b1] eqn:E1. apply any_first_spec in E1 as (_ & R1 & _); [|done].
  destruct (Z.eqb_spec f 0) as [->|Hf]; cbn [negb] in E; [|injection E as <- <- <-; by apply fresh_err, R1].
  destruct (check_end b1 res _) as [[e res2] b2] eqn:E2. pose proof (check_end_fresh _ _ _ _ _ _ E2 ltac:(done)) as R2. clear E2.
  destruct (Z.eqb_spec e 0) as [->|He]; cbn [negb] in E; [by apply get_value_fresh in E as [? _]|].
  injection E as <- <- <-. by apply err_or_void_fresh, R2.
Qed.

Lemma arr_next_total : nav_total fresh ujson_arr_next.
Proof.
  intros b res Hv Hs Hoff. destruct (next_of_spec InArr b res Hv Hs Hoff) as (r & res' & b' & E & N & Hvoid).
  exists r, res', b'. split_and!; [exact E|exact N|exact Hvoid|]. cbn [next_of] in E. unfold ujson_arr_next, check_err in E.
  destruct (ujson_reader_err b); [injection E as <- <- <-; by apply fresh_void|].
  destruct (check_end b res _) as [[e res2] b2] eqn:E2. pose proof (check_end_fresh _ _ _ _ _ _ E2 ltac:(done)) as R2. clear E2.
  destruct (Z.eqb_spec e 0) as [->|He]; cbn [negb] in E; [|injection E as <- <- <-; by apply err_or_void_fresh, R2].
  destruct (pre_next b2 res2) as [[p res3] b3] eqn:E3. apply pre_next_spec in E3 as (_ & R3 & _).
  destruct (Z.eqb_spec p 0) as [->|Hp]; cbn [negb] in E; [by apply get_value_fresh in E as [? _]|].
  injection E as <- <- <-. by apply fresh_err, R3.
Qed.

Lemma obj_pre_next_end b res r res' b' :
  obj_pre_next b res = (r, res', b') → r ≠ 0 → err b' ≠ [] ∨ type res' = UJSON_VOID.
Proof.
  unfold obj_pre_next. destruct (ujson_reader_err b) eqn:Er.
  { intros [= <- <- <-] _. left. intros E. unfold ujson_reader_err in Er. by rewrite E in Er. }
  destruct (check_end b res _) as [[e res2] b2] eqn:E2. pose proof (check_end_fresh _ _ _ _ _ _ E2 ltac:(done)) as R2. clear E2.
  destruct (Z.eqb_spec e 0) as [->|He]; cbn [negb]; [|by intros [= <- <- <-] _; apply R2].
  destruct (pre_next b2 res2) as [[p res3] b3] eqn:E3. apply pre_next_spec in E3 as (_ & R3 & _).
  destruct (Z.eqb_spec p 0) as [->|Hp]; cbn [negb]; intros [= <- <- <-]; [done|]. intros _. left. by apply R3.
Qed.

Lemma obj_next_filter_found fuel obj ign b res r res' b' :
  val_ok res → str_ok res → (off b ≤ length (json b))%nat →
  obj_next_filter fuel (Some obj) ign b res = Some (r, res', b') → found obj res' b'.
Proof.
  revert b res. induction fuel as [|fuel IH]; intros b res [Hv1 Hv2] Hs Hoff; [done|]. cbn [obj_next_filter].
  destruct (copy_id_str_spec (id res) b Hv2 Hoff) as (r1 & i & b1 & -> & A1 & _ & L1 & R1). rewrite obind_Some. cbn beta iota.
  destruct (Z.eqb_spec r1 0) as [->|Hr]; cbn [negb]; [|intros [= <- <- <-]; by apply found_err, R1].
  cbn [id set_id]. destruct (lookup_defined (Some obj) i) as (ix & Elk & Hix). rewrite Elk, obind_Some.
  assert (off b1 ≤ length (json b1))%nat as Ho1 by (rewrite (adv_json _ _ A1); by apply A1).
  assert (Hcont : ∀ res2 b2, val_ok res2 → str_ok res2 → adv b1 b2 →
    (let '(p, res, b) := obj_pre_next b2 res2 in
      if negb (p =? 0) then Some (0, res, b) else obj_next_filter fuel (Some obj) ign b res) = Some (r, res', b') → found obj res' b').
  { intros res2 b2 V2 S2 A2. destruct (obj_pre_next b2 res2) as [[p res3] b3] eqn:E3. pose proof (obj_pre_next_end _ _ _ _ _ E3) as R3.
    apply obj_pre_next_spec in E3 as (A3 & V3 & _). assert (adv b1 b3) as A3' by (by etransitivity).
    destruct (Z.eqb_spec p 0) as [->|Hp]; cbn [negb]; [|by intros [= <- <- <-]; apply err_or_void_found, R3].
    apply IH; [by destruct V3 as [-> | ->]..|]. rewrite (adv_json _ _ A3'). by apply A3'. }
  set (res1 := set_idx ix (set_id i res)). assert (val_ok res1) as V1 by (by split).
  destruct ix as [n|].
  - destruct (get_value_good b1 res1 V1 Hs Ho1) as (r2 & res2 & b2 & E2 & A2 & (V2 & S2 & _)). rewrite E2, obind_Some. cbn beta iota.
    apply get_value_fresh in E2 as (F2 & T2 & X2).
    destruct (Z.eqb_spec r2 0) as [->|Hr2]; [intros [= <- <- <-]; by apply found_void, T2|].
    destruct (Hix n eq_refl) as [attr Ea]. rewrite Ea, obind_Some.
    destruct (type_matches _ _) eqn:Em.
    { intros [= <- <- <-] He Hne m Hm. destruct (F2 He Hne) as [Ty Hh]. rewrite X2 in Hm. injection Hm as <-.
      exists attr. rewrite obind_Some in Ea. split_and!; [done|done|by exists i|done|done]. }
    destruct (warn_spec (str "Wrong '" ++ attr_key attr ++ str "' type expected " ++ ujson_type_name (attr_type attr)) b2)
      as (b3 & -> & A3 & _); [done|rewrite (adv_json _ _ A2); by apply A2|].
    rewrite obind_Some. apply Hcont; [done|done|by etransitivity].
  - destruct (skip_obj_val_spec b1 Ho1) as (r2 & b2 & -> & A2). rewrite obind_Some. cbn beta iota.
    destruct (r2 =? 0); [intros [= <- <- <-] _ _ m Hm; done|].
    cbn [id res1 set_idx set_id]. destruct (unexpected_key_spec ign i b2) as (b3 & -> & A3); [rewrite (adv_json _ _ A2); by apply A2|].
    rewrite obind_Some. apply Hcont; [done|done|by etransitivity].
Qed.

Lemma first_filter_total obj ign : nav_total (found obj) (ujson_obj_first_filter (Some obj) ign).
Proof.
  intros b res Hv Hs Hoff.
  destruct (first_filter_spec (Some obj) ign b res Hv Hs Hoff) as (r & res' & b' & E & A & (V & S & B)).
  exists r, res', b'. split; [exact E|]. unfold ujson_obj_first_filter, check_err in E. unfold nav_step.
  destruct (ujson_reader_err b) eqn:Er.
  { injection E as <- <- <-. split_and!; [done..|by right; left|done|by apply found_void]. }
  apply reader_err_false in Er. destruct (any_first b _) as [f b1] eqn:E1. apply any_first_spec in E1 as (A1 & R1 & O1); [|done].
  destruct (Z.eqb_spec f 0) as [->|Hf]; cbn [negb] in E.
  2:{ injection E as <- <- <-. specialize (R1 Hf). split_and!; [done..|by left|done|by apply found_err]. }
  destruct (O1 eq_refl) as [Hlt _]. destruct (check_end b1 res _) as [[e res2] b2] eqn:E2. pose proof (check_end_fresh _ _ _ _ _ _ E2 ltac:(done)) as R2.
  apply check_end_spec in E2 as (A2 & V2 & _); [|done].
  destruct (Z.eqb_spec e 0) as [->|He]; cbn [negb] in E.
  2:{ injection E as <- <- <-. specialize (R2 He). split_and!; [done..|tauto|done|by apply err_or_void_found]. }
  assert (adv b b2) as A2' by (etransitivity; [exact A1|exact A2]).
  assert (off b2 ≤ length (json b2))%nat as Ho2 by (rewrite (adv_json _ _ A2'); by apply A2').
  assert (val_ok res2) as V2' by (by destruct V2 as [-> | ->]). assert (str_ok res2) as S2' by (by destruct V2 as [-> | ->]). pose proof (obj_next_filter_found _ _ _ _ _ _ _ _ V2' S2' Ho2 E) as F.
  destruct (obj_next_filter_spec (filter_fuel b2) (Some obj) ign b2 res2) as (r3 & res3 & b3 & E3 & A3 & _); [done|done|done|unfold filter_fuel; lia|].
  rewrite E in E3. injection E3 as <- <- <-. split_and!; [done..| |done|done].
  do 2 right. pose proof (adv_off _ _ A2). pose proof (adv_off _ _ A3). lia.
Qed.

Lemma next_filter_total obj ign : nav_total (found obj) (ujson_obj_next_filter (Some obj) ign).
Proof.
  intros b res Hv Hs Hoff.
  destruct (next_filter_spec (Some obj) ign b res Hv Hs Hoff) as (r & res' & b' & E & A & (V & S & B)).
  exists r, res', b'. split; [exact E|]. unfold ujson_obj_next_filter, check_err in E. unfold nav_step.
  destruct (ujson_reader_err b) eqn:Er.
  { injection E as <- <- <-. split_and!; [done..|by right; left|done|by apply found_void]. }
  apply reader_err_false in Er. destruct (obj_pre_next b res) as [[p res2] b2] eqn:E2.
  pose proof (obj_pre_next_end _ _ _ _ _ E2) as R2. apply obj_pre_next_spec in E2 as (A2 & V2 & O2).
  destruct (Z.eqb_spec p 0) as [->|Hp]; cbn [negb] in E.
  2:{ injection E as <- <- <-. specialize (R2 Hp). split_and!; [done..|tauto|done|by apply err_or_void_found]. }
  specialize (O2 eq_refl).
  assert (off b2 ≤ length (json b2))%nat as Ho2 by (rewrite (adv_json _ _ A2); by apply A2).
  assert (val_ok res2) as V2' by (by destruct V2 as [-> | ->]). assert (str_ok res2) as S2' by (by destruct V2 as [-> | ->]). pose proof (obj_next_filter_found _ _ _ _ _ _ _ _ V2' S2' Ho2 E) as F.
  destruct (obj_next_filter_spec (filter_fuel b2) (Some obj) ign b2 res2) as (r3 & res3 & b3 & E3 & A3 & _); [done|done|done|unfold filter_fuel; lia|].
  rewrite E in E3. injection E3 as <- <- <-. split_and!; [done..| |done|done].
  do 2 right. pose proof (adv_off _ _ A3). lia.
Qed.
