(* ===== verification/TstTest.v ===== *)
(** * The test runner (lib/tst_test.c)

    A test program is run by two processes: the library process, which forks
    a test process for every variant and file system, waits for it and exits
    with the summary, and the test process, which runs the setup, the test
    functions and the cleanup.  They and the children of the test share the
    counters and the context of [struct ipc_region].

    What the code of a test does is not under the control of the library, and
    is an input here: sequences of events ([act]) in the order in which they
    reach the shared memory.  The same holds for what the helpers of the
    library do in [do_setup], in the preparation of a device and in
    [do_cleanup] ([lib_act]): the messages they print and the calls of
    [tst_brk] they make.  The timers and the signal handlers are not modelled:
    a timeout is the event that the test process is killed, and [_exit] of
    [alarm_handler], when the test cannot be killed, does not happen. *)

From S2P Require Import Prelude.
Open Scope Z_scope.

(** ** Shared memory *)

Record results := mk_results {
  passed : Z;
  skipped : Z;
  failed : Z;
  warnings : Z;
  broken : Z;
}.

#[export] Instance results_eq_dec : EqDecision results.
Proof. solve_decision. Defined.

(** A status of wait(2). *)
Inductive status :=
  | Exited (code : Z)
  | Signaled (sig : Z).

#[export] Instance status_eq_dec : EqDecision status.
Proof. solve_decision. Defined.

(** [struct ipc_region], with the children of the test process that ended and
    are still to be waited for, the results that were printed, and how the
    test processes that were forked ended. *)
Record ipc := mk_ipc {
  res : results;
  lib_pid : Z;
  main_pid : Z;
  abort_flag : Z;
  tdebug : bool;
  zombies : list status;
  reports : list Z;
  ended : list status;
}.

Definition results0 : results := mk_results 0 0 0 0 0.

(** After [setup_ipc] in the process [pid]. *)
Definition setup_ipc (pid : Z) : ipc := mk_ipc results0 pid 0 0 false [] [] [].

Definition set_res (r : results) (s : ipc) : ipc :=
  mk_ipc r (lib_pid s) (main_pid s) (abort_flag s) (tdebug s) (zombies s) (reports s) (ended s).
Definition set_main_pid (p : Z) (s : ipc) : ipc :=
  mk_ipc (res s) (lib_pid s) p (abort_flag s) (tdebug s) (zombies s) (reports s) (ended s).
Definition inc_abort (s : ipc) : ipc :=
  mk_ipc (res s) (lib_pid s) (main_pid s) (wraps 32 (abort_flag s + 1)) (tdebug s) (zombies s) (reports s) (ended s).
Definition set_zombies (z : list status) (s : ipc) : ipc :=
  mk_ipc (res s) (lib_pid s) (main_pid s) (abort_flag s) (tdebug s) z (reports s) (ended s).
Definition printed (t : Z) (s : ipc) : ipc :=
  mk_ipc (res s) (lib_pid s) (main_pid s) (abort_flag s) (tdebug s) (zombies s) (reports s ++ [t]) (ended s).
Definition set_tdebug (s : ipc) : ipc :=
  mk_ipc (res s) (lib_pid s) (main_pid s) (abort_flag s) true (zombies s) (reports s) (ended s).
Definition add_ended (st : status) (s : ipc) : ipc :=
  mk_ipc (res s) (lib_pid s) (main_pid s) (abort_flag s) (tdebug s) (zombies s) (reports s) (ended s ++ [st]).

(** [tst_atomic_inc] *)
Definition tst_atomic_inc (v : Z) : Z := wraps 32 (v + 1).

Definition update_results (ttype : Z) (s : ipc) : ipc :=
  let r := res s in
  if ttype =? TCONF then set_res (mk_results (passed r) (tst_atomic_inc (skipped r)) (failed r) (warnings r) (broken r)) s
  else if ttype =? TPASS then set_res (mk_results (tst_atomic_inc (passed r)) (skipped r) (failed r) (warnings r) (broken r)) s
  else if ttype =? TWARN then set_res (mk_results (passed r) (skipped r) (failed r) (tst_atomic_inc (warnings r)) (broken r)) s
  else if ttype =? TFAIL then set_res (mk_results (passed r) (skipped r) (tst_atomic_inc (failed r)) (warnings r) (broken r)) s
  else if ttype =? TBROK then set_res (mk_results (passed r) (skipped r) (failed r) (warnings r) (tst_atomic_inc (broken r))) s
  else s.

Definition results_equal (a b : results) : bool :=
  (passed a =? passed b) && (failed a =? failed b) && (skipped a =? skipped b) && (broken a =? broken b).

(** ** Reports *)

(** The switch of [print_result]: the other types end in [tst_brk]. *)
Definition valid_ttype (r : Z) : bool :=
  (r =? TPASS) || (r =? TFAIL) || (r =? TBROK) || (r =? TCONF) || (r =? TWARN) || (r =? TINFO) || (r =? TDEBUG).

(** [tst_vres_] for a valid type. *)
Definition tst_vres_ (ttype : Z) (s : ipc) : ipc :=
  update_results (TTYPE_RESULT ttype) (printed (TTYPE_RESULT ttype) s).

(** [tst_res_] in the process [me], for a valid type: debug messages can be
    suppressed. *)
Definition tst_res_ (me ttype : Z) (s : ipc) : ipc :=
  if (ttype =? TDEBUG) && ((lib_pid s =? me) || negb (tdebug s)) then s else tst_vres_ ttype s.

(** [tst_cvres]: what [tst_brk] is during the cleanup. *)
Definition tst_cvres (ttype : Z) (s : ipc) : ipc :=
  let ttype := if TTYPE_RESULT ttype =? TBROK then Z.lor (Z.land ttype (Z.lnot TTYPE_MASK)) TWARN else ttype in
  tst_vres_ ttype s.

(** A piece of a program: it goes on ([None]) or ends with an [E]. *)
Abbreviation prog E := (ipc → ipc * option E).

Definition andthen {E} (p q : prog E) : prog E := λ s,
  let '(s, e) := p s in match e with Some e => (s, Some e) | None => q s end.
Notation "p ;> q" := (andthen p q) (at level 100, q at level 200, right associativity).

Definition step {E} (f : ipc → ipc) : prog E := λ s, (f s, None).

(** How [tst_vbrk_] leaves: with a call of [do_exit] in the library process,
    or with the end of the process and possibly a process it killed. *)
Inductive brk_end :=
  | DoExit (ret : Z)
  | Ended (st : status) (killed : option Z).

Definition SIGABRT := 6.
Definition SIGKILL := 9.

(** [tst_vbrk_] in the process [me], whose cleanup is [cleanup]. *)
Definition tst_vbrk_ (cleanup : prog status) (me ttype : Z) (s : ipc) : ipc * brk_end :=
  let r := TTYPE_RESULT ttype in
  let s := printed r s in
  if lib_pid s =? 0 then (s, Ended (Exited r) None) else
  let s := update_results r s in
  let '(s, e) := if me =? main_pid s then cleanup s else (s, None) in
  match e with
  | Some st => (s, Ended st None)
  | None =>
      if me =? lib_pid s then (s, DoExit r) else
      if r =? TBROK then
        let s := inc_abort s in
        if negb (main_pid s =? 0) && negb (me =? main_pid s) then
          (tst_res_ me TINFO s, Ended (Exited 0) (Some (main_pid s)))
        else (s, Ended (Exited 0) None)
      else (s, Ended (Exited 0) None)
  end.

(** ** The test process *)

(** What happens while the code of the test runs: reports of the test process
    and of its children, children that end, and the end of the test process
    by a call of exit(3) or by a signal. *)
Inductive act :=
  | Res (ttype : Z)
  | Brk (ttype : Z)
  | ChildRes (pid ttype : Z)
  | ChildBrk (pid ttype : Z)
  | ChildEnd (st : status)
  | Exit (code : Z)
  | Killed (sig : Z).

(** [tst_brk] of a child: the library kills the test process on TBROK. *)
Definition child_brk (me pid ttype : Z) : prog status := λ s,
  match tst_vbrk_ (λ s, (s, None)) pid ttype s with
  | (s, Ended _ (Some k)) => (s, if k =? me then Some (Signaled SIGKILL) else None)
  | (s, _) => (s, None)
  end.

(** The events, in the test process [me]; [brk] is [tst_brk_handler].  A
    report of an invalid type is a [tst_brk] with TBROK, and abort() if that
    returns. *)
Definition exec_act (brk : Z → prog status) (me : Z) (a : act) : prog status :=
  match a with
  | Res t => if valid_ttype (TTYPE_RESULT t) then step (tst_res_ me t)
             else brk TBROK ;> λ s, (s, Some (Signaled SIGABRT))
  | Brk t => if valid_ttype (TTYPE_RESULT t) then brk t
             else brk TBROK ;> λ s, (s, Some (Signaled SIGABRT))
  | ChildRes pid t => if valid_ttype (TTYPE_RESULT t) then step (tst_res_ pid t) else child_brk me pid TBROK
  | ChildBrk pid t => child_brk me pid (if valid_ttype (TTYPE_RESULT t) then t else TBROK)
  | ChildEnd st => step (λ s, set_zombies (zombies s ++ [st]) s)
  | Exit code => λ s, (s, Some (Exited code))
  | Killed sig => λ s, (s, Some (Signaled sig))
  end.

Fixpoint exec (brk : Z → prog status) (me : Z) (acts : list act) : prog status :=
  match acts with
  | [] => λ s, (s, None)
  | a :: acts => exec_act brk me a ;> exec brk me acts
  end.

(** [do_test_cleanup]: [tst_brk] only warns. *)
Definition do_test_cleanup (me : Z) (cleanup : list act) : prog status :=
  exec (λ t, step (tst_cvres t)) me cleanup.

(** [tst_brk] in the test process. *)
Definition main_brk (me : Z) (cleanup : list act) (ttype : Z) : prog status := λ s,
  match tst_vbrk_ (do_test_cleanup me cleanup) me ttype s with
  | (s, Ended st _) => (s, Some st)
  | (s, DoExit r) => (s, Some (Exited r))
  end.

Definition check_child_status (brk : Z → prog status) (st : status) : prog status :=
  match st with
  | Signaled _ => brk TBROK
  | Exited code => if code =? 0 then λ s, (s, None) else brk TBROK
  end.

(** Waiting until there are no children. *)
Fixpoint reap_loop (brk : Z → prog status) (z : list status) : prog status :=
  match z with
  | [] => λ s, (s, None)
  | st :: z => step (set_zombies z) ;> check_child_status brk st ;> reap_loop brk z
  end.

Definition tst_reap_children (brk : Z → prog status) : prog status := λ s, reap_loop brk (zombies s) s.

(** What one test process does: the bodies of the test functions by iteration
    and number, whether there was time left at the successive checks of the
    stop time, whether the file system is in the skip list, if there is one; and what the
    library process finds after it ended, or that fork(2) failed. *)
Record tst_run := mk_run {
  run_forked : bool;
  run_pid : Z;
  run_skip_fs : option bool;
  run_setup : list act;
  run_body : nat → nat → list act;
  run_cleanup : list act;
  run_clock : list bool;
  run_tainted : bool;
  run_leftover : bool;
}.

Record tst_fs := mk_fs { fs_type : option (list Z); fs_data : nat }.

(** The fields of [struct tst_test] that direct the runner. *)
Record tst_test := mk_test {
  has_test : bool;              (* test != NULL *)
  tcnt : nat;
  test_variants : nat;
  all_filesystems : bool;
  filesystems : option (list tst_fs);
  taint_check : bool;
  forks_child : bool;
}.

(** One test function: [saved_results] is what was there before. *)
Definition run_test (brk : Z → prog status) (me : Z) (body : list act) : prog status := λ s,
  let saved_results := res s in
  (exec brk me body ;>
   tst_reap_children brk ;>
   λ s, if results_equal saved_results (res s) then brk TBROK s else (s, None)) s.

(** [n] more test functions, the next of which is [i]. *)
Fixpoint run_loop (brk : Z → prog status) (me : Z) (body : nat → list act) (n i : nat) : prog status :=
  match n with
  | O => λ s, (s, None)
  | S n => run_test brk me (body i) ;> run_loop brk me body n (S i)
  end.

Definition run_tests (T : tst_test) (brk : Z → prog status) (me : Z) (body : nat → list act) : prog status :=
  if negb (has_test T) then run_test brk me (body 0%nat) else run_loop brk me body (tcnt T) 0.

(** The loop of [testrun] in iteration [i]; [clock] are the results of the
    next comparisons with the stop time.  Every round uses up an iteration or
    a comparison. *)
Fixpoint iter_loop (fuel : nat) (T : tst_test) (brk : Z → prog status) (me : Z) (body : nat → nat → list act)
    (iterations i : nat) (clock : list bool) : prog status :=
  let cont := (i <? iterations)%nat || default false (head clock) in
  if negb cont then λ s, (s, None) else
  match fuel with
  | O => λ s, (s, None)
  | S fuel => run_tests T brk me (body i) ;> iter_loop fuel T brk me body iterations (S i) (tail clock)
  end.

Definition do_test_setup (brk : Z → prog status) (r : tst_run) : prog status :=
  step (set_main_pid (run_pid r)) ;>
  match run_skip_fs r with
  | Some true => brk TCONF
  | Some false => step (tst_res_ (run_pid r) TINFO)
  | None => λ s, (s, None)
  end ;>
  exec brk (run_pid r) (run_setup r).

(** The test process: it always ends. *)
Definition testrun (T : tst_test) (iterations : nat) (r : tst_run) (s : ipc) : ipc * status :=
  let me := run_pid r in
  let brk := main_brk me (run_cleanup r) in
  let '(s, e) :=
    (do_test_setup brk r ;>
     iter_loop (iterations + length (run_clock r)) T brk me (run_body r) iterations 0 (run_clock r) ;>
     do_test_cleanup me (run_cleanup r)) s in
  (s, default (Exited 0) e).

(** ** The library process *)

(** How [tst_brk] is called in the library process. *)
Inductive brk_type :=
  | BrkConf
  | BrkBrok
  | BrkFail.

Definition brk_ttype (b : brk_type) : Z :=
  match b with BrkConf => TCONF | BrkBrok => TBROK | BrkFail => TFAIL end.

(** What the helpers of the library process do that reaches the shared memory:
    messages, calls of [tst_brk], and turning the debug messages on. *)
Inductive lib_act :=
  | LRes (ttype : Z)
  | LBrk (b : brk_type)
  | LDebug.

(** What the outside of the runner does: the events of [do_setup] from
    [setup_ipc] on and of the start of [tst_run_tcases]; the test processes in
    the order in which they are forked; for every variant the supported file
    systems, with the events of looking for them; for every variant and
    position of a file system the events of the checks and the preparation of
    the device, with whether the test is to be run, and the messages of
    unmounting; and the events of the successive calls of [do_cleanup]. *)
Record world := mk_world {
  lib_setup : list lib_act;
  runs : nat → tst_run;
  fs_probe : nat → list lib_act * list (list Z);
  fs_prepare : nat → nat → list lib_act * bool;
  fs_umount : nat → nat → list Z;
  cleanups : list (list lib_act);
}.

(** A call of [tst_brk] in the library process, which has no test cleanup. *)
Definition lib_vbrk (ttype : Z) (s : ipc) : ipc * brk_end :=
  tst_vbrk_ (λ s, (s, None)) (lib_pid s) ttype s.

(** The events in the library process, until one of them leaves. *)
Fixpoint lib_acts (acts : list lib_act) (s : ipc) : ipc * option brk_end :=
  match acts with
  | [] => (s, None)
  | LRes t :: acts =>
      if valid_ttype (TTYPE_RESULT t) then lib_acts acts (tst_res_ (lib_pid s) t s)
      else let '(s, e) := lib_vbrk TBROK s in (s, Some e)
  | LBrk b :: _ => let '(s, e) := lib_vbrk (brk_ttype b) s in (s, Some e)
  | LDebug :: acts => lib_acts acts (set_tdebug s)
  end.

(** The exit code by the results. *)
Definition exit_flags (ret : Z) (r : results) : Z :=
  let ret := if negb (passed r =? 0) && (ret =? TCONF) then 0 else ret in
  let ret := if negb (failed r =? 0) then Z.lor ret TFAIL else ret in
  let ret := if negb (skipped r =? 0) && (passed r =? 0) then Z.lor ret TCONF else ret in
  let ret := if negb (warnings r =? 0) then Z.lor ret TWARN else ret in
  if negb (broken r =? 0) then Z.lor ret TBROK else ret.

(** [do_exit]: the exit code is fixed before [do_cleanup]; a [tst_brk] in
    there is another call of [do_exit], with the next cleanup. *)
Fixpoint do_exit (cleanups : list (list lib_act)) (ret : Z) (s : ipc) : ipc * Z :=
  let code := exit_flags ret (res s) in
  match cleanups with
  | [] => (s, code)
  | acts :: cleanups =>
      match lib_acts acts s with
      | (s, None) => (s, code)
      | (s, Some (DoExit r)) => do_exit cleanups r s
      | (s, Some (Ended (Exited r) _)) => (s, r)
      | (s, Some (Ended (Signaled r) _)) => (s, r)
      end
  end.

(** How the library process goes on after [tst_vbrk_]: it exits. *)
Definition lib_exit (W : world) (e : brk_end) (s : ipc) : ipc * option Z :=
  match e with
  | DoExit r => let '(s, c) := do_exit (cleanups W) r s in (s, Some c)
  | Ended (Exited r) _ => (s, Some r)
  | Ended (Signaled r) _ => (s, Some r)
  end.

(** [tst_brk] in the library process: the exit code. *)
Definition lib_brk (W : world) (ttype : Z) : prog Z := λ s,
  let '(s, e) := lib_vbrk ttype s in lib_exit W e s.

Definition lib_res (ttype : Z) : prog Z := λ s, (tst_res_ (lib_pid s) ttype s, None).

Definition exec_lib (W : world) (acts : list lib_act) : prog Z := λ s,
  let '(s, e) := lib_acts acts s in
  match e with Some e => lib_exit W e s | None => (s, None) end.

(** The children that are left belong to a process that ended. *)
Definition fork_testrun (T : tst_test) (iterations : nat) (W : world) : prog Z := λ s,
  let r := runs W (length (ended s)) in
  if negb (run_forked r) then lib_brk W TBROK s else
  let '(s, st) := testrun T iterations r s in
  let s := add_ended st (set_zombies [] s) in
  if taint_check T && run_tainted r then lib_res TFAIL s else
  ((if forks_child T && run_leftover r then lib_res TINFO else λ s, (s, None)) ;>
   λ s, match st with
        | Exited code => if negb (code =? 0) then lib_brk W TBROK s else (s, None)
        | Signaled sig =>
            if negb (abort_flag s =? 0) then (s, None)
            else if sig =? SIGKILL then (lib_res TINFO ;> lib_brk W TBROK) s
            else lib_brk W TBROK s
        end) s.

(** ** File systems and variants *)

(** The descriptions of file systems end with an entry without a type. *)
Fixpoint find_fs (name : list Z) (fs : list tst_fs) : option tst_fs :=
  match fs with
  | f :: fs => match fs_type f with
               | None => None
               | Some t => if bool_decide (name = t) then Some f else find_fs name fs
               end
  | [] => None
  end.

Definition empty_fs : tst_fs := mk_fs None 0.

Definition lookup_fs_desc (T : tst_test) (name : list Z) : option tst_fs :=
  let found := match filesystems T with Some fs => find_fs name fs | None => None end in
  match found with
  | Some f => Some f
  | None =>
      if negb (all_filesystems T) then None else
      match filesystems T with
      | Some (f :: _) => match fs_type f with Some _ => Some empty_fs | None => Some f end
      | _ => Some empty_fs
      end
  end.

(** The number of entries with a type, plus one for a default entry. *)
Fixpoint count_types (fs : list tst_fs) : nat :=
  match fs with
  | f :: fs => match fs_type f with Some _ => S (count_types fs) | None => 0 end
  | [] => 0
  end.

Definition count_fs_descs (T : tst_test) : nat :=
  match filesystems T with
  | None => 0
  | Some (f :: fs) => match fs_type f with None => S (count_types fs) | Some _ => count_types (f :: fs) end
  | Some [] => 0
  end.

(** The file system at position [i] in variant [v]. *)
Definition run_tcase_on_fs (T : tst_test) (iterations : nat) (W : world) (v i : nat) : prog Z :=
  lib_res TINFO ;>
  exec_lib W (fs_prepare W v i).1 ;>
  if negb (fs_prepare W v i).2 then λ s, (s, None) else
  fork_testrun T iterations W ;>
  exec_lib W (LRes <$> fs_umount W v i).

(** [if (tst_atomic_load(&context->abort_flag)) do_exit(0);] *)
Definition exit_if_aborted (W : world) : prog Z := λ s,
  if negb (abort_flag s =? 0) then lib_exit W (DoExit 0) s else (s, None).

Fixpoint fs_loop (T : tst_test) (iterations : nat) (W : world) (v : nat) (names : list (list Z)) (i : nat) (found : bool) : prog Z :=
  match names with
  | [] => if negb found then lib_brk W TCONF else λ s, (s, None)
  | name :: names =>
      match lookup_fs_desc T name with
      | None => fs_loop T iterations W v names (S i) found
      | Some _ => run_tcase_on_fs T iterations W v i ;> exit_if_aborted W ;> fs_loop T iterations W v names (S i) true
      end
  end.

Definition run_tcases_per_fs (T : tst_test) (iterations : nat) (W : world) (v : nat) : prog Z :=
  exec_lib W (fs_probe W v).1 ;>
  match (fs_probe W v).2 with
  | [] => lib_brk W TCONF
  | names => fs_loop T iterations W v names 0 false
  end.

(** [n] more variants, the next of which is [v]. *)
Fixpoint variant_loop (T : tst_test) (iterations : nat) (W : world) (n v : nat) : prog Z :=
  match n with
  | O => λ s, (s, None)
  | S n =>
      (if all_filesystems T || (1 <? count_fs_descs T)%nat then run_tcases_per_fs T iterations W v
       else fork_testrun T iterations W) ;>
      exit_if_aborted W ;>
      variant_loop T iterations W n (S v)
  end.

(** The setup and the loops of [tst_run_tcases], and the exit code. *)
Definition tst_run_tcases (T : tst_test) (iterations : nat) (W : world) (s : ipc) : ipc * Z :=
  let variants := if (test_variants T =? 0)%nat then 1%nat else test_variants T in
  let '(s, e) := (exec_lib W (lib_setup W) ;> variant_loop T iterations W variants 0) s in
  match e with Some c => (s, c) | None => do_exit (cleanups W) 0 s end.
