(* ===== verification/TstTestFacts.v ===== *)
(** * The exit code of a test program

    The shared counters count what was reported, in every process and on every
    way out; the exit code of the library process is a function of the
    reports; a test process that ends abnormally, or a test function that
    reports nothing, is never taken for success; and a well-behaved test is
    run completely. *)

From S2P Require Import Prelude TstTest.
Open Scope Z_scope.

(** ** Counters *)

Definition cnt (t : Z) (rs : list Z) : Z := Z.of_nat (count_occ Z.eq_dec rs t).

Lemma cnt_app t a b : cnt t (a ++ b) = cnt t a + cnt t b.
Proof. unfold cnt. rewrite count_occ_app. lia. Qed.

Lemma cnt_one t x : cnt t [x] = if x =? t then 1 else 0.
Proof. unfold cnt. cbn. by destruct (Z.eq_dec x t), (Z.eqb_spec x t). Qed.

Lemma cnt_bounds t rs : 0 ≤ cnt t rs ≤ Z.of_nat (length rs).
Proof. unfold cnt. pose proof (count_occ_bound Z.eq_dec t rs). lia. Qed.

Lemma cnt_In t rs : t ∈ rs ↔ 0 < cnt t rs.
Proof. unfold cnt. rewrite list_elem_of_In, (count_occ_In Z.eq_dec). lia. Qed.

Lemma wraps_wraps_add a b : wraps 32 (wraps 32 a + b) = wraps 32 (a + b).
Proof.
  unfold wraps. replace ((a + 2 ^ (32 - 1)) mod 2 ^ 32 - 2 ^ (32 - 1) + b + 2 ^ (32 - 1)) with ((a + 2 ^ (32 - 1)) mod 2 ^ 32 + b) by lia.
  rewrite Zplus_mod_idemp_l. do 2 f_equal. lia.
Qed.

(** The counters and the abort flag agree with the reports; [k] of the reports
    of TBROK have not raised the flag yet. *)
Record counted (k : Z) (s : ipc) : Prop := mk_counted {
  c_passed : passed (res s) = wraps 32 (cnt TPASS (reports s));
  c_skipped : skipped (res s) = wraps 32 (cnt TCONF (reports s));
  c_failed : failed (res s) = wraps 32 (cnt TFAIL (reports s));
  c_warnings : warnings (res s) = wraps 32 (cnt TWARN (reports s));
  c_broken : broken (res s) = wraps 32 (cnt TBROK (reports s));
  c_abort : ∃ n, abort_flag s = wraps 32 n ∧ 0 ≤ n ≤ cnt TBROK (reports s) - k;
}.

(** What every piece of the program does: it adds reports and keeps count. *)
Definition acc (s s' : ipc) : Prop :=
  (∃ x, reports s' = reports s ++ x) ∧ (lib_pid s' = lib_pid s ∧ ended s' = ended s) ∧
  (lib_pid s ≠ 0 → ∀ k, counted k s → counted k s').

#[export] Instance acc_refl : Reflexive acc.
Proof. intros s. split; [exists []; by rewrite app_nil_r|done]. Qed.

#[export] Instance acc_trans : Transitive acc.
Proof.
  intros s1 s2 s3 ((x & Hx) & [L1 E1] & C1) ((y & Hy) & [L2 E2] & C2). split; [|split].
  - exists (x ++ y). by rewrite Hy, Hx, app_assoc.
  - split; congruence.
  - intros Hl k Hk. apply C2; [congruence|]. by apply C1.
Qed.

Lemma acc_report t s : acc s (update_results t (printed t s)).
Proof.
  assert (update_results t (printed t s) =
    mk_ipc (mk_results (if t =? TPASS then tst_atomic_inc (passed (res s)) else passed (res s))
                       (if t =? TCONF then tst_atomic_inc (skipped (res s)) else skipped (res s))
                       (if t =? TFAIL then tst_atomic_inc (failed (res s)) else failed (res s))
                       (if t =? TWARN then tst_atomic_inc (warnings (res s)) else warnings (res s))
                       (if t =? TBROK then tst_atomic_inc (broken (res s)) else broken (res s)))
      (lib_pid s) (main_pid s) (abort_flag s) (tdebug s) (zombies s) (reports s ++ [t]) (ended s)) as ->.
  { unfold update_results, set_res, printed. cbn.
    repeat match goal with |- context [if t =? ?c then _ else _] => destruct (Z.eqb_spec t c); [subst t; done|] end.
    by destruct s as [[]]. }
  split; [by exists [t]|split; [done|]]. intros _ k [H1 H2 H3 H4 H5 (n & H6 & H7)].
  assert (∀ c v, v = wraps 32 (cnt c (reports s)) →
    (if t =? c then tst_atomic_inc v else v) = wraps 32 (cnt c (reports s ++ [t]))) as Hc.
  { intros c v ->. rewrite cnt_app, cnt_one. unfold tst_atomic_inc.
    destruct (t =? c); [by rewrite wraps_wraps_add|by rewrite Z.add_0_r]. }
  split; cbn; [by apply Hc..|]. exists n. rewrite cnt_app. pose proof (cnt_bounds TBROK [t]). split; [done|lia].
Qed.

Lemma acc_vres t s : acc s (tst_vres_ t s).
Proof. apply acc_report. Qed.

Lemma acc_res me t s : acc s (tst_res_ me t s).
Proof. unfold tst_res_. case_match; [reflexivity|apply acc_vres]. Qed.

Lemma acc_cvres t s : acc s (tst_cvres t s).
Proof. apply acc_vres. Qed.

(** Changes of what does not count. *)
Lemma acc_other s s' :
  reports s' = reports s → lib_pid s' = lib_pid s → res s' = res s → abort_flag s' = abort_flag s →
  ended s' = ended s → acc s s'.
Proof.
  intros H1 H2 H3 H4 H5. split; [exists []; by rewrite app_nil_r|split; [done|]].
  intros _ k [? ? ? ? ? ?]. split; rewrite ?H1, ?H3, ?H4; done.
Qed.

(** A report of TBROK, and the flag that goes up for it later. *)
Lemma counted_broken k s : counted k s → counted (k + 1) (update_results TBROK (printed TBROK s)).
Proof.
  intros [H1 H2 H3 H4 H5 (n & H6 & H7)]. split; cbn; rewrite ?cnt_app, ?cnt_one; unfold tst_atomic_inc; cbn;
    rewrite ?H1, ?H2, ?H3, ?H4, ?H5, ?wraps_wraps_add, ?Z.add_0_r; try done.
  exists n. split; [done|lia].
Qed.

Lemma counted_abort k s : counted (k + 1) s → counted k (inc_abort s).
Proof.
  intros [H1 H2 H3 H4 H5 (n & H6 & H7)]. split; cbn; [done..|]. exists (n + 1).
  split; [by rewrite H6, wraps_wraps_add|lia].
Qed.

(** ** Pieces of programs *)

Definition pres {E} (p : prog E) : Prop := ∀ s, lib_pid s ≠ 0 → acc s (p s).1.

Create HintDb runner.

Lemma pres_ret {E} (e : option E) : pres (λ s, (s, e)).
Proof. intros s _. reflexivity. Qed.

Lemma pres_step {E} f : (∀ s, acc s (f s)) → pres (E := E) (step f).
Proof. intros H s _. apply H. Qed.

Lemma pres_andthen {E} (p q : prog E) : pres p → pres q → pres (p ;> q).
Proof.
  intros Hp Hq s Hl. unfold andthen. specialize (Hp s Hl). destruct (p s) as [s1 [e|]]; [done|].
  etransitivity; [exact Hp|apply Hq]. destruct Hp as (_ & [E1 _] & _). cbn in E1. by rewrite E1.
Qed.

Lemma acc_main_pid p s : acc s (set_main_pid p s).
Proof. by apply acc_other. Qed.
Lemma acc_zombies z s : acc s (set_zombies z s).
Proof. by apply acc_other. Qed.

#[export] Hint Resolve pres_ret pres_step pres_andthen acc_res acc_cvres acc_main_pid acc_zombies : runner.

Lemma vbrk_acc cleanup me t s : pres cleanup → lib_pid s ≠ 0 → acc s (tst_vbrk_ cleanup me t s).1.
Proof.
  intros Hc Hl. unfold tst_vbrk_. set (r := TTYPE_RESULT t). cbn [lib_pid printed].
  rewrite (proj2 (Z.eqb_neq (lib_pid s) 0) Hl).
  set (s1 := update_results r (printed r s)).
  assert (acc s s1) as H1 by apply acc_report.
  assert (acc s1 (if me =? main_pid s1 then cleanup s1 else (s1, None)).1) as H2 by (case_match; [apply Hc; by rewrite (proj1 (proj1 (proj2 H1)))|reflexivity]).
  destruct (if me =? main_pid s1 then cleanup s1 else (s1, None)) as [s2 [st|]]; cbn [fst] in *; [by etransitivity|].
  case_match; [by etransitivity|]. destruct (Z.eqb_spec r TBROK) as [Hr|]; [|by etransitivity].
  assert (acc s (inc_abort s2)) as H3.
  { destruct H1 as ((x & Hx) & [L1 E1] & _), H2 as ((y & Hy) & [L2 E2] & C2). split; [|split].
    - exists (x ++ y). cbn. by rewrite Hy, Hx, app_assoc.
    - cbn. split; congruence.
    - intros _ k Hk. apply counted_abort, C2; [congruence|]. unfold s1. rewrite Hr. by apply counted_broken. }
  case_match; [|done]. etransitivity; [exact H3|apply acc_res].
Qed.

Lemma pres_if {E} (c : bool) (p q : prog E) : pres p → pres q → pres (if c then p else q).
Proof. by destruct c. Qed.
#[export] Hint Resolve pres_if : runner.

Lemma pres_child_brk me pid t : pres (child_brk me pid t).
Proof.
  intros s Hl. unfold child_brk. pose proof (vbrk_acc (λ s, (s, None)) pid t s (pres_ret None) Hl) as H.
  destruct (tst_vbrk_ _ pid t s) as [s1 [r|st [k|]]]; exact H.
Qed.
#[export] Hint Resolve pres_child_brk : runner.

Lemma pres_exec brk me acts : (∀ t, pres (brk t)) → pres (exec brk me acts).
Proof.
  intros Hb. induction acts as [|a acts IH]; cbn [exec]; [apply pres_ret|]. apply pres_andthen; [|done].
  destruct a; cbn [exec_act]; auto with runner.
Qed.

Lemma pres_cleanup me cl : pres (do_test_cleanup me cl).
Proof. apply pres_exec. intros t. auto with runner. Qed.

Lemma pres_main_brk me cl t : pres (main_brk me cl t).
Proof.
  intros s Hl. unfold main_brk. pose proof (vbrk_acc _ me t s (pres_cleanup me cl) Hl) as H.
  destruct (tst_vbrk_ _ me t s) as [s1 [r|st k]]; exact H.
Qed.
#[export] Hint Resolve pres_exec pres_cleanup pres_main_brk : runner.

Section Brk.
Context (brk : Z → prog status) (Hb : ∀ t, pres (brk t)).

Lemma pres_reap : pres (tst_reap_children brk).
Proof.
  intros s Hl. unfold tst_reap_children. generalize (zombies s). intros z. revert s Hl.
  change (pres (reap_loop brk z)). induction z as [|st z IH]; cbn [reap_loop]; [apply pres_ret|].
  apply pres_andthen; [auto with runner|]. apply pres_andthen; [|done]. destruct st; cbn; [|apply Hb].
  case_match; [apply pres_ret|apply Hb].
Qed.

Lemma pres_run_test me body : pres (run_test brk me body).
Proof.
  intros s Hl. unfold run_test. revert s Hl. assert (∀ r, pres (exec brk me body ;> tst_reap_children brk ;>
    λ s, if results_equal r (res s) then brk TBROK s else (s, None))) as H; [|intros s; apply (H (res s) s)].
  intros r. apply pres_andthen; [by apply pres_exec|]. apply pres_andthen; [apply pres_reap|].
  intros s Hl. case_match; [by apply Hb|reflexivity].
Qed.

Lemma pres_run_tests T me body : pres (run_tests T brk me body).
Proof.
  unfold run_tests. case_match; [apply pres_run_test|]. generalize 0%nat. induction (tcnt T) as [|n IH]; intros i; cbn [run_loop].
  - apply pres_ret.
  - apply pres_andthen; [apply pres_run_test|apply IH].
Qed.

Lemma pres_iter fuel T me body it i clock : pres (iter_loop fuel T brk me body it i clock).
Proof.
  revert i clock. induction fuel as [|fuel IH]; intros i clock; cbn [iter_loop]; (case_match; [apply pres_ret|]).
  - apply pres_ret.
  - apply pres_andthen; [apply pres_run_tests|apply IH].
Qed.

Lemma pres_setup r : pres (do_test_setup brk r).
Proof.
  apply pres_andthen; [auto with runner|]. apply pres_andthen; [|by apply pres_exec].
  destruct (run_skip_fs r) as [[]|]; auto with runner.
Qed.
End Brk.

Lemma testrun_acc T it r s : lib_pid s ≠ 0 → acc s (testrun T it r s).1.
Proof.
  intros Hl. unfold testrun. set (p := _ ;> _). assert (pres p) as Hp.
  { unfold p. pose proof (pres_main_brk (run_pid r) (run_cleanup r)) as Hb.
    apply pres_andthen; [by apply pres_setup|]. apply pres_andthen; [by apply pres_iter|apply pres_cleanup]. }
  specialize (Hp s Hl). by destruct (p s).
Qed.

Lemma lib_vbrk_eq t s :
  lib_pid s ≠ 0 → lib_vbrk t s = let r := TTYPE_RESULT t in (update_results r (printed r s), DoExit r).
Proof.
  intros Hl. unfold lib_vbrk, tst_vbrk_. cbn [lib_pid printed]. rewrite (proj2 (Z.eqb_neq (lib_pid s) 0) Hl).
  cbn zeta. set (s1 := update_results _ _). assert (lib_pid s1 = lib_pid s) as El by apply acc_report.
  assert ((if lib_pid s =? main_pid s1 then (s1, None) else (s1, None (A := status))) = (s1, None)) as -> by (by case_match).
  by rewrite El, Z.eqb_refl.
Qed.

Lemma acc_tdebug s : acc s (set_tdebug s).
Proof. by apply acc_other. Qed.

Lemma acc_lib_acts acts s : lib_pid s ≠ 0 → acc s (lib_acts acts s).1.
Proof.
  revert s. induction acts as [|a acts IH]; intros s Hl; cbn [lib_acts]; [reflexivity|].
  assert (∀ s', acc s s' → acc s (lib_acts acts s').1) as Hgo.
  { intros s' Ha. etransitivity; [exact Ha|]. apply IH. by rewrite (proj1 (proj1 (proj2 Ha))). }
  destruct a as [t|b|]; [|rewrite lib_vbrk_eq by done; apply acc_report|apply Hgo, acc_tdebug].
  case_match; [apply Hgo, acc_res|]. rewrite lib_vbrk_eq by done. apply acc_report.
Qed.

Lemma acc_do_exit cl ret s : lib_pid s ≠ 0 → acc s (do_exit cl ret s).1.
Proof.
  revert ret s. induction cl as [|acts cl IH]; intros ret s Hl; cbn [do_exit]; [reflexivity|].
  pose proof (acc_lib_acts acts s Hl) as Ha. destruct (lib_acts acts s) as [s1 [[r|[] k]|]]; cbn [fst] in *; try done.
  etransitivity; [exact Ha|]. apply IH. by rewrite (proj1 (proj1 (proj2 Ha))).
Qed.

Lemma pres_lib_res t : pres (lib_res t).
Proof. intros s _. apply acc_res. Qed.

Lemma acc_lib_exit W e s : lib_pid s ≠ 0 → acc s (lib_exit W e s).1.
Proof.
  intros Hl. destruct e as [r|[] k]; cbn; try reflexivity. pose proof (acc_do_exit (cleanups W) r s Hl) as H.
  by destruct (do_exit (cleanups W) r s).
Qed.

Lemma pres_lib_brk W t : pres (lib_brk W t).
Proof.
  intros s Hl. unfold lib_brk. rewrite lib_vbrk_eq by done. cbn zeta. pose proof (acc_report (TTYPE_RESULT t) s) as Ha.
  etransitivity; [exact Ha|]. apply acc_lib_exit. by rewrite (proj1 (proj1 (proj2 Ha))).
Qed.
#[export] Hint Resolve pres_lib_res pres_lib_brk : runner.

(** The part of [fork_testrun] after the test process ended with [st]. *)
Definition after_run (T : tst_test) (W : world) (r : tst_run) (st : status) : prog Z := λ s,
  if taint_check T && run_tainted r then lib_res TFAIL s else
  ((if forks_child T && run_leftover r then lib_res TINFO else λ s, (s, None)) ;>
   λ s, match st with
        | Exited code => if negb (code =? 0) then lib_brk W TBROK s else (s, None)
        | Signaled sig =>
            if negb (abort_flag s =? 0) then (s, None)
            else if sig =? SIGKILL then (lib_res TINFO ;> lib_brk W TBROK) s
            else lib_brk W TBROK s
        end) s.

Lemma fork_testrun_eq T it W s :
  fork_testrun T it W s =
  let r := runs W (length (ended s)) in
  if negb (run_forked r) then lib_brk W TBROK s else
  let '(s1, st) := testrun T it r s in after_run T W r st (add_ended st (set_zombies [] s1)).
Proof. unfold fork_testrun. cbn zeta. case_match; [done|]. by destruct (testrun T it (runs W (length (ended s))) s). Qed.

(** ** Exit codes *)

(** The exit code by what was reported. *)
Definition exit_code (rs : list Z) : Z :=
  Z.lor (if bool_decide (TFAIL ∈ rs) then TFAIL else 0)
 (Z.lor (if bool_decide (TBROK ∈ rs) then TBROK else 0)
 (Z.lor (if bool_decide (TWARN ∈ rs) then TWARN else 0)
        (if bool_decide (TCONF ∈ rs ∧ TPASS ∉ rs) then TCONF else 0))).

Lemma counter_zero t rs : Z.of_nat (length rs) < 2 ^ 31 → (wraps 32 (cnt t rs) =? 0) = negb (bool_decide (t ∈ rs)).
Proof.
  intros H. pose proof (cnt_bounds t rs). rewrite wraps_small by (change (2 ^ (32 - 1)) with (2 ^ 31); lia).
  destruct (bool_decide_reflect (t ∈ rs)) as [Hi|Hn]; rewrite cnt_In in *.
  - apply Z.eqb_neq. lia.
  - apply Z.eqb_eq. lia.
Qed.

(** [ret] is a type with which [tst_brk] was called, or 0. *)
Definition flagged (ret : Z) (rs : list Z) : Prop :=
  ret = 0 ∨ (ret = TCONF ∨ ret = TBROK ∨ ret = TFAIL) ∧ ret ∈ rs.

Lemma exit_flags_code k ret s :
  counted k s → Z.of_nat (length (reports s)) < 2 ^ 31 → flagged ret (reports s) →
  exit_flags ret (res s) = exit_code (reports s).
Proof.
  intros [H1 H2 H3 H4 H5 _] Hl Hr. unfold exit_flags, exit_code. rewrite H1, H2, H3, H4, H5, !counter_zero, !negb_involutive by done.
  destruct (bool_decide_reflect (TPASS ∈ reports s)), (bool_decide_reflect (TFAIL ∈ reports s)),
    (bool_decide_reflect (TBROK ∈ reports s)), (bool_decide_reflect (TWARN ∈ reports s)),
    (bool_decide_reflect (TCONF ∈ reports s));
  ((rewrite bool_decide_true by tauto) || (rewrite bool_decide_false by tauto));
  destruct Hr as [->|[[->|[->| ->]] ?]]; done.
Qed.

(** Events after which the library process goes on, and what they report. *)
Definition goes_on (a : lib_act) : Prop :=
  match a with LRes t => valid_ttype (TTYPE_RESULT t) = true | LBrk _ => False | LDebug => True end.

Definition lib_reports (acts : list lib_act) : list Z :=
  concat ((λ a, match a with LRes t => if t =? TDEBUG then [] else [TTYPE_RESULT t] | _ => [] end) <$> acts).

(** The reports [rs] of a program with exit code [c]: the code is that of the
    reports [x], before the cleanup [acts], the last one that [do_exit] did. *)
Definition settled (cl : list (list lib_act)) (rs : list Z) (c : Z) : Prop :=
  ∃ x acts, rs = x ++ lib_reports acts ∧ c = exit_code x ∧ Forall goes_on acts ∧ (acts = [] ∨ acts ∈ cl).

Lemma lib_res_reports t s : reports (tst_res_ (lib_pid s) t s) = reports s ++ (if t =? TDEBUG then [] else [TTYPE_RESULT t]).
Proof.
  unfold tst_res_. rewrite Z.eqb_refl, orb_true_l, andb_true_r. case_match; [by rewrite app_nil_r|].
  unfold tst_vres_, update_results. repeat case_match; done.
Qed.

Lemma reported t s : reports (update_results t (printed t s)) = reports s ++ [t].
Proof. unfold update_results. repeat case_match; done. Qed.

Lemma lib_acts_cases acts s :
  lib_pid s ≠ 0 →
  match (lib_acts acts s).2 with
  | None => Forall goes_on acts ∧ reports (lib_acts acts s).1 = reports s ++ lib_reports acts
  | Some e => ∃ r, e = DoExit r ∧ flagged r (reports (lib_acts acts s).1)
  end.
Proof.
  revert s. induction acts as [|a acts IH]; intros s Hl; cbn [lib_acts]; [by rewrite app_nil_r|].
  assert (∀ r, (r = TCONF ∨ r = TBROK ∨ r = TFAIL) → TTYPE_RESULT r = r →
    ∃ r', (lib_vbrk r s).2 = DoExit r' ∧ flagged r' (reports (lib_vbrk r s).1)) as Hbrk.
  { intros r Hr Er. rewrite lib_vbrk_eq, Er by done. exists r. cbn [fst snd]. split; [done|right].
    split; [done|]. rewrite reported, elem_of_app, list_elem_of_singleton. by right. }
  assert (∀ s' y, acc s s' → reports s' = reports s ++ y → goes_on a → lib_reports [a] = y →
    match (lib_acts acts s').2 with
    | None => Forall goes_on (a :: acts) ∧ reports (lib_acts acts s').1 = reports s ++ lib_reports (a :: acts)
    | Some e => ∃ r, e = DoExit r ∧ flagged r (reports (lib_acts acts s').1)
    end) as Hgo.
  { intros s' y Ha Hy Hg <-. specialize (IH s'). rewrite (proj1 (proj1 (proj2 Ha))) in IH. specialize (IH Hl).
    destruct (lib_acts acts s').2; [done|]. destruct IH as [H1 ->]. rewrite Hy. split; [by constructor|].
    unfold lib_reports. cbn. by rewrite app_nil_r, <- app_assoc. }
  destruct a as [t|b|].
  - destruct (valid_ttype (TTYPE_RESULT t)) eqn:Ev.
    + apply (Hgo _ _ (acc_res _ t s) (lib_res_reports t s) Ev). unfold lib_reports. cbn. by rewrite app_nil_r.
    + destruct (Hbrk TBROK) as (r & E & F); [tauto|done|]. destruct (lib_vbrk TBROK s). cbn in *. by exists r; rewrite E.
  - destruct (Hbrk (brk_ttype b)) as (r & E & F); [by destruct b; tauto|by destruct b|].
    destruct (lib_vbrk (brk_ttype b) s). cbn in *. by exists r; rewrite E.
  - apply (Hgo _ [] (acc_tdebug s)); [by rewrite app_nil_r|done|done].
Qed.

Lemma short_app_l (a b : list Z) : Z.of_nat (length (a ++ b)) < 2 ^ 31 → Z.of_nat (length a) < 2 ^ 31.
Proof. rewrite length_app. lia. Qed.

Lemma do_exit_settled cl ret s :
  lib_pid s ≠ 0 → counted 0 s → flagged ret (reports s) → Z.of_nat (length (reports (do_exit cl ret s).1)) < 2 ^ 31 →
  settled cl (reports (do_exit cl ret s).1) (do_exit cl ret s).2.
Proof.
  revert ret s. induction cl as [|acts cl IH]; intros ret s Hl Hc Hf; cbn [do_exit].
  { intros Hs. exists (reports s), []. rewrite app_nil_r. split_and!; [done| |done|by left]. by eapply exit_flags_code. }
  pose proof (acc_lib_acts acts s Hl) as Ha. pose proof (lib_acts_cases acts s Hl) as Hx.
  destruct (lib_acts acts s) as [s1 [e|]]; cbn [fst snd] in *.
  - destruct Hx as (r & -> & Hr). intros Hs. destruct Ha as (_ & [L _] & C).
    destruct (IH r s1) as (x & a & E & Ex & F & Hin); [congruence|by apply C|done|done|].
    exists x, a. split_and!; try done. destruct Hin as [->|?]; [by left|]. right. by constructor 2.
  - destruct Hx as [F E]. intros Hs. exists (reports s), acts. rewrite E in *.
    split_and!; [done| |done|right; by constructor]. eapply exit_flags_code; [done|by eapply short_app_l|done].
Qed.

(** What was reported before [do_exit] enters the exit code. *)
Lemma do_exit_prefix cl ret s :
  lib_pid s ≠ 0 → counted 0 s → flagged ret (reports s) → Z.of_nat (length (reports (do_exit cl ret s).1)) < 2 ^ 31 →
  ∃ x, (∃ y, reports (do_exit cl ret s).1 = reports s ++ x ++ y) ∧ (do_exit cl ret s).2 = exit_code (reports s ++ x).
Proof.
  revert ret s. induction cl as [|acts cl IH]; intros ret s Hl Hc Hf; cbn [do_exit].
  { intros Hs. exists []. rewrite app_nil_r. split; [exists []; by rewrite app_nil_r|]. by eapply exit_flags_code. }
  pose proof (acc_lib_acts acts s Hl) as Ha. pose proof (lib_acts_cases acts s Hl) as Hx.
  destruct (lib_acts acts s) as [s1 [e|]]; cbn [fst snd] in *.
  - destruct Hx as (r & -> & Hr). intros Hs. destruct Ha as ((z & Z) & [L _] & C).
    destruct (IH r s1) as (x & (y & E) & Ex); [congruence|by apply C|done|done|].
    exists (z ++ x). split; [exists y; by rewrite E, Z, <- !app_assoc|by rewrite Ex, Z, <- app_assoc].
  - destruct Hx as [_ E]. intros Hs. exists []. rewrite app_nil_r, E in *. split; [by eexists|].
    eapply exit_flags_code; [done|by eapply short_app_l|done].
Qed.

(** No test process ended abnormally without a report. *)
Definition noticed (s : ipc) : Prop :=
  ∀ st, st ∈ ended s → st ≠ Exited 0 → TBROK ∈ reports s ∨ TFAIL ∈ reports s.

(** What the library process keeps. *)
Definition good (s : ipc) : Prop := lib_pid s ≠ 0 ∧ counted 0 s ∧ noticed s.

Lemma acc_good s s' : acc s s' → good s → good s'.
Proof.
  intros ((x & Hx) & [L E] & C) (H1 & H2 & H3). split_and!; [congruence|by apply C|].
  intros st Hst Hne. rewrite E in Hst. rewrite Hx, !elem_of_app. destruct (H3 st Hst Hne); tauto.
Qed.

Section Sound.
Context (W : world).

(** What a piece of the library process came to, from [s0], with the exit code
    when it ended; the abnormal ends are noticed before the last cleanup. *)
Definition exits_at (s : ipc) (c : Z) : Prop :=
  settled (cleanups W) (reports s) c ∧ (c = 0 → ∀ st, st ∈ ended s → st = Exited 0).

Definition came_to (s0 : ipc) (o : ipc * option Z) : Prop :=
  good o.1 ∧ (∃ x, reports o.1 = reports s0 ++ x) ∧
  ∀ c, o.2 = Some c → Z.of_nat (length (reports o.1)) < 2 ^ 31 → exits_at o.1 c.

Definition sound (p : prog Z) : Prop := ∀ s, good s → came_to s (p s).

Lemma exit_code_0 rs :
  exit_code rs = 0 → (TFAIL ∉ rs) ∧ (TBROK ∉ rs) ∧ (TWARN ∉ rs) ∧ (TCONF ∈ rs → TPASS ∈ rs).
Proof.
  unfold exit_code. intros Hc.
  destruct (bool_decide_reflect (TFAIL ∈ rs)), (bool_decide_reflect (TBROK ∈ rs)),
    (bool_decide_reflect (TWARN ∈ rs)), (bool_decide_reflect (TCONF ∈ rs ∧ TPASS ∉ rs)) as [|Hcp]; try done.
  split_and!; try done. intros Hi. destruct (decide (TPASS ∈ rs)); [done|]. by destruct Hcp.
Qed.

Lemma exit_code_info x y : Forall (λ t, t = TINFO) y → exit_code (x ++ y) = exit_code x.
Proof.
  intros Hy. assert (∀ t, t ≠ TINFO → (t ∈ x ++ y ↔ t ∈ x)) as H.
  { intros t Ht. rewrite elem_of_app. split; [|by left]. intros [?|Hin]; [done|]. by eapply Forall_forall in Hy. }
  assert (TFAIL ∈ x ++ y ↔ TFAIL ∈ x) as H1 by by apply H. assert (TBROK ∈ x ++ y ↔ TBROK ∈ x) as H2 by by apply H.
  assert (TWARN ∈ x ++ y ↔ TWARN ∈ x) as H3 by by apply H. assert (TCONF ∈ x ++ y ↔ TCONF ∈ x) as H4 by by apply H.
  assert (TPASS ∈ x ++ y ↔ TPASS ∈ x) as H5 by by apply H. unfold exit_code.
  rewrite (bool_decide_ext _ _ H1), (bool_decide_ext _ _ H2), (bool_decide_ext _ _ H3).
  rewrite (bool_decide_ext (TCONF ∈ x ++ y ∧ TPASS ∉ x ++ y) (TCONF ∈ x ∧ TPASS ∉ x)) by (by rewrite H4, H5). done.
Qed.

(** [do_exit] from a state where the abnormal ends are noticed. *)
Lemma lib_exit_sound r s : good s → flagged r (reports s) → came_to s (lib_exit W (DoExit r) s).
Proof.
  intros (Hl & Hc & Hn) Hf. unfold lib_exit. pose proof (acc_do_exit (cleanups W) r s Hl) as Ha.
  pose proof (do_exit_settled (cleanups W) r s Hl Hc Hf) as Hs. pose proof (do_exit_prefix (cleanups W) r s Hl Hc Hf) as Hp.
  destruct (do_exit (cleanups W) r s) as [s1 c1]. cbn [fst snd] in *.
  split_and!; [by eapply acc_good|apply Ha|]. intros c [= <-] Hlen. split; [by apply Hs|].
  intros -> st Hst. destruct (decide (st = Exited 0)) as [|Hne]; [done|]. exfalso.
  destruct Ha as (_ & [_ E] & _). cbn [fst] in Hst. rewrite E in Hst. destruct (Hp Hlen) as (x & _ & E0).
  destruct (exit_code_0 _ (eq_sym E0)) as (H1 & H2 & _). destruct (Hn st Hst Hne); [apply H2|apply H1]; rewrite elem_of_app; by left.
Qed.

Lemma sound_ret : sound (λ s, (s, None)).
Proof. intros s Hs. split_and!; [done|exists []; by rewrite app_nil_r|done]. Qed.

Lemma came_to_trans s s1 o : (∃ x, reports s1 = reports s ++ x) → came_to s1 o → came_to s o.
Proof. intros [x X] (G & [y Y] & C). split_and!; [done| |done]. exists (x ++ y). by rewrite Y, X, app_assoc. Qed.

Lemma sound_andthen p q : sound p → sound q → sound (p ;> q).
Proof.
  intros Hp Hq s Hs. unfold andthen. destruct (Hp s Hs) as (G & X & C). destruct (p s) as [s1 [e|]]; [done|].
  apply (came_to_trans _ s1); [done|]. by apply Hq.
Qed.

Lemma sound_acc f : (∀ s, lib_pid s ≠ 0 → acc s (f s)) → sound (λ s, (f s, None)).
Proof. intros H s Hs. assert (acc s (f s)) as Ha by (apply H, Hs). split_and!; [by eapply acc_good|apply Ha|done]. Qed.

Lemma sound_lib_res t : sound (lib_res t).
Proof. apply sound_acc. intros s _. apply acc_res. Qed.

Lemma lib_brk_eq t s :
  lib_pid s ≠ 0 → TTYPE_RESULT t = t →
  lib_brk W t s = lib_exit W (DoExit t) (update_results t (printed t s)).
Proof. intros Hl Ht. unfold lib_brk. by rewrite lib_vbrk_eq, Ht by done. Qed.

Lemma lib_brk_sound t s s1 :
  (t = TCONF ∨ t = TBROK) → good (update_results t (printed t s1)) → (∃ x, reports s1 = reports s ++ x) →
  came_to s (lib_brk W t s1).
Proof.
  intros Ht G [x X]. assert (lib_pid s1 ≠ 0) as Hl by (rewrite <- (proj1 (proj1 (proj2 (acc_report t s1)))); apply G).
  rewrite lib_brk_eq by (done || by destruct Ht as [->| ->]).
  apply (came_to_trans _ (update_results t (printed t s1))).
  { exists (x ++ [t]). by rewrite reported, X, app_assoc. }
  apply lib_exit_sound; [done|]. right. split; [tauto|]. rewrite reported, elem_of_app, list_elem_of_singleton. by right.
Qed.

Lemma sound_lib_brk t : t = TCONF ∨ t = TBROK → sound (lib_brk W t).
Proof.
  intros Ht s Hs. apply lib_brk_sound; [done| |exists []; by rewrite app_nil_r].
  by eapply acc_good; [apply acc_report|].
Qed.

Lemma sound_exec_lib acts : sound (exec_lib W acts).
Proof.
  intros s Hs. unfold exec_lib. pose proof (acc_lib_acts acts s (proj1 Hs)) as Ha.
  pose proof (lib_acts_cases acts s (proj1 Hs)) as Hx. destruct (lib_acts acts s) as [s1 [e|]]; cbn [fst snd] in *.
  - destruct Hx as (r & -> & Hr). apply (came_to_trans _ s1); [apply Ha|]. apply lib_exit_sound; [by eapply acc_good|done].
  - split_and!; [by eapply acc_good|apply Ha|done].
Qed.

(** The library process after a test process, which ended with [st]. *)
Lemma sound_after T r st s :
  lib_pid s ≠ 0 → counted 0 s → (∀ st', st' ∈ ended s → st' ≠ Exited 0 → st' = st ∨ TBROK ∈ reports s ∨ TFAIL ∈ reports s) →
  came_to s (after_run T W r st s).
Proof.
  intros Hl Hc Hn. unfold after_run.
  assert (∀ t s1, acc s s1 → (t = TBROK ∨ t = TFAIL) → good (update_results t (printed t s1))) as Hrep.
  { intros t s1 Ha Ht. pose proof (acc_trans _ _ _ Ha (acc_report t s1)) as ((x & Hx) & [L E] & C). split_and!; [congruence|by apply C|].
    intros _ _ _. rewrite reported, !elem_of_app, !list_elem_of_singleton. destruct Ht as [->| ->]; tauto. }
  assert (∀ s1, acc s s1 → came_to s (lib_brk W TBROK s1)) as Hbrk.
  { intros s1 Ha. apply lib_brk_sound; [by right|by apply Hrep; [|left]|apply Ha]. }
  assert (∀ s1, acc s s1 → (st = Exited 0 ∨ TBROK ∈ reports s1) → good s1) as Hgo.
  { intros s1 ((x & Hx) & [L E] & C) Hst. split_and!; [congruence|by apply C|]. intros st' Hin Hne. rewrite E in Hin.
    rewrite Hx in *. rewrite !elem_of_app in *. destruct (Hn st' Hin Hne) as [->|[?|?]]; [|tauto..].
    destruct Hst as [->|?]; [done|tauto]. }
  destruct (taint_check T && run_tainted r).
  { split_and!; [|eexists; apply reported|done]. by apply (Hrep TFAIL s); [reflexivity|right]. }
  unfold andthen. assert (∃ s1, (if forks_child T && run_leftover r then lib_res TINFO else λ s, (s, None)) s = (s1, None) ∧ acc s s1)
    as (s1 & -> & Ha) by (case_match; eexists; (split; [done|]); [apply acc_res|reflexivity]).
  destruct st as [code|sig].
  - destruct (Z.eqb_spec code 0) as [->|]; cbn [negb]; [|by apply Hbrk].
    split_and!; [by apply Hgo; [|left]|apply Ha|done].
  - destruct (Z.eqb_spec (abort_flag s1) 0) as [|Hab]; cbn [negb].
    + case_match; [|by apply Hbrk]. unfold lib_res. apply Hbrk. etransitivity; [exact Ha|apply acc_res].
    + split_and!; [|apply Ha|done]. apply Hgo; [done|right]. destruct Ha as (_ & _ & C).
      destruct (C Hl 0 Hc) as [_ _ _ _ _ (n & Hab1 & Hab2)]. apply cnt_In.
      destruct (decide (n = 0)) as [->|]; [|cbn; lia]. by rewrite Hab1 in Hab.
Qed.

Lemma sound_fork T it : sound (fork_testrun T it W).
Proof.
  intros s Hs. rewrite fork_testrun_eq. cbn zeta. case_match; [by apply sound_lib_brk; [right|]|]. destruct Hs as (Hl & Hc & Hn).
  pose proof (testrun_acc T it (runs W (length (ended s))) s Hl) as Ha.
  destruct (testrun T it (runs W (length (ended s))) s) as [s1 st]. cbn [fst] in Ha. destruct Ha as ((x & Hx) & [L E] & C).
  apply (came_to_trans _ (add_ended st (set_zombies [] s1))); [by exists x|]. apply sound_after.
  - cbn. congruence.
  - destruct (C Hl 0 Hc). by split.
  - cbn. intros st' Hin Hne. rewrite E, elem_of_app, list_elem_of_singleton in Hin.
    destruct Hin as [Hin|]; [|by left]. right. rewrite Hx, !elem_of_app. destruct (Hn st' Hin Hne); tauto.
Qed.

Lemma sound_exit_if : sound (exit_if_aborted W).
Proof. intros s Hs. unfold exit_if_aborted. case_match; [apply lib_exit_sound; [done|by left]|by apply sound_ret]. Qed.

#[local] Hint Resolve sound_ret sound_andthen sound_lib_res sound_lib_brk sound_exec_lib sound_fork sound_exit_if : runner.

Lemma sound_per_fs T it v : sound (run_tcases_per_fs T it W v).
Proof.
  unfold run_tcases_per_fs. apply sound_andthen; [auto with runner|]. destruct (fs_probe W v).2 as [|n names]; [auto with runner|].
  set (l := n :: names). clearbody l. generalize false, 0%nat. induction l as [|x l IH]; intros found i; cbn [fs_loop].
  - case_match; auto with runner.
  - destruct (lookup_fs_desc T x) as [fs|]; [|apply IH].
    apply sound_andthen; [|apply sound_andthen; [apply sound_exit_if|apply IH]].
    unfold run_tcase_on_fs. case_match; auto 10 with runner.
Qed.

Lemma sound_variants T it n v : sound (variant_loop T it W n v).
Proof.
  revert v. induction n as [|n IH]; intros v; cbn [variant_loop]; [auto with runner|].
  apply sound_andthen; [|apply sound_andthen; [apply sound_exit_if|done]]. case_match; [apply sound_per_fs|auto with runner].
Qed.

Lemma good_setup pid : pid ≠ 0 → good (setup_ipc pid).
Proof.
  intros Hp. split_and!; [done| |by intros st Hin%not_elem_of_nil].
  split; try done. exists 0. split; [done|]. unfold cnt. simpl. lia.
Qed.

Lemma run_tcases_sound T it pid s c :
  pid ≠ 0 → tst_run_tcases T it W (setup_ipc pid) = (s, c) → Z.of_nat (length (reports s)) < 2 ^ 31 → exits_at s c.
Proof.
  intros Hp E Hl. unfold tst_run_tcases in E. set (n := if (test_variants T =? 0)%nat then 1%nat else test_variants T) in E.
  destruct (sound_andthen _ _ (sound_exec_lib (lib_setup W)) (sound_variants T it n 0) (setup_ipc pid) (good_setup pid Hp)) as (G & _ & C).
  destruct (andthen _ _ (setup_ipc pid)) as [s1 [c1|]]; cbn [fst snd] in *; [simplify_eq; by apply C|].
  destruct (lib_exit_sound 0 s1 G) as (_ & _ & C1); [by left|]. unfold lib_exit in C1. rewrite E in C1. by apply C1.
Qed.
End Sound.

#[export] Hint Resolve sound_ret sound_andthen sound_lib_res sound_lib_brk sound_exec_lib sound_fork sound_exit_if : runner.

(** ** Well-behaved tests *)

(** Events of code that only reports and whose children exit with 0. *)
Definition plain (a : act) : Prop :=
  match a with
  | Res t | ChildRes _ t => valid_ttype (TTYPE_RESULT t) = true
  | ChildEnd st => st = Exited 0
  | _ => False
  end.

(** What they report, when debug messages are off. *)
Definition act_reports (a : act) : list Z :=
  match a with
  | Res t | ChildRes _ t => if t =? TDEBUG then [] else [TTYPE_RESULT t]
  | _ => []
  end.
Definition all_reports (acts : list act) : list Z := concat (act_reports <$> acts).

(** The results a test function has to report. *)
Definition is_result (t : Z) : Prop := t = TPASS ∨ t = TFAIL ∨ t = TCONF ∨ t = TBROK.

#[export] Instance is_result_dec t : Decision (is_result t).
Proof. unfold is_result. apply _. Defined.

Definition calm (s : ipc) : Prop :=
  lib_pid s ≠ 0 ∧ counted 0 s ∧ abort_flag s = 0 ∧ tdebug s = false ∧ Forall (λ st, st = Exited 0) (zombies s).

Definition short (rs : list Z) : Prop := Z.of_nat (length rs) < 2 ^ 31.

(** No test process ended, and the processes are the same. *)
Definition same_run (s s' : ipc) : Prop := ended s' = ended s ∧ main_pid s' = main_pid s ∧ lib_pid s' = lib_pid s.

#[export] Instance same_run_preorder : PreOrder same_run.
Proof. split; [done|]. intros s1 s2 s3 (? & ? & ?) (? & ? & ?). split_and!; congruence. Qed.

(** [p] goes on and reports [x]. *)
Definition yields {E} (p : prog E) (x : list Z) : Prop := ∀ s,
  calm s → short (reports s ++ x) →
  ∃ s', p s = (s', None) ∧ calm s' ∧ reports s' = reports s ++ x ∧ same_run s s'.

Lemma short_prefix a b : short (a ++ b) → short a.
Proof. unfold short. rewrite length_app. lia. Qed.

Lemma yields_andthen {E} (p q : prog E) x y : yields p x → yields q y → yields (p ;> q) (x ++ y).
Proof.
  intros Hp Hq s Hs Hl. rewrite app_assoc in *. destruct (Hp s Hs) as (s1 & E1 & C1 & R1 & D1); [by eapply short_prefix|].
  destruct (Hq s1 C1) as (s2 & E2 & C2 & R2 & D2); [by rewrite R1|]. exists s2.
  unfold andthen. rewrite E1, E2. split_and!; [done|done|by rewrite R2, R1|by etransitivity].
Qed.

Lemma yields_ret {E} : yields (λ s, (s, None (A := E))) [].
Proof. intros s Hs _. exists s. by rewrite app_nil_r. Qed.

Lemma yields_report {E} t : yields (E := E) (step (tst_vres_ t)) [TTYPE_RESULT t].
Proof.
  intros s (Hl & Hc & Ha & Ht & Hz) _. eexists. split; [done|]. unfold tst_vres_. set (r := TTYPE_RESULT t).
  pose proof (acc_report r s) as (_ & [L D] & C).
  assert (abort_flag (update_results r (printed r s)) = abort_flag s ∧ tdebug (update_results r (printed r s)) = tdebug s ∧
    zombies (update_results r (printed r s)) = zombies s ∧ main_pid (update_results r (printed r s)) = main_pid s)
    as (E1 & E2 & E3 & E4) by (unfold update_results; repeat case_match; done).
  split_and!; [|apply reported|by split_and!]. unfold calm. rewrite L, E1, E2, E3. split_and!; try done. by apply C.
Qed.

Lemma yields_res {E} me t : yields (E := E) (step (tst_res_ me t)) (if t =? TDEBUG then [] else [TTYPE_RESULT t]).
Proof.
  intros s Hs Hl. unfold step, tst_res_. destruct (Z.eqb_spec t TDEBUG) as [->|]; cbn [andb].
  - destruct Hs as (? & ? & ? & Ht & ?). rewrite Ht, orb_true_r. exists s. by rewrite app_nil_r.
  - by apply yields_report.
Qed.

Lemma yields_exec brk me acts : Forall plain acts → yields (exec brk me acts) (all_reports acts).
Proof.
  induction 1 as [|a acts Ha _ IH]; cbn [exec]; [apply yields_ret|].
  apply (yields_andthen _ _ (act_reports a)); [|done]. destruct a; cbn [exec_act plain act_reports] in *; try done.
  - rewrite Ha. apply yields_res.
  - rewrite Ha. apply yields_res.
  - subst st. intros s (Hl & Hc & Hb & Ht & Hz) _. eexists. split; [done|]. split_and!; [|by rewrite app_nil_r|done].
    split_and!; try done; [by destruct Hc; split|]. apply Forall_app. by repeat constructor.
Qed.

Lemma yields_reap brk : yields (tst_reap_children brk) [].
Proof.
  assert (∀ z, Forall (λ st, st = Exited 0) z → ∀ s, calm s →
    ∃ s', reap_loop brk z s = (s', None) ∧ calm s' ∧ reports s' = reports s ∧ same_run s s') as Hloop.
  { induction 1 as [|st z -> Hz IH]; intros s Hs; [by exists s|]. cbn [reap_loop]. unfold andthen. cbn.
    destruct (IH (set_zombies z s)) as (s2 & E2 & C2 & R2 & D2).
    - destruct Hs as (? & [] & ? & ? & ?). by split_and!.
    - exists s2. rewrite E2. split_and!; [done|done|done|]. by transitivity (set_zombies z s). }
  intros s Hs _. rewrite app_nil_r. apply Hloop; [apply Hs|done].
Qed.

(** Results that were reported are seen in the counters. *)
Lemma results_equal_iff s s' x :
  counted 0 s → counted 0 s' → reports s' = reports s ++ x → short (reports s') →
  results_equal (res s) (res s') = bool_decide (Forall (λ t, ¬ is_result t) x).
Proof.
  intros [H1 H2 H3 _ H5 _] [H1' H2' H3' _ H5' _] Hx Hl. unfold short in Hl.
  assert (∀ t, (wraps 32 (cnt t (reports s)) =? wraps 32 (cnt t (reports s'))) = bool_decide (t ∉ x)) as Hc.
  { intros t. rewrite Hx in *. pose proof (cnt_bounds t (reports s ++ x)). pose proof (cnt_bounds t (reports s)).
    rewrite cnt_app in *. rewrite length_app in *. pose proof (cnt_bounds t x).
    rewrite !wraps_small by (change (2 ^ (32 - 1)) with (2 ^ 31); lia).
    destruct (bool_decide_reflect (t ∉ x)) as [Hn|Hn]; rewrite cnt_In in Hn; [apply Z.eqb_eq|apply Z.eqb_neq]; lia. }
  unfold results_equal. rewrite H1, H2, H3, H5, H1', H2', H3', H5', !Hc.
  apply eq_bool_prop_intro. rewrite !andb_True, !bool_decide_spec, Forall_forall. unfold is_result.
  split; [intros [[[? ?] ?] ?] t Ht [->|[->|[->| ->]]]; done|].
  intros H. split_and!; intros Ht; apply (H _ Ht); tauto.
Qed.

Definition informs (body : list act) : Prop := Exists is_result (all_reports body).

Lemma yields_run_test brk me body :
  Forall plain body → informs body → yields (run_test brk me body) (all_reports body).
Proof.
  intros Hp Hi s Hs Hl. unfold run_test.
  destruct (yields_andthen _ _ _ _ (yields_exec brk me body Hp) (yields_reap brk) s Hs) as (s1 & E1 & C1 & R1 & D1).
  { by rewrite app_nil_r. }
  rewrite app_nil_r in R1. exists s1. unfold andthen in *. destruct (exec brk me body s) as [s0 [e|]]; [done|].
  rewrite E1. rewrite (results_equal_iff s s1 _ ltac:(apply Hs) ltac:(apply C1) R1) by (by rewrite R1).
  rewrite bool_decide_false; [by split_and!|]. intros Hf.
  rewrite Forall_forall in Hf. apply Exists_exists in Hi as (t & Ht & Hr). by apply (Hf t).
Qed.

(** The bodies of [n] test functions, or rounds, in order. *)
Definition in_order {A} (n i : nat) (f : nat → list A) : list A := concat (f <$> seq i n).

Section Complete.
Context (T : tst_test) (iterations : nat).

Definition tests_of : nat := if has_test T then tcnt T else 1.

Definition good_bodies (body : nat → list act) : Prop :=
  ∀ j, (j < tests_of)%nat → Forall plain (body j) ∧ informs (body j).

Lemma yields_loop brk me body n i :
  (∀ j, (i ≤ j < i + n)%nat → Forall plain (body j) ∧ informs (body j)) →
  yields (run_loop brk me body n i) (in_order n i (λ j, all_reports (body j))).
Proof.
  revert i. induction n as [|n IH]; intros i Hb; cbn [run_loop]; [apply yields_ret|].
  destruct (Hb i) as [H1 H2]; [lia|]. apply yields_andthen; [by apply yields_run_test|]. apply IH. intros j Hj. apply Hb. lia.
Qed.

Definition round_reports (body : nat → list act) : list Z := in_order tests_of 0 (λ j, all_reports (body j)).

Lemma yields_tests brk me body : good_bodies body → yields (run_tests T brk me body) (round_reports body).
Proof.
  unfold good_bodies, round_reports, run_tests, tests_of. intros Hb. destruct (has_test T); cbn [negb].
  - apply yields_loop. intros j Hj. apply Hb. lia.
  - unfold in_order. cbn. rewrite app_nil_r. apply yields_run_test; apply Hb; lia.
Qed.

(** The rounds: the iterations, and more while there is time left. *)
Fixpoint more (clock : list bool) : nat :=
  match clock with true :: clock => S (more clock) | _ => 0 end.
Definition rounds (clock : list bool) : nat := iterations + more (drop iterations clock).

Lemma yields_iter fuel brk me body i clock :
  (∀ i, good_bodies (body i)) → (iterations - i + length clock ≤ fuel)%nat →
  yields (iter_loop fuel T brk me body iterations i clock)
    (in_order ((iterations - i) + more (drop (iterations - i) clock)) i (λ i, round_reports (body i))).
Proof.
  intros Hb. revert i clock. induction fuel as [|fuel IH]; intros i clock Hf; cbn [iter_loop];
    destruct (Nat.ltb_spec i iterations) as [L|L]; cbn [orb negb]; try lia.
  - destruct clock; [|simpl in Hf; lia]. replace (iterations - i)%nat with 0%nat by lia. apply yields_ret.
  - replace (iterations - i)%nat with (S (iterations - S i)) by lia. cbn [Nat.add drop]. unfold in_order.
    destruct clock as [|c clock].
    + specialize (IH (S i) []). rewrite drop_nil in *. apply yields_andthen; [by apply yields_tests|].
      apply IH. simpl in *. lia.
    + apply yields_andthen; [by apply yields_tests|]. apply (IH (S i) clock). simpl in *. lia.
  - replace (iterations - i)%nat with 0%nat by lia. cbn [Nat.add drop].
    destruct clock as [|[] clock]; cbn [head default more negb]; [apply yields_ret| |apply yields_ret].
    change (Datatypes.id true) with true. cbn iota. apply yields_andthen; [by apply yields_tests|]. cbn [tail].
    specialize (IH (S i) clock). replace (iterations - S i)%nat with 0%nat in IH by lia. apply IH. simpl in *. lia.
Qed.

Definition good_run (r : tst_run) : Prop :=
  run_forked r = true ∧ run_skip_fs r ≠ Some true ∧ Forall plain (run_setup r) ∧ Forall plain (run_cleanup r) ∧
  (∀ i, good_bodies (run_body r i)) ∧ taint_check T && run_tainted r = false.

(** Everything a well-behaved test process reports. *)
Definition run_reports (r : tst_run) : list Z :=
  (match run_skip_fs r with Some _ => [TINFO] | None => [] end) ++ all_reports (run_setup r) ++
  in_order (rounds (run_clock r)) 0 (λ i, round_reports (run_body r i)) ++ all_reports (run_cleanup r).

Lemma testrun_good r s :
  good_run r → calm s → short (reports s ++ run_reports r) →
  ∃ s', testrun T iterations r s = (s', Exited 0) ∧ calm s' ∧ reports s' = reports s ++ run_reports r ∧ ended s' = ended s.
Proof.
  intros (_ & H1 & H2 & H3 & H4 & _) Hs Hl. unfold testrun. set (brk := main_brk _ _).
  set (p := match run_skip_fs r with Some true => brk TCONF | Some false => step (tst_res_ (run_pid r) TINFO) | None => λ s, (s, None) end).
  assert (yields ((p ;> exec brk (run_pid r) (run_setup r)) ;>
    iter_loop (iterations + length (run_clock r)) T brk (run_pid r) (run_body r) iterations 0 (run_clock r) ;>
    do_test_cleanup (run_pid r) (run_cleanup r)) (run_reports r)) as Hp.
  { unfold run_reports. rewrite (app_assoc _ (all_reports (run_setup r))). apply yields_andthen; [|apply yields_andthen].
    - apply yields_andthen; [|by apply yields_exec]. unfold p. destruct (run_skip_fs r) as [[]|]; [done| |apply yields_ret].
      apply (yields_res _ TINFO).
    - pose proof (yields_iter (iterations + length (run_clock r)) brk (run_pid r) (run_body r) 0 (run_clock r) H4) as H.
      rewrite Nat.sub_0_r in H. by apply H.
    - by apply yields_exec. }
  destruct (Hp (set_main_pid (run_pid r) s)) as (s1 & E & C & R & D & _); [|done|].
  { destruct Hs as (? & [] & ? & ? & ?). by split_and!. }
  exists s1. unfold andthen at 1. unfold do_test_setup. fold p. unfold step at 1, andthen at 1.
  unfold andthen at 1 in E. by rewrite E.
Qed.

(** ... and the library process after it. *)
Definition fork_reports (r : tst_run) : list Z :=
  run_reports r ++ (if forks_child T && run_leftover r then [TINFO] else []).

Context (W : world).

(** A variant as blocks: messages of the library process and test processes. *)
Inductive block :=
  | Msgs (ts : list Z)
  | Fork.

(** What blocks report, when the next test process is number [m]. *)
Fixpoint play (bs : list block) (m : nat) : list Z :=
  match bs with
  | [] => []
  | Msgs ts :: bs => ts ++ play bs m
  | Fork :: bs => fork_reports (runs W m) ++ play bs (S m)
  end.

Fixpoint forks (bs : list block) : nat :=
  match bs with [] => 0 | Msgs _ :: bs => forks bs | Fork :: bs => S (forks bs) end.

(** A file system: its checks, and if it is ready a test process. *)
Definition fs_blocks (v i : nat) : list block :=
  Msgs [TINFO] :: Msgs (lib_reports (fs_prepare W v i).1) ::
  (if (fs_prepare W v i).2 then [Fork; Msgs (lib_reports (LRes <$> fs_umount W v i))] else []).

(** The file systems with a description, in the order of the supported ones. *)
Fixpoint loop_blocks (v : nat) (names : list (list Z)) (i : nat) : list block :=
  match names with
  | [] => []
  | name :: names => (match lookup_fs_desc T name with Some _ => fs_blocks v i | None => [] end) ++ loop_blocks v names (S i)
  end.

Definition per_fs : bool := all_filesystems T || (1 <? count_fs_descs T)%nat.

Definition variant_blocks (v : nat) : list block :=
  if per_fs then Msgs (lib_reports (fs_probe W v).1) :: loop_blocks v (fs_probe W v).2 0 else [Fork].

(** The helpers of the library do not break, and some file system has a
    description. *)
Definition calm_act (a : lib_act) : Prop := goes_on a ∧ a ≠ LDebug.

Definition good_fs (v : nat) : Prop :=
  Forall calm_act (fs_probe W v).1 ∧ Exists (λ name, is_Some (lookup_fs_desc T name)) (fs_probe W v).2 ∧
  ∀ i, Forall calm_act (fs_prepare W v i).1 ∧ Forall calm_act (LRes <$> fs_umount W v i).

(** [p] goes on and does the blocks [bs]. *)
Definition does (p : prog Z) (bs : list block) : Prop := ∀ s,
  calm s → short (reports s ++ play bs (length (ended s))) →
  ∃ s', p s = (s', None) ∧ calm s' ∧ reports s' = reports s ++ play bs (length (ended s)) ∧
    ended s' = ended s ++ replicate (forks bs) (Exited 0).

Lemma play_app bs bs' m : play (bs ++ bs') m = play bs m ++ play bs' (m + forks bs).
Proof.
  revert m. induction bs as [|[ts|] bs IH]; intros m; cbn [app play forks].
  - by rewrite Nat.add_0_r.
  - by rewrite IH, app_assoc.
  - rewrite IH, app_assoc. do 2 f_equal. lia.
Qed.

Lemma forks_app bs bs' : forks (bs ++ bs') = (forks bs + forks bs')%nat.
Proof. induction bs as [|[] bs IH]; cbn [app forks]; lia. Qed.

Lemma does_andthen p q bs bs' : does p bs → does q bs' → does (p ;> q) (bs ++ bs').
Proof.
  intros Hp Hq s Hs Hl. rewrite play_app, app_assoc in *.
  destruct (Hp s Hs) as (s1 & E1 & C1 & R1 & D1); [by eapply short_prefix|].
  assert (length (ended s1) = length (ended s) + forks bs)%nat as El by (by rewrite D1, length_app, length_replicate).
  destruct (Hq s1 C1) as (s2 & E2 & C2 & R2 & D2); [by rewrite R1, El|].
  exists s2. unfold andthen. rewrite E1, E2. split_and!; [done|done|by rewrite R2, R1, El|].
  by rewrite D2, D1, forks_app, replicate_add, app_assoc.
Qed.

Lemma does_msgs p x : yields p x → does p [Msgs x].
Proof.
  intros Hp s Hs Hl. cbn [play forks replicate] in *. rewrite app_nil_r in *.
  destruct (Hp s Hs Hl) as (s' & ? & ? & ? & D & _). exists s'. by rewrite app_nil_r.
Qed.

Lemma does_ret : does (λ s, (s, None)) [].
Proof. intros s Hs _. exists s. by rewrite !app_nil_r. Qed.

Lemma yields_exec_lib acts : Forall calm_act acts → yields (exec_lib W acts) (lib_reports acts).
Proof.
  induction 1 as [|a acts [Hg Hd] _ IH]; [apply yields_ret|]. destruct a as [t|b|]; [|done..]. cbn [goes_on] in Hg.
  assert (yields (lib_res t ;> exec_lib W acts) ((if t =? TDEBUG then [] else [TTYPE_RESULT t]) ++ lib_reports acts)) as H.
  { apply yields_andthen; [|done]. intros s. apply (yields_res (lib_pid s) t). }
  intros s Hs Hl. destruct (H s Hs Hl) as (s' & E & H'). exists s'. split; [|done]. rewrite <- E.
  unfold exec_lib, andthen, lib_res. cbn [lib_acts]. by rewrite Hg.
Qed.

Lemma does_fork : (∀ m, good_run (runs W m)) → does (fork_testrun T iterations W) [Fork].
Proof.
  intros Hg s Hs Hl. cbn [play] in *. rewrite app_nil_r in *. set (r := runs W (length (ended s))) in *. pose proof (Hg (length (ended s))) as Hr. fold r in Hr.
  unfold fork_reports in Hl. rewrite app_assoc in Hl.
  destruct (testrun_good r s Hr Hs (short_prefix _ _ Hl)) as (s1 & E1 & C1 & R1 & D1).
  rewrite fork_testrun_eq. cbn zeta. fold r. destruct Hr as (-> & _ & _ & _ & _ & Ht). cbn [negb]. rewrite E1. unfold after_run. rewrite Ht.
  set (s2 := add_ended _ _). assert (calm s2) as C2 by (destruct C1 as (? & [] & ? & ? & ?); by split_and!).
  assert (yields (if forks_child T && run_leftover r then lib_res TINFO else λ s, (s, None))
    (if forks_child T && run_leftover r then [TINFO] else [])) as Hy.
  { case_match; [|apply yields_ret]. intros s0. apply (yields_res (lib_pid s0) TINFO). }
  destruct (Hy s2 C2) as (s3 & E3 & C3 & R3 & D3 & _); [unfold s2; cbn; by rewrite R1|].
  exists s3. unfold andthen. rewrite E3. cbn [Z.eqb negb]. split_and!; [done|done| |].
  - unfold s2 in R3. cbn in R3. rewrite R3, R1. unfold fork_reports. by rewrite <- !app_assoc.
  - rewrite D3. unfold s2. cbn. by rewrite D1.
Qed.

Lemma does_exit_if p bs : does p bs → does (p ;> exit_if_aborted W) bs.
Proof.
  intros Hp. rewrite <- (app_nil_r bs). apply does_andthen; [done|]. intros s Hs Hl. exists s.
  unfold exit_if_aborted. rewrite (proj1 (proj2 (proj2 Hs))). by rewrite !app_nil_r.
Qed.

Lemma andthen_assoc {E} (p q r : prog E) s : (p ;> q ;> r) s = ((p ;> q) ;> r) s.
Proof. unfold andthen. by destruct (p s) as [? []]. Qed.

Lemma does_eq p q bs : (∀ s, p s = q s) → does p bs → does q bs.
Proof. intros H Hp s. rewrite <- H. apply Hp. Qed.

(** A step of a loop: the piece, the check of the abort flag, the rest. *)
Lemma does_round p q bs bs' : does p bs → does q bs' → does (p ;> exit_if_aborted W ;> q) (bs ++ bs').
Proof.
  intros Hp Hq. eapply does_eq; [intros s; symmetry; apply andthen_assoc|]. apply does_andthen; [by apply does_exit_if|done].
Qed.

Lemma does_fs v i : (∀ m, good_run (runs W m)) → good_fs v → does (run_tcase_on_fs T iterations W v i) (fs_blocks v i).
Proof.
  intros Hg (_ & _ & Hf). destruct (Hf i) as [Hp Hu]. unfold run_tcase_on_fs, fs_blocks.
  apply (does_andthen _ _ [Msgs [TINFO]]). { apply does_msgs. intros s. apply (yields_res (lib_pid s) TINFO). }
  apply (does_andthen _ _ [Msgs _]); [by apply does_msgs, yields_exec_lib|]. destruct (fs_prepare W v i).2; cbn [negb]; [|apply does_ret].
  apply (does_andthen _ _ [Fork]); [by apply does_fork|by apply does_msgs, yields_exec_lib].
Qed.

Lemma does_per_fs v : (∀ m, good_run (runs W m)) → good_fs v →
  does (run_tcases_per_fs T iterations W v) (Msgs (lib_reports (fs_probe W v).1) :: loop_blocks v (fs_probe W v).2 0).
Proof.
  intros Hg Hf. destruct Hf as (Hp & He & Hf') eqn:Heq. clear Heq. unfold run_tcases_per_fs.
  apply (does_andthen _ _ [Msgs _]); [by apply does_msgs, yields_exec_lib|].
  assert (∀ names i found, found = true ∨ Exists (λ name, is_Some (lookup_fs_desc T name)) names →
    does (fs_loop T iterations W v names i found) (loop_blocks v names i)) as Hloop.
  { induction names as [|name names IH]; intros i found Hfd; cbn [fs_loop loop_blocks].
    - destruct Hfd as [->|[]%Exists_nil]. apply does_ret.
    - destruct (lookup_fs_desc T name) as [fs|] eqn:El.
      + apply does_round; [by apply does_fs|]. apply IH. by left.
      + apply IH. destruct Hfd as [->|[H|H]%Exists_cons]; [by left| |by right]. rewrite El in H. by apply is_Some_None in H. }
  destruct (fs_probe W v).2 as [|name names]; [by apply Exists_nil in He|]. apply Hloop. by right.
Qed.

Definition variants_blocks (n v : nat) : list block := in_order n v variant_blocks.

Lemma does_variants n v : (∀ m, good_run (runs W m)) → (per_fs = true → ∀ v, good_fs v) →
  does (variant_loop T iterations W n v) (variants_blocks n v).
Proof.
  intros Hg Hf. revert v. induction n as [|n IH]; intros v; cbn [variant_loop]; [apply does_ret|].
  change (variants_blocks (S n) v) with (variant_blocks v ++ variants_blocks n (S v)).
  apply does_round; [|apply IH]. unfold variant_blocks. fold per_fs. destruct per_fs; [apply does_per_fs; [done|by apply Hf]|by apply does_fork].
Qed.
End Complete.

(** ** Test functions without a result *)

(** A function that gives no sign: at most TINFO and TDEBUG messages. *)
Definition silent (body : list act) : Prop := Forall (λ t, t = TINFO ∨ t = TDEBUG) (all_reports body).

Lemma main_brk_calm me cl s :
  calm s → main_pid s = me → lib_pid s ≠ me → Forall plain cl → short (reports s ++ TBROK :: all_reports cl) →
  ∃ s', main_brk me cl TBROK s = (s', Some (Exited 0)) ∧ reports s' = reports s ++ TBROK :: all_reports cl ∧ abort_flag s' = 1.
Proof.
  intros Hs Hm Hne Hcl Hl. change (TBROK :: all_reports cl) with ([TBROK] ++ all_reports cl) in *. rewrite app_assoc in Hl.
  destruct (yields_report (E := status) TBROK s Hs (short_prefix _ _ Hl)) as (s1 & [= E1] & C1 & R1 & D1).
  destruct (yields_exec (λ t, step (tst_cvres t)) me cl Hcl s1 C1) as (s2 & E2 & C2 & R2 & D2).
  { by rewrite R1. }
  unfold main_brk, tst_vbrk_. change (TTYPE_RESULT TBROK) with TBROK. cbn [lib_pid printed].
  rewrite (proj2 (Z.eqb_neq (lib_pid s) 0) (proj1 Hs)).
  change (update_results TBROK (printed TBROK s)) with (tst_vres_ TBROK s). rewrite E1.
  destruct D1 as (_ & M1 & L1), D2 as (_ & M2 & L2). rewrite M1, Hm, Z.eqb_refl. unfold do_test_cleanup. rewrite E2, L2, L1.
  rewrite (proj2 (Z.eqb_neq me (lib_pid s))) by done. cbn [Z.eqb Pos.eqb TBROK].
  change (main_pid (inc_abort s2)) with (main_pid s2). rewrite M2, M1, Hm, Z.eqb_refl, andb_false_r.
  exists (inc_abort s2). split_and!; [done|cbn; by rewrite R2, R1, <- app_assoc|]. cbn. by rewrite (proj1 (proj2 (proj2 C2))).
Qed.

Section Silent.
Context (me : Z) (cl : list act) (Hcl : Forall plain cl).

(** What a piece does that breaks the test after the reports [x]. *)
Definition breaks (p : prog status) (x : list Z) : Prop := ∀ s,
  calm s → main_pid s = me → lib_pid s ≠ me → short (reports s ++ x ++ TBROK :: all_reports cl) →
  ∃ s', p s = (s', Some (Exited 0)) ∧ reports s' = reports s ++ x ++ TBROK :: all_reports cl ∧ abort_flag s' = 1.

Lemma breaks_test body : Forall plain body → silent body → breaks (run_test (main_brk me cl) me body) (all_reports body).
Proof.
  intros Hp Hi s Hs Hm Hne Hl. rewrite app_assoc in Hl. unfold run_test.
  destruct (yields_andthen _ _ _ _ (yields_exec (main_brk me cl) me body Hp) (yields_reap (main_brk me cl)) s Hs) as (s1 & E1 & C1 & R1 & D1).
  { rewrite app_nil_r. by eapply short_prefix. }
  rewrite app_nil_r in R1. unfold andthen in *. destruct (exec (main_brk me cl) me body s) as [s0 [e|]]; [done|].
  rewrite E1. rewrite (results_equal_iff s s1 _ ltac:(apply Hs) ltac:(apply C1) R1) by (rewrite R1; by eapply short_prefix).
  rewrite bool_decide_true.
  - destruct D1 as (_ & M1 & L1). destruct (main_brk_calm me cl s1 C1) as (s2 & E2 & R2 & A2); [congruence|congruence|done|by rewrite R1|].
    exists s2. by rewrite R2, R1, <- app_assoc.
  - eapply Forall_impl; [exact Hi|]. by intros t [->| ->] [?|[?|[?|?]]].
Qed.

Lemma breaks_after p q x y : yields p x → breaks q y → breaks (p ;> q) (x ++ y).
Proof.
  intros Hp Hq s Hs Hm Hne Hl. rewrite <- app_assoc, app_assoc in Hl.
  destruct (Hp s Hs (short_prefix _ _ Hl)) as (s1 & E1 & C1 & R1 & D1). destruct D1 as (_ & M1 & L1).
  destruct (Hq s1 C1) as (s2 & E2 & R2 & A2); [congruence|congruence|by rewrite R1|].
  exists s2. unfold andthen. rewrite E1, E2, R2, R1, <- !app_assoc. by split_and!.
Qed.

Lemma breaks_then p q x : breaks p x → breaks (p ;> q) x.
Proof. intros Hp s Hs Hm Hne Hl. destruct (Hp s Hs Hm Hne Hl) as (s' & E & H). exists s'. unfold andthen. by rewrite E. Qed.

(** The first [j] functions report, function [j] does not. *)
Lemma breaks_loop body n i j :
  (∀ k, (i ≤ k < i + j)%nat → Forall plain (body k) ∧ informs (body k)) → (j < n)%nat →
  Forall plain (body (i + j)%nat) → silent (body (i + j)%nat) →
  breaks (run_loop (main_brk me cl) me body n i) (in_order (S j) i (λ k, all_reports (body k))).
Proof.
  revert n i. induction j as [|j IH]; intros n i Hb Hn Hp Hi; (destruct n as [|n]; [lia|]); cbn [run_loop].
  - rewrite Nat.add_0_r in *. unfold in_order. cbn. rewrite app_nil_r. by apply breaks_then, breaks_test.
  - change (in_order (S (S j)) i ?f) with (f i ++ in_order (S j) (S i) f). destruct (Hb i) as [Hp0 Hi0]; [lia|].
    replace (i + S j)%nat with (S i + j)%nat in * by lia. apply breaks_after; [by apply yields_run_test|].
    apply IH; [|lia|done|done]. intros k Hk. apply Hb. lia.
Qed.
End Silent.

(** ** A test that broke *)

Lemma lib_res_abort t s : abort_flag (lib_res t s).1 = abort_flag s ∧ ended (lib_res t s).1 = ended s ∧ (lib_res t s).2 = None.
Proof. unfold lib_res, tst_res_, tst_vres_, update_results. cbn. repeat case_match; done. Qed.

Lemma lib_exit_some W r s : ∃ c, (lib_exit W (DoExit r) s).2 = Some c.
Proof. cbn. destruct (do_exit (cleanups W) r s). by eexists. Qed.

Lemma lib_exit_ended W r s : lib_pid s ≠ 0 → ended (lib_exit W (DoExit r) s).1 = ended s ∧ ∃ x, reports (lib_exit W (DoExit r) s).1 = reports s ++ x.
Proof. intros Hl. destruct (acc_lib_exit W (DoExit r) s Hl) as (? & [_ ?] & _). done. Qed.

Lemma after_abort T W r st s :
  lib_pid s ≠ 0 → TBROK ∈ reports s → abort_flag s ≠ 0 →
  ∃ s' c, (after_run T W r st ;> exit_if_aborted W) s = (s', Some c) ∧ ended s' = ended s ∧ TBROK ∈ reports s'.
Proof.
  intros Hl Hb Hab.
  assert (∀ r s1, lib_pid s1 ≠ 0 → ended s1 = ended s → TBROK ∈ reports s1 →
    ∃ s' c, lib_exit W (DoExit r) s1 = (s', Some c) ∧ ended s' = ended s ∧ TBROK ∈ reports s') as Hexit.
  { intros r1 s1 L D B. destruct (lib_exit_some W r1 s1) as [c Hc]. destruct (lib_exit_ended W r1 s1 L) as [E [x X]].
    destruct (lib_exit W (DoExit r1) s1) as [s2 e]. cbn [fst snd] in *. subst e. exists s2, c.
    split_and!; [done|congruence|]. rewrite X, elem_of_app. by left. }
  assert (∀ s1, acc s s1 → abort_flag s1 = abort_flag s → ∃ s' c, exit_if_aborted W s1 = (s', Some c) ∧ ended s' = ended s ∧ TBROK ∈ reports s') as Hif.
  { intros s1 ((x & X) & [L D] & _) Ha. unfold exit_if_aborted. rewrite Ha, (proj2 (Z.eqb_neq _ _) Hab). cbn [negb].
    apply Hexit; [congruence|done|]. rewrite X, elem_of_app. by left. }
  unfold andthen at 1. unfold after_run. destruct (taint_check T && _).
  { destruct (lib_res_abort TFAIL s) as (A & _). unfold lib_res in *. apply Hif; [apply acc_res|done]. }
  assert (∃ s1, (if forks_child T && run_leftover r then lib_res TINFO else λ s, (s, None)) s = (s1, None) ∧ acc s s1 ∧ abort_flag s1 = abort_flag s)
    as (s1 & Es & Ha & Hf).
  { case_match; eexists; (split; [done|]); [|done]. split; [apply acc_res|apply (lib_res_abort TINFO s)]. }
  unfold andthen. rewrite Es. assert (lib_pid s1 ≠ 0) as Hl1 by (by rewrite (proj1 (proj1 (proj2 Ha)))).
  destruct st as [code|sig].
  - destruct (negb (code =? 0)); [|by apply Hif]. rewrite lib_brk_eq by done.
    destruct (Hexit TBROK (update_results TBROK (printed TBROK s1))) as (s2 & c & E & H).
    + by rewrite (proj1 (proj1 (proj2 (acc_report TBROK s1)))).
    + by rewrite (proj2 (proj1 (proj2 (acc_report TBROK s1)))), (proj2 (proj1 (proj2 Ha))).
    + rewrite reported, elem_of_app, list_elem_of_singleton. by right.
    + exists s2, c. by rewrite E.
  - rewrite Hf, (proj2 (Z.eqb_neq _ _) Hab). cbn [negb]. by apply Hif.
Qed.

(** ** The properties *)

(** C2. The exit code is what was reported before the last cleanup of the
    library: whatever the code of the test, its children, the helpers of the
    library and the kernel do, the reports are [x ++ lib_reports acts], where
    [acts] are the events of the call of [do_cleanup] that returned, if any,
    and the exit code has the bit of TFAIL, TBROK or TWARN exactly when [x]
    has such a result, and the bit of TCONF exactly when [x] has a TCONF and no
    TPASS.  When the cleanups of the library report at most TINFO, this is so
    for all reports. *)
Theorem tst_run_exit_code (T : tst_test) (iterations : nat) (W : world) (pid : Z) (s : ipc) (c : Z) :
  pid ≠ 0 → tst_run_tcases T iterations W (setup_ipc pid) = (s, c) → short (reports s) →
  (∃ x acts, reports s = x ++ lib_reports acts ∧ c = exit_code x ∧ Forall goes_on acts ∧ (acts = [] ∨ acts ∈ cleanups W)) ∧
  (Forall (λ acts, Forall (λ t, t = TINFO) (lib_reports acts)) (cleanups W) → c = exit_code (reports s)).
Proof.
  intros Hp E Hl. destruct (run_tcases_sound W T iterations pid s c Hp E Hl) as [Hs _]. split; [exact Hs|].
  destruct Hs as (x & acts & -> & -> & _ & Hin). intros Hq. symmetry. apply exit_code_info.
  destruct Hin as [->|Hin]; [constructor|]. by eapply Forall_forall in Hq.
Qed.

(** C1. Success is not claimed too easily: when the exit code is 0, then before
    the last cleanup of the library no process reported TFAIL, TBROK or TWARN
    and a TCONF came with a TPASS; and every test process exited with 0: none
    was killed by a signal, ran into the timeout or exited with another
    code. *)
Theorem tst_run_success (T : tst_test) (iterations : nat) (W : world) (pid : Z) (s : ipc) :
  pid ≠ 0 → tst_run_tcases T iterations W (setup_ipc pid) = (s, 0) → short (reports s) →
  (∃ x acts, reports s = x ++ lib_reports acts ∧ (acts = [] ∨ acts ∈ cleanups W) ∧
    (TFAIL ∉ x) ∧ (TBROK ∉ x) ∧ (TWARN ∉ x) ∧ (TCONF ∈ x → TPASS ∈ x)) ∧
  ∀ st, st ∈ ended s → st = Exited 0.
Proof.
  intros Hp E Hl. destruct (run_tcases_sound W T iterations pid s 0 Hp E Hl) as [(x & acts & Hx & Hc & _ & Hin) He].
  split; [|by apply He]. exists x, acts. split_and!; [done|done|by apply exit_code_0..].
Qed.


(** C38. A test function that reports nothing breaks the test: when the
    functions before number [j] (of the [tcnt] functions, or of the one
    function [test_all]) report results and function [j] returns with at most
    TINFO and TDEBUG messages, then after its messages come TBROK and the
    messages of the cleanup and nothing else, so no function after it is run;
    the test process exits and the abort flag, which ends the test, is
    raised. *)
Theorem run_tests_silent (T : tst_test) (me : Z) (cleanup : list act) (body : nat → list act) (j : nat) (s : ipc) :
  (j < tests_of T)%nat → (∀ k, (k < j)%nat → Forall plain (body k) ∧ informs (body k)) →
  Forall plain (body j) → silent (body j) → Forall plain cleanup → calm s → main_pid s = me → lib_pid s ≠ me →
  let expected := in_order (S j) 0 (λ k, all_reports (body k)) ++ TBROK :: all_reports cleanup in
  short (reports s ++ expected) →
  ∃ s', run_tests T (main_brk me cleanup) me body s = (s', Some (Exited 0)) ∧
    reports s' = reports s ++ expected ∧ abort_flag s' = 1.
Proof.
  intros Hj Hb Hp Hi Hcl Hs Hm Hne expected Hl. unfold run_tests, tests_of in *. destruct (has_test T); cbn [negb].
  - apply (breaks_loop me cleanup Hcl body (tcnt T) 0 j); try done. intros k Hk. apply Hb. lia.
  - assert (j = 0%nat) as -> by lia. unfold expected, in_order in *. cbn [seq fmap list_fmap concat] in *. rewrite app_nil_r in *.
    by apply (breaks_test me cleanup Hcl (body 0%nat)).
Qed.

(** A broken test is not continued: when a test process raised the abort
    flag, the library process exits before it forks another one, however many
    variants are left, and TBROK is among the reports. *)
Theorem tst_run_abort_stops (T : tst_test) (iterations : nat) (W : world) (s s1 : ipc) (st : status) :
  good s → run_forked (runs W (length (ended s))) = true →
  testrun T iterations (runs W (length (ended s))) s = (s1, st) → abort_flag s1 ≠ 0 → per_fs T = false →
  ∀ n v, ∃ s' c, variant_loop T iterations W (S n) v s = (s', Some c) ∧ ended s' = ended s ++ [st] ∧ TBROK ∈ reports s'.
Proof.
  intros (Hl & Hc & Hn) Hfk E Hab Hf n v. cbn [variant_loop]. unfold per_fs in Hf. rewrite Hf.
  rewrite andthen_assoc. unfold andthen at 1 2. rewrite fork_testrun_eq. cbn zeta. rewrite Hfk. cbn [negb]. rewrite E.
  pose proof (testrun_acc T iterations (runs W (length (ended s))) s Hl) as ((x & Hx) & [L D] & C). rewrite E in *. cbn [fst] in *.
  destruct (after_abort T W (runs W (length (ended s))) st (add_ended st (set_zombies [] s1))) as (s' & c & E' & D' & B).
  - cbn. congruence.
  - cbn. destruct (C Hl 0 Hc) as [_ _ _ _ _ (m & Hn1 & Hn2)]. apply cnt_In. destruct (decide (m = 0)) as [->|]; [|lia]. by cbn in Hn1.
  - done.
  - exists s', c. unfold andthen in E'. rewrite E'. cbn in D'. by rewrite D', D.
Qed.

(** ** Witnesses *)

Definition demo_test : tst_test := mk_test true 2 2 false None false true.

(** Two variants; function 1 reports what its child found. *)
Definition demo_run (last : Z) (n : nat) : tst_run :=
  mk_run true (100 + Z.of_nat n) None [Res TINFO]
    (λ i j, match j with O => [Res TPASS] | _ => [ChildRes 200 last; ChildEnd (Exited 0)] end)
    [Res TINFO] [] false false.

(** Two supported file systems, the second of which is skipped. *)
Definition demo_world (last : Z) (cl : list (list lib_act)) : world :=
  mk_world [LRes TINFO] (demo_run last) (λ _, ([LRes TINFO], [str "ext4"; str "xfs"]))
    (λ _ i, match i with O => ([], true) | _ => ([LRes TCONF], false) end) (λ _ _, [TINFO]) cl.

(** The same test for all file systems, in one variant. *)
Definition demo_fs_test : tst_test := mk_test true 2 0 true None false true.

Lemma short_decide rs : bool_decide (short rs) = true → short rs.
Proof. apply bool_decide_eq_true_1. Qed.

Lemma tst_run_exit_code_witness :
  (tst_run_tcases demo_test 1 (demo_world TFAIL [[LRes TINFO]]) (setup_ipc 10)).2 = TFAIL.
Proof.
  refine (eq_trans (proj2 (tst_run_exit_code demo_test 1 (demo_world TFAIL [[LRes TINFO]]) 10
    (tst_run_tcases demo_test 1 (demo_world TFAIL [[LRes TINFO]]) (setup_ipc 10)).1 _ _ _ _) _) _).
  - done.
  - vm_compute. reflexivity.
  - apply short_decide. vm_compute. reflexivity.
  - repeat constructor.
  - vm_compute. reflexivity.
Defined.

Lemma tst_run_success_witness :
  let s := (tst_run_tcases demo_test 1 (demo_world TCONF []) (setup_ipc 10)).1 in
  TCONF ∈ reports s ∧ ∀ st, st ∈ ended s → st = Exited 0.
Proof.
  destruct (tst_run_success demo_test 1 (demo_world TCONF []) 10
    (tst_run_tcases demo_test 1 (demo_world TCONF []) (setup_ipc 10)).1) as (_ & H5).
  - done.
  - vm_compute. reflexivity.
  - apply short_decide. vm_compute. reflexivity.
  - split; [|exact H5]. apply cnt_In. vm_compute. reflexivity.
Defined.

(** A warning of the cleanup of the library is printed but is lost: the exit
    code says that the test passed. *)
Example cleanup_warning_lost :
  let '(s, c) := tst_run_tcases demo_test 1 (demo_world TPASS [[LRes TWARN]]) (setup_ipc 10) in
  c = 0 ∧ last (reports s) = Some TWARN ∧ warnings (res s) = 1.
Proof. vm_compute. by split_and!. Qed.

(** A [tst_brk] in there is not lost: [do_exit] starts again. *)
Example cleanup_break_counts :
  (tst_run_tcases demo_test 1 (demo_world TPASS [[LBrk BrkBrok]; []]) (setup_ipc 10)).2 = TBROK.
Proof. by vm_compute. Qed.

Lemma demo_good T m : tests_of T = 2%nat → taint_check T = false → good_run T (demo_run TPASS m).
Proof.
  intros Ht Hc. split_and!; try done; try by repeat constructor.
  - intros i j Hj. split; destruct j; repeat constructor.
  - by rewrite Hc.
Qed.


Lemma run_tests_silent_witness :
  ∃ s', run_tests demo_test (main_brk 100 [Res TINFO]) 100 (λ j, match j with O => [Res TPASS] | _ => [Res TINFO] end)
      (set_main_pid 100 (setup_ipc 10)) = (s', Some (Exited 0)) ∧
    reports s' = [TPASS; TINFO; TBROK; TINFO] ∧ abort_flag s' = 1.
Proof.
  apply (run_tests_silent demo_test 100 [Res TINFO] (λ j, match j with O => [Res TPASS] | _ => [Res TINFO] end) 1 (set_main_pid 100 (setup_ipc 10))).
  - vm_compute. lia.
  - intros k Hk. destruct k; [|lia]. split; repeat constructor.
  - repeat constructor.
  - repeat constructor.
  - repeat constructor.
  - destruct (good_setup 10) as (? & [] & _); [done|]. by split_and!.
  - done.
  - done.
  - apply short_decide. vm_compute. reflexivity.
Defined.

(** Warnings do not count as results: a function that only warns is said to
    have reported nothing. *)
Example warning_is_silent :
  ∃ s', run_tests demo_test (main_brk 100 []) 100 (λ _, [Res TWARN]) (set_main_pid 100 (setup_ipc 10)) = (s', Some (Exited 0)) ∧
    reports s' = [TWARN; TBROK].
Proof. eexists. by vm_compute. Qed.

Lemma tst_run_abort_stops_witness :
  let W := mk_world [] (λ n, mk_run true (100 + Z.of_nat n) None [Brk TBROK] (λ _ _, []) [] [] false false) (λ _, ([], []))
    (λ _ _, ([], true)) (λ _ _, []) [] in
  ∃ s' c, variant_loop demo_test 1 W 5 0 (setup_ipc 10) = (s', Some c) ∧ ended s' = [Exited 0] ∧ TBROK ∈ reports s'.
Proof.
  set (W := mk_world _ _ _ _ _ _).
  apply (tst_run_abort_stops demo_test 1 W (setup_ipc 10) (testrun demo_test 1 (runs W 0) (setup_ipc 10)).1 (Exited 0)).
  - by apply good_setup.
  - reflexivity.
  - vm_compute. reflexivity.
  - vm_compute. done.
  - reflexivity.
Defined.
