(* ===== verification/TstTimer.v ===== *)
(** * Time arithmetic (include/tst_timer.h, lib/tst_timer.c, lib/tst_wallclock.c)

    [struct tst_ts] holds a time in one of three layouts.  On the 64-bit
    targets modelled here all of them are two 64-bit numbers, so the union is
    one pair of numbers that is read and written through the type tag.  A
    [long long] is a Z that is wrapped around when it is stored; divisions
    truncate towards zero. *)

From S2P Require Import Prelude.
Open Scope Z_scope.

Definition ll (z : Z) : Z := wraps 64 z.

(** ** struct timeval *)

Record timeval := mk_tv { tv_sec : Z; tv_usec : Z }.

Definition tst_timeval_to_us (t : timeval) : Z := ll (tv_sec t * 1000000 + tv_usec t).
Definition tst_timeval_to_ms (t : timeval) : Z := ll (tv_sec t * 1000 + (tv_usec t + 500) ÷ 1000).
Definition tst_ms_to_timeval (ms : Z) : timeval := mk_tv (ms ÷ 1000) (Z.rem ms 1000 * 1000).
Definition tst_us_to_timeval (us : Z) : timeval := mk_tv (us ÷ 1000000) (Z.rem us 1000000).

Definition tst_timeval_diff (t1 t2 : timeval) : timeval :=
  if tv_usec t1 <? tv_usec t2
  then mk_tv (ll (tv_sec t1 - tv_sec t2 - 1)) (1000000 - (tv_usec t2 - tv_usec t1))
  else mk_tv (ll (tv_sec t1 - tv_sec t2)) (tv_usec t1 - tv_usec t2).

Definition tst_timeval_diff_us (t1 t2 : timeval) : Z := tst_timeval_to_us (tst_timeval_diff t1 t2).
Definition tst_timeval_diff_ms (t1 t2 : timeval) : Z := tst_timeval_to_ms (tst_timeval_diff t1 t2).

(** ** struct tst_ts *)

Record timespec := mk_timespec { ts_sec : Z; ts_nsec : Z }.

Inductive tst_ts_type := TST_LIBC_TIMESPEC | TST_KERN_OLD_TIMESPEC | TST_KERN_TIMESPEC.

Record tst_ts := mk_ts { ts_type : tst_ts_type; ts : timespec }.

Definition tst_ts_get_sec (t : tst_ts) : Z := ts_sec (ts t).
Definition tst_ts_get_nsec (t : tst_ts) : Z := ts_nsec (ts t).
Definition tst_ts_set_sec (sec : Z) (t : tst_ts) : tst_ts := mk_ts (ts_type t) (mk_timespec (ll sec) (ts_nsec (ts t))).
Definition tst_ts_set_nsec (nsec : Z) (t : tst_ts) : tst_ts := mk_ts (ts_type t) (mk_timespec (ts_sec (ts t)) (ll nsec)).

(** [struct tst_ts res = {.type = type};] *)
Definition ts_zero (ty : tst_ts_type) : tst_ts := mk_ts ty (mk_timespec 0 0).

Definition tst_ts_valid (t : tst_ts) : Z :=
  let nsec := tst_ts_get_nsec t in
  if (nsec <? 0) || (1000000000 <=? nsec) then -2
  else if (tst_ts_get_sec t =? 0) && (tst_ts_get_nsec t =? 0) then -1
  else 0.

Definition tst_ts_from_timespec (t : timespec) : tst_ts := mk_ts TST_LIBC_TIMESPEC t.
Definition tst_ts_to_timespec (t : tst_ts) : timespec := ts t.

Definition tst_ts_to_ns (t : tst_ts) : Z := ll (tst_ts_get_sec t * 1000000000 + tst_ts_get_nsec t).
Definition tst_ts_to_us (t : tst_ts) : Z := ll (tst_ts_get_sec t * 1000000 + (tst_ts_get_nsec t + 500) ÷ 1000).
Definition tst_timespec_to_us (t : timespec) : Z := tst_ts_to_us (tst_ts_from_timespec t).
Definition tst_ts_to_ms (t : tst_ts) : Z := ll (tst_ts_get_sec t * 1000 + (tst_ts_get_nsec t + 500000) ÷ 1000000).
Definition tst_timespec_to_ms (t : timespec) : Z := tst_ts_to_ms (tst_ts_from_timespec t).

Definition tst_ts_from_ns (ty : tst_ts_type) (ns : Z) : tst_ts :=
  tst_ts_set_nsec (Z.rem ns 1000000000) (tst_ts_set_sec (ns ÷ 1000000000) (ts_zero ty)).
Definition tst_ts_from_us (ty : tst_ts_type) (us : Z) : tst_ts :=
  tst_ts_set_nsec (Z.rem us 1000000 * 1000) (tst_ts_set_sec (us ÷ 1000000) (ts_zero ty)).
Definition tst_timespec_from_us (us : Z) : timespec := tst_ts_to_timespec (tst_ts_from_us TST_LIBC_TIMESPEC us).
Definition tst_ts_from_ms (ty : tst_ts_type) (ms : Z) : tst_ts :=
  tst_ts_set_nsec (Z.rem ms 1000 * 1000000) (tst_ts_set_sec (ms ÷ 1000) (ts_zero ty)).
Definition tst_timespec_from_ms (ms : Z) : timespec := tst_ts_to_timespec (tst_ts_from_ms TST_LIBC_TIMESPEC ms).

Definition tst_ts_lt (t1 t2 : tst_ts) : bool :=
  if tst_ts_get_sec t1 =? tst_ts_get_sec t2 then tst_ts_get_nsec t1 <? tst_ts_get_nsec t2
  else tst_ts_get_sec t1 <? tst_ts_get_sec t2.
Definition tst_timespec_lt (t1 t2 : timespec) : bool := tst_ts_lt (tst_ts_from_timespec t1) (tst_ts_from_timespec t2).

Definition tst_ts_normalize (t : tst_ts) : tst_ts :=
  let sec := tst_ts_get_sec t in
  let nsec := tst_ts_get_nsec t in
  let t := if 1000000000 <=? nsec then tst_ts_set_nsec (nsec - 1000000000) (tst_ts_set_sec (sec + 1) t) else t in
  if nsec <? 0 then tst_ts_set_nsec (nsec + 1000000000) (tst_ts_set_sec (sec - 1) t) else t.

Definition tst_ts_add_us (t : tst_ts) (us : Z) : tst_ts :=
  tst_ts_normalize (tst_ts_set_nsec (tst_ts_get_nsec t + Z.rem us 1000000 * 1000)
    (tst_ts_set_sec (tst_ts_get_sec t + us ÷ 1000000) (ts_zero (ts_type t)))).
Definition tst_timespec_add_us (t : timespec) (us : Z) : timespec :=
  tst_ts_to_timespec (tst_ts_add_us (tst_ts_from_timespec t) us).

Definition tst_ts_sub_us (t : tst_ts) (us : Z) : tst_ts :=
  tst_ts_normalize (tst_ts_set_nsec (tst_ts_get_nsec t - Z.rem us 1000000 * 1000)
    (tst_ts_set_sec (tst_ts_get_sec t - us ÷ 1000000) (ts_zero (ts_type t)))).
Definition tst_timespec_sub_us (t : timespec) (us : Z) : timespec :=
  tst_ts_to_timespec (tst_ts_sub_us (tst_ts_from_timespec t) us).

Definition tst_ts_add (t1 t2 : tst_ts) : tst_ts :=
  tst_ts_normalize (tst_ts_set_nsec (tst_ts_get_nsec t1 + tst_ts_get_nsec t2)
    (tst_ts_set_sec (tst_ts_get_sec t1 + tst_ts_get_sec t2) (ts_zero (ts_type t1)))).
Definition tst_timespec_add (t1 t2 : timespec) : timespec :=
  tst_ts_to_timespec (tst_ts_add (tst_ts_from_timespec t1) (tst_ts_from_timespec t2)).

Definition tst_ts_diff (t1 t2 : tst_ts) : tst_ts :=
  tst_ts_normalize (tst_ts_set_nsec (tst_ts_get_nsec t1 - tst_ts_get_nsec t2)
    (tst_ts_set_sec (tst_ts_get_sec t1 - tst_ts_get_sec t2) (ts_zero (ts_type t1)))).
Definition tst_timespec_diff (t1 t2 : timespec) : timespec :=
  tst_ts_to_timespec (tst_ts_diff (tst_ts_from_timespec t1) (tst_ts_from_timespec t2)).

Definition tst_ts_diff_ns (t1 t2 : tst_ts) : Z := tst_ts_to_ns (tst_ts_diff t1 t2).
Definition tst_timespec_diff_ns (t1 t2 : timespec) : Z := tst_ts_diff_ns (tst_ts_from_timespec t1) (tst_ts_from_timespec t2).
Definition tst_ts_diff_us (t1 t2 : tst_ts) : Z := tst_ts_to_us (tst_ts_diff t1 t2).
Definition tst_timespec_diff_us (t1 t2 : timespec) : Z := tst_ts_diff_us (tst_ts_from_timespec t1) (tst_ts_from_timespec t2).
Definition tst_ts_diff_ms (t1 t2 : tst_ts) : Z := tst_ts_to_ms (tst_ts_diff t1 t2).
Definition tst_timespec_diff_ms (t1 t2 : timespec) : Z := tst_ts_diff_ms (tst_ts_from_timespec t1) (tst_ts_from_timespec t2).

Definition tst_ts_abs_diff (t1 t2 : tst_ts) : tst_ts :=
  if tst_ts_lt t1 t2 then tst_ts_diff t2 t1 else tst_ts_diff t1 t2.
Definition tst_ts_abs_diff_us (t1 t2 : tst_ts) : Z := tst_ts_to_us (tst_ts_abs_diff t1 t2).
Definition tst_timespec_abs_diff_us (t1 t2 : timespec) : Z :=
  tst_ts_abs_diff_us (tst_ts_from_timespec t1) (tst_ts_from_timespec t2).
Definition tst_ts_abs_diff_ms (t1 t2 : tst_ts) : Z := tst_ts_to_ms (tst_ts_abs_diff t1 t2).

(** ** struct tst_its: interval and value of a timer, not in the libc layout *)

Record tst_its := mk_its { its_type : tst_ts_type; it_interval : timespec; it_value : timespec }.

Definition its_ok {A} (t : tst_its) (k : cres A) : cres A :=
  match its_type t with
  | TST_LIBC_TIMESPEC => CBrk TBROK (str "Invalid type: 0")
  | _ => k
  end.

Definition tst_its_get_interval_sec (t : tst_its) : cres Z := its_ok t (CRet (ts_sec (it_interval t))).
Definition tst_its_get_interval_nsec (t : tst_its) : cres Z := its_ok t (CRet (ts_nsec (it_interval t))).
Definition tst_its_get_value_sec (t : tst_its) : cres Z := its_ok t (CRet (ts_sec (it_value t))).
Definition tst_its_get_value_nsec (t : tst_its) : cres Z := its_ok t (CRet (ts_nsec (it_value t))).

Definition tst_its_set_interval_sec (t : tst_its) (sec : Z) : cres tst_its :=
  its_ok t (CRet (mk_its (its_type t) (mk_timespec (ll sec) (ts_nsec (it_interval t))) (it_value t))).
Definition tst_its_set_interval_nsec (t : tst_its) (nsec : Z) : cres tst_its :=
  its_ok t (CRet (mk_its (its_type t) (mk_timespec (ts_sec (it_interval t)) (ll nsec)) (it_value t))).
Definition tst_its_set_value_sec (t : tst_its) (sec : Z) : cres tst_its :=
  its_ok t (CRet (mk_its (its_type t) (it_interval t) (mk_timespec (ll sec) (ts_nsec (it_value t))))).
Definition tst_its_set_value_nsec (t : tst_its) (nsec : Z) : cres tst_its :=
  its_ok t (CRet (mk_its (its_type t) (it_interval t) (mk_timespec (ts_sec (it_value t)) (ll nsec)))).

Definition tst_its_set_interval_from_us (t : tst_its) (usec : Z) : cres tst_its :=
  let tp := tst_timespec_from_us usec in
  t ← tst_its_set_interval_sec t (ts_sec tp); tst_its_set_interval_nsec t (ts_nsec tp).
Definition tst_its_set_value_from_us (t : tst_its) (usec : Z) : cres tst_its :=
  let tp := tst_timespec_from_us usec in
  t ← tst_its_set_value_sec t (ts_sec tp); tst_its_set_value_nsec t (ts_nsec tp).
Definition tst_its_set_interval_from_ts (t : tst_its) (x : tst_ts) : cres tst_its :=
  t ← tst_its_set_interval_sec t (tst_ts_get_sec x); tst_its_set_interval_nsec t (tst_ts_get_nsec x).
Definition tst_its_set_value_from_ts (t : tst_its) (x : tst_ts) : cres tst_its :=
  t ← tst_its_set_value_sec t (tst_ts_get_sec x); tst_its_set_value_nsec t (tst_ts_get_nsec x).

(** ** lib/tst_timer.c *)

Record timer := mk_timer { start_time : timespec; stop_time : timespec; clock_id : Z }.

Definition EINVAL := 22.

(** [now] is what the clock says, or errno. *)
Definition tst_timer_check (now : timespec + Z) (t : timer) : cres timer :=
  match now with
  | inl now => CRet (mk_timer now (stop_time t) (clock_id t))
  | inr errno => if errno =? EINVAL then CBrk TCONF (str "Clock id not supported by kernel")
                 else CBrk (Z.lor TBROK TERRNO) (str "tst_clock_gettime() failed")
  end.

Definition gettime_warning : Z * list Z := (Z.lor TWARN TERRNO, str "tst_clock_gettime() failed").

Definition tst_timer_start (clk : Z) (now : option timespec) (t : timer) : timer * log :=
  match now with
  | Some now => (mk_timer now (stop_time t) clk, [])
  | None => (mk_timer (start_time t) (stop_time t) clk, [gettime_warning])
  end.

(** Without a time [cur_time] is not initialised. *)
Definition tst_timer_expired_ms (ms : Z) (now : option timespec) (t : timer) : option bool :=
  now ← now; Some (ms <=? tst_timespec_diff_ms now (start_time t)).

Definition tst_timer_stop (now : option timespec) (t : timer) : timer * log :=
  match now with
  | Some now => (mk_timer (start_time t) now (clock_id t), [])
  | None => (t, [gettime_warning])
  end.

Definition tst_timer_elapsed (t : timer) : timespec := tst_timespec_diff (stop_time t) (start_time t).
Definition tst_timer_elapsed_ms (t : timer) : Z := tst_timespec_to_ms (tst_timer_elapsed t).
Definition tst_timer_elapsed_us (t : timer) : Z := tst_timespec_to_us (tst_timer_elapsed t).

(** ** lib/tst_wallclock.c *)

Record wallclock := mk_wallclock { real_begin : timespec; mono_begin : timespec; clock_saved : bool }.

Definition tst_wallclock_save (real : option timespec) (mono : timespec + Z) : cres wallclock :=
  match real with
  | None => CBrk (Z.lor TBROK TERRNO) (str "tst_clock_gettime() realtime failed")
  | Some real =>
      match mono with
      | inl mono => CRet (mk_wallclock real mono true)
      | inr errno => if errno =? EINVAL
                     then CBrk (Z.lor TCONF TERRNO) (str "tst_clock_gettime() didn't support CLOCK_MONOTONIC_RAW")
                     else CBrk (Z.lor TBROK TERRNO) (str "tst_clock_gettime() monotonic failed")
      end
  end.

(** The new state and the time the clock is set to; [mono_end] and [set_ok]
    are the results of the two calls. *)
Definition tst_wallclock_restore (mono_end : option timespec) (set_ok : bool) (w : wallclock)
    : cres (wallclock * option timespec) :=
  if negb (clock_saved w) then CRet (w, None) else
  let w := mk_wallclock (real_begin w) (mono_begin w) false in
  match mono_end with
  | None => CBrk (Z.lor TBROK TERRNO) (str "tst_clock_gettime() monotonic failed")
  | Some mono_end =>
      let elapsed := tst_timespec_diff mono_end (mono_begin w) in
      let adjust := tst_timespec_add (real_begin w) elapsed in
      if set_ok then CRet (w, Some adjust)
      else CBrk (Z.lor TBROK TERRNO) (str "tst_clock_settime() realtime failed")
  end.

(** ** Values *)

(** Nanoseconds, the normal form, and times that are far from overflow. *)
Definition ns (t : timespec) : Z := ts_sec t * 1000000000 + ts_nsec t.
Definition normal (t : timespec) : Prop := 0 ≤ ts_nsec t < 1000000000.
Definition modest (t : timespec) : Prop := - 2 ^ 61 ≤ ts_sec t ≤ 2 ^ 61.

Lemma ll_id z : - 2 ^ 63 ≤ z < 2 ^ 63 → ll z = z.
Proof. intros H. unfold ll. apply wraps_small; [lia|]. by change (64 - 1) with 63. Qed.

(** [tst_ts_normalize] settles one second in either direction. *)
Lemma normalize_spec ty s n :
  - 2 ^ 63 < s < 2 ^ 63 - 1 → -1000000000 ≤ n < 2000000000 →
  let r := tst_ts_normalize (tst_ts_set_nsec n (tst_ts_set_sec s (ts_zero ty))) in
  ts_type r = ty ∧ normal (ts r) ∧ ns (ts r) = s * 1000000000 + n.
Proof.
  intros Hs Hn. unfold tst_ts_normalize, tst_ts_set_sec, tst_ts_set_nsec, tst_ts_get_sec, tst_ts_get_nsec. cbn.
  rewrite (ll_id s), (ll_id n) by lia. unfold normal, ns.
  zcase; zcase; cbn; rewrite ?ll_id by lia; split_and!; try done; try lia.
Qed.

Lemma add_us_spec t us :
  normal (ts t) → modest (ts t) → - 2 ^ 63 ≤ us < 2 ^ 63 →
  normal (ts (tst_ts_add_us t us)) ∧ ns (ts (tst_ts_add_us t us)) = ns (ts t) + us * 1000.
Proof.
  unfold normal, modest. intros Hn Hm Hu. unfold tst_ts_add_us, tst_ts_get_sec, tst_ts_get_nsec.
  pose proof (Z.quot_rem us 1000000). pose proof (Z.rem_bound_abs us 1000000).
  destruct (normalize_spec (ts_type t) (ts_sec (ts t) + us ÷ 1000000) (ts_nsec (ts t) + Z.rem us 1000000 * 1000)) as (_ & H1 & ->); [lia..|].
  split; [exact H1|]. unfold ns. lia.
Qed.

Lemma sub_us_spec t us :
  normal (ts t) → modest (ts t) → - 2 ^ 63 ≤ us < 2 ^ 63 →
  normal (ts (tst_ts_sub_us t us)) ∧ ns (ts (tst_ts_sub_us t us)) = ns (ts t) - us * 1000.
Proof.
  unfold normal, modest. intros Hn Hm Hu. unfold tst_ts_sub_us, tst_ts_get_sec, tst_ts_get_nsec.
  pose proof (Z.quot_rem us 1000000). pose proof (Z.rem_bound_abs us 1000000).
  destruct (normalize_spec (ts_type t) (ts_sec (ts t) - us ÷ 1000000) (ts_nsec (ts t) - Z.rem us 1000000 * 1000)) as (_ & H1 & ->); [lia..|].
  split; [exact H1|]. unfold ns. lia.
Qed.

Lemma add_spec t1 t2 :
  normal (ts t1) → normal (ts t2) → modest (ts t1) → modest (ts t2) →
  normal (ts (tst_ts_add t1 t2)) ∧ ns (ts (tst_ts_add t1 t2)) = ns (ts t1) + ns (ts t2).
Proof.
  unfold normal, modest. intros Hn1 Hn2 Hm1 Hm2. unfold tst_ts_add, tst_ts_get_sec, tst_ts_get_nsec.
  destruct (normalize_spec (ts_type t1) (ts_sec (ts t1) + ts_sec (ts t2)) (ts_nsec (ts t1) + ts_nsec (ts t2))) as (_ & H1 & ->); [lia..|].
  split; [exact H1|]. unfold ns. lia.
Qed.

Lemma diff_spec t1 t2 :
  normal (ts t1) → normal (ts t2) → modest (ts t1) → modest (ts t2) →
  normal (ts (tst_ts_diff t1 t2)) ∧ ns (ts (tst_ts_diff t1 t2)) = ns (ts t1) - ns (ts t2).
Proof.
  unfold normal, modest. intros Hn1 Hn2 Hm1 Hm2. unfold tst_ts_diff, tst_ts_get_sec, tst_ts_get_nsec.
  destruct (normalize_spec (ts_type t1) (ts_sec (ts t1) - ts_sec (ts t2)) (ts_nsec (ts t1) - ts_nsec (ts t2))) as (_ & H1 & ->); [lia..|].
  split; [exact H1|]. unfold ns. lia.
Qed.

Lemma lt_spec t1 t2 : normal (ts t1) → normal (ts t2) → tst_ts_lt t1 t2 = (ns (ts t1) <? ns (ts t2)).
Proof.
  unfold normal, tst_ts_lt, ns, tst_ts_get_sec, tst_ts_get_nsec. intros H1 H2.
  destruct (Z.eqb_spec (ts_sec (ts t1)) (ts_sec (ts t2))) as [->|Hne].
  - destruct (Z.ltb_spec (ts_nsec (ts t1)) (ts_nsec (ts t2))); symmetry; [apply Z.ltb_lt|apply Z.ltb_ge]; lia.
  - destruct (Z.ltb_spec (ts_sec (ts t1)) (ts_sec (ts t2))); symmetry; [apply Z.ltb_lt|apply Z.ltb_ge]; lia.
Qed.

(** ** The properties *)

(** Arithmetic on normalised times is exact and gives normalised times:
    adding and subtracting microseconds of either sign, adding, subtracting
    and comparing times, and the absolute difference, in nanoseconds. *)
Theorem tst_ts_arithmetic (t1 t2 : tst_ts) (us : Z) :
  normal (ts t1) → normal (ts t2) → modest (ts t1) → modest (ts t2) → - 2 ^ 63 ≤ us < 2 ^ 63 →
  (normal (ts (tst_ts_add_us t1 us)) ∧ ns (ts (tst_ts_add_us t1 us)) = ns (ts t1) + us * 1000) ∧
  (normal (ts (tst_ts_sub_us t1 us)) ∧ ns (ts (tst_ts_sub_us t1 us)) = ns (ts t1) - us * 1000) ∧
  (normal (ts (tst_ts_add t1 t2)) ∧ ns (ts (tst_ts_add t1 t2)) = ns (ts t1) + ns (ts t2)) ∧
  (normal (ts (tst_ts_diff t1 t2)) ∧ ns (ts (tst_ts_diff t1 t2)) = ns (ts t1) - ns (ts t2)) ∧
  (tst_ts_lt t1 t2 = true ↔ ns (ts t1) < ns (ts t2)) ∧
  (normal (ts (tst_ts_abs_diff t1 t2)) ∧ ns (ts (tst_ts_abs_diff t1 t2)) = Z.abs (ns (ts t1) - ns (ts t2))).
Proof.
  intros Hn1 Hn2 Hm1 Hm2 Hu. split; [by apply add_us_spec|]. split; [by apply sub_us_spec|]. split; [by apply add_spec|].
  split; [by apply diff_spec|]. rewrite lt_spec, Z.ltb_lt by done. split; [done|].
  unfold tst_ts_abs_diff. rewrite lt_spec by done. destruct (Z.ltb_spec (ns (ts t1)) (ns (ts t2))).
  - destruct (diff_spec t2 t1) as [H1 ->]; try done. split; [done|lia].
  - destruct (diff_spec t1 t2) as [H1 ->]; try done. split; [done|lia].
Qed.

Lemma tst_ts_arithmetic_witness :
  let t1 := mk_ts TST_KERN_TIMESPEC (mk_timespec 5 250) in
  let t2 := mk_ts TST_KERN_TIMESPEC (mk_timespec 7 999999999) in
  ns (ts (tst_ts_add_us t1 (-1))) = 4999999250 ∧ ns (ts (tst_ts_abs_diff t1 t2)) = 2999999749.
Proof.
  destruct (tst_ts_arithmetic (mk_ts TST_KERN_TIMESPEC (mk_timespec 5 250)) (mk_ts TST_KERN_TIMESPEC (mk_timespec 7 999999999)) (-1))
    as ([_ H1] & _ & _ & _ & _ & [_ H2]); [unfold normal, modest; cbn; lia..|].
  exact (conj H1 H2).
Defined.

Lemma quot_pos a b : 0 ≤ a → 0 < b → a ÷ b = a / b.
Proof. intros. by apply Z.quot_div_nonneg. Qed.

(** Conversions: a normalised time is converted to the nearest micro- or
    millisecond, a number of nanoseconds survives the way to a time and back,
    and so do micro- and milliseconds that are not negative. *)
Theorem tst_ts_conversions (t : tst_ts) (ty : tst_ts_type) (n : Z) :
  normal (ts t) → -9223372036 < ts_sec (ts t) < 9223372036 → - 2 ^ 63 ≤ n < 2 ^ 63 →
  tst_ts_to_ns t = ns (ts t) ∧
  tst_ts_to_us t = (ns (ts t) + 500) / 1000 ∧
  tst_ts_to_ms t = (ns (ts t) + 500000) / 1000000 ∧
  tst_ts_to_ns (tst_ts_from_ns ty n) = n ∧
  (0 ≤ n → tst_ts_to_us (tst_ts_from_us ty n) = n ∧ tst_ts_to_ms (tst_ts_from_ms ty n) = n).
Proof.
  unfold normal. intros Hn Hs Hr. unfold tst_ts_to_ns, tst_ts_to_us, tst_ts_to_ms, tst_ts_from_ns, tst_ts_from_us, tst_ts_from_ms,
    tst_ts_get_sec, tst_ts_get_nsec, tst_ts_set_sec, tst_ts_set_nsec, ns in *. cbn.
  split; [rewrite ll_id by lia; lia|]. split.
  { rewrite quot_pos, ll_id by (Z.div_mod_to_equations; lia).
    replace (ts_sec (ts t) * 1000000000 + ts_nsec (ts t) + 500) with (ts_nsec (ts t) + 500 + ts_sec (ts t) * 1000000 * 1000) by lia.
    rewrite Z.div_add by lia. lia. }
  split.
  { rewrite quot_pos, ll_id by (Z.div_mod_to_equations; lia).
    replace (ts_sec (ts t) * 1000000000 + ts_nsec (ts t) + 500000) with (ts_nsec (ts t) + 500000 + ts_sec (ts t) * 1000 * 1000000) by lia.
    rewrite Z.div_add by lia. lia. }
  split.
  { pose proof (Z.quot_rem n 1000000000). pose proof (Z.rem_bound_abs n 1000000000).
    rewrite (ll_id (n ÷ 1000000000)), (ll_id (Z.rem n 1000000000)) by lia. rewrite ll_id by lia. lia. }
  intros H0. split.
  - pose proof (Z.quot_rem n 1000000). pose proof (Z.rem_bound_pos n 1000000). rewrite (ll_id (n ÷ 1000000)), (ll_id (Z.rem n 1000000 * 1000)) by lia.
    rewrite (quot_pos (Z.rem n 1000000 * 1000 + 500)) by lia. replace ((Z.rem n 1000000 * 1000 + 500) / 1000) with (Z.rem n 1000000).
    { rewrite ll_id by lia. lia. } symmetry. rewrite Z.add_comm, Z.div_add by lia. done.
  - pose proof (Z.quot_rem n 1000). pose proof (Z.rem_bound_pos n 1000). rewrite (ll_id (n ÷ 1000)), (ll_id (Z.rem n 1000 * 1000000)) by lia.
    rewrite (quot_pos (Z.rem n 1000 * 1000000 + 500000)) by lia. replace ((Z.rem n 1000 * 1000000 + 500000) / 1000000) with (Z.rem n 1000).
    { rewrite ll_id by lia. lia. } symmetry. rewrite Z.add_comm, Z.div_add by lia. done.
Qed.

Lemma tst_ts_conversions_witness :
  tst_ts_to_ms (mk_ts TST_LIBC_TIMESPEC (mk_timespec (-1) 999600000)) = 0 ∧
  tst_ts_to_us (tst_ts_from_us TST_KERN_OLD_TIMESPEC 1234567) = 1234567.
Proof.
  destruct (tst_ts_conversions (mk_ts TST_LIBC_TIMESPEC (mk_timespec (-1) 999600000)) TST_KERN_OLD_TIMESPEC 1234567)
    as (_ & _ & H1 & _ & H2); [unfold normal; cbn; lia..|].
  split; [exact H1|apply H2; lia].
Defined.

(** Negative microseconds do not survive: [tst_ts_from_us] leaves the
    nanoseconds negative, and [tst_ts_to_us] then rounds in the wrong
    direction, one microsecond too high, unless there is no rest. *)
Theorem tst_ts_from_us_negative (ty : tst_ts_type) (us : Z) :
  - 2 ^ 63 ≤ us < 0 → Z.rem us 1000000 ≠ 0 →
  tst_ts_to_us (tst_ts_from_us ty us) = us + 1 ∧ ¬ normal (ts (tst_ts_from_us ty us)).
Proof.
  intros Hu Hr. pose proof (Z.quot_rem us 1000000 ltac:(lia)). pose proof (Z.rem_bound_pos_neg us 1000000).
  unfold tst_ts_to_us, tst_ts_from_us, tst_ts_get_sec, tst_ts_get_nsec, tst_ts_set_sec, tst_ts_set_nsec, normal. cbn.
  assert (-1000000 < Z.rem us 1000000 < 0) as Hb by lia.
  rewrite (ll_id (us ÷ 1000000)), (ll_id (Z.rem us 1000000 * 1000)) by lia. split; [|lia].
  replace (Z.rem us 1000000 * 1000 + 500) with (- (- Z.rem us 1000000 * 1000 - 500)) by lia.
  rewrite Z.quot_opp_l, (quot_pos (- Z.rem us 1000000 * 1000 - 500)) by lia.
  replace ((- Z.rem us 1000000 * 1000 - 500) / 1000) with (- Z.rem us 1000000 - 1) by (Z.div_mod_to_equations; lia).
  rewrite ll_id by lia. lia.
Qed.

Lemma tst_ts_from_us_negative_witness : tst_ts_to_us (tst_ts_from_us TST_LIBC_TIMESPEC (-1)) = 0.
Proof. apply (tst_ts_from_us_negative TST_LIBC_TIMESPEC (-1)); [lia|by vm_compute]. Defined.

(** Restoring the wall clock: after a save, the clock is set to the saved
    real time plus the monotonic time that went by since, exactly once: a
    second restore leaves the clock alone. *)
Theorem tst_wallclock_restore_correct (real mono mono_end : timespec) (w : wallclock) :
  normal real → normal mono → normal mono_end → modest real → modest mono → modest mono_end →
  0 ≤ ns mono_end - ns mono < 2 ^ 61 →
  tst_wallclock_save (Some real) (inl mono) = CRet w →
  ∃ w' adjust, tst_wallclock_restore (Some mono_end) true w = CRet (w', Some adjust) ∧
    normal adjust ∧ ns adjust = ns real + (ns mono_end - ns mono) ∧
    ∀ m ok, tst_wallclock_restore m ok w' = CRet (w', None).
Proof.
  intros N1 N2 N3 M1 M2 M3 Hd Hs. injection Hs as <-. do 2 eexists. split; [reflexivity|]. cbn.
  destruct (diff_spec (tst_ts_from_timespec mono_end) (tst_ts_from_timespec mono)) as [D1 D2]; [done..|].
  destruct (add_spec (tst_ts_from_timespec real) (tst_ts_from_timespec (tst_timespec_diff mono_end mono))) as [A1 A2]; [done|done|done| |].
  - unfold modest. unfold normal, ns in *. cbn in *. unfold tst_timespec_diff, tst_ts_to_timespec. lia.
  - split_and!; [exact A1| |done]. unfold tst_timespec_add, tst_ts_to_timespec. rewrite A2. cbn.
    unfold tst_timespec_diff, tst_ts_to_timespec. by rewrite D2.
Qed.

Lemma tst_wallclock_restore_correct_witness :
  let w := mk_wallclock (mk_timespec 1000 0) (mk_timespec 5 999999999) true in
  ∃ w' adjust, tst_wallclock_restore (Some (mk_timespec 8 0)) true w = CRet (w', Some adjust) ∧
    normal adjust ∧ ns adjust = ns (mk_timespec 1000 0) + (ns (mk_timespec 8 0) - ns (mk_timespec 5 999999999)) ∧
    ∀ m ok, tst_wallclock_restore m ok w' = CRet (w', None).
Proof.
  apply (tst_wallclock_restore_correct (mk_timespec 1000 0) (mk_timespec 5 999999999) (mk_timespec 8 0)
    (mk_wallclock (mk_timespec 1000 0) (mk_timespec 5 999999999) true)); [unfold normal, modest, ns; cbn; lia..|reflexivity].
Defined.
