(* ===== verification/TstRtc.v ===== *)
(** * RTC time (lib/tst_rtctime.c, lib/tst_wallclock.c)

    Conversion between seconds since 1970 and Gregorian dates, with the
    arithmetic of unsigned and signed ints, and the restoration of the RTC
    from the monotonic clock. *)

From S2P Require Import Prelude TstTimer.
Open Scope Z_scope.

Record rtc_time := mk_rtc {
  tm_sec : Z;
  tm_min : Z;
  tm_hour : Z;
  tm_mday : Z;
  tm_mon : Z;
  tm_year : Z;
  tm_wday : Z;
  tm_yday : Z;
  tm_isdst : Z;
}.

Definition u32 (z : Z) : Z := wrapu 32 z.
Definition i32 (z : Z) : Z := wraps 32 z.

Definition LEAPS_THRU_END_OF (y : Z) : Z := y / 4 - y / 100 + y / 400.

Definition rtc_days_in_month : list Z := [31; 28; 31; 30; 31; 30; 31; 31; 30; 31; 30; 31].

Definition is_leap_year (year : Z) : bool :=
  (year mod 4 =? 0) && negb (year mod 100 =? 0) || (year mod 400 =? 0).

Definition tst_mktime (year0 mon0 day hour min sec : Z) : Z :=
  let mon := u32 (mon0 - 2) in
  let year := year0 in
  let '(mon, year) := if i32 mon <=? 0 then (u32 (mon + 12), u32 (year - 1)) else (mon, year) in
  (((u32 (year / 4 - year / 100 + year / 400 + u32 (367 * mon) / 12 + day) + u32 (year * 365) - 719499) * 24
    + hour) * 60 + min) * 60 + sec.

(** [None] is an access outside the table. *)
Definition rtc_month_days (month year : Z) : option Z :=
  d ← rtc_days_in_month !! Z.to_nat month;
  Some (d + c_bool (is_leap_year year && (month =? 1))).

(** [while (days < 0)]: every round adds at least 365 days. *)
Fixpoint year_loop (fuel : nat) (year days : Z) : option (Z * Z) :=
  if negb (days <? 0) then Some (year, days) else
  match fuel with
  | O => None
  | S fuel => let year := u32 (year - 1) in
              year_loop fuel year (i32 (days + (365 + c_bool (is_leap_year year))))
  end.

(** [n] more months from [month]. *)
Fixpoint month_loop (n : nat) (month year days : Z) : option (Z * Z) :=
  match n with
  | O => Some (month, days)
  | S n =>
      m ← rtc_month_days month year;
      let newdays := i32 (days - m) in
      if newdays <? 0 then Some (month, days) else month_loop n (month + 1) year newdays
  end.

Definition tst_rtc_time_to_tm (time : Z) : option rtc_time :=
  let days := i32 (time ÷ 86400) in
  let secs := u32 (Z.rem time 86400) in
  let wday := Z.rem (i32 (days + 4)) 7 in
  let year := u32 (1970 + days ÷ 365) in
  let days := i32 (days - (u32 ((year - 1970) * 365) + LEAPS_THRU_END_OF (u32 (year - 1)) - LEAPS_THRU_END_OF (1970 - 1))) in
  '(year, days) ← year_loop (Z.to_nat ((- days) / 365 + 1)) year days;
  '(month, mdays) ← month_loop 11 0 year days;
  let hour := secs / 3600 in
  let secs := secs - hour * 3600 in
  let min := secs / 60 in
  Some (mk_rtc (secs - min * 60) min hour (mdays + 1) month (i32 (year - 1900)) wday (days + 1) 0).

Definition tst_rtc_tm_to_time (tm : rtc_time) : Z :=
  tst_mktime (u32 (tm_year tm + 1900)) (u32 (tm_mon tm + 1)) (u32 (tm_mday tm)) (u32 (tm_hour tm)) (u32 (tm_min tm)) (u32 (tm_sec tm)).

(** ** Saving and restoring the RTC *)

Record rtcclock := mk_rtcclock { rtc_begin : rtc_time; rtc_mono_begin : timespec; rtc_saved : bool }.

Definition tst_rtc_clock_save (rtc : option rtc_time) (mono : option timespec) : cres rtcclock :=
  match rtc with
  | None => CBrk (Z.lor TBROK TERRNO) (str "tst_rtc_gettime() realtime failed")
  | Some rtc =>
      match mono with
      | None => CBrk (Z.lor TBROK TERRNO) (str "tst_clock_gettime() monotonic failed")
      | Some mono => CRet (mk_rtcclock rtc mono true)
      end
  end.

(** The new state and the time the RTC is set to. *)
Definition tst_rtc_clock_restore (mono_end : option timespec) (set_ok : bool) (w : rtcclock)
    : cres (rtcclock * option rtc_time) :=
  if negb (rtc_saved w) then CRet (w, None) else
  let w := mk_rtcclock (rtc_begin w) (rtc_mono_begin w) false in
  match mono_end with
  | None => CBrk (Z.lor TBROK TERRNO) (str "tst_clock_gettime() monotonic failed")
  | Some mono_end =>
      let elapsed := tst_timespec_diff mono_end (rtc_mono_begin w) in
      let rtc_begin_tm := mk_timespec (tst_rtc_tm_to_time (rtc_begin w)) 0 in
      let rtc_adjust := tst_timespec_add rtc_begin_tm elapsed in
      rtc_restore ← defined (tst_rtc_time_to_tm (ts_sec rtc_adjust));
      if set_ok then CRet (w, Some rtc_restore)
      else CBrk (Z.lor TBROK TERRNO) (str "tst_rtc_settime() realtime failed")
  end.

(** ** Years *)

(** Days before the year [y]. *)
Definition J (y : Z) : Z := 365 * y + LEAPS_THRU_END_OF (y - 1).

Lemma leap_step y : LEAPS_THRU_END_OF y - LEAPS_THRU_END_OF (y - 1) = c_bool (is_leap_year y).
Proof.
  unfold LEAPS_THRU_END_OF, is_leap_year. destruct (Z.eqb_spec (y mod 4) 0), (Z.eqb_spec (y mod 100) 0), (Z.eqb_spec (y mod 400) 0);
    cbn; Z.div_mod_to_equations; lia.
Qed.

Lemma J_step y : J (y + 1) = J y + 365 + c_bool (is_leap_year y).
Proof. unfold J. replace (y + 1 - 1) with y by lia. pose proof (leap_step y). lia. Qed.

Lemma leaps_bounds y : 0 ≤ y → 0 ≤ LEAPS_THRU_END_OF y ≤ y.
Proof. unfold LEAPS_THRU_END_OF. intros. Z.div_mod_to_equations. lia. Qed.

Lemma leaps_mono a b : 0 ≤ a ≤ b → LEAPS_THRU_END_OF a ≤ LEAPS_THRU_END_OF b.
Proof. unfold LEAPS_THRU_END_OF. intros. Z.div_mod_to_equations. lia. Qed.

Lemma c_bool_bounds b : 0 ≤ c_bool b ≤ 1.
Proof. destruct b; cbn; lia. Qed.

Lemma i32_id z : - 2 ^ 31 ≤ z < 2 ^ 31 → i32 z = z.
Proof. intros. by apply wraps_small. Qed.
Lemma u32_id z : 0 ≤ z < 2 ^ 32 → u32 z = z.
Proof. apply wrapu_small. Qed.

(** The loop finds the year that contains the day. *)
Lemma year_loop_spec fuel y d :
  J 1970 ≤ d + J y → - 2 ^ 30 ≤ d < 365 → 1970 ≤ y < 2 ^ 31 → (- d) / 365 + 1 ≤ Z.of_nat fuel →
  ∃ y' d', year_loop fuel y d = Some (y', d') ∧ d' + J y' = d + J y ∧ 0 ≤ d' < 365 + c_bool (is_leap_year y') ∧ 1970 ≤ y' ≤ y.
Proof.
  intros HJ Hd. assert (d < 365 + c_bool (is_leap_year y)) as Hd2 by (pose proof (c_bool_bounds (is_leap_year y)); lia).
  destruct Hd as [Hd1 _]. revert y d HJ Hd1 Hd2. induction fuel as [|fuel IH]; intros y d HJ Hd1 Hd2 Hy Hf; cbn [year_loop];
    destruct (Z.ltb_spec d 0) as [L|L]; cbn [negb].
  - Z.div_mod_to_equations. lia.
  - exists y, d. split_and!; lia || done.
  - assert (1970 < y) as Hy1.
    { destruct (Z.le_gt_cases y 1970); [|done]. assert (y = 1970) as -> by lia. lia. }
    rewrite u32_id by lia. pose proof (c_bool_bounds (is_leap_year (y - 1))). rewrite i32_id by lia.
    pose proof (J_step (y - 1)) as HJs. replace (y - 1 + 1) with y in HJs by lia.
    destruct (IH (y - 1) (d + (365 + c_bool (is_leap_year (y - 1))))) as (y' & d' & E & H1 & H2 & H3); [lia..| |].
    { Z.div_mod_to_equations. lia. }
    exists y', d'. split_and!; [done|lia..].
  - exists y, d. split_and!; lia || done.
Qed.

(** ** Months *)

(** The day of the year [d], by months. *)
Definition month_of (leap : bool) (d : Z) : option (Z * Z) := month_loop 11 0 (if leap then 4 else 1) d.

Lemma month_loop_leap n m y y' d : is_leap_year y = is_leap_year y' → month_loop n m y d = month_loop n m y' d.
Proof.
  intros E. revert m d. induction n as [|n IH]; intros m d; cbn [month_loop]; [done|].
  unfold rtc_month_days. rewrite E. destruct (rtc_days_in_month !! Z.to_nat m); [|done]. rewrite !obind_Some.
  case_match; [done|apply IH].
Qed.

Lemma month_loop_of y d : month_loop 11 0 y d = month_of (is_leap_year y) d.
Proof. unfold month_of. apply month_loop_leap. by destruct (is_leap_year y). Qed.

(** What [tst_mktime] makes of month and day: the days of the year counted
    from March, in the year before for January and February. *)
Definition day_check (leap : bool) (d : Z) : bool :=
  match month_of leap d with
  | Some (m, md) =>
      (0 <=? m) && (m <=? 11) && (0 <=? md) &&
      match rtc_month_days m (if leap then 4 else 1) with Some n => md <? n | None => false end &&
      (if m <=? 1 then 367 * (m + 11) / 12 + (md + 1) - 365 =? d - 28
       else 367 * (m - 1) / 12 + (md + 1) + c_bool leap =? d - 28)
  | None => false
  end.

Lemma day_check_true leap d : 0 ≤ d < 365 + c_bool leap → day_check leap d = true.
Proof.
  intros Hd. assert (forallb (day_check leap) (seqZ 0 (365 + c_bool leap)) = true) as H by (destruct leap; vm_compute; reflexivity).
  by apply (range_forall _ (365 + c_bool leap)).
Qed.

Lemma month_days_spec y d :
  0 ≤ d < 365 + c_bool (is_leap_year y) →
  ∃ m md n, month_loop 11 0 y d = Some (m, md) ∧ 0 ≤ m ≤ 11 ∧ rtc_month_days m y = Some n ∧ 0 ≤ md < n ∧ n ≤ 31 ∧
    (m ≤ 1 → 367 * (m + 11) / 12 + (md + 1) - 365 = d - 28) ∧
    (1 < m → 367 * (m - 1) / 12 + (md + 1) + c_bool (is_leap_year y) = d - 28).
Proof.
  intros Hd. pose proof (day_check_true _ d Hd) as H. unfold day_check in H. rewrite <- month_loop_of in H.
  destruct (month_loop 11 0 y d) as [[m md]|]; [|done]. rewrite !andb_true_iff in H. destruct H as [[[[H1 H2] H3] H4] H5].
  assert (rtc_month_days m y = rtc_month_days m (if is_leap_year y then 4 else 1)) as Er.
  { unfold rtc_month_days. by destruct (is_leap_year y). }
  rewrite <- Er in H4. destruct (rtc_month_days m y) as [n|] eqn:En; [|done]. apply Z.ltb_lt in H4.
  apply Z.leb_le in H1, H2, H3. exists m, md, n. split_and!; try done; try lia.
  - unfold rtc_month_days in En. destruct (rtc_days_in_month !! Z.to_nat m) as [k|] eqn:Ek; [|done]. rewrite obind_Some in En.
    injection En as <-. assert (Forall (λ k, 28 ≤ k ≤ 31) rtc_days_in_month) as Hf by (repeat constructor; lia).
    assert (28 ≤ k ≤ 31) by (eapply Forall_lookup_1 in Hf; [|exact Ek]; done). pose proof (c_bool_bounds (is_leap_year y && (m =? 1))).
    destruct (Z.eqb_spec m 1) as [->|]; [|rewrite andb_false_r; cbn; lia]. vm_compute in Ek. injection Ek as <-. lia.
  - intros Hm. rewrite (proj2 (Z.leb_le m 1) Hm) in H5. by apply Z.eqb_eq in H5.
  - intros Hm. rewrite (proj2 (Z.leb_gt m 1) Hm) in H5. by apply Z.eqb_eq in H5.
Qed.

(** ** The round trip *)

(** A valid date. *)
Definition rtc_valid (tm : rtc_time) : Prop :=
  0 ≤ tm_sec tm < 60 ∧ 0 ≤ tm_min tm < 60 ∧ 0 ≤ tm_hour tm < 24 ∧ 0 ≤ tm_mon tm ≤ 11 ∧ 70 ≤ tm_year tm ∧
  1 ≤ tm_yday tm ≤ 365 + c_bool (is_leap_year (tm_year tm + 1900)) ∧
  ∃ n, rtc_month_days (tm_mon tm) (tm_year tm + 1900) = Some n ∧ 1 ≤ tm_mday tm ≤ n.

(** [tst_mktime] on a date given by the day of the year. *)
Lemma mktime_days y d m md hour min sec :
  1970 ≤ y < 6000000 → 0 ≤ m ≤ 11 → 0 ≤ md < 31 → 0 ≤ d < 366 →
  (m ≤ 1 → 367 * (m + 11) / 12 + (md + 1) - 365 = d - 28) →
  (1 < m → 367 * (m - 1) / 12 + (md + 1) + c_bool (is_leap_year y) = d - 28) →
  tst_mktime y (m + 1) (md + 1) hour min sec = (((d + J y - J 1970) * 24 + hour) * 60 + min) * 60 + sec.
Proof.
  intros Hy Hm Hmd Hd H1 H2. unfold tst_mktime. replace (m + 1 - 2) with (m - 1) by lia.
  pose proof (c_bool_bounds (is_leap_year y)). change (J 1970) with 719527. unfold J. pose proof (leap_step y) as Hl.
  destruct (Z.le_gt_cases m 1) as [L|L].
  - assert ((i32 (u32 (m - 1)) <=? 0) = true) as ->.
    { assert (m = 0 ∨ m = 1) as [->| ->] by lia; done. }
    assert (u32 (u32 (m - 1) + 12) = m + 11) as -> by (assert (m = 0 ∨ m = 1) as [->| ->] by lia; done).
    rewrite (u32_id (y - 1)), (u32_id (367 * (m + 11))), (u32_id ((y - 1) * 365)) by lia.
    fold (LEAPS_THRU_END_OF (y - 1)). pose proof (leaps_bounds (y - 1)). specialize (H1 L).
    rewrite u32_id by (Z.div_mod_to_equations; lia). lia.
  - rewrite (u32_id (m - 1)), i32_id by lia. destruct (Z.leb_spec (m - 1) 0); [lia|]. cbn iota.
    rewrite (u32_id (367 * (m - 1))), (u32_id (y * 365)) by lia.
    fold (LEAPS_THRU_END_OF y). pose proof (leaps_bounds y). specialize (H2 L).
    rewrite u32_id by (Z.div_mod_to_equations; lia). lia.
Qed.

(** The first guess of the year is not too small. *)
Lemma first_guess D :
  0 ≤ D < 2 ^ 31 →
  let y := 1970 + D / 365 in
  let d := D - ((y - 1970) * 365 + LEAPS_THRU_END_OF (y - 1) - LEAPS_THRU_END_OF (1970 - 1)) in
  1970 ≤ y < 6000000 ∧ - 2 ^ 30 ≤ d < 365 ∧ d + J y = D + J 1970.
Proof.
  intros HD y d. assert (1970 ≤ y < 6000000) as Hy by (unfold y; Z.div_mod_to_equations; lia).
  pose proof (leaps_bounds (y - 1)). pose proof (leaps_mono (1970 - 1) (y - 1)).
  change (LEAPS_THRU_END_OF (1970 - 1)) with 477 in *. split_and!; [lia..| | |].
  - unfold d. unfold y at 1. Z.div_mod_to_equations. lia.
  - unfold d. unfold y at 1. Z.div_mod_to_equations. lia.
  - unfold d, J. change (LEAPS_THRU_END_OF (1970 - 1)) with 477. lia.
Qed.

(** C26. RTC times are exact: a time from 1970 on, as long as its days fit an
    int, is converted to a valid date with the right day of the week, and
    converting the date back gives the time. *)
Theorem tst_rtc_roundtrip (t : Z) :
  0 ≤ t < 86400 * (2 ^ 31 - 5) →
  ∃ tm, tst_rtc_time_to_tm t = Some tm ∧ rtc_valid tm ∧ tm_wday tm = (t / 86400 + 4) mod 7 ∧ tst_rtc_tm_to_time tm = t.
Proof.
  intros Ht. set (D := t / 86400). assert (0 ≤ D < 2 ^ 31 - 5) as HD by (unfold D; Z.div_mod_to_equations; lia).
  destruct (first_guess D) as (Hy & Hd & HJ); [lia|]. set (y := 1970 + D / 365) in *. set (d := D - _) in *.
  destruct (year_loop_spec (Z.to_nat ((- d) / 365 + 1)) y d) as (y' & d' & Ey & HJ' & Hd' & Hy'); [lia..| |].
  { rewrite Z2Nat.id; [lia|]. Z.div_mod_to_equations. lia. }
  destruct (month_days_spec y' d' Hd') as (m & md & n & Em & Hm & Hn & Hmd & Hn31 & H1 & H2).
  pose proof (c_bool_bounds (is_leap_year y')). set (secs := t mod 86400).
  assert (0 ≤ secs < 86400) as Hs by (apply Z.mod_pos_bound; lia).
  assert (t = D * 86400 + secs) as Et by (unfold D, secs; pose proof (Z.div_mod t 86400); lia).
  unfold tst_rtc_time_to_tm. rewrite Z.quot_div_nonneg, Z.rem_mod_nonneg by lia. fold D secs.
  rewrite (i32_id D), (u32_id secs), (i32_id (D + 4)) by lia. rewrite (Z.quot_div_nonneg D) by lia. fold y.
  rewrite (u32_id y), (u32_id (y - 1)), (u32_id ((y - 1970) * 365)) by lia. rewrite (i32_id (D - _)) by (fold d; lia). fold d.
  rewrite Ey, obind_Some. cbn beta iota. rewrite Em, obind_Some. cbn beta iota.
  rewrite (i32_id (y' - 1900)) by lia. eexists. split; [done|]. rewrite Z.rem_mod_nonneg by lia.
  split; [|split; [done|]].
  - unfold rtc_valid. cbn. replace (y' - 1900 + 1900) with y' by lia. split_and!; try (Z.div_mod_to_equations; lia).
    exists n. split; [done|lia].
  - unfold tst_rtc_tm_to_time. cbn. replace (y' - 1900 + 1900) with y' by lia.
    rewrite (u32_id y'), (u32_id (m + 1)), (u32_id (md + 1)) by lia. rewrite !u32_id by (Z.div_mod_to_equations; lia).
    rewrite (mktime_days y' d') by (done || lia). rewrite HJ', HJ. lia.
Qed.

Lemma tst_rtc_roundtrip_witness :
  ∃ tm, tst_rtc_time_to_tm 1709210096 = Some tm ∧ rtc_valid tm ∧ tm_wday tm = 4 ∧ tst_rtc_tm_to_time tm = 1709210096.
Proof. apply (tst_rtc_roundtrip 1709210096). lia. Defined.
