(* ===== verification/Kvercmp.v ===== *)
(** * Kernel versions (lib/tst_kvercmp.c)

    Parsing and comparing kernel versions.  A pointer into a string is the
    rest of the string; the release of the running kernel and the ID of
    /etc/os-release are arguments. *)

From S2P Require Import Prelude.
Open Scope Z_scope.

Definition INT_MAX := 2 ^ 31 - 1.
Definition ULONG_MAX := 2 ^ 64 - 1.

(** ** Numbers in strings *)

(** [strtoul(str, &end, 10)]; [None] when there are no digits, where [end] is
    [str]. *)
Definition strtoul (s : list Z) : option (Z * list Z) :=
  let '(neg, s) := span_sign (skip_spaces s) in
  let '(ds, r) := span_digits s in
  match ds with
  | [] => None
  | _ => let v := dval 0 ds in
         Some (if ULONG_MAX <? v then ULONG_MAX else if (neg : bool) then wrapu 64 (- v) else v, r)
  end.

(** ["%d"] of sscanf. *)
Definition scan_d (s : list Z) : option (Z * list Z) :=
  let '(neg, s) := span_sign (skip_spaces s) in
  let '(ds, r) := span_digits s in
  match ds with
  | [] => None
  | _ => Some (wraps 32 (if (neg : bool) then - dval 0 ds else dval 0 ds), r)
  end.

(** A character of the format of sscanf that is not white space. *)
Definition scan_ch (ch : Z) (s : list Z) : option (list Z) :=
  match s with c :: s => if c =? ch then Some s else None | [] => None end.

(** The characters [seps] with ["%d"] after each of them: the numbers up to
    the first mismatch. *)
Fixpoint scan_seps (seps : list Z) (s : list Z) : list Z :=
  match seps with
  | [] => []
  | ch :: seps =>
      match scan_ch ch s with
      | None => []
      | Some s => match scan_d s with None => [] | Some (v, s) => v :: scan_seps seps s end
      end
  end.

(** ["%d.%d.%d-%d.%d"] *)
Definition scan_version (s : list Z) : list Z :=
  match scan_d s with
  | None => []
  | Some (v, s) => v :: scan_seps ["."%cc; "."%cc; "-"%cc; "."%cc] s
  end.

(** ** Versions *)

Definition parse_digit (s : list Z) : option (Z * list Z) :=
  match strtoul s with
  | None => None
  | Some (v, e) => if INT_MAX <? v then None else Some (v, e)
  end.

(** The character at a pointer. *)
Definition at0 (s : list Z) : Z := default 0 (head s).

(** The return value and the three numbers. *)
Definition tst_parse_kver (str_kver : list Z) : Z * (Z * Z * Z) :=
  match parse_digit str_kver with
  | None => (1, (0, 0, 0))
  | Some (v1, s) =>
      if negb (at0 s =? "."%cc) then (1, (v1, 0, 0)) else
      match parse_digit (tail s) with
      | None => (1, (v1, 0, 0))
      | Some (v2, s) =>
          if (at0 s =? " "%cc) || (at0 s =? 0) || (at0 s =? "-"%cc) then (0, (v1, v2, 0)) else
          if negb (at0 s =? "."%cc) then (1, (v1, v2, 0)) else
          match parse_digit (tail s) with
          | None => (1, (v1, v2, 0))
          | Some (v3, _) => (0, (v1, v2, v3))
          end
      end
  end.

Definition pack (v1 v2 v3 : Z) : Z := wraps 32 (Z.shiftl v1 20 + Z.shiftl v2 10 + v3).

(** The difference, and the warnings. *)
Definition tst_kvcmp (cur_kver : list Z) (r1 r2 r3 : Z) : Z * log :=
  let '(ret, (a1, a2, a3)) := tst_parse_kver cur_kver in
  (wraps 32 (pack a1 a2 a3 - pack r1 r2 r3),
   if negb (ret =? 0) then [(TWARN, str "Invalid kernel version " ++ cur_kver ++ str ", expected %d.%d.%d")] else []).

Definition tst_kvercmp (release : list Z) (r1 r2 r3 : Z) : Z * log := tst_kvcmp release r1 r2 r3.

(** The numbers that are missing are 0. *)
Definition tst_kvexcmp (tst_exv cur_ver : list Z) : Z :=
  let c := scan_version cur_ver in
  let t := scan_version tst_exv in
  let diff i := wraps 32 (nth i c 0 - nth i t 0) in
  if negb (diff 0%nat =? 0) then diff 0%nat
  else if negb (diff 1%nat =? 0) then diff 1%nat
  else if negb (diff 2%nat =? 0) then diff 2%nat
  else if negb (diff 3%nat =? 0) then diff 3%nat
  else diff 4%nat.

Definition toupper (c : Z) : Z := if ("a"%cc <=? c) && (c <=? "z"%cc) then c - 32 else c.

(** Up to a closing quote. *)
Fixpoint upper_till_quote (s : list Z) : list Z :=
  match s with
  | c :: s => if c =? cDQ then [] else toupper c :: upper_till_quote s
  | [] => []
  end.

(** [os_id] is what ["ID=%s"] finds in /etc/os-release, [None] if there is no
    such file. *)
Definition tst_kvcmp_distname (kver : list Z) (os_id : option (list Z)) : option (list Z) :=
  if decide (is_Some (strstr kver (str ".el7"))) then Some (str "RHEL7")
  else if decide (is_Some (strstr kver (str ".el8"))) then Some (str "RHEL8")
  else if decide (is_Some (strstr kver (str ".el9"))) then Some (str "RHEL9")
  else match os_id with
       | None => None
       | Some distname => Some (upper_till_quote (if at0 distname =? cDQ then tail distname else distname))
       end.

Record tst_kern_exv := mk_exv { dist_name : list Z; extra_ver : list Z }.

Fixpoint find_exv (name : list Z) (vers : list tst_kern_exv) : option (list Z) :=
  match vers with
  | v :: vers => if strcmp (dist_name v) name =? 0 then Some (extra_ver v) else find_exv name vers
  | [] => None
  end.

Definition tst_kvercmp2 (release : list Z) (os_id : option (list Z)) (r1 r2 r3 : Z) (vers : list tst_kern_exv) : Z * log :=
  match tst_kvcmp_distname release os_id with
  | None => tst_kvercmp release r1 r2 r3
  | Some name =>
      match find_exv name vers with
      | Some extra =>
          (tst_kvexcmp extra release, [(TINFO, str "Detected " ++ name ++ str " using kernel version " ++ release)])
      | None => tst_kvcmp release r1 r2 r3
      end
  end.

(** ** Parsing what is printed *)

Definition no_digit (s : list Z) : Prop := isdigit (at0 s) = false.

(** A number at the start of a string, without white space or a sign. *)
Lemma number_start n s :
  0 ≤ n < 2 ^ 31 → no_digit s →
  span_sign (skip_spaces (dec n ++ s)) = (false, dec n ++ s) ∧ span_digits (dec n ++ s) = (dec n, s) ∧
  dval 0 (dec n) = n ∧ dec n ≠ [].
Proof.
  intros Hn Hs. destruct (dec_spec n) as (Hd & Hv & (c & ds & E & _)); [lia|]. split_and!; [|by apply span_digits_app|done|by rewrite E].
  rewrite E in *. apply Forall_cons in Hd as [[H1 H2] _]. change ("0"%cc) with 48 in H1. change ("9"%cc) with 57 in H2.
  cbn. unfold isspace. change (" "%cc) with 32. zcase. do 2 (zcase; cbn [orb andb]). cbn. by do 2 zcase.
Qed.

Lemma parse_digit_dec n s : 0 ≤ n < 2 ^ 31 → no_digit s → parse_digit (dec n ++ s) = Some (n, s).
Proof.
  intros Hn Hs. destruct (number_start n s Hn Hs) as (E1 & E2 & E3 & E4). unfold parse_digit, strtoul. rewrite E1, E2, E3.
  destruct (dec n); [done|]. unfold ULONG_MAX, INT_MAX.
  rewrite (proj2 (Z.ltb_ge (2 ^ 64 - 1) n)) by lia. by zcase.
Qed.

Lemma scan_d_dec n s : 0 ≤ n < 2 ^ 31 → no_digit s → scan_d (dec n ++ s) = Some (n, s).
Proof.
  intros Hn Hs. destruct (number_start n s Hn Hs) as (E1 & E2 & E3 & E4). unfold scan_d. rewrite E1, E2, E3.
  destruct (dec n); [done|]. by rewrite wraps_small by (change (32 - 1) with 31; lia).
Qed.

(** The text of a version: three numbers, and what distributions append. *)
Definition version (a1 a2 a3 : Z) (rest : list Z) : list Z := dec a1 ++ str "." ++ dec a2 ++ str "." ++ dec a3 ++ rest.

Lemma parse_kver_version a1 a2 a3 rest :
  0 ≤ a1 < 2 ^ 31 → 0 ≤ a2 < 2 ^ 31 → 0 ≤ a3 < 2 ^ 31 → no_digit rest → tst_parse_kver (version a1 a2 a3 rest) = (0, (a1, a2, a3)).
Proof.
  intros H1 H2 H3 Hr. unfold tst_parse_kver, version. rewrite parse_digit_dec by done.
  change (at0 (str "." ++ _)) with ("."%cc). change (tail (str "." ++ ?x)) with x. 
  change (negb ("."%cc =? "."%cc)) with false. cbn iota.
  rewrite parse_digit_dec by done. change (at0 (str "." ++ _)) with ("."%cc). change (tail (str "." ++ ?x)) with x.
  change (("."%cc =? " "%cc) || ("."%cc =? 0) || ("."%cc =? "-"%cc)) with false.
  change (negb ("."%cc =? "."%cc)) with false. cbn iota.
  by rewrite parse_digit_dec by done.
Qed.

(** The order of versions. *)
Definition lex3 (a1 a2 a3 r1 r2 r3 : Z) : comparison :=
  match a1 ?= r1 with Eq => match a2 ?= r2 with Eq => a3 ?= r3 | c => c end | c => c end.

Lemma pack_small v1 v2 v3 :
  0 ≤ v1 < 2048 → 0 ≤ v2 < 1024 → 0 ≤ v3 < 1024 → pack v1 v2 v3 = v1 * 1048576 + v2 * 1024 + v3.
Proof.
  intros. unfold pack. rewrite !Z.shiftl_mul_pow2 by lia. change (2 ^ 20) with 1048576. change (2 ^ 10) with 1024.
  apply wraps_small; [lia|]. change (2 ^ (32 - 1)) with 2147483648. lia.
Qed.

(** Comparing the running kernel with a version: for a release that starts
    with three numbers, the second and third below 1024 and the first below
    2048, the result has the sign of the lexicographic comparison, and there
    is no warning. *)
Theorem tst_kvcmp_correct (a1 a2 a3 r1 r2 r3 : Z) (rest : list Z) :
  0 ≤ a1 < 2048 → 0 ≤ a2 < 1024 → 0 ≤ a3 < 1024 → 0 ≤ r1 < 2048 → 0 ≤ r2 < 1024 → 0 ≤ r3 < 1024 → no_digit rest →
  ∃ v, tst_kvcmp (version a1 a2 a3 rest) r1 r2 r3 = (v, []) ∧ (v ?= 0) = lex3 a1 a2 a3 r1 r2 r3.
Proof.
  intros A1 A2 A3 R1 R2 R3 Hr. unfold tst_kvcmp. rewrite parse_kver_version by (done || lia). rewrite !pack_small by done.
  eexists. split; [done|]. rewrite wraps_small; [|lia|change (2 ^ (32 - 1)) with 2147483648; lia].
  unfold lex3. destruct (Z.compare_spec a1 r1), (Z.compare_spec a2 r2), (Z.compare_spec a3 r3);
    (apply Z.compare_eq_iff || apply Z.compare_lt_iff || apply Z.compare_gt_iff); lia.
Qed.

Lemma tst_kvcmp_correct_witness :
  ∃ v, tst_kvcmp (str "5.14.0-362.el9") 5 4 302 = (v, []) ∧ (v ?= 0) = Gt.
Proof.
  apply (tst_kvcmp_correct 5 14 0 5 4 302 (str "-362.el9")); [lia..|reflexivity].
Defined.

(** A distribution version: five numbers. *)
Definition exversion (v : Z * Z * Z * Z * Z) (rest : list Z) : list Z :=
  let '(a, b, c, d, e) := v in dec a ++ str "." ++ dec b ++ str "." ++ dec c ++ str "-" ++ dec d ++ str "." ++ dec e ++ rest.

Definition exnums (v : Z * Z * Z * Z * Z) : list Z := let '(a, b, c, d, e) := v in [a; b; c; d; e].

Lemma scan_seps_step ch n seps s :
  0 ≤ n < 2 ^ 31 → no_digit s → scan_seps (ch :: seps) (ch :: dec n ++ s) = n :: scan_seps seps s.
Proof. intros Hn Hs. cbn [scan_seps scan_ch]. rewrite Z.eqb_refl. by rewrite scan_d_dec. Qed.

Lemma scan_exversion v rest :
  Forall (λ n, 0 ≤ n < 2 ^ 31) (exnums v) → no_digit rest → scan_version (exversion v rest) = exnums v.
Proof.
  destruct v as [[[[a b] c] d] e]. cbn [exnums exversion]. intros Hf Hr. repeat (apply Forall_cons in Hf as [? Hf]).
  unfold scan_version. rewrite scan_d_dec by done. f_equal.
  change (str "." ++ dec b ++ ?x) with ("."%cc :: dec b ++ x). rewrite scan_seps_step by done. f_equal.
  change (str "." ++ dec c ++ ?x) with ("."%cc :: dec c ++ x). rewrite scan_seps_step by done. f_equal.
  change (str "-" ++ dec d ++ ?x) with ("-"%cc :: dec d ++ x). rewrite scan_seps_step by done. f_equal.
  change (str "." ++ dec e ++ ?x) with ("."%cc :: dec e ++ x). by rewrite scan_seps_step by done.
Qed.

(** The lexicographic order of lists of the same length. *)
Fixpoint lex (a b : list Z) : comparison :=
  match a, b with
  | x :: a, y :: b => match x ?= y with Eq => lex a b | c => c end
  | _, _ => Eq
  end.

(** One number of the comparison: either the result is settled or the numbers
    are the same. *)
Ltac lex_step c t :=
  destruct (Z.compare_spec c t); [subst|apply Z.compare_lt_iff|apply Z.compare_gt_iff];
  [rewrite Z.sub_diag; cbn [Z.eqb negb]|destruct (Z.eqb_spec (c - t) 0); cbn [negb]; lia..].

(** Comparing distribution kernels: for two versions of five numbers the
    result has the sign of the lexicographic comparison. *)
Theorem tst_kvexcmp_correct (t c : Z * Z * Z * Z * Z) (rt rc : list Z) :
  Forall (λ n, 0 ≤ n < 2 ^ 31) (exnums t) → Forall (λ n, 0 ≤ n < 2 ^ 31) (exnums c) → no_digit rt → no_digit rc →
  (tst_kvexcmp (exversion t rt) (exversion c rc) ?= 0) = lex (exnums c) (exnums t).
Proof.
  intros Ht Hc Hrt Hrc. unfold tst_kvexcmp. rewrite !scan_exversion by done.
  destruct t as [[[[t1 t2] t3] t4] t5], c as [[[[c1 c2] c3] c4] c5]. cbn [exnums nth] in *.
  repeat (apply Forall_cons in Ht as [? Ht]). repeat (apply Forall_cons in Hc as [? Hc]).
  rewrite !wraps_small by (change (32 - 1) with 31; lia). cbn [lex].
  lex_step c1 t1. lex_step c2 t2. lex_step c3 t3. lex_step c4 t4.
  destruct (Z.compare_spec c5 t5); [subst; by rewrite Z.sub_diag|apply Z.compare_lt_iff; lia|apply Z.compare_gt_iff; lia].
Qed.

Lemma tst_kvexcmp_correct_witness : (tst_kvexcmp (str "3.10.0-957.21") (str "3.10.0-1160.2.el7") ?= 0) = Gt.
Proof.
  apply (tst_kvexcmp_correct (3, 10, 0, 957, 21) (3, 10, 0, 1160, 2) [] (str ".el7"));
    [repeat constructor; lia|repeat constructor; lia|reflexivity|reflexivity].
Defined.
