(* ===== verification/Bitmask.v ===== *)
(** * Bit masks (testcases/kernel/controllers/cpuset/cpuset_lib/libbitmask.c)

    A bit mask is a number of bits and an array of unsigned longs.  Access
    outside the array is undefined ([None]); the loops count unsigned ints up
    to the size, so they neither wrap around nor fail to end.  The operations
    on several masks get pointers, which may be equal, into a store of masks.
    The text formats are in BitmaskText. *)

From stdpp Require Import gmap.
From S2P Require Import Prelude.
Open Scope Z_scope.

Record bitmask := mk_bm { size : Z; maskp : list Z }.

Definition bitsperlong : Z := 64.
Definition howmany (x y : Z) : Z := (x + (y - 1)) / y.
Definition longsperbits (n : Z) : Z := howmany n bitsperlong.

Definition _getbit (bmp : bitmask) (n : Z) : option Z :=
  if n <? size bmp then
    x ← maskp bmp !! Z.to_nat (n / bitsperlong);
    Some (Z.land (Z.shiftr x (n mod bitsperlong)) 1)
  else Some 0.

Definition _setbit (bmp : bitmask) (n v : Z) : option bitmask :=
  if n <? size bmp then
    let k := Z.to_nat (n / bitsperlong) in
    let m := wrapu 64 (Z.shiftl 1 (n mod bitsperlong)) in
    x ← maskp bmp !! k;
    Some (mk_bm (size bmp) (<[k := if negb (v =? 0) then Z.lor x m else Z.land x (wrapu 64 (Z.lnot m))]> (maskp bmp)))
  else Some bmp.

(** [malloc] and [calloc] may fail. *)
Definition bitmask_alloc (malloc_ok calloc_ok : bool) (n : Z) : option bitmask :=
  if negb malloc_ok then None else
  if negb calloc_ok then None else
  Some (mk_bm n (replicate (Z.to_nat (longsperbits n)) 0)).

(** ** Loops

    [for_up n i body] runs the body for [n] values from [i] on; [for_down] counts
    down from [i]. *)
Fixpoint for_up {S : Type} (n : nat) (i : Z) (body : Z → S → option S) (s : S) : option S :=
  match n with
  | O => Some s
  | Datatypes.S n => s ← body i s; for_up n (i + 1) body s
  end.

Fixpoint for_down {S : Type} (n : nat) (i : Z) (body : Z → S → option S) (s : S) : option S :=
  match n with
  | O => Some s
  | Datatypes.S n => s ← body i s; for_down n (i - 1) body s
  end.

(** [for (; ...; i++) if (c) return 0; return 1;] where the test is on the
    index alone. *)
Fixpoint none_of (n : nat) (i : Z) (c : Z → option bool) : option bool :=
  match n with
  | O => Some true
  | S n => r ← c i; if (r : bool) then Some false else none_of n (i + 1) c
  end.

(** The first [i] with [c], or the end of the range. *)
Fixpoint find_up (n : nat) (i : Z) (c : Z → option bool) : option Z :=
  match n with
  | O => Some i
  | S n => r ← c i; if (r : bool) then Some i else find_up n (i + 1) c
  end.

Definition isset (bmp : bitmask) (i : Z) : option bool := v ← _getbit bmp i; Some (negb (v =? 0)).
Definition isclear (bmp : bitmask) (i : Z) : option bool := v ← _getbit bmp i; Some (v =? 0).

(** ** Assignment, ranges and single bits *)

Definition bitmask_setall (bmp : bitmask) : option bitmask :=
  for_up (Z.to_nat (size bmp)) 0 (λ i b, _setbit b i 1) bmp.
Definition bitmask_clearall (bmp : bitmask) : option bitmask :=
  for_up (Z.to_nat (size bmp)) 0 (λ i b, _setbit b i 0) bmp.
Definition bitmask_setbit (bmp : bitmask) (i : Z) : option bitmask := _setbit bmp i 1.
Definition bitmask_clearbit (bmp : bitmask) (i : Z) : option bitmask := _setbit bmp i 0.
Definition bitmask_setrange (bmp : bitmask) (i j : Z) : option bitmask :=
  for_up (Z.to_nat (j - i)) i (λ n b, _setbit b n 1) bmp.
Definition bitmask_clearrange (bmp : bitmask) (i j : Z) : option bitmask :=
  for_up (Z.to_nat (j - i)) i (λ n b, _setbit b n 0) bmp.
Definition bitmask_keeprange (bmp : bitmask) (i j : Z) : option bitmask :=
  b ← bitmask_clearrange bmp 0 i;
  bitmask_clearrange b j (size b).

(** ** Queries *)

Definition bitmask_nbytes (bmp : bitmask) : Z := wrapu 32 (longsperbits (size bmp) * 8).
Definition bitmask_nbits (bmp : bitmask) : Z := size bmp.

(** [w], counted up for every bit in [i .. i + n - 1] that is set. *)
Definition count_bits (bmp : bitmask) (n : nat) (w : Z) : option Z :=
  for_up n 0 (λ i w, b ← isset bmp i; Some (if (b : bool) then w + 1 else w)) w.

Definition bitmask_weight (bmp : bitmask) : option Z := count_bits bmp (Z.to_nat (size bmp)) 0.

Definition bitmask_isbitset (bmp : bitmask) (i : Z) : option Z := _getbit bmp i.
Definition bitmask_isbitclear (bmp : bitmask) (i : Z) : option Z := v ← _getbit bmp i; Some (c_bool (v =? 0)).
Definition bitmask_isallset (bmp : bitmask) : option bool := none_of (Z.to_nat (size bmp)) 0 (isclear bmp).
Definition bitmask_isallclear (bmp : bitmask) : option bool := none_of (Z.to_nat (size bmp)) 0 (isset bmp).

Definition bitmask_equal (bmp1 bmp2 : bitmask) : option bool :=
  none_of (Z.to_nat (Z.max (size bmp1) (size bmp2))) 0
    (λ i, a ← _getbit bmp1 i; b ← _getbit bmp2 i; Some (negb (a =? b))).
Definition bitmask_subset (bmp1 bmp2 : bitmask) : option bool :=
  none_of (Z.to_nat (size bmp1)) 0 (λ i, a ← _getbit bmp1 i; b ← _getbit bmp2 i; Some (b <? a)).
Definition bitmask_disjoint (bmp1 bmp2 : bitmask) : option bool :=
  none_of (Z.to_nat (size bmp1)) 0 (λ i, a ← _getbit bmp1 i; b ← _getbit bmp2 i; Some (negb (Z.land a b =? 0))).
Definition bitmask_intersects (bmp1 bmp2 : bitmask) : option bool :=
  r ← none_of (Z.to_nat (size bmp1)) 0 (λ i, a ← _getbit bmp1 i; b ← _getbit bmp2 i; Some (negb (Z.land a b =? 0)));
  Some (negb r).

Definition bitmask_next (bmp : bitmask) (i : Z) : option Z :=
  find_up (Z.to_nat (size bmp - i)) i (isset bmp).
Definition bitmask_first (bmp : bitmask) : option Z := bitmask_next bmp 0.

(** [inl i] is the break, [inr n] what is left of the count. *)
Definition bitmask_rel_to_abs_pos (bmp : bitmask) (n : Z) : option Z :=
  r ← for_up (Z.to_nat (size bmp)) 0 (λ i r,
        match r with
        | inl i => Some (inl i)
        | inr n => b ← isset bmp i;
                   Some (if (b : bool) then if n =? 0 then inl i else inr (n - 1) else inr n)
        end) (inr n);
  Some (match r with inl i => i | inr _ => size bmp end).

Definition bitmask_abs_to_rel_pos (bmp : bitmask) (n : Z) : option Z :=
  b ← isset bmp n;
  if negb b then Some (size bmp) else count_bits bmp (Z.to_nat n) 0.

Definition bitmask_last (bmp : bitmask) : option Z :=
  for_up (Z.to_nat (size bmp)) 0 (λ i m, b ← isset bmp i; Some (if (b : bool) then i else m)) (size bmp).

(** ** Operations on several masks

    The masks are in a store; the arguments are pointers into it. *)
Abbreviation store := (gmap nat bitmask).

Definition get (p : nat) (i : Z) (st : store) : option Z := b ← st !! p; _getbit b i.

(** [_setbit(bmp1, i, v)] with a value computed from the store. *)
Definition assign (p : nat) (i : Z) (v : store → option Z) (st : store) : option store :=
  x ← v st;
  b ← st !! p;
  b' ← _setbit b i x;
  Some (<[p := b']> st).

Definition assign_all (p : nat) (v : Z → store → option Z) (st : store) : option store :=
  b ← st !! p;
  for_up (Z.to_nat (size b)) 0 (λ i, assign p i (v i)) st.

Definition bitmask_copy (p1 p2 : nat) : store → option store := assign_all p1 (λ i, get p2 i).
Definition bitmask_complement (p1 p2 : nat) : store → option store :=
  assign_all p1 (λ i st, a ← get p2 i st; Some (c_bool (a =? 0))).
Definition bitmask_shiftright (p1 p2 : nat) (n : Z) : store → option store :=
  assign_all p1 (λ i, get p2 (wrapu 32 (i + n))).

(** The index is an int: it starts at [size - 1] converted from unsigned. *)
Definition bitmask_shiftleft (p1 p2 : nat) (n : Z) (st : store) : option store :=
  b ← st !! p1;
  let i := wraps 32 (size b - 1) in
  for_down (Z.to_nat (i + 1)) i (λ i, assign p1 i (get p2 (wrapu 32 (i - n)))) st.

Definition bitmask_binop (f : Z → Z → Z) (p1 p2 p3 : nat) : store → option store :=
  assign_all p1 (λ i st, a ← get p2 i st; b ← get p3 i st; Some (f a b)).
Definition bitmask_and : nat → nat → nat → store → option store := bitmask_binop Z.land.
Definition bitmask_andnot : nat → nat → nat → store → option store :=
  bitmask_binop (λ a b, Z.land a (wrapu 32 (Z.lnot b))).
Definition bitmask_or : nat → nat → nat → store → option store := bitmask_binop Z.lor.
Definition bitmask_eor : nat → nat → nat → store → option store := bitmask_binop Z.lxor.
