(* ===== verification/BitmaskFacts.v ===== *)
(** * Bit masks implement finite sets of numbers

    A well-formed mask stands for the set of its bits.  The operations on
    masks, also when some of their arguments are the same mask, are the
    operations on sets, restricted to the size of the result. *)

From stdpp Require Import gmap.
From S2P Require Import Prelude Bitmask.
Open Scope Z_scope.

(** ** Bits of a mask *)

Definition bit (b : bitmask) (n : Z) : bool :=
  (0 <=? n) && (n <? size b) && Z.testbit (default 0 (maskp b !! Z.to_nat (n / 64))) (n mod 64).

Definition wf (b : bitmask) : Prop :=
  0 ≤ size b < 2 ^ 32 ∧ length (maskp b) = Z.to_nat (longsperbits (size b)) ∧ Forall (λ x, 0 ≤ x < 2 ^ 64) (maskp b).

(** A mask of [n] bits with the bits [X]. *)
Definition shows (b : bitmask) (n : Z) (X : Z → bool) : Prop := wf b ∧ size b = n ∧ ∀ m, bit b m = X m.

Create HintDb bitmask.

Lemma shows_bit b : wf b → shows b (size b) (bit b).
Proof. by intros. Qed.
#[export] Hint Resolve shows_bit : bitmask.

Lemma bit_range b n : bit b n = true → 0 ≤ n < size b.
Proof. unfold bit. rewrite !andb_true_iff, Z.leb_le, Z.ltb_lt. tauto. Qed.

Lemma bit_out b n : n < 0 ∨ size b ≤ n → bit b n = false.
Proof. intros H. destruct (bit b n) eqn:E; [|done]. apply bit_range in E. lia. Qed.

Lemma long_index b n : wf b → 0 ≤ n < size b → ∃ x, maskp b !! Z.to_nat (n / 64) = Some x ∧ 0 ≤ x < 2 ^ 64.
Proof.
  intros (Hs & Hl & Hx) Hn.
  destruct (lookup_lt_is_Some_2 (maskp b) (Z.to_nat (n / 64))) as [x E].
  { rewrite Hl. unfold longsperbits, howmany, bitsperlong. apply Z2Nat.inj_lt; [apply Z.div_pos; lia..|].
    apply Z.div_lt_upper_bound; [lia|]. Z.div_mod_to_equations; lia. }
  exists x. split; [done|]. exact (Forall_lookup_1 _ _ _ _ Hx E).
Qed.

Lemma land_1 x : Z.land x 1 = c_bool (Z.testbit x 0).
Proof.
  apply Z.bits_inj'. intros i Hi. rewrite Z.land_spec. destruct (decide (i = 0)) as [->|].
  - destruct (Z.testbit x 0); done.
  - rewrite (Z.bits_above_log2 1 i), (Z.bits_above_log2 (c_bool _) i), andb_false_r;
      destruct (Z.testbit x 0); simpl; lia.
Qed.

Lemma getbit_spec b n : wf b → 0 ≤ n → _getbit b n = Some (c_bool (bit b n)).
Proof.
  intros Hw Hn. unfold _getbit, bit. rewrite (proj2 (Z.leb_le 0 n)) by done.
  destruct (Z.ltb_spec n (size b)); simpl; [|done].
  destruct (long_index b n) as (x & E & _); [done|lia|]. unfold bitsperlong. rewrite E. simpl.
  rewrite land_1, Z.shiftr_spec by lia. done.
Qed.

(** The two updates of a word. *)
Lemma word_update x k i (on : bool) :
  0 ≤ x < 2 ^ 64 → 0 ≤ k < 64 → 0 ≤ i < 64 →
  let m := wrapu 64 (Z.shiftl 1 k) in
  let y := if on then Z.lor x m else Z.land x (wrapu 64 (Z.lnot m)) in
  0 ≤ y < 2 ^ 64 ∧ Z.testbit y i = if i =? k then on else Z.testbit x i.
Proof.
  intros Hx Hk Hi. cbn zeta.
  assert (wrapu 64 (Z.shiftl 1 k) = 2 ^ k) as ->.
  { rewrite Z.shiftl_1_l. apply wrapu_small. split; [apply Z.pow_nonneg; lia|apply Z.pow_lt_mono_r; lia]. }
  assert (∀ y, (∀ j, 64 ≤ j → Z.testbit y j = false) → 0 ≤ y → 0 ≤ y < 2 ^ 64) as Hb.
  { intros y Hy H0. split; [done|]. rewrite <- (Z.mod_small y (2 ^ 64)); [apply Z.mod_pos_bound; lia|].
    split; [done|]. destruct (Z.ltb_spec y (2 ^ 64)) as [|Hge]; [done|]. exfalso.
    assert (64 ≤ Z.log2 y) as L by (apply Z.log2_le_pow2; lia).
    specialize (Hy _ L). rewrite Z.bit_log2 in Hy by lia. done. }
  assert (∀ j, 64 ≤ j → Z.testbit x j = false) as Hxj.
  { intros j Hj. rewrite <- (Z.mod_small x (2 ^ 64)) by done. apply Z.mod_pow2_bits_high. lia. }
  destruct on.
  - split.
    + apply Hb; [|apply Z.lor_nonneg; split; [lia|apply Z.pow_nonneg; lia]].
      intros j Hj. rewrite Z.lor_spec, Hxj, Z.pow2_bits_eqb by lia. by apply Z.eqb_neq; lia.
    + rewrite Z.lor_spec, Z.pow2_bits_eqb, Z.eqb_sym by lia. destruct (i =? k); [by rewrite orb_true_r|by rewrite orb_false_r].
  - unfold wrapu. split.
    + apply Hb; [|apply Z.land_nonneg; lia]. intros j Hj. rewrite Z.land_spec, Hxj by lia. done.
    + rewrite Z.land_spec, Z.mod_pow2_bits_low, Z.lnot_spec, Z.pow2_bits_eqb, Z.eqb_sym by lia.
      destruct (i =? k); [by rewrite andb_false_r|by rewrite andb_true_r].
Qed.

Lemma setbit_spec b n v :
  wf b → 0 ≤ n →
  ∃ b', _setbit b n v = Some b' ∧ shows b' (size b) (λ m, if (m =? n) && (n <? size b) then negb (v =? 0) else bit b m).
Proof.
  intros Hw Hn. unfold _setbit. destruct (Z.ltb_spec n (size b)) as [Hlt|Hge].
  2:{ exists b. split; [done|]. split_and!; [done..|]. intros m. by rewrite andb_false_r. }
  destruct (long_index b n) as (x & E & Hx); [done|lia|]. unfold bitsperlong. rewrite E. bind_step.
  eexists. split; [done|]. set (on := negb (v =? 0)).
  assert (0 ≤ n mod 64 < 64) as Hk by (apply Z.mod_pos_bound; lia).
  destruct Hw as (Hs & Hl & Hf). split_and!; [split_and!| done |]; simpl.
  - lia. - lia. - by rewrite length_insert.
  - apply Forall_insert; [done|]. by apply (word_update x (n mod 64) 0 on); [|lia..].
  - intros m. unfold bit. simpl. rewrite andb_true_r.
    destruct (Z.eqb_spec m n) as [->|Hne].
    + rewrite list_lookup_insert_eq by (by eapply lookup_lt_Some). simpl.
      rewrite (proj2 (Z.leb_le 0 n)), (proj2 (Z.ltb_lt n (size b))) by lia. simpl.
      rewrite (proj2 (word_update x (n mod 64) (n mod 64) on Hx Hk Hk)). by rewrite Z.eqb_refl.
    + destruct (Z.leb_spec 0 m); [|done]. destruct (Z.ltb_spec m (size b)); [|done]. simpl.
      assert (0 ≤ m mod 64 < 64) as Hm by (apply Z.mod_pos_bound; lia).
      destruct (decide (Z.to_nat (m / 64) = Z.to_nat (n / 64))) as [Eq|Ne].
      * rewrite Eq, E, list_lookup_insert_eq by (by eapply lookup_lt_Some). simpl.
        rewrite (proj2 (word_update x (n mod 64) (m mod 64) on Hx Hk Hm)).
        destruct (Z.eqb_spec (m mod 64) (n mod 64)); [|done].
        exfalso. apply Hne. apply Z2Nat.inj in Eq; [|Z.div_mod_to_equations; lia..]. Z.div_mod_to_equations. lia.
      * by rewrite list_lookup_insert_ne.
Qed.

(** ** Loops *)

Lemma for_up_inv {S} (I : Z → S → Prop) n i body s :
  I i s → (∀ k s, i ≤ k < i + Z.of_nat n → I k s → ∃ s', body k s = Some s' ∧ I (k + 1) s') →
  ∃ s', for_up n i body s = Some s' ∧ I (i + Z.of_nat n) s'.
Proof.
  revert i s. induction n as [|n IH]; intros i s Hi Hb; cbn [for_up].
  { exists s. by rewrite Z.add_0_r. }
  destruct (Hb i s) as (s1 & -> & H1); [lia|done|]. bind_step.
  replace (i + Z.of_nat (Datatypes.S n)) with (i + 1 + Z.of_nat n) by lia.
  apply IH; [done|]. intros k s2 Hk. apply Hb. lia.
Qed.

Lemma for_down_inv {S} (I : Z → S → Prop) n i body s :
  I i s → (∀ k s, i - Z.of_nat n < k ≤ i → I k s → ∃ s', body k s = Some s' ∧ I (k - 1) s') →
  ∃ s', for_down n i body s = Some s' ∧ I (i - Z.of_nat n) s'.
Proof.
  revert i s. induction n as [|n IH]; intros i s Hi Hb; cbn [for_down].
  { exists s. by rewrite Z.sub_0_r. }
  destruct (Hb i s) as (s1 & -> & H1); [lia|done|]. bind_step.
  replace (i - Z.of_nat (Datatypes.S n)) with (i - 1 - Z.of_nat n) by lia.
  apply IH; [done|]. intros k s2 Hk. apply Hb. lia.
Qed.

Lemma none_of_spec n i c f :
  (∀ k, i ≤ k < i + Z.of_nat n → c k = Some (f k)) →
  ∃ r, none_of n i c = Some r ∧ (r = true ↔ ∀ k, i ≤ k < i + Z.of_nat n → f k = false).
Proof.
  revert i. induction n as [|n IH]; intros i Hc; cbn [none_of].
  { exists true. split; [done|]. split; [intros _ k; lia|done]. }
  rewrite Hc by lia. bind_step. destruct (f i) eqn:E.
  { exists false. split; [done|]. split; [done|]. intros H. rewrite H in E by lia. done. }
  destruct (IH (i + 1)) as (r & -> & Hr). { intros k Hk. apply Hc. lia. }
  exists r. split; [done|]. rewrite Hr. split.
  - intros H k Hk. destruct (decide (k = i)) as [->|]; [done|]. apply H. lia.
  - intros H k Hk. apply H. lia.
Qed.

Lemma find_up_spec n i c f :
  (∀ k, i ≤ k < i + Z.of_nat n → c k = Some (f k)) →
  ∃ r, find_up n i c = Some r ∧ i ≤ r ≤ i + Z.of_nat n ∧ (∀ k, i ≤ k < r → f k = false) ∧
    (r < i + Z.of_nat n → f r = true).
Proof.
  revert i. induction n as [|n IH]; intros i Hc; cbn [find_up].
  { exists i. split_and!; [done|lia|lia|lia|lia]. }
  rewrite Hc by lia. bind_step. destruct (f i) eqn:E.
  { exists i. split_and!; [done|lia|lia|lia|done]. }
  destruct (IH (i + 1)) as (r & -> & Hr & H1 & H2). { intros k Hk. apply Hc. lia. }
  exists r. split_and!; [done|lia|lia| |].
  - intros k Hk. destruct (decide (k = i)) as [->|]; [done|]. apply H1. lia.
  - intros. apply H2. lia.
Qed.

Lemma isset_spec b i : wf b → 0 ≤ i → isset b i = Some (bit b i).
Proof. intros Hw Hi. unfold isset. rewrite getbit_spec by done. by destruct (bit b i). Qed.

Lemma isclear_spec b i : wf b → 0 ≤ i → isclear b i = Some (negb (bit b i)).
Proof. intros Hw Hi. unfold isclear. rewrite getbit_spec by done. by destruct (bit b i). Qed.

(** Setting the bits of a range to one value. *)
Lemma setbits_spec b i n v :
  wf b → 0 ≤ i →
  ∃ b', for_up n i (λ k b, _setbit b k v) b = Some b' ∧
    shows b' (size b) (λ m, if (i <=? m) && (m <? i + Z.of_nat n) && (m <? size b) then negb (v =? 0) else bit b m).
Proof.
  intros Hw Hi.
  destruct (for_up_inv (λ k x, i ≤ k ∧ shows x (size b) (λ m, if (i <=? m) && (m <? k) && (m <? size b)
      then negb (v =? 0) else bit b m)) n i (λ k b, _setbit b k v) b) as (b' & E & _ & H).
  - split; [lia|]. split_and!; [done..|]. intros m. repeat zcase; done.
  - intros k x Hk (Hik & Hwx & Hs & Hb). destruct (setbit_spec x k v) as (x' & -> & Hw' & Hs' & Hb'); [done|lia|].
    exists x'. split; [done|]. split; [lia|]. split_and!; [done|congruence|].
    intros m. rewrite Hb', Hs, Hb. repeat zcase; done.
  - by exists b'.
Qed.

Lemma clearall_spec b : wf b → ∃ b', bitmask_clearall b = Some b' ∧ shows b' (size b) (λ _, false).
Proof.
  intros Hw. destruct (setbits_spec b 0 (Z.to_nat (size b)) 0) as (b' & E & Hw' & Hs & Hb); [done|lia|].
  exists b'. split; [done|]. split_and!; [done..|]. intros m. rewrite Hb.
  destruct Hw as (Hs0 & _). rewrite Z2Nat.id by lia.
  destruct (Z.leb_spec 0 m); [destruct (Z.ltb_spec m (0 + size b)); [destruct (Z.ltb_spec m (size b)); [done|lia]|]|];
    simpl; apply bit_out; lia.
Qed.

(** ** The set of a mask *)

Definition elems (b : bitmask) : gset Z := list_to_set (filter (λ n, bit b n = true) (seqZ 0 (size b))).

Lemma elem_of_elems b n : n ∈ elems b ↔ bit b n = true.
Proof.
  unfold elems. rewrite elem_of_list_to_set, list_elem_of_filter, elem_of_seqZ.
  split; [tauto|]. intros H. split; [done|]. apply bit_range in H. lia.
Qed.

(** The numbers below a size. *)
Definition below (n : Z) : gset Z := list_to_set (seqZ 0 n).

Lemma elem_of_below n m : m ∈ below n ↔ 0 ≤ m < n.
Proof. unfold below. rewrite elem_of_list_to_set, elem_of_seqZ. lia. Qed.

Lemma elems_shows b n X : shows b n X → ∀ m, m ∈ elems b ↔ X m = true.
Proof. intros (_ & _ & H) m. by rewrite elem_of_elems, H. Qed.

Lemma elems_below b : elems b ⊆ below (size b).
Proof. intros m. rewrite elem_of_elems, elem_of_below. apply bit_range. Qed.

(** ** Assignments in a store *)

(** A store in which only the mask at [p] has changed, to the bits [X]. *)
Definition becomes (st0 : store) (p : nat) (n : Z) (X : Z → bool) (st : store) : Prop :=
  ∃ b, st = <[p := b]> st0 ∧ shows b n X.

Lemma get_spec st p b i : st !! p = Some b → wf b → 0 ≤ i → get p i st = Some (c_bool (bit b i)).
Proof. intros E Hw Hi. unfold get. rewrite E. simpl. by apply getbit_spec. Qed.

(** Another mask, or the same one at a bit that still has its old value. *)
Lemma get_becomes st0 p n X st q b i :
  becomes st0 p n X st → st0 !! q = Some b → wf b → 0 ≤ i → (p = q → X i = bit b i) →
  get q i st = Some (c_bool (bit b i)).
Proof.
  intros (x & -> & Hw & Hs & Hb) E Hwb Hi HX. destruct (decide (p = q)) as [->|Hne].
  - rewrite (get_spec _ q x) by (done || apply lookup_insert_eq). by rewrite Hb, HX.
  - apply get_spec; [by rewrite lookup_insert_ne|done..].
Qed.

Lemma assign_becomes st0 p n X st k v x :
  becomes st0 p n X st → 0 ≤ k < n → v st = Some x →
  ∃ st', assign p k v st = Some st' ∧ becomes st0 p n (λ m, if m =? k then negb (x =? 0) else X m) st'.
Proof.
  intros (b & -> & Hw & Hs & Hb) Hk Hv. unfold assign. rewrite Hv. bind_step. rewrite lookup_insert_eq. bind_step.
  destruct (setbit_spec b k x) as (b' & -> & Hw' & Hs' & Hb'); [done|lia|]. bind_step.
  eexists. split; [done|]. exists b'. split; [by rewrite insert_insert_eq|]. split_and!; [done|congruence|].
  intros m. rewrite Hb', Hs. by rewrite (proj2 (Z.ltb_lt k n)), andb_true_r, Hb by lia.
Qed.

(** A loop upwards that reads, in other masks or at bits not yet written. *)
Lemma assign_all_spec st0 p b v F :
  st0 !! p = Some b → wf b →
  (∀ k X st, 0 ≤ k < size b → becomes st0 p (size b) X st → (∀ m, k ≤ m → X m = bit b m) →
     ∃ x, v k st = Some x ∧ negb (x =? 0) = F k) →
  ∃ b', assign_all p v st0 = Some (<[p := b']> st0) ∧ shows b' (size b) (λ m, (0 <=? m) && (m <? size b) && F m).
Proof.
  intros E Hw Hv. unfold assign_all. rewrite E. bind_step. pose proof Hw as (Hs0 & _).
  destruct (for_up_inv (λ k, becomes st0 p (size b) (λ m, if (0 <=? m) && (m <? k) then F m else bit b m))
    (Z.to_nat (size b)) 0 (λ i, assign p i (v i)) st0) as (st' & -> & (b' & -> & H)).
  - exists b. split; [by rewrite insert_id|]. split_and!; [done..|]. intros m. repeat zcase; done.
  - intros k st Hk HI. edestruct (Hv k) as (x & Hx & HF); [lia|exact HI| |].
    { intros m Hm. simpl. repeat zcase; done. }
    destruct (assign_becomes st0 p (size b) _ st k (v k) x HI) as (st' & -> & H'); [lia|done|].
    exists st'. split; [done|]. destruct H' as (b' & -> & Hw' & Hs' & Hb'). exists b'. split; [done|].
    split_and!; [done..|]. intros m. rewrite Hb', HF. repeat zcase; subst; done.
  - exists b'. split; [done|]. destruct H as (Hw' & Hs' & Hb'). split_and!; [done..|].
    intros m. rewrite Hb'. destruct (Z.leb_spec 0 m); simpl; [|apply bit_out; lia].
    destruct (Z.ltb_spec m (0 + Z.of_nat (Z.to_nat (size b)))), (Z.ltb_spec m (size b)); simpl; try lia; [done|apply bit_out; lia].
Qed.

Lemma binop_spec st p1 p2 p3 b1 b2 b3 f F :
  st !! p1 = Some b1 → st !! p2 = Some b2 → st !! p3 = Some b3 → wf b1 → wf b2 → wf b3 →
  (∀ x y, negb (f (c_bool x) (c_bool y) =? 0) = F x y) →
  ∃ b, bitmask_binop f p1 p2 p3 st = Some (<[p1 := b]> st) ∧
    shows b (size b1) (λ m, (0 <=? m) && (m <? size b1) && F (bit b2 m) (bit b3 m)).
Proof.
  intros E1 E2 E3 H1 H2 H3 HF. unfold bitmask_binop.
  apply (assign_all_spec st p1 b1 _ (λ m, F (bit b2 m) (bit b3 m))); [done..|].
  intros k X st' Hk HB HX.
  assert (∀ q b, st !! q = Some b → wf b → get q k st' = Some (c_bool (bit b k))) as Hg.
  { intros q b Eq Hb. eapply get_becomes; [done..|lia|]. intros ->. rewrite HX by lia. congruence. }
  rewrite (Hg p2 b2), (Hg p3 b3) by done. eexists. split; [done|]. apply HF.
Qed.

Lemma copy_spec st p1 p2 b1 b2 :
  st !! p1 = Some b1 → st !! p2 = Some b2 → wf b1 → wf b2 →
  ∃ b, bitmask_copy p1 p2 st = Some (<[p1 := b]> st) ∧
    shows b (size b1) (λ m, (0 <=? m) && (m <? size b1) && bit b2 m).
Proof.
  intros E1 E2 H1 H2. apply (assign_all_spec st p1 b1 _ (bit b2)); [done..|].
  intros k X st' Hk HB HX. erewrite get_becomes; [|done..|lia|].
  - eexists. split; [done|]. by destruct (bit b2 k).
  - intros ->. rewrite HX by lia. congruence.
Qed.

Lemma complement_spec st p1 p2 b1 b2 :
  st !! p1 = Some b1 → st !! p2 = Some b2 → wf b1 → wf b2 →
  ∃ b, bitmask_complement p1 p2 st = Some (<[p1 := b]> st) ∧
    shows b (size b1) (λ m, (0 <=? m) && (m <? size b1) && negb (bit b2 m)).
Proof.
  intros E1 E2 H1 H2. apply (assign_all_spec st p1 b1 _ (λ m, negb (bit b2 m))); [done..|].
  intros k X st' Hk HB HX. erewrite get_becomes; [|done..|lia|].
  - eexists. split; [done|]. by destruct (bit b2 k).
  - intros ->. rewrite HX by lia. congruence.
Qed.

Lemma shiftright_spec st p1 p2 n b1 b2 :
  st !! p1 = Some b1 → st !! p2 = Some b2 → wf b1 → wf b2 → 0 ≤ n → n + size b1 ≤ 2 ^ 32 →
  ∃ b, bitmask_shiftright p1 p2 n st = Some (<[p1 := b]> st) ∧
    shows b (size b1) (λ m, (0 <=? m) && (m <? size b1) && bit b2 (m + n)).
Proof.
  intros E1 E2 H1 H2 Hn Hs. apply (assign_all_spec st p1 b1 _ (λ m, bit b2 (m + n))); [done..|].
  intros k X st' Hk HB HX. rewrite wrapu_small by lia. erewrite get_becomes; [|done..|lia|].
  - eexists. split; [done|]. by destruct (bit b2 (k + n)).
  - intros ->. rewrite HX by lia. congruence.
Qed.

Lemma shiftleft_spec st p1 p2 n b1 b2 :
  st !! p1 = Some b1 → st !! p2 = Some b2 → wf b1 → wf b2 → size b1 ≤ 2 ^ 31 → size b2 ≤ 2 ^ 31 →
  0 ≤ n < 2 ^ 31 →
  ∃ b, bitmask_shiftleft p1 p2 n st = Some (<[p1 := b]> st) ∧
    shows b (size b1) (λ m, (0 <=? m) && (m <? size b1) && bit b2 (m - n)).
Proof.
  intros E1 E2 H1 H2 Hs1 Hs2 Hn. unfold bitmask_shiftleft. rewrite E1. bind_step. pose proof H1 as (Hs0 & _).
  rewrite wraps_small by lia. set (s := size b1) in *.
  destruct (for_down_inv (λ k, becomes st p1 s (λ m, if (k <? m) && (m <? s) then bit b2 (m - n) else bit b1 m))
    (Z.to_nat (s - 1 + 1)) (s - 1) (λ i, assign p1 i (get p2 (wrapu 32 (i - n)))) st) as (st' & -> & (b & -> & H)).
  - exists b1. split; [by rewrite insert_id|]. split_and!; [done..|]. intros m. repeat zcase; done.
  - intros k st' Hk HI.
    assert (∃ x, get p2 (wrapu 32 (k - n)) st' = Some x ∧ negb (x =? 0) = bit b2 (k - n)) as (x & Hx & Hbx).
    { destruct (Z.leb_spec n k).
      - rewrite wrapu_small by lia. erewrite get_becomes; [|done..|lia|].
        + eexists. split; [done|]. by destruct (bit b2 (k - n)).
        + intros ->. simpl. replace b2 with b1 by congruence. repeat zcase; done.
      - assert (wrapu 32 (k - n) = k - n + 2 ^ 32) as ->.
        { unfold wrapu. rewrite <- (Z.mod_add (k - n) 1) by lia. apply Z.mod_small. lia. }
        erewrite get_becomes; [|done..|lia|].
        + rewrite !bit_out by lia. by eexists.
        + intros ->. simpl. replace b2 with b1 by congruence. repeat zcase; done. }
    destruct (assign_becomes st p1 s _ st' k (get p2 (wrapu 32 (k - n))) x HI) as (st2 & -> & H'); [lia|done|].
    exists st2. split; [done|]. destruct H' as (b' & -> & Hw' & Hs' & Hb'). exists b'. split; [done|].
    split_and!; [done..|]. intros m. rewrite Hb', Hbx. repeat zcase; subst; done.
  - exists b. split; [done|]. destruct H as (Hw' & Hs' & Hb'). split_and!; [done..|].
    intros m. rewrite Hb', Z2Nat.id by lia. repeat zcase; try done. all: simpl; apply bit_out; lia.
Qed.

(** ** The operations are those on sets *)

Section Sets.
Context (st : store) (p1 p2 p3 : nat) (b1 b2 b3 : bitmask).
Context (E1 : st !! p1 = Some b1) (E2 : st !! p2 = Some b2) (E3 : st !! p3 = Some b3).
Context (H1 : wf b1) (H2 : wf b2) (H3 : wf b3).

(** The mask at [p1] becomes the part of [X] below its size. *)
Definition sets (op : store → option store) (X : gset Z) : Prop :=
  ∃ b, op st = Some (<[p1 := b]> st) ∧ wf b ∧ size b = size b1 ∧ elems b = X ∩ below (size b1).

Lemma sets_intro op F X :
  (∃ b, op st = Some (<[p1 := b]> st) ∧ shows b (size b1) (λ m, (0 <=? m) && (m <? size b1) && F m)) →
  (∀ m, 0 ≤ m < size b1 → F m = true ↔ m ∈ X) → sets op X.
Proof.
  intros (b & Eb & Hb) HX. exists b. pose proof Hb as (Hw & Hs & _). split_and!; [done..|].
  apply set_eq. intros m. rewrite (elems_shows _ _ _ Hb), elem_of_intersection, elem_of_below.
  rewrite !andb_true_iff, Z.leb_le, Z.ltb_lt. specialize (HX m). tauto.
Qed.

Lemma sets_binop f F X :
  (∀ x y, negb (f (c_bool x) (c_bool y) =? 0) = F x y) →
  (∀ m, F (bit b2 m) (bit b3 m) = true ↔ m ∈ X) → sets (bitmask_binop f p1 p2 p3) X.
Proof.
  intros HF HX. apply (sets_intro _ (λ m, F (bit b2 m) (bit b3 m))); [by apply binop_spec|]. auto.
Qed.

End Sets.

(** C22. The operations on masks implement the operations on sets: copy,
    complement, and, andnot, or, exclusive or and the two shifts give the
    destination the set it should have, below its own size, keep it
    well-formed and leave the other masks alone, also when the destination is
    one of the operands. *)
Theorem bitmask_ops_sets (st : store) (p1 p2 p3 : nat) (b1 b2 b3 : bitmask) (n : Z) :
  st !! p1 = Some b1 → st !! p2 = Some b2 → st !! p3 = Some b3 → wf b1 → wf b2 → wf b3 →
  let sets := sets st p1 b1 in
  sets (bitmask_copy p1 p2) (elems b2) ∧
  sets (bitmask_complement p1 p2) (below (size b1) ∖ elems b2) ∧
  sets (bitmask_and p1 p2 p3) (elems b2 ∩ elems b3) ∧
  sets (bitmask_andnot p1 p2 p3) (elems b2 ∖ elems b3) ∧
  sets (bitmask_or p1 p2 p3) (elems b2 ∪ elems b3) ∧
  sets (bitmask_eor p1 p2 p3) ((elems b2 ∖ elems b3) ∪ (elems b3 ∖ elems b2)) ∧
  (0 ≤ n < 2 ^ 31 → size b1 ≤ 2 ^ 31 → size b2 ≤ 2 ^ 31 →
   sets (bitmask_shiftright p1 p2 n) (set_map (λ m, m - n) (elems b2)) ∧
   sets (bitmask_shiftleft p1 p2 n) (set_map (λ m, m + n) (elems b2))).
Proof.
  intros E1 E2 E3 H1 H2 H3. cbn zeta. split_and!.
  - eapply sets_intro; [by apply copy_spec|]. intros m _. by rewrite elem_of_elems.
  - eapply sets_intro; [by apply complement_spec|]. intros m Hm.
    rewrite elem_of_difference, elem_of_below, elem_of_elems, negb_true_iff, <- not_true_iff_false. tauto.
  - eapply (sets_binop st p1 p2 p3 b1 b2 b3 E1 E2 E3 H1 H2 H3 _ andb); [by intros [] []|].
    intros m. by rewrite elem_of_intersection, !elem_of_elems, andb_true_iff.
  - eapply (sets_binop st p1 p2 p3 b1 b2 b3 E1 E2 E3 H1 H2 H3 _ (λ x y, x && negb y)); [by intros [] []|]. intros m.
    by rewrite elem_of_difference, !elem_of_elems, andb_true_iff, negb_true_iff, not_true_iff_false.
  - eapply (sets_binop st p1 p2 p3 b1 b2 b3 E1 E2 E3 H1 H2 H3 _ orb); [by intros [] []|].
    intros m. by rewrite elem_of_union, !elem_of_elems, orb_true_iff.
  - eapply (sets_binop st p1 p2 p3 b1 b2 b3 E1 E2 E3 H1 H2 H3 _ xorb); [by intros [] []|]. intros m.
    rewrite elem_of_union, !elem_of_difference, !elem_of_elems. destruct (bit b2 m), (bit b3 m); cbn; intuition congruence.
  - intros Hn Hs1 Hs2. split.
    + eapply sets_intro; [apply shiftright_spec; (done || lia)|]. intros m Hm. rewrite elem_of_map.
      setoid_rewrite elem_of_elems. split; [|by intros (x & -> & Hx); rewrite Z.sub_add in *].
      intros Hb. exists (m + n). split; [lia|done].
    + eapply sets_intro; [apply shiftleft_spec; (done || lia)|]. intros m Hm. rewrite elem_of_map.
      setoid_rewrite elem_of_elems. split; [|by intros (x & -> & Hx); rewrite Z.add_simpl_r in *].
      intros Hb. exists (m - n). split; [lia|done].
Qed.

(** A mask of 70 bits with two of them set, and one of 10 bits; the first is
    shifted in place. *)
Definition demo70 : bitmask := mk_bm 70 [2 ^ 63 + 8; 1].
Definition demo10 : bitmask := mk_bm 10 [8].

Lemma demo_mask_wf : wf demo70 ∧ wf demo10.
Proof. unfold wf. cbn. repeat split; try lia; repeat constructor; lia. Defined.

Lemma bitmask_ops_sets_witness :
  ∃ b, bitmask_shiftleft 0 0 61 {[0%nat := demo70; 1%nat := demo10]} =
    Some (<[0%nat := b]> {[0%nat := demo70; 1%nat := demo10]}) ∧ size b = 70.
Proof.
  destruct demo_mask_wf as [H70 H10].
  destruct (bitmask_ops_sets {[0%nat := demo70; 1%nat := demo10]} 0 0 1 demo70 demo70 demo10 61)
    as (_ & _ & _ & _ & _ & _ & H); [reflexivity..|exact H70|exact H70|exact H10|].
  destruct H as [_ (b & E & _ & Hs & _)]; [lia|exact (proj1 (Z.leb_le 70 (2 ^ 31)) eq_refl)..|].
  exists b. split; [exact E|exact Hs].
Defined.

(** ** Queries *)

(** The number of bits that are set below [n]. *)
Definition rank (b : bitmask) (n : Z) : Z := Z.of_nat (length (filter (λ m, bit b m = true) (seqZ 0 n))).

Lemma rank_succ b n : 0 ≤ n → rank b (n + 1) = rank b n + c_bool (bit b n).
Proof.
  intros Hn. unfold rank. rewrite seqZ_app, filter_app, length_app, Nat2Z.inj_add by lia. f_equal.
  rewrite seqZ_cons, filter_cons, Z.add_0_l by lia. by destruct (bit b n).
Qed.

Lemma rank_0 b : rank b 0 = 0.
Proof. done. Qed.

Lemma rank_mono b n m : 0 ≤ n ≤ m → rank b n ≤ rank b m.
Proof.
  intros H. replace m with (n + (m - n)) by lia. unfold rank.
  rewrite seqZ_app, filter_app, length_app by lia. lia.
Qed.

Lemma rank_lt b n m : 0 ≤ n < m → bit b n = true → rank b n < rank b m.
Proof.
  intros H Hb. pose proof (rank_mono b (n + 1) m). rewrite rank_succ, Hb in * by lia. simpl in *. lia.
Qed.

Lemma count_bits_spec b n w : wf b → count_bits b n w = Some (w + rank b (Z.of_nat n)).
Proof.
  intros Hw. unfold count_bits.
  destruct (for_up_inv (λ k x, 0 ≤ k ∧ x = w + rank b k) n 0
    (λ i w, x ← isset b i; Some (if (x : bool) then w + 1 else w)) w) as (x & -> & _ & ->); [|  |done].
  - rewrite rank_0. lia.
  - intros k x Hk [_ ->]. rewrite isset_spec by (done || lia). bind_step. eexists. split; [done|].
    split; [lia|]. rewrite rank_succ by lia. destruct (bit b k); simpl; lia.
Qed.

Lemma weight_spec b : wf b → bitmask_weight b = Some (rank b (size b)).
Proof. intros Hw. unfold bitmask_weight. rewrite count_bits_spec by done. destruct Hw as (? & _). by rewrite Z2Nat.id by lia. Qed.

Lemma rank_elems b : rank b (size b) = Z.of_nat (base.size (elems b)).
Proof.
  unfold rank, elems. rewrite size_list_to_set; [done|]. apply NoDup_filter. apply NoDup_seqZ.
Qed.

Lemma next_spec b i :
  wf b → 0 ≤ i ≤ size b →
  ∃ r, bitmask_next b i = Some r ∧ i ≤ r ≤ size b ∧ (∀ k, i ≤ k < r → bit b k = false) ∧ (r < size b → bit b r = true).
Proof.
  intros Hw Hi. destruct (find_up_spec (Z.to_nat (size b - i)) i (isset b) (bit b)) as (r & E & Hr & H1 & H2).
  { intros k Hk. apply isset_spec; [done|lia]. }
  exists r. split_and!; [done|lia|lia|done|]. intros. apply H2. lia.
Qed.

Lemma last_spec b :
  wf b → ∃ r, bitmask_last b = Some r ∧ ((r ∈ elems b ∧ ∀ m, m ∈ elems b → m ≤ r) ∨ (elems b = ∅ ∧ r = size b)).
Proof.
  intros Hw. unfold bitmask_last. pose proof Hw as (Hs & _).
  destruct (for_up_inv (λ k r, 0 ≤ k ∧ ((0 ≤ r < k ∧ bit b r = true ∧ ∀ m, r < m < k → bit b m = false) ∨
      (r = size b ∧ ∀ m, m < k → bit b m = false))) (Z.to_nat (size b)) 0
    (λ i m, x ← isset b i; Some (if (x : bool) then i else m)) (size b)) as (r & -> & _ & H).
  - split; [lia|]. right. split; [done|]. intros. apply bit_out. lia.
  - intros k r Hk [_ HI]. rewrite isset_spec by (done || lia). bind_step. eexists. split; [done|]. split; [lia|].
    destruct (bit b k) eqn:E; [left; split_and!; [lia..|done|lia]|].
    assert (∀ m, m < k + 1 → m < k ∨ m = k) as Hm by lia.
    destruct HI as [(H1 & H2 & H3)| [-> H3]]; [left|right]; split_and!; try done; try lia.
    + intros m Hmk. destruct (Hm m) as [| ->]; [lia|apply H3; lia|done].
    + intros m Hmk. destruct (Hm m) as [| ->]; [lia|apply H3; lia|done].
  - exists r. split; [done|]. rewrite Z2Nat.id in H by lia.
    destruct H as [(H1 & H2 & H3)| (-> & H3)]; [left|right].
    + split; [by apply elem_of_elems|]. intros m Hm. apply elem_of_elems in Hm.
      destruct (Z.leb_spec m r); [done|]. pose proof (bit_range _ _ Hm). rewrite H3 in Hm; [done|lia].
    + split; [|done]. apply set_eq. intros m. rewrite elem_of_elems.
      split; [|by intros ?%elem_of_empty]. intros Hm. pose proof (bit_range _ _ Hm). rewrite H3 in Hm; [done|lia].
Qed.

(** A comparison that goes through the bits and stops at a bad one. *)
Lemma compare_spec b1 b2 n c f (P : Prop) :
  wf b1 → wf b2 →
  (∀ k, 0 ≤ k → (a ← _getbit b1 k; b ← _getbit b2 k; Some (c a b)) = Some (f (bit b1 k) (bit b2 k))) →
  (P ↔ ∀ k, 0 ≤ k < Z.of_nat n → f (bit b1 k) (bit b2 k) = false) →
  ∃ r, none_of n 0 (λ i, a ← _getbit b1 i; b ← _getbit b2 i; Some (c a b)) = Some r ∧ (r = true ↔ P).
Proof.
  intros H1 H2 Hc HP.
  destruct (none_of_spec n 0 (λ i, a ← _getbit b1 i; b ← _getbit b2 i; Some (c a b))
    (λ k, f (bit b1 k) (bit b2 k))) as (r & -> & Hr). { intros k Hk. apply Hc. lia. }
  exists r. split; [done|]. by rewrite Hr, HP.
Qed.

Ltac two_bits := intros; rewrite !getbit_spec by done; repeat bind_step; by do 2 destruct (bit _ _).

Lemma equal_spec b1 b2 :
  wf b1 → wf b2 → ∃ r, bitmask_equal b1 b2 = Some r ∧ (r = true ↔ elems b1 = elems b2).
Proof.
  intros H1 H2. eapply (compare_spec b1 b2 _ _ (λ x y, negb (eqb x y))); [done..|two_bits|].
  rewrite set_eq. setoid_rewrite elem_of_elems. split.
  - intros H k Hk. specialize (H k). destruct (bit b1 k), (bit b2 k); cbn; intuition congruence.
  - intros H k. destruct (decide (0 ≤ k < Z.max (size b1) (size b2))) as [Hk|Hk].
    + specialize (H k ltac:(lia)). by destruct (bit b1 k), (bit b2 k).
    + by rewrite !bit_out by lia.
Qed.

Lemma subset_spec b1 b2 :
  wf b1 → wf b2 → ∃ r, bitmask_subset b1 b2 = Some r ∧ (r = true ↔ elems b1 ⊆ elems b2).
Proof.
  intros H1 H2. eapply (compare_spec b1 b2 _ _ (λ x y, x && negb y)); [done..|two_bits|].
  unfold subseteq, set_subseteq_instance. setoid_rewrite elem_of_elems. split.
  - intros H k Hk. specialize (H k). destruct (bit b1 k); [by rewrite H|done].
  - intros H k Hb. specialize (H k). rewrite Hb in H. apply bit_range in Hb.
    destruct (bit b2 k); [done|]. discriminate H. lia.
Qed.

Lemma disjoint_spec b1 b2 :
  wf b1 → wf b2 →
  ∃ r, bitmask_disjoint b1 b2 = Some r ∧ bitmask_intersects b1 b2 = Some (negb r) ∧ (r = true ↔ elems b1 ## elems b2).
Proof.
  intros H1 H2.
  destruct (compare_spec b1 b2 (Z.to_nat (size b1)) (λ a b, negb (Z.land a b =? 0)) andb (elems b1 ## elems b2))
    as (r & E & Hr); [done..|two_bits| |].
  - unfold disjoint, set_disjoint_instance. setoid_rewrite elem_of_elems. split.
    + intros H k Hk. specialize (H k). destruct (bit b1 k), (bit b2 k); cbn; intuition congruence.
    + intros H k Ha Hb. specialize (H k). rewrite Ha, Hb in H. apply bit_range in Ha. discriminate H. lia.
  - exists r. unfold bitmask_intersects. by rewrite E.
Qed.

Lemma first_spec b :
  wf b → ∃ r, bitmask_first b = Some r ∧ ((r ∈ elems b ∧ ∀ m, m ∈ elems b → r ≤ m) ∨ (elems b = ∅ ∧ r = size b)).
Proof.
  intros Hw. pose proof Hw as (Hs & _). destruct (next_spec b 0) as (r & E & Hr & H1 & H2); [done|lia|].
  exists r. split; [done|].
  assert (∀ m, m ∈ elems b → r ≤ m) as Hmin.
  { intros m Hm. apply elem_of_elems in Hm. destruct (Z.leb_spec r m); [done|]. pose proof (bit_range _ _ Hm).
    rewrite H1 in Hm; [done|lia]. }
  destruct (decide (r = size b)) as [->|]; [right|left].
  - split; [|done]. apply set_eq. intros m. split; [|by intros ?%elem_of_empty]. intros Hm.
    pose proof (Hmin m Hm). apply elem_of_elems, bit_range in Hm. lia.
  - split; [apply elem_of_elems, H2; lia|done].
Qed.

Lemma rel_to_abs_spec b m : wf b → bit b m = true → bitmask_rel_to_abs_pos b (rank b m) = Some m.
Proof.
  intros Hw Hm. pose proof (bit_range _ _ Hm) as Hr. unfold bitmask_rel_to_abs_pos.
  match goal with |- context [for_up ?n 0 ?f ?s] =>
    destruct (for_up_inv (λ k r, r = if m <? k then inl m else inr (rank b m - rank b k)) n 0 f s) as (r & -> & ->)
  end.
  - destruct (Z.ltb_spec m 0); [lia|]. by rewrite rank_0, Z.sub_0_r.
  - intros k s Hk ->. destruct (Z.ltb_spec m k) as [Hlt|Hge].
    { eexists. split; [done|]. by rewrite (proj2 (Z.ltb_lt m (k + 1))) by lia. }
    rewrite isset_spec by (done || lia). bind_step. eexists. split; [done|].
    rewrite rank_succ by lia. destruct (decide (k = m)) as [->|Hne].
    + rewrite Hm, Z.sub_diag. simpl. by rewrite (proj2 (Z.ltb_lt m (m + 1))) by lia.
    + rewrite (proj2 (Z.ltb_ge m (k + 1))) by lia. destruct (bit b k) eqn:Ek; cbn [c_bool].
      2:{ f_equal. lia. }
      pose proof (rank_lt b k m ltac:(lia) Ek). destruct (Z.eqb_spec (rank b m - rank b k) 0); [lia|]. f_equal. lia.
  - destruct (Z.ltb_spec m (0 + Z.of_nat (Z.to_nat (size b)))); [done|lia].
Qed.

(** The questions about masks are answered for their sets: equality,
    inclusion, disjointness, the number of elements, the smallest and the
    largest element; and the positions of the elements among the set bits are
    inverse to the elements at these positions. *)
Theorem bitmask_queries (b1 b2 : bitmask) :
  wf b1 → wf b2 →
  (∃ r, bitmask_equal b1 b2 = Some r ∧ (r = true ↔ elems b1 = elems b2)) ∧
  (∃ r, bitmask_subset b1 b2 = Some r ∧ (r = true ↔ elems b1 ⊆ elems b2)) ∧
  (∃ r, bitmask_disjoint b1 b2 = Some r ∧ bitmask_intersects b1 b2 = Some (negb r) ∧ (r = true ↔ elems b1 ## elems b2)) ∧
  bitmask_weight b1 = Some (Z.of_nat (base.size (elems b1))) ∧
  (∃ r, bitmask_first b1 = Some r ∧ ((r ∈ elems b1 ∧ ∀ m, m ∈ elems b1 → r ≤ m) ∨ (elems b1 = ∅ ∧ r = size b1))) ∧
  (∃ r, bitmask_last b1 = Some r ∧ ((r ∈ elems b1 ∧ ∀ m, m ∈ elems b1 → m ≤ r) ∨ (elems b1 = ∅ ∧ r = size b1))) ∧
  (∀ m, m ∈ elems b1 → ∃ r, bitmask_abs_to_rel_pos b1 m = Some r ∧
     0 ≤ r < Z.of_nat (base.size (elems b1)) ∧ bitmask_rel_to_abs_pos b1 r = Some m).
Proof.
  intros H1 H2. split_and!.
  - by apply equal_spec.
  - by apply subset_spec.
  - by apply disjoint_spec.
  - by rewrite weight_spec, rank_elems.
  - by apply first_spec.
  - by apply last_spec.
  - intros m Hm. apply elem_of_elems in Hm. pose proof (bit_range _ _ Hm). exists (rank b1 m).
    unfold bitmask_abs_to_rel_pos. rewrite isset_spec, Hm by (done || lia). bind_step.
    rewrite count_bits_spec, Z2Nat.id by (done || lia). split_and!; [done|unfold rank; lia| |by apply rel_to_abs_spec].
    rewrite <- rank_elems. apply rank_lt; [lia|done].
Qed.

Lemma bitmask_queries_witness : ∃ r, bitmask_subset demo10 demo70 = Some r ∧ (r = true ↔ elems demo10 ⊆ elems demo70).
Proof. destruct demo_mask_wf as [H70 H10]. exact (proj1 (proj2 (bitmask_queries demo10 demo70 H10 H70))). Defined.
