(* ===== verification/BitmaskText.v ===== *)
(** * The text formats of bit masks (libbitmask.c)

    Masks are written as hexadecimal words or as lists of ranges, and read
    back.  A pointer into the text is the rest of the text; the buffer that is
    written is a list of bytes whose length is [buflen].  Overflow of an int
    counter is undefined ([None]); so is a loop that does not end within its
    fuel. *)

From stdpp Require Import gmap.
From S2P Require Import Prelude Bitmask.
Open Scope Z_scope.

Definition HEXCHUNKSZ : Z := 32.
Definition HEXCHARSZ : nat := 8.

(** [cnt += n] on an int. *)
Definition add_int (a b : Z) : option Z := if a + b <? 2 ^ 31 then Some (a + b) else None.

(** [snprintf(buf + off, MAX(buflen - off, 0), ...)]: what fits is written,
    with a terminator. *)
Definition snprintf_at (buf : list Z) (off : nat) (text : list Z) : list Z :=
  match (length buf - off)%nat with
  | O => buf
  | S cap => let t := take cap text ++ [0] in take off buf ++ t ++ drop (off + length t) buf
  end.

(** ** Hexadecimal words *)

Definition hexdigit (d : Z) : Z := if d <? 10 then "0"%cc + d else "a"%cc + (d - 10).

(** ["%08x"]: eight digits, whatever the value of a uint32_t is. *)
Definition hex8 (v : Z) : list Z := (λ k, hexdigit (Z.land (Z.shiftr v (4 * k)) 15)) <$> [7; 6; 5; 4; 3; 2; 1; 0].

(** The word of bits [chunk * 32 .. chunk * 32 + 31]. *)
Definition chunk_val (bmp : bitmask) (chunk : Z) : option Z :=
  for_down 32 31 (λ bit val, x ← _getbit bmp (chunk * HEXCHUNKSZ + bit);
                             Some (Z.lor (wrapu 32 (Z.shiftl val 1)) x)) 0.

Definition hex_step (bmp : bitmask) (chunk : Z) (s : Z * list Z * list Z) : option (Z * list Z * list Z) :=
  let '(cnt, sep, buf) := s in
  val ← chunk_val bmp chunk;
  let text := sep ++ hex8 val in
  cnt' ← add_int cnt (Z.of_nat (length text));
  Some (cnt', str ",", snprintf_at buf (Z.to_nat cnt) text).

(** [howmany] on unsigned ints. *)
Definition nchunks (bmp : bitmask) : Z := wrapu 32 (size bmp + (HEXCHUNKSZ - 1)) / HEXCHUNKSZ.

(** The result and the buffer. *)
Definition bitmask_displayhex (buf : list Z) (bmp : bitmask) : option (Z * list Z) :=
  match buf with
  | [] => Some (0, buf)
  | _ :: buf =>
      let n := nchunks bmp in
      '(cnt, _, buf) ← for_down (Z.to_nat n) (n - 1) (hex_step bmp) (0, [], 0 :: buf);
      Some (cnt, buf)
  end.

(** ** Lists of ranges *)

Definition fmt_d (z : Z) : list Z := fmt_li (wraps 32 z).

(** The arguments are converted to ints. *)
Definition emit (buf : list Z) (rbot rtop : Z) (len : Z) : option (Z * list Z) :=
  '(len, buf) ← (if 0 <? len then
                   l ← add_int len 1; Some (l, snprintf_at buf (Z.to_nat len) (str ","))
                 else Some (len, buf));
  let text := if wraps 32 rbot =? wraps 32 rtop then fmt_d rbot else fmt_d rbot ++ str "-" ++ fmt_d rtop in
  l ← add_int len (Z.of_nat (length text));
  Some (l, snprintf_at buf (Z.to_nat len) text).

Fixpoint displaylist_loop (fuel : nat) (bmp : bitmask) (buf : list Z) (len rbot cur : Z) : option (Z * list Z) :=
  if cur <? size bmp then
    match fuel with
    | O => None
    | S fuel =>
        let rtop := cur in
        cur ← bitmask_next bmp (wrapu 32 (cur + 1));
        if (size bmp <=? cur) || (wrapu 32 (rtop + 1) <? cur) then
          '(len, buf) ← emit buf rbot rtop len;
          displaylist_loop fuel bmp buf len cur cur
        else displaylist_loop fuel bmp buf len rbot cur
    end
  else Some (len, buf).

(** Every round moves on by a bit. *)
Definition bitmask_displaylist (buf : list Z) (bmp : bitmask) : option (Z * list Z) :=
  let buf := match buf with [] => [] | _ :: buf => 0 :: buf end in
  cur ← bitmask_first bmp;
  displaylist_loop (Z.to_nat (size bmp)) bmp buf 0 cur cur.

(** ** Reading *)

(** [strchr] for a character that is not 0. *)
Fixpoint strchr (s : list Z) (c : Z) : option (list Z) :=
  match s with
  | [] => None
  | x :: r => if x =? c then Some s else strchr r c
  end.

Definition nexttoken (q : option (list Z)) (sep : Z) : option (list Z) :=
  match q with
  | Some q => match strchr q sep with Some q => Some (tail q) | None => None end
  | None => None
  end.

Fixpoint skip_space (s : list Z) : list Z :=
  match s with c :: r => if isspace c then skip_space r else s | [] => [] end.

Definition scan_sign (s : list Z) : bool * list Z :=
  match s with
  | c :: r => if c =? "-"%cc then (true, r) else if c =? "+"%cc then (false, r) else (false, s)
  | [] => (false, s)
  end.

Fixpoint span (p : Z → bool) (s : list Z) : list Z * list Z :=
  match s with
  | c :: r => if p c then let '(a, b) := span p r in (c :: a, b) else ([], s)
  | [] => ([], s)
  end.

(** The value of a number in the C library's conversions to unsigned long. *)
Definition strtoul_val (neg : bool) (v : Z) : Z :=
  if 2 ^ 64 <=? v then 2 ^ 64 - 1 else if neg then wrapu 64 (- v) else v.

(** [sscanf(p, "%u%c", &a, &nextc)]: the result, [a] and [nextc], where a
    variable that is not assigned is 0. *)
Definition sscanf_uc (p : list Z) : Z * Z * Z :=
  match skip_space p with
  | [] => (-1, 0, 0)
  | p =>
      let '(neg, p) := scan_sign p in
      let '(ds, p) := span isdigit p in
      match ds, p with
      | [], _ => (0, 0, 0)
      | _, [] => (1, wrapu 32 (strtoul_val neg (dval 0 ds)), 0)
      | _, c :: _ => (2, wrapu 32 (strtoul_val neg (dval 0 ds)), c)
      end
  end.

Definition scan_was_ok (sret nextc : Z) (ok_next_chars : list Z) : bool :=
  (sret =? 1) || ((sret =? 2) && existsb (λ c, c =? nextc) ok_next_chars).

(** [c1 != NULL && (c2 == NULL || c1 < c2)]: of two ends of the same text the
    longer one starts first. *)
Definition before (c1 c2 : option (list Z)) : bool :=
  match c1, c2 with
  | Some c1, Some c2 => (length c2 <? length c1)%nat
  | Some _, None => true
  | None, _ => false
  end.

(** One term: begin, end and stride, or [None] for an error. *)
Definition parse_term (p : list Z) : option (Z * Z * Z) :=
  let '(sret, a, nextc) := sscanf_uc p in
  if negb (scan_was_ok sret nextc (str ",-")) then None else
  let c1 := nexttoken (Some p) ("-"%cc) in
  let c2 := nexttoken (Some p) (","%cc) in
  if before c1 c2 then
    let '(sret, b, nextc) := sscanf_uc (default [] c1) in
    if negb (scan_was_ok sret nextc (str ",:")) then None else
    let c1 := nexttoken c1 (":"%cc) in
    if before c1 c2 then
      let '(sret, s, nextc) := sscanf_uc (default [] c1) in
      if negb (scan_was_ok sret nextc (str ",")) then None else Some (a, b, s)
    else Some (a, b, 1)
  else Some (a, a, 1).

(** [while (a <= b) { _setbit(bmp, a, 1); a += s; }] *)
Fixpoint set_stride (fuel : nat) (bmp : bitmask) (a b s : Z) : option bitmask :=
  if a <=? b then
    match fuel with
    | O => None
    | S fuel => bmp ← _setbit bmp a 1; set_stride fuel bmp (wrapu 32 (a + s)) b s
    end
  else Some bmp.

(** The loop over the terms; [false] is the jump to [err]. *)
Fixpoint parselist_loop (fuel : nat) (q : option (list Z)) (bmp : bitmask) : option (bool * bitmask) :=
  match q with
  | None => Some (true, bmp)
  | Some p =>
      match fuel with
      | O => None
      | S fuel' =>
          let q := nexttoken q (","%cc) in
          match parse_term p with
          | None => Some (false, bmp)
          | Some (a, b, s) =>
              if negb (a <=? b) then Some (false, bmp) else
              if size bmp <=? b then Some (false, bmp) else
              bmp ← set_stride fuel bmp a b s;
              parselist_loop fuel' q bmp
          end
      end
  end.

Definition finish (r : bool * bitmask) : option (Z * bitmask) :=
  let '(ok, bmp) := r in
  if ok then Some (0, bmp) else bmp ← bitmask_clearall bmp; Some (-1, bmp).

Definition bitmask_parselist (fuel : nat) (buf : list Z) (bmp : bitmask) : option (Z * bitmask) :=
  bmp ← bitmask_clearall bmp;
  r ← parselist_loop fuel (Some buf) bmp;
  finish r.

Definition isxdigit (c : Z) : bool :=
  isdigit c || (("a"%cc <=? c) && (c <=? "f"%cc)) || (("A"%cc <=? c) && (c <=? "F"%cc)).
Definition xdigit_val (c : Z) : Z :=
  if isdigit c then c - "0"%cc else if "a"%cc <=? c then c - "a"%cc + 10 else c - "A"%cc + 10.
Definition xval (v : Z) (ds : list Z) : Z := fold_left (λ v c, v * 16 + xdigit_val c) ds v.

(** A prefix 0x is skipped when a digit follows it. *)
Definition skip_0x (s : list Z) : list Z :=
  match s with
  | z :: x :: d :: r =>
      if (z =? "0"%cc) && ((x =? "x"%cc) || (x =? "X"%cc)) && isxdigit d then d :: r else s
  | _ => s
  end.

(** [strtoul(p, &endptr, 16)]: the value and the rest; without digits all of
    the text is left. *)
Definition strtoul16 (p : list Z) : Z * list Z :=
  let '(neg, s) := scan_sign (skip_space p) in
  let '(ds, r) := span isxdigit (skip_0x s) in
  match ds with
  | [] => (0, p)
  | _ => (strtoul_val neg (xval 0 ds), r)
  end.

(** The number of comma-separated words. *)
Fixpoint count_chunks (fuel : nat) (q : option (list Z)) (n : Z) : option Z :=
  match q, fuel with
  | None, _ => Some n
  | Some _, O => None
  | Some _, S fuel => count_chunks fuel (nexttoken q (","%cc)) (n + 1)
  end.

(** The bits of one word, from the highest; [false] is the jump to [err]. *)
Definition hex_bits (lim : Z) (chunk val : Z) (bmp : bitmask) : option (bool * bitmask) :=
  for_down 32 31 (λ bit s,
    match s with
    | (false, bmp) => Some (false, bmp)
    | (true, bmp) =>
        let n := wrapu 32 (chunk * HEXCHUNKSZ + bit) in
        if lim <=? n then Some (false, bmp)
        else bmp ← _setbit bmp n (Z.land (Z.shiftr val bit) 1); Some (true, bmp)
    end) (true, bmp).

Fixpoint parsehex_loop (fuel : nat) (lim chunk : Z) (q : option (list Z)) (bmp : bitmask) : option (bool * bitmask) :=
  match q with
  | None => Some (true, bmp)
  | Some p =>
      match fuel with
      | O => None
      | S fuel =>
          let q := nexttoken q (","%cc) in
          let '(v, endptr) := strtoul16 p in
          let val := wrapu 32 v in
          let nchars_read := (length p - length endptr)%nat in
          if (nchars_read <? 1)%nat || (HEXCHARSZ <? nchars_read)%nat then Some (false, bmp) else
          if match q with Some q => negb (Z.of_nat (length endptr) - Z.of_nat (length q) =? 1) | None => false end
          then Some (false, bmp) else
          '(ok, bmp) ← hex_bits lim chunk val bmp;
          if (ok : bool) then parsehex_loop fuel lim (chunk - 1) q bmp else Some (false, bmp)
      end
  end.

(** Every round of the two loops is at a later comma. *)
Definition bitmask_parsehex (buf : list Z) (bmp : bitmask) : option (Z * bitmask) :=
  bmp ← bitmask_clearall bmp;
  let lim := wrapu 32 (longsperbits (size bmp) * 8 * 8) in
  n ← count_chunks (S (length buf)) (Some buf) 0;
  r ← parsehex_loop (S (length buf)) lim (n - 1) (Some buf) bmp;
  finish r.
