(* ===== verification/BitmaskTextFacts.v ===== *)
(** * Bit masks and their texts

    What is written is the canonical text of the set of bits, cut off at the
    end of the buffer; lists of terms are read as the union of their terms;
    and both formats are read back as the mask they were written from. *)

From stdpp Require Import gmap.
From S2P Require Import Prelude Bitmask BitmaskFacts BitmaskText.
Open Scope Z_scope.

(** ** Buffers *)

(** A buffer of [n] bytes that holds as much of a text as fits. *)
Definition holds (n : nat) (buf t : list Z) : Prop :=
  length buf = n ∧ (n = 0%nat ∨ ∃ junk, buf = take (n - 1) t ++ 0 :: junk).

Lemma snprintf_at_holds n buf t u : holds n buf t → holds n (snprintf_at buf (length t) u) (t ++ u).
Proof.
  intros [Hl Hb]. unfold snprintf_at. rewrite Hl.
  destruct Hb as [->|(junk & Hb)]; [split; [done|by left]|].
  destruct (n - length t)%nat as [|cap] eqn:Hc.
  { split; [done|]. right. exists junk. rewrite Hb at 1. by rewrite take_app_le by lia. }
  rewrite (take_ge t) in Hb by lia.
  set (u' := take cap u). assert (length u' ≤ cap)%nat as Hu by (unfold u'; rewrite length_take; lia).
  assert (take (length t) buf = t) as -> by (rewrite Hb; by rewrite take_app_length).
  split.
  - rewrite !length_app, length_drop, Hl. cbn [length]. lia.
  - right. exists (drop (length t + length (u' ++ [0])) buf). rewrite take_app_ge by lia.
    replace (n - 1 - length t)%nat with cap by lia. by rewrite <- !(assoc_L (++)).
Qed.

Lemma add_int_Some a b : a + b < 2 ^ 31 → add_int a b = Some (a + b).
Proof. intros H. unfold add_int. by rewrite (proj2 (Z.ltb_lt _ _)). Qed.

(** ** Writing lists of ranges *)

Definition range_text (r : Z * Z) : list Z :=
  if r.1 =? r.2 then dec r.1 else dec r.1 ++ str "-" ++ dec r.2.

(** One more text after a comma. *)
Definition comma (t : list Z) : list Z := match t with [] => [] | _ => str "," end.
Definition join (t u : list Z) : list Z := t ++ comma t ++ u.
Definition add_text (t : list Z) (r : Z * Z) : list Z := join t (range_text r).

(** Comma-separated texts. *)
Fixpoint commas (ts : list (list Z)) : list Z :=
  match ts with
  | [] => []
  | [t] => t
  | t :: ts => t ++ str "," ++ commas ts
  end.

Lemma dec_bounds z : 0 ≤ z < 2 ^ 31 → (0 < length (dec z) ≤ 10)%nat.
Proof.
  intros Hz. destruct (dec_spec z) as (_ & _ & c & ds & E & _); [lia|]. split; [rewrite E; simpl; lia|].
  unfold dec. apply dec_go_length; [|lia]. change (10 ^ Z.of_nat 10) with 10000000000. lia.
Qed.

Lemma fmt_d_dec z : 0 ≤ z < 2 ^ 31 → fmt_d z = dec z.
Proof. intros Hz. unfold fmt_d, fmt_li. rewrite wraps_small by lia. by destruct (Z.ltb_spec z 0); [lia|]. Qed.

Lemma range_text_bounds r : 0 ≤ r.1 < 2 ^ 31 → 0 ≤ r.2 < 2 ^ 31 → (0 < length (range_text r) ≤ 21)%nat.
Proof.
  intros H1 H2. pose proof (dec_bounds _ H1). pose proof (dec_bounds _ H2). unfold range_text.
  destruct (r.1 =? r.2); [lia|]. rewrite !length_app. simpl. lia.
Qed.

Lemma emit_spec n buf t a b :
  holds n buf t → 0 ≤ a < 2 ^ 31 → 0 ≤ b < 2 ^ 31 → Z.of_nat (length t) + 22 < 2 ^ 31 →
  ∃ buf', emit buf a b (Z.of_nat (length t)) = Some (Z.of_nat (length (add_text t (a, b))), buf') ∧
    holds n buf' (add_text t (a, b)).
Proof.
  intros Hb Ha Hb' Hl. pose proof (range_text_bounds (a, b) Ha Hb') as Hr. unfold emit, add_text, join.
  rewrite !wraps_small, !fmt_d_dec by lia. fold (range_text (a, b)).
  set (sep := comma t).
  assert (∃ buf', (if 0 <? Z.of_nat (length t) then l ← add_int (Z.of_nat (length t)) 1;
      Some (l, snprintf_at buf (Z.to_nat (Z.of_nat (length t))) (str ",")) else Some (Z.of_nat (length t), buf)) =
      Some (Z.of_nat (length (t ++ sep)), buf') ∧ holds n buf' (t ++ sep) ∧ (length (t ++ sep) ≤ length t + 1)%nat)
    as (buf' & E & H1 & H2).
  { unfold sep. destruct t as [|x t].
    - exists buf. split_and!; [done|by rewrite app_nil_r|simpl; lia].
    - rewrite (proj2 (Z.ltb_lt _ _)) by (simpl; lia). rewrite add_int_Some by lia. bind_step.
      eexists. rewrite Nat2Z.id. split_and!; [|by apply snprintf_at_holds|rewrite length_app; simpl; lia].
      rewrite length_app. do 2 f_equal. simpl. lia. }
  fold (range_text (a, b)) in E. rewrite E. bind_step. change (if a =? b then dec a else dec a ++ str "-" ++ dec b) with (range_text (a, b)).
  rewrite add_int_Some by lia. bind_step. rewrite Nat2Z.id. eexists. rewrite (assoc_L (++)).
  split; [|by apply snprintf_at_holds]. by rewrite (length_app (t ++ sep)), Nat2Z.inj_add.
Qed.

(** The ranges are maximal: there is a gap before each of them. *)
Fixpoint gaps (lo : Z) (rs : list (Z * Z)) : Prop :=
  match rs with
  | [] => True
  | (a, b) :: rs => lo ≤ a ≤ b ∧ gaps (b + 2) rs
  end.

Lemma gaps_ge lo rs : gaps lo rs → ∀ r, r ∈ rs → lo ≤ r.1 ≤ r.2.
Proof.
  revert lo. induction rs as [|[a b] rs IH]; intros lo Hg r Hr; [by apply not_elem_of_nil in Hr|].
  destruct Hg as [H1 H2]. apply elem_of_cons in Hr as [->|Hr]; [done|]. pose proof (IH _ H2 _ Hr). lia.
Qed.

Definition in_ranges (rs : list (Z * Z)) (m : Z) : Prop := ∃ r, r ∈ rs ∧ r.1 ≤ m ≤ r.2.

Lemma displaylist_loop_spec b n fuel buf t rbot cur :
  wf b → size b ≤ 2 ^ 27 → holds n buf t → 0 ≤ rbot ≤ cur → cur < size b →
  (∀ k, rbot ≤ k ≤ cur → bit b k = true) → Z.of_nat (length t) ≤ 11 * rbot → (Z.to_nat (size b - cur) ≤ fuel)%nat →
  ∃ rs buf' t', displaylist_loop fuel b buf (Z.of_nat (length t)) rbot cur = Some (Z.of_nat (length t'), buf') ∧
    t' = foldl add_text t rs ∧ holds n buf' t' ∧ rs ≠ [] ∧ gaps rbot rs ∧
    Forall (λ r, r.2 < size b) rs ∧ ∀ m, rbot ≤ m → bit b m = true ↔ in_ranges rs m.
Proof.
  intros Hw Hsz. revert buf t rbot cur. induction fuel as [|fuel IH]; intros buf t rbot cur Hb Hr Hc Hall Ht Hf; [lia|].
  cbn [displaylist_loop]. rewrite (proj2 (Z.ltb_lt _ _)) by done. rewrite wrapu_small by lia.
  destruct (next_spec b (cur + 1)) as (c & -> & Hcr & Hclear & Hset); [done|lia|]. bind_step.
  destruct (Z.leb_spec (size b) c) as [Hend|Hmore]; cbn [orb].
  - destruct (emit_spec n buf t rbot cur) as (buf' & -> & Hb'); [done|lia..|]. bind_step.
    exists [(rbot, cur)], buf', (add_text t (rbot, cur)). split_and!; try done.
    + destruct fuel; cbn [displaylist_loop]; by rewrite (proj2 (Z.ltb_ge _ _)).
    + simpl. lia.
    + by repeat constructor.
    + intros m Hm. split.
      * intros Hbit. exists (rbot, cur). split; [by constructor|]. simpl. split; [done|].
        destruct (Z.leb_spec m cur); [done|]. pose proof (bit_range _ _ Hbit). rewrite Hclear in Hbit; [done|lia].
      * intros (r & ->%list_elem_of_singleton & H). apply Hall. simpl in H. lia.
  - destruct (Z.ltb_spec (cur + 1) c) as [Hgap|Hadj].
    + destruct (emit_spec n buf t rbot cur) as (buf1 & -> & Hb1); [done|lia..|]. bind_step.
      assert (length (add_text t (rbot, cur)) ≤ length t + 22)%nat as Hlen.
      { unfold add_text, join. pose proof (range_text_bounds (rbot, cur)) as Hrt. simpl in Hrt.
        rewrite !length_app. destruct t; simpl; lia. }
      destruct (IH buf1 (add_text t (rbot, cur)) c c) as (rs & buf' & t' & -> & -> & H1 & H2 & H3 & H4 & H5);
        [done|lia|lia| |lia|lia|].
      { intros k Hk. replace k with c by lia. apply Hset. lia. }
      exists ((rbot, cur) :: rs), buf', (foldl add_text t ((rbot, cur) :: rs)). split_and!; try done.
      * split; [lia|]. destruct rs as [|[x y] rs]; [done|]. cbn [gaps] in *. destruct H3. split; [lia|done].
      * constructor; [simpl; lia|done].
      * intros m Hm. unfold in_ranges. destruct (Z.leb_spec c m) as [Hcm|Hcm].
        -- rewrite H5 by lia. split; [intros (r & Hr1 & Hr2); exists r; split; [by constructor|done]|].
           intros (r & [->|Hr1]%elem_of_cons & Hr2); [simpl in Hr2; lia|]. by exists r.
        -- split.
           ++ intros Hbit. exists (rbot, cur). split; [by constructor|]. simpl. split; [done|].
              destruct (Z.leb_spec m cur); [done|]. rewrite Hclear in Hbit; [done|lia].
           ++ intros (r & [->|Hr1]%elem_of_cons & Hr2); [apply Hall; simpl in Hr2; lia|].
              pose proof (gaps_ge _ _ H3 _ Hr1). lia.
    + destruct (IH buf t rbot c) as (rs & buf' & t' & -> & -> & H1 & H2 & H3 & H4 & H5); [done|lia|lia| |lia|lia|].
      { intros k Hk. destruct (decide (k = c)) as [->|]; [apply Hset; lia|apply Hall; lia]. }
      by exists rs, buf', (foldl add_text t rs).
Qed.

Lemma join_all t us : t ≠ [] → Forall (λ u, u ≠ []) us → foldl join t us = commas (t :: us).
Proof.
  revert t. induction us as [|u us IH]; intros t Ht Hu; [done|]. apply Forall_cons in Hu as [Hu Hus].
  cbn [foldl]. rewrite IH; [|by unfold join; destruct t|done].
  destruct t as [|x t]; [done|]. unfold join. destruct us as [|y ys]; cbn [commas]; [done|].
  by rewrite <- !(assoc_L (++)).
Qed.

Lemma join_texts us : Forall (λ u, u ≠ []) us → foldl join [] us = commas us.
Proof. destruct us as [|u us]; [done|]. intros [Hu Hus]%Forall_cons. cbn [foldl]. by apply join_all. Qed.

Lemma foldl_fmap {A B C} (g : C → B → C) (f : A → B) c l : foldl (λ c a, g c (f a)) c l = foldl g c (f <$> l).
Proof. revert c. induction l as [|a l IH]; intros c; [done|]. apply IH. Qed.

Lemma displaylist_spec b buf :
  wf b → size b ≤ 2 ^ 27 →
  ∃ rs buf', bitmask_displaylist buf b = Some (Z.of_nat (length (commas (range_text <$> rs))), buf') ∧
    holds (length buf) buf' (commas (range_text <$> rs)) ∧ gaps 0 rs ∧ Forall (λ r, r.2 < size b) rs ∧
    ∀ m, m ∈ elems b ↔ in_ranges rs m.
Proof.
  intros Hw Hs. unfold bitmask_displaylist. set (buf0 := match buf with [] => [] | _ :: buf => 0 :: buf end).
  assert (holds (length buf) buf0 []) as H0.
  { destruct buf as [|x buf]; [split; [done|by left]|]. split; [done|]. right. exists buf. by rewrite take_nil. }
  destruct (first_spec b Hw) as (c & E & Hc). rewrite E. bind_step.
  destruct Hc as [[Hc Hmin]|[Hempty ->]].
  - pose proof Hc as Hbit. apply elem_of_elems in Hbit. pose proof (bit_range _ _ Hbit).
    destruct (displaylist_loop_spec b (length buf) (Z.to_nat (size b)) buf0 [] c c)
      as (rs & buf' & t' & E' & -> & H1 & H2 & H3 & H4 & H5); [done|done|done|lia|lia| |simpl; lia|lia|].
    { intros k Hk. by replace k with c by lia. }
    assert (∀ r, r ∈ rs → c ≤ r.1 ≤ r.2 ∧ r.2 < size b) as Hrs.
    { intros r Hr. split; [by apply (gaps_ge _ _ H3)|]. rewrite Forall_forall in H4. by apply H4. }
    assert (foldl add_text [] rs = commas (range_text <$> rs)) as Et.
    { unfold add_text. rewrite (foldl_fmap join range_text). apply join_texts, Forall_fmap, Forall_forall.
      intros r Hr Hnil. simpl in Hnil. apply Hrs in Hr.
      pose proof (range_text_bounds r) as Hb. rewrite Hnil in Hb. simpl in Hb. lia. }
    rewrite Et in *. exists rs, buf'. split_and!; [done|done| |done|].
    + destruct rs as [|[x y] rs]; [done|]. destruct H3. split; [lia|done].
    + intros m. rewrite elem_of_elems. destruct (Z.leb_spec c m) as [Hm|Hm]; [by apply H5|]. split.
      * intros Hb. apply elem_of_elems, Hmin in Hb. lia.
      * intros (r & Hr & Hm'). apply Hrs in Hr. lia.
  - exists [], buf0. split_and!; try done.
    + destruct (Z.to_nat (size b)); cbn [displaylist_loop]; by rewrite (proj2 (Z.ltb_ge _ _)).
    + intros m. rewrite Hempty. split; [by intros ?%elem_of_empty|]. by intros (r & ?%not_elem_of_nil & _).
Qed.

(** ** Reading numbers *)

Definition no_digit (s : list Z) : Prop := match s with c :: _ => isdigit c = false | [] => True end.

Lemma span_app p ds r :
  Forall (λ c, p c = true) ds → match r with c :: _ => p c = false | [] => True end → span p (ds ++ r) = (ds, r).
Proof.
  intros Hd Hr. induction Hd as [|c ds Hc _ IH]; simpl.
  - destruct r as [|c r]; [done|]. simpl. by rewrite Hr.
  - by rewrite Hc, IH.
Qed.

Lemma digit_isdigit c : digit c → isdigit c = true.
Proof. unfold digit, isdigit. intros [H1 H2]. by rewrite (proj2 (Z.leb_le _ _) H1), (proj2 (Z.leb_le _ _) H2). Qed.

Lemma digit_start c r : digit c → skip_space (c :: r) = c :: r ∧ scan_sign (c :: r) = (false, c :: r).
Proof.
  unfold digit. change ("0"%cc) with 48. change ("9"%cc) with 57. intros H. split; simpl.
  - unfold isspace. change (" "%cc) with 32. repeat zcase; done.
  - change ("-"%cc) with 45. change ("+"%cc) with 43. repeat zcase; done.
Qed.

Lemma scan_dec a rest :
  0 ≤ a < 2 ^ 32 → no_digit rest →
  sscanf_uc (dec a ++ rest) = match rest with [] => (1, a, 0) | c :: _ => (2, a, c) end.
Proof.
  intros Ha Hr. destruct (dec_spec a) as (Hd & Hv & c & ds & E & _); [lia|].
  assert (digit c) as Hc by (rewrite E in Hd; by apply Forall_cons in Hd as [? _]).
  unfold sscanf_uc. rewrite E in *. cbn [app].
  destruct (digit_start c (ds ++ rest) Hc) as [-> ->]. change (c :: ds ++ rest) with ((c :: ds) ++ rest).
  rewrite span_app; [| |by destruct rest].
  - unfold strtoul_val. rewrite Hv. destruct (Z.leb_spec (2 ^ 64) a); [lia|]. rewrite wrapu_small by lia.
    by destruct rest.
  - eapply Forall_impl; [exact Hd|]. apply digit_isdigit.
Qed.

(** ** Reading terms *)

Inductive term := One (a : Z) | Range (a b : Z) | Stride (a b s : Z).

Definition term_text (t : term) : list Z :=
  match t with
  | One a => dec a
  | Range a b => dec a ++ str "-" ++ dec b
  | Stride a b s => dec a ++ str "-" ++ dec b ++ str ":" ++ dec s
  end.

Definition term_val (t : term) : Z * Z * Z :=
  match t with One a => (a, a, 1) | Range a b => (a, b, 1) | Stride a b s => (a, b, s) end.

(** A term for a mask of [n] bits whose stride does not wrap around. *)
Definition term_ok (n : Z) (t : term) : Prop :=
  let '(a, b, s) := term_val t in 0 ≤ a ≤ b ∧ b < n ∧ 1 ≤ s ∧ b + s < 2 ^ 32.

Definition covers (t : term) (m : Z) : Prop :=
  let '(a, b, s) := term_val t in a ≤ m ≤ b ∧ (m - a) mod s = 0.

(** The end of the text, or a comma and more. *)
Definition term_end (r : list Z) : Prop := match r with c :: _ => c = ","%cc | [] => True end.

Lemma strchr_app l c r : (c ∉ l) → strchr (l ++ r) c = strchr r c.
Proof.
  induction l as [|x l IH]; intros Hl; [done|]. apply not_elem_of_cons in Hl as [Hx Hl]. simpl.
  destruct (Z.eqb_spec x c); [done|]. by apply IH.
Qed.

Lemma strchr_length s c r : strchr s c = Some r → (length r ≤ length s)%nat.
Proof.
  induction s as [|x s IH]; simpl; [done|]. destruct (x =? c); [by intros [= <-]|]. intros H. apply IH in H. lia.
Qed.

Lemma digits_not_in c ds : Forall digit ds → ¬ digit c → c ∉ ds.
Proof. intros Hd Hc Hin. rewrite Forall_forall in Hd. by apply Hc, Hd. Qed.

Lemma dec_not_in a c : 0 ≤ a < 2 ^ 63 → ¬ digit c → c ∉ dec a.
Proof. intros Ha. apply digits_not_in. by apply dec_spec. Qed.

Lemma dec_strchr a c r : 0 ≤ a < 2 ^ 63 → ¬ digit c → strchr (dec a ++ r) c = strchr r c.
Proof. intros Ha Hc. apply strchr_app. by apply dec_not_in. Qed.

Ltac no_digit_solve := unfold digit; change ("0"%cc) with 48; change ("9"%cc) with 57; cbn; lia.

(** What follows the end of a term does not come before the next comma. *)
Lemma before_end c r : term_end r → before (nexttoken (Some r) c) (nexttoken (Some r) (","%cc)) = false.
Proof.
  unfold nexttoken. destruct r as [|x r]; [done|]. simpl. intros ->. rewrite Z.eqb_refl.
  destruct (","%cc =? c) eqn:E; [simpl; by rewrite Nat.ltb_irrefl|]. destruct (strchr r c) as [q|] eqn:Eq; [|done].
  apply strchr_length in Eq. simpl. apply Nat.ltb_ge. destruct q; simpl in *; lia.
Qed.

Lemma nexttoken_dec a c r : 0 ≤ a < 2 ^ 63 → ¬ digit c → nexttoken (Some (dec a ++ r)) c = nexttoken (Some r) c.
Proof. intros Ha Hc. unfold nexttoken. by rewrite dec_strchr. Qed.

Lemma nexttoken_cons x c r : nexttoken (Some (x :: r)) c = if x =? c then Some r else nexttoken (Some r) c.
Proof. unfold nexttoken. simpl. by destruct (x =? c). Qed.

Lemma before_longer l r c : (0 < length l)%nat → before (Some (l ++ r)) (nexttoken (Some r) c) = true.
Proof.
  intros Hl. unfold nexttoken. destruct (strchr r c) as [q|] eqn:E; [|done]. apply strchr_length in E.
  simpl. apply Nat.ltb_lt. rewrite length_app. destruct q; simpl in *; lia.
Qed.

(** A number that ends here, before one of the characters [ok]. *)
Definition follows (ok r : list Z) : Prop := match r with c :: _ => c ∈ ok ∧ isdigit c = false | [] => True end.

Lemma scan_dec_ok a rest ok :
  0 ≤ a < 2 ^ 32 → follows ok rest →
  ∃ sret nextc, sscanf_uc (dec a ++ rest) = (sret, a, nextc) ∧ scan_was_ok sret nextc ok = true.
Proof.
  intros Ha Hr. rewrite scan_dec; [|done|by destruct rest; [|apply Hr]].
  destruct rest as [|c r]; [by exists 1, 0|]. exists 2, c. split; [done|]. unfold scan_was_ok. simpl.
  apply existsb_exists. exists c. split; [apply list_elem_of_In, Hr|apply Z.eqb_refl].
Qed.

Lemma term_end_ok (r ok : list Z) : term_end r → (","%cc ∈ ok) → follows ok r.
Proof. intros Hr Hok. destruct r as [|c r]; [done|]. simpl in Hr. by subst. Qed.

Lemma dec_nonempty a : 0 ≤ a < 2 ^ 63 → (0 < length (dec a))%nat.
Proof. intros Ha. destruct (dec_spec a Ha) as (_ & _ & c & ds & -> & _). simpl. lia. Qed.

Definition term_u32 (t : term) : Prop := let '(a, b, s) := term_val t in 0 ≤ a < 2 ^ 32 ∧ 0 ≤ b < 2 ^ 32 ∧ 0 ≤ s < 2 ^ 32.

Lemma term_ok_u32 n t : n < 2 ^ 32 → term_ok n t → term_u32 t.
Proof. unfold term_ok, term_u32. destruct (term_val t) as [[a b] s]. lia. Qed.

Lemma parse_term_spec t r : term_u32 t → term_end r → parse_term (term_text t ++ r) = Some (term_val t).
Proof.
  intros Ht Hr. assert (¬ digit ("-"%cc) ∧ ¬ digit (","%cc) ∧ ¬ digit (":"%cc)) as (D1 & D2 & D3).
  { split_and!; no_digit_solve. }
  unfold parse_term. destruct t as [a|a b|a b s]; unfold term_u32 in Ht; cbn [term_text term_val] in *; destruct Ht as (Ha & Hb & Hs).
  - destruct (scan_dec_ok a r (str ",-")) as (x & y & -> & ->); [lia|by apply term_end_ok; [|apply list_elem_of_In; left]|].
    cbn [negb]. rewrite !nexttoken_dec, before_end by (done || lia). done.
  - rewrite <- !(assoc_L (++)). change (str "-" ++ dec b ++ r) with ("-"%cc :: dec b ++ r).
    destruct (scan_dec_ok a ("-"%cc :: dec b ++ r) (str ",-")) as (x & y & -> & ->); [lia| |].
    { split; [apply list_elem_of_In; right; by left|done]. }
    cbn [negb]. rewrite !nexttoken_dec, !nexttoken_cons by (done || lia). cbn [Z.eqb Pos.eqb].
    rewrite nexttoken_dec, before_longer by (done || lia || apply dec_nonempty; lia). cbn [from_option id].
    destruct (scan_dec_ok b r (str ",:")) as (x' & y' & -> & ->); [lia|by apply term_end_ok; [|apply list_elem_of_In; left]|].
    cbn [negb]. rewrite nexttoken_dec, before_end by (done || lia). done.
  - rewrite <- !(assoc_L (++)). change (str "-" ++ dec b ++ str ":" ++ dec s ++ r) with ("-"%cc :: dec b ++ ":"%cc :: dec s ++ r).
    destruct (scan_dec_ok a ("-"%cc :: dec b ++ ":"%cc :: dec s ++ r) (str ",-")) as (x & y & -> & ->); [lia| |].
    { split; [apply list_elem_of_In; right; by left|done]. }
    cbn [negb]. rewrite !nexttoken_dec, !nexttoken_cons by (done || lia). cbn [Z.eqb Pos.eqb].
    rewrite nexttoken_dec, nexttoken_cons by (done || lia). cbn [Z.eqb Pos.eqb].
    rewrite nexttoken_dec by (done || lia).
    replace (dec b ++ ":"%cc :: dec s ++ r) with ((dec b ++ str ":" ++ dec s) ++ r) by by rewrite <- !(assoc_L (++)).
    rewrite before_longer by (rewrite length_app; simpl; lia). cbn [from_option id].
    rewrite <- !(assoc_L (++)). change (str ":" ++ dec s ++ r) with (":"%cc :: dec s ++ r).
    destruct (scan_dec_ok b (":"%cc :: dec s ++ r) (str ",:")) as (x' & y' & -> & ->); [lia| |].
    { split; [apply list_elem_of_In; right; by left|done]. }
    cbn [negb]. rewrite nexttoken_dec, nexttoken_cons by (done || lia). cbn [Z.eqb Pos.eqb].
    rewrite before_longer by (apply dec_nonempty; lia). cbn [from_option id].
    destruct (scan_dec_ok s r (str ",")) as (x2 & y2 & -> & ->); [lia|by apply term_end_ok; [|apply list_elem_of_In; left]|].
    done.
Qed.

Lemma set_stride_spec fuel b a e s :
  wf b → 0 ≤ a → e < size b → 1 ≤ s → e + s < 2 ^ 32 → (Z.to_nat (e - a + 1) ≤ fuel)%nat →
  ∃ b', set_stride fuel b a e s = Some b' ∧ wf b' ∧ size b' = size b ∧
    ∀ m, bit b' m = true ↔ bit b m = true ∨ (a ≤ m ≤ e ∧ (m - a) mod s = 0).
Proof.
  revert b a. induction fuel as [|fuel IH]; intros b a Hw Ha He Hs Hes Hf; cbn [set_stride].
  - rewrite (proj2 (Z.leb_gt _ _)) by lia. exists b. split_and!; [done..|]. intros m. split; [by left|]. intros [?|?]; [done|lia].
  - destruct (Z.leb_spec a e) as [Hle|Hgt].
    2:{ exists b. split_and!; [done..|]. intros m. split; [by left|]. intros [?|?]; [done|lia]. }
    destruct (setbit_spec b a 1) as (b1 & -> & Hw1 & Hs1 & Hb1); [done|lia|]. bind_step.
    rewrite wrapu_small by lia.
    destruct (IH b1 (a + s)) as (b' & -> & Hw' & Hs' & Hb'); [done|lia|lia|lia|lia|lia|].
    exists b'. split_and!; [done|done|congruence|]. intros m. rewrite Hb', Hb1.
    rewrite (proj2 (Z.ltb_lt a (size b))), andb_true_r by lia.
    assert (∀ m, (m - (a + s)) mod s = (m - a) mod s) as Emod.
    { intros k. replace (k - a) with (k - (a + s) + 1 * s) by lia. by rewrite Z.mod_add by lia. }
    rewrite Emod. destruct (Z.eqb_spec m a) as [->|Hne].
    + simpl. rewrite Z.sub_diag, Z.mod_0_l by lia. split; [intros _; right; split; [lia|done]|by left].
    + split; [intros [?|[? ?]]; [by left|right; split; [lia|done]]|].
      intros [?|[Hm Hmod]]; [by left|]. right. split; [|done].
      apply Z.mod_divide in Hmod as [k Hk]; [|lia]. assert (1 ≤ k) by nia. nia.
Qed.

Lemma commas_cons t ts : commas (t :: ts) = t ++ match ts with [] => [] | _ => ","%cc :: commas ts end.
Proof. destruct ts; [by rewrite app_nil_r|done]. Qed.

Lemma term_no_comma n t : n < 2 ^ 32 → term_ok n t → ","%cc ∉ term_text t.
Proof.
  intros Hn Ht. assert (¬ digit (","%cc)) as D by no_digit_solve.
  destruct t as [a|a b|a b s]; destruct Ht as (Ha & Hb & Hs & Hw); cbn [term_text];
    rewrite ?not_elem_of_app; split_and?; try (apply dec_not_in; [lia|done]);
    apply not_elem_of_cons; split; try done; apply not_elem_of_nil.
Qed.

Lemma parselist_step fuel b t r :
  wf b → term_ok (size b) t → term_end r → (Z.to_nat (size b) ≤ S fuel)%nat →
  ∃ b', parselist_loop (S fuel) (Some (term_text t ++ r)) b = parselist_loop fuel (nexttoken (Some r) (","%cc)) b' ∧
    wf b' ∧ size b' = size b ∧ ∀ m, bit b' m = true ↔ bit b m = true ∨ covers t m.
Proof.
  intros Hw Ht Hr Hf. pose proof Hw as (Hsz & _). cbn [parselist_loop].
  rewrite parse_term_spec by (done || by apply (term_ok_u32 (size b)); [lia|]).
  assert (nexttoken (Some (term_text t ++ r)) (","%cc) = nexttoken (Some r) (","%cc)) as ->.
  { unfold nexttoken. rewrite strchr_app; [done|]. apply (term_no_comma (size b)); [lia|done]. }
  unfold term_ok, covers in *. destruct (term_val t) as [[a e] s]. destruct Ht as (Ha & He & Hs & Hes).
  rewrite (proj2 (Z.leb_le a e)), (proj2 (Z.leb_gt (size b) e)) by lia. cbn [negb].
  destruct (set_stride_spec (S fuel) b a e s) as (b' & -> & H); [done|lia..|]. bind_step. by exists b'.
Qed.

Lemma parselist_loop_spec fuel b t ts :
  wf b → Forall (term_ok (size b)) (t :: ts) → (length (t :: ts) + Z.to_nat (size b) ≤ fuel)%nat →
  ∃ b', parselist_loop fuel (Some (commas (term_text <$> t :: ts))) b = Some (true, b') ∧ wf b' ∧ size b' = size b ∧
    ∀ m, bit b' m = true ↔ bit b m = true ∨ ∃ t', t' ∈ t :: ts ∧ covers t' m.
Proof.
  revert fuel b t. induction ts as [|t2 ts IH]; intros fuel b t Hw [Ht Hts]%Forall_cons Hf;
    (destruct fuel as [|fuel]; [simpl in Hf; lia|]); cbn [length] in Hf; rewrite fmap_cons, commas_cons.
  - cbn [fmap list_fmap]. destruct (parselist_step fuel b t []) as (b' & -> & Hw' & Hs' & Hb'); [done..|lia|].
    exists b'. split_and!; [by destruct fuel|done..|]. intros m. rewrite Hb'. setoid_rewrite list_elem_of_singleton.
    split; [intros [?|?]; [by left|right; by exists t]|]. intros [?|(t' & -> & ?)]; tauto.
  - rewrite fmap_cons. set (r := commas (term_text t2 :: (term_text <$> ts))).
    destruct (parselist_step fuel b t (","%cc :: r)) as (b1 & -> & Hw1 & Hs1 & Hb1); [done..|lia|].
    rewrite nexttoken_cons, Z.eqb_refl.
    destruct (IH fuel b1 t2) as (b' & E & Hw' & Hs' & Hb'); [done|by rewrite Hs1|rewrite Hs1; simpl in *; lia|].
    exists b'. split_and!; [exact E|done|congruence|]. intros m. rewrite Hb', Hb1.
    setoid_rewrite (elem_of_cons (t2 :: ts) _ t). split.
    + intros [[?|?]|(t' & ? & ?)]; [by left|right; exists t; tauto|right; exists t'; tauto].
    + intros [?|(t' & [->|?] & ?)]; [tauto..|]. right. by exists t'.
Qed.

Lemma bitmask_parselist_spec b t ts fuel :
  wf b → Forall (term_ok (size b)) (t :: ts) → (length (t :: ts) + Z.to_nat (size b) ≤ fuel)%nat →
  ∃ b', bitmask_parselist fuel (commas (term_text <$> t :: ts)) b = Some (0, b') ∧ wf b' ∧ size b' = size b ∧
    ∀ m, m ∈ elems b' ↔ ∃ t', t' ∈ t :: ts ∧ covers t' m.
Proof.
  intros Hw Hts Hf. unfold bitmask_parselist.
  destruct (clearall_spec b Hw) as (b0 & -> & Hw0 & Hs0 & Hb0). bind_step.
  destruct (parselist_loop_spec fuel b0 t ts) as (b' & -> & Hw' & Hs' & Hb'); [done|by rewrite Hs0|by rewrite Hs0|].
  bind_step. exists b'. split_and!; [done|done|congruence|].
  intros m. rewrite elem_of_elems, Hb', Hb0. split; [by intros [?|?]|by right].
Qed.

(** Lists are read as the union of their terms: on a comma-separated list
    of numbers, ranges and ranges with a stride that fit the mask, the parser
    returns 0 and exactly the bits of the terms are set, whatever was set
    before. *)
Theorem bitmask_parselist_correct (b : bitmask) (t : term) (ts : list term) (fuel : nat) :
  wf b → Forall (term_ok (size b)) (t :: ts) → (length (t :: ts) + Z.to_nat (size b) ≤ fuel)%nat →
  ∃ b', bitmask_parselist fuel (commas (term_text <$> t :: ts)) b = Some (0, b') ∧ wf b' ∧ size b' = size b ∧
    ∀ m, m ∈ elems b' ↔ ∃ t', t' ∈ t :: ts ∧ covers t' m.
Proof. exact (bitmask_parselist_spec b t ts fuel). Qed.

Lemma bitmask_parselist_correct_witness :
  ∃ b', bitmask_parselist 200 (str "3,0-7:2,64-69") demo70 = Some (0, b') ∧ 65 ∈ elems b'.
Proof.
  destruct (bitmask_parselist_correct demo70 (One 3) [Stride 0 7 2; Range 64 69] 200) as (b' & E & _ & _ & H).
  - exact (proj1 demo_mask_wf).
  - repeat constructor; cbn; lia.
  - cbn. lia.
  - exists b'. split; [exact E|]. apply H. exists (Range 64 69). split; [by do 2 right; left|]. cbn. split; [lia|reflexivity].
Defined.

(** ** Round trip of lists *)

Definition range_term (r : Z * Z) : term := if r.1 =? r.2 then One r.1 else Range r.1 r.2.

Lemma range_term_text r : term_text (range_term r) = range_text r.
Proof. unfold range_term, range_text. by destruct (r.1 =? r.2). Qed.

Lemma range_term_ok n r : 0 ≤ r.1 ≤ r.2 → r.2 < n → n ≤ 2 ^ 27 → term_ok n (range_term r).
Proof. intros H1 H2 Hn. unfold range_term, term_ok. destruct (Z.eqb_spec r.1 r.2); cbn; lia. Qed.

Lemma range_term_covers r m : covers (range_term r) m ↔ r.1 ≤ m ≤ r.2.
Proof.
  unfold range_term, covers. destruct (Z.eqb_spec r.1 r.2); cbn [term_val]; rewrite Z.mod_1_r; [lia|tauto].
Qed.

Lemma gaps_length n lo rs : gaps lo rs → Forall (λ r, r.2 < n) rs → rs ≠ [] → Z.of_nat (length rs) ≤ n - lo.
Proof.
  revert lo. induction rs as [|[a b] rs IH]; intros lo Hg Hn Hne; [done|]. destruct Hg as [H1 H2].
  apply Forall_cons in Hn as [Hb Hn]. simpl in Hb. destruct rs as [|r rs]; [simpl; lia|].
  specialize (IH _ H2 Hn ltac:(done)). simpl in *. lia.
Qed.

(** What [bitmask_displaylist] writes [bitmask_parselist] reads: the
    buffer holds the text up to its size and the result is the length of all
    of it; the text of a mask that is not empty is read back as the same set.
    The text of the empty mask is empty, and reading it is an error. *)
Theorem bitmask_list_roundtrip (b b0 : bitmask) (buf : list Z) (fuel : nat) :
  wf b → size b ≤ 2 ^ 27 → wf b0 → size b0 = size b → (2 * Z.to_nat (size b) < fuel)%nat →
  ∃ text buf', bitmask_displaylist buf b = Some (Z.of_nat (length text), buf') ∧ holds (length buf) buf' text ∧
    ∃ b', bitmask_parselist fuel text b0 = Some (if decide (elems b = ∅) then -1 else 0, b') ∧ elems b' = elems b.
Proof.
  intros Hw Hsz Hw0 Hs0 Hf. destruct (displaylist_spec b buf) as (rs & buf' & E & Hh & Hg & Hn & Hb); [done..|].
  exists (commas (range_text <$> rs)), buf'. split_and!; [done..|].
  destruct rs as [|r rs].
  - assert (elems b = ∅) as ->.
    { apply set_eq. intros m. rewrite Hb. split; [by intros (x & ?%not_elem_of_nil & _)|by intros ?%elem_of_empty]. }
    unfold bitmask_parselist. destruct (clearall_spec b0 Hw0) as (b1 & -> & Hb1). bind_step.
    destruct fuel as [|fuel]; [lia|]. cbn. destruct Hb1 as (Hw1 & _).
    destruct (clearall_spec b1 Hw1) as (b2 & -> & Hb2). bind_step. exists b2. split; [done|].
    apply set_eq. intros m. rewrite (elems_shows _ _ _ Hb2). split; [done|by intros ?%elem_of_empty].
  - assert (elems b ≠ ∅) as Hne.
    { intros Hnil. destruct r as [x y]. destruct Hg as [Hxy _].
      assert (x ∈ elems b) as Hx by (apply Hb; exists (x, y); split; [by constructor|simpl; lia]).
      rewrite Hnil in Hx. by apply elem_of_empty in Hx. }
    rewrite decide_False by done.
    assert (Forall (λ r, 0 ≤ r.1 ≤ r.2 ∧ r.2 < size b) (r :: rs)) as Hrs.
    { apply Forall_forall. intros x Hx. split; [by apply (gaps_ge _ _ Hg)|]. rewrite Forall_forall in Hn. by apply Hn. }
    pose proof (gaps_length _ _ _ Hg Hn ltac:(done)) as Hlen.
    destruct (bitmask_parselist_spec b0 (range_term r) (range_term <$> rs) fuel) as (b' & E' & _ & _ & Hb').
    + done.
    + rewrite <- fmap_cons. apply Forall_fmap. eapply Forall_impl; [exact Hrs|]. intros x [Hx1 Hx2].
      apply range_term_ok; [done|lia|lia].
    + simpl in *. rewrite length_fmap. lia.
    + exists b'. rewrite <- fmap_cons, <- list_fmap_compose in E'.
      rewrite (list_fmap_ext _ range_text) in E' by (intros; apply range_term_text).
      split; [done|]. apply set_eq. intros m. rewrite Hb', Hb. unfold in_ranges. rewrite <- fmap_cons. split.
      * intros (t & (x & -> & Hx)%list_elem_of_fmap & Hc). exists x. split; [done|]. by apply range_term_covers.
      * intros (x & Hx & Hm). exists (range_term x). split; [by apply list_elem_of_fmap_2|]. by apply range_term_covers.
Qed.

Lemma bitmask_list_roundtrip_witness :
  ∃ text buf', bitmask_displaylist (replicate 20 7) demo70 = Some (Z.of_nat (length text), buf') ∧
    holds 20 buf' text ∧ ∃ b', bitmask_parselist 200 text demo70 =
      Some (if decide (elems demo70 = ∅) then -1 else 0, b') ∧ elems b' = elems demo70.
Proof.
  apply (bitmask_list_roundtrip demo70 demo70 (replicate 20 7) 200 (proj1 demo_mask_wf)).
  - exact (proj1 (Z.leb_le 70 (2 ^ 27)) eq_refl).
  - exact (proj1 demo_mask_wf).
  - reflexivity.
  - apply Nat.ltb_lt. reflexivity.
Defined.

Lemma set_stride_0 fuel b a e : wf b → 0 ≤ a ≤ e → e < size b → set_stride fuel b a e 0 = None.
Proof.
  revert b. induction fuel as [|fuel IH]; intros b Hw Ha He; pose proof Hw as (Hsz & _); cbn [set_stride];
    rewrite (proj2 (Z.leb_le a e)) by lia; [done|].
  destruct (setbit_spec b a 1) as (b1 & -> & Hw1 & Hs1 & _); [done|lia|]. bind_step.
  rewrite Z.add_0_r, wrapu_small by lia. apply IH; [done..|lia].
Qed.

(** A stride of 0 makes the parser loop for ever: [a += s] does not get
    [a] past the end of the range. *)
Theorem bitmask_parselist_stride_0 (b : bitmask) (a e : Z) (fuel : nat) :
  wf b → 0 ≤ a ≤ e → e < size b → bitmask_parselist fuel (dec a ++ str "-" ++ dec e ++ str ":0") b = None.
Proof.
  intros Hw Ha He. pose proof Hw as (Hsz & _). unfold bitmask_parselist.
  destruct (clearall_spec b Hw) as (b0 & -> & Hw0 & Hs0 & _). bind_step.
  destruct fuel as [|fuel]; [done|]. cbn [parselist_loop].
  rewrite <- (app_nil_r (dec a ++ _)). change (dec a ++ str "-" ++ dec e ++ str ":0") with (term_text (Stride a e 0)).
  rewrite parse_term_spec by (done || unfold term_u32; cbn; lia). cbn [term_val].
  rewrite (proj2 (Z.leb_le a e)), (proj2 (Z.leb_gt (size b0) e)) by lia. cbn [negb].
  rewrite set_stride_0; [done|done|lia|lia].
Qed.

Lemma bitmask_parselist_stride_0_witness : bitmask_parselist 1000 (str "0-7:0") demo70 = None.
Proof. apply (bitmask_parselist_stride_0 demo70 0 7 1000 (proj1 demo_mask_wf)); cbn; lia. Defined.

(** ** Hexadecimal words *)

Lemma chunk_val_spec b c :
  wf b → 0 ≤ c → ∃ v, chunk_val b c = Some v ∧ 0 ≤ v < 2 ^ 32 ∧ ∀ i, 0 ≤ i < 32 → Z.testbit v i = bit b (c * 32 + i).
Proof.
  intros Hw Hc. unfold chunk_val.
  match goal with |- context [for_down _ _ ?f _] =>
    destruct (for_down_inv (λ k v, -1 ≤ k ∧ 0 ≤ v < 2 ^ (31 - k) ∧
      ∀ j, 0 ≤ j < 31 - k → Z.testbit v j = bit b (c * 32 + (k + 1) + j)) 32 31 f 0) as (v & -> & _ & Hv & Hb)
  end.
  - split_and!; [lia|lia|cbn; lia|lia].
  - intros k v Hk (_ & Hv & Hb). unfold HEXCHUNKSZ. rewrite getbit_spec by (done || lia). bind_step.
    eexists. split; [done|]. assert (2 ^ (31 - (k - 1)) = 2 * 2 ^ (31 - k)) as E2.
    { rewrite <- Z.pow_succ_r by lia. f_equal. lia. }
    assert (2 ^ (31 - k) ≤ 2 ^ 31) as Hle by (apply Z.pow_le_mono_r; lia).
    rewrite Z.shiftl_mul_pow2, wrapu_small by lia. split; [lia|]. split.
    + rewrite lor_add by (destruct (bit b (c * 32 + k)); simpl; lia).
      destruct (bit b (c * 32 + k)); simpl; lia.
    + intros j Hj. rewrite Z.lor_spec, <- Z.shiftl_mul_pow2, Z.shiftl_spec by lia.
      destruct (decide (j = 0)) as [->|Hj0].
      * rewrite Z.testbit_neg_r by lia. cbn [orb]. replace (c * 32 + (k - 1 + 1) + 0) with (c * 32 + k) by lia.
        by destruct (bit b (c * 32 + k)).
      * rewrite Hb by lia. rewrite (Z.bits_above_log2 (c_bool _) j), orb_false_r;
          [f_equal; lia|destruct (bit _ _); simpl; lia..].
  - exists v. split_and!; [done|lia|change (31 - (31 - Z.of_nat 32)) with 32 in Hv; lia|].
    intros i Hi. rewrite Hb by (cbn; lia). f_equal. lia.
Qed.

(** The word of a chunk, and the words from number [i] down. *)
Definition word (b : bitmask) (c : Z) : Z := default 0 (chunk_val b c).

Lemma word_spec b c :
  wf b → 0 ≤ c → chunk_val b c = Some (word b c) ∧ 0 ≤ word b c < 2 ^ 32 ∧
    ∀ i, 0 ≤ i < 32 → Z.testbit (word b c) i = bit b (c * 32 + i).
Proof. intros Hw Hc. destruct (chunk_val_spec b c Hw Hc) as (v & E & H). unfold word. by rewrite E. Qed.

Fixpoint downto (n : nat) (i : Z) : list Z :=
  match n with O => [] | S n => i :: downto n (i - 1) end.

Lemma downto_length n i : length (downto n i) = n.
Proof. revert i. induction n; intros i; simpl; auto. Qed.

Definition words_text (b : bitmask) (n : nat) : list Z := commas ((λ c, hex8 (word b c)) <$> downto n (Z.of_nat n - 1)).

Lemma hex_step_spec b i len buf t :
  wf b → 0 ≤ i → holds len buf t → Z.of_nat (length t) + 9 < 2 ^ 31 →
  let t' := join t (hex8 (word b i)) in
  ∃ buf', hex_step b i (Z.of_nat (length t), comma t, buf) = Some (Z.of_nat (length t'), comma t', buf') ∧
    holds len buf' t' ∧ (length t' ≤ length t + 9)%nat.
Proof.
  intros Hw Hi Hh Hl. cbn zeta. unfold hex_step. destruct (word_spec b i) as (-> & _ & _); [done..|]. bind_step.
  assert (length (comma t ++ hex8 (word b i)) ≤ 9)%nat as H9 by (rewrite length_app; destruct t; simpl; lia).
  rewrite add_int_Some by lia. bind_step. rewrite Nat2Z.id. eexists. split_and!.
  - assert (comma (join t (hex8 (word b i))) = str ",") as -> by by destruct t.
    unfold join. by rewrite (length_app t), Nat2Z.inj_add.
  - by apply snprintf_at_holds.
  - unfold join. rewrite length_app. lia.
Qed.

Lemma hex_loop_spec b n i len buf t :
  wf b → holds len buf t → Z.of_nat n - 1 ≤ i → Z.of_nat (length t) + 9 * Z.of_nat n < 2 ^ 31 →
  ∃ buf' t', for_down n i (hex_step b) (Z.of_nat (length t), comma t, buf) = Some (Z.of_nat (length t'), comma t', buf') ∧
    t' = foldl join t ((λ c, hex8 (word b c)) <$> downto n i) ∧ holds len buf' t'.
Proof.
  intros Hw. revert i buf t. induction n as [|n IH]; intros i buf t Hh Hi Hl; cbn [for_down downto].
  { by exists buf, t. }
  destruct (hex_step_spec b i len buf t) as (buf1 & -> & H1 & H2); [done|lia|done|lia|]. bind_step.
  destruct (IH (i - 1) buf1 (join t (hex8 (word b i)))) as (buf' & t' & E & -> & H); [done|lia|lia|].
  by exists buf', (foldl join t ((λ c, hex8 (word b c)) <$> i :: downto n (i - 1))).
Qed.

Lemma displayhex_spec b x buf :
  wf b → size b ≤ 2 ^ 27 →
  let text := words_text b (Z.to_nat (howmany (size b) 32)) in
  ∃ buf', bitmask_displayhex (x :: buf) b = Some (Z.of_nat (length text), buf') ∧ holds (S (length buf)) buf' text.
Proof.
  intros Hw Hs text. pose proof Hw as (Hs0 & _). unfold bitmask_displayhex, nchunks, HEXCHUNKSZ.
  rewrite wrapu_small by lia. fold (howmany (size b) 32). set (K := howmany (size b) 32) in *.
  assert (0 ≤ K ≤ 2 ^ 22 + 1) as HK by (unfold K, howmany; Z.div_mod_to_equations; lia).
  destruct (hex_loop_spec b (Z.to_nat K) (K - 1) (S (length buf)) (0 :: buf) []) as (buf' & t' & E & -> & H); [done| |lia|simpl; lia|].
  { split; [done|]. right. exists buf. by rewrite take_nil. }
  change (comma []) with (@nil Z) in E. change (Z.of_nat (length [])) with 0 in E. rewrite E. bind_step.
  assert (foldl join [] ((λ c, hex8 (word b c)) <$> downto (Z.to_nat K) (K - 1)) = text) as Et.
  { rewrite join_texts; [unfold text, words_text; by rewrite Z2Nat.id by lia|].
    apply Forall_fmap, Forall_forall. done. }
  rewrite Et in *. by exists buf'.
Qed.

Lemma nibble v k : 0 ≤ k → Z.shiftr v (4 * (k + 1)) * 16 + Z.land (Z.shiftr v (4 * k)) 15 = Z.shiftr v (4 * k).
Proof.
  intros Hk. replace (4 * (k + 1)) with (4 * k + 4) by lia. rewrite <- Z.shiftr_shiftr by lia.
  set (x := Z.shiftr v (4 * k)). rewrite Z.shiftr_div_pow2 by lia.
  change 15 with (2 ^ 4 - 1). rewrite land_low by lia. change (2 ^ 4) with 16. Z.div_mod_to_equations. lia.
Qed.

Lemma nibble_range v k : 0 ≤ Z.land (Z.shiftr v (4 * k)) 15 < 16.
Proof. change 15 with (2 ^ 4 - 1). rewrite land_low by lia. apply Z.mod_pos_bound. lia. Qed.

(** What the parser asks of a digit. *)
Definition digit_fine (d : Z) : bool :=
  let c := hexdigit d in
  isxdigit c && (xdigit_val c =? d) && negb (isspace c) && negb (c =? "-"%cc) && negb (c =? "+"%cc) &&
  negb (c =? "x"%cc) && negb (c =? "X"%cc) && negb (c =? ","%cc).

Lemma hexdigit_fine d : 0 ≤ d < 16 → digit_fine d = true.
Proof. intros Hd. apply (range_forall digit_fine 16 d); [reflexivity|done]. Qed.

(** The properties of a digit, one by one. *)
Lemma nibble_digit v k :
  let c := hexdigit (Z.land (Z.shiftr v (4 * k)) 15) in
  isxdigit c = true ∧ xdigit_val c = Z.land (Z.shiftr v (4 * k)) 15 ∧ isspace c = false ∧
  (c =? "-"%cc) = false ∧ (c =? "+"%cc) = false ∧ (c =? "x"%cc) = false ∧ (c =? "X"%cc) = false ∧ (c =? ","%cc) = false.
Proof.
  cbn zeta. pose proof (hexdigit_fine _ (nibble_range v k)) as H. unfold digit_fine in H. cbn zeta in H.
  rewrite !andb_true_iff, !negb_true_iff, Z.eqb_eq in H. tauto.
Qed.

Lemma strtoul16_hex8 v r : 0 ≤ v < 2 ^ 32 → term_end r → strtoul16 (hex8 v ++ r) = (v, r).
Proof.
  intros Hv Hr.
  assert (scan_sign (skip_space (hex8 v ++ r)) = (false, hex8 v ++ r)) as E1.
  { destruct (nibble_digit v 7) as (_ & _ & H1 & H2 & H3 & _). cbn [hex8 fmap list_fmap app skip_space].
    rewrite H1. cbn [scan_sign]. by rewrite H2, H3. }
  assert (skip_0x (hex8 v ++ r) = hex8 v ++ r) as E2.
  { destruct (nibble_digit v 6) as (_ & _ & _ & _ & _ & H1 & H2 & _). cbn [hex8 fmap list_fmap app skip_0x].
    rewrite H1, H2. cbn [orb andb]. by rewrite andb_false_r. }
  assert (span isxdigit (hex8 v ++ r) = (hex8 v, r)) as E3.
  { apply span_app; [|by destruct r as [|c r]; [|simpl in Hr; subst]].
    apply Forall_fmap, Forall_forall. intros k _. apply nibble_digit. }
  assert (xval 0 (hex8 v) = v) as E4.
  { assert (∀ k, xdigit_val (hexdigit (Z.land (Z.shiftr v (4 * k)) 15)) = Z.land (Z.shiftr v (4 * k)) 15) as D
      by (intros; apply nibble_digit).
    assert (∀ x, x = Z.shiftr v (4 * (7 + 1)) → xval x (hex8 v) = v) as E0; [intros x ->|apply E0].
    2:{ rewrite Z.shiftr_div_pow2 by lia. symmetry. by apply Z.div_small. }
    unfold xval, hex8. cbn [fmap list_fmap fold_left]. rewrite !D, (nibble v 7) by lia.
    change (4 * 7) with (4 * (6 + 1)). rewrite (nibble v 6) by lia. change (4 * 6) with (4 * (5 + 1)).
    rewrite (nibble v 5) by lia. change (4 * 5) with (4 * (4 + 1)). rewrite (nibble v 4) by lia.
    change (4 * 4) with (4 * (3 + 1)). rewrite (nibble v 3) by lia. change (4 * 3) with (4 * (2 + 1)).
    rewrite (nibble v 2) by lia. change (4 * 2) with (4 * (1 + 1)). rewrite (nibble v 1) by lia.
    change (4 * 1) with (4 * (0 + 1)). rewrite (nibble v 0) by lia. by rewrite Z.shiftr_0_r. }
  unfold strtoul16. rewrite E1, E2, E3, E4. cbn [hex8 fmap list_fmap]. unfold strtoul_val.
  by destruct (Z.leb_spec (2 ^ 64) v); [lia|].
Qed.

Lemma hex8_no_comma v : ","%cc ∉ hex8 v.
Proof.
  unfold hex8. intros (k & E & _)%list_elem_of_fmap. pose proof (nibble_digit v k) as (_ & _ & _ & _ & _ & _ & _ & H).
  rewrite <- E in H. done.
Qed.

Lemma hex_bits_spec lim c v b :
  wf b → 0 ≤ c → c * 32 + 31 < lim → lim ≤ 2 ^ 32 →
  ∃ b', hex_bits lim c v b = Some (true, b') ∧ shows b' (size b)
    (λ m, if (c * 32 <=? m) && (m <? c * 32 + 32) && (m <? size b) then Z.testbit v (m - c * 32) else bit b m).
Proof.
  intros Hw Hc Hl Hl2. unfold hex_bits.
  match goal with |- context [for_down _ _ ?f _] =>
    destruct (for_down_inv (λ k s, ∃ x, s = (true, x) ∧ shows x (size b)
      (λ m, if (c * 32 + k <? m) && (m <? c * 32 + 32) && (m <? size b) then Z.testbit v (m - c * 32) else bit b m)) 32 31 f (true, b))
      as (s & E & x & -> & Hx)
  end.
  - exists b. split; [done|]. split_and!; [done..|]. intros m. repeat zcase; done.
  - intros k s Hk (x & -> & Hwx & Hsx & Hbx). unfold HEXCHUNKSZ. rewrite wrapu_small by lia.
    rewrite (proj2 (Z.leb_gt lim _)) by lia.
    destruct (setbit_spec x (c * 32 + k) (Z.land (Z.shiftr v k) 1)) as (x' & -> & Hw' & Hs' & Hb'); [done|lia|]. bind_step.
    eexists. split; [done|]. exists x'. split; [done|]. split_and!; [done|congruence|]. intros m. rewrite Hb', Hsx, Hbx.
    rewrite land_1, Z.shiftr_spec by lia. destruct (Z.eqb_spec m (c * 32 + k)) as [->|Hne].
    + replace (c * 32 + k - c * 32) with (0 + k) by lia. repeat zcase; cbn [andb]; done || by destruct (Z.testbit v (0 + k)).
    + repeat zcase; done.
  - rewrite E. exists x. split; [done|]. destruct Hx as (H1 & H2 & H3). split_and!; [done..|].
    intros m. rewrite H3. change (31 - Z.of_nat 32) with (-1). repeat zcase; done.
Qed.

(** The text of [n] words is the word [n - 1] and the text of the others. *)
Lemma words_text_S b n :
  words_text b (S n) = hex8 (word b (Z.of_nat n)) ++ match n with O => [] | _ => ","%cc :: words_text b n end.
Proof.
  unfold words_text. cbn [downto]. rewrite fmap_cons, commas_cons. replace (Z.of_nat (S n) - 1) with (Z.of_nat n) by lia.
  by destruct n.
Qed.

Lemma words_text_next b n :
  nexttoken (Some (words_text b (S n))) (","%cc) = match n with O => None | _ => Some (words_text b n) end.
Proof.
  rewrite words_text_S. unfold nexttoken. rewrite strchr_app by apply hex8_no_comma. destruct n; [done|].
  cbn [strchr]. by rewrite Z.eqb_refl.
Qed.

Lemma words_text_length b n : (n ≤ length (words_text b n))%nat.
Proof.
  induction n as [|n IH]; [lia|]. rewrite words_text_S, length_app. simpl. destruct n; simpl in *; lia.
Qed.

Lemma count_chunks_words b n m fuel :
  (0 < n ≤ fuel)%nat → count_chunks fuel (Some (words_text b n)) m = Some (m + Z.of_nat n).
Proof.
  revert m fuel. induction n as [|n IH]; intros m fuel Hf; [lia|]. destruct fuel as [|fuel]; [lia|].
  cbn [count_chunks]. rewrite words_text_next. destruct n as [|n].
  - destruct fuel; simpl; f_equal; lia.
  - rewrite IH by lia. f_equal. lia.
Qed.

Lemma parsehex_loop_spec fuel lim b x n :
  wf b → wf x → size x = size b → Z.of_nat n * 32 ≤ lim → lim ≤ 2 ^ 32 → (0 < n ≤ fuel)%nat →
  ∃ x', parsehex_loop fuel lim (Z.of_nat n - 1) (Some (words_text b n)) x = Some (true, x') ∧
    shows x' (size b) (λ m, if (0 <=? m) && (m <? Z.of_nat n * 32) && (m <? size b) then bit b m else bit x m).
Proof.
  intros Hw. revert fuel x. induction n as [|n IH]; intros fuel x Hx Hs Hl Hl2 Hf; [lia|].
  destruct fuel as [|fuel]; [lia|]. cbn [parsehex_loop]. rewrite words_text_next.
  replace (Z.of_nat (S n) - 1) with (Z.of_nat n) by lia.
  destruct (word_spec b (Z.of_nat n)) as (_ & Hv & Hbits); [done|lia|].
  set (r := match n with O => [] | _ => ","%cc :: words_text b n end).
  assert (words_text b (S n) = hex8 (word b (Z.of_nat n)) ++ r) as -> by apply words_text_S.
  rewrite strtoul16_hex8 by (done || by unfold r; destruct n). rewrite wrapu_small, length_app by done.
  replace (length (hex8 (word b (Z.of_nat n))) + length r - length r)%nat with 8%nat by (simpl; lia). cbn [Nat.ltb Nat.leb orb HEXCHARSZ].
  destruct (hex_bits_spec lim (Z.of_nat n) (word b (Z.of_nat n)) x) as (x1 & E1 & Hw1 & Hs1 & Hb1); [done|lia..|].
  assert (∀ m, bit x1 m = if (Z.of_nat n * 32 <=? m) && (m <? Z.of_nat (S n) * 32) && (m <? size b)
    then bit b m else bit x m) as Hb2.
  { intros m. rewrite Hb1, Hs. repeat zcase; cbn [andb]; try done. rewrite Hbits by lia. f_equal. lia. }
  destruct n as [|n].
  - rewrite E1. bind_step. exists x1. split; [by destruct fuel|]. split_and!; [done|congruence|exact Hb2].
  - assert ((Z.of_nat (length r) - Z.of_nat (length (words_text b (S n))) =? 1) = true) as ->.
    { unfold r. cbn [length]. apply Z.eqb_eq. lia. }
    cbn [negb]. rewrite E1. bind_step.
    destruct (IH fuel x1) as (x' & E & Hw' & Hs' & Hb'); [done|congruence|lia|lia|lia|].
    exists x'. split; [exact E|].
    split_and!; [done..|]. intros m. rewrite Hb', Hb2. repeat zcase; done.
Qed.

(** What [bitmask_displayhex] writes [bitmask_parsehex] reads: the buffer
    holds the words up to its size, the result is the length of the whole
    text, and the text is read back, into any mask of the same size, as the
    same set of bits. *)
Theorem bitmask_hex_roundtrip (b b0 : bitmask) (x : Z) (buf : list Z) :
  wf b → 0 < size b ≤ 2 ^ 27 → wf b0 → size b0 = size b →
  ∃ text buf', bitmask_displayhex (x :: buf) b = Some (Z.of_nat (length text), buf') ∧
    holds (S (length buf)) buf' text ∧
    ∃ b', bitmask_parsehex text b0 = Some (0, b') ∧ wf b' ∧ size b' = size b ∧ elems b' = elems b.
Proof.
  intros Hw Hs Hw0 Hs0. destruct (displayhex_spec b x buf) as (buf' & E & Hh); [done|lia|].
  set (n := Z.to_nat (howmany (size b) 32)) in *.
  assert (size b ≤ Z.of_nat n * 32 < size b + 32) as Hn by (unfold n, howmany; Z.div_mod_to_equations; lia).
  exists (words_text b n), buf'. split_and!; [done..|]. unfold bitmask_parsehex.
  destruct (clearall_spec b0 Hw0) as (b1 & -> & Hw1 & Hs1 & Hb1). bind_step.
  pose proof (words_text_length b n). rewrite count_chunks_words by lia. bind_step.
  set (lim := wrapu 32 (longsperbits (size b1) * 8 * 8)).
  assert (Z.of_nat n * 32 ≤ lim ≤ 2 ^ 32) as Hlim.
  { unfold lim, longsperbits, howmany, bitsperlong in *. rewrite wrapu_small; Z.div_mod_to_equations; lia. }
  destruct (parsehex_loop_spec (S (length (words_text b n))) lim b b1 n) as (b' & E' & Hw' & Hs' & Hb');
    [done|done|congruence|lia..|].
  rewrite Z.add_0_l, E'. bind_step. exists b'. split_and!; [done..|].
  apply set_eq. intros m. rewrite !elem_of_elems, Hb', Hb1.
  destruct (bit b m) eqn:Em; [pose proof (bit_range _ _ Em)|]; repeat zcase; done.
Qed.

Lemma bitmask_hex_roundtrip_witness :
  ∃ text buf', bitmask_displayhex (replicate 40 7) demo70 = Some (Z.of_nat (length text), buf') ∧
    holds 40 buf' text ∧
    ∃ b', bitmask_parsehex text demo70 = Some (0, b') ∧ wf b' ∧ size b' = 70 ∧ elems b' = elems demo70.
Proof.
  apply (bitmask_hex_roundtrip demo70 demo70 7 (replicate 39 7) (proj1 demo_mask_wf)).
  - split; [|exact (proj1 (Z.leb_le 70 (2 ^ 27)) eq_refl)]. exact (proj1 (Z.ltb_lt 0 70) eq_refl).
  - exact (proj1 demo_mask_wf).
  - reflexivity.
Defined.
