(* ===== verification/Bytes.v ===== *)
(** * Little-endian numbers and byte buffers

    What the components that build binary messages share: numbers of [n]
    bytes, and reading and writing within a buffer. *)

From S2P Require Import Prelude.
Open Scope Z_scope.

(** The [n] low bytes of [z], from the least significant. *)
Fixpoint lebytes (n : nat) (z : Z) : list Z :=
  match n with
  | O => []
  | S n => z mod 256 :: lebytes n (z / 256)
  end.

Definition unle (l : list Z) : Z := foldr (λ b acc, b + 256 * acc) 0 l.

Lemma length_lebytes n z : length (lebytes n z) = n.
Proof. revert z. induction n as [|n IH]; intros z; cbn; [done|]. by rewrite IH. Qed.

Lemma unle_lebytes n z : unle (lebytes n z) = z mod 256 ^ Z.of_nat n.
Proof.
  revert z. induction n as [|n IH]; intros z.
  { cbn. by rewrite Z.mod_1_r. }
  unfold unle in *. cbn [lebytes foldr]. rewrite IH, Nat2Z.inj_succ, Z.pow_succ_r by lia.
  rewrite (Z.rem_mul_r z 256 (256 ^ Z.of_nat n)) by lia. done.
Qed.

Lemma unle_small n z : 0 ≤ z < 256 ^ Z.of_nat n → unle (lebytes n z) = z.
Proof. intros. rewrite unle_lebytes. by apply Z.mod_small. Qed.

Definition peek (n off : nat) (buf : list Z) : option Z :=
  if (off + n <=? length buf)%nat then Some (unle (take n (drop off buf))) else None.

Definition poke (off : nat) (bs buf : list Z) : option (list Z) :=
  if (off + length bs <=? length buf)%nat then Some (take off buf ++ bs ++ drop (off + length bs) buf) else None.

Lemma peek_at n off a x r : length a = off → length x = n → peek n off (a ++ x ++ r) = Some (unle x).
Proof.
  intros Ha Hx. unfold peek. rewrite !length_app. destruct (Nat.leb_spec (off + n) (length a + (length x + length r))); [|lia].
  by rewrite drop_app_length', take_app_length'.
Qed.

Lemma poke_at off bs a x r : length a = off → length x = length bs → poke off bs (a ++ x ++ r) = Some (a ++ bs ++ r).
Proof.
  intros Ha Hx. unfold poke. rewrite !length_app. destruct (Nat.leb_spec (off + length bs) (length a + (length x + length r))); [|lia].
  rewrite take_app_length' by done. do 3 f_equal. rewrite app_assoc, drop_app_length'; [done|]. rewrite length_app. lia.
Qed.

(** A write into the part of a buffer that is not used yet. *)
Lemma poke_rest off bs a r :
  (length a ≤ off)%nat → (off + length bs ≤ length a + length r)%nat →
  ∃ g r', poke off bs (a ++ r) = Some (a ++ g ++ bs ++ r') ∧ length g = (off - length a)%nat ∧
    (length g + length bs + length r' = length r)%nat.
Proof.
  intros Ha Hr. exists (take (off - length a) r), (drop (off - length a + length bs) r).
  rewrite length_take, length_drop. split_and!; [|lia|lia]. unfold poke. rewrite length_app.
  destruct (Nat.leb_spec (off + length bs) (length a + length r)); [|lia].
  rewrite take_app_ge by lia. rewrite drop_app_ge by lia. rewrite <- app_assoc. do 4 f_equal. f_equal. lia.
Qed.

Lemma length_poke off bs buf buf' : poke off bs buf = Some buf' → length buf' = length buf.
Proof.
  unfold poke. destruct (Nat.leb_spec (off + length bs) (length buf)); [|done]. intros [= <-].
  rewrite !length_app, length_take, length_drop. lia.
Qed.

Lemma poke_split off bs buf x y z :
  buf = x ++ y ++ z → length x = off → length y = length bs → poke off bs buf = Some (x ++ bs ++ z).
Proof. intros ->. apply poke_at. Qed.

Lemma split_length {A} (n : nat) (l : list A) : (n ≤ length l)%nat → ∃ a b, l = a ++ b ∧ length a = n.
Proof. intros H. exists (take n l), (drop n l). by rewrite take_drop, length_take_le. Qed.

(** Equality of concatenations up to association, and the lengths of their
    parts. *)
Ltac apps := rewrite ?length_app; repeat rewrite <- app_assoc; cbn [length app lebytes]; rewrite ?length_lebytes; done || lia.

(** Reading after writing. *)
Lemma poke_ok off bs buf : (off + length bs ≤ length buf)%nat → ∃ buf', poke off bs buf = Some buf'.
Proof. intros H. unfold poke. rewrite (proj2 (Nat.leb_le _ _) H). eauto. Qed.

Lemma peek_poke off x y buf buf' : poke off (x ++ y) buf = Some buf' → peek (length x) off buf' = Some (unle x).
Proof.
  unfold poke. destruct (Nat.leb_spec (off + length (x ++ y)) (length buf)) as [L|]; [|done]. intros [= <-]. rewrite length_app in L.
  rewrite <- app_assoc. apply peek_at; [rewrite length_take; lia|done].
Qed.

Lemma peek_poke_other n o off bs buf buf' :
  poke off bs buf = Some buf' → (o + n ≤ off ∨ off + length bs ≤ o)%nat → peek n o buf' = peek n o buf.
Proof.
  intros E Ho. pose proof (length_poke _ _ _ _ E) as Hl. unfold poke in E.
  destruct (Nat.leb_spec (off + length bs) (length buf)) as [L|]; [|done]. injection E as <-. unfold peek. rewrite Hl.
  destruct (Nat.leb_spec (o + n) (length buf)); [|done]. do 2 f_equal. apply list_eq. intros i. destruct (decide (i < n)%nat).
  - rewrite !lookup_take_lt, !lookup_drop by done. destruct Ho as [Ho|Ho].
    + rewrite lookup_app_l by (rewrite length_take; lia). by rewrite lookup_take_lt by lia.
    + rewrite lookup_app_r by (rewrite length_take; lia). rewrite lookup_app_r by (rewrite length_take; lia).
      rewrite lookup_drop, length_take. f_equal. lia.
  - rewrite !lookup_take_ge by lia. done.
Qed.
