(* ===== verification/Netlink.v ===== *)
(** * Netlink messages

    lib/tst_netlink.c: a context collects messages with nested attributes in
    one growing buffer, sends it, and matches the replies of the kernel with
    what was sent.  A pointer into the buffer is its offset.  Numbers in the
    buffer are little-endian; the macros are those of <linux/netlink.h> and
    <linux/rtnetlink.h>. *)

From S2P Require Import Prelude Bytes.
Open Scope Z_scope.

(** ** The layout *)

Definition NLMSG_ALIGN (len : nat) : nat := ((len + 3) / 4 * 4)%nat.
Definition NLMSG_HDRLEN : nat := 16.
Definition NLMSG_LENGTH (len : nat) : nat := (len + NLMSG_HDRLEN)%nat.
Definition NLMSG_SPACE (len : nat) : nat := NLMSG_ALIGN (NLMSG_LENGTH len).
Definition NLA_HDRLEN : nat := 4.
Definition NLA_ALIGN (len : nat) : nat := NLMSG_ALIGN len.
Definition RTA_LENGTH (len : nat) : nat := (4 + len)%nat.
Definition RTA_SPACE (len : nat) : nat := NLMSG_ALIGN (RTA_LENGTH len).

Definition NLM_F_MULTI := 2.
Definition NLM_F_ACK := 4.
Definition NLMSG_ERROR := 2.
Definition NLMSG_DONE := 3.
Definition USHRT_MAX := 65535.

Record nlmsghdr := mk_hdr {
  nlmsg_len : Z;
  nlmsg_type : Z;
  nlmsg_flags : Z;
  nlmsg_seq : Z;
  nlmsg_pid : Z;
}.

Definition hdr_bytes (h : nlmsghdr) : list Z :=
  lebytes 4 (nlmsg_len h) ++ lebytes 2 (nlmsg_type h) ++ lebytes 2 (nlmsg_flags h) ++ lebytes 4 (nlmsg_seq h) ++
  lebytes 4 (nlmsg_pid h).

Definition hdr_at (o : nat) (buf : list Z) : option nlmsghdr :=
  len ← peek 4 o buf; ty ← peek 2 (o + 4) buf; fl ← peek 2 (o + 6) buf; sq ← peek 4 (o + 8) buf; pid ← peek 4 (o + 12) buf;
  Some (mk_hdr len ty fl sq pid).

(** [NLMSG_ALIGN(nlmsg_len)], which is computed with 32 bits. *)
Definition msg_space (len : Z) : nat := Z.to_nat (wrapu 32 (len + 3) / 4 * 4).

(** ** The context *)

Inductive ptr :=
  | PNull
  | PAt (o : nat)   (* into the buffer *)
  | PWild.          (* anywhere else *)

(** [reallocs] counts the calls of realloc. *)
Record context := mk_ctx {
  pid : Z;
  seq : Z;
  bufsize : nat;
  datalen : nat;
  buffer : list Z;
  curmsg : ptr;
  reallocs : nat;
}.

Definition set_buffer (b : list Z) (c : context) : context :=
  mk_ctx (pid c) (seq c) (bufsize c) (datalen c) b (curmsg c) (reallocs c).

(** After the socket was opened and bound. *)
Definition tst_netlink_create_context : context := mk_ctx 0 0 1024 0 (replicate 1024 0) PNull 0.

Section Heap.
(** What the calls of realloc answer: [None] is a failure, which
    [safe_realloc] reports, otherwise whether the block was moved. *)
Context (heap : nat → option bool).

(** A NULL pointer keeps its distance to the buffer when that is moved.  A
    buffer that is shorter than its data would make the differences of the
    code wrap around. *)
Definition netlink_grow_buffer (size : nat) (c : context) : cres context :=
  let curlen := NLMSG_ALIGN (datalen c) in
  if (bufsize c <? curlen)%nat then CUB
  else if (size <=? bufsize c - curlen)%nat then CRet c
  else
    let needed := (size - (bufsize c - curlen))%nat in
    let size := NLMSG_ALIGN (bufsize c + Nat.max (bufsize c) needed) in
    match heap (reallocs c) with
    | None => CBrk (Z.lor TBROK TERRNO) (str "realloc failed")
    | Some moved =>
        let cur := match curmsg c with PNull => if moved then PWild else PNull | p => p end in
        CRet (mk_ctx (pid c) (seq c) size (datalen c) (buffer c ++ replicate (size - bufsize c) 0) cur (S (reallocs c)))
    end.

Definition at_cur (c : context) : cres nat := match curmsg c with PAt o => CRet o | _ => CUB end.

(** [header] without the members that are overwritten. *)
Definition tst_netlink_add_message (type flags : Z) (payload : list Z) (c : context) : cres context :=
  c ← netlink_grow_buffer (NLMSG_SPACE (length payload)) c;
  '(c, extra_flags) ←
    match curmsg c with
    | PNull => CRet (mk_ctx (pid c) (seq c) (bufsize c) 0 (buffer c) (PAt 0) (reallocs c), 0)
    | _ =>
        o ← at_cur c;
        h ← defined (hdr_at o (buffer c));
        b ← defined (poke (o + 6) (lebytes 2 (Z.lor (nlmsg_flags h) NLM_F_MULTI)) (buffer c));
        let size := msg_space (nlmsg_len h) in
        CRet (mk_ctx (pid c) (seq c) (bufsize c) (NLMSG_ALIGN (datalen c)) b (PAt (o + size)) (reallocs c), NLM_F_MULTI)
    end;
  o ← at_cur c;
  let len := wrapu 32 (Z.of_nat (NLMSG_LENGTH (length payload))) in
  b ← defined (poke o (hdr_bytes (mk_hdr len type (Z.lor flags extra_flags) (seq c) (pid c))) (buffer c));
  b ← defined (if (length payload =? 0)%nat then Some b else poke (o + NLMSG_HDRLEN) payload b);
  CRet (mk_ctx (pid c) (wrapu 32 (seq c + 1)) (bufsize c) (datalen c + Z.to_nat len) b (curmsg c) (reallocs c)).

(** [tst_netlink_add_attr] and [tst_rtnl_add_attr] for the sizes [space] and
    [alen] of the attribute, which has the same layout in both. *)
Definition add_attr (fname : list Z) (space : nat) (alen : Z) (type : Z) (data : list Z) (c : context) : cres context :=
  match curmsg c with
  | PNull => CBrk TBROK (fname ++ str "(): No message to add attributes to")
  | _ =>
      c ← netlink_grow_buffer space c;
      o ← at_cur c;
      h ← defined (hdr_at o (buffer c));
      let size := msg_space (nlmsg_len h) in
      let attr := (o + size)%nat in
      b ← defined (poke (attr + 2) (lebytes 2 type) (buffer c));
      b ← defined (poke attr (lebytes 2 alen) b);
      b ← defined (poke (attr + 4) data b);
      b ← defined (poke o (lebytes 4 (wrapu 32 (Z.of_nat size + alen))) b);
      CRet (mk_ctx (pid c) (seq c) (bufsize c) (NLMSG_ALIGN (datalen c) + Z.to_nat alen) b (curmsg c) (reallocs c))
  end.

Definition tst_netlink_add_attr (type : Z) (data : list Z) : context → cres context :=
  add_attr (str "tst_netlink_add_attr") (NLA_HDRLEN + NLA_ALIGN (length data))
    (wrapu 16 (Z.of_nat (NLA_HDRLEN + length data))) type data.

(** The string with its terminator, as far as its length fits 16 bits. *)
Definition string_data (s : list Z) : list Z := take (Z.to_nat (wrapu 16 (Z.of_nat (length s) + 1))) (s ++ [0]).

Definition tst_netlink_add_attr_string (type : Z) (data : list Z) : context → cres context :=
  tst_netlink_add_attr type (string_data data).

Definition tst_rtnl_add_attr (type : Z) (data : list Z) : context → cres context :=
  add_attr (str "tst_rtnl_add_attr") (RTA_SPACE (length data)) (wrapu 16 (Z.of_nat (RTA_LENGTH (length data)))) type data.

Definition tst_rtnl_add_attr_string (type : Z) (data : list Z) : context → cres context :=
  tst_rtnl_add_attr type (string_data data).

(** [struct tst_netlink_attr_list]; the end of the list is the entry with a
    negative length. *)
Inductive attr_list :=
  | ANil
  | ACons (type : Z) (data : list Z) (rest : attr_list)
  | ANest (type : Z) (data : list Z) (sublist : attr_list) (rest : attr_list).

(** Both functions, by the one that adds an attribute; the result is the
    number of entries. *)
Fixpoint add_attr_list (fname : list Z) (add : Z → list Z → context → cres context) (i : Z) (l : attr_list) (c : context) :
    cres (Z * context) :=
  let too_long := CBrk TBROK (fname ++ str "(): Attribute value too long") in
  match l with
  | ANil => CRet (i, c)
  | ACons type data rest =>
      if USHRT_MAX <? Z.of_nat (length data) then too_long else
      c ← add type data c;
      add_attr_list fname add (i + 1) rest c
  | ANest type data sublist rest =>
      if USHRT_MAX <? Z.of_nat (length data) then too_long else
      let offset := NLMSG_ALIGN (datalen c) in
      c ← add type data c;
      '(_, c) ← add_attr_list fname add 0 sublist c;
      let len := (datalen c - offset)%nat in
      if USHRT_MAX <? Z.of_nat len then CBrk TBROK (fname ++ str "(): Sublist too long") else
      b ← defined (poke offset (lebytes 2 (Z.of_nat len)) (buffer c));
      add_attr_list fname add (i + 1) rest (set_buffer b c)
  end.

Definition tst_netlink_add_attr_list : attr_list → context → cres (Z * context) :=
  add_attr_list (str "tst_netlink_add_attr_list") tst_netlink_add_attr 0.

Definition tst_rtnl_add_attr_list : attr_list → context → cres (Z * context) :=
  add_attr_list (str "tst_rtnl_add_attr_list") tst_rtnl_add_attr 0.

(** ** Sending *)

(** The bytes that are given to the kernel; [sent] is the answer of
    [sendmsg], where anything but the length ends the program. *)
Definition tst_netlink_send (sent : Z) (c : context) : cres (list Z * context) :=
  match curmsg c with
  | PNull => CBrk TBROK (str "tst_netlink_send(): No message to send")
  | _ =>
      o ← at_cur c;
      h ← defined (hdr_at o (buffer c));
      c ← (if Z.land (nlmsg_flags h) NLM_F_MULTI =? 0 then CRet c else
           c ← tst_netlink_add_message NLMSG_DONE 0 [] c;
           o ← at_cur c;
           b ← defined (poke (o + 6) (lebytes 2 0) (buffer c));
           CRet (set_buffer b c));
      if sent =? Z.of_nat (datalen c) then
        CRet (take (datalen c) (buffer c), mk_ctx (pid c) (seq c) (bufsize c) (datalen c) (buffer c) PNull (reallocs c))
      else CBrk TBROK (str "sendmsg")
  end.
End Heap.

(** ** Receiving *)

(** What [recv] answers; nothing more to read is [EAGAIN]. *)
Inductive answer := Dgram (d : list Z) | RecvErr.

Fixpoint recv_loop (answers : list answer) (buf : list Z) : cres (list Z) :=
  match answers with
  | [] => CRet buf
  | Dgram d :: answers => recv_loop answers (buf ++ d)
  | RecvErr :: _ => CBrk (Z.lor TBROK TERRNO) (str "recv() failed")
  end.

(** [NLMSG_OK], with the length of the message at [o]. *)
Definition NLMSG_OK (o : nat) (size_left : Z) (buf : list Z) : option bool :=
  if size_left <? Z.of_nat NLMSG_HDRLEN then Some false else
  len ← peek 4 o buf;
  Some ((Z.of_nat NLMSG_HDRLEN <=? len) && (len <=? wrapu 32 size_left)).

(** The walk over the messages from [o], as a list of offsets. *)
Fixpoint walk (fuel : nat) (o : nat) (size_left : Z) (buf : list Z) : option (list nat) :=
  match fuel with
  | O => None
  | S fuel =>
      if size_left <=? 0 then Some [] else
      ok ← NLMSG_OK o size_left buf;
      if negb ok then Some [] else
      len ← peek 4 o buf;
      let size := msg_space len in
      os ← walk fuel (o + size) (wraps 32 (size_left - Z.of_nat size)) buf;
      Some (o :: os)
  end.

(** An entry of the array that is returned: [err] points to the payload. *)
Record message := mk_msg { header : nlmsghdr; err : option nat; payload : nat; payload_size : Z }.

Record response := mk_resp { resp_buf : list Z; resp_msgs : list message }.

Definition message_at (buf : list Z) (o : nat) : option message :=
  h ← hdr_at o buf;
  let data := (o + NLMSG_HDRLEN)%nat in
  Some (mk_msg h (if nlmsg_type h =? NLMSG_ERROR then Some data else None) data (nlmsg_len h - Z.of_nat NLMSG_HDRLEN)).

(** [None] is the NULL that is returned when nothing was read. *)
Definition tst_netlink_recv (answers : list answer) : cres (option response) :=
  buf ← recv_loop answers [];
  if (length buf =? 0)%nat then CRet None else
  os ← defined (walk (S (length buf)) 0 (wraps 32 (Z.of_nat (length buf))) buf);
  ms ← defined (mapM (message_at buf) os);
  CRet (Some (mk_resp buf ms)).

(** ** Acknowledgements *)

(** [res->err && res->err->error], with the value of [error]. *)
Definition msg_error (r : list Z) (m : message) : option (option Z) :=
  match err m with
  | None => Some None
  | Some o => e ← peek 4 o r; Some (if e =? 0 then None else Some (wraps 32 e))
  end.

(** The loop over [res], up to an error, the sequence number or the end. *)
Fixpoint find_reply (r : list Z) (sq : Z) (ms : list message) : option (list message) :=
  match ms with
  | [] => Some []
  | m :: ms' =>
      e ← msg_error r m;
      if negb (bool_decide (e = None)) || (nlmsg_seq (header m) =? sq) then Some ms else find_reply r sq ms'
  end.

(** [inl] is the error that is stored in [tst_netlink_errno], with the return
    value 0; [inr ()] is 1. *)
Fixpoint ack_loop (buf r : list Z) (os : list nat) (ms : list message) : cres (Z + unit) :=
  match os with
  | [] => CRet (inr ())
  | o :: os =>
      h ← defined (hdr_at o buf);
      if Z.land (nlmsg_flags h) NLM_F_ACK =? 0 then ack_loop buf r os ms else
      ms ← defined (find_reply r (nlmsg_seq h) ms);
      let missing := CBrk TBROK (str "No ACK found for Netlink message " ++ dec (nlmsg_seq h)) in
      match ms with
      | [] => missing
      | m :: _ =>
          e ← defined (msg_error r m);
          match e with
          | Some e => CRet (inl (wraps 32 (- e)))
          | None => if nlmsg_seq (header m) =? nlmsg_seq h then ack_loop buf r os ms else missing
          end
      end
  end.

Definition tst_netlink_check_acks (c : context) (res : response) : cres (Z + unit) :=
  os ← defined (walk (S (length (buffer c))) 0 (wraps 32 (Z.of_nat (datalen c))) (buffer c));
  ack_loop (buffer c) (resp_buf res) os (resp_msgs res).

(** The return value, [tst_netlink_errno] and the context. *)
Definition tst_netlink_send_validate (heap : nat → option bool) (sent : Z) (answers : list answer) (c : context) :
    cres (Z * Z * context) :=
  '(_, c) ← tst_netlink_send heap sent c;
  res ← tst_netlink_recv answers;
  match res with
  | None => CRet (0, 0, c)
  | Some res =>
      r ← tst_netlink_check_acks c res;
      match r with
      | inl e => CRet (0, e, c)
      | inr _ => CRet (1, 0, c)
      end
  end.
