(* ===== verification/NetlinkFacts.v ===== *)
(** * The netlink buffer holds the messages that were added

    The context is related to the list of its messages; every function of
    lib/tst_netlink.c keeps the relation, and what is sent is walked over
    again message by message. *)

From S2P Require Import Prelude Bytes Netlink.
Open Scope Z_scope.

(** ** Alignment *)

Lemma align_spec n : ∃ k, NLMSG_ALIGN n = (4 * k)%nat ∧ (n ≤ 4 * k < n + 4)%nat.
Proof.
  unfold NLMSG_ALIGN. exists ((n + 3) / 4)%nat. pose proof (Nat.div_mod (n + 3) 4). pose proof (Nat.mod_upper_bound (n + 3) 4). lia.
Qed.

Lemma align_eq n k : (n ≤ 4 * k < n + 4)%nat → NLMSG_ALIGN n = (4 * k)%nat.
Proof. intros Hk. destruct (align_spec n) as (k' & -> & ?). lia. Qed.

(** Multiples of 4. *)
Definition aligned (n : nat) : Prop := NLMSG_ALIGN n = n.

Lemma aligned_iff n : aligned n ↔ ∃ k, n = (4 * k)%nat.
Proof.
  unfold aligned. split.
  - destruct (align_spec n) as (k & E & _). intros <-. rewrite E. by exists k.
  - intros [k ->]. apply align_eq. lia.
Qed.

Lemma align_add a n : aligned a → NLMSG_ALIGN (a + n) = (a + NLMSG_ALIGN n)%nat.
Proof.
  intros [k ->]%aligned_iff. destruct (align_spec n) as (k' & -> & ?). rewrite (align_eq _ (k + k')); lia.
Qed.

Lemma aligned_add a b : aligned a → aligned b → aligned (a + b).
Proof. intros Ha Hb. unfold aligned. by rewrite align_add, Hb. Qed.

Lemma aligned_align n : aligned (NLMSG_ALIGN n).
Proof. apply aligned_iff. destruct (align_spec n) as (k & -> & _). by exists k. Qed.

Lemma align_ge n : (n ≤ NLMSG_ALIGN n < n + 4)%nat.
Proof. destruct (align_spec n) as (k & -> & ?). lia. Qed.

Lemma align_mono a b : (a ≤ b)%nat → (NLMSG_ALIGN a ≤ NLMSG_ALIGN b)%nat.
Proof. intros H. destruct (align_spec a) as (k & -> & ?), (align_spec b) as (k' & -> & ?). lia. Qed.

Lemma msg_space_align n : Z.of_nat n < 2 ^ 32 - 3 → msg_space (Z.of_nat n) = NLMSG_ALIGN n.
Proof.
  intros Hn. unfold msg_space, NLMSG_ALIGN. rewrite wrapu_small by lia. apply Nat2Z.inj.
  rewrite Z2Nat.id by (assert (0 ≤ (Z.of_nat n + 3) / 4) by (apply Z.div_pos; lia); lia).
  rewrite Nat2Z.inj_mul, Nat2Z.inj_div, Nat2Z.inj_add. done.
Qed.

(** The bytes up to the next multiple. *)
Definition padding (n : nat) (p : list Z) : Prop := length p = (NLMSG_ALIGN n - n)%nat.

(** ** Headers *)

Definition u16 (z : Z) : Prop := 0 ≤ z < 2 ^ 16.
Definition u32 (z : Z) : Prop := 0 ≤ z < 2 ^ 32.

Definition hdr_ok (h : nlmsghdr) : Prop :=
  u32 (nlmsg_len h) ∧ u16 (nlmsg_type h) ∧ u16 (nlmsg_flags h) ∧ u32 (nlmsg_seq h) ∧ u32 (nlmsg_pid h).

Lemma length_hdr_bytes h : length (hdr_bytes h) = 16%nat.
Proof. done. Qed.

Lemma hdr_at_bytes o a h r : length a = o → hdr_ok h → hdr_at o (a ++ hdr_bytes h ++ r) = Some h.
Proof.
  intros Ha (Hl & Ht & Hf & Hs & Hp). unfold hdr_at, hdr_bytes.
  set (l := lebytes 4 _). set (t := lebytes 2 (nlmsg_type h)). set (f := lebytes 2 (nlmsg_flags h)). set (s := lebytes 4 (nlmsg_seq h)).
  set (p := lebytes 4 (nlmsg_pid h)). set (b := a ++ (l ++ _) ++ r).
  assert (Hb : ∀ x y z n off, b = x ++ y ++ z → length x = off → length y = n → peek n off b = Some (unle y)).
  { intros x y z n off ->. apply peek_at. }
  rewrite (Hb a l (t ++ f ++ s ++ p ++ r) 4%nat o), obind_Some by (unfold b; rewrite <- ?app_assoc; done).
  rewrite (Hb (a ++ l) t (f ++ s ++ p ++ r) 2%nat (o + 4)%nat), obind_Some by (unfold b; rewrite <- ?app_assoc, ?length_app; cbn; done || lia).
  rewrite (Hb (a ++ l ++ t) f (s ++ p ++ r) 2%nat (o + 6)%nat), obind_Some by (unfold b; rewrite <- ?app_assoc, ?length_app; cbn; done || lia).
  rewrite (Hb (a ++ l ++ t ++ f) s (p ++ r) 4%nat (o + 8)%nat), obind_Some by (unfold b; rewrite <- ?app_assoc, ?length_app; cbn; done || lia).
  rewrite (Hb (a ++ l ++ t ++ f ++ s) p r 4%nat (o + 12)%nat), obind_Some by (unfold b; rewrite <- ?app_assoc, ?length_app; cbn; done || lia).
  f_equal. unfold l, t, f, s, p. rewrite !unle_small by (change (256 ^ Z.of_nat 4) with (2 ^ 32); change (256 ^ Z.of_nat 2) with (2 ^ 16); done).
  by destruct h.
Qed.

Definition set_flags (f : Z) (h : nlmsghdr) : nlmsghdr := mk_hdr (nlmsg_len h) (nlmsg_type h) f (nlmsg_seq h) (nlmsg_pid h).
Definition set_len (n : Z) (h : nlmsghdr) : nlmsghdr := mk_hdr n (nlmsg_type h) (nlmsg_flags h) (nlmsg_seq h) (nlmsg_pid h).

Lemma poke_flags o a h r f : length a = o →
  poke (o + 6) (lebytes 2 f) (a ++ hdr_bytes h ++ r) = Some (a ++ hdr_bytes (set_flags f h) ++ r).
Proof.
  intros Ha. unfold hdr_bytes, set_flags. cbn [nlmsg_len nlmsg_type nlmsg_flags nlmsg_seq nlmsg_pid].
  erewrite (poke_split _ _ _ (a ++ lebytes 4 (nlmsg_len h) ++ lebytes 2 (nlmsg_type h)) (lebytes 2 (nlmsg_flags h))
    (lebytes 4 (nlmsg_seq h) ++ lebytes 4 (nlmsg_pid h) ++ r)); [|by rewrite <- !app_assoc|rewrite !length_app, !length_lebytes; lia|done].
  f_equal. by rewrite <- !app_assoc.
Qed.

Lemma poke_len o a h r n : length a = o →
  poke o (lebytes 4 n) (a ++ hdr_bytes h ++ r) = Some (a ++ hdr_bytes (set_len n h) ++ r).
Proof.
  intros Ha. unfold hdr_bytes, set_len. cbn [nlmsg_len nlmsg_type nlmsg_flags nlmsg_seq nlmsg_pid].
  rewrite <- !app_assoc. by apply poke_at.
Qed.

(** ** Messages *)

Record amsg := mk_amsg { a_type : Z; a_flags : Z; a_seq : Z; a_pid : Z; a_body : list Z }.

Definition amsg_hdr (m : amsg) : nlmsghdr :=
  mk_hdr (Z.of_nat (16 + length (a_body m))) (a_type m) (a_flags m) (a_seq m) (a_pid m).

Definition amsg_bytes (m : amsg) : list Z := hdr_bytes (amsg_hdr m) ++ a_body m.

Definition amsg_ok (m : amsg) : Prop := hdr_ok (amsg_hdr m) ∧ nlmsg_len (amsg_hdr m) < 2 ^ 32 - 3.

Definition set_body (b : list Z) (m : amsg) : amsg := mk_amsg (a_type m) (a_flags m) (a_seq m) (a_pid m) b.
Definition with_multi (m : amsg) : amsg := mk_amsg (a_type m) (Z.lor (a_flags m) NLM_F_MULTI) (a_seq m) (a_pid m) (a_body m).

Lemma amsg_ok_intro m :
  u16 (a_type m) → u16 (a_flags m) → u32 (a_seq m) → u32 (a_pid m) → Z.of_nat (16 + length (a_body m)) < 2 ^ 32 - 3 → amsg_ok m.
Proof. intros ? ? ? ? ?. unfold amsg_ok, hdr_ok, u32, u16, amsg_hdr in *. cbn [nlmsg_len nlmsg_type nlmsg_flags nlmsg_seq nlmsg_pid]. lia. Qed.

Lemma lor_16 f : u16 f → Z.lor f NLM_F_MULTI < 2 ^ 16.
Proof.
  intros [H0 H1]. destruct (decide (Z.lor f NLM_F_MULTI = 0)) as [-> |Hne]; [done|].
  assert (0 < Z.lor f NLM_F_MULTI) as Hpos by (assert (0 ≤ Z.lor f NLM_F_MULTI) by (by apply Z.lor_nonneg); lia).
  apply Z.log2_lt_pow2; [done|]. rewrite Z.log2_lor by done. apply Z.max_lub_lt; [|done].
  destruct (decide (f = 0)) as [->|]; [done|]. apply Z.log2_lt_pow2; lia.
Qed.

Lemma with_multi_ok m : amsg_ok m → amsg_ok (with_multi m).
Proof.
  intros ((_ & ? & [? ?] & ? & ?) & ?). apply amsg_ok_intro; try done. split; [apply Z.lor_nonneg; split; done|by apply lor_16].
Qed.

Lemma length_amsg_bytes m : length (amsg_bytes m) = (16 + length (a_body m))%nat.
Proof. unfold amsg_bytes. by rewrite length_app. Qed.

(** Messages one after the other, each up to a multiple of 4. *)
Fixpoint packed (ms : list amsg) (d : list Z) : Prop :=
  match ms with
  | [] => d = []
  | m :: ms => ∃ p d', d = amsg_bytes m ++ p ++ d' ∧ padding (length (amsg_bytes m)) p ∧ packed ms d'
  end.

Lemma packed_snoc ms m d p :
  packed ms d → padding (length (amsg_bytes m)) p → packed (ms ++ [m]) (d ++ amsg_bytes m ++ p).
Proof.
  revert d. induction ms as [|m' ms IH]; intros d; cbn [packed app].
  - intros -> Hp. exists p, []. by rewrite app_nil_r.
  - intros (p' & d' & -> & Hp' & Hd) Hp. exists p', (d' ++ amsg_bytes m ++ p). split_and!; [|done|by apply IH].
    by rewrite <- !app_assoc.
Qed.

Lemma packed_aligned ms d : packed ms d → aligned (length d).
Proof.
  revert d. induction ms as [|m ms IH]; intros d; cbn [packed]; [by intros ->|].
  intros (p & d' & -> & Hp & Hd). rewrite !length_app, Nat.add_assoc. apply aligned_add; [|by apply IH].
  unfold padding in Hp. pose proof (align_ge (length (amsg_bytes m))). rewrite Hp.
  replace (length (amsg_bytes m) + _)%nat with (NLMSG_ALIGN (length (amsg_bytes m))) by lia. apply aligned_align.
Qed.

(** A context between two sends, and one with the messages [ms] and [m],
    which is the last. *)
Definition idle (c : context) : Prop :=
  curmsg c = PNull ∧ bufsize c = length (buffer c) ∧ aligned (bufsize c) ∧ (datalen c ≤ bufsize c)%nat ∧ u32 (seq c) ∧ u32 (pid c).

Definition rep (ms : list amsg) (m : amsg) (c : context) : Prop :=
  ∃ d r, packed ms d ∧ buffer c = d ++ amsg_bytes m ++ r ∧ curmsg c = PAt (length d) ∧
    datalen c = (length d + length (amsg_bytes m))%nat ∧ bufsize c = length (buffer c) ∧ aligned (bufsize c) ∧ amsg_ok m ∧
    u32 (seq c) ∧ u32 (pid c).

Section Heap.
Context (heap : nat → option bool) (Hheap : ∀ n, heap n ≠ None).

Lemma grow_spec size c :
  bufsize c = length (buffer c) → aligned (bufsize c) → (datalen c ≤ bufsize c)%nat →
  (curmsg c = PNull → heap (reallocs c) = Some false ∨ (NLMSG_ALIGN (datalen c) + size ≤ bufsize c)%nat) →
  ∃ x n k, netlink_grow_buffer heap size c = CRet (mk_ctx (pid c) (seq c) n (datalen c) (buffer c ++ x) (curmsg c) k) ∧
    n = length (buffer c ++ x) ∧ aligned n ∧ (NLMSG_ALIGN (datalen c) + size ≤ n)%nat.
Proof.
  intros Hb Ha Hd Hcur. unfold netlink_grow_buffer.
  assert (NLMSG_ALIGN (datalen c) ≤ bufsize c)%nat as Hle by (rewrite <- Ha; by apply align_mono).
  destruct (Nat.ltb_spec (bufsize c) (NLMSG_ALIGN (datalen c))); [lia|].
  destruct (Nat.leb_spec size (bufsize c - NLMSG_ALIGN (datalen c))) as [L|L].
  { exists [], (bufsize c), (reallocs c). rewrite app_nil_r. split_and!; [by destruct c|done|done|lia]. }
  set (needed := (size - (bufsize c - NLMSG_ALIGN (datalen c)))%nat). set (n := NLMSG_ALIGN (bufsize c + Nat.max (bufsize c) needed)).
  pose proof (align_ge (bufsize c + Nat.max (bufsize c) needed)) as Hn. fold n in Hn.
  assert (n = length (buffer c ++ replicate (n - bufsize c) 0)) as Hlen.
  { rewrite length_app, length_replicate, <- Hb. lia. }
  destruct (heap (reallocs c)) as [moved|] eqn:Eh; [|by destruct (Hheap (reallocs c))].
  exists (replicate (n - bufsize c) 0), n, (S (reallocs c)). split_and!; [|exact Hlen|apply aligned_align|lia].
  do 2 f_equal. destruct (curmsg c) eqn:Ec; try done. destruct (Hcur eq_refl) as [[= ->]|]; [done|lia].
Qed.

Lemma rep_grow ms m c size :
  rep ms m c → ∃ c' d r, netlink_grow_buffer heap size c = CRet c' ∧ packed ms d ∧ buffer c' = d ++ amsg_bytes m ++ r ∧
    curmsg c' = PAt (length d) ∧ datalen c' = datalen c ∧ bufsize c' = length (buffer c') ∧ aligned (bufsize c') ∧
    datalen c = (length d + length (amsg_bytes m))%nat ∧ (NLMSG_ALIGN (datalen c) + size ≤ bufsize c')%nat ∧
    seq c' = seq c ∧ pid c' = pid c.
Proof.
  intros (d & r & Hd & Eb & Ec & El & Es & Ha & Hm & Hs & Hp).
  destruct (grow_spec size c Es Ha) as (x & n & k & E & En & Han & Hfit).
  - rewrite El, Es, Eb, !length_app. lia.
  - by rewrite Ec.
  - eexists _, d, (r ++ x). split_and!; [exact E|done|cbn; rewrite Eb; by rewrite <- !app_assoc|done..].
Qed.

(** The header and the payload written after [d]. *)
Lemma put_msg d r h pl :
  (16 + length pl ≤ length r)%nat →
  ∃ b r', poke (length d) (hdr_bytes h) (d ++ r) = Some b ∧
    (if (length pl =? 0)%nat then Some b else poke (length d + NLMSG_HDRLEN) pl b) = Some (d ++ hdr_bytes h ++ pl ++ r') ∧
    length (d ++ hdr_bytes h ++ pl ++ r') = length (d ++ r).
Proof.
  intros Hr. destruct (split_length 16 r) as (x & r1 & -> & Hx); [lia|]. rewrite length_app, Hx in Hr.
  destruct (split_length (length pl) r1) as (y & r' & -> & Hy); [lia|].
  exists (d ++ hdr_bytes h ++ y ++ r'), r'. split_and!.
  - by apply poke_at.
  - destruct (Nat.eqb_spec (length pl) 0) as [E|E].
    + apply nil_length_inv in E as ->. apply nil_length_inv in Hy as ->. done.
    + erewrite (poke_split _ _ _ (d ++ hdr_bytes h) y r'); [by rewrite <- app_assoc|by rewrite <- app_assoc|by rewrite length_app|done].
  - rewrite !length_app, length_hdr_bytes. lia.
Qed.

Definition new_msg (type flags : Z) (pl : list Z) (c : context) : amsg := mk_amsg type flags (seq c) (pid c) pl.

Lemma u32_wrap z : u32 (wrapu 32 z).
Proof. apply (wrapu_range 32 z). lia. Qed.

Lemma add_message_first type flags pl c :
  idle c → u16 type → u16 flags → Z.of_nat (16 + length pl) < 2 ^ 32 - 3 →
  heap (reallocs c) = Some false ∨ (NLMSG_ALIGN (datalen c) + NLMSG_SPACE (length pl) ≤ bufsize c)%nat →
  ∃ c', tst_netlink_add_message heap type flags pl c = CRet c' ∧ rep [] (new_msg type flags pl c) c' ∧
    seq c' = wrapu 32 (seq c + 1) ∧ pid c' = pid c.
Proof.
  intros (Ecur & Eb & Ha & Hd & Hs & Hp) Ht Hf Hlen Hheap0. unfold tst_netlink_add_message.
  destruct (grow_spec (NLMSG_SPACE (length pl)) c Eb Ha Hd (λ _, Hheap0)) as (x & n & k & -> & En & Han & Hfit).
  rewrite cbind_Ret. cbn [curmsg]. rewrite Ecur. rewrite cbind_Ret. cbn beta iota. cbn [curmsg at_cur]. rewrite cbind_Ret.
  cbn [buffer seq pid bufsize datalen reallocs curmsg]. rewrite Z.lor_0_r.
  rewrite (wrapu_small 32 (Z.of_nat _)) by (unfold NLMSG_LENGTH, NLMSG_HDRLEN; lia).
  set (h := mk_hdr _ type flags (seq c) (pid c)). pose proof (align_ge (NLMSG_LENGTH (length pl))) as Hsp.
  destruct (put_msg [] (buffer c ++ x) h pl) as (b & r' & Eh & Epl & Elen).
  { unfold NLMSG_SPACE, NLMSG_LENGTH, NLMSG_HDRLEN in *. lia. }
  cbn [length app Nat.add] in Eh, Epl. cbn [Nat.add]. rewrite Eh. cbn [defined]. rewrite cbind_Ret. unfold NLMSG_HDRLEN in *. rewrite Epl. cbn [defined]. rewrite cbind_Ret.
  assert (h = amsg_hdr (new_msg type flags pl c)) as Eh'.
  { unfold h, amsg_hdr. f_equal. unfold NLMSG_LENGTH, NLMSG_HDRLEN. cbn. lia. }
  eexists. split; [done|]. split; [|done]. exists [], r'. cbn [buffer curmsg datalen bufsize seq pid]. rewrite length_amsg_bytes, Nat2Z.id.
  split_and!; [done| |done| | |done| |apply u32_wrap|done].
  - unfold amsg_bytes. rewrite <- Eh'. by rewrite <- app_assoc.
  - unfold NLMSG_LENGTH, NLMSG_HDRLEN. cbn. lia.
  - cbn [app] in Elen. rewrite Elen. done.
  - apply amsg_ok_intro; cbn [new_msg a_type a_flags a_seq a_pid a_body]; done || lia.
Qed.

Lemma add_message_next ms m type flags pl c :
  rep ms m c → u16 type → u16 flags → Z.of_nat (16 + length pl) < 2 ^ 32 - 3 →
  ∃ c', tst_netlink_add_message heap type flags pl c = CRet c' ∧
    rep (ms ++ [with_multi m]) (with_multi (new_msg type flags pl c)) c' ∧ seq c' = wrapu 32 (seq c + 1) ∧ pid c' = pid c.
Proof.
  intros Hrep Ht Hf Hlen. pose proof Hrep as (_ & _ & _ & _ & _ & _ & _ & _ & Hm & Hs & Hp). unfold tst_netlink_add_message.
  destruct (rep_grow ms m c (NLMSG_SPACE (length pl)) Hrep) as (c1 & d & r & -> & Hd & Eb & Ec & Edl & Es & Ha & El & Hfit & Eseq & Epid).
  rewrite cbind_Ret, Ec. cbn beta iota. assert (at_cur c1 = CRet (length d)) as -> by (unfold at_cur; by rewrite Ec). rewrite cbind_Ret, Eb. unfold amsg_bytes. rewrite <- app_assoc.
  rewrite (hdr_at_bytes (length d) d (amsg_hdr m)) by (done || apply Hm). cbn [defined]. rewrite cbind_Ret.
  rewrite poke_flags by done. cbn [defined]. rewrite cbind_Ret, cbind_Ret. cbn beta iota. unfold at_cur. cbn [curmsg]. rewrite cbind_Ret.
  cbn [buffer seq pid bufsize datalen reallocs curmsg]. rewrite (wrapu_small 32 (Z.of_nat _)) by (unfold NLMSG_LENGTH, NLMSG_HDRLEN; lia).
  set (h' := set_flags _ (amsg_hdr m)). cbn [amsg_hdr nlmsg_len]. rewrite !Nat2Z.id, msg_space_align by apply Hm.
  set (n := (16 + length (a_body m))%nat). pose proof (align_ge n) as Hn. pose proof (packed_aligned ms d Hd) as Had.
  rewrite length_amsg_bytes in El. fold n in El. rewrite El, align_add in Hfit by done.
  assert (length d + (n + length r) = bufsize c1)%nat as Hr.
  { rewrite Es, Eb, !length_app, length_amsg_bytes. unfold n. lia. }
  destruct (split_length (NLMSG_ALIGN n - n) r) as (p & r1 & -> & Hpad); [lia|]. rewrite length_app in Hr.
  set (d' := d ++ hdr_bytes h' ++ a_body m ++ p). set (h := mk_hdr _ type _ (seq c1) (pid c1)).
  assert (length d' = length d + NLMSG_ALIGN n)%nat as Hd'.
  { unfold d'. rewrite !length_app, length_hdr_bytes. unfold n in *. lia. }
  assert (d ++ hdr_bytes h' ++ a_body m ++ p ++ r1 = d' ++ r1) as Eb' by (unfold d'; by rewrite <- !app_assoc).
  rewrite Eb', <- Hd'. pose proof (align_ge (NLMSG_LENGTH (length pl))) as Hsp.
  destruct (put_msg d' r1 h pl) as (b & r' & Eh & Epl & Elen).
  { unfold NLMSG_SPACE, NLMSG_LENGTH, NLMSG_HDRLEN in *. lia. }
  rewrite Eh. cbn [defined]. rewrite cbind_Ret, Epl. cbn [defined]. rewrite cbind_Ret.
  eexists. split; [done|]. split; [|by rewrite Eseq, Epid]. exists d', r'. cbn [buffer curmsg datalen bufsize seq pid].
  rewrite length_amsg_bytes. split_and!; [| |done| | |done| | |].
  - unfold d'. rewrite (app_assoc (hdr_bytes h')). apply (packed_snoc ms (with_multi m) d p Hd). unfold padding. by rewrite length_amsg_bytes.
  - assert (h = amsg_hdr (with_multi (new_msg type flags pl c))) as Eh'.
    { unfold h, amsg_hdr. cbn. rewrite Eseq, Epid. f_equal. unfold NLMSG_LENGTH, NLMSG_HDRLEN. lia. }
    unfold amsg_bytes. rewrite <- Eh'. by rewrite <- app_assoc.
  - rewrite Edl, El, align_add, <- Hd' by done. cbn. unfold NLMSG_LENGTH, NLMSG_HDRLEN. lia.
  - rewrite Elen, <- Eb', Es, Eb, !length_app, length_amsg_bytes, length_hdr_bytes. lia.
  - apply with_multi_ok, amsg_ok_intro; cbn [new_msg a_type a_flags a_seq a_pid a_body]; done || lia.
  - apply u32_wrap.
  - by rewrite Epid.
Qed.

(** ** Attributes *)

Definition attr_bytes (type : Z) (x : list Z) : list Z := lebytes 2 (Z.of_nat (4 + length x)) ++ lebytes 2 type ++ x.

Lemma length_attr_bytes type x : length (attr_bytes type x) = (4 + length x)%nat.
Proof. unfold attr_bytes. by rewrite !length_app, !length_lebytes. Qed.

(** Four writes after [a ++ hdr ++ body ++ p]. *)
Lemma put_attr a h body p r type data n :
  (4 + length data ≤ length r)%nat → Z.of_nat (4 + length data) < 2 ^ 16 →
  let o := length a in
  let attr := (o + (16 + length body + length p))%nat in
  ∃ b1 b2 b3 r', poke (attr + 2) (lebytes 2 type) (a ++ hdr_bytes h ++ body ++ p ++ r) = Some b1 ∧
    poke attr (lebytes 2 (Z.of_nat (4 + length data))) b1 = Some b2 ∧ poke (attr + 4) data b2 = Some b3 ∧
    poke o (lebytes 4 n) b3 = Some (a ++ hdr_bytes (set_len n h) ++ (body ++ p ++ attr_bytes type data) ++ r') ∧
    length (a ++ hdr_bytes (set_len n h) ++ (body ++ p ++ attr_bytes type data) ++ r') = length (a ++ hdr_bytes h ++ body ++ p ++ r).
Proof.
  intros Hr Hlen o attr. destruct (split_length 2 r) as (x & r1 & -> & Hx); [lia|]. rewrite length_app in Hr.
  destruct (split_length 2 r1) as (y & r2 & -> & Hy); [lia|]. rewrite length_app in Hr.
  destruct (split_length (length data) r2) as (z & r' & -> & Hz); [lia|].
  set (pre := a ++ hdr_bytes h ++ body ++ p). set (l := lebytes 2 (Z.of_nat (4 + length data))). set (t := lebytes 2 type).
  assert (length pre = attr) as Hpre by (unfold pre, attr, o; rewrite !length_app, length_hdr_bytes; lia).
  exists (pre ++ x ++ t ++ z ++ r'), (pre ++ l ++ t ++ z ++ r'), (pre ++ l ++ t ++ data ++ r'), r'. split_and!.
  - rewrite (poke_split _ t _ (pre ++ x) y (z ++ r')); [by rewrite <- app_assoc|unfold pre; by rewrite <- !app_assoc|rewrite length_app; lia|done].
  - by apply poke_at.
  - rewrite (poke_split _ data _ (pre ++ l ++ t) z r'); [by rewrite <- !app_assoc|by rewrite <- !app_assoc| |done].
    rewrite !length_app. unfold l, t. rewrite !length_lebytes. lia.
  - unfold pre. rewrite <- !app_assoc. by rewrite poke_len.
  - rewrite !length_app, !length_hdr_bytes, length_attr_bytes. lia.
Qed.

Lemma add_attr_rep fname ms m type data c :
  rep ms m c → Z.of_nat (4 + length data) < 2 ^ 16 →
  Z.of_nat (16 + NLMSG_ALIGN (length (a_body m)) + 4 + length data) < 2 ^ 32 - 3 →
  ∃ p c', padding (length (a_body m)) p ∧
    add_attr heap fname (4 + NLMSG_ALIGN (length data)) (Z.of_nat (4 + length data)) type data c = CRet c' ∧
    rep ms (set_body (a_body m ++ p ++ attr_bytes type data) m) c' ∧ seq c' = seq c ∧ pid c' = pid c.
Proof.
  intros Hrep Hlen Htot. pose proof Hrep as (d0 & r0 & _ & _ & Ec0 & _ & _ & _ & Hm & Hs & Hp). unfold add_attr. rewrite Ec0. cbn beta iota.
  destruct (rep_grow ms m c (4 + NLMSG_ALIGN (length data)) Hrep) as (c1 & d & r & -> & Hd & Eb & Ec & Edl & Es & Ha & El & Hfit & Eseq & Epid).
  rewrite cbind_Ret. assert (at_cur c1 = CRet (length d)) as -> by (unfold at_cur; by rewrite Ec). rewrite cbind_Ret, Eb.
  unfold amsg_bytes. rewrite <- app_assoc. rewrite (hdr_at_bytes (length d) d (amsg_hdr m)) by (done || apply Hm). cbn [defined]. rewrite cbind_Ret.
  cbn [amsg_hdr nlmsg_len]. rewrite !Nat2Z.id, msg_space_align by apply Hm. set (body := a_body m) in *. pose proof (align_ge (length body)) as Hn.
  assert (NLMSG_ALIGN (16 + length body) = 16 + NLMSG_ALIGN (length body))%nat as Eal by (by apply align_add).
  pose proof (packed_aligned ms d Hd) as Had. rewrite length_amsg_bytes in El. fold body in El. rewrite El, align_add, Eal in Hfit by done. rewrite Eal.
  assert (length d + (16 + length body + length r) = bufsize c1)%nat as Hr.
  { rewrite Es, Eb, !length_app, length_amsg_bytes. fold body. lia. }
  pose proof (align_ge (length data)) as Hdata.
  destruct (split_length (NLMSG_ALIGN (length body) - length body) r) as (p & r1 & -> & Hpad); [lia|]. rewrite length_app in Hr.
  destruct (put_attr d (amsg_hdr m) body p r1 type data (wrapu 32 (Z.of_nat (16 + NLMSG_ALIGN (length body)) + Z.of_nat (4 + length data))))
    as (b1 & b2 & b3 & r' & E1 & E2 & E3 & E4 & Elen); [lia|done|].
  exists p. replace (16 + length body + length p)%nat with (16 + NLMSG_ALIGN (length body))%nat in E1, E2, E3 by lia.
  rewrite E1. cbn [defined]. rewrite cbind_Ret, E2. cbn [defined]. rewrite cbind_Ret, E3. cbn [defined]. rewrite cbind_Ret, E4.
  cbn [defined]. rewrite cbind_Ret. eexists. split; [done|]. split; [done|]. split; [|done].
  rewrite wrapu_small in * by lia. exists d, r'. cbn [buffer curmsg datalen bufsize seq pid]. rewrite length_amsg_bytes.
  assert (set_len (Z.of_nat (16 + NLMSG_ALIGN (length body)) + Z.of_nat (4 + length data)) (amsg_hdr m) =
    amsg_hdr (set_body (body ++ p ++ attr_bytes type data) m)) as Eh.
  { unfold set_len, amsg_hdr, set_body. cbn [a_body a_type a_flags a_seq a_pid nlmsg_len nlmsg_type nlmsg_flags nlmsg_seq nlmsg_pid]. f_equal. rewrite !length_app, length_attr_bytes. lia. }
  split_and!; [done| |done| | |done| |by rewrite Eseq|by rewrite Epid].
  - unfold amsg_bytes. rewrite <- Eh. cbn [a_body set_body]. by rewrite <- !app_assoc.
  - rewrite Edl, El, align_add, Eal by done. cbn [a_body set_body]. rewrite !length_app, length_attr_bytes. fold body. lia.
  - rewrite Elen, Es, Eb. unfold amsg_bytes. by rewrite <- !app_assoc.
  - destruct Hm as ((_ & ? & ? & ? & ?) & _). apply amsg_ok_intro; [done..|]. cbn [set_body a_body]. rewrite !length_app, length_attr_bytes. unfold body in *. lia.
Qed.

(** [b'] is [b] with the attributes [l] after it. *)
Fixpoint attrs_at (l : attr_list) (b b' : list Z) : Prop :=
  match l with
  | ANil => b' = b
  | ACons type data rest => ∃ p, padding (length b) p ∧ attrs_at rest (b ++ p ++ attr_bytes type data) b'
  | ANest type data sublist rest =>
      ∃ p x, padding (length b) p ∧ attrs_at sublist data x ∧ attrs_at rest (b ++ p ++ attr_bytes type x) b'
  end.

Fixpoint attrs_size (l : attr_list) : nat :=
  match l with
  | ANil => 0
  | ACons _ data rest => 4 + NLMSG_ALIGN (length data) + attrs_size rest
  | ANest _ data sublist rest => 4 + NLMSG_ALIGN (length data) + attrs_size sublist + attrs_size rest
  end.

(** Every attribute fits the 16 bits of its length. *)
Fixpoint attrs_ok (l : attr_list) : Prop :=
  match l with
  | ANil => True
  | ACons _ data rest => Z.of_nat (4 + length data) < 2 ^ 16 ∧ attrs_ok rest
  | ANest _ data sublist rest =>
      Z.of_nat (4 + NLMSG_ALIGN (length data) + attrs_size sublist) < 2 ^ 16 ∧ attrs_ok sublist ∧ attrs_ok rest
  end.

Fixpoint attrs_len (l : attr_list) : Z :=
  match l with ANil => 0 | ACons _ _ rest | ANest _ _ _ rest => 1 + attrs_len rest end.

Lemma attrs_size_aligned l : aligned (attrs_size l).
Proof.
  induction l as [|type data rest IH|type data sub IHs rest IH]; cbn [attrs_size]; [done|..].
  - apply aligned_add; [|done]. by apply (aligned_add 4), aligned_align.
  - apply aligned_add; [|done]. apply aligned_add; [|done]. by apply (aligned_add 4), aligned_align.
Qed.

Lemma align_attr b p x : padding (length b) p → NLMSG_ALIGN (length (b ++ p ++ x)) = (NLMSG_ALIGN (length b) + NLMSG_ALIGN (length x))%nat.
Proof.
  intros Hp. unfold padding in Hp. pose proof (align_ge (length b)). rewrite !length_app.
  replace (length b + (length p + length x))%nat with (NLMSG_ALIGN (length b) + length x)%nat by lia. apply align_add, aligned_align.
Qed.

Lemma align_attr_bytes type x : NLMSG_ALIGN (length (attr_bytes type x)) = (4 + NLMSG_ALIGN (length x))%nat.
Proof. rewrite length_attr_bytes. by apply align_add. Qed.

Lemma attrs_at_length l b b' : attrs_at l b b' → (NLMSG_ALIGN (length b') ≤ NLMSG_ALIGN (length b) + attrs_size l)%nat.
Proof.
  revert b b'. induction l as [|type data rest IH|type data sub IHs rest IH]; intros b b'; cbn [attrs_at attrs_size].
  - intros ->. lia.
  - intros (p & Hp & H). specialize (IH _ _ H). rewrite align_attr, align_attr_bytes in IH by done. lia.
  - intros (p & x & Hp & Hx & H). specialize (IH _ _ H). specialize (IHs _ _ Hx). rewrite align_attr, align_attr_bytes in IH by done. lia.
Qed.

(** Attributes do not change what is before them. *)
Lemma attrs_at_prefix l q b b' : aligned (length q) → attrs_at l (q ++ b) b' → ∃ x, b' = q ++ x ∧ attrs_at l b x.
Proof.
  intros Hq. revert b b'. induction l as [|type data rest IH|type data sub IHs rest IH]; intros b b'; cbn [attrs_at].
  - intros ->. by exists b.
  - intros (p & Hp & H). rewrite <- app_assoc in H. destruct (IH _ _ H) as (x & -> & Hx). exists x. split; [done|]. exists p. split; [|done].
    unfold padding in *. rewrite length_app, align_add in Hp by done. lia.
  - intros (p & y & Hp & Hy & H). rewrite <- app_assoc in H. destruct (IH _ _ H) as (x & -> & Hx). exists x. split; [done|]. exists p, y.
    split_and!; [|done|done]. unfold padding in *. rewrite length_app, align_add in Hp by done. lia.
Qed.

Lemma packed_length ms d d' : packed ms d → packed ms d' → length d = length d'.
Proof.
  revert d d'. induction ms as [|m ms IH]; intros d d'; cbn [packed]; [by intros -> ->|].
  intros (p & x & -> & Hp & Hx) (p' & x' & -> & Hp' & Hx'). unfold padding in *. rewrite !length_app, Hp, Hp', (IH _ _ Hx Hx'). done.
Qed.

(** The length of an attribute that was extended by others. *)
Lemma patch_rep ms m c body p type n x :
  rep ms (set_body (body ++ p ++ (lebytes 2 n ++ lebytes 2 type) ++ x) m) c → padding (length body) p →
  ∃ d c', packed ms d ∧ datalen c = (length d + (16 + (NLMSG_ALIGN (length body) + 4 + length x)))%nat ∧
    poke (length d + (16 + NLMSG_ALIGN (length body))) (lebytes 2 (Z.of_nat (4 + length x))) (buffer c) = Some (buffer c') ∧
    c' = set_buffer (buffer c') c ∧ rep ms (set_body (body ++ p ++ attr_bytes type x) m) c'.
Proof.
  intros (d & r & Hd & Eb & Ec & El & Es & Ha & Hm & Hs & Hp) Hpad. unfold padding in Hpad. pose proof (align_ge (length body)) as Hal.
  set (b1 := body ++ p ++ attr_bytes type x). set (h := amsg_hdr (set_body b1 m)).
  assert (amsg_hdr (set_body (body ++ p ++ (lebytes 2 n ++ lebytes 2 type) ++ x) m) = h) as Eh.
  { unfold h, amsg_hdr, set_body, b1. cbn [a_body a_type a_flags a_seq a_pid]. do 2 f_equal. unfold attr_bytes. rewrite !length_app, !length_lebytes. lia. }
  unfold amsg_ok in Hm. unfold amsg_bytes in Eb, El. rewrite Eh in Eb, El, Hm. cbn [a_body set_body] in Eb, El.
  exists d, (set_buffer (d ++ amsg_bytes (set_body b1 m) ++ r) c). split_and!; [done| | |done|].
  - rewrite El, !length_app, length_hdr_bytes, !length_lebytes. lia.
  - rewrite Eb. erewrite (poke_split _ _ _ (d ++ hdr_bytes h ++ body ++ p) (lebytes 2 n) (lebytes 2 type ++ x ++ r));
      [|by rewrite <- !app_assoc|rewrite !length_app, length_hdr_bytes; lia|done].
    f_equal. unfold set_buffer. cbn [buffer]. unfold amsg_bytes, b1, attr_bytes. fold h. cbn [a_body set_body]. by rewrite <- !app_assoc.
  - exists d, r. cbn [buffer curmsg datalen bufsize seq pid set_buffer]. split_and!; [done|done|done| | |done|done|done|done].
    + rewrite El, length_amsg_bytes. unfold b1, attr_bytes. cbn [a_body set_body]. rewrite !length_app, length_hdr_bytes, !length_lebytes. lia.
    + rewrite Es, Eb, !length_app, length_amsg_bytes. unfold b1, attr_bytes. cbn [a_body set_body].
      rewrite !length_app, length_hdr_bytes, !length_lebytes. lia.
Qed.

(** What both families of functions do with one attribute. *)
Definition adds_attr (add : Z → list Z → context → cres context) : Prop :=
  ∀ type data ms m c, rep ms m c → Z.of_nat (4 + length data) < 2 ^ 16 →
  Z.of_nat (16 + NLMSG_ALIGN (length (a_body m)) + 4 + length data) < 2 ^ 32 - 3 →
  ∃ p c', padding (length (a_body m)) p ∧ add type data c = CRet c' ∧
    rep ms (set_body (a_body m ++ p ++ attr_bytes type data) m) c' ∧ seq c' = seq c ∧ pid c' = pid c.

Lemma netlink_adds_attr : adds_attr (tst_netlink_add_attr heap).
Proof.
  intros type data ms m c Hrep Hd Hm. unfold tst_netlink_add_attr, NLA_HDRLEN, NLA_ALIGN.
  rewrite (wrapu_small 16) by lia. by apply add_attr_rep.
Qed.

Lemma rtnl_adds_attr : adds_attr (tst_rtnl_add_attr heap).
Proof.
  intros type data ms m c Hrep Hd Hm. unfold tst_rtnl_add_attr, RTA_SPACE, RTA_LENGTH.
  rewrite (wrapu_small 16) by lia. rewrite align_add by done. by apply add_attr_rep.
Qed.

Lemma set_body_body b b' m : set_body b' (set_body b m) = set_body b' m.
Proof. done. Qed.

Lemma rep_datalen ms m c : rep ms m c → ∃ d, packed ms d ∧ datalen c = (length d + (16 + length (a_body m)))%nat ∧ aligned (length d).
Proof. intros (d & r & Hd & _ & _ & El & _). exists d. rewrite length_amsg_bytes in El. split_and!; [done|done|by eapply packed_aligned]. Qed.

Lemma add_attr_list_rep fname add l : adds_attr add → ∀ i ms m c,
  rep ms m c → attrs_ok l → Z.of_nat (16 + NLMSG_ALIGN (length (a_body m)) + attrs_size l) < 2 ^ 32 - 3 →
  ∃ c' b, add_attr_list fname add i l c = CRet (i + attrs_len l, c') ∧ attrs_at l (a_body m) b ∧ rep ms (set_body b m) c' ∧
    seq c' = seq c ∧ pid c' = pid c.
Proof.
  intros Hadd. induction l as [|type data rest IH|type data sub IHs rest IH]; intros i ms m c Hrep Hok Hsz; cbn [add_attr_list attrs_at attrs_len attrs_size attrs_ok] in *.
  - exists c, (a_body m). rewrite Z.add_0_r. split_and!; try done.
  - destruct Hok as [Hd Hok]. pose proof (align_ge (length data)). destruct (Z.ltb_spec USHRT_MAX (Z.of_nat (length data))); [unfold USHRT_MAX in *; lia|].
    destruct (Hadd type data ms m c Hrep Hd) as (p & c1 & Hp & -> & Hrep1 & Es1 & Ep1); [lia|]. rewrite cbind_Ret.
    destruct (IH (i + 1) ms _ c1 Hrep1 Hok) as (c' & b & -> & Hb & Hrep' & Es & Ep).
    { cbn [a_body set_body]. rewrite align_attr, align_attr_bytes by done. lia. }
    rewrite set_body_body in Hrep'. exists c', b. split_and!; [do 2 f_equal; lia|by exists p|done|congruence|congruence].
  - destruct Hok as (Hd & Hsub & Hok). pose proof (align_ge (length data)). destruct (Z.ltb_spec USHRT_MAX (Z.of_nat (length data))); [unfold USHRT_MAX in *; lia|].
    destruct (Hadd type data ms m c Hrep) as (p & c1 & Hp & -> & Hrep1 & Es1 & Ep1); [lia|lia|]. rewrite cbind_Ret.
    destruct (IHs 0 ms _ c1 Hrep1 Hsub) as (c2 & b2 & -> & Hb2 & Hrep2 & Es2 & Ep2).
    { cbn [a_body set_body]. rewrite align_attr, align_attr_bytes by done. lia. }
    rewrite cbind_Ret. cbn beta iota zeta. rewrite set_body_body in Hrep2. cbn [a_body set_body] in Hb2. unfold attr_bytes in Hb2.
    set (q := a_body m ++ p ++ lebytes 2 (Z.of_nat (4 + length data)) ++ lebytes 2 type).
    assert (a_body m ++ p ++ lebytes 2 (Z.of_nat (4 + length data)) ++ lebytes 2 type ++ data = q ++ data) as Eq by (unfold q; by rewrite <- !app_assoc).
    unfold padding in Hp. pose proof (align_ge (length (a_body m))) as Hal.
    assert (aligned (length q)) as Hq.
    { unfold q. rewrite !length_app, !length_lebytes. replace (_ + _)%nat with (NLMSG_ALIGN (length (a_body m)) + 4)%nat by lia.
      by apply aligned_add; [apply aligned_align|]. }
    rewrite Eq in Hb2. destruct (attrs_at_prefix sub q data b2 Hq Hb2) as (x & -> & Hx).
    assert (q ++ x = a_body m ++ p ++ (lebytes 2 (Z.of_nat (4 + length data)) ++ lebytes 2 type) ++ x) as Eqx by (unfold q; by rewrite <- !app_assoc).
    rewrite Eqx in Hrep2. destruct (patch_rep ms m c2 _ _ _ _ x Hrep2 Hp) as (d & c3 & Hd3 & El & Epoke & Ec3 & Hrep3).
    destruct (rep_datalen ms m c Hrep) as (d0 & Hd0 & El0 & Hal0). rewrite (packed_length _ _ _ Hd3 Hd0) in El, Epoke.
    assert (NLMSG_ALIGN (datalen c) = length d0 + (16 + NLMSG_ALIGN (length (a_body m))))%nat as Eoff.
    { rewrite El0, align_add by done. f_equal. by apply align_add. }
    rewrite Eoff. replace (datalen c2 - _)%nat with (4 + length x)%nat by lia.
    pose proof (attrs_at_length sub data x Hx) as Hlx. pose proof (align_ge (length x)).
    destruct (Z.ltb_spec USHRT_MAX (Z.of_nat (4 + length x))); [unfold USHRT_MAX in *; lia|].
    rewrite Epoke. cbn [defined]. rewrite cbind_Ret, <- Ec3.
    destruct (IH (i + 1) ms _ c3 Hrep3 Hok) as (c' & b & -> & Hb & Hrep' & Es & Ep).
    { cbn [a_body set_body]. rewrite align_attr, align_attr_bytes by done. lia. }
    rewrite set_body_body in Hrep'. exists c', b. rewrite Ec3 in Es, Ep. cbn in Es, Ep.
    split_and!; [do 2 f_equal; lia|by exists p, x|done|congruence|congruence].
Qed.
End Heap.

(** ** Walking over the messages *)

Fixpoint offsets (o : nat) (ms : list amsg) : list nat :=
  match ms with
  | [] => []
  | m :: ms => o :: offsets (o + NLMSG_ALIGN (16 + length (a_body m))) ms
  end.

Lemma peek_hdr_len o a h r : length a = o → u32 (nlmsg_len h) → peek 4 o (a ++ hdr_bytes h ++ r) = Some (nlmsg_len h).
Proof.
  intros Ha Hl. unfold hdr_bytes. rewrite <- !app_assoc. rewrite peek_at by done. by rewrite unle_small.
Qed.

(** One message; [left] is the size that is left. *)
Lemma walk_msg fuel a m r left :
  amsg_ok m → Z.of_nat (16 + length (a_body m)) ≤ left < 2 ^ 31 →
  walk (S fuel) (length a) left (a ++ amsg_bytes m ++ r) =
  (os ← walk fuel (length a + NLMSG_ALIGN (16 + length (a_body m))) (left - Z.of_nat (NLMSG_ALIGN (16 + length (a_body m)))) (a ++ amsg_bytes m ++ r);
   Some (length a :: os)).
Proof.
  intros Hm Hleft. pose proof Hm as ((Hl & _) & _). cbn [walk]. destruct (Z.leb_spec left 0); [lia|]. unfold NLMSG_OK.
  change (Z.of_nat NLMSG_HDRLEN) with 16. destruct (Z.ltb_spec left 16); [lia|]. unfold amsg_bytes. rewrite <- app_assoc.
  rewrite peek_hdr_len, obind_Some, obind_Some by done. rewrite wrapu_small by lia. 
  change (nlmsg_len (amsg_hdr m)) with (Z.of_nat (16 + length (a_body m))).
  rewrite !(proj2 (Z.leb_le _ _)) by lia. cbn [andb negb]. rewrite obind_Some, msg_space_align by apply Hm. cbn [negb].
  pose proof (align_ge (16 + length (a_body m))). rewrite wraps_small; [done|lia|change (32 - 1) with 31; lia].
Qed.

Lemma walk_packed ms d : packed ms d → Forall amsg_ok ms → ∀ fuel a k r,
  0 ≤ k → Z.of_nat (length d) + k < 2 ^ 31 →
  walk (length ms + fuel) (length a) (Z.of_nat (length d) + k) (a ++ d ++ r) =
  (os ← walk fuel (length a + length d) k (a ++ d ++ r); Some (offsets (length a) ms ++ os)).
Proof.
  revert d. induction ms as [|m ms IH]; intros d; cbn [packed].
  - intros -> _ fuel a k r Hk _. cbn [length app offsets Nat.add]. rewrite Nat.add_0_r, Z.add_0_l. by destruct (walk _ _ _ _).
  - intros (p & d' & -> & Hp & Hd) Hok. inversion_clear Hok as [|? ? Hm Hms]. intros fuel a k r Hk Hlt. unfold padding in Hp.
    pose proof (align_ge (length (amsg_bytes m))) as Hal. rewrite !length_app in Hlt |- *. rewrite length_amsg_bytes in *. cbn [offsets].
    change (length (m :: ms) + fuel)%nat with (S (length ms + fuel)). rewrite <- !app_assoc. rewrite walk_msg by (done || lia).
    set (n := NLMSG_ALIGN (16 + length (a_body m))). fold n in Hp, Hal.
    replace (length a + (16 + length (a_body m) + (length p + length d')))%nat with (length a + n + length d')%nat by lia.
    assert (a ++ amsg_bytes m ++ p ++ d' ++ r = (a ++ amsg_bytes m ++ p) ++ d' ++ r) as -> by (by rewrite <- !app_assoc).
    assert (length (a ++ amsg_bytes m ++ p) = length a + n)%nat as Ea by (rewrite !length_app, length_amsg_bytes; lia).
    rewrite <- Ea. replace (Z.of_nat _ + k - Z.of_nat n) with (Z.of_nat (length d') + k) by lia.
    rewrite IH by (done || lia). by destruct (walk fuel _ k _).
Qed.

Lemma walk_end fuel o left buf : left ≤ 0 → walk (S fuel) o left buf = Some [].
Proof. intros H. cbn [walk]. by rewrite (proj2 (Z.leb_le _ _)). Qed.

Lemma packed_len ms d : packed ms d → (length ms ≤ length d)%nat.
Proof.
  revert d. induction ms as [|m ms IH]; intros d; cbn [packed]; [by intros ->|].
  intros (p & d' & -> & _ & Hd). specialize (IH _ Hd). rewrite !length_app, length_amsg_bytes. cbn. lia.
Qed.

Lemma offsets_app o ms ms' d : packed ms d → offsets o (ms ++ ms') = offsets o ms ++ offsets (o + length d) ms'.
Proof.
  revert o d. induction ms as [|m ms IH]; intros o d; cbn [packed app offsets]; [intros ->; by rewrite Nat.add_0_r|].
  intros (p & d' & -> & Hp & Hd). unfold padding in Hp. rewrite length_amsg_bytes in Hp. pose proof (align_ge (16 + length (a_body m))).
  rewrite (IH _ d' Hd). do 3 f_equal. rewrite !length_app, length_amsg_bytes. lia.
Qed.

(** What is sent: all messages but the last are followed by padding. *)
Definition stream (ms : list amsg) (b : list Z) : Prop := packed ms b ∨ ∃ ms' m d, ms = ms' ++ [m] ∧ packed ms' d ∧ b = d ++ amsg_bytes m.

Lemma walk_stream ms b r fuel :
  stream ms b → Forall amsg_ok ms → Z.of_nat (length b) < 2 ^ 31 → (length b < fuel)%nat →
  walk fuel 0 (Z.of_nat (length b)) (b ++ r) = Some (offsets 0 ms).
Proof.
  intros [Hp|(ms' & m & d & -> & Hp & ->)] Hok Hlt Hfuel.
  - pose proof (packed_len _ _ Hp). replace fuel with (length ms + S (fuel - length ms - 1))%nat by lia.
    rewrite <- (Z.add_0_r (Z.of_nat (length b))). rewrite (walk_packed ms b Hp Hok _ [] 0 r) by lia.
    rewrite walk_end, obind_Some by lia. by rewrite app_nil_r.
  - apply Forall_app in Hok as [Hok Hm]. rewrite Forall_singleton in Hm. pose proof (packed_len _ _ Hp). pose proof (align_ge (16 + length (a_body m))).
    rewrite length_app, length_amsg_bytes in *. replace fuel with (length ms' + S (S (fuel - length ms' - 2)))%nat by lia.
    rewrite Nat2Z.inj_add, <- app_assoc. 
    pose proof (walk_packed ms' d Hp Hok (S (S (fuel - length ms' - 2))) [] (Z.of_nat (16 + length (a_body m))) (amsg_bytes m ++ r)) as E.
    cbn [app length] in E. rewrite E by lia. clear E. rewrite Nat.add_0_l. rewrite walk_msg by (done || lia). rewrite walk_end by lia. rewrite !obind_Some. by rewrite (offsets_app 0 ms' [m] d Hp).
Qed.

(** The message that is found at [o]. *)
Definition found_msg (o : nat) (m : amsg) : message :=
  mk_msg (amsg_hdr m) (if a_type m =? NLMSG_ERROR then Some (o + 16)%nat else None) (o + 16) (Z.of_nat (length (a_body m))).

Fixpoint found_msgs (o : nat) (ms : list amsg) : list message :=
  match ms with
  | [] => []
  | m :: ms => found_msg o m :: found_msgs (o + NLMSG_ALIGN (16 + length (a_body m))) ms
  end.

(** [buf] has the messages [ms] from the offset [o] on. *)
Fixpoint msgs_in (buf : list Z) (o : nat) (ms : list amsg) : Prop :=
  match ms with
  | [] => True
  | m :: ms => (∃ a r, buf = a ++ amsg_bytes m ++ r ∧ length a = o) ∧ msgs_in buf (o + NLMSG_ALIGN (16 + length (a_body m))) ms
  end.

Lemma packed_in ms d : packed ms d → ∀ a r, msgs_in (a ++ d ++ r) (length a) ms.
Proof.
  revert d. induction ms as [|m ms IH]; intros d; cbn [packed msgs_in]; [done|].
  intros (p & d' & -> & Hp & Hd) a r. unfold padding in Hp. rewrite length_amsg_bytes in Hp. pose proof (align_ge (16 + length (a_body m))).
  split; [exists a, (p ++ d' ++ r); split; [by rewrite <- !app_assoc|done]|].
  specialize (IH d' Hd (a ++ amsg_bytes m ++ p) r). rewrite !length_app, length_amsg_bytes in IH.
  replace (length a + NLMSG_ALIGN _)%nat with (length a + (16 + length (a_body m) + length p))%nat by lia. by rewrite <- !app_assoc in *.
Qed.

Lemma msgs_in_app buf o ms ms' d : packed ms d → msgs_in buf o ms → msgs_in buf (o + length d) ms' → msgs_in buf o (ms ++ ms').
Proof.
  revert o d. induction ms as [|m ms IH]; intros o d; cbn [packed msgs_in app]; [intros -> _; by rewrite Nat.add_0_r|].
  intros (p & d' & -> & Hp & Hd) [H1 H2] H3. unfold padding in Hp. rewrite length_amsg_bytes in Hp. pose proof (align_ge (16 + length (a_body m))).
  split; [done|]. apply (IH _ d' Hd H2). rewrite !length_app, length_amsg_bytes in H3.
  by replace (o + NLMSG_ALIGN _ + _)%nat with (o + (16 + length (a_body m) + (length p + length d')))%nat by lia.
Qed.

Lemma stream_in ms b r : stream ms b → msgs_in (b ++ r) 0 ms.
Proof.
  intros [Hp|(ms' & m & d & -> & Hp & ->)]; [exact (packed_in ms b Hp [] r)|].
  rewrite <- app_assoc. apply (msgs_in_app _ _ _ _ d Hp); [exact (packed_in ms' d Hp [] _)|]. split; [|done]. by exists d, r.
Qed.
