(* ===== verification/NetlinkSend.v ===== *)
(** * Netlink messages are received as they were built

    Any program of calls that builds messages, the stream of bytes that is
    sent, what a receiver finds in it, and the check of the
    acknowledgements. *)

From S2P Require Import Prelude Bytes Netlink NetlinkFacts.
Open Scope Z_scope.

(** ** Programs *)

(** A call that adds attributes to the last message. *)
Inductive attr_op :=
  | NlAttr (type : Z) (data : list Z)
  | NlString (type : Z) (s : list Z)
  | NlList (l : attr_list)
  | RtAttr (type : Z) (data : list Z)
  | RtString (type : Z) (s : list Z)
  | RtList (l : attr_list).

Record msg_spec := mk_spec { sp_type : Z; sp_flags : Z; sp_payload : list Z; sp_ops : list attr_op }.

Definition run_op (heap : nat → option bool) (op : attr_op) (c : context) : cres context :=
  match op with
  | NlAttr type data => tst_netlink_add_attr heap type data c
  | NlString type s => tst_netlink_add_attr_string heap type s c
  | NlList l => '(_, c) ← tst_netlink_add_attr_list heap l c; CRet c
  | RtAttr type data => tst_rtnl_add_attr heap type data c
  | RtString type s => tst_rtnl_add_attr_string heap type s c
  | RtList l => '(_, c) ← tst_rtnl_add_attr_list heap l c; CRet c
  end.

Fixpoint run_ops (heap : nat → option bool) (ops : list attr_op) (c : context) : cres context :=
  match ops with
  | [] => CRet c
  | op :: ops => c ← run_op heap op c; run_ops heap ops c
  end.

Fixpoint build (heap : nat → option bool) (ps : list msg_spec) (c : context) : cres context :=
  match ps with
  | [] => CRet c
  | p :: ps =>
      c ← tst_netlink_add_message heap (sp_type p) (sp_flags p) (sp_payload p) c;
      c ← run_ops heap (sp_ops p) c;
      build heap ps c
  end.

(** ** What is built *)

(** The attributes of a call; both families of functions add the same. *)
Definition op_attrs (op : attr_op) : attr_list :=
  match op with
  | NlAttr type data | RtAttr type data => ACons type data ANil
  | NlString type s | RtString type s => ACons type (s ++ [0]) ANil
  | NlList l | RtList l => l
  end.

Fixpoint ops_at (ops : list attr_op) (b b' : list Z) : Prop :=
  match ops with
  | [] => b' = b
  | op :: ops => ∃ x, attrs_at (op_attrs op) b x ∧ ops_at ops x b'
  end.

Definition ops_size (ops : list attr_op) : nat := foldr (λ op n, attrs_size (op_attrs op) + n)%nat 0%nat ops.

Definition spec_size (p : msg_spec) : nat := (16 + NLMSG_ALIGN (length (sp_payload p)) + ops_size (sp_ops p))%nat.

Definition spec_ok (p : msg_spec) : Prop :=
  u16 (sp_type p) ∧ u16 (sp_flags p) ∧ Forall (λ op, attrs_ok (op_attrs op)) (sp_ops p).

Definition total_size (ps : list msg_spec) : nat := foldr (λ p n, spec_size p + n)%nat 0%nat ps.

(** [m] is the message of [p] with the sequence number [s], in a group of
    several messages or alone. *)
Definition is_msg (extra s pid : Z) (p : msg_spec) (m : amsg) : Prop :=
  a_type m = sp_type p ∧ a_flags m = Z.lor (sp_flags p) extra ∧ a_seq m = wrapu 32 s ∧ a_pid m = pid ∧
  ops_at (sp_ops p) (sp_payload p) (a_body m).

Fixpoint are_msgs (extra s pid : Z) (ps : list msg_spec) (ms : list amsg) : Prop :=
  match ps, ms with
  | [], [] => True
  | p :: ps, m :: ms => is_msg extra s pid p m ∧ are_msgs extra (s + 1) pid ps ms
  | _, _ => False
  end.

Definition extra_of (ps : list msg_spec) : Z := if (1 <? length ps)%nat then NLM_F_MULTI else 0.

(** The message that ends a group. *)
Definition done_msg (s pid : Z) : amsg := mk_amsg NLMSG_DONE 0 s pid [].

Definition ends_group (ps : list msg_spec) : bool :=
  (1 <? length ps)%nat || existsb (λ p, negb (Z.land (sp_flags p) NLM_F_MULTI =? 0)) ps.

(** The messages of a program that starts with the sequence number [s]. *)
Definition program_msgs (s pid : Z) (ps : list msg_spec) (ms : list amsg) : Prop :=
  ∃ ms', are_msgs (extra_of ps) s pid ps ms' ∧
    ms = ms' ++ (if ends_group ps then [done_msg (wrapu 32 (s + Z.of_nat (length ps))) pid] else []).

(** What a receiver sees. *)
Definition view (r : response) : list amsg :=
  map (λ m, let h := header m in
    mk_amsg (nlmsg_type h) (nlmsg_flags h) (nlmsg_seq h) (nlmsg_pid h) (take (Z.to_nat (payload_size m)) (drop (payload m) (resp_buf r))))
    (resp_msgs r).

(** ** Building *)

Lemma ops_at_length ops b b' : ops_at ops b b' → (NLMSG_ALIGN (length b') ≤ NLMSG_ALIGN (length b) + ops_size ops)%nat.
Proof.
  revert b. induction ops as [|op ops IH]; intros b; cbn [ops_at ops_size foldr]; [intros ->; lia|].
  intros (x & Hx & H). specialize (IH _ H). pose proof (attrs_at_length _ _ _ Hx). unfold ops_size in IH. lia.
Qed.

Lemma wrapu_succ z : wrapu 32 (wrapu 32 z + 1) = wrapu 32 (z + 1).
Proof. unfold wrapu. by rewrite Zplus_mod_idemp_l. Qed.

Section Heap.
Context (heap : nat → option bool) (Hheap : ∀ n, heap n ≠ None).

Lemma string_data_short s : Z.of_nat (length s) + 1 < 2 ^ 16 → string_data s = s ++ [0].
Proof. intros H. unfold string_data. rewrite wrapu_small by lia. rewrite take_ge; [done|]. rewrite length_app. cbn. lia. Qed.

Lemma run_op_rep op ms m c :
  rep ms m c → attrs_ok (op_attrs op) → Z.of_nat (16 + NLMSG_ALIGN (length (a_body m)) + attrs_size (op_attrs op)) < 2 ^ 32 - 3 →
  ∃ c' b, run_op heap op c = CRet c' ∧ attrs_at (op_attrs op) (a_body m) b ∧ rep ms (set_body b m) c' ∧ seq c' = seq c ∧ pid c' = pid c.
Proof.
  intros Hrep Hok Hsz.
  assert (Hone : ∀ add type data, adds_attr add → op_attrs op = ACons type data ANil →
    ∃ c' b, add type data c = CRet c' ∧ attrs_at (op_attrs op) (a_body m) b ∧ rep ms (set_body b m) c' ∧ seq c' = seq c ∧ pid c' = pid c).
  { intros add type data Hadd E. rewrite E in *. destruct Hok as [Hd _]. cbn [attrs_size] in Hsz. pose proof (align_ge (length data)).
    destruct (Hadd type data ms m c Hrep Hd) as (p & c' & Hp & ? & ? & ? & ?); [lia|]. eexists c', _. split_and!; try done. by exists p. }
  assert (Hlist : ∀ fname add, adds_attr add →
    ∃ c' b, ('(_, c) ← add_attr_list fname add 0 (op_attrs op) c; CRet c) = CRet c' ∧ attrs_at (op_attrs op) (a_body m) b ∧ rep ms (set_body b m) c' ∧ seq c' = seq c ∧ pid c' = pid c).
  { intros fname add Hadd. destruct (add_attr_list_rep fname add (op_attrs op) Hadd 0 ms m c Hrep Hok Hsz) as (c' & b & -> & ? & ? & ? & ?).
    exists c', b. by rewrite cbind_Ret. }
  destruct op as [type data|type s|l|type data|type s|l]; cbn [run_op op_attrs] in *.
  - apply Hone; [by apply netlink_adds_attr|done].
  - destruct Hok as [Hd _]. rewrite length_app in Hd. cbn [length] in Hd. unfold tst_netlink_add_attr_string. rewrite string_data_short by lia.
    apply Hone; [by apply netlink_adds_attr|done].
  - apply Hlist. by apply netlink_adds_attr.
  - apply Hone; [by apply rtnl_adds_attr|done].
  - destruct Hok as [Hd _]. rewrite length_app in Hd. cbn [length] in Hd. unfold tst_rtnl_add_attr_string. rewrite string_data_short by lia.
    apply Hone; [by apply rtnl_adds_attr|done].
  - apply Hlist. by apply rtnl_adds_attr.
Qed.

Lemma run_ops_rep ops ms m c :
  rep ms m c → Forall (λ op, attrs_ok (op_attrs op)) ops → Z.of_nat (16 + NLMSG_ALIGN (length (a_body m)) + ops_size ops) < 2 ^ 32 - 3 →
  ∃ c' b, run_ops heap ops c = CRet c' ∧ ops_at ops (a_body m) b ∧ rep ms (set_body b m) c' ∧ seq c' = seq c ∧ pid c' = pid c.
Proof.
  intros Hrep Hok. revert m c Hrep. induction Hok as [|op ops Hop Hok IH]; intros m c Hrep Hsz; cbn [run_ops ops_at ops_size foldr] in *.
  - exists c, (a_body m). by destruct m.
  - destruct (run_op_rep op ms m c Hrep Hop) as (c1 & x & -> & Hx & Hrep1 & Es1 & Ep1); [lia|]. rewrite cbind_Ret.
    pose proof (attrs_at_length _ _ _ Hx) as Hl.
    destruct (IH _ c1 Hrep1) as (c' & b & -> & Hb & Hrep' & Es & Ep); [cbn [a_body set_body]; unfold ops_size; lia|].
    exists c', b. split_and!; [done|by exists x|done|congruence|congruence].
Qed.

(** The context after the messages [ps], of which there is at least one. *)
Definition built (s p : Z) (ps : list msg_spec) (c : context) : Prop :=
  ∃ ms m, rep ms m c ∧ Forall amsg_ok ms ∧ are_msgs (extra_of ps) s p ps (ms ++ [m]) ∧ seq c = wrapu 32 (s + Z.of_nat (length ps)) ∧ pid c = p.

Lemma are_msgs_length extra s p ps ms : are_msgs extra s p ps ms → length ms = length ps.
Proof.
  revert s ms. induction ps as [|x ps IH]; intros s [|m ms]; cbn [are_msgs]; try done. intros [_ H]. cbn. f_equal. by eapply IH.
Qed.

Lemma are_msgs_snoc extra s p ps ms x m :
  are_msgs extra s p ps ms → is_msg extra (s + Z.of_nat (length ps)) p x m → are_msgs extra s p (ps ++ [x]) (ms ++ [m]).
Proof.
  revert s ms. induction ps as [|y ps IH]; intros s [|m' ms]; cbn [are_msgs app]; try done.
  - cbn [length]. rewrite Z.add_0_r. done.
  - intros [H1 H2] H3. split; [done|]. apply IH; [done|]. cbn [length] in H3. by replace (s + 1 + _) with (s + Z.of_nat (S (length ps))) by lia.
Qed.

Lemma lor_multi f x : x = 0 ∨ x = NLM_F_MULTI → Z.lor (Z.lor f x) NLM_F_MULTI = Z.lor f NLM_F_MULTI.
Proof. intros [-> | ->]; rewrite <- Z.lor_assoc; done. Qed.

Lemma are_msgs_multi extra s p ps ms :
  extra = 0 ∨ extra = NLM_F_MULTI → are_msgs extra s p ps ms → are_msgs NLM_F_MULTI s p ps (map with_multi ms).
Proof.
  intros Hx. revert s ms. induction ps as [|y ps IH]; intros s [|m ms]; cbn [are_msgs map]; try done.
  intros [(Ht & Hf & Hs & Hp & Hb) H2]. split; [|by apply IH]. split_and!; try done. cbn. rewrite Hf. by apply lor_multi.
Qed.

Lemma are_msgs_multi_id s p ps ms : are_msgs NLM_F_MULTI s p ps ms → map with_multi ms = ms.
Proof.
  revert s ms. induction ps as [|y ps IH]; intros s [|m ms]; cbn [are_msgs map]; try done.
  intros [(_ & Hf & _) H2]. f_equal; [|by eapply IH]. destruct m. unfold with_multi. cbn in *. f_equal. rewrite Hf. by apply lor_multi; right.
Qed.

Lemma extra_cases ps : extra_of ps = 0 ∨ extra_of ps = NLM_F_MULTI.
Proof. unfold extra_of. destruct (1 <? length ps)%nat; auto. Qed.

(** Only the last message may be without the flag. *)
Lemma are_msgs_front s p ps ms m : are_msgs (extra_of ps) s p ps (ms ++ [m]) → map with_multi ms = ms.
Proof.
  intros H. pose proof (are_msgs_length _ _ _ _ _ H) as Hl. rewrite length_app in Hl. cbn [length] in Hl.
  unfold extra_of in H. destruct (Nat.ltb_spec 1 (length ps)) as [L|L].
  - apply are_msgs_multi_id in H. rewrite map_app in H. by apply app_inj_2 in H as [H _].
  - destruct ms; [done|cbn in Hl; lia].
Qed.

Lemma build_first s x c :
  idle c → spec_ok x → Z.of_nat (spec_size x) < 2 ^ 32 - 3 → seq c = wrapu 32 s →
  heap (reallocs c) = Some false ∨ (NLMSG_ALIGN (datalen c) + NLMSG_SPACE (length (sp_payload x)) ≤ bufsize c)%nat →
  ∃ c1 c2, tst_netlink_add_message heap (sp_type x) (sp_flags x) (sp_payload x) c = CRet c1 ∧ run_ops heap (sp_ops x) c1 = CRet c2 ∧
    built s (pid c) [x] c2.
Proof.
  intros Hidle (Ht & Hf & Hops) Hsz Hs Hfit. unfold spec_size in Hsz. pose proof (align_ge (length (sp_payload x))).
  destruct (add_message_first heap Hheap (sp_type x) (sp_flags x) (sp_payload x) c Hidle Ht Hf) as (c1 & E1 & Hrep & Es & Ep); [lia|done|].
  destruct (run_ops_rep (sp_ops x) _ _ _ Hrep Hops) as (c2 & b & E2 & Hb & Hrep2 & Es2 & Ep2); [cbn [a_body new_msg]; lia|].
  exists c1, c2. split_and!; [done|done|]. eexists [], _. split_and!; [exact Hrep2|done| |rewrite Es2, Es, Hs; apply wrapu_succ|congruence].
  cbn [app are_msgs]. split; [|done]. split_and!; [done|cbn; by rewrite Z.lor_0_r|done|done|done].
Qed.

Lemma build_next s p ps x c :
  built s p ps c → spec_ok x → Z.of_nat (spec_size x) < 2 ^ 32 - 3 → (0 < length ps)%nat →
  ∃ c1 c2, tst_netlink_add_message heap (sp_type x) (sp_flags x) (sp_payload x) c = CRet c1 ∧ run_ops heap (sp_ops x) c1 = CRet c2 ∧
    built s p (ps ++ [x]) c2.
Proof.
  intros (ms & m & Hrep & Hok & Hms & Eseq & Epid) (Ht & Hf & Hops) Hsz Hps. unfold spec_size in Hsz. pose proof (align_ge (length (sp_payload x))).
  destruct (add_message_next heap Hheap ms m (sp_type x) (sp_flags x) (sp_payload x) c Hrep Ht Hf) as (c1 & E1 & Hrep1 & Es & Ep); [lia|].
  destruct (run_ops_rep (sp_ops x) _ _ _ Hrep1 Hops) as (c2 & b & E2 & Hb & Hrep2 & Es2 & Ep2); [cbn [a_body new_msg with_multi]; lia|].
  exists c1, c2. split_and!; [done|done|]. eexists _, _. split_and!; [exact Hrep2| | | |congruence].
  - apply Forall_app. split; [done|]. apply Forall_singleton, with_multi_ok. by destruct Hrep as (? & ? & _ & _ & _ & _ & _ & _ & ? & _).
  - assert (extra_of (ps ++ [x]) = NLM_F_MULTI) as ->.
    { unfold extra_of. rewrite length_app. cbn [length]. by rewrite (proj2 (Nat.ltb_lt _ _)) by lia. }
    apply are_msgs_snoc.
    + rewrite <- (are_msgs_front _ _ _ _ _ Hms) at 1. change [with_multi m] with (map with_multi [m]). rewrite <- map_app.
      by eapply are_msgs_multi, Hms; apply extra_cases.
    + by split_and!.
  - rewrite Es2, Es, Eseq, wrapu_succ, length_app. cbn [length]. f_equal. lia.
Qed.

Lemma build_rest s p ps ps' c :
  built s p ps c → Forall spec_ok ps' → Forall (λ x, Z.of_nat (spec_size x) < 2 ^ 32 - 3) ps' → (0 < length ps)%nat →
  ∃ c', build heap ps' c = CRet c' ∧ built s p (ps ++ ps') c'.
Proof.
  intros Hb Hok. revert ps c Hb. induction Hok as [|x ps' Hx Hok IH]; intros ps c Hb Hsz Hps; cbn [build].
  - exists c. by rewrite app_nil_r.
  - inversion_clear Hsz as [|? ? Hsx Hsz']. destruct (build_next s p ps x c Hb Hx Hsx Hps) as (c1 & c2 & -> & E2 & Hb').
    rewrite cbind_Ret, E2, cbind_Ret. destruct (IH (ps ++ [x]) c2 Hb' Hsz') as (c' & -> & Hc'); [rewrite length_app; lia|].
    exists c'. by rewrite <- app_assoc in Hc'.
Qed.
End Heap.

(** ** Receiving *)

Lemma found_ok buf o ms : msgs_in buf o ms → Forall amsg_ok ms → mapM (message_at buf) (offsets o ms) = Some (found_msgs o ms).
Proof.
  intros Hin Hok. revert o Hin. induction Hok as [|m ms Hm Hok IH]; intros o; cbn [msgs_in offsets found_msgs mapM]; [done|].
  intros [(a & r & Eb & Ha) Hin].
  assert (message_at buf o = Some (found_msg o m)) as ->; [|by rewrite obind_Some, (IH _ Hin), obind_Some].
  unfold message_at. assert (hdr_at o buf = Some (amsg_hdr m)) as ->.
  { rewrite Eb. unfold amsg_bytes. rewrite <- app_assoc. apply hdr_at_bytes; [done|]. apply Hm. }
  rewrite obind_Some. unfold found_msg, amsg_hdr, NLMSG_HDRLEN. cbn [nlmsg_len]. do 2 f_equal. lia.
Qed.

Lemma view_found buf ms o : msgs_in buf o ms → view (mk_resp buf (found_msgs o ms)) = ms.
Proof.
  unfold view. cbn [resp_buf resp_msgs]. revert o. induction ms as [|m ms IH]; intros o; cbn [msgs_in found_msgs map]; [done|].
  intros [(a & r & Eb & Ha) Hin]. f_equal; [|by apply IH]. cbn [header found_msg payload payload_size]. rewrite Nat2Z.id.
  assert (take (length (a_body m)) (drop (o + 16) buf) = a_body m) as ->; [|by destruct m].
  rewrite Eb. unfold amsg_bytes. rewrite <- app_assoc, app_assoc, drop_app_length' by (rewrite length_app, length_hdr_bytes; lia). by rewrite take_app_length'.
Qed.

Lemma recv_dgrams ds buf : recv_loop (map Dgram ds) buf = CRet (buf ++ concat ds).
Proof.
  revert buf. induction ds as [|d ds IH]; intros buf; cbn [map recv_loop concat]; [by rewrite app_nil_r|]. by rewrite IH, <- app_assoc.
Qed.

Lemma recv_stream ms b ds :
  stream ms b → Forall amsg_ok ms → Z.of_nat (length b) < 2 ^ 31 → b ≠ [] → concat ds = b →
  tst_netlink_recv (map Dgram ds) = CRet (Some (mk_resp b (found_msgs 0 ms))).
Proof.
  intros Hs Hok Hlt Hne Hds. unfold tst_netlink_recv. rewrite recv_dgrams, Hds, cbind_Ret. cbn [app].
  destruct (Nat.eqb_spec (length b) 0) as [E|_]; [by apply nil_length_inv in E|].
  rewrite wraps_small by (change (32 - 1) with 31; lia).
  pose proof (walk_stream ms b [] (S (length b)) Hs Hok Hlt) as E. rewrite app_nil_r in E. rewrite E by lia. cbn [defined]. rewrite cbind_Ret.
  pose proof (stream_in ms b [] Hs) as Hin. rewrite app_nil_r in Hin. rewrite (found_ok b 0 ms Hin Hok). cbn [defined]. by rewrite cbind_Ret.
Qed.

(** ** Sending *)

Lemma lor_set f : Z.land f NLM_F_MULTI ≠ 0 → Z.lor f NLM_F_MULTI = f.
Proof.
  intros H. assert (Ht : Z.testbit f 1 = true).
  { destruct (Z.testbit f 1) eqn:E; [done|]. destruct H. apply Z.bits_inj'. intros n Hn. rewrite Z.land_spec, Z.bits_0.
    change NLM_F_MULTI with (2 ^ 1). rewrite Z.pow2_bits_eqb by lia. destruct (Z.eqb_spec 1 n) as [<-|]; [by rewrite E|by rewrite andb_false_r]. }
  apply Z.bits_inj'. intros n Hn. rewrite Z.lor_spec. change NLM_F_MULTI with (2 ^ 1). rewrite Z.pow2_bits_eqb by lia.
  destruct (Z.eqb_spec 1 n) as [<-|]; [by rewrite Ht|by rewrite orb_false_r].
Qed.

(** The context keeps what was sent, for the check of the acknowledgements. *)
Definition holds (ms : list amsg) (c : context) : Prop :=
  ∃ b r, stream ms b ∧ Forall amsg_ok ms ∧ b ≠ [] ∧ buffer c = b ++ r ∧ datalen c = length b.

Lemma rep_holds ms m c : rep ms m c → Forall amsg_ok ms → holds (ms ++ [m]) c ∧ (datalen c ≤ bufsize c)%nat.
Proof.
  intros (d & r & Hd & Eb & Ec & El & Es & Ha & Hm & Hs & Hp) Hok. split; [|rewrite Es, Eb, El, !length_app; lia].
  exists (d ++ amsg_bytes m), r. split_and!.
  - right. by exists ms, m, d.
  - apply Forall_app. split; [done|]. by apply Forall_singleton.
  - intros [_ E]%app_eq_nil. by apply (f_equal length) in E; rewrite length_amsg_bytes in E.
  - by rewrite Eb, <- app_assoc.
  - by rewrite length_app.
Qed.

Section Heap.
Context (heap : nat → option bool) (Hheap : ∀ n, heap n ≠ None).

Definition sent_msgs (ms : list amsg) (m : amsg) (c : context) : list amsg :=
  ms ++ m :: (if Z.land (a_flags m) NLM_F_MULTI =? 0 then [] else [done_msg (seq c) (pid c)]).

(** The message that ends a group, without its flag. *)
Lemma end_group ms m c :
  rep ms m c → Forall amsg_ok ms → Z.land (a_flags m) NLM_F_MULTI ≠ 0 →
  ∃ c1 b o, tst_netlink_add_message heap NLMSG_DONE 0 [] c = CRet c1 ∧ at_cur c1 = CRet o ∧
    poke (o + 6) (lebytes 2 0) (buffer c1) = Some b ∧ rep (ms ++ [m]) (done_msg (seq c) (pid c)) (set_buffer b c1) ∧ pid c1 = pid c.
Proof.
  intros Hrep Hok Hf. destruct (add_message_next heap Hheap ms m NLMSG_DONE 0 [] c Hrep) as (c1 & E & Hrep1 & Es & Ep); [done|done|done|].
  assert (with_multi m = m) as Em by (destruct m; unfold with_multi; cbn in *; f_equal; by apply lor_set). rewrite Em in Hrep1.
  pose proof Hrep1 as (d & r & Hd & Eb & Ec & El & Esz & Ha & Hm & Hs & Hp).
  exists c1, (d ++ amsg_bytes (done_msg (seq c) (pid c)) ++ r), (length d). split_and!; [done|by unfold at_cur; rewrite Ec| | |done].
  - rewrite Eb. unfold amsg_bytes. cbn [a_body done_msg with_multi new_msg]. rewrite !app_nil_r. rewrite poke_flags by done. done.
  - exists d, r. cbn [set_buffer buffer curmsg datalen bufsize seq pid]. split_and!; [done|done|done|by rewrite El| |done| |done|done].
    + rewrite Esz, Eb, !length_app, !length_amsg_bytes. done.
    + destruct Hm as ((_ & _ & _ & ? & ?) & _). apply amsg_ok_intro; done.
Qed.

(** The messages that are given to [sendmsg]. *)
Lemma send_msgs ms m c :
  rep ms m c → Forall amsg_ok ms →
  ∃ c1, (∀ sent, tst_netlink_send heap sent c = if sent =? Z.of_nat (datalen c1)
      then CRet (take (datalen c1) (buffer c1), mk_ctx (pid c1) (seq c1) (bufsize c1) (datalen c1) (buffer c1) PNull (reallocs c1))
      else CBrk TBROK (str "sendmsg")) ∧
    holds (sent_msgs ms m c) c1 ∧ (datalen c1 ≤ bufsize c1)%nat ∧ bufsize c1 = length (buffer c1) ∧ aligned (bufsize c1) ∧
    u32 (seq c1) ∧ u32 (pid c1) ∧ pid c1 = pid c.
Proof.
  intros Hrep Hok. pose proof Hrep as (d & r & Hd & Eb & Ec & El & Esz & Ha & Hm & Hs & Hp).
  assert (at_cur c = CRet (length d)) as Eat by (unfold at_cur; by rewrite Ec).
  assert (hdr_at (length d) (buffer c) = Some (amsg_hdr m)) as Eh.
  { rewrite Eb. unfold amsg_bytes. rewrite <- app_assoc. apply hdr_at_bytes; [done|apply Hm]. }
  unfold sent_msgs. destruct (Z.eqb_spec (Z.land (a_flags m) NLM_F_MULTI) 0) as [E|E].
  - exists c. split.
    + intros sent. unfold tst_netlink_send. rewrite Ec, Eat, cbind_Ret, Eh. cbn [defined]. rewrite cbind_Ret. cbn [amsg_hdr nlmsg_flags]. by rewrite E.
    + destruct (rep_holds ms m c Hrep Hok). by split_and!.
  - destruct (end_group ms m c Hrep Hok E) as (c1 & b & o & E0 & E1 & E2 & Hrep1 & Ep1). exists (set_buffer b c1). split.
    + intros sent. unfold tst_netlink_send. rewrite Ec, Eat, cbind_Ret, Eh. cbn [defined]. rewrite cbind_Ret. cbn [amsg_hdr nlmsg_flags].
      rewrite (proj2 (Z.eqb_neq _ _) E), E0, cbind_Ret, E1, cbind_Ret, E2. cbn [defined]. by rewrite !cbind_Ret.
    + destruct (rep_holds _ _ _ Hrep1) as [Hh Hle]; [apply Forall_app; split; [done|by apply Forall_singleton]|].
      rewrite <- app_assoc in Hh. destruct Hrep1 as (d1 & r1 & _ & _ & _ & _ & ? & ? & _ & ? & ?). by split_and!.
Qed.

Lemma send_rep ms m c :
  rep ms m c → Forall amsg_ok ms →
  ∃ b c', tst_netlink_send heap (Z.of_nat (length b)) c = CRet (b, c') ∧ holds (sent_msgs ms m c) c' ∧
    stream (sent_msgs ms m c) b ∧ Forall amsg_ok (sent_msgs ms m c) ∧ b ≠ [] ∧ datalen c' = length b ∧ idle c' ∧ pid c' = pid c.
Proof.
  intros Hrep Hok. destruct (send_msgs ms m c Hrep Hok) as (c1 & E & Hh & Hd1 & Hz1 & Ha1 & Hs1 & Hp1 & Ep1).
  pose proof Hh as (b & r1 & Hst & Hms & Hne & Eb1 & El1). exists b. eexists. rewrite E, El1, Z.eqb_refl, Eb1, take_app_length.
  split; [done|]. split; [|split; [done|]]; [by exists b, r1|]. split_and!; try done. unfold idle. cbn [curmsg datalen buffer bufsize seq pid]. rewrite <- Eb1, <- El1. by split_and!.
Qed.
End Heap.

(** ** Sizes *)

Definition msgs_size (ms : list amsg) : nat := foldr (λ m n, NLMSG_ALIGN (16 + length (a_body m)) + n)%nat 0%nat ms.

Lemma packed_size ms d : packed ms d → length d = msgs_size ms.
Proof.
  revert d. induction ms as [|m ms IH]; intros d; cbn [packed msgs_size foldr]; [by intros ->|].
  intros (p & d' & -> & Hp & Hd). unfold padding in Hp. rewrite length_amsg_bytes in Hp. pose proof (align_ge (16 + length (a_body m))).
  rewrite !length_app, length_amsg_bytes, (IH _ Hd). unfold msgs_size. lia.
Qed.

Lemma msgs_size_app ms ms' : msgs_size (ms ++ ms') = (msgs_size ms + msgs_size ms')%nat.
Proof. unfold msgs_size. induction ms as [|m ms IH]; cbn [app foldr]; [done|]. rewrite IH. lia. Qed.

Lemma stream_size ms b : stream ms b → (length b ≤ msgs_size ms)%nat.
Proof.
  intros [Hp|(ms' & m & d & -> & Hp & ->)]; [by rewrite (packed_size _ _ Hp)|].
  rewrite msgs_size_app, length_app, length_amsg_bytes, (packed_size _ _ Hp). cbn [msgs_size foldr]. pose proof (align_ge (16 + length (a_body m))). lia.
Qed.

Lemma are_msgs_size extra s p ps ms : are_msgs extra s p ps ms → (msgs_size ms ≤ total_size ps)%nat.
Proof.
  revert s ms. induction ps as [|x ps IH]; intros s [|m ms]; cbn [are_msgs msgs_size total_size foldr]; try done.
  intros [(_ & _ & _ & _ & Hb) H]. specialize (IH _ _ H). pose proof (ops_at_length _ _ _ Hb) as Hl.
  rewrite (align_add 16) by done. assert (spec_size x = 16 + NLMSG_ALIGN (length (sp_payload x)) + ops_size (sp_ops x))%nat by done. unfold msgs_size, total_size in IH. lia.
Qed.

Lemma specs_size n ps : (total_size ps ≤ n)%nat → Forall (λ p, spec_size p ≤ n)%nat ps.
Proof.
  induction ps as [|p ps IH]; cbn [total_size foldr]; [constructor|]. intros H. constructor; [lia|]. apply IH. unfold total_size. lia.
Qed.

(** The last message decides whether the group is ended. *)
Lemma are_msgs_end s p ps ms m :
  are_msgs (extra_of ps) s p ps (ms ++ [m]) → ends_group ps = negb (Z.land (a_flags m) NLM_F_MULTI =? 0).
Proof.
  intros H. pose proof (are_msgs_length _ _ _ _ _ H) as Hl. rewrite length_app in Hl. cbn [length] in Hl. unfold ends_group, extra_of in *.
  destruct (Nat.ltb_spec 1 (length ps)) as [L|L]; cbn [orb].
  - apply are_msgs_multi_id in H. rewrite map_app in H. apply app_inj_2 in H as [_ [= H]]; [|done].
    rewrite <- H. cbn [with_multi a_flags]. destruct (Z.eqb_spec (Z.land (Z.lor (a_flags m) NLM_F_MULTI) NLM_F_MULTI) 0) as [E|E]; [|done].
    by rewrite Z.land_lor_distr_l, Z.land_diag, Z.lor_eq_0_iff in E; destruct E.
  - destruct ms; [|cbn in Hl; lia]. destruct ps as [|x [|]]; cbn in Hl; try lia. cbn [app are_msgs] in H.
    destruct H as [(_ & Hf & _) _]. rewrite Z.lor_0_r in Hf. cbn [existsb]. by rewrite Hf, orb_false_r.
Qed.

(** ** Programs are sent *)

Section Heap.
Context (heap : nat → option bool) (Hheap : ∀ n, heap n ≠ None).

(** A context in which the first message [x] can be added: a buffer that is
    moved before there is a message would spoil the pointer to it. *)
Definition starts (x : msg_spec) (c : context) : Prop :=
  idle c ∧ (heap (reallocs c) = Some false ∨ (NLMSG_ALIGN (datalen c) + NLMSG_SPACE (length (sp_payload x)) ≤ bufsize c)%nat).

Lemma program_sent x ps c :
  starts x c → Forall spec_ok (x :: ps) → Z.of_nat (16 + total_size (x :: ps)) < 2 ^ 31 →
  ∃ c1 b c2 ms, build heap (x :: ps) c = CRet c1 ∧ tst_netlink_send heap (Z.of_nat (length b)) c1 = CRet (b, c2) ∧ idle c2 ∧
    program_msgs (seq c) (pid c) (x :: ps) ms ∧ holds ms c2 ∧ stream ms b ∧ Forall amsg_ok ms ∧ b ≠ [] ∧ datalen c2 = length b ∧ Z.of_nat (length b) < 2 ^ 31.
Proof.
  intros [Hidle Hfit] Hok Hsz. pose proof (specs_size _ _ (Nat.le_refl (total_size (x :: ps)))) as Hall.
  assert (Forall (λ p, Z.of_nat (spec_size p) < 2 ^ 32 - 3) (x :: ps)) as Hsz'.
  { eapply Forall_impl; [exact Hall|]. cbn beta. intros. lia. }
  apply Forall_cons in Hok as [Hx Hok]. apply Forall_cons in Hsz' as [Hsx Hsz']. pose proof Hidle as (_ & _ & _ & _ & Hseq & _).
  destruct (build_first heap Hheap (seq c) x c Hidle Hx Hsx) as (c0 & c1 & E0 & E1 & Hb); [by rewrite wrapu_small|done|].
  destruct (build_rest heap Hheap (seq c) (pid c) [x] ps c1 Hb Hok Hsz') as (c2 & E2 & ms & m & Hrep & Hms & Hare & Es & Ep); [cbn; lia|].
  cbn [app] in *. destruct (send_rep heap Hheap ms m c2 Hrep Hms) as (b & c3 & E3 & Hh & Hst & Hall' & Hne & Hlen & Hidle' & _).
  exists c2, b, c3, (sent_msgs ms m c2). split_and!; try done.
  - cbn [build]. by rewrite E0, cbind_Ret, E1, cbind_Ret.
  - exists (ms ++ [m]). split; [done|]. unfold sent_msgs. rewrite (are_msgs_end _ _ _ _ _ Hare), Es, Ep, <- app_assoc. by destruct (_ =? 0).
  - pose proof (stream_size _ _ Hst) as Hl. pose proof (are_msgs_size _ _ _ _ _ Hare) as Hl'. unfold sent_msgs in Hl.
    change (m :: ?l) with ([m] ++ l) in Hl. rewrite app_assoc, msgs_size_app in Hl.
    destruct (Z.land (a_flags m) NLM_F_MULTI =? 0); cbn in Hl; lia.
Qed.

(** C10. Messages are built with [tst_netlink_add_message] and with the two
    families of functions that add attributes, strings and nested lists of
    attributes, in an idle context whose first message fits the free part of
    the buffer (or for which realloc leaves the buffer in place), where memory
    does not run out, every attribute with what is nested in it is shorter than
    2^16 bytes and everything together is shorter than 2^31 bytes.  Then the
    bytes that [tst_netlink_send] sends are found again by [tst_netlink_recv],
    however they are cut into datagrams: the same messages in the same order,
    with consecutive sequence numbers, every attribute after the payload at a
    multiple of 4 bytes and with the length of everything that is nested in
    it, and with the flag of a group and the message that ends it exactly when
    there are several.  The context can be used again. *)
Theorem netlink_roundtrip x ps c :
  starts x c → Forall spec_ok (x :: ps) → Z.of_nat (16 + total_size (x :: ps)) < 2 ^ 31 →
  ∃ c1 b c2, build heap (x :: ps) c = CRet c1 ∧ tst_netlink_send heap (Z.of_nat (length b)) c1 = CRet (b, c2) ∧ idle c2 ∧
    ∀ ds, concat ds = b → ∃ r, tst_netlink_recv (map Dgram ds) = CRet (Some r) ∧ program_msgs (seq c) (pid c) (x :: ps) (view r).
Proof.
  intros Hs Hok Hsz. destruct (program_sent x ps c Hs Hok Hsz) as (c1 & b & c2 & ms & E1 & E2 & Hi & Hp & _ & Hst & Hms & Hne & _ & Hl).
  exists c1, b, c2. split_and!; [done..|]. intros ds Hds. eexists. split; [by apply (recv_stream ms b ds)|].
  rewrite view_found; [done|]. pose proof (stream_in ms b [] Hst) as H. by rewrite app_nil_r in H.
Qed.
End Heap.
