(* ===== verification/NetlinkAcks.v ===== *)
(** * Acknowledgements

    [tst_netlink_check_acks] walks over the messages that were sent and the
    replies at the same time; it finds the acknowledgements exactly when they
    are among the replies in order, before the first error. *)

From S2P Require Import Prelude Bytes Netlink NetlinkFacts NetlinkSend.
Open Scope Z_scope.

(** ** Replies *)

(** The error of a reply; an error of 0 is an acknowledgement. *)
Definition error_of (m : amsg) : option Z :=
  if a_type m =? NLMSG_ERROR then
    let e := unle (take 4 (a_body m)) in if e =? 0 then None else Some (wraps 32 e)
  else None.

(** An error message has at least its number. *)
Definition reply_ok (m : amsg) : Prop := amsg_ok m ∧ (a_type m = NLMSG_ERROR → 4 ≤ length (a_body m))%nat.

Fixpoint before_error (rs : list amsg) : list Z :=
  match rs with
  | [] => []
  | r :: rs => match error_of r with Some _ => [] | None => a_seq r :: before_error rs end
  end.

Fixpoint first_error (rs : list amsg) : option Z :=
  match rs with
  | [] => None
  | r :: rs => match error_of r with Some e => Some e | None => first_error rs end
  end.

Definition wants_ack (flags : Z) : bool := negb (Z.land flags NLM_F_ACK =? 0).

(** The sequence numbers of the messages that ask for an acknowledgement. *)
Definition ack_seqs (ms : list amsg) : list Z := a_seq <$> filter (λ m, wants_ack (a_flags m)) ms.

Definition no_ack (s : Z) : cres (Z + unit) := CBrk TBROK (str "No ACK found for Netlink message " ++ dec s).

(** What the check may say of the numbers [seqs] and the replies [rs]. *)
Inductive ack_verdict (seqs : list Z) (rs : list amsg) : cres (Z + unit) → Prop :=
  | ack_all : seqs `sublist_of` before_error rs → ack_verdict seqs rs (CRet (inr ()))
  | ack_error e :
      ¬ seqs `sublist_of` before_error rs → first_error rs = Some e → ack_verdict seqs rs (CRet (inl (wraps 32 (- e))))
  | ack_missing l s l' :
      seqs = l ++ s :: l' → l `sublist_of` before_error rs → ¬ (l ++ [s]) `sublist_of` before_error rs → first_error rs = None →
      ack_verdict seqs rs (no_ack s).

(** ** The loop on lists of messages *)

Fixpoint find_msg (s : Z) (rs : list amsg) : list amsg :=
  match rs with
  | [] => []
  | r :: rs' => if negb (bool_decide (error_of r = None)) || (a_seq r =? s) then rs else find_msg s rs'
  end.

Fixpoint acks (seqs : list Z) (rs : list amsg) : cres (Z + unit) :=
  match seqs with
  | [] => CRet (inr ())
  | s :: seqs =>
      match find_msg s rs with
      | [] => no_ack s
      | r :: rs =>
          match error_of r with
          | Some e => CRet (inl (wraps 32 (- e)))
          | None => if a_seq r =? s then acks seqs (r :: rs) else no_ack s
          end
      end
  end.

Lemma msg_error_found buf o r : (∃ a x, buf = a ++ amsg_bytes r ++ x ∧ length a = o) → reply_ok r → msg_error buf (found_msg o r) = Some (error_of r).
Proof.
  intros (a & x & -> & Ha) [_ Hlen]. unfold msg_error, found_msg, error_of. cbn [err]. destruct (Z.eqb_spec (a_type r) NLMSG_ERROR) as [E|E]; [|done].
  specialize (Hlen E). destruct (split_length 4 (a_body r)) as (e & y & Eb & He); [lia|]. unfold amsg_bytes. rewrite Eb.
  assert (a ++ (hdr_bytes (amsg_hdr r) ++ e ++ y) ++ x = (a ++ hdr_bytes (amsg_hdr r)) ++ e ++ y ++ x) as -> by (by rewrite <- !app_assoc).
  rewrite peek_at, obind_Some, take_app_length' by (rewrite ?length_app, ?length_hdr_bytes; lia). done.
Qed.

Lemma find_reply_found buf s rs o :
  msgs_in buf o rs → Forall reply_ok rs →
  ∃ o', find_reply buf s (found_msgs o rs) = Some (found_msgs o' (find_msg s rs)) ∧ msgs_in buf o' (find_msg s rs).
Proof.
  intros Hin Hok. revert o Hin. induction Hok as [|r rs Hr Hok IH]; intros o Hin; cbn [found_msgs find_reply find_msg]; [by exists o|].
  pose proof Hin as [Hr' Hin']. rewrite (msg_error_found buf o r Hr' Hr), obind_Some. cbn [header found_msg amsg_hdr nlmsg_seq].
  destruct (negb (bool_decide (error_of r = None)) || (a_seq r =? s)); [by exists o|]. by apply IH.
Qed.

Lemma find_msg_suffix s rs : ∃ pre, rs = pre ++ find_msg s rs.
Proof.
  induction rs as [|r rs [pre IH]]; cbn [find_msg]; [by exists []|]. destruct (_ || _); [by exists []|]. exists (r :: pre). cbn. by f_equal.
Qed.

Lemma ack_seqs_cons m ms : ack_seqs (m :: ms) = if wants_ack (a_flags m) then a_seq m :: ack_seqs ms else ack_seqs ms.
Proof. unfold ack_seqs. rewrite filter_cons. by destruct (wants_ack (a_flags m)). Qed.

Lemma ack_loop_acks cbuf buf ms o rs o' :
  msgs_in cbuf o ms → Forall amsg_ok ms → msgs_in buf o' rs → Forall reply_ok rs →
  ack_loop cbuf buf (offsets o ms) (found_msgs o' rs) = acks (ack_seqs ms) rs.
Proof.
  intros Hin Hok. revert o o' rs Hin. induction Hok as [|m ms Hm Hok IH]; intros o o' rs Hin Hrin Hrs; [done|].
  destruct Hin as [(a & x & Eb & Ha) Hin]. cbn [offsets ack_loop]. 
  assert (hdr_at o cbuf = Some (amsg_hdr m)) as ->.
  { rewrite Eb. unfold amsg_bytes. rewrite <- app_assoc. apply hdr_at_bytes; [done|apply Hm]. }
  cbn [defined]. rewrite cbind_Ret. cbn [amsg_hdr nlmsg_flags nlmsg_seq]. rewrite ack_seqs_cons. unfold wants_ack.
  destruct (Z.eqb_spec (Z.land (a_flags m) NLM_F_ACK) 0) as [E|E]; cbn [negb]; [by apply IH|].
  destruct (find_reply_found buf (a_seq m) rs o' Hrin Hrs) as (o2 & -> & Hin2). cbn [defined]. rewrite cbind_Ret.
  cbn [acks]. destruct (find_msg_suffix (a_seq m) rs) as [pre Epre].
  rewrite Epre in Hrs. apply Forall_app in Hrs as [_ Hrs]. destruct (find_msg (a_seq m) rs) as [|r rs'] eqn:Ef; [done|].
  cbn [found_msgs]. inversion_clear Hrs as [|? ? Hr Hrs']. pose proof Hin2 as [Hr' _]. rewrite (msg_error_found buf o2 r Hr' Hr). cbn [defined]. rewrite cbind_Ret.
  destruct (error_of r); [done|]. cbn [header found_msg amsg_hdr nlmsg_seq]. destruct (a_seq r =? a_seq m); [|done].
  apply (IH _ o2 (r :: rs')); [done|done|by constructor].
Qed.

(** ** The verdict *)

(** [s] is found before the first error, or the error is, or neither. *)
Lemma find_cases s rs :
  (∃ pre r rest, find_msg s rs = r :: rest ∧ error_of r = None ∧ a_seq r = s ∧ (s ∉ pre) ∧
    before_error rs = pre ++ before_error (r :: rest) ∧ first_error rs = first_error (r :: rest)) ∨
  ((s ∉ before_error rs) ∧ ∃ r rest e, find_msg s rs = r :: rest ∧ error_of r = Some e ∧ first_error rs = Some e) ∨
  ((s ∉ before_error rs) ∧ find_msg s rs = [] ∧ first_error rs = None).
Proof.
  induction rs as [|r rs IH]; [right; right; split_and!; [apply not_elem_of_nil|done..]|].
  cbn [find_msg before_error first_error]. destruct (error_of r) as [e|] eqn:Ee.
  - right; left. split; [apply not_elem_of_nil|]. by exists r, rs, e.
  - rewrite bool_decide_true by done. cbn [negb orb]. destruct (Z.eqb_spec (a_seq r) s) as [E|E].
    + left. exists [], r, rs. cbn [before_error first_error]. rewrite Ee. split_and!; try done. apply not_elem_of_nil.
    + destruct IH as [(pre & r' & rest & Ef & Er & Es & Hpre & Eb & Ex)|[(Hn & H)|(Hn & H)]].
      * left. exists (a_seq r :: pre), r', rest. rewrite Eb. split_and!; try done. apply not_elem_of_cons. by split; [congruence|].
      * right; left. split; [|done]. apply not_elem_of_cons. by split; [congruence|].
      * right; right. split; [|done]. apply not_elem_of_cons. by split; [congruence|].
Qed.

(** The first occurrence is as good as any other. *)
Lemma sublist_first (s : Z) l pre rest : s ∉ pre → s ∉ l → s :: l `sublist_of` pre ++ s :: rest ↔ l `sublist_of` s :: rest.
Proof.
  intros Hpre Hl. transitivity (l `sublist_of` rest).
  - split.
    + intros (k1 & k2 & E & H)%sublist_cons_l. revert pre Hpre E. 
      assert (∀ pre k1, s ∉ pre → pre ++ s :: rest = k1 ++ s :: k2 → k2 `suffix_of` rest) as Hsuf.
      { intros pre. induction pre as [|y pre IH]; intros [|z k1'] Hp E; simplify_eq/=; [done| | |].
        - exists (k1' ++ [z]). by rewrite <- app_assoc.
        - by apply not_elem_of_cons in Hp as [? _].
        - apply (IH k1'); [|done]. by apply not_elem_of_cons in Hp as [_ ?]. }
      intros pre Hpre E. destruct (Hsuf pre k1 Hpre E) as [k ->]. by apply sublist_inserts_l.
    + intros H. apply sublist_inserts_l. by apply sublist_skip.
  - split; [by apply sublist_cons|]. intros H. apply sublist_cons_r in H as [H|(l' & -> & _)]; [done|]. by destruct Hl; left.
Qed.

Lemma sublist_hd (s : Z) l rs : s ∉ rs → ¬ s :: l `sublist_of` rs.
Proof. intros Hn (k1 & k2 & -> & _)%sublist_cons_l. apply Hn. apply elem_of_app. right. left. Qed.

Lemma acks_verdict seqs rs : NoDup seqs → ack_verdict seqs rs (acks seqs rs).
Proof.
  intros Hnd. revert rs. induction Hnd as [|s seqs Hs Hnd IH]; intros rs; cbn [acks]; [apply ack_all, sublist_nil_l|].
  destruct (find_cases s rs) as [(pre & r & rest & -> & Er & Es & Hpre & Eb & Ex)|[(Hn & r & rest & e & -> & Ee & Ex)|(Hn & -> & Ex)]].
  - rewrite Er, Es, Z.eqb_refl.
    assert (before_error (r :: rest) = s :: before_error rest) as Er' by (cbn [before_error]; by rewrite Er, Es).
    specialize (IH (r :: rest)). rewrite Er' in *. 
    assert (Hsub : ∀ l, s ∉ l → s :: l `sublist_of` before_error rs ↔ l `sublist_of` s :: before_error rest).
    { intros l Hl. rewrite Eb. by apply sublist_first. }
    destruct IH as [H|e H He|l t l' E H1 H2 He]; rewrite Er' in *.
    + apply ack_all. by apply Hsub.
    + apply ack_error; [|congruence]. by rewrite Hsub.
    + assert (s ∉ l ++ [t]) by (intros [|?%list_elem_of_singleton]%elem_of_app; apply Hs; rewrite E; apply elem_of_app; [by left|right; subst; left]).
      apply (ack_missing _ _ (s :: l) t l'); [by rewrite E| | |congruence].
      * apply Hsub; [|done]. clear - H; set_solver.
      * cbn [app]. by rewrite Hsub.
  - rewrite Ee. apply ack_error; [|done]. by apply sublist_hd.
  - apply (ack_missing _ _ [] s seqs); [done|apply sublist_nil_l|by apply sublist_hd|done].
Qed.

Lemma stream_nil ms b : stream ms b → b = [] ↔ ms = [].
Proof.
  intros [H|(ms' & m & d & -> & Hd & ->)].
  - destruct ms as [|m ms]; cbn [packed] in H; [by rewrite H|]. destruct H as (p & d & -> & _). split; [|done].
    intros [E _]%app_eq_nil. by apply (f_equal length) in E; rewrite length_amsg_bytes in E.
  - split; [|by destruct ms']. intros [_ E]%app_eq_nil. by apply (f_equal length) in E; rewrite length_amsg_bytes in E.
Qed.

Lemma holds_stream ms c : holds ms c → msgs_in (buffer c) 0 ms ∧ Forall amsg_ok ms.
Proof. intros (b & r & Hst & Hok & _ & -> & _). split; [by apply stream_in|done]. Qed.

Lemma check_acks_verdict ms c buf rs :
  holds ms c → Z.of_nat (datalen c) < 2 ^ 31 → (datalen c ≤ length (buffer c))%nat → msgs_in buf 0 rs → Forall reply_ok rs → NoDup (ack_seqs ms) →
  ack_verdict (ack_seqs ms) rs (tst_netlink_check_acks c (mk_resp buf (found_msgs 0 rs))).
Proof.
  intros Hh Hlt Hle Hin Hrs Hnd. pose proof (holds_stream _ _ Hh) as [Hin' Hok]. destruct Hh as (b & r & Hst & _ & _ & Eb & El).
  unfold tst_netlink_check_acks. rewrite wraps_small by (change (32 - 1) with 31; lia).
  assert (walk (S (length (buffer c))) 0 (Z.of_nat (datalen c)) (buffer c) = Some (offsets 0 ms)) as ->.
  { rewrite El, Eb. apply walk_stream; [done|done|lia|rewrite length_app; lia]. }
  cbn [defined resp_buf resp_msgs]. rewrite cbind_Ret, (ack_loop_acks _ _ ms 0 rs 0) by done. by apply acks_verdict.
Qed.

(** ** Programs that are validated *)

(** The numbers of the messages of a program that ask for an
    acknowledgement. *)
Fixpoint wanted (s : Z) (ps : list msg_spec) : list Z :=
  match ps with
  | [] => []
  | p :: ps => if wants_ack (sp_flags p) then wrapu 32 s :: wanted (s + 1) ps else wanted (s + 1) ps
  end.

Lemma wants_ack_lor f x : x = 0 ∨ x = NLM_F_MULTI → wants_ack (Z.lor f x) = wants_ack f.
Proof. intros [-> | ->]; [by rewrite Z.lor_0_r|]. unfold wants_ack. rewrite Z.land_lor_distr_l. by rewrite Z.lor_0_r. Qed.

Lemma are_msgs_wanted extra s p ps ms : extra = 0 ∨ extra = NLM_F_MULTI → are_msgs extra s p ps ms → ack_seqs ms = wanted s ps.
Proof.
  intros Hx. revert s ms. induction ps as [|x ps IH]; intros s [|m ms]; cbn [are_msgs wanted]; try done.
  intros [(_ & Hf & Hs & _) H]. rewrite ack_seqs_cons, Hf, wants_ack_lor, Hs, (IH _ _ H) by done. done.
Qed.

Lemma ack_seqs_app ms ms' : ack_seqs (ms ++ ms') = ack_seqs ms ++ ack_seqs ms'.
Proof. unfold ack_seqs. by rewrite filter_app, fmap_app. Qed.

Lemma program_wanted s p ps ms : program_msgs s p ps ms → ack_seqs ms = wanted s ps.
Proof.
  intros (ms' & H & ->). rewrite ack_seqs_app, (are_msgs_wanted _ _ _ _ _ (extra_cases ps) H). destruct (ends_group ps); by rewrite app_nil_r.
Qed.

Lemma wanted_elem s ps y : y ∈ wanted s ps → ∃ i, 0 ≤ i < Z.of_nat (length ps) ∧ y = wrapu 32 (s + i).
Proof.
  revert s. induction ps as [|p ps IH]; intros s; cbn [wanted]; [by intros ?%elem_of_nil|]. intros H.
  assert (y = wrapu 32 s ∨ y ∈ wanted (s + 1) ps) as [-> |Hy] by (destruct (wants_ack _); set_solver).
  - exists 0. cbn [length]. split; [lia|]. f_equal. lia.
  - destruct (IH _ Hy) as (i & Hi & ->). exists (i + 1). cbn [length]. split; [lia|]. f_equal. lia.
Qed.

Lemma wanted_nodup s ps : Z.of_nat (length ps) < 2 ^ 32 → NoDup (wanted s ps).
Proof.
  revert s. induction ps as [|p ps IH]; intros s; cbn [wanted length]; [constructor|]. intros Hl.
  assert (NoDup (wanted (s + 1) ps)) by (apply IH; lia). destruct (wants_ack _); [|done]. constructor; [|done].
  intros (i & Hi & E)%wanted_elem. unfold wrapu in E.
  assert (((s + 1 + i) - s) mod 2 ^ 32 = 0) as H0 by (rewrite Zminus_mod, <- E, Z.sub_diag; done).
  replace (s + 1 + i - s) with (1 + i) in H0 by lia. rewrite Z.mod_small in H0; lia.
Qed.

Lemma total_size_length ps : (16 * length ps ≤ total_size ps)%nat.
Proof.
  induction ps as [|p ps IH]; cbn [length total_size foldr]; [lia|]. assert (16 ≤ spec_size p)%nat by (unfold spec_size; lia).
  unfold total_size in IH. lia.
Qed.

Section Heap.
Context (heap : nat → option bool) (Hheap : ∀ n, heap n ≠ None).

End Heap.
