(* ===== verification/NetlinkBounds.v ===== *)
(** * Netlink messages stay within their buffers

    Whatever is added, also lengths that do not fit their fields, and
    whatever is received. *)

From S2P Require Import Prelude Bytes Netlink NetlinkFacts NetlinkSend.
Open Scope Z_scope.

(** ** The sender *)

(** The message at [o] ends within the data. *)
Definition msg_inside (o : nat) (c : context) : Prop :=
  aligned o ∧ (o + 16 ≤ datalen c)%nat ∧ ∃ len, peek 4 o (buffer c) = Some len ∧ 0 ≤ len ∧ Z.of_nat o + len ≤ Z.of_nat (datalen c).

Definition inside (c : context) : Prop :=
  bufsize c = length (buffer c) ∧ aligned (bufsize c) ∧ (datalen c ≤ bufsize c)%nat ∧
  (curmsg c = PNull ∨ ∃ o, curmsg c = PAt o ∧ msg_inside o c).

Lemma msg_space_le len n : 0 ≤ len → len ≤ Z.of_nat n → (msg_space len ≤ NLMSG_ALIGN n)%nat ∧ aligned (msg_space len).
Proof.
  intros H0 Hn. unfold msg_space. set (w := wrapu 32 (len + 3)). assert (0 ≤ w ≤ len + 3) as Hw.
  { unfold w, wrapu. pose proof (Z.mod_pos_bound (len + 3) (2 ^ 32)). pose proof (Z.mod_le (len + 3) (2 ^ 32)). lia. }
  pose proof (Z.div_mod w 4). pose proof (Z.mod_pos_bound w 4). assert (0 ≤ w / 4) by (apply Z.div_pos; lia). split.
  - destruct (align_spec n) as (k & -> & Hk). lia.
  - apply aligned_iff. exists (Z.to_nat (w / 4)). lia.
Qed.

Section Heap.
Context (heap : nat → option bool).

(** Nothing is moved while there is no message. *)
Definition stays (c : context) : Prop := curmsg c = PNull → heap (reallocs c) ≠ Some true.

Lemma peek_app n o a r x : peek n o a = Some x → peek n o (a ++ r) = Some x.
Proof.
  unfold peek. rewrite length_app. destruct (Nat.leb_spec (o + n) (length a)) as [L|]; [|done]. rewrite (proj2 (Nat.leb_le _ _)) by lia.
  intros [= <-]. do 2 f_equal. rewrite drop_app_le by lia. rewrite take_app_le; [done|]. rewrite length_drop. lia.
Qed.

Lemma grow_inside size c :
  inside c → stays c →
  good (λ c', inside c' ∧ (NLMSG_ALIGN (datalen c') + size ≤ bufsize c')%nat ∧ datalen c' = datalen c ∧ curmsg c' = curmsg c ∧ (bufsize c ≤ bufsize c')%nat)
    (netlink_grow_buffer heap size c).
Proof.
  intros (Eb & Ha & Hd & Hcur) Hst. unfold netlink_grow_buffer. pose proof (align_mono _ _ Hd) as Hle. rewrite Ha in Hle.
  destruct (Nat.ltb_spec (bufsize c) (NLMSG_ALIGN (datalen c))); [lia|]. destruct (Nat.leb_spec size (bufsize c - NLMSG_ALIGN (datalen c))); [split; [done|]; split_and!; done || lia|].
  set (needed := (size - (bufsize c - NLMSG_ALIGN (datalen c)))%nat). pose proof (align_ge (bufsize c + Nat.max (bufsize c) needed)) as Hn.
  pose proof (aligned_align (bufsize c + Nat.max (bufsize c) needed)) as Hal. set (n := NLMSG_ALIGN (bufsize c + Nat.max (bufsize c) needed)) in *.
  destruct (heap (reallocs c)) as [moved|] eqn:Eh; [|done].
  assert (match curmsg c with PNull => if moved then PWild else PNull | p => p end = curmsg c) as ->.
  { destruct (curmsg c) eqn:Ec; [|done..]. by destruct moved; [destruct (Hst Ec)|]. }
  cbn [good bufsize datalen curmsg]. split_and!; [|lia|done|done|lia]. unfold inside, msg_inside. cbn [bufsize buffer datalen curmsg].
  rewrite length_app, length_replicate. split_and!; [lia|done|lia|].
  destruct Hcur as [Hcur|(o & Hcur & Hal' & Ho & len & Hp & Hl)]; [by left|right]. exists o. split_and!; try done.
  exists len. split; [by apply peek_app|done].
Qed.

Lemma hdr_at_len o buf len : (o + 16 ≤ length buf)%nat → peek 4 o buf = Some len → ∃ h, hdr_at o buf = Some h ∧ nlmsg_len h = len.
Proof.
  intros Ho Hp. unfold hdr_at. rewrite Hp, obind_Some.
  assert (Hk : ∀ n k, (n + k ≤ 16)%nat → ∃ z, peek k (o + n) buf = Some z).
  { intros n k Hnk. unfold peek. rewrite (proj2 (Nat.leb_le _ _)) by lia. eauto. }
  destruct (Hk 4%nat 2%nat) as [? ->]; [lia|]. destruct (Hk 6%nat 2%nat) as [? ->]; [lia|].
  destruct (Hk 8%nat 4%nat) as [? ->]; [lia|]. destruct (Hk 12%nat 4%nat) as [? ->]; [lia|]. rewrite !obind_Some. by eexists.
Qed.

Lemma at_cur_at c o : curmsg c = PAt o → at_cur c = CRet o.
Proof. intros E. unfold at_cur. by rewrite E. Qed.

(** The next message begins at a multiple of 4 within the data. *)
Lemma next_inside o c len : msg_inside o c → peek 4 o (buffer c) = Some len → (o + msg_space len ≤ NLMSG_ALIGN (datalen c))%nat ∧ aligned (o + msg_space len).
Proof.
  intros (Ha & Ho & len' & Hp & H0 & Hl) Hp'. rewrite Hp in Hp'. injection Hp' as ->.
  destruct (msg_space_le len (datalen c - o) H0) as [Hs Hsa]; [lia|]. split; [|by apply aligned_add].
  replace (datalen c) with (o + (datalen c - o))%nat by lia. rewrite align_add by done. lia.
Qed.

(** The header and the payload of a message. *)
Lemma put_inside o D type flags pl sq pd bs buf :
  bs = length buf → (o ≤ D)%nat → (D + NLMSG_SPACE (length pl) ≤ bs)%nat → Z.of_nat (length pl) + 16 < 2 ^ 32 →
  let len := wrapu 32 (Z.of_nat (NLMSG_LENGTH (length pl))) in
  ∃ b b', poke o (hdr_bytes (mk_hdr len type flags sq pd)) buf = Some b ∧
    (if (length pl =? 0)%nat then Some b else poke (o + NLMSG_HDRLEN) pl b) = Some b' ∧ length b' = bs ∧
    len = 16 + Z.of_nat (length pl) ∧ peek 4 o b' = Some len.
Proof.
  intros -> Ho Hfit Hpl len. pose proof (align_ge (NLMSG_LENGTH (length pl))) as Hal. unfold NLMSG_SPACE, NLMSG_LENGTH, NLMSG_HDRLEN in *.
  assert (len = 16 + Z.of_nat (length pl)) as El by (unfold len; rewrite wrapu_small; lia).
  set (h := mk_hdr len type flags sq pd). destruct (poke_ok o (hdr_bytes h) buf) as [b Eb]; [rewrite length_hdr_bytes; lia|].
  pose proof (length_poke _ _ _ _ Eb) as Lb.
  assert (peek 4 o b = Some len) as Hp.
  { unfold hdr_bytes in Eb. apply peek_poke in Eb. rewrite length_lebytes in Eb. rewrite Eb. f_equal. apply unle_small.
    change (256 ^ Z.of_nat 4) with (2 ^ 32). cbn [nlmsg_len h]. lia. }
  destruct (Nat.eqb_spec (length pl) 0) as [E|E]; [by exists b, b|].
  destruct (poke_ok (o + 16) pl b) as [b' Eb']; [lia|]. exists b, b'. pose proof (length_poke _ _ _ _ Eb') as Lb'.
  split_and!; [done|done|congruence|done|]. rewrite (peek_poke_other _ _ _ _ _ _ Eb'); [done|lia].
Qed.

Lemma add_message_inside type flags pl c :
  inside c → stays c → Z.of_nat (length pl) + 16 < 2 ^ 32 →
  good (λ c', inside c' ∧ curmsg c' ≠ PNull ∧ (0 < datalen c')%nat) (tst_netlink_add_message heap type flags pl c).
Proof.
  intros Hin Hst Hpl. unfold tst_netlink_add_message. eapply good_bind; [by apply grow_inside|].
  intros c' ((Eb & Ha & Hd & Hcur) & Hfit & _). clear Hin Hst c. rename c' into c.
  apply (good_bind (λ '(c', _), ∃ o, curmsg c' = PAt o ∧ aligned o ∧ (o ≤ datalen c')%nat ∧ aligned (datalen c') ∧
    (datalen c' + NLMSG_SPACE (length pl) ≤ bufsize c')%nat ∧ bufsize c' = length (buffer c') ∧ aligned (bufsize c'))).
  - destruct Hcur as [Hcur|(o & Hcur & Hmsg)]; rewrite Hcur.
    + exists 0%nat. cbn [curmsg datalen bufsize buffer]. pose proof (align_ge (datalen c)). split_and!; done || lia.
    + rewrite (at_cur_at _ _ Hcur), cbind_Ret. pose proof Hmsg as (Hao & Ho & len & Hp & _).
      destruct (hdr_at_len o (buffer c) len) as (h & -> & Eh); [lia|done|]. cbn [defined]. rewrite cbind_Ret.
      destruct (poke_ok (o + 6) (lebytes 2 (Z.lor (nlmsg_flags h) NLM_F_MULTI)) (buffer c)) as [b Epk]; [rewrite length_lebytes; lia|].
      rewrite Epk. cbn [defined]. rewrite cbind_Ret, Eh. destruct (next_inside o c len Hmsg Hp) as [Hle Hal].
      exists (o + msg_space len)%nat. cbn [curmsg datalen bufsize buffer]. rewrite (length_poke _ _ _ _ Epk).
      split_and!; [done|done|done|apply aligned_align|lia|done|done].
  - intros [c1 extra] (o & Hc & Hao & Ho & Had & Hf & Es & Has). rewrite (at_cur_at _ _ Hc), cbind_Ret. cbn beta zeta.
    destruct (put_inside o (datalen c1) type (Z.lor flags extra) pl (seq c1) (pid c1) (bufsize c1) (buffer c1)) as (b & b' & -> & Eb' & Lb' & El & Hp); [done..|].
    cbn [defined]. rewrite cbind_Ret, Eb'. cbn [defined]. rewrite cbind_Ret. cbn [good curmsg]. rewrite Hc, El in *.
    pose proof (align_ge (NLMSG_LENGTH (length pl))) as Hal. unfold NLMSG_SPACE, NLMSG_LENGTH, NLMSG_HDRLEN in *.
    split; [|split; [done|cbn [datalen]; lia]]. unfold inside, msg_inside. cbn [bufsize buffer datalen curmsg]. split_and!; [done|done|lia|].
    right. exists o. split_and!; [done|done|lia|]. exists (16 + Z.of_nat (length pl)). split_and!; [done|lia|lia].
Qed.

(** ** Attributes *)

(** [c'] comes from [c] by adding to the last message. *)
Definition extends (c c' : context) : Prop :=
  inside c' ∧ curmsg c' = curmsg c ∧ (datalen c ≤ datalen c')%nat ∧ (bufsize c ≤ bufsize c')%nat.

Definition extends_attr (c c' : context) : Prop :=
  extends c c' ∧ curmsg c ≠ PNull ∧ (NLMSG_ALIGN (datalen c) ≤ datalen c')%nat ∧ (NLMSG_ALIGN (datalen c) + 4 ≤ bufsize c')%nat.

Lemma extends_trans c1 c2 c3 : extends c1 c2 → extends c2 c3 → extends c1 c3.
Proof. intros (_ & ? & ? & ?) (? & ? & ? & ?). split_and!; try done; congruence || lia. Qed.

Lemma add_attr_inside fname space alen type data c :
  inside c → (4 + length data ≤ space)%nat → 0 ≤ alen ≤ Z.of_nat (4 + length data) →
  good (extends_attr c) (add_attr heap fname space alen type data c).
Proof.
  intros Hin Hsp Hal. unfold add_attr. pose proof Hin as (_ & _ & _ & Hcur0). destruct Hcur0 as [E|(o & E & _)]; rewrite E; [done|].
  eapply good_bind; [apply grow_inside; [done|by intros ?; congruence]|]. intros c1 ((Eb & Ha & Hd & Hcur) & Hfit & Ed & Ec & Hge).
  destruct Hcur as [?|(o' & Hc & Hmsg)]; [congruence|]. assert (o' = o) as -> by congruence. rewrite (at_cur_at _ _ Hc), cbind_Ret.
  pose proof Hmsg as (Hao & Ho & len & Hp & Hlen). destruct (hdr_at_len o (buffer c1) len) as (h & -> & Eh); [lia|done|]. cbn [defined].
  rewrite cbind_Ret, Eh. cbn beta zeta. destruct (next_inside o c1 len Hmsg Hp) as [Hle Hala]. set (size := msg_space len) in *.
  destruct (poke_ok (o + size + 2) (lebytes 2 type) (buffer c1)) as [b1 E1]; [rewrite length_lebytes; lia|]. pose proof (length_poke _ _ _ _ E1) as L1.
  rewrite E1. cbn [defined]. rewrite cbind_Ret.
  destruct (poke_ok (o + size) (lebytes 2 alen) b1) as [b2 E2]; [rewrite length_lebytes; lia|]. pose proof (length_poke _ _ _ _ E2) as L2.
  rewrite E2. cbn [defined]. rewrite cbind_Ret.
  destruct (poke_ok (o + size + 4) data b2) as [b3 E3]; [lia|]. pose proof (length_poke _ _ _ _ E3) as L3. rewrite E3. cbn [defined]. rewrite cbind_Ret.
  set (n := wrapu 32 (Z.of_nat size + alen)). destruct (poke_ok o (lebytes 4 n) b3) as [b4 E4]; [rewrite length_lebytes; lia|].
  pose proof (length_poke _ _ _ _ E4) as L4. rewrite E4. cbn [defined]. rewrite cbind_Ret. cbn [good].
  assert (0 ≤ n ≤ Z.of_nat size + alen) as Hn.
  { unfold n, wrapu. pose proof (Z.mod_pos_bound (Z.of_nat size + alen) (2 ^ 32)). pose proof (Z.mod_le (Z.of_nat size + alen) (2 ^ 32)). lia. }
  assert (peek 4 o b4 = Some n) as Hp4.
  { rewrite <- (app_nil_r (lebytes 4 n)) in E4. apply peek_poke in E4. rewrite length_lebytes in E4. rewrite E4. f_equal.
    rewrite unle_lebytes. apply Z.mod_small. apply (u32_wrap (Z.of_nat size + alen)). }
  pose proof (align_ge (datalen c1)). unfold extends_attr, extends, inside, msg_inside. cbn [bufsize buffer datalen curmsg]. rewrite Ed, E, Ec in *.
  split_and!; try done; try lia; try congruence. right. exists o. split_and!; [congruence|done|lia|]. exists n. split_and!; [done|lia|lia].
Qed.

Lemma wrapu16_le n : 0 ≤ wrapu 16 (Z.of_nat n) ≤ Z.of_nat n.
Proof. unfold wrapu. pose proof (Z.mod_pos_bound (Z.of_nat n) (2 ^ 16)). pose proof (Z.mod_le (Z.of_nat n) (2 ^ 16)). lia. Qed.

Definition attr_inside (add : Z → list Z → context → cres context) : Prop :=
  ∀ type data c, inside c → good (extends_attr c) (add type data c).

Lemma netlink_attr_inside : attr_inside (tst_netlink_add_attr heap).
Proof.
  intros type data c Hin. apply add_attr_inside; [done| |apply wrapu16_le]. unfold NLA_HDRLEN, NLA_ALIGN. pose proof (align_ge (length data)). lia.
Qed.

Lemma rtnl_attr_inside : attr_inside (tst_rtnl_add_attr heap).
Proof.
  intros type data c Hin. apply add_attr_inside; [done| |apply wrapu16_le]. unfold RTA_SPACE, RTA_LENGTH. pose proof (align_ge (4 + length data)). lia.
Qed.

(** The length of an attribute is written after its sublist. *)
Lemma patch_inside offset bs c b :
  inside c → poke offset bs (buffer c) = Some b → (∃ o, curmsg c = PAt o ∧ o + 16 ≤ offset)%nat → extends c (set_buffer b c).
Proof.
  intros (Eb & Ha & Hd & Hcur) Epk (o & Ec & Ho). unfold extends, inside, msg_inside, set_buffer. cbn [bufsize buffer datalen curmsg].
  rewrite (length_poke _ _ _ _ Epk). split_and!; [done|done|done| |done|lia|lia]. right. exists o.
  destruct Hcur as [?|(o' & Ec' & Hal & Ho' & len & Hp & Hl)]; [congruence|]. assert (o' = o) as -> by congruence. split_and!; [done..|].
  exists len. rewrite (peek_poke_other _ _ _ _ _ _ Epk) by lia. done.
Qed.

Lemma add_attr_list_inside fname add l : attr_inside add → ∀ i c, inside c → good (λ '(_, c'), extends c c') (add_attr_list fname add i l c).
Proof.
  intros Hadd. induction l as [|type data rest IH|type data sub IHs rest IH]; intros i c Hin; cbn [add_attr_list].
  - cbn [good]. by split_and!.
  - destruct (USHRT_MAX <? _); [done|]. eapply good_bind; [by apply Hadd|]. intros c1 [H1 _].
    eapply good_mono; [apply IH, H1|]. intros [? c2]. by apply extends_trans.
  - destruct (USHRT_MAX <? _); [done|]. eapply good_bind; [by apply Hadd|]. intros c1 [H1 (Hn & Hd & Hb)].
    eapply good_bind; [apply IHs, H1|]. intros [? c2] H2. cbn beta iota zeta. destruct (USHRT_MAX <? _); [done|].
    pose proof H2 as (Hin2 & Ec2 & Hd2 & Hb2). pose proof Hin2 as (Es2 & _).
    destruct (poke_ok (NLMSG_ALIGN (datalen c)) (lebytes 2 (Z.of_nat (datalen c2 - NLMSG_ALIGN (datalen c)))) (buffer c2)) as [b Eb];
      [rewrite length_lebytes; lia|]. rewrite Eb. cbn [defined]. rewrite cbind_Ret.
    assert (extends c2 (set_buffer b c2)) as H3.
    { eapply patch_inside; [done|exact Eb|]. destruct Hin as (_ & _ & _ & [?|(o & Eo & _ & Ho & _)]); [done|]. exists o.
      destruct H1 as (_ & Ec1 & _). pose proof (align_ge (datalen c)). split; [congruence|lia]. }
    eapply good_mono; [apply IH, H3|]. intros [? c3] H4. exact (extends_trans _ _ _ H1 (extends_trans _ _ _ H2 (extends_trans _ _ _ H3 H4))).
Qed.

Lemma run_op_inside op c : inside c → good (extends c) (run_op heap op c).
Proof.
  intros Hin. assert (Hone : ∀ x, good (extends_attr c) x → good (extends c) x) by (intros x H; eapply good_mono; [exact H|by intros ? [? _]]).
  destruct op as [type data|type s|l|type data|type s|l]; cbn [run_op].
  - by apply Hone, netlink_attr_inside.
  - by apply Hone, netlink_attr_inside.
  - eapply good_bind; [by apply add_attr_list_inside; [apply netlink_attr_inside|]|]. by intros [? c'].
  - by apply Hone, rtnl_attr_inside.
  - by apply Hone, rtnl_attr_inside.
  - eapply good_bind; [by apply add_attr_list_inside; [apply rtnl_attr_inside|]|]. by intros [? c'].
Qed.

(** ** Sequences of calls *)

Inductive call :=
  | CallMessage (type flags : Z) (pl : list Z)
  | CallAttr (op : attr_op)
  | CallSend (sent : Z).

Definition call_ok (k : call) : Prop := match k with CallMessage _ _ pl => Z.of_nat (length pl) + 16 < 2 ^ 32 | _ => True end.

(** The context and everything that was sent. *)
Definition run_call (k : call) (c : context) (out : list (list Z)) : cres (list (list Z) * context) :=
  match k with
  | CallMessage type flags pl => c ← tst_netlink_add_message heap type flags pl c; CRet (out, c)
  | CallAttr op => c ← run_op heap op c; CRet (out, c)
  | CallSend sent => '(b, c) ← tst_netlink_send heap sent c; CRet (out ++ [b], c)
  end.

Fixpoint run_calls (ks : list call) (c : context) (out : list (list Z)) : cres (list (list Z) * context) :=
  match ks with
  | [] => CRet (out, c)
  | k :: ks => '(out, c) ← run_call k c out; run_calls ks c out
  end.

Lemma send_inside sent c : inside c → good (λ '(b, c'), inside c' ∧ Z.of_nat (length b) = sent) (tst_netlink_send heap sent c).
Proof.
  intros Hin. unfold tst_netlink_send. pose proof Hin as (Eb & Ha & Hd & [E|(o & E & Hmsg)]); rewrite E; [done|].
  rewrite (at_cur_at _ _ E), cbind_Ret. pose proof Hmsg as (Hao & Ho & len & Hp & _).
  destruct (hdr_at_len o (buffer c) len) as (h & -> & _); [lia|done|]. cbn [defined]. rewrite cbind_Ret.
  apply (good_bind inside).
  - destruct (_ =? 0); [done|]. eapply good_bind; [apply add_message_inside; [done|by intros ?; congruence|done]|].
    intros c1 (Hin1 & Hn & _). pose proof Hin1 as (Es1 & Ha1 & Hd1 & [?|(o1 & E1 & Hmsg1)]); [done|]. rewrite (at_cur_at _ _ E1), cbind_Ret.
    pose proof Hmsg1 as (Hao1 & Ho1 & len1 & Hp1 & Hl1). destruct (poke_ok (o1 + 6) (lebytes 2 0) (buffer c1)) as [b Eb1]; [rewrite length_lebytes; lia|].
    rewrite Eb1. cbn [defined]. rewrite cbind_Ret. unfold inside, msg_inside, set_buffer. cbn [good bufsize buffer datalen curmsg].
    rewrite (length_poke _ _ _ _ Eb1). split_and!; try done. right. exists o1. split_and!; try done. exists len1.
    rewrite (peek_poke_other _ _ _ _ _ _ Eb1) by lia. done.
  - intros c1 (Es1 & Ha1 & Hd1 & _). destruct (Z.eqb_spec sent (Z.of_nat (datalen c1))) as [-> |]; [|done]. split.
    + unfold inside. cbn [bufsize buffer datalen curmsg]. split_and!; try done. by left.
    + rewrite length_take. lia.
Qed.

(** What [sendmsg] was given, by the answers. *)
Definition sents (ks : list call) : list Z := omap (λ k, match k with CallSend sent => Some sent | _ => None end) ks.

Definition sizes (out : list (list Z)) : list Z := map (λ b, Z.of_nat (length b)) out.

Lemma run_call_inside k c out :
  (∀ n, heap n ≠ Some true) → inside c → call_ok k → good (λ '(out', c'), inside c' ∧ sizes out' = sizes out ++ sents [k]) (run_call k c out).
Proof.
  intros Hheap Hin Hk. destruct k as [type flags pl|op|sent]; cbn [run_call].
  - eapply good_bind; [apply add_message_inside; [done|by intros _|done]|]. intros c' [? _]. split; [done|]. cbn. by rewrite app_nil_r.
  - eapply good_bind; [by apply run_op_inside|]. intros c' [? _]. split; [done|]. cbn. by rewrite app_nil_r.
  - eapply good_bind; [by apply send_inside|]. intros [b c'] [? <-]. split; [done|]. unfold sizes. by rewrite map_app.
Qed.

(** C30. No sequence of calls that build and send messages writes or reads
    outside of the buffer, whatever the types, flags, lengths and nested
    lists are, and also when the length of an attribute or of a message does
    not fit its field, as long as realloc does not move the buffer; and what
    is sent lies within it. *)
Theorem netlink_in_bounds ks c :
  (∀ n, heap n ≠ Some true) → inside c → Forall call_ok ks → good (λ '(out, c'), inside c' ∧ sizes out = sents ks) (run_calls ks c []).
Proof.
  intros Hheap Hin Hok. change (sents ks) with (sizes [] ++ sents ks). generalize ([] : list (list Z)) as out. revert c Hin.
  induction Hok as [|k ks Hk Hok IH]; intros c Hin out; cbn [run_calls]; [cbn; by rewrite app_nil_r|].
  eapply good_bind; [by apply run_call_inside|]. intros [out' c'] [Hc' Eo]. eapply good_mono; [by apply IH|].
  intros [out2 c2] [? ->]. split; [done|]. rewrite Eo, <- app_assoc. f_equal. by destruct k.
Qed.
End Heap.

(** ** The receiver *)

(** A message that lies in the buffer. *)
Definition msg_in (buf : list Z) (m : message) : Prop :=
  16 ≤ nlmsg_len (header m) ∧ payload_size m = nlmsg_len (header m) - 16 ∧ Z.of_nat (payload m) + payload_size m ≤ Z.of_nat (length buf).

Definition at_msg (buf : list Z) (o : nat) : Prop :=
  ∃ len, peek 4 o buf = Some len ∧ 16 ≤ len ∧ Z.of_nat o + len ≤ Z.of_nat (length buf).

Lemma walk_inside buf fuel o left :
  left < 2 ^ 31 → left < Z.of_nat fuel → (0 < fuel)%nat → Z.of_nat o + left ≤ Z.of_nat (length buf) → ∃ os, walk fuel o left buf = Some os ∧ Forall (at_msg buf) os.
Proof.
  revert o left. induction fuel as [|fuel IH]; intros o left H31 Hf H0 Ho; [lia|]. cbn [walk]. destruct (Z.leb_spec left 0) as [L|L].
  { exists []. by split. }
  unfold NLMSG_OK. change (Z.of_nat NLMSG_HDRLEN) with 16. destruct (Z.ltb_spec left 16) as [L'|L']; [rewrite obind_Some; exists []; by split|].
  assert (∃ len, peek 4 o buf = Some len) as [len Hp] by (unfold peek; rewrite (proj2 (Nat.leb_le _ _)) by lia; eauto).
  rewrite Hp, !obind_Some, wrapu_small by lia. destruct (Z.leb_spec 16 len) as [L1|L1]; cbn [andb negb]; [|exists []; by split].
  destruct (Z.leb_spec len left) as [L2|L2]; cbn [negb]; [|exists []; by split].
  replace len with (Z.of_nat (Z.to_nat len)) by lia. rewrite msg_space_align by lia. pose proof (align_ge (Z.to_nat len)) as Hal.
  rewrite wraps_small by (change (32 - 1) with 31; lia).
  destruct (IH (o + NLMSG_ALIGN (Z.to_nat len))%nat (left - Z.of_nat (NLMSG_ALIGN (Z.to_nat len)))) as (os & -> & Hos); [lia..|].
  rewrite obind_Some. exists (o :: os). split; [done|]. constructor; [|done]. exists len. split_and!; [done|lia|lia].
Qed.

Lemma message_inside buf o : at_msg buf o → ∃ m, message_at buf o = Some m ∧ msg_in buf m.
Proof.
  intros (len & Hp & H16 & Hl). unfold message_at. destruct (hdr_at_len o buf len) as (h & -> & Eh); [lia|done|].
  rewrite obind_Some. eexists. split; [done|]. unfold msg_in, NLMSG_HDRLEN. cbn [header payload payload_size]. rewrite Eh. lia.
Qed.

Lemma messages_inside buf os : Forall (at_msg buf) os → ∃ ms, mapM (message_at buf) os = Some ms ∧ Forall (msg_in buf) ms.
Proof.
  induction 1 as [|o os Ho Hos (ms & E & Hms)]; [by exists []|]. destruct (message_inside buf o Ho) as (m & Em & Hm).
  exists (m :: ms). cbn [mapM]. rewrite Em, obind_Some, E, obind_Some. split; [done|by constructor].
Qed.

Lemma wraps_le z : 0 ≤ z → wraps 32 z < 2 ^ 31 ∧ wraps 32 z ≤ z.
Proof.
  intros Hz. pose proof (wraps_range 32 z eq_refl) as H. change (32 - 1) with 31 in H. split; [lia|]. unfold wraps.
  change (32 - 1) with 31 in *. pose proof (Z.mod_le z (2 ^ 32)). pose proof (Z.mod_pos_bound z (2 ^ 32)). pose proof (Z.mod_le (z + 2 ^ 31) (2 ^ 32)). lia.
Qed.

(** C31. Whatever is received, [tst_netlink_recv] reads only within what it
    received and returns, and every message it returns lies in it with its
    header and its payload. *)
Theorem netlink_recv_in_bounds answers :
  good (λ r, match r with None => True | Some r => Forall (msg_in (resp_buf r)) (resp_msgs r) end) (tst_netlink_recv answers).
Proof.
  unfold tst_netlink_recv. eapply (good_bind (λ _, True)).
  { generalize ([] : list Z) as buf. induction answers as [|[d|] answers IH]; intros buf; cbn [recv_loop]; [done|apply IH|done]. }
  intros buf _. destruct (length buf =? 0)%nat; [done|]. destruct (wraps_le (Z.of_nat (length buf))) as [H1 H2]; [lia|].
  destruct (walk_inside buf (S (length buf)) 0 (wraps 32 (Z.of_nat (length buf)))) as (os & -> & Hos); [lia..|]. cbn [defined]. rewrite cbind_Ret.
  destruct (messages_inside buf os Hos) as (ms & -> & Hms). cbn [defined]. rewrite cbind_Ret. exact Hms.
Qed.
