(* ===== verification/NetlinkDemo.v ===== *)
(** * Netlink messages: concrete programs and defects

    A group of two messages with a nested attribute, what is sent for it and
    how its acknowledgements are checked; and the inputs for which the code
    does not do what it should. *)

From S2P Require Import Prelude Bytes Netlink NetlinkFacts NetlinkSend NetlinkAcks NetlinkBounds.
Open Scope Z_scope.

Definition heap0 : nat → option bool := λ _, Some false.

Lemma heap0_ok n : heap0 n ≠ None.
Proof. done. Qed.

Lemma create_idle : idle tst_netlink_create_context.
Proof. split_and!; done || (cbn; lia). Qed.

Lemma create_inside : inside tst_netlink_create_context.
Proof. split_and!; try done; [cbn; lia|by left]. Qed.

(** Two requests with acknowledgement: one with a name and a nested
    attribute, one with a single byte. *)
Definition demo_x : msg_spec :=
  mk_spec 16 (NLM_F_ACK + 1) [1; 0; 0; 0] [RtString 3 (str "dummy0"); RtList (ANest 18 [] (ACons 1 [7; 7; 7] ANil) ANil)].
Definition demo_y : msg_spec := mk_spec 17 (NLM_F_ACK + 1) [] [NlAttr 5 [9]].

Lemma demo_starts : starts heap0 demo_x tst_netlink_create_context.
Proof. split; [apply create_idle|by left]. Qed.

Lemma demo_specs_ok : Forall spec_ok [demo_x; demo_y].
Proof. repeat constructor; done. Qed.

Lemma demo_size : Z.of_nat (16 + total_size [demo_x; demo_y]) < 2 ^ 31.
Proof. vm_compute. done. Qed.

Lemma netlink_roundtrip_witness :
  ∃ c1 b c2, build heap0 [demo_x; demo_y] tst_netlink_create_context = CRet c1 ∧
    tst_netlink_send heap0 (Z.of_nat (length b)) c1 = CRet (b, c2) ∧ idle c2 ∧
    ∀ ds, concat ds = b → ∃ r, tst_netlink_recv (map Dgram ds) = CRet (Some r) ∧
      program_msgs (seq tst_netlink_create_context) (pid tst_netlink_create_context) [demo_x; demo_y] (view r).
Proof. apply (netlink_roundtrip heap0 heap0_ok demo_x [demo_y]); [apply demo_starts|apply demo_specs_ok|apply demo_size]. Defined.


(** A nested list and an attribute that needs more space. *)
Definition demo_calls : list call :=
  [CallMessage 16 1 []; CallAttr (NlList (ANest 1 [] (ACons 2 (replicate 100 5) ANil) ANil)); CallAttr (RtAttr 3 (replicate 600 0)); CallSend 732].

Lemma netlink_in_bounds_witness :
  good (λ '(out, c'), inside c' ∧ sizes out = sents demo_calls) (run_calls heap0 demo_calls tst_netlink_create_context []).
Proof. apply (netlink_in_bounds heap0); [done|apply create_inside|repeat constructor; done]. Defined.

(** ** What is sent *)

Definition demo_bytes : cres (list Z) :=
  c ← build heap0 [demo_x; demo_y] tst_netlink_create_context;
  '(b, _) ← tst_netlink_send heap0 84 c;
  CRet b.

Lemma demo_sent : demo_bytes = CRet (
  [43; 0; 0; 0; 16; 0; 7; 0; 0; 0; 0; 0; 0; 0; 0; 0] ++ [1; 0; 0; 0] ++
  [11; 0; 3; 0; 100; 117; 109; 109; 121; 48; 0; 0] ++ [11; 0; 18; 0; 7; 0; 1; 0; 7; 7; 7; 0] ++
  [21; 0; 0; 0; 17; 0; 7; 0; 1; 0; 0; 0; 0; 0; 0; 0] ++ [5; 0; 5; 0; 9; 0; 0; 0] ++
  [16; 0; 0; 0; 3; 0; 0; 0; 2; 0; 0; 0; 0; 0; 0; 0]).
Proof. by vm_compute. Qed.

(** The replies of the kernel: an error message with the number of the error
    for every request. *)
Definition ack (sq e : Z) : list Z := hdr_bytes (mk_hdr 36 NLMSG_ERROR 0 sq 0) ++ lebytes 4 e ++ replicate 16 0.

Definition demo_validate (replies : list (list Z)) : cres (Z * Z) :=
  c ← build heap0 [demo_x; demo_y] tst_netlink_create_context;
  '(r, e, _) ← tst_netlink_send_validate heap0 84 (map Dgram replies) c;
  CRet (r, e).

Lemma demo_acks :
  demo_validate [ack 0 0; ack 1 0] = CRet (1, 0) ∧
  demo_validate [ack 0 0; ack 1 (-17)] = CRet (0, 17) ∧
  demo_validate [] = CRet (0, 0) ∧
  demo_validate [ack 1 0; ack 0 0] = CBrk TBROK (str "No ACK found for Netlink message 1").
Proof. by vm_compute. Qed.

(** ** Defects *)

(** The first message does not fit the buffer of 1024 bytes and realloc moves
    it: the pointer to the last message is no longer NULL, and it is
    followed. *)
Lemma first_message_moved : tst_netlink_add_message (λ _, Some true) 16 1 (replicate 1100 0) tst_netlink_create_context = CUB.
Proof. by vm_compute. Qed.

(** The same for a short message after a long one was sent, whose size still
    counts. *)
Lemma next_message_moved :
  (c ← tst_netlink_add_message (λ _, Some true) 16 1 (replicate 984 0) tst_netlink_create_context;
   '(_, c) ← tst_netlink_send (λ _, Some true) 1000 c;
   tst_netlink_add_message (λ _, Some true) 16 1 (replicate 20 0) c) = CUB.
Proof. by vm_compute. Qed.

Lemma wrap16_over z : 2 ^ 16 ≤ z < 2 * 2 ^ 16 → wrapu 16 z = z - 2 ^ 16.
Proof. intros H. unfold wrapu. symmetry. apply (Z.mod_unique _ _ 1); lia. Qed.

Lemma grow_datalen heap size c c' : netlink_grow_buffer heap size c = CRet c' → datalen c' = datalen c.
Proof. unfold netlink_grow_buffer. intros H. repeat case_match; by simplify_eq. Qed.

(** The data of an attribute may have 65535 bytes, but the length of the
    attribute counts its header too: the last four lengths wrap around, and
    neither the attribute nor the message has the data. *)
Lemma attr_length_wraps heap type data c c' :
  65532 ≤ Z.of_nat (length data) ≤ 65535 → tst_netlink_add_attr heap type data c = CRet c' →
  Z.of_nat (datalen c') = Z.of_nat (NLMSG_ALIGN (datalen c)) + (Z.of_nat (length data) - 65532).
Proof.
  intros Hlen. unfold tst_netlink_add_attr, add_attr, NLA_HDRLEN. rewrite wrap16_over by lia.
  assert (∀ A (x : cres A) y, match curmsg c with PNull => CBrk TBROK y | _ => x end = x ∨ ∃ t m, match curmsg c with PNull => CBrk TBROK y | _ => x end = CBrk t m) as Hc.
  { intros. destruct (curmsg c); eauto. }
  edestruct Hc as [-> |(? & ? & ->)]; [|done]. clear Hc. destruct (netlink_grow_buffer _ _ c) as [c1| |] eqn:Eg; [|done..].
  rewrite cbind_Ret. destruct (at_cur c1); [|done..]. rewrite cbind_Ret. destruct (hdr_at _ _); [|done]. cbn [defined]. rewrite cbind_Ret. cbn zeta.
  do 4 (destruct (poke _ _ _); [|done]; cbn [defined]; rewrite cbind_Ret).
  intros [= <-]. cbn [datalen]. rewrite (grow_datalen _ _ _ _ Eg). lia.
Qed.
