(* ===== verification/Checksum.v ===== *)
(** * CRC-32C (lib/tst_checksum.c)

    The table-driven checksum computes the remainder by the Castagnoli
    polynomial bit by bit, and tells apart buffers of the same length that
    differ in one place of up to four bytes. *)

From S2P Require Import Prelude.
Open Scope Z_scope.

Definition crc32c_table : list Z :=
  [0; 4067132163; 3778769143; 324072436; 3348797215; 904991772; 648144872; 3570033899;
   2329499855; 2024987596; 1809983544; 2575936315; 1296289744; 3207089363; 2893594407; 1578318884;
   274646895; 3795141740; 4049975192; 51262619; 3619967088; 632279923; 922689671; 3298075524;
   2592579488; 1760304291; 2075979607; 2312596564; 1562183871; 2943781820; 3156637768; 1313733451;
   549293790; 3537243613; 3246849577; 871202090; 3878099393; 357341890; 102525238; 4101499445;
   2858735121; 1477399826; 1264559846; 3107202533; 1845379342; 2677391885; 2361733625; 2125378298;
   820201905; 3263744690; 3520608582; 598981189; 4151959214; 85089709; 373468761; 3827903834;
   3124367742; 1213305469; 1526817161; 2842354314; 2107672161; 2412447074; 2627466902; 1861252501;
   1098587580; 3004210879; 2688576843; 1378610760; 2262928035; 1955203488; 1742404180; 2511436119;
   3416409459; 969524848; 714683780; 3639785095; 205050476; 4266873199; 3976438427; 526918040;
   1361435347; 2739821008; 2954799652; 1114974503; 2529119692; 1691668175; 2005155131; 2247081528;
   3690758684; 697762079; 986182379; 3366744552; 476452099; 3993867776; 4250756596; 255256311;
   1640403810; 2477592673; 2164122517; 1922457750; 2791048317; 1412925310; 1197962378; 3037525897;
   3944729517; 427051182; 170179418; 4165941337; 746937522; 3740196785; 3451792453; 1070968646;
   1905808397; 2213795598; 2426610938; 1657317369; 3053634322; 1147748369; 1463399397; 2773627110;
   4215344322; 153784257; 444234805; 3893493558; 1021025245; 3467647198; 3722505002; 797665321;
   2197175160; 1889384571; 1674398607; 2443626636; 1164749927; 3070701412; 2757221520; 1446797203;
   137323447; 4198817972; 3910406976; 461344835; 3484808360; 1037989803; 781091935; 3705997148;
   2460548119; 1623424788; 1939049696; 2180517859; 1429367560; 2807687179; 3020495871; 1180866812;
   410100952; 3927582683; 4182430767; 186734380; 3756733383; 763408580; 1053836080; 3434856499;
   2722870694; 1344288421; 1131464017; 2971354706; 1708204729; 2545590714; 2229949006; 1988219213;
   680717673; 3673779818; 3383336350; 1002577565; 4010310262; 493091189; 238226049; 4233660802;
   2987750089; 1082061258; 1395524158; 2705686845; 1972364758; 2279892693; 2494862625; 1725896226;
   952904198; 3399985413; 3656866545; 731699698; 4283874585; 222117402; 510512622; 3959836397;
   3280807620; 837199303; 582374963; 3504198960; 68661723; 4135334616; 3844915500; 390545967;
   1230274059; 3141532936; 2825850620; 1510247935; 2395924756; 2091215383; 1878366691; 2644384480;
   3553878443; 565732008; 854102364; 3229815391; 340358836; 3861050807; 4117890627; 119113024;
   1493875044; 2875275879; 3090270611; 1247431312; 2660249211; 1828433272; 2141937292; 2378227087;
   3811616794; 291187481; 34330861; 4032846830; 615137029; 3603020806; 3314634738; 939183345;
   1776939221; 2609017814; 2295496738; 2058945313; 2926798794; 1545135305; 1330124605; 3173225534;
   4084100981; 17165430; 307568514; 3762199681; 888469610; 3332340585; 3587147933; 665062302;
   2042050490; 2346497209; 2559330125; 1793573966; 3190661285; 1279665062; 1595330642; 2910671697].

(** One round of the loop; the index is below 256. *)
Definition crc_step (crc : Z) (byte : Z) : option Z :=
  t ← crc32c_table !! Z.to_nat (Z.land (Z.lxor crc byte) 255);
  Some (Z.lxor t (Z.shiftr crc 8)).

Fixpoint crc_loop (crc : Z) (buf : list Z) : option Z :=
  match buf with
  | [] => Some crc
  | byte :: buf => crc ← crc_step crc byte; crc_loop crc buf
  end.

Definition tst_crc32c (buf : list Z) : option Z :=
  crc ← crc_loop 4294967295 buf;
  Some (wrapu 32 (Z.lnot crc)).

(** ** The reference: division of polynomials, one bit at a time

    Bits are in reflected order; the polynomial is 0x82f63b78. *)
Definition poly : Z := 2197175160.
Definition bit_step (c : Z) : Z := Z.lxor (Z.shiftr c 1) (if Z.testbit c 0 then poly else 0).
Fixpoint bit_steps (n : nat) (c : Z) : Z := match n with O => c | S n => bit_steps n (bit_step c) end.
Definition byte_step (c byte : Z) : Z := bit_steps 8 (Z.lxor c byte).
Definition crc32c (buf : list Z) : Z := Z.lxor (fold_left byte_step buf (2 ^ 32 - 1)) (2 ^ 32 - 1).

Lemma u32_testbit x : 0 ≤ x < 2 ^ 32 ↔ 0 ≤ x ∧ ∀ i, 32 ≤ i → Z.testbit x i = false.
Proof.
  split.
  - intros Hx. split; [lia|]. intros i Hi. rewrite <- (Z.mod_small x (2 ^ 32)) by done. apply Z.mod_pow2_bits_high. lia.
  - intros [H0 H]. split; [done|]. destruct (Z.ltb_spec x (2 ^ 32)) as [|Hge]; [done|].
    assert (32 ≤ Z.log2 x) as L by (apply Z.log2_le_pow2; lia). specialize (H _ L). rewrite Z.bit_log2 in H; [done|lia].
Qed.

Lemma u32_lxor x y : 0 ≤ x < 2 ^ 32 → 0 ≤ y < 2 ^ 32 → 0 ≤ Z.lxor x y < 2 ^ 32.
Proof.
  rewrite !u32_testbit. intros [Hx Hxi] [Hy Hyi]. split; [by apply Z.lxor_nonneg|].
  intros i Hi. by rewrite Z.lxor_spec, Hxi, Hyi.
Qed.

Lemma u32_shiftr x n : 0 ≤ n → 0 ≤ x < 2 ^ 32 → 0 ≤ Z.shiftr x n < 2 ^ 32.
Proof.
  intros Hn. rewrite !u32_testbit. intros [Hx Hxi]. split; [by apply Z.shiftr_nonneg|].
  intros i Hi. rewrite Z.shiftr_spec by lia. apply Hxi. lia.
Qed.

Lemma u32_if (b : bool) : 0 ≤ (if b then poly else 0) < 2 ^ 32.
Proof. destruct b; unfold poly; lia. Qed.

Create HintDb crc.
#[export] Hint Resolve u32_lxor u32_shiftr u32_if : crc.

Lemma u32_bit_step c : 0 ≤ c < 2 ^ 32 → 0 ≤ bit_step c < 2 ^ 32.
Proof. intros Hc. unfold bit_step. auto with crc lia. Qed.

Lemma u32_bit_steps n c : 0 ≤ c < 2 ^ 32 → 0 ≤ bit_steps n c < 2 ^ 32.
Proof. revert c. induction n as [|n IH]; intros c Hc; [done|]. by apply IH, u32_bit_step. Qed.

(** A step is linear. *)
Lemma bit_step_lxor x y : bit_step (Z.lxor x y) = Z.lxor (bit_step x) (bit_step y).
Proof.
  unfold bit_step. rewrite Z.lxor_spec. apply Z.bits_inj'. intros i Hi. rewrite !Z.lxor_spec, !Z.shiftr_spec by done.
  rewrite Z.lxor_spec. destruct (Z.testbit x 0), (Z.testbit y 0); simpl; rewrite ?Z.bits_0;
    destruct (Z.testbit x (i + 1)), (Z.testbit y (i + 1)), (Z.testbit poly i); done.
Qed.

Lemma bit_steps_lxor n x y : bit_steps n (Z.lxor x y) = Z.lxor (bit_steps n x) (bit_steps n y).
Proof. revert x y. induction n as [|n IH]; intros x y; [done|]. cbn [bit_steps]. by rewrite bit_step_lxor, IH. Qed.

(** Steps that only shift out zeros. *)
Lemma bit_steps_shift n x : bit_steps n (Z.shiftl x (Z.of_nat n)) = x.
Proof.
  induction n as [|n IH]; [apply Z.shiftl_0_r|]. cbn [bit_steps]. rewrite <- IH at 2. f_equal.
  unfold bit_step. rewrite Z.shiftl_spec_low by lia. rewrite Z.lxor_0_r, Z.shiftr_shiftl_l by lia. f_equal. lia.
Qed.

(** A step can be undone. *)

Lemma lxor_cancel x a b : Z.lxor x a = Z.lxor x b → a = b.
Proof. intros H. rewrite <- (Z.lxor_0_l a), <- (Z.lxor_0_l b), <- (Z.lxor_nilpotent x), !Z.lxor_assoc. by rewrite H. Qed.

Lemma bit_step_inj x y : 0 ≤ x < 2 ^ 32 → 0 ≤ y < 2 ^ 32 → bit_step x = bit_step y → x = y.
Proof.
  intros Hx Hy E.
  assert (∀ z, 0 ≤ z < 2 ^ 32 → Z.testbit (bit_step z) 31 = Z.testbit z 0) as H31.
  { intros z Hz. unfold bit_step. rewrite Z.lxor_spec, Z.shiftr_spec by lia. apply u32_testbit in Hz as [_ Hz].
    rewrite Hz by lia. by destruct (Z.testbit z 0). }
  assert (Z.testbit x 0 = Z.testbit y 0) as E0 by (rewrite <- !H31 by done; by rewrite E).
  unfold bit_step in E. rewrite E0, !(Z.lxor_comm (Z.shiftr _ _)) in E. apply lxor_cancel in E.
  apply Z.bits_inj'. intros i Hi. destruct (decide (i = 0)) as [->|]; [done|].
  replace i with (i - 1 + 1) by lia. rewrite <- !Z.shiftr_spec by lia. by rewrite E.
Qed.

(** The table holds the remainders of the bytes. *)
Definition table_ok (i : Z) : bool :=
  match crc32c_table !! Z.to_nat i with Some t => t =? bit_steps 8 i | None => false end.

Lemma table_spec i : 0 ≤ i < 256 → crc32c_table !! Z.to_nat i = Some (bit_steps 8 i).
Proof.
  intros Hi. assert (table_ok i = true) as H by (apply (range_forall table_ok 256); [vm_compute; reflexivity|done]).
  unfold table_ok in H. destruct (crc32c_table !! Z.to_nat i); [|done]. by apply Z.eqb_eq in H as ->.
Qed.

Lemma byte_step_eq c byte : byte_step c byte = bit_steps 8 (Z.lxor c byte).
Proof. done. Qed.

(** Unfolding steps on symbolic values is never useful. *)
#[local] Opaque bit_step byte_step.

Lemma crc_step_spec c byte : 0 ≤ byte < 256 → crc_step c byte = Some (byte_step c byte).
Proof.
  intros Hb. unfold crc_step. rewrite byte_step_eq. set (x := Z.lxor c byte).
  assert (0 ≤ Z.land x 255 < 256) as Hl by (change 255 with (2 ^ 8 - 1); rewrite land_low by lia; apply Z.mod_pos_bound; lia).
  rewrite table_spec by done. bind_step. f_equal.
  assert (x = Z.lxor (Z.land x 255) (Z.shiftl (Z.shiftr c 8) (Z.of_nat 8))) as E.
  { apply Z.bits_inj'. intros i Hi. unfold x. change 255 with (Z.ones 8).
    rewrite !Z.lxor_spec, Z.land_spec, Z.lxor_spec, Z.testbit_ones_nonneg by lia.
    destruct (Z.ltb_spec i 8) as [L|L].
    - rewrite Z.shiftl_spec_low by lia. by rewrite andb_true_r, xorb_false_r.
    - rewrite Z.shiftl_spec, Z.shiftr_spec by lia. rewrite andb_false_r, xorb_false_l. replace (i - Z.of_nat 8 + 8) with i by lia.
      rewrite <- (Z.mod_small byte (2 ^ 8)) by done. rewrite Z.mod_pow2_bits_high by lia. by rewrite xorb_false_r. }
  rewrite E at 2. by rewrite bit_steps_lxor, bit_steps_shift.
Qed.

(** [fold_left] one step further, without unfolding the step. *)
Lemma fold_step {A B} (f : A → B → A) x l c : fold_left f (x :: l) c = fold_left f l (f c x).
Proof. done. Qed.

Definition bytes (l : list Z) : Prop := Forall (λ b, 0 ≤ b < 256) l.

Lemma crc_loop_spec buf c : bytes buf → crc_loop c buf = Some (fold_left byte_step buf c).
Proof.
  intros Hb. revert c. induction Hb as [|x l Hx _ IH]; intros c; [done|]. cbn [crc_loop]. rewrite fold_step.
  rewrite crc_step_spec by done. bind_step. apply IH.
Qed.

Lemma u32_fold buf c : bytes buf → 0 ≤ c < 2 ^ 32 → 0 ≤ fold_left byte_step buf c < 2 ^ 32.
Proof.
  intros Hb. revert c. induction Hb as [|x l Hx _ IH]; intros c Hc; [done|]. rewrite fold_step.
  apply IH. rewrite byte_step_eq. apply u32_bit_steps, u32_lxor; [done|lia].
Qed.

Lemma lnot_u32 x : 0 ≤ x < 2 ^ 32 → wrapu 32 (Z.lnot x) = Z.lxor x (2 ^ 32 - 1).
Proof.
  intros Hx. apply Z.bits_inj'. intros i Hi. unfold wrapu. change (2 ^ 32 - 1) with (Z.ones 32). rewrite Z.lxor_spec, Z.testbit_ones_nonneg by lia.
  destruct (Z.ltb_spec i 32).
  - rewrite Z.mod_pow2_bits_low, Z.lnot_spec by lia. by rewrite xorb_true_r.
  - rewrite Z.mod_pow2_bits_high by lia. rewrite xorb_false_r. symmetry. by apply u32_testbit.
Qed.

Lemma bit_steps_inj n x y : 0 ≤ x < 2 ^ 32 → 0 ≤ y < 2 ^ 32 → bit_steps n x = bit_steps n y → x = y.
Proof.
  revert x y. induction n as [|n IH]; intros x y Hx Hy E; [done|]. cbn [bit_steps] in E.
  apply bit_step_inj; [done..|]. by apply IH; [apply u32_bit_step..|].
Qed.

Lemma fold_inj buf c d : bytes buf → 0 ≤ c < 2 ^ 32 → 0 ≤ d < 2 ^ 32 →
  fold_left byte_step buf c = fold_left byte_step buf d → c = d.
Proof.
  intros Hb. revert c d. induction Hb as [|x l Hx _ IH]; intros c d Hc Hd E; [done|]. rewrite !fold_step in E.
  assert (∀ z, 0 ≤ z < 2 ^ 32 → 0 ≤ Z.lxor z x < 2 ^ 32) as Hz by (intros z Hz; apply u32_lxor; [done|lia]).
  rewrite !byte_step_eq in E. apply IH in E; [|by apply u32_bit_steps, Hz..]. apply bit_steps_inj in E; [|by apply Hz..].
  rewrite !(Z.lxor_comm _ x) in E. by apply lxor_cancel in E.
Qed.

(** The bytes as one number, the first one lowest. *)
Fixpoint le (l : list Z) : Z := match l with [] => 0 | x :: l => Z.lxor x (Z.shiftl (le l) 8) end.

Lemma bit_steps_add n m c : bit_steps (n + m) c = bit_steps m (bit_steps n c).
Proof. revert c. induction n as [|n IH]; intros c; [done|]. apply IH. Qed.

Lemma fold_le l c : fold_left byte_step l c = bit_steps (8 * length l) (Z.lxor c (le l)).
Proof.
  revert c. induction l as [|x l IH]; intros c; [cbn; by rewrite Z.lxor_0_r|].
  cbn [le]. rewrite fold_step, IH, byte_step_eq. cbn [length]. replace (8 * S (length l))%nat with (8 + 8 * length l)%nat by lia.
  rewrite bit_steps_add, <- Z.lxor_assoc. f_equal.
  rewrite (bit_steps_lxor 8 (Z.lxor c x)). f_equal. symmetry. exact (bit_steps_shift 8 (le l)).
Qed.

Lemma le_spec l : bytes l → 0 ≤ le l < 2 ^ (8 * Z.of_nat (length l)).
Proof.
  induction 1 as [|x l Hx _ IH]; [cbn; lia|]. cbn [le length].
  assert (Z.lxor x (Z.shiftl (le l) 8) = le l * 2 ^ 8 + x) as ->.
  { rewrite Z.shiftl_mul_pow2, Z.lxor_comm, <- lor_add by lia. apply Z.lxor_lor.
    apply Z.bits_inj'. intros i Hi. rewrite Z.land_spec, Z.bits_0. destruct (Z.ltb_spec i 8).
    - by rewrite Z.mul_pow2_bits_low.
    - rewrite <- (Z.mod_small x (2 ^ 8)) by done. by rewrite Z.mod_pow2_bits_high, andb_false_r by lia. }
  rewrite Nat2Z.inj_succ. replace (8 * Z.succ (Z.of_nat (length l))) with (8 + 8 * Z.of_nat (length l)) by lia.
  rewrite Z.pow_add_r by lia. change (2 ^ 8) with 256. lia.
Qed.

Lemma le_inj l k : bytes l → bytes k → length l = length k → le l = le k → l = k.
Proof.
  intros Hl. revert k. induction Hl as [|x l Hx Hl IH]; intros [|y k] Hk Hlen E; try done.
  apply Forall_cons in Hk as [Hy Hk]. cbn [le] in E.
  assert (∀ x z, 0 ≤ x < 256 → Z.lxor x (Z.shiftl z 8) mod 2 ^ 8 = x) as Hlow.
  { intros a z Ha. apply Z.bits_inj'. intros i Hi. destruct (Z.ltb_spec i 8).
    - rewrite Z.mod_pow2_bits_low, Z.lxor_spec, Z.shiftl_spec_low by lia. by rewrite xorb_false_r.
    - rewrite Z.mod_pow2_bits_high by lia. rewrite <- (Z.mod_small a (2 ^ 8)) by done. by rewrite Z.mod_pow2_bits_high by lia. }
  assert (x = y) as -> by (rewrite <- (Hlow x (le l) Hx), <- (Hlow y (le k) Hy); by rewrite E).
  apply lxor_cancel in E. f_equal. apply IH; [done|by injection Hlen|].
  apply (f_equal (λ z, Z.shiftr z 8)) in E. rewrite !Z.shiftr_shiftl_l, !Z.shiftl_0_r in E by lia. done.
Qed.

(** C36. The table-driven checksum is the bitwise CRC-32C of the bytes, and two
    buffers that differ only within four neighbouring bytes never have the
    same checksum. *)
Theorem tst_crc32c_correct (a x y c : list Z) :
  bytes a → bytes x → bytes y → bytes c → length x = length y → (length x ≤ 4)%nat → x ≠ y →
  tst_crc32c (a ++ x ++ c) = Some (crc32c (a ++ x ++ c)) ∧
  tst_crc32c (a ++ x ++ c) ≠ tst_crc32c (a ++ y ++ c).
Proof.
  intros Ha Hx Hy Hc Hl H4 Hne.
  assert (∀ l, bytes l → tst_crc32c l = Some (crc32c l)) as Href.
  { intros l H. unfold tst_crc32c, crc32c. rewrite crc_loop_spec by done. bind_step. f_equal.
    apply lnot_u32, u32_fold; [done|lia]. }
  rewrite !Href by (by repeat apply Forall_app_2). split; [done|]. intros [= E].
  unfold crc32c in E. rewrite !(Z.lxor_comm _ (2 ^ 32 - 1)) in E. apply lxor_cancel in E. rewrite !fold_left_app in E.
  set (s := fold_left byte_step a (2 ^ 32 - 1)) in E. assert (0 ≤ s < 2 ^ 32) as Hs by (apply u32_fold; [done|lia]).
  apply fold_inj in E; [|done|by apply u32_fold..]. rewrite !fold_le, Hl in E.
  assert (∀ l, bytes l → (length l ≤ 4)%nat → 0 ≤ le l < 2 ^ 32) as Hle.
  { intros l Hb Hn. pose proof (le_spec l Hb). assert (2 ^ (8 * Z.of_nat (length l)) ≤ 2 ^ 32) by (apply Z.pow_le_mono_r; lia). lia. }
  apply bit_steps_inj in E; [|apply u32_lxor; [done|apply Hle; [done|lia]]..].
  apply lxor_cancel, le_inj in E; done.
Qed.

Lemma tst_crc32c_correct_witness :
  tst_crc32c (str "abc" ++ [1] ++ str "xyz") ≠ tst_crc32c (str "abc" ++ [2] ++ str "xyz").
Proof. apply tst_crc32c_correct; repeat constructor; done. Defined.
