(* ===== verification/DataPattern.v ===== *)
(** * Test data of the file system tests (testcases/kernel/fs/doio)

    pattern.c fills and checks buffers with a rotated, repeated pattern;
    databin.c and dataascii.c generate and check data that depends on the
    offset in a file.  A buffer is a list of bytes whose length is its size;
    copying outside a buffer, a negative size and a loop that does not end
    within its fuel are undefined ([None]). *)

From S2P Require Import Prelude.
Open Scope Z_scope.

Definition len (l : list Z) : Z := Z.of_nat (length l).

(** [n] bytes from [off] on. *)
Definition slice (l : list Z) (off n : Z) : option (list Z) :=
  if (0 <=? off) && (0 <=? n) && (off + n <=? len l) then Some (take (Z.to_nat n) (drop (Z.to_nat off) l)) else None.

(** [memcpy] of bytes to [off]. *)
Definition put (l : list Z) (off : Z) (s : list Z) : option (list Z) :=
  if (0 <=? off) && (off + len s <=? len l)
  then Some (take (Z.to_nat off) l ++ s ++ drop (Z.to_nat off + length s) l) else None.

(** ** pattern.c *)

(** [while (ncopied < buflen)]: the part that is filled is copied behind
    itself. *)
Fixpoint fill_loop (fuel : nat) (buf : list Z) (ncopied nleft : Z) : option (list Z) :=
  if ncopied <? len buf then
    match fuel with
    | O => None
    | S fuel =>
        let trans := if ncopied <? nleft then ncopied else nleft in
        s ← slice buf 0 trans;
        buf ← put buf ncopied s;
        fill_loop fuel buf (ncopied + trans) (nleft - trans)
    end
  else Some buf.

Definition norm_shift (patlen patshift : Z) : Z := if negb (patlen =? 0) then Z.rem patshift patlen else patshift.

Definition pattern_fill (fuel : nat) (buf pat : list Z) (patshift : Z) : option (Z * list Z) :=
  let patshift := norm_shift (len pat) patshift in
  let trans := len pat - patshift in
  if len buf <? trans then
    s ← slice pat patshift (len buf); buf ← put buf 0 s; Some (0, buf)
  else
    s ← slice pat patshift trans; buf ← put buf 0 s;
    let nleft := len buf - trans in
    if 0 <? patshift then
      if nleft <? patshift then
        s ← slice pat 0 nleft; buf ← put buf trans s; Some (0, buf)
      else
        s ← slice pat 0 patshift; buf ← put buf trans s;
        buf ← fill_loop fuel buf (trans + patshift) (nleft - patshift); Some (0, buf)
    else buf ← fill_loop fuel buf trans nleft; Some (0, buf).

(** [memcmp]: are the bytes equal? *)
Definition same (a : list Z) (aoff : Z) (b : list Z) (boff n : Z) : option bool :=
  x ← slice a aoff n; y ← slice b boff n; Some (bool_decide (x = y)).

Fixpoint check_loop (fuel : nat) (buf : list Z) (ncmp nleft : Z) : option Z :=
  if ncmp <? len buf then
    match fuel with
    | O => None
    | S fuel =>
        let nb := if ncmp <? nleft then ncmp else nleft in
        e ← same buf 0 buf ncmp nb;
        if (e : bool) then check_loop fuel buf (ncmp + nb) (nleft - nb) else Some (-1)
    end
  else Some 0.

Definition pattern_check (fuel : nat) (buf pat : list Z) (patshift : Z) : option Z :=
  let patshift := norm_shift (len pat) patshift in
  let nb := len pat - patshift in
  if len buf <? nb then
    e ← same buf 0 pat patshift (len buf); Some (if (e : bool) then 0 else -1)
  else
    e ← same buf 0 pat patshift nb;
    if negb e then Some (-1) else
    let nleft := len buf - nb in
    if 0 <? patshift then
      if nleft <? patshift then
        e ← same buf nb pat 0 nleft; Some (if (e : bool) then 0 else -1)
      else
        e ← same buf nb pat 0 patshift;
        if negb e then Some (-1) else check_loop fuel buf (nb + patshift) (nleft - patshift)
    else check_loop fuel buf nb nleft.

(** ** databin.c and dataascii.c *)

(** The byte of the counting pattern. *)
Definition count_byte (z : Z) : Z := Z.land (Z.rem z 8) 127.

(** The byte at file offset [z]; [rnd] are the results of [rand]. *)
Definition databin_byte (mode : Z) (rnd : Z → Z) (z : Z) : Z :=
  if mode =? "c"%cc then 240
  else if mode =? "C"%cc then count_byte z
  else if mode =? "o"%cc then 255
  else if mode =? "z"%cc then 0
  else if mode =? "r"%cc then Z.lor (Z.land (rnd z) 127) 64
  else 85.

Definition databingen (mode : Z) (rnd : Z → Z) (bsize : nat) (offset : Z) : list Z :=
  (λ ind, databin_byte mode rnd (offset + Z.of_nat ind)) <$> seq 0 bsize.

(** The first place from [off] on where the buffer is not as expected; a
    byte is compared after the conversion [conv]. *)
Fixpoint chk_loop (conv : Z → Z) (exp : Z → Z) (buf : list Z) (off : Z) : Z :=
  match buf with
  | [] => -1
  | x :: buf => if conv x =? exp off then chk_loop conv exp buf (off + 1) else off
  end.

Definition databinchk (char_signed : bool) (mode : Z) (buffer : list Z) (offset : Z) : Z :=
  if mode =? "r"%cc then -1
  else if mode =? "C"%cc then chk_loop (char_val char_signed) count_byte buffer offset
  else chk_loop id (databin_byte mode (λ _, 0)) buffer offset.

(** [CHARS] with its terminator, which counts as one of the characters. *)
Definition CHARS : list Z := str "ABCDEFGHIJKLMNOPQRSTUVWXYZabcdefghjiklmnopqrstuvwxyz" ++ [10].

(** The list that is used and its size. *)
Definition charlist (listofchars : option (list Z)) : list Z :=
  match listofchars with None => CHARS ++ [0] | Some l => l end.

(** [None] for a division by zero or an index that is negative. *)
Definition ascii_byte (chars : list Z) (cnt : Z) : option Z :=
  if len chars =? 0 then None else
  let ind := Z.rem cnt (len chars) in
  if ind <? 0 then None else chars !! Z.to_nat ind.

Definition dataasciigen (listofchars : option (list Z)) (bsize : nat) (offset : Z) : option (list Z) :=
  mapM (λ k, ascii_byte (charlist listofchars) (offset + Z.of_nat k)) (seq 0 bsize).

Fixpoint ascii_chk_loop (chars buf : list Z) (cnt : Z) : option Z :=
  match buf with
  | [] => Some (-1)
  | x :: buf => c ← ascii_byte chars cnt; if x =? c then ascii_chk_loop chars buf (cnt + 1) else Some cnt
  end.

Definition dataasciichk (listofchars : option (list Z)) (buffer : list Z) (offset : Z) : option Z :=
  ascii_chk_loop (charlist listofchars) buffer offset.

(** ** The pattern that is meant *)

Section Pattern.
Context (pat : list Z) (shift : Z).
Context (Hp : 0 < len pat) (Hs : 0 ≤ shift).

(** The byte at a position, and the bytes from [i] on. *)
Definition pbyte (i : Z) : Z := default 0 (pat !! Z.to_nat ((i + shift) mod len pat)).
Definition pbytes (i n : Z) : list Z := pbyte <$> seqZ i n.

Lemma pbytes_length i n : length (pbytes i n) = Z.to_nat n.
Proof. unfold pbytes. by rewrite length_fmap, length_seqZ. Qed.

Lemma len_pbytes i n : 0 ≤ n → len (pbytes i n) = n.
Proof. intros. unfold len. rewrite pbytes_length. lia. Qed.

Lemma pbytes_app i n m : 0 ≤ n → 0 ≤ m → pbytes i (n + m) = pbytes i n ++ pbytes (i + n) m.
Proof. intros. unfold pbytes. by rewrite seqZ_app, fmap_app. Qed.

Lemma pbytes_period i n k : pbytes (i + k * len pat) n = pbytes i n.
Proof.
  unfold pbytes. apply list_eq. intros j. rewrite !list_lookup_fmap.
  destruct (decide (Z.of_nat j < n)) as [Hj|Hj].
  - rewrite !lookup_seqZ_lt by lia. simpl. f_equal. unfold pbyte. do 3 f_equal.
    replace (i + k * len pat + Z.of_nat j + shift) with (i + Z.of_nat j + shift + k * len pat) by lia. by rewrite Z.mod_add by lia.
  - by rewrite !lookup_seqZ_ge by lia.
Qed.

Lemma norm_shift_mod : norm_shift (len pat) shift = shift mod len pat.
Proof. unfold norm_shift. rewrite (proj2 (Z.eqb_neq _ _)) by lia. cbn [negb]. apply Z.rem_mod_nonneg; lia. Qed.

(** A part of the pattern that does not wrap around. *)
Lemma slice_pat off n i :
  0 ≤ off → 0 ≤ n → off + n ≤ len pat → (i + shift) mod len pat = off → slice pat off n = Some (pbytes i n).
Proof.
  intros Ho Hn Hb Hi. unfold slice. repeat zcase. cbn [andb]. f_equal. apply list_eq. intros j.
  unfold pbytes. rewrite list_lookup_fmap. destruct (decide (Z.of_nat j < n)) as [Hj|Hj].
  - rewrite lookup_take_lt, lookup_drop, lookup_seqZ_lt by lia. simpl. unfold pbyte.
    assert ((i + Z.of_nat j + shift) mod len pat = off + Z.of_nat j) as ->.
    { replace (i + Z.of_nat j + shift) with (i + shift + Z.of_nat j) by lia. rewrite Z.add_mod, Hi by lia.
      rewrite (Z.mod_small (Z.of_nat j)), Z.mod_small by lia. done. }
    replace (Z.to_nat (off + Z.of_nat j)) with (Z.to_nat off + j)%nat by lia.
    destruct (lookup_lt_is_Some_2 pat (Z.to_nat off + j)%nat) as [x ->]; [unfold len in *; lia|done].
  - rewrite lookup_take_ge, lookup_seqZ_ge by lia. done.
Qed.

Lemma put_app l a s r : l = a ++ r → (length s ≤ length r)%nat → put l (len a) s = Some (a ++ s ++ drop (length s) r).
Proof.
  intros -> Hl. unfold put, len. rewrite length_app. repeat zcase. cbn [andb]. rewrite Nat2Z.id.
  rewrite take_app_length, drop_app_add'; done.
Qed.

(** A buffer whose first [n] bytes are the pattern. *)
Definition filled (buf : list Z) (n : Z) : Prop := 0 ≤ n ≤ len buf ∧ take (Z.to_nat n) buf = pbytes 0 n.

Lemma put_filled buf n m :
  filled buf n → 0 ≤ m → n + m ≤ len buf →
  ∃ buf', put buf n (pbytes n m) = Some buf' ∧ filled buf' (n + m) ∧ length buf' = length buf.
Proof.
  intros [Hn Ht] Hm Hnm. pose proof (take_drop (Z.to_nat n) buf) as E. rewrite Ht in E.
  pose proof (put_app buf (pbytes 0 n) (pbytes n m) (drop (Z.to_nat n) buf) (eq_sym E)) as Hput.
  rewrite len_pbytes in Hput by lia. eexists.
  split; [apply Hput; rewrite pbytes_length, length_drop; unfold len in *; lia|].
  assert (length (pbytes 0 n ++ pbytes n m ++ drop (length (pbytes n m)) (drop (Z.to_nat n) buf)) = length buf) as El.
  { rewrite !length_app, !length_drop, !pbytes_length. unfold len in *. lia. }
  split; [|done]. split; [unfold len in *; rewrite El; lia|].
  rewrite pbytes_app, (assoc_L (++)) by lia. rewrite take_app_length'; [done|].
  rewrite length_app, !pbytes_length. lia.
Qed.

Lemma filled_slice buf n m : filled buf n → 0 ≤ m ≤ n → slice buf 0 m = Some (pbytes 0 m).
Proof.
  intros [Hn Ht] Hm. unfold slice. repeat zcase. cbn [andb]. f_equal. rewrite drop_0.
  replace (Z.to_nat m) with (Z.to_nat m `min` Z.to_nat n)%nat by lia. rewrite <- take_take, Ht.
  replace n with (m + (n - m)) by lia. rewrite pbytes_app by lia. apply take_app_length'. rewrite pbytes_length. lia.
Qed.

Lemma filled_all buf : filled buf (len buf) → buf = pbytes 0 (len buf).
Proof. intros [_ Ht]. by rewrite take_ge in Ht by (unfold len; lia). Qed.

Lemma fill_loop_spec fuel buf k :
  filled buf (k * len pat) → 0 < k → (Z.to_nat (len buf - k * len pat) ≤ fuel)%nat →
  fill_loop fuel buf (k * len pat) (len buf - k * len pat) = Some (pbytes 0 (len buf)).
Proof.
  revert buf k. induction fuel as [|fuel IH]; intros buf k Hf Hk Hfu; pose proof Hf as [Hn Ht]; cbn [fill_loop].
  all: destruct (Z.ltb_spec (k * len pat) (len buf)) as [Hlt|Hge].
  - lia.
  - f_equal. apply filled_all. by replace (len buf) with (k * len pat) by lia.
  - set (n := k * len pat) in *. set (nleft := len buf - n) in *.
    destruct (Z.ltb_spec n nleft) as [Hd|Hd].
    + rewrite (filled_slice buf n n) by (done || lia). bind_step.
      rewrite <- (pbytes_period 0 n k). fold n. rewrite Z.add_0_l.
      destruct (put_filled buf n n Hf) as (buf' & -> & Hf' & El); [lia|lia|]. bind_step.
      assert (len buf' = len buf) as El' by (unfold len; by rewrite El).
      replace (n + n) with ((2 * k) * len pat) in * by (unfold n; lia).
      replace (nleft - n) with (len buf' - 2 * k * len pat) by (unfold nleft, n; lia).
      rewrite IH; [by rewrite El'|done|lia|unfold n, nleft in *; lia].
    + rewrite (filled_slice buf n nleft) by (done || lia). bind_step.
      rewrite <- (pbytes_period 0 nleft k). fold n. rewrite Z.add_0_l.
      destruct (put_filled buf n nleft Hf) as (buf' & -> & Hf' & El); [lia|lia|]. bind_step.
      replace (n + nleft) with (len buf) in * by (unfold nleft; lia).
      destruct Hf' as [_ Ht']. rewrite take_ge in Ht' by (unfold len; lia). subst buf'.
      destruct fuel; cbn [fill_loop]; rewrite len_pbytes by lia; by rewrite Z.ltb_irrefl.
  - f_equal. apply filled_all. by replace (len buf) with (k * len pat) by lia.
Qed.

Lemma filled_0 buf : filled buf 0.
Proof. split; [unfold len; lia|done]. Qed.

Lemma filled_mono buf n m : filled buf n → 0 ≤ m ≤ n → filled buf m.
Proof.
  intros Hf Hm. pose proof Hf as [Hn _]. split; [lia|]. pose proof (filled_slice buf n m Hf Hm) as E.
  unfold slice in E. rewrite drop_0 in E. revert E. repeat zcase. by intros [= ->].
Qed.

Lemma shift_bounds : 0 ≤ shift mod len pat < len pat.
Proof. apply Z.mod_pos_bound. lia. Qed.

(** The two parts of the pattern before it repeats. *)
Lemma first_part n : 0 ≤ n ≤ len pat - shift mod len pat → slice pat (shift mod len pat) n = Some (pbytes 0 n).
Proof. intros Hn. pose proof shift_bounds. apply slice_pat; [lia..|]. by rewrite Z.add_0_l. Qed.

Lemma second_part n : 0 ≤ n ≤ shift mod len pat → slice pat 0 n = Some (pbytes (len pat - shift mod len pat) n).
Proof.
  intros Hn. pose proof shift_bounds. apply slice_pat; [lia..|].
  replace (len pat - shift mod len pat + shift) with (0 + (shift / len pat + 1) * len pat); [by rewrite Z.mod_add by lia|].
  rewrite (Z.div_mod shift (len pat)) at 3 by lia. lia.
Qed.

Lemma pattern_fill_spec buf : pattern_fill (length buf) buf pat shift = Some (0, pbytes 0 (len buf)).
Proof.
  pose proof shift_bounds as Hb. unfold pattern_fill. rewrite norm_shift_mod.
  assert (∀ buf', filled buf' (len buf) → length buf' = length buf → buf' = pbytes 0 (len buf)) as Hall.
  { intros b Hf El. replace (len buf) with (len b) in * by (unfold len; by rewrite El). by apply filled_all. }
  set (s := shift mod len pat) in *. destruct (Z.ltb_spec (len buf) (len pat - s)) as [Hsh|Hsh].
  { rewrite first_part by (unfold len in *; lia). bind_step.
    destruct (put_filled buf 0 (len buf) (filled_0 buf)) as (b & -> & Hf & El); [unfold len; lia|lia|]. bind_step.
    by rewrite (Hall b). }
  rewrite first_part by lia. bind_step.
  destruct (put_filled buf 0 (len pat - s) (filled_0 buf)) as (b & -> & Hf & El); [lia..|]. bind_step.
  rewrite Z.add_0_l in Hf. assert (len b = len buf) as El' by (unfold len; by rewrite El). rewrite El'.
  destruct (Z.ltb_spec 0 s) as [Hs0|Hs0].
  - destruct (Z.ltb_spec (len buf - (len pat - s)) s) as [Hn|Hn].
    + rewrite second_part by lia. fold s. bind_step.
      destruct (put_filled b (len pat - s) (len buf - (len pat - s)) Hf) as (b' & -> & Hf' & E2); [lia..|]. bind_step.
      rewrite (Hall b'); [done|by replace (len buf) with (len pat - s + (len buf - (len pat - s))) by lia|congruence].
    + rewrite second_part by lia. fold s. bind_step.
      destruct (put_filled b (len pat - s) s Hf) as (b' & -> & Hf' & E2); [lia..|]. bind_step.
      assert (len b' = len buf) as El2 by (unfold len; congruence).
      pose proof (fill_loop_spec (length buf) b' 1) as Hl. rewrite El2, Z.mul_1_l in Hl.
      replace (len pat - s + s) with (len pat) in * by lia.
      replace (len buf - (len pat - s) - s) with (len buf - len pat) by lia.
      rewrite Hl; [done|done|lia|unfold len in *; lia].
  - assert (s = 0) as Hs00 by lia. rewrite Hs00, Z.sub_0_r in *.
    pose proof (fill_loop_spec (length buf) b 1) as Hl. rewrite El', Z.mul_1_l in Hl.
    rewrite Hl; [done|done|lia|unfold len in *; lia].
Qed.

(** Comparing the next part. *)
Lemma next_part buf n m :
  filled buf n → 0 ≤ m → n + m ≤ len buf →
  ∃ x, slice buf n m = Some x ∧ (x = pbytes n m ↔ filled buf (n + m)).
Proof.
  intros [Hn Ht] Hm Hnm. unfold slice. repeat zcase. cbn [andb]. eexists. split; [done|].
  unfold filled. rewrite Z2Nat.inj_add, <- take_take_drop, Ht, pbytes_app, Z.add_0_l by lia.
  split; [intros ->; split; [lia|done]|]. intros [_ E]. by apply app_inv_head in E.
Qed.

Lemma same_part buf n m x off :
  filled buf n → 0 ≤ m → n + m ≤ len buf → slice x off m = Some (pbytes n m) →
  ∃ e, same buf n x off m = Some e ∧ same x off buf n m = Some e ∧ (e = true ↔ filled buf (n + m)).
Proof.
  intros Hf Hm Hnm Hx. destruct (next_part buf n m Hf Hm Hnm) as (y & Ey & Hy).
  exists (bool_decide (y = pbytes n m)). unfold same. rewrite Hx, Ey. cbn.
  split_and!; [done|by f_equal; apply bool_decide_ext|by rewrite bool_decide_eq_true].
Qed.

(** The result says whether all of the buffer is right. *)
Definition verdict (buf : list Z) (r : Z) : Prop := (r = 0 ∧ buf = pbytes 0 (len buf)) ∨ (r = -1 ∧ buf ≠ pbytes 0 (len buf)).

Lemma filled_iff buf : filled buf (len buf) ↔ buf = pbytes 0 (len buf).
Proof.
  split; [apply filled_all|]. intros E. split; [unfold len; lia|]. rewrite take_ge by (unfold len; lia). done.
Qed.

Lemma verdict_end buf (e : bool) : (e = true ↔ filled buf (len buf)) → verdict buf (if e then 0 else -1).
Proof. rewrite filled_iff. unfold verdict. destruct e; intuition congruence. Qed.

Lemma verdict_bad buf n : ¬ filled buf n → 0 ≤ n ≤ len buf → verdict buf (-1).
Proof. intros Hf Hn. right. split; [done|]. rewrite <- filled_iff. intros H. by apply Hf, (filled_mono buf (len buf)). Qed.

Lemma check_loop_spec fuel buf k :
  filled buf (k * len pat) → 0 < k → (Z.to_nat (len buf - k * len pat) ≤ fuel)%nat →
  ∃ r, check_loop fuel buf (k * len pat) (len buf - k * len pat) = Some r ∧ verdict buf r.
Proof.
  revert k. induction fuel as [|fuel IH]; intros k Hf Hk Hfu; pose proof Hf as [Hn Ht]; cbn [check_loop].
  all: destruct (Z.ltb_spec (k * len pat) (len buf)) as [Hlt|Hge].
  1: lia.
  1, 3: exists 0; split; [done|]; left; split; [done|]; apply filled_all; by replace (len buf) with (k * len pat) by lia.
  set (n := k * len pat) in *. set (nb := if n <? len buf - n then n else len buf - n).
  assert (0 ≤ nb ≤ n ∧ n + nb ≤ len buf) as [Hnb Hnb2] by (unfold nb; zcase).
  destruct (same_part buf n nb buf 0) as (e & _ & -> & He); [done|lia|lia| |].
  { rewrite (filled_slice buf n nb) by done. f_equal. by rewrite <- (pbytes_period 0 nb k). }
  bind_step. destruct e; [|exists (-1); split; [done|]; apply (verdict_bad buf (n + nb)); [intros H%He; done|lia]].
  assert (filled buf (n + nb)) as Hf2 by tauto. unfold nb in *. destruct (Z.ltb_spec n (len buf - n)).
  - replace (n + n) with ((2 * k) * len pat) in * by (unfold n; lia).
    replace (len buf - n - n) with (len buf - 2 * k * len pat) by (unfold n; lia). apply IH; [done|lia|unfold n in *; lia].
  - replace (n + (len buf - n)) with (len buf) in * by lia. exists 0.
    split; [by destruct fuel; cbn [check_loop]; rewrite Z.ltb_irrefl|]. left. split; [done|]. by apply filled_all.
Qed.

Lemma pattern_check_spec buf : ∃ r, pattern_check (length buf) buf pat shift = Some r ∧ verdict buf r.
Proof.
  pose proof shift_bounds as Hb. unfold pattern_check. rewrite norm_shift_mod. set (s := shift mod len pat) in *.
  destruct (Z.ltb_spec (len buf) (len pat - s)) as [Hsh|Hsh].
  { destruct (same_part buf 0 (len buf) pat s (filled_0 buf)) as (e & -> & _ & He);
      [unfold len; lia|lia|apply first_part; unfold len in *; lia|]. bind_step.
    eexists. split; [done|]. by apply verdict_end. }
  destruct (same_part buf 0 (len pat - s) pat s (filled_0 buf)) as (e & -> & _ & He); [lia|lia|apply first_part; lia|].
  bind_step. rewrite Z.add_0_l in He. destruct e; cbn [negb].
  2:{ exists (-1). split; [done|]. apply (verdict_bad buf (len pat - s)); [intros H%He; done|lia]. }
  assert (filled buf (len pat - s)) as Hf by tauto.
  destruct (Z.ltb_spec 0 s) as [Hs0|Hs0].
  - destruct (Z.ltb_spec (len buf - (len pat - s)) s) as [Hn|Hn].
    + destruct (same_part buf (len pat - s) (len buf - (len pat - s)) pat 0 Hf) as (e & -> & _ & He2);
        [lia|lia|apply second_part; lia|]. bind_step. eexists. split; [done|]. apply verdict_end.
      by replace (len buf) with (len pat - s + (len buf - (len pat - s))) by lia.
    + destruct (same_part buf (len pat - s) s pat 0 Hf) as (e & -> & _ & He2); [lia|lia|apply second_part; lia|]. bind_step.
      replace (len pat - s + s) with (len pat) in * by lia. destruct e; cbn [negb].
      2:{ exists (-1). split; [done|]. apply (verdict_bad buf (len pat)); [intros H%He2; done|lia]. }
      pose proof (check_loop_spec (length buf) buf 1) as Hl. rewrite Z.mul_1_l in Hl.
      replace (len buf - (len pat - s) - s) with (len buf - len pat) by lia. apply Hl; [tauto|lia|unfold len in *; lia].
  - assert (s = 0) as Hs00 by lia. rewrite Hs00, Z.sub_0_r in *.
    pose proof (check_loop_spec (length buf) buf 1) as Hl. rewrite Z.mul_1_l in Hl. apply Hl; [done|lia|unfold len in *; lia].
Qed.
End Pattern.

(** Filling and checking agree with the definition of the pattern: byte
    [i] of a filled buffer is byte [(i + patshift) mod patlen] of the pattern,
    whatever the buffer held; a check returns 0 exactly on such a buffer and
    -1 on all others. *)
Theorem pattern_correct (buf pat : list Z) (patshift : Z) :
  pat ≠ [] → 0 ≤ patshift →
  let expected := (λ i, default 0 (pat !! Z.to_nat ((i + patshift) mod len pat))) <$> seqZ 0 (len buf) in
  pattern_fill (length buf) buf pat patshift = Some (0, expected) ∧
  pattern_check (length buf) buf pat patshift = Some (if decide (buf = expected) then 0 else -1).
Proof.
  intros Hp Hs. assert (0 < len pat) as Hl by (destruct pat; [done|unfold len; simpl; lia]). cbn zeta. split.
  - by apply pattern_fill_spec.
  - destruct (pattern_check_spec pat patshift Hl Hs buf) as (r & -> & [[-> E]|[-> E]]).
    + by rewrite decide_True.
    + by rewrite decide_False.
Qed.

Lemma pattern_correct_witness :
  pattern_fill 10 (replicate 10 0) (str "abc") 1 = Some (0, str "bcabcabcab") ∧
  pattern_check 10 (str "bcabcabcab") (str "abc") 1 = Some 0.
Proof.
  split.
  - refine (proj1 (pattern_correct (replicate 10 0) (str "abc") 1 _ _)); [done|lia].
  - refine (proj2 (pattern_correct (str "bcabcabcab") (str "abc") 1 _ _)); [done|lia].
Defined.

(** ** Data that depends on the offset *)

Lemma chk_loop_spec conv exp buf off :
  0 ≤ off →
  (chk_loop conv exp buf off = -1 ∧ ∀ k x, buf !! k = Some x → conv x = exp (off + Z.of_nat k)) ∨
  (∃ k x, chk_loop conv exp buf off = off + Z.of_nat k ∧ buf !! k = Some x ∧ conv x ≠ exp (off + Z.of_nat k) ∧
     ∀ j y, (j < k)%nat → buf !! j = Some y → conv y = exp (off + Z.of_nat j)).
Proof.
  revert off. induction buf as [|x buf IH]; intros off Ho; cbn [chk_loop]; [by left|].
  destruct (Z.eqb_spec (conv x) (exp off)) as [E|E].
  - assert (∀ j, off + 1 + Z.of_nat j = off + Z.of_nat (S j)) as Ej by lia.
    destruct (IH (off + 1)) as [[-> H]|(k & y & -> & H1 & H2 & H3)]; [lia|left|right].
    + split; [done|]. intros [|k] y; simpl; [intros [= ->]; by rewrite Z.add_0_r|]. intros Hk. rewrite <- Ej. by apply H.
    + exists (S k), y. rewrite <- Ej. split_and!; [done..|].
      intros [|j] z Hj; simpl; [intros [= ->]; by rewrite Z.add_0_r|]. intros Hz. rewrite <- Ej. apply H3; [lia|done].
  - right. exists 0%nat, x. rewrite Z.add_0_r. split_and!; [done..|]. intros j y Hj. lia.
Qed.

Lemma ascii_byte_total chars cnt : chars ≠ [] → 0 ≤ cnt → ∃ c, ascii_byte chars cnt = Some c ∧ chars !! Z.to_nat (cnt mod len chars) = Some c.
Proof.
  intros Hc Hn. assert (0 < len chars) as Hl by (destruct chars; [done|unfold len; simpl; lia]).
  unfold ascii_byte. rewrite (proj2 (Z.eqb_neq _ _)) by lia. rewrite Z.rem_mod_nonneg by lia.
  pose proof (Z.mod_pos_bound cnt (len chars) Hl). rewrite (proj2 (Z.ltb_ge _ _)) by lia.
  destruct (lookup_lt_is_Some_2 chars (Z.to_nat (cnt mod len chars))) as [c E]; [unfold len in *; lia|]. by exists c.
Qed.

Lemma ascii_chk_spec chars buf off :
  chars ≠ [] → 0 ≤ off →
  ascii_chk_loop chars buf off = Some (chk_loop id (λ z, default 0 (chars !! Z.to_nat (z mod len chars))) buf off).
Proof.
  intros Hc. revert off. induction buf as [|x buf IH]; intros off Ho; [done|]. cbn [ascii_chk_loop chk_loop].
  destruct (ascii_byte_total chars off) as (c & -> & ->); [done..|]. bind_step. cbn.
  destruct (x =? c); [|done]. apply IH. lia.
Qed.

(** A buffer of expected bytes is accepted. *)
Lemma chk_loop_gen conv exp g n off :
  (∀ z, 0 ≤ z → conv (g z) = exp z) → 0 ≤ off → chk_loop conv exp ((λ k, g (off + Z.of_nat k)) <$> seq 0 n) off = -1.
Proof.
  intros Hg Ho. destruct (chk_loop_spec conv exp ((λ k, g (off + Z.of_nat k)) <$> seq 0 n) off Ho)
    as [[-> _]|(k & x & _ & Hk & Hne & _)]; [done|].
  rewrite list_lookup_fmap in Hk. destruct (seq 0 n !! k) as [j|] eqn:Ej; [|done].
  apply lookup_seq in Ej as [-> _]. injection Hk as <-. destruct Hne. apply Hg. lia.
Qed.

Lemma count_byte_range z : 0 ≤ count_byte z < 128.
Proof. unfold count_byte. change 127 with (2 ^ 7 - 1). rewrite land_low by lia. apply Z.mod_pos_bound. lia. Qed.

Lemma databin_accepts char_signed mode rnd n off :
  0 ≤ off → databinchk char_signed mode (databingen mode rnd n off) off = -1.
Proof.
  intros Ho. unfold databinchk, databingen. destruct (Z.eqb_spec mode ("r"%cc)) as [|Hr]; [done|].
  destruct (Z.eqb_spec mode ("C"%cc)) as [->|HC]; apply (chk_loop_gen _ _ (databin_byte _ rnd)); try done.
  - intros z Hz. change (databin_byte ("C"%cc) rnd z) with (count_byte z). pose proof (count_byte_range z).
    unfold char_val. destruct (Z.leb_spec 128 (count_byte z)); [lia|]. by rewrite andb_false_r.
  - intros z Hz. unfold databin_byte. by rewrite (proj2 (Z.eqb_neq _ _) Hr), (proj2 (Z.eqb_neq _ _) HC).
Qed.

Lemma mapM_total {A B} (f : A → option B) (g : A → B) l : (∀ x, f x = Some (g x)) → mapM f l = Some (g <$> l).
Proof. intros H. induction l as [|x l IH]; [done|]. simpl. rewrite H, IH. done. Qed.

Section Ascii.
Context (chars : list Z) (Hc : chars ≠ []).

Definition abyte (z : Z) : Z := default 0 (chars !! Z.to_nat (z mod len chars)).

Lemma ascii_byte_abyte z : 0 ≤ z → ascii_byte chars z = Some (abyte z).
Proof. intros Hz. destruct (ascii_byte_total chars z) as (c & -> & E); [done..|]. unfold abyte. by rewrite E. Qed.

Lemma ascii_gen n off :
  0 ≤ off → mapM (λ k, ascii_byte chars (off + Z.of_nat k)) (seq 0 n) = Some ((λ k, abyte (off + Z.of_nat k)) <$> seq 0 n).
Proof. intros Ho. apply mapM_total. intros k. apply ascii_byte_abyte. lia. Qed.

(** Bytes that are all right are the generated ones. *)
Lemma ascii_gen_eq n off buf :
  length buf = n → (∀ k x, buf !! k = Some x → x = abyte (off + Z.of_nat k)) →
  (λ k, abyte (off + Z.of_nat k)) <$> seq 0 n = buf.
Proof.
  intros <- H. apply list_eq. intros k. rewrite list_lookup_fmap. destruct (buf !! k) as [x|] eqn:E.
  - pose proof (lookup_lt_Some _ _ _ E). rewrite lookup_seq_lt by lia. simpl. by rewrite (H _ _ E).
  - apply lookup_ge_None in E. by rewrite lookup_seq_ge.
Qed.
End Ascii.

(** What the generators write the checkers accept, and a checker names the
    first byte that is not what the generator writes at its offset: for every
    binary mode (random data is always accepted), and for every list of
    characters, where byte [z] of a file is character [z] modulo the length. *)
Theorem doio_data_correct (char_signed : bool) (mode : Z) (rnd : Z → Z) (chars : option (list Z)) (n : nat) (buf : list Z) (off : Z) :
  0 ≤ off → chars ≠ Some [] →
  databinchk char_signed mode (databingen mode rnd n off) off = -1 ∧
  (∃ l, dataasciigen chars n off = Some l ∧ length l = n ∧ dataasciichk chars l off = Some (-1)) ∧
  (∃ r, dataasciichk chars buf off = Some r ∧
     (r = -1 ∧ dataasciigen chars (length buf) off = Some buf ∨
      ∃ k x, r = off + Z.of_nat k ∧ buf !! k = Some x ∧ ascii_byte (charlist chars) r ≠ Some x ∧
        dataasciigen chars k off = Some (take k buf))).
Proof.
  intros Ho Hc. split; [by apply databin_accepts|]. unfold dataasciigen, dataasciichk.
  assert (charlist chars ≠ []) as Hne by (destruct chars; [simpl; congruence|done]).
  set (cs := charlist chars) in *. split.
  - eexists. split; [by apply ascii_gen|]. rewrite length_fmap, length_seq. split; [done|].
    rewrite ascii_chk_spec by done. f_equal. by apply (chk_loop_gen id (abyte cs)).
  - rewrite ascii_chk_spec by done. fold (abyte cs). eexists. split; [done|].
    destruct (chk_loop_spec id (abyte cs) buf off Ho) as [[-> H]|(k & x & -> & Hk & Hx & H)]; [left|right].
    + split; [done|]. rewrite ascii_gen by done. f_equal. by apply ascii_gen_eq.
    + exists k, x. split_and!; [done|done|rewrite ascii_byte_abyte by (done || lia); intros [= E]; by apply Hx|].
      rewrite ascii_gen by done. f_equal. pose proof (lookup_lt_Some _ _ _ Hk).
      apply ascii_gen_eq; [rewrite length_take; lia|]. intros j y Hj. apply lookup_take_Some in Hj as [Hj1 Hj2]. exact (H j y Hj2 Hj1).
Qed.

Lemma doio_data_correct_witness :
  dataasciichk (Some (str "abc")) (str "bcab") 1 = Some (-1) ∧ databinchk true ("C"%cc) (databingen ("C"%cc) (λ _, 0) 20 5) 5 = -1.
Proof.
  destruct (doio_data_correct true ("C"%cc) (λ _, 0) (Some (str "abc")) 20 (str "bcab") 5) as (H & _ & _); [lia|done|].
  split; [reflexivity|exact H].
Defined.
