(* ===== verification/WriteLog.v ===== *)
(** * The write log of the file system tests (testcases/kernel/fs/doio/write_log.c, include/write_log.h)

    Tests log every write to a file in packed records of variable length,
    each followed by its length so that the log can be scanned backwards with
    a fixed buffer.  The log is a list of bytes; [read] and [write] are
    complete.  The layout of [struct wlog_rec_disk] is that of little-endian
    System V targets; whether [char] is signed is a parameter.  Access outside
    an array is undefined ([None]). *)

From S2P Require Import Prelude DataPattern.
Open Scope Z_scope.

Definition WLOG_MAX_PATH : nat := 128.
Definition WLOG_MAX_PATTERN : nat := 64.
Definition WLOG_MAX_HOST : nat := 8.

(** [sizeof(struct wlog_rec)] is 248. *)
Definition WLOG_REC_MAX_SIZE : Z := 248 + 128 + 64 + 8 + 2.

(** The three names are arrays of one byte more than their maximum. *)
Record wlog_rec := mk_wrec {
  w_pid : Z; w_offset : Z; w_nbytes : Z; w_oflags : Z; w_done : Z; w_async : Z;
  w_host : list Z; w_hostlen : Z;
  w_path : list Z; w_pathlen : Z;
  w_pattern : list Z; w_patternlen : Z;
}.

(** The fields on disk, with the bits that are never assigned. *)
Record wlog_rec_disk := mk_disk {
  d_offset : Z; d_extra0 : Z; d_nbytes : Z; d_oflags : Z;
  d_pid : Z; d_pathlen : Z; d_patternlen : Z; d_pad : Z;
  d_hostlen : Z; d_done : Z; d_async : Z; d_pad2 : Z;
  d_extra2 : Z;
}.

Definition le32 (z : Z) : list Z := [z mod 256; z / 256 mod 256; z / 65536 mod 256; z / 16777216 mod 256].
Definition un32 (l : list Z) : Z := foldr (λ b v, b + 256 * v) 0 l.

Definition DISK_SIZE : nat := 28.

(** Bit fields fill a word from its low end; a field that does not fit starts
    the next word. *)
Definition disk_bytes (d : wlog_rec_disk) : list Z :=
  le32 (d_offset d) ++ le32 (d_extra0 d) ++ le32 (d_nbytes d) ++ le32 (d_oflags d) ++
  le32 (d_pid d + d_pathlen d * 2 ^ 17 + d_patternlen d * 2 ^ 24 + d_pad d * 2 ^ 30) ++
  le32 (d_hostlen d + d_done d * 2 ^ 4 + d_async d * 2 ^ 5 + d_pad2 d * 2 ^ 6) ++
  le32 (d_extra2 d).

Definition bits (w lo n : Z) : Z := w / 2 ^ lo mod 2 ^ n.

Definition disk_of (l : list Z) : wlog_rec_disk :=
  let word k := un32 (take 4 (drop (4 * k) l)) in
  mk_disk (word 0%nat) (word 1%nat) (word 2%nat) (word 3%nat)
    (bits (word 4%nat) 0 17) (bits (word 4%nat) 17 7) (bits (word 4%nat) 24 6) (bits (word 4%nat) 30 2)
    (bits (word 5%nat) 0 4) (bits (word 5%nat) 4 1) (bits (word 5%nat) 5 1) (bits (word 5%nat) 6 26)
    (word 6%nat).

(** What was in the buffer at the bits that are not assigned. *)
Record junk := mk_junk { j_extra0 : Z; j_pad : Z; j_pad2 : Z; j_extra2 : Z }.

Definition to_disk (j : junk) (wrec : wlog_rec) : wlog_rec_disk :=
  let pos x := if 0 <? x then x else 0 in
  mk_disk (wrapu 32 (w_offset wrec)) (j_extra0 j) (wrapu 32 (w_nbytes wrec)) (wrapu 32 (w_oflags wrec))
    (wrapu 17 (w_pid wrec)) (wrapu 7 (pos (w_pathlen wrec))) (wrapu 6 (pos (w_patternlen wrec))) (j_pad j)
    (wrapu 4 (pos (w_hostlen wrec))) (wrapu 1 (w_done wrec)) (wrapu 1 (w_async wrec)) (j_pad2 j)
    (j_extra2 j).

(** The bytes that are packed; their number is the result. *)
Definition wlog_rec_pack (j : junk) (wrec : wlog_rec) (flag : bool) : option (list Z) :=
  let d := to_disk j wrec in
  if flag then
    file ← slice (w_path wrec) 0 (d_pathlen d);
    host ← slice (w_host wrec) 0 (d_hostlen d);
    pattern ← slice (w_pattern wrec) 0 (d_patternlen d);
    Some (disk_bytes d ++ file ++ host ++ pattern)
  else Some (disk_bytes d).

(** An array of [n + 1] zeros with bytes copied to its start. *)
Definition zarray (n : nat) (l : list Z) : option (list Z) := put (replicate (S n) 0) 0 l.

Definition wlog_rec_unpack (buf : list Z) : option wlog_rec :=
  s ← slice buf 0 (Z.of_nat DISK_SIZE);
  let d := disk_of s in
  let at0 := Z.of_nat DISK_SIZE in
  file ← slice buf at0 (d_pathlen d); w_path ← zarray WLOG_MAX_PATH file;
  host ← slice buf (at0 + d_pathlen d) (d_hostlen d); w_host ← zarray WLOG_MAX_HOST host;
  pattern ← slice buf (at0 + d_pathlen d + d_hostlen d) (d_patternlen d); w_pattern ← zarray WLOG_MAX_PATTERN pattern;
  Some (mk_wrec (wraps 32 (d_pid d)) (wraps 32 (d_offset d)) (wraps 32 (d_nbytes d)) (wraps 32 (d_oflags d))
    (d_done d) (d_async d) w_host (d_hostlen d) w_path (d_pathlen d) w_pattern (d_patternlen d)).

(** ** Writing

    [write_ok] says whether [write] succeeds.  The result is the offset of
    the record, or -1. *)
Definition overwrite (log : list Z) (offset : nat) (l : list Z) : list Z :=
  take offset (log ++ replicate (offset - length log) 0) ++ l ++ drop (offset + length l) log.

Definition wlog_record_write (write_ok : bool) (j : junk) (log : list Z) (wrec : wlog_rec) (offset : Z)
    : option (Z * list Z) :=
  wbuf ← wlog_rec_pack j wrec (offset <? 0);
  let reclen := len wbuf in
  if offset <? 0 then
    let wbuf := wbuf ++ [wrapu 8 (reclen / 256); reclen mod 256] in
    if negb write_ok then Some (-1, log)
    else let log := log ++ wbuf in Some (len log - (reclen + 2), log)
  else if negb write_ok then Some (-1, log)
  else Some (offset, overwrite log (Z.to_nat offset) wbuf).

(** ** Scanning *)

Definition BUFSZ : Z := 512 * 32.

Definition byte_at (buf : list Z) (i : Z) : option Z := if i <? 0 then None else buf !! Z.to_nat i.

(** What is left is copied to the end of the buffer; [memcpy] is undefined on
    parts that overlap without being the same. *)
Definition keep (buf : list Z) (bufstart leftover : Z) : option (list Z) :=
  s ← slice buf bufstart leftover;
  let to := BUFSZ - leftover in
  if (bufstart + leftover <=? to) || (bufstart =? to) || (leftover =? 0) then put buf to s else None.

(** What a scan has done: the records [func] was called with, and how many
    of them are counted. *)
Record scan := mk_scan { seen : list wlog_rec; recnum : Z }.

Section Scan.
Context (char_signed : bool) (func : list wlog_rec → wlog_rec → bool) (nrecs : Z).

(** The records of one buffer, from its end; [func] answers whether to go on.
    The result is the number of bytes that are left, and the buffer. *)
Fixpoint scan_buf (fuel : nat) (buf : list Z) (bufstart cp : Z) (s : scan) : option (Z * list Z * scan) :=
  if cp <? bufstart then Some (0, buf, s) else
  match fuel with
  | O => None
  | S fuel =>
      if cp - bufstart <? 2 then buf ← keep buf bufstart (cp - bufstart); Some (cp - bufstart, buf, s)
      else
        hi ← byte_at buf (cp - 2);
        lo ← byte_at buf (cp - 1);
        let reclen := char_val char_signed hi * 256 + char_val char_signed lo in
        if cp - bufstart <? reclen + 2 then buf ← keep buf bufstart (cp - bufstart); Some (cp - bufstart, buf, s)
        else if (reclen <? 0) || (WLOG_REC_MAX_SIZE <? reclen) then None
        else
          let cp := cp - (reclen + 2) in
          albuf ← slice buf cp reclen;
          wrec ← wlog_rec_unpack albuf;
          let goes_on := func (seen s) wrec in
          let s := mk_scan (seen s ++ [wrec]) (recnum s + c_bool goes_on) in
          if negb goes_on then Some (0, buf, s)
          else if negb (nrecs =? 0) && (nrecs <=? recnum s) then Some (0, buf, s)
          else scan_buf fuel buf bufstart cp s
  end.

(** The loop over the buffers, from the end of the log. *)
Fixpoint scan_log (fuel : nat) (log buf : list Z) (bufstart offset leftover : Z) (s : scan) : option scan :=
  if ((nrecs =? 0) || (recnum s <? nrecs)) && (0 <? offset) then
    match fuel with
    | O => None
    | S fuel =>
        let '(bufstart, offset) :=
          if offset + leftover <? BUFSZ then (BUFSZ - (offset + leftover), 0)
          else (bufstart, offset - (BUFSZ - leftover)) in
        let data := take (Z.to_nat (BUFSZ - bufstart - leftover)) (drop (Z.to_nat offset) log) in
        buf ← put buf bufstart data;
        '(leftover, buf, s) ← scan_buf (S (Z.to_nat BUFSZ)) buf bufstart BUFSZ s;
        scan_log fuel log buf bufstart offset leftover s
    end
  else Some s.
End Scan.

(** [buf] is the buffer on the stack, with any contents.  The offset of the
    end of the log is kept in an [int].  The result is what is returned, and
    the records that were seen. *)
Definition wlog_scan_backward (char_signed : bool) (log buf : list Z) (nrecs : Z)
    (func : list wlog_rec → wlog_rec → bool) : option (Z * list wlog_rec) :=
  let offset := wraps 32 (len log) in
  if offset =? -1 then Some (-1, []) else
  s ← scan_log char_signed func nrecs (S (length log)) log buf 0 offset 0 (mk_scan [] 0);
  Some (0, seen s).
