(* ===== verification/WriteLogFacts.v ===== *)
(** * Scanning the write log backwards finds all records

    Records survive packing and unpacking within the widths of their fields;
    the scan finds the records of a log from the last to the first however
    they are spread over its buffers; the widths, and the sign of [char], are
    real limits. *)

From S2P Require Import Prelude DataPattern WriteLog.
Open Scope Z_scope.

(** ** Packing *)

Lemma un32_le32 z : 0 ≤ z < 2 ^ 32 → un32 (le32 z) = z.
Proof. intros Hz. unfold un32, le32. cbn [foldr]. Z.div_mod_to_equations. lia. Qed.

Lemma bits_at a v r lo n :
  0 ≤ lo → 0 ≤ n → 0 ≤ a < 2 ^ lo → 0 ≤ v < 2 ^ n → bits (a + v * 2 ^ lo + r * 2 ^ (lo + n)) lo n = v.
Proof.
  intros Hlo Hn Ha Hv. unfold bits. rewrite Z.pow_add_r by done.
  replace (a + v * 2 ^ lo + r * (2 ^ lo * 2 ^ n)) with (a + (v + r * 2 ^ n) * 2 ^ lo) by lia.
  rewrite Z.div_add, (Z.div_small a), Z.add_0_l by lia. rewrite Z.mod_add by lia. by apply Z.mod_small.
Qed.

(** Every field fits its width. *)
Definition disk_ok (d : wlog_rec_disk) : Prop :=
  0 ≤ d_offset d < 2 ^ 32 ∧ 0 ≤ d_extra0 d < 2 ^ 32 ∧ 0 ≤ d_nbytes d < 2 ^ 32 ∧ 0 ≤ d_oflags d < 2 ^ 32 ∧
  0 ≤ d_pid d < 2 ^ 17 ∧ 0 ≤ d_pathlen d < 2 ^ 7 ∧ 0 ≤ d_patternlen d < 2 ^ 6 ∧ 0 ≤ d_pad d < 2 ^ 2 ∧
  0 ≤ d_hostlen d < 2 ^ 4 ∧ 0 ≤ d_done d < 2 ^ 1 ∧ 0 ≤ d_async d < 2 ^ 1 ∧ 0 ≤ d_pad2 d < 2 ^ 26 ∧
  0 ≤ d_extra2 d < 2 ^ 32.

Lemma disk_roundtrip d : disk_ok d → disk_of (disk_bytes d) = d.
Proof.
  destruct d as [o e0 nb fl p pl ptl pad hl dn asy pad2 e2].
  intros (H1 & H2 & H3 & H4 & H5 & H6 & H7 & H8 & H9 & H10 & H11 & H12 & H13).
  cbn [d_offset d_extra0 d_nbytes d_oflags d_pid d_pathlen d_patternlen d_pad d_hostlen d_done d_async d_pad2 d_extra2] in *.
  unfold disk_of, disk_bytes.
  cbn [d_offset d_extra0 d_nbytes d_oflags d_pid d_pathlen d_patternlen d_pad d_hostlen d_done d_async d_pad2 d_extra2].
  set (w4 := p + pl * 2 ^ 17 + ptl * 2 ^ 24 + pad * 2 ^ 30). set (w5 := hl + dn * 2 ^ 4 + asy * 2 ^ 5 + pad2 * 2 ^ 6).
  assert (0 ≤ w4 < 2 ^ 32) by (unfold w4; lia). assert (0 ≤ w5 < 2 ^ 32) by (unfold w5; lia).
  cbn [Nat.mul Nat.add drop take app le32]. fold (le32 o) (le32 e0) (le32 nb) (le32 fl) (le32 w4) (le32 w5) (le32 e2).
  rewrite !un32_le32 by done. f_equal; unfold w4, w5.
  - rewrite <- (bits_at 0 p (pl + ptl * 2 ^ 7 + pad * 2 ^ 13) 0 17) at 2 by lia. f_equal. lia.
  - rewrite <- (bits_at p pl (ptl + pad * 2 ^ 6) 17 7) at 2 by lia. f_equal. lia.
  - rewrite <- (bits_at (p + pl * 2 ^ 17) ptl pad 24 6) at 2 by lia. f_equal.
  - rewrite <- (bits_at (p + pl * 2 ^ 17 + ptl * 2 ^ 24) pad 0 30 2) at 2 by lia. f_equal. lia.
  - rewrite <- (bits_at 0 hl (dn + asy * 2 ^ 1 + pad2 * 2 ^ 2) 0 4) at 2 by lia. f_equal. lia.
  - rewrite <- (bits_at hl dn (asy + pad2 * 2 ^ 1) 4 1) at 2 by lia. f_equal. lia.
  - rewrite <- (bits_at (hl + dn * 2 ^ 4) asy pad2 5 1) at 2 by lia. f_equal.
  - rewrite <- (bits_at (hl + dn * 2 ^ 4 + asy * 2 ^ 5) pad2 0 6 26) at 2 by lia. f_equal. lia.
Qed.

Lemma disk_length d : length (disk_bytes d) = DISK_SIZE.
Proof. done. Qed.

Lemma slice_app a l b : slice (a ++ l ++ b) (len a) (len l) = Some l.
Proof.
  unfold slice, len. rewrite !length_app. repeat zcase. cbn [andb]. rewrite !Nat2Z.id, drop_app_length, take_app_length. done.
Qed.

Lemma slice_app_at a l b i n : i = len a → n = len l → slice (a ++ l ++ b) i n = Some l.
Proof. intros -> ->. apply slice_app. Qed.

(** An array of [n + 1] bytes that holds a name of [k] bytes and zeros. *)
Definition name_ok (n : nat) (l : list Z) (k : Z) : Prop :=
  0 ≤ k ≤ Z.of_nat n ∧ length l = S n ∧ drop (Z.to_nat k) l = replicate (S n - Z.to_nat k) 0.

(** The user's view of a record that fits the format on disk. *)
Definition wrec_ok (r : wlog_rec) : Prop :=
  0 ≤ w_pid r < 2 ^ 17 ∧ - 2 ^ 31 ≤ w_offset r < 2 ^ 31 ∧ - 2 ^ 31 ≤ w_nbytes r < 2 ^ 31 ∧ - 2 ^ 31 ≤ w_oflags r < 2 ^ 31 ∧
  0 ≤ w_done r ≤ 1 ∧ 0 ≤ w_async r ≤ 1 ∧
  name_ok WLOG_MAX_HOST (w_host r) (w_hostlen r) ∧ name_ok WLOG_MAX_PATH (w_path r) (w_pathlen r) ∧
  name_ok WLOG_MAX_PATTERN (w_pattern r) (w_patternlen r) ∧ w_pathlen r < 128 ∧ w_patternlen r < 64.

Definition junk_ok (j : junk) : Prop :=
  0 ≤ j_extra0 j < 2 ^ 32 ∧ 0 ≤ j_pad j < 2 ^ 2 ∧ 0 ≤ j_pad2 j < 2 ^ 26 ∧ 0 ≤ j_extra2 j < 2 ^ 32.

Lemma name_take n l k : name_ok n l k → slice l 0 k = Some (take (Z.to_nat k) l) ∧ len (take (Z.to_nat k) l) = k ∧
  zarray n (take (Z.to_nat k) l) = Some l.
Proof.
  intros (Hk & Hl & Hd). assert (len (take (Z.to_nat k) l) = k) as Et by (unfold len; rewrite length_take; lia).
  split_and!; [|done|].
  - unfold slice, len in *. repeat zcase. cbn [andb]. by rewrite drop_0.
  - unfold zarray, put. rewrite Et. unfold len. rewrite length_replicate. repeat zcase. cbn [andb take Z.to_nat].
    f_equal. rewrite Nat.add_0_l, drop_replicate, length_take, Nat.min_l by lia. rewrite <- Hd. apply take_drop.
Qed.

Lemma wraps_wrapu z : - 2 ^ 31 ≤ z < 2 ^ 31 → wraps 32 (wrapu 32 z) = z.
Proof.
  intros Hz. unfold wraps, wrapu. change (32 - 1) with 31. rewrite Z.add_mod_idemp_l by lia. rewrite Z.mod_small by lia. lia.
Qed.

Lemma pos_id x : 0 ≤ x → (if 0 <? x then x else 0) = x.
Proof. intros. zcase; lia. Qed.

Lemma to_disk_ok j r : junk_ok j → disk_ok (to_disk j r).
Proof.
  intros (H1 & H2 & H3 & H4). unfold disk_ok, to_disk, wrapu. cbn.
  split_and!; try lia; apply Z.mod_pos_bound; lia.
Qed.

(** The variable part, the record and the record with its length. *)
Definition names (r : wlog_rec) : list Z :=
  take (Z.to_nat (w_pathlen r)) (w_path r) ++ take (Z.to_nat (w_hostlen r)) (w_host r) ++
  take (Z.to_nat (w_patternlen r)) (w_pattern r).
Definition body (j : junk) (r : wlog_rec) : list Z := disk_bytes (to_disk j r) ++ names r.
Definition enc (x : junk * wlog_rec) : list Z := body x.1 x.2 ++ [len (body x.1 x.2) / 256; len (body x.1 x.2) mod 256].

Lemma to_disk_lens j r : wrec_ok r →
  d_pathlen (to_disk j r) = w_pathlen r ∧ d_hostlen (to_disk j r) = w_hostlen r ∧ d_patternlen (to_disk j r) = w_patternlen r.
Proof.
  intros (_ & _ & _ & _ & _ & _ & (Hh & _) & (Hp & _) & (Ht & _) & Hpl & Htl).
  unfold WLOG_MAX_HOST, WLOG_MAX_PATH, WLOG_MAX_PATTERN in *. cbn [to_disk d_pathlen d_hostlen d_patternlen].
  rewrite !pos_id, !wrapu_small by lia. done.
Qed.

Lemma names_length r : wrec_ok r → len (names r) = w_pathlen r + w_hostlen r + w_patternlen r.
Proof.
  intros (_ & _ & _ & _ & _ & _ & Hh & Hp & Ht & _).
  apply name_take in Hh as (_ & Eh & _), Hp as (_ & Ep & _), Ht as (_ & Et & _).
  unfold names, len in *. rewrite !length_app. lia.
Qed.

Lemma body_length j r : wrec_ok r → len (body j r) = 28 + (w_pathlen r + w_hostlen r + w_patternlen r).
Proof. intros Hr. rewrite <- names_length by done. unfold body, len. rewrite length_app, disk_length. unfold DISK_SIZE. lia. Qed.

Lemma body_bounds j r : wrec_ok r → 28 ≤ len (body j r) < 256.
Proof.
  intros Hr. rewrite body_length by done. destruct Hr as (_ & _ & _ & _ & _ & _ & (Hh & _) & (Hp & _) & (Ht & _) & Hpl & Htl).
  unfold WLOG_MAX_HOST, WLOG_MAX_PATH, WLOG_MAX_PATTERN in *. lia.
Qed.

Lemma pack_spec j r : wrec_ok r → wlog_rec_pack j r true = Some (body j r).
Proof.
  intros Hr. unfold wlog_rec_pack. destruct (to_disk_lens j r Hr) as (-> & -> & ->).
  destruct Hr as (_ & _ & _ & _ & _ & _ & Hh & Hp & Ht & _).
  apply name_take in Hh as (-> & _ & _), Hp as (-> & _ & _), Ht as (-> & _ & _). done.
Qed.

Lemma unpack_spec j r : wrec_ok r → junk_ok j → wlog_rec_unpack (body j r) = Some r.
Proof.
  intros Hr Hj. unfold wlog_rec_unpack. set (D := disk_bytes (to_disk j r)).
  assert (slice (body j r) 0 (Z.of_nat DISK_SIZE) = Some D) as -> by exact (slice_app [] D (names r)). bind_step.
  unfold D. rewrite disk_roundtrip by by apply to_disk_ok. destruct (to_disk_lens j r Hr) as (Ep & Eh & Et).
  rewrite Ep, Eh, Et. fold D. destruct Hr as (Hpid & Ho & Hn & Hf & Hd & Ha & Hh & Hp & Ht & Hpl & Htl).
  apply name_take in Hh as (_ & Lh & Zh), Hp as (_ & Lp & Zp), Ht as (_ & Lt & Zt).
  unfold body, names. fold D.
  set (P := take (Z.to_nat (w_pathlen r)) (w_path r)) in *. set (H := take (Z.to_nat (w_hostlen r)) (w_host r)) in *.
  set (T := take (Z.to_nat (w_patternlen r)) (w_pattern r)) in *.
  rewrite (slice_app_at D P (H ++ T) (Z.of_nat DISK_SIZE) (w_pathlen r)); [|reflexivity|by rewrite Lp]. bind_step. rewrite Zp. bind_step.
  assert (D ++ P ++ H ++ T = (D ++ P) ++ H ++ T) as -> by by rewrite (assoc_L (++)).
  rewrite (slice_app_at (D ++ P) H T (Z.of_nat DISK_SIZE + w_pathlen r) (w_hostlen r)); [|unfold len in *; rewrite length_app; unfold D; rewrite disk_length; lia|by rewrite Lh]. bind_step. rewrite Zh. bind_step.
  assert ((D ++ P) ++ H ++ T = (D ++ P ++ H) ++ T ++ []) as -> by by rewrite app_nil_r, <- !(assoc_L (++)).
  rewrite (slice_app_at (D ++ P ++ H) T); [|unfold len in *; rewrite !length_app; unfold D; rewrite disk_length; lia|by rewrite Lt].
  bind_step. rewrite Zt. bind_step. f_equal.
  destruct r as [pid o n fl dn asy h hl p pl t tl]. cbn in *.
  rewrite !wraps_wrapu by done. rewrite !wrapu_small, wraps_small by lia. done.
Qed.

(** ** Scanning *)

Section ScanFacts.
Context (char_signed : bool) (nrecs : Z).
Context (Hnrecs : 0 ≤ nrecs).

(** A record whose length is read back: on targets with signed characters it
    is shorter than 128 bytes. *)
Definition loggable (x : junk * wlog_rec) : Prop :=
  junk_ok x.1 ∧ wrec_ok x.2 ∧ (char_signed = true → len (body x.1 x.2) < 128).

Definition encs (rs : list (junk * wlog_rec)) : list Z := concat (enc <$> rs).

(** A callback that always goes on. *)
Definition go_on (_ : list wlog_rec) (_ : wlog_rec) : bool := true.

Definition counted (s : scan) (k : nat) : Z := recnum s + Z.of_nat k.
Definition advance (s : scan) (rs : list (junk * wlog_rec)) : scan :=
  mk_scan (seen s ++ (snd <$> rev rs)) (counted s (length rs)).
Definition unfinished (s : scan) : Prop := nrecs = 0 ∨ recnum s < nrecs.

Lemma encs_app rs rs' : encs (rs ++ rs') = encs rs ++ encs rs'.
Proof. unfold encs. by rewrite fmap_app, concat_app. Qed.

Lemma encs_snoc rs x : encs (rs ++ [x]) = encs rs ++ enc x.
Proof. unfold encs. rewrite fmap_app, concat_app. simpl. by rewrite app_nil_r. Qed.

Lemma enc_length x : len (enc x) = len (body x.1 x.2) + 2.
Proof. unfold enc, len. rewrite length_app. simpl. lia. Qed.

(** The length that is read from the last two bytes. *)
Lemma read_reclen x : loggable x →
  char_val char_signed (len (body x.1 x.2) / 256) * 256 + char_val char_signed (len (body x.1 x.2) mod 256) = len (body x.1 x.2).
Proof.
  intros (_ & Hr & Hs). pose proof (body_bounds x.1 x.2 Hr). rewrite Z.div_small, Z.mod_small by lia.
  unfold char_val. destruct char_signed; cbn [andb]; [|lia]. specialize (Hs eq_refl). repeat zcase.
Qed.

Lemma byte_at_app a b x c i : i = len a + len b → byte_at (a ++ (b ++ [x]) ++ c) i = Some x.
Proof.
  intros ->. unfold byte_at. rewrite (proj2 (Z.ltb_ge _ _)) by (unfold len; lia).
  replace (a ++ (b ++ [x]) ++ c) with ((a ++ b) ++ x :: c) by by rewrite <- !(assoc_L (++)).
  replace (Z.to_nat (len a + len b)) with (length (a ++ b)) by (unfold len; rewrite length_app; lia).
  by rewrite list_lookup_middle.
Qed.

(** Keeping what is left. *)
Lemma keep_spec A c B :
  len (A ++ c ++ B) = BUFSZ → (len A + len c ≤ BUFSZ - len c ∨ c = []) →
  ∃ buf, keep (A ++ c ++ B) (len A) (len c) = Some buf ∧ len buf = BUFSZ ∧ drop (Z.to_nat (BUFSZ - len c)) buf = c.
Proof.
  intros Hl Hc. unfold keep. rewrite slice_app. bind_step.
  assert ((len A + len c <=? BUFSZ - len c) || (len A =? BUFSZ - len c) || (len c =? 0) = true) as ->.
  { destruct Hc as [Hc| ->]; [by rewrite (proj2 (Z.leb_le _ _))|]. by rewrite orb_true_r. }
  assert (len c ≤ BUFSZ) as Hlc by (unfold len in *; rewrite !length_app in Hl; lia).
  unfold put. rewrite Hl. repeat zcase. cbn [andb]. eexists. split; [done|].
  set (k := Z.to_nat (BUFSZ - len c)). assert (length (take k (A ++ c ++ B)) = k) as Ek.
  { rewrite length_take. unfold len in *. lia. }
  rewrite (drop_ge (A ++ c ++ B)) by (unfold k, len in *; lia). rewrite app_nil_r. split.
  - unfold len in *. rewrite length_app, Ek. unfold k. lia.
  - rewrite <- Ek at 1. apply drop_app_length.
Qed.

(** The scan of one buffer either counts enough records, or goes through all
    records that are complete in it and keeps the start of the next one. *)
Definition buf_result (off : nat) (rs1 : list (junk * wlog_rec)) (s : scan) (leftover : Z) (buf : list Z) : Prop :=
  (nrecs ≠ 0 ∧ recnum s = nrecs) ∨
  (unfinished s ∧ (off ≤ length (encs rs1))%nat ∧ leftover = len (drop off (encs rs1)) ∧ leftover < 258 ∧
   len buf = BUFSZ ∧ drop (Z.to_nat (BUFSZ - leftover)) buf = drop off (encs rs1) ∧ (off = 0%nat → rs1 = [])).

Lemma advance_nil s : advance s [] = s.
Proof. unfold advance, counted. simpl. rewrite app_nil_r, Z.add_0_r. by destruct s. Qed.

Lemma advance_snoc s rs x : advance s (rs ++ [x]) = advance (mk_scan (seen s ++ [x.2]) (recnum s + 1)) rs.
Proof.
  unfold advance, counted. simpl. rewrite rev_app_distr, length_app. simpl. rewrite <- (assoc_L (++)). f_equal. lia.
Qed.

Lemma advance_app s rs rs' : advance (advance s rs') rs = advance s (rs ++ rs').
Proof.
  unfold advance, counted. simpl. rewrite rev_app_distr, fmap_app, length_app, <- (assoc_L (++)). f_equal. lia.
Qed.

(** The scan stops at what is not a complete record. *)
Lemma scan_buf_keep A c B fuel s off rs1 :
  len (A ++ c ++ B) = BUFSZ → c = drop off (encs rs1) → (off ≤ length (encs rs1))%nat → unfinished s → len c < 258 →
  (len A + len c ≤ BUFSZ - len c ∨ c = []) → (off = 0%nat → rs1 = []) →
  (2 ≤ len c → ∃ d hi lo, c = d ++ [hi; lo] ∧ len c < char_val char_signed hi * 256 + char_val char_signed lo + 2) →
  ∃ leftover buf, scan_buf char_signed go_on nrecs (S fuel) (A ++ c ++ B) (len A) (len A + len c) s = Some (leftover, buf, s) ∧
    buf_result off rs1 s leftover buf.
Proof.
  intros Hl Hc Hoff Hs Hlc HA H0 H2. destruct (keep_spec A c B Hl HA) as (buf & E & Hb & Hd).
  exists (len c), buf. split; [|right; split_and!; try done; [by rewrite Hc|by rewrite Hd]].
  cbn [scan_buf]. rewrite (proj2 (Z.ltb_ge _ _)) by (unfold len; lia). replace (len A + len c - len A) with (len c) by lia.
  destruct (Z.ltb_spec (len c) 2) as [Hlt|Hge]; [by rewrite E|].
  destruct (H2 Hge) as (d & hi & lo & Ec & Hcmp).
  assert (byte_at (A ++ c ++ B) (len A + len c - 2) = Some hi) as ->.
  { replace (A ++ c ++ B) with (A ++ (d ++ [hi]) ++ lo :: B) by (rewrite Ec, <- !(assoc_L (++)); done).
    apply byte_at_app. rewrite Ec. unfold len. rewrite length_app. simpl. lia. }
  assert (byte_at (A ++ c ++ B) (len A + len c - 1) = Some lo) as ->.
  { replace (A ++ c ++ B) with (A ++ ((d ++ [hi]) ++ [lo]) ++ B) by (rewrite Ec, <- !(assoc_L (++)); done).
    apply byte_at_app. rewrite Ec. unfold len. rewrite !length_app. simpl. lia. }
  bind_step. bind_step. rewrite (proj2 (Z.ltb_lt _ _)) by done. by rewrite E.
Qed.

(** One complete record at the end of the buffer. *)
Lemma scan_buf_step A c x B fuel s :
  loggable x →
  scan_buf char_signed go_on nrecs (S fuel) (A ++ (c ++ enc x) ++ B) (len A) (len A + len (c ++ enc x)) s =
  let s' := mk_scan (seen s ++ [x.2]) (recnum s + 1) in
  if negb (nrecs =? 0) && (nrecs <=? recnum s') then Some (0, A ++ (c ++ enc x) ++ B, s')
  else scan_buf char_signed go_on nrecs fuel (A ++ c ++ enc x ++ B) (len A) (len A + len c) s'.
Proof.
  intros Hx. pose proof Hx as (Hj & Hr & _). pose proof (body_bounds x.1 x.2 Hr) as Hb. pose proof (read_reclen x Hx) as Hrl.
  pose proof (enc_length x) as Hel. match goal with |- _ = ?r => set (R := r) end. cbn [scan_buf].
  set (b := body x.1 x.2) in *. assert (len (c ++ enc x) = len c + len b + 2) as El by (unfold len in *; rewrite length_app; lia).
  assert (0 ≤ len c) as Hc0 by (unfold len; lia). rewrite El.
  do 2 rewrite (proj2 (Z.ltb_ge _ _)) by lia.
  set (hi := len b / 256) in *. set (lo := len b mod 256) in *.
  assert (A ++ (c ++ enc x) ++ B = A ++ ((c ++ b) ++ [hi]) ++ lo :: B) as E1 by (unfold enc; by rewrite <- !(assoc_L (++))).
  assert (A ++ (c ++ enc x) ++ B = A ++ ((c ++ b ++ [hi]) ++ [lo]) ++ B) as E2 by (unfold enc; by rewrite <- !(assoc_L (++))).
  assert (A ++ (c ++ enc x) ++ B = (A ++ c) ++ b ++ [hi; lo] ++ B) as E3 by (unfold enc; by rewrite <- !(assoc_L (++))).
  rewrite E1 at 1. rewrite byte_at_app by (unfold len; rewrite length_app; lia). bind_step.
  rewrite E2 at 1. rewrite byte_at_app by (unfold len; rewrite !length_app; simpl; lia). bind_step.
  rewrite Hrl. unfold WLOG_REC_MAX_SIZE. do 3 rewrite (proj2 (Z.ltb_ge _ _)) by lia. cbn [orb].
  rewrite E3 at 1. rewrite slice_app_at by (try done; unfold len in *; rewrite length_app; lia). bind_step.
  rewrite (unpack_spec x.1 x.2 Hr Hj : wlog_rec_unpack b = _). bind_step. unfold R. cbn [go_on c_bool negb seen recnum]. rewrite <- (assoc_L (++)).
  by replace (len A + (len c + len b + 2) - (len b + 2)) with (len A + len c) by lia.
Qed.

Lemma scan_buf_spec rs A c B fuel off s :
  Forall loggable rs → len (A ++ c ++ B) = BUFSZ → c = drop off (encs rs) → (off ≤ length (encs rs))%nat →
  (off = 0%nat ∨ A = []) → unfinished s → (length c < fuel)%nat →
  ∃ rs1 rs2 leftover buf, rs = rs1 ++ rs2 ∧
    scan_buf char_signed go_on nrecs fuel (A ++ c ++ B) (len A) (len A + len c) s = Some (leftover, buf, advance s rs2) ∧
    buf_result off rs1 (advance s rs2) leftover buf.
Proof.
  revert A c B fuel s. induction rs as [|x rs IH] using rev_ind; intros A c B fuel s Hrs Hl Hc Hoff HA Hs Hf;
    (destruct fuel as [|fuel]; [lia|]).
  - change (encs []) with (@nil Z) in Hc. rewrite drop_nil in Hc. subst c. destruct (scan_buf_keep A [] B fuel s off []) as (lo & buf & E & H); try done.
    { symmetry. apply drop_nil. } { by right. }
    exists [], [], lo, buf. by rewrite advance_nil.
  - apply Forall_app in Hrs as [Hrs [Hx _]%Forall_cons]. rewrite encs_snoc in Hc, Hoff.
    destruct (decide (off ≤ length (encs rs))%nat) as [Hfull|Hpart].
    + rewrite drop_app_le in Hc by done. rewrite Hc in *. rewrite scan_buf_step by done. cbn zeta. cbn [recnum].
      destruct (negb (nrecs =? 0) && (nrecs <=? recnum s + 1)) eqn:Estop.
      * apply andb_true_iff in Estop as [H1%negb_true_iff%Z.eqb_neq H2%Z.leb_le].
        exists rs, [x], 0, (A ++ (drop off (encs rs) ++ enc x) ++ B). change [x] with ([] ++ [x]). rewrite advance_snoc, advance_nil.
        split_and!; [done..|]. left. split; [done|]. simpl. unfold unfinished in Hs. lia.
      * edestruct (IH A (drop off (encs rs)) (enc x ++ B) fuel) as (rs1 & rs2 & lo & buf & -> & E & H);
          [done| |done|done|done| | |rewrite E].
        -- by rewrite <- Hl, <- !(assoc_L (++)).
        -- unfold unfinished in *. simpl. destruct (Z.eqb_spec nrecs 0); [by left|]. destruct (Z.leb_spec nrecs (recnum s + 1)); [done|lia].
        -- pose proof (enc_length x). rewrite length_app in Hf. unfold len in *. lia.
        -- exists rs1, (rs2 ++ [x]), lo, buf. rewrite advance_snoc. by rewrite (assoc_L (++)).
    + destruct HA as [ -> | -> ]; [lia|]. rewrite drop_app_ge in Hc by lia. set (k := (off - length (encs rs))%nat) in *.
      pose proof Hx as (_ & Hr & _). pose proof (body_bounds x.1 x.2 Hr) as Hb. pose proof (enc_length x) as Hel.
      assert (len c < len (enc x)) as Hlc by (rewrite Hc; unfold len in *; rewrite length_drop; lia).
      destruct (scan_buf_keep [] c B fuel s off (rs ++ [x])) as (lo & buf & E & H); try done.
      * rewrite encs_snoc, drop_app_ge by lia. done.
      * by rewrite encs_snoc.
      * lia.
      * left. unfold BUFSZ. simpl. change (len []) with 0. lia.
      * lia.
      * intros H2. exists (drop k (body x.1 x.2)), (len (body x.1 x.2) / 256), (len (body x.1 x.2) mod 256).
        rewrite read_reclen by done. split; [|lia]. rewrite Hc. unfold enc at 1. apply drop_app_le.
        rewrite Hc in H2. unfold len in *. rewrite length_drop in H2. lia.
      * exists (rs ++ [x]), [], lo, buf. rewrite advance_nil, app_nil_r. done.
Qed.

(** ** The whole log *)

Lemma scan_log_stop fuel log buf bufstart offset leftover s :
  (nrecs ≠ 0 ∧ recnum s = nrecs) ∨ offset = 0 →
  scan_log char_signed go_on nrecs fuel log buf bufstart offset leftover s = Some s.
Proof.
  intros H. assert (((nrecs =? 0) || (recnum s <? nrecs)) && (0 <? offset) = false) as E.
  { destruct H as [[Hn H]| ->]; [|by rewrite andb_false_r]. rewrite (proj2 (Z.eqb_neq _ _)) by done.
    by rewrite (proj2 (Z.ltb_ge _ _)) by lia. }
  destruct fuel; cbn [scan_log]; by rewrite E.
Qed.

(** Reading the part of the log in front of what is left gives the log's last
    bytes at the end of the buffer. *)
Lemma refill log es tl buf k offset leftover :
  log = es ++ tl → 0 ≤ offset → 0 ≤ leftover → len es = offset + leftover → len buf = BUFSZ →
  drop (Z.to_nat (BUFSZ - leftover)) buf = drop (Z.to_nat offset) es → 0 ≤ k ≤ offset → offset - k ≤ BUFSZ - leftover →
  let bufstart := BUFSZ - leftover - (offset - k) in
  put buf bufstart (take (Z.to_nat (offset - k)) (drop (Z.to_nat k) log)) =
    Some (take (Z.to_nat bufstart) buf ++ drop (Z.to_nat k) es ++ []).
Proof.
  intros -> Ho Hlo Hes Hb Hd Hk Hfit bufstart. unfold put.
  rewrite drop_app_le by (unfold len in *; lia). rewrite take_app_le by (rewrite length_drop; unfold len in *; lia).
  set (data := take _ _). assert (len data = offset - k) as Ed.
  { unfold data, len in *. rewrite length_take, length_drop. lia. }
  rewrite Hb, Ed. unfold bufstart at 1 2. repeat zcase. cbn [andb]. do 2 f_equal.
  replace (Z.to_nat bufstart + length data)%nat with (Z.to_nat (BUFSZ - leftover)) by (unfold bufstart, len in *; lia).
  rewrite Hd, app_nil_r. unfold data.
  replace (Z.to_nat offset) with (Z.to_nat k + Z.to_nat (offset - k))%nat by lia. rewrite <- drop_drop. apply take_drop.
Qed.

Lemma scan_log_spec fuel : ∀ rs tl log buf offset leftover s,
  Forall loggable rs → log = encs rs ++ tl → 0 ≤ offset → 0 ≤ leftover < 258 → len (encs rs) = offset + leftover →
  len buf = BUFSZ → drop (Z.to_nat (BUFSZ - leftover)) buf = drop (Z.to_nat offset) (encs rs) →
  unfinished s → (offset = 0 → rs = []) → (Z.to_nat offset < fuel)%nat →
  ∃ rs1 rs2, rs = rs1 ++ rs2 ∧
    scan_log char_signed go_on nrecs fuel log buf 0 offset leftover s = Some (advance s rs2) ∧
    (rs1 = [] ∧ unfinished (advance s rs2) ∨ nrecs ≠ 0 ∧ recnum (advance s rs2) = nrecs).
Proof.
  induction fuel as [|fuel IH]; intros rs tl log buf offset leftover s Hrs Hlog Ho Hlo Hes Hb Hd Hs H0 Hf; [lia|].
  destruct (decide (offset = 0)) as [Hz|Hz].
  { exists [], []. rewrite scan_log_stop, advance_nil by by right. rewrite (H0 Hz). auto. }
  cbn [scan_log]. replace (((nrecs =? 0) || (recnum s <? nrecs)) && (0 <? offset)) with true; cycle 1.
  { rewrite (proj2 (Z.ltb_lt 0 offset)), andb_true_r by lia. destruct Hs as [-> |Hs]; [done|].
    by rewrite (proj2 (Z.ltb_lt _ _)), orb_true_r. }
  set (k := if offset + leftover <? BUFSZ then 0 else offset - (BUFSZ - leftover)).
  set (bufstart := BUFSZ - leftover - (offset - k)).
  assert ((if offset + leftover <? BUFSZ then (BUFSZ - (offset + leftover), 0) else (0, offset - (BUFSZ - leftover))) =
    (bufstart, k) ∧ 0 ≤ k < offset ∧ offset - k ≤ BUFSZ - leftover ∧ (k = 0 ∨ bufstart = 0)) as (-> & Hk & Hfit & Hk0).
  { unfold bufstart, k, BUFSZ in *. destruct (Z.ltb_spec (offset + leftover) (512 * 32)); split_and!; try lia; f_equal; lia. }
  replace (BUFSZ - bufstart - leftover) with (offset - k) by (unfold bufstart; lia).
  pose proof (refill log (encs rs) tl buf k offset leftover Hlog ltac:(lia) ltac:(lia) Hes Hb Hd ltac:(lia) Hfit) as Hput.
  cbn zeta in Hput. fold bufstart in Hput. rewrite Hput. bind_step.
  set (A := take (Z.to_nat bufstart) buf). set (c := drop (Z.to_nat k) (encs rs)).
  assert (len A = bufstart) as EA by (unfold A, len in *; rewrite length_take; unfold bufstart in *; lia).
  assert (len c = BUFSZ - bufstart) as Ec by (unfold c, len in *; rewrite length_drop; unfold bufstart in *; lia).
  destruct (scan_buf_spec rs A c [] (S (Z.to_nat BUFSZ)) (Z.to_nat k) s) as (rs1 & rs2 & lo & buf' & -> & E & H);
    [done| |done|unfold len in *; lia| |done|unfold len in *; lia|].
  { rewrite app_nil_r. unfold len in *. rewrite length_app. lia. }
  { destruct Hk0 as [-> |Hk0]; [by left|right]. unfold A. by rewrite Hk0. }
  rewrite EA, Ec in E. replace (bufstart + (BUFSZ - bufstart)) with BUFSZ in E by lia. rewrite E. bind_step.
  destruct H as [H|(Hu & Hoff & El & Hlt & Hb' & Hd' & Hend)].
  { exists rs1, rs2. rewrite scan_log_stop by by left. auto. }
  destruct Hk0 as [-> | ->].
  { exists rs1, rs2. rewrite scan_log_stop by by right. specialize (Hend eq_refl). auto. }
  apply Forall_app in Hrs as [Hrs1 Hrs2].
  destruct (IH rs1 (encs rs2 ++ tl) log buf' k lo (advance s rs2)) as (rs3 & rs4 & -> & E' & H'); try done; try lia.
  - by rewrite Hlog, encs_app, <- (assoc_L (++)).
  - unfold len in *. lia.
  - unfold len in *. rewrite length_drop in El. lia.
  - intros ->. by apply Hend.
  - exists rs3, (rs4 ++ rs2). rewrite E', <- (assoc_L (++)), <- advance_app. auto.
Qed.
End ScanFacts.

(** ** Logs that are written *)

(** Records appended one after the other to an empty log. *)
Fixpoint append_all (log : list Z) (rs : list (junk * wlog_rec)) : option (list Z) :=
  match rs with
  | [] => Some log
  | x :: rs => '(_, log) ← wlog_record_write true x.1 log x.2 (-1); append_all log rs
  end.

Lemma append_spec j r log : wrec_ok r →
  wlog_record_write true j log r (-1) = Some (len log, log ++ enc (j, r)).
Proof.
  intros Hr. unfold wlog_record_write. change (-1 <? 0) with true. rewrite pack_spec by done. bind_step.
  pose proof (body_bounds j r Hr). cbn [negb]. unfold enc. cbn [fst snd].
  rewrite wrapu_small by (rewrite Z.div_small; lia). do 2 f_equal.
  unfold len. rewrite !length_app. simpl. lia.
Qed.

Lemma append_all_spec rs : ∀ log, Forall (λ x, wrec_ok x.2) rs → append_all log rs = Some (log ++ encs rs).
Proof.
  induction rs as [|[j r] rs IH]; intros log Hrs; [by rewrite app_nil_r|].
  apply Forall_cons in Hrs as [Hr Hrs]. cbn [append_all fst snd]. rewrite append_spec by done. bind_step.
  rewrite IH by done. by rewrite <- (assoc_L (++)).
Qed.

Lemma loggable_wrec_ok cs rs : Forall (loggable cs) rs → Forall (λ x, wrec_ok x.2) rs.
Proof. intros H. eapply Forall_impl; [exact H|]. by intros x (_ & Hx & _). Qed.

(** The offset of a log of less than 2 GiB fits. *)
Lemma scan_start cs log buf nrecs func : len log < 2 ^ 31 →
  wlog_scan_backward cs log buf nrecs func =
    (s ← scan_log cs func nrecs (S (length log)) log buf 0 (len log) 0 (mk_scan [] 0); Some (0, seen s)).
Proof.
  intros Hlen. assert (0 ≤ len log) by (unfold len; lia). unfold wlog_scan_backward.
  rewrite (wraps_small 32) by (try done; change (32 - 1) with 31; lia). cbn zeta. by destruct (Z.eqb_spec (len log) (-1)); [lia|].
Qed.

(** C23. Scanning a log backward: when any records that fit the format (on
    targets with signed characters: and are shorter than 128 bytes) are
    appended to an empty log with [wlog_record_write] and the log stays below
    2 GiB, then [wlog_scan_backward] returns 0 and gives its callback exactly
    these records, the last one first, all of them for [nrecs] zero and else
    the last [nrecs]; this includes records that lie across the 16 KiB
    buffers, and holds for any contents of the scan's buffer and any bytes in
    the unused fields. *)
Theorem wlog_scan_correct char_signed nrecs rs buf :
  0 ≤ nrecs → len buf = BUFSZ → Forall (loggable char_signed) rs →
  ∃ log, append_all [] rs = Some log ∧
    (len log < 2 ^ 31 →
     wlog_scan_backward char_signed log buf nrecs go_on =
       Some (0, let all := rev (snd <$> rs) in if nrecs =? 0 then all else take (Z.to_nat nrecs) all)).
Proof.
  intros Hn Hb Hrs. exists (encs rs). rewrite append_all_spec by by eapply loggable_wrec_ok. split; [done|]. intros Hlen.
  rewrite scan_start by done.
  destruct (scan_log_spec char_signed nrecs Hn (S (length (encs rs))) rs [] (encs rs) buf (len (encs rs)) 0 (mk_scan [] 0))
    as (rs1 & rs2 & Ers & E & H); try done; try (unfold len in *; lia).
  - by rewrite app_nil_r.
  - rewrite !drop_ge; [done|unfold len; lia|unfold len in *; lia].
  - unfold unfinished. simpl. lia.
  - intros Hz. destruct rs as [|x rs]; [done|]. pose proof (enc_length x). unfold encs, len in *. cbn in Hz.
    rewrite length_app in Hz. lia.
  - rewrite E. bind_step. do 2 f_equal. rewrite Ers, fmap_app, rev_app_distr. cbn zeta. unfold advance, counted in *.
    cbn [seen recnum app] in *. change (snd <$> rev rs2) with (map snd (rev rs2)). rewrite map_rev.
    change (map snd rs2) with (snd <$> rs2). set (all := rev (snd <$> rs2)) in *.
    assert (length all = length rs2) as El by (unfold all; by rewrite length_rev, length_fmap).
    destruct (Z.eqb_spec nrecs 0) as [Ez|Ez]; destruct H as [[-> Hu]|[? Hu]]; try lia; cbn [fmap list_fmap rev].
    + by rewrite app_nil_r.
    + rewrite app_nil_r, take_ge; [done|]. unfold unfinished in Hu. cbn in Hu. lia.
    + rewrite take_app_length'; [done|lia].
Qed.

(** A record for the examples: a write of 512 bytes by process 7. *)
Definition demo_rec (done : Z) : wlog_rec :=
  mk_wrec 7 1024 512 2 done 0 (str "h" ++ replicate 8 0) 1 (str "/tmp/f" ++ replicate 123 0) 6 (str "7:f" ++ replicate 62 0) 3.
Definition demo_junk : junk := mk_junk 1 2 3 4.

Lemma demo_loggable cs d : (d = 0 ∨ d = 1) → loggable cs (demo_junk, demo_rec d).
Proof. intros [-> | ->]; split_and!; try (vm_compute; done); intros _; vm_compute; done. Qed.

Lemma wlog_scan_correct_witness : ∃ log, append_all [] [(demo_junk, demo_rec 0); (demo_junk, demo_rec 1)] = Some log ∧
  wlog_scan_backward true log (replicate (Z.to_nat BUFSZ) 0) 1 go_on = Some (0, [demo_rec 1]).
Proof.
  destruct (wlog_scan_correct true 1 [(demo_junk, demo_rec 0); (demo_junk, demo_rec 1)] (replicate (Z.to_nat BUFSZ) 0)) as (log & E & H).
  - lia.
  - unfold len. rewrite length_replicate. apply Z2Nat.id. discriminate.
  - repeat (apply Forall_cons; split; [apply demo_loggable; auto|]). apply Forall_nil. exact I.
  - exists log. split; [exact E|]. apply H. vm_compute in E. injection E as <-. vm_compute. reflexivity.
Defined.

(** ** Updates *)

Lemma overwrite_spec a b c l : length b = length l → overwrite (a ++ b ++ c) (length a) l = a ++ l ++ c.
Proof.
  intros Hl. unfold overwrite. replace (length a - length (a ++ b ++ c))%nat with O by (rewrite length_app; lia).
  cbn [replicate]. rewrite app_nil_r, take_app_length. do 2 f_equal.
  rewrite <- Hl, (assoc_L (++)), <- length_app. apply drop_app_length.
Qed.

(** Updating a record in place, as doio does when a write has completed:
    for a log of records that fit the format, [wlog_record_write] at the
    offset that appending a record had given writes the new fixed part and
    nothing else, so the log is the one with the new record in place of the
    old one, provided the names are the same; the scan then reports the new
    record.  The offset is the result. *)
Theorem wlog_update_correct char_signed rs1 j r rs2 j' r' :
  Forall (loggable char_signed) (rs1 ++ (j, r) :: rs2) → loggable char_signed (j', r') →
  names r' = names r → w_pathlen r' = w_pathlen r → w_hostlen r' = w_hostlen r → w_patternlen r' = w_patternlen r →
  ∃ before log log', append_all [] rs1 = Some before ∧ append_all [] (rs1 ++ (j, r) :: rs2) = Some log ∧
    (∃ rest, wlog_record_write true j before r (-1) = Some (len before, rest)) ∧
    append_all [] (rs1 ++ (j', r') :: rs2) = Some log' ∧
    wlog_record_write true j' log r' (len before) = Some (len before, log').
Proof.
  intros Hrs Hr' Hn Hp Hh Ht. apply loggable_wrec_ok in Hrs. destruct Hr' as (_ & Hr' & _). cbn in Hr'.
  apply Forall_app in Hrs as [H1 [H2 H3]%Forall_cons]. cbn in H2. exists (encs rs1), (encs (rs1 ++ (j, r) :: rs2)), (encs (rs1 ++ (j', r') :: rs2)).
  rewrite !append_all_spec by (try apply Forall_app; try split; try apply Forall_cons; try split; done). split_and!; [done..| |done|].
  { eexists. by apply append_spec. }
  unfold wlog_record_write. rewrite (proj2 (Z.ltb_ge _ _)) by (unfold len; lia). cbn [wlog_rec_pack]. bind_step. cbn [negb].
  do 2 f_equal. unfold len. rewrite Nat2Z.id, !encs_app. cbn [encs fmap list_fmap concat].
  unfold enc. cbn [fst snd]. unfold body. rewrite <- !(assoc_L (++)).
  rewrite overwrite_spec by by rewrite !disk_length. do 2 f_equal. rewrite Hn.
  unfold len. by rewrite !length_app, !disk_length.
Qed.

Lemma wlog_update_correct_witness : ∃ before log log',
  append_all [] [(demo_junk, demo_rec 1)] = Some before ∧
  append_all [] [(demo_junk, demo_rec 1); (demo_junk, demo_rec 0); (demo_junk, demo_rec 0)] = Some log ∧
  (∃ rest, wlog_record_write true demo_junk before (demo_rec 0) (-1) = Some (len before, rest)) ∧
  append_all [] [(demo_junk, demo_rec 1); (demo_junk, demo_rec 1); (demo_junk, demo_rec 0)] = Some log' ∧
  wlog_record_write true demo_junk log (demo_rec 1) (len before) = Some (len before, log').
Proof.
  apply (wlog_update_correct true [(demo_junk, demo_rec 1)] demo_junk (demo_rec 0) [(demo_junk, demo_rec 0)] demo_junk (demo_rec 1));
    try reflexivity.
  - repeat (apply Forall_cons; split; [apply demo_loggable; auto|]). apply Forall_nil. exact I.
  - apply demo_loggable. auto.
Defined.

(** ** Where the format is too narrow *)

Lemma scan_buf_negative nrecs A x fuel s : wrec_ok x.2 → 128 ≤ len (body x.1 x.2) →
  scan_buf true go_on nrecs (S fuel) (A ++ enc x ++ []) (len A) (len A + len (enc x)) s = None.
Proof.
  intros Hr Hlen. pose proof (body_bounds x.1 x.2 Hr) as Hb. pose proof (enc_length x) as Hel. cbn [scan_buf].
  set (b := body x.1 x.2) in *. rewrite Hel. do 2 rewrite (proj2 (Z.ltb_ge _ _)) by lia.
  assert (A ++ enc x ++ [] = A ++ (b ++ [len b / 256]) ++ [len b mod 256]) as E1 by (unfold enc; by rewrite <- !(assoc_L (++))).
  assert (A ++ enc x ++ [] = A ++ ((b ++ [len b / 256]) ++ [len b mod 256]) ++ []) as E2 by (unfold enc; by rewrite <- !(assoc_L (++))).
  rewrite E1 at 1. rewrite byte_at_app by lia. bind_step.
  rewrite E2 at 1. rewrite byte_at_app by (unfold len; rewrite length_app; simpl; lia). bind_step.
  rewrite Z.div_small, Z.mod_small by lia. unfold char_val. cbn [andb].
  rewrite (proj2 (Z.leb_gt 128 0)) by lia. rewrite (proj2 (Z.leb_le _ _)) by lia.
  rewrite (proj2 (Z.ltb_ge _ _)) by lia. by rewrite (proj2 (Z.ltb_lt _ _)) by lia.
Qed.

(** On targets where characters are signed (x86), a log whose last record
    is 128 bytes or longer, which the format allows, cannot be scanned: the
    length read from its last two bytes is negative, and becomes the size of
    a [memcpy] onto the stack, whatever the buffer held. *)
Theorem wlog_scan_signed_char nrecs j r buf :
  0 ≤ nrecs → wrec_ok r → len buf = BUFSZ → 128 ≤ len (body j r) →
  ∃ log, append_all [] [(j, r)] = Some log ∧ wlog_scan_backward true log buf nrecs go_on = None.
Proof.
  intros Hn Hr Hb Hlen. exists (encs [(j, r)]). rewrite append_all_spec by by apply Forall_singleton. split; [done|].
  pose proof (body_bounds j r Hr). pose proof (enc_length (j, r)) as Hel. cbn [fst snd] in Hel.
  assert (encs [(j, r)] = enc (j, r)) as -> by (cbn; by rewrite app_nil_r).
  set (es := enc (j, r)) in *. assert (len es < BUFSZ) by (unfold BUFSZ; lia).
  rewrite scan_start by (unfold BUFSZ in *; lia). cbn [scan_log recnum].
  replace (((nrecs =? 0) || (0 <? nrecs)) && (0 <? len es)) with true; cycle 1.
  { rewrite (proj2 (Z.ltb_lt 0 (len es))), andb_true_r by lia. destruct (Z.eqb_spec nrecs 0); [done|]. by rewrite (proj2 (Z.ltb_lt _ _)) by lia. }
  rewrite Z.add_0_r, (proj2 (Z.ltb_lt (len es) BUFSZ)) by done.
  replace (BUFSZ - (BUFSZ - len es) - 0) with (len es - 0) by lia.
  pose proof (refill es es [] buf 0 (len es) 0) as Hput. cbn zeta in Hput.
  replace (BUFSZ - 0 - (len es - 0)) with (BUFSZ - len es) in Hput by lia. rewrite Hput; try done; try lia;
    [|by rewrite app_nil_r|rewrite !drop_ge; [done|unfold len; lia|unfold len in *; lia]].
  bind_step. rewrite drop_0. set (A := take _ buf).
  assert (len A = BUFSZ - len es) as EA by (unfold A, len in *; rewrite length_take; lia).
  rewrite <- EA. replace BUFSZ with (len A + len es) at 2 by lia. unfold es. by rewrite scan_buf_negative.
Qed.

(** A record with a path of 100 bytes. *)
Definition long_rec : wlog_rec :=
  mk_wrec 7 1024 512 2 0 0 (str "h" ++ replicate 8 0) 1 (replicate 100 97 ++ replicate 29 0) 100 (str "7:f" ++ replicate 62 0) 3.

Lemma wlog_scan_signed_char_witness : ∃ log, append_all [] [(demo_junk, long_rec)] = Some log ∧
  wlog_scan_backward true log (replicate (Z.to_nat BUFSZ) 0) 0 go_on = None.
Proof.
  apply (wlog_scan_signed_char 0 demo_junk long_rec).
  - lia.
  - split_and!; try (vm_compute; done).
  - unfold len. rewrite length_replicate. apply Z2Nat.id. discriminate.
  - vm_compute. discriminate.
Defined.

(** A path of [WLOG_MAX_PATH] characters and a pattern of [WLOG_MAX_PATTERN]
    characters are lost: their lengths do not fit the fields of 7 and 6 bits. *)
Lemma wlog_max_names_lost j r :
  w_pathlen r = Z.of_nat WLOG_MAX_PATH → w_patternlen r = Z.of_nat WLOG_MAX_PATTERN →
  d_pathlen (to_disk j r) = 0 ∧ d_patternlen (to_disk j r) = 0.
Proof. intros Hp Ht. unfold to_disk. cbn. by rewrite Hp, Ht. Qed.
