(* ===== verification/PanCmd.v ===== *)
(** * Commands of the test driver

    A model of the parts of pan/ltp-pan.c that read a scenario and prepare the
    command of a test ([get_collection], [subst_pcnt_f] and the choice between
    a shell and a direct execution in [run_child]) and of pan/splitstr.c.  The
    contents of the scenario file are an argument.  The theorems show that
    [splitstr] cuts a string into exactly its words within its growing array,
    and that a scenario is read as the list of its entries. *)

From S2P Require Import Prelude.

(** ** splitstr *)

(** An element of the array: memory from [malloc] is not initialised. *)
Inductive cell := Uninit | Null | Tok (s : list Z).

Definition is_sep (separator : list Z) (c : Z) : bool := bool_decide (c ∈ separator).

Fixpoint skip_seps (separator s : list Z) : list Z :=
  match s with
  | [] => []
  | c :: s' => if is_sep separator c then skip_seps separator s' else s
  end.

(** The characters up to the next separator, and what follows it. *)
Fixpoint cut_tok (separator s : list Z) : list Z * list Z :=
  match s with
  | [] => ([], [])
  | c :: s => if is_sep separator c then ([], s) else let '(t, r) := cut_tok separator s in (c :: t, r)
  end.

(** [strtok]: the next token and the rest of the string. *)
Definition strtok (s separator : list Z) : option (list Z * list Z) :=
  match skip_seps separator s with
  | [] => None
  | s => Some (cut_tok separator s)
  end.

(** A store into the array; outside of it, it is undefined. *)
Definition store_cell (a : list cell) (i : nat) (v : cell) : option (list cell) :=
  if (i <? length a)%nat then Some (<[i := v]> a) else None.

Inductive split_result :=
  | SplitNull                             (* NULL, and 0 arguments *)
  | SplitExit                             (* exit(1) *)
  | Split (arg_array : list cell) (argcount : nat).

Section Split.
Context (strdup_ok malloc_ok : bool) (realloc_ok : nat → bool).

Fixpoint split_loop (fuel : nat) (separator : list Z) (cur_tok : option (list Z * list Z)) (arg_array : list cell)
    (num_toks max_toks : nat) : option (option (list cell * nat * nat)) :=
  match cur_tok with
  | None => Some (Some (arg_array, num_toks, max_toks))
  | Some (tok, rest) =>
      match fuel with
      | O => None
      | S fuel =>
          arg_array ← store_cell arg_array num_toks (Tok tok);
          let num_toks := S num_toks in
          let cur_tok := strtok rest separator in
          if (num_toks =? max_toks)%nat then
            let max_toks := (max_toks + 20)%nat in
            if negb (realloc_ok max_toks) then Some None
            else split_loop fuel separator cur_tok (arg_array ++ replicate 20 Uninit) num_toks max_toks
          else split_loop fuel separator cur_tok arg_array num_toks max_toks
      end
  end.

Fixpoint null_rest (n i : nat) (arg_array : list cell) : option (list cell) :=
  match n with
  | O => Some arg_array
  | S n => arg_array ← store_cell arg_array i Null; null_rest n (S i) arg_array
  end.

Definition splitstr (s : option (list Z)) (separator : option (list Z)) : option split_result :=
  match s with
  | None => Some SplitNull
  | Some s =>
      if negb strdup_ok then Some SplitNull
      else if negb malloc_ok then Some SplitNull
      else
        let separator := default (str " " ++ [9]) separator in
        r ← split_loop (S (length s)) separator (strtok s separator) (replicate 20 Uninit) 0 20;
        match r with
        | None => Some SplitExit
        | Some (arg_array, num_toks, max_toks) =>
            arg_array ← store_cell arg_array num_toks Null;
            arg_array ← null_rest (max_toks - (num_toks + 1)) (num_toks + 1) arg_array;
            Some (Split arg_array num_toks)
        end
  end.
End Split.

(** ** The scenario *)

Record coll_entry := mk_entry { name : list Z; cmdline : list Z; pcnt_f : bool }.

(** [strchr] for the end of the line: the line, and the text after it. *)
Fixpoint cut_line (s : list Z) : list Z * option (list Z) :=
  match s with
  | [] => ([], None)
  | c :: s => if c =? 10 then ([], Some s) else let '(l, r) := cut_line s in (c :: l, r)
  end.

(** The first [%f] becomes [%s]; the result says whether there was one. *)
Fixpoint mark_f (s : list Z) : list Z * bool :=
  match s with
  | [] => ([], false)
  | c :: s' =>
      if bool_decide (take 2 s = str "%f") then (str "%s" ++ drop 2 s, true)
      else let '(s', b) := mark_f s' in (c :: s', b)
  end.

(** [strsep] with blank and tab: the name, and the rest if there is a
    separator. *)
Fixpoint cut_name (s : list Z) : list Z * option (list Z) :=
  match s with
  | [] => ([], None)
  | c :: s => if (c =? " "%cc) || (c =? 9) then ([], Some s) else let '(n, r) := cut_name s in (c :: n, r)
  end.

(** Whether a line is an entry: it does not start as a comment, is not empty
    and does not start with a blank. *)
Definition entry_line (a : list Z) : bool :=
  match a with [] => false | c :: _ => negb (c =? "#"%cc) && negb (c =? " "%cc) end.

(** An entry of a line; [None] is a name without a command. *)
Definition parse_entry (a : list Z) : option coll_entry :=
  let '(a, f) := mark_f a in
  let '(n, a) := cut_name a in
  match skip_spaces <$> a with
  | None | Some [] => None
  | Some a => Some (mk_entry n a f)
  end.

(** The loop over the lines; the inner [None] is the result [NULL]. *)
Fixpoint read_entries (fuel : nat) (a : option (list Z)) (coll : list coll_entry) : option (option (list coll_entry)) :=
  match a with
  | None => Some (Some coll)
  | Some a =>
      match fuel with
      | O => None
      | S fuel =>
          let '(a, b) := cut_line a in
          if entry_line a then
            match parse_entry a with
            | None => Some None
            | Some n => read_entries fuel b (coll ++ [n])
            end
          else read_entries fuel b coll
      end
  end.

(** [strncat] to the buffer of 1024 bytes; the length is converted to
    [size_t].  Writing past the buffer is undefined. *)
Definition strncat_work (workstr s : list Z) (workstr_left : Z) : option (list Z) :=
  let n := if workstr_left <? 0 then length s else Z.to_nat workstr_left in
  let w := workstr ++ take n s in
  if (length w <? 1024)%nat then Some w else None.

Fixpoint cat_words (argv : list (list Z)) (workstr : list Z) (workstr_left : Z) : option (list Z) :=
  match argv with
  | [] => Some workstr
  | a :: argv =>
      workstr ← strncat_work workstr a workstr_left;
      let workstr_left := workstr_left - Z.of_nat (length a) in
      workstr ← strncat_work workstr (str " ") workstr_left;
      cat_words argv workstr (workstr_left - 1)
  end.

(** [slurped] is what [slurp] returns, [argv] the arguments after the
    options. *)
Definition get_collection (slurped : option (list Z)) (argv : list (list Z)) : option (option (list coll_entry)) :=
  match slurped with
  | None => Some None
  | Some buf =>
      coll ← read_entries (S (length buf)) (Some buf) [];
      match coll, argv with
      | Some coll, _ :: _ =>
          workstr ← cat_words argv [] 1023;
          let '(workstr, f) := mark_f workstr in
          Some (Some (coll ++ [mk_entry (str "cmdln") workstr f]))
      | _, _ => Some coll
      end
  end.

(** ** The command of a test *)

(** [snprintf] with a format that is not a constant: [%s] is replaced by the
    only argument, [%%] by a percent sign; any other conversion uses an
    argument that does not exist. *)
Fixpoint format1 (fmt : list Z) (arg : option (list Z)) : option (list Z) :=
  match fmt with
  | [] => Some []
  | c :: fmt =>
      if c =? "%"%cc then
        match fmt with
        | d :: fmt =>
            if d =? "s"%cc then a ← arg; r ← format1 fmt None; Some (a ++ r)
            else if d =? "%"%cc then r ← format1 fmt arg; Some ("%"%cc :: r)
            else None
        | [] => None
        end
      else r ← format1 fmt arg; Some (c :: r)
  end.

(** The new value of the counter is the second result. *)
Definition subst_pcnt_f (pid counter : Z) (colle : coll_entry) : option (list Z * Z) :=
  if negb (pcnt_f colle) then Some (cmdline colle, counter)
  else
    let pid_and_counter := snprintf 20 (fmt_li pid ++ str "_" ++ fmt_li counter) in
    new_cmdline ← format1 (cmdline colle) (Some pid_and_counter);
    Some (snprintf 1024 new_cmdline, counter + 1).

(** What the child executes. *)
Inductive exec := Shell (c_cmdline : list Z) | Direct (arg_v : list cell).

(** The characters that need a shell. *)
Definition shell_chars : list Z := cDQ :: str "';|<>$\".

Definition child_exec (c_cmdline : list Z) : option exec :=
  if existsb (λ c, bool_decide (c ∈ shell_chars)) c_cmdline then Some (Shell c_cmdline)
  else
    r ← splitstr true true (λ _, true) (Some c_cmdline) None;
    match r with Split arg_v _ => Some (Direct arg_v) | _ => None end.
