(* ===== verification/PanCmdFacts.v ===== *)
(** * Theorems on the commands of the test driver

    [splitstr] returns the words of a string in an array that always has
    room for its terminator; a scenario file is read as the list of its
    entries; the counter file name is substituted once. *)

From S2P Require Import Prelude PanCmd.

(** ** Words *)

Section Words.
Context (separator : list Z).
Abbreviation sep c := (is_sep separator c = true).
Abbreviation word c := (is_sep separator c = false).

(** The words of a string: the longest pieces without a separator. *)
Inductive split_as : list Z → list (list Z) → Prop :=
  | split_none s : Forall (λ c, sep c) s → split_as s []
  | split_last pre tok : Forall (λ c, sep c) pre → tok ≠ [] → Forall (λ c, word c) tok → split_as (pre ++ tok) [tok]
  | split_more pre tok c rest toks :
      Forall (λ c, sep c) pre → tok ≠ [] → Forall (λ c, word c) tok → sep c → split_as rest toks →
      split_as (pre ++ tok ++ c :: rest) (tok :: toks).

Lemma skip_seps_app pre s : Forall (λ c, sep c) pre → skip_seps separator (pre ++ s) = skip_seps separator s.
Proof. induction 1 as [|c pre Hc _ IH]; [done|]. cbn. by rewrite Hc. Qed.

Lemma skip_seps_word tok s : tok ≠ [] → Forall (λ c, word c) tok → skip_seps separator (tok ++ s) = tok ++ s.
Proof. intros Hn Hw. destruct Hw as [|c tok Hc _]; [done|]. cbn. by rewrite Hc. Qed.

Lemma cut_tok_word tok s : Forall (λ c, word c) tok →
  cut_tok separator (tok ++ s) = (tok ++ (cut_tok separator s).1, (cut_tok separator s).2).
Proof.
  induction 1 as [|c tok Hc _ IH]; cbn; [by destruct (cut_tok separator s)|]. by rewrite Hc, IH.
Qed.

Lemma strtok_at pre tok s : Forall (λ c, sep c) pre → tok ≠ [] → Forall (λ c, word c) tok →
  strtok (pre ++ tok ++ s) separator = Some (cut_tok separator (tok ++ s)).
Proof.
  intros Hp Hn Hw. unfold strtok. rewrite skip_seps_app, skip_seps_word by done. by destruct tok.
Qed.

Lemma strtok_none s : Forall (λ c, sep c) s → strtok s separator = None.
Proof. intros H. unfold strtok. rewrite <- (app_nil_r s), skip_seps_app by done. done. Qed.

(** Every string has words. *)
Lemma split_total s : ∃ toks, split_as s toks.
Proof.
  assert (∀ n s, (length s ≤ n)%nat → ∃ toks, split_as s toks) as H; [|by apply (H (length s))].
  intros n. induction n as [|n IH]; intros l Hl.
  { destruct l; [|simpl in Hl; lia]. exists []. by constructor. }
  assert (∃ pre r, l = pre ++ r ∧ Forall (λ c, sep c) pre ∧ (r = [] ∨ ∃ c r', r = c :: r' ∧ word c)) as (pre & r & -> & Hp & Hr).
  { clear. induction l as [|c l (pre & r & -> & Hp & Hr)]; [exists [], []; split_and!; try done; by left|].
    destruct (is_sep separator c) eqn:E; [exists (c :: pre), r; split_and!; [done|by constructor|done]|].
    exists [], (c :: pre ++ r). split_and!; [done|done|right; eauto]. }
  destruct Hr as [-> |(c & r' & -> & Hc)]; [exists []; constructor; by rewrite app_nil_r|].
  assert (∃ tok q, c :: r' = tok ++ q ∧ tok ≠ [] ∧ Forall (λ c, word c) tok ∧ (q = [] ∨ ∃ d q', q = d :: q' ∧ sep d)) as (tok & q & E & Hn & Hw & Hq).
  { clear -Hc. revert c Hc. induction r' as [|d r' IH]; intros c Hc; [exists [c], []; split_and!; try done; [by constructor|by left]|].
    destruct (is_sep separator d) eqn:Ed; [exists [c], (d :: r'); split_and!; try done; [by constructor|right; eauto]|].
    destruct (IH d Ed) as (tok & q & E & _ & Hw & Hq). exists (c :: tok), q. rewrite E. split_and!; try done. by constructor. }
  rewrite E. destruct Hq as [-> |(d & q' & -> & Hd)]; [rewrite app_nil_r; eexists; by apply split_last|].
  destruct (IH q') as [toks Ht]; [|exists (tok :: toks); by apply split_more].
  rewrite E, !length_app in Hl. simpl in Hl. destruct tok; [done|]. simpl in Hl. lia.
Qed.

(** ** The array *)

Definition array_of (toks : list (list Z)) (k : nat) : list cell := (Tok <$> toks) ++ replicate (S k) Uninit.

Lemma store_next toks k t : store_cell (array_of toks k) (length toks) (Tok t) = Some ((Tok <$> (toks ++ [t])) ++ replicate k Uninit).
Proof.
  unfold store_cell, array_of. rewrite length_app, length_fmap, length_replicate, (proj2 (Nat.ltb_lt _ _)) by lia.
  f_equal. rewrite insert_app_r_alt by (rewrite length_fmap; lia). rewrite length_fmap, Nat.sub_diag. cbn.
  rewrite fmap_app, <- (assoc_L (++)). done.
Qed.

(** The array is full with 20, 40, ... words, and then grows. *)
Definition room (n : nat) : nat := (19 - n mod 20)%nat.

Lemma room_S n : room n ≠ O → room (S n) = (room n - 1)%nat.
Proof.
  unfold room. intros H. pose proof (Nat.mod_upper_bound n 20 ltac:(lia)).
  replace (S n mod 20)%nat with (S (n mod 20)); [lia|].
  rewrite <- Nat.add_1_r, <- (Nat.add_1_r n), Nat.Div0.add_mod. rewrite (Nat.mod_small 1) by lia. symmetry. apply Nat.mod_small. lia.
Qed.

Lemma room_0 n : room n = O → room (S n) = 19%nat.
Proof.
  unfold room. intros H. pose proof (Nat.mod_upper_bound n 20 ltac:(lia)).
  assert (n mod 20 = 19)%nat as E by lia. replace (S n) with (n + 1)%nat by lia. rewrite Nat.Div0.add_mod, E. done.
Qed.

(** The loop after the words [done], and its state when it ends with them. *)
Definition loop_from (fuel : nat) (cur_tok : option (list Z * list Z)) (done : list (list Z)) :=
  split_loop (λ _, true) fuel separator cur_tok (array_of done (room (length done))) (length done)
    (length done + S (room (length done))).
Definition ends_with (done : list (list Z)) : option (option (list cell * nat * nat)) :=
  Some (Some (array_of done (room (length done)), length done, (length done + S (room (length done)))%nat)).

Lemma loop_step fuel tok rest done : loop_from (S fuel) (Some (tok, rest)) done = loop_from fuel (strtok rest separator) (done ++ [tok]).
Proof.
  unfold loop_from. cbn [split_loop]. rewrite store_next. bind_step. rewrite length_app. cbn [length]. rewrite Nat.add_1_r.
  destruct (room (length done)) as [|k] eqn:Er.
  - rewrite (room_0 _ Er), (proj2 (Nat.eqb_eq _ _)) by lia. cbn [negb replicate]. rewrite app_nil_r. f_equal. lia.
  - rewrite room_S, Er, (proj2 (Nat.eqb_neq _ _)) by lia. unfold array_of.
    replace (S (S k - 1)) with (S k) by lia. f_equal. lia.
Qed.

Lemma loop_end fuel done : loop_from fuel None done = ends_with done.
Proof. by destruct fuel. Qed.

Lemma split_loop_spec s toks : split_as s toks → ∀ fuel done, (length s < fuel)%nat →
  loop_from fuel (strtok s separator) done = ends_with (done ++ toks).
Proof.
  induction 1 as [s Hs|pre tok Hp Hn Hw|pre tok c rest toks Hp Hn Hw Hc Hr IH]; intros fuel done Hf.
  - rewrite strtok_none, app_nil_r by done. apply loop_end.
  - destruct fuel as [|fuel]; [lia|]. rewrite <- (app_nil_r tok) at 1. rewrite strtok_at, cut_tok_word by done. cbn [cut_tok fst snd].
    rewrite app_nil_r, loop_step, strtok_none by done. apply loop_end.
  - destruct fuel as [|fuel]; [lia|]. rewrite strtok_at, cut_tok_word by done. cbn [cut_tok]. rewrite Hc. cbn [fst snd].
    rewrite app_nil_r, loop_step, IH by (rewrite !length_app in Hf; simpl in Hf; lia). by rewrite <- (assoc_L (++)).
Qed.

Lemma null_rest_spec n : ∀ a rest, length rest = n → null_rest n (length a) (a ++ rest) = Some (a ++ replicate n Null).
Proof.
  induction n as [|n IH]; intros a [|x rest] Hl; try done; cbn [null_rest replicate].
  unfold store_cell. rewrite length_app, (proj2 (Nat.ltb_lt _ _)) by (simpl; lia). bind_step.
  rewrite insert_app_r_alt, Nat.sub_diag by lia. cbn.
  specialize (IH (a ++ [Null]) rest ltac:(simpl in Hl; lia)). rewrite length_app, <- !(assoc_L (++)) in IH. cbn in IH.
  by rewrite Nat.add_1_r in IH.
Qed.
End Words.

(** [splitstr] returns exactly the words of a string: every string has a
    decomposition into words, the longest pieces without a separator, and for
    it the array holds the words in order, followed by NULL in the rest, which
    is at least one element; the array has grown by 20 as often as needed, and
    no element outside of it is written.  The count is the number of words.
    Memory is assumed to be available. *)
Theorem splitstr_correct s separator :
  let sep := default (str " " ++ [9]) separator in
  (∃ toks, split_as sep s toks) ∧
  ∀ toks, split_as sep s toks →
    splitstr true true (λ _, true) (Some s) separator =
      Some (Split ((Tok <$> toks) ++ replicate (S (room (length toks))) Null) (length toks)).
Proof.
  intros sep. split; [apply split_total|]. intros toks Ht. unfold splitstr. cbn [negb]. fold sep.
  pose proof (split_loop_spec sep s toks Ht (S (length s)) [] ltac:(lia)) as E.
  change (loop_from sep (S (length s)) (strtok s sep) []) with
    (split_loop (λ _, true) (S (length s)) sep (strtok s sep) (replicate 20 Uninit) 0 20) in E. rewrite E. unfold ends_with. bind_step. cbn [app].
  unfold store_cell, array_of. rewrite length_app, length_fmap, length_replicate, (proj2 (Nat.ltb_lt _ _)) by lia. bind_step.
  rewrite insert_app_r_alt by (rewrite length_fmap; lia). rewrite length_fmap, Nat.sub_diag. cbn [replicate insert list_insert].
  pose proof (null_rest_spec (room (length toks)) ((Tok <$> toks) ++ [Null]) (replicate (room (length toks)) Uninit)) as N.
  rewrite length_app, length_fmap, length_replicate, <- !(assoc_L (++)) in N. cbn [app length] in N.
  replace (length toks + S (room (length toks)) - (length toks + 1))%nat with (room (length toks)) by lia. by rewrite N.
Qed.

Lemma splitstr_correct_witness :
  splitstr true true (λ _, true) (Some (str " ls  -l")) None =
    Some (Split ((Tok <$> [str "ls"; str "-l"]) ++ replicate 18 Null) 2).
Proof.
  apply (proj2 (splitstr_correct (str " ls  -l") None) [str "ls"; str "-l"]).
  apply (split_more _ (str " ") (str "ls") (" "%cc) (str " -l") [str "-l"]); try (apply (bool_decide_unpack _); vm_compute; exact I).
  apply (split_last _ (str " ") (str "-l")); apply (bool_decide_unpack _); vm_compute; exact I.
Defined.

(** ** Scenario files *)

Inductive line :=
  | LEmpty
  | LComment (text : list Z)                (* starts with # *)
  | LBlank (text : list Z)                  (* starts with a blank *)
  | LEntry (n sp c : list Z)                (* name, white space, command *)
  | LNoCommand (n sp : list Z).             (* name, perhaps white space *)

Definition render (l : line) : list Z :=
  match l with
  | LEmpty => []
  | LComment t => "#"%cc :: t
  | LBlank t => " "%cc :: t
  | LEntry n sp c => n ++ sp ++ c
  | LNoCommand n sp => n ++ sp
  end.

Definition no_nl (s : list Z) : Prop := 10 ∉ s.

Definition name_char (c : Z) : Prop := c ≠ " "%cc ∧ c ≠ 9 ∧ c ≠ "%"%cc.
Definition first_ok (n : list Z) : Prop := ∃ c n', n = c :: n' ∧ c ≠ "#"%cc.
(** White space that starts with one of the separators of [strsep]. *)
Definition blanks (sp : list Z) : Prop :=
  Forall (λ c, isspace c = true) sp ∧ ∃ c sp', sp = c :: sp' ∧ (c = " "%cc ∨ c = 9).

Definition line_ok (l : line) : Prop :=
  no_nl (render l) ∧
  match l with
  | LEmpty | LComment _ | LBlank _ => True
  | LEntry n sp c => Forall name_char n ∧ first_ok n ∧ blanks sp ∧ ∃ x c', c = x :: c' ∧ isspace x = false
  | LNoCommand n sp => Forall name_char n ∧ first_ok n ∧ (sp = [] ∨ blanks sp)
  end.

(** The file: lines separated by newlines; a file that ends with a newline
    has an empty last line. *)
Fixpoint render_file (l : line) (ls : list line) : list Z :=
  match ls with
  | [] => render l
  | l' :: ls => render l ++ 10 :: render_file l' ls
  end.

Definition has_command (l : line) : Prop := match l with LNoCommand _ _ => False | _ => True end.

Definition entry_of (l : line) : list coll_entry :=
  match l with
  | LEntry n _ c => [mk_entry n (mark_f c).1 (mark_f c).2]
  | _ => []
  end.

Lemma cut_line_end s : no_nl s → cut_line s = (s, None).
Proof.
  induction s as [|c s IH]; intros Hn; [done|]. cbn. apply not_elem_of_cons in Hn as [Hc Hn].
  rewrite (proj2 (Z.eqb_neq _ _)), IH by done. done.
Qed.

Lemma cut_line_nl s r : no_nl s → cut_line (s ++ 10 :: r) = (s, Some r).
Proof.
  induction s as [|c s IH]; intros Hn; [done|]. cbn. apply not_elem_of_cons in Hn as [Hc Hn].
  rewrite (proj2 (Z.eqb_neq _ _)), IH by done. done.
Qed.

Lemma mark_f_app n s : Forall (λ c, c ≠ "%"%cc) n → mark_f (n ++ s) = (n ++ (mark_f s).1, (mark_f s).2).
Proof.
  induction 1 as [|c n Hc _ IH]; cbn [app]; [by destruct (mark_f s)|].
  cbn [mark_f]. rewrite bool_decide_false by (intros E; cbn in E; destruct (n ++ s); cbn in E; simplify_eq). by rewrite IH.
Qed.

Lemma cut_name_sep n c s : Forall name_char n → c = " "%cc ∨ c = 9 → cut_name (n ++ c :: s) = (n, Some s).
Proof.
  intros Hn Hc. induction Hn as [|x n (H1 & H2 & _) _ IH]; cbn [app cut_name].
  - by destruct Hc as [-> | ->].
  - by rewrite (proj2 (Z.eqb_neq _ _) H1), (proj2 (Z.eqb_neq _ _) H2), IH.
Qed.

Lemma cut_name_end n : Forall name_char n → cut_name n = (n, None).
Proof.
  induction 1 as [|x n (H1 & H2 & _) _ IH]; cbn [cut_name]; [done|].
  by rewrite (proj2 (Z.eqb_neq _ _) H1), (proj2 (Z.eqb_neq _ _) H2), IH.
Qed.

Lemma skip_spaces_app sp s : Forall (λ c, isspace c = true) sp → skip_spaces (sp ++ s) = skip_spaces s.
Proof. induction 1 as [|c sp Hc _ IH]; [done|]. cbn. by rewrite Hc. Qed.

Lemma space_not_percent sp : Forall (λ c, isspace c = true) sp → Forall (λ c, c ≠ "%"%cc) sp.
Proof. intros H. eapply Forall_impl; [exact H|]. intros c Hc ->. done. Qed.

Lemma name_not_percent n : Forall name_char n → Forall (λ c, c ≠ "%"%cc) n.
Proof. intros H. eapply Forall_impl; [exact H|]. by intros c (_ & _ & Hc). Qed.

Lemma mark_f_plain n : Forall (λ c, c ≠ "%"%cc) n → mark_f n = (n, false).
Proof. intros H. rewrite <- (app_nil_r n) at 1. rewrite mark_f_app by done. cbn. by rewrite app_nil_r. Qed.

Lemma mark_f_head x c : isspace x = false → ∃ x' c', (mark_f (x :: c)).1 = x' :: c' ∧ isspace x' = false.
Proof.
  intros Hx. cbn [mark_f]. destruct (bool_decide_reflect (take 2 (x :: c) = str "%f")); [by exists ("%"%cc), ("s"%cc :: drop 2 (x :: c))|].
  destruct (mark_f c). by exists x, l.
Qed.

Lemma parse_entry_ok n sp c : line_ok (LEntry n sp c) →
  parse_entry (n ++ sp ++ c) = Some (mk_entry n (mark_f c).1 (mark_f c).2).
Proof.
  intros (_ & Hn & _ & (Hsp & x & sp' & -> & Hx) & y & c' & -> & Hy). unfold parse_entry.
  rewrite mark_f_app by by apply name_not_percent. rewrite mark_f_app by by apply space_not_percent. cbn [fst snd].
  cbn [app]. rewrite cut_name_sep by done. cbn [fmap option_fmap option_map].
  rewrite skip_spaces_app by by apply Forall_cons in Hsp as [_ ?].
  destruct (mark_f_head y c' Hy) as (x' & c'' & E & Hs). rewrite E. cbn [skip_spaces]. by rewrite Hs.
Qed.

Lemma parse_entry_none n sp : line_ok (LNoCommand n sp) → parse_entry (n ++ sp) = None.
Proof.
  intros (_ & Hn & _ & Hsp). unfold parse_entry. rewrite mark_f_app by by apply name_not_percent.
  destruct Hsp as [-> |(Hsp & x & sp' & -> & Hx)]; cbn [fst snd].
  - cbn. rewrite app_nil_r, cut_name_end by done. done.
  - rewrite mark_f_plain by by apply space_not_percent. cbn [fst]. rewrite cut_name_sep by done. cbn.
    rewrite <- (app_nil_r sp'), skip_spaces_app by by apply Forall_cons in Hsp as [_ ?]. done.
Qed.

(** What one line contributes. *)
Lemma read_line l : line_ok l →
  match l with
  | LEntry n _ c => entry_line (render l) = true ∧ parse_entry (render l) = Some (mk_entry n (mark_f c).1 (mark_f c).2)
  | LNoCommand _ _ => entry_line (render l) = true ∧ parse_entry (render l) = None
  | _ => entry_line (render l) = false
  end.
Proof.
  assert (∀ n s, Forall name_char n → first_ok n → entry_line (n ++ s) = true) as He.
  { intros n s Hn (x & n' & -> & Hx). apply Forall_cons in Hn as [(H1 & _) _]. cbn.
    by rewrite (proj2 (Z.eqb_neq _ _) Hx), (proj2 (Z.eqb_neq _ _) H1). }
  intros Hl. destruct l as [|t|t|n sp c|n sp]; try done; pose proof Hl as (_ & Hn & Hf & _).
  - split; [by apply He|by apply (parse_entry_ok n sp c)].
  - split; [by apply He|by apply (parse_entry_none n sp)].
Qed.

Lemma render_file_cons l ls : no_nl (render l) →
  cut_line (render_file l ls) = (render l, match ls with [] => None | l' :: ls => Some (render_file l' ls) end).
Proof. intros Hl. destruct ls; cbn [render_file]; [by apply cut_line_end|by apply cut_line_nl]. Qed.

Lemma read_entries_ok ls : ∀ l fuel coll, Forall line_ok (l :: ls) → Forall has_command (l :: ls) →
  (length (render_file l ls) < fuel)%nat →
  read_entries fuel (Some (render_file l ls)) coll = Some (Some (coll ++ concat (entry_of <$> l :: ls))).
Proof.
  induction ls as [|l' ls IH]; intros l fuel coll Hok Hc Hf; (destruct fuel as [|fuel]; [lia|]); cbn [read_entries];
    apply Forall_cons in Hok as [Hl Hok]; apply Forall_cons in Hc as [Hcl Hc];
    rewrite render_file_cons by apply Hl; pose proof (read_line l Hl) as Hr.
  - assert (∀ f c, read_entries f None c = Some (Some c)) as Hend by (intros [|f] c; done).
    destruct l; try done; cbn [fmap list_fmap entry_of concat]; rewrite ?app_nil_r; try (rewrite Hr; apply Hend).
    destruct Hr as [-> ->]. apply Hend.
  - cbn [render_file] in Hf. rewrite length_app in Hf. cbn [length] in Hf.
    assert (∀ c, read_entries fuel (Some (render_file l' ls)) c = Some (Some (c ++ concat (entry_of <$> l' :: ls)))) as Hgo
      by (intros c; apply IH; [done..|lia]).
    destruct l; try done; cbn [fmap list_fmap entry_of concat]; try (rewrite Hr, Hgo; done).
    destruct Hr as [-> ->]. rewrite Hgo, <- (assoc_L (++)). done.
Qed.

#[export] Instance has_command_dec l : Decision (has_command l).
Proof. destruct l; apply _. Defined.

Lemma read_entries_bad ls : ∀ l fuel coll, Forall line_ok (l :: ls) → ¬ Forall has_command (l :: ls) →
  (length (render_file l ls) < fuel)%nat → read_entries fuel (Some (render_file l ls)) coll = Some None.
Proof.
  induction ls as [|l' ls IH]; intros l fuel coll Hok Hc Hf; (destruct fuel as [|fuel]; [lia|]); cbn [read_entries];
    apply Forall_cons in Hok as [Hl Hok]; rewrite render_file_cons by apply Hl; pose proof (read_line l Hl) as Hr;
    (destruct (decide (has_command l)) as [Hcl|Hcl]; [|destruct l; try (by destruct Hcl); by destruct Hr as [-> ->]]).
  - destruct Hc. by repeat constructor.
  - cbn [render_file] in Hf. rewrite length_app in Hf. cbn [length] in Hf.
    assert (∀ c, read_entries fuel (Some (render_file l' ls)) c = Some None) as Hgo.
    { intros c. apply IH; [done| |lia]. intros H. apply Hc. by constructor. }
    destruct l; try done; try (rewrite Hr; apply Hgo). destruct Hr as [-> ->]. apply Hgo.
Qed.

(** The words of the command line, each followed by a blank. *)
Definition words_text (argv : list (list Z)) : list Z := concat ((λ a, a ++ str " ") <$> argv).

Lemma strncat_fits w s left : Z.of_nat (length w) = 1023 - left → Z.of_nat (length s) ≤ left →
  strncat_work w s left = Some (w ++ s).
Proof.
  intros Hw Hs. unfold strncat_work. cbn zeta. rewrite (proj2 (Z.ltb_ge _ _)), take_ge, length_app, (proj2 (Nat.ltb_lt _ _)) by lia. done.
Qed.

Lemma cat_words_ok argv : ∀ w left, Z.of_nat (length w) = 1023 - left → Z.of_nat (length (words_text argv)) ≤ left →
  cat_words argv w left = Some (w ++ words_text argv).
Proof.
  induction argv as [|a argv IH]; intros w left Hw Hl; [cbn; by rewrite app_nil_r|].
  unfold words_text in *. cbn [fmap list_fmap concat cat_words] in *. rewrite !length_app in Hl.
  change (length (str " ")) with 1%nat in Hl.
  rewrite strncat_fits by lia. bind_step.
  rewrite strncat_fits by (rewrite ?length_app; change (length (str " ")) with 1%nat; lia). bind_step.
  rewrite IH; [by rewrite <- !(assoc_L (++))| |lia]. rewrite !length_app. change (length (str " ")) with 1%nat. lia.
Qed.

Definition cmdln (argv : list (list Z)) : list coll_entry :=
  match argv with
  | [] => []
  | _ => [mk_entry (str "cmdln") (mark_f (words_text argv)).1 (mark_f (words_text argv)).2]
  end.

(** [get_collection] reads any scenario file of empty lines, comments,
    lines that start with a blank, and entries of a name and a command
    separated by white space, as the list of its entries in order, with a
    first %f of a command marked, and adds the words of the command line as
    one more command; a name without a command makes it fail. *)
Theorem get_collection_correct l ls argv :
  Forall line_ok (l :: ls) → Z.of_nat (length (words_text argv)) ≤ 1023 →
  get_collection (Some (render_file l ls)) argv =
    Some (if decide (Forall has_command (l :: ls)) then Some (concat (entry_of <$> l :: ls) ++ cmdln argv) else None).
Proof.
  intros Hok Ha. unfold get_collection. destruct (decide (Forall has_command (l :: ls))) as [Hc|Hc].
  - rewrite read_entries_ok by (done || lia). bind_step. cbn [app]. destruct argv as [|a argv]; [by rewrite app_nil_r|].
    rewrite (cat_words_ok (a :: argv) [] 1023) by done. bind_step. cbn [app]. unfold cmdln. by destruct (mark_f (words_text (a :: argv))).
  - rewrite read_entries_bad by (done || lia). done.
Qed.

Lemma get_collection_correct_witness :
  get_collection (Some (str "#x" ++ 10 :: str "a01 a01 -f %f" ++ 10 :: [])) [str "ls"; str "-l"] =
    Some (Some [mk_entry (str "a01") (str "a01 -f %s") true; mk_entry (str "cmdln") (str "ls -l ") false]).
Proof.
  apply (get_collection_correct (LComment (str "x")) [LEntry (str "a01") (str " ") (str "a01 -f %f"); LEmpty] [str "ls"; str "-l"]).
  - repeat (apply Forall_cons; split; [|try (apply Forall_nil; exact I)]).
    + split; [|exact I]. apply (bool_decide_unpack _). vm_compute. exact I.
    + split; [apply (bool_decide_unpack _); vm_compute; exact I|]. split; [apply (bool_decide_unpack _); vm_compute; exact I|].
      split; [exists ("a"%cc), (str "01"); split; [reflexivity|discriminate]|].
      split; [|exists ("a"%cc), (str "01 -f %f"); split; reflexivity].
      split; [apply (bool_decide_unpack _); vm_compute; exact I|]. exists (" "%cc), []. split; [reflexivity|left; reflexivity].
    + split; [|exact I]. apply (bool_decide_unpack _). vm_compute. exact I.
  - vm_compute. discriminate.
Defined.

(** A long argument overruns the buffer: the room that is left becomes
    negative, and then is a very large unsigned number. *)
Lemma cat_words_overrun a argv : (1023 < length a)%nat → cat_words (a :: argv) [] 1023 = None.
Proof.
  intros Ha. cbn [cat_words]. assert (strncat_work [] a 1023 = Some (take 1023 a)) as ->.
  { unfold strncat_work. cbn zeta. cbn [app]. change (1023 <? 0) with false. change (Z.to_nat 1023) with 1023%nat.
    by rewrite length_take, (proj2 (Nat.ltb_lt _ _)) by lia. }
  bind_step. unfold strncat_work. cbn zeta. rewrite (proj2 (Z.ltb_lt _ _)) by lia.
  change (take (length (str " ")) (str " ")) with (str " ").
  rewrite length_app, length_take, (proj2 (Nat.ltb_ge _ _)) by (change (length (str " ")) with 1%nat; lia). done.
Qed.
