(* ===== verification/Zoolib.v ===== *)
(** * The active file of the test driver

    A model of pan/zoolib.c: a text file that lists what is running, one line
    of 80 characters for each process; free lines start with #.  The file is
    its contents; whether locking succeeds is an argument, and seeking does
    not fail.  The class [ActiveFile] is what the driver relies on; the
    theorems show that the file implements it, with the first free line used
    for a new entry. *)

From S2P Require Import Prelude PanCmd.

Definition BUFLEN : nat := 81.

(** [atoi], by [strtol] and a conversion to [int]. *)
Definition atoi (s : list Z) : Z := wraps 32 (fst (strtol s)).

(** The conversion [%-*.*s]: cut and padded to a width. *)
Definition fmt_left (w : nat) (s : list Z) : list Z := take w s ++ replicate (w - length s) (" "%cc).

Definition write_at (file : list Z) (pos : nat) (text : list Z) : list Z :=
  take pos file ++ text ++ drop (pos + length text) file.

(** The loops over the lines: the first line that passes a test, with its
    position. *)
Fixpoint find_line (fuel : nat) (test : list Z → bool) (pos : nat) (rest : list Z) : option (option (nat * list Z)) :=
  match fuel with
  | O => None
  | S fuel =>
      match fgets BUFLEN rest with
      | None => Some None
      | Some (buf, rest) => if test buf then Some (Some (pos, buf)) else find_line fuel test (pos + length buf) rest
      end
  end.

Definition is_free (buf : list Z) : bool := match buf with c :: _ => c =? "#"%cc | [] => false end.

Definition has_pid (p : Z) (buf : list Z) : bool := negb (is_free buf) && (atoi (c_str buf) =? p).

(** The rest of a string after the first comma. *)
Fixpoint after_comma (s : list Z) : option (list Z) :=
  match s with [] => None | c :: s => if c =? ","%cc then Some s else after_comma s end.

Definition has_tag (tag : list Z) (buf : list Z) : bool :=
  negb (is_free buf) &&
  match after_comma (c_str buf) with
  | None => false
  | Some s => strncmp s tag (length tag) =? 0
  end.

Section Ops.
Context (lock_ok unlock_ok : bool).

Definition zoo_mark (z : list Z) (entry : list Z) : option (Z * list Z) :=
  if negb lock_ok then Some (-1, z)
  else
    r ← find_line (S (length z)) is_free 0 z;
    let z := match r with
             | Some (pos, buf) => write_at z pos (fmt_left (length (c_str buf) - 1) entry ++ [10])
             | None => z ++ fmt_left 79 entry ++ [10]
             end in
    Some (if unlock_ok then 0 else -1, z).

Definition zoo_mark_cmdline (z : list Z) (p : Z) (tag cmdline : list Z) : option (Z * list Z) :=
  zoo_mark z (snprintf 80 (fmt_li p ++ str "," ++ tag ++ str "," ++ cmdline)).

(** [cat_args]: the words with blanks between them, in memory of [size]
    bytes. *)
Definition cat_args (argv : list (list Z)) : option (list Z) :=
  let size := foldr (λ a n, (length a + 1 + n)%nat) O argv in
  let cmd := concat (match argv with [] => [] | a :: argv => a :: ((λ a, str " " ++ a) <$> argv) end) in
  if (length cmd <? size)%nat then Some cmd else None.

Definition zoo_mark_args (z : list Z) (p : Z) (tag : list Z) (av : list (list Z)) : option (Z * list Z) :=
  cmdline ← cat_args av; zoo_mark_cmdline z p tag cmdline.

Definition zoo_clear (z : list Z) (p : Z) : option (Z * list Z) :=
  if negb lock_ok then Some (-1, z)
  else
    r ← find_line (S (length z)) (has_pid p) 0 z;
    let z := match r with Some (pos, _) => write_at z pos (str "#") | None => z end in
    Some (if unlock_ok then match r with Some _ => 0 | None => 1 end else -1, z).

Definition zoo_getpid (z : list Z) (tag : list Z) : option Z :=
  if negb lock_ok then Some (-1)
  else
    r ← find_line (S (length z)) (has_tag tag) 0 z;
    Some (if unlock_ok then match r with Some (_, buf) => atoi (c_str buf) | None => -1 end else -1).
End Ops.

(** ** What the driver relies on *)

Definition clean (s : list Z) : Prop := (10 ∉ s) ∧ (0 ∉ s).

(** The processes that are entered in an active file; [None] is undefined
    behaviour. *)
Class ActiveFile (F : Type) := {
  af_mark : F → Z → list Z → list Z → option (Z * F);
  af_clear : F → Z → option (Z * F);
  af_ok : F → Prop;
  af_pids : F → list Z;
  af_mark_law f p tag cmd : af_ok f → 0 ≤ p < 2 ^ 31 → clean tag → clean cmd →
    ∃ f', af_mark f p tag cmd = Some (0, f') ∧ af_ok f' ∧ af_pids f' ≡ₚ p :: af_pids f;
  af_clear_law f p : af_ok f → p ∈ af_pids f →
    ∃ f', af_clear f p = Some (0, f') ∧ af_ok f' ∧ af_pids f ≡ₚ p :: af_pids f'
}.

(** ** Files of lines *)

Definition line_wf (l : list Z) : Prop := length l = 79%nat ∧ clean l.
Definition text (ls : list (list Z)) : list Z := concat ((λ l, l ++ [10]) <$> ls).

Lemma no_newline l : 10 ∉ l → Forall (λ c, c ≠ 10) l.
Proof. intros Hl. apply Forall_forall. by intros c Hc ->. Qed.

Lemma find_line_text test ls : ∀ fuel pos, Forall line_wf ls → (length (text ls) < fuel)%nat →
  find_line fuel test pos (text ls) =
    Some match list_find (λ l, test (l ++ [10]) = true) ls with
         | Some (i, l) => Some ((pos + 80 * i)%nat, l ++ [10])
         | None => None
         end.
Proof.
  induction ls as [|l ls IH]; intros [|fuel] pos Hls Hf; try (simpl in Hf; lia); [done|].
  apply Forall_cons in Hls as [[Hl [Hn _]] Hls]. unfold text in *. cbn [fmap list_fmap concat find_line list_find] in *.
  rewrite <- (assoc_L (++)) in *. cbn [app] in *. rewrite length_app in Hf. cbn [length] in Hf.
  unfold fgets. destruct (l ++ 10 :: _) as [|x y] eqn:E; [by destruct l|]. rewrite <- E.
  rewrite fgets_go_line by ((by apply no_newline) || (unfold BUFLEN; lia)). destruct (test (l ++ [10])) eqn:Et.
  - rewrite decide_True by done. do 3 f_equal. lia.
  - rewrite decide_False by done. rewrite IH by (done || lia).
    destruct (list_find _ ls) as [[i l']|]; cbn; [|done]. do 3 f_equal. rewrite length_app, Hl. simpl. lia.
Qed.

Lemma text_app ls ls' : text (ls ++ ls') = text ls ++ text ls'.
Proof. unfold text. by rewrite fmap_app, concat_app. Qed.

Lemma text_length ls : Forall line_wf ls → length (text ls) = (80 * length ls)%nat.
Proof.
  induction 1 as [|l ls [Hl _] _ IH]; [done|]. unfold text in *. cbn [fmap list_fmap concat length].
  rewrite !length_app, IH, Hl. simpl. lia.
Qed.

(** Writing at the start of a line. *)
Lemma write_line ls1 l ls2 new : Forall line_wf ls1 → (length new ≤ 80)%nat → length l = 79%nat →
  write_at (text (ls1 ++ l :: ls2)) (80 * length ls1) new = text ls1 ++ new ++ drop (length new) (l ++ [10]) ++ text ls2.
Proof.
  intros H1 Hn Hl. unfold write_at. rewrite text_app, <- text_length by done. rewrite take_app_length. f_equal. f_equal.
  rewrite drop_app_add. change (text (l :: ls2)) with ((l ++ [10]) ++ text ls2).
  rewrite drop_app_le by (rewrite length_app; simpl; lia). done.
Qed.

Lemma clean_app a b : clean (a ++ b) ↔ clean a ∧ clean b.
Proof. unfold clean. rewrite !not_elem_of_app. tauto. Qed.

Lemma clean_take n a : clean a → clean (take n a).
Proof. intros H. rewrite <- (take_drop n a) in H. by apply clean_app in H as [? _]. Qed.

Lemma c_str_line l : line_wf l → c_str (l ++ [10]) = l ++ [10].
Proof. intros (_ & _ & H). apply c_str_clean, not_elem_of_app. split; [done|]. apply not_elem_of_cons. by split; [|apply not_elem_of_nil]. Qed.

Lemma fmt_left_wf e : clean e → line_wf (fmt_left 79 e).
Proof.
  intros He. unfold fmt_left. split.
  - rewrite length_app, length_take, length_replicate. lia.
  - apply clean_app. split; [by apply clean_take|]. unfold clean. rewrite !elem_of_replicate. by split; intros [? _].
Qed.

(** ** The operations on the lines *)

Definition free_line (l : list Z) : bool := is_free (l ++ [10]).
Definition pid_line (p : Z) (l : list Z) : bool := has_pid p (l ++ [10]).

Definition mark_lines (ls : list (list Z)) (e : list Z) : list (list Z) :=
  match list_find (λ l, free_line l = true) ls with
  | Some (i, _) => <[i := fmt_left 79 e]> ls
  | None => ls ++ [fmt_left 79 e]
  end.

Definition clear_lines (ls : list (list Z)) (p : Z) : list (list Z) :=
  match list_find (λ l, pid_line p l = true) ls with
  | Some (i, l) => <[i := "#"%cc :: drop 1 l]> ls
  | None => ls
  end.

(** A line that is found, with the lines around it. *)
Lemma find_split (P : list Z → Prop) `{∀ l, Decision (P l)} ls i l : list_find P ls = Some (i, l) →
  ∃ ls1 ls2, ls = ls1 ++ l :: ls2 ∧ length ls1 = i ∧ P l ∧ Forall (λ l, ¬ P l) ls1.
Proof.
  intros Hf. apply list_find_Some in Hf as (Hi & Hp & Hlt). exists (take i ls), (drop (S i) ls).
  split_and!; [symmetry; by apply take_drop_middle| |done|].
  - rewrite length_take. apply lookup_lt_Some in Hi. lia.
  - apply Forall_forall. intros x [j Hj]%list_elem_of_lookup. apply lookup_take_Some in Hj as [Hj Hji]. by eapply Hlt.
Qed.

Lemma insert_at (ls1 : list (list Z)) l ls2 x : <[length ls1 := x]> (ls1 ++ l :: ls2) = ls1 ++ x :: ls2.
Proof. rewrite insert_app_r_alt, Nat.sub_diag by lia. done. Qed.

Lemma zoo_mark_lines ls e : Forall line_wf ls → clean e →
  zoo_mark true true (text ls) e = Some (0, text (mark_lines ls e)) ∧ Forall line_wf (mark_lines ls e).
Proof.
  intros Hls He. pose proof (fmt_left_wf e He) as Hnew. unfold zoo_mark, mark_lines. cbn [negb].
  rewrite find_line_text by (done || lia). bind_step. change (list_find _ ls) with (list_find (λ l, free_line l = true) ls).
  destruct (list_find _ ls) as [[i l]|] eqn:E.
  - apply find_split in E as (ls1 & ls2 & -> & <- & Hfree & _). apply Forall_app in Hls as [H1 [Hl H2]%Forall_cons].
    rewrite insert_at. split; [|apply Forall_app; split; [done|by constructor]]. rewrite c_str_line by done. destruct Hl as [Hl _].
    replace (length (l ++ [10%Z]) - 1)%nat with 79%nat by (rewrite length_app, Hl; simpl; lia). do 2 f_equal. cbn [Nat.add].
    rewrite write_line; [|done|rewrite length_app, (proj1 Hnew); simpl; lia|done].
    rewrite drop_ge by (rewrite !length_app, Hl, (proj1 Hnew); done). by rewrite text_app.
  - rewrite text_app. split; [|apply Forall_app; split; [done|by constructor]]. do 3 f_equal. unfold text. cbn. by rewrite app_nil_r.
Qed.

Lemma zoo_clear_lines ls p : Forall line_wf ls →
  zoo_clear true true (text ls) p =
    Some (match list_find (λ l, pid_line p l = true) ls with Some _ => 0 | None => 1 end, text (clear_lines ls p)) ∧ Forall line_wf (clear_lines ls p).
Proof.
  intros Hls. unfold zoo_clear, clear_lines. cbn [negb].
  rewrite find_line_text by (done || lia). bind_step. change (list_find _ ls) with (list_find (λ l, pid_line p l = true) ls).
  destruct (list_find _ ls) as [[i l]|] eqn:E; [|done].
  apply find_split in E as (ls1 & ls2 & -> & <- & Hpid & _). apply Forall_app in Hls as [H1 [Hl H2]%Forall_cons].
  destruct Hl as [Hl Hcl]. destruct l as [|c l]; [done|]. rewrite insert_at. cbn [drop]. rewrite drop_0. split.
  - do 2 f_equal. cbn [Nat.add]. rewrite write_line; [|done|simpl; lia|done]. cbn. rewrite drop_0, text_app. done.
  - apply Forall_app. split; [done|]. constructor; [|done]. split; [done|]. apply (clean_app [c] l) in Hcl as [_ Hcl].
    apply (clean_app [_] l). split; [|done]. unfold clean. by rewrite !list_elem_of_singleton.
Qed.

(** ** The entries *)

(** The process of a line of the file. *)
Definition line_pid (buf : list Z) : option Z := if is_free buf then None else Some (atoi (c_str buf)).

Fixpoint file_pids (fuel : nat) (z : list Z) : list Z :=
  match fuel with
  | O => []
  | S fuel =>
      match fgets BUFLEN z with
      | None => []
      | Some (buf, z) => match line_pid buf with Some p => p :: file_pids fuel z | None => file_pids fuel z end
      end
  end.

Definition pids (ls : list (list Z)) : list Z := omap (λ l, line_pid (l ++ [10])) ls.

Lemma file_pids_text ls : ∀ fuel, Forall line_wf ls → (length ls < fuel)%nat → file_pids fuel (text ls) = pids ls.
Proof.
  induction ls as [|l ls IH]; intros [|fuel] Hls Hf; try (simpl in Hf; lia); [done|].
  apply Forall_cons in Hls as [[Hl [Hn _]] Hls]. unfold text, pids in *. cbn [fmap list_fmap concat file_pids omap list_omap].
  rewrite <- (assoc_L (++)). cbn [app]. unfold fgets. destruct (l ++ 10 :: _) as [|x y] eqn:E; [by destruct l|]. rewrite <- E.
  rewrite fgets_go_line by ((by apply no_newline) || (unfold BUFLEN; lia)). simpl in Hf. rewrite IH by (done || lia).
  by destruct (line_pid (l ++ [10])).
Qed.

Lemma atoi_dec p c r : 0 ≤ p < 2 ^ 31 → isdigit c = false → atoi (dec p ++ c :: r) = p.
Proof. intros Hp Hc. unfold atoi. rewrite (proj1 (strtol_dec p (c :: r) ltac:(lia) Hc)). apply wraps_small; cbn; lia. Qed.

Definition entry (p : Z) (tag cmd : list Z) : list Z := snprintf 80 (fmt_li p ++ str "," ++ tag ++ str "," ++ cmd).

Lemma clean_digits ds : Forall digit ds → clean ds.
Proof.
  intros H. rewrite Forall_forall in H. unfold digit in H. change ("0"%cc) with 48 in H. change ("9"%cc) with 57 in H.
  split; intros Hin; apply H in Hin; lia.
Qed.

Lemma clean_comma : clean (str ",").
Proof. split; apply (bool_decide_unpack _); vm_compute; exact I. Qed.

Lemma entry_clean p tag cmd : 0 ≤ p < 2 ^ 31 → clean tag → clean cmd → clean (entry p tag cmd).
Proof.
  intros Hp Ht Hc. unfold entry, snprintf, fmt_li. rewrite (proj2 (Z.ltb_ge _ _)) by lia. apply clean_take.
  rewrite !clean_app. destruct (dec_spec p ltac:(lia)) as (Hd & _). split_and!; try done; [by apply clean_digits|..]; exact clean_comma.
Qed.

Lemma entry_pid p tag cmd : 0 ≤ p < 2 ^ 31 → clean tag → clean cmd →
  line_pid (fmt_left 79 (entry p tag cmd) ++ [10]) = Some p.
Proof.
  intros Hp Ht Hc. pose proof (fmt_left_wf _ (entry_clean p tag cmd Hp Ht Hc)) as Hwf. unfold line_pid. rewrite c_str_line by done.
  assert (length (dec p) ≤ 10)%nat as Hlen by (apply dec_go_length; [change (10 ^ Z.of_nat 10) with 10000000000; lia|lia]).
  assert (∃ r, fmt_left 79 (entry p tag cmd) ++ [10] = dec p ++ ","%cc :: r) as [r ->].
  { unfold fmt_left, entry, snprintf, fmt_li. rewrite (proj2 (Z.ltb_ge _ _)) by lia.
    change (str ",") with [","%cc]. rewrite take_take, take_app_ge by (simpl; lia).
    destruct (Init.Nat.min 79 (80 - 1) - length (dec p))%nat as [|k] eqn:Ek; [simpl in Ek; lia|]. cbn [app take].
    rewrite <- !(assoc_L (++)). eexists. cbn [app]. reflexivity. }
  destruct (dec_spec p ltac:(lia)) as (Hd & _ & (x & ds & E & _)). rewrite atoi_dec by done.
  rewrite E in *. apply Forall_cons in Hd as [Hx _]. cbn. by rewrite (proj2 (proj2 (proj2 (digit_class x Hx)))).
Qed.

Lemma pids_app ls ls' : pids (ls ++ ls') = pids ls ++ pids ls'.
Proof. apply omap_app. Qed.

Lemma pids_mark ls p tag cmd : 0 ≤ p < 2 ^ 31 → clean tag → clean cmd → pids (mark_lines ls (entry p tag cmd)) ≡ₚ p :: pids ls.
Proof.
  intros Hp Ht Hc. pose proof (entry_pid p tag cmd Hp Ht Hc) as E. unfold mark_lines.
  destruct (list_find _ ls) as [[i l]|] eqn:Ef.
  - apply find_split in Ef as (ls1 & ls2 & -> & <- & Hfree & _). rewrite insert_at, !pids_app. unfold pids at 2 4.
    cbn [omap list_omap]. rewrite E. unfold line_pid. unfold free_line in Hfree. rewrite Hfree. symmetry. apply Permutation_middle.
  - rewrite pids_app. unfold pids at 2. cbn [omap list_omap]. rewrite E. symmetry. apply Permutation_cons_append.
Qed.

Lemma pid_line_spec p l : pid_line p l = true ↔ line_pid (l ++ [10]) = Some p.
Proof.
  unfold pid_line, has_pid, line_pid. destruct (is_free (l ++ [10])); cbn; [done|]. rewrite Z.eqb_eq. split; [by intros ->|by intros [= ->]].
Qed.

Lemma pids_clear ls p : p ∈ pids ls → pids ls ≡ₚ p :: pids (clear_lines ls p) ∧ is_Some (list_find (λ l, pid_line p l = true) ls).
Proof.
  intros Hp. unfold clear_lines. destruct (list_find _ ls) as [[i l]|] eqn:Ef.
  - split; [|done]. apply find_split in Ef as (ls1 & ls2 & -> & <- & Hl & _). rewrite insert_at, !pids_app. unfold pids at 2 4.
    cbn [omap list_omap]. apply pid_line_spec in Hl. rewrite Hl. cbn. symmetry. apply Permutation_middle.
  - apply list_find_None in Ef. apply list_elem_of_omap in Hp as (l & Hl & E). rewrite Forall_forall in Ef. exfalso.
    apply (Ef l Hl). by apply pid_line_spec.
Qed.

(** The file as the driver uses it, when locking succeeds. *)
#[export] Program Instance zoo_active : ActiveFile (list Z) := {|
  af_mark z p tag cmd := zoo_mark_cmdline true true z p tag cmd;
  af_clear z p := zoo_clear true true z p;
  af_ok z := ∃ ls, z = text ls ∧ Forall line_wf ls;
  af_pids z := file_pids (S (length z)) z
|}.
Next Obligation.
  intros z p tag cmd (ls & -> & Hls) Hp Ht Hc. destruct (zoo_mark_lines ls (entry p tag cmd) Hls) as [E Hwf]; [by apply entry_clean|].
  eexists. split; [exact E|]. split; [eauto|]. rewrite !file_pids_text by (try done; rewrite text_length by done; lia). by apply pids_mark.
Qed.
Next Obligation.
  intros z p (ls & -> & Hls) Hp. rewrite file_pids_text in Hp by (try done; rewrite text_length by done; lia).
  destruct (pids_clear ls p Hp) as [Hperm [[i l] Hf]]. destruct (zoo_clear_lines ls p Hls) as [E Hwf]. rewrite Hf in E.
  eexists. split; [exact E|]. split; [eauto|]. by rewrite !file_pids_text by (try done; rewrite text_length by done; lia).
Qed.

(** ** Tags *)

(** The tag of a line: the text between its first two commas. *)
Fixpoint before_comma (s : list Z) : list Z :=
  match s with [] => [] | c :: s => if c =? ","%cc then [] else c :: before_comma s end.

Definition line_tag (l : list Z) : option (list Z) :=
  if is_free l then None else before_comma <$> after_comma l.

Lemma strncmp_nonzero a b n : 0 ∉ a → 0 ∉ b → strncmp a b n = 0 ↔ take n a = take n b.
Proof.
  revert a b. induction n as [|n IH]; intros [|x a] [|y b] Ha Hb; simpl; try done; rewrite ?not_elem_of_cons in *.
  - split; [lia|done].
  - split; [lia|done].
  - destruct (Z.eqb_spec x y) as [->|Hne]; [rewrite IH by tauto; split; congruence|]. split; [lia|]. by intros [= ? ?].
Qed.

Lemma after_comma_nl l : after_comma (l ++ [10]) = (λ s, s ++ [10]) <$> after_comma l.
Proof. induction l as [|c l IH]; cbn; [done|]. by destruct (c =? _). Qed.

Lemma after_comma_in l s : after_comma l = Some s → ∀ c, c ∈ s → c ∈ l.
Proof. induction l as [|c l IH]; cbn; [done|]. destruct (c =? _); [intros [= <-]|]; intros; right; by auto. Qed.

Lemma after_comma_app a s : ","%cc ∉ a → after_comma (a ++ ","%cc :: s) = Some s.
Proof.
  induction a as [|c a IH]; cbn; [done|]. rewrite not_elem_of_cons. intros [Hc Ha]. destruct (Z.eqb_spec c ","%cc); [congruence|by auto].
Qed.

(** A prefix without commas ends before the comma. *)
Lemma prefix_before_comma tag s : ","%cc ∉ tag → tag `prefix_of` s → tag `prefix_of` before_comma s.
Proof.
  revert s. induction tag as [|c tag IH]; intros s Ht [k ->]; [apply prefix_nil|]. rewrite not_elem_of_cons in Ht. destruct Ht as [Hc Ht].
  cbn. destruct (Z.eqb_spec c ","%cc); [congruence|]. apply prefix_cons, IH; [done|by eexists].
Qed.

Lemma has_tag_spec tag l : line_wf l → clean tag → ","%cc ∉ tag →
  has_tag tag (l ++ [10]) = true ↔ ∃ s, is_free l = false ∧ after_comma l = Some s ∧ tag `prefix_of` s.
Proof.
  intros Hl [Hn H0] Hc. unfold has_tag. rewrite c_str_line, after_comma_nl by done. destruct Hl as (Hlen & Hln & Hl0).
  assert (is_free (l ++ [10]) = is_free l) as -> by (by destruct l). destruct (is_free l); cbn [negb andb].
  { split; [done|]. by intros (? & ? & _). }
  destruct (after_comma l) as [s|] eqn:E; cbn [fmap option_fmap option_map]; [|split; [done|]; by intros (? & _ & ? & _)].
  assert (0 ∉ s ++ [10]) as Hs by (rewrite not_elem_of_app, list_elem_of_singleton; split; [intros H; by apply (after_comma_in _ _ E) in H|done]).
  rewrite Z.eqb_eq, strncmp_nonzero, (take_ge tag) by done. split.
  - intros Ht. exists s. split_and!; [done|done|]. destruct (decide (length tag ≤ length s)%nat) as [Hle|Hle].
    + rewrite take_app_le in Ht by done. rewrite <- Ht. apply prefix_take.
    + destruct Hn. rewrite <- Ht, take_ge by (rewrite length_app; cbn; lia). apply elem_of_app. right. by left.
  - intros (s' & _ & [= <-] & [k ->]). by rewrite <- app_assoc, take_app_length.
Qed.

Lemma has_tag_line tag l : line_wf l → clean tag → ","%cc ∉ tag →
  has_tag tag (l ++ [10]) = true → ∃ t, line_tag l = Some t ∧ tag `prefix_of` t.
Proof.
  intros Hl Ht Hc H. apply has_tag_spec in H as (s & Hf & Hs & Hp); [|done..]. exists (before_comma s).
  split; [|by apply prefix_before_comma]. unfold line_tag. by rewrite Hf, Hs.
Qed.

(** The tag of an entry that fits its line. *)
Lemma entry_has_tag p tag cmd : 0 ≤ p < 2 ^ 31 → clean tag → clean cmd → ","%cc ∉ tag → (length (fmt_li p) + length tag + 2 ≤ 79)%nat →
  has_tag tag (fmt_left 79 (entry p tag cmd) ++ [10]) = true.
Proof.
  intros Hp Ht Hc Htc Hlen. pose proof (entry_clean p tag cmd Hp Ht Hc) as Hce. pose proof (fmt_left_wf _ Hce) as Hwf.
  pose proof (entry_pid p tag cmd Hp Ht Hc) as Hpid. apply has_tag_spec; [done..|].
  assert (∃ r, fmt_left 79 (entry p tag cmd) = fmt_li p ++ ","%cc :: tag ++ r) as [r E].
  { unfold fmt_left, entry, snprintf. rewrite take_take. rewrite !(assoc_L (++)). rewrite <- (assoc_L (++) _ (str ",") cmd), (take_app_ge ((fmt_li p ++ str ",") ++ tag)).
    - rewrite <- !(assoc_L (++)). by eexists.
    - rewrite !length_app. change (length (str ",")) with 1%nat. cbn. lia. }
  rewrite E in *. exists (tag ++ r). split_and!.
  - unfold line_pid in Hpid. destruct (is_free _) eqn:Ef in Hpid; [done|]. by destruct (fmt_li p).
  - apply after_comma_app. unfold fmt_li. rewrite (proj2 (Z.ltb_ge _ _)) by lia. destruct (dec_spec p ltac:(lia)) as (Hd & _).
    intros Hin. rewrite Forall_forall in Hd. apply Hd in Hin. unfold digit in Hin. change (","%cc) with 44 in Hin. change ("0"%cc) with 48 in Hin. lia.
  - by apply prefix_app_r.
Qed.

(** The first line that matches decides. *)
Lemma zoo_getpid_lines ls tag : Forall line_wf ls →
  zoo_getpid true true (text ls) tag =
    Some match list_find (λ l, has_tag tag (l ++ [10]) = true) ls with Some (_, l) => atoi (c_str (l ++ [10])) | None => -1 end.
Proof.
  intros Hls. unfold zoo_getpid. cbn [negb]. rewrite find_line_text by (done || lia). bind_step. f_equal. by destruct (list_find _ ls) as [[i l]|].
Qed.

Lemma getpid_marked ls p tag cmd : Forall line_wf ls → 0 ≤ p < 2 ^ 31 → clean tag → clean cmd →
  ","%cc ∉ tag → (length (fmt_li p) + length tag + 2 ≤ 79)%nat → (∀ l t, l ∈ ls → line_tag l = Some t → ¬ tag `prefix_of` t) →
  zoo_getpid true true (text (mark_lines ls (entry p tag cmd))) tag = Some p.
Proof.
  intros Hls Hp Ht Hc Htc Hlen Hother. set (new := fmt_left 79 (entry p tag cmd)).
  assert (Forall (λ l, has_tag tag (l ++ [10]) ≠ true) ls) as Hno.
  { apply Forall_forall. intros l Hl H. rewrite Forall_forall in Hls. apply has_tag_line in H as (t & E & Hpre); [by eapply Hother|by apply Hls|done|done]. }
  assert (∃ ls1 ls2, mark_lines ls (entry p tag cmd) = ls1 ++ new :: ls2 ∧ Forall (λ l, has_tag tag (l ++ [10]) ≠ true) ls1) as (ls1 & ls2 & E & H1).
  { unfold mark_lines. fold new. destruct (list_find _ ls) as [[i l]|] eqn:Ef; [|by exists ls, []].
    apply find_split in Ef as (ls1 & ls2 & -> & <- & _). rewrite insert_at. apply Forall_app in Hno as [? _]. by exists ls1, ls2. }
  rewrite zoo_getpid_lines by (by apply zoo_mark_lines; [|apply entry_clean]). rewrite E.
  assert (list_find (λ l, has_tag tag (l ++ [10]) = true) (ls1 ++ new :: ls2) = Some (length ls1, new)) as ->.
  { apply list_find_Some. rewrite list_lookup_middle by done. split_and!; [done|by apply entry_has_tag|].
    intros j y Hj Hlt. rewrite lookup_app_l in Hj by done. by eapply Forall_lookup_1 in H1. }
  pose proof (entry_pid p tag cmd Hp Ht Hc) as Hpid. unfold line_pid in Hpid. fold new in Hpid. destruct (is_free _) in Hpid; [done|exact Hpid].
Qed.

(** C40. The active file is a table of lines, when its locks are granted: on a
    file of lines of 80 characters, [zoo_mark_cmdline] puts its entry into the
    first free line, or appends it, and [zoo_clear] frees the first line of
    the process and reports whether there was one; the lines keep their
    length, and an entry made for a process is the line that its number, read
    back from the text, finds.  After a process was entered under a tag that
    has no comma, fits the line and with which the tag of no other line
    begins, [zoo_getpid] finds the process by that tag. *)
Theorem zoo_file_correct ls p tag cmd :
  Forall line_wf ls → 0 ≤ p < 2 ^ 31 → clean tag → clean cmd →
  zoo_mark_cmdline true true (text ls) p tag cmd = Some (0, text (mark_lines ls (entry p tag cmd))) ∧
  Forall line_wf (mark_lines ls (entry p tag cmd)) ∧
  pids (mark_lines ls (entry p tag cmd)) ≡ₚ p :: pids ls ∧
  zoo_clear true true (text ls) p = Some (if decide (p ∈ pids ls) then 0 else 1, text (clear_lines ls p)) ∧
  Forall line_wf (clear_lines ls p) ∧
  (p ∈ pids ls → pids ls ≡ₚ p :: pids (clear_lines ls p)) ∧
  (","%cc ∉ tag → (length (fmt_li p) + length tag + 2 ≤ 79)%nat → (∀ l t, l ∈ ls → line_tag l = Some t → ¬ tag `prefix_of` t) →
    zoo_getpid true true (text (mark_lines ls (entry p tag cmd))) tag = Some p).
Proof.
  intros Hls Hp Ht Hc. destruct (zoo_mark_lines ls (entry p tag cmd) Hls) as [E1 W1]; [by apply entry_clean|].
  destruct (zoo_clear_lines ls p Hls) as [E2 W2]. split_and!; try done.
  - by apply pids_mark.
  - rewrite E2. do 2 f_equal. destruct (decide (p ∈ pids ls)) as [Hin|Hin].
    + by destruct (pids_clear ls p Hin) as [_ [? ->]].
    + destruct (list_find _ ls) as [[i l]|] eqn:Ef; [|done]. apply find_split in Ef as (ls1 & ls2 & -> & _ & Hl & _).
      destruct Hin. apply pid_line_spec in Hl. rewrite pids_app. unfold pids at 2. cbn [omap list_omap]. rewrite Hl. apply elem_of_app. right. left.
  - intros Hin. by apply pids_clear.
  - intros. by apply getpid_marked.
Qed.

Definition demo_line : list Z := fmt_left 79 (str "5,abort01,abort01").

Lemma zoo_file_correct_witness :
  zoo_mark_cmdline true true (text [demo_line]) 7 (str "a01") (str "a01 -f") = Some (0, text [demo_line; fmt_left 79 (str "7,a01,a01 -f")]) ∧
  zoo_getpid true true (text [demo_line; fmt_left 79 (str "7,a01,a01 -f")]) (str "a01") = Some 7 ∧
  zoo_clear true true (text [demo_line]) 7 = Some (1, text [demo_line]).
Proof.
  destruct (zoo_file_correct [demo_line] 7 (str "a01") (str "a01 -f")) as (H1 & _ & _ & H2 & _ & _ & H3).
  - constructor; [|apply Forall_nil; exact I]. split; [reflexivity|]. split; apply (bool_decide_unpack _); vm_compute; exact I.
  - split; [discriminate|reflexivity].
  - split; apply (bool_decide_unpack _); vm_compute; exact I.
  - split; apply (bool_decide_unpack _); vm_compute; exact I.
  - split; [exact H1|]. split; [|exact H2]. apply H3.
    + apply (bool_decide_unpack _); vm_compute; exact I.
    + vm_compute. lia.
    + intros l t Hl. apply list_elem_of_singleton in Hl as ->. intros E. vm_compute in E. injection E as <-. intros [k Hk]. discriminate Hk.
Defined.

(** The tag of another line that begins with the tag is taken for it, and when
    there is none the result is -1, where zoolib.h has 0. *)
Example getpid_prefix : zoo_getpid true true (text [demo_line]) (str "abort") = Some 5.
Proof. by vm_compute. Qed.

Example getpid_missing : zoo_getpid true true (text [demo_line]) (str "a01") = Some (-1).
Proof. by vm_compute. Qed.
