(* ===== verification/Pan.v ===== *)
(** * The test driver

    A model of the scheduler of pan/ltp-pan.c: [main] from the choice of the
    number of starts to the exit, with [run_child], [check_pids],
    [propagate_signal], the orphaned process groups and the signal handler.
    The driver is a state machine: [pc] is the place in [main], [step] does
    the code up to the next place where the environment answers, and an
    [input] holds the answers of the environment for one step: how a child
    starts, what [wait] returns, which process groups are gone.  A signal can
    arrive between any two steps.  The active file is any [ActiveFile].

    Not modelled are the parsing of the command line, the texts and the times
    of reports, and the contents of the files with the output of tests. *)

From S2P Require Import Prelude PanCmd Zoolib.

(** The numbers of the signals on Linux. *)
Definition SIGHUP : Z := 1.
Definition SIGINT : Z := 2.
Definition SIGKILL : Z := 9.
Definition SIGUSR1 : Z := 10.
Definition SIGUSR2 : Z := 12.
Definition SIGALRM : Z := 14.
Definition SIGTERM : Z := 15.

(** The options; [test_out_dir] says whether the output of the tests is kept
    in files, which needs more than one active test. *)
Record opts := mk_opts {
  keep_active : nat; sequential : bool; has_brakes : bool; track_exit_stats : bool;
  fmt_print : bool; logging : bool; failcmdfile : bool; tconfcmdfile : bool;
  quiet_mode : bool; no_kmsg : bool; test_out_dir : bool }.

(** ** Results that may end the program *)

Inductive outcome (A : Type) : Type := Ret (a : A) | Exit (code : Z) | UB.
Arguments Ret {A} a.
Arguments Exit {A} code.
Arguments UB {A}.

#[export] Instance outcome_ret : MRet outcome := @Ret.
#[export] Instance outcome_bind : MBind outcome := λ A B f m,
  match m with Ret a => f a | Exit c => Exit c | UB => UB end.

Lemma outcome_bind_Ret {A B} (x : A) (f : A → outcome B) : (y ← Ret x; f y) = f x.
Proof. done. Qed.

Definition lift {A} (o : option A) : outcome A := match o with Some a => Ret a | None => UB end.

(** ** The ends of processes *)

Inductive how := Signaled | Exited | Stopped | Unknown.

#[export] Instance how_eq_dec : EqDecision how.
Proof. solve_decision. Defined.

(** [WIFSIGNALED], [WIFEXITED] and [WIFSTOPPED] in the order of the code,
    with the number that goes with them. *)
Definition term_of (stat_loc : Z) : how * Z :=
  let low := Z.land stat_loc 127 in
  let high := Z.land (Z.shiftr stat_loc 8) 255 in
  if (1 <=? low) && (low <=? 126) then (Signaled, low)
  else if low =? 0 then (Exited, high)
  else if Z.land stat_loc 255 =? 127 then (Stopped, high)
  else (Unknown, 0).

Definition core_of (stat_loc : Z) : bool := negb (Z.land stat_loc 128 =? 0).

(** ** The state *)

Record tag_pgrp := mk_slot { pgrp : Z; stopping : bool; cmd : option coll_entry }.

Inductive result := PASS | FAIL | CONF.

(** A line of the log file, in its two formats, without the times. *)
Inductive log_line :=
  | LogRaw (tag : list Z) (exit : how) (stat : Z) (core : bool)
  | LogFmt (tag : list Z) (result_str : result) (w : Z).

(** How the start of a child went. *)
Inductive start :=
  | OpenFailed | PipeFailed | ForkFailed
  | ExecFailed (status : Z)
  | Started (cpid : Z).

(** What the scheduler counts. *)
Record sched := mk_sched {
  num_active : Z; starts : Z; c : nat; stop : Z; go_idle : Z; exit_stat : Z; fork_in_road : bool }.

Record sigs := mk_sigs { rec_signal : Z; send_signal : Z; lastsent : Z }.

(** What is written.  [tried] and [reaped] are ghost state: the commands that
    were given to [run_child] with the way they started, and the commands
    whose process was waited for, with its end and the mark [stopping]. *)
Record outs := mk_outs {
  failcnt : Z; tconfcnt : Z; logfile : list log_line; failcmds : list coll_entry; tconfcmds : list coll_entry;
  tried : list (coll_entry * start); reaped : list (coll_entry * how * Z * bool) }.

(** The processes: the slots, the list of orphaned process groups from its
    head, the active file, and the calls of [kill]. *)
Record procs (F : Type) := mk_procs {
  running : list tag_pgrp; orphans : list Z; zoofile : F; kills : list (Z * Z) }.
Arguments mk_procs {F}.
Arguments running {F}.
Arguments orphans {F}.
Arguments zoofile {F}.
Arguments kills {F}.

Record pan (F : Type) := mk_pan { sch : sched; sg : sigs; out : outs; pr : procs F }.
Arguments mk_pan {F}.
Arguments sch {F}.
Arguments sg {F}.
Arguments out {F}.
Arguments pr {F}.

(** ** The signal handler *)

Definition wait_handler (sig : Z) (s : sigs) : sigs :=
  if sig =? 0 then mk_sigs (rec_signal s) (send_signal s) 0
  else if sig =? SIGUSR2 then mk_sigs sig (send_signal s) (lastsent s)
  else
    let send :=
      if lastsent s =? 0 then sig
      else if lastsent s =? SIGUSR1 then SIGINT
      else if lastsent s =? sig then SIGTERM
      else if lastsent s =? SIGTERM then SIGHUP
      else if lastsent s =? SIGHUP then SIGKILL
      else send_signal s in
    mk_sigs sig send send.

Section Driver.
Context {F : Type} `{ActiveFile F}.
Context (o : opts) (coll : list coll_entry) (pan_pid : Z).

(** ** Orphaned process groups *)

(** [gone] says for which process groups [kill] fails with [ESRCH]. *)
Fixpoint check_orphans (gone : Z → bool) (sig : Z) (orphs : list Z) (z : F) (ks : list (Z * Z))
    : outcome (list Z * F * list (Z * Z)) :=
  match orphs with
  | [] => Ret ([], z, ks)
  | p :: orphs =>
      if p =? 0 then
        '(orphs, z, ks) ← check_orphans gone sig orphs z ks; Ret (p :: orphs, z, ks)
      else
        let ks := ks ++ [(- p, sig)] in
        if gone p then
          '(_, z) ← lift (af_clear z p);
          '(orphs, z, ks) ← check_orphans gone sig orphs z ks; Ret (0 :: orphs, z, ks)
        else
          '(orphs, z, ks) ← check_orphans gone sig orphs z ks; Ret (p :: orphs, z, ks)
  end.

(** The first free element is used, else a new one after the head. *)
Definition mark_orphan (orphs : list Z) (cpid : Z) : list Z :=
  match list_find (λ p, p = 0) orphs with
  | Some (i, _) => <[i := cpid]> orphs
  | None => match orphs with [] => [cpid] | h :: t => h :: cpid :: t end
  end.

(** ** Signals to the tests *)

Definition signal_slot (t : tag_pgrp) : tag_pgrp := if pgrp t =? 0 then t else mk_slot (pgrp t) true (cmd t).

Definition slot_kills (sig : Z) (ts : list tag_pgrp) : list (Z * Z) :=
  (λ t, (- pgrp t, sig)) <$> filter (λ t, pgrp t ≠ 0) ts.

Definition propagate_signal (gone : Z → bool) (s : sigs) (p : procs F) : outcome (sigs * procs F) :=
  let s := if rec_signal s =? SIGALRM then mk_sigs SIGTERM (send_signal s) (lastsent s) else s in
  let ks := kills p ++ slot_kills (send_signal s) (running p) in
  '(orphs, z, ks) ← check_orphans gone (send_signal s) (orphans p) (zoofile p) ks;
  Ret (mk_sigs 0 0 (lastsent s), mk_procs (signal_slot <$> running p) orphs z ks).

(** ** Starting a test *)

(** [write_test_start], which ends the program when [write_kmsg] cannot open
    the log of the kernel; [kmsg] says whether it can be opened. *)
Definition write_test_start (kmsg : bool) : outcome unit :=
  if no_kmsg o || kmsg then Ret tt else Exit 1.

Definition log_exec_failure (colle : coll_entry) (status : Z) (u : outs) : outs :=
  let '(termtype, termid) := term_of status in
  if negb (logging o) then u
  else if negb (fmt_print o) then
    mk_outs (failcnt u) (tconfcnt u) (logfile u ++ [LogRaw (name colle) termtype termid (core_of status)])
      (failcmds u) (tconfcmds u) (tried u) (reaped u)
  else
    let failed := negb (termid =? 0) in
    mk_outs (failcnt u + c_bool failed) (tconfcnt u)
      (logfile u ++ [LogFmt (name colle) (if failed then FAIL else PASS) termid])
      (failcmds u) (tconfcmds u) (tried u) (reaped u).

(** The child in slot [i]; the result says whether it was started. *)
Definition run_child (colle : coll_entry) (i : nat) (how_started : start) (kmsg : bool) (u : outs) (p : procs F)
    : outcome (bool * outs * procs F) :=
  let u := mk_outs (failcnt u) (tconfcnt u) (logfile u) (failcmds u) (tconfcmds u) (tried u ++ [(colle, how_started)]) (reaped u) in
  let set_slot t := <[i := t]> (running p) in
  match running p !! i with
  | None => UB
  | Some active =>
      let started_msg := if test_out_dir o || quiet_mode o then Ret tt else write_test_start kmsg in
      match how_started with
      | OpenFailed | PipeFailed => Ret (false, u, p)
      | ForkFailed =>
          _ ← started_msg;
          Ret (false, u, mk_procs (set_slot (mk_slot (pgrp active) (stopping active) (Some colle))) (orphans p) (zoofile p) (kills p))
      | ExecFailed status =>
          _ ← started_msg;
          Ret (false, log_exec_failure colle status u,
            mk_procs (set_slot (mk_slot (pgrp active) (stopping active) (Some colle))) (orphans p) (zoofile p) (kills p))
      | Started cpid =>
          _ ← started_msg;
          '(r, z) ← lift (af_mark (zoofile p) cpid (name colle) (cmdline colle));
          if negb (r =? 0) then Exit 1
          else Ret (true, u, mk_procs (set_slot (mk_slot cpid false (Some colle))) (orphans p) z (kills p))
      end
  end.

(** ** Waiting for tests *)

Inductive waited := WaitFailed | Waited (cpid stat_loc : Z).

(** Whether a test passed, in the formatted log. *)
Definition result_of (h : how) (w : Z) : result :=
  if bool_decide (h = Exited) && (w =? TCONF) then CONF else if negb (w =? 0) then FAIL else PASS.

(** The log and the lists of commands for a process that ended. *)
Definition log_end (colle : coll_entry) (h : how) (w : Z) (core was_stopping : bool) (u : outs) : outs :=
  let '(fail, conf, lines) :=
    if negb (logging o) then (0, 0, [])
    else if negb (fmt_print o) then (0, 0, [LogRaw (name colle) h w core])
    else match result_of h w with
         | CONF => (0, 1, [LogFmt (name colle) CONF w])
         | FAIL => (1, 0, [LogFmt (name colle) FAIL w])
         | PASS => (0, 0, [LogFmt (name colle) PASS w])
         end in
  let '(fc, tc) :=
    if w =? 0 then ([], [])
    else if tconfcmdfile o && (w =? TCONF) then ([], [colle])
    else if failcmdfile o then ([colle], [])
    else ([], []) in
  mk_outs (failcnt u + fail) (tconfcnt u + conf) (logfile u ++ lines) (failcmds u ++ fc) (tconfcmds u ++ tc)
    (tried u) (reaped u ++ [(colle, h, w, was_stopping)]).

(** The slot of a process that ended; [orphaned] says whether its process
    group still exists. *)
Definition end_slot (cpid : Z) (h : how) (w : Z) (core orphaned kmsg : bool) (ret : Z) (u : outs) (p : procs F)
    : outcome (Z * outs * procs F) :=
  match list_find (λ t, pgrp t = cpid) (running p) with
  | None => Ret (ret, u, p)
  | Some (i, t) =>
      match cmd t with
      | None => UB
      | Some colle =>
          let undo := (w =? 130) && stopping t && bool_decide (h = Exited) in
          let w := if undo then 0 else w in
          let ret := if undo then ret - 1 else ret in
          let u := log_end colle h w core (stopping t) u in
          _ ← if test_out_dir o && negb (quiet_mode o) then write_test_start kmsg else Ret tt;
          let ret := if bool_decide (h = Signaled) && negb (stopping t) then ret + 1 else ret in
          let ts := <[i := mk_slot 0 (stopping t) (cmd t)]> (running p) in
          '(r, z) ← lift (af_clear (zoofile p) cpid);
          if negb (r =? 0) then Exit 1
          else if negb orphaned then Ret (ret, u, mk_procs ts (orphans p) z (kills p))
          else
            '(r, z) ← lift (af_mark z cpid (str "panorphan") (cmdline colle));
            if negb (r =? 0) then Exit 1
            else Ret (ret, u, mk_procs ts (mark_orphan (orphans p) cpid) z (kills p ++ [(- cpid, SIGTERM)]))
      end
  end.

Definition check_pids (gone : Z → bool) (w : waited) (orphaned kmsg : bool) (n : Z) (u : outs) (p : procs F)
    : outcome (Z * Z * outs * procs F) :=
  '(orphs, z, ks) ← check_orphans gone 0 (orphans p) (zoofile p) (kills p);
  let p := mk_procs (running p) orphs z ks in
  match w with
  | WaitFailed => Ret (0, n, u, p)
  | Waited cpid stat_loc =>
      let '(h, w) := term_of stat_loc in
      let n := match h with Signaled | Exited => n - 1 | _ => n end in
      let ret := match h with
                 | Signaled => 0
                 | Exited => if negb (w =? 0) && negb (w =? TCONF) then 1 else 0
                 | _ => 1
                 end in
      '(ret, u, p) ← end_slot cpid h w (core_of stat_loc) orphaned kmsg ret u p;
      Ret (ret, n, u, p)
  end.

(** ** The scheduler *)

(** The places of [main]: the loop that starts tests, the look at the stop
    file, the look at the signals, the wait, the loop over the orphans. *)
Inductive pc := PStart | PStop | PSignal | PCheck | POrphans | PExit (code : Z).

Record input := mk_input {
  i_rnd : nat; i_start : start; i_stopfile : bool; i_gone : Z → bool; i_wait : waited; i_orphaned : bool; i_kmsg : bool }.

Inductive event := ESignal (sig : Z) | EGo (i : input).

Definition wants_start (s : pan F) : bool :=
  (num_active (sch s) <? Z.of_nat (keep_active o)) && negb (starts (sch s) =? 0) &&
  (stop (sch s) =? 0) && (rec_signal (sg s) =? 0) && (go_idle (sch s) =? 0).

Definition step_start (i : input) (s : pan F) : outcome (pc * pan F) :=
  let d := sch s in
  if wants_start s then
    let k := if sequential o then c d else (i_rnd i mod length coll)%nat in
    match list_find (λ t, pgrp t = 0) (running (pr s)) with
    | None =>
        Ret (PStop, mk_pan (mk_sched (num_active d) (starts d) k (stop d) (go_idle d) (exit_stat d + 1) (fork_in_road d))
          (wait_handler SIGINT (sg s)) (out s) (pr s))
    | Some (slot, _) =>
        colle ← lift (coll !! k);
        '(started, u, p) ← run_child colle slot (i_start i) (i_kmsg i) (out s) (pr s);
        let n := num_active d + c_bool started in
        let st := if (started || sequential o) && (0 <? starts d) then starts d - 1 else starts d in
        let k := if sequential o then if (length coll <=? S k)%nat then O else S k else k in
        Ret (PStart, mk_pan (mk_sched n st k (stop d) (go_idle d) (exit_stat d) (fork_in_road d)) (sg s) u p)
    end
  else Ret (PStop, s).

Definition set_sch (f : sched → sched) (s : pan F) : pan F := mk_pan (f (sch s)) (sg s) (out s) (pr s).
Definition inc_stop (d : sched) : sched :=
  mk_sched (num_active d) (starts d) (c d) (stop d + 1) (go_idle d) (exit_stat d) (fork_in_road d).
Definition inc_idle (d : sched) : sched :=
  mk_sched (num_active d) (starts d) (c d) (stop d) (go_idle d + 1) (exit_stat d) (fork_in_road d).
Definition idle_or_stop (d : sched) : sched := if fork_in_road d then inc_idle d else inc_stop d.
Definition no_fork (d : sched) : sched :=
  mk_sched (num_active d) (starts d) (c d) (stop d) (go_idle d) (exit_stat d) false.

Definition step_stop (i : input) (s : pan F) : outcome (pc * pan F) :=
  let s := if starts (sch s) =? 0 then set_sch inc_stop s
           else if (starts (sch s) =? -1) && i_stopfile i then set_sch inc_stop s
           else s in
  Ret (PSignal, s).

Definition step_signal (i : input) (s : pan F) : outcome (pc * pan F) :=
  let g := sg s in
  if rec_signal g =? 0 then Ret (PCheck, s)
  else if rec_signal g =? SIGUSR2 then
    Ret (PCheck, mk_pan (idle_or_stop (sch s)) (mk_sigs 0 0 (lastsent g)) (out s) (pr s))
  else
    let d := if rec_signal g =? SIGUSR1 then no_fork (sch s) else sch s in
    '(g, p) ← propagate_signal (i_gone i) g (pr s);
    Ret (PCheck, mk_pan (idle_or_stop d) g (out s) p).

(** What a failed test does. *)
Definition on_err (s : pan F) : pan F :=
  let d := if fork_in_road (sch s) then inc_idle (sch s) else sch s in
  let d := if track_exit_stats o then
             mk_sched (num_active d) (starts d) (c d) (stop d) (go_idle d) (exit_stat d + 1) (fork_in_road d)
           else d in
  mk_pan d (if has_brakes o then wait_handler SIGINT (sg s) else sg s) (out s) (pr s).

Definition step_check (i : input) (s : pan F) : outcome (pc * pan F) :=
  let d := sch s in
  '(err, n, u, p) ← check_pids (i_gone i) (i_wait i) (i_orphaned i) (i_kmsg i) (num_active d) (out s) (pr s);
  let s := mk_pan (mk_sched n (starts d) (c d) (stop d) (go_idle d) (exit_stat d) (fork_in_road d)) (sg s) u p in
  let s := if negb (err =? 0) then on_err s else s in
  if negb (stop (sch s) =? 0) && (n =? 0) then Ret (POrphans, s)
  else if negb (go_idle (sch s) =? 0) && (n =? 0) then
    let d := sch s in
    Ret (PStart, mk_pan (mk_sched n (starts d) (c d) (stop d) 0 (exit_stat d) (fork_in_road d))
      (wait_handler 0 (sg s)) (out s) (pr s))
  else Ret (PStart, s).

(** One round of the loop over the orphans, and the end: [exit] keeps the
    lowest eight bits of its argument. *)
Definition step_orphans (i : input) (s : pan F) : outcome (pc * pan F) :=
  if existsb (λ p, negb (p =? 0)) (orphans (pr s)) then
    let g := if rec_signal (sg s) =? 0 then wait_handler SIGINT (sg s) else sg s in
    '(g, p) ← propagate_signal (i_gone i) g (pr s);
    Ret (POrphans, mk_pan (sch s) g (out s) p)
  else
    '(r, z) ← lift (af_clear (zoofile (pr s)) pan_pid);
    let code := exit_stat (sch s) + c_bool (negb (r =? 0)) in
    Ret (PExit (Z.land code 255), mk_pan (sch s) (sg s) (out s) (mk_procs (running (pr s)) (orphans (pr s)) z (kills (pr s)))).

Definition step (e : event) (st : pc * pan F) : outcome (pc * pan F) :=
  let '(k, s) := st in
  match e with
  | ESignal sig => Ret (k, mk_pan (sch s) (wait_handler sig (sg s)) (out s) (pr s))
  | EGo i =>
      match k with
      | PStart => step_start i s
      | PStop => step_stop i s
      | PSignal => step_signal i s
      | PCheck => step_check i s
      | POrphans => step_orphans i s
      | PExit _ => Ret (k, s)
      end
  end.

(** ** The start of the program *)

(** The number of tests to start; [-1] is without bound. *)
Definition init_starts (timed : bool) (starts : Z) : Z :=
  if timed && (starts =? -1) then -1
  else if starts =? -1 then if sequential o then Z.of_nat (length coll) else 1
  else if starts =? 0 then -1
  else if starts <? Z.of_nat (keep_active o) then Z.of_nat (keep_active o)
  else starts.

(** Lines for the tests are made in the active file and freed again. *)
Fixpoint mark_slots (n : nat) (k : Z) (panname : list Z) (z : F) : outcome F :=
  match n with
  | O => Ret z
  | S n => '(r, z) ← lift (af_mark z k panname []); if negb (r =? 0) then Exit 1 else mark_slots n (k + 1) panname z
  end.

Fixpoint clear_slots (n : nat) (k : Z) (z : F) : outcome F :=
  match n with
  | O => Ret z
  | S n => '(r, z) ← lift (af_clear z k); if negb (r =? 0) then Exit 1 else clear_slots n (k + 1) z
  end.

(** [args] are the arguments of the program, [-y] sets [restart]. *)
Definition pan_init (timed restart : bool) (nstarts : Z) (panname : list Z) (args : list (list Z)) (z : F)
    : outcome (pc * pan F) :=
  if (length coll =? 0)%nat then Exit 1
  else
    cmdline ← lift (cat_args args);
    '(r, z) ← lift (af_mark z pan_pid panname cmdline);
    if negb (r =? 0) then Exit 1
    else
      z ← mark_slots (keep_active o) 0 panname z;
      z ← clear_slots (keep_active o) 0 z;
      Ret (PStart, mk_pan (mk_sched 0 (init_starts timed nstarts) 0 0 0 0 restart) (mk_sigs 0 0 0)
        (mk_outs 0 0 [] [] [] [] []) (mk_procs (replicate (keep_active o) (mk_slot 0 false None)) [0] z [])).
End Driver.
