(* ===== verification/PanFacts.v ===== *)
(** * Theorems on the test driver

    The invariant of the scheduler and of its active file, for every order of
    events: the number of active tests is the number of slots in use, a slot
    is free when a test is to be started, the active file lists exactly the
    driver, the tests that run and the orphaned groups, and no operation
    fails.  On it rest the exit status, the log, the end of a run and what
    signals do. *)

From S2P Require Import Prelude PanCmd Zoolib Pan.

(** ** Processes in the slots and orphans *)

Definition live (ps : list Z) : list Z := filter (λ p, p ≠ 0) ps.
Definition busy (ts : list tag_pgrp) : list Z := live (pgrp <$> ts).

Lemma live_app a b : live (a ++ b) = live a ++ live b.
Proof. apply filter_app. Qed.

Lemma live_cons p a : live (p :: a) = if decide (p = 0) then live a else p :: live a.
Proof.
  unfold live. rewrite filter_cons. destruct (decide (p = 0)); [by rewrite decide_False by auto|by rewrite decide_True].
Qed.

Lemma live_insert (ps : list Z) i p q : ps !! i = Some p → live (<[i := q]> ps) ++ live [p] ≡ₚ live ps ++ live [q].
Proof.
  intros Hi. rewrite <- (take_drop_middle ps i p Hi) at 2.
  rewrite insert_take_drop by (by eapply lookup_lt_Some). change (q :: drop (S i) ps) with ([q] ++ drop (S i) ps).
  change (p :: drop (S i) ps) with ([p] ++ drop (S i) ps). rewrite !live_app. solve_Permutation.
Qed.

Lemma busy_insert ts i t t' : ts !! i = Some t → busy (<[i := t']> ts) ++ live [pgrp t] ≡ₚ busy ts ++ live [pgrp t'].
Proof.
  intros Hi. unfold busy. rewrite list_fmap_insert. apply live_insert. by rewrite list_lookup_fmap, Hi.
Qed.

Lemma busy_signal ts : busy (signal_slot <$> ts) = busy ts.
Proof.
  unfold busy. f_equal. rewrite <- list_fmap_compose. apply list_fmap_ext. intros i t _. cbn. unfold signal_slot.
  by destruct (pgrp t =? 0).
Qed.

Lemma slot_kills_busy sig ts : slot_kills sig ts = (λ q, (- q, sig)) <$> busy ts.
Proof.
  unfold slot_kills, busy. induction ts as [|t ts IH]; [done|]. cbn [fmap list_fmap]. rewrite live_cons, filter_cons.
  destruct (decide (pgrp t = 0)) as [E|E]; [by rewrite decide_False by auto|]. rewrite decide_True by done. cbn [fmap list_fmap]. by rewrite <- IH.
Qed.

Lemma busy_length_le ts : (length (busy ts) ≤ length ts)%nat.
Proof. unfold busy, live. rewrite <- (length_fmap pgrp ts). apply length_filter. Qed.

(** A slot is free if not all of them are in use. *)
Lemma free_slot ts : (length (busy ts) < length ts)%nat → is_Some (list_find (λ t, pgrp t = 0) ts).
Proof.
  intros Hlt. destruct (list_find _ ts) eqn:E; [done|]. apply list_find_None in E.
  assert (busy ts = pgrp <$> ts) as Eb; [|rewrite Eb, length_fmap in Hlt; lia].
  clear Hlt. unfold busy. induction E as [|t ts Ht _ IH]; [done|]. cbn [fmap list_fmap]. rewrite live_cons, decide_False by done. by rewrite <- IH at 2.
Qed.

Lemma busy_slot ts p : p ∈ busy ts → ∃ i t, list_find (λ t, pgrp t = p) ts = Some (i, t) ∧ ts !! i = Some t ∧ pgrp t = p ∧ p ≠ 0.
Proof.
  intros Hp. apply list_elem_of_filter in Hp as [Hn Hp]. apply list_elem_of_fmap in Hp as (t & -> & Ht).
  destruct (list_find (λ t', pgrp t' = pgrp t) ts) as [[i t']|] eqn:E.
  - apply list_find_Some in E as H0. destruct H0 as (Hi & Hpg & _). by exists i, t'.
  - apply list_find_None in E. rewrite Forall_forall in E. by destruct (E t Ht).
Qed.

Lemma live_mark_orphan orphs p : p ≠ 0 → live (mark_orphan orphs p) ≡ₚ p :: live orphs.
Proof.
  intros Hp. unfold mark_orphan. destruct (list_find _ orphs) as [[i q]|] eqn:E.
  - apply list_find_Some in E as (Hi & -> & _). pose proof (live_insert orphs i 0 p Hi) as Hl.
    rewrite (live_cons 0), decide_True, (live_cons p), decide_False in Hl by done. cbn in Hl. rewrite app_nil_r in Hl. rewrite Hl.
    symmetry. apply Permutation_cons_append.
  - destruct orphs as [|h orphs]; [by rewrite live_cons, decide_False|]. rewrite !(live_cons h), live_cons, (decide_False (P := p = 0)) by done.
    destruct (decide (h = 0)); [done|]. apply Permutation_swap.
Qed.

(** The commands of the slots that are in use. *)
Definition slot_entry (t : tag_pgrp) : list coll_entry := if decide (pgrp t = 0) then [] else option_list (cmd t).
Definition busy_cmds (ts : list tag_pgrp) : list coll_entry := concat (slot_entry <$> ts).

Lemma busy_cmds_insert ts i t t' : ts !! i = Some t → busy_cmds (<[i := t']> ts) ++ slot_entry t ≡ₚ busy_cmds ts ++ slot_entry t'.
Proof.
  intros Hi. unfold busy_cmds. rewrite <- (take_drop_middle ts i t Hi) at 2. rewrite insert_take_drop by (by eapply lookup_lt_Some).
  rewrite !fmap_app, !concat_app. cbn [fmap list_fmap concat]. solve_Permutation.
Qed.

Lemma busy_cmds_signal ts : busy_cmds (signal_slot <$> ts) = busy_cmds ts.
Proof.
  unfold busy_cmds. rewrite <- list_fmap_compose. f_equal. apply list_fmap_ext. intros i t _. cbn. unfold signal_slot, slot_entry.
  destruct (Z.eqb_spec (pgrp t) 0); [done|]. cbn. by rewrite !decide_False.
Qed.

Lemma busy_cmds_nil ts : busy ts = [] → busy_cmds ts = [].
Proof.
  unfold busy, busy_cmds. induction ts as [|t ts IH]; [done|]. cbn [fmap list_fmap concat]. rewrite live_cons. unfold slot_entry at 1.
  destruct (decide (pgrp t = 0)); [|done]. exact IH.
Qed.

(** ** The active file *)

Section Facts.
Context {F : Type} `{AF : ActiveFile F}.

Definition zoo_has (z : F) (ps : list Z) : Prop := af_ok z ∧ af_pids z ≡ₚ ps.

Lemma zoo_clears z p ps : zoo_has z (p :: ps) → ∃ z', af_clear z p = Some (0, z') ∧ zoo_has z' ps.
Proof.
  intros [Hok Hp]. destruct (af_clear_law z p Hok) as (z' & E & Hok' & Hp'); [rewrite Hp; by left|].
  exists z'. split; [done|]. split; [done|]. apply (Permutation_cons_inv (a := p)). by rewrite <- Hp', <- Hp.
Qed.

Lemma zoo_marks z p ps tag cmdl : zoo_has z ps → 0 ≤ p < 2 ^ 31 → clean tag → clean cmdl →
  ∃ z', af_mark z p tag cmdl = Some (0, z') ∧ zoo_has z' (p :: ps).
Proof.
  intros [Hok Hp] H1 H2 H3. destruct (af_mark_law z p tag cmdl Hok H1 H2 H3) as (z' & E & Hok' & Hp').
  exists z'. split; [done|]. split; [done|]. by rewrite Hp', Hp.
Qed.

#[export] Instance zoo_has_proper z : Proper ((≡ₚ) ==> iff) (zoo_has z).
Proof. intros a b E. unfold zoo_has. by rewrite E. Qed.

(** [check_orphans] signals all live groups and forgets those that are gone. *)
Lemma check_orphans_spec gone sig orphs : ∀ z ks ps, zoo_has z (live orphs ++ ps) →
  ∃ z', check_orphans gone sig orphs z ks =
    Ret ((λ p, if gone p then 0 else p) <$> orphs, z', ks ++ ((λ p, (- p, sig)) <$> live orphs)) ∧
    zoo_has z' (live ((λ p, if gone p then 0 else p) <$> orphs) ++ ps).
Proof.
  induction orphs as [|p orphs IH]; intros z ks ps Hz; cbn [check_orphans fmap list_fmap].
  { exists z. by rewrite app_nil_r. }
  rewrite !live_cons in *. destruct (Z.eqb_spec p 0) as [-> |Hp].
  - rewrite decide_True in Hz by done. destruct (IH z ks ps Hz) as (z' & -> & Hz'). rewrite outcome_bind_Ret. exists z'.
    assert ((if gone 0 then 0 else 0) = 0) as -> by by destruct (gone 0). by rewrite !decide_True.
  - rewrite (decide_False (P := p = 0)) in * by done. destruct (gone p).
    + destruct (zoo_clears z p (live orphs ++ ps) Hz) as (z1 & -> & Hz1). cbn [lift]. rewrite outcome_bind_Ret.
      destruct (IH z1 (ks ++ [(- p, sig)]) ps Hz1) as (z' & -> & Hz'). rewrite outcome_bind_Ret. exists z'.
      rewrite decide_True by done. cbn [fmap list_fmap]. by rewrite <- (assoc_L (++)).
    + destruct (IH z (ks ++ [(- p, sig)]) (p :: ps)) as (z' & -> & Hz'); [by rewrite <- Permutation_middle|].
      rewrite outcome_bind_Ret. exists z'. rewrite decide_False by done. cbn [fmap list_fmap]. rewrite <- (assoc_L (++)).
      split; [done|]. by rewrite <- Permutation_middle in Hz'.
Qed.
End Facts.

(** ** The invariant *)

Section Invariant.
Context {F : Type} `{AF : ActiveFile F}.
Context (o : opts) (coll : list coll_entry) (pan_pid : Z) (others : list Z).

Definition clean_entry (e : coll_entry) : Prop := clean (name e) ∧ clean (cmdline e).
Context (Hcoll : Forall clean_entry coll) (Hne : coll ≠ []).

Definition slot_ok (t : tag_pgrp) : Prop :=
  pgrp t ≠ 0 → 0 < pgrp t < 2 ^ 31 ∧ ∃ colle, cmd t = Some colle ∧ clean_entry colle.

(** The active file lists [self], the tests, the orphans and the entries
    that others have made. *)
Definition procs_ok (self : list Z) (p : procs F) : Prop :=
  length (running p) = keep_active o ∧ Forall slot_ok (running p) ∧
  zoo_has (zoofile p) (busy (running p) ++ live (orphans p) ++ self ++ others).

Definition sched_ok (d : sched) (p : procs F) : Prop :=
  num_active d = Z.of_nat (length (busy (running p))) ∧ (c d < length coll)%nat ∧ 0 ≤ stop d ∧ 0 ≤ go_idle d.

Definition inv (st : pc * pan F) : Prop :=
  let '(k, s) := st in
  procs_ok match k with PExit _ => [] | _ => [pan_pid] end (pr s) ∧ sched_ok (sch s) (pr s) ∧
  match k with
  | POrphans => busy (running (pr s)) = []
  | PExit code => busy (running (pr s)) = [] ∧ live (orphans (pr s)) = [] ∧ code = exit_stat (sch s) mod 256
  | _ => True
  end.

(** What the kernel promises: process numbers are positive, [wait] returns
    processes that the driver has started and that have ended; and its log can
    be opened where the driver writes to it. *)
Definition env_ok (st : pc * pan F) (e : event) : Prop :=
  let '(k, s) := st in
  match e with
  | ESignal sig => sig ≠ 0
  | EGo i =>
      i_kmsg i = true ∧
      (k = PStart → match i_start i with Started p => 0 < p < 2 ^ 31 | _ => True end) ∧
      (k = PCheck → match i_wait i with
                    | Waited p st => p ∈ busy (running (pr s)) ∧ ((term_of st).1 = Exited ∨ (term_of st).1 = Signaled)
                    | WaitFailed => True
                    end)
  end.

Lemma write_test_start_ok : write_test_start o true = Ret tt.
Proof. unfold write_test_start. by rewrite orb_true_r. Qed.

Lemma started_msg_ok (c : bool) : (if c then Ret tt else write_test_start o true) = Ret tt.
Proof. rewrite write_test_start_ok. by destruct c. Qed.

Lemma run_child_ok self colle i st u p t :
  procs_ok self p → running p !! i = Some t → pgrp t = 0 → clean_entry colle →
  match st with Started q => 0 < q < 2 ^ 31 | _ => True end →
  ∃ u' p', run_child o colle i st true u p = Ret (match st with Started _ => true | _ => false end, u', p') ∧
    procs_ok self p' ∧ orphans p' = orphans p ∧
    length (busy (running p')) = (length (busy (running p)) + match st with Started _ => 1 | _ => 0 end)%nat ∧
    tried u' = tried u ++ [(colle, st)] ∧ reaped u' = reaped u.
Proof.
  intros (Hlen & Hok & Hz) Hi Ht Hcl Hst. unfold run_child. rewrite Hi.
  assert (∀ b, procs_ok self (mk_procs (<[i := mk_slot (pgrp t) b (Some colle)]> (running p)) (orphans p) (zoofile p) (kills p)) ∧
    busy (<[i := mk_slot (pgrp t) b (Some colle)]> (running p)) ≡ₚ busy (running p)) as Hsame.
  { intros b. pose proof (busy_insert (running p) i t (mk_slot (pgrp t) b (Some colle)) Hi) as Hb. cbn [pgrp] in Hb.
    apply Permutation_app_inv_r in Hb. split; [|done]. unfold procs_ok. cbn [running orphans zoofile]. split_and!; [by rewrite length_insert| |by rewrite Hb].
    apply Forall_insert; [done|]. intros Hp. by rewrite Ht in Hp. }
  assert (∀ b, length (busy (<[i := mk_slot (pgrp t) b (Some colle)]> (running p))) = length (busy (running p))) as Hl
    by (intros b; by rewrite (proj2 (Hsame b))).
  destruct st as [| | |status|q].
  1, 2: eexists _, p; split_and!; try done; by rewrite Nat.add_0_r.
  all: cbn zeta; rewrite started_msg_ok, outcome_bind_Ret.
  - eexists _, _. split; [done|]. split; [apply Hsame|]. cbn [running orphans tried reaped]. by rewrite Hl, Nat.add_0_r.
  - eexists _, _. split; [done|]. split; [apply Hsame|]. cbn [running orphans tried reaped]. rewrite Hl, Nat.add_0_r. unfold log_exec_failure.
    destruct (term_of status). destruct (logging o); cbn [negb]; [|done]. by destruct (fmt_print o).
  - destruct Hcl as [Hc1 Hc2]. destruct (zoo_marks (zoofile p) q _ (name colle) (cmdline colle) Hz) as (z & -> & Hz'); [lia|done|done|].
    cbn [lift]. rewrite outcome_bind_Ret. change (negb (0 =? 0)) with false. cbn iota.
    pose proof (busy_insert (running p) i t (mk_slot q false (Some colle)) Hi) as Hb. cbn [pgrp] in Hb.
    rewrite Ht, (live_cons 0), decide_True, (live_cons q), decide_False in Hb by (done || lia). cbn in Hb. rewrite app_nil_r in Hb.
    eexists _, _. split; [done|]. unfold procs_ok. cbn [running orphans zoofile tried reaped]. split_and!; try done.
    + by rewrite length_insert.
    + apply Forall_insert; [done|]. intros _. split; [done|]. by exists colle.
    + by rewrite Hb, <- Permutation_cons_append.
    + by rewrite Hb, length_app.
Qed.

Lemma signal_slot_ok ts : Forall slot_ok ts → Forall slot_ok (signal_slot <$> ts).
Proof.
  intros H. apply Forall_fmap. eapply Forall_impl; [exact H|]. intros t Ht. cbn. unfold signal_slot.
  destruct (pgrp t =? 0); [done|]. exact Ht.
Qed.

Definition sweep (gone : Z → bool) (ps : list Z) : list Z := (λ p, if gone p then 0 else p) <$> ps.

Lemma propagate_ok self gone g p : procs_ok self p →
  ∃ p', propagate_signal gone g p = Ret (mk_sigs 0 0 (lastsent g), p') ∧ procs_ok self p' ∧
    busy (running p') = busy (running p) ∧ running p' = signal_slot <$> running p ∧ orphans p' = sweep gone (orphans p) ∧
    kills p' = kills p ++ ((λ q, (- q, send_signal g)) <$> busy (running p)) ++ ((λ q, (- q, send_signal g)) <$> live (orphans p)).
Proof.
  intros (Hlen & Hok & Hz). unfold propagate_signal.
  set (g' := if rec_signal g =? SIGALRM then _ else g). assert (send_signal g' = send_signal g ∧ lastsent g' = lastsent g) as [-> ->].
  { unfold g'. by destruct (rec_signal g =? SIGALRM). }
  destruct (check_orphans_spec gone (send_signal g) (orphans p) (zoofile p) (kills p ++ slot_kills (send_signal g) (running p))
    (busy (running p) ++ self ++ others)) as (z & -> & Hz').
  { by rewrite Permutation_app_swap_app. }
  rewrite outcome_bind_Ret. eexists. split; [done|]. unfold procs_ok. cbn [running orphans zoofile kills]. rewrite busy_signal.
  split_and!; try done.
  - by rewrite length_fmap.
  - by apply signal_slot_ok.
  - by rewrite Permutation_app_swap_app in Hz'.
  - rewrite <- (assoc_L (++)). by rewrite slot_kills_busy.
Qed.

Lemma end_slot_ok self p u cpid h w core orph ret :
  procs_ok self p → cpid ∈ busy (running p) →
  ∃ ret' u' p' t colle, end_slot o cpid h w core orph true ret u p = Ret (ret', u', p') ∧ procs_ok self p' ∧
    busy (running p) ≡ₚ cpid :: busy (running p') ∧ busy_cmds (running p) ≡ₚ colle :: busy_cmds (running p') ∧
    t ∈ running p ∧ pgrp t = cpid ∧ cmd t = Some colle ∧
    let undo := (w =? 130) && stopping t && bool_decide (h = Exited) in
    ret' = (if undo then ret - 1 else ret) + c_bool (bool_decide (h = Signaled) && negb (stopping t)) ∧
    u' = log_end o colle h (if undo then 0 else w) core (stopping t) u ∧
    (orph = false → orphans p' = orphans p).
Proof.
  intros (Hlen & Hok & Hz) Hp. destruct (busy_slot _ _ Hp) as (i & t & Hf & Hi & Hpg & Hp0).
  unfold end_slot. rewrite Hf. pose proof Hok as Hall. rewrite Forall_lookup in Hok. destruct (Hok i t Hi) as (Hv & colle & Hcmd & Hcl1 & Hcl2); [by rewrite Hpg|].
  rewrite Hcmd. cbn zeta. rewrite write_test_start_ok.
  assert ((if test_out_dir o && negb (quiet_mode o) then Ret tt else Ret tt) = Ret tt) as -> by by destruct (_ && _).
  rewrite outcome_bind_Ret. set (ts := <[i := mk_slot 0 (stopping t) (Some colle)]> (running p)).
  assert (busy (running p) ≡ₚ cpid :: busy ts) as Hb.
  { pose proof (busy_insert (running p) i t (mk_slot 0 (stopping t) (Some colle)) Hi) as Hb. cbn [pgrp] in Hb. fold ts in Hb.
    rewrite Hpg, (live_cons 0), decide_True, (live_cons cpid), decide_False in Hb by done. cbn in Hb. rewrite app_nil_r in Hb.
    rewrite <- Hb. symmetry. apply Permutation_cons_append. }
  assert (busy_cmds (running p) ≡ₚ colle :: busy_cmds ts) as Hbc.
  { pose proof (busy_cmds_insert (running p) i t (mk_slot 0 (stopping t) (Some colle)) Hi) as Hb'. fold ts in Hb'.
    unfold slot_entry in Hb'. cbn [pgrp cmd] in Hb'. rewrite Hcmd, Hpg, decide_False, decide_True, app_nil_r in Hb' by done. cbn in Hb'.
    rewrite <- Hb'. symmetry. apply Permutation_cons_append. }
  assert (Forall slot_ok ts) as Hts by (apply Forall_insert; [done|intros []; done]).
  assert (length ts = keep_active o) as Hlts by (unfold ts; by rewrite length_insert).
  destruct (zoo_clears (zoofile p) cpid (busy ts ++ live (orphans p) ++ self ++ others)) as (z & -> & Hz1).
  { by rewrite Hb in Hz. }
  cbn [lift]. rewrite outcome_bind_Ret. change (negb (0 =? 0)) with false. cbn iota.
  assert (t ∈ running p) as Hin by by eapply list_elem_of_lookup_2.
  assert (∀ x b, (if b : bool then x + 1 else x) = x + c_bool b) as Hadd by (intros x []; cbn; lia).
  rewrite Hadd. destruct orph; cbn [negb].
  - destruct (zoo_marks z cpid _ (str "panorphan") (cmdline colle) Hz1) as (z2 & -> & Hz2); [lia|split; apply (bool_decide_unpack _); vm_compute; exact I|done|].
    cbn [lift]. rewrite outcome_bind_Ret. change (negb (0 =? 0)) with false. cbn iota.
    eexists _, _, _, t, colle. split; [done|]. unfold procs_ok. cbn [running orphans zoofile]. split_and!; try done.
    rewrite live_mark_orphan by lia. cbn [app]. by rewrite <- Permutation_middle.
  - eexists _, _, _, t, colle. split; [done|]. unfold procs_ok. cbn [running orphans zoofile]. by split_and!.
Qed.

Lemma check_pids_ok self gone wt orph u p :
  procs_ok self p →
  match wt with
  | Waited q st => q ∈ busy (running p) ∧ ((term_of st).1 = Exited ∨ (term_of st).1 = Signaled)
  | WaitFailed => True
  end →
  ∃ err u' p', check_pids o gone wt orph true (Z.of_nat (length (busy (running p)))) u p =
      Ret (err, Z.of_nat (length (busy (running p'))), u', p') ∧ procs_ok self p' ∧
    match wt with
    | WaitFailed => err = 0 ∧ u' = u ∧ running p' = running p
    | Waited q st =>
        busy (running p) ≡ₚ q :: busy (running p') ∧
        ∃ t colle, t ∈ running p ∧ pgrp t = q ∧ cmd t = Some colle ∧ busy_cmds (running p) ≡ₚ colle :: busy_cmds (running p') ∧
          let '(h, w) := term_of st in
          let undo := (w =? 130) && stopping t && bool_decide (h = Exited) in
          let w' := if undo then 0 else w in
          u' = log_end o colle h w' (core_of st) (stopping t) u ∧
          err = c_bool (match h with Exited => negb (w' =? 0) && negb (w' =? TCONF) | _ => negb (stopping t) end)
    end ∧
    (orph = false → orphans p' = sweep gone (orphans p)).
Proof.
  intros (Hlen & Hok & Hz) Hw. unfold check_pids.
  destruct (check_orphans_spec gone 0 (orphans p) (zoofile p) (kills p) (busy (running p) ++ self ++ others)) as (z & -> & Hz').
  { by rewrite Permutation_app_swap_app. }
  rewrite outcome_bind_Ret. fold (sweep gone (orphans p)) in *. rewrite Permutation_app_swap_app in Hz'.
  set (p1 := mk_procs (running p) _ z _). assert (procs_ok self p1) as Hp1 by done.
  destruct wt as [|q st]; [by exists 0, u, p1|]. destruct Hw as [Hq Hh].
  destruct (term_of st) as [h w] eqn:Et. cbn [fst] in Hh.
  set (ret := match h with Signaled => 0 | Exited => _ | _ => 1 end).
  destruct (end_slot_ok self p1 u q h w (core_of st) orph ret Hp1 Hq) as (ret' & u' & p' & t & colle & -> & Hp' & Hb & Hbc & Ht & Hpg & Hcmd & Er & Eu & Ho).
  rewrite outcome_bind_Ret. exists ret', u', p'. split; [|split; [done|split; [|done]]].
  - assert (length (busy (running p)) = S (length (busy (running p')))) as El by by rewrite (Hb : busy (running p) ≡ₚ _).
    destruct Hh as [-> | ->]; do 4 f_equal; lia.
  - split; [done|]. exists t, colle. split_and!; try done. subst ret' ret. destruct Hh as [-> | ->].
    + rewrite (bool_decide_true (Exited = Exited)), (bool_decide_false (Exited = Signaled)), andb_true_r by done. cbn [andb c_bool].
      destruct (Z.eqb_spec w 130) as [-> |Hw]; cbn [andb]; [|destruct (negb (w =? 0) && negb (w =? TCONF)); done].
      by destruct (stopping t).
    + rewrite (bool_decide_false (Signaled = Exited)), (bool_decide_true (Signaled = Signaled)), andb_false_r by done. cbn [andb].
      by destruct (stopping t).
Qed.

(** ** Every step *)

Lemma coll_lookup k : (k < length coll)%nat → ∃ colle, coll !! k = Some colle ∧ clean_entry colle.
Proof.
  intros Hk. destruct (lookup_lt_is_Some_2 coll k Hk) as [colle E]. exists colle. split; [done|].
  rewrite Forall_lookup in Hcoll. by eapply Hcoll.
Qed.

(** The command that is started next. *)
Definition next_cmd (i : input) (d : sched) : nat := if sequential o then c d else (i_rnd i mod length coll)%nat.

Lemma coll_length : (0 < length coll)%nat.
Proof. destruct coll; [done|simpl; lia]. Qed.

Lemma next_cmd_lt i d : (c d < length coll)%nat → (next_cmd i d < length coll)%nat.
Proof.
  intros Hc. unfold next_cmd. destruct (sequential o); [done|]. pose proof coll_length. apply Nat.mod_upper_bound. lia.
Qed.

(** A start that is wanted finds a slot and a command. *)
Lemma step_start_ok i s : inv (PStart, s) → wants_start o s = true → i_kmsg i = true →
  match i_start i with Started p => 0 < p < 2 ^ 31 | _ => True end →
  ∃ colle u p, coll !! next_cmd i (sch s) = Some colle ∧
    let started := match i_start i with Started _ => true | _ => false end in
    step_start o coll i s =
      Ret (PStart, mk_pan (mk_sched (num_active (sch s) + c_bool started)
        (if (started || sequential o) && (0 <? starts (sch s)) then starts (sch s) - 1 else starts (sch s))
        (if sequential o then if (length coll <=? S (c (sch s)))%nat then O else S (c (sch s)) else next_cmd i (sch s))
        (stop (sch s)) (go_idle (sch s)) (exit_stat (sch s)) (fork_in_road (sch s))) (sg s) u p) ∧
    procs_ok [pan_pid] p ∧ orphans p = orphans (pr s) ∧
    Z.of_nat (length (busy (running p))) = num_active (sch s) + c_bool started ∧
    tried u = tried (out s) ++ [(colle, i_start i)] ∧ reaped u = reaped (out s) ∧
    run_child o colle (match list_find (λ t, pgrp t = 0) (running (pr s)) with Some (k, _) => k | None => O end)
      (i_start i) true (out s) (pr s) = Ret (started, u, p).
Proof.
  intros (Hp & (Hn & Hc & _) & _) Hw Hkm He. unfold step_start. rewrite Hw, Hkm.
  destruct (coll_lookup (next_cmd i (sch s)) (next_cmd_lt i _ Hc)) as (colle & Ec & Hcl). fold (next_cmd i (sch s)).
  assert (length (busy (running (pr s))) < length (running (pr s)))%nat as Hlt.
  { destruct Hp as (Hl & _). rewrite Hl. unfold wants_start in Hw. rewrite !andb_true_iff in Hw. destruct Hw as ((((Hw & _) & _) & _) & _).
    apply Z.ltb_lt in Hw. lia. }
  destruct (free_slot _ Hlt) as [[k t] Ef]. rewrite Ef, Ec. cbn [lift]. rewrite outcome_bind_Ret.
  apply list_find_Some in Ef as (Hk & Ht & _).
  destruct (run_child_ok [pan_pid] colle k (i_start i) (out s) (pr s) t Hp Hk Ht Hcl He) as (u & p & Er & Hp' & Ho & Hl & Htr & Hre).
  rewrite Er, outcome_bind_Ret. exists colle, u, p. split; [done|]. cbn zeta. split_and!; try done.
  - unfold next_cmd. by destruct (sequential o).
  - rewrite Hl, Hn. by destruct (i_start i); cbn; lia.
Qed.

Lemma inv_start i s : inv (PStart, s) → env_ok (PStart, s) (EGo i) → ∃ st, step_start o coll i s = Ret st ∧ inv st.
Proof.
  intros Hi (Hkm & He & _). specialize (He eq_refl). destruct (wants_start o s) eqn:Hw.
  - destruct (step_start_ok i s Hi Hw Hkm He) as (colle & u & p & _ & E & Hp & _ & Hn & _). cbn zeta in *. rewrite E.
    eexists. split; [done|]. destruct Hi as (_ & (_ & Hc & H1 & H2) & _). unfold inv, sched_ok.
    cbn [sch pr num_active c stop go_idle]. split_and!; try done.
    pose proof (next_cmd_lt i _ Hc). destruct (sequential o); [|done]. pose proof coll_length. destruct (Nat.leb_spec (length coll) (S (c (sch s)))); lia.
  - unfold step_start. rewrite Hw. by eexists.
Qed.

Lemma pan_eta (s : pan F) : s = mk_pan (sch s) (sg s) (out s) (pr s).
Proof. by destruct s. Qed.

Lemma idle_or_stop_ok d : num_active (idle_or_stop d) = num_active d ∧ starts (idle_or_stop d) = starts d ∧ c (idle_or_stop d) = c d ∧
  exit_stat (idle_or_stop d) = exit_stat d ∧ fork_in_road (idle_or_stop d) = fork_in_road d ∧
  stop (idle_or_stop d) = stop d + c_bool (negb (fork_in_road d)) ∧ go_idle (idle_or_stop d) = go_idle d + c_bool (fork_in_road d).
Proof. unfold idle_or_stop, inc_idle, inc_stop. destruct (fork_in_road d); cbn; split_and!; lia || done. Qed.

Lemma no_fork_ok d (b : bool) : let d' := if b then no_fork d else d in
  num_active d' = num_active d ∧ starts d' = starts d ∧ c d' = c d ∧ exit_stat d' = exit_stat d ∧ stop d' = stop d ∧ go_idle d' = go_idle d ∧
  (fork_in_road d = false → fork_in_road d' = false).
Proof. by destruct b. Qed.

(** A signal that was received is passed on and stops the scheduler, or makes
    it idle. *)
Lemma inv_signal i s : inv (PSignal, s) → ∃ d g p,
  step_signal i s = Ret (PCheck, mk_pan d g (out s) p) ∧ inv (PCheck, mk_pan d g (out s) p) ∧
  num_active d = num_active (sch s) ∧ starts d = starts (sch s) ∧ c d = c (sch s) ∧ exit_stat d = exit_stat (sch s) ∧
  busy_cmds (running p) = busy_cmds (running (pr s)) ∧ busy (running p) = busy (running (pr s)) ∧ rec_signal g = 0 ∧
  (fork_in_road (sch s) = false → fork_in_road d = false ∧ go_idle d = go_idle (sch s) ∧
    stop d = stop (sch s) + c_bool (negb (rec_signal (sg s) =? 0))).
Proof.
  intros Hi. pose proof Hi as (Hp & (Hn & Hc & H1 & H2) & _). unfold step_signal.
  destruct (Z.eqb_spec (rec_signal (sg s)) 0) as [Er|Er].
  { exists (sch s), (sg s), (pr s). rewrite <- pan_eta. split_and!; try done. cbn. intros ->. split_and!; lia || done. }
  cbn [negb c_bool]. destruct (rec_signal (sg s) =? SIGUSR2).
  - eexists _, _, _. split; [done|]. destruct (idle_or_stop_ok (sch s)) as (E1 & E2 & E3 & E4 & E5 & E6 & E7).
    unfold inv, sched_ok. cbn [sch pr]. rewrite E1, E2, E3, E4, E5, E6, E7.
    split_and!; try done; destruct (fork_in_road (sch s)); cbn; lia.
  - destruct (propagate_ok [pan_pid] (i_gone i) (sg s) (pr s) Hp) as (p & -> & Hp' & Hb & Hru & _). rewrite outcome_bind_Ret.
    eexists _, _, _. split; [done|]. pose proof (no_fork_ok (sch s) (rec_signal (sg s) =? SIGUSR1)) as D. cbn zeta in D.
    set (d := if rec_signal (sg s) =? SIGUSR1 then _ else _) in *. destruct D as (D1 & D2 & D3 & D4 & D5 & D6 & D7).
    destruct (idle_or_stop_ok d) as (E1 & E2 & E3 & E4 & E5 & E6 & E7).
    unfold inv, sched_ok. cbn [sch pr]. rewrite E1, E2, E3, E4, E5, E6, E7, D1, D2, D3, D4, D5, D6, Hb, Hru, busy_cmds_signal.
    split_and!; try done; try (destruct (fork_in_road d); cbn; lia). intros Hf%D7. rewrite Hf. cbn. split_and!; lia || done.
Qed.

(** What a failed test changes in the scheduler. *)
Lemma on_err_ok (s : pan F) : num_active (sch (on_err o s)) = num_active (sch s) ∧ c (sch (on_err o s)) = c (sch s) ∧
  stop (sch (on_err o s)) = stop (sch s) ∧ (0 ≤ go_idle (sch s) → 0 ≤ go_idle (sch (on_err o s))) ∧
  exit_stat (sch (on_err o s)) = exit_stat (sch s) + c_bool (track_exit_stats o) ∧ out (on_err o s) = out s ∧ pr (on_err o s) = pr s ∧
  starts (sch (on_err o s)) = starts (sch s) ∧ fork_in_road (sch (on_err o s)) = fork_in_road (sch s) ∧
  (fork_in_road (sch s) = false → go_idle (sch (on_err o s)) = go_idle (sch s)) ∧ (has_brakes o = false → sg (on_err o s) = sg s) ∧
  (rec_signal (sg s) ≠ 0 → rec_signal (sg (on_err o s)) ≠ 0).
Proof.
  unfold on_err, inc_idle. destruct (fork_in_road (sch s)) eqn:Ef, (track_exit_stats o), (has_brakes o); cbn; rewrite ?Ef; split_and!; lia || done.
Qed.

(** The parts of the wait: the new outputs and processes, and whether a test
    failed. *)
Lemma step_check_ok i s : inv (PCheck, s) → env_ok (PCheck, s) (EGo i) →
  ∃ err u p k g d,
    check_pids o (i_gone i) (i_wait i) (i_orphaned i) true (num_active (sch s)) (out s) (pr s) =
      Ret (err, Z.of_nat (length (busy (running p))), u, p) ∧
    step_check o i s = Ret (k, mk_pan d g u p) ∧ procs_ok [pan_pid] p ∧
    num_active d = Z.of_nat (length (busy (running p))) ∧ starts d = starts (sch s) ∧ c d = c (sch s) ∧
    stop d = stop (sch s) ∧ 0 ≤ go_idle d ∧ exit_stat d = exit_stat (sch s) + (if negb (err =? 0) then c_bool (track_exit_stats o) else 0) ∧
    (k = POrphans ∧ busy (running p) = [] ∧ stop d ≠ 0 ∨ k = PStart ∧ (busy (running p) ≠ [] ∨ stop d = 0)) ∧
    (fork_in_road (sch s) = false → go_idle (sch s) = 0 → fork_in_road d = false ∧ go_idle d = 0) ∧
    (has_brakes o = false → rec_signal (sg s) = 0 → rec_signal g = 0) ∧
    fork_in_road d = fork_in_road (sch s) ∧ (rec_signal (sg s) ≠ 0 → rec_signal g ≠ 0).
Proof.
  intros (Hp & (Hn & Hc & H1 & H2) & _) (Hkm & _ & He). specialize (He eq_refl). unfold step_check. rewrite Hkm, Hn in *.
  destruct (check_pids_ok [pan_pid] (i_gone i) (i_wait i) (i_orphaned i) (out s) (pr s) Hp He) as (err & u & p & E & Hp' & _).
  rewrite E, outcome_bind_Ret. set (s1 := mk_pan (mk_sched _ _ _ _ _ _ _) (sg s) u p).
  set (s2 := if negb (err =? 0) then on_err o s1 else s1).
  assert (num_active (sch s2) = Z.of_nat (length (busy (running p))) ∧ starts (sch s2) = starts (sch s) ∧ c (sch s2) = c (sch s) ∧
    stop (sch s2) = stop (sch s) ∧ 0 ≤ go_idle (sch s2) ∧
    exit_stat (sch s2) = exit_stat (sch s) + (if negb (err =? 0) then c_bool (track_exit_stats o) else 0) ∧ out s2 = u ∧ pr s2 = p ∧
    (fork_in_road (sch s) = false → go_idle (sch s) = 0 → fork_in_road (sch s2) = false ∧ go_idle (sch s2) = 0) ∧
    (has_brakes o = false → rec_signal (sg s) = 0 → rec_signal (sg s2) = 0) ∧
    fork_in_road (sch s2) = fork_in_road (sch s) ∧ (rec_signal (sg s) ≠ 0 → rec_signal (sg s2) ≠ 0))
    as (A1 & A2 & A3 & A4 & A5 & A6 & A7 & A8 & A9 & A10 & A11 & A12).
  { unfold s2. destruct (on_err_ok s1) as (B1 & B2 & B3 & B4 & B5 & B6 & B7 & B8 & B9 & B10 & B11 & B12).
    set (s1' := on_err o s1) in *. clearbody s1'.
    destruct (negb (err =? 0)); [rewrite B1, B2, B3, B5, B6, B7, B8, B9; specialize (B4 H2)|]; cbn; split_and!; try done; try lia.
    - intros Hf Hg. rewrite (B10 Hf). auto.
    - intros Hb Hg. by rewrite (B11 Hb). }
  assert (busy (running p) = [] ↔ Z.of_nat (length (busy (running p))) = 0) as Hb by (destruct (busy (running p)); simpl; split; done || lia).
  exists err, u, p. destruct (Z.eqb_spec (stop (sch s2)) 0) as [Es|Es]; cbn [negb andb].
  - destruct (negb (go_idle (sch s2) =? 0) && _).
    + eexists _, _, _. split; [done|]. rewrite A7, A8. split; [done|]. cbn. rewrite A2, A3, A4, A6. split_and!; try done; [right; rewrite A4 in Es; auto|]. intros Hf Hg. by destruct (A9 Hf Hg).
    + exists PStart, (sg s2), (sch s2). split; [done|]. split; [by rewrite <- A7, <- A8, <- pan_eta|]. split_and!; try done. right. auto.
  - destruct (Z.eqb_spec (Z.of_nat (length (busy (running p)))) 0) as [E0|E0]; [|rewrite andb_false_r];
      eexists _, (sg s2), (sch s2); (split; [done|]); (split; [by rewrite <- A7, <- A8, <- pan_eta|]); split_and!; try done; [left|right]; tauto.
Qed.

Lemma inv_check i s : inv (PCheck, s) → env_ok (PCheck, s) (EGo i) → ∃ st, step_check o i s = Ret st ∧ inv st.
Proof.
  intros Hi He. destruct (step_check_ok i s Hi He) as (err & u & p & k & g & d & _ & -> & Hp & Hn & _ & Ec & Es & Hg & _ & Hk & _).
  eexists. split; [done|]. destruct Hi as (_ & (_ & Hc & H1 & H2) & _). unfold inv, sched_ok. cbn [sch pr]. rewrite Ec, Es.
  destruct Hk as [(-> & Hb & _)|(-> & _)]; by split_and!.
Qed.

Lemma live_existsb ps : existsb (λ p, negb (p =? 0)) ps = false → live ps = [].
Proof.
  induction ps as [|p ps IH]; [done|]. cbn [existsb]. intros [H1%negb_false_iff%Z.eqb_eq H2]%orb_false_iff. subst. rewrite live_cons, decide_True by done. auto.
Qed.

Lemma inv_orphans i s : inv (POrphans, s) → ∃ st, step_orphans pan_pid i s = Ret st ∧ inv st ∧
  (existsb (λ p, negb (p =? 0)) (orphans (pr s)) = false → st.1 = PExit (exit_stat (sch s) mod 256) ∧ out st.2 = out s ∧ sch st.2 = sch s).
Proof.
  intros (Hp & (Hn & Hc & H1 & H2) & Hb). unfold step_orphans. destruct (existsb _ _) eqn:Ex.
  - set (g := if rec_signal (sg s) =? 0 then _ else _).
    destruct (propagate_ok [pan_pid] (i_gone i) g (pr s) Hp) as (p & -> & Hp' & Hb' & _). rewrite outcome_bind_Ret.
    eexists. split; [done|]. split; [|done]. unfold inv, sched_ok. cbn [sch pr]. rewrite Hb', Hb in *. by split_and!.
  - apply live_existsb in Ex as El. destruct Hp as (Hl & Hok & Hz). rewrite Hb, El in Hz.
    destruct (zoo_clears (zoofile (pr s)) pan_pid others) as (z & -> & Hz'); [done|]. cbn [lift]. rewrite outcome_bind_Ret.
    eexists. split; [done|]. change (c_bool (negb (0 =? 0))) with 0. rewrite Z.add_0_r, (Z.land_ones _ 8) by done. split; [|done].
    unfold inv, sched_ok, procs_ok. cbn [sch pr running orphans zoofile]. rewrite Hb, El in *. by split_and!.
Qed.

(** Every step of the driver succeeds and keeps the invariant. *)
Lemma step_inv e st : inv st → env_ok st e → ∃ st', step o coll pan_pid e st = Ret st' ∧ inv st'.
Proof.
  destruct st as [k s]. destruct e as [sig|i]; intros Hi He; cbn [step].
  { eexists. split; [done|]. exact Hi. }
  destruct k.
  - by apply inv_start.
  - eexists. split; [done|]. destruct Hi as (Hp & (Hn & Hc & H1 & H2) & _). unfold inv.
    destruct (starts (sch s) =? 0); [|destruct ((starts (sch s) =? -1) && i_stopfile i)]; unfold sched_ok; cbn; split_and!; done || lia.
  - destruct (inv_signal i s Hi) as (d & g & p & E & H & _). eauto.
  - by apply inv_check.
  - destruct (inv_orphans i s Hi) as (st & E & H & _). eauto.
  - by eexists.
Qed.

(** ** The accounts *)

(** Whether the end of a test counts as a failure: an exit status other than
    0 and TCONF, or a signal that the driver has not caused. *)
Definition failing (x : coll_entry * how * Z * bool) : bool :=
  let '(_, h, w, stopped) := x in
  match h with Exited => negb (w =? 0) && negb (w =? TCONF) | _ => negb stopped end.

Definition count {A} (f : A → bool) (l : list A) : Z := Z.of_nat (length (filter (λ x, f x = true) l)).

Lemma count_app {A} (f : A → bool) l l' : count f (l ++ l') = count f l + count f l'.
Proof. unfold count. rewrite filter_app, length_app. lia. Qed.

Lemma count_one {A} (f : A → bool) x : count f [x] = c_bool (f x).
Proof. unfold count. rewrite filter_cons, filter_nil. destruct (f x); [by rewrite decide_True|by rewrite decide_False]. Qed.

Definition is_started (x : coll_entry * start) : list coll_entry := match x.2 with Started _ => [x.1] | _ => [] end.
Definition exec_failed (x : coll_entry * start) : bool :=
  match x.2 with ExecFailed status => negb ((term_of status).2 =? 0) | _ => false end.
Definition shown_as (r : result) (x : coll_entry * how * Z * bool) : bool :=
  let '(_, h, w, _) := x in
  match r, result_of h w with PASS, PASS | FAIL, FAIL | CONF, CONF => true | _, _ => false end.

Definition started_cmds (u : outs) : list coll_entry := concat (is_started <$> tried u).
Definition reaped_cmds (u : outs) : list coll_entry := (λ x, x.1.1.1) <$> reaped u.

Definition accounts (st : pc * pan F) : Prop :=
  let u := out st.2 in
  started_cmds u ≡ₚ busy_cmds (running (pr st.2)) ++ reaped_cmds u ∧
  exit_stat (sch st.2) = (if track_exit_stats o then count failing (reaped u) else 0) ∧
  (logging o && fmt_print o = true →
    failcnt u = count (shown_as FAIL) (reaped u) + count exec_failed (tried u) ∧ tconfcnt u = count (shown_as CONF) (reaped u)).

Lemma run_child_accounts colle i st u p t b u' p' :
  running p !! i = Some t → pgrp t = 0 → match st with Started q => 0 < q < 2 ^ 31 | _ => True end →
  run_child o colle i st true u p = Ret (b, u', p') →
  busy_cmds (running p') ≡ₚ busy_cmds (running p) ++ is_started (colle, st) ∧
  (logging o && fmt_print o = true → failcnt u' = failcnt u + count exec_failed [(colle, st)] ∧ tconfcnt u' = tconfcnt u).
Proof.
  intros Hi Ht Hst. unfold run_child. rewrite Hi, count_one. unfold is_started, exec_failed. cbn [fst snd].
  assert (∀ b, busy_cmds (<[i := mk_slot (pgrp t) b (Some colle)]> (running p)) ≡ₚ busy_cmds (running p)) as Hsame.
  { intros x. pose proof (busy_cmds_insert (running p) i t (mk_slot (pgrp t) x (Some colle)) Hi) as Hb.
    unfold slot_entry in Hb. cbn [pgrp] in Hb. rewrite !decide_True in Hb by done. by rewrite !app_nil_r in Hb. }
  destruct st as [| | |status|q].
  1, 2: intros [= <- <- <-]; rewrite app_nil_r; cbn; split; [done|]; split; lia.
  all: cbn zeta; rewrite started_msg_ok, outcome_bind_Ret.
  - intros [= <- <- <-]. rewrite app_nil_r. cbn [running]. split; [apply Hsame|]. cbn. split; lia.
  - intros [= <- <- <-]. rewrite app_nil_r. cbn [running]. split; [apply Hsame|]. unfold log_exec_failure. destruct (term_of status) as [h w].
    intros [Hlog Hf]%andb_true_iff. rewrite Hlog, Hf. cbn. split; lia.
  - destruct (lift _) as [[r z]| |]; try done. rewrite outcome_bind_Ret. destruct (negb (r =? 0)); [done|]. intros [= <- <- <-]. cbn [running].
    pose proof (busy_cmds_insert (running p) i t (mk_slot q false (Some colle)) Hi) as Hb. unfold slot_entry in Hb. cbn [pgrp cmd] in Hb.
    rewrite decide_True, decide_False, app_nil_r in Hb by (done || lia). split; [done|]. cbn. split; lia.
Qed.

Lemma log_end_accounts colle h w core b u :
  tried (log_end o colle h w core b u) = tried u ∧ reaped (log_end o colle h w core b u) = reaped u ++ [(colle, h, w, b)] ∧
  (logging o && fmt_print o = true →
    failcnt (log_end o colle h w core b u) = failcnt u + c_bool (shown_as FAIL (colle, h, w, b)) ∧
    tconfcnt (log_end o colle h w core b u) = tconfcnt u + c_bool (shown_as CONF (colle, h, w, b))).
Proof.
  unfold log_end, shown_as.
  destruct (logging o), (fmt_print o), (result_of h w), (w =? 0), (tconfcmdfile o && (w =? TCONF)), (failcmdfile o);
    cbn; split_and!; done || lia.
Qed.

Lemma check_accounts i s : inv (PCheck, s) → env_ok (PCheck, s) (EGo i) → accounts (PCheck, s) →
  ∃ st, step_check o i s = Ret st ∧ accounts st.
Proof.
  intros Hi He Hacc. destruct (step_check_ok i s Hi He) as (err & u & p & k & g & d & E & -> & _ & _ & _ & _ & _ & _ & Ex & _).
  eexists. split; [done|]. pose proof Hi as (Hp & (Hn & _) & _). destruct He as (_ & _ & He). specialize (He eq_refl). rewrite Hn in E.
  destruct (check_pids_ok [pan_pid] (i_gone i) (i_wait i) (i_orphaned i) (out s) (pr s) Hp He) as (err' & u' & p' & E' & _ & Hw & _).
  rewrite E in E'. injection E' as <- _ <- <-. destruct Hacc as (A1 & A2 & A3). unfold accounts. cbn [snd out sch pr] in *. rewrite Ex, A2.
  destruct (i_wait i) as [|q st].
  { destruct Hw as (-> & -> & ->). split_and!; try done. destruct (track_exit_stats o); cbn; lia. }
  destruct Hw as (_ & t & colle & _ & _ & _ & Hbc & Hw). destruct (term_of st) as [h w]. cbn zeta in Hw. destruct Hw as [-> ->].
  match goal with |- context [log_end o colle h ?x] => set (w' := x) in * end. destruct (log_end_accounts colle h w' (core_of st) (stopping t) (out s)) as (L1 & L2 & L3).
  unfold started_cmds, reaped_cmds in *. rewrite L1, L2, !fmap_app, !count_app, !count_one. cbn [fmap list_fmap fst]. split_and!.
  - rewrite A1, Hbc. rewrite (assoc_L (++)). rewrite <- Permutation_cons_append. done.
  - assert (∀ b : bool, (if negb (c_bool b =? 0) then c_bool (track_exit_stats o) else 0) = if track_exit_stats o then c_bool b else 0) as ->
      by (intros b; destruct b, (track_exit_stats o); done).
    unfold failing. by destruct (track_exit_stats o).
  - intros Hlf. destruct (L3 Hlf) as [-> ->], (A3 Hlf) as [-> ->]. split; lia.
Qed.

Lemma start_accounts i s : inv (PStart, s) → env_ok (PStart, s) (EGo i) → accounts (PStart, s) →
  ∃ st, step_start o coll i s = Ret st ∧ accounts st.
Proof.
  intros Hi (Hkm & He & _) Hacc. specialize (He eq_refl). destruct (wants_start o s) eqn:Hw.
  2: { unfold step_start. rewrite Hw. by eexists. }
  destruct (step_start_ok i s Hi Hw Hkm He) as (colle & u & p & _ & E & _ & _ & _ & Htr & Hre & Er). cbn zeta in *. rewrite E.
  eexists. split; [done|]. destruct Hacc as (A1 & A2 & A3). unfold accounts. cbn [snd out sch pr exit_stat] in *.
  assert (∃ k t, list_find (λ t, pgrp t = 0) (running (pr s)) = Some (k, t)) as (k & t & Ef).
  { destruct (list_find _ _) as [[k t]|] eqn:Ef; [eauto|]. unfold step_start in E. by rewrite Hw, Ef in E. }
  rewrite Ef in Er. apply list_find_Some in Ef as (Hk & Ht & _).
  destruct (run_child_accounts colle k (i_start i) (out s) (pr s) t _ u p Hk Ht He Er) as [R1 R2].
  unfold started_cmds, reaped_cmds in *. rewrite Htr, Hre, fmap_app, concat_app, count_app. cbn [fmap list_fmap concat]. rewrite app_nil_r. split_and!; [|done|].
  - rewrite A1, R1. solve_Permutation.
  - intros Hlf. destruct (R2 Hlf) as [-> ->], (A3 Hlf) as [-> ->]. split; lia.
Qed.

Lemma step_accounts e st : inv st → env_ok st e → accounts st → ∃ st', step o coll pan_pid e st = Ret st' ∧ accounts st'.
Proof.
  destruct st as [k s]. destruct e as [sig|i]; intros Hi He Hacc; cbn [step].
  { eexists. split; [done|]. exact Hacc. }
  destruct k.
  - by apply start_accounts.
  - eexists. split; [done|]. unfold accounts in *. cbn [snd] in *.
    destruct (starts (sch s) =? 0); [|destruct ((starts (sch s) =? -1) && i_stopfile i)]; exact Hacc.
  - destruct (inv_signal i s Hi) as (d & g & p & -> & _ & _ & _ & _ & Ex & Hb & _). eexists. split; [done|].
    unfold accounts in *. cbn [snd out sch pr] in *. by rewrite Ex, Hb.
  - by apply check_accounts.
  - destruct Hi as (Hp & _ & Hb). unfold step_orphans. destruct (existsb _ _).
    + set (g := if rec_signal (sg s) =? 0 then _ else _).
      destruct (propagate_ok [pan_pid] (i_gone i) g (pr s) Hp) as (p & -> & _ & _ & Hru & _). rewrite outcome_bind_Ret. eexists. split; [done|].
      unfold accounts in *. cbn [snd out sch pr] in *. by rewrite Hru, busy_cmds_signal.
    + destruct Hp as (_ & _ & Hz). destruct (zoo_clears (zoofile (pr s)) pan_pid (live (orphans (pr s)) ++ others)) as (z & -> & _).
      { rewrite Hb in Hz. cbn [app] in Hz. by rewrite <- Permutation_middle in Hz. }
      cbn [lift]. rewrite outcome_bind_Ret. eexists. split; [done|]. exact Hacc.
  - by eexists.
Qed.
End Invariant.

(** ** Runs *)

(** What the driver is started with: a collection that is not empty, the
    process number of the driver, its name and arguments, and an active file
    with the entries of others. *)
Record setup (F : Type) := mk_setup {
  s_opts : opts; s_coll : list coll_entry; s_pid : Z; s_timed : bool; s_restart : bool; s_starts : Z;
  s_name : list Z; s_args : list (list Z); s_zoo : F; s_others : list Z }.
Arguments mk_setup {F}.
Arguments s_opts {F}.
Arguments s_coll {F}.
Arguments s_pid {F}.
Arguments s_timed {F}.
Arguments s_restart {F}.
Arguments s_starts {F}.
Arguments s_name {F}.
Arguments s_args {F}.
Arguments s_zoo {F}.
Arguments s_others {F}.

Section Runs.
Context {F : Type} `{AF : ActiveFile F} (S : setup F).

Definition setup_ok : Prop :=
  Forall clean_entry (s_coll S) ∧ s_coll S ≠ [] ∧ 0 < s_pid S < 2 ^ 31 ∧ clean (s_name S) ∧ Forall clean (s_args S) ∧ s_args S ≠ [] ∧
  Z.of_nat (keep_active (s_opts S)) < 2 ^ 31 ∧ zoo_has (s_zoo S) (s_others S).

Definition init : outcome (pc * pan F) :=
  pan_init (s_opts S) (s_coll S) (s_pid S) (s_timed S) (s_restart S) (s_starts S) (s_name S) (s_args S) (s_zoo S).

Definition go (e : event) (st : pc * pan F) : outcome (pc * pan F) := step (s_opts S) (s_coll S) (s_pid S) e st.

(** The states of a run, with every order of answers of the kernel and of
    signals. *)
Inductive reachable : pc * pan F → Prop :=
  | reach_init st : init = Ret st → reachable st
  | reach_step st e st' : reachable st → env_ok st e → go e st = Ret st' → reachable st'.

Lemma concat_clean ls : Forall clean ls → clean (concat ls).
Proof. induction 1 as [|l ls Hl _ IH]; [split; apply not_elem_of_nil|]. cbn. by apply clean_app. Qed.

Lemma cat_args_clean args : Forall clean args → args ≠ [] → ∃ s, cat_args args = Some s ∧ clean s.
Proof.
  intros Hc Hn. unfold cat_args. destruct args as [|a args]; [done|]. apply Forall_cons in Hc as [Ha Hc].
  assert (∀ l, length (concat ((λ a, str " " ++ a) <$> l)) = foldr (λ (a : list Z) n, (length a + 1 + n)%nat) O l) as Hl.
  { induction l as [|x l IH]; [done|]. cbn [fmap list_fmap concat foldr]. rewrite !length_app, IH. change (length (str " ")) with 1%nat. lia. }
  cbn [concat foldr]. rewrite length_app, Hl, (proj2 (Nat.ltb_lt _ _)) by lia. eexists. split; [done|].
  apply clean_app. split; [done|]. apply concat_clean, Forall_fmap. eapply Forall_impl; [exact Hc|]. intros x Hx. cbn -[str].
  apply clean_app. split; [|done]. split; apply (bool_decide_unpack _); vm_compute; exact I.
Qed.

Lemma mark_slots_ok n : ∀ k nm z ps, 0 ≤ k → k + Z.of_nat n ≤ 2 ^ 31 → clean nm → zoo_has z ps →
  ∃ z', mark_slots n k nm z = Ret z' ∧ zoo_has z' (seqZ k (Z.of_nat n) ++ ps).
Proof.
  induction n as [|n IH]; intros k nm z ps Hk Hn Hnm Hz; cbn [mark_slots]; [by exists z|].
  destruct (zoo_marks z k ps nm [] Hz) as (z1 & -> & Hz1); [lia|done|split; apply not_elem_of_nil|].
  cbn [lift]. rewrite outcome_bind_Ret. change (negb (0 =? 0)) with false. cbn iota.
  destruct (IH (k + 1) nm z1 (k :: ps)) as (z2 & -> & Hz2); [lia|lia|done|done|]. exists z2. split; [done|].
  rewrite (seqZ_cons k) by lia. cbn [app]. rewrite Permutation_middle. by replace (Z.pred (Z.of_nat (Datatypes.S n))) with (Z.of_nat n) by lia.
Qed.

Lemma clear_slots_ok n : ∀ k (z : F) ps, zoo_has z (seqZ k (Z.of_nat n) ++ ps) → ∃ z', clear_slots n k z = Ret z' ∧ zoo_has z' ps.
Proof.
  induction n as [|n IH]; intros k z ps Hz; cbn [clear_slots]; [by exists z|].
  rewrite (seqZ_cons k) in Hz by lia. cbn [app] in Hz. destruct (zoo_clears z k _ Hz) as (z1 & -> & Hz1).
  cbn [lift]. rewrite outcome_bind_Ret. change (negb (0 =? 0)) with false. cbn iota. apply IH.
  by replace (Z.of_nat n) with (Z.pred (Z.of_nat (Datatypes.S n))) by lia.
Qed.

Lemma busy_none n : busy (replicate n (mk_slot 0 false None)) = [].
Proof. unfold busy. induction n as [|n IH]; [done|]. cbn [replicate fmap list_fmap]. rewrite live_cons, decide_True by done. exact IH. Qed.

Lemma init_ok : setup_ok → ∃ z, init = Ret (PStart, mk_pan (mk_sched 0 (init_starts (s_opts S) (s_coll S) (s_timed S) (s_starts S)) 0 0 0 0 (s_restart S))
    (mk_sigs 0 0 0) (mk_outs 0 0 [] [] [] [] []) (mk_procs (replicate (keep_active (s_opts S)) (mk_slot 0 false None)) [0] z [])) ∧
  zoo_has z (s_pid S :: s_others S).
Proof.
  intros (Hc & Hne & Hpid & Hnm & Ha & Han & Hk & Hz). unfold init, pan_init.
  rewrite (proj2 (Nat.eqb_neq _ _)) by (intros E; by apply Hne, nil_length_inv).
  destruct (cat_args_clean (s_args S) Ha Han) as (cl & -> & Hcl). cbn [lift]. rewrite outcome_bind_Ret.
  destruct (zoo_marks (s_zoo S) (s_pid S) (s_others S) (s_name S) cl Hz) as (z1 & -> & Hz1); [lia|done|done|].
  cbn [lift]. rewrite outcome_bind_Ret. change (negb (0 =? 0)) with false. cbn iota.
  destruct (mark_slots_ok (keep_active (s_opts S)) 0 (s_name S) z1 _ ltac:(lia) ltac:(lia) Hnm Hz1) as (z2 & -> & Hz2).
  rewrite outcome_bind_Ret. destruct (clear_slots_ok _ 0 z2 _ Hz2) as (z3 & -> & Hz3). rewrite outcome_bind_Ret. by exists z3.
Qed.

Lemma reachable_ok : setup_ok → ∀ st, reachable st →
  inv (s_opts S) (s_coll S) (s_pid S) (s_others S) st ∧ accounts (s_opts S) st.
Proof.
  intros Hs st. pose proof Hs as (Hc & Hne & _). induction 1 as [st E|st e st' _ [IHi IHa] He E].
  - destruct (init_ok Hs) as (z & E' & Hz). rewrite E in E'. injection E' as ->. split.
    + unfold inv, procs_ok, sched_ok. cbn [sch pr running orphans zoofile num_active c stop go_idle]. rewrite busy_none, length_replicate.
      split_and!; try done; [|destruct (s_coll S); [done|cbn; lia]]. apply Forall_replicate. by intros [].
    + unfold accounts, started_cmds, reaped_cmds. cbn [snd out pr sch running]. rewrite busy_cmds_nil by apply busy_none.
      split_and!; [done|by destruct (track_exit_stats (s_opts S))|done].
  - unfold go in E. destruct (step_inv _ _ _ _ Hc Hne e st IHi He) as (st1 & E1 & H1). rewrite E in E1. injection E1 as <-.
    destruct (step_accounts _ _ _ _ Hc Hne e st IHi He IHa) as (st2 & E2 & H2). rewrite E in E2. injection E2 as <-. done.
Qed.
End Runs.


