(* ===== verification/PanRuns.v ===== *)
(** * Runs of the test driver

    Termination and completeness of sequential runs, what signals do, the
    escalation of signals to orphaned groups, and commands that cannot be
    started. *)

From S2P Require Import Prelude PanCmd Zoolib Pan PanFacts.

Lemma existsb_live ps : live ps = [] → existsb (λ p, negb (p =? 0)) ps = false.
Proof.
  induction ps as [|p ps IH]; [done|]. rewrite live_cons. destruct (decide (p = 0)) as [-> |]; [|done]. exact IH.
Qed.

Section Live.
Context {F : Type} `{AF : ActiveFile F} (S : setup F).
Let o := s_opts S.
Let coll := s_coll S.

(** A run without signals: [inp n] are the answers in step [n]. *)
Fixpoint run (inp : nat → input) (n : nat) : outcome (pc * pan F) :=
  match n with
  | O => init S
  | Datatypes.S n => st ← run inp n; go S (EGo (inp n)) st
  end.

(** The kernel keeps its promises, [wait] returns a test as long as one runs,
    and orphaned process groups are gone some time. *)
Definition fair (inp : nat → input) : Prop :=
  (∀ n k s, run inp n = Ret (k, s) → env_ok (k, s) (EGo (inp n)) ∧
    (k = PCheck → busy (running (pr s)) ≠ [] → i_wait (inp n) ≠ WaitFailed)) ∧
  ∃ N, ∀ n, (N ≤ n)%nat → ∀ p, i_gone (inp n) p = true.

Lemma run_reach inp n st : (∀ m k s, (m < n)%nat → run inp m = Ret (k, s) → env_ok (k, s) (EGo (inp m))) →
  run inp n = Ret st → reachable S st.
Proof.
  revert st. induction n as [|n IH]; intros st Hf E; cbn [run] in E; [by constructor|].
  destruct (run inp n) as [[k s]| |] eqn:En; try done. rewrite outcome_bind_Ret in E.
  eapply reach_step; [apply IH; [|done]| |exact E].
  - intros m k' s' Hm. apply Hf. lia.
  - apply Hf; [lia|done].
Qed.

Lemma run_reachable inp n st : fair inp → run inp n = Ret st → reachable S st.
Proof. intros [Hf _]. apply run_reach. intros m k s _ E. by apply (Hf m k s). Qed.

(** What is left to do. *)
Definition rank (k : pc) : Z := match k with PStart => 3 | PStop => 2 | PSignal => 1 | _ => 0 end.
Definition work (st : pc * pan F) : Z := 10 * starts (sch st.2) + 4 * num_active (sch st.2) + rank st.1.

Definition in_loop (k : pc) : Prop := match k with POrphans | PExit _ => False | _ => True end.

Definition progress (st st' : pc * pan F) : Prop := work st' < work st ∧ in_loop st'.1 ∨ st'.1 = POrphans.

(** Why the scheduler does not wait in vain. *)
Definition waits (st : pc * pan F) : Prop :=
  let '(k, s) := st in let d := sch s in
  0 ≤ starts d ∧ fork_in_road d = false ∧ go_idle d = 0 ∧
  match k with
  | PStop => 0 < num_active d ∨ starts d = 0 ∨ stop d ≠ 0 ∨ rec_signal (sg s) ≠ 0
  | PSignal => 0 < num_active d ∨ stop d ≠ 0 ∨ rec_signal (sg s) ≠ 0
  | PCheck => 0 < num_active d ∨ stop d ≠ 0
  | _ => True
  end.

Context (Hs : setup_ok S) (Hseq : sequential o = true) (Hkeep : (0 < keep_active o)%nat).

Abbreviation inv_S := (inv o coll (s_pid S) (s_others S)).

Lemma start_progress i s : inv_S (PStart, s) → env_ok (PStart, s) (EGo i) → waits (PStart, s) →
  ∃ st, go S (EGo i) (PStart, s) = Ret st ∧ waits st ∧ progress (PStart, s) st.
Proof.
  intros Hi He (W1 & W2 & W3 & _). pose proof Hs as (Hc & Hne & _). unfold go. cbn [step]. destruct (wants_start o s) eqn:Hw.
  - destruct He as (Hkm & He & _). specialize (He eq_refl).
    destruct (step_start_ok _ _ _ _ Hc Hne i s Hi Hw Hkm He) as (colle & u & p & _ & E & _). cbn zeta in E. fold o coll in E |- *. rewrite E.
    eexists. split; [done|]. unfold wants_start in Hw. rewrite !andb_true_iff in Hw. destruct Hw as ((((_ & Hst) & _) & _) & _).
    apply negb_true_iff, Z.eqb_neq in Hst. rewrite Hseq, orb_true_r, (proj2 (Z.ltb_lt _ _)) by lia. cbn [andb].
    unfold waits, progress, work. cbn. split_and!; try done; [lia|]. left. split; [|done]. destruct (i_start i); cbn; lia.
  - fold o coll. unfold step_start. rewrite Hw. eexists. split; [done|]. split; [|left; split; [unfold work; cbn; lia|done]]. split_and!; try done.
    unfold wants_start in Hw. rewrite !andb_false_iff in Hw. rewrite W3 in Hw.
    destruct Hw as [[[[Hw|Hw]|Hw]|Hw]|Hw]; [apply Z.ltb_ge in Hw; lia|apply negb_false_iff, Z.eqb_eq in Hw|apply Z.eqb_neq in Hw|apply Z.eqb_neq in Hw|done]; auto.
Qed.

Lemma stop_progress i s : inv_S (PStop, s) → waits (PStop, s) →
  ∃ st, go S (EGo i) (PStop, s) = Ret st ∧ waits st ∧ progress (PStop, s) st.
Proof.
  intros (_ & (_ & _ & H1 & _) & _) (W1 & W2 & W3 & W4). eexists. split; [done|]. unfold waits, progress, work, set_sch, inc_stop.
  destruct (Z.eqb_spec (starts (sch s)) 0) as [E|E]; [|rewrite (proj2 (Z.eqb_neq _ _)) by lia; cbn [andb]]; cbn; split_and!; try done; lia.
Qed.

Lemma signal_progress i s : inv_S (PSignal, s) → waits (PSignal, s) →
  ∃ st, go S (EGo i) (PSignal, s) = Ret st ∧ waits st ∧ progress (PSignal, s) st.
Proof.
  intros Hi (W1 & W2 & W3 & W4). pose proof Hi as (_ & (_ & _ & H1 & _) & _).
  destruct (inv_signal _ _ _ _ i s Hi) as (d & g & p & E & _ & E1 & E2 & _ & _ & _ & _ & _ & Hf). destruct (Hf W2) as (F1 & F2 & F3).
  unfold go. cbn [step]. rewrite E. eexists. split; [done|]. unfold waits, progress, work. cbn. rewrite E1, E2, F1, F2, F3.
  split_and!; try done; [|left; split; [lia|done]]. destruct (Z.eqb_spec (rec_signal (sg s)) 0); cbn; destruct W4 as [?|[?|?]]; auto; try done; right; lia.
Qed.

Lemma check_progress i s : inv_S (PCheck, s) → env_ok (PCheck, s) (EGo i) → waits (PCheck, s) →
  (busy (running (pr s)) ≠ [] → i_wait i ≠ WaitFailed) →
  ∃ st, go S (EGo i) (PCheck, s) = Ret st ∧ waits st ∧ progress (PCheck, s) st.
Proof.
  intros Hi He (W1 & W2 & W3 & W4) Hwt. pose proof Hs as (Hc & Hne & _). pose proof Hi as (Hp & (Hn & _) & _).
  destruct (step_check_ok _ _ _ _ i s Hi He) as (err & u & p & k & g & d & E & Es & _ & En & E1 & _ & E2 & _ & _ & Hk & Hf & _).
  destruct (Hf W2 W3) as [F1 F2]. unfold go. cbn [step]. fold o coll. rewrite Es. eexists. split; [done|].
  assert (waits (k, mk_pan d g u p)) as Hw.
  { unfold waits. cbn. rewrite E1, F1, F2. destruct Hk as [(-> & _)|(-> & _)]; done. }
  split; [done|]. destruct Hk as [(-> & _)|(-> & Hk)]; [by right|left]. split; [|done]. unfold work. cbn [fst snd sch rank]. rewrite E1, En, Hn.
  destruct He as (_ & _ & He). specialize (He eq_refl). rewrite Hn in E.
  destruct (check_pids_ok o (s_others S) [s_pid S] (i_gone i) (i_wait i) (i_orphaned i) (out s) (pr s) Hp He) as (err' & u' & p' & E' & _ & Hw' & _).
  rewrite E in E'. injection E' as _ _ _ <-. destruct (i_wait i) as [|q st] eqn:Ew.
  - destruct Hw' as (_ & _ & Hr). rewrite Hr in Hk. exfalso. destruct (busy (running (pr s))) eqn:Eb; [|by apply Hwt].
    rewrite Hn in W4. simpl in W4. destruct Hk as [?|Hk]; [done|]. rewrite E2 in Hk. destruct W4; [lia|done].
  - destruct Hw' as [Hb _]. rewrite Hb. cbn [length]. lia.
Qed.

(** The main loop ends. *)
Lemma loop_ends inp : fair inp → ∀ w n k s, run inp n = Ret (k, s) → inv_S (k, s) → waits (k, s) → in_loop k →
  work (k, s) < Z.of_nat w → ∃ n' s', (n ≤ n')%nat ∧ run inp n' = Ret (POrphans, s').
Proof.
  intros [Hf _]. assert (∀ k s, waits (k, s) → inv_S (k, s) → 0 ≤ work (k, s)) as Hpos.
  { intros k s (W & _) (_ & (Hn & _) & _). unfold work. cbn [fst snd]. rewrite Hn. destruct k; cbn; lia. }
  induction w as [|w IH]; intros n k s E Hi Hw Hk Hlt; [specialize (Hpos k s Hw Hi); lia|].
  destruct (Hf n k s E) as [He Hwait]. pose proof Hs as (Hc & Hne & _).
  assert (∃ st, go S (EGo (inp n)) (k, s) = Ret st ∧ waits st ∧ progress (k, s) st) as ([k' s'] & Eg & Hw' & Hd).
  { destruct k; try done; [by apply start_progress|by apply stop_progress|by apply signal_progress|]. apply check_progress; auto. }
  assert (run inp (Datatypes.S n) = Ret (k', s')) as E' by (cbn [run]; by rewrite E, outcome_bind_Ret).
  destruct Hd as [[Hd Hk']|Hk']; cbn [fst] in Hk'; [|subst k'; exists (Datatypes.S n), s'; split; [lia|done]].
  assert (inv_S (k', s')) as Hi' by (destruct (step_inv _ _ _ _ Hc Hne _ _ Hi He) as (st & E2 & H2); change (go S (EGo (inp n)) (k, s) = Ret st) in E2; rewrite Eg in E2; by injection E2 as <-).
  destruct (IH (Datatypes.S n) k' s' E' Hi' Hw' Hk') as (n' & s2 & Hle & E2); [lia|]. exists n', s2. split; [lia|done].
Qed.

(** The loop over the orphans ends. *)
Lemma orphans_end inp n s : fair inp → run inp n = Ret (POrphans, s) → ∃ n' code s', run inp n' = Ret (PExit code, s').
Proof.
  intros Hf E. pose proof Hf as [He [N HN]].
  assert (∀ m, (n ≤ m)%nat → (∃ s', run inp m = Ret (POrphans, s')) ∨ ∃ m' code s', run inp m' = Ret (PExit code, s')) as Hstay.
  { intros m Hm. induction Hm as [|m Hm IH]; [eauto|]. destruct IH as [[s1 E1]|?]; [|by right].
    destruct (reachable_ok S Hs _ (run_reachable inp m _ Hf E1)) as [Hi _].
    destruct (inv_orphans _ _ _ _ (inp m) s1 Hi) as ([k s2] & E2 & _ & Hx).
    assert (run inp (Datatypes.S m) = Ret (k, s2)) as E3 by (cbn [run]; by rewrite E1, outcome_bind_Ret).
    destruct (existsb (λ p, negb (p =? 0)) (orphans (pr s1))) eqn:Ex.
    - left. exists s2. rewrite E3. unfold step_orphans in E2. rewrite Ex in E2. destruct (propagate_signal _ _ _) as [[g p]| |]; try done.
      rewrite outcome_bind_Ret in E2. by injection E2 as <- <-.
    - right. destruct (Hx eq_refl) as [Hk _]. cbn [fst] in Hk. subst k. eauto. }
  destruct (Hstay (n + N)%nat) as [[s1 E1]|?]; [lia| |done].
  destruct (reachable_ok S Hs _ (run_reachable inp _ _ Hf E1)) as [Hi _]. pose proof Hi as (Hp & _).
  destruct (Hstay (Datatypes.S (n + N))) as [[s2 E2]|?]; [lia| |done].
  assert (live (orphans (pr s2)) = []) as Hl.
  { cbn [run] in E2. rewrite E1, outcome_bind_Ret in E2. unfold go in E2. cbn [step] in E2. unfold step_orphans in E2.
    destruct (existsb _ _).
    - set (g := if rec_signal (sg s1) =? 0 then _ else _) in *.
      destruct (propagate_ok o (s_others S) [s_pid S] (i_gone (inp (n + N)%nat)) g (pr s1) Hp) as (p & E3 & _ & _ & _ & Ho & _).
      rewrite E3, outcome_bind_Ret in E2. injection E2 as <-. cbn [pr]. rewrite Ho. unfold sweep.
      assert (∀ ps, live ((λ q, if i_gone (inp (n + N)%nat) q then 0 else q) <$> ps) = []) as ->; [|done].
      induction ps as [|q ps IH]; [done|]. cbn [fmap list_fmap]. rewrite HN, live_cons, decide_True by (done || lia). done.
    - by destruct (lift _) as [[r z]| |]. }
  destruct (reachable_ok S Hs _ (run_reachable inp _ _ Hf E2)) as [Hi2 _].
  destruct (inv_orphans _ _ _ _ (inp (Datatypes.S (n + N))) s2 Hi2) as ([k s3] & E4 & _ & Hx).
  destruct Hx as [Hx _]; [by apply existsb_live|]. exists (Datatypes.S (Datatypes.S (n + N))), (exit_stat (sch s2) mod 256), s3.
  cbn [fst] in Hx. subst k. change (run inp (Datatypes.S (Datatypes.S (n + N)))) with (st ← run inp (Datatypes.S (n + N)); go S (EGo (inp (Datatypes.S (n + N)))) st).
  by rewrite E2, outcome_bind_Ret.
Qed.

(** ** Every command is run *)

Context (Hbrakes : has_brakes o = false).

(** The commands are tried in their order, and [starts] is how many are left. *)
Definition seq_ok (st : pc * pan F) : Prop :=
  let '(k, s) := st in let t := length (tried (out s)) in
  (tried (out s)).*1 = take t coll ∧ (t ≤ length coll)%nat ∧ starts (sch s) = Z.of_nat (length coll - t) ∧
  ((t < length coll)%nat → c (sch s) = t) ∧
  match k with
  | POrphans | PExit _ => starts (sch s) = 0
  | _ => (stop (sch s) ≠ 0 → starts (sch s) = 0) ∧ rec_signal (sg s) = 0
  end.

Lemma seq_start i s st : inv_S (PStart, s) → env_ok (PStart, s) (EGo i) → seq_ok (PStart, s) →
  go S (EGo i) (PStart, s) = Ret st → seq_ok st.
Proof.
  intros Hi (Hkm & He & _) (Q1 & Q2 & Q3 & Q4 & Q5 & Q6) Eg. specialize (He eq_refl). pose proof Hs as (Hc & Hne & _).
  unfold go in Eg. cbn [step] in Eg. fold o coll in Eg. destruct (wants_start o s) eqn:Hw.
  2: { unfold step_start in Eg. rewrite Hw in Eg. injection Eg as <-. by split_and!. }
  destruct (step_start_ok _ _ _ _ Hc Hne i s Hi Hw Hkm He) as (colle & u & p & Ec & E & _ & _ & _ & Ht & _). cbn zeta in E.
  fold o coll in E. rewrite E in Eg. injection Eg as <-. unfold wants_start in Hw. rewrite !andb_true_iff in Hw. destruct Hw as ((((_ & Hst) & Hsp) & _) & _).
  apply negb_true_iff, Z.eqb_neq in Hst. apply Z.eqb_eq in Hsp. rewrite Hseq, orb_true_r, (proj2 (Z.ltb_lt _ _)) by lia. cbn [andb].
  assert (length (tried (out s)) < length coll)%nat as Hlt by lia. unfold next_cmd in Ec. fold o in Ec. rewrite Hseq, Q4 in Ec by done.
  unfold seq_ok. cbn [sch out sg starts c stop]. rewrite Ht, Q4, fmap_app, Q1, length_app by done. cbn [fmap list_fmap fst length].
  rewrite Nat.add_1_r, (take_S_r coll _ colle) by done. rewrite Hsp. split_and!; try done; try lia.
  intros Hlt'. rewrite (proj2 (Nat.leb_gt _ _)) by lia. done.
Qed.

Lemma seq_check i s st : inv_S (PCheck, s) → env_ok (PCheck, s) (EGo i) → waits (PCheck, s) → seq_ok (PCheck, s) →
  go S (EGo i) (PCheck, s) = Ret st → seq_ok st.
Proof.
  intros Hi He (_ & W2 & W3 & _) (Q1 & Q2 & Q3 & Q4 & Q5 & Q6) Eg. pose proof Hi as (Hp & (Hn & _) & _).
  destruct (step_check_ok _ _ _ _ i s Hi He) as (err & u & p & k & g & d & E & Es & _ & _ & E1 & E2 & E3 & _ & _ & Hk & _ & Hg & _).
  unfold go in Eg. cbn [step] in Eg. fold o coll in Eg. rewrite Es in Eg. injection Eg as <-.
  assert (tried u = tried (out s)) as Ht.
  { destruct He as (_ & _ & He). specialize (He eq_refl). rewrite Hn in E.
    destruct (check_pids_ok o (s_others S) [s_pid S] (i_gone i) (i_wait i) (i_orphaned i) (out s) (pr s) Hp He) as (err' & u' & p' & E' & _ & Hw' & _).
    rewrite E in E'. injection E' as _ _ <- _. destruct (i_wait i) as [|q st].
    - by destruct Hw' as (_ & -> & _).
    - destruct Hw' as (_ & t & colle & _ & _ & _ & _ & Hw'). destruct (term_of st) as [h w]. destruct Hw' as [-> _]. apply log_end_accounts. }
  unfold seq_ok. cbn [sch out sg]. rewrite Ht, E1, E2, E3. specialize (Hg Hbrakes Q6).
  destruct Hk as [(-> & _ & Hk)|(-> & _)]; split_and!; try done. rewrite E3 in Hk. auto.
Qed.

Lemma seq_step i st st' : inv_S st → env_ok st (EGo i) → waits st → seq_ok st → go S (EGo i) st = Ret st' → seq_ok st'.
Proof.
  destruct st as [k s]. intros Hi He Hw Hq Eg. destruct k.
  - by eapply seq_start.
  - injection Eg as <-. destruct Hw as (W1 & _). destruct Hq as (Q1 & Q2 & Q3 & Q4 & Q5 & Q6).
    destruct (Z.eqb_spec (starts (sch s)) 0) as [E|E]; [|rewrite (proj2 (Z.eqb_neq _ (-1))) by lia; cbn [andb]]; by split_and!.
  - destruct Hq as (Q1 & Q2 & Q3 & Q4 & Q5 & Q6). unfold go in Eg. cbn [step] in Eg. unfold step_signal in Eg.
    rewrite Q6 in Eg. injection Eg as <-. by split_and!.
  - by eapply seq_check.
  - unfold go in Eg. cbn [step] in Eg. unfold step_orphans in Eg. destruct (existsb _ _).
    + destruct (propagate_signal _ _ _) as [[g p]| |]; try done. rewrite outcome_bind_Ret in Eg. injection Eg as <-. exact Hq.
    + destruct (lift _) as [[r z]| |]; try done. rewrite outcome_bind_Ret in Eg. injection Eg as <-. exact Hq.
  - injection Eg as <-. exact Hq.
Qed.
End Live.

Section Complete.
Context {F : Type} `{AF : ActiveFile F} (S : setup F) (inp : nat → input).
Context (Hs : setup_ok S) (Hseq : sequential (s_opts S) = true) (Hkeep : (0 < keep_active (s_opts S))%nat).
Context (Htimed : s_timed S = false) (Hstarts : s_starts S = -1) (Hrestart : s_restart S = false) (Hfair : fair S inp).

Lemma init_waits st : init S = Ret st → waits st ∧ seq_ok S st ∧ in_loop st.1.
Proof.
  intros E. destruct (init_ok S Hs) as (z & E' & _). rewrite E in E'. injection E' as ->.
  unfold init_starts. rewrite Htimed, Hstarts, Hseq, Hrestart. cbn. split; [split_and!; try done; lia|]. split; [|done]. split_and!; try done; lia.
Qed.

Lemma go_waits n k s st : run S inp n = Ret (k, s) → waits (k, s) → go S (EGo (inp n)) (k, s) = Ret st → waits st.
Proof.
  intros E Hw Eg. destruct (reachable_ok S Hs _ (run_reachable S inp n _ Hfair E)) as [Hi _]. pose proof Hfair as [Hf _].
  destruct (Hf n k s E) as [He Hwt]. assert (∀ st', go S (EGo (inp n)) (k, s) = Ret st' ∧ waits st' ∧ progress (k, s) st' → waits st) as Huse.
  { intros st' (E' & H & _). rewrite Eg in E'. by injection E' as <-. }
  destruct k.
  - destruct (start_progress S Hs Hseq Hkeep (inp n) s Hi He Hw) as [st' H]. by eapply Huse.
  - destruct (stop_progress S Hkeep (inp n) s Hi Hw) as [st' H]. by eapply Huse.
  - destruct (signal_progress S Hkeep (inp n) s Hi Hw) as [st' H]. by eapply Huse.
  - destruct (check_progress S Hs Hkeep (inp n) s Hi He Hw (Hwt eq_refl)) as [st' H]. by eapply Huse.
  - unfold go in Eg. cbn [step] in Eg. unfold step_orphans in Eg. destruct (existsb _ _).
    + destruct (propagate_signal _ _ _) as [[g p]| |]; try done. rewrite outcome_bind_Ret in Eg. injection Eg as <-. exact Hw.
    + destruct (lift _) as [[r z]| |]; try done. rewrite outcome_bind_Ret in Eg. injection Eg as <-. exact Hw.
  - injection Eg as <-. exact Hw.
Qed.

Lemma run_ok n st : run S inp n = Ret st → waits st ∧ (has_brakes (s_opts S) = false → seq_ok S st).
Proof.
  revert st. induction n as [|n IH]; intros st E; [destruct (init_waits st E) as (H1 & H2 & _); auto|].
  cbn [run] in E. destruct (run S inp n) as [[k s]| |] eqn:En; try done. rewrite outcome_bind_Ret in E.
  destruct (IH (k, s) eq_refl) as [Hw Hq]. split; [by eapply go_waits|]. intros Hb.
  destruct (reachable_ok S Hs _ (run_reachable S inp n _ Hfair En)) as [Hi _]. pose proof Hfair as [Hf _]. destruct (Hf n k s En) as [He _].
  eapply (seq_step S Hs Hseq Hkeep Hb (inp n) (k, s)); auto.
Qed.
End Complete.

(** C5. A sequential run ends, and runs everything: for all scenarios, with
    the options -S and -x of at least 1 and without -t, -s and -y, when no
    signal arrives and for all answers of a kernel that reports every test that
    has ended, lets orphaned process groups go some time and whose log can be
    opened, the driver reaches its exit; without -A it has then tried every
    command of the scenario exactly once, in their order. *)
Theorem pan_completes {F} `{ActiveFile F} (S : setup F) inp :
  setup_ok S → sequential (s_opts S) = true → (0 < keep_active (s_opts S))%nat →
  s_timed S = false → s_starts S = -1 → s_restart S = false → fair S inp →
  ∃ n code s, run S inp n = Ret (PExit code, s) ∧
    (has_brakes (s_opts S) = false → (tried (out s)).*1 = s_coll S).
Proof.
  intros Hs Hseq Hk Ht Hst Hr Hf. destruct (init_ok S Hs) as (z & E & _). set (st := (PStart, _)) in E.
  destruct (init_waits S Hs Hseq Hk Ht Hst Hr st E) as (Hw & _ & _).
  destruct (reachable_ok S Hs st) as [Hi _]; [by constructor|].
  destruct (loop_ends S Hs Hseq Hk inp Hf (Datatypes.S (Z.to_nat (work st))) 0 PStart st.2 E Hi Hw I) as (n & s & _ & En).
  { change (PStart, st.2) with st. lia. }
  destruct (orphans_end S Hs Hk inp n s Hf En) as (n' & code & s' & E'). exists n', code, s'. split; [done|]. intros Hb.
  destruct (run_ok S inp Hs Hseq Hk Ht Hst Hr Hf n' _ E') as [_ Hq]. destruct (Hq Hb) as (Q1 & Q2 & Q3 & _ & Q5).
  rewrite Q1. apply take_ge. lia.
Qed.

(** ** Signals *)

Section Signals.
Context {F : Type} `{AF : ActiveFile F} (S : setup F) (Hs : setup_ok S).

(** The states that follow a state. *)
Inductive later (st : pc * pan F) : pc * pan F → Prop :=
  | later_refl : later st st
  | later_step st1 e st2 : later st st1 → env_ok st1 e → go S e st1 = Ret st2 → later st st2.

(** The scheduler has been told to stop. *)
Definition told (st : pc * pan F) : Prop :=
  let '(k, s) := st in
  fork_in_road (sch s) = false ∧ (in_loop k → stop (sch s) ≠ 0 ∨ rec_signal (sg s) ≠ 0).

Lemma handler_rec sig g : sig ≠ 0 → rec_signal (wait_handler sig g) = sig.
Proof. intros Hne. unfold wait_handler. rewrite (proj2 (Z.eqb_neq _ _)) by done. by destruct (sig =? SIGUSR2). Qed.

Lemma told_not_start k s : told (k, s) → in_loop k → wants_start (s_opts S) s = false.
Proof.
  intros [_ H] Hk. unfold wants_start. destruct (H Hk) as [Hn|Hn]; rewrite (proj2 (Z.eqb_neq _ _) Hn); [by rewrite andb_false_r|by rewrite andb_false_r].
Qed.

Lemma told_step st e st' : inv (s_opts S) (s_coll S) (s_pid S) (s_others S) st → env_ok st e → told st → go S e st = Ret st' →
  told st' ∧ tried (out st'.2) = tried (out st.2).
Proof.
  destruct st as [k s]. intros Hi He Ht Eg. destruct e as [sig|i].
  { injection Eg as <-. cbn [snd out sch sg]. split; [|done]. split; [apply Ht|]. intros _. right. cbn [sg]. by rewrite handler_rec. }
  unfold go in Eg. cbn [step] in Eg. pose proof Ht as [Hf Hst]. destruct k.
  - unfold step_start in Eg. rewrite (told_not_start PStart s Ht I) in Eg. injection Eg as <-. split; [|done]. split; [done|auto].
  - injection Eg as <-. pose proof Hi as (_ & (_ & _ & H1 & _) & _). unfold told, set_sch, inc_stop.
    destruct (starts (sch s) =? 0); [|destruct ((starts (sch s) =? -1) && i_stopfile i)]; cbn in *; (split; [|done]); (split; [done|]); auto; left; lia.
  - destruct (inv_signal _ _ _ _ i s Hi) as (d & g & p & E & _ & _ & _ & _ & _ & _ & _ & _ & Hd). rewrite E in Eg. injection Eg as <-.
    cbn [snd out]. split; [|done]. destruct (Hd Hf) as (D1 & _ & D3). split; [done|]. intros _. left. cbn [sch]. rewrite D3.
    pose proof Hi as (_ & (_ & _ & H1 & _) & _). destruct (Hst I) as [Hn|Hn]; destruct (Z.eqb_spec (rec_signal (sg s)) 0); cbn; try done; lia.
  - destruct (step_check_ok _ _ _ _ i s Hi He) as (err & u & p & k & g & d & E & Es & _ & _ & _ & _ & E3 & _ & _ & Hk & _ & _ & E4 & E5).
    rewrite Es in Eg. injection Eg as <-. cbn [snd out]. split.
    + split; cbn [sch sg]; [by rewrite E4|]. intros _. rewrite E3. destruct (Hst I); auto.
    + pose proof Hi as (Hp & (Hn & _) & _). destruct He as (_ & _ & He). specialize (He eq_refl). rewrite Hn in E.
      destruct (check_pids_ok (s_opts S) (s_others S) [s_pid S] (i_gone i) (i_wait i) (i_orphaned i) (out s) (pr s) Hp He) as (err' & u' & p' & E' & _ & Hw' & _).
      rewrite E in E'. injection E' as _ _ <- _. destruct (i_wait i) as [|q st]; [by destruct Hw' as (_ & -> & _)|].
      destruct Hw' as (_ & t & colle & _ & _ & _ & _ & Hw'). destruct (term_of st) as [h w]. destruct Hw' as [-> _]. apply log_end_accounts.
  - unfold step_orphans in Eg. destruct (existsb _ _).
    + destruct (propagate_signal _ _ _) as [[g p]| |]; try done. rewrite outcome_bind_Ret in Eg. injection Eg as <-. done.
    + destruct (lift _) as [[r z]| |]; try done. rewrite outcome_bind_Ret in Eg. injection Eg as <-. done.
  - injection Eg as <-. done.
Qed.

Lemma later_reachable st st' : reachable S st → later st st' → reachable S st'.
Proof. intros Hr. induction 1; [done|by eapply reach_step]. Qed.

Lemma told_later st st' : reachable S st → told st → later st st' → tried (out st'.2) = tried (out st.2).
Proof.
  intros Hr Ht Hl. enough (told st' ∧ tried (out st'.2) = tried (out st.2)) as [_ ?] by done.
  induction Hl as [|st1 e st2 Hl [IH1 IH2] He E]; [done|].
  destruct (reachable_ok S Hs st1 (later_reachable st st1 Hr Hl)) as [Hi _].
  destruct (told_step st1 e st2 Hi He IH1 E) as [T1 T2]. split; [done|congruence].
Qed.
End Signals.


(** ** Orphaned process groups *)

Section Ratchet.
Context {F : Type} `{AF : ActiveFile F} (S : setup F) (Hs : setup_ok S).

(** Some rounds without signals. *)
Fixpoint goes (ins : list input) (st : pc * pan F) : outcome (pc * pan F) :=
  match ins with
  | [] => Ret st
  | i :: ins => st ← go S (EGo i) st; goes ins st
  end.

(** The signal that follows the last one that was sent. *)
Definition ratchet (l : Z) : Z :=
  if l =? 0 then SIGINT else if l =? SIGUSR1 then SIGINT else if l =? SIGINT then SIGTERM
  else if l =? SIGTERM then SIGHUP else if l =? SIGHUP then SIGKILL else 0.

Lemma handler_ratchet l : wait_handler SIGINT (mk_sigs 0 0 l) = mk_sigs SIGINT (ratchet l) (ratchet l).
Proof. done. Qed.

Abbreviation inv_O s := (inv (s_opts S) (s_coll S) (s_pid S) (s_others S) (POrphans, s)).

Lemma orphan_round i s p : inv_O s → p ∈ live (orphans (pr s)) → i_gone i p = false →
  let g := if rec_signal (sg s) =? 0 then wait_handler SIGINT (sg s) else sg s in
  ∃ s', go S (EGo i) (POrphans, s) = Ret (POrphans, s') ∧ inv_O s' ∧ sg s' = mk_sigs 0 0 (lastsent g) ∧
    p ∈ live (orphans (pr s')) ∧ (∀ x, x ∈ kills (pr s) → x ∈ kills (pr s')) ∧ (- p, send_signal g) ∈ kills (pr s').
Proof.
  intros Hi Hp Hg g. pose proof Hi as (Hpr & Hsc & Hb). unfold go. cbn [step]. unfold step_orphans.
  destruct (existsb _ _) eqn:Ex; [|by rewrite (live_existsb _ Ex) in Hp; apply not_elem_of_nil in Hp].
  fold g. destruct (propagate_ok _ _ [s_pid S] (i_gone i) g (pr s) Hpr) as (q & -> & Hq & Hbq & _ & Ho & Hk). rewrite outcome_bind_Ret.
  eexists. split; [done|]. cbn [sg pr sch]. split; [|split; [done|split_and!]].
  - split; [done|]. split; [|by rewrite <- Hb]. unfold sched_ok. cbn [sch pr]. rewrite Hbq. exact Hsc.
  - rewrite Ho. apply list_elem_of_filter in Hp as [Hn Hp]. apply list_elem_of_filter. split; [done|].
    apply list_elem_of_fmap. exists p. by rewrite Hg.
  - intros x Hx. rewrite Hk. apply elem_of_app. by left.
  - rewrite Hk, !elem_of_app. right. right. apply list_elem_of_fmap. by exists p.
Qed.

Lemma orphan_rounds p ins : ∀ s l, inv_O s → sg s = mk_sigs 0 0 l → p ∈ live (orphans (pr s)) → Forall (λ i, i_gone i p = false) ins →
  ∃ s', goes ins (POrphans, s) = Ret (POrphans, s') ∧ (∀ x, x ∈ kills (pr s) → x ∈ kills (pr s')) ∧
    ∀ j, (j < length ins)%nat → (- p, Nat.iter (Datatypes.S j) ratchet l) ∈ kills (pr s').
Proof.
  induction ins as [|i ins IH]; intros s l Hi Hsg Hp Hg; cbn [goes].
  { exists s. split_and!; try done. simpl. lia. }
  apply Forall_cons in Hg as [Hgi Hg]. destruct (orphan_round i s p Hi Hp Hgi) as (s1 & -> & Hi1 & Hsg1 & Hp1 & Hsub & Hk).
  rewrite Hsg in Hsg1, Hk. cbn [rec_signal Z.eqb] in Hsg1, Hk. rewrite handler_ratchet in Hsg1, Hk. cbn [lastsent send_signal] in *.
  rewrite outcome_bind_Ret. destruct (IH s1 (ratchet l) Hi1 Hsg1 Hp1 Hg) as (s2 & -> & Hsub2 & Hj). exists s2. split_and!; [done|auto|].
  intros [|j] Hlt; [by apply Hsub2|]. cbn [length] in Hlt. rewrite Nat.iter_succ_r. apply Hj. lia.
Qed.

(** After at most five rounds the strongest signal has been sent. *)
Lemma ratchet_kills l : ∃ j, (j < 5)%nat ∧ Nat.iter (Datatypes.S j) ratchet l = SIGKILL.
Proof.
  destruct (decide (l = 0)) as [-> |H0]; [exists 3%nat; split; [lia|done]|].
  destruct (decide (l = SIGUSR1)) as [-> |H1]; [exists 3%nat; split; [lia|done]|].
  destruct (decide (l = SIGINT)) as [-> |H2]; [exists 2%nat; split; [lia|done]|].
  destruct (decide (l = SIGTERM)) as [-> |H3]; [exists 1%nat; split; [lia|done]|].
  destruct (decide (l = SIGHUP)) as [-> |H4]; [exists 0%nat; split; [lia|done]|].
  exists 4%nat. split; [lia|]. assert (ratchet l = 0) as E.
  { unfold ratchet. by rewrite !(proj2 (Z.eqb_neq _ _)). }
  rewrite Nat.iter_succ_r, E. done.
Qed.
End Ratchet.

(** An orphaned process group that does not go is killed: when the tests
    are done and the driver waits for a group that stays, then within six
    rounds it has been sent SIGKILL, whatever signals were sent before. *)
Theorem pan_orphans_killed {F} `{ActiveFile F} (S : setup F) s p ins :
  setup_ok S → reachable S (POrphans, s) → p ∈ live (orphans (pr s)) →
  length ins = 6%nat → Forall (λ i, i_gone i p = false) ins →
  ∃ s', goes S ins (POrphans, s) = Ret (POrphans, s') ∧ (- p, SIGKILL) ∈ kills (pr s').
Proof.
  intros Hs Hr Hp Hl Hg. destruct ins as [|i ins]; [done|]. apply Forall_cons in Hg as [Hgi Hg]. cbn [length] in Hl.
  destruct (reachable_ok S Hs _ Hr) as [Hi _]. cbn [goes].
  destruct (orphan_round S i s p Hi Hp Hgi) as (s1 & -> & Hi1 & Hsg1 & Hp1 & _). rewrite outcome_bind_Ret.
  destruct (orphan_rounds S p ins s1 _ Hi1 Hsg1 Hp1 Hg) as (s2 & -> & _ & Hj). exists s2. split; [done|].
  match type of Hsg1 with _ = mk_sigs 0 0 ?l => destruct (ratchet_kills l) as (j & Hlt & <-) end. apply Hj. lia.
Qed.

(** ** Commands that cannot be started *)

(** A driver that picks commands at random (without -S) does not end when
    none of them can be started: a start that fails is not counted, and the
    loop tries again for ever. *)
Theorem pan_retries_forever {F} `{ActiveFile F} (S : setup F) inp :
  setup_ok S → sequential (s_opts S) = false → (0 < keep_active (s_opts S))%nat → (∀ n, i_kmsg (inp n) = true) →
  (∀ n, match i_start (inp n) with Started _ => False | _ => True end) →
  ∀ n, ∃ s, run S inp n = Ret (PStart, s) ∧ length (tried (out s)) = n.
Proof.
  intros Hs Hseq Hk Hkm Hfail n. pose proof Hs as (Hc & Hne & _).
  enough (∃ s, run S inp n = Ret (PStart, s) ∧ reachable S (PStart, s) ∧ length (tried (out s)) = n ∧ wants_start (s_opts S) s = true) as (s & ? & _ & ? & _) by eauto.
  induction n as [|n (s & E & Hr & Ht & Hw)].
  - cbn [run]. destruct (init_ok S Hs) as (z & E & _). eexists. split; [done|]. split; [by constructor|]. split; [done|].
    unfold wants_start, init_starts. cbn. rewrite Hseq, (proj2 (Z.ltb_lt _ _)) by lia. repeat case_match; try done; cbn; repeat zcase; done.
  - cbn [run]. rewrite E, outcome_bind_Ret. destruct (reachable_ok S Hs _ Hr) as [Hi _].
    assert (env_ok (PStart, s) (EGo (inp n))) as He by (split; [done|split; [intros _; specialize (Hfail n); by destruct (i_start (inp n))|done]]).
    assert (∃ s', go S (EGo (inp n)) (PStart, s) = Ret (PStart, s') ∧ length (tried (out s')) = Datatypes.S n ∧ wants_start (s_opts S) s' = true) as (s' & E' & Ht' & Hw').
    { unfold go. cbn [step]. destruct (step_start_ok _ _ _ _ Hc Hne (inp n) s Hi Hw) as (colle & u & p & _ & E' & _ & _ & _ & Htr & _).
      { done. }
      { specialize (Hfail n). by destruct (i_start (inp n)). }
      cbn zeta in E'. rewrite E'. eexists. split; [done|]. cbn [out]. rewrite Htr, length_app, Ht. split; [simpl; lia|].
      specialize (Hfail n). unfold wants_start in *. cbn [sch sg num_active starts stop go_idle]. rewrite Hseq.
      destruct (i_start (inp n)); try done; cbn [c_bool orb andb]; by rewrite Z.add_0_r. }
    exists s'. split; [done|]. split; [|done]. by eapply reach_step.
Qed.
