(* ===== verification/PanDemo.v ===== *)
(** * Example runs of the test driver

    A scenario of one command, with the text file as active file: the
    theorems on the driver at concrete runs. *)

From S2P Require Import Prelude PanCmd Zoolib Pan PanFacts PanRuns.

Definition demo_opts (seq : bool) : opts := mk_opts 1 seq false true true true false false false false false.
Definition demo (seq : bool) : setup (list Z) :=
  mk_setup (demo_opts seq) [mk_entry (str "a01") (str "a01 -x") false] 50 false false (-1) (str "p") [str "pan"] [] [].

Lemma clean_decide s : bool_decide (10 ∉ s) && bool_decide (0 ∉ s) = true → clean s.
Proof. intros [H1%bool_decide_eq_true H2%bool_decide_eq_true]%andb_true_iff. done. Qed.

Lemma demo_setup_ok seq : setup_ok (demo seq).
Proof.
  split_and!; try done; try (apply clean_decide; vm_compute; done).
  - apply Forall_singleton. split; apply clean_decide; vm_compute; done.
  - apply Forall_singleton. apply clean_decide. vm_compute. done.
  - split; [exists []; done|done].
Qed.

(** The test is started as process 100 and ends; its group may stay. *)
Definition demo_in (stays : bool) (_ : nat) : input := mk_input 0 (Started 100) false (λ _, negb stays) (Waited 100 256) stays true.

Definition demo_run (stays : bool) (n : nat) : outcome (pc * pan (list Z)) := run (demo true) (demo_in stays) n.
Definition demo_state (stays : bool) (n : nat) : pan (list Z) :=
  match demo_run stays n with Ret (_, s) => s | _ => mk_pan (mk_sched 0 0 0 0 0 0 false) (mk_sigs 0 0 0) (mk_outs 0 0 [] [] [] [] []) (mk_procs [] [] [] []) end.

Lemma ret_pair {A B} (a a' : A) (b b' : B) : Ret (a, b) = Ret (a', b') → a = a' ∧ b = b'.
Proof. by intros [= -> ->]. Qed.

Definition demo_pc (n : nat) : pc :=
  match n with 0 | 1 => PStart | 2 => PStop | 3 => PSignal | 4 => PCheck | 5 => POrphans | _ => PExit 1 end%nat.

Lemma demo_runs n : (n ≤ 6)%nat → demo_run false n = Ret (demo_pc n, demo_state false n).
Proof. intros Hn. do 7 (destruct n as [|n]; [vm_compute; reflexivity|]). lia. Qed.

Lemma demo_stays n : (n ≤ 5)%nat → demo_run true n = Ret (demo_pc n, demo_state true n).
Proof. intros Hn. do 6 (destruct n as [|n]; [vm_compute; reflexivity|]). lia. Qed.

Lemma demo_env stays n : (n < 6)%nat → env_ok (demo_pc n, demo_state stays n) (EGo (demo_in stays n)).
Proof.
  intros Hn. split; [done|]. split; [intros _; cbn; lia|]. intros Hk. assert (n = 4%nat) as -> by (do 6 (destruct n as [|n]; [done|]); lia).
  cbn [demo_in i_wait]. split; [|by left]. apply (bool_decide_unpack _). destruct stays; vm_compute; exact I.
Qed.

Lemma demo_reach stays n : (n ≤ 5)%nat → reachable (demo true) (demo_pc n, demo_state stays n).
Proof.
  intros Hn. apply (run_reach (demo true) (demo_in stays) n).
  - intros m k s Hm E. assert (demo_run stays m = Ret (demo_pc m, demo_state stays m)) as E' by (destruct stays; [apply demo_stays|apply demo_runs]; lia).
    unfold demo_run in E'. rewrite E in E'. apply ret_pair in E' as [-> ->]. apply demo_env. lia.
  - destruct stays; [apply demo_stays|apply demo_runs]; lia.
Qed.

Lemma demo_end n : (6 ≤ n)%nat → demo_run false n = Ret (PExit 1, demo_state false 6).
Proof. intros Hn. induction Hn as [|n Hn IH]; [by apply demo_runs|]. unfold demo_run in *. cbn [run]. by rewrite IH, outcome_bind_Ret. Qed.

Lemma demo_fair : fair (demo true) (demo_in false).
Proof.
  split; [|by exists 0%nat]. intros n k s E. split; [|done]. destruct (decide (n < 6)%nat) as [Hn|Hn].
  - pose proof (demo_runs n ltac:(lia)) as E'. unfold demo_run in E'. rewrite E in E'. apply ret_pair in E' as [-> ->]. by apply demo_env.
  - pose proof (demo_end n ltac:(lia)) as E'. unfold demo_run in E'. rewrite E in E'. apply ret_pair in E' as [-> ->]. done.
Qed.



Lemma pan_completes_witness : ∃ n code s, run (demo true) (demo_in false) n = Ret (PExit code, s) ∧
  (has_brakes (demo_opts true) = false → (tried (out s)).*1 = [mk_entry (str "a01") (str "a01 -x") false]).
Proof.
  apply (pan_completes (demo true) (demo_in false)).
  - exact (demo_setup_ok true).
  - reflexivity.
  - cbn. lia.
  - reflexivity.
  - reflexivity.
  - reflexivity.
  - exact demo_fair.
Defined.


Lemma pan_orphans_killed_witness : ∃ s', goes (demo true) (replicate 6 (demo_in true 0)) (POrphans, demo_state true 5) = Ret (POrphans, s') ∧
  (-100, SIGKILL) ∈ kills (pr s').
Proof.
  apply (pan_orphans_killed (demo true) (demo_state true 5) 100 (replicate 6 (demo_in true 0))).
  - exact (demo_setup_ok true).
  - exact (demo_reach true 5 ltac:(lia)).
  - apply (bool_decide_unpack _). vm_compute. exact I.
  - reflexivity.
  - apply Forall_replicate. reflexivity.
Defined.

Lemma pan_retries_forever_witness : ∃ s,
  run (demo false) (λ _, mk_input 0 (ExecFailed 512) false (λ _, true) WaitFailed false true) 1000 = Ret (PStart, s) ∧ length (tried (out s)) = 1000%nat.
Proof.
  apply (pan_retries_forever (demo false) (λ _, mk_input 0 (ExecFailed 512) false (λ _, true) WaitFailed false true)).
  - exact (demo_setup_ok false).
  - reflexivity.
  - cbn. lia.
  - reflexivity.
  - intros n. exact I.
Defined.

(** A command that cannot be executed is logged as failed, but the exit
    status is 0 also with -e. *)
Lemma pan_exec_failure_exit_0 : ∃ s,
  run (demo true) (λ _, mk_input 0 (ExecFailed 512) false (λ _, true) WaitFailed false true) 6 = Ret (PExit 0, s) ∧
  logfile (out s) = [LogFmt (str "a01") FAIL 2] ∧ failcnt (out s) = 1.
Proof. eexists. split; [vm_compute; reflexivity|]. split; reflexivity. Qed.

(** 256 failed tests give the exit status 0, also with -e. *)
Definition many : setup (list Z) :=
  mk_setup (demo_opts true) (replicate 256 (mk_entry (str "a") (str "a") false)) 50 false false (-1) (str "p") [str "pan"] [] [].

Lemma pan_256_failures_exit_0 : ∃ s, run many (demo_in false) (256 * 5 + 1) = Ret (PExit 0, s) ∧ count failing (reaped (out s)) = 256.
Proof.
  set (o := run _ _ _). assert (match o with Ret (PExit 0, s) => bool_decide (count failing (reaped (out s)) = 256) | _ => false end = true) as H
    by (vm_compute; reflexivity).
  destruct o as [[k s]| |]; try done. destruct k as [| | | | |code]; try done. destruct code; try done. exists s. split; [done|].
  by apply bool_decide_eq_true in H.
Qed.
