(* ===== verification/PanTest.v ===== *)
(** * A test under the driver

    The runner of a test program and the driver together: what the driver
    logs for a test, from what its processes reported. *)

From S2P Require Import Prelude TstTest TstTestFacts PanCmd Zoolib Pan PanFacts.

(** The status of a process that exits with a code. *)
Definition exit_status (code : Z) : Z := Z.shiftl (Z.land code 255) 8.

Definition bad (rs : list Z) : Prop := TFAIL ∈ rs ∨ TBROK ∈ rs ∨ TWARN ∈ rs.

#[export] Instance bad_dec rs : Decision (bad rs).
Proof. unfold bad. apply _. Defined.

(** What the driver makes of the exit code of the reports [rs]. *)
Lemma driver_shows rs colle b :
  term_of (exit_status (exit_code rs)) = (Pan.Exited, exit_code rs) ∧
  result_of Pan.Exited (exit_code rs) = (if decide (bad rs) then FAIL else if decide (TCONF ∈ rs ∧ TPASS ∉ rs) then CONF else PASS) ∧
  (failing (colle, Pan.Exited, exit_code rs, b) = true ↔ bad rs).
Proof.
  unfold exit_code, bad.
  destruct (bool_decide_reflect (TFAIL ∈ rs)), (bool_decide_reflect (TBROK ∈ rs)), (bool_decide_reflect (TWARN ∈ rs)),
    (bool_decide_reflect (TCONF ∈ rs ∧ TPASS ∉ rs)); (split; [vm_compute; reflexivity|]);
    (split; [repeat case_decide; try tauto; vm_compute; reflexivity|]); vm_compute; split; tauto || discriminate.
Qed.

(** C13. The driver shows what a test reported before the last cleanup of the
    library: for every test program with the runner of the library, whatever
    its code, its children and the helpers of the library do, the reports are
    [x ++ lib_reports acts], where [acts] are the events of the call of
    [do_cleanup] that returned, if any; the driver's formatted log says FAIL
    exactly when [x] has a TFAIL, TBROK or TWARN, CONF exactly when it has none
    of these, a TCONF and no TPASS, and else PASS; and the test counts for the
    exit status of the driver exactly when it is shown as FAIL.  When the
    cleanups of the library report at most TINFO, this is so for all
    reports. *)
Theorem pan_reports_test (T : tst_test) (iterations : nat) (W : world) (pid : Z) (s : ipc) (code : Z) (colle : coll_entry) (b : bool) :
  pid ≠ 0 → tst_run_tcases T iterations W (setup_ipc pid) = (s, code) → short (reports s) →
  let shows rs :=
    term_of (exit_status code) = (Pan.Exited, code) ∧
    result_of Pan.Exited code = (if decide (bad rs) then FAIL else if decide (TCONF ∈ rs ∧ TPASS ∉ rs) then CONF else PASS) ∧
    (failing (colle, Pan.Exited, code, b) = true ↔ bad rs) in
  (∃ x acts, reports s = x ++ lib_reports acts ∧ (acts = [] ∨ acts ∈ cleanups W) ∧ shows x) ∧
  (Forall (λ acts, Forall (λ t, t = TINFO) (lib_reports acts)) (cleanups W) → shows (reports s)).
Proof.
  intros Hp E Hl shows. destruct (run_tcases_sound W T iterations pid s code Hp E Hl) as [(x & acts & Hx & -> & _ & Hin) _].
  split; [exists x, acts; split_and!; [done|done|apply driver_shows..]|]. intros Hq. unfold shows.
  assert (exit_code x = exit_code (reports s)) as ->.
  { rewrite Hx, exit_code_info; [done|]. destruct Hin as [->|Hin]; [constructor|]. by eapply Forall_forall in Hq. }
  apply driver_shows.
Qed.

Lemma pan_reports_test_witness :
  result_of Pan.Exited (tst_run_tcases demo_test 1 (demo_world TFAIL [[LRes TINFO]]) (setup_ipc 10)).2 = FAIL.
Proof.
  refine (eq_trans (proj1 (proj2 (proj2 (pan_reports_test demo_test 1 (demo_world TFAIL [[LRes TINFO]]) 10
    (tst_run_tcases demo_test 1 (demo_world TFAIL [[LRes TINFO]]) (setup_ipc 10)).1
    (tst_run_tcases demo_test 1 (demo_world TFAIL [[LRes TINFO]]) (setup_ipc 10)).2
    (mk_entry [] [] false) false _ _ _) _))) _).
  - discriminate.
  - vm_compute. reflexivity.
  - apply short_decide. vm_compute. reflexivity.
  - repeat constructor.
  - vm_compute. reflexivity.
Defined.
