(* ===== verification/DataStorage.v ===== *)
(** * The tree of test metadata and its JSON form

    metadata/data_storage.h.  A node is its value: of the array of elements
    that [data_node_hash] and [data_node_array] allocate with [MAX_ELEMS]
    places, the used part.  The functions that change a node return it;
    [None] is an access to a hash in a node that is none.  Memory is taken to
    be available. *)

From S2P Require Import Prelude.
Open Scope Z_scope.

Unset Elimination Schemes.
Inductive data_node :=
  | DATA_ARRAY (array : list data_node)
  | DATA_HASH (elems : list (list Z * data_node))
  | DATA_STRING (val : list Z)
  | DATA_INT (val : Z)
  | DATA_NULL.
Set Elimination Schemes.

Definition MAX_ELEMS : nat := 100.

(** [data_node_hash] and [data_node_array]. *)
Definition data_node_hash : data_node := DATA_HASH [].
Definition data_node_array : data_node := DATA_ARRAY [].

(** ** Arrays and hashes *)

(** The result 1 is an element that was not added. *)
Definition data_node_hash_add (self : data_node) (id : list Z) (payload : data_node) : Z * data_node :=
  match self with
  | DATA_HASH elems =>
      if decide (length elems = MAX_ELEMS) then (1, self) else (0, DATA_HASH (elems ++ [(id, payload)]))
  | _ => (1, self)
  end.

(** The loop that looks for an element: its index. *)
Fixpoint find_id (id : list Z) (elems : list (list Z * data_node)) : option nat :=
  match elems with
  | [] => None
  | e :: elems => if bool_decide (e.1 = id) then Some 0%nat else S <$> find_id id elems
  end.

(** The last element takes the place of the one that goes. *)
Definition data_node_hash_del (self : data_node) (id : list Z) : option (Z * data_node) :=
  match self with
  | DATA_HASH elems =>
      match find_id id elems with
      | None => Some (0, self)
      | Some i =>
          e ← elems !! (length elems - 1)%nat;
          Some (1, DATA_HASH (take (length elems - 1) (<[i := e]> elems)))
      end
  | _ => None
  end.

Definition data_node_hash_get (self : data_node) (id : list Z) : option (option data_node) :=
  match self with
  | DATA_HASH elems => Some (i ← find_id id elems; snd <$> elems !! i)
  | _ => None
  end.

Definition data_node_array_add (self : data_node) (payload : data_node) : Z * data_node :=
  match self with
  | DATA_ARRAY array =>
      if decide (length array = MAX_ELEMS) then (1, self) else (0, DATA_ARRAY (array ++ [payload]))
  | _ => (1, self)
  end.

Definition data_node_array_len (self : data_node) : nat :=
  match self with DATA_ARRAY array => length array | _ => 0%nat end.

Definition data_node_array_last (self : data_node) : option data_node :=
  match self with DATA_ARRAY array => last array | _ => None end.

Definition data_node_array_last_rem (self : data_node) : data_node :=
  match self with DATA_ARRAY array => DATA_ARRAY (take (length array - 1) array) | _ => self end.

Definition data_node_is_empty (self : data_node) : bool :=
  match self with
  | DATA_ARRAY array => bool_decide (length array = 0%nat)
  | DATA_HASH elems => bool_decide (length elems = 0%nat)
  | _ => false
  end.

(** ** JSON *)

(** [data_fprintf]: the padding and the text of the format. *)
Definition data_fprintf (padd : nat) (text : list Z) : list Z := replicate padd (" "%cc) ++ text.

(** A character of [data_fprintf_esc]; [char_signed] is whether [char] is a
    signed type.  A character that is not written is reported on stderr. *)
Definition esc_char (char_signed : bool) (c : Z) : list Z :=
  if c =? "\"%cc then str "\\"
  else if c =? cDQ then ["\"%cc; cDQ]
  else if c =? 9 then replicate 8 (" "%cc)
  else if 32 <=? char_val char_signed c then [c] else [].

Definition data_fprintf_esc (char_signed : bool) (padd : nat) (str : list Z) : list Z :=
  replicate padd (" "%cc) ++ [cDQ] ++ concat (esc_char char_signed <$> str) ++ [cDQ].

(** What is written after an element. *)
Definition elem_end {A} (others : list A) : list Z := match others with [] => [10] | _ => str "," ++ [10] end.

Fixpoint data_to_json_ (char_signed : bool) (self : data_node) (padd : nat) (do_padd : bool) : list Z :=
  let p := if do_padd then padd else 0%nat in
  match self with
  | DATA_INT val => data_fprintf p (fmt_li val)
  | DATA_STRING val => data_fprintf_esc char_signed p val
  | DATA_NULL => data_fprintf p (str "null")
  | DATA_HASH elems =>
      data_fprintf p (str "{" ++ [10]) ++
      (fix loop (elems : list (list Z * data_node)) : list Z :=
        match elems with
        | [] => []
        | (id, node) :: elems =>
            data_fprintf (padd + 1) ([cDQ] ++ id ++ [cDQ] ++ str ": ") ++
            data_to_json_ char_signed node (padd + 1) false ++ elem_end elems ++ loop elems
        end) elems ++
      data_fprintf padd (str "}")
  | DATA_ARRAY array =>
      data_fprintf p (str "[" ++ [10]) ++
      (fix loop (array : list data_node) : list Z :=
        match array with
        | [] => []
        | node :: array => data_to_json_ char_signed node (padd + 1) true ++ elem_end array ++ loop array
        end) array ++
      data_fprintf padd (str "]")
  end.

Definition data_to_json (char_signed : bool) (self : data_node) (padd : nat) : list Z :=
  data_to_json_ char_signed self padd false.
