(* ===== verification/DataStorageFacts.v ===== *)
(** * Properties of the metadata tree

    A hash with distinct keys implements a finite map of at most [MAX_ELEMS]
    keys.  The JSON text of a tree is a text of the document [doc_of], so the
    JSON reader of libs/ujson reads it back. *)

From stdpp Require Import gmap.
From S2P Require Import Prelude UjsonUtf UjsonReader UjsonWriter UjsonWriterFacts UjsonRoundtrip UjsonReadback DataStorage.
Open Scope Z_scope.

Section Ind.
Context (P : data_node → Prop).
Context (Harray : ∀ l, Forall P l → P (DATA_ARRAY l)) (Hhash : ∀ l, Forall (λ e, P e.2) l → P (DATA_HASH l)).
Context (Hstring : ∀ s, P (DATA_STRING s)) (Hint : ∀ z, P (DATA_INT z)) (Hnull : P DATA_NULL).

Fixpoint data_node_ind (n : data_node) : P n :=
  match n with
  | DATA_ARRAY l => Harray l ((fix go l := match l return Forall P l with
      | [] => Forall_nil_2 P | x :: l => Forall_cons_2 P x l (data_node_ind x) (go l) end) l)
  | DATA_HASH l => Hhash l ((fix go l := match l return Forall (λ e, P e.2) l with
      | [] => Forall_nil_2 _ | x :: l => Forall_cons_2 _ x l (data_node_ind x.2) (go l) end) l)
  | DATA_STRING s => Hstring s
  | DATA_INT z => Hint z
  | DATA_NULL => Hnull
  end.
End Ind.

(** ** Hashes are finite maps *)

Definition elems_of (self : data_node) : list (list Z * data_node) :=
  match self with DATA_HASH elems => elems | _ => [] end.

(** A hash whose keys are distinct. *)
Definition hash_wf (self : data_node) : Prop :=
  ∃ elems, self = DATA_HASH elems ∧ NoDup elems.*1 ∧ (length elems ≤ MAX_ELEMS)%nat.

Definition hash_map (self : data_node) : gmap (list Z) data_node := list_to_map (elems_of self).

Lemma find_id_spec id elems :
  match find_id id elems with
  | Some i => ∃ e, elems !! i = Some e ∧ e.1 = id
  | None => id ∉ elems.*1
  end.
Proof.
  induction elems as [|e elems IH]; cbn; [by apply not_elem_of_nil|].
  case_bool_decide as E; [by exists e|]. destruct (find_id id elems); cbn; [done|].
  apply not_elem_of_cons. by split; [intros ->|].
Qed.

Lemma hash_lookup elems i e :
  NoDup elems.*1 → elems !! i = Some e → (list_to_map elems : gmap (list Z) data_node) !! e.1 = Some e.2.
Proof. intros Hn He. apply elem_of_list_to_map; [done|]. apply list_elem_of_lookup. exists i. by destruct e. Qed.

Lemma hash_get_spec self id :
  hash_wf self → data_node_hash_get self id = Some (hash_map self !! id).
Proof.
  intros (elems & -> & Hn & _). cbn. unfold hash_map. cbn. pose proof (find_id_spec id elems) as H.
  destruct (find_id id elems) as [i|].
  - destruct H as (e & He & <-). by rewrite obind_Some, He, (hash_lookup elems i).
  - by rewrite not_elem_of_list_to_map_1.
Qed.

(** A key that is there already is added a second time, behind the first one,
    which is the one that is found. *)
Lemma hash_add_again self id node old :
  hash_wf self → hash_map self !! id = Some old →
  data_node_hash_get (snd (data_node_hash_add self id node)) id = Some (Some old).
Proof.
  intros Hw Hid. pose proof (hash_get_spec self id Hw) as Hget. rewrite Hid in Hget. destruct Hw as (elems & -> & _ & _).
  unfold data_node_hash_add. case_decide; [done|]. revert Hget. cbn. clear. intros [= H]. f_equal. revert old H.
  induction elems as [|e elems IH]; intros old; cbn; [done|]. case_bool_decide; [done|].
  specialize (IH old). destruct (find_id id elems) as [i|]; cbn in *; [|done]. destruct (find_id id (elems ++ _)) as [j|]; cbn in *; auto.
Qed.

Lemma hash_add_spec self id node :
  hash_wf self → hash_map self !! id = None →
  if decide (size (hash_map self) = MAX_ELEMS) then data_node_hash_add self id node = (1, self) else
  ∃ self', data_node_hash_add self id node = (0, self') ∧ hash_wf self' ∧ hash_map self' = <[id := node]> (hash_map self).
Proof.
  intros (elems & -> & Hn & Hl) Hid. unfold hash_map in *. cbn in *.
  rewrite map_size_list_to_map by done. case_decide as Hf; [done|]. eexists. split; [done|].
  apply not_elem_of_list_to_map_2 in Hid.
  assert (NoDup (elems ++ [(id, node)]).*1) as Hn'.
  { rewrite fmap_app. apply NoDup_app. split_and!; [done| |repeat constructor; by apply not_elem_of_nil].
    intros x Hx. cbn. by intros ->%list_elem_of_singleton. }
  split; [eexists; split_and!; [done|done|rewrite length_app; cbn; lia]|]. cbn.
  change (<[id := node]> (list_to_map elems)) with (list_to_map ((id, node) :: elems) : gmap (list Z) data_node).
  apply list_to_map_proper; [done|]. by rewrite Permutation_app_comm.
Qed.

(** Putting the last element in the place of another removes that one. *)
Lemma swap_remove (elems : list (list Z * data_node)) i x e :
  elems !! i = Some x → elems !! (length elems - 1)%nat = Some e →
  x :: take (length elems - 1) (<[i := e]> elems) ≡ₚ elems.
Proof.
  intros Hi He. pose proof (lookup_lt_Some _ _ _ Hi) as Hlt.
  destruct (exists_last (l := elems)) as (l & y & ->); [by intros ->|].
  rewrite length_app in *. cbn [length] in *. replace (length l + 1 - 1)%nat with (length l) in * by lia.
  rewrite list_lookup_middle in He by done. injection He as <-.
  destruct (decide (i = length l)) as [->|].
  - rewrite list_lookup_middle in Hi by done. injection Hi as <-.
    rewrite insert_app_r_alt, Nat.sub_diag, take_app_length by lia. apply Permutation_cons_append.
  - rewrite lookup_app_l in Hi by lia. rewrite insert_app_l, take_app_le, take_ge by (rewrite ?length_insert; lia).
    rewrite <- (take_drop_middle l i x Hi) at 2. rewrite (insert_take_drop l) by lia. rewrite <- !app_assoc. cbn.
    by rewrite <- Permutation_cons_append, <- !Permutation_middle.
Qed.

Lemma hash_del_spec self id :
  hash_wf self →
  ∃ self', data_node_hash_del self id = Some (c_bool (bool_decide (is_Some (hash_map self !! id))), self') ∧
    hash_wf self' ∧ hash_map self' = delete id (hash_map self).
Proof.
  intros (elems & -> & Hn & Hl). unfold hash_map. cbn. pose proof (find_id_spec id elems) as H.
  destruct (find_id id elems) as [i|].
  - destruct H as (x & Hx & <-). pose proof (lookup_lt_Some _ _ _ Hx). rewrite (hash_lookup elems i) by done.
    destruct (lookup_lt_is_Some_2 elems (length elems - 1)) as [e He]; [lia|]. rewrite He, obind_Some.
    pose proof (swap_remove elems i x e Hx He) as Hp. set (elems' := take _ _) in *.
    assert (NoDup (x :: elems').*1) as Hn' by (by rewrite Hp). cbn in Hn'. apply NoDup_cons in Hn' as [Hx' Hn'].
    eexists. split; [by rewrite bool_decide_true|]. split.
    + exists elems'. split_and!; [done|done|]. apply Permutation_length in Hp. cbn in Hp. lia.
    + cbn. rewrite <- (list_to_map_proper (M := gmap (list Z)) (x :: elems') elems) by (done || by rewrite Hp).
      destruct x as [k v]. cbn in *. by rewrite delete_insert_id by (by apply not_elem_of_list_to_map_1).
  - rewrite not_elem_of_list_to_map_1 by done. eexists. split; [by rewrite bool_decide_false by (by intros [])|].
    split; [by eexists|]. cbn. by rewrite delete_id by (by apply not_elem_of_list_to_map_1).
Qed.

(** ** The JSON text *)

Section Json.
Context (char_signed : bool).

(** What is left of a string: a tab becomes blanks, other control characters
    and, where [char] is signed, characters beyond ASCII are dropped. *)
Definition clean_char (c : Z) : list Z :=
  if c =? 9 then replicate 8 (" "%cc) else if 32 <=? char_val char_signed c then [c] else [].
Definition clean_str (s : list Z) : list Z := concat (clean_char <$> s).

Fixpoint mems (l : list (list Z * jval)) : jmems :=
  match l with [] => JNil | e :: l => JCons e.1 e.2 (mems l) end.

(** The document a tree stands for. *)
Fixpoint doc_of (n : data_node) : jval :=
  match n with
  | DATA_ARRAY array => JCont InArr (mems ((λ n, ([], doc_of n)) <$> array))
  | DATA_HASH elems => JCont InObj (mems ((λ e, (e.1, doc_of e.2)) <$> elems))
  | DATA_STRING val => JStr (clean_str val)
  | DATA_INT val => JInt val
  | DATA_NULL => JNull
  end.

(** The loops over the elements, as texts with their separators. *)
Fixpoint items (l : list (list Z)) : list Z :=
  match l with [] => [] | x :: l => x ++ elem_end l ++ items l end.

Definition pad (n : nat) : list Z := replicate n (" "%cc).

Lemma ws_pad n : ws (pad n).
Proof. by apply Forall_replicate. Qed.

Definition hash_item (padd : nat) (e : list Z * data_node) : list Z :=
  pad (padd + 1) ++ ([cDQ] ++ e.1 ++ [cDQ] ++ str ": ") ++ data_to_json_ char_signed e.2 (padd + 1) false.

Lemma elem_end_fmap {A B} (f : A → B) l : elem_end (f <$> l) = elem_end l.
Proof. by destruct l. Qed.

Lemma to_json_hash elems padd do_padd :
  data_to_json_ char_signed (DATA_HASH elems) padd do_padd =
  pad (if do_padd then padd else 0) ++ "{"%cc :: [10] ++ items (hash_item padd <$> elems) ++ pad padd ++ ["}"%cc].
Proof.
  cbn [data_to_json_]. unfold data_fprintf. rewrite <- app_assoc. f_equal. refine (f_equal (app (str "{" ++ [10])) (f_equal (λ x, x ++ _) _)).
  induction elems as [|[id n] elems IH]; [done|]. rewrite fmap_cons. cbn [items]. rewrite IH, elem_end_fmap.
  unfold hash_item at 2, pad. cbn [fst snd]. by rewrite <- !app_assoc.
Qed.

Lemma to_json_array array padd do_padd :
  data_to_json_ char_signed (DATA_ARRAY array) padd do_padd =
  pad (if do_padd then padd else 0) ++ "["%cc :: [10] ++
    items ((λ n, data_to_json_ char_signed n (padd + 1) true) <$> array) ++ pad padd ++ ["]"%cc].
Proof.
  cbn [data_to_json_]. unfold data_fprintf. rewrite <- app_assoc. f_equal. refine (f_equal (app (str "[" ++ [10])) (f_equal (λ x, x ++ _) _)).
  induction array as [|n array IH]; [done|]. rewrite fmap_cons. cbn [items]. by rewrite IH, elem_end_fmap.
Qed.

(** The text of a member with the white space before it. *)
Definition is_item (k : container) (x : list Z) (e : list Z * jval) : Prop :=
  ∃ w sv, ws w ∧ is_text e.2 sv ∧ x = w ++ ktext k e.1 ++ sv.

Lemma items_text k xs es :
  Forall2 (is_item k) xs es → xs ≠ [] → ∀ first : bool,
  ∃ m, (if first then [] else str ",") ++ [10] ++ items xs = m ++ [10] ∧ is_mtext k first (mems es) m.
Proof.
  induction 1 as [|x e xs es (w & sv & Hw & Hv & ->) Hxs IH]; intros Hne first; [done|].
  assert (∃ sl, elem_end xs ++ items xs = sl ++ [10] ∧ is_mtext k false (mems es) sl) as (sl & Esl & Hsl).
  { destruct Hxs as [|y e' xs es Hy Hxs]; [by exists []|].
    destruct (IH ltac:(done) false) as (m & Em & Hm). exists m. split; [|done]. by rewrite <- Em. }
  exists ((if first then [] else str ",") ++ [10] ++ w ++ ktext k e.1 ++ sv ++ sl). split.
  - cbn [items]. rewrite Esl. by rewrite <- !app_assoc.
  - exists [], ([10] ++ w), sv, sl. split_and!; [constructor|by constructor|done|done|]. destruct first; by rewrite <- !app_assoc.
Qed.

Lemma container_text k xs es p :
  Forall2 (is_item k) xs es → is_text (JCont k (mems es)) (open_ch k :: [10] ++ items xs ++ pad p ++ [close_ch k]).
Proof.
  intros H. destruct (decide (xs = [])) as [->|Hne].
  - inversion H; subst. exists [], ([10] ++ pad p). split_and!; [done|constructor; [done|apply ws_pad]|done].
  - destruct (items_text k xs es H Hne true) as (m & Em & Hm). exists m, ([10] ++ pad p).
    split_and!; [done|constructor; [done|apply ws_pad]|]. f_equal. rewrite app_nil_l in Em.
    rewrite !(app_assoc [10]), Em. by rewrite <- !app_assoc.
Qed.
(** The text of a string. *)
Lemma stext_app s s' x x' : is_stext s x → is_stext s' x' → is_stext (s ++ s') (x ++ x').
Proof.
  revert x. induction s as [|c s IH]; intros x Hx Hx'; [by rewrite Hx|].
  destruct Hx as (y & z & Hc & Hz & ->). exists y, (z ++ x'). split_and!; [done|by apply IH|by rewrite <- app_assoc].
Qed.

Lemma stext_char c x : char_text c x → is_stext [c] x.
Proof. intros H. exists x, []. split_and!; [done|done|by rewrite app_nil_r]. Qed.

Lemma clean_char_text c : is_stext (clean_char c) (esc_char char_signed c).
Proof.
  unfold clean_char, esc_char. destruct (Z.eqb_spec c ("\"%cc)) as [->|H1]; [|destruct (Z.eqb_spec c cDQ) as [->|H2]].
  - replace (32 <=? char_val char_signed ("\"%cc)) with true by (by destruct char_signed). apply stext_char. by right.
  - replace (32 <=? char_val char_signed cDQ) with true by (by destruct char_signed). apply stext_char. by right.
  - destruct (Z.eqb_spec c 9) as [->|H3].
    + do 8 (refine (ex_intro _ [" "%cc] (ex_intro _ _ (conj (or_introl _) (conj _ eq_refl)))); [done|]). done.
    + destruct (Z.leb_spec 32 (char_val char_signed c)) as [H|H]; [|done]. apply stext_char. left. split_and!; try done.
      unfold char_val in H. destruct char_signed; cbn in H; [|done]. destruct (Z.leb_spec 128 c); lia.
Qed.

Lemma clean_str_text s : is_stext (clean_str s) (concat (esc_char char_signed <$> s)).
Proof. induction s as [|c s IH]; [done|]. apply stext_app; [apply clean_char_text|done]. Qed.

Lemma mwf_mems slen d k es :
  mwf slen d k (mems es) ↔ Forall (λ e, key_ok k e.1 ∧ jwf slen d e.2) es.
Proof.
  induction es as [|e es IH]; cbn; [split; [constructor|done]|]. rewrite Forall_cons, IH. tauto.
Qed.

(** The text is that of the document, after the padding. *)
Lemma to_json_text slen n : ∀ d padd do_padd, jwf slen d (doc_of n) →
  ∃ t, data_to_json_ char_signed n padd do_padd = pad (if do_padd then padd else 0) ++ t ∧ is_text (doc_of n) t.
Proof.
  induction n as [array IH|elems IH|s|z|] using data_node_ind; intros d padd do_padd Hj.
  - rewrite to_json_array. eexists. split; [done|]. destruct Hj as [_ Hj]. apply mwf_mems in Hj.
    apply (container_text InArr). rewrite Forall_fmap in Hj. apply Forall2_fmap, Forall_Forall2_diag.
    rewrite Forall_forall in *. intros n Hn. destruct (IH n Hn (S d) (padd + 1)%nat true) as (t & -> & Ht); [by apply Hj|].
    exists (pad (padd + 1)), t. split_and!; [apply ws_pad|done|done].
  - rewrite to_json_hash. eexists. split; [done|]. destruct Hj as [_ Hj]. apply mwf_mems in Hj.
    apply (container_text InObj). rewrite Forall_fmap in Hj. apply Forall2_fmap, Forall_Forall2_diag.
    rewrite Forall_forall in *. intros [key n] Hn. destruct (Hj _ Hn) as [(_ & _ & Hk) Hv]. cbn in Hk, Hv.
    destruct (IH _ Hn (S d) (padd + 1)%nat false) as (t & E & Ht); [done|]. cbn in E.
    exists (pad (padd + 1)), t. split_and!; [apply ws_pad|done|]. unfold hash_item. cbn [fst snd ktext].
    by rewrite (esc_bytes_plain key Hk), E.
  - eexists. split; [done|]. exists (concat (esc_char char_signed <$> s)). split; [apply clean_str_text|done].
  - by eexists.
  - by eexists.
Qed.

(** The reader of libs/ujson reads the document back. *)
Lemma to_json_read bs n padd k l w strict fuel :
  doc_of n = JCont k l → jwf (λ n, n < bs)%nat 0 (doc_of n) → ws w → (mfuel l ≤ fuel)%nat →
  ∃ b, decode_doc fuel bs (UJSON_READER_INIT (data_to_json char_signed n padd ++ w) strict) = Some (doc_of n, b) ∧
    ujson_reader_err b = false ∧ ujson_reader_consumed b = true.
Proof.
  intros E Hj Hw Hf. destruct (to_json_text _ n 0%nat padd false Hj) as (t & Et & Ht).
  unfold data_to_json. rewrite Et. cbn [pad replicate app]. rewrite E in *.
  by apply (decode_doc_text (t ++ w) (λ n, n < bs)%nat true bs (λ _ n H, H) eq_refl); [done|apply Hj|..].
Qed.
(** Where [char] is signed the text is ASCII; elsewhere if the strings are. *)
Lemma clean_str_ascii s :
  cstring s → char_signed = true ∨ Forall (λ c, c < 128) s → Forall (λ c, 32 ≤ c < 128) (clean_str s).
Proof.
  intros Hs Ha. induction Hs as [|c s Hc Hs IH]; [constructor|]. apply Forall_app. split.
  - unfold clean_char. destruct (Z.eqb_spec c 9); [by apply Forall_replicate|].
    destruct (Z.leb_spec 32 (char_val char_signed c)) as [H|H]; [|constructor]. constructor; [|constructor].
    unfold char_val in H. destruct Ha as [-> | Ha]; [|apply Forall_cons in Ha as [Ha _]]; destruct (Z.leb_spec 128 c);
      try lia; rewrite ?andb_true_r, ?andb_false_r in H; cbn in H; lia.
  - apply IH. destruct Ha as [Ha|Ha]; [by left|right]. by apply Forall_cons in Ha as [_ Ha].
Qed.
End Json.

(** ** What a tree has to satisfy *)

(** Keys of printable characters that need no escape and fit the reader's
    array, longs, strings that fit its buffer, at most 128 levels.  Where
    [char] is unsigned the strings are ASCII. *)
Definition key_fine (key : list Z) : Prop :=
  Forall (λ c, 32 ≤ c < 128 ∧ esc_of c = None) key ∧ (length key < UJSON_ID_MAX)%nat.

Fixpoint tree_ok (char_signed : bool) (bs d : nat) (n : data_node) : Prop :=
  match n with
  | DATA_ARRAY array =>
      (d < 128)%nat ∧ (fix go l := match l with [] => True | n :: l => tree_ok char_signed bs (S d) n ∧ go l end) array
  | DATA_HASH elems =>
      (d < 128)%nat ∧ (fix go l := match l with [] => True | e :: l => key_fine e.1 ∧ tree_ok char_signed bs (S d) e.2 ∧ go l end) elems
  | DATA_STRING s =>
      cstring s ∧ (char_signed = true ∨ Forall (λ c, c < 128) s) ∧ (length (clean_str char_signed s) < bs)%nat
  | DATA_INT z => - 2 ^ 63 < z < 2 ^ 63
  | DATA_NULL => True
  end.

Lemma tree_ok_jwf char_signed bs n : ∀ d, tree_ok char_signed bs d n → jwf (λ n, n < bs)%nat d (doc_of char_signed n).
Proof.
  induction n as [array IH|elems IH|s|z|] using data_node_ind; intros d H; try done.
  - destruct H as [Hd H]. split; [done|]. apply mwf_mems, Forall_fmap. induction IH as [|n array Hn _ IHl]; [constructor|].
    destruct H as [H1 H2]. constructor; [split; [done|by apply Hn]|by apply IHl].
  - destruct H as [Hd H]. split; [done|]. apply mwf_mems, Forall_fmap. induction IH as [|e elems He _ IHl]; [constructor|].
    destruct H as (Hk & H1 & H2). constructor; [split; [by apply ascii_key_ok; apply Hk|by apply He]|by apply IHl].
  - destruct H as (Hs & Ha & Hl). split; [|done]. by apply ascii_string_ok, clean_str_ascii.
Qed.

(** ** The theorems *)

(** C39. A hash whose keys are distinct is a finite map of at most 100 keys:
    [data_node_hash_get] is the lookup, [data_node_hash_add] of a key that is
    not in the hash is the insertion, which is refused when the table is full,
    and [data_node_hash_del], which moves the last element, the deletion; after
    these the keys are distinct again.  Adding a key that is in the hash does
    not change what is found for it; the caller has to delete it first. *)
Theorem data_hash_map (self : data_node) (id : list Z) (node : data_node) :
  hash_wf self →
  data_node_hash_get self id = Some (hash_map self !! id) ∧
  (hash_map self !! id = None →
    if decide (size (hash_map self) = MAX_ELEMS) then data_node_hash_add self id node = (1, self) else
    ∃ self', data_node_hash_add self id node = (0, self') ∧ hash_wf self' ∧ hash_map self' = <[id := node]> (hash_map self)) ∧
  (∀ old, hash_map self !! id = Some old → data_node_hash_get (snd (data_node_hash_add self id node)) id = Some (Some old)) ∧
  ∃ self', data_node_hash_del self id = Some (c_bool (bool_decide (is_Some (hash_map self !! id))), self') ∧
    hash_wf self' ∧ hash_map self' = delete id (hash_map self).
Proof.
  intros Hw. split_and!; [by apply hash_get_spec|intros Hid; by apply hash_add_spec|intros old Hid; by apply hash_add_again|by apply hash_del_spec].
Qed.

Definition demo_hash : data_node :=
  DATA_HASH [(str "a", DATA_INT 1); (str "b", DATA_ARRAY [DATA_STRING (str "x/y" ++ [9; 233]); DATA_NULL; DATA_HASH []]);
             (str "c", DATA_STRING (str "q"))].

Lemma data_hash_map_witness :
  ∃ self', data_node_hash_del demo_hash (str "a") = Some (1, self') ∧ hash_map self' = delete (str "a") (hash_map demo_hash).
Proof.
  destruct (data_hash_map demo_hash (str "a") DATA_NULL) as (_ & _ & _ & (self' & E & _ & H)).
  - eexists. split; [reflexivity|]. split; [|cbn; unfold MAX_ELEMS; lia]. apply (bool_decide_unpack _). vm_compute. exact I.
  - exists self'. split; [|exact H]. rewrite E. reflexivity.
Defined.

(** The JSON text that [data_to_json] writes for a hash or an array,
    with any padding, is read back by the reader of libs/ujson, without an
    error and to the end: as the document of the tree, in which a tab is
    eight blanks, other control characters are dropped and, where [char] is
    signed, characters beyond ASCII, too. *)
Theorem data_to_json_readback (char_signed : bool) (n : data_node) (bs padd : nat) (k : container) (l : jmems) (w : list Z)
    (strict : bool) (fuel : nat) :
  tree_ok char_signed bs 0 n → doc_of char_signed n = JCont k l → ws w → (mfuel l ≤ fuel)%nat →
  ∃ b, decode_doc fuel bs (UJSON_READER_INIT (data_to_json char_signed n padd ++ w) strict) = Some (doc_of char_signed n, b) ∧
    ujson_reader_err b = false ∧ ujson_reader_consumed b = true.
Proof. intros Hn E Hw Hf. eapply to_json_read; [exact E|by apply tree_ok_jwf|done|done]. Qed.

Lemma data_to_json_readback_witness :
  ∃ b, decode_doc 20 20 (UJSON_READER_INIT (data_to_json true demo_hash 2 ++ [10]) true) = Some (doc_of true demo_hash, b) ∧
    ujson_reader_err b = false ∧ ujson_reader_consumed b = true.
Proof.
  eapply (data_to_json_readback true demo_hash 20 2); [|reflexivity|by constructor|vm_compute; lia].
  cbn [tree_ok demo_hash fst snd].
  refine (conj _ (conj _ (conj _ (conj _ (conj (conj _ (conj (conj _ (conj (or_introl eq_refl) _)) (conj I (conj (conj _ I) I)))) (conj _ (conj (conj _ (conj (or_introl eq_refl) _)) I))))))); try lia;
    try (split; [|vm_compute; lia]); try (vm_compute; lia); apply (bool_decide_unpack _); vm_compute; exact I.
Defined.
