(* ===== verification/Metaparse.v ===== *)
(** * The metadata parser

    metadata/metaparse.c: the tokenizer, the parser of initializers, macros,
    includes and the conversion to JSON.  A [FILE] is the bytes that are
    still to be read: [getc] takes the first, [ungetc] puts it back, [ftell]
    and [fseek] save and restore them.  [read] is the file system.  The
    messages on stderr are left out. *)

From stdpp Require Import gmap.
From S2P Require Import Prelude DataStorage.
Open Scope Z_scope.

(** ** Results

    [Hang] is a loop that reads at the end of the file for ever, [UB] an
    access outside an object, a null pointer that is used or a buffer that is
    read before it is written, [Exit] a call of exit.  [NoFuel] is not a
    result of the code. *)
Inductive res (A : Type) : Type :=
  | Ret (a : A)
  | Exit (code : Z)
  | Hang
  | UB
  | NoFuel.
Arguments Ret {A} a.
Arguments Exit {A} code.
Arguments Hang {A}.
Arguments UB {A}.
Arguments NoFuel {A}.

#[export] Instance res_fmap : FMap res := λ A B f m,
  match m with Ret a => Ret (f a) | Exit c => Exit c | Hang => Hang | UB => UB | NoFuel => NoFuel end.
#[export] Instance res_ret : MRet res := @Ret.
#[export] Instance res_bind : MBind res := λ A B f m,
  match m with Ret a => f a | Exit c => Exit c | Hang => Hang | UB => UB | NoFuel => NoFuel end.

Lemma rbind_Ret {A B} (x : A) (f : A → res B) : (y ← Ret x; f y) = f x.
Proof. done. Qed.

(** [!strcmp(token, s)]. *)
Definition streq (token : list Z) (s : string) : bool := bool_decide (token = str s).

(** ** Comments *)

Fixpoint remove_to_newline (f : list Z) : res (list Z) :=
  match f with
  | [] => Hang
  | c :: f => if c =? 10 then Ret f else remove_to_newline f
  end.

Definition eat_asterisk_space (c : list Z) : list Z :=
  match skip_spaces c with
  | x :: r => if x =? "*"%cc then match r with y :: r' => if isspace y then r' else r | [] => r end else c
  | [] => c
  end.

(** The size of the buffers of [multiline_comment] and [next_token]. *)
Definition BUF : nat := 4096.

(** The loop, with [buf] what is stored and [state] whether the last
    character was an asterisk. *)
Fixpoint multiline_comment_loop (f : list Z) (doc : option data_node) (buf : list Z) (state : bool) :
    res (list Z * option data_node) :=
  match f with
  | [] => Hang
  | c :: f =>
      let next buf :=
        if state then
          if c =? "/"%cc then Ret (f, doc)
          else if c =? "*"%cc then multiline_comment_loop f doc buf true
          else multiline_comment_loop f doc buf false
        else multiline_comment_loop f doc buf (c =? "*"%cc) in
      match doc with
      | None => next buf
      | Some d =>
          if c =? 10 then
            multiline_comment_loop f (Some (snd (data_node_array_add d (DATA_STRING (eat_asterisk_space (c_str buf)))))) [] state
          else if (BUF <=? length buf + 1)%nat then multiline_comment_loop f doc buf state
          else next (buf ++ [c])
      end
  end.

Definition multiline_comment (f : list Z) (doc : option data_node) : res (list Z * option data_node) :=
  multiline_comment_loop f doc [] false.

Definition doc_prefix : list Z := ["\"%cc; 10].

(** [doc] is not touched by a comment that is not a doc comment. *)
Fixpoint maybe_doc_comment_loop (prefix : list Z) (f : list Z) (doc : option data_node) :
    res (list Z * option data_node) :=
  match prefix with
  | [] => multiline_comment f doc
  | p :: prefix =>
      match f with
      | [] => '(f, _) ← multiline_comment f None; Ret (f, doc)
      | c :: f' =>
          if c =? p then maybe_doc_comment_loop prefix f' doc
          else '(f, _) ← multiline_comment (if c =? "*"%cc then f else f') None; Ret (f, doc)
      end
  end.

Definition maybe_doc_comment : list Z → option data_node → res (list Z * option data_node) :=
  maybe_doc_comment_loop doc_prefix.

Definition maybe_comment (f : list Z) (doc : option data_node) : res (list Z * option data_node) :=
  match f with
  | [] => Ret (f, doc)
  | c :: f' =>
      if c =? "/"%cc then f ← remove_to_newline f'; Ret (f, doc)
      else if c =? "*"%cc then maybe_doc_comment f' doc
      else Ret (f, doc)
  end.

(** ** Tokens *)

(** The case labels of [next_token2]. *)
Definition is_punct (c : Z) : bool := bool_decide (c ∈ str "{};()=,[]#|+*%").
Definition is_word (c : Z) : bool := isalnum c || bool_decide (c ∈ str "._-").
Definition is_blank (c : Z) : bool := (c =? " "%cc) || (c =? 10) || (c =? 9).

(** The end of the function, with [buf] the characters stored so far. *)
Definition token_exit (buf_len : nat) (buf : list Z) (in_str : bool) (f : list Z) (doc : option data_node) :
    res (option (list Z) * list Z * option data_node) :=
  match buf, in_str with
  | [], false => Ret (None, f, doc)
  | _, _ => if (length buf <? buf_len)%nat then Ret (Some (c_str buf), f, doc) else UB
  end.

(** Only strings and punctuation are stored within the bounds of the buffer. *)
Fixpoint next_token2_loop (fuel : nat) (f : list Z) (buf_len : nat) (buf : list Z) (in_str : bool)
    (doc : option data_node) : res (option (list Z) * list Z * option data_node) :=
  match fuel with
  | O => NoFuel
  | S fuel =>
      match f with
      | [] => token_exit buf_len buf in_str f doc
      | c :: f' =>
          if in_str then
            if (c =? cDQ) && negb (bool_decide (last buf = Some ("\"%cc))) then token_exit buf_len buf in_str f' doc
            else next_token2_loop fuel f' buf_len (if (length buf <? buf_len - 1)%nat then buf ++ [c] else buf) in_str doc
          else if is_punct c then
            match buf with
            | [] => token_exit buf_len [c] in_str f' doc
            | _ => token_exit buf_len buf in_str f doc
            end
          else if is_word c then
            if (length buf <? buf_len)%nat then next_token2_loop fuel f' buf_len (buf ++ [c]) in_str doc else UB
          else if c =? "/"%cc then
            '(f, doc) ← maybe_comment f' doc; next_token2_loop fuel f buf_len buf in_str doc
          else if c =? cDQ then next_token2_loop fuel f' buf_len buf true doc
          else if is_blank c then
            match buf with
            | [] => next_token2_loop fuel f' buf_len buf in_str doc
            | _ => token_exit buf_len buf in_str f' doc
            end
          else next_token2_loop fuel f' buf_len buf in_str doc
      end
  end.

Definition next_token2 (f : list Z) (buf_len : nat) (doc : option data_node) :
    res (option (list Z) * list Z * option data_node) :=
  next_token2_loop (S (length f)) f buf_len [] false doc.

Definition next_token (f : list Z) (doc : option data_node) : res (option (list Z) * list Z * option data_node) :=
  next_token2 f BUF doc.

(** Without a doc string. *)
Definition next_tok (f : list Z) : res (option (list Z) * list Z) :=
  '(t, f, _) ← next_token f None; Ret (t, f).

(** ** Includes *)

(** ["%s"] of fscanf into [n] bytes: [None] at the end of the file, where
    nothing is stored. *)
Fixpoint span_word (f : list Z) : list Z * list Z :=
  match f with
  | c :: f' => if isspace c then ([], f) else let '(w, r) := span_word f' in (c :: w, r)
  | [] => ([], [])
  end.

Definition fscanf_s (n : nat) (f : list Z) : res (option (list Z) * list Z) :=
  match skip_spaces f with
  | [] => Ret (None, [])
  | f => let '(w, r) := span_word f in if (length w <? n)%nat then Ret (Some w, r) else UB
  end.

(** What the program is given: the include paths of the command line, the
    directory of the file and the file system. *)
Record config := Config {
  cmdline_includepath : list (list Z);
  includepath : list Z;
  read : list Z → option (list Z)
}.

Definition open_file (cf : config) (dir fname : list Z) : option (list Z) := read cf (dir ++ str "/" ++ fname).

Definition skip_includes : list (list Z) :=
  (λ s, [cDQ] ++ str s ++ [cDQ]) <$> ["tst_test.h"%string; "config.h"%string; "tst_taint.h"%string].

(** The loop over the directories. *)
Fixpoint open_first (cf : config) (dirs : list (list Z)) (fname : list Z) : option (list Z) :=
  match dirs with
  | [] => None
  | d :: dirs => match open_file cf d fname with Some inc => Some inc | None => open_first cf dirs fname end
  end.

(** The text of the include file, if it is opened, and the rest of [f]. *)
Definition open_include (cf : config) (f : list Z) : res (option (list Z) * list Z) :=
  '(w, f) ← fscanf_s 256 f;
  match w with
  | None => UB
  | Some buf =>
      let f := skip_spaces f in
      let buf := c_str buf in
      if negb (bool_decide (head buf = Some cDQ)) then Ret (None, f)
      else if bool_decide (buf ∈ skip_includes) then Ret (None, f)
      else if strncmp buf ([cDQ] ++ str "lapi/") 6 =? 0 then Ret (None, f)
      else match drop 1 buf with
           | [] => UB
           | fname => Ret (open_first cf (includepath cf :: cmdline_includepath cf) (take (length fname - 1) fname), f)
           end
  end.

(** ** Macros *)

(** The table of hsearch, with room for [hcap] entries. *)
Definition macros : Type := gmap (list Z) (list Z).

Section Hash.
Context (hcap : nat).

(** [hsearch(e, ENTER)] keeps an entry that is there and fails on a full
    table. *)
Definition hsearch_enter (key data : list Z) (m : macros) : macros :=
  match m !! key with
  | Some _ => m
  | None => if (size m <? hcap)%nat then <[key := data]> m else m
  end.

Definition try_apply_macro (m : macros) (token : list Z) : list Z := default token (m !! token).

(** [buf_end] is [room] characters after the start of the buffer. *)
Fixpoint macro_get_string (f : list Z) (buf : list Z) (room : nat) : list Z * list Z :=
  match f with
  | [] => (buf, [])
  | c :: f =>
      if c =? cDQ then
        if bool_decide (last buf = Some ("\"%cc)) then macro_get_string f (take (length buf - 1) buf ++ [cDQ]) room
        else (buf, f)
      else macro_get_string f (if (length buf <? room)%nat then buf ++ [c] else buf) room
  end.

(** The loop on the value of a macro that is no string. *)
Fixpoint macro_get_val_loop (f : list Z) (prev : Z) (buf : list Z) (room : nat) : res (list Z * list Z) :=
  match f with
  | [] => Ret (buf, [])
  | c :: f =>
      if c =? 10 then
        if prev =? "\"%cc then
          match buf with [] => UB | _ => macro_get_val_loop f c (take (length buf - 1) buf) room end
        else Ret (buf, f)
      else if (c =? " "%cc) || (c =? 9) then macro_get_val_loop f c buf room
      else macro_get_val_loop f c (if (length buf <? room)%nat then buf ++ [c] else buf) room
  end.

Definition macro_get_val (f : list Z) (buf_len : nat) : res (list Z * list Z) :=
  match skip_spaces f with
  | c :: f' =>
      if c =? cDQ then Ret (macro_get_string f' [] (buf_len - 1))
      else macro_get_val_loop (c :: f') 0 [] (buf_len - 1)
  | [] => Ret ([], [])
  end.

Definition parse_macro (f : list Z) (m : macros) : res (list Z * macros) :=
  '(w, f) ← fscanf_s 128 f;
  match w with
  | None => UB
  | Some name =>
      if bool_decide (head f = Some 10) then Ret (drop 1 f, m) else
      '(val, f) ← macro_get_val (drop 1 f) 256;
      let name := c_str name in
      if bool_decide (head name = Some ("_"%cc)) then Ret (f, m)
      else Ret (f, hsearch_enter name (c_str val) m)
  end.

(** Whether the last token was a hash: the lines of an include file. *)
Fixpoint include_loop (cf : config) (nested : list Z → macros → res (list Z * macros)) (fuel : nat)
    (inc : list Z) (hash : bool) (m : macros) : res macros :=
  match fuel with
  | O => NoFuel
  | S fuel =>
      '(token, inc) ← next_tok inc;
      match token with
      | None => Ret m
      | Some token =>
          if bool_decide (head token = Some ("#"%cc)) then include_loop cf nested fuel inc true m
          else if negb hash then include_loop cf nested fuel inc hash m
          else if streq token "define" then
            '(inc, m) ← parse_macro inc m; include_loop cf nested fuel inc false m
          else if streq token "include" then
            '(inc, m) ← nested inc m; include_loop cf nested fuel inc false m
          else include_loop cf nested fuel inc false m
      end
  end.

(** [level] counts down: what is left of the three levels of includes. *)
Fixpoint parse_include_macros (cf : config) (levels : nat) (f : list Z) (m : macros) : res (list Z * macros) :=
  match levels with
  | O => Ret (f, m)
  | S levels =>
      '(inc, f) ← open_include cf f;
      match inc with
      | None => Ret (f, m)
      | Some inc => m ← include_loop cf (parse_include_macros cf levels) (S (length inc)) inc false m; Ret (f, m)
      end
  end.

Definition internal_macros : list (list Z * list Z) :=
  (λ e, (str e.1, str e.2)) <$>
  [("TST_CG_V2"%string, "2"%string); ("TST_CG_V1"%string, "1"%string); ("TST_KB"%string, "1024"%string);
   ("TST_MB"%string, "1048576"%string); ("TST_GB"%string, "1073741824"%string);
   ("TST_SR_TBROK"%string, "TBROK"%string); ("TST_SR_TCONF"%string, "TCONF"%string);
   ("TST_SR_SKIP"%string, "SKIP"%string); ("TST_SR_TBROK_MISSING"%string, "TBROK_MISSING"%string);
   ("TST_SR_TCONF_MISSING"%string, "TCONF_MISSING"%string); ("TST_SR_SKIP_MISSING"%string, "SKIP_MISSING"%string);
   ("TST_SR_TBROK_RO"%string, "TBROK_RO"%string); ("TST_SR_TCONF_RO"%string, "TCONF_RO"%string);
   ("TST_SR_SKIP_RO"%string, "SKIP_RO"%string)].

Definition load_internal_macros (m : macros) : macros :=
  fold_left (λ m e, hsearch_enter e.1 e.2 m) internal_macros m.

(** ** Initializers *)

(** [data_node_hash_add] with the key that a pointer to [id] and an offset
    gives; a hash that is full does not look at the key. *)
Definition hash_add_id (node : data_node) (id : option (list Z)) (off : nat) (payload : data_node) : res data_node :=
  match node with
  | DATA_HASH elems =>
      if decide (length elems = MAX_ELEMS) then Ret node else
      match id with
      | Some id => if (off <=? length id)%nat then Ret (snd (data_node_hash_add node (drop off id) payload)) else UB
      | None => UB
      end
  | _ => Ret node
  end.

(** The entry is added and [val] and [id] are null again, if there is a value. *)
Definition finalize_array_entry (val id : option (list Z)) (node : data_node) :
    res (option (list Z) * option (list Z) * data_node) :=
  match val with
  | None => Ret (val, id, node)
  | Some v =>
      node ← match id with
             | Some _ => hash_add_id node id 1 (DATA_STRING v)
             | None => Ret (snd (data_node_array_add node (DATA_STRING v)))
             end;
      Ret (None, None, node)
  end.

Definition str_append (res : option (list Z)) (append : list Z) : option (list Z) :=
  Some (default [] res ++ append).

(** Skipping a nested initializer: the rest of the file after it, or [None]
    when the file ends. *)
Fixpoint skip_nested (fuel : nat) (f : list Z) (level : Z) : res (option (list Z)) :=
  match fuel with
  | O => NoFuel
  | S fuel =>
      '(token, f) ← next_tok f;
      match token with
      | None => Ret None
      | Some token =>
          let level := if streq token "{" then level + 1 else level in
          let level := if streq token "}" then level - 1 else level in
          if level =? 0 then Ret (Some f) else skip_nested fuel f level
      end
  end.

(** The loop of [array_is_hash]: the value of [elem_seen && has_ids] at the
    end, where the position in the file is restored. *)
Fixpoint array_is_hash_loop (fuel : nat) (f : list Z) (elem_seen comma_last in_id : bool) : res bool :=
  match fuel with
  | O => NoFuel
  | S fuel =>
      '(token, f) ← next_tok f;
      match token with
      | None => Ret elem_seen
      | Some token =>
          if streq token "}" then Ret (elem_seen && negb (in_id && negb comma_last))
          else if streq token "{" then
            if in_id then Ret false else
            f ← skip_nested (S (length f)) f 1;
            match f with None => Ret true | Some f => array_is_hash_loop fuel f true comma_last in_id end
          else if streq token "," then
            if in_id then Ret false else array_is_hash_loop fuel f true true true
          else if streq token "=" then array_is_hash_loop fuel f true comma_last false
          else array_is_hash_loop fuel f true false in_id
      end
  end.

Definition array_is_hash (f : list Z) : res bool := array_is_hash_loop (S (length f)) f false false true.

(** The loop of [parse_array], with the macros [m]; the results of nested
    calls are not looked at. *)
Fixpoint parse_array_loop (m : macros) (fuel : nat) (f : list Z) (is_hash : bool) (val id : option (list Z))
    (parent_cnt : Z) (ret : data_node) : res (Z * data_node * list Z) :=
  match fuel with
  | O => NoFuel
  | S fuel =>
      '(token, f) ← next_tok f;
      match token with
      | None => Ret (1, ret, f)
      | Some token =>
          if streq token "{" then
            sub_is_hash ← array_is_hash f;
            '(_, sub_ret, f) ← parse_array_loop m fuel f sub_is_hash None None 0
                                 (if sub_is_hash then data_node_hash else data_node_array);
            ret ← (if data_node_is_empty sub_ret then Ret ret
                   else if is_hash then hash_add_id ret id 1 sub_ret
                   else Ret (snd (data_node_array_add ret sub_ret)));
            parse_array_loop m fuel f is_hash None None parent_cnt ret
          else if streq token "}" then
            '(_, _, ret) ← finalize_array_entry val id ret;
            Ret (0, if is_hash then ret else
                    match data_node_array_last ret with
                    | Some DATA_NULL => data_node_array_last_rem ret
                    | _ => ret
                    end, f)
          else if is_hash && streq token "=" && negb (bool_decide (is_Some id)) then
            parse_array_loop m fuel f is_hash None val parent_cnt ret
          else if streq token "," && (parent_cnt <=? 0) then
            '(val, id, ret) ← finalize_array_entry val id ret;
            parse_array_loop m fuel f is_hash val id parent_cnt ret
          else if streq token "NULL" then
            ret ← (if is_hash then hash_add_id ret id 0 DATA_NULL else Ret (snd (data_node_array_add ret DATA_NULL)));
            parse_array_loop m fuel f is_hash val id parent_cnt ret
          else
            let parent_cnt := if streq token "(" then parent_cnt + 1 else parent_cnt in
            let parent_cnt := if streq token ")" then parent_cnt - 1 else parent_cnt in
            parse_array_loop m fuel f is_hash (str_append val (try_apply_macro m token)) id parent_cnt ret
      end
  end.

Definition parse_array (m : macros) (f : list Z) : res (Z * data_node * list Z) :=
  is_hash ← array_is_hash f;
  parse_array_loop m (S (length f)) f is_hash None None 0 (if is_hash then data_node_hash else data_node_array).

(** ** Lengths of arrays *)

Fixpoint get_array_len_loop (fuel : nat) (f : list Z) (cnt depth : Z) (prev_comma : bool) : res (Z * list Z) :=
  match fuel with
  | O => NoFuel
  | S fuel =>
      '(token, f) ← next_tok f;
      match token with
      | None => Ret (0, f)
      | Some token =>
          let depth := if streq token "{" then depth + 1 else depth in
          let '(depth, prev_comma) := if streq token "}" then (depth - 1, prev_comma) else (depth, false) in
          let '(prev_comma, cnt) := if streq token "," && (depth =? 0) then (true, cnt + 1) else (prev_comma, cnt) in
          if depth <? 0 then Ret (cnt + c_bool (negb prev_comma), f)
          else get_array_len_loop fuel f cnt depth prev_comma
      end
  end.

Definition parse_get_array_len (f : list Z) : res (Z * list Z) :=
  '(token, f) ← next_tok f;
  match token with
  | Some token => if streq token "{" then get_array_len_loop (S (length f)) f 0 0 false else Ret (0, f)
  | None => Ret (0, f)
  end.

(** [prev] is the token in the other buffer. *)
Fixpoint look_for_array_size (fuel : nat) (f : list Z) (arr_id prev : list Z) : res (option data_node) :=
  match fuel with
  | O => NoFuel
  | S fuel =>
      '(token, f, _) ← next_token2 f 2048 None;
      match token with
      | None => Ret None
      | Some token =>
          if streq token "=" && bool_decide (prev = arr_id) then
            '(arr_len, _) ← parse_get_array_len f; Ret (Some (DATA_INT arr_len))
          else look_for_array_size fuel f arr_id
                 (if negb (streq token "]") && negb (streq token "[") then token else prev)
      end
  end.

Definition look_for_size (f arr_id : list Z) : res (option data_node) :=
  look_for_array_size (S (length f)) f arr_id [].

(** The search in the include files; [hash] is never reset. *)
Fixpoint include_size_loop (cf : config) (fuel : nat) (f arr_id : list Z) (hash : bool) : res (option data_node) :=
  match fuel with
  | O => NoFuel
  | S fuel =>
      '(token, f) ← next_tok f;
      match token with
      | None => Ret None
      | Some token =>
          if bool_decide (head token = Some ("#"%cc)) then include_size_loop cf fuel f arr_id true
          else if negb hash then include_size_loop cf fuel f arr_id hash
          else if streq token "include" then
            '(inc, f) ← open_include cf f;
            size ← match inc with Some inc => look_for_size inc arr_id | None => Ret None end;
            match size with
            | Some n => Ret (Some n)
            | None => include_size_loop cf fuel f arr_id hash
            end
          else include_size_loop cf fuel f arr_id hash
      end
  end.

(** [all] is the file from its start.  The third result is the rest of the
    file: after the search it is where it was. *)
Definition parse_array_size (cf : config) (all f : list Z) : res (Z * option data_node * list Z) :=
  '(token, f) ← next_tok f;
  match token with
  | None => Ret (1, None, f)
  | Some token =>
      if negb (streq token "(") then Ret (1, None, f) else
      '(token, f) ← next_tok f;
      match token with
      | None => Ret (1, None, f)
      | Some arr_id =>
          size ← look_for_size all arr_id;
          match size with
          | Some n => Ret (0, Some n, f)
          | None => size ← include_size_loop cf (S (length all)) all arr_id false; Ret (0, size, f)
          end
      end
  end.

(** ** The test structure *)

(** The loop of [parse_test_struct].  The states are those of the code: 0 a
    name, 1 an equals sign, 2 a value, 3 a cast before it, 4 the rest up to a
    comma.  The name is null only in state 0. *)
Fixpoint test_struct_loop (cf : config) (m : macros) (fuel : nat) (all f : list Z) (state : Z)
    (id : option (list Z)) (doc node : data_node) : res (Z * list Z * data_node * data_node) :=
  match fuel with
  | O => NoFuel
  | S fuel =>
      '(token, f, doc') ← next_token f (Some doc);
      let doc := default doc doc' in
      match token with
      | None => Ret (1, f, doc, node)
      | Some token =>
          let continue f state id node := test_struct_loop cf m fuel all f state id doc node in
          let store ret f :=
            match ret, id with
            | None, _ => continue f state id node
            | Some _, None => UB
            | Some ret, Some key =>
                let key := if bool_decide (head key = Some ("."%cc)) then drop 1 key else key in
                continue f 4 id (snd (data_node_hash_add node key ret))
            end in
          if streq token "}" then Ret (0, f, doc, node)
          else if streq token "#" then f ← remove_to_newline f; continue f state id node
          else if state =? 0 then continue f 1 (Some token) node
          else if state =? 1 then continue f (if streq token "=" then 2 else 1) id node
          else if (state =? 2) && streq token "(" then continue f 3 id node
          else if state =? 3 then continue f (if streq token ")" then 2 else 3) id node
          else if state =? 4 then continue f (if streq token "," then 0 else 4) id node
          else if streq token "{" then
            '(_, ret, f) ← parse_array m f; store (Some ret) f
          else if streq token "ARRAY_SIZE" then
            '(r, ret, f) ← parse_array_size cf all f;
            if negb (r =? 0) then Ret (1, f, doc, node) else store ret f
          else store (Some (DATA_STRING (try_apply_macro m token))) f
      end
  end.

(** The result, the rest of the file, the doc string and the fields. *)
Definition parse_test_struct (cf : config) (m : macros) (all f : list Z) (doc node : data_node) :
    res (Z * list Z * data_node * data_node) :=
  test_struct_loop cf m (S (length f)) all f 0 None doc node.

Definition tokens : list (list Z) := str <$> ["static"%string; "struct"%string; "tst_test"%string; "test"%string; "="%string; "{"%string].

(** The loop of [parse_file]; [state] is how many of [tokens] were just read. *)
Fixpoint parse_file_loop (cf : config) (fuel : nat) (all f : list Z) (state : nat) (found : bool) (m : macros)
    (doc node : data_node) : res (bool * data_node * data_node) :=
  match fuel with
  | O => NoFuel
  | S fuel =>
      '(token, f, doc') ← next_token f (Some doc);
      let doc := default doc doc' in
      match token with
      | None => Ret (found, doc, node)
      | Some token =>
          '(state, f, doc, m) ←
            if (state <? 6)%nat && bool_decide (tokens !! state = Some token) then Ret (S state, f, doc, m) else
            if negb (bool_decide (head token = Some ("#"%cc))) then Ret (0%nat, f, doc, m) else
            '(token, f, doc') ← next_token f (Some doc);
            let doc := default doc doc' in
            '(f, m) ← match token with
                      | Some token =>
                          if streq token "define" then parse_macro f m
                          else if streq token "include" then parse_include_macros cf 3 f m
                          else Ret (f, m)
                      | None => Ret (f, m)
                      end;
            Ret (0%nat, f, doc, m);
          if (state <? 6)%nat then parse_file_loop cf fuel all f state found m doc node else
          '(_, f, doc, node) ← parse_test_struct cf m all f doc node;
          parse_file_loop cf fuel all f state true m doc node
      end
  end.

(** dirname and basename of the C library. *)
Fixpoint strip_slashes (r : list Z) : list Z :=
  match r with c :: r' => if c =? "/"%cc then strip_slashes r' else r | [] => [] end.
Fixpoint span_slash (r : list Z) : list Z * list Z :=
  match r with c :: r' => if c =? "/"%cc then ([], r) else let '(a, b) := span_slash r' in (c :: a, b) | [] => ([], []) end.

Definition dirname (path : list Z) : list Z :=
  match path, strip_slashes (reverse path) with
  | [], _ => str "."
  | _, [] => str "/"
  | _, r => match snd (span_slash r) with
            | [] => str "."
            | r => match strip_slashes r with [] => str "/" | r => reverse r end
            end
  end.

Definition basename (path : list Z) : list Z :=
  match path, strip_slashes (reverse path) with
  | [], _ => str "."
  | _, [] => str "/"
  | _, r => reverse (fst (span_slash r))
  end.

(** The fields of the test structure, [None] if there is neither a structure
    nor a doc string.  The table of macros starts empty. *)
Definition parse_file (incs : list (list Z)) (read : list Z → option (list Z)) (fname : list Z) : res (option data_node) :=
  match read fname with
  | None => Ret None
  | Some f =>
      let cf := Config incs (dirname fname) read in
      '(found, doc, node) ← parse_file_loop cf (S (length f)) f f 0 false (load_internal_macros ∅) data_node_array data_node_hash;
      if (0 <? data_node_array_len doc)%nat then Ret (Some (snd (data_node_hash_add node (str "doc") doc)))
      else if found : bool then Ret (Some node) else Ret None
  end.
End Hash.

(** ** The result *)

Definition lift {A} (o : option A) : res A := match o with Some a => Ret a | None => UB end.

Definition convert_str2int (res : data_node) (id str_val : list Z) : Metaparse.res data_node :=
  let '(val, endptr) := strtol str_val in
  if strtol_erange str_val || negb (bool_decide (endptr = [])) then Exit 1 else
  '(_, res) ← lift (data_node_hash_del res id);
  Ret (snd (data_node_hash_add res id (DATA_INT val))).

(** [tst_test_typemap] has the one entry test_variants, an integer. *)
Definition check_normalize_types (res : data_node) : Metaparse.res data_node :=
  let id := str "test_variants" in
  n ← lift (data_node_hash_get res id);
  match n with
  | None | Some (DATA_INT _) => Ret res
  | Some (DATA_STRING val) => convert_str2int res id val
  | Some _ => Exit 1
  end.

Definition filter_out : list (list Z) :=
  str <$> ["bufs"%string; "cleanup"%string; "mntpoint"%string; "setup"%string; "tcnt"%string; "test"%string; "test_all"%string].

Definition implies : list (list Z * list (list Z)) :=
  (λ e : string * list string, (str e.1, str <$> e.2)) <$>
  [("mount_device"%string, ["format_device"%string; "needs_device"%string; "needs_tmpdir"%string]);
   ("format_device"%string, ["needs_device"%string; "needs_tmpdir"%string]);
   ("all_filesystems"%string, ["needs_device"%string; "needs_tmpdir"%string]);
   ("needs_device"%string, ["needs_tmpdir"%string]);
   ("needs_checkpoints"%string, ["needs_tmpdir"%string]);
   ("resource_files"%string, ["needs_tmpdir"%string])].

Definition strip_name (path : list Z) : list Z :=
  let name := basename path in
  let len := length name in
  if (2 <? len)%nat && bool_decide (drop (len - 2) name = str ".c") then take (len - 2) name else name.

(** A loop that updates the result. *)
Fixpoint update_all {A} (step : A → data_node → res data_node) (l : list A) (node : data_node) : res data_node :=
  match l with [] => Ret node | x :: l => node ← step x node; update_all step l node end.

Definition filter_step (id : list Z) (node : data_node) : res data_node := snd <$> lift (data_node_hash_del node id).

(** The flags that another flag implies are added with the value 1. *)
Definition add_flag (flag : list Z) (node : data_node) : res data_node :=
  n ← lift (data_node_hash_get node flag);
  match n with
  | Some _ => Ret node
  | None => Ret (snd (data_node_hash_add node flag (DATA_STRING (str "1"))))
  end.
Definition implies_step (e : list Z * list (list Z)) (node : data_node) : res data_node :=
  n ← lift (data_node_hash_get node e.1);
  match n with Some _ => update_all add_flag e.2 node | None => Ret node end.

(** What [main] does with the fields, and what it prints. *)
Definition normalize (fname : list Z) (node : data_node) : res data_node :=
  node ← update_all filter_step filter_out node;
  node ← check_normalize_types node;
  node ← update_all implies_step implies node;
  Ret (snd (data_node_hash_add node (str "fname") (DATA_STRING fname))).

(** [main] after its options: the exit status and the output. *)
Definition main (hcap : nat) (char_signed : bool) (incs : list (list Z)) (read : list Z → option (list Z))
    (fname : list Z) : res (Z * list Z) :=
  node ← parse_file hcap incs read fname;
  match node with
  | None => Ret (0, [])
  | Some node =>
      node ← normalize fname node;
      Ret (0, str "  " ++ [cDQ] ++ strip_name fname ++ [cDQ] ++ str ": " ++ data_to_json char_signed node 2)
  end.
