(* ===== verification/MetaparseEnds.v ===== *)
(** * The metadata parser comes to an end

    Every function leaves a suffix of the file it reads, and a shorter one
    where a loop depends on it: the fuel of the model is enough.  The loops of
    the code that do not test for the end of the file end on tidy sources,
    which end in a newline, close their comments and have no long lines. *)

From stdpp Require Import gmap.
From S2P Require Import Prelude DataStorage Metaparse.
Open Scope Z_scope.

(** [r] is a result of the code, with [P] if it is a value; [hang] is whether
    it may be a loop without end. *)
Definition post {A} (hang : Prop) (P : A → Prop) (r : res A) : Prop :=
  match r with Ret a => P a | Hang => hang | NoFuel => False | _ => True end.

Lemma post_bind {A B} hang (P : A → Prop) (Q : B → Prop) (m : res A) (f : A → res B) :
  post hang P m → (∀ a, P a → post hang Q (f a)) → post hang Q (a ← m; f a).
Proof. destruct m; cbn; auto. Qed.

Lemma post_impl {A} hang (P Q : A → Prop) (r : res A) : post hang P r → (∀ a, P a → Q a) → post hang Q r.
Proof. destruct r; cbn; auto. Qed.

#[local] Infix "⊑" := suffix (at level 70).

Lemma suffix_len {A} (a b : list A) : a ⊑ b → (length a ≤ length b)%nat.
Proof. apply suffix_length. Qed.

(** A suffix that is not longer than the tail. *)
Lemma suffix_tl {A} (x : A) a b : a ⊑ b → a ⊑ x :: b.
Proof. apply suffix_cons_r. Qed.

(** [f'] is what is left of [f] after at least one character. *)
Definition shorter (f f' : list Z) : Prop := f' ⊑ f ∧ (length f' < length f)%nat.

Lemma shorter_tl c f : shorter (c :: f) f.
Proof. split; [by apply suffix_tl|cbn; lia]. Qed.

Lemma shorter_cons c f f' : shorter f f' → shorter (c :: f) f'.
Proof. intros [H1 H2]. split; [by apply suffix_tl|cbn; lia]. Qed.

Lemma shorter_l f f' f'' : shorter f f' → f'' ⊑ f' → shorter f f''.
Proof. intros [H1 H2] H3. pose proof (suffix_len _ _ H3). split; [by etransitivity|lia]. Qed.

Lemma shorter_r f f' f'' : f' ⊑ f → shorter f' f'' → shorter f f''.
Proof. intros H1 [H2 H3]. pose proof (suffix_len _ _ H1). split; [by etransitivity|lia]. Qed.

(** ** Tidy sources *)

Definition has_end (f : list Z) : Prop := ∃ x y, f = x ++ str "*/" ++ y.

Record tidy (f : list Z) : Prop := {
  tidy_nul : 0 ∉ f;
  tidy_last : f = [] ∨ last f = Some 10;
  tidy_closed a b : f = a ++ str "/*" ++ b → has_end b;
  tidy_lines a b c : f = a ++ b ++ c → 10 ∉ b → (length b < 4000)%nat
}.

Lemma tidy_suffix f f' : f' ⊑ f → tidy f → tidy f'.
Proof.
  intros [k ->] [H1 H2 H3 H4]. split.
  - by apply not_elem_of_app in H1 as [_ H1].
  - destruct f' as [|c f']; [by left|right]. destruct H2 as [H2|H2]; [by apply app_nil in H2 as [_ ?]|].
    by rewrite last_app_cons in H2.
  - intros a b ->. apply (H3 (k ++ a)). by rewrite <- app_assoc.
  - intros a b c ->. apply (H4 (k ++ a) b c). by rewrite <- app_assoc.
Qed.

Section Tokens.
(** Either nothing is assumed and a function may hang, or files are tidy. *)
Context (hang : Prop) (ok : list Z → Prop).
Context (ok_suffix : ∀ f f', f' ⊑ f → ok f → ok f') (ok_tidy : ∀ f, ok f → hang ∨ tidy f).

Lemma newline_ends f : hang ∨ 10 ∈ f → post hang (shorter f) (remove_to_newline f).
Proof.
  induction f as [|c f IH]; intros H; cbn; [destruct H as [H|H]; [done|by apply not_elem_of_nil in H]|].
  destruct (Z.eqb_spec c 10); [by apply shorter_tl|].
  eapply post_impl; [apply IH|intros f'; apply shorter_cons].
  destruct H as [H|H]; [by left|right]. apply elem_of_cons in H as [H|H]; [congruence|done].
Qed.

(** ** Comments *)

(** The buffer with [n] characters has room for the line. *)
Definition fits (n : nat) (f : list Z) : Prop := ∀ b c, f = b ++ c → 10 ∉ b → (n + length b + 1 < BUF)%nat.
Definition lines (f : list Z) : Prop := ∀ a b c, f = a ++ b ++ c → 10 ∉ b → (length b < 4000)%nat.

Lemma lines_cons c f : lines (c :: f) → lines f.
Proof. intros H a b r ->. by apply (H (c :: a) b r). Qed.

Lemma lines_fits f : lines f → fits 0 f.
Proof. intros H b c E Hb. specialize (H [] b c E Hb). unfold BUF. lia. Qed.

Lemma fits_cons n c f : fits n (c :: f) → c ≠ 10 → fits (S n) f.
Proof.
  intros H Hc b r -> Hb. specialize (H (c :: b) r eq_refl). cbn in H. rewrite not_elem_of_cons in H.
  specialize (H (conj (not_eq_sym Hc) Hb)). lia.
Qed.

(** The end of the comment is ahead, or half of it was just read. *)
Definition ahead (state : bool) (f : list Z) : Prop := has_end f ∨ (state = true ∧ head f = Some ("/"%cc)).

Lemma ahead_cons state c f : ahead state (c :: f) → (state = true ∧ c = "/"%cc) ∨ ahead (c =? "*"%cc) f.
Proof.
  intros [([|x0 x] & y & E)|[-> [= ->]]]; [| |by left].
  - injection E as -> ->. right. right. done.
  - injection E as _ ->. right. left. by exists x, y.
Qed.

Lemma ahead_end f : ahead false f → has_end f.
Proof. by intros [H|[? _]]. Qed.

Lemma has_end_cons c f : has_end (c :: f) → c ≠ "*"%cc → has_end f.
Proof. intros ([|x0 x] & y & E) Hc; [by injection E as -> _|]. injection E as _ ->. by exists x, y. Qed.

Lemma ahead_any s f : has_end f → ahead s f.
Proof. by left. Qed.

Lemma multiline_ends f doc buf state :
  hang ∨ (ahead state f ∧ (doc = None ∨ (fits (length buf) f ∧ lines f))) →
  post hang (λ r, shorter f r.1) (multiline_comment_loop f doc buf state).
Proof.
  revert doc buf state. induction f as [|c f IH]; intros doc buf state H; cbn [multiline_comment_loop].
  { destruct H as [H|[[(x & y & E)|[_ E]] _]]; [done|by destruct x|done]. }
  assert (∀ doc buf state, hang ∨ (ahead state f ∧ (doc = None ∨ (fits (length buf) f ∧ lines f))) →
    post hang (λ r, shorter (c :: f) r.1) (multiline_comment_loop f doc buf state)) as Hrec.
  { intros doc' buf' state' H'. eapply post_impl; [by apply IH|]. intros r. apply shorter_cons. }
  assert (∀ buf', (hang ∨ (ahead state (c :: f) ∧ (doc = None ∨ (fits (length buf') f ∧ lines f)))) →
    post hang (λ r, shorter (c :: f) r.1)
      (if state then if c =? "/"%cc then Ret (f, doc) else
         if c =? "*"%cc then multiline_comment_loop f doc buf' true else multiline_comment_loop f doc buf' false
       else multiline_comment_loop f doc buf' (c =? "*"%cc))) as Hnext.
  { intros buf' H'. assert (hang ∨ (state = true ∧ c = "/"%cc) ∨
      (ahead (c =? "*"%cc) f ∧ (doc = None ∨ (fits (length buf') f ∧ lines f)))) as [Hh|[[-> ->]|H'']].
    { destruct H' as [H'|[H1 H2]]; [by left|right]. apply ahead_cons in H1 as [H1|H1]; [by left|by right]. }
    - destruct state; [|by apply Hrec; left]. destruct (c =? "/"%cc); [by apply shorter_tl|]. by destruct (c =? "*"%cc); apply Hrec; left.
    - by apply shorter_tl.
    - destruct state; [|by apply Hrec; right]. destruct (c =? "/"%cc); [by apply shorter_tl|]. by destruct (c =? "*"%cc); apply Hrec; right. }
  destruct doc as [d|]; [|by apply Hnext; destruct H as [H|[H1 _]]; [left|right; split; [|left]]].
  destruct (Z.eqb_spec c 10) as [->|Hc].
  - apply Hrec. destruct H as [H|[H1 [H2|[_ H2]]]]; [by left|done|]. right. split.
    + apply ahead_cons in H1 as [[_ H1]|H1]; [done|]. by apply ahead_any, ahead_end.
    + right. apply lines_cons in H2. split; [by apply lines_fits|done].
  - destruct (Nat.leb_spec BUF (length buf + 1)) as [Hl|Hl].
    + apply Hrec. destruct H as [H|[_ [H2|[H2 _]]]]; [by left|done|]. specialize (H2 [] (c :: f) eq_refl (not_elem_of_nil _)). cbn in H2. lia.
    + apply Hnext. destruct H as [H|[H1 [H2|[H2 H3]]]]; [by left|done|]. right. split; [done|]. right.
      rewrite length_app, Nat.add_comm. split; [by apply (fits_cons _ c)|by eapply lines_cons].
Qed.
Lemma multiline_call f doc :
  hang ∨ (has_end f ∧ lines f) → post hang (λ r, shorter f r.1) (multiline_comment f doc).
Proof.
  intros H. apply multiline_ends. destruct H as [H|[H1 H2]]; [by left|right]. split; [by left|right].
  split; [by apply lines_fits|done].
Qed.

Lemma maybe_doc_ends prefix f doc :
  "*"%cc ∉ prefix → hang ∨ (has_end f ∧ lines f) →
  post hang (λ r, r.1 ⊑ f) (maybe_doc_comment_loop prefix f doc).
Proof.
  revert f. induction prefix as [|p prefix IH]; intros f Hp H; cbn [maybe_doc_comment_loop].
  { eapply post_impl; [by apply multiline_call|]. by intros r [? _]. }
  apply not_elem_of_cons in Hp as [Hp Hprefix].
  destruct f as [|c f]; [by destruct H as [H|[(x & y & E) _]]; [|destruct x]|].
  assert (c ≠ "*"%cc → hang ∨ (has_end f ∧ lines f)) as Hf.
  { intros Hc. destruct H as [H|[H1 H2]]; [by left|right]. split; [by eapply has_end_cons|by eapply lines_cons]. }
  destruct (Z.eqb_spec c p) as [->|Hne].
  { eapply post_impl; [apply IH; [done|by apply Hf, not_eq_sym]|]. intros r. apply suffix_tl. }
  assert (hang ∨ (has_end (if c =? "*"%cc then c :: f else f) ∧ lines (if c =? "*"%cc then c :: f else f))) as H'.
  { destruct (Z.eqb_spec c ("*"%cc)) as [->|Hc]; [done|by apply Hf]. }
  eapply post_bind; [by apply multiline_call|]. intros [f' d] [Hs _]. cbn in *. etransitivity; [exact Hs|].
  destruct (c =? "*"%cc); [done|by apply suffix_tl].
Qed.

Lemma ok_lines f : ok f → hang ∨ lines f.
Proof. intros H. destruct (ok_tidy f H) as [H'|H']; [by left|right]. intros a b c. by apply tidy_lines. Qed.

(** A tidy file does not end before the last newline. *)
Lemma tidy_newline c f : tidy (c :: f) → c ≠ 10 → 10 ∈ f.
Proof.
  intros H Hc. destruct (tidy_last _ H) as [?|Hl]; [done|]. destruct f as [|c' f]; [by injection Hl as ->|].
  apply last_Some_elem_of. by rewrite last_cons_cons in Hl.
Qed.

Lemma maybe_comment_ends f doc :
  ok ("/"%cc :: f) → post hang (λ r, r.1 ⊑ f) (maybe_comment f doc).
Proof.
  intros H. pose proof (ok_tidy _ H) as Ht. destruct f as [|c f]; cbn [maybe_comment]; [cbn; reflexivity|].
  destruct (Z.eqb_spec c ("/"%cc)) as [->|H1]; [|destruct (Z.eqb_spec c ("*"%cc)) as [->|H2]].
  - eapply post_bind; [apply newline_ends|intros f' [Hs _]; by apply suffix_tl].
    destruct Ht as [Ht|Ht]; [by left|right]. apply (tidy_newline ("/"%cc)); [|done]. eapply tidy_suffix; [by apply suffix_tl|done].
  - eapply post_impl; [apply maybe_doc_ends|intros r; apply suffix_tl].
    + apply (bool_decide_unpack _). by vm_compute.
    + destruct Ht as [Ht|Ht]; [by left|right]. split; [by apply (tidy_closed _ Ht [])|].
      intros a b r ->. apply (tidy_lines _ Ht (str "/*" ++ a) b r). by rewrite <- app_assoc.
  - cbn. reflexivity.
Qed.

(** ** Tokens *)

Lemma token_exit_post (P : option (list Z) * list Z * option data_node → Prop) n buf in_str f doc :
  (∀ t, (buf = [] → in_str = false → t = None) → P (t, f, doc)) → post hang P (token_exit n buf in_str f doc).
Proof.
  intros H. unfold token_exit. destruct buf; [destruct in_str; [|by apply H]|]; (case_match; [|done]); by apply H.
Qed.

Lemma token_loop_ends fuel f n buf in_str doc :
  ok f → (length f < fuel)%nat →
  post hang (λ r, r.1.2 ⊑ f ∧ (buf = [] → in_str = false → r.1.1 = None ∨ shorter f r.1.2))
    (next_token2_loop fuel f n buf in_str doc).
Proof.
  revert f buf in_str doc. induction fuel as [|fuel IH]; intros f buf in_str doc Hok Hf; [lia|]. cbn [next_token2_loop].
  destruct f as [|c f]; [apply token_exit_post; intros t Ht; split; [done|by left; apply Ht]|]. cbn [length] in Hf.
  assert (∀ f' buf' in_str' doc', f' ⊑ f → post hang (λ r, r.1.2 ⊑ c :: f ∧
    (buf = [] → in_str = false → r.1.1 = None ∨ shorter (c :: f) r.1.2)) (next_token2_loop fuel f' n buf' in_str' doc')) as Hrec.
  { intros f' buf' in_str' doc' Hs. eapply post_impl; [apply IH|].
    - eapply ok_suffix; [|exact Hok]. by apply suffix_tl.
    - apply suffix_len in Hs. lia.
    - intros [[t f''] d] [H1 _]. cbn in *. assert (shorter (c :: f) f'') as H.
      { eapply shorter_l; [apply shorter_tl|]. by etransitivity. } split; [apply H|by right]. }
  assert (∀ buf' in_str', post hang (λ r, r.1.2 ⊑ c :: f ∧
    (buf = [] → in_str = false → r.1.1 = None ∨ shorter (c :: f) r.1.2)) (token_exit n buf' in_str' f doc)) as Hexit.
  { intros buf' in_str'. apply token_exit_post. intros t _. split; [by apply suffix_tl|]. right. apply shorter_tl. }
  destruct in_str; [case_match; [apply Hexit|by apply Hrec]|].
  destruct (is_punct c); [destruct buf; [apply Hexit|apply token_exit_post; by intros t _]|].
  destruct (is_word c); [by case_match; [apply Hrec|]|].
  destruct (Z.eqb_spec c ("/"%cc)) as [->|]; [|destruct (c =? cDQ); [by apply Hrec|destruct (is_blank c); [destruct buf; [by apply Hrec|apply Hexit]|by apply Hrec]]].
  eapply post_bind; [by apply maybe_comment_ends|]. intros [f' d] Hs. by apply Hrec.
Qed.

Lemma next_token2_ends f n doc :
  ok f → post hang (λ r, r.1.2 ⊑ f ∧ (r.1.1 = None ∨ shorter f r.1.2)) (next_token2 f n doc).
Proof.
  intros Hok. eapply post_impl; [apply token_loop_ends; [done|lia]|]. intros r [H1 H2]. split; [done|by apply H2].
Qed.
End Tokens.

(** After a hash a tidy file has a newline. *)
Definition token_inv (f : list Z) (n : nat) (buf : list Z) (in_str : bool) : Prop :=
  (0 ∉ buf) ∧ (if in_str then f = [] → 10 ∈ buf ∨ (2 ≤ length buf)%nat else Forall (λ c, is_word c = true) buf).

Lemma token_exit_hash n buf in_str f doc f' doc' :
  token_exit n buf in_str f doc = Ret (Some (str "#"), f', doc') → 0 ∉ buf → buf = str "#" ∧ f' = f.
Proof.
  intros H H0. unfold token_exit in H. rewrite c_str_clean in H by done.
  destruct buf as [|b buf]; [destruct in_str|]; repeat case_match; by simplify_eq/=.
Qed.

Lemma word_not_hash buf : Forall (λ c, is_word c = true) buf → buf ≠ str "#".
Proof. intros H ->. apply Forall_cons in H as [H _]. by vm_compute in H. Qed.

Lemma tidy_cons c f : tidy (c :: f) → tidy f ∧ c ≠ 0 ∧ (f = [] → c = 10).
Proof.
  intros H. split_and!.
  - eapply tidy_suffix; [by apply suffix_tl|done].
  - intros ->. apply (tidy_nul _ H). by left.
  - intros ->. destruct (tidy_last _ H) as [?|E]; [done|]. by injection E.
Qed.

Lemma token_loop_hash fuel f n buf in_str doc f' doc' :
  tidy f → (3 ≤ n)%nat → token_inv f n buf in_str →
  next_token2_loop fuel f n buf in_str doc = Ret (Some (str "#"), f', doc') → 10 ∈ f'.
Proof.
  revert f buf in_str doc. induction fuel as [|fuel IH]; intros f buf in_str doc Ht Hn [H0 Hi] E; [done|].
  cbn [next_token2_loop] in E. destruct f as [|c f].
  { apply token_exit_hash in E as [-> ->]; [|done]. destruct in_str; [|by apply word_not_hash in Hi].
    destruct (Hi eq_refl) as [H|H]; [by apply list_elem_of_singleton in H|cbn in H; lia]. }
  destruct (tidy_cons c f Ht) as (Htf & Hc0 & Hlast).
  assert (c ≠ 10 → 10 ∈ f) as Hrest by (intros Hc; by eapply tidy_newline).
  assert (∀ x buf, 0 ∉ buf → x ≠ 0 → 0 ∉ buf ++ [x]) as Happ.
  { intros x b Hb Hx. rewrite not_elem_of_app, not_elem_of_cons. split_and!; [done|done|apply not_elem_of_nil]. }
  destruct in_str.
  { destruct (Z.eqb_spec c cDQ) as [->|Hdq]; [destruct (bool_decide _); cbn [negb andb] in E|cbn [andb] in E].
    - eapply IH; [done|done| |exact E]. split; [case_match; by auto|]. intros ->. by specialize (Hlast eq_refl).
    - apply token_exit_hash in E as [_ ->]; [|done]. by apply Hrest.
    - eapply IH; [done|done| |exact E]. split; [case_match; by auto|]. intros ->. specialize (Hlast eq_refl). subst c.
      destruct (Nat.ltb_spec (length buf) (n - 1)); [left; apply elem_of_app; right; by left|right; lia]. }
  destruct (is_punct c) eqn:Ep.
  { destruct buf as [|b buf]; apply token_exit_hash in E as [Eb ->]; [|by apply not_elem_of_cons; split; [|apply not_elem_of_nil]| |done].
    - apply Hrest. intros ->. by vm_compute in Ep.
    - rewrite Eb in Hi. by apply word_not_hash in Hi. }
  destruct (is_word c) eqn:Ew.
  { destruct (Nat.ltb_spec (length buf) n); [|done]. eapply IH; [done|done| |exact E]. split; [by auto|].
    apply Forall_app. by split; [|constructor]. }
  destruct (Z.eqb_spec c ("/"%cc)) as [->|].
  { pose proof (maybe_comment_ends False tidy (λ f H, or_intror H) f doc Ht) as Hm.
    destruct (maybe_comment f doc) as [[f1 d1]| | | |]; try done. cbn in Hm, E.
    eapply IH; [by eapply tidy_suffix|done| |exact E]. by split. }
  destruct (Z.eqb_spec c cDQ) as [->|].
  { eapply IH; [done|done| |exact E]. split; [done|]. intros ->. by specialize (Hlast eq_refl). }
  destruct (is_blank c).
  - destruct buf as [|b buf]; [eapply IH; [done|done| |exact E]; by split|].
    apply token_exit_hash in E as [Eb _]; [|done]. rewrite Eb in Hi. by apply word_not_hash in Hi.
  - eapply IH; [done|done| |exact E]. by split.
Qed.

(** ** The parser *)

Section Parser.
Context (hang : Prop) (ok : list Z → Prop).
Context (ok_suffix : ∀ f f', f' ⊑ f → ok f → ok f') (ok_tidy : ∀ f, ok f → hang ∨ tidy f).

(** A bind on the next token: at the end of the file nothing is left to show
    but the rest, otherwise the rest is shorter. *)
Lemma token_bind {B} (Q : B → Prop) f n doc (k : option (list Z) * list Z * option data_node → res B) :
  ok f → (∀ f' d, f' ⊑ f → ok f' → post hang Q (k (None, f', d))) →
  (∀ t f' d, shorter f f' → ok f' → (t = str "#" → (3 ≤ n)%nat → hang ∨ 10 ∈ f') → post hang Q (k (Some t, f', d))) →
  post hang Q (r ← next_token2 f n doc; k r).
Proof.
  intros Hok H1 H2. pose proof (next_token2_ends hang ok ok_suffix ok_tidy f n doc Hok) as H.
  destruct (next_token2 f n doc) as [[[t f'] d]| | | |] eqn:E; try done. destruct H as [Hs Ht]. cbn in Hs, Ht.
  assert (ok f') as Hok' by (by eapply ok_suffix). rewrite rbind_Ret.
  destruct t as [t|]; [|by apply H1]. destruct Ht as [Ht|Ht]; [done|]. apply H2; [done|done|].
  intros -> Hn. destruct (ok_tidy f Hok) as [Hh|Htidy]; [by left|right].
  eapply token_loop_hash; [exact Htidy|done| |exact E]. split; [apply not_elem_of_nil|constructor].
Qed.

Lemma tok_bind {B} (Q : B → Prop) f (k : option (list Z) * list Z → res B) :
  ok f → (∀ f', f' ⊑ f → ok f' → post hang Q (k (None, f'))) →
  (∀ t f', shorter f f' → ok f' → post hang Q (k (Some t, f'))) →
  post hang Q (r ← next_tok f; k r).
Proof.
  intros Hok H1 H2. unfold next_tok, next_token.
  assert (∀ m : res (option (list Z) * list Z * option data_node),
    post hang Q ('(t, f, _) ← m; k (t, f)) → post hang Q (r ← ('(t, f, _) ← m; Ret (t, f)); k r)) as Ha.
  { intros [[[t f'] d]| | | |]; by cbn. }
  apply Ha, token_bind; [done|by intros; apply H1|by intros; apply H2].
Qed.

Lemma skip_nested_ends fuel f level :
  ok f → (length f < fuel)%nat →
  post hang (λ r, ∀ f', r = Some f' → f' ⊑ f) (skip_nested fuel f level).
Proof.
  revert f level. induction fuel as [|fuel IH]; intros f level Hok Hf; [lia|]. cbn [skip_nested].
  apply tok_bind; [done|done|]. intros t f' Hs Hok'. pose proof Hs as [Hs1 Hs2].
  case_match; [by intros ? [= <-]|]. eapply post_impl; [apply IH; [done|lia]|]. intros r Hr f'' ->. etransitivity; [by apply Hr|done].
Qed.

Lemma array_is_hash_ends fuel f seen comma in_id :
  ok f → (length f < fuel)%nat → post hang (λ _, True) (array_is_hash_loop fuel f seen comma in_id).
Proof.
  revert f seen comma in_id. induction fuel as [|fuel IH]; intros f seen comma in_id Hok Hf; [lia|]. cbn [array_is_hash_loop].
  apply tok_bind; [done|done|]. intros t f' [Hs1 Hs2] Hok'.
  repeat case_match; try done; try (apply IH; [done|lia]).
  eapply post_bind; [by apply skip_nested_ends; [|lia]|]. intros [f''|] H'; [|done].
  specialize (H' f'' eq_refl). apply IH; [by eapply ok_suffix|]. apply suffix_len in H'. lia.
Qed.

Lemma hash_add_id_post node id off payload : post hang (λ _, True) (hash_add_id node id off payload).
Proof. unfold hash_add_id. by repeat case_match. Qed.

Lemma finalize_post val id node : post hang (λ _, True) (finalize_array_entry val id node).
Proof.
  unfold finalize_array_entry. destruct val; [|done]. eapply (post_bind _ (λ _, True)); [|done].
  destruct id; [apply hash_add_id_post|done].
Qed.

Lemma parse_array_loop_ends m fuel f is_hash val id cnt ret :
  ok f → (length f < fuel)%nat →
  post hang (λ r, r.2 ⊑ f) (parse_array_loop m fuel f is_hash val id cnt ret).
Proof.
  revert f is_hash val id cnt ret. induction fuel as [|fuel IH]; intros f is_hash val id cnt ret Hok Hf; [lia|].
  cbn [parse_array_loop]. apply tok_bind; [done|done|]. intros t f' [Hs1 Hs2] Hok'.
  assert (∀ f'' is_hash val id cnt ret, f'' ⊑ f' →
    post hang (λ r, r.2 ⊑ f) (parse_array_loop m fuel f'' is_hash val id cnt ret)) as Hrec.
  { intros f'' is_hash' val' id' cnt' ret' Hs. eapply post_impl; [apply IH|].
    - by eapply ok_suffix.
    - apply suffix_len in Hs. lia.
    - intros r Hr. etransitivity; [exact Hr|]. by etransitivity. }
  case_match.
  { eapply post_bind; [by apply array_is_hash_ends; [|lia]|]. intros sub _. eapply post_bind; [apply IH; [done|lia]|].
    intros [[r node] f''] Hs. cbn in Hs. eapply (post_bind _ (λ _, True)); [|intros; by apply Hrec].
    case_match; [done|]. case_match; [apply hash_add_id_post|done]. }
  case_match; [eapply post_bind; [apply finalize_post|]; by intros [[? ?] ?] _|].
  case_match; [by apply Hrec|]. case_match; [eapply post_bind; [apply finalize_post|]; intros [[? ?] ?] _; by apply Hrec|].
  case_match; [|by apply Hrec]. eapply (post_bind _ (λ _, True)); [|intros; by apply Hrec].
  case_match; [apply hash_add_id_post|done].
Qed.

Lemma parse_array_ends m f : ok f → post hang (λ r, r.2 ⊑ f) (parse_array m f).
Proof.
  intros Hok. eapply post_bind; [by apply array_is_hash_ends; [|lia]|]. intros is_hash _.
  apply parse_array_loop_ends; [done|lia].
Qed.

Lemma array_len_ends fuel f cnt depth comma :
  ok f → (length f < fuel)%nat → post hang (λ _, True) (get_array_len_loop fuel f cnt depth comma).
Proof.
  revert f cnt depth comma. induction fuel as [|fuel IH]; intros f cnt depth comma Hok Hf; [lia|]. cbn [get_array_len_loop].
  apply tok_bind; [done|done|]. intros t f' [Hs1 Hs2] Hok'.
  destruct (if streq t "}" then _ else _). destruct (if streq t "," && _ then _ else _). case_match; [done|]. apply IH; [done|lia].
Qed.

Lemma get_array_len_ends f : ok f → post hang (λ _, True) (parse_get_array_len f).
Proof.
  intros Hok. unfold parse_get_array_len. apply tok_bind; [done|done|]. intros t f' _ Hok'.
  case_match; [|done]. apply array_len_ends; [done|lia].
Qed.

Lemma look_for_ends fuel f arr_id prev :
  ok f → (length f < fuel)%nat → post hang (λ _, True) (look_for_array_size fuel f arr_id prev).
Proof.
  revert f prev. induction fuel as [|fuel IH]; intros f prev Hok Hf; [lia|]. cbn [look_for_array_size].
  apply token_bind; [done|done|]. intros t f' d [Hs1 Hs2] Hok' _. case_match; [|apply IH; [done|lia]].
  eapply post_bind; [by apply get_array_len_ends|]. by intros [??] _.
Qed.

(** ** Words, includes and macros *)

Lemma skip_spaces_suffix f : skip_spaces f ⊑ f.
Proof. induction f as [|c f IH]; cbn; [reflexivity|]. destruct (isspace c); [by apply suffix_tl|reflexivity]. Qed.

Lemma span_word_suffix f : snd (span_word f) ⊑ f.
Proof.
  induction f as [|c f IH]; cbn; [reflexivity|]. destruct (isspace c); [reflexivity|].
  destruct (span_word f). by apply suffix_tl.
Qed.

Lemma fscanf_ends n f : post hang (λ r, r.2 ⊑ f) (fscanf_s n f).
Proof.
  unfold fscanf_s. pose proof (skip_spaces_suffix f) as H. destruct (skip_spaces f) as [|c f'] eqn:E; [cbn; apply suffix_nil|].
  pose proof (span_word_suffix (c :: f')) as H'. destruct (span_word (c :: f')) as [w r]. case_match; [|done].
  cbn in *. by etransitivity.
Qed.

Lemma suffix_drop1 (f : list Z) : drop 1 f ⊑ f.
Proof. destruct f; [reflexivity|by apply suffix_tl]. Qed.

Lemma get_string_suffix f buf room : snd (macro_get_string f buf room) ⊑ f.
Proof.
  revert buf. induction f as [|c f IH]; intros buf; cbn [macro_get_string]; [reflexivity|].
  repeat case_match; by apply suffix_tl.
Qed.

Lemma get_val_loop_ends f prev buf room : post hang (λ r, r.2 ⊑ f) (macro_get_val_loop f prev buf room).
Proof.
  revert prev buf. induction f as [|c f IH]; intros prev buf; cbn [macro_get_val_loop]; [cbn; reflexivity|].
  assert (∀ prev buf, post hang (λ r, r.2 ⊑ c :: f) (macro_get_val_loop f prev buf room)) as Hrec.
  { intros prev' buf'. eapply post_impl; [apply IH|]. intros r. apply suffix_tl. }
  repeat case_match; try done; cbn; by apply suffix_tl.
Qed.

Lemma parse_macro_ends hcap f m : post hang (λ r, r.1 ⊑ f) (parse_macro hcap f m).
Proof.
  unfold parse_macro. eapply post_bind; [apply fscanf_ends|]. intros [w f1] Hs. cbn in Hs.
  destruct w as [name|]; [|done]. pose proof (suffix_drop1 f1) as Hd.
  case_match; [cbn; by etransitivity|]. apply (post_bind _ (λ r, r.2 ⊑ f)).
  - unfold macro_get_val. pose proof (skip_spaces_suffix (drop 1 f1)) as Hsk.
    destruct (skip_spaces (drop 1 f1)) as [|c g]; [cbn; apply suffix_nil|].
    assert (c :: g ⊑ f) as Hg by (do 2 (etransitivity; [eassumption|]); done).
    case_match; [|eapply post_impl; [apply get_val_loop_ends|intros r Hr; etransitivity; [exact Hr|exact Hg]]].
    cbn. etransitivity; [apply get_string_suffix|]. etransitivity; [by apply suffix_tl|exact Hg].
  - intros [val f2] Hs2. by case_match.
Qed.

Section Files.
Context (cf : config) (read_ok : ∀ path f, read cf path = Some f → ok f).

Lemma open_first_ok dirs fname g : open_first cf dirs fname = Some g → ok g.
Proof.
  induction dirs as [|d dirs IH]; cbn; [done|]. unfold open_file. destruct (read cf _) as [h|] eqn:E; [|done].
  intros [= <-]. by eapply read_ok.
Qed.

Lemma open_include_ends f :
  post hang (λ r, (∀ g, r.1 = Some g → ok g) ∧ r.2 ⊑ f) (open_include cf f).
Proof.
  unfold open_include. eapply post_bind; [apply fscanf_ends|]. intros [w f1] Hs. cbn in Hs.
  destruct w as [buf|]; [|done].
  assert (skip_spaces f1 ⊑ f) as Hs' by (etransitivity; [apply skip_spaces_suffix|done]).
  repeat case_match; try done. split; [|done]. intros g. apply open_first_ok.
Qed.

Lemma look_for_size_ends f arr_id : ok f → post hang (λ _, True) (look_for_size f arr_id).
Proof. intros Hok. apply look_for_ends; [done|lia]. Qed.

Lemma include_size_ends fuel f arr_id hash :
  ok f → (length f < fuel)%nat → post hang (λ _, True) (include_size_loop cf fuel f arr_id hash).
Proof.
  revert f hash. induction fuel as [|fuel IH]; intros f hash Hok Hf; [lia|]. cbn [include_size_loop].
  apply tok_bind; [done|done|]. intros t f' [Hs1 Hs2] Hok'.
  case_match; [apply IH; [done|lia]|]. case_match; [apply IH; [done|lia]|]. case_match; [|apply IH; [done|lia]].
  eapply post_bind; [apply open_include_ends|]. intros [inc f2] [Hinc Hs3]. cbn in Hinc, Hs3.
  eapply (post_bind _ (λ _, True)); [destruct inc as [g|]; [by apply look_for_size_ends, Hinc|done]|].
  intros [n|] _; [done|]. apply IH; [by eapply ok_suffix|]. apply suffix_len in Hs3. lia.
Qed.

Lemma array_size_ends all f : ok all → ok f → post hang (λ r, r.2 ⊑ f) (parse_array_size cf all f).
Proof.
  intros Hall Hok. unfold parse_array_size. apply tok_bind; [done|done|]. intros t f' [Hs1 _] Hok'.
  case_match; [done|]. apply tok_bind; [done|intros f2 Hs2 _; cbn; by etransitivity|]. intros t2 f2 [Hs2 _] _.
  eapply post_bind; [by apply look_for_size_ends|]. intros [n|] _; [cbn; by etransitivity|].
  eapply post_bind; [apply include_size_ends; [done|lia]|]. intros n _. cbn. by etransitivity.
Qed.

Lemma include_loop_ends hcap nested fuel inc hash m :
  (∀ f m, ok f → post hang (λ r, r.1 ⊑ f) (nested f m)) → ok inc → (length inc < fuel)%nat →
  post hang (λ _, True) (include_loop hcap cf nested fuel inc hash m).
Proof.
  intros Hn. revert inc hash m. induction fuel as [|fuel IH]; intros inc hash m Hok Hf; [lia|]. cbn [include_loop].
  apply tok_bind; [done|done|]. intros t f' [Hs1 Hs2] Hok'.
  assert (∀ r : list Z * macros, r.1 ⊑ f' → post hang (λ _, True) (let '(inc, m) := r in include_loop hcap cf nested fuel inc false m)) as Hrec.
  { intros [g m'] Hg. cbn in Hg. apply IH; [by eapply ok_suffix|]. apply suffix_len in Hg. lia. }
  case_match; [apply IH; [done|lia]|]. case_match; [apply IH; [done|lia]|].
  case_match; [eapply post_bind; [apply parse_macro_ends|exact Hrec]|].
  case_match; [eapply post_bind; [by apply Hn|exact Hrec]|]. apply IH; [done|lia].
Qed.

Lemma parse_include_ends hcap levels f m : post hang (λ r, r.1 ⊑ f) (parse_include_macros hcap cf levels f m).
Proof.
  revert f m. induction levels as [|levels IH]; intros f m; cbn [parse_include_macros]; [cbn; reflexivity|].
  eapply post_bind; [apply open_include_ends|]. intros [inc f'] [Hinc Hs]. cbn in Hinc, Hs. destruct inc as [g|]; [|done].
  eapply post_bind; [apply include_loop_ends; [by intros|by apply Hinc|lia]|]. done.
Qed.

Lemma test_struct_ends m fuel all f state id doc node :
  ok all → ok f → (length f < fuel)%nat →
  post hang (λ r, r.1.1.2 ⊑ f) (test_struct_loop cf m fuel all f state id doc node).
Proof.
  intros Hall. revert f state id doc node. induction fuel as [|fuel IH]; intros f state id doc node Hok Hf; [lia|].
  cbn [test_struct_loop]. unfold next_token. apply token_bind; [done|done|]. intros t f' d [Hs1 Hs2] Hok' Hhash.
  assert (∀ f'' state id doc node, f'' ⊑ f' → post hang (λ r, r.1.1.2 ⊑ f) (test_struct_loop cf m fuel all f'' state id doc node)) as Hrec.
  { intros f'' state' id' doc' node' Hs. eapply post_impl; [apply IH|].
    - by eapply ok_suffix.
    - apply suffix_len in Hs. lia.
    - intros r Hr. etransitivity; [exact Hr|]. by etransitivity. }
  cbv zeta. case_match; [done|].
  destruct (streq t "#") eqn:Eh.
  { eapply post_bind; [apply newline_ends|intros g [Hg _]; by apply Hrec].
    apply bool_decide_eq_true_1 in Eh. apply Hhash; [done|unfold BUF; lia]. }
  do 5 (case_match; [by apply Hrec|]). case_match.
  { eapply post_bind; [by apply parse_array_ends|]. intros [[r n] g] Hg. cbn in Hg. destruct id; [by apply Hrec|done]. }
  case_match; [|destruct id; [by apply Hrec|done]].
  eapply post_bind; [by apply array_size_ends|]. intros [[r n] g] Hg. cbn in Hg.
  case_match; [cbn; by etransitivity|]. destruct n, id; try done; by apply Hrec.
Qed.

Lemma parse_file_loop_ends hcap fuel all f state found m doc node :
  ok all → ok f → (length f < fuel)%nat →
  post hang (λ _, True) (parse_file_loop hcap cf fuel all f state found m doc node).
Proof.
  intros Hall. revert f state found m doc node. induction fuel as [|fuel IH]; intros f state found m doc node Hok Hf; [lia|].
  cbn [parse_file_loop]. unfold next_token at 1. apply token_bind; [done|done|]. intros t f' d [Hs1 Hs2] Hok' _. cbv zeta.
  apply (post_bind _ (λ r, r.1.1.2 ⊑ f')).
  - case_match; [cbn; reflexivity|]. case_match; [cbn; reflexivity|]. unfold next_token. apply token_bind; [done|intros; by cbn|].
    intros t2 f2 d2 [Hs3 _] Hok2 _. cbv zeta. apply (post_bind _ (λ r, r.1 ⊑ f')); [|by intros [f3 m3]].
    case_match; [eapply post_impl; [apply parse_macro_ends|]|case_match; [eapply post_impl; [apply parse_include_ends|]|done]];
      intros r Hr; etransitivity; [exact Hr|exact Hs3|exact Hr|exact Hs3].
  - intros [[[st f2] d2] m2] Hs3. cbn in Hs3.
    assert (∀ f3 st found m doc node, f3 ⊑ f2 → post hang (λ _, True) (parse_file_loop hcap cf fuel all f3 st found m doc node)) as Hrec.
    { intros f3 st' found' m' doc' node' Hs4. apply IH.
      - eapply ok_suffix; [exact Hs4|]. by eapply ok_suffix.
      - apply suffix_len in Hs3. apply suffix_len in Hs4. lia. }
    case_match; [by apply Hrec|]. eapply post_bind; [apply test_struct_ends; [done| |lia]|].
    + by eapply ok_suffix.
    + intros [[[r f3] d3] n3] Hs4. cbn in Hs4. by apply Hrec.
Qed.
End Files.

Lemma parse_file_ends hcap incs read fname :
  (∀ path f, read path = Some f → ok f) → post hang (λ _, True) (parse_file hcap incs read fname).
Proof.
  intros Hread. unfold parse_file. destruct (read fname) as [f|] eqn:E; [|done]. pose proof (Hread _ _ E) as Hok.
  eapply post_bind; [apply parse_file_loop_ends; [by apply Hread|done|done|lia]|]. intros [[found doc] node] _. by repeat case_match.
Qed.
End Parser.

(** ** The rest of the program *)

Lemma lift_post {A} hang (o : option A) : post hang (λ _, True) (lift o).
Proof. by destruct o. Qed.

Lemma update_all_post {A} hang (step : A → data_node → res data_node) l node :
  (∀ x node, post hang (λ _, True) (step x node)) → post hang (λ _, True) (update_all step l node).
Proof. intros H. revert node. induction l as [|x l IH]; intros node; [done|]. cbn. eapply post_bind; [apply H|]. intros; apply IH. Qed.

Lemma normalize_post hang fname node : post hang (λ _, True) (normalize fname node).
Proof.
  unfold normalize. eapply post_bind; [apply update_all_post|].
  { intros x n. unfold filter_step. by destruct (data_node_hash_del n x). }
  intros n1 _. eapply (post_bind _ (λ _, True)).
  { unfold check_normalize_types, convert_str2int. eapply post_bind; [apply lift_post|]. intros [[]|] _; try done.
    destruct (strtol val). case_match; [done|]. eapply post_bind; [apply lift_post|]. by intros [] _. }
  intros n2 _. eapply post_bind; [apply update_all_post|done].
  intros e n. unfold implies_step. eapply post_bind; [apply lift_post|]. intros [] _; [|done]. apply update_all_post.
  intros flag n'. unfold add_flag. eapply post_bind; [apply lift_post|]. by intros [] _.
Qed.

Lemma main_ends hang (ok : list Z → Prop) hcap char_signed incs read fname :
  (∀ f f', f' ⊑ f → ok f → ok f') → (∀ f, ok f → hang ∨ tidy f) → (∀ path f, read path = Some f → ok f) →
  post hang (λ _, True) (main hcap char_signed incs read fname).
Proof.
  intros H1 H2 H3. unfold main. eapply post_bind; [exact (parse_file_ends hang ok H1 H2 hcap incs read fname H3)|]. intros [node|] _; [|done].
  eapply post_bind; [apply normalize_post|]. done.
Qed.

(** ** Deciding that a source is tidy *)

Fixpoint has_endb (f : list Z) : bool :=
  match f with
  | c :: f' => ((c =? "*"%cc) && bool_decide (head f' = Some ("/"%cc))) || has_endb f'
  | [] => false
  end.

Fixpoint closedb (f : list Z) : bool :=
  match f with
  | c :: f' => implb ((c =? "/"%cc) && bool_decide (head f' = Some ("*"%cc))) (has_endb (drop 1 f')) && closedb f'
  | [] => true
  end.

(** [n] characters of the line are already read. *)
Fixpoint linesb (n : nat) (f : list Z) : bool :=
  (n <? 4000)%nat && match f with c :: f' => linesb (if c =? 10 then 0 else S n) f' | [] => true end.

Definition tidyb (f : list Z) : bool :=
  negb (bool_decide (0 ∈ f)) && (bool_decide (f = []) || bool_decide (last f = Some 10)) && closedb f && linesb 0 f.

Lemma has_endb_sound f : has_endb f = true → has_end f.
Proof.
  induction f as [|c f IH]; [done|]. cbn. intros [[->%Z.eqb_eq H]%andb_true_iff|H]%orb_true_iff.
  - apply bool_decide_eq_true_1 in H. destruct f as [|c f]; [done|]. injection H as ->. by exists [], f.
  - destruct (IH H) as (x & y & ->). by exists (c :: x), y.
Qed.

Lemma closedb_sound f : closedb f = true → ∀ a b, f = a ++ str "/*" ++ b → has_end b.
Proof.
  induction f as [|c f IH]; intros H a b E; [by destruct a|]. cbn in H. apply andb_true_iff in H as [H1 H2].
  destruct a as [|c' a]; [|injection E as _ E; by apply (IH H2 a)]. injection E as -> ->. cbn in H1. by apply has_endb_sound.
Qed.

Lemma linesb_sound n f : linesb n f = true → ∀ a b c, f = a ++ b ++ c → 10 ∉ b →
  (length b < 4000)%nat ∧ (a = [] → (n + length b < 4000)%nat).
Proof.
  revert n. induction f as [|x f IH]; intros n H a b c E Hb; cbn [linesb] in H; apply andb_true_iff in H as [Hn H]; apply Nat.ltb_lt in Hn.
  { destruct a, b; cbn in *; try done. lia. }
  destruct a as [|y a].
  - destruct b as [|z b]; cbn in *; [lia|]. injection E as <- E. apply not_elem_of_cons in Hb as [Hx Hb].
    rewrite (proj2 (Z.eqb_neq _ _)) in H by congruence. destruct (IH (S n) H [] b c E Hb) as [H1 H2]. specialize (H2 eq_refl). lia.
  - injection E as _ E. destruct (IH _ H a b c E Hb). by split.
Qed.

Lemma tidyb_sound f : tidyb f = true → tidy f.
Proof.
  intros [[[H1 H2]%andb_true_iff H3]%andb_true_iff H4]%andb_true_iff. split.
  - intros H. by rewrite bool_decide_true in H1.
  - apply orb_true_iff in H2 as [H2|H2]; apply bool_decide_eq_true_1 in H2; auto.
  - by apply closedb_sound.
  - intros a b c E Hb. exact (proj1 (linesb_sound 0 f H4 a b c E Hb)).
Qed.

(** C21. metaparse does not loop for ever but in two loops: whatever the files
    hold, every loop of the parser that tests for the end of the file ends (the
    fuel of the model is never used up), so that the program returns, exits
    with a message, comes to an access outside of a buffer that is not defined
    (as for words that are too long), or hangs in one of the loops over
    comments and directives, which do not test for the end of the file.  On
    files that end in a newline, close their comments, have no line of 4000
    characters and no NUL character these two loops end as well. *)
Theorem metaparse_terminates (hcap : nat) (char_signed : bool) (incs : list (list Z))
    (read : list Z → option (list Z)) (fname : list Z) :
  main hcap char_signed incs read fname ≠ NoFuel ∧
  ((∀ path f, read path = Some f → tidy f) → main hcap char_signed incs read fname ≠ Hang).
Proof.
  split.
  - intros E. pose proof (main_ends True (λ _, True) hcap char_signed incs read fname) as H. rewrite E in H. by apply H; auto.
  - intros Ht E. pose proof (main_ends False tidy hcap char_signed incs read fname tidy_suffix) as H. rewrite E in H.
    apply H; auto.
Qed.
