(* ===== verification/MetaparseLex.v ===== *)
(** * The tokens of the metadata parser

    A text that spells a sequence of words, strings and punctuation, with
    blanks and comments between them, is read as that sequence by
    [next_token]; the lines of doc comments are collected. *)

From S2P Require Import Prelude DataStorage Metaparse MetaparseEnds.
Open Scope Z_scope.

(** The size of the smallest buffer that tokens are read into. *)
Definition SMALL : nat := 2048.

(** [f] starts with the token [t], whichever buffer it is read into, and [f']
    is left after it; the doc string is not touched. *)
Definition tok_at (f t f' : list Z) : Prop :=
  ∀ n doc, (SMALL ≤ n)%nat → next_token2 f n doc = Ret (Some t, f', doc).

Inductive Toks : list (list Z) → list Z → list Z → Prop :=
  | Toks_nil f : Toks [] f f
  | Toks_cons t ts f f1 f2 : tok_at f t f1 → Toks ts f1 f2 → Toks (t :: ts) f f2.

Lemma tok_at_doc f t f' doc : tok_at f t f' → next_token f doc = Ret (Some t, f', doc).
Proof. intros H. apply H. unfold SMALL, BUF. lia. Qed.

Lemma tok_at_next f t f' : tok_at f t f' → next_tok f = Ret (Some t, f').
Proof. intros H. unfold next_tok. by rewrite (tok_at_doc _ _ _ _ H), rbind_Ret. Qed.

Lemma tok_at_shorter f t f' : tok_at f t f' → (length f' < length f)%nat.
Proof.
  intros H. pose proof (next_token2_ends True (λ _, True) (λ _ _ _ H, H) (λ _ _, or_introl I) f BUF None I) as Hp.
  rewrite (H BUF None) in Hp by (unfold SMALL, BUF; lia). cbn in Hp. destruct Hp as [_ [?|[_ ?]]]; [done|lia].
Qed.

Lemma Toks_app ts1 ts2 f f2 : Toks (ts1 ++ ts2) f f2 ↔ ∃ f1, Toks ts1 f f1 ∧ Toks ts2 f1 f2.
Proof.
  revert f. induction ts1 as [|t ts1 IH]; intros f; cbn.
  - split; [intros H; by exists f; split; [constructor|]|]. intros (f1 & H1 & H2). by inversion H1; subst.
  - split.
    + intros H. inversion H as [|? ? ? g ? Ht Hts]; subst. apply IH in Hts as (f1 & H1 & H2).
      exists f1. split; [by econstructor|done].
    + intros (f1 & H1 & H2). inversion H1 as [|? ? ? g ? Ht Hts]; subst. econstructor; [done|]. apply IH. by exists f1.
Qed.

Lemma Toks_inv t ts f f2 : Toks (t :: ts) f f2 → ∃ f1, tok_at f t f1 ∧ Toks ts f1 f2.
Proof. intros H. inversion H; subst. by eexists. Qed.

Lemma Toks_shorter ts f f' : Toks ts f f' → (length f' ≤ length f)%nat.
Proof. induction 1 as [|t ts f f1 f2 Ht _ IH]; [done|]. apply tok_at_shorter in Ht. lia. Qed.

(** ** Comments *)

(** No slash follows an asterisk; [state] is whether one stands before. *)
Fixpoint no_end (state : bool) (s : list Z) : bool :=
  match s with [] => true | c :: s => negb (state && (c =? "/"%cc)) && no_end (c =? "*"%cc) s end.

(** Whether the last character is an asterisk. *)
Fixpoint star (state : bool) (s : list Z) : bool :=
  match s with [] => state | c :: s => star (c =? "*"%cc) s end.

Lemma no_end_app state s t : no_end state (s ++ t) = no_end state s && no_end (star state s) t.
Proof. revert state. induction s as [|c s IH]; intros state; cbn; [done|]. by rewrite IH, andb_assoc. Qed.

Lemma star_app state s t : star state (s ++ t) = star (star state s) t.
Proof. revert state. induction s as [|c s IH]; intros state; cbn; [done|]. by rewrite IH. Qed.

(** A part of a line. *)
Lemma comment_chars s f d buf state :
  10 ∉ s → no_end state s = true → (length buf + length s < BUF)%nat →
  multiline_comment_loop (s ++ f) (Some d) buf state = multiline_comment_loop f (Some d) (buf ++ s) (star state s).
Proof.
  revert buf state. induction s as [|c s IH]; intros buf state H10 Hn Hl; cbn [app star]; [by rewrite app_nil_r|].
  apply not_elem_of_cons in H10 as [Hc H10]. cbn in Hn. apply andb_true_iff in Hn as [Hn1 Hn2]. cbn [length] in Hl.
  cbn [multiline_comment_loop]. rewrite (proj2 (Z.eqb_neq c 10)), (proj2 (Nat.leb_gt _ _)) by (congruence || lia).
  rewrite (cons_middle c buf s), app_assoc, <- IH by (done || rewrite ?length_app; cbn; lia).
  destruct state; [|done]. cbn in Hn1. apply negb_true_iff in Hn1. rewrite Hn1. by destruct (c =? "*"%cc).
Qed.

Definition doc_lines (lines : list (list Z)) : list data_node := (λ s, DATA_STRING (eat_asterisk_space s)) <$> lines.

(** The text between the start of the comment and its end. *)
Definition comment_body (lines : list (list Z)) (rest : list Z) : list Z := concat ((λ s, s ++ [10]) <$> lines) ++ rest ++ str "*/".

(** A line, without a newline, that fits the buffer. *)
Definition line_ok (s : list Z) : Prop := (10 ∉ s) ∧ (0 ∉ s) ∧ (length s < BUF)%nat.

Lemma comment_lines lines rest f acc state :
  Forall line_ok lines → 10 ∉ rest → (length rest + 2 < BUF)%nat → no_end state (concat lines ++ rest) = true →
  (length acc + length lines ≤ MAX_ELEMS)%nat →
  multiline_comment_loop (comment_body lines rest ++ f) (Some (DATA_ARRAY acc)) [] state = Ret (f, Some (DATA_ARRAY (acc ++ doc_lines lines))).
Proof.
  intros Hls Hr Hrl. revert acc state. unfold comment_body. induction Hls as [|s lines (H10 & H0 & Hl) _ IH]; intros acc state Hn Hlen.
  - cbn [fmap list_fmap concat app] in *. rewrite <- app_assoc, comment_chars by (done || cbn; lia). rewrite app_nil_r. cbn [app].
    change (str "*/" ++ f) with ("*"%cc :: "/"%cc :: f). cbn [multiline_comment_loop].
    change ("*"%cc =? 10) with false. change ("/"%cc =? 10) with false. cbn iota.
    rewrite !(proj2 (Nat.leb_gt _ _)) by (rewrite ?length_app; cbn; lia). by destruct (star state rest).
  - cbn [fmap list_fmap concat] in *. rewrite <- !app_assoc in *. rewrite no_end_app in Hn. apply andb_true_iff in Hn as [Hn1 Hn2].
    cbn [length] in Hlen. rewrite comment_chars by (done || cbn; lia). cbn [app multiline_comment_loop]. change (10 =? 10) with true. cbn iota.
    rewrite c_str_clean by done. cbn [data_node_array_add]. rewrite decide_False by lia. cbn [snd].
    specialize (IH (acc ++ [DATA_STRING (eat_asterisk_space s)]) (star state s) Hn2). rewrite <- !app_assoc in IH. cbn [app] in IH.
    rewrite IH by (rewrite length_app; cbn; lia). done.
Qed.

(** A comment that is skipped. *)
Lemma comment_skipped s f buf state : no_end state s = true → multiline_comment_loop (s ++ str "*/" ++ f) None buf state = Ret (f, None).
Proof.
  revert state. induction s as [|c s IH]; intros state Hn.
  - change (([] ++ str "*/" ++ f)) with ("*"%cc :: "/"%cc :: f). by destruct state.
  - cbn in Hn. apply andb_true_iff in Hn as [Hn1 Hn2]. cbn [app multiline_comment_loop]. rewrite <- (IH _ Hn2).
    destruct state; [|done]. cbn in Hn1. apply negb_true_iff in Hn1. rewrite Hn1. by destruct (c =? "*"%cc).
Qed.

Lemma newline_removed s f : 10 ∉ s → remove_to_newline (s ++ 10 :: f) = Ret f.
Proof.
  induction s as [|c s IH]; intros Hs; [done|]. apply not_elem_of_cons in Hs as [Hc Hs]. cbn.
  rewrite (proj2 (Z.eqb_neq c 10)) by congruence. by apply IH.
Qed.

(** What stands between tokens: a blank, a comment up to the end of its line,
    another comment, or a doc comment with lines and the rest before its end. *)
Inductive piece :=
  | PBlank (c : Z)
  | PLine (s : list Z)
  | PComment (s : list Z)
  | PDoc (lines : list (list Z)) (rest : list Z).

Definition piece_text (p : piece) : list Z :=
  match p with
  | PBlank c => [c]
  | PLine s => str "//" ++ s ++ [10]
  | PComment s => str "/*" ++ s ++ str "*/"
  | PDoc lines rest => str "/*" ++ doc_prefix ++ comment_body lines rest
  end.

Definition piece_ok (p : piece) : Prop :=
  match p with
  | PBlank c => is_blank c = true
  | PLine s => 10 ∉ s
  | PComment s => no_end false s = true ∧ take 2 s ≠ doc_prefix
  | PDoc lines rest => Forall line_ok lines ∧ (10 ∉ rest) ∧ (length rest + 2 < BUF)%nat ∧ no_end false (concat lines ++ rest) = true
  end.

#[export] Instance line_ok_dec s : Decision (line_ok s).
Proof. apply _. Defined.
#[export] Instance piece_ok_dec p : Decision (piece_ok p).
Proof. destruct p; apply _. Defined.

Definition piece_docs (p : piece) : list (list Z) := match p with PDoc lines _ => lines | _ => [] end.
Definition is_doc (p : piece) : bool := match p with PDoc _ _ => true | _ => false end.

Definition gap_text (ps : list piece) : list Z := concat (piece_text <$> ps).
Definition gap_docs (ps : list piece) : list (list Z) := concat (piece_docs <$> ps).

(** A gap without doc comments. *)
Definition gap (ps : list piece) : Prop := Forall (λ p, piece_ok p ∧ is_doc p = false) ps.

Lemma loop_slash fuel f n buf doc :
  next_token2_loop (S fuel) ("/"%cc :: f) n buf false doc =
  ('(f, doc) ← maybe_comment f doc; next_token2_loop fuel f n buf false doc).
Proof. reflexivity. Qed.

(** A comment that is no doc comment. *)
Lemma plain_comment s f doc : no_end false s = true → take 2 s ≠ doc_prefix →
  maybe_comment ("*"%cc :: s ++ str "*/" ++ f) doc = Ret (f, doc).
Proof.
  intros Hn Hp. change (maybe_doc_comment_loop doc_prefix (s ++ str "*/" ++ f) doc = Ret (f, doc)).
  assert (∀ c s, no_end false (c :: s) = true →
    ('(f, _) ← multiline_comment (if c =? "*"%cc then c :: s ++ str "*/" ++ f else s ++ str "*/" ++ f) None; Ret (f, doc)) = Ret (f, doc)) as Hskip.
  { intros c s0 H. unfold multiline_comment. destruct (c =? "*"%cc) eqn:Ec.
    - change (c :: s0 ++ str "*/" ++ f) with ((c :: s0) ++ str "*/" ++ f). by rewrite comment_skipped.
    - cbn in H. rewrite Ec in H. by rewrite comment_skipped. }
  assert (('(f0, _) ← multiline_comment (str "*/" ++ f) None; Ret (f0, doc)) = Ret (f, doc)) as Hend by done.
  unfold doc_prefix. destruct s as [|c s]; [exact Hend|]. cbn [app maybe_doc_comment_loop].
  destruct (Z.eqb_spec c "\"%cc) as [->|Hc]; [|by apply (Hskip c s)].
  destruct s as [|c s]; [exact Hend|]. cbn [app]. destruct (Z.eqb_spec c 10) as [->|Hc]; [done|]. by apply (Hskip c s).
Qed.

(** What a piece does to the doc string. *)
Definition note (p : piece) (doc : option data_node) : option data_node :=
  match p, doc with
  | PDoc lines _, Some (DATA_ARRAY acc) => Some (DATA_ARRAY (acc ++ doc_lines lines))
  | _, _ => doc
  end.

(** There is room for the lines; without a doc string they are dropped. *)
Definition room (p : piece) (doc : option data_node) : Prop :=
  match p, doc with
  | PDoc lines _, Some (DATA_ARRAY acc) => (length acc + length lines ≤ MAX_ELEMS)%nat
  | PDoc _ _, Some _ => False
  | _, _ => True
  end.

Lemma blank_class c : is_blank c = true →
  is_punct c = false ∧ is_word c = false ∧ (c =? "/"%cc) = false ∧ (c =? cDQ) = false.
Proof.
  unfold is_blank. change (" "%cc) with 32. intros H. repeat (apply orb_true_iff in H as [H|H]); apply Z.eqb_eq in H as ->; by vm_compute.
Qed.

Lemma no_end_weak state s : no_end state s = true → no_end false s = true.
Proof. destruct s as [|c s]; [done|]. cbn. by intros [_ ?]%andb_true_iff. Qed.

Lemma no_end_lines lines rest state :
  no_end state (concat lines ++ rest) = true → no_end state (concat ((λ s, s ++ [10]) <$> lines) ++ rest) = true.
Proof.
  revert state. induction lines as [|s lines IH]; intros state; [done|]. cbn [fmap list_fmap concat]. rewrite <- !app_assoc, !(no_end_app state).
  intros [-> H]%andb_true_iff. cbn [andb app no_end]. change (10 =? "/"%cc) with false. rewrite andb_false_r. cbn [negb andb].
  change (10 =? "*"%cc) with false. apply IH. by apply no_end_weak in H.
Qed.

Lemma loop_piece p fuel f n doc :
  piece_ok p → room p doc → (length (piece_text p ++ f) < fuel)%nat →
  ∃ fuel', next_token2_loop fuel (piece_text p ++ f) n [] false doc = next_token2_loop fuel' f n [] false (note p doc) ∧ (length f < fuel')%nat.
Proof.
  intros Hp Hr Hf. destruct fuel as [|fuel]; [lia|]. exists fuel. rewrite length_app in Hf.
  destruct p as [c|s|s|lines rest]; cbn [piece_text piece_ok note] in *.
  - cbn in Hf. split; [|lia]. cbn [app next_token2_loop]. destruct (blank_class c Hp) as (-> & -> & -> & ->). by rewrite Hp.
  - rewrite !length_app in Hf. cbn in Hf. split; [|lia]. rewrite <- !app_assoc. change (str "//" ++ s ++ [10] ++ f) with ("/"%cc :: "/"%cc :: s ++ 10 :: f).
    rewrite loop_slash. change (maybe_comment ("/"%cc :: s ++ 10 :: f) doc) with (f ← remove_to_newline (s ++ 10 :: f); Ret (f, doc)).
    by rewrite newline_removed.
  - rewrite !length_app in Hf. cbn in Hf. split; [|lia]. rewrite <- !app_assoc. change (str "/*" ++ s ++ str "*/" ++ f) with ("/"%cc :: "*"%cc :: s ++ str "*/" ++ f).
    rewrite loop_slash, plain_comment by apply Hp. done.
  - rewrite !length_app in Hf. cbn in Hf. split; [|lia]. destruct Hp as (Hls & H10 & Hrl & Hn). rewrite <- !app_assoc. set (body := comment_body lines rest ++ f).
    change (str "/*" ++ doc_prefix ++ body) with ("/"%cc :: "*"%cc :: "\"%cc :: 10 :: body). rewrite loop_slash.
    change (maybe_comment ("*"%cc :: "\"%cc :: 10 :: body) doc) with (multiline_comment_loop body doc [] false). unfold body.
    destruct doc as [[acc| | | |]|]; try done; [by rewrite comment_lines|].
    assert (comment_body lines rest ++ f = (concat ((λ s, s ++ [10]) <$> lines) ++ rest) ++ str "*/" ++ f) as -> by (unfold comment_body; by rewrite <- !app_assoc).
    by rewrite comment_skipped by (by apply no_end_lines).
Qed.

Lemma loop_gap ps fuel f n doc :
  gap ps → (length (gap_text ps ++ f) < fuel)%nat →
  ∃ fuel', next_token2_loop fuel (gap_text ps ++ f) n [] false doc = next_token2_loop fuel' f n [] false doc ∧ (length f < fuel')%nat.
Proof.
  intros Hps. revert fuel. induction Hps as [|p ps [Hp Hd] _ IH]; intros fuel Hf; [by exists fuel|].
  unfold gap_text in *. cbn [fmap list_fmap concat] in *. rewrite <- app_assoc in *.
  destruct (loop_piece p fuel (concat (piece_text <$> ps) ++ f) n doc Hp) as (fuel1 & -> & H1); [by destruct p|done|].
  destruct (IH fuel1 H1) as (fuel2 & E & H2). exists fuel2. rewrite <- E. split; [|done]. by destruct p.
Qed.

(** The lines of the doc comments are collected. *)
Lemma loop_gap_doc ps fuel f n acc :
  Forall piece_ok ps → (length acc + length (gap_docs ps) ≤ MAX_ELEMS)%nat → (length (gap_text ps ++ f) < fuel)%nat →
  ∃ fuel', next_token2_loop fuel (gap_text ps ++ f) n [] false (Some (DATA_ARRAY acc)) =
    next_token2_loop fuel' f n [] false (Some (DATA_ARRAY (acc ++ doc_lines (gap_docs ps)))) ∧ (length f < fuel')%nat.
Proof.
  intros Hps. revert fuel acc. induction Hps as [|p ps Hp _ IH]; intros fuel acc Hr Hf; [exists fuel; by rewrite app_nil_r|].
  unfold gap_text, gap_docs in *. cbn [fmap list_fmap concat] in *. rewrite <- app_assoc in *. rewrite length_app in Hr.
  destruct (loop_piece p fuel (concat (piece_text <$> ps) ++ f) n (Some (DATA_ARRAY acc)) Hp) as (fuel1 & -> & H1); [destruct p; try done; cbn in *; lia|done|].
  assert (note p (Some (DATA_ARRAY acc)) = Some (DATA_ARRAY (acc ++ doc_lines (piece_docs p)))) as ->.
  { destruct p; try done; cbn; by rewrite app_nil_r. }
  destruct (IH fuel1 (acc ++ doc_lines (piece_docs p))) as (fuel2 & -> & H2); [rewrite length_app; unfold doc_lines; rewrite length_fmap; lia|done|].
  exists fuel2. split; [|done]. unfold doc_lines. by rewrite fmap_app, app_assoc.
Qed.

(** Without a doc string they are dropped. *)
Lemma loop_gap_none ps fuel f n :
  Forall piece_ok ps → (length (gap_text ps ++ f) < fuel)%nat →
  ∃ fuel', next_token2_loop fuel (gap_text ps ++ f) n [] false None = next_token2_loop fuel' f n [] false None ∧ (length f < fuel')%nat.
Proof.
  intros Hps. revert fuel. induction Hps as [|p ps Hp _ IH]; intros fuel Hf; [by exists fuel|].
  unfold gap_text in *. cbn [fmap list_fmap concat] in *. rewrite <- app_assoc in *.
  destruct (loop_piece p fuel (concat (piece_text <$> ps) ++ f) n None Hp) as (fuel1 & -> & H1); [by destruct p|done|].
  destruct (IH fuel1 H1) as (fuel2 & E & H2). exists fuel2. rewrite <- E. split; [|done]. by destruct p.
Qed.

(** ** Spelling *)

Inductive lexeme := LPunct (c : Z) | LWord (w : list Z) | LStr (s : list Z).

Definition lex_val (l : lexeme) : list Z := match l with LPunct c => [c] | LWord w => w | LStr s => s end.
Definition lex_text (l : lexeme) : list Z :=
  match l with LPunct c => [c] | LWord w => w | LStr s => [cDQ] ++ s ++ [cDQ] end.

(** The body of a string literal: quotes are escaped, and the last character
    does not escape the one that ends it. *)
Definition str_body (s : list Z) : Prop :=
  (∀ a b, s = a ++ cDQ :: b → last a = Some ("\"%cc)) ∧ last s ≠ Some ("\"%cc).

Definition lex_ok (l : lexeme) : Prop :=
  match l with
  | LPunct c => is_punct c = true
  | LWord w => w ≠ [] ∧ Forall (λ c, is_word c = true) w ∧ (length w < SMALL)%nat
  | LStr s => (0 ∉ s) ∧ str_body s ∧ (length s < SMALL)%nat
  end.

(** What may follow: a word ends at a blank, at punctuation or with the file. *)
Definition sep_ok (l : lexeme) (g : list Z) : Prop :=
  match l with
  | LWord _ => match g with [] => True | c :: _ => is_blank c = true ∨ is_punct c = true end
  | _ => True
  end.

(** [f] spells [ls], and [r] follows. *)
Inductive spells : list lexeme → list Z → list Z → Prop :=
  | spells_nil r : spells [] r r
  | spells_cons ps l ls g r : gap ps → lex_ok l → sep_ok l g → spells ls g r → spells (l :: ls) (gap_text ps ++ lex_text l ++ g) r.

(** ** Reading what is spelled *)

Lemma word_class c : is_word c = true → is_punct c = false ∧ is_blank c = false ∧ c ≠ 0.
Proof.
  intros H. split_and!.
  - destruct (is_punct c) eqn:E; [|done]. apply bool_decide_eq_true_1, list_elem_of_In in E.
    repeat destruct E as [<-|E]; by vm_compute in H.
  - destruct (is_blank c) eqn:E; [|done]. by apply blank_class in E as (_ & E & _); congruence.
  - intros ->. by vm_compute in H.
Qed.

Lemma punct_class c : is_punct c = true → is_blank c = false ∧ c ≠ 0.
Proof.
  intros H. split.
  - destruct (is_blank c) eqn:E; [|done]. by apply blank_class in E as (E & _); congruence.
  - intros ->. by vm_compute in H.
Qed.

Lemma loop_word w fuel f n buf doc :
  Forall (λ c, is_word c = true) w → (length (w ++ f) < fuel)%nat → (length buf + length w ≤ n)%nat →
  ∃ fuel', next_token2_loop fuel (w ++ f) n buf false doc = next_token2_loop fuel' f n (buf ++ w) false doc ∧ (length f < fuel')%nat.
Proof.
  intros Hw. revert fuel buf. induction Hw as [|c w Hc _ IH]; intros fuel buf Hf Hl; [exists fuel; by rewrite app_nil_r|].
  destruct fuel as [|fuel]; [lia|]. cbn [length app] in Hf, Hl.
  destruct (IH fuel (buf ++ [c])) as (fuel' & E & Hf'); [lia|rewrite length_app; cbn; lia|].
  exists fuel'. split; [|done]. rewrite <- app_assoc in E. cbn [app] in E. rewrite <- E. cbn [app next_token2_loop].
  destruct (word_class c Hc) as (-> & _ & _). rewrite Hc. by rewrite (proj2 (Nat.ltb_lt _ _)) by lia.
Qed.

(** The characters of a string up to the quote that ends it. *)
Lemma loop_str s fuel f n buf doc :
  (∀ a b, s = a ++ cDQ :: b → last (buf ++ a) = Some ("\"%cc)) → last (buf ++ s) ≠ Some ("\"%cc) →
  (length (s ++ cDQ :: f) < fuel)%nat → (length buf + length s < n)%nat →
  next_token2_loop fuel (s ++ cDQ :: f) n buf true doc = token_exit n (buf ++ s) true f doc.
Proof.
  revert fuel buf. induction s as [|c s IH]; intros fuel buf Hq Hl Hf Hn; (destruct fuel as [|fuel]; [lia|]); cbn [app next_token2_loop].
  - rewrite app_nil_r in *. by rewrite Z.eqb_refl, bool_decide_false.
  - cbn [app length] in *. rewrite (proj2 (Nat.ltb_lt _ (n - 1))) by lia.
    assert ((c =? cDQ) && negb (bool_decide (last buf = Some ("\"%cc))) = false) as ->.
    { destruct (Z.eqb_spec c cDQ) as [->|]; [|done]. specialize (Hq [] s eq_refl). rewrite app_nil_r in Hq. by rewrite bool_decide_true. }
    rewrite (cons_middle c buf s), app_assoc in *. apply IH; [|done|lia|rewrite length_app; cbn; lia].
    intros a b ->. rewrite <- app_assoc. by apply (Hq (c :: a) b).
Qed.

Lemma exit_Some n buf in_str f doc :
  (buf ≠ [] ∨ in_str = true) → 0 ∉ buf → (length buf < n)%nat → token_exit n buf in_str f doc = Ret (Some buf, f, doc).
Proof.
  intros H H0 Hl. unfold token_exit. rewrite c_str_clean, (proj2 (Nat.ltb_lt _ _)) by done.
  destruct buf; [|done]. by destruct in_str, H.
Qed.

(** [f'] is [f], or [f] without a blank at its start. *)
Definition skips (f f' : list Z) : Prop := f' = f ∨ ∃ x, is_blank x = true ∧ f = x :: f'.

Lemma lexeme_loop l g :
  lex_ok l → sep_ok l g → ∃ g', skips g g' ∧ ∀ n fuel doc, (SMALL ≤ n)%nat → (length (lex_text l ++ g) < fuel)%nat →
    next_token2_loop fuel (lex_text l ++ g) n [] false doc = Ret (Some (lex_val l), g', doc).
Proof.
  intros Hl Hs.
  assert (∀ g' : list Z, skips g g' → (∀ n fuel doc, (SMALL ≤ n)%nat → (length (lex_text l ++ g) < fuel)%nat →
    next_token2_loop fuel (lex_text l ++ g) n [] false doc = Ret (Some (lex_val l), g', doc)) →
    ∃ g', skips g g' ∧ ∀ n fuel doc, (SMALL ≤ n)%nat → (length (lex_text l ++ g) < fuel)%nat →
    next_token2_loop fuel (lex_text l ++ g) n [] false doc = Ret (Some (lex_val l), g', doc)) as Hstart by eauto.
  destruct l as [c|w|s]; cbn [lex_ok lex_text lex_val] in *.
  - apply (Hstart g); [by left|]. intros n [|fuel] doc Hn Hf; [lia|]. cbn [app next_token2_loop]. rewrite Hl.
    apply exit_Some; [by left| |unfold SMALL in Hn; cbn; lia]. apply punct_class in Hl as [_ ?]. apply not_elem_of_cons. split; [done|apply not_elem_of_nil].
  - destruct Hl as (Hne & Hw & Hlen).
    assert (0 ∉ w) as H0 by (intros H; rewrite Forall_forall in Hw; by apply Hw, word_class in H as (_ & _ & ?)).
    assert (∀ x n fuel doc, (SMALL ≤ n)%nat → (length (w ++ x) < fuel)%nat → ∃ fuel',
      next_token2_loop fuel (w ++ x) n [] false doc = next_token2_loop (S fuel') x n w false doc) as Hword.
    { intros x n fuel doc Hn Hf. destruct (loop_word w fuel x n [] doc Hw Hf) as (fuel' & -> & Hf'); [cbn; lia|].
      destruct fuel' as [|fuel']; [lia|]. by exists fuel'. }
    destruct g as [|x g]; [|destruct Hs as [Hx|Hx]].
    + apply (Hstart []); [by left|]. intros n fuel doc Hn Hf. destruct (Hword [] n fuel doc Hn Hf) as (fuel' & ->).
      cbn [next_token2_loop]. by apply exit_Some; [left| |lia].
    + apply (Hstart g); [right; by exists x|]. intros n fuel doc Hn Hf. destruct (Hword _ n fuel doc Hn Hf) as (fuel' & ->).
      cbn [next_token2_loop]. destruct (blank_class x Hx) as (-> & -> & -> & ->). rewrite Hx.
      destruct w; [done|]. by apply exit_Some; [left| |lia].
    + apply (Hstart (x :: g)); [by left|]. intros n fuel doc Hn Hf. destruct (Hword _ n fuel doc Hn Hf) as (fuel' & ->).
      cbn [next_token2_loop]. rewrite Hx. destruct w; [done|]. by apply exit_Some; [left| |lia].
  - destruct Hl as (H0 & [Hq Hlast] & Hlen). apply (Hstart g); [by left|]. intros n [|fuel] doc Hn Hf; [lia|].
    cbn [app next_token2_loop]. change (is_punct cDQ) with false. change (is_word cDQ) with false. cbn iota.
    change (cDQ =? "/"%cc) with false. rewrite Z.eqb_refl. rewrite <- app_assoc. cbn [app]. cbn [length app] in Hf.
    rewrite <- app_assoc in Hf. cbn [app] in Hf. rewrite loop_str; [|done|done|lia|cbn; lia]. by apply exit_Some; [right| |cbn; lia].
Qed.

Lemma lexeme_read ps l g :
  gap ps → lex_ok l → sep_ok l g → ∃ g', tok_at (gap_text ps ++ lex_text l ++ g) (lex_val l) g' ∧ skips g g'.
Proof.
  intros Hb Hl Hs. destruct (lexeme_loop l g Hl Hs) as (g' & Hg & H). exists g'. split; [|done]. intros n doc Hn. unfold next_token2.
  destruct (loop_gap ps (S (length (gap_text ps ++ lex_text l ++ g))) (lex_text l ++ g) n doc Hb) as (fuel' & -> & Hf); [lia|by apply H].
Qed.

(** A token after doc comments, with and without a doc string. *)
Lemma lexeme_read_doc ps l g :
  Forall piece_ok ps → lex_ok l → sep_ok l g → ∃ g', skips g g' ∧
    next_tok (gap_text ps ++ lex_text l ++ g) = Ret (Some (lex_val l), g') ∧
    ∀ acc, (length acc + length (gap_docs ps) ≤ MAX_ELEMS)%nat → next_token (gap_text ps ++ lex_text l ++ g) (Some (DATA_ARRAY acc)) =
      Ret (Some (lex_val l), g', Some (DATA_ARRAY (acc ++ doc_lines (gap_docs ps)))).
Proof.
  intros Hps Hl Hs. destruct (lexeme_loop l g Hl Hs) as (g' & Hg & H). exists g'. split; [done|]. assert (SMALL ≤ BUF)%nat by (unfold SMALL, BUF; lia). split.
  - unfold next_tok, next_token, next_token2.
    destruct (loop_gap_none ps (S (length (gap_text ps ++ lex_text l ++ g))) (lex_text l ++ g) BUF Hps) as (fuel' & -> & Hf); [lia|]. by rewrite H.
  - intros acc Hr. unfold next_token, next_token2.
    destruct (loop_gap_doc ps (S (length (gap_text ps ++ lex_text l ++ g))) (lex_text l ++ g) BUF acc Hps Hr) as (fuel' & -> & Hf); [lia|]. by apply H.
Qed.

(** The end of the file. *)
Lemma end_read ps :
  Forall piece_ok ps →
    next_tok (gap_text ps) = Ret (None, []) ∧
    ∀ acc, (length acc + length (gap_docs ps) ≤ MAX_ELEMS)%nat → next_token (gap_text ps) (Some (DATA_ARRAY acc)) =
      Ret (None, [], Some (DATA_ARRAY (acc ++ doc_lines (gap_docs ps)))).
Proof.
  intros Hps. rewrite <- (app_nil_r (gap_text ps)). split.
  - unfold next_tok, next_token, next_token2.
    destruct (loop_gap_none ps (S (length (gap_text ps ++ []))) [] BUF Hps) as (fuel' & -> & Hf); [lia|]. by destruct fuel' as [|fuel']; [cbn in Hf; lia|].
  - intros acc Hr. unfold next_token, next_token2.
    destruct (loop_gap_doc ps (S (length (gap_text ps ++ []))) [] BUF acc Hps Hr) as (fuel' & -> & Hf); [lia|]. by destruct fuel' as [|fuel']; [cbn in Hf; lia|].
Qed.

Lemma lex_text_head l : lex_ok l → ∃ c x, lex_text l = c :: x ∧ is_blank c = false.
Proof.
  destruct l as [c|w|s]; cbn; intros H.
  - exists c, []. split; [done|]. by apply punct_class.
  - destruct H as (Hne & Hw & _). destruct w as [|c w]; [done|]. exists c, w. split; [done|].
    apply Forall_cons in Hw as [Hc _]. by apply word_class.
  - by exists cDQ, (s ++ [cDQ]).
Qed.

(** What is left when a gap is entered after its first blank. *)
Lemma skips_gap P ps l g f0 :
  Forall P ps → lex_ok l → skips (gap_text ps ++ lex_text l ++ g) f0 →
  ∃ ps', Forall P ps' ∧ f0 = gap_text ps' ++ lex_text l ++ g ∧ gap_docs ps' = gap_docs ps.
Proof.
  intros Hps Hl [-> | (x & Hx & E)]; [by exists ps|]. destruct Hps as [|p ps Hp Hps].
  - destruct (lex_text_head l Hl) as (c & z & Ez & Hc). cbn in E. rewrite Ez in E. injection E as -> _. congruence.
  - destruct p as [c|s|s|lines rest].
    + injection E as -> <-. by exists ps.
    + injection E as <- _. done.
    + injection E as <- _. done.
    + injection E as <- _. done.
Qed.

Lemma spells_toks ls f r f0 :
  spells ls f r → skips f f0 → ∃ r', Toks (lex_val <$> ls) f0 r' ∧ skips r r'.
Proof.
  intros H. revert f0. induction H as [r|ps l ls g r Hb Hl Hs _ IH]; intros f0 H0; [exists f0; by split; [constructor|]|].
  destruct (skips_gap _ ps l g f0 Hb Hl H0) as (ps0 & Hps0 & -> & _).
  destruct (lexeme_read ps0 l g Hps0 Hl Hs) as (g' & Ht & Hg). destruct (IH g' Hg) as (r' & Hts & Hr).
  exists r'. split; [|done]. rewrite fmap_cons. by econstructor.
Qed.

(** ** Deciding that a text spells lexemes *)

(** [prev] is the character before [s]. *)
Fixpoint str_bodyb (prev : option Z) (s : list Z) : bool :=
  match s with
  | [] => negb (bool_decide (prev = Some ("\"%cc)))
  | c :: s => implb (c =? cDQ) (bool_decide (prev = Some ("\"%cc))) && str_bodyb (Some c) s
  end.

Lemma str_bodyb_sound p s :
  str_bodyb (last p) s = true →
  (∀ a b, s = a ++ cDQ :: b → last (p ++ a) = Some ("\"%cc)) ∧ last (p ++ s) ≠ Some ("\"%cc).
Proof.
  revert p. induction s as [|c s IH]; intros p H; cbn in H.
  - rewrite app_nil_r. apply negb_true_iff, bool_decide_eq_false_1 in H. split; [|done]. by intros [|] ?.
  - apply andb_true_iff in H as [H1 H2]. rewrite <- (last_snoc c p) in H2. destruct (IH _ H2) as [Ha Hb].
    rewrite <- app_assoc in Hb. split; [|done]. intros [|x a] b E; injection E as -> E.
    + rewrite app_nil_r. rewrite Z.eqb_refl in H1. by apply bool_decide_eq_true_1 in H1.
    + specialize (Ha a b E). by rewrite <- app_assoc in Ha.
Qed.

Definition lex_okb (l : lexeme) : bool :=
  match l with
  | LPunct c => is_punct c
  | LWord w => negb (bool_decide (w = [])) && forallb is_word w && (length w <? SMALL)%nat
  | LStr s => negb (bool_decide (0 ∈ s)) && str_bodyb None s && (length s <? SMALL)%nat
  end.

Lemma lex_okb_sound l : lex_okb l = true → lex_ok l.
Proof.
  destruct l as [c|w|s]; cbn [lex_okb lex_ok]; [done|..]; intros [[H1 H2]%andb_true_iff H3%Nat.ltb_lt]%andb_true_iff;
    apply negb_true_iff, bool_decide_eq_false_1 in H1; refine (conj H1 (conj _ H3)).
  - rewrite List.forallb_forall in H2. apply Forall_forall. intros c Hc. by apply H2, list_elem_of_In.
  - by apply (str_bodyb_sound []).
Qed.

#[export] Instance gap_dec ps : Decision (gap ps).
Proof. apply _. Defined.

(** Lexemes with the gaps before them. *)
Fixpoint render (ps : list (list piece * lexeme)) (r : list Z) : list Z :=
  match ps with [] => r | (b, l) :: ps => gap_text b ++ lex_text l ++ render ps r end.

Fixpoint spellsb (ps : list (list piece * lexeme)) (r : list Z) : bool :=
  match ps with
  | [] => true
  | (b, l) :: ps =>
      bool_decide (gap b) && lex_okb l &&
      match l with
      | LWord _ => match render ps r with [] => true | c :: _ => is_blank c || is_punct c end
      | _ => true
      end && spellsb ps r
  end.

Lemma spellsb_sound ps r : spellsb ps r = true → spells (snd <$> ps) (render ps r) r.
Proof.
  induction ps as [|[b l] ps IH]; [constructor|]. cbn [spellsb render]. rewrite fmap_cons.
  intros [[[H1%bool_decide_eq_true_1 H2]%andb_true_iff H3]%andb_true_iff H4]%andb_true_iff. constructor; [done|by apply lex_okb_sound| |by apply IH].
  destruct l; [done| |done]. cbn [sep_ok]. destruct (render ps r); [done|]. by apply orb_true_iff in H3.
Qed.
