(* ===== verification/MetaparseDoc.v ===== *)
(** * Doc comments

    The lines of a doc comment are added to the doc string without the
    asterisk at their start, and reading goes on with the token after the
    comment. *)

From S2P Require Import Prelude DataStorage Metaparse MetaparseEnds MetaparseLex.
Open Scope Z_scope.

(** ** Tokens after a comment *)

Lemma token_loop_mono fuel fuel' f n buf in_str doc x :
  next_token2_loop fuel f n buf in_str doc = Ret x → (fuel ≤ fuel')%nat → next_token2_loop fuel' f n buf in_str doc = Ret x.
Proof.
  revert fuel' f buf in_str doc. induction fuel as [|fuel IH]; intros fuel' f buf in_str doc H Hf; [done|].
  destruct fuel' as [|fuel']; [lia|]. cbn [next_token2_loop] in *. destruct f as [|c f]; [done|].
  destruct in_str; [case_match; [done|by apply IH; [|lia]]|]. destruct (is_punct c); [done|].
  destruct (is_word c); [case_match; [by apply IH; [|lia]|done]|].
  destruct (c =? "/"%cc); [|destruct (c =? cDQ); [by apply IH; [|lia]|destruct (is_blank c); [destruct buf; [by apply IH; [|lia]|done]|by apply IH; [|lia]]]].
  destruct (maybe_comment f doc) as [[f1 d1]| | | |]; try done. cbn in *. by apply IH; [|lia].
Qed.

(** A doc comment: after the start of a comment, a backslash and a
    newline, each line, if it is shorter than the buffer and the doc string
    has room, becomes an element of the doc string without the blanks and
    the asterisk it starts with and without one blank after it; what stands
    on the last line before the end of the comment is dropped, and the token
    after the comment is read. *)
Theorem doc_comment_correct (lines : list (list Z)) (rest f t f' : list Z) (acc : list data_node) :
  Forall line_ok lines → 10 ∉ rest → (length rest + 2 < BUF)%nat → no_end false (concat lines ++ rest) = true →
  (length acc + length lines ≤ MAX_ELEMS)%nat → tok_at f t f' →
  next_token (str "/*" ++ doc_prefix ++ comment_body lines rest ++ f) (Some (DATA_ARRAY acc)) =
  Ret (Some t, f', Some (DATA_ARRAY (acc ++ doc_lines lines))).
Proof.
  intros Hls Hr Hrl Hn Hlen Ht. unfold next_token, next_token2. set (body := comment_body lines rest ++ f).
  change (str "/*" ++ doc_prefix ++ body) with ("/"%cc :: "*"%cc :: "\"%cc :: 10 :: body). rewrite loop_slash.
  change (maybe_comment ("*"%cc :: "\"%cc :: 10 :: body) (Some (DATA_ARRAY acc))) with (multiline_comment_loop body (Some (DATA_ARRAY acc)) [] false).
  assert (multiline_comment_loop body (Some (DATA_ARRAY acc)) [] false = Ret (f, Some (DATA_ARRAY (acc ++ doc_lines lines)))) as ->
    by (by apply comment_lines). rewrite rbind_Ret. eapply token_loop_mono; [apply (Ht BUF)|].
  - unfold SMALL, BUF. lia.
  - unfold body. cbn [length]. rewrite length_app. lia.
Qed.

Lemma doc_comment_correct_witness :
  next_token (str "/*" ++ doc_prefix ++ comment_body [str " * [Description]"; str " *  indented"; str "none"] (str " ") ++ str " {int")
    (Some (DATA_ARRAY [])) =
  Ret (Some (str "{"), str "int", Some (DATA_ARRAY (DATA_STRING <$> [str "[Description]"; str " indented"; str "none"]))).
Proof.
  apply (doc_comment_correct [str " * [Description]"; str " *  indented"; str "none"] (str " ") _ (str "{") (str "int") []).
  - repeat constructor; try (vm_compute; lia); apply (bool_decide_unpack _); vm_compute; exact I.
  - apply (bool_decide_unpack _). vm_compute. exact I.
  - vm_compute. lia.
  - vm_compute. reflexivity.
  - vm_compute. lia.
  - destruct (lexeme_read [PBlank 32] (LPunct ("{"%cc)) (str "int")) as (g & Hg & [-> | (x & Hx & E)]);
      [by constructor|reflexivity|exact I|exact Hg|]. injection E as <- _. discriminate Hx.
Defined.
