(* ===== verification/MetaparseInit.v ===== *)
(** * Initializers

    C initializers as trees, their tokens and the metadata they stand for.
    [parse_array] computes the metadata, telling lists from structures with
    [array_is_hash]. *)

From stdpp Require Import gmap.
From S2P Require Import Prelude DataStorage DataStorageFacts Metaparse MetaparseEnds MetaparseLex.
Open Scope Z_scope.

(** A value is a sequence of tokens that are glued; [trail] is whether a comma
    stands before the closing brace. *)
Inductive init :=
  | IVal (ts : list (list Z))
  | INull
  | IArr (trail : bool) (l : inits)
  | IHash (trail : bool) (l : fields)
with inits := INil | ICons (i : init) (l : inits)
with fields := FNil | FCons (id : list Z) (i : init) (l : fields).

Scheme init_mut := Induction for init Sort Prop
  with inits_mut := Induction for inits Sort Prop
  with fields_mut := Induction for fields Sort Prop.
Combined Scheme init_all_ind from init_mut, inits_mut, fields_mut.

(** ** Tokens *)

(** What stands after an element. *)
Definition comma (trail last : bool) : list (list Z) := if last && negb trail then [] else [str ","].
Definition is_inil (l : inits) : bool := match l with INil => true | _ => false end.
Definition is_fnil (l : fields) : bool := match l with FNil => true | _ => false end.

Fixpoint init_toks (i : init) : list (list Z) :=
  match i with
  | IVal ts => ts
  | INull => [str "NULL"]
  | IArr trail l => str "{" :: inits_toks trail l ++ [str "}"]
  | IHash trail l => str "{" :: fields_toks trail l ++ [str "}"]
  end
with inits_toks (trail : bool) (l : inits) : list (list Z) :=
  match l with
  | INil => []
  | ICons i l => init_toks i ++ comma trail (is_inil l) ++ inits_toks trail l
  end
with fields_toks (trail : bool) (l : fields) : list (list Z) :=
  match l with
  | FNil => []
  | FCons id i l => id :: str "=" :: init_toks i ++ comma trail (is_fnil l) ++ fields_toks trail l
  end.

(** A token without a meaning of its own. *)
Definition specials : list (list Z) := str <$> ["{"%string; "}"%string; ","%string; "="%string; "("%string; ")"%string; "NULL"%string].
Definition plain (t : list Z) : Prop := t ∉ specials.

(** ** The metadata *)

Definition keep (n : data_node) : list data_node := if data_node_is_empty n then [] else [n].
Definition keep_field (key : list Z) (n : data_node) : list (list Z * data_node) :=
  if data_node_is_empty n then [] else [(key, n)].

(** A null at the end of a list is the end marker. *)
Definition strip_null (l : list data_node) : list data_node :=
  match last l with Some DATA_NULL => take (length l - 1) l | _ => l end.

Section Init.
Context (m : macros).

Definition val_str (ts : list (list Z)) : list Z := concat (try_apply_macro m <$> ts).

Fixpoint init_node (i : init) : data_node :=
  match i with
  | IVal ts => DATA_STRING (val_str ts)
  | INull => DATA_NULL
  | IArr _ l => DATA_ARRAY (strip_null (inits_nodes l))
  | IHash _ l => DATA_HASH (fields_nodes l)
  end
with inits_nodes (l : inits) : list data_node :=
  match l with INil => [] | ICons i l => keep (init_node i) ++ inits_nodes l end
with fields_nodes (l : fields) : list (list Z * data_node) :=
  match l with FNil => [] | FCons id i l => keep_field (drop 1 id) (init_node i) ++ fields_nodes l end.

(** Values are not empty, structures have a field, their names start with a
    dot and are no macros, no field is a null pointer, and everything fits. *)
Fixpoint init_ok (i : init) : Prop :=
  match i with
  | IVal ts => ts ≠ [] ∧ Forall plain ts
  | INull => True
  | IArr _ l => inits_ok l ∧ (length (inits_nodes l) ≤ MAX_ELEMS)%nat
  | IHash _ l => l ≠ FNil ∧ fields_ok l ∧ (length (fields_nodes l) ≤ MAX_ELEMS)%nat
  end
with inits_ok (l : inits) : Prop :=
  match l with INil => True | ICons i l => init_ok i ∧ inits_ok l end
with fields_ok (l : fields) : Prop :=
  match l with
  | FNil => True
  | FCons id i l => id ≠ [] ∧ plain id ∧ m !! id = None ∧ i ≠ INull ∧ init_ok i ∧ fields_ok l
  end.

(** ** Reading tokens in the loops *)

Lemma plain_streq t s : plain t → str s ∈ specials → streq t s = false.
Proof. intros Ht Hs. apply bool_decide_eq_false_2. by intros ->. Qed.

Ltac plain_tac H := rewrite !(plain_streq _ _ H) by (apply (bool_decide_unpack _); vm_compute; exact I).

Lemma skip_tok fuel f t f1 level :
  tok_at f t f1 → skip_nested (S fuel) f level =
  (let level := if streq t "{" then level + 1 else level in
   let level := if streq t "}" then level - 1 else level in
   if level =? 0 then Ret (Some f1) else skip_nested fuel f1 level).
Proof. intros H. cbn [skip_nested]. by rewrite (tok_at_next _ _ _ H), rbind_Ret. Qed.

Lemma hash_tok fuel f t f1 seen comma in_id :
  tok_at f t f1 → array_is_hash_loop (S fuel) f seen comma in_id =
  (if streq t "}" then Ret (seen && negb (in_id && negb comma))
   else if streq t "{" then
     if in_id then Ret false else
     f ← skip_nested (S (length f1)) f1 1;
     match f with None => Ret true | Some f => array_is_hash_loop fuel f true comma in_id end
   else if streq t "," then if in_id then Ret false else array_is_hash_loop fuel f1 true true true
   else if streq t "=" then array_is_hash_loop fuel f1 true comma false
   else array_is_hash_loop fuel f1 true false in_id).
Proof. intros H. cbn [array_is_hash_loop]. by rewrite (tok_at_next _ _ _ H), rbind_Ret. Qed.

(** The tokens [ts] inside a nested initializer are skipped. *)
Definition skipped (ts : list (list Z)) : Prop := ∀ f f1 level fuel R,
  Toks ts f f1 → 0 < level → (length f < fuel)%nat →
  (∀ fuel', (length f1 < fuel')%nat → skip_nested fuel' f1 level = R) → skip_nested fuel f level = R.

Lemma skipped_nil : skipped [].
Proof. intros f f1 level fuel R H _ Hf HR. inversion H; subst. by apply HR. Qed.

Lemma skipped_app ts1 ts2 : skipped ts1 → skipped ts2 → skipped (ts1 ++ ts2).
Proof.
  intros H1 H2 f f1 level fuel R H Hl Hf HR. apply Toks_app in H as (g & Hg1 & Hg2).
  eapply H1; [exact Hg1|done|done|]. intros fuel' Hf'. by eapply H2.
Qed.

Lemma skipped_tok t : t ≠ str "{" → t ≠ str "}" → skipped [t].
Proof.
  intros H1 H2 f f1 level fuel R H Hl Hf HR. apply Toks_inv in H as (g & Ht & H). inversion H; subst.
  destruct fuel as [|fuel]; [lia|]. rewrite (skip_tok _ _ _ _ _ Ht). unfold streq. rewrite !bool_decide_false by done.
  cbv zeta. rewrite (proj2 (Z.eqb_neq level 0)) by lia. apply HR. apply tok_at_shorter in Ht. lia.
Qed.

Lemma skipped_braces ts : skipped ts → skipped (str "{" :: ts ++ [str "}"]).
Proof.
  intros H f f1 level fuel R Hts Hl Hf HR. apply Toks_inv in Hts as (g & Ht & Hts). apply Toks_app in Hts as (g1 & Hg & Hc).
  apply Toks_inv in Hc as (g2 & Htc & Hc). inversion Hc; subst.
  destruct fuel as [|fuel]; [lia|]. rewrite (skip_tok _ _ _ _ _ Ht). change (streq (str "{") "{") with true.
  change (streq (str "{") "}") with false. cbv zeta. cbn iota. rewrite (proj2 (Z.eqb_neq _ 0)) by lia.
  apply tok_at_shorter in Ht. eapply H; [exact Hg|lia|lia|]. intros [|fuel'] Hf'; [lia|].
  rewrite (skip_tok _ _ _ _ _ Htc). change (streq (str "}") "{") with false. change (streq (str "}") "}") with true.
  cbv zeta. cbn iota. replace (level + 1 - 1) with level by lia. rewrite (proj2 (Z.eqb_neq level 0)) by lia.
  apply HR. apply tok_at_shorter in Htc. lia.
Qed.

Lemma skipped_plain ts : Forall plain ts → skipped ts.
Proof.
  induction 1 as [|t ts Ht _ IH]; [apply skipped_nil|]. apply (skipped_app [t]); [|done].
  apply skipped_tok; intros ->; apply Ht; apply (bool_decide_unpack _); vm_compute; exact I.
Qed.

Lemma skipped_comma trail last : skipped (comma trail last).
Proof. unfold comma. case_match; [apply skipped_nil|by apply skipped_tok]. Qed.

Lemma skipped_init :
  (∀ i, init_ok i → skipped (init_toks i)) ∧ (∀ l, inits_ok l → ∀ trail, skipped (inits_toks trail l)) ∧
  (∀ l, fields_ok l → ∀ trail, skipped (fields_toks trail l)).
Proof.
  apply init_all_ind.
  - intros ts [_ H]. by apply skipped_plain.
  - intros _. by apply skipped_tok.
  - intros trail l IH [Hl _]. apply skipped_braces. by apply IH.
  - intros trail l IH (_ & Hl & _). apply skipped_braces. by apply IH.
  - intros _ trail. apply skipped_nil.
  - intros i IHi l IHl [Hi Hl] trail. cbn. apply skipped_app; [by apply IHi|]. apply skipped_app; [apply skipped_comma|by apply IHl].
  - intros _ trail. apply skipped_nil.
  - intros id i IHi l IHl (_ & Hid & _ & _ & Hi & Hl) trail. cbn.
    apply (skipped_app [id]); [by apply skipped_plain; constructor|]. apply (skipped_app [str "="]); [by apply skipped_tok|].
    apply skipped_app; [by apply IHi|]. apply skipped_app; [apply skipped_comma|by apply IHl].
Qed.

(** ** Lists and structures *)

(** The nested initializer ends at its brace. *)
Lemma skip_to_end ts f f1 fuel :
  skipped ts → Toks (ts ++ [str "}"]) f f1 → (length f < fuel)%nat → skip_nested fuel f 1 = Ret (Some f1).
Proof.
  intros H Hts Hf. apply Toks_app in Hts as (g & Hg & Hc). apply Toks_inv in Hc as (g2 & Htc & Hc). inversion Hc; subst.
  eapply H; [exact Hg|lia|done|]. intros [|fuel'] Hf'; [lia|]. by rewrite (skip_tok _ _ _ _ _ Htc).
Qed.

(** Plain tokens, at least one. *)
Lemma hash_plain ts f f1 fuel seen comma in_id R :
  Forall plain ts → ts ≠ [] → Toks ts f f1 → (length f < fuel)%nat →
  (∀ fuel', (length f1 < fuel')%nat → array_is_hash_loop fuel' f1 true false in_id = R) →
  array_is_hash_loop fuel f seen comma in_id = R.
Proof.
  intros Hp. revert f fuel seen comma. induction Hp as [|t ts Ht Hp IH]; intros f fuel seen comma Hne Hts Hf HR; [done|].
  apply Toks_inv in Hts as (g & Hg & Hts). destruct fuel as [|fuel]; [lia|]. rewrite (hash_tok _ _ _ _ _ _ _ Hg).
  plain_tac Ht. apply tok_at_shorter in Hg. destruct (decide (ts = [])) as [->|Hne'].
  - inversion Hts; subst. apply HR. lia.
  - apply IH; [done|done|lia|done].
Qed.

(** After an element comes a comma or the closing brace. *)
Lemma after_elem trail last ts f f1 :
  Toks (comma trail last ++ ts ++ [str "}"]) f f1 → (last = true → ts = []) →
  (∃ g, tok_at f (str ",") g ∧ Toks (ts ++ [str "}"]) g f1) ∨ (last = true ∧ tok_at f (str "}") f1).
Proof.
  intros H Hl. unfold comma in H. destruct (last && negb trail) eqn:E.
  - apply andb_true_iff in E as [-> _]. rewrite (Hl eq_refl) in H. right. split; [done|].
    apply Toks_inv in H as (g & Hg & H). by inversion H; subst.
  - left. apply Toks_inv in H as (g & Hg & H). by exists g.
Qed.

Lemma inits_end trail l : is_inil l = true → inits_toks trail l = [].
Proof. by destruct l. Qed.

Lemma fields_end trail l : is_fnil l = true → fields_toks trail l = [].
Proof. by destruct l. Qed.

Lemma array_not_hash trail l f f1 :
  inits_ok l → Toks (inits_toks trail l ++ [str "}"]) f f1 → array_is_hash f = Ret false.
Proof.
  intros Hok Hts. unfold array_is_hash. destruct l as [|i l].
  { apply Toks_inv in Hts as (g & Hg & _). by rewrite (hash_tok _ _ _ _ _ _ _ Hg). }
  destruct Hok as [Hi _]. cbn [inits_toks] in Hts. rewrite <- app_assoc in Hts. apply Toks_app in Hts as (g & Hg & Hts).
  rewrite <- app_assoc in Hts. apply after_elem in Hts; [|apply inits_end].
  assert (∀ fuel', (length g < fuel')%nat → array_is_hash_loop fuel' g true false true = Ret false) as HR.
  { intros [|fuel'] Hf; [lia|]. destruct Hts as [(h & Hh & _)|[_ Hh]]; by rewrite (hash_tok _ _ _ _ _ _ _ Hh). }
  destruct i as [ts| |t' l'|t' l']; cbn [init_toks] in Hg.
  - destruct Hi as [Hne Hp]. by eapply hash_plain; [exact Hp|done|exact Hg|lia|].
  - apply Toks_inv in Hg as (h & Hh & Hg). inversion Hg; subst. rewrite (hash_tok _ _ _ _ _ _ _ Hh). apply HR.
    by apply tok_at_shorter in Hh.
  - apply Toks_inv in Hg as (h & Hh & _). by rewrite (hash_tok _ _ _ _ _ _ _ Hh).
  - apply Toks_inv in Hg as (h & Hh & _). by rewrite (hash_tok _ _ _ _ _ _ _ Hh).
Qed.

Lemma hash_value i f f1 fuel comma R :
  init_ok i → i ≠ INull → Toks (init_toks i) f f1 → (length f < fuel)%nat →
  (∀ fuel' comma', (length f1 < fuel')%nat → array_is_hash_loop fuel' f1 true comma' false = R) →
  array_is_hash_loop fuel f true comma false = R.
Proof.
  intros Hi Hn Hts Hf HR.
  assert (∀ ts, skipped ts → Toks (str "{" :: ts ++ [str "}"]) f f1 → array_is_hash_loop fuel f true comma false = R) as Hnest.
  { intros ts Hs H. apply Toks_inv in H as (g & Hg & H). destruct fuel as [|fuel]; [lia|].
    rewrite (hash_tok _ _ _ _ _ _ _ Hg). change (streq (str "{") "}") with false. change (streq (str "{") "{") with true. cbn iota.
    rewrite (skip_to_end ts g f1) by (done || lia). rewrite rbind_Ret. apply HR.
    apply tok_at_shorter in Hg. apply Toks_shorter in H. lia. }
  destruct i as [ts| |t l|t l]; cbn [init_toks] in Hts; [|done|..].
  - destruct Hi as [Hne Hp]. eapply hash_plain; [exact Hp|done|exact Hts|done|by auto].
  - destruct Hi as [Hl _]. eapply Hnest; [|exact Hts]. by apply skipped_init.
  - destruct Hi as (_ & Hl & _). eapply Hnest; [|exact Hts]. by apply skipped_init.
Qed.

Lemma fields_hash trail l f f1 fuel seen comma :
  fields_ok l → (l = FNil → seen = true ∧ comma = true) → Toks (fields_toks trail l ++ [str "}"]) f f1 →
  (length f < fuel)%nat → array_is_hash_loop fuel f seen comma true = Ret true.
Proof.
  revert f fuel seen comma. induction l as [|id i l IH]; intros f fuel seen comma Hok Hn Hts Hf.
  { destruct (Hn eq_refl) as [-> ->]. apply Toks_inv in Hts as (g & Hg & _). destruct fuel as [|fuel]; [lia|].
    by rewrite (hash_tok _ _ _ _ _ _ _ Hg). }
  destruct Hok as (_ & Hid & _ & Hnull & Hi & Hl). cbn [fields_toks app] in Hts.
  apply Toks_inv in Hts as (g1 & Hg1 & Hts). apply Toks_inv in Hts as (g2 & Hg2 & Hts).
  destruct fuel as [|[|fuel]]; [lia|apply tok_at_shorter in Hg1; apply tok_at_shorter in Hg2; lia|].
  rewrite (hash_tok _ _ _ _ _ _ _ Hg1). plain_tac Hid. rewrite (hash_tok _ _ _ _ _ _ _ Hg2). cbn iota.
  change (streq (str "=") "}") with false. change (streq (str "=") "{") with false. change (streq (str "=") ",") with false.
  change (streq (str "=") "=") with true. cbn iota.
  rewrite <- app_assoc in Hts. apply Toks_app in Hts as (g3 & Hg3 & Hts).
  rewrite <- app_assoc in Hts. apply after_elem in Hts; [|apply fields_end].
  apply tok_at_shorter in Hg1. apply tok_at_shorter in Hg2.
  eapply hash_value; [exact Hi|done|exact Hg3|lia|]. intros [|fuel'] comma' Hf'; [lia|].
  destruct Hts as [(h & Hh & Hts)|[_ Hh]]; rewrite (hash_tok _ _ _ _ _ _ _ Hh); [|done].
  change (streq (str ",") "}") with false. change (streq (str ",") "{") with false. change (streq (str ",") ",") with true. cbn iota.
  apply IH; [done|done|done|]. apply tok_at_shorter in Hh. lia.
Qed.

Lemma struct_is_hash trail l f f1 :
  fields_ok l → l ≠ FNil → Toks (fields_toks trail l ++ [str "}"]) f f1 → array_is_hash f = Ret true.
Proof. intros Hok Hn Hts. eapply fields_hash; [done|by intros ->|exact Hts|lia]. Qed.

(** ** Parsing *)

Lemma parse_tok fuel f t f1 is_hash val id cnt ret :
  tok_at f t f1 → parse_array_loop m (S fuel) f is_hash val id cnt ret =
  (if streq t "{" then
     sub_is_hash ← array_is_hash f1;
     '(_, sub_ret, f) ← parse_array_loop m fuel f1 sub_is_hash None None 0
                          (if sub_is_hash then data_node_hash else data_node_array);
     ret ← (if data_node_is_empty sub_ret then Ret ret
            else if is_hash then hash_add_id ret id 1 sub_ret
            else Ret (snd (data_node_array_add ret sub_ret)));
     parse_array_loop m fuel f is_hash None None cnt ret
   else if streq t "}" then
     '(_, _, ret) ← finalize_array_entry val id ret;
     Ret (0, if is_hash then ret else
             match data_node_array_last ret with
             | Some DATA_NULL => data_node_array_last_rem ret
             | _ => ret
             end, f1)
   else if is_hash && streq t "=" && negb (bool_decide (is_Some id)) then
     parse_array_loop m fuel f1 is_hash None val cnt ret
   else if streq t "," && (cnt <=? 0) then
     '(val, id, ret) ← finalize_array_entry val id ret;
     parse_array_loop m fuel f1 is_hash val id cnt ret
   else if streq t "NULL" then
     ret ← (if is_hash then hash_add_id ret id 0 DATA_NULL else Ret (snd (data_node_array_add ret DATA_NULL)));
     parse_array_loop m fuel f1 is_hash val id cnt ret
   else
     let cnt := if streq t "(" then cnt + 1 else cnt in
     let cnt := if streq t ")" then cnt - 1 else cnt in
     parse_array_loop m fuel f1 is_hash (str_append val (try_apply_macro m t)) id cnt ret).
Proof. intros H. cbn [parse_array_loop]. by rewrite (tok_at_next _ _ _ H), rbind_Ret. Qed.

Lemma parse_plain ts f f1 fuel is_hash val id cnt ret R :
  Forall plain ts → ts ≠ [] → Toks ts f f1 → (length f < fuel)%nat →
  (∀ fuel', (length f1 < fuel')%nat →
    parse_array_loop m fuel' f1 is_hash (Some (default [] val ++ val_str ts)) id cnt ret = R) →
  parse_array_loop m fuel f is_hash val id cnt ret = R.
Proof.
  intros Hp. revert f fuel val. induction Hp as [|t ts Ht Hp IH]; intros f fuel val Hne Hts Hf HR; [done|].
  apply Toks_inv in Hts as (g & Hg & Hts). destruct fuel as [|fuel]; [lia|]. rewrite (parse_tok _ _ _ _ _ _ _ _ _ Hg).
  plain_tac Ht. rewrite andb_false_r. cbn [andb]. cbv zeta. apply tok_at_shorter in Hg.
  destruct (decide (ts = [])) as [->|Hne'].
  - inversion Hts; subst. unfold val_str in HR. cbn in HR. rewrite app_nil_r in HR. apply HR. lia.
  - apply IH; [done|done|lia|]. intros fuel' Hf'. cbn. unfold val_str in *. cbn in HR. rewrite <- app_assoc. by apply HR.
Qed.

(** The node that is being filled, with the key of the next value. *)
Inductive ctx := CArr (acc : list data_node) | CHash (c : Z) (key : list Z) (acc : list (list Z * data_node)).

Definition ctx_hash (x : ctx) : bool := match x with CArr _ => false | CHash _ _ _ => true end.
Definition ctx_id (x : ctx) : option (list Z) := match x with CArr _ => None | CHash c k _ => Some (c :: k) end.
Definition ctx_node (x : ctx) : data_node := match x with CArr acc => DATA_ARRAY acc | CHash _ _ acc => DATA_HASH acc end.
Definition ctx_add (x : ctx) (n : data_node) : data_node :=
  match x with CArr acc => DATA_ARRAY (acc ++ keep n) | CHash _ k acc => DATA_HASH (acc ++ keep_field k n) end.
Definition ctx_fits (x : ctx) (n : data_node) : Prop :=
  match x with
  | CArr acc => (length (acc ++ keep n) ≤ MAX_ELEMS)%nat
  | CHash _ k acc => (length (acc ++ keep_field k n) ≤ MAX_ELEMS)%nat
  end.

Lemma ctx_add_spec x n :
  ctx_fits x n →
  (if data_node_is_empty n then Ret (ctx_node x)
   else if ctx_hash x then hash_add_id (ctx_node x) (ctx_id x) 1 n
   else Ret (snd (data_node_array_add (ctx_node x) n))) = Ret (ctx_add x n).
Proof.
  destruct x as [acc|c k acc]; cbn [ctx_fits ctx_hash ctx_node ctx_id ctx_add]; unfold keep, keep_field;
    destruct (data_node_is_empty n); rewrite ?app_nil_r; try done; rewrite length_app; cbn [length]; intros H.
  - cbn. by rewrite decide_False by lia.
  - unfold hash_add_id. rewrite decide_False by lia. cbn. by rewrite decide_False by lia.
Qed.

Definition reads_value (i : init) : Prop := ∀ x f f1 fuel R,
  init_ok i → (i = INull → ctx_hash x = false) → ctx_fits x (init_node i) → Toks (init_toks i) f f1 → (length f < fuel)%nat →
  (∀ fuel' val' id' ret', (length f1 < fuel')%nat →
    finalize_array_entry val' id' ret' = Ret (None, None, ctx_add x (init_node i)) →
    parse_array_loop m fuel' f1 (ctx_hash x) val' id' 0 ret' = R) →
  parse_array_loop m fuel f (ctx_hash x) None (ctx_id x) 0 (ctx_node x) = R.

Definition reads_inits (l : inits) : Prop := ∀ trail f f1 fuel acc,
  inits_ok l → Toks (inits_toks trail l ++ [str "}"]) f f1 → (length f < fuel)%nat →
  (length (acc ++ inits_nodes l) ≤ MAX_ELEMS)%nat →
  parse_array_loop m fuel f false None None 0 (DATA_ARRAY acc) = Ret (0, DATA_ARRAY (strip_null (acc ++ inits_nodes l)), f1).

Definition reads_fields (l : fields) : Prop := ∀ trail f f1 fuel acc,
  fields_ok l → Toks (fields_toks trail l ++ [str "}"]) f f1 → (length f < fuel)%nat →
  (length (acc ++ fields_nodes l) ≤ MAX_ELEMS)%nat →
  parse_array_loop m fuel f true None None 0 (DATA_HASH acc) = Ret (0, DATA_HASH (acc ++ fields_nodes l), f1).

Lemma value_val ts : reads_value (IVal ts).
Proof.
  intros x f f1 fuel R [Hne Hp] _ Hfit Hts Hf HR. eapply parse_plain; [exact Hp|done|exact Hts|done|].
  intros fuel' Hf'. apply HR; [done|]. cbn [default app]. pose proof (ctx_add_spec x _ Hfit) as E. cbn [init_node data_node_is_empty] in E.
  cbn [finalize_array_entry]. destruct x; cbn [ctx_id ctx_hash] in *; by rewrite E.
Qed.

Lemma value_null : reads_value INull.
Proof.
  intros x f f1 fuel R _ Hx Hfit Hts Hf HR. specialize (Hx eq_refl). destruct x as [acc|]; [|done].
  cbn [init_toks] in Hts. apply Toks_inv in Hts as (g & Hg & Hts). inversion Hts; subst. destruct fuel as [|fuel]; [lia|].
  rewrite (parse_tok _ _ _ _ _ _ _ _ _ Hg). cbn [ctx_hash andb]. change (streq (str "NULL") "{") with false.
  change (streq (str "NULL") "}") with false. change (streq (str "NULL") ",") with false. change (streq (str "NULL") "NULL") with true.
  cbn [andb]. rewrite rbind_Ret. apply tok_at_shorter in Hg. apply (HR fuel None None); [lia|].
  cbn [finalize_array_entry]. do 2 f_equal. pose proof (ctx_add_spec _ _ Hfit) as E. cbn [init_node data_node_is_empty ctx_hash] in E.
  by injection E.
Qed.

(** A nested initializer whose loop gives the node [n]. *)
Lemma value_nested x b ts n f f1 fuel R :
  ctx_fits x n → Toks (str "{" :: ts ++ [str "}"]) f f1 → (length f < fuel)%nat →
  (∀ g, Toks (ts ++ [str "}"]) g f1 → array_is_hash g = Ret b) →
  (∀ g fuel', Toks (ts ++ [str "}"]) g f1 → (length g < fuel')%nat →
    parse_array_loop m fuel' g b None None 0 (if b then data_node_hash else data_node_array) = Ret (0, n, f1)) →
  (∀ fuel' val' id' ret', (length f1 < fuel')%nat →
    finalize_array_entry val' id' ret' = Ret (None, None, ctx_add x n) →
    parse_array_loop m fuel' f1 (ctx_hash x) val' id' 0 ret' = R) →
  parse_array_loop m fuel f (ctx_hash x) None (ctx_id x) 0 (ctx_node x) = R.
Proof.
  intros Hfit Hts Hf Hb Hloop HR. apply Toks_inv in Hts as (g & Hg & Hts). destruct fuel as [|fuel]; [lia|].
  rewrite (parse_tok _ _ _ _ _ _ _ _ _ Hg). change (streq (str "{") "{") with true. cbn iota. apply tok_at_shorter in Hg.
  rewrite (Hb g Hts), rbind_Ret, (Hloop g fuel Hts) by lia. rewrite rbind_Ret, (ctx_add_spec x n Hfit), rbind_Ret.
  apply HR; [|done]. apply Toks_shorter in Hts. lia.
Qed.

Lemma value_arr trail l : reads_inits l → reads_value (IArr trail l).
Proof.
  intros IH x f f1 fuel R [Hl Hlen] _ Hfit Hts Hf HR. eapply (value_nested x false); [exact Hfit|exact Hts|done|..|done].
  - intros g Hg. by eapply array_not_hash.
  - intros g fuel' Hg Hf'. exact (IH trail g f1 fuel' [] Hl Hg Hf' Hlen).
Qed.

Lemma value_hash trail l : reads_fields l → reads_value (IHash trail l).
Proof.
  intros IH x f f1 fuel R (Hn & Hl & Hlen) _ Hfit Hts Hf HR. eapply (value_nested x true); [exact Hfit|exact Hts|done|..|done].
  - intros g Hg. by eapply struct_is_hash.
  - intros g fuel' Hg Hf'. exact (IH trail g f1 fuel' [] Hl Hg Hf' Hlen).
Qed.

(** The comma or the brace after a value. *)
Lemma after_value (b trail last : bool) ts f f1 fuel val id ret ret' R :
  Toks (comma trail last ++ ts ++ [str "}"]) f f1 → (last = true → ts = []) → (length f < fuel)%nat →
  finalize_array_entry val id ret = Ret (None, None, ret') →
  (last = true → Ret (0, if b then ret' else
             match data_node_array_last ret' with
             | Some DATA_NULL => data_node_array_last_rem ret'
             | _ => ret'
             end, f1) = R) →
  (∀ g fuel', Toks (ts ++ [str "}"]) g f1 → (length g < fuel')%nat → parse_array_loop m fuel' g b None None 0 ret' = R) →
  parse_array_loop m fuel f b val id 0 ret = R.
Proof.
  intros Hts Hlast Hf Efin Hend Hnext. destruct fuel as [|fuel]; [lia|].
  apply after_elem in Hts; [|done]. destruct Hts as [(g & Hg & Hts)|[Hl Hg]]; rewrite (parse_tok _ _ _ _ _ _ _ _ _ Hg).
  - change (streq (str ",") "{") with false. change (streq (str ",") "}") with false. change (streq (str ",") "=") with false.
    change (streq (str ",") ",") with true. rewrite andb_false_r. cbn [andb Z.leb Z.compare]. rewrite Efin, rbind_Ret.
    apply tok_at_shorter in Hg. apply Hnext; [done|lia].
  - change (streq (str "}") "{") with false. change (streq (str "}") "}") with true. cbn iota. rewrite Efin, rbind_Ret. by apply Hend.
Qed.

Lemma inits_nil : reads_inits INil.
Proof.
  intros trail f f1 fuel acc _ Hts Hf Hlen. apply Toks_inv in Hts as (g & Hg & Hts). inversion Hts; subst.
  destruct fuel as [|fuel]; [lia|]. rewrite (parse_tok _ _ _ _ _ _ _ _ _ Hg). cbn [inits_nodes]. rewrite app_nil_r.
  change (streq (str "}") "{") with false. change (streq (str "}") "}") with true. cbn. unfold strip_null. by repeat case_match.
Qed.

Lemma inits_cons i l : reads_value i → reads_inits l → reads_inits (ICons i l).
Proof.
  intros Hi Hl trail f f1 fuel acc [Hiok Hlok] Hts Hf Hlen. cbn [inits_toks inits_nodes] in *.
  rewrite <- app_assoc in Hts. apply Toks_app in Hts as (g & Hg & Hts). rewrite <- app_assoc in Hts.
  rewrite app_assoc in Hlen |- *. pose proof Hlen as Hlen'. rewrite length_app in Hlen'.
  eapply (Hi (CArr acc)); [done|done|cbn; lia|exact Hg|done|]. intros fuel' val' id' ret' Hf' Efin. cbn [ctx_add ctx_hash] in *.
  eapply after_value; [exact Hts|apply inits_end|done|exact Efin| |].
  - intros El. destruct l; [|done]. cbn [inits_nodes]. rewrite app_nil_r. cbn. unfold strip_null. by repeat case_match.
  - intros h fuel'' Hh Hf''. by apply (Hl trail).
Qed.

Lemma fields_nil : reads_fields FNil.
Proof.
  intros trail f f1 fuel acc _ Hts Hf Hlen. apply Toks_inv in Hts as (g & Hg & Hts). inversion Hts; subst.
  destruct fuel as [|fuel]; [lia|]. rewrite (parse_tok _ _ _ _ _ _ _ _ _ Hg). cbn [fields_nodes]. by rewrite app_nil_r.
Qed.

Lemma fields_cons id i l : reads_value i → reads_fields l → reads_fields (FCons id i l).
Proof.
  intros Hi Hl trail f f1 fuel acc (Hid & Hp & Hm & Hnull & Hiok & Hlok) Hts Hf Hlen. cbn [fields_toks fields_nodes app] in *.
  destruct id as [|c key]; [done|]. change (drop 1 (c :: key)) with key in *.
  apply Toks_inv in Hts as (g1 & Hg1 & Hts). apply Toks_inv in Hts as (g2 & Hg2 & Hts). apply tok_at_shorter in Hg2 as Hs2.
  eapply (parse_plain [c :: key]); [by constructor|done|econstructor; [exact Hg1|constructor]|done|].
  intros [|fuel1] Hf1; [lia|]. rewrite (parse_tok _ _ _ _ _ _ _ _ _ Hg2).
  change (streq (str "=") "{") with false. change (streq (str "=") "}") with false. change (streq (str "=") "=") with true.
  cbn [default app]. replace (val_str [c :: key]) with (c :: key); [|unfold val_str, try_apply_macro; cbn; by rewrite Hm, app_nil_r].
  rewrite bool_decide_false by (by intros []). cbn [andb negb].
  rewrite <- app_assoc in Hts. apply Toks_app in Hts as (g & Hg & Hts). rewrite <- app_assoc in Hts.
  rewrite app_assoc in Hlen |- *. pose proof Hlen as Hlen'. rewrite length_app in Hlen'.
  eapply (Hi (CHash c key acc)); [done|done|cbn [ctx_fits]; lia|exact Hg|lia|]. intros fuel' val' id' ret' Hf' Efin. cbn [ctx_add ctx_hash] in *.
  eapply after_value; [exact Hts|apply fields_end|done|exact Efin| |].
  - intros El. destruct l; [|done]. cbn [fields_nodes]. by rewrite app_nil_r.
  - intros h fuel'' Hh Hf''. by apply (Hl trail).
Qed.

Lemma reads_init : (∀ i, reads_value i) ∧ (∀ l, reads_inits l) ∧ (∀ l, reads_fields l).
Proof.
  apply init_all_ind.
  - exact value_val.
  - exact value_null.
  - intros. by apply value_arr.
  - intros. by apply value_hash.
  - exact inits_nil.
  - intros. by apply inits_cons.
  - exact fields_nil.
  - intros. by apply fields_cons.
Qed.

(** [parse_array] after the opening brace of a list or a structure. *)
Lemma parse_array_list trail l f f1 :
  init_ok (IArr trail l) → Toks (inits_toks trail l ++ [str "}"]) f f1 →
  parse_array m f = Ret (0, init_node (IArr trail l), f1).
Proof.
  intros [Hl Hlen] Hts. unfold parse_array. rewrite (array_not_hash trail l f f1 Hl Hts), rbind_Ret.
  by apply (proj1 (proj2 reads_init) l trail f f1 _ []); [| |lia|].
Qed.

Lemma parse_array_struct trail l f f1 :
  init_ok (IHash trail l) → Toks (fields_toks trail l ++ [str "}"]) f f1 →
  parse_array m f = Ret (0, init_node (IHash trail l), f1).
Proof.
  intros (Hn & Hl & Hlen) Hts. unfold parse_array. rewrite (struct_is_hash trail l f f1 Hl Hn Hts), rbind_Ret.
  by apply (proj2 (proj2 reads_init) l trail f f1 _ []); [| |lia|].
Qed.
End Init.

(** ** The theorem *)

(** [parse_array], called after the opening brace of an initializer
    whose text has any blanks between its tokens, reads it up to the closing
    brace and gives its metadata: a list for a list, a table for a structure
    with designators, nested as they are, the tokens of a value glued with
    the macros replaced, without empty initializers and without the null
    pointer that ends a list. *)
Theorem parse_array_correct (m : macros) (i : init) (ls : list lexeme) (f r : list Z) :
  init_ok m i → spells ls f r → str "{" :: (lex_val <$> ls) = init_toks i →
  ∃ r', parse_array m f = Ret (0, init_node m i, r') ∧ skips r r'.
Proof.
  intros Hi Hsp Els. destruct (spells_toks ls f r f Hsp (or_introl eq_refl)) as (r' & Hts & Hr). exists r'. split; [|done].
  destruct i as [ts| |trail l|trail l]; cbn [init_toks] in Els; [|done|injection Els as Els; rewrite Els in Hts..].
  - destruct Hi as [_ Hp]. rewrite <- Els in Hp. apply Forall_cons in Hp as [Hp _]. destruct Hp. by left.
  - by apply parse_array_list.
  - by apply parse_array_struct.
Qed.
