(* ===== verification/MetaparseSize.v ===== *)
(** * The sizes of arrays

    [parse_get_array_len] counts the elements of an initializer, and
    [look_for_array_size] finds the initializer of an array in the file. *)

From stdpp Require Import gmap.
From S2P Require Import Prelude DataStorage Metaparse MetaparseEnds MetaparseLex MetaparseInit.
Open Scope Z_scope.

Lemma len_tok fuel f t f1 cnt depth comma :
  tok_at f t f1 → get_array_len_loop (S fuel) f cnt depth comma =
  (let depth := if streq t "{" then depth + 1 else depth in
   let '(depth, comma) := if streq t "}" then (depth - 1, comma) else (depth, false) in
   let '(comma, cnt) := if streq t "," && (depth =? 0) then (true, cnt + 1) else (comma, cnt) in
   if depth <? 0 then Ret (cnt + c_bool (negb comma), f1) else get_array_len_loop fuel f1 cnt depth comma).
Proof. intros H. cbn [get_array_len_loop]. by rewrite (tok_at_next _ _ _ H), rbind_Ret. Qed.

(** Tokens that change nothing but [prev_comma], at the depths from [least]. *)
Definition inner (least : Z) (ts : list (list Z)) : Prop := ∀ f f1 cnt depth fuel comma R,
  Toks ts f f1 → least ≤ depth → (length f < fuel)%nat → (ts = [] → comma = false) →
  (∀ fuel', (length f1 < fuel')%nat → get_array_len_loop fuel' f1 cnt depth false = R) →
  get_array_len_loop fuel f cnt depth comma = R.

Lemma inner_nil d : inner d [].
Proof. intros f f1 cnt depth fuel comma R Hts _ Hf Hc HR. inversion Hts; subst. rewrite Hc by done. by apply HR. Qed.

Lemma inner_app d ts1 ts2 : inner d ts1 → inner d ts2 → inner d (ts1 ++ ts2).
Proof.
  intros H1 H2 f f1 cnt depth fuel comma R Hts Hd Hf Hc HR. apply Toks_app in Hts as (g & Hg1 & Hg2).
  destruct ts1 as [|t ts1]; [inversion Hg1; subst; by eapply H2|].
  eapply H1; [exact Hg1|done|done|done|]. intros fuel' Hf'. by eapply H2.
Qed.

Lemma inner_tok d t : 0 ≤ d → t ≠ str "{" → t ≠ str "}" → (t ≠ str "," ∨ 0 < d) → inner d [t].
Proof.
  intros H0 H1 H2 H3 f f1 cnt depth fuel comma R Hts Hd Hf _ HR. apply Toks_inv in Hts as (g & Hg & Hts). inversion Hts; subst.
  destruct fuel as [|fuel]; [lia|]. rewrite (len_tok _ _ _ _ _ _ _ Hg).
  assert (streq t "{" = false ∧ streq t "}" = false) as [-> ->] by (split; by apply bool_decide_eq_false_2). cbv zeta.
  assert (streq t "," && (depth =? 0) = false) as ->.
  { unfold streq. destruct H3 as [H3|H3]; [by rewrite bool_decide_false|]. rewrite (proj2 (Z.eqb_neq depth 0)) by lia. apply andb_false_r. }
  rewrite (proj2 (Z.ltb_ge depth 0)) by lia. apply HR. apply tok_at_shorter in Hg. lia.
Qed.

Lemma inner_braces d ts : 0 ≤ d → inner 1 ts → inner d (str "{" :: ts ++ [str "}"]).
Proof.
  intros H0 H f f1 cnt depth fuel comma R Hts Hd Hf _ HR. apply Toks_inv in Hts as (g & Hg & Hts). apply Toks_app in Hts as (h & Hh & Hts).
  apply Toks_inv in Hts as (k & Hk & Hts). inversion Hts; subst. apply tok_at_shorter in Hg as Hs. destruct fuel as [|fuel]; [lia|].
  rewrite (len_tok _ _ _ _ _ _ _ Hg). change (streq (str "{") "{") with true. change (streq (str "{") "}") with false.
  change (streq (str "{") ",") with false. cbn [andb]. rewrite (proj2 (Z.ltb_ge (depth + 1) 0)) by lia.
  eapply H; [exact Hh|lia|lia|done|]. intros [|fuel'] Hf'; [lia|]. rewrite (len_tok _ _ _ _ _ _ _ Hk).
  change (streq (str "}") "{") with false. change (streq (str "}") "}") with true. change (streq (str "}") ",") with false. cbn [andb].
  replace (depth + 1 - 1) with depth by lia. rewrite (proj2 (Z.ltb_ge depth 0)) by lia. apply HR. apply tok_at_shorter in Hk. lia.
Qed.

Lemma inner_plain d ts : 0 ≤ d → Forall plain ts → inner d ts.
Proof.
  intros Hd. induction 1 as [|t ts Ht _ IH]; [apply inner_nil|]. apply (inner_app d [t]); [|done].
  assert (∀ s, str s ∈ specials → t ≠ str s) as Hne by (intros s Hs ->; by apply Ht).
  apply inner_tok; [done|..]; [| |left]; apply Hne; apply (bool_decide_unpack _); vm_compute; exact I.
Qed.

Lemma inner_comma d trail last : 0 < d → inner d (comma trail last).
Proof. intros Hd. unfold comma. case_match; [apply inner_nil|]. apply inner_tok; [lia|done|done|by right]. Qed.

Section Size.
Context (m : macros).

Lemma inner_init :
  (∀ i, init_ok m i → ∀ d, 0 ≤ d → inner d (init_toks i)) ∧
  (∀ l, inits_ok m l → ∀ trail, inner 1 (inits_toks trail l)) ∧
  (∀ l, fields_ok m l → ∀ trail, inner 1 (fields_toks trail l)).
Proof.
  apply init_all_ind.
  - intros ts [_ H] d Hd. by apply inner_plain.
  - intros _ d Hd. apply inner_tok; [done|done|done|by left].
  - intros trail l IH [Hl _] d Hd. apply inner_braces; [done|]. by apply IH.
  - intros trail l IH (_ & Hl & _) d Hd. apply inner_braces; [done|]. by apply IH.
  - intros _ trail. apply inner_nil.
  - intros i IHi l IHl [Hi Hl] trail. cbn. apply inner_app; [by apply IHi|]. apply inner_app; [by apply inner_comma|by apply IHl].
  - intros _ trail. apply inner_nil.
  - intros id i IHi l IHl (_ & Hid & _ & _ & Hi & Hl) trail. cbn.
    apply (inner_app 1 [id]); [by apply inner_plain; [|constructor]|].
    apply (inner_app 1 [str "="]); [by apply inner_tok; [| | |left]|].
    apply inner_app; [by apply IHi|]. apply inner_app; [by apply inner_comma|by apply IHl].
Qed.

Fixpoint inits_len (l : inits) : Z := match l with INil => 0 | ICons _ l => 1 + inits_len l end.

Lemma init_toks_ne i : init_ok m i → init_toks i ≠ [].
Proof. destruct i; cbn; [by intros [? _]|done..]. Qed.

(** [comma] is whether a comma was read before. *)
Lemma len_inits trail l f f1 fuel cnt comma :
  inits_ok m l → Toks (inits_toks trail l ++ [str "}"]) f f1 → (length f < fuel)%nat →
  get_array_len_loop fuel f cnt 0 comma = Ret (cnt + (match l with INil => c_bool (negb comma) | _ => inits_len l end), f1).
Proof.
  revert f fuel cnt comma. induction l as [|i l IH]; intros f fuel cnt comma Hok Hts Hf.
  { apply Toks_inv in Hts as (g & Hg & Hts). inversion Hts; subst. destruct fuel as [|fuel]; [lia|]. by rewrite (len_tok _ _ _ _ _ _ _ Hg). }
  destruct Hok as [Hi Hl]. cbn [inits_toks] in Hts. rewrite <- app_assoc in Hts. apply Toks_app in Hts as (g & Hg & Hts).
  rewrite <- app_assoc in Hts. apply after_elem in Hts; [|apply inits_end].
  eapply (proj1 inner_init i Hi 0); [lia|exact Hg|lia|done|intros E; by apply init_toks_ne in E|]. intros [|fuel'] Hf'; [lia|].
  destruct Hts as [(h & Hh & Hts)|[El Hh]]; rewrite (len_tok _ _ _ _ _ _ _ Hh).
  - change (streq (str ",") "{") with false. change (streq (str ",") "}") with false. change (streq (str ",") ",") with true.
    cbn [andb Z.eqb]. change (0 <? 0) with false. cbn iota. apply tok_at_shorter in Hh. rewrite (IH h fuel') by (done || lia).
    destruct l; cbn [inits_len c_bool negb]; do 2 f_equal; lia.
  - destruct l; [|done]. by vm_compute.
Qed.

(** The length of a list that has an element. *)
Lemma array_len_list trail l f f1 :
  inits_ok m l → l ≠ INil → Toks (init_toks (IArr trail l)) f f1 → parse_get_array_len f = Ret (inits_len l, f1).
Proof.
  intros Hok Hne Hts. cbn [init_toks] in Hts. apply Toks_inv in Hts as (g & Hg & Hts). unfold parse_get_array_len.
  rewrite (tok_at_next _ _ _ Hg), rbind_Ret. change (streq (str "{") "{") with true. cbn iota.
  rewrite (len_inits trail l g f1 _ 0 false Hok Hts) by lia. by destruct l.
Qed.

(** ** Finding the array *)

(** Whether one of the tokens is the equals sign of [arr]; [prev] is the last
    token that is no bracket. *)
Fixpoint assigns (arr prev : list Z) (ts : list (list Z)) : bool :=
  match ts with
  | [] => false
  | t :: ts => (streq t "=" && bool_decide (prev = arr)) ||
               assigns arr (if negb (streq t "]") && negb (streq t "[") then t else prev) ts
  end.

Lemma look_tok fuel f t f1 arr prev :
  tok_at f t f1 → look_for_array_size (S fuel) f arr prev =
  (if streq t "=" && bool_decide (prev = arr) then '(n, _) ← parse_get_array_len f1; Ret (Some (DATA_INT n))
   else look_for_array_size fuel f1 arr (if negb (streq t "]") && negb (streq t "[") then t else prev)).
Proof. intros H. cbn [look_for_array_size]. by rewrite (H 2048%nat None), rbind_Ret by (unfold SMALL; lia). Qed.

Lemma look_skip ts arr prev f f1 fuel R :
  assigns arr prev ts = false → Toks ts f f1 → (length f < fuel)%nat →
  (∀ fuel' prev', (length f1 < fuel')%nat → look_for_array_size fuel' f1 arr prev' = R) →
  look_for_array_size fuel f arr prev = R.
Proof.
  revert f fuel prev. induction ts as [|t ts IH]; intros f fuel prev Hn Hts Hf HR; [inversion Hts; subst; by apply HR|].
  cbn [assigns] in Hn. apply orb_false_iff in Hn as [H1 H2]. apply Toks_inv in Hts as (g & Hg & Hts).
  apply tok_at_shorter in Hg as Hs. destruct fuel as [|fuel]; [lia|]. rewrite (look_tok _ _ _ _ _ _ Hg), H1.
  by eapply IH; [exact H2|exact Hts|lia|].
Qed.
End Size.

(** The size of an array, where the file spells its definition
    [arr[] = { ... }] with a list of at least one element, and before it no
    other equals sign after the name: [look_for_array_size] finds the number
    of the elements, nested initializers counting once and a comma before
    the closing brace not at all. *)
Theorem array_size_correct (m : macros) (arr : list Z) (before : list (list Z)) (trail : bool) (l : inits) (after : list (list Z))
    (ls : list lexeme) (f r : list Z) :
  spells ls f r → lex_val <$> ls = before ++ [arr; str "["; str "]"; str "="] ++ init_toks (IArr trail l) ++ after →
  assigns arr [] (before ++ [arr]) = false → arr ∉ str <$> ["["; "]"; "="]%string → inits_ok m l → l ≠ INil →
  look_for_size f arr = Ret (Some (DATA_INT (inits_len l))).
Proof.
  intros Hsp Els Hb Harr Hl Hne. destruct (spells_toks ls f r f Hsp (or_introl eq_refl)) as (r' & Hts & _). rewrite Els in Hts.
  apply Toks_app in Hts as (g & Hg & Hts). apply Toks_app in Hts as (h & Hh & Hts). apply Toks_app in Hts as (k & Hk & _).
  apply Toks_inv in Hh as (h1 & Hh1 & Hh). apply Toks_inv in Hh as (h2 & Hh2 & Hh). apply Toks_inv in Hh as (h3 & Hh3 & Hh).
  apply Toks_inv in Hh as (h4 & Hh4 & Hh). inversion Hh; subst. unfold look_for_size.
  assert (assigns arr [] before = false) as Hb'.
  { clear -Hb. revert Hb. generalize (@nil Z). induction before as [|t before IH]; intros prev Hb; [done|]. cbn in *.
    apply orb_false_iff in Hb as [-> Hb]. by apply IH. }
  eapply look_skip; [exact Hb'|exact Hg|lia|]. intros fuel' prev Hf'.
  apply tok_at_shorter in Hh1 as S1. apply tok_at_shorter in Hh2 as S2. apply tok_at_shorter in Hh3 as S3. apply tok_at_shorter in Hh4 as S4.
  assert (streq arr "=" = false ∧ streq arr "[" = false ∧ streq arr "]" = false) as (A1 & A2 & A3).
  { cbn in Harr. rewrite !not_elem_of_cons in Harr. unfold streq. rewrite !bool_decide_false by tauto. done. }
  destruct fuel' as [|[|[|[|fuel']]]]; [lia..|]. rewrite (look_tok _ _ _ _ _ _ Hh1), A1, A2, A3. cbn [andb negb].
  rewrite (look_tok _ _ _ _ _ _ Hh2). cbn [andb]. change (streq (str "[") "=") with false. cbn [andb].
  change (negb (streq (str "[") "]") && negb (streq (str "[") "[")) with false. cbn iota.
  rewrite (look_tok _ _ _ _ _ _ Hh3). change (streq (str "]") "=") with false. cbn [andb].
  change (negb (streq (str "]") "]") && negb (streq (str "]") "[")) with false. cbn iota.
  rewrite (look_tok _ _ _ _ _ _ Hh4). change (streq (str "=") "=") with true. rewrite bool_decide_true by done. cbn [andb].
  by rewrite (array_len_list m trail l _ _ Hl Hne Hk), rbind_Ret.
Qed.
