(* ===== verification/MetaparseFile.v ===== *)
(** * Test structures

    The tokens of the fields of a test structure and the metadata they stand
    for; [parse_test_struct] computes it. *)

From stdpp Require Import gmap.
From S2P Require Import Prelude DataStorage DataStorageFacts Metaparse MetaparseEnds MetaparseLex MetaparseInit.
Open Scope Z_scope.

(** A field is set to a token, of which [extra] is the rest of the
    expression, to an initializer after a cast, or to the size of an array. *)
Inductive field :=
  | FTok (name t : list Z) (extra : list (list Z))
  | FList (name : list Z) (cast : option (list (list Z))) (trail : bool) (l : inits)
  | FStruct (name : list Z) (cast : option (list (list Z))) (trail : bool) (l : fields)
  | FSize (name arr : list Z) (n : data_node).

Definition field_name (x : field) : list Z :=
  match x with FTok name _ _ | FList name _ _ _ | FStruct name _ _ _ | FSize name _ _ => name end.

Definition cast_toks (cast : option (list (list Z))) : list (list Z) :=
  match cast with Some ts => str "(" :: ts ++ [str ")"] | None => [] end.

Definition value_toks (x : field) : list (list Z) :=
  match x with
  | FTok _ t extra => t :: extra
  | FList _ cast trail l => cast_toks cast ++ init_toks (IArr trail l)
  | FStruct _ cast trail l => cast_toks cast ++ init_toks (IHash trail l)
  | FSize _ arr _ => [str "ARRAY_SIZE"; str "("; arr; str ")"]
  end.

Fixpoint struct_toks (trail : bool) (l : list field) : list (list Z) :=
  match l with
  | [] => []
  | x :: l => field_name x :: str "=" :: value_toks x ++
              comma trail (match l with [] => true | _ => false end) ++ struct_toks trail l
  end.

(** Tokens that do not end what is skipped. *)
Definition other (l : list string) (t : list Z) : Prop := t ∉ str <$> l.

Section File.
Context (cf : config) (m : macros) (all : list Z).

Definition field_ok (x : field) : Prop :=
  other ["}"; "#"]%string (field_name x) ∧
  match x with
  | FTok _ t extra =>
      other ["}"; "#"; "("; "{"; "ARRAY_SIZE"]%string t ∧ Forall (other ["}"; "#"; ","]%string) extra
  | FList _ cast trail l => Forall (other ["}"; "#"; ")"]%string) (default [] cast) ∧ init_ok m (IArr trail l)
  | FStruct _ cast trail l => Forall (other ["}"; "#"; ")"]%string) (default [] cast) ∧ init_ok m (IHash trail l)
  | FSize _ arr n => look_for_size all arr = Ret (Some n)
  end.

Definition field_key (x : field) : list Z :=
  let name := field_name x in if bool_decide (head name = Some ("."%cc)) then drop 1 name else name.

Definition field_node (x : field) : data_node :=
  match x with
  | FTok _ t _ => DATA_STRING (try_apply_macro m t)
  | FList _ _ trail l => init_node m (IArr trail l)
  | FStruct _ _ trail l => init_node m (IHash trail l)
  | FSize _ _ n => n
  end.

Definition struct_nodes (l : list field) : list (list Z * data_node) := (λ x, (field_key x, field_node x)) <$> l.

(** ** The loop over the fields *)

Lemma other_streq l t s : other l t → s ∈ l → streq t s = false.
Proof. intros Ht Hs. apply bool_decide_eq_false_2. intros ->. apply Ht. by apply list_elem_of_fmap_2. Qed.

Ltac other_tac H := rewrite !(other_streq _ _ _ H) by (apply (bool_decide_unpack _); vm_compute; exact I).

(** What happens to a token that is neither the end nor a directive. *)
Definition struct_step (fuel : nat) (t f : list Z) (state : Z) (id : option (list Z)) (doc node : data_node) :
    res (Z * list Z * data_node * data_node) :=
  let continue f state id node := test_struct_loop cf m fuel all f state id doc node in
  let store ret f :=
    match ret, id with
    | None, _ => continue f state id node
    | Some _, None => UB
    | Some ret, Some key =>
        let key := if bool_decide (head key = Some ("."%cc)) then drop 1 key else key in
        continue f 4 id (snd (data_node_hash_add node key ret))
    end in
  if state =? 0 then continue f 1 (Some t) node
  else if state =? 1 then continue f (if streq t "=" then 2 else 1) id node
  else if (state =? 2) && streq t "(" then continue f 3 id node
  else if state =? 3 then continue f (if streq t ")" then 2 else 3) id node
  else if state =? 4 then continue f (if streq t "," then 0 else 4) id node
  else if streq t "{" then
    '(_, ret, f) ← parse_array m f; store (Some ret) f
  else if streq t "ARRAY_SIZE" then
    '(r, ret, f) ← parse_array_size cf all f;
    if negb (r =? 0) then Ret (1, f, doc, node) else store ret f
  else store (Some (DATA_STRING (try_apply_macro m t))) f.

Lemma struct_tok fuel f t f1 state id doc node :
  tok_at f t f1 → other ["}"; "#"]%string t →
  test_struct_loop cf m (S fuel) all f state id doc node = struct_step fuel t f1 state id doc node.
Proof. intros H Ht. cbn [test_struct_loop]. rewrite (tok_at_doc _ _ _ (Some doc) H), rbind_Ret. cbv zeta. cbn [default]. by other_tac Ht. Qed.

Lemma other_incl l l' t : other l t → l' ⊆ l → other l' t.
Proof. intros H Hl Hin. apply H. apply list_elem_of_fmap in Hin as (s & -> & Hs). apply list_elem_of_fmap_2. by apply Hl. Qed.

Ltac incl_tac := intros ?; rewrite !elem_of_cons; tauto.

(** Tokens that are skipped in the states 3 and 4. *)
Lemma struct_skip stop state ts f f1 fuel id doc node R :
  (state = 3 ∧ stop = ")"%string ∨ state = 4 ∧ stop = ","%string) →
  Forall (other ["}"; "#"; stop]%string) ts → Toks ts f f1 → (length f < fuel)%nat →
  (∀ fuel', (length f1 < fuel')%nat → test_struct_loop cf m fuel' all f1 state id doc node = R) →
  test_struct_loop cf m fuel all f state id doc node = R.
Proof.
  intros Hs Hts. revert f fuel. induction Hts as [|t ts Ht _ IH]; intros f fuel Hf Hlen HR.
  { inversion Hf; subst. by apply HR. }
  apply Toks_inv in Hf as (g & Hg & Hts). destruct fuel as [|fuel]; [lia|].
  rewrite (struct_tok _ _ _ _ _ _ _ _ Hg) by (eapply other_incl; [exact Ht|incl_tac]).
  apply tok_at_shorter in Hg as Hsh. unfold struct_step. cbv zeta.
  destruct Hs as [[-> ->]|[-> ->]]; cbn [Z.eqb Pos.eqb andb]; rewrite (other_streq _ _ _ Ht) by (rewrite !elem_of_cons; auto); (apply IH; [done|lia|done]).
Qed.

(** The name and the equals sign. *)
Lemma struct_name name f f1 fuel id0 doc node R :
  other ["}"; "#"]%string name → Toks [name; str "="] f f1 → (length f < fuel)%nat →
  (∀ fuel', (length f1 < fuel')%nat → test_struct_loop cf m fuel' all f1 2 (Some name) doc node = R) →
  test_struct_loop cf m fuel all f 0 id0 doc node = R.
Proof.
  intros Hname Hts Hf HR. apply Toks_inv in Hts as (g1 & Hg1 & Hts). apply Toks_inv in Hts as (g2 & Hg2 & Hts).
  inversion Hts; subst. apply tok_at_shorter in Hg1 as Hs1. apply tok_at_shorter in Hg2 as Hs2.
  destruct fuel as [|[|fuel]]; [lia..|]. rewrite (struct_tok _ _ _ _ _ _ _ _ Hg1) by done.
  change (test_struct_loop cf m (S fuel) all g1 1 (Some name) doc node = R).
  rewrite (struct_tok _ _ _ _ _ _ _ _ Hg2) by (apply (bool_decide_unpack _); vm_compute; exact I). apply HR. lia.
Qed.

(** A cast before the value. *)
Lemma struct_cast cast f f1 fuel id doc node R :
  Forall (other ["}"; "#"; ")"]%string) (default [] cast) → Toks (cast_toks cast) f f1 → (length f < fuel)%nat →
  (∀ fuel', (length f1 < fuel')%nat → test_struct_loop cf m fuel' all f1 2 id doc node = R) →
  test_struct_loop cf m fuel all f 2 id doc node = R.
Proof.
  intros Hc Hts Hf HR. destruct cast as [ts|]; cbn [cast_toks default] in *; [|inversion Hts; subst; by apply HR].
  apply Toks_inv in Hts as (g1 & Hg1 & Hts). apply Toks_app in Hts as (g2 & Hg2 & Hts). apply Toks_inv in Hts as (g3 & Hg3 & Hts).
  inversion Hts; subst. apply tok_at_shorter in Hg1 as Hs1. destruct fuel as [|fuel]; [lia|].
  rewrite (struct_tok _ _ _ _ _ _ _ _ Hg1) by (apply (bool_decide_unpack _); vm_compute; exact I).
  change (test_struct_loop cf m fuel all g1 3 id doc node = R).
  eapply (struct_skip ")" 3); [by left|exact Hc|exact Hg2|lia|]. intros [|fuel'] Hf'; [lia|].
  rewrite (struct_tok _ _ _ _ _ _ _ _ Hg3) by (apply (bool_decide_unpack _); vm_compute; exact I).
  apply HR. apply tok_at_shorter in Hg3. lia.
Qed.

(** The tokens of an initializer in the place of a value. *)
Lemma struct_init ts n f f1 fuel name doc acc R :
  Toks (str "{" :: ts ++ [str "}"]) f f1 → (length f < fuel)%nat → (length acc < MAX_ELEMS)%nat →
  (∀ g, Toks (ts ++ [str "}"]) g f1 → parse_array m g = Ret (0, n, f1)) →
  (∀ fuel' id, (length f1 < fuel')%nat → test_struct_loop cf m fuel' all f1 4 id doc
    (DATA_HASH (acc ++ [(if bool_decide (head name = Some ("."%cc)) then drop 1 name else name, n)])) = R) →
  test_struct_loop cf m fuel all f 2 (Some name) doc (DATA_HASH acc) = R.
Proof.
  intros Hts Hf Hacc Hp HR. apply Toks_inv in Hts as (g & Hg & Hts). apply tok_at_shorter in Hg as Hs. destruct fuel as [|fuel]; [lia|].
  rewrite (struct_tok _ _ _ _ _ _ _ _ Hg) by (apply (bool_decide_unpack _); vm_compute; exact I).
  unfold struct_step. cbv zeta. cbn [Z.eqb Pos.eqb]. change (streq (str "{") "(") with false. change (streq (str "{") "{") with true.
  cbn [andb]. rewrite (Hp g Hts), rbind_Ret. cbn [data_node_hash_add]. rewrite decide_False by lia. apply HR.
  apply Toks_shorter in Hts. lia.
Qed.

Lemma struct_value x f f1 fuel doc acc R :
  field_ok x → (length acc < MAX_ELEMS)%nat → Toks (value_toks x) f f1 → (length f < fuel)%nat →
  (∀ fuel' id, (length f1 < fuel')%nat →
    test_struct_loop cf m fuel' all f1 4 id doc (DATA_HASH (acc ++ [(field_key x, field_node x)])) = R) →
  test_struct_loop cf m fuel all f 2 (Some (field_name x)) doc (DATA_HASH acc) = R.
Proof.
  intros [_ Hx] Hacc Hts Hf HR. destruct x as [name t extra|name cast trail l|name cast trail l|name arr n]; cbn [value_toks field_name] in *.
  - destruct Hx as [Ht Hextra]. apply Toks_inv in Hts as (g & Hg & Hts). apply tok_at_shorter in Hg as Hs. destruct fuel as [|fuel]; [lia|].
    rewrite (struct_tok _ _ _ _ _ _ _ _ Hg) by (eapply other_incl; [exact Ht|incl_tac]).
    unfold struct_step. cbv zeta. cbn [Z.eqb Pos.eqb]. other_tac Ht. cbn [andb data_node_hash_add]. rewrite decide_False by lia.
    eapply (struct_skip "," 4); [by right|exact Hextra|exact Hts|cbn [snd]; lia|]. intros fuel' Hf'. by apply HR.
  - destruct Hx as [Hc Hl]. apply Toks_app in Hts as (g & Hg & Hts). eapply struct_cast; [exact Hc|exact Hg|done|]. intros fuel' Hf'.
    eapply struct_init; [exact Hts|done|done| |exact HR]. intros h Hh. by apply parse_array_list.
  - destruct Hx as [Hc Hl]. apply Toks_app in Hts as (g & Hg & Hts). eapply struct_cast; [exact Hc|exact Hg|done|]. intros fuel' Hf'.
    eapply struct_init; [exact Hts|done|done| |exact HR]. intros h Hh. by apply parse_array_struct.
  - apply Toks_inv in Hts as (g1 & Hg1 & Hts). apply Toks_inv in Hts as (g2 & Hg2 & Hts). apply Toks_inv in Hts as (g3 & Hg3 & Hts).
    apply tok_at_shorter in Hg1 as Hs1. apply tok_at_shorter in Hg2 as Hs2. apply tok_at_shorter in Hg3 as Hs3. destruct fuel as [|fuel]; [lia|].
    rewrite (struct_tok _ _ _ _ _ _ _ _ Hg1) by (apply (bool_decide_unpack _); vm_compute; exact I).
    unfold struct_step. cbv zeta. cbn [Z.eqb Pos.eqb]. change (streq (str "ARRAY_SIZE") "(") with false.
    change (streq (str "ARRAY_SIZE") "{") with false. change (streq (str "ARRAY_SIZE") "ARRAY_SIZE") with true. cbn [andb].
    unfold parse_array_size. rewrite (tok_at_next _ _ _ Hg2), rbind_Ret. change (streq (str "(") "(") with true. cbn [negb].
    rewrite (tok_at_next _ _ _ Hg3), rbind_Ret, Hx, rbind_Ret, rbind_Ret. cbn [negb Z.eqb data_node_hash_add]. rewrite decide_False by lia.
    eapply (struct_skip "," 4 [str ")"]); [by right| |exact Hts|cbn [snd]; lia|by intros; apply HR].
    constructor; [|constructor]. apply (bool_decide_unpack _). vm_compute. exact I.
Qed.

(** The fields up to the closing brace. *)
Lemma struct_fields trail l f f1 fuel id doc acc :
  Forall field_ok l → (length acc + length l ≤ MAX_ELEMS)%nat → Toks (struct_toks trail l ++ [str "}"]) f f1 → (length f < fuel)%nat →
  test_struct_loop cf m fuel all f 0 id doc (DATA_HASH acc) = Ret (0, f1, doc, DATA_HASH (acc ++ struct_nodes l)).
Proof.
  intros Hl. revert f fuel id acc. induction Hl as [|x l Hx Hl IH]; intros f fuel id acc Hlen Hts Hf.
  - apply Toks_inv in Hts as (g & Hg & Hts). inversion Hts; subst. destruct fuel as [|fuel]; [lia|]. cbn [test_struct_loop].
    rewrite (tok_at_doc _ _ _ (Some doc) Hg), rbind_Ret. cbv zeta. change (streq (str "}") "}") with true. cbn. by rewrite app_nil_r.
  - cbn [struct_toks length] in *. destruct Hx as [Hname Hx].
    cbn [app] in Hts. rewrite <- app_assoc in Hts. apply (Toks_app [field_name x; str "="]) in Hts as (g & Hg & Hts). apply Toks_app in Hts as (h & Hh & Hts).
    eapply struct_name; [exact Hname|exact Hg|done|]. intros fuel1 Hf1. eapply struct_value; [by split|lia|exact Hh|done|].
    intros [|fuel2] id2 Hf2; [lia|]. rewrite <- app_assoc in Hts. apply after_elem in Hts; [|by destruct l].
    change (struct_nodes (x :: l)) with ([(field_key x, field_node x)] ++ struct_nodes l). rewrite app_assoc.
    destruct Hts as [(k & Hk & Hts)|[El Hk]].
    + apply tok_at_shorter in Hk as Hs. rewrite (struct_tok _ _ _ _ _ _ _ _ Hk) by (apply (bool_decide_unpack _); vm_compute; exact I).
      apply IH; [rewrite length_app; cbn; lia|done|lia].
    + destruct l; [|done]. cbn [test_struct_loop]. rewrite (tok_at_doc _ _ _ (Some doc) Hk), rbind_Ret. cbv zeta. change (streq (str "}") "}") with true.
      cbn. by rewrite app_nil_r.
Qed.
End File.
