(* ===== verification/MetaparseDecls.v ===== *)
(** * Declarations and files

    What stands around the test structure in a source file: declarations,
    directives, comments and doc comments.  [parse_file] passes over them and
    collects the macros that are defined, in the file and in the include files
    it can open, and the lines of the doc comments. *)

From stdpp Require Import gmap.
From S2P Require Import Prelude DataStorage DataStorageFacts Metaparse MetaparseEnds MetaparseLex MetaparseInit MetaparseFile.
Open Scope Z_scope.

(** ** The line of a directive *)

Definition spaces (s : list Z) : Prop := Forall (λ c, isspace c = true) s.
Definition starts_space (f : list Z) : Prop := match f with [] => True | c :: _ => isspace c = true end.
Definition starts_black (f : list Z) : Prop := match f with [] => True | c :: _ => isspace c = false end.

(** Characters that are not spaces. *)
Definition black (w : list Z) : Prop := w ≠ [] ∧ Forall (λ c, isspace c = false ∧ c ≠ 0) w.

Lemma skip_blanks_app s f : spaces s → starts_black f → skip_spaces (s ++ f) = f.
Proof.
  intros Hs Hf. induction Hs as [|c s Hc _ IH]; cbn; [|by rewrite Hc].
  destruct f as [|c f]; [done|]. cbn in *. by rewrite Hf.
Qed.

Lemma span_word_app w f : Forall (λ c, isspace c = false ∧ c ≠ 0) w → starts_space f → span_word (w ++ f) = (w, f).
Proof.
  intros Hw Hf. induction Hw as [|c w [Hc _] _ IH]; cbn; [|by rewrite Hc, IH].
  destruct f as [|c f]; [done|]. cbn in *. by rewrite Hf.
Qed.

Lemma black_starts w f : black w → starts_black (w ++ f).
Proof. intros [Hne Hw]. destruct Hw as [|c w [Hc _] _]; done. Qed.

Lemma black_clean w : black w → 0 ∉ w.
Proof. intros [_ Hw] H. rewrite Forall_forall in Hw. by destruct (Hw 0 H). Qed.

Lemma fscanf_word n sp w f :
  spaces sp → black w → (length w < n)%nat → starts_space f → fscanf_s n (sp ++ w ++ f) = Ret (Some w, f).
Proof.
  intros Hsp Hw Hn Hf. unfold fscanf_s. rewrite skip_blanks_app by (try done; by apply black_starts).
  destruct (w ++ f) eqn:E; [destruct Hw as [? _]; by destruct w|]. rewrite <- E, span_word_app by (try done; apply Hw).
  by rewrite (proj2 (Nat.ltb_lt _ _)).
Qed.

Lemma blank_space c : is_blank c = true → isspace c = true.
Proof. unfold is_blank. change (" "%cc) with 32. intros H. repeat (apply orb_true_iff in H as [H|H]); apply Z.eqb_eq in H as ->; done. Qed.

(** A word is read up to the blank after it. *)
Lemma skips_blanks sp f f0 : Forall (λ c, is_blank c = true) sp → starts_black f → skips (sp ++ f) f0 → ∃ sp', spaces sp' ∧ f0 = sp' ++ f.
Proof.
  intros Hsp Hf. assert (spaces sp) as Hs by (eapply Forall_impl; [exact Hsp|apply blank_space]).
  intros [-> | (x & Hx & E)]; [by exists sp|]. destruct Hs as [|c sp Hc Hs].
  - cbn in E. rewrite E in Hf. cbn in Hf. apply blank_space in Hx. congruence.
  - injection E as -> <-. by exists sp.
Qed.

(** ** Macros *)

(** The value of a macro: the line without its blanks, or a string. *)
Definition squeeze (v : list Z) : list Z := List.filter (λ c, negb ((c =? " "%cc) || (c =? 9))) v.

(** The rest of a definition after the name, and the value it gives. *)
Inductive macro_rest : list Z → option (list Z) → Prop :=
  | rest_none : macro_rest [10] None
  | rest_text c sp v :
      isspace c = true → c ≠ 10 → spaces sp → v ≠ [] → starts_black v → head v ≠ Some cDQ → 10 ∉ v → 0 ∉ v →
      last v ≠ Some ("\"%cc) → (length (squeeze v) ≤ 255)%nat → macro_rest (c :: sp ++ v ++ [10]) (Some (squeeze v))
  | rest_string c sp s :
      isspace c = true → c ≠ 10 → spaces sp → cDQ ∉ s → 0 ∉ s → last s ≠ Some ("\"%cc) → (length s ≤ 255)%nat →
      macro_rest (c :: sp ++ [cDQ] ++ s ++ [cDQ]) (Some s).

(** The first definition of a name counts; names that start with an
    underscore are left out. *)
Definition define (hcap : nat) (name : list Z) (val : option (list Z)) (m : macros) : macros :=
  match val with
  | None => m
  | Some val => if bool_decide (head name = Some ("_"%cc)) then m else hsearch_enter hcap name val m
  end.

Lemma last_cons_ne (c x : Z) (v : list Z) : last (c :: v) ≠ Some x → v ≠ [] → last v ≠ Some x.
Proof. destruct v; done. Qed.

Lemma get_val_loop v g prev buf room :
  10 ∉ v → last (prev :: v) ≠ Some ("\"%cc) → (length buf + length (squeeze v) ≤ room)%nat →
  macro_get_val_loop (v ++ 10 :: g) prev buf room = Ret (buf ++ squeeze v, g).
Proof.
  revert prev buf. induction v as [|c v IH]; intros prev buf H10 Hlast Hlen; cbn [app macro_get_val_loop].
  - rewrite Z.eqb_refl. destruct (Z.eqb_spec prev "\"%cc) as [->|]; [done|]. by rewrite app_nil_r.
  - apply not_elem_of_cons in H10 as [Hc H10]. rewrite (proj2 (Z.eqb_neq c 10)) by congruence. change (last (prev :: c :: v)) with (last (c :: v)) in Hlast.
    unfold squeeze in *. cbn [List.filter] in *. destruct ((c =? " "%cc) || (c =? 9)); cbn [negb] in *; [by apply IH|].
    cbn [length] in Hlen. rewrite (proj2 (Nat.ltb_lt _ _)) by lia. rewrite (cons_middle c buf (List.filter _ v)), app_assoc.
    apply IH; [done|done|rewrite length_app; cbn; lia].
Qed.

Lemma get_string_loop s g buf room :
  cDQ ∉ s → last (buf ++ s) ≠ Some ("\"%cc) → (length buf + length s ≤ room)%nat →
  macro_get_string (s ++ cDQ :: g) buf room = (buf ++ s, g).
Proof.
  revert buf. induction s as [|c s IH]; intros buf Hq Hlast Hlen; cbn [app macro_get_string].
  - rewrite app_nil_r in *. by rewrite Z.eqb_refl, bool_decide_false.
  - apply not_elem_of_cons in Hq as [Hc Hq]. rewrite (proj2 (Z.eqb_neq c cDQ)) by congruence. cbn [length] in Hlen.
    rewrite (proj2 (Nat.ltb_lt _ _)) by lia. rewrite (cons_middle c buf s), app_assoc in *. apply IH; [done|done|rewrite length_app; cbn; lia].
Qed.

Lemma squeeze_clean v : 0 ∉ v → 0 ∉ squeeze v.
Proof. intros H Hin. apply H. apply list_elem_of_In in Hin. apply List.filter_In in Hin as [Hin _]. by apply list_elem_of_In. Qed.

Lemma parse_macro_spec hcap sp name rest val g m :
  spaces sp → black name → (length name < 128)%nat → macro_rest rest val →
  parse_macro hcap (sp ++ name ++ rest ++ g) m = Ret (g, define hcap name val m).
Proof.
  intros Hsp Hname Hlen Hrest. unfold parse_macro. rewrite fscanf_word; [|done..|by destruct Hrest]. rewrite rbind_Ret.
  rewrite (c_str_clean name) by (by apply black_clean). destruct Hrest as [|c sp2 v Hc Hc10 Hsp2 Hne Hv Hq H10 H0 Hlast Hl|c sp2 s Hc Hc10 Hsp2 Hq H0 Hlast Hl].
  - done.
  - cbn [app head drop]. rewrite bool_decide_false by congruence. rewrite drop_0, <- !app_assoc. unfold macro_get_val.
    assert (starts_black (v ++ [10] ++ g)) as Hb by (by destruct v). rewrite skip_blanks_app by done. destruct v as [|x v]; [done|].
    cbn [app]. rewrite (proj2 (Z.eqb_neq x cDQ)) by (cbn in Hq; congruence). change (x :: v ++ 10 :: g) with ((x :: v) ++ 10 :: g).
    rewrite get_val_loop by (done || (cbn in *; lia)). rewrite rbind_Ret. cbn [app]. rewrite c_str_clean by (by apply squeeze_clean).
    unfold define. by destruct (bool_decide _).
  - cbn [app head drop]. rewrite bool_decide_false by congruence. rewrite drop_0, <- !app_assoc. unfold macro_get_val.
    rewrite skip_blanks_app by done. cbn [app]. rewrite Z.eqb_refl, <- app_assoc. cbn [app].
    rewrite get_string_loop by (done || (cbn in *; lia)). rewrite rbind_Ret. cbn [app]. rewrite c_str_clean by done.
    unfold define. by destruct (bool_decide _).
Qed.

(** ** Includes *)

(** The name between the quotes. *)
Definition include_name (arg : list Z) : list Z := take (length arg - 2) (drop 1 arg).

(** The text of a file that is included in quotes, when it is opened: not the
    headers of the library, and only what one of the directories has. *)
Definition include_of (cf : config) (arg : list Z) : option (list Z) :=
  if negb (bool_decide (head arg = Some cDQ)) || bool_decide (arg ∈ skip_includes) || (strncmp arg ([cDQ] ++ str "lapi/") 6 =? 0) then None
  else open_first cf (includepath cf :: cmdline_includepath cf) (include_name arg).

Lemma open_include_spec cf sp arg sp2 g :
  spaces sp → black arg → arg ≠ [cDQ] → (length arg < 256)%nat → spaces sp2 → sp2 ≠ [] ∨ g = [] → starts_black g →
  open_include cf (sp ++ arg ++ sp2 ++ g) = Ret (include_of cf arg, g).
Proof.
  intros Hsp Harg Hq Hlen Hsp2 Hend Hg. unfold open_include.
  assert (starts_space (sp2 ++ g)) as Hs by (destruct Hsp2; [destruct Hend as [| ->]; done|done]).
  rewrite fscanf_word by done. rewrite rbind_Ret, c_str_clean by (by apply black_clean). rewrite skip_blanks_app by done. unfold include_of.
  destruct (bool_decide_reflect (head arg = Some cDQ)) as [Hh|Hh]; cbn [negb orb]; [|done].
  destruct (bool_decide (arg ∈ skip_includes)); cbn [orb]; [done|]. destruct (strncmp _ _ _ =? 0); [done|].
  destruct arg as [|x [|y arg]]; [done|cbn in Hh; congruence|]. cbn [drop]. unfold include_name. cbn [drop length]. by rewrite !Nat.sub_succ, Nat.sub_0_r.
Qed.

(** ** Declarations *)

(** How many of the tokens that start a test structure were just read. *)
Definition next_state (s : nat) (t : list Z) : nat :=
  if (s <? 6)%nat && bool_decide (tokens !! s = Some t) then S s else 0%nat.

(** A gap whose doc comments fit, after the lines [d]. *)
Definition noted (d : list (list Z)) (ps : list piece) : Prop :=
  Forall piece_ok ps ∧ (length d + length (gap_docs ps) ≤ MAX_ELEMS)%nat.

Section Decls.
Context (hcap : nat) (cf : config).

(** [decls n s m d f s' m' d' r]: the text [f] is declarations and directives
    followed by [r].  The macros [m] become [m'], and the lines of doc comments
    [d] become [d'], when [n] levels of include files are followed; [s] and [s']
    are the states before and after.  A declaration is any tokens that do not
    start a test structure. *)
Inductive decls : nat → nat → macros → list (list Z) → list Z → nat → macros → list (list Z) → list Z → Prop :=
  | decls_nil n s m d r : decls n s m d r s m d r
  | decls_tok n s m d ps l g s' m' d' r :
      noted d ps → lex_ok l → sep_ok l g → head (lex_val l) ≠ Some ("#"%cc) → (next_state s (lex_val l) < 6)%nat →
      decls n (next_state s (lex_val l)) m (d ++ gap_docs ps) g s' m' d' r →
      decls n s m d (gap_text ps ++ lex_text l ++ g) s' m' d' r
  | decls_directive n s m d ps qs w g s' m' d' r :
      noted d ps → gap qs → lex_ok (LWord w) → sep_ok (LWord w) g → w ≠ str "define" → w ≠ str "include" →
      decls n 0 m (d ++ gap_docs ps) g s' m' d' r →
      decls n s m d (gap_text ps ++ str "#" ++ gap_text qs ++ w ++ g) s' m' d' r
  | decls_define n s m d ps qs sp name rest val g s' m' d' r :
      noted d ps → gap qs → Forall (λ c, is_blank c = true) sp → sp ≠ [] → black name → (length name < 128)%nat → macro_rest rest val →
      decls n 0 (define hcap name val m) (d ++ gap_docs ps) g s' m' d' r →
      decls n s m d (gap_text ps ++ str "#" ++ gap_text qs ++ str "define" ++ sp ++ name ++ rest ++ g) s' m' d' r
  | decls_skipped n s m d ps qs sp arg sp2 g s' m' d' r :
      noted d ps → gap qs → Forall (λ c, is_blank c = true) sp → sp ≠ [] → black arg → arg ≠ [cDQ] → (length arg < 256)%nat →
      spaces sp2 → sp2 ≠ [] ∨ g = [] → starts_black g → include_of cf arg = None →
      decls (S n) 0 m (d ++ gap_docs ps) g s' m' d' r →
      decls (S n) s m d (gap_text ps ++ str "#" ++ gap_text qs ++ str "include" ++ sp ++ arg ++ sp2 ++ g) s' m' d' r
  | decls_include n s m d ps qs sp arg sp2 g inc s1 m1 d1 es s' m' d' r :
      noted d ps → gap qs → Forall (λ c, is_blank c = true) sp → sp ≠ [] → black arg → arg ≠ [cDQ] → (length arg < 256)%nat →
      spaces sp2 → sp2 ≠ [] ∨ g = [] → starts_black g → include_of cf arg = Some inc →
      decls n 0 m [] inc s1 m1 d1 (gap_text es) → noted d1 es →
      decls (S n) 0 m1 (d ++ gap_docs ps) g s' m' d' r →
      decls (S n) s m d (gap_text ps ++ str "#" ++ gap_text qs ++ str "include" ++ sp ++ arg ++ sp2 ++ g) s' m' d' r.

(** ** Reading them *)

Lemma skips_le f f0 : skips f f0 → (length f0 ≤ length f)%nat.
Proof. intros [-> | (x & _ & ->)]; cbn; lia. Qed.

Lemma lex_text_pos l : lex_ok l → (1 ≤ length (lex_text l))%nat.
Proof. intros H. destruct (lex_text_head l H) as (c & x & -> & _). cbn. lia. Qed.

(** A gap at the end of a file. *)
Lemma skips_end P ps f0 : Forall P ps → skips (gap_text ps) f0 → ∃ ps', Forall P ps' ∧ f0 = gap_text ps' ∧ gap_docs ps' = gap_docs ps.
Proof.
  intros Hps [-> | (x & Hx & E)]; [by exists ps|]. destruct Hps as [|p ps Hp Hps]; [done|].
  destruct p as [c|s|s|lines rest]; try (injection E as <- _; done). injection E as -> <-. by exists ps.
Qed.

(** The hash and the name of a directive after a gap. *)
Lemma directive_read ps qs w g f0 :
  Forall piece_ok ps → gap qs → lex_ok (LWord w) → sep_ok (LWord w) g → skips (gap_text ps ++ str "#" ++ gap_text qs ++ w ++ g) f0 →
  ∃ f1 f2, next_tok f0 = Ret (Some (str "#"), f1) ∧ tok_at f1 w f2 ∧ skips g f2 ∧ (length f1 < length f0)%nat ∧
    ∀ acc, (length acc + length (gap_docs ps) ≤ MAX_ELEMS)%nat →
      next_token f0 (Some (DATA_ARRAY acc)) = Ret (Some (str "#"), f1, Some (DATA_ARRAY (acc ++ doc_lines (gap_docs ps)))).
Proof.
  intros Hps Hqs Hw Hs H0. set (l := LPunct ("#"%cc)). assert (lex_ok l) as Hl by reflexivity.
  destruct (skips_gap piece_ok ps l (gap_text qs ++ w ++ g) f0 Hps Hl H0) as (ps0 & Hps0 & -> & Ed).
  destruct (lexeme_read_doc ps0 l (gap_text qs ++ w ++ g) Hps0 Hl I) as (f1 & H1 & E1 & E2).
  destruct (skips_gap _ qs (LWord w) g f1 Hqs Hw H1) as (qs0 & Hqs0 & -> & _).
  destruct (lexeme_read qs0 (LWord w) g Hqs0 Hw Hs) as (f2 & H2 & Hg). exists (gap_text qs0 ++ lex_text (LWord w) ++ g), f2.
  split_and!; [exact E1|exact H2|exact Hg| |].
  - apply skips_le in H1. pose proof (lex_text_pos l Hl). rewrite (length_app (gap_text ps0)), (length_app (lex_text l)). cbn [lex_text] in *. lia.
  - rewrite <- Ed. exact E2.
Qed.

(** What the name of a directive leads to. *)
Definition directive (n : nat) (w f : list Z) (m : macros) : res (list Z * macros) :=
  if streq w "define" then parse_macro hcap f m
  else if streq w "include" then parse_include_macros hcap cf n f m
  else Ret (f, m).

Lemma directive_define n sp name rest val g f2 m :
  Forall (λ c, is_blank c = true) sp → black name → (length name < 128)%nat → macro_rest rest val → skips (sp ++ name ++ rest ++ g) f2 →
  directive n (str "define") f2 m = Ret (g, define hcap name val m).
Proof.
  intros Hsp Hname Hlen Hrest H2. destruct (skips_blanks sp (name ++ rest ++ g) f2) as (sp' & Hsp' & ->); [done|by apply black_starts|done|].
  unfold directive. change (streq (str "define") "define") with true. cbn iota. by apply parse_macro_spec.
Qed.

Lemma directive_skipped n sp arg sp2 g f2 m :
  Forall (λ c, is_blank c = true) sp → black arg → arg ≠ [cDQ] → (length arg < 256)%nat → spaces sp2 → sp2 ≠ [] ∨ g = [] → starts_black g →
  include_of cf arg = None → skips (sp ++ arg ++ sp2 ++ g) f2 → directive (S n) (str "include") f2 m = Ret (g, m).
Proof.
  intros Hsp Harg Hq Hlen Hsp2 Hend Hg Hinc H2. destruct (skips_blanks sp (arg ++ sp2 ++ g) f2) as (sp' & Hsp' & ->); [done|by apply black_starts|done|].
  unfold directive. change (streq (str "include") "define") with false. change (streq (str "include") "include") with true. cbn iota.
  cbn [parse_include_macros]. by rewrite open_include_spec, rbind_Ret, Hinc.
Qed.

Lemma directive_include n sp arg sp2 g f2 inc m m1 :
  Forall (λ c, is_blank c = true) sp → black arg → arg ≠ [cDQ] → (length arg < 256)%nat → spaces sp2 → sp2 ≠ [] ∨ g = [] → starts_black g →
  include_of cf arg = Some inc → include_loop hcap cf (parse_include_macros hcap cf n) (S (length inc)) inc false m = Ret m1 →
  skips (sp ++ arg ++ sp2 ++ g) f2 → directive (S n) (str "include") f2 m = Ret (g, m1).
Proof.
  intros Hsp Harg Hq Hlen Hsp2 Hend Hg Hinc Hloop H2. destruct (skips_blanks sp (arg ++ sp2 ++ g) f2) as (sp' & Hsp' & ->); [done|by apply black_starts|done|].
  unfold directive. change (streq (str "include") "define") with false. change (streq (str "include") "include") with true. cbn iota.
  cbn [parse_include_macros]. rewrite open_include_spec, rbind_Ret, Hinc by done. by rewrite Hloop.
Qed.

Lemma directive_other n w f m : w ≠ str "define" → w ≠ str "include" → directive n w f m = Ret (f, m).
Proof. intros H1 H2. unfold directive, streq. by rewrite !bool_decide_false. Qed.

(** The name of a directive is no hash. *)
Lemma word_head w : lex_ok (LWord w) → head w ≠ Some ("#"%cc).
Proof. intros (Hne & Hw & _) E. destruct Hw as [|c w Hc _]; [done|]. injection E as ->. by vm_compute in Hc. Qed.

Lemma blank_sep w sp f : Forall (λ c, is_blank c = true) sp → sp ≠ [] → sep_ok (LWord w) (sp ++ f).
Proof. intros Hsp Hne. destruct Hsp; [done|by left]. Qed.

Lemma define_ok : lex_ok (LWord (str "define")).
Proof. apply lex_okb_sound. reflexivity. Qed.

Lemma include_ok : lex_ok (LWord (str "include")).
Proof. apply lex_okb_sound. reflexivity. Qed.

(** ** In an include file *)

Lemma header_directive n fuel f0 f1 w f2 m f3 m3 :
  next_tok f0 = Ret (Some (str "#"), f1) → tok_at f1 w f2 → lex_ok (LWord w) → directive n w f2 m = Ret (f3, m3) →
  include_loop hcap cf (parse_include_macros hcap cf n) (S (S fuel)) f0 false m = include_loop hcap cf (parse_include_macros hcap cf n) fuel f3 false m3.
Proof.
  intros H0 H1 Hw Hd. cbn [include_loop]. rewrite H0, rbind_Ret. change (bool_decide (head (str "#") = Some ("#"%cc))) with true. cbn iota.
  rewrite (tok_at_next _ _ _ H1), rbind_Ret, bool_decide_false by (by apply word_head). cbn [negb]. unfold directive in Hd.
  destruct (streq w "define"); [by rewrite Hd|]. destruct (streq w "include"); [by rewrite Hd|]. by injection Hd as -> ->.
Qed.

Lemma decls_header n s m d f s' m' d' r : decls n s m d f s' m' d' r → ∀ es f0 fuel,
  r = gap_text es → Forall piece_ok es → skips f f0 → (length f0 < fuel)%nat →
  include_loop hcap cf (parse_include_macros hcap cf n) fuel f0 false m = Ret m'.
Proof.
  induction 1 as [n s m d r|n s m d ps l g s' m' d' r [Hps _] Hl Hs Hh _ _ IH|n s m d ps qs w g s' m' d' r [Hps _] Hqs Hw Hs H1 H2 _ IH
    |n s m d ps qs sp name rest val g s' m' d' r [Hps _] Hqs Hsp Hne Hname Hlen Hrest _ IH
    |n s m d ps qs sp arg sp2 g s' m' d' r [Hps _] Hqs Hsp Hne Harg Hq Hlen Hsp2 Hend Hg Hinc _ IH
    |n s m d ps qs sp arg sp2 g inc s1 m1 d1 es1 s' m' d' r [Hps _] Hqs Hsp Hne Harg Hq Hlen Hsp2 Hend Hg Hinc _ IH1 [Hes1 _] _ IH];
    intros es f0 fuel Er Hes H0 Hf.
  - subst r. destruct (skips_end _ es f0 Hes H0) as (es0 & Hes0 & -> & _). destruct fuel as [|fuel]; [lia|]. cbn [include_loop].
    by rewrite (proj1 (end_read es0 Hes0)).
  - destruct (skips_gap _ ps l g f0 Hps Hl H0) as (ps0 & Hps0 & -> & _). destruct (lexeme_read_doc ps0 l g Hps0 Hl Hs) as (g' & Hg' & E & _).
    destruct fuel as [|fuel]; [lia|]. cbn [include_loop]. rewrite E, rbind_Ret, bool_decide_false by done. cbn [negb].
    apply (IH es); [done|done|done|]. apply skips_le in Hg'. pose proof (lex_text_pos l Hl). rewrite !length_app in Hf. lia.
  - destruct (directive_read ps qs w g f0 Hps Hqs Hw Hs H0) as (f1 & f2 & E1 & E2 & Hg & Hlt & _). apply tok_at_shorter in E2 as Hlt2.
    destruct fuel as [|[|fuel]]; [lia..|]. rewrite (header_directive n fuel f0 f1 w f2 m f2 m) by (done || by apply directive_other).
    apply (IH es); [done|done|done|lia].
  - destruct (directive_read ps qs (str "define") (sp ++ name ++ rest ++ g) f0 Hps Hqs define_ok (blank_sep _ _ _ Hsp Hne) H0) as (f1 & f2 & E1 & E2 & Hg & Hlt & _).
    apply tok_at_shorter in E2 as Hlt2. destruct fuel as [|[|fuel]]; [lia..|].
    pose proof (directive_define n sp name rest val g f2 m Hsp Hname Hlen Hrest Hg) as Ed.
    rewrite (header_directive n fuel f0 f1 _ f2 m _ _ E1 E2 define_ok Ed). apply (IH es); [done|done|by left|].
    apply (skips_blanks sp) in Hg as (sp' & _ & ->); [|done|by apply black_starts]. rewrite !length_app in Hlt2. lia.
  - destruct (directive_read ps qs (str "include") (sp ++ arg ++ sp2 ++ g) f0 Hps Hqs include_ok (blank_sep _ _ _ Hsp Hne) H0) as (f1 & f2 & E1 & E2 & Hg' & Hlt & _).
    apply tok_at_shorter in E2 as Hlt2. destruct fuel as [|[|fuel]]; [lia..|].
    pose proof (directive_skipped n sp arg sp2 g f2 m Hsp Harg Hq Hlen Hsp2 Hend Hg Hinc Hg') as Ed.
    rewrite (header_directive (S n) fuel f0 f1 _ f2 m _ _ E1 E2 include_ok Ed). apply (IH es); [done|done|by left|].
    apply (skips_blanks sp) in Hg' as (sp' & _ & ->); [|done|by apply black_starts]. rewrite !length_app in Hlt2. lia.
  - destruct (directive_read ps qs (str "include") (sp ++ arg ++ sp2 ++ g) f0 Hps Hqs include_ok (blank_sep _ _ _ Hsp Hne) H0) as (f1 & f2 & E1 & E2 & Hg' & Hlt & _).
    apply tok_at_shorter in E2 as Hlt2. destruct fuel as [|[|fuel]]; [lia..|].
    pose proof (IH1 es1 inc (S (length inc)) eq_refl Hes1 (or_introl eq_refl) ltac:(lia)) as Eloop.
    pose proof (directive_include n sp arg sp2 g f2 inc m m1 Hsp Harg Hq Hlen Hsp2 Hend Hg Hinc Eloop Hg') as Ed.
    rewrite (header_directive (S n) fuel f0 f1 _ f2 m _ _ E1 E2 include_ok Ed). apply (IH es); [done|done|by left|].
    apply (skips_blanks sp) in Hg' as (sp' & _ & ->); [|done|by apply black_starts]. rewrite !length_app in Hlt2. lia.
Qed.

(** ** In the file *)

(** The token [t] is read with the lines [ds] of doc comments before it. *)
Definition reads (f : list Z) (d ds : list (list Z)) (t f1 : list Z) : Prop :=
  next_token f (Some (DATA_ARRAY (doc_lines d))) = Ret (Some t, f1, Some (DATA_ARRAY (doc_lines (d ++ ds)))) ∧ (length f1 < length f)%nat.

(** The first step through declarations. *)
Lemma decls_view n s m d f s' m' d' r f0 : decls n s m d f s' m' d' r → skips f f0 →
  (s = s' ∧ m = m' ∧ d = d' ∧ skips r f0) ∨
  (∃ t f1 g ds, reads f0 d ds t f1 ∧ head t ≠ Some ("#"%cc) ∧ (next_state s t < 6)%nat ∧ skips g f1 ∧
    decls n (next_state s t) m (d ++ ds) g s' m' d' r) ∨
  (∃ f1 w f2 f3 m3 g ds, reads f0 d ds (str "#") f1 ∧ tok_at f1 w f2 ∧ directive n w f2 m = Ret (f3, m3) ∧ (length f3 ≤ length f2)%nat ∧ skips g f3 ∧
    decls n 0 m3 (d ++ ds) g s' m' d' r).
Proof.
  assert (∀ d ps f0 f1 t, noted d ps → (∀ acc, (length acc + length (gap_docs ps) ≤ MAX_ELEMS)%nat →
    next_token f0 (Some (DATA_ARRAY acc)) = Ret (Some t, f1, Some (DATA_ARRAY (acc ++ doc_lines (gap_docs ps))))) →
    (length f1 < length f0)%nat → reads f0 d (gap_docs ps) t f1) as Hreads.
  { intros d0 ps g0 g1 t [_ Hd] H Hlt. split; [|done]. rewrite H by (unfold doc_lines; by rewrite length_fmap). unfold doc_lines. by rewrite fmap_app. }
  intros H H0. destruct H as [n s m d r|n s m d ps l g s' m' d' r Hps Hl Hs Hh Hst H|n s m d ps qs w g s' m' d' r Hps Hqs Hw Hs H1 H2 H
    |n s m d ps qs sp name rest val g s' m' d' r Hps Hqs Hsp Hne Hname Hlen Hrest H
    |n s m d ps qs sp arg sp2 g s' m' d' r Hps Hqs Hsp Hne Harg Hq Hlen Hsp2 Hend Hg Hinc H
    |n s m d ps qs sp arg sp2 g inc s1 m1 d1 es1 s' m' d' r Hps Hqs Hsp Hne Harg Hq Hlen Hsp2 Hend Hg Hinc Hfile [Hes1 _] H]; [by left|right; left|right; right..].
  - destruct (skips_gap _ ps l g f0 (proj1 Hps) Hl H0) as (ps0 & Hps0 & -> & Ed). destruct (lexeme_read_doc ps0 l g Hps0 Hl Hs) as (g' & Hg' & _ & E).
    exists (lex_val l), g', g, (gap_docs ps). rewrite Ed in E. split_and!; try done. apply Hreads; [done|done|].
    apply skips_le in Hg'. pose proof (lex_text_pos l Hl). rewrite !length_app. lia.
  - destruct (directive_read ps qs w g f0 (proj1 Hps) Hqs Hw Hs H0) as (f1 & f2 & _ & E2 & Hg & Hlt & E).
    exists f1, w, f2, f2, m, g, (gap_docs ps). split_and!; try done; [by apply Hreads|by apply directive_other].
  - destruct (directive_read ps qs (str "define") (sp ++ name ++ rest ++ g) f0 (proj1 Hps) Hqs define_ok (blank_sep _ _ _ Hsp Hne) H0) as (f1 & f2 & _ & E2 & Hg & Hlt & E).
    exists f1, (str "define"), f2, g, (define hcap name val m), g, (gap_docs ps). split_and!; try done; [by apply Hreads|by eapply directive_define| |by left].
    apply (skips_blanks sp) in Hg as (sp' & _ & ->); [|done|by apply black_starts]. rewrite !length_app. lia.
  - destruct (directive_read ps qs (str "include") (sp ++ arg ++ sp2 ++ g) f0 (proj1 Hps) Hqs include_ok (blank_sep _ _ _ Hsp Hne) H0) as (f1 & f2 & _ & E2 & Hg' & Hlt & E).
    exists f1, (str "include"), f2, g, m, g, (gap_docs ps). split_and!; try done; [by apply Hreads|by eapply directive_skipped| |by left].
    apply (skips_blanks sp) in Hg' as (sp' & _ & ->); [|done|by apply black_starts]. rewrite !length_app. lia.
  - destruct (directive_read ps qs (str "include") (sp ++ arg ++ sp2 ++ g) f0 (proj1 Hps) Hqs include_ok (blank_sep _ _ _ Hsp Hne) H0) as (f1 & f2 & _ & E2 & Hg' & Hlt & E).
    pose proof (decls_header _ _ _ _ _ _ _ _ _ Hfile es1 inc (S (length inc)) eq_refl Hes1 (or_introl eq_refl) ltac:(lia)) as Eloop.
    exists f1, (str "include"), f2, g, m1, g, (gap_docs ps). split_and!; try done; [by apply Hreads|by eapply directive_include| |by left].
    apply (skips_blanks sp) in Hg' as (sp' & _ & ->); [|done|by apply black_starts]. rewrite !length_app. lia.
Qed.

Lemma file_tok all t state fuel f f1 found m d ds node :
  reads f d ds t f1 → head t ≠ Some ("#"%cc) →
  parse_file_loop hcap cf (S fuel) all f state found m (DATA_ARRAY (doc_lines d)) node =
  (if (next_state state t <? 6)%nat then parse_file_loop hcap cf fuel all f1 (next_state state t) found m (DATA_ARRAY (doc_lines (d ++ ds))) node else
   '(_, f, doc, node) ← parse_test_struct cf m all f1 (DATA_ARRAY (doc_lines (d ++ ds))) node;
   parse_file_loop hcap cf fuel all f (next_state state t) true m doc node).
Proof.
  intros [E _] Hh. cbn [parse_file_loop]. rewrite E, rbind_Ret. cbv zeta. cbn [default]. rewrite (bool_decide_false (head t = _)) by done. cbn [negb].
  unfold next_state. destruct ((state <? 6)%nat && bool_decide (tokens !! state = Some t)); by rewrite rbind_Ret.
Qed.

Lemma file_directive all w state fuel f f1 f2 f3 found m m3 d ds node :
  reads f d ds (str "#") f1 → tok_at f1 w f2 → directive 3 w f2 m = Ret (f3, m3) →
  parse_file_loop hcap cf (S fuel) all f state found m (DATA_ARRAY (doc_lines d)) node =
  parse_file_loop hcap cf fuel all f3 0 found m3 (DATA_ARRAY (doc_lines (d ++ ds))) node.
Proof.
  intros [E _] H1 Hd. cbn [parse_file_loop]. rewrite E, rbind_Ret. cbv zeta. cbn [default].
  assert ((state <? 6)%nat && bool_decide (tokens !! state = Some (str "#")) = false) as ->.
  { do 6 (destruct state as [|state]; [done|]). done. }
  change (bool_decide (head (str "#") = Some ("#"%cc))) with true. cbn [negb]. rewrite (tok_at_doc _ _ _ _ H1), rbind_Ret.
  cbn [default]. change (if streq w "define" then parse_macro hcap f2 m else if streq w "include" then parse_include_macros hcap cf 3 f2 m else Ret (f2, m)) with (directive 3 w f2 m).
  by rewrite Hd, !rbind_Ret.
Qed.

Lemma decls_file all s m d f s' m' d' r found node R fuel f0 :
  decls 3 s m d f s' m' d' r → skips f f0 → (length f0 < fuel)%nat →
  (∀ r' fuel', skips r r' → (length r' < fuel')%nat → (length r' ≤ length f0)%nat →
    parse_file_loop hcap cf fuel' all r' s' found m' (DATA_ARRAY (doc_lines d')) node = R) →
  parse_file_loop hcap cf fuel all f0 s found m (DATA_ARRAY (doc_lines d)) node = R.
Proof.
  revert s m d f f0. induction fuel as [|fuel IH]; intros s m d f f0 H H0 Hf HR; [lia|].
  apply decls_view with (f0 := f0) in H as [(<- & <- & <- & Hr)|[(t & f1 & g & ds & Hrd & Hh & Hst & Hg & H)|(f1 & w & f2 & f3 & m3 & g & ds & Hrd & Hw & Hd & Hle & Hg & H)]]; [by apply HR|..|done].
  - rewrite (file_tok all t s fuel f0 f1 found m d ds node Hrd Hh), (proj2 (Nat.ltb_lt _ _)) by done. destruct Hrd as [_ Hlt].
    eapply IH; [exact H|exact Hg|lia|]. intros r' fuel' H1 H2 H3. apply HR; [done|done|lia].
  - rewrite (file_directive all w s fuel f0 f1 f2 f3 found m m3 d ds node Hrd Hw Hd). destruct Hrd as [_ Hlt]. apply tok_at_shorter in Hw.
    eapply IH; [exact H|exact Hg|lia|]. intros r' fuel' H1 H2 H3. apply HR; [done|done|lia].
Qed.

(** Tokens that lead up to a test structure, one after the other. *)
Lemma start_read all ts f f1 s fuel found m d node :
  Toks ts f f1 → Forall (λ t, head t ≠ Some ("#"%cc)) ts → (length f < fuel)%nat →
  (∀ a t b, ts = a ++ t :: b → (next_state (foldl next_state s a) t < 6)%nat) →
  ∃ fuel', (length f1 < fuel')%nat ∧
    parse_file_loop hcap cf fuel all f s found m (DATA_ARRAY (doc_lines d)) node =
    parse_file_loop hcap cf fuel' all f1 (foldl next_state s ts) found m (DATA_ARRAY (doc_lines d)) node.
Proof.
  intros Hts. revert s fuel. induction Hts as [f|t ts f f1 f2 Ht _ IH]; intros s fuel Hh Hf Hst; [by exists fuel|].
  apply Forall_cons in Hh as [Hh0 Hh]. apply tok_at_shorter in Ht as Hlt. destruct fuel as [|fuel]; [lia|].
  destruct (IH (next_state s t) fuel Hh ltac:(lia)) as (fuel' & Hf' & E); [intros a x b ->; by apply (Hst (t :: a) x b)|].
  assert (reads f d [] t f1) as Hrd by (split; [rewrite app_nil_r; by apply tok_at_doc|done]).
  exists fuel'. split; [done|]. rewrite (file_tok all t s fuel f f1 found m d [] node Hrd Hh0), app_nil_r.
  pose proof (Hst [] t ts eq_refl) as H6. cbn [foldl] in H6. by rewrite (proj2 (Nat.ltb_lt _ _) H6).
Qed.
End Decls.

(** ** A file with a test structure *)

(** The metadata of the fields, with the lines of the doc comments. *)
Definition with_doc (docs : list (list Z)) (nodes : list (list Z * data_node)) : data_node :=
  DATA_HASH (nodes ++ match docs with [] => [] | _ => [(str "doc", DATA_ARRAY (doc_lines docs))] end).

(** The text [f] is declarations, a test structure with the fields [l], and
    other declarations up to the end; [m] are the macros that were defined
    before the structure, [docs] the lines of all doc comments. *)
Inductive test_file (hcap : nat) (cf : config) (f : list Z) (m : macros) (trail : bool) (l : list field) (docs : list (list Z)) : Prop :=
  | test_file_intro d1 g1 ls g2 s' m' d2 es :
      decls hcap cf 3 0 (load_internal_macros hcap ∅) [] f 0 m d1 g1 →
      spells ls g1 g2 → lex_val <$> ls = tokens ++ struct_toks trail l ++ [str "}"] →
      decls hcap cf 3 6 m d1 g2 s' m' d2 (gap_text es) → noted d2 es → docs = d2 ++ gap_docs es →
      test_file hcap cf f m trail l docs.

Lemma tokens_states : ∀ a t b, take 5 tokens = a ++ t :: b → (next_state (foldl next_state 0%nat a) t < 6)%nat.
Proof. intros a t b E. do 5 (destruct a as [|x a]; [injection E as <- <-; vm_compute; lia|injection E as <- E]). by destruct a. Qed.

Lemma parse_file_struct hcap cf f m trail l docs :
  test_file hcap cf f m trail l docs → Forall (field_ok m f) l → (length l ≤ MAX_ELEMS)%nat →
  parse_file_loop hcap cf (S (length f)) f f 0 false (load_internal_macros hcap ∅) data_node_array data_node_hash =
  Ret (true, DATA_ARRAY (doc_lines docs), DATA_HASH (struct_nodes m l)).
Proof.
  intros [d1 g1 ls g2 s' m' d2 es Hb Hsp Els Ha [Hes Hroom] ->] Hl Hlen.
  apply (decls_file hcap cf f 0 _ [] f 0 m d1 g1 false data_node_hash _ _ f Hb (or_introl eq_refl)); [lia|]. intros r1 fuel1 Hr1 Hf1 _.
  destruct (spells_toks ls g1 g2 r1 Hsp Hr1) as (r2 & Hts & Hr2). rewrite Els in Hts. apply Toks_app in Hts as (h & Hh & Hts).
  change tokens with (take 5 tokens ++ [str "{"]) in Hh. apply Toks_app in Hh as (h1 & Hh1 & Hh).
  destruct (start_read hcap cf f (take 5 tokens) r1 h1 0 fuel1 false m d1 data_node_hash Hh1) as (fuel2 & Hf2 & ->);
    [repeat constructor; done|done|exact tokens_states|]. change (foldl next_state 0%nat (take 5 tokens)) with 5%nat.
  apply Toks_inv in Hh as (h2 & Hh2 & Hh). inversion Hh; subst. apply tok_at_shorter in Hh2 as Hlt. destruct fuel2 as [|fuel2]; [lia|].
  assert (reads h1 d1 [] (str "{") h) as Hrd by (split; [rewrite app_nil_r; by apply tok_at_doc|done]).
  rewrite (file_tok hcap cf f _ 5 fuel2 h1 h false m d1 [] data_node_hash Hrd) by done. change (next_state 5 (str "{")) with 6%nat.
  change (6 <? 6)%nat with false. cbn iota. rewrite app_nil_r. unfold parse_test_struct, data_node_hash.
  rewrite (struct_fields cf m f trail l h r2 (S (length h)) None _ []) by (done || lia). rewrite rbind_Ret. cbn [app]. apply Toks_shorter in Hts as Hle.
  apply (decls_file hcap cf f 6 m d1 g2 s' m' d2 (gap_text es) true _ _ fuel2 r2 Ha Hr2); [lia|]. intros r3 fuel3 Hr3 Hf3 _.
  destruct (skips_end _ es r3 Hes Hr3) as (es0 & Hes0 & -> & Ed). destruct fuel3 as [|fuel3]; [lia|]. cbn [parse_file_loop].
  rewrite (proj2 (end_read es0 Hes0)) by (unfold doc_lines; by rewrite length_fmap, Ed). rewrite rbind_Ret. cbn [default]. unfold doc_lines. by rewrite Ed, fmap_app.
Qed.

(** [parse_file] finds the fields and the doc string. *)
Lemma parse_file_correct hcap incs read fname f m trail l docs :
  read fname = Some f → test_file hcap (Config incs (dirname fname) read) f m trail l docs → Forall (field_ok m f) l → (length l < MAX_ELEMS)%nat →
  parse_file hcap incs read fname = Ret (Some (with_doc docs (struct_nodes m l))).
Proof.
  intros Hread Hf Hl Hlen. unfold parse_file. rewrite Hread. cbv zeta. rewrite (parse_file_struct _ _ _ _ _ _ _ Hf Hl) by lia. rewrite rbind_Ret. unfold with_doc.
  destruct docs as [|x docs]; [by rewrite app_nil_r|]. cbn [doc_lines fmap list_fmap data_node_array_len length Nat.ltb Nat.leb data_node_hash_add snd].
  rewrite decide_False; [done|]. unfold struct_nodes. rewrite length_fmap. lia.
Qed.

(** ** Deciding that a text is declarations *)

(** The state after tokens without directives that do not start a structure. *)
Fixpoint skim (s : nat) (ts : list (list Z)) : option nat :=
  match ts with
  | [] => Some s
  | t :: ts => if bool_decide (head t = Some ("#"%cc)) || (6 <=? next_state s t)%nat then None else skim (next_state s t) ts
  end.

Lemma gap_no_docs ps : gap ps → Forall piece_ok ps ∧ gap_docs ps = [].
Proof.
  induction 1 as [|p ps [Hp Hd] _ [IH1 IH2]]; [done|]. split; [by constructor|]. unfold gap_docs in *. cbn. rewrite IH2. by destruct p.
Qed.

Lemma decls_tokens hcap cf n xs s s1 m d r s' m' d' r' :
  spellsb xs r = true → skim s (lex_val ∘ snd <$> xs) = Some s1 → (length d ≤ MAX_ELEMS)%nat →
  decls hcap cf n s1 m d r s' m' d' r' → decls hcap cf n s m d (render xs r) s' m' d' r'.
Proof.
  intros Hsp Hsk Hd H. revert s Hsk Hsp. induction xs as [|[b l] xs IH]; intros s Hsk Hsp; [by injection Hsk as <-|].
  rewrite fmap_cons in Hsk. cbn [skim compose snd] in Hsk. destruct (bool_decide_reflect (head (lex_val l) = Some ("#"%cc))) as [|Hh]; [done|].
  destruct (Nat.leb_spec 6 (next_state s (lex_val l))); [done|]. cbn [orb render spellsb] in *.
  apply andb_true_iff in Hsp as [[[H1%bool_decide_eq_true_1 H2]%andb_true_iff H3]%andb_true_iff H4].
  destruct (gap_no_docs b H1) as [Hb Ed]. apply decls_tok; [split; [done|rewrite Ed; cbn; lia]|by apply lex_okb_sound| |done|done|].
  - destruct l; [done| |done]. cbn [sep_ok]. destruct (render xs r); [done|]. by apply orb_true_iff in H3.
  - rewrite Ed, app_nil_r. by apply IH.
Qed.
