(* ===== verification/MetaparseMain.v ===== *)
(** * The output of metaparse

    What the program does with the fields of a test, on finite maps: it drops
    the fields that are not metadata, converts numbers, closes the flags
    under implication and adds the file name.  The text it prints is read
    back by the JSON reader of libs/ujson. *)

From stdpp Require Import gmap.
From S2P Require Import Prelude UjsonReader UjsonRoundtrip UjsonReadback DataStorage DataStorageFacts.
From S2P Require Import Metaparse MetaparseEnds MetaparseLex MetaparseInit MetaparseFile MetaparseDecls.
Open Scope Z_scope.

#[local] Abbreviation fmap_t := (gmap (list Z) data_node).

(** ** The steps on maps *)

Definition one : data_node := DATA_STRING (str "1").

Definition m_add (M : fmap_t) (flag : list Z) : fmap_t :=
  match M !! flag with Some _ => M | None => <[flag := one]> M end.
Definition m_imply (M : fmap_t) (e : list Z * list (list Z)) : fmap_t :=
  match M !! e.1 with Some _ => fold_left m_add e.2 M | None => M end.
Definition m_implies (l : list (list Z * list (list Z))) (M : fmap_t) : fmap_t := fold_left m_imply l M.

(** Only test_variants has to be a number. *)
Definition tv : list Z := str "test_variants".
Definition to_int (n : data_node) : data_node :=
  match n with DATA_STRING s => DATA_INT (fst (strtol s)) | _ => n end.
Definition is_int (n : data_node) : Prop :=
  match n with
  | DATA_INT _ => True
  | DATA_STRING s => snd (strtol s) = [] ∧ strtol_erange s = false
  | _ => False
  end.

Lemma hash_size node : hash_wf node → (size (hash_map node) ≤ MAX_ELEMS)%nat.
Proof. intros (elems & -> & Hn & Hl). unfold hash_map. cbn. by rewrite map_size_list_to_map. Qed.

Lemma hash_add_new node id n :
  hash_wf node → hash_map node !! id = None → (size (hash_map node) < MAX_ELEMS)%nat →
  ∃ node', data_node_hash_add node id n = (0, node') ∧ hash_wf node' ∧ hash_map node' = <[id := n]> (hash_map node).
Proof. intros Hw Hid Hs. pose proof (hash_add_spec node id n Hw Hid) as H. by rewrite decide_False in H by lia. Qed.

Lemma filter_all ids node :
  hash_wf node → ∃ node', update_all filter_step ids node = Ret node' ∧ hash_wf node' ∧
    (size (hash_map node') ≤ size (hash_map node))%nat ∧
    ∀ k, hash_map node' !! k = if decide (k ∈ ids) then None else hash_map node !! k.
Proof.
  revert node. induction ids as [|id ids IH]; intros node Hw; cbn [update_all].
  { exists node. split_and!; [done|done|done|]. intros k. by rewrite decide_False by apply not_elem_of_nil. }
  destruct (hash_del_spec node id Hw) as (n1 & E1 & Hw1 & Em). 
  assert (filter_step id node = Ret n1) as -> by (unfold filter_step; by rewrite E1). rewrite rbind_Ret. destruct (IH n1 Hw1) as (n2 & E2 & Hw2 & Hs & Hl). exists n2. split_and!; [done|done| |].
  - etransitivity; [exact Hs|]. rewrite Em, map_size_delete. case_match; [lia|done].
  - intros k. rewrite Hl, Em. destruct (decide (k ∈ ids)); [by rewrite decide_True by (by right)|].
    destruct (decide (k = id)) as [->|]; [by rewrite lookup_delete_eq, decide_True by (by left)|].
    rewrite lookup_delete_ne by done. rewrite decide_False; [done|]. by intros [|]%elem_of_cons.
Qed.

Lemma types_spec node :
  hash_wf node → (∀ n, hash_map node !! tv = Some n → is_int n) →
  ∃ node', check_normalize_types node = Ret node' ∧ hash_wf node' ∧
    hash_map node' = match hash_map node !! tv with Some n => <[tv := to_int n]> (hash_map node) | None => hash_map node end.
Proof.
  intros Hw Ht. unfold check_normalize_types. fold tv. rewrite (hash_get_spec _ _ Hw). cbn [lift]. rewrite rbind_Ret.
  destruct (hash_map node !! tv) as [n|] eqn:E; [|by exists node]. specialize (Ht n eq_refl).
  destruct n as [| |s|z|]; try done; [|exists node; split_and!; [done|done|]; by rewrite insert_id].
  destruct Ht as [H1 H2]. unfold convert_str2int. destruct (strtol s) as [z r] eqn:Es. cbn in H1. subst r.
  rewrite H2, bool_decide_true by done. cbn [orb negb].
  destruct (hash_del_spec node tv Hw) as (n1 & -> & Hw1 & Em). cbn [lift]. rewrite rbind_Ret.
  destruct (hash_add_new n1 tv (DATA_INT z)) as (n2 & -> & Hw2 & Em2).
  { done. } { by rewrite Em, lookup_delete_eq. }
  { pose proof (hash_size node Hw). rewrite Em, map_size_delete_Some by done. assert (size (hash_map node) ≠ 0%nat) by (by eapply map_size_ne_0_lookup_2). lia. }
  exists n2. split_and!; [done|done|]. rewrite Em2, Em. cbn. by rewrite Es, insert_delete_eq.
Qed.

(** ** Flags *)

Lemma add_flag_spec flag node :
  hash_wf node → (size (hash_map node) < MAX_ELEMS)%nat →
  ∃ node', add_flag flag node = Ret node' ∧ hash_wf node' ∧ hash_map node' = m_add (hash_map node) flag.
Proof.
  intros Hw Hs. unfold add_flag, m_add. rewrite (hash_get_spec _ _ Hw). cbn [lift]. rewrite rbind_Ret.
  destruct (hash_map node !! flag) as [n|] eqn:E; [by exists node|].
  destruct (hash_add_new node flag one Hw E Hs) as (n' & E' & Hw' & Em). exists n'. unfold one in *. by rewrite E'.
Qed.

Lemma m_add_size M flag : (size (m_add M flag) ≤ S (size M))%nat.
Proof. unfold m_add. destruct (M !! flag) eqn:E; [lia|]. by rewrite map_size_insert_None. Qed.

Lemma add_flags_spec flags node :
  hash_wf node → (size (hash_map node) + length flags ≤ MAX_ELEMS)%nat →
  ∃ node', update_all add_flag flags node = Ret node' ∧ hash_wf node' ∧ hash_map node' = fold_left m_add flags (hash_map node).
Proof.
  revert node. induction flags as [|flag flags IH]; intros node Hw Hs; [by exists node|]. cbn [update_all fold_left length] in *.
  destruct (add_flag_spec flag node Hw) as (n1 & -> & Hw1 & Em); [lia|]. rewrite rbind_Ret, <- Em. apply IH; [done|].
  pose proof (m_add_size (hash_map node) flag). rewrite Em. lia.
Qed.

Lemma m_adds_size flags M : (size (fold_left m_add flags M) ≤ size M + length flags)%nat.
Proof.
  revert M. induction flags as [|flag flags IH]; intros M; cbn; [lia|]. pose proof (m_add_size M flag). specialize (IH (m_add M flag)). lia.
Qed.

Definition all_flags (l : list (list Z * list (list Z))) : list (list Z) := concat l.*2.

Lemma implies_spec l node :
  hash_wf node → (size (hash_map node) + length (all_flags l) ≤ MAX_ELEMS)%nat →
  ∃ node', update_all implies_step l node = Ret node' ∧ hash_wf node' ∧ hash_map node' = m_implies l (hash_map node) ∧
    (size (hash_map node') ≤ size (hash_map node) + length (all_flags l))%nat.
Proof.
  revert node. induction l as [|e l IH]; intros node Hw Hs; [exists node; cbn in *; split_and!; done || lia|].
  unfold all_flags in *. cbn [fmap list_fmap concat] in Hs |- *. rewrite length_app in *.
  assert (∃ n1, implies_step e node = Ret n1 ∧ hash_wf n1 ∧ hash_map n1 = m_imply (hash_map node) e ∧
    (size (hash_map n1) ≤ size (hash_map node) + length e.2)%nat) as (n1 & E1 & Hw1 & Em1 & Hs1).
  { unfold implies_step, m_imply. rewrite (hash_get_spec _ _ Hw). cbn [lift]. rewrite rbind_Ret.
    destruct (hash_map node !! e.1); [|exists node; split_and!; done || lia].
    destruct (add_flags_spec e.2 node Hw) as (n1 & -> & Hw1 & Em); [lia|]. exists n1. split_and!; [done|done|done|].
    rewrite Em. apply m_adds_size. }
  cbn [update_all]. rewrite E1, rbind_Ret. destruct (IH n1 Hw1) as (n2 & E2 & Hw2 & Em2 & Hs2); [lia|].
  exists n2. split_and!; [done|done|by rewrite Em2, Em1|lia].
Qed.

(** What is there stays. *)
Lemma m_adds_keep flags M k v : M !! k = Some v → fold_left m_add flags M !! k = Some v.
Proof.
  revert M. induction flags as [|flag flags IH]; intros M H; [done|]. apply IH. unfold m_add.
  destruct (M !! flag) eqn:E; [done|]. by rewrite lookup_insert_ne by congruence.
Qed.

Lemma m_implies_keep l M k v : M !! k = Some v → m_implies l M !! k = Some v.
Proof.
  revert M. induction l as [|e l IH]; intros M H; [done|]. apply IH. unfold m_imply. destruct (M !! e.1); [by apply m_adds_keep|done].
Qed.

(** All the flags are added, with the value 1, and nothing else. *)
Lemma m_adds_there flags M flag : flag ∈ flags → is_Some (fold_left m_add flags M !! flag).
Proof.
  revert M. induction flags as [|x flags IH]; intros M H; [by apply not_elem_of_nil in H|]. cbn.
  apply elem_of_cons in H as [->|H]; [|by apply IH]. unfold m_add.
  destruct (M !! x) as [n|] eqn:E; [exists n; by apply m_adds_keep|]. exists one. apply m_adds_keep. by rewrite lookup_insert_eq.
Qed.

Lemma m_adds_only flags M k v : fold_left m_add flags M !! k = Some v → M !! k = Some v ∨ (v = one ∧ k ∈ flags).
Proof.
  revert M. induction flags as [|x flags IH]; intros M H; [by left|]. cbn in H. destruct (IH _ H) as [H1|[H1 H2]]; [|right; split; [done|by right]].
  unfold m_add in H1. destruct (M !! x); [by left|]. destruct (decide (k = x)) as [->|].
  - rewrite lookup_insert_eq in H1. injection H1 as <-. right. split; [done|by left].
  - rewrite lookup_insert_ne in H1 by done. by left.
Qed.

Lemma m_implies_only l M k v :
  m_implies l M !! k = Some v →
  M !! k = Some v ∨ (v = one ∧ ∃ e, e ∈ l ∧ k ∈ e.2 ∧ is_Some (m_implies l M !! e.1)).
Proof.
  revert M. induction l as [|e l IH]; intros M H; [by left|]. cbn in H. destruct (IH _ H) as [H1|[H1 (e' & He' & Hk & Hi)]].
  - unfold m_imply in H1. destruct (M !! e.1) as [n|] eqn:E; [|by left]. apply m_adds_only in H1 as [H1|[H1 H2]]; [by left|right].
    split; [done|]. exists e. split_and!; [by left|done|]. exists n. by apply m_implies_keep.
  - right. split; [done|]. exists e'. split_and!; [by right|done|done].
Qed.

(** The flags of the entries [l] are closed under implication. *)
Definition closed (l : list (list Z * list (list Z))) (M : fmap_t) : Prop :=
  ∀ e, e ∈ l → is_Some (M !! e.1) → ∀ flag, flag ∈ e.2 → is_Some (M !! flag).

(** No entry adds a flag that an entry before it is about. *)
Fixpoint ordered (before l : list (list Z * list (list Z))) : Prop :=
  match l with
  | [] => True
  | e :: l => Forall (λ flag, flag ∉ (before ++ [e]).*1) e.2 ∧ ordered (before ++ [e]) l
  end.

Lemma m_imply_closed before e M :
  Forall (λ flag, flag ∉ (before ++ [e]).*1) e.2 → closed before M → closed (before ++ [e]) (m_imply M e).
Proof.
  intros He Hc d Hd [v Hv] flag Hf. rewrite Forall_forall in He.
  assert (M !! d.1 = Some v) as Hold.
  { unfold m_imply in Hv. destruct (M !! e.1); [|done]. apply m_adds_only in Hv as [Hv|[_ Hv]]; [done|].
    destruct (He _ Hv). by apply list_elem_of_fmap_2. }
  apply elem_of_app in Hd as [Hd|Hd%list_elem_of_singleton].
  - destruct (Hc d Hd (ex_intro _ v Hold) flag Hf) as [w Hw]. exists w. by apply (m_implies_keep [e]).
  - subst d. unfold m_imply. rewrite Hold. by apply m_adds_there.
Qed.

Lemma m_implies_closed before l M : ordered before l → closed before M → closed (before ++ l) (m_implies l M).
Proof.
  revert before M. induction l as [|e l IH]; intros before M Ho Hc; [by rewrite app_nil_r|]. destruct Ho as [He Ho].
  change (before ++ e :: l) with (before ++ [e] ++ l). rewrite app_assoc. apply IH; [done|]. by apply m_imply_closed.
Qed.

Lemma implies_ordered : ordered [] implies.
Proof. cbn [ordered]. repeat split; apply (bool_decide_unpack _); vm_compute; exact I. Qed.

(** ** The fields in the output *)

Definition fname_id : list Z := str "fname".

(** What is left of a field before the flags are looked at. *)
Definition kept (M : fmap_t) (k : list Z) : option data_node :=
  if decide (k ∈ filter_out) then None else (λ v, if decide (k = tv) then to_int v else v) <$> M !! k.

Lemma kept_new M M2 k v :
  (∀ k, M2 !! k = kept M k) → m_implies implies M2 !! k = Some v →
  ((k ∉ filter_out) ∧ is_Some (M !! k)) ∨
  (v = one ∧ (k ∉ filter_out) ∧ k ≠ fname_id ∧ ∃ e, e ∈ implies ∧ k ∈ e.2 ∧ is_Some (m_implies implies M2 !! e.1)).
Proof.
  intros H2 Hv. apply m_implies_only in Hv as [Hv|(-> & e & He & Hk & Hi)].
  - left. rewrite H2 in Hv. unfold kept in Hv. destruct (decide (k ∈ filter_out)); [done|]. split; [done|]. by destruct (M !! k).
  - right. split; [done|]. assert (k ∈ all_flags implies) as Hin.
    { apply list_elem_of_In, in_concat. exists e.2. rewrite <- !list_elem_of_In. split; [by apply list_elem_of_fmap_2|done]. }
    assert (Forall (λ k, (k ∉ filter_out) ∧ k ≠ fname_id) (all_flags implies)) as Hall by (apply (bool_decide_unpack _); vm_compute; exact I).
    rewrite Forall_forall in Hall. destruct (Hall k Hin). split_and!; [done|done|]. by exists e.
Qed.

Lemma normalize_map fname node :
  hash_wf node → (size (hash_map node) ≤ 89)%nat → hash_map node !! fname_id = None →
  (∀ n, hash_map node !! tv = Some n → is_int n) →
  ∃ node' M2, normalize fname node = Ret node' ∧ hash_wf node' ∧ (∀ k, M2 !! k = kept (hash_map node) k) ∧
    hash_map node' = <[fname_id := DATA_STRING fname]> (m_implies implies M2).
Proof.
  intros Hw Hs Hfn Htv. unfold normalize.
  destruct (filter_all filter_out node Hw) as (n1 & -> & Hw1 & Hs1 & Hl1). rewrite rbind_Ret.
  assert (∀ n, hash_map n1 !! tv = Some n → is_int n) as Htv1 by (intros n; rewrite Hl1; case_decide; [done|apply Htv]).
  destruct (types_spec n1 Hw1 Htv1) as (n2 & -> & Hw2 & Em2). rewrite rbind_Ret.
  assert (size (hash_map n2) ≤ 89)%nat as Hs2.
  { rewrite Em2. destruct (hash_map n1 !! tv) eqn:E; [rewrite map_size_insert_Some by done|]; lia. }
  assert (∀ k, hash_map n2 !! k = kept (hash_map node) k) as Hl2.
  { intros k. transitivity ((λ v, if decide (k = tv) then to_int v else v) <$> hash_map n1 !! k); [|rewrite Hl1; unfold kept; by destruct (decide (k ∈ filter_out))].
    rewrite Em2. destruct (hash_map n1 !! tv) as [n|] eqn:E; [destruct (decide (k = tv)) as [->|]|].
    - by rewrite lookup_insert_eq, E.
    - rewrite lookup_insert_ne by done. by destruct (hash_map n1 !! k).
    - destruct (decide (k = tv)) as [->|]; [by rewrite E|]. by destruct (hash_map n1 !! k). }
  destruct (implies_spec implies n2 Hw2) as (n3 & -> & Hw3 & Em3 & Hs3).
  { change (length (all_flags implies)) with 10%nat. unfold MAX_ELEMS. lia. }
  change (length (all_flags implies)) with 10%nat in Hs3. rewrite rbind_Ret.
  assert (hash_map n3 !! fname_id = None) as Hfn3.
  { destruct (hash_map n3 !! fname_id) as [v|] eqn:E; [|done]. rewrite Em3 in E.
    apply (kept_new _ _ _ _ Hl2) in E as [[_ E]|(_ & _ & E & _)]; [rewrite Hfn in E; by destruct E|done]. }
  destruct (hash_add_new n3 fname_id (DATA_STRING fname) Hw3 Hfn3) as (n4 & E4 & Hw4 & Em4); [unfold MAX_ELEMS; lia|].
  fold fname_id. rewrite E4. exists n4, (hash_map n2). split_and!; [done|done|done|]. by rewrite Em4, Em3.
Qed.

(** What metaparse prints of the fields of a test, when they have
    distinct names, are few enough for the table, none of them is called
    fname and test_variants is a number if it is there: no field that is
    filtered out; every other field with its value, test_variants as a
    number; for every flag the flags it implies; the name of the file; and
    nothing else but implied flags with the value 1. *)
Theorem normalize_correct (fname : list Z) (node : data_node) :
  hash_wf node → (size (hash_map node) ≤ 89)%nat → hash_map node !! fname_id = None →
  (∀ n, hash_map node !! tv = Some n → is_int n) →
  ∃ node', normalize fname node = Ret node' ∧ hash_wf node' ∧
    (∀ id, id ∈ filter_out → hash_map node' !! id = None) ∧
    (∀ id v, id ∉ filter_out → hash_map node !! id = Some v →
      hash_map node' !! id = Some (if decide (id = tv) then to_int v else v)) ∧
    (∀ flag implied, (flag, implied) ∈ implies → is_Some (hash_map node' !! flag) →
      ∀ id, id ∈ implied → is_Some (hash_map node' !! id)) ∧
    hash_map node' !! fname_id = Some (DATA_STRING fname) ∧
    (∀ id v, hash_map node' !! id = Some v → hash_map node !! id = None → id ≠ fname_id →
      v = one ∧ ∃ flag implied, (flag, implied) ∈ implies ∧ id ∈ implied ∧ is_Some (hash_map node' !! flag)).
Proof.
  intros Hw Hs Hfn Htv. destruct (normalize_map fname node Hw Hs Hfn Htv) as (n' & M2 & -> & Hw' & H2 & Em).
  assert ((fname_id ∉ filter_out) ∧ (fname_id ∉ implies.*1)) as [Hff Hfi] by (apply (bool_decide_unpack _); vm_compute; exact I).
  exists n'. rewrite Em. split_and!; [done|done|..].
  - intros id Hid. rewrite lookup_insert_ne by congruence. destruct (m_implies implies M2 !! id) as [v|] eqn:E; [|done].
    by apply (kept_new _ _ _ _ H2) in E as [[? _]|(_ & ? & _)].
  - intros id v Hid Hv. rewrite lookup_insert_ne by congruence. apply m_implies_keep. rewrite H2. unfold kept.
    by rewrite decide_False, Hv by done.
  - intros flag implied He Hi id Hid. destruct (decide (id = fname_id)) as [->|Hne]; [by rewrite lookup_insert_eq|].
    rewrite lookup_insert_ne by done. rewrite lookup_insert_ne in Hi; [|intros <-; apply Hfi; by apply (list_elem_of_fmap_2 fst _ _ He)].
    refine (m_implies_closed [] implies M2 implies_ordered _ (flag, implied) He Hi id Hid). intros e He'. by apply not_elem_of_nil in He'.
  - by rewrite lookup_insert_eq.
  - intros id v Hv Hold Hne. rewrite lookup_insert_ne in Hv by done.
    apply (kept_new _ _ _ _ H2) in Hv as [[_ Hv]|(-> & _ & _ & [flag implied] & He & Hk & Hi)]; [rewrite Hold in Hv; by destruct Hv|].
    split; [done|]. exists flag, implied. split_and!; [done|done|]. cbn in Hi.
    rewrite lookup_insert_ne; [done|]. intros <-. apply Hfi. by apply (list_elem_of_fmap_2 fst _ _ He).
Qed.

(** ** From the source to the reader of the output *)

