(* ===== verification/MetaparseDemo.v ===== *)
(** * A source file

    The theorems on metaparse at a test with a license, a doc comment,
    includes, a macro, an array, a list of tags, a structure and flags. *)

From stdpp Require Import gmap.
From S2P Require Import Prelude UjsonReader UjsonWriter UjsonRoundtrip DataStorage DataStorageFacts.
From S2P Require Import Metaparse MetaparseEnds MetaparseLex MetaparseInit MetaparseSize MetaparseFile MetaparseDecls MetaparseMain.
Open Scope Z_scope.

(** A word after a blank, punctuation, a string on a line of its own. *)
Definition w (s : string) : list piece * lexeme := ([PBlank 32], LWord (str s)).
Definition p (c : Z) : list piece * lexeme := ([], LPunct c).
Definition q (s : string) : list piece * lexeme := ([PBlank 10; PBlank 9], LStr (str s)).

Definition demo_before : list (list piece * lexeme) :=
  [w "static"; w "int"; w "variants"; p ("["%cc); p ("]"%cc); p ("="%cc); p ("{"%cc); w "1"; p (","%cc); w "2"; p ("}"%cc); p (";"%cc)].
Definition demo_start : list (list piece * lexeme) :=
  [w "static"; w "struct"; w "tst_test"; w "test"; p ("="%cc); p ("{"%cc)].
Definition demo_tags : list (list piece * lexeme) :=
  [p ("{"%cc); p ("{"%cc); q "tag-name-1"; p (","%cc); w "TAG"; p ("}"%cc); p (","%cc); p ("{"%cc); p ("}"%cc); p ("}"%cc)].
Definition demo_opts : list (list piece * lexeme) :=
  [p ("{"%cc); w ".a"; p ("="%cc); w "TST_KB"; p (","%cc); w ".b"; p ("="%cc);
   p ("{"%cc); q "x"; p (","%cc); w "NULL"; p ("}"%cc); p ("}"%cc)].
Definition demo_fields : list (list piece * lexeme) :=
  [w ".test_variants"; p ("="%cc); w "ARRAY_SIZE"; p ("("%cc); w "variants"; p (")"%cc); p (","%cc);
   w ".tags"; p ("="%cc); p ("("%cc); w "struct"; w "tst_tag"; p ("["%cc); p ("]"%cc); p (")"%cc)] ++ demo_tags ++ [p (","%cc);
   ([PBlank 10; PComment (str " every one "); PBlank 32], LWord (str ".all_filesystems")); p ("="%cc); w "1"; p (","%cc);
   w ".timeout"; p ("="%cc); w "LIMIT"; p (","%cc); w ".opts"; p ("="%cc)] ++ demo_opts ++ [p (","%cc);
   w ".setup"; p ("="%cc); w "run"; p ("}"%cc)].
Definition demo_test : list (list piece * lexeme) := demo_start ++ demo_fields.

(** A line comment, a doc comment, two includes that are not followed and one
    that is, a definition, the array, the test structure and its semicolon. *)
Definition demo_spdx : list piece :=
  [PLine (str " SPDX-License-Identifier: GPL-2.0"); PDoc [str " * [Description]"; str " * A test."] (str " "); PBlank 10].
Definition demo_rest : list Z := render [p (";"%cc)] (gap_text [PBlank 10]).
Definition demo_decls : list Z := render demo_before (render demo_test demo_rest).
Definition demo_define : list Z := gap_text [] ++ str "#" ++ gap_text [] ++ str "define" ++ [32] ++ str "LIMIT" ++ ([32] ++ [32] ++ str "10 * 2" ++ [10]) ++ demo_decls.
Definition demo_local : list Z := [cDQ] ++ str "limits.h" ++ [cDQ].
Definition demo_include3 : list Z := gap_text [] ++ str "#" ++ gap_text [] ++ str "include" ++ [32] ++ demo_local ++ [10] ++ demo_define.
Definition demo_include2 : list Z := gap_text [] ++ str "#" ++ gap_text [] ++ str "include" ++ [32] ++ ([cDQ] ++ str "tst_test.h" ++ [cDQ]) ++ [10] ++ demo_include3.
Definition demo_source : list Z := gap_text demo_spdx ++ str "#" ++ gap_text [] ++ str "include" ++ [32] ++ str "<stdlib.h>" ++ [10] ++ demo_include2.

(** The include file defines a string. *)
Definition demo_header : list Z :=
  gap_text [] ++ str "#" ++ gap_text [] ++ str "define" ++ [32] ++ str "TAG" ++ ([32] ++ [] ++ [cDQ] ++ str "v1.0" ++ [cDQ]) ++ gap_text [PBlank 10].

Definition demo_name : list Z := str "demo.c".
Definition demo_read (path : list Z) : option (list Z) :=
  if decide (path = demo_name) then Some demo_source else if decide (path = str "./limits.h") then Some demo_header else None.
Definition demo_config : config := Config [] (dirname demo_name) demo_read.

(** The fields. *)
Definition tags_inits : inits :=
  ICons (IArr false (ICons (IVal [str "tag-name-1"]) (ICons (IVal [str "TAG"]) INil)))
    (ICons (IArr false INil) INil).
Definition opts_fields : fields :=
  FCons (str ".a") (IVal [str "TST_KB"])
    (FCons (str ".b") (IArr false (ICons (IVal [str "x"]) (ICons INull INil))) FNil).
Definition demo_struct : list field :=
  [FSize (str ".test_variants") (str "variants") (DATA_INT 2);
   FList (str ".tags") (Some [str "struct"; str "tst_tag"; str "["; str "]"]) false tags_inits;
   FTok (str ".all_filesystems") (str "1") [];
   FTok (str ".timeout") (str "LIMIT") [];
   FStruct (str ".opts") None false opts_fields;
   FTok (str ".setup") (str "run") []].

Definition demo_macros : macros :=
  define 131 (str "LIMIT") (Some (str "10*2")) (define 131 (str "TAG") (Some (str "v1.0")) (load_internal_macros 131 ∅)).

(** The result. *)
Definition demo_node : data_node :=
  DATA_HASH
    [(str "test_variants", DATA_INT 2);
     (str "tags", DATA_ARRAY [DATA_ARRAY [DATA_STRING (str "tag-name-1"); DATA_STRING (str "v1.0")]]);
     (str "all_filesystems", DATA_STRING (str "1")); (str "timeout", DATA_STRING (str "10*2"));
     (str "opts", DATA_HASH [(str "a", DATA_STRING (str "1024")); (str "b", DATA_ARRAY [DATA_STRING (str "x")])]);
     (str "doc", DATA_ARRAY [DATA_STRING (str "[Description]"); DATA_STRING (str "A test.")]);
     (str "needs_device", DATA_STRING (str "1")); (str "needs_tmpdir", DATA_STRING (str "1"));
     (str "fname", DATA_STRING (str "demo.c"))].

Lemma demo_inits_ok : init_ok demo_macros (IArr false tags_inits) ∧ init_ok demo_macros (IHash false opts_fields).
Proof.
  cbn. unfold plain. split; [split; [|unfold MAX_ELEMS; vm_compute; lia]|split; [done|split; [|unfold MAX_ELEMS; vm_compute; lia]]];
    repeat split; try done; try (vm_compute; lia); by_dec.
Qed.

Lemma demo_fields_ok : Forall (field_ok demo_macros demo_source) demo_struct.
Proof.
  destruct demo_inits_ok as [H1 H2]. repeat apply Forall_cons_2; [..|constructor]; split; try by_dec; cbn [field_name].
  - vm_compute. reflexivity.
  - split; [by_dec|exact H1].
  - split; [by_dec|exact H2].
Qed.

Lemma demo_tree_ok : tree_ok true 16 0 demo_node.
Proof.
  cbn [tree_ok demo_node fst snd]. repeat split; try (left; reflexivity); try lia; try (vm_compute; lia); by_dec.
Qed.

Lemma demo_file : test_file 131 demo_config demo_source demo_macros false demo_struct [str " * [Description]"; str " * A test."].
Proof.
  refine (test_file_intro _ _ _ _ _ _ _ [str " * [Description]"; str " * A test."] (render demo_test demo_rest) (snd <$> demo_test) demo_rest 0 demo_macros
    [str " * [Description]"; str " * A test."] [PBlank 10] _ _ _ _ _ _).
  - unfold demo_source. apply (decls_skipped 131 demo_config 2); try by_dec.
    unfold demo_include2. apply (decls_skipped 131 demo_config 2); try by_dec.
    unfold demo_include3. eapply (decls_include 131 demo_config 2) with (inc := demo_header) (es := [PBlank 10]); try by_dec.
    + unfold demo_header. eapply (decls_define 131 demo_config 2) with (val := Some (str "v1.0")); try by_dec; [apply rest_string; by_dec|apply decls_nil].
    + by_dec.
    + unfold demo_define. eapply (decls_define 131 demo_config 3) with (val := Some (str "10*2")); try by_dec.
      * change (Some (str "10*2")) with (Some (squeeze (str "10 * 2"))). apply rest_text; by_dec.
      * unfold demo_decls. eapply (decls_tokens 131 demo_config 3); [vm_compute; reflexivity|vm_compute; reflexivity|vm_compute; lia|].
        match goal with |- decls _ _ _ _ _ ?d _ _ _ ?d' _ => change d with d' end. unfold demo_macros. apply decls_nil.
  - apply spellsb_sound. vm_compute. reflexivity.
  - vm_compute. reflexivity.
  - unfold demo_rest. eapply (decls_tokens 131 demo_config 3); [vm_compute; reflexivity|vm_compute; reflexivity|vm_compute; lia|]. apply decls_nil.
  - by_dec.
  - vm_compute. reflexivity.
Qed.


Lemma parse_array_correct_witness :
  ∃ r', parse_array demo_macros (render (drop 1 demo_tags) [10]) = Ret (0, init_node demo_macros (IArr false tags_inits), r') ∧ skips [10] r'.
Proof.
  apply (parse_array_correct demo_macros (IArr false tags_inits) (snd <$> drop 1 demo_tags)).
  - apply demo_inits_ok.
  - apply spellsb_sound. vm_compute. reflexivity.
  - vm_compute. reflexivity.
Defined.

Lemma metaparse_terminates_witness : main 131 true [] demo_read demo_name ≠ Hang.
Proof.
  apply (metaparse_terminates 131 true [] demo_read demo_name). intros path f. unfold demo_read.
  repeat case_decide; [..|done]; intros [= <-]; apply tidyb_sound; vm_compute; reflexivity.
Defined.

Definition demo_flags : data_node :=
  DATA_HASH [(str "all_filesystems", DATA_STRING (str "1")); (str "setup", DATA_STRING (str "run")); (str "test_variants", DATA_STRING (str "10"))].

Lemma normalize_correct_witness :
  ∃ node', normalize demo_name demo_flags = Ret node' ∧ is_Some (hash_map node' !! str "needs_tmpdir") ∧
    hash_map node' !! str "setup" = None ∧ hash_map node' !! tv = Some (DATA_INT 10).
Proof.
  destruct (normalize_correct demo_name demo_flags) as (n & E & _ & H1 & H2 & H3 & _).
  - eexists. split; [reflexivity|]. split; [by_dec|cbn; unfold MAX_ELEMS; lia].
  - vm_compute. lia.
  - by vm_compute.
  - intros n Hn. vm_compute in Hn. injection Hn as <-. by vm_compute.
  - exists n. split; [exact E|]. split_and!.
    + apply (H3 (str "all_filesystems") [str "needs_device"; str "needs_tmpdir"]); [by_dec| |by_dec].
      rewrite (H2 (str "all_filesystems") one); [done|by_dec|by vm_compute].
    + apply H1. by_dec.
    + rewrite (H2 tv (DATA_STRING (str "10"))); [by vm_compute|by_dec|by vm_compute].
Defined.

Lemma array_size_correct_witness : look_for_size (render (demo_before ++ demo_test) [10]) (str "variants") = Ret (Some (DATA_INT 2)).
Proof.
  apply (array_size_correct ∅ (str "variants") [str "static"; str "int"] false (ICons (IVal [str "1"]) (ICons (IVal [str "2"]) INil))
    (drop 11 (lex_val ∘ snd <$> demo_before ++ demo_test)) (snd <$> demo_before ++ demo_test) _ [10]).
  - apply spellsb_sound. vm_compute. reflexivity.
  - vm_compute. reflexivity.
  - vm_compute. reflexivity.
  - by_dec.
  - cbn. unfold plain. repeat split; try done; by_dec.
  - done.
Defined.

(** ** Defects *)

(** The fields of a test structure with the text [s]. *)
Definition fields_of (s : list Z) : option data_node :=
  match parse_test_struct (Config [] (str ".") (λ _, None)) ∅ s s data_node_array data_node_hash with
  | Ret (_, _, _, node) => Some node
  | _ => None
  end.

(** A null pointer in a structure keeps its name, with the dot, and the next
    field is taken for the value of that name. *)
Lemma null_field_misread :
  fields_of (str ".a = {.x = NULL, .y = z} }") =
  Some (DATA_HASH [(str "a", DATA_HASH [(str ".x", DATA_NULL); (str "x", DATA_STRING (str ".y=z"))])]).
Proof. by vm_compute. Qed.

(** A comma inside parentheses ends a field. *)
Lemma comma_splits_field :
  fields_of (str ".c = FOO(a, b), .d = 5 }") =
  Some (DATA_HASH [(str "c", DATA_STRING (str "FOO")); (str "b", DATA_STRING (str "5"))]).
Proof. by vm_compute. Qed.

(** A structure with such a comma is taken for a list. *)
Lemma comma_hides_struct :
  fields_of (str ".o = {.a = F(1, 2), .b = 3} }") =
  Some (DATA_HASH [(str "o", DATA_ARRAY [DATA_STRING (str ".a=F(1,2)"); DATA_STRING (str ".b=3")])]).
Proof. by vm_compute. Qed.

(** An array without elements has the size 1. *)
Lemma empty_array_size : parse_get_array_len (str "{ };") = Ret (1, str ";").
Proof. by vm_compute. Qed.

(** A comment at the end of a file without a newline is read for ever. *)
Lemma comment_at_end_hangs f doc : 10 ∉ f → next_token (str "//" ++ f) doc = Hang.
Proof.
  intros H. unfold next_token, next_token2. change (str "//" ++ f) with ("/"%cc :: "/"%cc :: f). cbn [length next_token2_loop].
  change (maybe_comment ("/"%cc :: f) doc) with (f ← remove_to_newline f; Ret (f, doc)).
  assert (remove_to_newline f = Hang) as ->; [|done].
  induction f as [|c f IH]; [done|]. cbn. apply not_elem_of_cons in H as [Hc H]. rewrite (proj2 (Z.eqb_neq c 10)) by congruence. by apply IH.
Qed.

(** A word that is longer than the buffer is written past its end. *)
Lemma long_word_overruns : next_token (replicate 5000 ("x"%cc)) None = UB.
Proof. by vm_compute. Qed.
