(* ===== verification/MetaparseSh.v ===== *)
(** * Metadata of shell tests

    metadata/metaparse-sh.c: the doc and env blocks in the comments of a
    shell test are copied into a JSON object.  [line] is the buffer of the
    function, whose content [fgets] overwrites only as far as the line goes;
    what it holds at the start is an argument. *)

From S2P Require Import Prelude UjsonUtf UjsonReader UjsonWriter UjsonWriterFacts UjsonRoundtrip UjsonReadback.
From S2P Require Import DataStorage DataStorageFacts Metaparse.
Open Scope Z_scope.

(** [basename] is that of the C library, [started] the static variable, the
    other results are what is printed. *)
Definition json_start (path : list Z) (started : bool) : bool * list Z :=
  if started then (true, []) else (true, str "   " ++ [cDQ] ++ basename path ++ [cDQ] ++ str ": {" ++ [10]).

Definition json_finish (path : list Z) (started : bool) : list Z :=
  if negb started then []
  else str "   " ++ [cDQ] ++ str "fname" ++ [cDQ] ++ str ": " ++ [cDQ] ++ path ++ [cDQ] ++ [10] ++ str "  }".

Inductive state := NONE | START | DOC_FIRST | DOC | ENV_START | ENV_FIRST | ENV.

Definition LINE : nat := 4096.

(** [fgets] and the removal of the last character of what it read. *)
Definition store_line (l line : list Z) : option (list Z) :=
  let line := l ++ [0] ++ drop (length l + 1) line in
  match length (c_str line) with
  | O => None
  | S n => Some (<[n := 0]> line)
  end.

Section Shell.
Context (char_signed : bool) (path : list Z).

(** The switch: the new state, [line], [started] and the output. *)
Definition shell_line (st : state) (line : list Z) (started : bool) : state * list Z * bool * list Z :=
  let text := c_str line in
  match st with
  | NONE => (if streq text "# ---" then START else NONE, line, started, [])
  | START =>
      if streq text "# doc" then
        let '(started, out) := json_start path started in
        (DOC_FIRST, line, started, out ++ str "   " ++ [cDQ] ++ str "doc" ++ [cDQ] ++ str ": [" ++ [10])
      else if streq text "# env" then
        let '(started, out) := json_start path started in (ENV_START, line, started, out)
      else (NONE, line, started, [])
  | DOC | DOC_FIRST =>
      if streq text "# ---" then (NONE, line, started, [10] ++ str "   ]," ++ [10])
      else (DOC, line, started,
            (match st with DOC_FIRST => [] | _ => str "," ++ [10] end) ++ data_fprintf_esc char_signed 4 (c_str (drop 2 line)))
  | ENV_START => (if streq text "# {" then ENV_FIRST else ENV_START, line, started, [])
  | ENV | ENV_FIRST =>
      if streq text "# }" then (NONE, line, started, str "," ++ [10])
      else let line := <[1%nat := " "%cc]> (<[0%nat := " "%cc]> line) in
           (ENV, line, started, (match st with ENV_FIRST => [] | _ => [10] end) ++ c_str line)
  end.

(** The loop over the lines: [started] and the output. *)
Fixpoint shell_loop (fuel : nat) (f : list Z) (st : state) (line : list Z) (started : bool) : res (bool * list Z) :=
  match fuel with
  | O => NoFuel
  | S fuel =>
      match fgets LINE f with
      | None => Ret (started, [])
      | Some (l, f) =>
          line ← lift (store_line l line);
          let '(st, line, started, out) := shell_line st line started in
          '(started, out') ← shell_loop fuel f st line started;
          Ret (started, out ++ out')
      end
  end.
End Shell.

(** [garbage] is what the buffer holds before the first line. *)
Definition parse_shell (char_signed : bool) (read : list Z → option (list Z)) (garbage path : list Z) (started : bool) :
    res (bool * list Z) :=
  match read path with
  | None => Exit 1
  | Some f =>
      '(started, out) ← shell_loop char_signed path (S (length f)) f NONE garbage started;
      Ret (started, out ++ json_finish path started)
  end.

Fixpoint sh_main (char_signed : bool) (read : list Z → option (list Z)) (garbage : list Z) (paths : list (list Z)) (started : bool) :
    res (list Z) :=
  match paths with
  | [] => Ret []
  | path :: paths =>
      '(started, out) ← parse_shell char_signed read garbage path started;
      out' ← sh_main char_signed read garbage paths started;
      Ret (out ++ out')
  end.
