(* ===== verification/RunShell.v ===== *)
(** * The loader of shell tests

    testcases/lib/tst_run_shell.c: the env blocks in the comments of a shell
    test hold a JSON object, which the loader reads into a [struct tst_test]
    by the loops of the JSON reader over its attribute tables.

    A member of the structure is named by the attribute it is set from, one
    that is not set is zero.  [junk] is what reading a member of the union of
    a [ujson_val] gives when another member was written last. *)

From stdpp Require Import gmap.
From S2P Require Import Prelude UjsonUtf UjsonReader.
Open Scope Z_scope.

(** ** Results

    [LBrk] is [tst_brk(TBROK, ...)] with its message; [LWild] a string that
    is copied from a pointer that was never set to one; [LOver] a write past
    the entries an array was allocated for; [LUB] a call of the reader that is
    not defined, or a loop that does not end within its fuel. *)
Inductive lres (A : Type) : Type :=
  | LRet (a : A)
  | LBrk (msg : list Z)
  | LWild
  | LOver
  | LUB.
Arguments LRet {A} a.
Arguments LBrk {A} msg.
Arguments LWild {A}.
Arguments LOver {A}.
Arguments LUB {A}.

#[export] Instance lres_ret : MRet lres := @LRet.
#[export] Instance lres_bind : MBind lres := λ A B f m,
  match m with LRet a => f a | LBrk s => LBrk s | LWild => LWild | LOver => LOver | LUB => LUB end.

Definition ldef {A} (o : option A) : lres A := match o with Some a => LRet a | None => LUB end.

(** ** The structures *)

Inductive test_attr_ids :=
  | ALL_FILESYSTEMS
  | DEV_MIN_SIZE
  | FILESYSTEMS
  | FORMAT_DEVICE
  | MIN_CPUS
  | MIN_MEM_AVAIL
  | MIN_KVER
  | MIN_RUNTIME
  | MIN_SWAP_AVAIL
  | MNTPOINT
  | MOUNT_DEVICE
  | NEEDS_ABI_BITS
  | NEEDS_CMDS
  | NEEDS_DEVFS
  | NEEDS_DEVICE
  | NEEDS_DRIVERS
  | NEEDS_HUGETLBFS
  | NEEDS_KCONFIGS
  | NEEDS_ROFS
  | NEEDS_ROOT
  | NEEDS_TMPDIR
  | RESTORE_WALLCLOCK
  | RUNTIME
  | SAVE_RESTORE
  | SKIP_FILESYSTEMS
  | SKIP_IN_COMPAT
  | SKIP_IN_LOCKDOWN
  | SKIP_IN_SECUREBOOT
  | SUPPORTED_ARCHS
  | TAGS
  | TAINT_CHECK
  | TCNT.

(** The enumeration in its order. *)
Definition test_ids : list test_attr_ids :=
  [ALL_FILESYSTEMS; DEV_MIN_SIZE; FILESYSTEMS; FORMAT_DEVICE; MIN_CPUS; MIN_MEM_AVAIL; MIN_KVER; MIN_RUNTIME;
   MIN_SWAP_AVAIL; MNTPOINT; MOUNT_DEVICE; NEEDS_ABI_BITS; NEEDS_CMDS; NEEDS_DEVFS; NEEDS_DEVICE; NEEDS_DRIVERS;
   NEEDS_HUGETLBFS; NEEDS_KCONFIGS; NEEDS_ROFS; NEEDS_ROOT; NEEDS_TMPDIR; RESTORE_WALLCLOCK; RUNTIME; SAVE_RESTORE;
   SKIP_FILESYSTEMS; SKIP_IN_COMPAT; SKIP_IN_LOCKDOWN; SKIP_IN_SECUREBOOT; SUPPORTED_ARCHS; TAGS; TAINT_CHECK; TCNT].

#[export] Instance test_attr_ids_eq_dec : EqDecision test_attr_ids.
Proof. solve_decision. Defined.

Definition test_id_nr (a : test_attr_ids) : nat := default 0%nat (fst <$> list_find (a =.) test_ids).

#[export] Instance test_attr_ids_countable : Countable test_attr_ids.
Proof.
  refine (inj_countable test_id_nr (λ n, test_ids !! n) _). intros a. by destruct a.
Defined.

Definition test_attrs : ujson_obj :=
  [mk_attr (str "all_filesystems") UJSON_BOOL; mk_attr (str "dev_min_size") UJSON_INT;
   mk_attr (str "filesystems") UJSON_ARR; mk_attr (str "format_device") UJSON_BOOL;
   mk_attr (str "min_cpus") UJSON_INT; mk_attr (str "min_mem_avail") UJSON_INT;
   mk_attr (str "min_kver") UJSON_STR; mk_attr (str "min_runtime") UJSON_INT;
   mk_attr (str "min_swap_avail") UJSON_INT; mk_attr (str "mntpoint") UJSON_STR;
   mk_attr (str "mount_device") UJSON_BOOL; mk_attr (str "needs_abi_bits") UJSON_INT;
   mk_attr (str "needs_cmds") UJSON_ARR; mk_attr (str "needs_devfs") UJSON_BOOL;
   mk_attr (str "needs_device") UJSON_BOOL; mk_attr (str "needs_drivers") UJSON_ARR;
   mk_attr (str "needs_hugetlbfs") UJSON_BOOL; mk_attr (str "needs_kconfigs") UJSON_ARR;
   mk_attr (str "needs_rofs") UJSON_BOOL; mk_attr (str "needs_root") UJSON_BOOL;
   mk_attr (str "needs_tmpdir") UJSON_BOOL; mk_attr (str "restore_wallclock") UJSON_BOOL;
   mk_attr (str "runtime") UJSON_INT; mk_attr (str "save_restore") UJSON_ARR;
   mk_attr (str "skip_filesystems") UJSON_ARR; mk_attr (str "skip_in_compat") UJSON_BOOL;
   mk_attr (str "skip_in_lockdown") UJSON_BOOL; mk_attr (str "skip_in_secureboot") UJSON_BOOL;
   mk_attr (str "supported_archs") UJSON_ARR; mk_attr (str "tags") UJSON_ARR;
   mk_attr (str "taint_check") UJSON_BOOL; mk_attr (str "tcnt") UJSON_INT].

Inductive fs_ids := FS_MIN_KVER | MKFS_OPTS | MKFS_SIZE_OPT | MKFS_VER | MNT_FLAGS | TYPE.

Definition fs_attr_ids : list fs_ids := [FS_MIN_KVER; MKFS_OPTS; MKFS_SIZE_OPT; MKFS_VER; MNT_FLAGS; TYPE].

Definition fs_attrs : ujson_obj :=
  [mk_attr (str "min_kver") UJSON_STR; mk_attr (str "mkfs_opts") UJSON_ARR; mk_attr (str "mkfs_size_opt") UJSON_STR;
   mk_attr (str "mkfs_ver") UJSON_STR; mk_attr (str "mnt_flags") UJSON_ARR; mk_attr (str "type") UJSON_STR].

Inductive cmd_ids := CMD | OPTIONAL.

Definition cmd_attr_ids : list cmd_ids := [CMD; OPTIONAL].

Definition cmd_attrs : ujson_obj := [mk_attr (str "cmd") UJSON_STR; mk_attr (str "optional") UJSON_INT].

(** [const char *]: a string or NULL; [const char *const *] likewise. *)
Record tst_fs := mk_fs {
  fs_type : option (list Z);
  mkfs_opts : option (list (list Z));
  mkfs_size_opt : option (list Z);
  mkfs_ver : option (list Z);
  mnt_flags : Z;
  fs_min_kver : option (list Z);
}.

(** [None] is a member that malloc left as it is. *)
Record tst_cmd := mk_cmd { cmd : option (list Z); optional : option Z }.

Record tst_tag := mk_tag { tag_name : option (list Z); tag_value : option (list Z) }.

Record tst_path_val := mk_pv { pv_path : list Z; pv_val : option (list Z); pv_flags : Z }.

Inductive member :=
  | MInt (z : Z)
  | MStr (s : list Z)
  | MStrs (l : option (list (list Z)))
  | MFs (l : option (list tst_fs))
  | MCmds (l : option (list tst_cmd))
  | MTags (l : option (list tst_tag))
  | MPaths (l : option (list tst_path_val)).

#[export] Instance tst_fs_eq_dec : EqDecision tst_fs.
Proof. solve_decision. Defined.
#[export] Instance tst_cmd_eq_dec : EqDecision tst_cmd.
Proof. solve_decision. Defined.
#[export] Instance tst_tag_eq_dec : EqDecision tst_tag.
Proof. solve_decision. Defined.
#[export] Instance tst_path_val_eq_dec : EqDecision tst_path_val.
Proof. solve_decision. Defined.
#[export] Instance member_eq_dec : EqDecision member.
Proof. solve_decision. Defined.
#[export] Instance lres_eq_dec {A} `{EqDecision A} : EqDecision (lres A).
Proof. solve_decision. Defined.

Abbreviation tst_test := (gmap test_attr_ids member).

(** ** The loop macros *)

(** What the body of a loop does next. *)
Inductive flow (R A : Type) : Type :=
  | Next (a : A)
  | Return (r : R).
Arguments Next {R A} a.
Arguments Return {R A} r.

(** [UJSON_ARR_FOREACH] and [UJSON_OBJ_FOREACH_FILTER] after the first call;
    [a] are the variables that the body changes.  Every round takes a byte,
    so that the fuel of [loop_fuel] is enough. *)
Fixpoint foreach {R A} (next : ujson_reader → ujson_val → option (Z * ujson_val * ujson_reader))
    (body : A → ujson_val → ujson_reader → lres (flow R A * ujson_val * ujson_reader))
    (fuel : nat) (a : A) (v : ujson_val) (r : ujson_reader) : lres (flow R A * ujson_val * ujson_reader) :=
  if negb (ujson_val_valid v) then LRet (Next a, v, r) else
  match fuel with
  | O => LUB
  | S fuel =>
      '(f, v, r) ← body a v r;
      match f with
      | Return x => LRet (Return x, v, r)
      | Next a =>
          '(_, v, r) ← ldef (next r v);
          foreach next body fuel a v r
      end
  end.

Definition loop_fuel (r : ujson_reader) : nat := S (S (length (json r))).

Definition arr_foreach {R A} (body : A → ujson_val → ujson_reader → lres (flow R A * ujson_val * ujson_reader))
    (a : A) (v : ujson_val) (r : ujson_reader) : lres (flow R A * ujson_val * ujson_reader) :=
  '(_, v, r) ← ldef (ujson_arr_first r v);
  foreach ujson_arr_next body (loop_fuel r) a v r.

(** [ujson_empty_obj]. *)
Definition empty_obj : ujson_obj := [].

Definition obj_foreach_filter {R A} (obj : ujson_obj)
    (body : A → ujson_val → ujson_reader → lres (flow R A * ujson_val * ujson_reader))
    (a : A) (v : ujson_val) (r : ujson_reader) : lres (flow R A * ujson_val * ujson_reader) :=
  '(_, v, r) ← ldef (ujson_obj_first_filter (Some obj) (Some empty_obj) r v);
  foreach (ujson_obj_next_filter (Some obj) (Some empty_obj)) body (loop_fuel r) a v r.

(** [strdup(val->val_str)]. *)
Definition strdup (v : ujson_val) : lres (list Z) := match val v with VStr s => LRet s | _ => LWild end.

Definition val_is (t : ujson_type) (v : ujson_val) : bool := bool_decide (type v = t).

(** [ret[i++] = x] in an array of [cnt] entries and the terminator after them,
    which is not one of the entries. *)
Definition push {A} (cnt : nat) (ret : list A) (x : A) : lres (list A) :=
  if (length ret <? cnt)%nat then LRet (ret ++ [x]) else LOver.

(** ** Arrays

    The entries are counted in a first loop, which skips what they hold, and
    stored in a second one. *)

(** The first loop, for entries of the type [t]. *)
Definition count_body (t : ujson_type) (skip : ujson_reader → option (Z * ujson_reader)) (msg : list Z)
    (cnt : nat) (v : ujson_val) (r : ujson_reader) : lres (flow unit nat * ujson_val * ujson_reader) :=
  if negb (val_is t v) then LRet (Return tt, v, ujson_err msg r) else
  '(_, r) ← ldef (skip r);
  LRet (Next (S cnt), v, r).

(** Both loops: [store cnt] is the body of the second. *)
Definition two_pass {A} (t : ujson_type) (skip : ujson_reader → option (Z * ujson_reader)) (msg : list Z)
    (store : nat → list A → ujson_val → ujson_reader → lres (flow unit (list A) * ujson_val * ujson_reader))
    (v : ujson_val) (r : ujson_reader) : lres (option (list A) * ujson_val * ujson_reader) :=
  let state := ujson_reader_state_save r in
  '(f, v, r) ← arr_foreach (count_body t skip msg) 0%nat v r;
  match f with
  | Return _ => LRet (None, v, r)
  | Next cnt =>
      let r := ujson_reader_state_load r state in
      '(f, v, r) ← arr_foreach (store cnt) [] v r;
      match f with
      | Return _ => LRet (None, v, r)
      | Next ret => LRet (Some ret, v, r)
      end
  end.

Definition no_skip (r : ujson_reader) : option (Z * ujson_reader) := Some (0, r).

Definition strarr_body (cnt : nat) (ret : list (list Z)) (v : ujson_val) (r : ujson_reader) :
    lres (flow unit (list (list Z)) * ujson_val * ujson_reader) :=
  s ← strdup v;
  ret ← push cnt ret s;
  LRet (Next ret, v, r).

Definition parse_strarr : ujson_val → ujson_reader → lres (option (list (list Z)) * ujson_val * ujson_reader) :=
  two_pass UJSON_STR no_skip (str "Expected string!") strarr_body.

(** <sys/mount.h> *)
Definition MS_RDONLY := 1.
Definition MS_NOSUID := 2.
Definition MS_NOEXEC := 8.
Definition MS_NOATIME := 1024.

Definition mnt_flags_body (ret : Z) (v : ujson_val) (r : ujson_reader) : lres (flow Z Z * ujson_val * ujson_reader) :=
  if negb (val_is UJSON_STR v) then LRet (Return ret, v, ujson_err (str "Expected string!") r) else
  s ← strdup v;
  if strcmp s (str "RDONLY") =? 0 then LRet (Next (Z.lor ret MS_RDONLY), v, r)
  else if strcmp s (str "NOATIME") =? 0 then LRet (Next (Z.lor ret MS_NOATIME), v, r)
  else if strcmp s (str "NOEXEC") =? 0 then LRet (Next (Z.lor ret MS_NOEXEC), v, r)
  else if strcmp s (str "NOSUID") =? 0 then LRet (Next (Z.lor ret MS_NOSUID), v, r)
  else LRet (Next ret, v, ujson_err (str "Invalid mount flag") r).

Definition parse_mnt_flags (v : ujson_val) (r : ujson_reader) : lres (Z * ujson_val * ujson_reader) :=
  '(f, v, r) ← arr_foreach mnt_flags_body 0 v r;
  match f with Return ret | Next ret => LRet (ret, v, r) end.

Definition fs_zero : tst_fs := mk_fs None None None None 0 None.

(** The switch on the attribute of a file system. *)
Definition fs_body (fs : tst_fs) (v : ujson_val) (r : ujson_reader) : lres (flow unit tst_fs * ujson_val * ujson_reader) :=
  let '(mk_fs ty opts size_opt ver flags kver) := fs in
  match idx v ≫= (fs_attr_ids !!.) with
  | Some MKFS_OPTS =>
      '(l, v, r) ← parse_strarr v r; LRet (Next (mk_fs ty l size_opt ver flags kver), v, r)
  | Some MKFS_SIZE_OPT => s ← strdup v; LRet (Next (mk_fs ty opts (Some s) ver flags kver), v, r)
  | Some MKFS_VER => s ← strdup v; LRet (Next (mk_fs ty opts size_opt (Some s) flags kver), v, r)
  | Some MNT_FLAGS =>
      '(fl, v, r) ← parse_mnt_flags v r; LRet (Next (mk_fs ty opts size_opt ver fl kver), v, r)
  | Some TYPE => s ← strdup v; LRet (Next (mk_fs (Some s) opts size_opt ver flags kver), v, r)
  | Some FS_MIN_KVER => s ← strdup v; LRet (Next (mk_fs ty opts size_opt ver flags (Some s)), v, r)
  | None => LRet (Next fs, v, r)
  end.

(** An object as an entry of an array. *)
Definition obj_entry {A} (obj : ujson_obj) (body : A → ujson_val → ujson_reader → lres (flow unit A * ujson_val * ujson_reader))
    (zero : A) (cnt : nat) (ret : list A) (v : ujson_val) (r : ujson_reader) :
    lres (flow unit (list A) * ujson_val * ujson_reader) :=
  '(f, v, r) ← obj_foreach_filter obj body zero v r;
  match f with
  | Return _ => LRet (Return tt, v, r)
  | Next x => ret ← push cnt ret x; LRet (Next ret, v, r)
  end.

Definition parse_filesystems : ujson_val → ujson_reader → lres (option (list tst_fs) * ujson_val * ujson_reader) :=
  two_pass UJSON_OBJ ujson_obj_skip (str "Expected object!") (obj_entry fs_attrs fs_body fs_zero).

Section Junk.
Context (junk : uval → Z).

(** [val->val_int] and [val->val_bool]. *)
Definition val_int (v : ujson_val) : Z := match val v with VInt z => z | u => junk u end.
Definition val_bool (v : ujson_val) : Z := match val v with VBool b => b | u => junk u end.

(** [optional] has one bit. *)
Definition cmd_body (c : tst_cmd) (v : ujson_val) (r : ujson_reader) : lres (flow unit tst_cmd * ujson_val * ujson_reader) :=
  match idx v ≫= (cmd_attr_ids !!.) with
  | Some CMD => s ← strdup v; LRet (Next (mk_cmd (Some s) (optional c)), v, r)
  | Some OPTIONAL => LRet (Next (mk_cmd (cmd c) (Some (wrapu 1 (val_int v)))), v, r)
  | None => LRet (Next c, v, r)
  end.

Definition cmd_malloc : tst_cmd := mk_cmd None None.

Definition parse_cmds : ujson_val → ujson_reader → lres (option (list tst_cmd) * ujson_val * ujson_reader) :=
  two_pass UJSON_OBJ ujson_obj_skip (str "Expected object!") (obj_entry cmd_attrs cmd_body cmd_malloc).

Definition tag_body (t : tst_tag) (v : ujson_val) (r : ujson_reader) : lres (flow unit tst_tag * ujson_val * ujson_reader) :=
  if negb (val_is UJSON_STR v) then LRet (Return tt, v, ujson_err (str "Expected string!") r) else
  match tag_name t, tag_value t with
  | None, value => s ← strdup v; LRet (Next (mk_tag (Some s) value), v, r)
  | name, None => s ← strdup v; LRet (Next (mk_tag name (Some s)), v, r)
  | _, _ => LRet (Return tt, v, ujson_err (str "Expected only two members!") r)
  end.

Definition tag_entry (cnt : nat) (ret : list tst_tag) (v : ujson_val) (r : ujson_reader) :
    lres (flow unit (list tst_tag) * ujson_val * ujson_reader) :=
  '(f, v, r) ← arr_foreach tag_body (mk_tag None None) v r;
  match f with
  | Return _ => LRet (Return tt, v, r)
  | Next t => ret ← push cnt ret t; LRet (Next ret, v, r)
  end.

Definition parse_tags : ujson_val → ujson_reader → lres (option (list tst_tag) * ujson_val * ujson_reader) :=
  two_pass UJSON_ARR ujson_arr_skip (str "Expected array!") tag_entry.

(** include/tst_sys_conf.h *)
Definition TST_SR_TCONF := 0.
Definition TST_SR_TBROK := 5.
Definition TST_SR_SKIP := 10.

(** The variables of an entry: [sr_val] and [sr_flags] are [None] while
    [val_set] and [flags_set] are 0. *)
Record sr := mk_sr { sr_path : option (list Z); sr_val : option (option (list Z)); sr_flags : option Z }.

Definition sr_body (s : sr) (v : ujson_val) (r : ujson_reader) : lres (flow unit sr * ujson_val * ujson_reader) :=
  let fail msg := LRet (Return tt, v, ujson_err msg r) in
  match s with
  | mk_sr None pval flags =>
      if negb (val_is UJSON_STR v) then fail (str "Expected string!") else
      p ← strdup v; LRet (Next (mk_sr (Some p) pval flags), v, r)
  | mk_sr path None flags =>
      if val_is UJSON_STR v then p ← strdup v; LRet (Next (mk_sr path (Some (Some p)) flags), v, r)
      else if negb (val_is UJSON_NULL v) then fail (str "Expected string or NULL!")
      else LRet (Next (mk_sr path (Some None) flags), v, r)
  | mk_sr path pval None =>
      if negb (val_is UJSON_STR v) then fail (str "Expected string!") else
      p ← strdup v;
      if strcmp p (str "TCONF") =? 0 then LRet (Next (mk_sr path pval (Some TST_SR_TCONF)), v, r)
      else if strcmp p (str "TBROK") =? 0 then LRet (Next (mk_sr path pval (Some TST_SR_TBROK)), v, r)
      else if strcmp p (str "SKIP") =? 0 then LRet (Next (mk_sr path pval (Some TST_SR_SKIP)), v, r)
      else fail (str "Invalid flags!")
  | _ => fail (str "Expected only two members!")
  end.

Definition sr_msg : list Z :=
  str "Expected [" ++ [cDQ] ++ str "/{proc,sys}/path" ++ [cDQ] ++ str ", {" ++ [cDQ] ++ str "TCONF" ++ [cDQ] ++ str ", " ++
  [cDQ] ++ str "TBROK" ++ [cDQ] ++ str ", " ++ [cDQ] ++ str "TSKIP" ++ [cDQ] ++ str "}]!".

Definition sr_entry (cnt : nat) (ret : list tst_path_val) (v : ujson_val) (r : ujson_reader) :
    lres (flow unit (list tst_path_val) * ujson_val * ujson_reader) :=
  '(f, v, r) ← arr_foreach sr_body (mk_sr None None None) v r;
  match f with
  | Next (mk_sr (Some path) pval (Some flags)) =>
      ret ← push cnt ret (mk_pv path (default None pval) flags); LRet (Next ret, v, r)
  | Next _ => LRet (Return tt, v, ujson_err sr_msg r)
  | Return _ => LRet (Return tt, v, r)
  end.

Definition parse_save_restore : ujson_val → ujson_reader → lres (option (list tst_path_val) * ujson_val * ujson_reader) :=
  two_pass UJSON_ARR ujson_arr_skip (str "Expected array!") sr_entry.

(** ** The structure of the test *)

Abbreviation meta_step := (lres (flow unit tst_test * ujson_val * ujson_reader)).

(** [test.x = ...;] *)
Definition set_member (a : test_attr_ids) (m : member) (t : tst_test) (v : ujson_val) (r : ujson_reader) : meta_step :=
  LRet (Next (<[a := m]> t), v, r).

(** A bit field, and an unsigned int in the case of [taint_check]. *)
Definition set_bool (a : test_attr_ids) (bits : Z) (t : tst_test) (v : ujson_val) (r : ujson_reader) : meta_step :=
  set_member a (MInt (wrapu bits (val_bool v))) t v r.

(** An integer that has to be positive; [conv] converts to the type of the
    member. *)
Definition set_pos (a : test_attr_ids) (conv : Z → Z) (msg : list Z) (t : tst_test) (v : ujson_val) (r : ujson_reader) :
    meta_step :=
  if val_int v <=? 0 then LRet (Next t, v, ujson_err msg r) else set_member a (MInt (conv (val_int v))) t v r.

Definition set_str (a : test_attr_ids) (t : tst_test) (v : ujson_val) (r : ujson_reader) : meta_step :=
  s ← strdup v; set_member a (MStr s) t v r.

Definition set_strs (a : test_attr_ids) (t : tst_test) (v : ujson_val) (r : ujson_reader) : meta_step :=
  '(l, v, r) ← parse_strarr v r; set_member a (MStrs l) t v r.

(** The switch. *)
Definition set_attr (a : test_attr_ids) : tst_test → ujson_val → ujson_reader → meta_step :=
  match a with
  | ALL_FILESYSTEMS => set_bool a 1
  | DEV_MIN_SIZE => set_pos a (wrapu 32) (str "Device size must be > 0")
  | FILESYSTEMS => λ t v r, '(l, v, r) ← parse_filesystems v r; set_member a (MFs l) t v r
  | FORMAT_DEVICE => set_bool a 1
  | MIN_CPUS => set_pos a (wrapu 64) (str "Minimal number of cpus must be > 0")
  | MIN_MEM_AVAIL => set_pos a (wrapu 64) (str "Minimal available memory size must be > 0")
  | MIN_KVER => set_str a
  | MIN_RUNTIME => set_pos a (wraps 32) (str "Minimal runtime must be > 0")
  | MIN_SWAP_AVAIL => set_pos a (wrapu 64) (str "Minimal available swap size must be > 0")
  | MNTPOINT => set_str a
  | MOUNT_DEVICE => set_bool a 1
  | NEEDS_ABI_BITS => λ t v r,
      if (val_int v =? 32) || (val_int v =? 64) then set_member a (MInt (wraps 32 (val_int v))) t v r
      else LRet (Next t, v, ujson_err (str "ABI bits must be 32 or 64") r)
  | NEEDS_CMDS => λ t v r, '(l, v, r) ← parse_cmds v r; set_member a (MCmds l) t v r
  | NEEDS_DEVFS => set_bool a 1
  | NEEDS_DEVICE => set_bool a 1
  | NEEDS_DRIVERS => set_strs a
  | NEEDS_HUGETLBFS => set_bool a 1
  | NEEDS_KCONFIGS => set_strs a
  | NEEDS_ROFS => set_bool a 1
  | NEEDS_ROOT => set_bool a 1
  | NEEDS_TMPDIR => set_bool a 1
  | RESTORE_WALLCLOCK => set_bool a 1
  | RUNTIME => set_pos a (wraps 32) (str "Runtime must be > 0")
  | SAVE_RESTORE => λ t v r, '(l, v, r) ← parse_save_restore v r; set_member a (MPaths l) t v r
  | SKIP_FILESYSTEMS => set_strs a
  | SKIP_IN_COMPAT => set_bool a 1
  | SKIP_IN_LOCKDOWN => set_bool a 1
  | SKIP_IN_SECUREBOOT => set_bool a 1
  | SUPPORTED_ARCHS => set_strs a
  | TAGS => λ t v r, '(l, v, r) ← parse_tags v r; set_member a (MTags l) t v r
  | TAINT_CHECK => set_bool a 32
  | TCNT => set_pos a (wrapu 32) (str "Number of tests must be > 0")
  end.

Definition meta_body (t : tst_test) (v : ujson_val) (r : ujson_reader) : meta_step :=
  match idx v ≫= (test_ids !!.) with
  | Some a => set_attr a t v r
  | None => LRet (Next t, v, r)
  end.

Definition STR_BUF : nat := 128.

Definition parse_metadata (metadata : list Z) : lres tst_test :=
  let reader := UJSON_READER_INIT metadata true in
  let v := UJSON_VAL_INIT STR_BUF in
  '(f, v, r) ← obj_foreach_filter test_attrs meta_body (∅ : tst_test) v reader;
  r ← ldef (ujson_reader_finish r);
  if ujson_reader_err r then LBrk (str "Invalid metadata") else
  match f with Next t => LRet t | Return _ => LUB end.

(** ** The blocks of a script *)

Inductive parser_state := PAR_NONE | PAR_ESC | PAR_DOC | PAR_ENV.

(** [metadata], with [metadata_size] bytes allocated. *)
Record metadata := mk_md { md_size : nat; md_text : list Z }.

Definition metadata_append (line : list Z) (md : metadata) : lres metadata :=
  let linelen := length line in
  let used := length (md_text md) in
  let size := if (md_size md - used <? linelen + 1)%nat then (md_size md + 4096)%nat else md_size md in
  if (size - used <? linelen + 1)%nat then LOver else LRet (mk_md size (md_text md ++ line)).

Definition LINE : nat := 4096.

(** [fgets] overwrites the start of [line] with what it read. *)
Definition fgets_over (l line : list Z) : list Z := l ++ [0] ++ drop (length l + 1) line.

Definition unexpected_end (path : list Z) (lineno : Z) : list Z :=
  path ++ str ": " ++ dec lineno ++ str ": Unexpected end of comment block!".

(** One line: the new state and the metadata. *)
Definition extract_line (path : list Z) (lineno : Z) (line : list Z) (st : parser_state) (md : metadata) :
    lres (parser_state * metadata) :=
  let line_is s := strcmp (c_str line) (str s ++ [10]) =? 0 in
  match st with
  | PAR_NONE => LRet (if line_is "# ---"%string then PAR_ESC else PAR_NONE, md)
  | PAR_ESC =>
      if line_is "# env"%string then LRet (PAR_ENV, md)
      else if line_is "# doc"%string then LRet (PAR_DOC, md)
      else LBrk (path ++ str ": " ++ dec lineno ++ str ": Unknown comment block " ++ c_str line)
  | PAR_ENV =>
      if negb (default 0 (head line) =? "#"%cc) then LBrk (unexpected_end path lineno)
      else if line_is "# ---"%string then LRet (PAR_NONE, md)
      else md ← metadata_append (c_str (drop 2 line)) md; LRet (PAR_ENV, md)
  | PAR_DOC =>
      if negb (default 0 (head line) =? "#"%cc) then LBrk (unexpected_end path lineno)
      else LRet (if line_is "# ---"%string then PAR_NONE else PAR_DOC, md)
  end.

Fixpoint extract_loop (fuel : nat) (path file : list Z) (line : list Z) (lineno : Z) (st : parser_state) (md : metadata) :
    lres metadata :=
  match fuel with
  | O => LUB
  | S fuel =>
      match fgets LINE file with
      | None => LRet md
      | Some (l, file) =>
          let line := fgets_over l line in
          '(st, md) ← extract_line path lineno line st md;
          extract_loop fuel path file line (wrapu 32 (lineno + 1)) st md
      end
  end.

(** [file] is the script, [garbage] what [line] holds at the start. *)
Definition extract_metadata (path file garbage : list Z) : lres metadata :=
  extract_loop (S (length file)) path file garbage 1 PAR_NONE (mk_md 0 []).

(** [metadata] is NULL until a line was appended. *)
Definition prepare_test_struct (path file garbage : list Z) : lres tst_test :=
  md ← extract_metadata path file garbage;
  if (md_size md =? 0)%nat then LBrk (str "No metadata found!") else parse_metadata (md_text md).

(** What [main] runs: [tcnt] calls of [run_shell_tcnt] with its parameter, or
    [run_shell]; a run of the script is its parameters. *)
Definition shell_runs (t : tst_test) : list (list (list Z)) :=
  match t !! TCNT with
  | Some (MInt z) => if z =? 0 then [[]] else (λ n, [dec (Z.of_nat n)]) <$> seq 0 (Z.to_nat z)
  | _ => [[]]
  end.
End Junk.
