(* ===== verification/RunShellFacts.v ===== *)
(** * The loader on well-formed metadata

    The loops of the loader over the text of a JSON document, each against a
    fold over the members of the document, up to [parse_metadata], and the
    blocks of a script up to [prepare_test_struct]. *)

From stdpp Require Import gmap.
From S2P Require Import Prelude UjsonUtf UjsonReader UjsonReaderFacts UjsonWriter UjsonWriterFacts UjsonRoundtrip.
From S2P Require Import UjsonReadback UjsonFilter RunShell.
Open Scope Z_scope.

Lemma lbind_LRet {A B} (x : A) (f : A → lres B) : (y ← LRet x; f y) = f x.
Proof. done. Qed.

(** A bind on a value that is there. *)
Ltac lbind := rewrite lbind_LRet; cbn beta iota.

(** ** Folds over the members *)

Fixpoint fold_mems {A} (f : A → list Z → jval → option A) (a : A) (l : jmems) : option A :=
  match l with
  | JNil => Some a
  | JCons key v l => a ← f a key v; fold_mems f a l
  end.

Fixpoint mlen (l : jmems) : nat := match l with JNil => 0 | JCons _ _ l => S (mlen l) end.

Lemma mlen_text slen d k f l s : mwf slen d k l → is_mtext k f l s → (mlen l ≤ length s)%nat.
Proof.
  revert f s. induction l as [|key v l IH]; intros f s Hl Hs; [cbn; lia|].
  destruct Hl as (_ & Hv & Hl). destruct Hs as (w1 & w2 & sv & sl & _ & _ & Hsv & Hsl & ->).
  specialize (IH _ _ Hl Hsl). destruct (text_head slen d v sv Hv Hsv) as (c & x & -> & _).
  cbn [mlen]. rewrite !length_app. simpl. lia.
Qed.

(** ** Loops *)

Section Loops.
Context (J : list Z) (slen : nat → Prop) (bs : nat) (Hslen : ∀ n, slen n → (n < bs)%nat).
#[local] Abbreviation vbuf := (val_buf true bs).
#[local] Abbreviation call := (ujson_reader → ujson_val → option (Z * ujson_val * ujson_reader)).

(** A call that finds the member, with [info] about how. *)
Definition found_with (info : list Z → jval → ujson_val → Prop) (d : nat) (key : list Z) (v : jval) (s t : list Z)
    (r : option (Z * ujson_val * ujson_reader)) : Prop :=
  ∃ res b, r = Some (1, res, b) ∧ presents true s res v b t ∧ ok J d b ∧ vbuf res ∧ info key v res.

(** What a loop macro promises to its body: it presents the members that are
    admissible one after the other, and ends after the last one. *)
Class LoopSpec (k : container) (first next : call) (adm : list Z → jval → Prop)
    (info : list Z → jval → ujson_val → Prop) : Prop := {
  ls_first_nil d w b res t :
    ok J d b → (d < 128)%nat → ws w → trim (rest b) = open_ch k :: w ++ close_ch k :: t → head (trim t) ≠ Some 0 →
    ended J d t res (first b res);
  ls_first_cons d key v s w b res t :
    ok J d b → (d < 128)%nat → vbuf res → key_ok k key → jwf slen (S d) v → is_text v s → follows t → ws w → adm key v →
    trim (rest b) = open_ch k :: w ++ ktext k key ++ s ++ t →
    found_with info (S d) key v s t (first b res);
  ls_next_nil d b res t :
    ok J (S d) b → (d < 128)%nat → trim (rest b) = close_ch k :: t → head (trim t) ≠ Some 0 →
    ended J d t res (next b res);
  ls_next_cons d key v s w b res t :
    ok J d b → vbuf res → key_ok k key → jwf slen d v → is_text v s → follows t → ws w → adm key v →
    trim (rest b) = ","%cc :: w ++ ktext k key ++ s ++ t →
    found_with info d key v s t (next b res);
}.

#[local] Instance arr_spec : LoopSpec InArr ujson_arr_first ujson_arr_next (λ _ _, True) (λ _ _ _, True).
Proof.
  split.
  - intros. by apply (first_nil J d InArr w).
  - intros d key v s w b res t Ho Hd Hr Hk Hv Hs Hf Hw _ E.
    destruct (first_cons J slen true bs (λ _, Hslen) d InArr key v s w b res t) as (res' & b' & E' & Hp & Ho' & Hr' & _); try done.
    by exists res', b'.
  - intros. by apply (next_nil J d InArr).
  - intros d key v s w b res t Ho Hr Hk Hv Hs Hf Hw _ E.
    destruct (next_cons J slen true bs (λ _, Hslen) d InArr key v s w b res t) as (res' & b' & E' & Hp & Ho' & Hr' & _); try done.
    by exists res', b'.
Qed.

#[local] Instance filter_spec obj ign :
  LoopSpec InObj (ujson_obj_first_filter (Some obj) ign) (ujson_obj_next_filter (Some obj) ign)
    (λ key v, ∃ n, known obj key v n) (λ key v res, ∃ n, known obj key v n ∧ idx res = Some n).
Proof.
  split.
  - intros. by apply (first_filter_nil J obj ign d w).
  - intros d key v s w b res t Ho Hd Hr Hk Hv Hs Hf Hw [n Hn] E.
    destruct (first_filter_cons J slen true bs (λ _, Hslen) obj ign d key v n s w b res t)
      as (res' & b' & E' & Hp & Ho' & Hr' & Hi); try done.
    exists res', b'. split_and!; try done. by exists n.
  - intros. by apply (next_filter_nil J obj ign d).
  - intros d key v s w b res t Ho Hr Hk Hv Hs Hf Hw [n Hn] E.
    destruct (next_filter_cons J slen true bs (λ _, Hslen) obj ign d key v n s w b res t)
      as (res' & b' & E' & Hp & Ho' & Hr' & Hi); try done.
    exists res', b'. split_and!; try done. by exists n.
Qed.

(** A function on a value that was found, with the result [x], ends behind
    the text of the value. *)
Definition leaves {X} (d : nat) (t : list Z) (x : X) (r : lres (X * ujson_val * ujson_reader)) : Prop :=
  ∃ res b, r = LRet (x, res, b) ∧ ok J d b ∧ trim (rest b) = trim t ∧ vbuf res.

(** The value [v] is presented. *)
Definition at_val (d : nat) (v : jval) (res : ujson_val) (b : ujson_reader) (t : list Z) : Prop :=
  ∃ s, ok J d b ∧ jwf slen d v ∧ is_text v s ∧ presents true s res v b t ∧ tail_ok t ∧ vbuf res.

Lemma at_val_type d v res b t : at_val d v res b t → type res = jtype v.
Proof. intros (s & _ & _ & _ & Hp & _). by eapply presents_type. Qed.

Section Loop.
Context {R A : Type} (k : container) (first next : call) (adm : list Z → jval → Prop)
  (info : list Z → jval → ujson_val → Prop) `{!LoopSpec k first next adm info}.
Context (body : A → ujson_val → ujson_reader → lres (flow R A * ujson_val * ujson_reader))
  (f : A → list Z → jval → option A).

Definition body_reads : Prop := ∀ d key v res b t a a',
  f a key v = Some a' → at_val d v res b t → info key v res → leaves d t (Next a') (body a res b).

Context (Hbody : body_reads) (Hadm : ∀ a key v a', f a key v = Some a' → adm key v).

Lemma foreach_S fuel a v r :
  ujson_val_valid v = true →
  foreach next body (S fuel) a v r =
  ('(f, v, r) ← body a v r;
   match f with
   | Return x => LRet (Return x, v, r)
   | Next a => '(_, v, r) ← ldef (next r v); foreach next body fuel a v r
   end).
Proof. intros E. cbn [foreach]. by rewrite E. Qed.

Lemma foreach_end fuel a v r : type v = UJSON_VOID → foreach next body fuel a v r = LRet (Next a, v, r).
Proof. intros E. destruct fuel; cbn [foreach]; unfold ujson_val_valid; by rewrite E. Qed.

Lemma foreach_reads l d key v sv s res b t fuel a a' :
  f a key v ≫= (λ a, fold_mems f a l) = Some a' →
  is_text v sv → is_ctext k l t s → presents true sv res v b s → ok J (S d) b → (d < 128)%nat → vbuf res →
  jwf slen (S d) v → mwf slen (S d) k l → info key v res → tail_ok t → (mlen l < fuel)%nat →
  ∃ res' b', foreach next body fuel a res b = LRet (Next a', res', b') ∧ vbuf res' ∧ after J d t b'.
Proof.
  revert key v sv s res b fuel a. induction l as [|key2 v2 l IH];
    intros key v sv s res b fuel a E Hsv Hs Hp Ho Hd Hb Hv Hl Hi Ht Hf;
    (destruct fuel as [|fuel]; [cbn in Hf; lia|]);
    rewrite foreach_S by (by eapply presents_valid);
    apply bind_Some in E as (a1 & E1 & E);
    (destruct (Hbody (S d) key v res b s a a1 E1) as (res1 & b1 & -> & Ho1 & Er1 & Hb1);
      [exists sv; split_and!; try done; by eapply tail_ctext|done|]); lbind.
  - destruct Hs as (m & w & -> & Hw & ->). rewrite app_nil_l, trim_ws in Er1 by done.
    destruct (ls_next_nil (info:=info) d b1 res1 t Ho1 Hd) as (b2 & -> & Ha); [by rewrite Er1; destruct k|apply Ht|].
    cbn [ldef]. lbind. rewrite foreach_end by done. cbn in E. injection E as <-.
    eexists _, b2. split_and!; [done|done|apply Ha..].
  - apply ctext_cons in Hs as (w1 & w2 & sv2 & s' & Hw1 & Hw2 & Hv2 & Hs' & ->). rewrite trim_ws in Er1 by done.
    destruct Hl as (Hk & Hj1 & Hj2). pose proof E as E'. cbn in E'. apply bind_Some in E' as (a2 & E2 & _).
    destruct (ls_next_cons (S d) key2 v2 sv2 w2 b1 res1 s' Ho1 Hb1 Hk Hj1 Hv2) as (res2 & b2 & -> & Hp2 & Ho2 & Hb2 & Hi2);
      [by eapply tail_ctext|done|by eapply Hadm|done|].
    cbn [ldef]. lbind. eapply (IH key2 v2 sv2 s' res2 b2 fuel a1); try done. cbn in Hf. lia.
Qed.

Lemma loop_reads l d s res b t a a' :
  fold_mems f a l = Some a' → ok J d b → is_text (JCont k l) s → trim (rest b) = s ++ t → (d < 128)%nat →
  mwf slen (S d) k l → tail_ok t → vbuf res →
  ∃ res' b', ('(_, v, r) ← ldef (first b res); foreach next body (loop_fuel r) a v r) = LRet (Next a', res', b') ∧
    vbuf res' ∧ after J d t b'.
Proof.
  intros E Ho Hs Er Hd Hl Ht Hb. destruct Hs as (m & w & Hm & Hw & ->). destruct l as [|key v l].
  - cbn in Hm. subst m. cbn in E. injection E as <-.
    destruct (ls_first_nil (info:=info) d w b res t Ho Hd Hw) as (b1 & -> & Ha);
      [by rewrite Er; cbn; rewrite <- app_assoc|apply Ht|].
    cbn [ldef]. lbind. rewrite foreach_end by done. eexists _, b1. split_and!; [done|done|apply Ha..].
  - destruct Hm as (w1 & w2 & sv & sl & _ & Hw2 & Hsv & Hsl & ->). destruct Hl as (Hk & Hj1 & Hj2).
    assert (is_ctext k l t (sl ++ w ++ close_ch k :: t)) as Hc by (by exists sl, w).
    pose proof E as E'. cbn in E'. apply bind_Some in E' as (a1 & E1 & _).
    destruct (ls_first_cons d key v sv w2 b res (sl ++ w ++ close_ch k :: t) Ho Hd Hb Hk Hj1 Hsv)
      as (res1 & b1 & -> & Hp1 & Ho1 & Hb1 & Hi1);
      [by apply (proj1 (tail_ctext _ _ _ _ Ht Hc))|done|by eapply Hadm|by rewrite Er; cbn; rewrite <- !app_assoc|].
    cbn [ldef]. lbind. eapply (foreach_reads l d key v sv _ res1 b1); try done.
    unfold loop_fuel. destruct Ho as (_ & _ & _ & EJ). destruct Ho1 as (_ & _ & _ & EJ1). rewrite EJ1, <- EJ.
    assert (length (trim (rest b)) ≤ length (json b))%nat as Hlen.
    { unfold rest. generalize (off b). intros n. etransitivity; [|apply Nat.le_sub_l with (m := n)].
      rewrite <- length_drop. induction (drop n (json b)) as [|c x IH]; [done|]. cbn. destruct (is_ws c); simpl; lia. }
    rewrite Er in Hlen. pose proof (mlen_text slen (S d) k false l sl Hj2 Hsl). simpl in Hlen. rewrite !length_app in Hlen. lia.
Qed.
End Loop.

(** ** Arrays in two passes *)

(** A function that reads a value as [den] says. *)
Definition val_reads {X} (p : ujson_val → ujson_reader → lres (X * ujson_val * ujson_reader)) (den : jval → option X) : Prop :=
  ∀ d v res b t x, den v = Some x → at_val d v res b t → leaves d t x (p res b).

(** The elements of an array. *)
Fixpoint elems {X} (el : jval → option X) (l : jmems) : option (list X) :=
  match l with
  | JNil => Some []
  | JCons _ v l => x ← el v; xs ← elems el l; Some (x :: xs)
  end.

Definition arr_of {X} (el : jval → option X) (v : jval) : option (list X) :=
  match v with JCont InArr l => elems el l | _ => None end.

(** [push] as a fold. *)
Definition push_el {X} (el : jval → option X) (cnt : nat) (ret : list X) (_ : list Z) (v : jval) : option (list X) :=
  x ← el v; if (length ret <? cnt)%nat then Some (ret ++ [x]) else None.

Lemma fold_push {X} (el : jval → option X) cnt l ret xs :
  elems el l = Some xs → (length ret + length xs ≤ cnt)%nat → fold_mems (push_el el cnt) ret l = Some (ret ++ xs).
Proof.
  revert ret xs. induction l as [|key v l IH]; intros ret xs E Hl; cbn [elems fold_mems] in *.
  { injection E as <-. by rewrite app_nil_r. }
  apply bind_Some in E as (x & Ex & E). apply bind_Some in E as (ys & Ey & [= <-]). simpl in Hl.
  assert (push_el el cnt ret key v = Some (ret ++ [x])) as ->.
  { unfold push_el. rewrite Ex, obind_Some. destruct (Nat.ltb_spec (length ret) cnt); [done|lia]. }
  rewrite obind_Some.
  rewrite (IH (ret ++ [x]) ys Ey) by (rewrite length_app; simpl; lia). by rewrite <- app_assoc.
Qed.

Definition count_el (t : ujson_type) (cnt : nat) (_ : list Z) (v : jval) : option nat :=
  if decide (jtype v = t) then Some (S cnt) else None.

Lemma fold_count {X} (el : jval → option X) t l xs cnt :
  (∀ v x, el v = Some x → jtype v = t) → elems el l = Some xs → fold_mems (count_el t) cnt l = Some (cnt + length xs)%nat.
Proof.
  intros Hty. revert cnt xs. induction l as [|key v l IH]; intros cnt xs E; cbn [elems fold_mems] in *.
  { injection E as <-. by rewrite Nat.add_0_r. }
  apply bind_Some in E as (x & Ex & E). apply bind_Some in E as (ys & Ey & [= <-]).
  assert (count_el t cnt key v = Some (S cnt)) as -> by (unfold count_el; by rewrite decide_True by (by eapply Hty)).
  rewrite obind_Some, (IH _ ys Ey). f_equal. simpl. lia.
Qed.

(** A value that is skipped. *)
Definition skip_reads (t : ujson_type) (skip : ujson_reader → option (Z * ujson_reader)) : Prop :=
  ∀ d v res b t', jtype v = t → at_val d v res b t' →
  ∃ r b', skip b = Some (r, b') ∧ ok J d b' ∧ trim (rest b') = trim t'.

Lemma count_reads t skip msg :
  skip_reads t skip → body_reads (λ _ _ _, True) (count_body t skip msg) (count_el t).
Proof.
  intros Hskip d key v res b t' cnt cnt' E Ha _. unfold count_el in E. case_decide as Hty; [|done]. injection E as <-.
  unfold count_body, val_is. rewrite (at_val_type _ _ _ _ _ Ha), bool_decide_true by done. cbn [negb].
  destruct (Hskip d v res b t' Hty Ha) as (r & b' & -> & Ho & Er). cbn [ldef]. lbind.
  exists res, b'. split_and!; try done. by destruct Ha as (s & _ & _ & _ & _ & _ & Hb).
Qed.

(** An array is entered again after [ujson_reader_state_load]. *)
Lemma state_load_at d d' b b' :
  ok J d b → ok J d' b' → sub_off b = off b →
  ok J d (ujson_reader_state_load b' (ujson_reader_state_save b)) ∧
  rest (ujson_reader_state_load b' (ujson_reader_state_save b)) = rest b.
Proof.
  intros (E1 & E2 & E3 & E4) (F1 & F2 & F3 & F4) Hs. unfold ujson_reader_state_load, ujson_reader_err.
  rewrite F1, bool_decide_true by done. cbn [negb]. split; [by split_and!|]. unfold rest. cbn. by rewrite Hs, F4, E4.
Qed.

Lemma two_pass_reads {X} t skip msg store (el : jval → option X) :
  (∀ v x, el v = Some x → jtype v = t) → skip_reads t skip →
  (∀ cnt, body_reads (λ _ _ _, True) (store cnt) (push_el el cnt)) →
  val_reads (two_pass t skip msg store) (λ v, Some <$> arr_of el v).
Proof.
  intros Hty Hskip Hstore d v res b t' x E (s & Ho & Hv & Hs & Hp & Ht & Hb).
  destruct v as [| | | |[] l]; try done. cbn [arr_of] in E. destruct (elems el l) as [xs|] eqn:Ex; [|done]. injection E as <-.
  destruct Hp as (_ & Er & Hsub). destruct Hv as [Hd Hl].
  assert (trim (rest b) = s ++ t') as Er' by (rewrite Er; by destruct Hs as (m & w & _ & _ & ->)).
  unfold two_pass, arr_foreach.
  destruct (loop_reads InArr ujson_arr_first ujson_arr_next _ _ _ _ (count_reads t skip msg Hskip) (λ _ _ _ _ _, I)
    l d s res b t' 0%nat _ (fold_count el t l xs 0%nat Hty Ex) Ho Hs Er' Hd Hl Ht Hb) as (res1 & b1 & -> & Hb1 & [Ho1 _]).
  lbind. cbn iota.
  destruct (state_load_at d d b b1 Ho Ho1 Hsub) as [Ho2 Er2]. set (b2 := ujson_reader_state_load b1 _) in *.
  destruct (loop_reads InArr ujson_arr_first ujson_arr_next _ _ _ _ (Hstore (0 + length xs)%nat) (λ _ _ _ _ _, I)
    l d s res1 b2 t' [] _ (fold_push el (0 + length xs)%nat l [] xs Ex (Nat.le_refl _)) Ho2 Hs ltac:(by rewrite Er2) Hd Hl Ht Hb1)
    as (res3 & b3 & E3 & Hb3 & [Ho3 Er3]).
  exists res3, b3. split_and!; [|done|by rewrite Er3, trim_trim|done].
  rewrite E3. lbind. done.
Qed.

(** The loop over an array with a body that reads [f]. *)
Lemma arr_loop_reads {R A} (body : A → ujson_val → ujson_reader → lres (flow R A * ujson_val * ujson_reader)) f l d res b t a a' :
  body_reads (λ _ _ _, True) body f → fold_mems f a l = Some a' → at_val d (JCont InArr l) res b t →
  leaves d t (Next a') (arr_foreach body a res b).
Proof.
  intros Hbody E (s & Ho & [Hd Hl] & Hs & (_ & Er & _) & Ht & Hb).
  assert (trim (rest b) = s ++ t) as Er' by (rewrite Er; by destruct Hs as (m & w & _ & _ & ->)).
  destruct (loop_reads InArr ujson_arr_first ujson_arr_next _ _ _ _ Hbody (λ _ _ _ _ _, I)
    l d s res b t a _ E Ho Hs Er' Hd Hl Ht Hb) as (res1 & b1 & E1 & Hb1 & [Ho1 Er1]).
  exists res1, b1. split_and!; [exact E1|done|by rewrite Er1, trim_trim|done].
Qed.

(** ** Strings *)

Definition str_el (v : jval) : option (list Z) := match v with JStr s => Some s | _ => None end.

Lemma strdup_at d s res b t : at_val d (JStr s) res b t → strdup res = LRet s ∧ val_is UJSON_STR res = true ∧ rest b = t ∧ cstring s.
Proof.
  intros (x & _ & [[Hu _] _] & _ & (Hty & Hval & Hr) & _). unfold strdup, val_is. rewrite Hval, Hty.
  split_and!; [done|done|done|by apply utf8_cstring].
Qed.

(** A value that was read completely when it was found. *)
Lemma leaves_here {X} d v res b t (x : X) : at_val d v res b t → rest b = t → leaves d t x (LRet (x, res, b)).
Proof. intros (s & Ho & _ & _ & _ & _ & Hb) Hr. exists res, b. split_and!; try done. by rewrite Hr. Qed.

Lemma str_skip_reads : skip_reads UJSON_STR no_skip.
Proof.
  intros d v res b t Hty Ha. destruct v as [| | |s|[] l]; try done.
  destruct (strdup_at _ _ _ _ _ Ha) as (_ & _ & Hr & _). destruct Ha as (s' & Ho & _).
  eexists _, b. split_and!; [done|done|by rewrite Hr].
Qed.

Lemma cont_skip_reads k : skip_reads (match k with InObj => UJSON_OBJ | InArr => UJSON_ARR end) (ujson_skip k).
Proof.
  intros d v res b t Hty (s & Ho & Hv & Hs & Hp & Ht & Hb).
  assert (∃ l, v = JCont k l) as [l ->] by (destruct v as [| | | |[] l], k; try done; by eexists).
  destruct Hv as [Hd Hl]. destruct Hp as (_ & Hr & _).
  destruct (skip_text J slen k l d s b t Ho Hs Hr Hd Hl Ht) as (b' & E & Ho' & Hr').
  exists 0, b'. split_and!; [done|done|by rewrite Hr', trim_trim].
Qed.

Lemma strarr_reads : val_reads parse_strarr (λ v, Some <$> arr_of str_el v).
Proof.
  apply two_pass_reads.
  - intros v x E. by destruct v.
  - apply str_skip_reads.
  - intros cnt d key v res b t ret ret' E Ha _. unfold push_el in E. destruct v as [| | |s|]; try done. cbn [str_el] in E. rewrite obind_Some in E.
    destruct (strdup_at _ _ _ _ _ Ha) as (Es & _ & Hr & _). unfold strarr_body. rewrite Es. lbind.
    unfold push. destruct (length ret <? cnt)%nat; [|done]. injection E as <-. lbind. by eapply leaves_here.
Qed.

(** [!strcmp(s, x)] on C strings. *)
Lemma strcmp_is s x : cstring s → cstring x → (strcmp s x =? 0) = bool_decide (s = x).
Proof.
  intros Hs Hx. destruct (bool_decide_reflect (s = x)) as [E|E]; [by apply Z.eqb_eq, strcmp_eq|].
  apply Z.eqb_neq. by rewrite strcmp_eq.
Qed.

Definition mnt_flag (s : list Z) : option Z :=
  if bool_decide (s = str "RDONLY") then Some MS_RDONLY
  else if bool_decide (s = str "NOATIME") then Some MS_NOATIME
  else if bool_decide (s = str "NOEXEC") then Some MS_NOEXEC
  else if bool_decide (s = str "NOSUID") then Some MS_NOSUID
  else None.

Definition mnt_or (ret : Z) (_ : list Z) (v : jval) : option Z := s ← str_el v; fl ← mnt_flag s; Some (Z.lor ret fl).

Definition mnt_of (v : jval) : option Z := match v with JCont InArr l => fold_mems mnt_or 0 l | _ => None end.

Lemma mnt_body_reads : body_reads (λ _ _ _, True) mnt_flags_body mnt_or.
Proof.
  intros d key v res b t ret ret' E Ha _. unfold mnt_or in E. destruct v as [| | |s|]; try done. cbn in E.
  destruct (strdup_at _ _ _ _ _ Ha) as (Es & Ety & Hr & Hc). unfold mnt_flags_body. rewrite Ety, Es. cbn [negb]. lbind.
  rewrite !strcmp_is by (done || by_dec).
  unfold mnt_flag in E. repeat case_match; cbn in E; simplify_eq; by eapply leaves_here.
Qed.

Lemma mnt_flags_reads : val_reads parse_mnt_flags mnt_of.
Proof.
  intros d v res b t x E Ha. destruct v as [| | | |[] l]; try done. unfold parse_mnt_flags.
  destruct (arr_loop_reads mnt_flags_body mnt_or l d res b t 0 x mnt_body_reads E Ha) as (res1 & b1 & -> & H).
  lbind. by exists res1, b1.
Qed.

(** ** Objects with attributes *)

(** The attribute with a key, looked for in the order of the table. *)
Definition key_nr (obj : ujson_obj) (key : list Z) : option nat := fst <$> list_find (λ a, attr_key a = key) obj.

(** The binary search finds the attribute [n]. *)
Definition searchable (obj : ujson_obj) (n : nat) : Prop :=
  ∀ attr, obj !! n = Some attr → ujson_obj_lookup obj (attr_key attr) = Some (Some n).

Lemma key_nr_known obj key v n :
  key_nr obj key = Some n → searchable obj n →
  (∀ attr, obj !! n = Some attr → type_matches (attr_type attr) (jtype v) = true) → known obj key v n.
Proof.
  unfold key_nr. intros E Hn Hty. apply fmap_Some in E as ([n' attr] & E & ->). apply list_find_Some in E as (El & Ek & _).
  exists attr. cbn. split_and!; [|done|by apply Hty]. rewrite <- Ek. by apply Hn.
Qed.

(** An object whose members are set by [set]; [attr] gives the attributes. *)
Section Attrs.
Context {I X : Type} (obj : ujson_obj) (ids : list I) (set : I → jval → X → option X)
  (body : X → ujson_val → ujson_reader → lres (flow unit X * ujson_val * ujson_reader)).

Definition set_key (x : X) (key : list Z) (v : jval) : option X :=
  n ← key_nr obj key; i ← ids !! n; set i v x.

Context (Hset : ∀ n i v x x', ids !! n = Some i → set i v x = Some x' →
  searchable obj n ∧ ∀ attr, obj !! n = Some attr → type_matches (attr_type attr) (jtype v) = true).
Context (Hbody : ∀ d v res b t n i x x', ids !! n = Some i → set i v x = Some x' → at_val d v res b t → idx res = Some n →
  leaves d t (Next x') (body x res b)).

Lemma set_key_known x key v x' : set_key x key v = Some x' → ∃ n, known obj key v n.
Proof.
  intros E. apply bind_Some in E as (n & En & E). apply bind_Some in E as (i & Ei & E). exists n.
  destruct (Hset n i v x x' Ei E) as [H1 H2]. by apply key_nr_known.
Qed.

Lemma attr_body_reads : body_reads (λ key v res, ∃ n, known obj key v n ∧ idx res = Some n) body set_key.
Proof.
  intros d key v res b t x x' E Ha (n & (attr & Hl & _) & Hi).
  apply bind_Some in E as (m & En & E). apply bind_Some in E as (i & Ei & E).
  destruct (Hset m i v x x' Ei E) as [H1 H2]. destruct (key_nr_known obj key v m En H1 H2) as (attr' & Hl' & _).
  rewrite Hl in Hl'. injection Hl' as ->. by eapply Hbody.
Qed.

Lemma obj_loop_reads l d s res b t x x' :
  fold_mems set_key x l = Some x' → ok J d b → is_text (JCont InObj l) s → trim (rest b) = s ++ t → (d < 128)%nat →
  mwf slen (S d) InObj l → tail_ok t → vbuf res →
  ∃ res' b', obj_foreach_filter obj body x res b = LRet (Next x', res', b') ∧ vbuf res' ∧ after J d t b'.
Proof.
  apply (loop_reads InObj (ujson_obj_first_filter (Some obj) (Some empty_obj)) _ _ _ _ _ attr_body_reads).
  intros y key v y'. apply set_key_known.
Qed.

(** Such an object as an entry of an array. *)
Definition obj_el (zero : X) (v : jval) : option X := match v with JCont InObj l => fold_mems set_key zero l | _ => None end.

Lemma obj_entry_reads zero cnt : body_reads (λ _ _ _, True) (obj_entry obj body zero cnt) (push_el (obj_el zero) cnt).
Proof.
  intros d key v res b t ret ret' E (s & Ho & Hv & Hs & Hp & Ht & Hb) _. unfold push_el in E.
  apply bind_Some in E as (x & Ex & E). destruct v as [| | | |[] l]; try done.
  destruct Hp as (_ & Er & _). destruct Hv as [Hd Hl].
  assert (trim (rest b) = s ++ t) as Er' by (rewrite Er; by destruct Hs as (m & w & _ & _ & ->)).
  destruct (obj_loop_reads l d s res b t zero x Ex Ho Hs Er' Hd Hl Ht Hb) as (res1 & b1 & E1 & Hb1 & [Ho1 Er1]).
  unfold obj_entry. rewrite E1. lbind. unfold push. destruct (length ret <? cnt)%nat; [|done]. injection E as <-. lbind.
  exists res1, b1. split_and!; [done|done|by rewrite Er1, trim_trim|done].
Qed.

Lemma objs_reads zero msg :
  val_reads (two_pass UJSON_OBJ ujson_obj_skip msg (obj_entry obj body zero)) (λ v, Some <$> arr_of (obj_el zero) v).
Proof.
  apply two_pass_reads.
  - intros v x E. by destruct v as [| | | |[] l].
  - apply (cont_skip_reads InObj).
  - intros cnt. apply obj_entry_reads.
Qed.
End Attrs.

(** Every attribute of these tables is found. *)
Lemma fs_searchable n : searchable fs_attrs n.
Proof. do 6 (destruct n as [|n]; [intros ? [= <-]; by vm_compute|]). by intros. Qed.

Lemma cmd_searchable n : searchable cmd_attrs n.
Proof. do 2 (destruct n as [|n]; [intros ? [= <-]; by vm_compute|]). by intros. Qed.

Definition fs_set (i : fs_ids) (v : jval) (fs : tst_fs) : option tst_fs :=
  let '(mk_fs ty opts size_opt ver flags kver) := fs in
  match i, v with
  | MKFS_OPTS, JCont InArr _ => l ← arr_of str_el v; Some (mk_fs ty (Some l) size_opt ver flags kver)
  | MKFS_SIZE_OPT, JStr s => Some (mk_fs ty opts (Some s) ver flags kver)
  | MKFS_VER, JStr s => Some (mk_fs ty opts size_opt (Some s) flags kver)
  | MNT_FLAGS, JCont InArr _ => fl ← mnt_of v; Some (mk_fs ty opts size_opt ver fl kver)
  | TYPE, JStr s => Some (mk_fs (Some s) opts size_opt ver flags kver)
  | FS_MIN_KVER, JStr s => Some (mk_fs ty opts size_opt ver flags (Some s))
  | _, _ => None
  end.

Definition fs_el : jval → option tst_fs := obj_el fs_attrs fs_attr_ids fs_set fs_zero.

Lemma fs_set_ok n i v fs fs' :
  fs_attr_ids !! n = Some i → fs_set i v fs = Some fs' →
  searchable fs_attrs n ∧ ∀ attr, fs_attrs !! n = Some attr → type_matches (attr_type attr) (jtype v) = true.
Proof.
  intros Hn E. split; [apply fs_searchable|]. destruct fs as [ty opts so ver fl kver].
  do 6 (destruct n as [|n]; [injection Hn as <-; destruct v as [| | | |[] l]; try done; by intros attr [= <-]|]). done.
Qed.

Lemma fs_body_reads d v res b t n i fs fs' :
  fs_attr_ids !! n = Some i → fs_set i v fs = Some fs' → at_val d v res b t → idx res = Some n →
  leaves d t (Next fs') (fs_body fs res b).
Proof.
  intros Hn E Ha Hi. destruct fs as [ty opts so ver fl kver]. unfold fs_body. rewrite Hi, obind_Some, Hn.
  assert (∀ s (g : list Z → tst_fs), v = JStr s → fs' = g s →
    leaves d t (Next fs') (s ← strdup res; LRet (Next (g s), res, b) : lres (flow unit tst_fs * ujson_val * ujson_reader))) as Hstr.
  { intros s g -> ->. destruct (strdup_at _ _ _ _ _ Ha) as (-> & _ & Hr & _). lbind. by eapply leaves_here. }
  destruct i, v as [| | |s|[] l]; try done; cbn [fs_set] in E;
    try (injection E as <-; by apply (Hstr s)); apply bind_Some in E as (x & Ex & [= <-]).
  - destruct (strarr_reads d (JCont InArr l) res b t (Some x)) as (res1 & b1 & -> & H1 & H2 & H3); [by rewrite Ex|done|].
    lbind. by exists res1, b1.
  - destruct (mnt_flags_reads d (JCont InArr l) res b t x) as (res1 & b1 & -> & H1 & H2 & H3); [done|done|].
    lbind. by exists res1, b1.
Qed.

Lemma filesystems_reads : val_reads parse_filesystems (λ v, Some <$> arr_of fs_el v).
Proof. apply objs_reads; [apply fs_set_ok|apply fs_body_reads]. Qed.

(** ** Commands, tags and files to restore *)

Section Meta.
Context (junk : uval → Z).

Definition cmd_set (i : cmd_ids) (v : jval) (c : tst_cmd) : option tst_cmd :=
  match i, v with
  | CMD, JStr s => Some (mk_cmd (Some s) (optional c))
  | OPTIONAL, JInt z => if (0 <=? z) && (z <=? 1) then Some (mk_cmd (cmd c) (Some z)) else None
  | _, _ => None
  end.

Definition cmd_el : jval → option tst_cmd := obj_el cmd_attrs cmd_attr_ids cmd_set cmd_malloc.

Lemma cmd_set_ok n i v c c' :
  cmd_attr_ids !! n = Some i → cmd_set i v c = Some c' →
  searchable cmd_attrs n ∧ ∀ attr, cmd_attrs !! n = Some attr → type_matches (attr_type attr) (jtype v) = true.
Proof.
  intros Hn E. split; [apply cmd_searchable|].
  do 2 (destruct n as [|n]; [injection Hn as <-; destruct v as [| | | |[] l]; try done; by intros attr [= <-]|]). done.
Qed.

Lemma int_at d z res b t : at_val d (JInt z) res b t → val_int junk res = z ∧ rest b = t ∧ - 2 ^ 63 < z < 2 ^ 63.
Proof. intros (x & _ & Hz & _ & (_ & Hval & Hr) & _). unfold val_int. by rewrite Hval. Qed.

Lemma bool_at d x res b t : at_val d (JBool x) res b t → val_bool junk res = c_bool x ∧ rest b = t.
Proof. intros (s & _ & _ & _ & (_ & Hval & Hr) & _). unfold val_bool. by rewrite Hval. Qed.

Lemma cmd_body_reads d v res b t n i c c' :
  cmd_attr_ids !! n = Some i → cmd_set i v c = Some c' → at_val d v res b t → idx res = Some n →
  leaves d t (Next c') (cmd_body junk c res b).
Proof.
  intros Hn E Ha Hi. unfold cmd_body. rewrite Hi, obind_Some, Hn.
  destruct i, v as [| |z|s|[] l]; try done; cbn [cmd_set] in E.
  - destruct (strdup_at _ _ _ _ _ Ha) as (-> & _ & Hr & _). lbind. injection E as <-. by eapply leaves_here.
  - destruct (int_at _ _ _ _ _ Ha) as (-> & Hr & _). destruct ((0 <=? z) && (z <=? 1)) eqn:Ez; [|done]. injection E as <-.
    apply andb_true_iff in Ez as [E0%Z.leb_le E1%Z.leb_le]. rewrite wrapu_small by (change (2 ^ 1) with 2; lia).
    by eapply leaves_here.
Qed.

Lemma cmds_reads : val_reads (parse_cmds junk) (λ v, Some <$> arr_of cmd_el v).
Proof. apply objs_reads; [apply cmd_set_ok|apply cmd_body_reads]. Qed.

(** Entries that give both attributes; a member that is not given is left as
    malloc left it. *)
Definition cmd_full (c : tst_cmd) : bool := bool_decide (is_Some (cmd c)) && bool_decide (is_Some (optional c)).

Definition cmds_of (v : jval) : option (list tst_cmd) :=
  l ← arr_of cmd_el v; if forallb cmd_full l then Some l else None.

Lemma cmds_of_reads : val_reads (parse_cmds junk) (λ v, Some <$> cmds_of v).
Proof.
  intros d v res b t x E. apply (cmds_reads d v res b t x). revert E. unfold cmds_of.
  destruct (arr_of cmd_el v) as [l|]; [|done]. rewrite obind_Some. by destruct (forallb cmd_full l).
Qed.

(** [[name]] or [[name, value]]. *)
Definition tag_el (v : jval) : option tst_tag :=
  match v with
  | JCont InArr (JCons _ (JStr n) JNil) => Some (mk_tag (Some n) None)
  | JCont InArr (JCons _ (JStr n) (JCons _ (JStr x) JNil)) => Some (mk_tag (Some n) (Some x))
  | _ => None
  end.

Definition tag_step (t : tst_tag) (_ : list Z) (v : jval) : option tst_tag :=
  match t, v with
  | mk_tag None value, JStr s => Some (mk_tag (Some s) value)
  | mk_tag name None, JStr s => Some (mk_tag name (Some s))
  | _, _ => None
  end.

Lemma tag_body_reads : body_reads (λ _ _ _, True) tag_body tag_step.
Proof.
  intros d key v res b t x x' E Ha _. destruct x as [[n|] [y|]], v as [| | |s|]; try done; injection E as <-;
    destruct (strdup_at _ _ _ _ _ Ha) as (Es & Ety & Hr & _); unfold tag_body; rewrite Ety; cbn [negb tag_name tag_value];
    rewrite Es; lbind; by eapply leaves_here.
Qed.

(** An array as an entry of an array. *)
Lemma arr_entry_reads {X A} (el : jval → option X) (body : A → ujson_val → ujson_reader → lres (flow unit A * ujson_val * ujson_reader))
    f a0 (fin : A → option X) entry cnt :
  body_reads (λ _ _ _, True) body f →
  (∀ v x, el v = Some x → ∃ l a, v = JCont InArr l ∧ fold_mems f a0 l = Some a ∧ fin a = Some x) →
  (∀ ret res b a x res1 b1, arr_foreach body a0 res b = LRet (Next a, res1, b1) → fin a = Some x →
    entry cnt ret res b = (ret ← push cnt ret x; LRet (Next ret, res1, b1))) →
  body_reads (λ _ _ _, True) (entry cnt : list X → ujson_val → ujson_reader → lres (flow unit (list X) * ujson_val * ujson_reader)) (push_el el cnt).
Proof.
  intros Hbody Hel Hentry d key v res b t ret ret' E Ha _. unfold push_el in E. apply bind_Some in E as (x & Ex & E).
  destruct (Hel v x Ex) as (l & a & -> & Ef & Efin).
  destruct (arr_loop_reads body f l d res b t a0 a Hbody Ef Ha) as (res1 & b1 & E1 & Ho1 & Er1 & Hb1).
  rewrite (Hentry ret res b a x res1 b1 E1 Efin). unfold push.
  destruct (length ret <? cnt)%nat; [|done]. injection E as <-. lbind. by exists res1, b1.
Qed.

Lemma tags_reads : val_reads parse_tags (λ v, Some <$> arr_of tag_el v).
Proof.
  apply two_pass_reads.
  - intros v x E. by destruct v as [| | | |[] l].
  - apply (cont_skip_reads InArr).
  - intros cnt. apply (arr_entry_reads tag_el tag_body tag_step (mk_tag None None) Some); [apply tag_body_reads|..].
    + intros v x E. destruct v as [| | | |[] [|k1 [| | |n|] [|k2 [| | |y|] [|]]]]; try done; injection E as <-; by do 2 eexists.
    + intros ret res b a x res1 b1 E [= ->]. unfold tag_entry. rewrite E. by lbind.
Qed.

Definition sr_flag (s : list Z) : option Z :=
  if bool_decide (s = str "TCONF") then Some TST_SR_TCONF
  else if bool_decide (s = str "TBROK") then Some TST_SR_TBROK
  else if bool_decide (s = str "SKIP") then Some TST_SR_SKIP
  else None.

(** [[path, value, flags]], where the value is a string or null. *)
Definition path_el (v : jval) : option tst_path_val :=
  match v with
  | JCont InArr (JCons _ (JStr p) (JCons _ JNull (JCons _ (JStr f) JNil))) =>
      fl ← sr_flag f; Some (mk_pv p None fl)
  | JCont InArr (JCons _ (JStr p) (JCons _ (JStr x) (JCons _ (JStr f) JNil))) =>
      fl ← sr_flag f; Some (mk_pv p (Some x) fl)
  | _ => None
  end.

Definition sr_step (s : sr) (_ : list Z) (v : jval) : option sr :=
  match s, v with
  | mk_sr None pval flags, JStr p => Some (mk_sr (Some p) pval flags)
  | mk_sr (Some p) None flags, JStr x => Some (mk_sr (Some p) (Some (Some x)) flags)
  | mk_sr (Some p) None flags, JNull => Some (mk_sr (Some p) (Some None) flags)
  | mk_sr (Some p) (Some x) None, JStr f => fl ← sr_flag f; Some (mk_sr (Some p) (Some x) (Some fl))
  | _, _ => None
  end.

Definition sr_fin (s : sr) : option tst_path_val :=
  match s with mk_sr (Some p) pval (Some fl) => Some (mk_pv p (default None pval) fl) | _ => None end.

Lemma sr_body_reads : body_reads (λ _ _ _, True) sr_body sr_step.
Proof.
  intros d key v res b t x x' E Ha _. destruct x as [p pval fl].
  destruct v as [| | |s|]; [|by destruct p, pval, fl..| |by destruct p, pval, fl].
  - destruct p as [p|]; [|by destruct pval, fl]. destruct pval as [y|]; [by destruct fl|]. injection E as <-. cbn [sr_body].
    pose proof (at_val_type _ _ _ _ _ Ha) as Ety. unfold val_is. rewrite Ety. cbn. eapply leaves_here; [done|].
    by destruct Ha as (? & _ & _ & _ & (_ & Hr) & _).
  - destruct (strdup_at _ _ _ _ _ Ha) as (Es & Ety & Hr & Hc).
    destruct p as [p|]; [destruct pval as [y|]; [destruct fl as [f|]; [done|]|]|]; cbn [sr_body sr_step] in *;
      rewrite Ety, Es; cbn [negb]; lbind; [|injection E as <-; by eapply leaves_here..].
    rewrite !strcmp_is by (done || by_dec).
    unfold sr_flag in E. repeat case_match; cbn in E; simplify_eq; by eapply leaves_here.
Qed.

Lemma save_restore_reads : val_reads parse_save_restore (λ v, Some <$> arr_of path_el v).
Proof.
  apply two_pass_reads.
  - intros v x E. by destruct v as [| | | |[] l].
  - apply (cont_skip_reads InArr).
  - intros cnt. apply (arr_entry_reads path_el sr_body sr_step (mk_sr None None None) sr_fin); [apply sr_body_reads|..].
    + intros v x E. destruct v as [| | | |[] [|k1 [| | |n|] [|k2 [| | |y|] [|k3 [| | |f|] [|]]]]]; try done;
        apply bind_Some in E as (fl & Ef & [= <-]); do 2 eexists; (split_and!; [done|cbn; by rewrite Ef|done]).
    + intros ret res b a x res1 b1 E Ef. unfold sr_entry. rewrite E. lbind.
      destruct a as [[p|] pval [fl|]]; try done. by injection Ef as <-.
Qed.

(** ** The structure of the test *)

(** The kinds of attributes; integers have a largest value. *)
Inductive kind :=
  | KFlag
  | KPos (max : Z)
  | KAbi
  | KStr
  | KStrs
  | KFs
  | KCmds
  | KTags
  | KPaths.

Definition kind_of (a : test_attr_ids) : kind :=
  match a with
  | ALL_FILESYSTEMS | FORMAT_DEVICE | MOUNT_DEVICE | NEEDS_DEVFS | NEEDS_DEVICE | NEEDS_HUGETLBFS | NEEDS_ROFS
  | NEEDS_ROOT | NEEDS_TMPDIR | RESTORE_WALLCLOCK | SKIP_IN_COMPAT | SKIP_IN_LOCKDOWN | SKIP_IN_SECUREBOOT
  | TAINT_CHECK => KFlag
  | DEV_MIN_SIZE | TCNT => KPos (2 ^ 32 - 1)
  | MIN_CPUS | MIN_MEM_AVAIL | MIN_SWAP_AVAIL => KPos (2 ^ 63 - 1)
  | MIN_RUNTIME | RUNTIME => KPos (2 ^ 31 - 1)
  | NEEDS_ABI_BITS => KAbi
  | MIN_KVER | MNTPOINT => KStr
  | NEEDS_DRIVERS | NEEDS_KCONFIGS | SKIP_FILESYSTEMS | SUPPORTED_ARCHS => KStrs
  | FILESYSTEMS => KFs
  | NEEDS_CMDS => KCmds
  | TAGS => KTags
  | SAVE_RESTORE => KPaths
  end.

(** What the member is set to. *)
Definition member_of (k : kind) (v : jval) : option member :=
  match k, v with
  | KFlag, JBool x => Some (MInt (c_bool x))
  | KPos max, JInt z => if (0 <? z) && (z <=? max) then Some (MInt z) else None
  | KAbi, JInt z => if (z =? 32) || (z =? 64) then Some (MInt z) else None
  | KStr, JStr s => Some (MStr s)
  | KStrs, JCont InArr _ => MStrs ∘ Some <$> arr_of str_el v
  | KFs, JCont InArr _ => MFs ∘ Some <$> arr_of fs_el v
  | KCmds, JCont InArr _ => MCmds ∘ Some <$> cmds_of v
  | KTags, JCont InArr _ => MTags ∘ Some <$> arr_of tag_el v
  | KPaths, JCont InArr _ => MPaths ∘ Some <$> arr_of path_el v
  | _, _ => None
  end.

(** [min_kver] is out of order in the table, where the search misses it. *)
Definition meta_set (a : test_attr_ids) (v : jval) (t : tst_test) : option tst_test :=
  if decide (a = MIN_KVER) then None else m ← member_of (kind_of a) v; Some (<[a := m]> t).

Lemma test_searchable n : n ≠ 6%nat → searchable test_attrs n.
Proof.
  intros Hn. do 6 (destruct n as [|n]; [intros ? [= <-]; by vm_compute|]). destruct n as [|n]; [done|].
  do 25 (destruct n as [|n]; [intros ? [= <-]; by vm_compute|]). by intros.
Qed.

Lemma meta_set_ok n a v t t' :
  test_ids !! n = Some a → meta_set a v t = Some t' →
  searchable test_attrs n ∧ ∀ attr, test_attrs !! n = Some attr → type_matches (attr_type attr) (jtype v) = true.
Proof.
  intros Hn E. unfold meta_set in E. case_decide as Ha; [done|]. apply bind_Some in E as (m & Em & _). split.
  { apply test_searchable. intros ->. by injection Hn as <-. }
  do 32 (destruct n as [|n];
    [injection Hn as <-; destruct v as [| | | |[] l]; try done; cbn [kind_of member_of] in Em; by intros attr [= <-]|]). done.
Qed.

Lemma set_bool_reads a bits x d res b t m :
  0 < bits → at_val d (JBool x) res b t → leaves d t (Next (<[a := MInt (c_bool x)]> m)) (set_bool junk a bits m res b).
Proof.
  intros Hb Ha. destruct (bool_at _ _ _ _ _ Ha) as [Ev Hr]. unfold set_bool, set_member. rewrite Ev, wrapu_small; [by eapply leaves_here|].
  assert (2 ^ 1 ≤ 2 ^ bits) by (apply Z.pow_le_mono_r; lia). destruct x; cbn; lia.
Qed.

Lemma set_pos_reads a conv msg max z d res b t m :
  (∀ y, 0 < y ≤ max → conv y = y) → (0 <? z) && (z <=? max) = true → at_val d (JInt z) res b t →
  leaves d t (Next (<[a := MInt z]> m)) (set_pos junk a conv msg m res b).
Proof.
  intros Hc Hz Ha. apply andb_true_iff in Hz as [H0%Z.ltb_lt H1%Z.leb_le]. destruct (int_at _ _ _ _ _ Ha) as (Ev & Hr & _).
  unfold set_pos, set_member. rewrite Ev. destruct (Z.leb_spec z 0); [lia|]. rewrite Hc by lia. by eapply leaves_here.
Qed.

Lemma set_str_reads a s d res b t m :
  at_val d (JStr s) res b t → leaves d t (Next (<[a := MStr s]> m)) (set_str a m res b).
Proof.
  intros Ha. destruct (strdup_at _ _ _ _ _ Ha) as (Es & _ & Hr & _). unfold set_str, set_member. rewrite Es. lbind.
  by eapply leaves_here.
Qed.

(** A member that a function on the value gives. *)
Lemma set_parse_reads {X} (p : ujson_val → ujson_reader → lres (option X * ujson_val * ujson_reader)) el
    (con : option X → member) a v x d res b t m :
  val_reads p (λ v, Some <$> el v) → con ∘ Some <$> el v = Some x → at_val d v res b t →
  leaves d t (Next (<[a := x]> m)) ('(l, v, r) ← p res b; set_member a (con l) m v r).
Proof.
  intros Hp E Ha. apply fmap_Some in E as (y & Ey & ->).
  destruct (Hp d v res b t (Some y)) as (res1 & b1 & -> & H); [by rewrite Ey|done|]. lbind. by exists res1, b1.
Qed.

Lemma wrapu_pos n max : 0 ≤ n → max < 2 ^ n → ∀ y, 0 < y ≤ max → wrapu n y = y.
Proof. intros Hn Hm y Hy. apply wrapu_small. lia. Qed.

Lemma wraps_pos max : max < 2 ^ 31 → ∀ y, 0 < y ≤ max → wraps 32 y = y.
Proof. intros Hm y Hy. apply wraps_small; [lia|]. change (32 - 1) with 31. lia. Qed.

Lemma set_abi_reads a z d res b t m :
  (z =? 32) || (z =? 64) = true → at_val d (JInt z) res b t →
  leaves d t (Next (<[a := MInt z]> m))
    (if (val_int junk res =? 32) || (val_int junk res =? 64) then set_member a (MInt (wraps 32 (val_int junk res))) m res b
     else LRet (Next m, res, ujson_err (str "ABI bits must be 32 or 64") b)).
Proof.
  intros Hz Ha. destruct (int_at _ _ _ _ _ Ha) as (Ev & Hr & _). rewrite Ev, Hz. unfold set_member.
  rewrite (wraps_pos 64) by (try done; apply orb_true_iff in Hz as [H%Z.eqb_eq|H%Z.eqb_eq]; lia). by eapply leaves_here.
Qed.

Lemma meta_body_reads d v res b t n a m m' :
  test_ids !! n = Some a → meta_set a v m = Some m' → at_val d v res b t → idx res = Some n →
  leaves d t (Next m') (meta_body junk m res b).
Proof.
  intros Hn E Ha Hi. unfold meta_body. rewrite Hi, obind_Some, Hn. unfold meta_set in E. case_decide; [done|].
  apply bind_Some in E as (x & Ex & [= <-]).
  pose proof strarr_reads as H1. pose proof filesystems_reads as H2. pose proof cmds_of_reads as H3.
  pose proof tags_reads as H4. pose proof save_restore_reads as H5.
  destruct a; cbn [kind_of member_of set_attr] in *; try done;
    (destruct v as [|y|z|s|[] l]; try done; cbn [member_of] in Ex);
    try (injection Ex as <-; apply set_bool_reads; [lia|done]);
    try (injection Ex as <-; by apply set_str_reads);
    try (by eapply set_parse_reads; [eassumption|exact Ex|]);
    match type of Ex with (if ?c then _ else _) = _ => destruct c eqn:Ez; [injection Ex as <-|done] end;
    try (by apply set_abi_reads);
    (eapply set_pos_reads; [|exact Ez|done]; by apply wrapu_pos || by apply wraps_pos).
Qed.

(** The whole object. *)
Definition meta_of (l : jmems) : option tst_test := fold_mems (set_key test_attrs test_ids meta_set) ∅ l.
End Meta.
End Loops.

Lemma parse_metadata_reads junk l s w t :
  is_text (JCont InObj l) s → ws w → mwf (λ n, n < STR_BUF)%nat 1 InObj l → meta_of l = Some t →
  parse_metadata junk (s ++ w) = LRet t.
Proof.
  intros Hs Hw Hl E. unfold parse_metadata. set (b := UJSON_READER_INIT _ true).
  assert (tail_ok w) as Ht by (rewrite <- (app_nil_r w); by apply tail_ws).
  assert (trim (rest b) = s ++ w) as Er by (change (rest b) with (s ++ w); by destruct Hs as (m & x & _ & _ & ->)).
  destruct (obj_loop_reads (s ++ w) (λ n, n < STR_BUF)%nat STR_BUF (λ n H, H) test_attrs test_ids meta_set (meta_body junk)
    meta_set_ok (meta_body_reads _ _ _ (λ n H, H) junk) l 0%nat s (UJSON_VAL_INIT STR_BUF) b w ∅ t E) as (res1 & b1 & -> & _ & [Ho1 Er1]);
    try done; [lia|].
  lbind. pose proof (proj1 Ho1) as He1.
  assert (ujson_reader_finish b1 = Some b1) as ->.
  { unfold ujson_reader_finish, ujson_reader_err, ujson_reader_consumed. rewrite He1. cbn [bool_decide negb].
    rewrite <- (app_nil_r w), trim_ws in Er1 by done. destruct (rest_nil b1 Er1) as (E1 & _). unfold buf_empty in E1.
    rewrite bool_decide_true by done. cbn. by rewrite E1. }
  cbn [ldef]. lbind. unfold ujson_reader_err. by rewrite He1, bool_decide_true.
Qed.

(** ** The blocks of a script *)

Inductive block :=
  | Plain (line : list Z)
  | Doc (lines : list (list Z))
  | Env (lines : list (list Z)).

Definition line_ok (l : list Z) : Prop := cstring l ∧ Forall (λ c, c ≠ 10) l ∧ (S (length l) < LINE)%nat.

Definition block_line (l : list Z) : Prop := line_ok l ∧ head l = Some ("#"%cc) ∧ l ≠ str "# ---".

Definition block_ok (b : block) : Prop :=
  match b with
  | Plain l => line_ok l ∧ l ≠ str "# ---"
  | Doc ls | Env ls => Forall block_line ls
  end.

Definition lines_text (ls : list (list Z)) : list Z := concat ((λ l, l ++ [10]) <$> ls).

Definition block_lines (b : block) : list (list Z) :=
  match b with
  | Plain l => [l]
  | Doc ls => [str "# ---"; str "# doc"] ++ ls ++ [str "# ---"]
  | Env ls => [str "# ---"; str "# env"] ++ ls ++ [str "# ---"]
  end.

Definition script_text (bl : list block) : list Z := lines_text (concat (block_lines <$> bl)).

(** The lines of the env blocks without the comment sign and the blank. *)
Definition env_text (bl : list block) : list Z :=
  concat ((λ b, match b with Env ls => concat ((λ l, drop 2 (l ++ [10])) <$> ls) | _ => [] end) <$> bl).

(** The lines in order, one round for each. *)
Fixpoint lines_loop (path : list Z) (ls : list (list Z)) (line : list Z) (lineno : Z) (st : parser_state) (md : metadata) :
    lres (list Z * Z * parser_state * metadata) :=
  match ls with
  | [] => LRet (line, lineno, st, md)
  | l :: ls =>
      let line := fgets_over (l ++ [10]) line in
      '(st, md) ← extract_line path lineno line st md;
      lines_loop path ls line (wrapu 32 (lineno + 1)) st md
  end.

Lemma extract_loop_lines path ls line lineno st md fuel :
  Forall line_ok ls → (length (lines_text ls) < fuel)%nat →
  extract_loop fuel path (lines_text ls) line lineno st md = ('(_, _, _, md) ← lines_loop path ls line lineno st md; LRet md).
Proof.
  intros Hls. revert line lineno st md fuel. induction Hls as [|l ls (_ & Hl & Hlen) _ IH]; intros line lineno st md fuel Hf;
    (destruct fuel as [|fuel]; [cbn in Hf; lia|]); [done|].
  unfold lines_text in *. cbn [fmap list_fmap concat extract_loop lines_loop] in *. rewrite <- app_assoc in Hf |- *.
  assert (fgets LINE (l ++ [10] ++ concat ((λ l, l ++ [10]) <$> ls)) = Some (l ++ [10], concat ((λ l, l ++ [10]) <$> ls))) as ->.
  { unfold fgets. destruct (l ++ [10] ++ _) eqn:E; [by destruct l|]. rewrite <- E. f_equal. apply fgets_go_line; [done|lia]. }
  cbn beta iota zeta. destruct (extract_line _ _ _ _ _) as [[st' md']| | | |]; [|done..]. lbind. apply IH.
  rewrite length_app in Hf. simpl in Hf. lia.
Qed.

Lemma lines_loop_app path ls ls' line lineno st md :
  lines_loop path (ls ++ ls') line lineno st md =
  ('(line, lineno, st, md) ← lines_loop path ls line lineno st md; lines_loop path ls' line lineno st md).
Proof.
  revert line lineno st md. induction ls as [|l ls IH]; intros; [done|]. cbn [app lines_loop].
  destruct (extract_line _ _ _ _ _) as [[st' md']| | | |]; [|done..]. lbind. apply IH.
Qed.

Lemma cstring_nl l : cstring l → cstring (l ++ [10]).
Proof. intros Hl. apply Forall_app. split; [done|]. repeat constructor; lia. Qed.

Lemma c_str_fgets l line : cstring l → c_str (fgets_over (l ++ [10]) line) = l ++ [10].
Proof. intros Hl. unfold fgets_over. by apply c_str_app, cstring_nl. Qed.

Lemma c_str_fgets_drop l line : cstring l → (1 ≤ length l)%nat → c_str (drop 2 (fgets_over (l ++ [10]) line)) = drop 2 (l ++ [10]).
Proof.
  intros Hl Hlen. unfold fgets_over. rewrite drop_app_le by (rewrite length_app; simpl; lia).
  apply c_str_app, Forall_drop. by apply cstring_nl.
Qed.

(** [!strcmp(line, "...\n")]. *)
Lemma line_is l line s : cstring l → cstring s → (strcmp (c_str (fgets_over (l ++ [10]) line)) (s ++ [10]) =? 0) = bool_decide (l = s).
Proof.
  intros Hl Hs. rewrite c_str_fgets, strcmp_is by (done || by apply cstring_nl).
  apply bool_decide_ext. split; [by intros ?%app_inv_tail|by intros ->].
Qed.

(** The metadata so far. *)
Definition md_is (txt : list Z) (md : metadata) : Prop :=
  md_text md = txt ∧ (length txt ≤ md_size md)%nat ∧ (txt ≠ [] → md_size md ≠ 0%nat).

Lemma append_is txt md x :
  md_is txt md → (length x < LINE)%nat → ∃ md', metadata_append x md = LRet md' ∧ md_is (txt ++ x) md'.
Proof.
  intros (E1 & E2 & E3) Hx. unfold metadata_append. rewrite E1. unfold LINE in Hx.
  set (size := if (md_size md - length txt <? length x + 1)%nat then (md_size md + 4096)%nat else md_size md).
  assert (length txt + length x + 1 ≤ size)%nat as Hs.
  { unfold size. destruct (Nat.ltb_spec (md_size md - length txt) (length x + 1)); lia. }
  destruct (Nat.ltb_spec (size - length txt) (length x + 1)); [lia|]. eexists. split; [done|].
  split_and!; cbn; [done|rewrite length_app; lia|lia].
Qed.

Section Script.
Context (path : list Z).

(** The lines lead from one state to another and add [x] to the metadata. *)
Definition lines_do (ls : list (list Z)) (st st' : parser_state) (x : list Z) : Prop :=
  ∀ line lineno md txt, md_is txt md →
  ∃ line' lineno' md', lines_loop path ls line lineno st md = LRet (line', lineno', st', md') ∧ md_is (txt ++ x) md'.

Lemma lines_do_app ls ls' st st' st'' x y :
  lines_do ls st st' x → lines_do ls' st' st'' y → lines_do (ls ++ ls') st st'' (x ++ y).
Proof.
  intros H1 H2 line lineno md txt Hm. rewrite lines_loop_app.
  destruct (H1 line lineno md txt Hm) as (line1 & no1 & md1 & -> & Hm1). lbind. rewrite app_assoc. by apply H2.
Qed.

Lemma lines_do_nil st : lines_do [] st st [].
Proof. intros line lineno md txt Hm. rewrite app_nil_r. by eexists _, _, _. Qed.

(** A line that leaves the metadata as it is. *)
Lemma line_do l st st' :
  (∀ lineno line md, extract_line path lineno (fgets_over (l ++ [10]) line) st md = LRet (st', md)) → lines_do [l] st st' [].
Proof. intros H line lineno md txt Hm. cbn [lines_loop]. rewrite H. lbind. rewrite app_nil_r. by eexists _, _, _. Qed.

Lemma plain_do l : line_ok l → l ≠ str "# ---" → lines_do [l] PAR_NONE PAR_NONE [].
Proof.
  intros (Hl & _) Hne. apply line_do. intros. cbn [extract_line]. rewrite line_is by (done || by_dec).
  by rewrite bool_decide_false.
Qed.

Lemma start_do : lines_do [str "# ---"] PAR_NONE PAR_ESC [].
Proof. apply line_do. intros. cbn [extract_line]. by rewrite line_is by by_dec. Qed.

Lemma doc_do : lines_do [str "# doc"] PAR_ESC PAR_DOC [].
Proof. apply line_do. intros. cbn [extract_line]. by rewrite !line_is by by_dec. Qed.

Lemma env_do : lines_do [str "# env"] PAR_ESC PAR_ENV [].
Proof. apply line_do. intros. cbn [extract_line]. by rewrite line_is by by_dec. Qed.

Lemma end_do st : st = PAR_DOC ∨ st = PAR_ENV → lines_do [str "# ---"] st PAR_NONE [].
Proof. intros [-> | ->]; apply line_do; intros; cbn [extract_line]; by rewrite line_is by by_dec. Qed.

Lemma block_head l line : head l = Some ("#"%cc) → (default 0 (head (fgets_over (l ++ [10]) line)) =? "#"%cc) = true.
Proof. by destruct l as [|c l]; [|intros [= ->]]. Qed.

Lemma doc_lines_do ls : Forall block_line ls → lines_do ls PAR_DOC PAR_DOC [].
Proof.
  induction 1 as [|l ls ((Hl & _) & Hh & Hne) _ IH]; [apply lines_do_nil|]. apply (lines_do_app [l] ls _ PAR_DOC _ [] []); [|done].
  apply line_do. intros. cbn [extract_line]. rewrite (block_head l line Hh), line_is by (done || by_dec). cbn [negb].
  by rewrite bool_decide_false.
Qed.

Lemma env_lines_do ls : Forall block_line ls → lines_do ls PAR_ENV PAR_ENV (concat ((λ l, drop 2 (l ++ [10])) <$> ls)).
Proof.
  induction 1 as [|l ls ((Hl & _ & Hlen) & Hh & Hne) _ IH]; [apply lines_do_nil|]. cbn [fmap list_fmap concat].
  apply (lines_do_app [l] ls _ PAR_ENV); [|done]. intros line lineno md txt Hm. cbn [lines_loop extract_line].
  rewrite (block_head l line Hh), line_is by (done || by_dec). cbn [negb]. rewrite bool_decide_false by done.
  rewrite c_str_fgets_drop by (done || destruct l; simpl; done || lia).
  destruct (append_is txt md (drop 2 (l ++ [10])) Hm) as (md' & -> & Hm').
  { rewrite length_drop, length_app. simpl. lia. }
  lbind. by eexists _, _, _.
Qed.

Lemma block_do b : block_ok b → lines_do (block_lines b) PAR_NONE PAR_NONE
  (match b with Env ls => concat ((λ l, drop 2 (l ++ [10])) <$> ls) | _ => [] end).
Proof.
  destruct b as [l|ls|ls]; cbn [block_ok block_lines].
  - intros [H1 H2]. by apply plain_do.
  - intros Hls. apply (lines_do_app [_] (_ :: _) _ PAR_ESC _ [] []); [apply start_do|].
    apply (lines_do_app [_] (ls ++ _) _ PAR_DOC _ [] []); [apply doc_do|].
    apply (lines_do_app ls _ _ PAR_DOC _ [] []); [by apply doc_lines_do|apply end_do; by left].
  - intros Hls. pose proof (env_lines_do ls Hls) as Henv. set (x := concat _) in *.
    apply (lines_do_app [_] (_ :: _) _ PAR_ESC _ [] x); [apply start_do|].
    apply (lines_do_app [_] (ls ++ _) _ PAR_ENV _ [] x); [apply env_do|]. rewrite <- (app_nil_r x).
    apply (lines_do_app ls _ _ PAR_ENV); [done|apply end_do; by right].
Qed.

Lemma blocks_do bl : Forall block_ok bl → lines_do (concat (block_lines <$> bl)) PAR_NONE PAR_NONE (env_text bl).
Proof.
  induction 1 as [|b bl Hb _ IH]; [apply lines_do_nil|]. unfold env_text. cbn [fmap list_fmap concat].
  apply (lines_do_app _ _ _ PAR_NONE); [by apply block_do|done].
Qed.

Lemma block_lines_ok b : block_ok b → Forall line_ok (block_lines b).
Proof.
  assert (∀ s : list Z, bool_decide (cstring s ∧ Forall (λ c, c ≠ 10) s ∧ (S (length s) < LINE)%nat) = true → line_ok s) as Hc.
  { intros s H. by apply bool_decide_eq_true_1 in H. }
  destruct b as [l|ls|ls]; cbn [block_ok block_lines].
  - intros [H _]. by constructor.
  - intros Hls. repeat (apply Forall_cons_2; [apply Hc; by vm_compute|]). apply Forall_app. split.
    + eapply Forall_impl; [exact Hls|]. by intros ? [? _].
    + apply Forall_singleton, Hc. by vm_compute.
  - intros Hls. repeat (apply Forall_cons_2; [apply Hc; by vm_compute|]). apply Forall_app. split.
    + eapply Forall_impl; [exact Hls|]. by intros ? [? _].
    + apply Forall_singleton, Hc. by vm_compute.
Qed.

Lemma extract_reads bl garbage :
  Forall block_ok bl → ∃ md, extract_metadata path (script_text bl) garbage = LRet md ∧ md_is (env_text bl) md.
Proof.
  intros Hbl. unfold extract_metadata, script_text. rewrite extract_loop_lines.
  - destruct (blocks_do bl Hbl garbage 1 (mk_md 0 []) []) as (line' & no' & md' & -> & Hm); [by split_and!; cbn; [|lia|]|].
    lbind. by exists md'.
  - apply Forall_concat, Forall_fmap. eapply Forall_impl; [exact Hbl|]. intros b. apply block_lines_ok.
  - lia.
Qed.
End Script.

Lemma loader_reads (junk : uval → Z) (path garbage : list Z) (bl : list block) (l : jmems) (s w : list Z) (t : tst_test) :
  Forall block_ok bl → env_text bl = s ++ w → is_text (JCont InObj l) s → ws w →
  mwf (λ n, n < STR_BUF)%nat 1 InObj l → meta_of l = Some t →
  prepare_test_struct junk path (script_text bl) garbage = LRet t.
Proof.
  intros Hbl Ebl Hs Hw Hl Ht. unfold prepare_test_struct.
  destruct (extract_reads path bl garbage Hbl) as (md & -> & (Etxt & _ & Hsize)). lbind. rewrite Ebl in *.
  destruct (Nat.eqb_spec (md_size md) 0) as [E0|_].
  { exfalso. apply Hsize; [|done]. destruct Hs as (m & x & _ & _ & ->). done. }
  rewrite Etxt. by apply (parse_metadata_reads junk l).
Qed.

