(* ===== verification/MetaparseShFacts.v ===== *)
(** * The metadata of shell tests is what the loader reads

    metadata/metaparse-sh.c and the loader of testcases/lib/tst_run_shell.c
    read the same blocks of a script; what the one writes into the metadata
    file is a JSON object with the members that the other reads. *)

From S2P Require Import Prelude UjsonUtf UjsonReader UjsonWriter UjsonWriterFacts UjsonRoundtrip UjsonReadback.
From S2P Require Import DataStorage DataStorageFacts Metaparse MetaparseSh RunShell RunShellFacts.
Open Scope Z_scope.

(** ** Indented texts *)

(** The two blanks instead of the comment sign, after every end of a line. *)
Definition indent_char (c : Z) : list Z := if c =? 10 then [10; " "%cc; " "%cc] else [c].
Definition indent (s : list Z) : list Z := concat (indent_char <$> s).

Lemma indent_app s t : indent (s ++ t) = indent s ++ indent t.
Proof. unfold indent. by rewrite fmap_app, concat_app. Qed.

Lemma indent_plain s : Forall (λ c, c ≠ 10) s → indent s = s.
Proof.
  induction 1 as [|c s Hc Hs IH]; [done|]. unfold indent in *. cbn [fmap list_fmap concat]. rewrite IH. unfold indent_char.
  by rewrite (proj2 (Z.eqb_neq c 10)).
Qed.

Lemma indent_ws w : ws w → ws (indent w).
Proof.
  induction 1 as [|c w Hc Hw IH]; [constructor|]. apply Forall_app. split; [|done]. unfold indent_char. destruct (c =? 10); repeat constructor; done.
Qed.

Definition no_nl (s : list Z) : Prop := Forall (λ c, c ≠ 10) s.

Lemma fmt_li_no_nl z : no_nl (fmt_li z).
Proof.
  assert (∀ fuel n, 0 ≤ n → no_nl (dec_go fuel n)) as H.
  { induction fuel as [|fuel IH]; intros n Hn; cbn [dec_go]; [constructor|]. pose proof (Z.mod_pos_bound n 10).
    assert (no_nl ["0"%cc + n mod 10]) by (constructor; [change ("0"%cc) with 48; lia|constructor]).
    destruct (n <? 10); [constructor; [change ("0"%cc) with 48; lia|constructor]|]. apply Forall_app. split; [|done]. apply IH, Z.div_pos; lia. }
  unfold fmt_li, dec. destruct (Z.ltb_spec z 0); [constructor; [done|]|]; apply H; lia.
Qed.

Lemma char_text_no_nl c x : char_text c x → no_nl x.
Proof.
  intros [(Hc & _ & _ & ->)|E]; [constructor; [lia|constructor]|]. unfold esc_of in E.
  repeat (case_match; [simplify_eq; by_dec|]). done.
Qed.

Lemma stext_no_nl s x : is_stext s x → no_nl x.
Proof.
  revert x. induction s as [|c s IH]; intros x; cbn [is_stext]; [intros ->; constructor|].
  intros (y & z & Hy & Hz & ->). apply Forall_app. split; [by eapply char_text_no_nl|by apply IH].
Qed.

Lemma esc_bytes_no_nl s : no_nl (esc_bytes s).
Proof.
  induction s as [|c s IH]; [constructor|]. unfold esc_bytes in *. cbn [fmap list_fmap concat]. apply Forall_app. split; [|done].
  unfold esc_byte. destruct (esc_of c) as [x|] eqn:E; [apply (char_text_no_nl c); by right|]. constructor; [|constructor].
  intros ->. by vm_compute in E.
Qed.

Lemma ktext_no_nl k key : no_nl (ktext k key).
Proof. destruct k; [|constructor]. cbn [ktext]. apply Forall_app. split; [by_dec|]. apply Forall_app. split; [apply esc_bytes_no_nl|by_dec]. Qed.

(** A text stays a text of the same document when its lines are indented. *)
Lemma indent_text : (∀ j s, is_text j s → is_text j (indent s)) ∧ (∀ l k f s, is_mtext k f l s → is_mtext k f l (indent s)).
Proof.
  apply jval_jmems_ind.
  - intros s ->. by rewrite indent_plain by by_dec.
  - intros b s ->. by destruct b; rewrite indent_plain by by_dec.
  - intros z s ->. by rewrite indent_plain by apply fmt_li_no_nl.
  - intros x s (y & Hy & ->). exists y. split; [done|]. rewrite indent_plain; [done|].
    apply Forall_app. split; [by_dec|]. apply Forall_app. split; [by eapply stext_no_nl|by_dec].
  - intros k l IH s (m & w & Hm & Hw & ->). exists (indent m), (indent w). split_and!; [by apply IH|by apply indent_ws|].
    change (open_ch k :: m ++ w ++ [close_ch k]) with ([open_ch k] ++ m ++ w ++ [close_ch k]). rewrite !indent_app.
    rewrite !(indent_plain [_]) by (destruct k; by_dec). done.
  - intros k f s ->. done.
  - intros key v IHv l IHl k f s (w1 & w2 & sv & sl & Hw1 & Hw2 & Hv & Hl & ->).
    exists (indent w1), (indent w2), (indent sv), (indent sl). split_and!; [by apply indent_ws|by apply indent_ws|by apply IHv|by apply IHl|].
    rewrite !indent_app, (indent_plain (ktext k key)) by apply ktext_no_nl. destruct f; [done|]. by rewrite indent_app.
Qed.

(** ** Joining members *)

(** Members with white space around them. *)
Definition chunk (es : list (list Z * jval)) (s : list Z) : Prop :=
  ∃ m w, is_mtext InObj true (mems es) m ∧ ws w ∧ s = m ++ w ∧ es ≠ [].

Lemma mtext_app k f es es' s s' :
  is_mtext k f (mems es) s → is_mtext k (f && bool_decide (es = [])) (mems es') s' → is_mtext k f (mems (es ++ es')) (s ++ s').
Proof.
  revert f s. induction es as [|e es IH]; intros f s; cbn [mems app is_mtext]; [intros ->; by rewrite bool_decide_true, andb_true_r by done|].
  rewrite bool_decide_false, andb_false_r by done. intros (w1 & w2 & sv & sl & Hw1 & Hw2 & Hv & Hl & ->) H'.
  exists w1, w2, sv, (sl ++ s'). split_and!; [done..|by apply IH|by rewrite <- !app_assoc].
Qed.

Lemma mtext_comma k es s w : is_mtext k true (mems es) s → es ≠ [] → ws w → is_mtext k false (mems es) (w ++ str "," ++ s).
Proof.
  destruct es as [|e es]; [done|]. cbn [mems is_mtext]. intros (w1 & w2 & sv & sl & _ & Hw2 & Hv & Hl & ->) _ Hw.
  exists w, w2, sv, sl. split_and!; try done. by rewrite <- !app_assoc.
Qed.

Lemma chunk_join es es' s s' : chunk es s → chunk es' s' → chunk (es ++ es') (s ++ str "," ++ s').
Proof.
  intros (m & w & Hm & Hw & -> & Hne) (m' & w' & Hm' & Hw' & -> & Hne'). exists (m ++ w ++ str "," ++ m'), w'. split_and!; [|done|by rewrite <- !app_assoc|by destruct es].
  apply mtext_app; [done|]. rewrite bool_decide_false by done. by apply mtext_comma.
Qed.

Lemma chunk_ws es w s : ws w → chunk es s → chunk es (w ++ s).
Proof.
  intros Hw (m & w' & Hm & Hw' & -> & Hne). exists (w ++ m), w'. split_and!; [|done|by rewrite <- app_assoc|done].
  destruct es as [|e es]; [done|]. destruct Hm as (w1 & w2 & sv & sl & Hw1 & Hw2 & Hv & Hl & ->).
  exists w1, (w ++ w2), sv, sl. split_and!; try done; [by apply Forall_app|by rewrite <- !app_assoc].
Qed.

Lemma chunk_object es s : chunk es s → is_text (JCont InObj (mems es)) ("{"%cc :: s ++ ["}"%cc]).
Proof. intros (m & w & Hm & Hw & -> & _). exists m, w. split_and!; [done|done|by rewrite <- app_assoc]. Qed.

(** A text ends with a character that is not white space. *)
Definition solid (s : list Z) : Prop := ∃ x c, s = x ++ [c] ∧ is_ws c = false.

Lemma solid_app x s : solid s → solid (x ++ s).
Proof. intros (y & c & -> & Hc). exists (x ++ y), c. by rewrite <- app_assoc. Qed.

Lemma digit_not_ws n : 0 ≤ n < 10 → is_ws ("0"%cc + n) = false.
Proof.
  intros Hn. unfold is_ws. change ("0"%cc) with 48. change (" "%cc) with 32.
  by rewrite !(proj2 (Z.eqb_neq _ _)) by lia.
Qed.

Lemma dec_solid n : 0 ≤ n → solid (dec n).
Proof.
  intros Hn. unfold dec. cbn [dec_go]. destruct (Z.ltb_spec n 10).
  - exists [], ("0"%cc + n). split; [done|]. apply digit_not_ws. lia.
  - eexists _, _. split; [done|]. apply digit_not_ws, Z.mod_pos_bound. lia.
Qed.

Lemma text_solid j s : is_text j s → solid s.
Proof.
  destruct j as [|b|z|x|k l]; cbn [is_text].
  - intros ->. by exists (str "nul"), ("l"%cc).
  - intros ->. destruct b; [by exists (str "tru"), ("e"%cc)|by exists (str "fals"), ("e"%cc)].
  - intros ->. unfold fmt_li. destruct (Z.ltb_spec z 0); [apply (solid_app ["-"%cc])|]; apply dec_solid; lia.
  - intros (y & _ & ->). exists ([cDQ] ++ y), cDQ. by rewrite <- app_assoc.
  - intros (m & w & _ & _ & ->). exists (open_ch k :: m ++ w), (close_ch k). split; [cbn; by rewrite <- app_assoc|by destruct k].
Qed.

Lemma mtext_solid k f l s : is_mtext k f l s → l ≠ JNil → solid s.
Proof.
  revert f s. induction l as [|key v l IH]; intros f s; [done|]. intros (w1 & w2 & sv & sl & _ & _ & Hv & Hl & ->) _.
  do 2 apply solid_app. apply solid_app. destruct l as [|key' v' l].
  - rewrite Hl, app_nil_r. by eapply text_solid.
  - apply solid_app. by eapply IH.
Qed.

Lemma chunk_strip es s w : ws w → chunk es (s ++ w) → chunk es s.
Proof.
  intros Hw (m & w' & Hm & Hw' & E & Hne). destruct (mtext_solid _ _ _ _ Hm) as (x & c & -> & Hc); [by destruct es|].
  destruct (decide (length w ≤ length w')%nat) as [L|L].
  - exists (x ++ [c]), (take (length w' - length w) w').
    assert (s ++ w = ((x ++ [c]) ++ take (length w' - length w) w') ++ drop (length w' - length w) w') as E'.
    { rewrite <- app_assoc, take_drop. done. }
    apply app_inj_2 in E' as [-> _]; [|rewrite length_drop; lia]. split_and!; [done|by apply Forall_take|done|done].
  - exfalso. rewrite <- app_assoc in E. assert (∃ y, w = y ++ [c] ++ w') as [y Ey].
    { assert (suffix ([c] ++ w') (s ++ w)) as Hs by (exists x; done). exists (drop (length s) (take (length x) (s ++ w))).
      assert (s ++ w = take (length x) (s ++ w) ++ [c] ++ w') as E2 by (rewrite E at 2; by rewrite take_app_length).
      assert (length s ≤ length x)%nat as Hl by (apply (f_equal length) in E; rewrite !length_app in E; cbn in E; lia).
      rewrite <- (drop_app_length s w) at 1. rewrite E2 at 1. rewrite drop_app_le; [done|]. rewrite length_take, length_app. lia. }
    rewrite Ey in Hw. apply Forall_app in Hw as [_ Hw]. apply Forall_cons in Hw as [Hw _]. congruence.
Qed.

(** ** Blocks *)

Inductive sblock :=
  | SPlain (line : list Z)
  | SDoc (lines : list (list Z))
  | SEnv (lines : list (list Z)).

(** The same blocks as the loader has them. *)
Definition to_block (b : sblock) : block :=
  match b with
  | SPlain l => Plain l
  | SDoc ls => Doc ls
  | SEnv ls => Env ([str "# {"] ++ ls ++ [str "# }"])
  end.

Definition sblock_ok (b : sblock) : Prop :=
  match b with
  | SPlain l => line_ok l ∧ l ≠ str "# ---"
  | SDoc ls => Forall block_line ls
  | SEnv ls => Forall (λ l, block_line l ∧ (2 ≤ length l)%nat ∧ l ≠ str "# }") ls
  end.

(** The line after an env block is consumed. *)
Fixpoint placed (bl : list sblock) : Prop :=
  match bl with
  | [] => True
  | SEnv _ :: bl => (match bl with [] => True | SPlain l :: _ => l ≠ str "# doc" ∧ l ≠ str "# env" | _ => False end) ∧ placed bl
  | _ :: bl => placed bl
  end.

Definition script (bl : list sblock) : list Z := script_text (to_block <$> bl).

(** The documents of the blocks. *)
Section Blocks.
Context (char_signed : bool) (path : list Z).

Definition doc_of_lines (ls : list (list Z)) : jval := JCont InArr (mems ((λ l, ([], JStr (clean_str char_signed (drop 2 l)))) <$> ls)).

Definition env_object (ls : list (list Z)) : list Z := "{"%cc :: [10] ++ concat ((λ l, drop 2 (l ++ [10])) <$> ls) ++ ["}"%cc].

Definition block_json (b : sblock) (es : list (list Z * jval)) : Prop :=
  match b with
  | SPlain _ => es = []
  | SDoc ls => es = [(str "doc", doc_of_lines ls)]
  | SEnv ls => es ≠ [] ∧ is_text (JCont InObj (mems es)) (env_object ls)
  end.

(** What is printed for a block, without the newline before and the comma
    after it. *)
Definition esc_line (l : list Z) : list Z := data_fprintf_esc char_signed 4 (drop 2 l).
Definition env_line (l : list Z) : list Z := " "%cc :: " "%cc :: drop 2 l.

Definition joined (sep : list Z) (xs : list (list Z)) : list Z :=
  match xs with [] => [] | x :: xs => x ++ concat ((λ x, sep ++ x) <$> xs) end.

Definition block_text (b : sblock) : list Z :=
  match b with
  | SPlain _ => []
  | SDoc ls => str "   " ++ [cDQ] ++ str "doc" ++ [cDQ] ++ str ": [" ++ [10] ++ joined (str "," ++ [10]) (esc_line <$> ls) ++ [10] ++ str "   ]"
  | SEnv ls => joined [10] (env_line <$> ls)
  end.

Lemma env_indent ls :
  Forall (λ l, no_nl l ∧ (2 ≤ length l)%nat) ls →
  indent ([10] ++ concat ((λ l, drop 2 (l ++ [10])) <$> ls)) = [10] ++ concat ((λ l, env_line l ++ [10]) <$> ls) ++ str "  ".
Proof.
  induction 1 as [|l ls [Hl Hlen] _ IH]; [done|]. cbn [fmap list_fmap concat]. rewrite drop_app_le by done.
  rewrite indent_app in *. rewrite indent_app, indent_app, (indent_plain (drop 2 l)) by (by apply Forall_drop).
  assert (indent [10] = [10] ++ str "  ") as E by done. rewrite E in *.
  assert (str "  " ++ indent (concat ((λ l, drop 2 (l ++ [10])) <$> ls)) = concat ((λ l, env_line l ++ [10]) <$> ls) ++ str "  ") as IH'.
  { rewrite <- app_assoc in IH. by apply app_inv_head in IH. }
  rewrite <- !app_assoc, IH'. done.
Qed.

Lemma joined_end (sep : list Z) (xs : list (list Z)) : xs ≠ [] → concat ((λ x, x ++ sep) <$> xs) = joined sep xs ++ sep.
Proof.
  destruct xs as [|x xs]; [done|]. intros _. cbn [fmap list_fmap concat joined]. rewrite <- !app_assoc. f_equal.
  induction xs as [|y xs IH]; cbn [fmap list_fmap concat]; [by rewrite app_nil_r|]. rewrite <- !app_assoc. f_equal. by rewrite <- IH.
Qed.

Lemma env_chunk ls es :
  Forall (λ l, no_nl l ∧ (2 ≤ length l)%nat) ls → es ≠ [] → is_text (JCont InObj (mems es)) (env_object ls) → chunk es ([10] ++ joined [10] (env_line <$> ls)).
Proof.
  intros Hls Hne (m & w & Hm & Hw & E). unfold env_object in E. injection E as E.
  assert (10 :: concat ((λ l, drop 2 (l ++ [10])) <$> ls) = m ++ w) as E'.
  { rewrite app_assoc in E. change (10 :: ?x ++ ?y) with ((10 :: x) ++ y) in E. by apply app_inj_2 in E as [E _]. }
  clear E. rename E' into E.
  assert (ls ≠ []) as Hn.
  { intros ->. destruct (mtext_solid _ _ _ _ Hm) as (x & c & -> & Hc); [by destruct es|].
    destruct x as [|y x]; injection E as <- E; [done|]. by destruct x. }
  assert (chunk es (indent ([10] ++ concat ((λ l, drop 2 (l ++ [10])) <$> ls)))) as H.
  { change ([10] ++ ?x) with (10 :: x). rewrite E. exists (indent m), (indent w). split_and!; [by apply indent_text|by apply indent_ws|apply indent_app|done]. }
  rewrite env_indent in H by done. assert (concat ((λ l, env_line l ++ [10]) <$> ls) = joined [10] (env_line <$> ls) ++ [10]) as Ej.
  { rewrite <- joined_end by (by destruct ls). by rewrite <- list_fmap_compose. }
  rewrite Ej, <- !app_assoc in H. rewrite app_assoc in H. apply (chunk_strip _ _ ([10] ++ str "  ")); [by_dec|done].
Qed.

Lemma items_joined xs : xs ≠ [] → items xs = joined (str "," ++ [10]) xs ++ [10].
Proof.
  destruct xs as [|x xs]; [done|]. intros _. revert x. induction xs as [|y xs IH]; intros x; [cbn; by rewrite !app_nil_r|].
  change (items (x :: y :: xs)) with (x ++ (str "," ++ [10]) ++ items (y :: xs)). rewrite IH. cbn [joined fmap list_fmap concat].
  by rewrite <- !app_assoc.
Qed.

Lemma doc_text ls : is_text (doc_of_lines ls) ("["%cc :: [10] ++ joined (str "," ++ [10]) (esc_line <$> ls) ++ [10] ++ str "   " ++ ["]"%cc]).
Proof.
  destruct (decide (ls = [])) as [->|Hne]; [exists [], ([10] ++ [10] ++ str "   "); split_and!; [done|by_dec|done]|].
  assert (Forall2 (is_item InArr) (esc_line <$> ls) ((λ l, ([], JStr (clean_str char_signed (drop 2 l)))) <$> ls)) as H.
  { apply Forall2_fmap, Forall_Forall2_diag, Forall_forall. intros l _. exists (pad 4). eexists. split_and!; [apply ws_pad| |done].
    eexists. split; [apply clean_str_text|done]. }
  pose proof (container_text InArr _ _ 3 H) as Ht. rewrite items_joined in Ht by (by destruct ls). by rewrite <- app_assoc in Ht.
Qed.

Lemma doc_chunk ls : chunk [(str "doc", doc_of_lines ls)] ([10] ++ block_text (SDoc ls)).
Proof.
  set (v := "["%cc :: [10] ++ joined (str "," ++ [10]) (esc_line <$> ls) ++ [10] ++ str "   " ++ ["]"%cc]).
  exists ([10] ++ str "   " ++ ktext InObj (str "doc") ++ v), []. split_and!; [|constructor| |done].
  - exists [], ([10] ++ str "   "), v, []. split_and!; [constructor|by_dec|apply doc_text|done|by rewrite <- app_assoc, app_nil_r].
  - rewrite app_nil_r. done.
Qed.

Lemma block_chunk b es : sblock_ok b → block_json b es → es = [] ∧ block_text b = [] ∨ chunk es ([10] ++ block_text b).
Proof.
  destruct b as [l|ls|ls]; cbn [sblock_ok block_json].
  - intros _ ->. by left.
  - intros _ ->. right. apply doc_chunk.
  - intros Hok [Hne Ht]. right. apply env_chunk; [|done|done]. eapply Forall_impl; [exact Hok|].
    intros l (((_ & Hnl & _) & _) & Hlen & _). by split.
Qed.

(** ** The object *)

Definition is_block (b : sblock) : bool := match b with SPlain _ => false | _ => true end.

(** The newline before a block and the comma after it. *)
Definition block_out (b : sblock) : list Z := if is_block b then [10] ++ block_text b ++ str "," else [].

Definition fname_text : list Z := [10] ++ str "   " ++ [cDQ] ++ str "fname" ++ [cDQ] ++ str ": " ++ [cDQ] ++ path ++ [cDQ] ++ [10] ++ str "  ".

(** Names are not escaped. *)
Definition name_ok (s : list Z) : Prop := Forall (λ c, 32 ≤ c < 128 ∧ c ≠ cDQ ∧ c ≠ "\"%cc) s.

Lemma name_stext s : name_ok s → is_stext s s.
Proof. induction 1 as [|c s (Hc & H1 & H2) _ IH]; [done|]. exists [c], s. split_and!; [|done|done]. left. split_and!; [lia|done|done|done]. Qed.

Lemma fname_chunk : name_ok path → chunk [(str "fname", JStr path)] fname_text.
Proof.
  intros Hp. exists ([10] ++ str "   " ++ ktext InObj (str "fname") ++ [cDQ] ++ path ++ [cDQ]), ([10] ++ str "  "). split_and!; [|by_dec| |done].
  - exists [], ([10] ++ str "   "), ([cDQ] ++ path ++ [cDQ]), []. split_and!; [constructor|by_dec| |done|].
    + exists path. split; [by apply name_stext|done].
    + by rewrite <- app_assoc, app_nil_r.
  - unfold fname_text. rewrite <- !app_assoc. done.
Qed.

Definition file_members (ess : list (list (list Z * jval))) : list (list Z * jval) := concat ess ++ [(str "fname", JStr path)].

Lemma blocks_chunk bl ess :
  name_ok path → Forall sblock_ok bl → Forall2 block_json bl ess → chunk (file_members ess) (concat (block_out <$> bl) ++ fname_text).
Proof.
  intros Hp Hok H. unfold file_members. induction H as [|b es bl ess Hb _ IH]; [by apply fname_chunk|].
  apply Forall_cons in Hok as [Hbok Hok]. specialize (IH Hok). cbn [fmap list_fmap concat]. rewrite <- !app_assoc. unfold block_out at 1.
  destruct (is_block b) eqn:Eb; [|by destruct b; [rewrite Hb|..]].
  destruct (block_chunk b es Hbok Hb) as [[-> _]|Hc]; [by destruct b; [|done|destruct Hb]|].
  rewrite <- !app_assoc. rewrite (app_assoc [10]). by apply chunk_join.
Qed.

(** ** The loop over the lines *)

Definition stored (l line : list Z) : list Z := l ++ [0] ++ [0] ++ drop (length l + 2) line.

Lemma store_stored l line : cstring l → store_line (l ++ [10]) line = Some (stored l line).
Proof.
  intros Hl. unfold store_line. cbn zeta.
  assert (c_str ((l ++ [10]) ++ [0] ++ drop (length (l ++ [10]) + 1) line) = l ++ [10]) as -> by (by apply c_str_app, cstring_nl).
  rewrite length_app, Nat.add_1_r. f_equal. unfold stored.
  rewrite <- app_assoc. rewrite insert_app_r_alt by lia. rewrite Nat.sub_diag. cbn. do 4 f_equal. lia.
Qed.

Lemma c_str_stored l line : cstring l → c_str (stored l line) = l.
Proof. intros Hl. unfold stored. by apply c_str_app. Qed.

Lemma c_str_stored_drop l line : cstring l → l ≠ [] → c_str (drop 2 (stored l line)) = drop 2 l.
Proof.
  intros Hl Hne. unfold stored. destruct l as [|a [|b l]]; [done|done|]. cbn [drop app]. apply c_str_app. by do 2 apply Forall_cons in Hl as [_ Hl].
Qed.

Lemma c_str_stored_blank l line : cstring l → l ≠ [] → c_str (<[1%nat := " "%cc]> (<[0%nat := " "%cc]> (stored l line))) = env_line l.
Proof.
  intros Hl Hne. unfold stored, env_line. destruct l as [|a [|b l]]; [done|done|]. cbn [insert list_insert app drop].
  change (" "%cc :: " "%cc :: l ++ ?x) with ((" "%cc :: " "%cc :: l) ++ x). apply c_str_app. do 2 apply Forall_cons in Hl as [_ Hl].
  repeat (constructor; [by_dec|]). done.
Qed.

Fixpoint sh_lines (ls : list (list Z)) (st : state) (line : list Z) (started : bool) : state * list Z * bool * list Z :=
  match ls with
  | [] => (st, line, started, [])
  | l :: ls =>
      let '(st, line, started, out) := shell_line char_signed path st (stored l line) started in
      let '(st, line, started, out') := sh_lines ls st line started in
      (st, line, started, out ++ out')
  end.

Lemma shell_loop_lines ls st line started fuel :
  Forall line_ok ls → (length (lines_text ls) < fuel)%nat →
  shell_loop char_signed path fuel (lines_text ls) st line started =
  (let '(_, _, started, out) := sh_lines ls st line started in Ret (started, out)).
Proof.
  intros Hls. revert st line started fuel. induction Hls as [|l ls (Hc & Hl & Hlen) _ IH]; intros st line started fuel Hf;
    (destruct fuel as [|fuel]; [cbn in Hf; lia|]); [done|].
  unfold lines_text in *. cbn [fmap list_fmap concat shell_loop sh_lines] in *. rewrite <- app_assoc in Hf |- *.
  assert (fgets MetaparseSh.LINE (l ++ [10] ++ concat ((λ l, l ++ [10]) <$> ls)) = Some (l ++ [10], concat ((λ l, l ++ [10]) <$> ls))) as ->.
  { unfold fgets. destruct (l ++ [10] ++ _) eqn:E; [by destruct l|]. rewrite <- E. f_equal. apply fgets_go_line; [done|]. unfold RunShell.LINE, MetaparseSh.LINE in *. lia. }
  cbn beta iota zeta. rewrite store_stored by done. cbn [lift]. rewrite rbind_Ret.
  destruct (shell_line _ _ _ _ _) as [[[st1 line1] started1] out1]. rewrite IH by (rewrite length_app in Hf; simpl in Hf; lia).
  destruct (sh_lines ls st1 line1 started1) as [[[st2 line2] started2] out2]. done.
Qed.

(** The lines lead from one state to another and print [out]. *)
Definition sh_do (ls : list (list Z)) (st : state) (started : bool) (st' : state) (started' : bool) (out : list Z) : Prop :=
  ∀ line, ∃ line', sh_lines ls st line started = (st', line', started', out).

Lemma sh_lines_app ls ls' st line a :
  sh_lines (ls ++ ls') st line a =
  (let '(st, line, a, out) := sh_lines ls st line a in let '(st, line, a, out') := sh_lines ls' st line a in (st, line, a, out ++ out')).
Proof.
  revert st line a. induction ls as [|l ls IH]; intros st line a; cbn [app sh_lines]; [by destruct (sh_lines ls' st line a) as [[[??]?]?]|].
  destruct (shell_line _ _ _ _ _) as [[[st1 line1] a1] o1]. rewrite IH. destruct (sh_lines ls st1 line1 a1) as [[[st2 line2] a2] o2].
  destruct (sh_lines ls' st2 line2 a2) as [[[st3 line3] a3] o3]. by rewrite app_assoc.
Qed.

Lemma sh_do_app ls ls' st a st' a' st'' a'' x y :
  sh_do ls st a st' a' x → sh_do ls' st' a' st'' a'' y → sh_do (ls ++ ls') st a st'' a'' (x ++ y).
Proof.
  intros H1 H2 line. rewrite sh_lines_app. destruct (H1 line) as [line1 ->]. destruct (H2 line1) as [line2 ->]. by exists line2.
Qed.

Lemma sh_do_nil st a : sh_do [] st a st a [].
Proof. intros line. by exists line. Qed.

Lemma sh_do_line l st a st' a' out :
  (∀ line, ∃ line', shell_line char_signed path st (stored l line) a = (st', line', a', out)) → sh_do [l] st a st' a' out.
Proof. intros H line. cbn [sh_lines]. destruct (H line) as [line' ->]. exists line'. by rewrite app_nil_r. Qed.

Lemma line_eq l line s : cstring l → streq (c_str (stored l line)) s = bool_decide (l = str s).
Proof. intros Hl. unfold streq. by rewrite c_str_stored. Qed.

Lemma none_do l a : cstring l → sh_do [l] NONE a (if bool_decide (l = str "# ---") then START else NONE) a [].
Proof. intros Hl. apply sh_do_line. intros line. cbn [shell_line]. rewrite line_eq by done. by eexists. Qed.

(** What [json_start] prints. *)
Definition start_text (a : bool) : list Z := (json_start path a).2.

Lemma json_start_eq a : json_start path a = (true, start_text a).
Proof. by destruct a. Qed.

Lemma start_plain_do l a : cstring l → l ≠ str "# doc" → l ≠ str "# env" → sh_do [l] START a NONE a [].
Proof.
  intros Hl H1 H2. apply sh_do_line. intros line. cbn [shell_line]. rewrite !line_eq by done. rewrite !bool_decide_false by done. by eexists.
Qed.

Lemma sh_doc_do a : sh_do [str "# doc"] START a DOC_FIRST true (start_text a ++ str "   " ++ [cDQ] ++ str "doc" ++ [cDQ] ++ str ": [" ++ [10]).
Proof. apply sh_do_line. intros line. cbn [shell_line]. rewrite !line_eq by by_dec. rewrite bool_decide_true by done. rewrite json_start_eq. by eexists. Qed.

Lemma sh_env_do a : sh_do [str "# env"] START a ENV_START true (start_text a).
Proof.
  apply sh_do_line. intros line. cbn [shell_line]. rewrite !line_eq by by_dec. rewrite bool_decide_false by done. rewrite bool_decide_true by done.
  rewrite json_start_eq. by eexists.
Qed.

Lemma doc_line_do l (first : bool) :
  block_line l → sh_do [l] (if first then DOC_FIRST else DOC) true DOC true ((if first then [] else str "," ++ [10]) ++ esc_line l).
Proof.
  intros ((Hc & _) & Hh & Hne). apply sh_do_line. intros line. assert (l ≠ []) by (by destruct l).
  destruct first; cbn [shell_line]; rewrite line_eq, bool_decide_false, c_str_stored_drop by done; by eexists.
Qed.

Lemma env_line_do l (first : bool) :
  block_line l → l ≠ str "# }" → sh_do [l] (if first then ENV_FIRST else ENV) true ENV true ((if first then [] else [10]) ++ env_line l).
Proof.
  intros ((Hc & _) & Hh & _) Hne. apply sh_do_line. intros line. assert (l ≠ []) by (by destruct l).
  destruct first; cbn [shell_line]; rewrite line_eq, bool_decide_false by done; cbn zeta; rewrite c_str_stored_blank by done; by eexists.
Qed.

(** Lines that are printed with a separator between them. *)
Lemma joined_do (f : list Z → list Z) sep first rest ls (P : list Z → Prop) :
  (∀ l (b : bool), P l → sh_do [l] (if b then first else rest) true rest true ((if b then [] else sep) ++ f l)) →
  Forall P ls → sh_do ls first true (match ls with [] => first | _ => rest end) true (joined sep (f <$> ls)).
Proof.
  intros Hf Hls. destruct Hls as [|l ls Hl Hls]; [apply sh_do_nil|]. cbn [fmap list_fmap joined].
  apply (sh_do_app [l] ls _ _ rest true); [exact (Hf l true Hl)|]. induction Hls as [|l' ls Hl' _ IH]; [apply sh_do_nil|].
  cbn [fmap list_fmap concat]. apply (sh_do_app [l'] ls _ _ rest true); [exact (Hf l' false Hl')|done].
Qed.

Lemma doc_end_do st : st = DOC ∨ st = DOC_FIRST → sh_do [str "# ---"] st true NONE true ([10] ++ str "   ]," ++ [10]).
Proof.
  intros [-> | ->]; apply sh_do_line; intros line; cbn [shell_line]; rewrite line_eq, bool_decide_true by by_dec; by eexists.
Qed.

Lemma env_end_do st : st = ENV ∨ st = ENV_FIRST → sh_do [str "# }"] st true NONE true (str "," ++ [10]).
Proof.
  intros [-> | ->]; apply sh_do_line; intros line; cbn [shell_line]; rewrite line_eq, bool_decide_true by by_dec; by eexists.
Qed.

Lemma env_open_do : sh_do [str "# {"] ENV_START true ENV_FIRST true [].
Proof. apply sh_do_line. intros line. cbn [shell_line]. rewrite line_eq, bool_decide_true by by_dec. by eexists. Qed.

(** What is printed for a block, after [json_start]. *)
Definition printed (b : sblock) : list Z := if is_block b then block_text b ++ str "," ++ [10] else [].

Definition after (b : sblock) : state := match b with SEnv _ => START | _ => NONE end.

(** The state in which the next line is read. *)
Definition ready (st : state) (bl : list sblock) : Prop :=
  st = NONE ∨ st = START ∧ match bl with [] => True | SPlain l :: _ => l ≠ str "# doc" ∧ l ≠ str "# env" | _ => False end.

Lemma sh_doc_block_do ls a :
  Forall block_line ls → sh_do (block_lines (Doc ls)) NONE a NONE true (start_text a ++ printed (SDoc ls)).
Proof.
  intros Hls. cbn [block_lines]. apply (sh_do_app [_] (_ :: _) _ _ START a _ _ [] (start_text a ++ printed (SDoc ls))); [by apply none_do; by_dec|].
  set (hd := str "   " ++ [cDQ] ++ str "doc" ++ [cDQ] ++ str ": [" ++ [10]).
  assert (start_text a ++ printed (SDoc ls) = (start_text a ++ hd) ++ joined (str "," ++ [10]) (esc_line <$> ls) ++ ([10] ++ str "   ]," ++ [10])) as ->.
  { unfold printed, hd. cbn [is_block block_text]. rewrite <- !app_assoc. done. }
  apply (sh_do_app [_] (ls ++ _) _ _ DOC_FIRST true); [apply sh_doc_do|].
  eapply (sh_do_app ls); [eapply (joined_do esc_line _ _ DOC); [intros l b; apply doc_line_do|done]|].
  apply doc_end_do. destruct ls; auto.
Qed.

Lemma sh_env_block_do ls a :
  sblock_ok (SEnv ls) → sh_do (block_lines (to_block (SEnv ls))) NONE a START true (start_text a ++ printed (SEnv ls)).
Proof.
  intros Hls. cbn [block_lines to_block]. apply (sh_do_app [_] (_ :: _) _ _ START a _ _ [] (start_text a ++ printed (SEnv ls))); [by apply none_do; by_dec|].
  apply (sh_do_app [_] (_ :: _) _ _ ENV_START true); [apply sh_env_do|].
  change (sh_do ([str "# {"] ++ (ls ++ [str "# }"]) ++ [str "# ---"]) ENV_START true START true ([] ++ printed (SEnv ls))). rewrite <- (app_assoc ls).
  apply (sh_do_app [_] _ _ _ ENV_FIRST true); [apply env_open_do|]. unfold printed. cbn [is_block block_text].
  eapply (sh_do_app ls); [eapply (joined_do env_line _ _ ENV); [|exact Hls]; intros l b (? & _ & ?); by apply env_line_do|].
  rewrite <- (app_nil_r (str "," ++ [10])). apply (sh_do_app [_] [_] _ _ NONE true); [apply env_end_do; destruct ls; auto|].
  by apply (none_do (str "# ---")); by_dec.
Qed.

Lemma sh_block_do b bl st a :
  sblock_ok b → ready st (b :: bl) →
  sh_do (block_lines (to_block b)) st a (after b) (a || is_block b) ((if is_block b then start_text a else []) ++ printed b).
Proof.
  intros Hb Hst. destruct b as [l|ls|ls]; cbn [to_block is_block after]; rewrite ?orb_true_r, ?orb_false_r.
  - destruct Hb as [(Hc & _) Hne]. cbn [block_lines]. destruct Hst as [-> |(-> & H1 & H2)]; [|by apply start_plain_do].
    pose proof (none_do l a Hc) as H. by rewrite bool_decide_false in H.
  - destruct Hst as [-> |[_ []]]. by apply sh_doc_block_do.
  - destruct Hst as [-> |[_ []]]. by apply sh_env_block_do.
Qed.

Lemma sh_blocks_do bl : ∀ st a, Forall sblock_ok bl → placed bl → ready st bl →
  ∃ st', sh_do (concat (block_lines <$> (to_block <$> bl))) st a st' (a || existsb is_block bl)
    ((if existsb is_block bl then start_text a else []) ++ concat (printed <$> bl)).
Proof.
  induction bl as [|b bl IH]; intros st a Hok Hpl Hst; cbn [fmap list_fmap concat existsb].
  - exists st. rewrite orb_false_r. apply sh_do_nil.
  - apply Forall_cons in Hok as [Hb Hok]. assert (placed bl ∧ ready (after b) bl) as [Hpl' Hst'].
    { destruct b; cbn [placed after] in *; split; try done; try by left. - by destruct Hpl. - right. by destruct Hpl. }
    destruct (IH (after b) (a || is_block b) Hok Hpl' Hst') as [st' H]. exists st'. rewrite orb_assoc.
    pose proof (sh_do_app _ _ _ _ _ _ _ _ _ _ (sh_block_do b bl st a Hb Hst) H) as H'.
    assert (∀ x, ((if is_block b then start_text a else []) ++ printed b) ++ (if existsb is_block bl then start_text (a || is_block b) else []) ++ x =
      (if is_block b || existsb is_block bl then start_text a else []) ++ printed b ++ x) as E; [|by rewrite E in H'].
    intros x. unfold printed. destruct (is_block b); cbn [orb].
    + rewrite orb_true_r. change (start_text true) with (@nil Z). rewrite <- app_assoc. by destruct (existsb is_block bl).
    + by rewrite orb_false_r.
Qed.

Lemma printed_out bl : [10] ++ concat (printed <$> bl) = concat (block_out <$> bl) ++ [10].
Proof.
  induction bl as [|b bl IH]; [done|]. cbn [fmap list_fmap concat]. unfold printed at 1, block_out at 1. destruct (is_block b); [|done].
  rewrite <- !app_assoc. do 3 f_equal. by rewrite <- IH.
Qed.
End Blocks.

(** ** The file *)

(** The lines of the env blocks, and their members. *)
Definition envs (bl : list sblock) : list (list (list Z)) := omap (λ b, match b with SEnv ls => Some ls | _ => None end) bl.

Fixpoint env_members (bl : list sblock) (ess : list (list (list Z * jval))) : list (list Z * jval) :=
  match bl, ess with
  | SEnv _ :: bl, es :: ess => es ++ env_members bl ess
  | _ :: bl, _ :: ess => env_members bl ess
  | _, _ => []
  end.

Lemma to_block_ok b : sblock_ok b → block_ok (to_block b).
Proof.
  assert (∀ s : list Z, bool_decide (cstring s ∧ Forall (λ c, c ≠ 10) s ∧ (S (length s) < RunShell.LINE)%nat) = true → head s = Some ("#"%cc) →
    s ≠ str "# ---" → block_line s) as Hc.
  { intros s H ? ?. by apply bool_decide_eq_true_1 in H. }
  destruct b as [l|ls|ls]; cbn [sblock_ok to_block block_ok]; try done. intros Hls. apply Forall_app. split; [apply Forall_singleton, Hc; [by vm_compute|done..]|].
  apply Forall_app. split; [|apply Forall_singleton, Hc; [by vm_compute|done..]]. eapply Forall_impl; [exact Hls|]. by intros l [? _].
Qed.

Lemma env_text_none bl : envs bl = [] → env_text (to_block <$> bl) = [].
Proof. induction bl as [|[l|ls|ls] bl IH]; [done|exact IH|exact IH|done]. Qed.

Lemma env_members_none cs bl ess : Forall2 (block_json cs) bl ess → envs bl = [] → env_members bl ess = [].
Proof. induction 1 as [|[l|ls|ls] es bl ess _ _ IH]; [done|exact IH|exact IH|done]. Qed.

(** One env block is read by the loader. *)
Lemma one_env cs bl ess ls :
  Forall2 (block_json cs) bl ess → envs bl = [ls] →
  env_text (to_block <$> bl) = env_object ls ++ [10] ∧ is_text (JCont InObj (mems (env_members bl ess))) (env_object ls).
Proof.
  induction 1 as [|[l|ls'|ls'] es bl ess Hb H IH]; [done|exact IH|exact IH|]. intros [= -> E]. fold (envs bl) in E. cbn [env_members].
  rewrite (env_members_none cs bl ess H E), app_nil_r. split; [|by destruct Hb].
  pose proof (env_text_none bl E) as E'. unfold env_text in *. cbn [fmap list_fmap concat to_block]. rewrite E', app_nil_r.
  unfold env_object. cbn [app fmap list_fmap concat]. rewrite fmap_app, concat_app. cbn [fmap list_fmap concat]. rewrite app_nil_r.
  change (drop 2 (str "# {" ++ [10])) with ["{"%cc; 10]. change (drop 2 (str "# }" ++ [10])) with ["}"%cc; 10]. cbn [app]. by rewrite <- app_assoc.
Qed.

Lemma shell_text char_signed path bl ess started :
  Forall sblock_ok bl → placed bl → existsb is_block bl = true → Forall2 (block_json char_signed) bl ess → name_ok path → started = false →
  ∀ garbage, ∃ body, is_text (JCont InObj (mems (file_members path ess))) body ∧
    shell_loop char_signed path (S (length (script bl))) (script bl) NONE garbage started =
    Ret (true, start_text path started ++ concat (printed char_signed <$> bl)) ∧
    start_text path started ++ concat (printed char_signed <$> bl) ++ json_finish path true = str "   " ++ [cDQ] ++ basename path ++ [cDQ] ++ str ": " ++ body.
Proof.
  intros Hok Hpl Hany Hj Hp -> garbage. exists ("{"%cc :: (concat (block_out char_signed <$> bl) ++ fname_text path) ++ ["}"%cc]). split_and!.
  - by apply chunk_object, blocks_chunk.
  - unfold script, script_text. rewrite shell_loop_lines; [|apply Forall_concat, Forall_fmap, Forall_fmap|lia].
    + destruct (sh_blocks_do char_signed path bl NONE false Hok Hpl) as [st' H]; [by left|]. destruct (H garbage) as [line' ->]. by rewrite Hany.
    + eapply Forall_impl; [exact Hok|]. intros b Hb. by apply block_lines_ok, to_block_ok.
  - pose proof (printed_out char_signed bl) as E. unfold start_text, json_start, json_finish, fname_text. cbn [snd negb].
    rewrite <- !app_assoc. change (str ": {" ++ [10] ++ ?x) with (str ": " ++ ["{"%cc] ++ [10] ++ x).
    change ("{"%cc :: ?x) with (["{"%cc] ++ x). rewrite (app_assoc [10]), E. by rewrite <- !app_assoc.
Qed.

