(* ===== verification/RunShellSafe.v ===== *)
(** * The loader on any script

    Whatever the bytes of the script are: the loops of the loader end, and a
    test structure that the loader returns has in every member a value of the
    kind of its attribute.  A step of the loader may also end the program, by
    [tst_brk] or by one of the two defects that [LWild] and [LOver] name. *)

From stdpp Require Import gmap.
From S2P Require Import Prelude UjsonUtf UjsonReader UjsonReaderFacts UjsonTyped RunShell RunShellFacts.
Open Scope Z_scope.

(** ** Steps *)

(** The value and the reader between the steps. *)
Definition st_ok (v : ujson_val) (b : ujson_reader) : Prop :=
  val_ok v ∧ str_ok v ∧ same_buf (UJSON_VAL_INIT STR_BUF) v ∧ (off b ≤ length (json b))%nat.

(** A step from [b0] returns something with [Q], unless there is an error. *)
Definition post {X} (Q : X → Prop) (b0 : ujson_reader) (m : lres (X * ujson_val * ujson_reader)) : Prop :=
  match m with
  | LRet (x, v, b) => st_ok v b ∧ adv b0 b ∧ (err b = [] → Q x)
  | LWild | LOver => True
  | LBrk _ | LUB => False
  end.

(** A body that returns from its loop has set an error. *)
Definition goes {R A} (I : A → Prop) (f : flow R A) : Prop := match f with Next a => I a | Return _ => False end.

Definition body_safe {R A} (I : A → Prop) (P : ujson_val → ujson_reader → Prop)
    (body : A → ujson_val → ujson_reader → lres (flow R A * ujson_val * ujson_reader)) : Prop :=
  ∀ a v b, st_ok v b → (err b = [] → I a) → P v b → type v ≠ UJSON_VOID → post (goes I) b (body a v b).

Lemma post_ret {X} (Q : X → Prop) b x v b' : st_ok v b' → adv b b' → (err b' = [] → Q x) → post Q b (LRet (x, v, b')).
Proof. done. Qed.

Lemma post_err {X} (Q : X → Prop) b x v m : st_ok v b → m ≠ [] → post Q b (LRet (x, v, ujson_err m b)).
Proof. intros Hs Hm. destruct (adv_ujson_err b m Hm) as [A E]. apply post_ret; [exact Hs|exact A|]. done. Qed.

Lemma post_adv {X} (Q : X → Prop) b0 b m : adv b0 b → post Q b m → post Q b0 m.
Proof.
  destruct m as [[[x v] b']| | | |]; try done. intros A (Hs & A' & HQ). split_and!; [exact Hs|by etransitivity|exact HQ].
Qed.

Lemma post_then {X Y} (Q : X → Prop) (Q' : Y → Prop) b0 m (f : X * ujson_val * ujson_reader → lres (Y * ujson_val * ujson_reader)) :
  post Q b0 m → (∀ x v b, st_ok v b → adv b0 b → (err b = [] → Q x) → post Q' b (f (x, v, b))) → post Q' b0 (m ≫= f).
Proof.
  destruct m as [[[x v] b]| | | |]; intros Hm Hf; try done. destruct Hm as (Hs & A & HQ).
  eapply post_adv; [exact A|by apply Hf].
Qed.

Lemma st_ok_nav v b v' b' : st_ok v b → nav_step b v v' b' → st_ok v' b'.
Proof.
  intros (Hv & Hs & [B1 B2] & Ho) (A & V' & S' & [B1' B2'] & _). split_and!; [exact V'|exact S'|split; congruence|].
  rewrite (adv_json _ _ A). by apply A.
Qed.

Lemma err_back b b' : adv b b' → err b' = [] → err b = [].
Proof. intros A E. destruct (decide (err b = [])) as [|N]; [done|]. by destruct (adv_err _ _ A N). Qed.

(** ** Loops *)

Lemma foreach_safe {R A} (I : A → Prop) P next (body : A → ujson_val → ujson_reader → lres (flow R A * ujson_val * ujson_reader)) :
  nav_total P next → body_safe I P body → ∀ fuel a v b,
  st_ok v b → (err b = [] → I a) → P v b → (type v ≠ UJSON_VOID → rounds b ≤ fuel)%nat → post (goes I) b (foreach next body fuel a v b).
Proof.
  intros Hnext Hbody. induction fuel as [|fuel IH]; intros a v b Hs HI HP Hf;
    (assert (post (goes I) b (LRet (Next a, v, b) : lres (flow R A * ujson_val * ujson_reader))) as Hend by (by apply post_ret));
    cbn [foreach]; unfold ujson_val_valid; (destruct (bool_decide_reflect (type v = UJSON_VOID)) as [|Hne]; cbn [negb]; [exact Hend|]);
    specialize (Hf Hne).
  { unfold rounds in Hf. case_decide; lia. }
  eapply post_then; [by apply Hbody|]. intros f v1 b1 Hs1 A1 HQ1. cbn beta iota.
  destruct f as [a1|x]; [|by apply post_ret]. pose proof Hs1 as (V1 & S1 & _ & O1).
  destruct (Hnext b1 v1 V1 S1 O1) as (r & v2 & b2 & -> & N & Hvoid & HP2). cbn [ldef]. lbind. pose proof N as (A2 & _).
  eapply post_adv; [exact A2|]. apply IH; [by eapply st_ok_nav|intros E; apply HQ1; by eapply err_back|exact HP2|]. intros Hne2.
  pose proof (rounds_adv _ _ A1) as Hr. destruct (decide (err b1 = [])) as [E|E].
  - destruct (rounds_nav _ _ _ _ N E O1); [done|lia].
  - by destruct Hne2; apply Hvoid.
Qed.

(** A loop from its first call on. *)
Lemma loop_safe {R A} (I : A → Prop) P first next (body : A → ujson_val → ujson_reader → lres (flow R A * ujson_val * ujson_reader)) a v b :
  nav_total P first → nav_total P next → body_safe I P body → st_ok v b → (err b = [] → I a) →
  post (goes I) b ('(_, v, r) ← ldef (first b v); foreach next body (loop_fuel r) a v r).
Proof.
  intros Hfirst Hnext Hbody Hs HI. pose proof Hs as (V & S & _ & O).
  destruct (Hfirst b v V S O) as (r & v1 & b1 & -> & N & Hvoid & HP). cbn [ldef]. lbind. pose proof N as (A1 & _).
  eapply post_adv; [exact A1|].
  eapply foreach_safe; [done|done|by eapply st_ok_nav|intros E; apply HI; by eapply err_back|done|]. intros Hne.
  unfold loop_fuel. rewrite (adv_json _ _ A1). destruct (decide (err b = [])) as [E|E].
  - destruct (rounds_nav _ _ _ _ N E O) as [|Hr]; [done|]. unfold rounds at 2 in Hr. rewrite decide_True in Hr by done. lia.
  - by destruct Hne; apply Hvoid.
Qed.

Lemma arr_foreach_safe {R A} (I : A → Prop) (body : A → ujson_val → ujson_reader → lres (flow R A * ujson_val * ujson_reader)) a v b :
  body_safe I fresh body → st_ok v b → (err b = [] → I a) → post (goes I) b (arr_foreach body a v b).
Proof. intros. apply (loop_safe I fresh); [apply arr_first_total|apply arr_next_total|done..]. Qed.

Lemma obj_foreach_safe {R A} (I : A → Prop) obj (body : A → ujson_val → ujson_reader → lres (flow R A * ujson_val * ujson_reader)) a v b :
  body_safe I (found obj) body → st_ok v b → (err b = [] → I a) → post (goes I) b (obj_foreach_filter obj body a v b).
Proof. intros. apply (loop_safe I (found obj)); [apply first_filter_total|apply next_filter_total|done..]. Qed.

(** ** Arrays *)

Definition some_with {X} (Q : X → Prop) (o : option X) : Prop := match o with Some x => Q x | None => False end.

Lemma load_adv b b' :
  adv b b' → (err b = [] → sub_off b = off b) → adv b (ujson_reader_state_load b' (ujson_reader_state_save b)).
Proof.
  intros A Hh. unfold ujson_reader_state_load. destruct (ujson_reader_err b') eqn:E; [done|].
  apply reader_err_false in E. pose proof (Hh (err_back _ _ A E)) as Hsub. destruct A as [J M S P O L Er U].
  split; try done; cbn; [lia|]. rewrite Hsub. done.
Qed.

Definition skip_ok (skip : ujson_reader → option (Z * ujson_reader)) : Prop :=
  ∀ b, (off b ≤ length (json b))%nat → ∃ r b', skip b = Some (r, b') ∧ adv b b'.

Lemma st_ok_adv v b b' : st_ok v b → adv b b' → st_ok v b'.
Proof. intros (V & S & B & O) A. split_and!; try done. rewrite (adv_json _ _ A). by apply A. Qed.

Lemma count_safe t skip msg : skip_ok skip → msg ≠ [] → body_safe (λ _, True) fresh (count_body t skip msg).
Proof.
  intros Hskip Hm cnt v b Hs _ _ _. unfold count_body. destruct (negb (val_is t v)); [by apply post_err|].
  pose proof Hs as (_ & _ & _ & O). destruct (Hskip b O) as (r & b' & -> & A). cbn [ldef]. lbind.
  apply post_ret; [by eapply st_ok_adv|done|done].
Qed.

Lemma two_pass_safe {X} (el : X → Prop) t skip msg store v b :
  skip_ok skip → msg ≠ [] → (∀ cnt, body_safe (Forall el) fresh (store cnt)) → st_ok v b → (err b = [] → sub_off b = off b) →
  post (some_with (Forall el)) b (two_pass t skip msg store v b).
Proof.
  intros Hskip Hm Hstore Hs Hh. unfold two_pass.
  destruct (arr_foreach (count_body t skip msg) 0%nat v b) as [[[f v1] b1]| | | |] eqn:E1;
    pose proof (arr_foreach_safe (λ _, True) (count_body t skip msg) 0%nat v b (count_safe t skip msg Hskip Hm) Hs ltac:(done)) as H1;
    rewrite E1 in H1; try done.
  destruct H1 as (Hs1 & A1 & HQ1). lbind. destruct f as [cnt|x]; [|apply post_ret; [done|done|intros E; by destruct (HQ1 E)]].
  pose proof (load_adv b b1 A1 Hh) as A2. eapply post_adv; [exact A2|]. eapply post_then.
  - apply (arr_foreach_safe (Forall el)); [apply Hstore| |by constructor].
    destruct Hs1 as (V1 & S1 & B1 & _), Hs as (_ & _ & _ & O). split_and!; [done..|]. rewrite (adv_json _ _ A2). by apply A2.
  - intros f v3 b3 Hs3 A3 HQ3. cbn beta iota. destruct f; by apply post_ret.
Qed.

Lemma push_safe {X} (el : X → Prop) cnt ret x v b :
  st_ok v b → (err b = [] → Forall el ret) → (err b = [] → el x) →
  post (goes (Forall el)) b (ret ← push cnt ret x; LRet (Next ret : flow unit (list X), v, b)).
Proof.
  intros Hs Hret Hx. unfold push. destruct (length ret <? cnt)%nat; [|done]. lbind.
  apply post_ret; [done|done|]. intros E. cbn. apply Forall_app. split; [by apply Hret|]. constructor; [by apply Hx|done].
Qed.

(** ** The types of the members *)

Definition str_fits (s : list Z) : Prop := (length s < STR_BUF)%nat.

(** [P] of what is there. *)
Definition opt {X} (P : X → Prop) (o : option X) : Prop := from_option P True o.

(** Only the flags that have a name. *)
Definition flags_ok (z : Z) : Prop := Z.land z (Z.lnot (Z.lor (Z.lor MS_RDONLY MS_NOSUID) (Z.lor MS_NOEXEC MS_NOATIME))) = 0.

Definition fs_typed (fs : tst_fs) : Prop :=
  opt str_fits (fs_type fs) ∧ opt (Forall str_fits) (mkfs_opts fs) ∧ opt str_fits (mkfs_size_opt fs) ∧
  opt str_fits (mkfs_ver fs) ∧ flags_ok (mnt_flags fs) ∧ opt str_fits (fs_min_kver fs).

Definition cmd_typed (c : tst_cmd) : Prop := opt str_fits (cmd c) ∧ opt (λ z, 0 ≤ z ≤ 1) (optional c).

Definition tag_typed (t : tst_tag) : Prop :=
  opt str_fits (tag_name t) ∧ opt str_fits (tag_value t) ∧ (tag_name t = None → tag_value t = None).

Definition sr_flags_ok (z : Z) : Prop := z ∈ [TST_SR_TCONF; TST_SR_TBROK; TST_SR_SKIP].

Definition pv_typed (p : tst_path_val) : Prop := str_fits (pv_path p) ∧ opt str_fits (pv_val p) ∧ sr_flags_ok (pv_flags p).

(** The least value of an integer that was checked to be positive: the 64-bit
    members only keep what was checked, the others are truncated. *)
Definition least (max : Z) : Z := if max =? 2 ^ 63 - 1 then 1 else if max =? 2 ^ 31 - 1 then - 2 ^ 31 else 0.

Definition member_typed (k : kind) (m : member) : Prop :=
  match k, m with
  | KFlag, MInt z => 0 ≤ z ≤ 1
  | KPos max, MInt z => least max ≤ z ≤ max
  | KAbi, MInt z => z = 32 ∨ z = 64
  | KStr, MStr s => str_fits s
  | KStrs, MStrs o => some_with (Forall str_fits) o
  | KFs, MFs o => some_with (Forall fs_typed) o
  | KCmds, MCmds o => some_with (Forall cmd_typed) o
  | KTags, MTags o => some_with (Forall tag_typed) o
  | KPaths, MPaths o => some_with (Forall pv_typed) o
  | _, _ => False
  end.

Definition test_typed (t : tst_test) : Prop := ∀ a m, t !! a = Some m → a ≠ MIN_KVER ∧ member_typed (kind_of a) m.

(** ** The parsers *)

Lemma strdup_safe {X} (Q : X → Prop) b v (k : list Z → lres (X * ujson_val * ujson_reader)) :
  st_ok v b → (∀ s, str_fits s → post Q b (k s)) → post Q b (s ← strdup v; k s).
Proof.
  intros (_ & S & [B1 B2] & _) Hk. unfold strdup. destruct (val v) eqn:E; try done. lbind. apply Hk.
  unfold str_ok in S. rewrite E, B1, B2 in S. exact S.
Qed.

Lemma found_type obj v b n t :
  found obj v b → type v ≠ UJSON_VOID → idx v = Some n → attr_type <$> obj !! n = Some t → t ≠ UJSON_FLOAT → t ≠ UJSON_VOID →
  err b = [] → type v = t ∧ typed_val v ∧ here v b.
Proof.
  intros F Hne Hn Ht Hfl Hvo E. destruct (F E Hne n Hn) as (attr & Ea & Em & _ & Ty & Hh). rewrite Ea in Ht. injection Ht as <-.
  split_and!; [|done|done]. unfold type_matches in Em. repeat case_bool_decide; done.
Qed.

Lemma found_arr obj v b n :
  found obj v b → type v ≠ UJSON_VOID → idx v = Some n → attr_type <$> obj !! n = Some UJSON_ARR → err b = [] → sub_off b = off b.
Proof. intros F Hne Hn Ht E. destruct (found_type obj v b n UJSON_ARR F Hne Hn Ht) as (T & _ & Hh); [done..|]. apply Hh. by right. Qed.

Lemma skip_obj_ok : skip_ok ujson_obj_skip.
Proof. intros b O. by apply skip_total. Qed.
Lemma skip_arr_ok : skip_ok ujson_arr_skip.
Proof. intros b O. by apply skip_total. Qed.
Lemma no_skip_ok : skip_ok no_skip.
Proof. intros b O. by eexists _, _. Qed.

Lemma parse_strarr_safe v b :
  st_ok v b → (err b = [] → sub_off b = off b) → post (some_with (Forall str_fits)) b (parse_strarr v b).
Proof.
  apply two_pass_safe; [apply no_skip_ok|done|]. intros cnt ret v' b' Hs HI _ _. unfold strarr_body.
  apply strdup_safe; [done|]. intros s Hfit. by apply push_safe.
Qed.

Lemma mnt_flags_safe v b : st_ok v b → post flags_ok b (parse_mnt_flags v b).
Proof.
  intros Hs. unfold parse_mnt_flags. eapply post_then.
  - apply (arr_foreach_safe flags_ok); [|done|done]. intros z v' b' Hs' HI _ _. unfold mnt_flags_body.
    destruct (negb _); [by apply post_err|]. apply strdup_safe; [done|]. intros s _.
    assert (Hor : ∀ f, flags_ok f → err b' = [] → flags_ok (Z.lor z f)).
    { intros f Hf E. unfold flags_ok in *. rewrite Z.land_lor_distr_l, Hf, (HI E). done. }
    do 4 (destruct (_ =? 0); [apply post_ret; [done|done|by apply Hor]|]). by apply post_err.
  - intros f v1 b1 Hs1 A1 HQ. cbn beta iota. destruct f; (apply post_ret; [done|done|]); [exact HQ|intros E; by destruct (HQ E)].
Qed.

Lemma fs_body_safe : body_safe fs_typed (found fs_attrs) fs_body.
Proof.
  intros [ty opts size_opt ver flags kver] v b Hs HI F Hne. unfold fs_body.
  destruct (idx v) as [n|] eqn:En; cbn [mbind option_bind]; [|by apply post_ret].
  destruct (fs_attr_ids !! n) as [i|] eqn:Ei; [|by apply post_ret].
  assert (Harr : i = MKFS_OPTS → err b = [] → sub_off b = off b).
  { intros ->. apply (found_arr fs_attrs v b n F Hne En). do 6 (destruct n as [|n]; [done|]). done. }
  destruct i; try (apply strdup_safe; [done|]; intros s Hfit; apply post_ret; [done|done|]; intros E;
    destruct (HI E) as (? & ? & ? & ? & ? & ?); by split_and!).
  - eapply post_then; [apply parse_strarr_safe; [done|by apply Harr]|]. intros o v1 b1 Hs1 A1 HQ1. cbn beta iota. apply post_ret; [done|done|].
    intros E. destruct (HI (err_back _ _ A1 E)) as (? & ? & ? & ? & ? & ?). specialize (HQ1 E). by destruct o; split_and!.
  - eapply post_then; [by apply mnt_flags_safe|]. intros z v1 b1 Hs1 A1 HQ1. cbn beta iota. apply post_ret; [done|done|].
    intros E. destruct (HI (err_back _ _ A1 E)) as (? & ? & ? & ? & ? & ?). specialize (HQ1 E). by split_and!.
Qed.

Lemma obj_entry_safe {X} (I : X → Prop) obj body zero cnt :
  body_safe I (found obj) body → I zero → body_safe (Forall I) fresh (obj_entry obj body zero cnt).
Proof.
  intros Hbody Hz ret v b Hs HI _ _. unfold obj_entry. eapply post_then; [by apply (obj_foreach_safe I)|].
  intros f v1 b1 Hs1 A1 HQ1. cbn beta iota. destruct f as [x|]; [|by apply post_ret].
  apply push_safe; [done|intros E; apply HI; by eapply err_back|exact HQ1].
Qed.

Lemma parse_filesystems_safe v b :
  st_ok v b → (err b = [] → sub_off b = off b) → post (some_with (Forall fs_typed)) b (parse_filesystems v b).
Proof.
  apply two_pass_safe; [apply skip_obj_ok|done|]. intros cnt. by apply obj_entry_safe; [apply fs_body_safe|].
Qed.

Section Junk.
Context (junk : uval → Z).

Lemma cmd_body_safe : body_safe cmd_typed (found cmd_attrs) (cmd_body junk).
Proof.
  intros c v b Hs HI F Hne. unfold cmd_body. destruct (idx v ≫= _) as [[|]|]; [| |by apply post_ret].
  - apply strdup_safe; [done|]. intros s Hfit. apply post_ret; [done|done|]. intros E. by destruct (HI E).
  - apply post_ret; [done|done|]. intros E. destruct (HI E). split; [done|]. cbn.
    pose proof (wrapu_range 1 (val_int junk v)). lia.
Qed.

Lemma parse_cmds_safe v b :
  st_ok v b → (err b = [] → sub_off b = off b) → post (some_with (Forall cmd_typed)) b (parse_cmds junk v b).
Proof.
  apply two_pass_safe; [apply skip_obj_ok|done|]. intros cnt. by apply obj_entry_safe; [apply cmd_body_safe|].
Qed.

Lemma parse_tags_safe v b :
  st_ok v b → (err b = [] → sub_off b = off b) → post (some_with (Forall tag_typed)) b (parse_tags v b).
Proof.
  intros Hs Hh. apply two_pass_safe; [apply skip_arr_ok|done| |done|done]. intros cnt ret v1 b1 Hs1 HI1 _ _. unfold tag_entry. eapply post_then.
  - apply (arr_foreach_safe tag_typed); [|done|done]. intros [name value] v2 b2 Hs2 HI2 _ _. unfold tag_body.
    destruct (negb _); [by apply post_err|]. destruct name as [name|], value as [value|]; [by apply post_err|..];
      (apply strdup_safe; [done|]); intros s Hfit; (apply post_ret; [done|done|]); intros E; destruct (HI2 E) as (? & ? & ?); by split_and!.
  - intros f v2 b2 Hs2 A2 HQ2. cbn beta iota. destruct f as [t|]; [|by apply post_ret].
    apply push_safe; [done|intros E; apply HI1; by eapply err_back|exact HQ2].
Qed.

Definition sr_typed (s : sr) : Prop :=
  opt str_fits (sr_path s) ∧ opt (opt str_fits) (sr_val s) ∧ opt sr_flags_ok (sr_flags s).

Lemma sr_body_safe : body_safe sr_typed fresh sr_body.
Proof.
  intros s v b Hs HI _ _.
  assert (Hgo : ∀ s', (err b = [] → sr_typed s → sr_typed s') → post (goes sr_typed) b (LRet (Next s' : flow unit sr, v, b))).
  { intros s' H. apply post_ret; [done|done|]. intros E. by apply H; [|apply HI]. }
  assert (Hdup : ∀ k : list Z → lres (flow unit sr * ujson_val * ujson_reader), (∀ p, str_fits p → post (goes sr_typed) b (k p)) → post (goes sr_typed) b (p ← strdup v; k p)).
  { intros k. by apply strdup_safe. }
  unfold sr_body. destruct s as [[path|] [pval|] [flags|]]; destruct (val_is UJSON_STR v), (val_is UJSON_NULL v); cbn [negb];
    try (by apply post_err); try (apply Hgo; intros _ (? & ? & ?); by split_and!);
    apply Hdup; intros p Hp; try (apply Hgo; intros _ (? & ? & ?); by split_and!);
    (do 3 (destruct (strcmp p _ =? 0); [apply Hgo; intros _ (? & ? & ?); split_and!; [done|done|by repeat constructor]|])); by apply post_err.
Qed.

Lemma parse_save_restore_safe v b :
  st_ok v b → (err b = [] → sub_off b = off b) → post (some_with (Forall pv_typed)) b (parse_save_restore v b).
Proof.
  intros Hs Hh. apply two_pass_safe; [apply skip_arr_ok|done| |done|done]. intros cnt ret v1 b1 Hs1 HI1 _ _. unfold sr_entry.
  eapply post_then; [by apply (arr_foreach_safe sr_typed); [apply sr_body_safe| |]|].
  intros f v2 b2 Hs2 A2 HQ2. cbn beta iota.
  destruct f as [[[path|] pval [flags|]]|]; try (by apply post_err); [|by apply post_ret].
  apply push_safe; [done|intros E; apply HI1; by eapply err_back|]. intros E. destruct (HQ2 E) as (? & ? & ?).
  split_and!; [done| |done]. by destruct pval.
Qed.
End Junk.

(** ** The structure *)

(** The type of the values of an attribute. *)
Definition kind_type (k : kind) : ujson_type :=
  match k with KFlag => UJSON_BOOL | KPos _ | KAbi => UJSON_INT | KStr => UJSON_STR | _ => UJSON_ARR end.

Lemma test_attr_type n a : test_ids !! n = Some a → attr_type <$> test_attrs !! n = Some (kind_type (kind_of a)).
Proof. intros E. do 32 (destruct n as [|n]; [by injection E as <-|]). done. Qed.

(** The search does not find the attribute that is out of order. *)
Lemma min_kver_missed key : ujson_obj_lookup test_attrs (c_str key) ≠ Some (Some 6%nat).
Proof.
  intros E. destruct (obj_lookup_hit _ _ _ E) as (attr & Ha & H).
  assert (attr_key <$> test_attrs !! 6%nat = Some (str "min_kver")) as Hk by (vm_compute; reflexivity).
  rewrite Ha in Hk. injection Hk as Hk. rewrite Hk in H. apply strcmp_0 in H; [|by_dec|apply c_str_no_nul].
  assert (ujson_obj_lookup test_attrs (str "min_kver") = Some None) as Hmiss by (vm_compute; reflexivity).
  rewrite <- H, Hmiss in E. done.
Qed.

(** What is known of the value of the attribute [a]. *)
Definition attr_val (a : test_attr_ids) (v : ujson_val) (b : ujson_reader) : Prop :=
  type v = kind_type (kind_of a) ∧ typed_val v ∧ here v b ∧ a ≠ MIN_KVER.

Lemma found_test v b a :
  found test_attrs v b → type v ≠ UJSON_VOID → idx v ≫= (test_ids !!.) = Some a → err b = [] → attr_val a v b.
Proof.
  intros F Hne Ha E. apply bind_Some in Ha as (n & Hn & Ha).
  destruct (found_type test_attrs v b n (kind_type (kind_of a)) F Hne Hn) as (T & Ty & Hh); [by apply test_attr_type|by destruct a..|done|].
  split_and!; [done..|]. intros ->. destruct (F E Hne n Hn) as (_ & _ & _ & [key Hk] & _).
  apply (min_kver_missed key). rewrite Hk. do 2 f_equal. clear -Ha. do 32 (destruct n as [|n]; [done|]). done.
Qed.

Section Meta.
Context (junk : uval → Z).

Section Attr.
Context (a : test_attr_ids) (t : tst_test) (v : ujson_val) (b : ujson_reader).
Context (Hs : st_ok v b) (HI : err b = [] → test_typed t) (HA : err b = [] → attr_val a v b).

Lemma set_member_safe m v' b' :
  st_ok v' b' → adv b b' → (err b' = [] → member_typed (kind_of a) m) → post (goes test_typed) b' (set_member a m t v' b').
Proof.
  intros Hs' A Hm. apply post_ret; [done|done|]. intros E a' m' Ha'. pose proof (err_back _ _ A E) as E0.
  destruct (decide (a = a')) as [<-|Hne].
  - rewrite lookup_insert_eq in Ha'. injection Ha' as <-. split; [|by apply Hm]. by apply HA.
  - rewrite lookup_insert_ne in Ha' by done. by apply (HI E0).
Qed.

Lemma set_bool_safe bits : 0 < bits → kind_of a = KFlag → post (goes test_typed) b (set_bool junk a bits t v b).
Proof.
  intros Hb Hk. apply set_member_safe; [done..|]. intros E. destruct (HA E) as (T & Ty & _). rewrite Hk in T |- *.
  unfold typed_val in Ty. rewrite T in Ty. cbn in Ty. destruct Ty as (z & Ez & Hz). unfold val_bool. rewrite Ez. cbn.
  assert (2 ^ 1 ≤ 2 ^ bits) by (apply Z.pow_le_mono_r; lia). rewrite wrapu_small; lia.
Qed.

Lemma set_pos_safe conv msg max :
  kind_of a = KPos max → msg ≠ [] → (∀ z, 0 < z < 2 ^ 63 → least max ≤ conv z ≤ max) →
  post (goes test_typed) b (set_pos junk a conv msg t v b).
Proof.
  intros Hk Hm Hconv. unfold set_pos. destruct (Z.leb_spec (val_int junk v) 0) as [L|L]; [by apply post_err|].
  apply set_member_safe; [done..|]. intros E. destruct (HA E) as (T & Ty & _). rewrite Hk in T |- *.
  unfold typed_val in Ty. rewrite T in Ty. cbn in Ty. destruct Ty as (z & Ez & Hz). unfold val_int in *. rewrite Ez in L |- *.
  apply Hconv. lia.
Qed.

Lemma set_abi_safe :
  kind_of a = KAbi → post (goes test_typed) b
    (if (val_int junk v =? 32) || (val_int junk v =? 64) then set_member a (MInt (wraps 32 (val_int junk v))) t v b
     else LRet (Next t, v, ujson_err (str "ABI bits must be 32 or 64") b)).
Proof.
  intros Hk. destruct (_ || _) eqn:E; [|by apply post_err]. apply set_member_safe; [done..|]. intros _. rewrite Hk.
  apply orb_true_iff in E as [E|E]; apply Z.eqb_eq in E as ->; [by left|by right].
Qed.

Lemma set_str_safe : kind_of a = KStr → post (goes test_typed) b (set_str a t v b).
Proof. intros Hk. apply strdup_safe; [done|]. intros s Hfit. apply set_member_safe; [done..|]. intros _. by rewrite Hk. Qed.

(** An array: [parse] is safe where its reading can start again. *)
Lemma set_arr_safe {X} (parse : ujson_val → ujson_reader → lres (option X * ujson_val * ujson_reader)) (Q : X → Prop) (wrap : option X → member) :
  kind_type (kind_of a) = UJSON_ARR → (st_ok v b → (err b = [] → sub_off b = off b) → post (some_with Q) b (parse v b)) →
  (∀ o, some_with Q o → member_typed (kind_of a) (wrap o)) →
  post (goes test_typed) b ('(l, v, r) ← parse v b; set_member a (wrap l) t v r).
Proof.
  intros Hk Hp Hw. eapply post_then.
  - apply Hp; [done|]. intros E. destruct (HA E) as (T & _ & Hh & _). apply Hh. right. congruence.
  - intros o v1 b1 Hs1 A1 HQ1. cbn beta iota. apply set_member_safe; [done|done|]. intros E. by apply Hw, HQ1.
Qed.
End Attr.

Lemma wrapu32_least z : least (2 ^ 32 - 1) ≤ wrapu 32 z ≤ 2 ^ 32 - 1.
Proof. pose proof (wrapu_range 32 z). change (least (2 ^ 32 - 1)) with 0. lia. Qed.

Lemma wraps32_least z : least (2 ^ 31 - 1) ≤ wraps 32 z ≤ 2 ^ 31 - 1.
Proof. pose proof (wraps_range 32 z). change (least (2 ^ 31 - 1)) with (- 2 ^ 31). change (32 - 1) with 31 in *. lia. Qed.

Lemma wrapu64_least z : 0 < z < 2 ^ 63 → least (2 ^ 63 - 1) ≤ wrapu 64 z ≤ 2 ^ 63 - 1.
Proof. intros. change (least (2 ^ 63 - 1)) with 1. rewrite wrapu_small; lia. Qed.

Lemma meta_body_safe : body_safe test_typed (found test_attrs) (meta_body junk).
Proof.
  intros t v b Hs HI F Hne. unfold meta_body. destruct (idx v ≫= _) as [a|] eqn:Ea; [|by apply post_ret].
  pose proof (found_test v b a F Hne Ea) as HA. clear Ea F.
  destruct a; cbn [set_attr]; first
    [ by apply set_bool_safe
    | by eapply set_pos_safe; [..|intros z _; apply wrapu32_least]
    | by eapply set_pos_safe; [..|intros z _; apply wraps32_least]
    | by eapply set_pos_safe; [..|apply wrapu64_least]
    | by apply set_abi_safe
    | by apply set_str_safe
    | by eapply set_arr_safe; [..|apply parse_strarr_safe|]
    | by eapply set_arr_safe; [..|apply parse_filesystems_safe|]
    | by eapply set_arr_safe; [..|apply parse_cmds_safe|]
    | by eapply set_arr_safe; [..|apply parse_tags_safe|]
    | by eapply set_arr_safe; [..|apply parse_save_restore_safe|] ].
Qed.

Lemma parse_metadata_typed md :
  match parse_metadata junk md with
  | LRet t => test_typed t
  | LBrk msg => msg = str "Invalid metadata"
  | LWild | LOver => True
  | LUB => False
  end.
Proof.
  unfold parse_metadata.
  assert (post (goes test_typed) (UJSON_READER_INIT md true)
    (obj_foreach_filter test_attrs (meta_body junk) (∅ : tst_test) (UJSON_VAL_INIT STR_BUF) (UJSON_READER_INIT md true))) as H.
  { apply obj_foreach_safe; [apply meta_body_safe| |].
    - split_and!; [|done|done|cbn; lia]. split; [cbn; unfold STR_BUF; lia|done].
    - intros _ a m Ha. by rewrite lookup_empty in Ha. }
  destruct (obj_foreach_filter _ _ _ _ _) as [[[f v] b]| | | |]; try done. destruct H as ((_ & _ & _ & O) & _ & HQ). lbind.
  destruct (finish_spec b O) as (b' & -> & A'). cbn [ldef]. lbind. destruct (ujson_reader_err b') eqn:E; [done|].
  apply reader_err_false in E. specialize (HQ (err_back _ _ A' E)). by destruct f.
Qed.
End Meta.

(** ** The script *)

Lemma fgets_go_length n file l rest : fgets_go n file = (l, rest) → (length l ≤ n)%nat ∧ (length rest + length l = length file)%nat.
Proof.
  revert file l rest. induction n as [|n IH]; intros [|c file] l rest; cbn; try (intros [= <- <-]; cbn; lia).
  destruct (c =? 10); [intros [= <- <-]; cbn; lia|]. destruct (fgets_go n file) as [l' r'] eqn:E. intros [= <- <-].
  apply IH in E. cbn. lia.
Qed.

Lemma fgets_length n file l rest :
  (1 < n)%nat → fgets n file = Some (l, rest) → (length l < n ∧ length rest < length file)%nat.
Proof.
  intros Hn. unfold fgets. destruct file as [|c file]; [done|]. destruct n as [|[|n]]; [lia..|]. intros [= E].
  pose proof (fgets_go_length (S n) (c :: file) l rest E) as [H1 H2].
  assert (0 < length l)%nat; [|cbn in *; lia]. destruct (c =? 10); [injection E as <- <-; cbn; lia|].
  destruct (fgets_go n file). injection E as <- <-. cbn. lia.
Qed.

Lemma length_c_str s : (length (c_str s) ≤ length s)%nat.
Proof. induction s as [|c s IH]; cbn; [done|]. destruct (c =? 0); cbn; lia. Qed.

(** The buffer of the metadata and the text in it, with its terminator. *)
Definition md_ok (md : metadata) : Prop := (length (md_text md) ≤ md_size md)%nat.

Lemma append_safe line md :
  (length line < 4096)%nat → md_ok md → ∃ md', metadata_append line md = LRet md' ∧ md_ok md'.
Proof.
  intros Hl Hmd. unfold metadata_append, md_ok in *.
  set (size := if (md_size md - length (md_text md) <? length line + 1)%nat then (md_size md + 4096)%nat else md_size md).
  assert (length (md_text md) + length line + 1 ≤ size)%nat as Hsize.
  { unfold size. destruct (Nat.ltb_spec (md_size md - length (md_text md)) (length line + 1)); lia. }
  destruct (Nat.ltb_spec (size - length (md_text md)) (length line + 1)); [lia|].
  eexists. split; [done|]. cbn. rewrite length_app. lia.
Qed.

(** A line of the file leaves the loop in a state or ends it with a message. *)
Lemma extract_line_safe path lineno line st md :
  length line = LINE → md_ok md →
  (∃ st' md', extract_line path lineno line st md = LRet (st', md') ∧ md_ok md') ∨ ∃ msg, extract_line path lineno line st md = LBrk msg.
Proof.
  intros Hl Hmd. unfold extract_line. destruct st; repeat case_match; eauto.
  destruct (append_safe (c_str (drop 2 line)) md) as (md' & -> & Hmd'); [|done|left; by eexists _, _].
  pose proof (length_c_str (drop 2 line)) as H'. rewrite length_drop, Hl in H'. unfold LINE in *. lia.
Qed.

Lemma extract_loop_safe fuel path file line lineno st md :
  (length file < fuel)%nat → length line = LINE → md_ok md →
  (∃ md', extract_loop fuel path file line lineno st md = LRet md') ∨ ∃ msg, extract_loop fuel path file line lineno st md = LBrk msg.
Proof.
  revert file line lineno st md. induction fuel as [|fuel IH]; intros file line lineno st md Hf Hl Hmd; [lia|]. cbn [extract_loop].
  destruct (fgets LINE file) as [[l rest]|] eqn:E; [|left; by eexists].
  destruct (fgets_length LINE file l rest) as [Hll Hrest]; [unfold LINE; lia|done|].
  assert (length (fgets_over l line) = LINE) as Hl'.
  { unfold fgets_over. rewrite !length_app, length_drop, Hl. change (length [0]) with 1%nat. lia. }
  destruct (extract_line_safe path lineno (fgets_over l line) st md Hl' Hmd) as [(st' & md' & -> & Hmd')|[msg ->]]; [|right; by eexists].
  lbind. apply IH; [lia|done|done].
Qed.

