(* ===== verification/RunShellDemo.v ===== *)
(** * A shell test for the loader

    A script on which the theorem about the loader applies, and metadata that
    it does not handle as they are meant. *)

From stdpp Require Import gmap.
From S2P Require Import Prelude UjsonReader UjsonWriter UjsonRoundtrip RunShell RunShellFacts RunShellSafe.
Open Scope Z_scope.

(** ** A script *)

Definition jstr (s : string) : jval := JStr (str s).
Definition jarr (l : list jval) : jval := JCont InArr (foldr (JCons []) JNil l).
Definition jobj (l : list (string * jval)) : jmems := foldr (λ p, JCons (str p.1) p.2) JNil l.

Definition demo_meta : jmems :=
  jobj [("needs_root", JBool true); ("tcnt", JInt 2);
        ("needs_cmds", jarr [JCont InObj (jobj [("cmd", jstr "ls"); ("optional", JInt 1)])]);
        ("tags", jarr [jarr [jstr "CVE"; jstr "2024-1"]]);
        ("filesystems", jarr [JCont InObj (jobj [("type", jstr "ext4"); ("mnt_flags", jarr [jstr "RDONLY"; jstr "NOSUID"])])]);
        ("save_restore", jarr [jarr [jstr "/proc/sys/kernel/tainted"; JNull; jstr "SKIP"]]);
        ("tcnt", JInt 3)].

Fixpoint split_lines (cur s : list Z) : list (list Z) :=
  match s with
  | [] => [cur]
  | c :: s => if c =? 10 then cur :: split_lines [] s else split_lines (cur ++ [c]) s
  end.

Definition demo_script : list block :=
  [Plain (str "#!/bin/sh"); Plain (str "#"); Doc [str "# A test."; str "#"];
   Env ((λ l, str "# " ++ l) <$> split_lines [] (vtext 0 (JCont InObj demo_meta))); Plain (str ". tst_loader.sh"); Plain []].

Definition demo_test : tst_test :=
  <[TCNT := MInt 3]>
  (<[SAVE_RESTORE := MPaths (Some [mk_pv (str "/proc/sys/kernel/tainted") None TST_SR_SKIP])]>
  (<[FILESYSTEMS := MFs (Some [mk_fs (Some (str "ext4")) None None None 3 None])]>
  (<[TAGS := MTags (Some [mk_tag (Some (str "CVE")) (Some (str "2024-1"))])]>
  (<[NEEDS_CMDS := MCmds (Some [mk_cmd (Some (str "ls")) (Some 1)])]>
  (<[TCNT := MInt 2]> (<[NEEDS_ROOT := MInt 1]> ∅)))))).

#[local] Instance block_ok_dec b : Decision (block_ok b).
Proof. destruct b; cbn; unfold block_line, line_ok; apply _. Defined.


Definition typed_script : list Z := str "# ---" ++ [10] ++ str "# env" ++ [10] ++ str "# {" ++ [cDQ] ++ str "tcnt" ++ [cDQ] ++ str ": 2}" ++ [10] ++ str "# ---" ++ [10].


(** ** What the loader does not handle *)

Definition meta1 (key : string) (value : list Z) : list Z := str "{" ++ [cDQ] ++ str key ++ [cDQ] ++ str ": " ++ value ++ str "}".

(** The attribute min_kver stands after min_mem_avail in the table, so that
    the binary search does not find it: metadata with it are rejected. *)
Lemma min_kver_rejected (junk : uval → Z) :
  parse_metadata junk (meta1 "min_kver" ([cDQ] ++ str "5.10" ++ [cDQ])) = LBrk (str "Invalid metadata").
Proof. by_dec. Qed.

(** A number for an attribute that is a string is reported, and then copied
    from as a pointer. *)
Lemma wrong_type_wild (junk : uval → Z) : parse_metadata junk (meta1 "mntpoint" (str "5")) = LWild.
Proof. by_dec. Qed.

(** A number of tests that does not fit an unsigned int passes the check and
    is truncated to 0. *)
Lemma tcnt_truncated (junk : uval → Z) :
  parse_metadata junk (meta1 "tcnt" (str "4294967296")) = LRet (<[TCNT := MInt 0]> ∅).
Proof. by_dec. Qed.

(** A command without the attribute optional leaves the member as malloc
    left it. *)
Lemma optional_uninitialised (junk : uval → Z) :
  parse_metadata junk (meta1 "needs_cmds" (str "[{" ++ [cDQ] ++ str "cmd" ++ [cDQ] ++ str ": " ++ [cDQ] ++ str "ls" ++ [cDQ] ++ str "}]")) =
  LRet (<[NEEDS_CMDS := MCmds (Some [mk_cmd (Some (str "ls")) None])]> ∅).
Proof. by_dec. Qed.

(** The last line of a script that is only the comment sign, in an env block:
    what a longer line left in the buffer after it is appended. *)
Lemma last_line_stale :
  ∃ md, extract_metadata (str "t") (lines_text [str "# ---"; str "# env"; str "# {}"] ++ str "#") [] = LRet md ∧
    md_text md = str "{}" ++ [10] ++ str "{}" ++ [10].
Proof. eexists. split; by vm_compute. Qed.

(** The loop that counts the tags does not see the end of a string with a NUL
    escape in it: it goes on in the middle of the string and takes the bracket
    there for the end of the tags.  The loop that stores them writes past the
    array. *)
Lemma tags_overrun (junk : uval → Z) :
  let q s := [cDQ] ++ str s ++ [cDQ] in
  parse_metadata junk (meta1 "tags" (str "[[" ++ q "\u0000] "%string ++ str "], [" ++ q "b"%string ++ str "], [" ++ q "c"%string ++ str "]]")) = LOver.
Proof. by_dec. Qed.
