(* ===== verification/MetaparseShDemo.v ===== *)
(** * Shell tests for metaparse-sh

    A script on which the theorem applies, and scripts that are not written
    as they are meant. *)

From stdpp Require Import gmap.
From S2P Require Import Prelude UjsonUtf UjsonReader UjsonWriter UjsonWriterFacts UjsonRoundtrip DataStorage DataStorageFacts.
From S2P Require Import Metaparse MetaparseSh RunShell RunShellFacts MetaparseShFacts RunShellDemo.
Open Scope Z_scope.

Definition demo_members : list (list Z * jval) := [(str "needs_root", JBool true); (str "tcnt", JInt 2); (str "mntpoint", jstr "/mnt")].

Definition demo_env : list (list Z) := (λ l, str "# " ++ l) <$> take 3 (drop 1 (split_lines [] (vtext 0 (JCont InObj (mems demo_members))))).

Definition demo_blocks : list sblock :=
  [SPlain (str "#!/bin/sh"); SPlain (str "#"); SDoc [str "# A test."; str "#"]; SEnv demo_env; SPlain []; SPlain (str ". tst_loader.sh")].

Definition demo_docs : list (list (list Z * jval)) :=
  [[]; []; [(str "doc", jarr [jstr "A test."; jstr ""])]; demo_members; []; []].

#[local] Instance sblock_ok_dec b : Decision (sblock_ok b).
Proof. destruct b; cbn; unfold block_line, line_ok; apply _. Defined.

Lemma demo_docs_ok : Forall2 (block_json true) demo_blocks demo_docs.
Proof.
  repeat constructor; try done. assert (env_object demo_env = vtext 0 (JCont InObj (mems demo_members))) as -> by (by vm_compute).
  eapply (vtext_is_text (λ n, n < STR_BUF)%nat), (jwfb_sound STR_BUF). by vm_compute.
Qed.


(** ** What is not handled *)

Definition sh_lines_text (ls : list string) : list Z := lines_text (str <$> ls).

Definition demo_parse (ls : list string) : res (bool * list Z) :=
  parse_shell true (λ _, Some (sh_lines_text ls)) (replicate 4096 65) (str "t.sh") false.

Definition object_text (members : list Z) : list Z :=
  str "   " ++ [cDQ] ++ str "t.sh" ++ [cDQ] ++ str ": {" ++ [10] ++ members ++ json_finish (str "t.sh") true.

Definition quoted (pad s : string) : list Z := str pad ++ [cDQ] ++ str s ++ [cDQ].

(** A line of a doc block that is empty is printed as what the buffer holds
    after its start, which is the line before it. *)
Lemma empty_doc_line :
  demo_parse ["# ---"; "# doc"; "# One line."; ""; "# ---"] =
  Ret (true, object_text (quoted "   " "doc" ++ str ": [" ++ [10] ++ quoted "    " "One line." ++ str "," ++ [10] ++
    quoted "    " "One line." ++ [10] ++ str "   ]," ++ [10])).
Proof. by vm_compute. Qed.

(** The line that ends an env block is taken as the start of another one, so
    that a block right after it is missed. *)
Lemma block_after_env :
  demo_parse ["# ---"; "# env"; "# {"; "# }"; "# ---"; "# ---"; "# doc"; "# One line."; "# ---"] = Ret (true, object_text (str "," ++ [10])).
Proof. by vm_compute. Qed.

(** The name of the file is written for the first file only. *)
Lemma second_file :
  sh_main true (λ _, Some (sh_lines_text ["# ---"; "# doc"; "# ---"])) (replicate 4096 65) [str "t.sh"; str "u.sh"] false =
  (let doc := quoted "   " "doc" ++ str ": [" ++ [10; 10] ++ str "   ]," ++ [10] in Ret (object_text doc ++ doc ++ json_finish (str "u.sh") true)).
Proof. by vm_compute. Qed.
