(* ===== verification/Fsx.v ===== *)
(** * The file system exerciser

    testcases/kernel/fs/fsx-linux/fsx-linux.c: random reads, writes,
    truncations and accesses through mappings of one file, with a copy of its
    content in memory to compare with.  What [random] returns is a stream of
    numbers; the file system answers the requests in any way that depends on
    the requests so far. *)

From S2P Require Import Prelude Bytes.
Open Scope Z_scope.

(** ** The environment *)

(** What was done with the file, with the data that was read or written. *)
Inductive event :=
  | EvRead (offset : Z) (data : list Z)
  | EvWrite (offset : Z) (data : list Z)
  | EvTruncate (size : Z)
  | EvMapRead (offset : Z) (data : list Z)
  | EvMapWrite (offset : Z) (data : list Z).

(** [RWrite] and the others are answered with no data. *)
Inductive request :=
  | RRead (offset size : Z)
  | RWrite (offset : Z) (data : list Z)
  | RTruncate (size : Z)
  | RMap (offset size : Z)
  | RMapWrite (offset : Z) (data : list Z).

(** [None] is a system call that fails. *)
Definition filesystem : Type := list event → request → option (list Z).

(** The options, as [setup] leaves them. *)
Record config := mk_config {
  file_max_size : Z;
  op_write_align : Z;
  op_read_align : Z;
  op_trunc_align : Z;
  op_nums : Z;
  page_size : Z;
}.

(** [drawn] counts the calls of [random]. *)
Record fsx := mk_fsx {
  drawn : nat;
  file_size : Z;
  file_buff : list Z;
  temp_buff : list Z;
  history : list event;
}.

Definition set_drawn (n : nat) (s : fsx) : fsx := mk_fsx n (file_size s) (file_buff s) (temp_buff s) (history s).
Definition set_size (n : Z) (s : fsx) : fsx := mk_fsx (drawn s) n (file_buff s) (temp_buff s) (history s).
Definition set_buffs (fb tb : list Z) (s : fsx) : fsx := mk_fsx (drawn s) (file_size s) fb tb (history s).
Definition set_file_buff (fb : list Z) (s : fsx) : fsx := set_buffs fb (temp_buff s) s.
Definition set_temp_buff (tb : list Z) (s : fsx) : fsx := set_buffs (file_buff s) tb s.
Definition add_event (e : event) (s : fsx) : fsx := mk_fsx (drawn s) (file_size s) (file_buff s) (temp_buff s) (history s ++ [e]).

(** [a % b]. *)
Definition c_rem (a b : Z) : cres Z := if b =? 0 then CUB else CRet (Z.rem a b).

(** [buf[i] = x], and [memset] or [memcpy] of [bs] to [buf + off]. *)
Definition store (i x : Z) (buf : list Z) : cres (list Z) :=
  if (0 <=? i) && (i <? Z.of_nat (length buf)) then CRet (<[Z.to_nat i := x]> buf) else CUB.

Definition store_all (off : Z) (bs buf : list Z) : cres (list Z) :=
  if off <? 0 then CUB else defined (poke (Z.to_nat off) bs buf).

(** The [n] bytes at [buf + off]. *)
Definition load (off n : Z) (buf : list Z) : cres (list Z) :=
  if (off <? 0) || (n <? 0) || (Z.of_nat (length buf) <? off + n) then CUB else CRet (take (Z.to_nat n) (drop (Z.to_nat off) buf)).

Definition zeros (n : Z) : cres (list Z) := if n <? 0 then CUB else CRet (replicate (Z.to_nat n) 0).

(** What a mapping of [n] bytes shows. *)
Definition fit (n : Z) (data : list Z) : list Z := take (Z.to_nat n) (data ++ replicate (Z.to_nat n) 0).

Section Fsx.
Context (fs : filesystem) (rand : nat → Z) (cf : config).

Definition random (s : fsx) : Z * fsx := (rand (drawn s), set_drawn (S (drawn s)) s).

(** A system call through its SAFE_ macro. *)
Definition safe (name : string) (r : request) (s : fsx) : cres (list Z) :=
  match fs (history s) r with
  | Some data => CRet data
  | None => CBrk (Z.lor TBROK TERRNO) (str name ++ str " failed")
  end.

(** ** Positions *)

Record file_pos_t := mk_pos { offset : Z; size : Z }.

Definition op_align_pages (pos : file_pos_t) : cres file_pos_t :=
  pg_offset ← c_rem (offset pos) (page_size cf);
  CRet (mk_pos (offset pos - pg_offset) (size pos + pg_offset)).

Definition op_file_position (fsize align : Z) (s : fsx) : cres (file_pos_t * fsx) :=
  let '(r1, s) := random s in
  off ← c_rem r1 fsize;
  let '(r2, s) := random s in
  sz ← c_rem r2 (fsize - off);
  diff ← c_rem off align;
  let pos := if diff =? 0 then mk_pos off sz else mk_pos (off - diff) (sz + diff) in
  CRet (if size pos =? 0 then mk_pos (offset pos) 1 else pos, s).

Definition update_file_size (pos : file_pos_t) (s : fsx) : fsx :=
  if file_size s <? offset pos + size pos then set_size (offset pos + size pos) s else s.

(** [diff] is not initialised when there is nothing to compare. *)
Fixpoint compare_loop (a b : list Z) (diff : option Z) : cres Z :=
  match a, b with
  | x :: a, y :: b => if x - y =? 0 then compare_loop a b (Some 0) else CRet (x - y)
  | _, _ => defined diff
  end.

Definition memory_compare (a b : list Z) : cres Z := compare_loop a b None.

(** ** Operations: the return value is -1, 0 or 1 *)

Definition op_read (s : fsx) : cres (Z * fsx) :=
  if file_size s =? 0 then CRet (0, s) else
  '(pos, s) ← op_file_position (file_size s) (op_read_align cf) s;
  z ← zeros (file_max_size cf);
  tb ← store_all 0 z (temp_buff s);
  data ← safe "read" (RRead (offset pos) (size pos)) s;
  let data := take (Z.to_nat (size pos)) data in
  tb ← store_all 0 data tb;
  let s := add_event (EvRead (offset pos) data) (set_temp_buff tb s) in
  a ← load (offset pos) (size pos) (file_buff s);
  b ← load 0 (size pos) (temp_buff s);
  ret ← memory_compare a b;
  CRet (if ret =? 0 then 1 else -1, s).

(** The loop over the bytes; the result is what [temp_buff] gets. *)
Fixpoint write_loop (n : nat) (base : Z) (i : Z) (c0 : Z) (s : fsx) : cres fsx :=
  match n with
  | O => CRet s
  | S n =>
      let '(r, s) := random s in
      m ← c_rem r 10;
      let data := m + c0 in
      fb ← store (base + i) data (file_buff s);
      tb ← store i data (temp_buff s);
      write_loop n base (i + 1) c0 (set_buffs fb tb s)
  end.

Definition op_write (s : fsx) : cres (Z * fsx) :=
  if file_max_size cf <=? file_size s then CRet (0, s) else
  '(pos, s) ← op_file_position (file_max_size cf) (op_write_align cf) s;
  s ← write_loop (Z.to_nat (size pos)) (offset pos) 0 ("a"%cc) s;
  data ← load 0 (size pos) (temp_buff s);
  _ ← safe "write" (RWrite (offset pos) data) s;
  CRet (1, update_file_size pos (add_event (EvWrite (offset pos) data) s)).

Definition op_truncate (s : fsx) : cres (Z * fsx) :=
  '(pos, s) ← op_file_position (file_max_size cf) (op_trunc_align cf) s;
  let s := set_size (offset pos + size pos) s in
  _ ← safe "ftruncate" (RTruncate (file_size s)) s;
  let s := add_event (EvTruncate (file_size s)) s in
  z ← zeros (file_max_size cf - file_size s);
  fb ← store_all (file_size s) z (file_buff s);
  CRet (1, set_file_buff fb s).

(** The mapped bytes are copied to [file_buff] before they are compared with
    it. *)
Definition op_map_read (s : fsx) : cres (Z * fsx) :=
  if file_size s =? 0 then CRet (0, s) else
  '(pos, s) ← op_file_position (file_size s) (op_read_align cf) s;
  pos ← op_align_pages pos;
  data ← safe "mmap" (RMap (offset pos) (size pos)) s;
  let addr := fit (size pos) data in
  fb ← store_all (offset pos) addr (file_buff s);
  let s := add_event (EvMapRead (offset pos) addr) (set_file_buff fb s) in
  b ← load (offset pos) (size pos) (file_buff s);
  ret ← memory_compare addr b;
  CRet (if ret =? 0 then 1 else -1, s).

Fixpoint map_write_loop (n : nat) (base : Z) (i : Z) (s : fsx) : cres fsx :=
  match n with
  | O => CRet s
  | S n =>
      let '(r, s) := random s in
      m ← c_rem r 10;
      fb ← store (base + i) (m + "l"%cc) (file_buff s);
      map_write_loop n base (i + 1) (set_file_buff fb s)
  end.

Definition op_map_write (s : fsx) : cres (Z * fsx) :=
  if file_max_size cf <=? file_size s then CRet (0, s) else
  '(pos, s) ← op_file_position (file_max_size cf) (op_write_align cf) s;
  pos ← op_align_pages pos;
  let end_ := offset pos + size pos in
  s ← (if file_size s <? end_ then
         _ ← safe "ftruncate" (RTruncate end_) s;
         CRet (add_event (EvTruncate end_) s)
       else CRet s);
  s ← map_write_loop (Z.to_nat (size pos)) (offset pos) 0 s;
  _ ← safe "mmap" (RMap (offset pos) (size pos)) s;
  data ← load (offset pos) (size pos) (file_buff s);
  _ ← safe "msync" (RMapWrite (offset pos) data) s;
  CRet (1, update_file_size pos (add_event (EvMapWrite (offset pos) data) s)).

(** ** The test *)

Definition OP_READ := 0.
Definition OP_WRITE := 1.
Definition OP_TRUNCATE := 2.
Definition OP_MAPREAD := 3.
Definition OP_MAPWRITE := 4.
Definition OP_TOTAL := 5.

Definition run_op (op : Z) (s : fsx) : cres (Z * fsx) :=
  if op =? OP_WRITE then op_write s
  else if op =? OP_MAPREAD then op_map_read s
  else if op =? OP_MAPWRITE then op_map_write s
  else if op =? OP_TRUNCATE then op_truncate s
  else op_read s.

(** The loop: the counter and the state, or [None] without [fuel]. *)
Fixpoint run_loop (fuel : nat) (counter : Z) (s : fsx) : option (cres (Z * fsx)) :=
  if op_nums cf <=? counter then Some (CRet (counter, s)) else
  match fuel with
  | O => None
  | S fuel =>
      let '(r, s) := random s in
      match (op ← c_rem r OP_TOTAL; run_op op s) with
      | CRet (ret, s) => if ret =? -1 then Some (CRet (counter, s)) else run_loop fuel (counter + ret) s
      | CBrk t m => Some (CBrk t m)
      | CUB => Some CUB
      end
  end.

(** The buffers come from malloc; the first request empties the file. *)
Definition run (fuel : nat) (fb tb : list Z) : option (cres fsx) :=
  match
    (z ← zeros (file_max_size cf);
     fb ← store_all 0 z fb;
     tb ← store_all 0 z tb;
     let s := mk_fsx 0 0 fb tb [] in
     _ ← safe "ftruncate" (RTruncate 0) s;
     CRet (add_event (EvTruncate 0) s))
  with
  | CRet s =>
      r ← run_loop fuel 0 s;
      Some ('(counter, s) ← r;
            if counter =? op_nums cf then CRet s else CBrk TFAIL (str "Some file operations failed"))
  | CBrk t m => Some (CBrk t m)
  | CUB => Some CUB
  end.
End Fsx.
