(* ===== verification/FsxFacts.v ===== *)
(** * The exerciser compares with what the file should hold

    The content of the file after a history, the invariant that [file_buff]
    is this content, and what a passed run says about the file system. *)

From S2P Require Import Prelude Bytes Fsx.
Open Scope Z_scope.

(** ** The file *)

(** Data written at [o] into a file, with a hole before it if needed. *)
Definition put (o : nat) (data c : list Z) : list Z := take o (c ++ replicate o 0) ++ data ++ drop (o + length data) c.

Definition resize (n : nat) (c : list Z) : list Z := take n (c ++ replicate n 0).

Definition slice (o n : nat) (c : list Z) : list Z := take n (drop o c).

Definition apply (c : list Z) (e : event) : list Z :=
  match e with
  | EvRead _ _ | EvMapRead _ _ => c
  | EvWrite off data | EvMapWrite off data => put (Z.to_nat off) data c
  | EvTruncate n => resize (Z.to_nat n) c
  end.

(** What the file holds after a history. *)
Definition content (h : list event) : list Z := foldl apply [] h.

Lemma content_snoc h e : content (h ++ [e]) = apply (content h) e.
Proof. unfold content. by rewrite foldl_app. Qed.

Lemma length_put o data c : length (put o data c) = Nat.max (length c) (o + length data).
Proof. unfold put. rewrite !length_app, length_take, length_app, length_replicate, length_drop. lia. Qed.

Lemma length_resize n c : length (resize n c) = n.
Proof. unfold resize. rewrite length_take, length_app, length_replicate. lia. Qed.

(** The buffer with the content and zeros after it. *)
Definition pad (n : nat) (c : list Z) : list Z := c ++ replicate (n - length c) 0.

Lemma lookup_pad n c i : (length c ≤ n)%nat → pad n c !! i = if decide (i < n)%nat then Some (default 0 (c !! i)) else None.
Proof.
  intros Hc. unfold pad. destruct (decide (i < length c)%nat) as [L|L].
  - rewrite lookup_app_l, decide_True by lia. destruct (lookup_lt_is_Some_2 c i L) as [x ->]. done.
  - rewrite lookup_app_r, (lookup_ge_None_2 c i) by lia. destruct (decide (i < n)%nat).
    + by rewrite lookup_replicate_2 by lia.
    + rewrite lookup_ge_None_2; [done|]. rewrite length_replicate. lia.
Qed.

Lemma lookup_poke o data buf buf' i :
  poke o data buf = Some buf' →
  buf' !! i = if decide (o ≤ i < o + length data)%nat then data !! (i - o)%nat else buf !! i.
Proof.
  unfold poke. destruct (Nat.leb_spec (o + length data) (length buf)) as [L|]; [|done]. intros [= <-].
  destruct (decide (i < o)%nat).
  - rewrite decide_False by lia. rewrite lookup_app_l by (rewrite length_take; lia). by rewrite lookup_take_lt.
  - rewrite lookup_app_r by (rewrite length_take; lia). rewrite length_take, Nat.min_l by lia. destruct (decide _) as [D|D].
    + by rewrite lookup_app_l by lia.
    + rewrite lookup_app_r by lia. rewrite lookup_drop. f_equal. lia.
Qed.

Lemma default_put o data c i :
  default 0 (put o data c !! i) = if decide (o ≤ i < o + length data)%nat then default 0 (data !! (i - o)%nat) else default 0 (c !! i).
Proof.
  unfold put. assert (length (take o (c ++ replicate o 0)) = o) as Hl by (rewrite length_take, length_app, length_replicate; lia).
  destruct (decide (i < o)%nat).
  - rewrite decide_False by lia. rewrite lookup_app_l by lia. rewrite lookup_take_lt by done. destruct (decide (i < length c)%nat).
    + by rewrite lookup_app_l.
    + rewrite lookup_app_r, (lookup_ge_None_2 c i) by lia. by rewrite lookup_replicate_2 by lia.
  - rewrite lookup_app_r, Hl by lia. destruct (decide _) as [D|D].
    + by rewrite lookup_app_l by lia.
    + rewrite lookup_app_r by lia. rewrite lookup_drop. do 2 f_equal. lia.
Qed.

Lemma default_resize n c i : default 0 (resize n c !! i) = if decide (i < n)%nat then default 0 (c !! i) else 0.
Proof.
  unfold resize. destruct (decide (i < n)%nat); [|by rewrite lookup_take_ge by lia]. rewrite lookup_take_lt by done.
  destruct (decide (i < length c)%nat); [by rewrite lookup_app_l|]. rewrite lookup_app_r, (lookup_ge_None_2 c i) by lia.
  by rewrite lookup_replicate_2 by lia.
Qed.

(** Writing into the buffer is writing into the file. *)
Lemma poke_pad n o data c :
  (length c ≤ n)%nat → (o + length data ≤ n)%nat → poke o data (pad n c) = Some (pad n (put o data c)).
Proof.
  intros Hc Ho. assert (length (pad n c) = n) as Hp by (unfold pad; rewrite length_app, length_replicate; lia).
  destruct (poke_ok o data (pad n c)) as [b Eb]; [lia|]. rewrite Eb. f_equal. apply list_eq. intros i.
  rewrite (lookup_poke _ _ _ _ i Eb), !lookup_pad by (rewrite ?length_put; lia). rewrite default_put.
  destruct (decide (o ≤ i < o + length data)%nat) as [D|D]; [|done]. rewrite decide_True by lia.
  destruct (lookup_lt_is_Some_2 data (i - o)) as [x ->]; [lia|done].
Qed.

(** Truncation clears the rest of the buffer. *)
Lemma poke_zeros n k c :
  (length c ≤ n)%nat → (k ≤ n)%nat → poke k (replicate (n - k) 0) (pad n c) = Some (pad n (resize k c)).
Proof.
  intros Hc Hk. assert (length (pad n c) = n) as Hp by (unfold pad; rewrite length_app, length_replicate; lia).
  destruct (poke_ok k (replicate (n - k) 0) (pad n c)) as [b Eb]; [rewrite length_replicate; lia|]. rewrite Eb. f_equal. apply list_eq. intros i.
  rewrite (lookup_poke _ _ _ _ i Eb), !lookup_pad by (rewrite ?length_resize; lia). rewrite default_resize, length_replicate.
  destruct (decide (k ≤ i < k + (n - k))%nat) as [D|D].
  - rewrite lookup_replicate_2 by lia. rewrite decide_True, decide_False by lia. done.
  - destruct (decide (i < n)%nat); [|done]. by rewrite decide_True by lia.
Qed.

Lemma slice_pad n o k c : (o + k ≤ length c)%nat → slice o k (pad n c) = slice o k c.
Proof. intros H. unfold slice, pad. rewrite drop_app_le by lia. rewrite take_app_le; [done|]. rewrite length_drop. lia. Qed.

(** Extending the file with zeros does not change the buffer. *)
Lemma pad_extend n k c : (length c ≤ k ≤ n)%nat → pad n (resize k c) = pad n c.
Proof.
  intros H. apply list_eq. intros i. rewrite !lookup_pad by (rewrite ?length_resize; lia). rewrite default_resize.
  destruct (decide (i < n)%nat); [|done]. f_equal. destruct (decide (i < k)%nat); [done|]. by rewrite (lookup_ge_None_2 c i) by lia.
Qed.

(** What is in the buffer already can be written to the file. *)
Lemma put_slice n o k c : (length c ≤ n)%nat → (o + k ≤ n)%nat → pad n (put o (slice o k (pad n c)) c) = pad n c.
Proof.
  intros Hc Ho. assert (length (pad n c) = n) as Hp by (unfold pad; rewrite length_app, length_replicate; lia).
  assert (length (slice o k (pad n c)) = k) as Hk by (unfold slice; rewrite length_take, length_drop; lia).
  apply list_eq. intros i. rewrite !lookup_pad by (rewrite ?length_put; lia). rewrite default_put, Hk.
  destruct (decide (i < n)%nat); [|done]. f_equal. destruct (decide _) as [D|D]; [|done]. unfold slice. rewrite lookup_take_lt, lookup_drop by lia.
  replace (o + (i - o))%nat with i by lia. rewrite lookup_pad by done. by rewrite decide_True.
Qed.

(** ** Operations *)

Ltac fsx_cbn := unfold add_event, set_size, set_file_buff, set_temp_buff, set_buffs, set_drawn in *; cbn [drawn file_size file_buff temp_buff history] in *.

Definition config_ok (cf : config) : Prop :=
  1 ≤ file_max_size cf ∧ 1 ≤ op_write_align cf ∧ 1 ≤ op_read_align cf ∧ 1 ≤ op_trunc_align cf ∧ 1 ≤ page_size cf ∧ 0 ≤ op_nums cf.

Section Ops.
Context (fs : filesystem) (rand : nat → Z) (cf : config) (Hrand : ∀ i, 0 ≤ rand i) (Hcf : config_ok cf).

(** A result, or a system call that fails. *)
Definition ends {A} (Q : A → Prop) (x : cres A) : Prop :=
  match x with CRet a => Q a | CBrk _ _ => ∃ h r, fs h r = None | CUB => False end.

Lemma ends_bind {A B} (Q : A → Prop) (R : B → Prop) x (f : A → cres B) : ends Q x → (∀ a, Q a → ends R (f a)) → ends R (x ≫= f).
Proof. destruct x; cbn; auto. Qed.

Lemma safe_ends name r s : ends (λ d, fs (history s) r = Some d) (safe fs name r s).
Proof. unfold safe. destruct (fs (history s) r) eqn:E; [done|]. by exists (history s), r. Qed.

Lemma c_rem_spec a b : 0 ≤ a → 0 < b → ∃ r, c_rem a b = CRet r ∧ 0 ≤ r < b ∧ r ≤ a.
Proof.
  intros Ha Hb. exists (Z.rem a b). unfold c_rem. rewrite (proj2 (Z.eqb_neq b 0)) by lia. rewrite Z.rem_mod_nonneg by lia.
  pose proof (Z.mod_pos_bound a b). pose proof (Z.mod_le a b). split_and!; [done|lia|lia|lia].
Qed.

(** A position within the first [fsize] bytes. *)
Definition within (fsize : Z) (pos : file_pos_t) : Prop := 0 ≤ offset pos ∧ 1 ≤ size pos ∧ offset pos + size pos ≤ fsize.

Lemma position_spec fsize align s :
  0 < fsize → 0 < align → ∃ pos, op_file_position rand fsize align s = CRet (pos, set_drawn (S (S (drawn s))) s) ∧ within fsize pos.
Proof.
  intros Hf Ha. unfold op_file_position, random. cbn [drawn set_drawn].
  destruct (c_rem_spec (rand (drawn s)) fsize (Hrand _) Hf) as (o & -> & Ho & _). rewrite cbind_Ret.
  destruct (c_rem_spec (rand (S (drawn s))) (fsize - o)) as (k & -> & Hk & _); [done|lia|]. rewrite cbind_Ret.
  destruct (c_rem_spec o align) as (d & -> & Hd & Hdo); [lia|done|]. rewrite cbind_Ret. eexists. split; [done|].
  destruct (Z.eqb_spec d 0); cbn [offset size]; [destruct (Z.eqb_spec k 0)|destruct (Z.eqb_spec (k + d) 0)]; split_and!; cbn [offset size]; lia.
Qed.

Lemma align_pages_spec fsize pos : within fsize pos → ∃ pos', op_align_pages cf pos = CRet pos' ∧ within fsize pos'.
Proof.
  intros (Ho & Hk & Hs). unfold op_align_pages. destruct Hcf as (_ & _ & _ & _ & Hp & _).
  destruct (c_rem_spec (offset pos) (page_size cf)) as (d & -> & Hd & Hdo); [done|lia|]. rewrite cbind_Ret. eexists. split; [done|].
  split_and!; cbn [offset size]; lia.
Qed.

(** The sizes of the buffers. *)
Definition N : nat := Z.to_nat (file_max_size cf).

Definition sized (s : fsx) : Prop := length (file_buff s) = N ∧ length (temp_buff s) = N ∧ 0 ≤ file_size s ≤ file_max_size cf.

Lemma store_all_spec off bs buf :
  0 ≤ off → (Z.to_nat off + length bs ≤ length buf)%nat → ∃ b, store_all off bs buf = CRet b ∧ poke (Z.to_nat off) bs buf = Some b.
Proof.
  intros H0 Hl. unfold store_all. destruct (Z.ltb_spec off 0); [lia|]. destruct (poke_ok (Z.to_nat off) bs buf Hl) as [b Eb]. rewrite Eb. by exists b.
Qed.

Lemma load_spec off n buf :
  0 ≤ off → 0 ≤ n → off + n ≤ Z.of_nat (length buf) → load off n buf = CRet (slice (Z.to_nat off) (Z.to_nat n) buf).
Proof. intros. unfold load. destruct (Z.ltb_spec off 0), (Z.ltb_spec n 0), (Z.ltb_spec (Z.of_nat (length buf)) (off + n)); try lia. done. Qed.

Lemma store_spec i x buf : 0 ≤ i < Z.of_nat (length buf) → store i x buf = CRet (<[Z.to_nat i := x]> buf).
Proof. intros H. unfold store. by rewrite (proj2 (Z.leb_le _ _)), (proj2 (Z.ltb_lt _ _)) by lia. Qed.

Lemma memory_compare_spec a b : length a = length b → a ≠ [] → ∃ d, memory_compare a b = CRet d ∧ (d = 0 ↔ a = b).
Proof.
  intros Hl Hne. unfold memory_compare. assert (∀ d0 : option Z, a ≠ [] ∨ d0 = Some 0 → ∃ d, compare_loop a b d0 = CRet d ∧ (d = 0 ↔ a = b)) as H; [|by apply H; left].
  clear Hne. revert b Hl. induction a as [|x a IH]; intros [|y b] Hl d0 Hd; cbn in Hl; try lia; cbn [compare_loop].
  - destruct Hd as [?| ->]; [done|]. exists 0. done.
  - destruct (Z.eqb_spec (x - y) 0) as [E|E].
    + destruct (IH b ltac:(lia) (Some 0)) as (d & -> & Hd'); [by right|]. exists d. split; [done|]. rewrite Hd'. assert (x = y) as -> by lia.
      split; [by intros ->|by intros [= ->]].
    + exists (x - y). split; [done|]. split; [done|]. intros [= -> _]. lia.
Qed.

(** One store after the other is one [memcpy]. *)
Lemma poke_insert o x data buf buf' : (o < length buf)%nat → poke (S o) data (<[o := x]> buf) = Some buf' → poke o (x :: data) buf = Some buf'.
Proof.
  unfold poke. intros Ho. rewrite length_insert. cbn [length]. rewrite !Nat.add_succ_r. cbn [Nat.add]. destruct (_ <=? _)%nat; [|done]. intros [= <-].
  f_equal. rewrite drop_insert_lt by lia. rewrite (take_S_r _ o x) by (by apply list_lookup_insert_eq). rewrite take_insert_ge by lia. by rewrite <- app_assoc.
Qed.

Lemma write_loop_spec n base i c0 s :
  0 ≤ base → 0 ≤ i → (Z.to_nat (base + i) + n ≤ length (file_buff s))%nat → (Z.to_nat i + n ≤ length (temp_buff s))%nat →
  ∃ data fb tb, write_loop rand n base i c0 s = CRet (mk_fsx (drawn s + n) (file_size s) fb tb (history s)) ∧ length data = n ∧
    poke (Z.to_nat (base + i)) data (file_buff s) = Some fb ∧ poke (Z.to_nat i) data (temp_buff s) = Some tb.
Proof.
  intros Hb. revert i s. induction n as [|n IH]; intros i s Hi Hf Ht; cbn [write_loop].
  - exists [], (file_buff s), (temp_buff s). rewrite Nat.add_0_r. split_and!; [by destruct s|done| |].
    + unfold poke. cbn [length]. rewrite (proj2 (Nat.leb_le _ _)) by lia. cbn [app]. by rewrite Nat.add_0_r, take_drop.
    + unfold poke. cbn [length]. rewrite (proj2 (Nat.leb_le _ _)) by lia. cbn [app]. by rewrite Nat.add_0_r, take_drop.
  - unfold random. destruct (c_rem_spec (rand (drawn s)) 10 (Hrand _)) as (m & -> & _); [lia|]. rewrite cbind_Ret. cbn zeta. cbn [file_buff temp_buff set_drawn].
    rewrite (store_spec (base + i)), cbind_Ret by lia. rewrite (store_spec i), cbind_Ret by lia.
    destruct (IH (i + 1) (set_buffs (<[Z.to_nat (base + i):=m + c0]> (file_buff s)) (<[Z.to_nat i:=m + c0]> (temp_buff s)) (set_drawn (S (drawn s)) s)))
      as (data & fb & tb & -> & Hl & Ef & Et); [lia|cbn; rewrite length_insert; lia|cbn; rewrite length_insert; lia|].
    cbn [file_buff temp_buff set_buffs set_drawn drawn file_size history] in *. exists (m + c0 :: data), fb, tb. split_and!.
    + do 2 f_equal. lia.
    + cbn. lia.
    + apply poke_insert; [lia|]. by replace (S (Z.to_nat (base + i))) with (Z.to_nat (base + (i + 1))) by lia.
    + apply poke_insert; [lia|]. by replace (S (Z.to_nat i)) with (Z.to_nat (i + 1)) by lia.
Qed.

Lemma map_write_loop_spec n base i s :
  0 ≤ base → 0 ≤ i → (Z.to_nat (base + i) + n ≤ length (file_buff s))%nat →
  ∃ data fb, map_write_loop rand n base i s = CRet (mk_fsx (drawn s + n) (file_size s) fb (temp_buff s) (history s)) ∧ length data = n ∧
    poke (Z.to_nat (base + i)) data (file_buff s) = Some fb.
Proof.
  intros Hb. revert i s. induction n as [|n IH]; intros i s Hi Hf; cbn [map_write_loop].
  - exists [], (file_buff s). rewrite Nat.add_0_r. split_and!; [by destruct s|done|].
    unfold poke. cbn [length]. rewrite (proj2 (Nat.leb_le _ _)) by lia. cbn [app]. by rewrite Nat.add_0_r, take_drop.
  - unfold random. destruct (c_rem_spec (rand (drawn s)) 10 (Hrand _)) as (m & -> & _); [lia|]. rewrite cbind_Ret. cbn [file_buff temp_buff set_drawn].
    rewrite store_spec, cbind_Ret by lia.
    destruct (IH (i + 1) (set_file_buff (<[Z.to_nat (base + i):=m + "l"%cc]> (file_buff s)) (set_drawn (S (drawn s)) s)))
      as (data & fb & -> & Hl & Ef); [lia|cbn; rewrite length_insert; lia|].
    cbn [file_buff temp_buff set_file_buff set_buffs set_drawn drawn file_size history] in *. exists (m + "l"%cc :: data), fb. split_and!.
    + do 2 f_equal. lia.
    + cbn. lia.
    + apply poke_insert; [lia|]. by replace (S (Z.to_nat (base + i))) with (Z.to_nat (base + (i + 1))) by lia.
Qed.

Lemma zeros_spec n : 0 ≤ n → zeros n = CRet (replicate (Z.to_nat n) 0).
Proof. intros H. unfold zeros. by destruct (Z.ltb_spec n 0); [lia|]. Qed.

Lemma length_slice o k (l : list Z) : (o + k ≤ length l)%nat → length (slice o k l) = k.
Proof. intros H. unfold slice. rewrite length_take, length_drop. lia. Qed.

(** What an operation does, for any answers of the file system: nothing; a
    read, whose result is whether the data is what [file_buff] has, up to the
    end of a short read; the others, which succeed. *)
Inductive step (s : fsx) : Z → fsx → Prop :=
  | step_skip : step s 0 s
  | step_read n o k answer tb (ret : Z) :
      fs (history s) (RRead (Z.of_nat o) (Z.of_nat k)) = Some answer → length tb = N → (0 < k)%nat → Z.of_nat (o + k) ≤ file_size s →
      (ret = 1 ∧ slice o k (file_buff s) = take k answer ++ replicate (k - length (take k answer)) 0 ∨
       ret = -1 ∧ slice o k (file_buff s) ≠ take k answer ++ replicate (k - length (take k answer)) 0) →
      step s ret (mk_fsx n (file_size s) (file_buff s) tb (history s ++ [EvRead (Z.of_nat o) (take k answer)]))
  | step_write n o data fb tb :
      length tb = N → (o + length data ≤ N)%nat → poke o data (file_buff s) = Some fb →
      step s 1 (mk_fsx n (Z.max (file_size s) (Z.of_nat (o + length data))) fb tb (history s ++ [EvWrite (Z.of_nat o) data]))
  | step_truncate n k fb :
      (1 ≤ k ≤ N)%nat → poke k (replicate (N - k) 0) (file_buff s) = Some fb →
      step s 1 (mk_fsx n (Z.of_nat k) fb (temp_buff s) (history s ++ [EvTruncate (Z.of_nat k)]))
  | step_map_read n o k answer fb :
      fs (history s) (RMap (Z.of_nat o) (Z.of_nat k)) = Some answer → (0 < k)%nat → Z.of_nat (o + k) ≤ file_size s →
      poke o (fit (Z.of_nat k) answer) (file_buff s) = Some fb →
      step s 1 (mk_fsx n (file_size s) fb (temp_buff s) (history s ++ [EvMapRead (Z.of_nat o) (fit (Z.of_nat k) answer)]))
  | step_map_write n o data fb :
      (o + length data ≤ N)%nat → poke o data (file_buff s) = Some fb →
      step s 1 (mk_fsx n (Z.max (file_size s) (Z.of_nat (o + length data))) fb (temp_buff s)
        (history s ++ (if file_size s <? Z.of_nat (o + length data) then [EvTruncate (Z.of_nat (o + length data))] else []) ++
         [EvMapWrite (Z.of_nat o) data])).

Lemma op_read_spec s : sized s → ends (λ '(ret, s'), step s ret s') (op_read fs rand cf s).
Proof.
  intros (Hf & Ht & Hs). unfold op_read. destruct (Z.eqb_spec (file_size s) 0) as [E|E]; [apply step_skip|]. destruct Hcf as (Hmax & _ & Hal & _).
  destruct (position_spec (file_size s) (op_read_align cf) s) as (pos & -> & Ho & Hk & Hok); [lia|lia|]. rewrite cbind_Ret. cbn beta iota.
  rewrite zeros_spec, cbind_Ret by lia. fold N. cbn [temp_buff set_drawn]. unfold N in Hf, Ht.
  destruct (store_all_spec 0 (replicate N 0) (temp_buff s)) as (tb & -> & Etb); [lia|rewrite length_replicate; unfold N; lia|]. rewrite cbind_Ret.
  assert (tb = replicate N 0) as ->.
  { unfold poke in Etb. rewrite length_replicate in Etb. destruct (_ <=? _)%nat; [|done]. injection Etb as <-. rewrite drop_ge by (unfold N; lia). by rewrite app_nil_r. }
  eapply ends_bind; [apply safe_ends|]. intros answer Ea. cbn [history set_drawn] in Ea. cbn zeta. set (data := take _ answer).
  assert (length data ≤ Z.to_nat (size pos))%nat as Hd by (unfold data; rewrite length_take; lia).
  destruct (store_all_spec 0 data (replicate N 0)) as (tb & -> & Etb'); [lia|rewrite length_replicate; unfold N; lia|]. rewrite cbind_Ret.
  pose proof (length_poke _ _ _ _ Etb') as Ltb. rewrite length_replicate in Ltb.
  cbn [file_buff temp_buff add_event set_temp_buff set_buffs set_drawn]. rewrite (load_spec (offset pos)), cbind_Ret by lia. rewrite (load_spec 0), cbind_Ret by (unfold N in Ltb; lia).
  assert (slice (Z.to_nat 0) (Z.to_nat (size pos)) tb = data ++ replicate (Z.to_nat (size pos) - length data) 0) as ->.
  { unfold poke in Etb'. destruct (_ <=? _)%nat; [|done]. injection Etb' as <-. unfold slice. change (Z.to_nat 0) with 0%nat. rewrite drop_0. rewrite take_app_ge by lia. f_equal.
    rewrite drop_replicate, take_replicate. f_equal. unfold N. lia. }
  destruct (memory_compare_spec (slice (Z.to_nat (offset pos)) (Z.to_nat (size pos)) (file_buff s)) (data ++ replicate (Z.to_nat (size pos) - length data) 0)) as (d & -> & Hcmp).
  { rewrite length_slice, length_app, length_replicate by lia. lia. }
  { intros E0. apply (f_equal length) in E0. rewrite length_slice in E0 by lia. cbn in E0. lia. }
  rewrite cbind_Ret. unfold ends. fsx_cbn.
  rewrite <- (Z2Nat.id (offset pos)) in Ea |- * by lia. rewrite <- (Z2Nat.id (size pos)) in Ea by lia. unfold data.
  apply step_read; [done|done|lia|lia|]. fold data. destruct (Z.eqb_spec d 0) as [E0|E0]; [left|right]; (split; [done|]); by rewrite <- Hcmp.
Qed.

Lemma poke_slice o data buf buf' : poke o data buf = Some buf' → slice o (length data) buf' = data.
Proof.
  unfold poke. destruct (Nat.leb_spec (o + length data) (length buf)); [|done]. intros [= <-]. unfold slice.
  rewrite drop_app_length' by (rewrite length_take; lia). by rewrite take_app_length.
Qed.

Lemma update_size pos n fb tb h fsz : 0 ≤ offset pos + size pos →
  update_file_size pos (mk_fsx n fsz fb tb h) = mk_fsx n (Z.max fsz (offset pos + size pos)) fb tb h.
Proof.
  intros H. unfold update_file_size. cbn [file_size]. destruct (Z.ltb_spec fsz (offset pos + size pos)).
  - rewrite Z.max_r by lia. done.
  - by rewrite Z.max_l by lia.
Qed.

Lemma op_write_spec s : sized s → ends (λ '(ret, s'), step s ret s') (op_write fs rand cf s).
Proof.
  intros (Hf & Ht & Hs). unfold op_write. destruct (Z.leb_spec (file_max_size cf) (file_size s)) as [L|L]; [apply step_skip|].
  destruct Hcf as (Hmax & Hal & _). destruct (position_spec (file_max_size cf) (op_write_align cf) s) as (pos & -> & Ho & Hk & Hok); [lia|lia|].
  rewrite cbind_Ret. cbn beta iota. unfold N in Hf, Ht.
  destruct (write_loop_spec (Z.to_nat (size pos)) (offset pos) 0 ("a"%cc) (set_drawn (S (S (drawn s))) s)) as (data & fb & tb & -> & Hl & Ef & Et);
    [done|lia|cbn; lia|cbn; lia|]. rewrite cbind_Ret. cbn [file_buff temp_buff set_drawn drawn file_size history] in *.
  pose proof (length_poke _ _ _ _ Et) as Lt. rewrite load_spec, cbind_Ret by lia. rewrite <- Hl, (poke_slice _ _ _ _ Et).
  eapply ends_bind; [apply safe_ends|]. intros _ _. unfold add_event. cbn [file_buff temp_buff set_drawn drawn file_size history].
  rewrite update_size by lia. assert (offset pos + size pos = Z.of_nat (Z.to_nat (offset pos) + length data)) as -> by lia.
  rewrite <- (Z2Nat.id (offset pos)) at 2 by lia. rewrite Z.add_0_r in Ef. apply step_write; [unfold N; lia|unfold N; lia|done].
Qed.

Lemma op_truncate_spec s : sized s → ends (λ '(ret, s'), step s ret s' ∧ ret = 1) (op_truncate fs rand cf s).
Proof.
  intros (Hf & Ht & Hs). unfold op_truncate. destruct Hcf as (Hmax & _ & _ & Hal & _).
  destruct (position_spec (file_max_size cf) (op_trunc_align cf) s) as (pos & -> & Ho & Hk & Hok); [lia|lia|]. rewrite cbind_Ret. cbn beta iota zeta.
  eapply ends_bind; [apply safe_ends|]. intros _ _. unfold N in Hf, Ht. cbn [file_size add_event set_size set_drawn file_buff temp_buff drawn history].
  set (k := Z.to_nat (offset pos + size pos)). assert (offset pos + size pos = Z.of_nat k) as -> by lia.
  rewrite zeros_spec, cbind_Ret by lia. replace (Z.to_nat (file_max_size cf - Z.of_nat k)) with (N - k)%nat by (unfold N; lia).
  destruct (store_all_spec (Z.of_nat k) (replicate (N - k) 0) (file_buff s)) as (fb & -> & Efb); [lia|rewrite length_replicate, Nat2Z.id; unfold N; lia|].
  rewrite cbind_Ret. rewrite Nat2Z.id in Efb. split; [|done]. fsx_cbn. apply step_truncate; [unfold N; lia|done].
Qed.

Lemma length_fit k answer : length (fit (Z.of_nat k) answer) = k.
Proof. unfold fit. rewrite Nat2Z.id, length_take, length_app, length_replicate. lia. Qed.

Lemma op_map_read_spec s : sized s → ends (λ '(ret, s'), step s ret s' ∧ ret ≠ -1) (op_map_read fs rand cf s).
Proof.
  intros (Hf & Ht & Hs). unfold op_map_read. destruct (Z.eqb_spec (file_size s) 0) as [E|E]; [split; [apply step_skip|done]|].
  pose proof Hcf as (Hmax & _ & Hal & _). destruct (position_spec (file_size s) (op_read_align cf) s) as (pos0 & -> & Hpos); [lia|lia|].
  rewrite cbind_Ret. cbn beta iota. destruct (align_pages_spec (file_size s) pos0 Hpos) as (pos & -> & Ho & Hk & Hok). rewrite cbind_Ret.
  eapply ends_bind; [apply safe_ends|]. intros answer Ea. cbn [history set_drawn] in Ea. cbn zeta. unfold N in Hf, Ht.
  set (o := Z.to_nat (offset pos)). set (k := Z.to_nat (size pos)). assert (offset pos = Z.of_nat o) as Eo by lia. assert (size pos = Z.of_nat k) as Ek by lia.
  rewrite Eo, Ek in *. cbn [file_buff set_drawn]. destruct (store_all_spec (Z.of_nat o) (fit (Z.of_nat k) answer) (file_buff s)) as (fb & -> & Efb);
    [lia|rewrite length_fit, Nat2Z.id; lia|]. rewrite cbind_Ret. rewrite Nat2Z.id in Efb. pose proof (length_poke _ _ _ _ Efb) as Lfb.
  cbn [file_buff add_event set_file_buff set_buffs set_drawn]. rewrite load_spec, cbind_Ret by lia.
  assert (slice (Z.to_nat (Z.of_nat o)) (Z.to_nat (Z.of_nat k)) fb = fit (Z.of_nat k) answer) as ->.
  { rewrite !Nat2Z.id, <- (length_fit k answer) at 1. by eapply poke_slice. }
  destruct (memory_compare_spec (fit (Z.of_nat k) answer) (fit (Z.of_nat k) answer) eq_refl) as (d & -> & Hd).
  { intros E0. apply (f_equal length) in E0. rewrite length_fit in E0. cbn in E0. lia. }
  rewrite cbind_Ret, (proj2 Hd eq_refl). split; [|done]. fsx_cbn. apply step_map_read; [done|lia|lia|done].
Qed.

Lemma op_map_write_spec s : sized s → ends (λ '(ret, s'), step s ret s') (op_map_write fs rand cf s).
Proof.
  intros (Hf & Ht & Hs). unfold op_map_write. destruct (Z.leb_spec (file_max_size cf) (file_size s)) as [L|L]; [apply step_skip|].
  pose proof Hcf as (Hmax & Hal & _). destruct (position_spec (file_max_size cf) (op_write_align cf) s) as (pos0 & -> & Hpos); [lia|lia|].
  rewrite cbind_Ret. cbn beta iota. destruct (align_pages_spec (file_max_size cf) pos0 Hpos) as (pos & -> & Ho & Hk & Hok). rewrite cbind_Ret. cbn zeta.
  unfold N in Hf, Ht. set (o := Z.to_nat (offset pos)). set (k := Z.to_nat (size pos)).
  assert (offset pos = Z.of_nat o) as Eo by lia. assert (size pos = Z.of_nat k) as Ek by lia. rewrite Eo, Ek in *. rewrite <- Nat2Z.inj_add. cbn [file_size set_drawn].
  set (ev := if file_size s <? Z.of_nat (o + k) then [EvTruncate (Z.of_nat (o + k))] else []).
  apply (ends_bind (λ s1, s1 = mk_fsx (S (S (drawn s))) (file_size s) (file_buff s) (temp_buff s) (history s ++ ev))).
  { unfold ev. destruct (file_size s <? Z.of_nat (o + k)); [|by rewrite app_nil_r]. eapply ends_bind; [apply safe_ends|]. by intros _ _. }
  intros ? ->. fold k.
  destruct (map_write_loop_spec k (Z.of_nat o) 0 (mk_fsx (S (S (drawn s))) (file_size s) (file_buff s) (temp_buff s) (history s ++ ev))) as (data & fb & -> & Hl & Ef);
    [lia|lia|cbn; lia|]. rewrite cbind_Ret. cbn [file_buff temp_buff drawn file_size history] in *. rewrite Z.add_0_r, Nat2Z.id in Ef.
  eapply ends_bind; [apply safe_ends|]. intros _ _. cbn [file_buff]. pose proof (length_poke _ _ _ _ Ef) as Lf. rewrite load_spec, cbind_Ret by lia.
  rewrite !Nat2Z.id. assert (slice o k fb = data) as -> by (rewrite <- Hl; by eapply poke_slice).
  eapply ends_bind; [apply safe_ends|]. intros _ _. unfold add_event. cbn [file_buff temp_buff drawn file_size history].
  rewrite update_size by (cbn [offset size]; lia). rewrite Eo, Ek, <- Nat2Z.inj_add, <- app_assoc. unfold ev. rewrite <- Hl.
  apply step_map_write; [unfold N; lia|done].
Qed.

Lemma run_op_spec op s : sized s → ends (λ '(ret, s'), step s ret s' ∧ (op = OP_TRUNCATE → ret = 1)) (run_op fs rand cf op s).
Proof.
  intros Hs. unfold run_op. assert (∀ (Q R : Z * fsx → Prop) x, ends Q x → (∀ a, Q a → R a) → ends R x) as Hmono by (intros Q R [a| |]; cbn; auto).
  destruct (Z.eqb_spec op OP_WRITE) as [-> |]; [eapply Hmono; [by apply op_write_spec|]; by intros [ret s'] H|].
  destruct (Z.eqb_spec op OP_MAPREAD) as [-> |]; [eapply Hmono; [by apply op_map_read_spec|]; by intros [ret s'] [H _]|].
  destruct (Z.eqb_spec op OP_MAPWRITE) as [-> |]; [eapply Hmono; [by apply op_map_write_spec|]; by intros [ret s'] H|].
  destruct (Z.eqb_spec op OP_TRUNCATE) as [-> |]; [eapply Hmono; [by apply op_truncate_spec|]; by intros [ret s'] [H ?]|].
  eapply Hmono; [by apply op_read_spec|]; by intros [ret s'] H.
Qed.

Lemma step_sized s ret s' : sized s → step s ret s' → sized s'.
Proof.
  intros (Hf & Ht & Hs) Hst. unfold sized, N in *.
  destruct Hst as [|n o k answer tb ret Ea Htb Hk Ho _|n o data fb tb Htb Ho Ep|n k fb Hk Ep|n o k answer fb Ea Hk Ho Ep|n o data fb Ho Ep];
    cbn [file_buff temp_buff file_size]; rewrite ?(length_poke _ _ _ _ Ep); unfold N in *; split_and!; done || lia.
Qed.

(** ** Histories *)

(** [file_buff] is what the file should hold. *)
Definition tracked (s : fsx) : Prop := sized s ∧ file_buff s = pad N (content (history s)) ∧ Z.of_nat (length (content (history s))) = file_size s.

(** Every event fits the history before it. *)
Definition all_events (P : list event → event → Prop) (h : list event) : Prop := ∀ h1 e h2, h = h1 ++ e :: h2 → P h1 e.

Lemma all_events_snoc P h e : all_events P (h ++ [e]) ↔ all_events P h ∧ P h e.
Proof.
  split.
  - intros H. split; [|by apply (H h e [])]. intros h1 e1 h2 ->. apply (H h1 e1 (h2 ++ [e])). by rewrite <- app_assoc.
  - intros [H He] h1 e1 h2 E. destruct h2 as [|e2 h2 _] using rev_ind.
    + apply app_inj_2 in E as [-> [= ->]]; done.
    + rewrite app_comm_cons, app_assoc in E. apply app_inj_2 in E as [-> _]; [|done]. by eapply H.
Qed.

Lemma all_events_app P h x : all_events P (h ++ x) → all_events P h.
Proof. intros H h1 e h2 ->. apply (H h1 e (h2 ++ x)). by rewrite <- app_assoc. Qed.

(** A mapping showed what the file should hold. *)
Definition map_right (h : list event) (e : event) : Prop :=
  match e with EvMapRead off d => d = slice (Z.to_nat off) (length d) (content h) | _ => True end.

(** A read returned what the file should hold; the data is the answer of the
    file system. *)
Definition read_right (h : list event) (e : event) : Prop :=
  match e with
  | EvRead off d => (∃ k answer, fs h (RRead off k) = Some answer ∧ d = take (Z.to_nat k) answer) ∧ d = slice (Z.to_nat off) (length d) (content h)
  | _ => True
  end.

Lemma content_app_trunc h k e : content (h ++ [EvTruncate k] ++ [e]) = apply (resize (Z.to_nat k) (content h)) e.
Proof. rewrite app_assoc, content_snoc, content_snoc. done. Qed.

Lemma step_history s ret s' : step s ret s' → ∃ x, history s' = history s ++ x.
Proof. intros []; cbn [history]; [exists []; by rewrite app_nil_r|by eexists..]. Qed.

Lemma step_tracked s ret s' :
  tracked s → step s ret s' → all_events map_right (history s') → tracked s'.
Proof.
  intros (Hsz & Efb & Elen) Hst Hm. pose proof (step_sized _ _ _ Hsz Hst) as Hsz'. split; [done|].
  assert (length (content (history s)) ≤ N)%nat as Hc by (destruct Hsz as (_ & _ & ?); unfold N; lia). clear Hsz'.
  destruct Hst as [|n o k answer tb ret Ea Htb Hk Ho _|n o data fb tb Htb Ho Ep|n k fb Hk Ep|n o k answer fb Ea Hk Ho Ep|n o data fb Ho Ep];
    cbn [file_buff file_size history] in *; [done|by rewrite content_snoc|..].
  - rewrite content_snoc. cbn [apply]. rewrite Nat2Z.id. rewrite Efb, poke_pad in Ep by done. injection Ep as <-. split; [done|]. rewrite length_put. lia.
  - rewrite content_snoc. cbn [apply]. rewrite Nat2Z.id. rewrite Efb, poke_zeros in Ep by lia. injection Ep as <-. split; [done|]. by rewrite length_resize.
  - apply all_events_snoc in Hm as [_ Hm]. cbn [map_right] in Hm. rewrite length_fit, Nat2Z.id in Hm. rewrite content_snoc. cbn [apply]. split; [|done].
    rewrite Efb, Hm, poke_pad in Ep; [|done|rewrite length_slice; lia]. injection Ep as <-.
    rewrite <- (slice_pad N) by lia. by apply put_slice; [|lia].
  - rewrite Efb, poke_pad in Ep by done. injection Ep as <-. destruct (Z.ltb_spec (file_size s) (Z.of_nat (o + length data))) as [L|L].
    + rewrite content_app_trunc. cbn [apply]. rewrite !Nat2Z.id. split; [|rewrite length_put, length_resize; lia].
      assert (poke o data (pad N (resize (o + length data) (content (history s)))) = Some (pad N (put o data (resize (o + length data) (content (history s)))))) as E1
        by (apply poke_pad; [rewrite length_resize; lia|done]).
      rewrite pad_extend in E1 by lia. rewrite poke_pad in E1 by done. by injection E1 as ->.
    + cbn [app]. rewrite content_snoc. cbn [apply]. rewrite Nat2Z.id. split; [done|]. rewrite length_put. lia.
Qed.

Lemma take_slice o k j (c : list Z) : (j ≤ k)%nat → take j (slice o k c) = slice o j c.
Proof. intros H. unfold slice. rewrite take_take. f_equal. lia. Qed.

Lemma step_reads s ret s' :
  tracked s → step s ret s' → ret ≠ -1 → all_events read_right (history s) → all_events read_right (history s').
Proof.
  intros (Hsz & Efb & Elen) Hst Hret Hr.
  destruct Hst as [|n o k answer tb ret Ea Htb Hk Ho Hcmp|n o data fb tb Htb Ho Ep|n k fb Hk Ep|n o k answer fb Ea Hk Ho Ep|n o data fb Ho Ep];
    cbn [history] in *; rewrite ?all_events_snoc; try (by split); [done| |].
  - split; [done|]. cbn [read_right]. split; [exists (Z.of_nat k), answer; by rewrite Nat2Z.id|]. rewrite Nat2Z.id.
    destruct Hcmp as [[_ E]|[-> _]]; [|done]. rewrite Efb, slice_pad in E by lia. rewrite <- (take_slice _ k) by (rewrite length_take; lia). rewrite E.
    by rewrite take_app_length.
  - destruct (_ <? _); [rewrite app_assoc|cbn [app]]; rewrite !all_events_snoc; by split_and!.
Qed.
End Ops.
