(* ===== verification/FsxRun.v ===== *)
(** * Runs of the exerciser

    A run stays within its buffers; a run that passes says that the reads
    were right; on a file system that is right every run passes. *)

From S2P Require Import Prelude Bytes Fsx FsxFacts.
Open Scope Z_scope.

Section Run.
Context (fs : filesystem) (rand : nat → Z) (cf : config) (Hrand : ∀ i, 0 ≤ rand i) (Hcf : config_ok cf).

(** One round of the loop. *)
Definition round (s : fsx) : cres (Z * fsx) :=
  let '(r, s) := random rand s in op ← c_rem r OP_TOTAL; run_op fs rand cf op s.

Lemma run_loop_S fuel counter s :
  run_loop fs rand cf (S fuel) counter s =
  if op_nums cf <=? counter then Some (CRet (counter, s)) else
  match round s with
  | CRet (ret, s) => if ret =? -1 then Some (CRet (counter, s)) else run_loop fs rand cf fuel (counter + ret) s
  | CBrk t m => Some (CBrk t m)
  | CUB => Some CUB
  end.
Proof. cbn [run_loop]. unfold round, random. by destruct (op_nums cf <=? counter). Qed.

Lemma round_spec s :
  sized cf s → ends fs (λ '(ret, s'), step fs cf (set_drawn (S (drawn s)) s) ret s' ∧ (Z.rem (rand (drawn s)) OP_TOTAL = OP_TRUNCATE → ret = 1)) (round s).
Proof.
  intros Hs. unfold round, random, c_rem. change (OP_TOTAL =? 0) with false. cbn beta iota. rewrite cbind_Ret.
  by apply run_op_spec.
Qed.

Lemma sized_drawn n s : sized cf (set_drawn n s) ↔ sized cf s.
Proof. done. Qed.

Lemma step_ret s ret s' : step fs cf s ret s' → ret = 0 ∧ s' = s ∨ ret = 1 ∨ ret = -1.
Proof. intros []; [by left|tauto..]. Qed.

(** The state before the loop. *)
Definition start_state : fsx := mk_fsx 0 0 (replicate (N cf) 0) (replicate (N cf) 0) [EvTruncate 0].

Lemma run_start fuel fb tb :
  length fb = N cf → length tb = N cf →
  run fs rand cf fuel fb tb =
  match fs [] (RTruncate 0) with
  | Some _ => r ← run_loop fs rand cf fuel 0 start_state;
              Some ('(counter, s) ← r; if counter =? op_nums cf then CRet s else CBrk TFAIL (str "Some file operations failed"))
  | None => Some (CBrk (Z.lor TBROK TERRNO) (str "ftruncate" ++ str " failed"))
  end.
Proof.
  intros Hf Ht. unfold run. destruct Hcf as (Hmax & _). rewrite zeros_spec, cbind_Ret by lia. fold (N cf).
  assert (∀ b, length b = N cf → store_all 0 (replicate (N cf) 0) b = CRet (replicate (N cf) 0)) as Hst.
  { intros b Hb. destruct (store_all_spec 0 (replicate (N cf) 0) b) as (b' & -> & E); [lia|rewrite length_replicate; lia|]. f_equal.
    unfold poke in E. rewrite length_replicate in E. destruct (_ <=? _)%nat; [|done]. injection E as <-. rewrite drop_ge by lia. by rewrite app_nil_r. }
  rewrite !Hst, !cbind_Ret by done. cbn zeta. unfold safe. cbn [history]. by destruct (fs [] (RTruncate 0)).
Qed.

Lemma start_tracked : tracked cf start_state.
Proof.
  destruct Hcf as (Hmax & _). unfold tracked, sized, start_state. cbn [file_buff temp_buff file_size history]. rewrite !length_replicate.
  split_and!; [done|done|lia|lia| |done]. unfold pad, content. cbn. by rewrite Nat.sub_0_r.
Qed.

(** ** No access outside of the buffers *)

Lemma run_loop_sized fuel counter s r :
  sized cf s → run_loop fs rand cf fuel counter s = Some r → ends fs (λ _, True) r.
Proof.
  revert counter s. induction fuel as [|fuel IH]; intros counter s Hs.
  - cbn [run_loop]. destruct (_ <=? _); [|done]. by intros [= <-].
  - rewrite run_loop_S. destruct (_ <=? _); [by intros [= <-]|]. pose proof (round_spec s Hs) as Hr.
    destruct (round s) as [[ret s']|t m|]; [|intros [= <-]; exact Hr|done]. destruct Hr as [Hst _]. destruct (ret =? -1); [by intros [= <-]|].
    apply IH. eapply step_sized; [|exact Hst]. exact Hs.
Qed.

(** C32. Whatever numbers are drawn and whatever the file system answers, no
    run of the exerciser reads or writes outside of its two buffers of the
    maximal file size, divides by zero or compares nothing. *)
Theorem fsx_in_bounds fuel fb tb : length fb = N cf → length tb = N cf → run fs rand cf fuel fb tb ≠ Some CUB.
Proof.
  intros Hf Ht. rewrite run_start by done. destruct (fs [] (RTruncate 0)); [|done].
  destruct (run_loop fs rand cf fuel 0 start_state) as [r|] eqn:E; [|done]. rewrite obind_Some.
  pose proof (run_loop_sized _ _ _ _ (proj1 start_tracked) E) as Hr. destruct r as [[counter s]|t m|]; [|done|done].
  rewrite cbind_Ret. cbn beta iota. by destruct (counter =? op_nums cf).
Qed.

(** ** A passed run *)

Lemma run_loop_history fuel counter s counter' s' :
  sized cf s → run_loop fs rand cf fuel counter s = Some (CRet (counter', s')) → ∃ x, history s' = history s ++ x.
Proof.
  revert counter s. induction fuel as [|fuel IH]; intros counter s Hs.
  - cbn [run_loop]. destruct (_ <=? _); [|done]. intros [= <- <-]. exists []. by rewrite app_nil_r.
  - rewrite run_loop_S. destruct (_ <=? _); [intros [= <- <-]; exists []; by rewrite app_nil_r|].
    pose proof (round_spec s Hs) as Hrd. destruct (round s) as [[ret s1]|t m|]; [|done|done]. destruct Hrd as [Hst _].
    destruct (step_history _ _ _ _ _ Hst) as [x Ex]. cbn [history set_drawn] in Ex. destruct (ret =? -1); [intros [= <- <-]; by exists x|].
    intros E. destruct (IH (counter + ret) s1) as [y Ey]; [eapply step_sized; [|exact Hst]; exact Hs|done|]. exists (x ++ y). by rewrite Ey, Ex, <- app_assoc.
Qed.

Lemma run_loop_reads fuel counter s counter' s' :
  tracked cf s → all_events (read_right fs) (history s) → run_loop fs rand cf fuel counter s = Some (CRet (counter', s')) →
  all_events map_right (history s') → op_nums cf ≤ counter' → all_events (read_right fs) (history s').
Proof.
  revert counter s. induction fuel as [|fuel IH]; intros counter s Ht Hr.
  - cbn [run_loop]. destruct (_ <=? _); [|done]. by intros [= <- <-].
  - rewrite run_loop_S. destruct (Z.leb_spec (op_nums cf) counter); [by intros [= <- <-]|].
    pose proof (round_spec s (proj1 Ht)) as Hrd. destruct (round s) as [[ret s1]|t m|]; [|done|done]. destruct Hrd as [Hst _].
    destruct (Z.eqb_spec ret (-1)) as [-> |Hne]; [intros [= <- <-] _; lia|]. intros E Hm Hle.
    destruct (run_loop_history _ _ _ _ _ (step_sized _ _ (set_drawn (S (drawn s)) s) _ _ (proj1 Ht) Hst) E) as [y Ey].
    eapply IH; [| |exact E|done|done].
    + eapply step_tracked; [|exact Hst|]; [exact Ht|]. rewrite Ey in Hm. by eapply all_events_app.
    + eapply step_reads; [|exact Hst|done|done]. exact Ht.
Qed.

(** C18. When a run passes and the mappings showed what the file should hold,
    every read returned exactly the bytes that the writes and truncations
    before it had left at its position: a read of anything else makes the
    run fail. *)
Theorem fsx_detects fuel fb tb s :
  length fb = N cf → length tb = N cf → run fs rand cf fuel fb tb = Some (CRet s) → all_events map_right (history s) →
  all_events (read_right fs) (history s).
Proof.
  intros Hf Ht. rewrite run_start by done. destruct (fs [] (RTruncate 0)); [|done].
  destruct (run_loop fs rand cf fuel 0 start_state) as [r|] eqn:E; [|done]. rewrite obind_Some. destruct r as [[counter s1]|t m|]; [|done|done].
  rewrite cbind_Ret. cbn beta iota. destruct (Z.eqb_spec counter (op_nums cf)) as [Ec|]; [|done]. intros [= ->] Hm.
  eapply run_loop_reads; [apply start_tracked| |exact E|done|lia]. change (history start_state) with ([] ++ [EvTruncate 0]). apply all_events_snoc.
  split; [|done]. intros h1 e h2 E0. by destruct h1.
Qed.
End Run.

(** ** A file system that is right *)

Definition right_fs : filesystem := λ h r,
  match r with
  | RRead off n | RMap off n => Some (slice (Z.to_nat off) (Z.to_nat n) (content h))
  | _ => Some []
  end.

Section Right.
Context (rand : nat → Z) (cf : config) (Hrand : ∀ i, 0 ≤ rand i) (Hcf : config_ok cf).

Lemma right_total : ¬ ∃ h r, right_fs h r = None.
Proof. intros (h & r & E). by destruct r. Qed.

Lemma right_step s ret s' :
  tracked cf s → all_events map_right (history s) → step right_fs cf s ret s' → ret ≠ -1 ∧ tracked cf s' ∧ all_events map_right (history s').
Proof.
  intros Ht Hm Hst. pose proof Ht as (Hsz & Efb & Elen). assert (ret ≠ -1 ∧ all_events map_right (history s')) as [Hne Hm'].
  { destruct Hst as [|n o k answer tb ret Ea Htb Hk Ho Hcmp|n o data fb tb Htb Ho Ep|n k fb Hk Ep|n o k answer fb Ea Hk Ho Ep|n o data fb Ho Ep];
      cbn [history]; rewrite ?all_events_snoc; try done.
    - split; [|done]. destruct Hcmp as [[-> _]|[_ Hcmp]]; [done|]. destruct Hcmp. cbn in Ea. rewrite !Nat2Z.id in Ea. injection Ea as <-.
      rewrite Efb, slice_pad by lia. rewrite take_ge by (rewrite length_slice; lia). rewrite length_slice, Nat.sub_diag by lia. by rewrite app_nil_r.
    - split; [done|]. split; [done|]. cbn [map_right]. rewrite length_fit. cbn in Ea. rewrite !Nat2Z.id in Ea. injection Ea as <-.
      unfold fit. rewrite !Nat2Z.id. rewrite take_app_length'; [done|]. rewrite length_slice; lia.
    - split; [done|]. destruct (_ <? _); [rewrite app_assoc|cbn [app]]; rewrite !all_events_snoc; by split_and!. }
  split_and!; [done| |done]. by eapply step_tracked.
Qed.

(** The next round that counts. *)
Lemma right_round s :
  tracked cf s → all_events map_right (history s) →
  ∃ ret s', round right_fs rand cf s = CRet (ret, s') ∧ tracked cf s' ∧ all_events map_right (history s') ∧
    (ret = 1 ∨ ret = 0 ∧ drawn s' = S (drawn s) ∧ Z.rem (rand (drawn s)) OP_TOTAL ≠ OP_TRUNCATE).
Proof.
  intros Ht Hm. pose proof (round_spec right_fs rand cf Hrand Hcf s (proj1 Ht)) as H.
  destruct (round right_fs rand cf s) as [[ret s']|t m|]; [|by destruct (right_total H)|done]. destruct H as [Hst Htr]. exists ret, s'. split; [done|].
  destruct (right_step (set_drawn (S (drawn s)) s) ret s' Ht Hm Hst) as (Hne & Ht' & Hm'). split_and!; [done|done|].
  destruct (step_ret _ _ _ _ _ Hst) as [[-> ->]|[-> | ->]]; [|by left|done]. right. split_and!; [done|done|]. intros E. by specialize (Htr E).
Qed.

Lemma right_counts s j :
  tracked cf s → all_events map_right (history s) → (drawn s ≤ j)%nat → Z.rem (rand j) OP_TOTAL = OP_TRUNCATE →
  ∃ n s', tracked cf s' ∧ all_events map_right (history s') ∧
    ∀ fuel counter, counter < op_nums cf → run_loop right_fs rand cf (S n + fuel) counter s = run_loop right_fs rand cf fuel (counter + 1) s'.
Proof.
  remember (j - drawn s)%nat as d eqn:Ed. revert s Ed. induction d as [|d IH]; intros s Ed Ht Hm Hj Hr.
  - destruct (right_round s Ht Hm) as (ret & s' & E & Ht' & Hm' & Hret). assert (drawn s = j) as Ej by lia.
    destruct Hret as [-> |(_ & _ & Hn)]; [|by rewrite Ej in Hn]. exists 0%nat, s'. split_and!; [done|done|]. intros fuel counter Hc.
    cbn [Nat.add]. rewrite run_loop_S, E, (proj2 (Z.leb_gt _ _)) by done. done.
  - destruct (right_round s Ht Hm) as (ret & s' & E & Ht' & Hm' & [-> |(-> & Ed' & Hn)]).
    + exists 0%nat, s'. split_and!; [done|done|]. intros fuel counter Hc. cbn [Nat.add]. rewrite run_loop_S, E, (proj2 (Z.leb_gt _ _)) by done. done.
    + destruct (IH s') as (n & s2 & Ht2 & Hm2 & Hrun); [lia|done|done|lia|done|]. exists (S n), s2. split_and!; [done|done|]. intros fuel counter Hc.
      change (S (S n) + fuel)%nat with (S (S n + fuel)). rewrite run_loop_S, E, (proj2 (Z.leb_gt _ _)) by done. cbn [Z.eqb]. rewrite Z.add_0_r. by apply Hrun.
Qed.

Lemma right_loop counter s :
  (∀ i, ∃ j, (i ≤ j)%nat ∧ Z.rem (rand j) OP_TOTAL = OP_TRUNCATE) → tracked cf s → all_events map_right (history s) → counter ≤ op_nums cf →
  ∃ fuel s', run_loop right_fs rand cf fuel counter s = Some (CRet (op_nums cf, s')).
Proof.
  intros Hfair. remember (Z.to_nat (op_nums cf - counter)) as d eqn:Ed. revert counter s Ed. induction d as [|d IH]; intros counter s Ed Ht Hm Hle.
  - assert (counter = op_nums cf) as -> by lia. exists 0%nat, s. cbn [run_loop]. by rewrite Z.leb_refl.
  - destruct (Hfair (drawn s)) as (j & Hj & Hr). destruct (right_counts s j Ht Hm Hj Hr) as (n & s1 & Ht1 & Hm1 & Hrun).
    destruct (IH (counter + 1) s1) as (fuel & s' & E); [lia|done|done|lia|]. exists (S n + fuel)%nat, s'. rewrite Hrun by lia. done.
Qed.

(** C19. On a file system that keeps what is written, every run passes: for
    any options and any random numbers among which truncations come up again
    and again, the loop ends after the given number of operations and no
    comparison fails. *)
Theorem fsx_passes fb tb :
  length fb = N cf → length tb = N cf → (∀ i, ∃ j, (i ≤ j)%nat ∧ Z.rem (rand j) OP_TOTAL = OP_TRUNCATE) →
  ∃ fuel s, run right_fs rand cf fuel fb tb = Some (CRet s).
Proof.
  intros Hf Ht Hfair. destruct (right_loop 0 (start_state cf) Hfair) as (fuel & s' & E).
  - by apply start_tracked.
  - change (history (start_state cf)) with ([] ++ [EvTruncate 0]). apply all_events_snoc. split; [|done]. intros h1 e h2 E0. by destruct h1.
  - apply Hcf.
  - exists fuel, s'. rewrite run_start by done. cbn [right_fs]. rewrite E, obind_Some, cbind_Ret. cbn beta iota. by rewrite Z.eqb_refl.
Qed.
End Right.
