(* ===== verification/FsxDemo.v ===== *)
(** * The exerciser on concrete file systems

    A run on a file system that is right, on one that loses writes, and on
    one whose mappings show something else, which no run notices. *)

From S2P Require Import Prelude Bytes Fsx FsxFacts FsxRun.
Open Scope Z_scope.

Definition cf0 : config := mk_config 16 1 2 1 4 4.

Lemma cf0_ok : config_ok cf0.
Proof. split_and!; cbn; lia. Qed.

(** A write of 5 bytes at 3, a read, a truncation and a read; then
    truncations for ever. *)
Definition rand0 (i : nat) : Z := default 2 ([1; 3; 5; 0; 1; 2; 3; 4; 0; 5; 1; 2; 9; 0; 0; 4; 5] !! i).

Lemma rand0_nonneg i : 0 ≤ rand0 i.
Proof. unfold rand0. do 17 (destruct i as [|i]; [by vm_compute|]). by vm_compute. Qed.

Lemma rand0_fair i : ∃ j, (i ≤ j)%nat ∧ Z.rem (rand0 j) OP_TOTAL = OP_TRUNCATE.
Proof. exists (i + 17)%nat. split; [lia|]. unfold rand0. rewrite lookup_ge_None_2; [done|]. cbn. lia. Qed.

Definition buff0 : list Z := replicate 16 77.

Definition passes (fs : filesystem) (rand : nat → Z) : option bool :=
  match run fs rand cf0 50 buff0 buff0 with Some (CRet _) => Some true | Some (CBrk _ _) => Some false | _ => None end.

Definition run_history (fs : filesystem) (rand : nat → Z) : list event :=
  match run fs rand cf0 50 buff0 buff0 with Some (CRet s) => history s | _ => [] end.

Lemma demo_history : run_history right_fs rand0 =
  [EvTruncate 0; EvWrite 3 [97; 98; 99; 100; 101]; EvRead 4 [98; 99]; EvTruncate 10; EvRead 4 [98; 99; 100; 101; 0]].
Proof. by vm_compute. Qed.

Lemma fsx_in_bounds_witness : run right_fs rand0 cf0 50 buff0 buff0 ≠ Some CUB.
Proof. apply (fsx_in_bounds right_fs rand0 cf0 rand0_nonneg cf0_ok); done. Defined.

Lemma fsx_passes_witness : ∃ fuel s, run right_fs rand0 cf0 fuel buff0 buff0 = Some (CRet s).
Proof. apply (fsx_passes rand0 cf0 rand0_nonneg cf0_ok); [done|done|apply rand0_fair]. Defined.

Lemma no_maps h : Forall (λ e, match e with EvMapRead _ _ => False | _ => True end) h → all_events map_right h.
Proof. intros Hh h1 e h2 ->. apply Forall_app in Hh as [_ Hh]. apply Forall_cons in Hh as [Hh _]. by destruct e. Qed.

Lemma fsx_detects_witness : ∃ s, run right_fs rand0 cf0 50 buff0 buff0 = Some (CRet s) ∧ all_events (read_right right_fs) (history s).
Proof.
  destruct (run right_fs rand0 cf0 50 buff0 buff0) as [[s| |]|] eqn:E; [|by vm_compute in E..]. exists s. split; [done|].
  apply (fsx_detects right_fs rand0 cf0 rand0_nonneg cf0_ok 50 buff0 buff0 s); [done|done|exact E|]. apply no_maps.
  pose proof demo_history as H. unfold run_history in H. rewrite E in H. rewrite H. by repeat constructor.
Defined.

(** ** File systems that are not right *)

(** Writes are lost. *)
Definition lossy_fs : filesystem := λ h r,
  right_fs (omap (λ e, match e with EvWrite _ _ => None | _ => Some e end) h) r.

Lemma lossy_found : passes lossy_fs rand0 = Some false.
Proof. by vm_compute. Qed.

(** Mappings show ones. *)
Definition ones_fs : filesystem := λ h r, match r with RMap _ n => Some (replicate (Z.to_nat n) 1) | _ => right_fs h r end.

(** A write of 5 bytes at 3, a read through a mapping, truncations. *)
Definition rand1 (i : nat) : Z := default 2 ([1; 3; 5; 0; 1; 2; 3; 4; 3; 5; 2; 2; 1; 0; 2; 1; 0] !! i).

(** The wrong bytes are copied over the expected ones before they are
    compared, and the run passes. *)
Lemma map_read_not_compared :
  passes ones_fs rand1 = Some true ∧
  take 3 (run_history ones_fs rand1) = [EvTruncate 0; EvWrite 3 [97; 98; 99; 100; 101]; EvMapRead 4 [1; 1; 1]] ∧
  slice 4 3 (content [EvTruncate 0; EvWrite 3 [97; 98; 99; 100; 101]]) = [98; 99; 100].
Proof. by vm_compute. Qed.

(** No answer of the file system makes a read through a mapping fail. *)
Lemma map_read_never_fails fs rand cf s ret s' :
  (∀ i, 0 ≤ rand i) → config_ok cf → sized cf s → op_map_read fs rand cf s = CRet (ret, s') → ret ≠ -1.
Proof.
  intros Hr Hcf Hs E. pose proof (op_map_read_spec fs rand cf Hr Hcf s Hs) as H. rewrite E in H. by destruct H.
Qed.
