(* ===== verification/TimerTest.v ===== *)
(** * The measurements of timer tests

    lib/tst_timer_test.c: a number of samples of how long a call slept is
    sorted and compared with the time it was asked to sleep.  The sampling
    function is that of the test; the plot of the frequencies, which is only
    printed, is left out. *)

From S2P Require Import Prelude.
Open Scope Z_scope.

Definition MAX_SAMPLES : Z := 500.

(** Unsigned arithmetic of 32 bits. *)
Definition u32 (z : Z) : Z := wrapu 32 z.

(** What [timer_setup] found out. *)
Record timer_env := mk_env { monotonic_resolution : Z; timerslack : Z; virt_env : bool }.

(** Division is of numbers that are not negative. *)
Definition compute_threshold (env : timer_env) (requested_us nsamples : Z) : Z :=
  let slack_per_scall := u32 (Z.min 100000 (Z.quot requested_us 1000)) in
  let slack_per_scall := Z.max slack_per_scall (timerslack env) in
  u32 (u32 (u32 (400 + u32 (2 * monotonic_resolution env) + slack_per_scall) * nsamples) + 3000 / nsamples).

Definition compute_discard (nsamples : Z) : Z := if nsamples =? 1 then 0 else Z.max 1 (nsamples / 20).

(** The difference is returned as an int. *)
Definition cmp (a b : Z) : Z := wraps 32 (b - a).

(** [qsort]. *)
Fixpoint insert_by (cmp : Z → Z → Z) (x : Z) (l : list Z) : list Z :=
  match l with
  | [] => [x]
  | y :: l' => if cmp x y <=? 0 then x :: l else y :: insert_by cmp x l'
  end.

Definition qsort (cmp : Z → Z → Z) (l : list Z) : list Z := foldr (insert_by cmp) [] l.

(** What is reported. *)
Inductive report :=
  | SamplingFailed
  | Outliners (n first last : Z)
  | WokenEarly (n first last : Z)
  | Stats (min max median sum discard : Z)
  | VirtSkipped
  | SleptTooLong
  | WithinThresholds.

Definition report_type (r : report) : Z :=
  match r with
  | WokenEarly _ _ _ | SleptTooLong => TFAIL
  | WithinThresholds => TPASS
  | _ => TINFO
  end.

(** The array; the allocation ends with it. *)
Definition at_ (samples : list Z) (i : Z) : cres Z := if i <? 0 then CUB else defined (samples !! Z.to_nat i).

(** [for (i = 0; samples[i] > 10 * usec && i < (int)nsamples; i++)]. *)
Fixpoint outliners (env : timer_env) (fuel : nat) (usec nsamples : Z) (samples : list Z) (i : Z) : cres Z :=
  x ← at_ samples i;
  if negb ((10 * usec <? x) && (i <? nsamples)) then CRet i else
  if x <=? u32 (3 * monotonic_resolution env) then CRet i else
  match fuel with O => CUB | S fuel => outliners env fuel usec nsamples samples (i + 1) end.

(** [for (i = nsamples - 1; samples[i] < usec && i > -1; i--)]. *)
Fixpoint woken_early (fuel : nat) (usec : Z) (samples : list Z) (i : Z) : cres Z :=
  x ← at_ samples i;
  if negb ((x <? usec) && (-1 <? i)) then CRet i else
  match fuel with O => CUB | S fuel => woken_early fuel usec samples (i - 1) end.

(** The calls of [sample], each of which stores one time; [None] is a return
    value that is not zero.  [alloc] is the number of elements of the array. *)
Fixpoint take_samples (sample : nat → option Z) (alloc : nat) (n : nat) (taken : list Z) : cres (option (list Z)) :=
  match n with
  | O => CRet (Some taken)
  | S n =>
      match sample (length taken) with
      | None => CRet None
      | Some x => if (alloc <=? length taken)%nat then CUB else take_samples sample alloc n (taken ++ [x])
      end
  end.

(** [rest] is what the array holds after the samples. *)
Definition do_timer_test (env : timer_env) (sample : nat → option Z) (rest : list Z) (usec nsamples : Z) : cres (list report) :=
  let discard := compute_discard nsamples in
  let keep_samples := u32 (nsamples - discard) in
  let threshold := compute_threshold env usec keep_samples in
  let n := Z.to_nat nsamples in
  taken ← take_samples sample (n + length rest) n [];
  match taken with
  | None => CRet [SamplingFailed]
  | Some taken =>
      let samples := qsort cmp taken ++ rest in
      i ← outliners env n usec nsamples samples 0;
      first ← at_ samples 0;
      last ← at_ samples (nsamples - 1);
      out1 ← (if 0 <? i then l ← at_ samples (i - 1); CRet [Outliners i first l] else CRet []);
      j ← woken_early n usec samples (nsamples - 1);
      out2 ← (if j <? nsamples - 1 then f ← at_ samples (j + 1); CRet [WokenEarly (nsamples - 1 - j) f last] else CRet []);
      median ← at_ samples (nsamples / 2);
      let trunc_mean := foldr Z.add 0 (take (Z.to_nat keep_samples) (drop (Z.to_nat discard) samples)) in
      let out3 := [Stats last first median trunc_mean discard] in
      let out4 := if virt_env env then [VirtSkipped]
                  else if keep_samples * usec + threshold <? trunc_mean then [SleptTooLong] else [] in
      let failed := (j <? nsamples - 1) || (negb (virt_env env) && (keep_samples * usec + threshold <? trunc_mean)) in
      CRet (out1 ++ out2 ++ out3 ++ out4 ++ (if failed then [] else [WithinThresholds]))
  end.

(** ** The tests *)

Definition tcases : list (Z * Z) :=
  [(1000, 500); (2000, 500); (5000, 300); (10000, 100); (25000, 50); (100000, 10); (1000000, 2)].

(** [parse_timer_opts] after the numbers were parsed: the sleep time and the
    number of samples, where -1 and 0 stand for options that are not given,
    and the runtime in seconds. *)
Definition parse_timer_opts (sleep_time sample_cnt : option Z) : cres (option (Z * Z) * Z) :=
  let seconds (us : Z) := Z.quot (us + Z.quot us 10) 1000000 in
  match sleep_time, sample_cnt with
  | None, None => CRet (None, seconds (foldr (λ t a, t.1 * t.2 + a) 0 tcases))
  | _, _ =>
      let sleep_time := default 10000 sleep_time in
      let sample_cnt := default 500 sample_cnt in
      (* an int that overflows *)
      if 2 ^ 31 <=? sleep_time * sample_cnt then CUB
      else CRet (Some (sleep_time, sample_cnt), seconds (sleep_time * sample_cnt))
  end.

(** The elements of the array after the samples. *)
Definition spare (sample_cnt nsamples : Z) : Z := Z.max MAX_SAMPLES sample_cnt - nsamples.
