(* ===== verification/TimerTestFacts.v ===== *)
(** * What a timer test reports

    The verdict in terms of the measured times, whatever their order, and the
    inputs for which the loops leave the array. *)

From stdpp Require Import sorting.
From S2P Require Import Prelude TimerTest.
Open Scope Z_scope.

(** ** Sorting *)

(** Falling order. *)
Definition falling : list Z → Prop := StronglySorted (λ a b, b ≤ a).

(** Differences that fit an int. *)
Definition close (l : list Z) : Prop := ∀ x y, x ∈ l → y ∈ l → x - y < 2 ^ 31.

Lemma insert_perm c x l : insert_by c x l ≡ₚ x :: l.
Proof. induction l as [|y l IH]; cbn [insert_by]; [done|]. destruct (c x y <=? 0); [done|]. rewrite IH. apply Permutation_swap. Qed.

Lemma qsort_perm c l : qsort c l ≡ₚ l.
Proof. induction l as [|x l IH]; [done|]. change (qsort c (x :: l)) with (insert_by c x (qsort c l)). by rewrite insert_perm, IH. Qed.

Lemma cmp_le x y : x - y < 2 ^ 31 → y - x < 2 ^ 31 → (cmp x y <=? 0) = (y <=? x).
Proof.
  intros H1 H2. unfold cmp. destruct (decide (- 2 ^ 31 ≤ y - x)).
  - rewrite wraps_small by (change (32 - 1) with 31; lia). destruct (Z.leb_spec (y - x) 0), (Z.leb_spec y x); lia.
  - lia.
Qed.

Lemma insert_falling x l : (∀ y, y ∈ l → x - y < 2 ^ 31 ∧ y - x < 2 ^ 31) → falling l → falling (insert_by cmp x l).
Proof.
  intros Hx Hl. induction Hl as [|y l Hl IH Hy]; cbn [insert_by]; [repeat constructor|].
  destruct (Hx y) as [H1 H2]; [left|]. rewrite cmp_le by done. destruct (Z.leb_spec y x).
  - constructor; [by constructor|]. constructor; [done|]. eapply Forall_impl; [exact Hy|]. cbn beta. intros. lia.
  - constructor; [apply IH; intros z Hz; apply Hx; by right|]. rewrite insert_perm. constructor; [lia|done].
Qed.

Lemma qsort_falling l : close l → falling (qsort cmp l).
Proof.
  induction l as [|x l IH]; intros Hc; [constructor|]. change (qsort cmp (x :: l)) with (insert_by cmp x (qsort cmp l)). apply insert_falling.
  - intros y Hy. rewrite qsort_perm in Hy. split; apply Hc; by (left || right).
  - apply IH. intros y z Hy Hz. apply Hc; by right.
Qed.

(** The greater ones come first. *)
Lemma falling_split t l : falling l → ∃ a b, l = a ++ b ∧ Forall (λ x, t < x) a ∧ Forall (λ x, x ≤ t) b.
Proof.
  induction 1 as [|x l Hl (a & b & -> & Ha & Hb) Hx]; [by exists [], []|]. destruct (decide (t < x)) as [L|L].
  - exists (x :: a), b. split_and!; [done|by constructor|done].
  - exists [], (x :: a ++ b). split_and!; [done|constructor|]. constructor; [lia|]. eapply Forall_impl; [exact Hx|]. cbn beta. intros. lia.
Qed.

Lemma falling_app a b : falling (a ++ b) → ∀ x y, x ∈ a → y ∈ b → y ≤ x.
Proof.
  induction a as [|z a IH]; intros H x y Hx Hy; [by apply not_elem_of_nil in Hx|]. apply StronglySorted_cons in H as [Hz H].
  apply elem_of_cons in Hx as [-> |Hx]; [|by apply IH]. rewrite Forall_forall in Hz. apply Hz. apply elem_of_app. by right.
Qed.

(** ** The loops *)

Lemma at_app a x b : at_ (a ++ x :: b) (Z.of_nat (length a)) = CRet x.
Proof. unfold at_. destruct (Z.ltb_spec (Z.of_nat (length a)) 0); [lia|]. rewrite Nat2Z.id. by rewrite lookup_app_r, Nat.sub_diag by lia. Qed.

Lemma at_end a : at_ a (Z.of_nat (length a)) = CUB.
Proof. unfold at_. destruct (Z.ltb_spec (Z.of_nat (length a)) 0); [lia|]. rewrite Nat2Z.id. by rewrite lookup_ge_None_2. Qed.

Definition outlying (env : timer_env) (usec x : Z) : Prop := Z.max (10 * usec) (u32 (3 * monotonic_resolution env)) < x.

#[local] Instance outlying_dec env usec x : Decision (outlying env usec x).
Proof. unfold outlying; apply _. Defined.

Lemma outliners_spec env usec nsamples a b rest : ∀ fuel a0,
  Forall (outlying env usec) a → Forall (λ x, ¬ outlying env usec x) b → nsamples = Z.of_nat (length (a0 ++ a ++ b)) → (length a ≤ fuel)%nat →
  outliners env fuel usec nsamples ((a0 ++ a ++ b) ++ rest) (Z.of_nat (length a0)) =
  match b ++ rest with [] => CUB | _ => CRet (Z.of_nat (length (a0 ++ a))) end.
Proof.
  unfold outlying. induction a as [|x a IH]; intros fuel a0 Ha Hb Hn Hf.
  - cbn [app]. rewrite app_nil_r, <- app_assoc. destruct b as [|y b]; cbn [app].
    + destruct rest as [|z rest].
      * rewrite app_nil_r. destruct fuel; cbn [outliners]; by rewrite at_end.
      * cbn [app] in Hn. rewrite app_nil_r in Hn. destruct fuel; cbn [outliners]; rewrite at_app, cbind_Ret, Hn, Z.ltb_irrefl, andb_false_r; done.
    + apply Forall_cons in Hb as [Hy _]. destruct fuel; cbn [outliners]; rewrite at_app, cbind_Ret;
        (destruct (negb _) eqn:E; [done|]); apply negb_false_iff, andb_true_iff in E as [E1%Z.ltb_lt _];
        (destruct (Z.leb_spec y (u32 (3 * monotonic_resolution env))); [done|lia]).
  - apply Forall_cons in Ha as [Hx Ha]. destruct fuel as [|fuel]; [cbn in Hf; lia|]. cbn [outliners].
    assert ((a0 ++ (x :: a) ++ b) ++ rest = ((a0 ++ [x]) ++ a ++ b) ++ rest) as E by (by rewrite <- !app_assoc).
    assert (a0 ++ (x :: a) ++ b = (a0 ++ [x]) ++ a ++ b) as E' by (by rewrite <- !app_assoc). rewrite E' in Hn.
    assert (at_ ((a0 ++ (x :: a) ++ b) ++ rest) (Z.of_nat (length a0)) = CRet x) as -> by (rewrite <- app_assoc; apply at_app).
    rewrite cbind_Ret, E. rewrite (proj2 (Z.ltb_lt (10 * usec) x)) by lia. rewrite (proj2 (Z.ltb_lt _ _)) by (rewrite Hn, !length_app; cbn; lia).
    cbn [andb negb]. destruct (Z.leb_spec x (u32 (3 * monotonic_resolution env))); [lia|].
    replace (Z.of_nat (length a0) + 1) with (Z.of_nat (length (a0 ++ [x]))) by (rewrite length_app; cbn; lia).
    rewrite IH by (done || (cbn in Hf; lia)). by rewrite <- app_assoc.
Qed.

Lemma woken_early_spec usec b rest : ∀ e fuel post,
  Forall (λ x, usec ≤ x) b → Forall (λ x, x < usec) e → (length e ≤ fuel)%nat →
  woken_early fuel usec ((b ++ e) ++ post ++ rest) (Z.of_nat (length (b ++ e)) - 1) = match b with [] => CUB | _ => CRet (Z.of_nat (length b) - 1) end.
Proof.
  intros e. induction e as [|x e IH] using rev_ind; intros fuel post Hb He Hf.
  - rewrite app_nil_r. destruct b as [|y b _] using rev_ind; [by destruct fuel|]. assert (Z.of_nat (length (b ++ [y])) - 1 = Z.of_nat (length b)) as -> by (rewrite length_app; cbn; lia).
    apply Forall_app in Hb as [_ Hy]. rewrite Forall_singleton in Hy.
    assert (at_ ((b ++ [y]) ++ post ++ rest) (Z.of_nat (length b)) = CRet y) as E by (rewrite <- app_assoc; apply at_app).
    destruct fuel; cbn [woken_early]; rewrite E, cbind_Ret, (proj2 (Z.ltb_ge y usec)) by done; cbn [andb negb]; by destruct b.
  - destruct fuel as [|fuel]; [rewrite length_app in Hf; cbn in Hf; lia|]. cbn [woken_early].
    assert (Z.of_nat (length (b ++ e ++ [x])) - 1 = Z.of_nat (length (b ++ e))) as -> by (rewrite !length_app; cbn; lia).
    assert ((b ++ e ++ [x]) ++ post ++ rest = (b ++ e) ++ (x :: post) ++ rest) as -> by (by rewrite <- !app_assoc).
    assert (at_ ((b ++ e) ++ (x :: post) ++ rest) (Z.of_nat (length (b ++ e))) = CRet x) as -> by apply at_app.
    apply Forall_app in He as [He Hx]. rewrite Forall_singleton in Hx. rewrite cbind_Ret, (proj2 (Z.ltb_lt x usec)), (proj2 (Z.ltb_lt (-1) _)) by lia.
    cbn [andb negb]. apply IH; [done|done|]. rewrite length_app in Hf. cbn in Hf. lia.
Qed.

Lemma take_samples_spec sample alloc xs taken :
  (∀ i x, xs !! i = Some x → sample (length taken + i)%nat = Some x) → (length taken + length xs ≤ alloc)%nat →
  take_samples sample alloc (length xs) taken = CRet (Some (taken ++ xs)).
Proof.
  revert taken. induction xs as [|x xs IH]; intros taken Hs Hl; cbn [length take_samples]; [by rewrite app_nil_r|].
  rewrite <- (Nat.add_0_r (length taken)) at 1. rewrite (Hs 0%nat x) by done. destruct (Nat.leb_spec alloc (length taken)); [cbn in Hl; lia|].
  rewrite IH, <- app_assoc; [done| |rewrite length_app; cbn in *; lia]. intros i y Hy. rewrite length_app, <- (Hs (S i) y Hy). f_equal. cbn. lia.
Qed.

(** ** The verdict *)

Lemma discard_spec n : 1 ≤ n → 0 ≤ compute_discard n < n.
Proof.
  intros Hn. unfold compute_discard. destruct (Z.eqb_spec n 1); [lia|]. pose proof (Z.div_lt n 20). pose proof (Z.div_pos n 20). lia.
Qed.

Definition sum (l : list Z) : Z := foldr Z.add 0 l.

(** [xs] without the [compute_discard] greatest ones. *)
Definition truncated (xs kept : list Z) : Prop :=
  ∃ dropped, xs ≡ₚ dropped ++ kept ∧ Z.of_nat (length dropped) = compute_discard (Z.of_nat (length xs)) ∧ ∀ d k, d ∈ dropped → k ∈ kept → k ≤ d.

Definition early (usec : Z) (xs : list Z) : list Z := filter (λ x, x < usec) xs.

Lemma early_perm usec xs ys : xs ≡ₚ ys → length (early usec xs) = length (early usec ys).
Proof. intros H. unfold early. by rewrite H. Qed.

Lemma early_split usec b e : Forall (λ x, usec ≤ x) b → Forall (λ x, x < usec) e → early usec (b ++ e) = e.
Proof.
  intros Hb He. unfold early. induction Hb as [|x b Hx _ IH]; cbn [app].
  - induction He as [|x e Hx _ IH]; [done|]. rewrite filter_cons_True by done. by rewrite IH.
  - by rewrite filter_cons_False by lia.
Qed.

Section Verdict.
Context (env : timer_env) (usec : Z) (xs rest : list Z) (sample : nat → option Z).
Context (Hsample : ∀ i x, xs !! i = Some x → sample i = Some x) (Hclose : close xs) (Hlen : 1 ≤ Z.of_nat (length xs) < 2 ^ 31).

Let n := Z.of_nat (length xs).
Let S := qsort cmp xs.

(** What is summed up for the truncated mean. *)
Definition kept : list Z := drop (Z.to_nat (compute_discard n)) S.

Lemma kept_truncated : truncated xs kept.
Proof.
  pose proof (discard_spec n (proj1 Hlen)) as Hd. assert (length S = length xs) as HS by (unfold S; by rewrite qsort_perm).
  exists (take (Z.to_nat (compute_discard n)) S). unfold kept. rewrite take_drop. split_and!; [symmetry; apply qsort_perm|rewrite length_take; fold n; lia|].
  apply falling_app. rewrite take_drop. by apply qsort_falling.
Qed.

Definition too_long : Prop := (n - compute_discard n) * usec + compute_threshold env usec (n - compute_discard n) < sum kept.

Lemma keep_samples_eq : u32 (n - compute_discard n) = n - compute_discard n.
Proof. pose proof (discard_spec n (proj1 Hlen)). unfold u32. apply wrapu_small; lia. Qed.

Lemma sum_eq : foldr Z.add 0 (take (Z.to_nat (n - compute_discard n)) (drop (Z.to_nat (compute_discard n)) (S ++ rest))) = sum kept.
Proof.
  pose proof (discard_spec n (proj1 Hlen)) as Hd. assert (length S = length xs) as HS by (unfold S; by rewrite qsort_perm).
  rewrite drop_app_le by lia. rewrite take_app_length'; [done|]. rewrite length_drop. lia.
Qed.

(** The elements of the array of samples. *)
Lemma at_sample i : 0 ≤ i < n → ∃ x, at_ (S ++ rest) i = CRet x.
Proof.
  intros Hi. assert (length S = length xs) as HS by (unfold S; by rewrite qsort_perm). unfold at_. destruct (Z.ltb_spec i 0); [lia|].
  rewrite lookup_app_l by (unfold n in Hi; lia). destruct (lookup_lt_is_Some_2 S (Z.to_nat i)) as [x ->]; [unfold n in Hi; lia|]. by exists x.
Qed.

(** The first loop ends in the array. *)
Lemma outliners_end :
  rest ≠ [] ∨ (∃ x, x ∈ xs ∧ ¬ outlying env usec x) →
  ∃ i, outliners env (length xs) usec n (S ++ rest) 0 = CRet i ∧ 0 ≤ i ≤ n.
Proof.
  intros Hroom. destruct (falling_split (Z.max (10 * usec) (u32 (3 * monotonic_resolution env))) S) as (a & b & ES & Ha & Hb); [by apply qsort_falling|].
  assert (length S = length xs) as HS by (unfold S; by rewrite qsort_perm).
  assert (n = Z.of_nat (length (a ++ b))) as En by (rewrite <- ES; unfold n; lia).
  pose proof (outliners_spec env usec n a b rest (length xs) [] Ha) as H. cbn [app length] in H. change (Z.of_nat 0) with 0 in H. rewrite ES, H; clear H.
  - assert (b ++ rest ≠ []) as Hne.
    { destruct Hroom as [Hr|(x & Hx & Hn)]; [by destruct b|]. assert (x ∈ a ++ b) as Hx' by (rewrite <- ES; unfold S; by rewrite qsort_perm).
      apply elem_of_app in Hx' as [Hx'|Hx']; [|by destruct b; [apply not_elem_of_nil in Hx'|]]. rewrite Forall_forall in Ha. by destruct (Hn (Ha x Hx')). }
    destruct (b ++ rest); [done|]. eexists. split; [done|]. rewrite En, length_app. lia.
  - eapply Forall_impl; [exact Hb|]. unfold outlying. cbn beta. intros. lia.
  - done.
  - rewrite ES, length_app in HS. lia.
Qed.

(** The second loop counts the calls that woke up early. *)
Lemma woken_early_end :
  woken_early (length xs) usec (S ++ rest) (n - 1) =
  if decide (length (early usec xs) = length xs) then CUB else CRet (n - Z.of_nat (length (early usec xs)) - 1).
Proof.
  destruct (falling_split (usec - 1) S) as (b & e & ES & Hb & He); [by apply qsort_falling|].
  assert (Forall (λ x, usec ≤ x) b) as Hb' by (eapply Forall_impl; [exact Hb|]; cbn beta; intros; lia).
  assert (Forall (λ x, x < usec) e) as He' by (eapply Forall_impl; [exact He|]; cbn beta; intros; lia).
  assert (length S = length xs) as HS by (unfold S; by rewrite qsort_perm).
  assert (length (early usec xs) = length e) as Ee by (rewrite (early_perm usec xs S) by (unfold S; by rewrite qsort_perm); by rewrite ES, early_split).
  pose proof (woken_early_spec usec b rest e (length xs) [] Hb' He') as H. cbn [app] in H. rewrite <- ES in H. rewrite Ee.
  assert (Z.of_nat (length S) = n) as En by (unfold n; lia). rewrite En in H. rewrite H by (rewrite <- HS, ES, length_app; lia).
  rewrite <- HS, ES, length_app in *. destruct b as [|y b]; cbn [length] in *.
  - by rewrite decide_True by lia.
  - rewrite decide_False by lia. f_equal. lia.
Qed.

Lemma timer_test_reports :
  (∃ x, x ∈ xs ∧ usec ≤ x) → rest ≠ [] ∨ (∃ x, x ∈ xs ∧ ¬ outlying env usec x) →
  ∃ out1 first last f median, do_timer_test env sample rest usec n = CRet (out1 ++
      (if decide (early usec xs = []) then [] else [WokenEarly (Z.of_nat (length (early usec xs))) f last]) ++
      [Stats last first median (sum kept) (compute_discard n)] ++
      (if virt_env env then [VirtSkipped] else if decide too_long then [SleptTooLong] else []) ++
      (if decide (early usec xs = [] ∧ (virt_env env = false → ¬ too_long)) then [WithinThresholds] else [])) ∧
    Forall (λ r, ∃ k x y, r = Outliners k x y) out1.
Proof.
  intros (x & Hx & Hux) Hroom. assert (Z.to_nat n = length xs) as En by (unfold n; lia). assert (1 ≤ n) as Hn1 by apply Hlen.
  assert (length (early usec xs) ≠ length xs) as Hne.
  { intros E. assert (length (early usec xs) < length xs)%nat; [|lia]. unfold early. clear -Hx Hux. induction xs as [|y l IH]; [by apply not_elem_of_nil in Hx|].
    rewrite filter_cons. pose proof (length_filter (λ x, x < usec) l). destruct (decide (y < usec)); cbn [length]; [|lia].
    apply elem_of_cons in Hx as [-> |Hx]; [lia|]. specialize (IH Hx). lia. }
  unfold do_timer_test. cbn zeta. rewrite keep_samples_eq, En.
  rewrite (take_samples_spec sample _ xs []) by (done || (cbn; lia)). rewrite cbind_Ret. cbn [app]. cbn beta iota. fold S.
  destruct (outliners_end Hroom) as (i & -> & Hi). rewrite cbind_Ret.
  destruct (at_sample 0) as [first ->]; [lia|]. rewrite cbind_Ret. destruct (at_sample (n - 1)) as [last ->]; [lia|]. rewrite cbind_Ret.
  set (o1 := if 0 <? i then _ else _). assert (∃ out1, o1 = CRet out1 ∧ Forall (λ r, ∃ k x y, r = Outliners k x y) out1) as (out1 & -> & Hout1).
  { unfold o1. destruct (Z.ltb_spec 0 i); [|by exists []]. destruct (at_sample (i - 1)) as [l ->]; [lia|]. rewrite cbind_Ret. eexists. split; [done|].
    constructor; [by eexists _, _, _|constructor]. }
  rewrite cbind_Ret. rewrite woken_early_end, decide_False by done. rewrite cbind_Ret.
  set (m := length (early usec xs)) in *. assert (m ≤ length xs)%nat as Hm by apply length_filter.
  set (o2 := if _ <? n - 1 then _ else _).
  assert (∃ f, o2 = CRet (if decide (early usec xs = []) then [] else [WokenEarly (Z.of_nat m) f last])) as [f ->].
  { unfold o2. destruct (decide (early usec xs = [])) as [E|E].
    - exists 0. assert (m = 0%nat) as -> by (unfold m; by rewrite E). by rewrite (proj2 (Z.ltb_ge _ _)) by lia.
    - assert (m ≠ 0%nat) by (unfold m; by destruct (early usec xs)). rewrite (proj2 (Z.ltb_lt _ _)) by lia.
      destruct (at_sample (n - Z.of_nat m - 1 + 1)) as [f ->]; [unfold n in *; lia|]. rewrite cbind_Ret. exists f. do 3 f_equal. lia. }
  rewrite cbind_Ret. destruct (at_sample (n / 2)) as [median ->]; [split; [apply Z.div_pos; lia|apply Z.div_lt; lia]|]. rewrite cbind_Ret.
  rewrite sum_eq. exists out1, first, last, f, median. split; [|done]. do 2 f_equal. f_equal. cbn [app]. f_equal.
  assert ((n - Z.of_nat m - 1 <? n - 1) = bool_decide (early usec xs ≠ [])) as ->.
  { unfold m. destruct (early usec xs) as [|y l]; cbn [length]; [rewrite bool_decide_false by (by intros H)|rewrite bool_decide_true by done];
      [apply Z.ltb_ge|apply Z.ltb_lt]; lia. }
  assert (((n - compute_discard n) * usec + compute_threshold env usec (n - compute_discard n) <? sum kept) = bool_decide too_long) as ->.
  { unfold too_long. by destruct (Z.ltb_spec ((n - compute_discard n) * usec + compute_threshold env usec (n - compute_discard n)) (sum kept)); symmetry;
      [apply bool_decide_eq_true|apply bool_decide_eq_false; lia]. }
  destruct (virt_env env); cbn [negb andb].
  - destruct (decide (early usec xs = [])) as [E|E].
    + rewrite bool_decide_false by (by intros H). cbn [orb]. by rewrite decide_True.
    + rewrite bool_decide_true by done. cbn [orb]. by rewrite decide_False by (by intros [? _]).
  - destruct (decide too_long) as [L|L].
    + rewrite (bool_decide_true too_long) by done. rewrite orb_true_r. rewrite decide_False by (intros [_ H]; by apply H). done.
    + rewrite (bool_decide_false too_long), orb_false_r by done. destruct (decide (early usec xs = [])) as [E|E].
      * rewrite bool_decide_false by (by intros H). by rewrite decide_True.
      * rewrite bool_decide_true by done. by rewrite decide_False by (by intros [? _]).
Qed.

(** When every sample is an outliner, the first loop reads the element after
    them. *)
Lemma outliners_all : (∀ x, x ∈ xs → outlying env usec x) → rest = [] → outliners env (length xs) usec n (S ++ rest) 0 = CUB.
Proof.
  intros Hall ->. assert (length S = length xs) as HS by (unfold S; by rewrite qsort_perm).
  assert (Forall (outlying env usec) S) as Ha by (apply Forall_forall; intros x Hx; apply Hall; unfold S in Hx; by rewrite qsort_perm in Hx).
  pose proof (outliners_spec env usec n S [] [] (length xs) [] Ha) as H. cbn [app length] in H. rewrite app_nil_r in H. apply H; [constructor|unfold n; lia|lia].
Qed.

Lemma early_all : (∀ x, x ∈ xs → x < usec) → length (early usec xs) = length xs.
Proof.
  intros Hall. assert (Forall (λ x, x < usec) xs) as H by (by apply Forall_forall). pose proof (early_split usec [] xs) as E. cbn [app] in E. by rewrite E.
Qed.

Lemma timer_test_overrun :
  (∀ x, x ∈ xs → x < usec) ∨ (∀ x, x ∈ xs → outlying env usec x) ∧ rest = [] → do_timer_test env sample rest usec n = CUB.
Proof.
  intros Hbad. assert (Z.to_nat n = length xs) as En by (unfold n; lia). assert (1 ≤ n) as Hn1 by apply Hlen.
  unfold do_timer_test. cbn zeta. rewrite En. rewrite (take_samples_spec sample _ xs []) by (done || (cbn; lia)). rewrite cbind_Ret. cbn [app]. cbn beta iota. fold S.
  destruct (decide (rest = [] ∧ Forall (outlying env usec) xs)) as [[Hr Hall]|Hn].
  { rewrite outliners_all; [done|by apply Forall_forall|done]. }
  destruct Hbad as [Hearly|[Hall ->]]; [|destruct Hn; split; [done|by apply Forall_forall]].
  destruct outliners_end as (i & -> & Hi).
  { destruct rest as [|y l]; [|by left]. right. apply not_and_l in Hn as [[]|Hn]; [done|]. apply not_Forall_Exists, Exists_exists in Hn as (x & Hx & Hox); [|apply _]. by exists x. }
  rewrite cbind_Ret. destruct (at_sample 0) as [first ->]; [lia|]. rewrite cbind_Ret. destruct (at_sample (n - 1)) as [last ->]; [lia|]. rewrite cbind_Ret.
  set (o1 := if 0 <? i then _ else _). assert (∃ out1, o1 = CRet out1) as (out1 & ->).
  { unfold o1. destruct (Z.ltb_spec 0 i); [|by exists []]. destruct (at_sample (i - 1)) as [l ->]; [lia|]. rewrite cbind_Ret. by eexists. }
  rewrite cbind_Ret. rewrite woken_early_end, decide_True by (by apply early_all). done.
Qed.
End Verdict.

(** Reports after those about outliners. *)
Lemma in_reports (o1 o : list report) r :
  Forall (λ r, ∃ k x y, r = Outliners k x y) o1 → (∀ k x y, r ≠ Outliners k x y) → r ∈ o1 ++ o ↔ r ∈ o.
Proof.
  intros Ho Hr. rewrite elem_of_app. split; [|by right]. intros [H|H]; [|done]. rewrite Forall_forall in Ho. destruct (Ho r H) as (k & x & y & ->). by destruct (Hr k x y).
Qed.

(** Membership in short lists. *)
Ltac solve_reports := rewrite ?elem_of_cons, ?elem_of_nil in *; intuition congruence.

(** C24. What a timer test reports for the measured times, in any order, when
    they are less than 2^31 apart, not every call woke up early, and not every
    sample up to the end of the array is an outliner: calls that woke up early
    are reported with their exact number; sleeping too long is reported exactly
    when the test does not run under a hypervisor and the sum of the times
    without the greatest ones, 5% of them and at least one of several, exceeds
    the requested time and the threshold; and it passes exactly when neither is
    reported. *)
Theorem timer_test_verdict env usec xs rest sample :
  (∀ i x, xs !! i = Some x → sample i = Some x) → close xs → 1 ≤ Z.of_nat (length xs) < 2 ^ 31 →
  (∃ x, x ∈ xs ∧ usec ≤ x) → rest ≠ [] ∨ (∃ x, x ∈ xs ∧ ¬ outlying env usec x) →
  let n := Z.of_nat (length xs) in
  ∃ kept out, truncated xs kept ∧ do_timer_test env sample rest usec n = CRet out ∧
    let keep := n - compute_discard n in
    let too_long := virt_env env = false ∧ keep * usec + compute_threshold env usec keep < sum kept in
    (∀ k, (∃ f l, WokenEarly k f l ∈ out) ↔ early usec xs ≠ [] ∧ k = Z.of_nat (length (early usec xs))) ∧
    (SleptTooLong ∈ out ↔ too_long) ∧ (WithinThresholds ∈ out ↔ early usec xs = [] ∧ ¬ too_long).
Proof.
  intros Hs Hc Hl Hlate Hroom n. destruct (timer_test_reports env usec xs rest sample Hs Hc Hl Hlate Hroom) as (o1 & first & last & f & median & E & Ho1).
  eexists (kept xs), _. split; [by apply kept_truncated|]. split; [exact E|]. cbn zeta. fold n. clear E.
  unfold too_long. fold n. set (tl := (n - compute_discard n) * usec + compute_threshold env usec (n - compute_discard n) < sum (kept xs)).
  clear -Ho1. split_and!; [intros k|..].
  - split.
    + intros (f' & l' & H). rewrite in_reports in H by done. rewrite !elem_of_app in H.
      destruct (decide (early usec xs = [])), (virt_env env), (decide tl), (decide (_ ∧ _)); solve_reports.
    + intros [Hne ->]. exists f, last. rewrite in_reports by done. rewrite decide_False by done. rewrite elem_of_app. left. by left.
  - rewrite in_reports by done. rewrite !elem_of_app. destruct (decide (early usec xs = [])), (virt_env env), (decide tl), (decide (_ ∧ _)); solve_reports.
  - rewrite in_reports by done. rewrite !elem_of_app. destruct (virt_env env), (decide (early usec xs = [])), (decide tl), (decide (_ ∧ _)); solve_reports.
Qed.

(** The loops of a timer test leave its array exactly when every call woke
    up early, where the second loop reads the element before the first one,
    or when every sample is an outliner and the array ends with them, where
    the first loop reads the element after the last one. *)
Theorem timer_test_overruns env usec xs rest sample :
  (∀ i x, xs !! i = Some x → sample i = Some x) → close xs → 1 ≤ Z.of_nat (length xs) < 2 ^ 31 →
  do_timer_test env sample rest usec (Z.of_nat (length xs)) = CUB ↔
  (∀ x, x ∈ xs → x < usec) ∨ (∀ x, x ∈ xs → outlying env usec x) ∧ rest = [].
Proof.
  intros Hs Hc Hl. split; [|by apply timer_test_overrun]. intros E.
  destruct (decide (Forall (λ x, x < usec) xs)) as [He|He]; [left; by apply Forall_forall|].
  destruct (decide (Forall (outlying env usec) xs ∧ rest = [])) as [[Ho Hr]|Ho]; [right; split; [by apply Forall_forall|done]|]. exfalso.
  destruct (timer_test_reports env usec xs rest sample Hs Hc Hl) as (o1 & first & last & f & median & E' & _); [| |congruence].
  - apply not_Forall_Exists, Exists_exists in He as (x & Hx & Hux); [|apply _]. exists x. split; [done|]. by apply Z.nlt_ge.
  - destruct rest as [|y l]; [|by left]. right. apply not_and_r in Ho as [Ho|[]]; [|done].
    apply not_Forall_Exists, Exists_exists in Ho as (x & Hx & Hux); [|apply _]. by exists x.
Qed.

(** The threshold is that of the comment while it fits 32 bits. *)
Lemma threshold_exact env usec k :
  0 ≤ usec → 1 ≤ k → 0 ≤ timerslack env → 0 ≤ monotonic_resolution env →
  let slack := Z.max (Z.min 100000 (usec / 1000)) (timerslack env) in
  (400 + 2 * monotonic_resolution env + slack) * k + 3000 < 2 ^ 32 →
  compute_threshold env usec k = (400 + 2 * monotonic_resolution env + slack) * k + 3000 / k.
Proof.
  intros Hu Hk Ht Hm slack Hlt. assert (0 ≤ usec / 1000) by (apply Z.div_pos; lia). assert (0 ≤ 3000 / k ≤ 3000).
  { split; [apply Z.div_pos; lia|]. apply Z.div_le_upper_bound; nia. }
  unfold compute_threshold, u32. rewrite Z.quot_div_nonneg by lia. rewrite (wrapu_small 32 (Z.min _ _)) by lia. fold slack. assert (0 ≤ slack) by (unfold slack; lia).
  rewrite (wrapu_small 32 (2 * _)) by nia. rewrite (wrapu_small 32 (400 + _ + _)) by nia. rewrite (wrapu_small 32 (_ * k)) by nia. by rewrite wrapu_small by nia.
Qed.

(** ** Examples *)

Definition env0 : timer_env := mk_env 1 50 false.

Definition samples0 : list Z := [1002; 1100; 1049; 90000; 1003].

Lemma samples0_close : close samples0.
Proof. intros x y Hx Hy. unfold samples0 in *. rewrite !elem_of_cons, elem_of_nil in Hx, Hy. lia. Qed.

(** One outliner of five samples is discarded. *)
Lemma timer_test_verdict_witness :
  let n := Z.of_nat (length samples0) in
  ∃ kept out, truncated samples0 kept ∧ do_timer_test env0 (λ i, samples0 !! i) [0] 1000 n = CRet out ∧
    let keep := n - compute_discard n in
    let too_long := virt_env env0 = false ∧ keep * 1000 + compute_threshold env0 1000 keep < sum kept in
    (∀ k, (∃ f l, WokenEarly k f l ∈ out) ↔ early 1000 samples0 ≠ [] ∧ k = Z.of_nat (length (early 1000 samples0))) ∧
    (SleptTooLong ∈ out ↔ too_long) ∧ (WithinThresholds ∈ out ↔ early 1000 samples0 = [] ∧ ¬ too_long).
Proof.
  apply (timer_test_verdict env0 1000 samples0 [0] (λ i, samples0 !! i)).
  - done.
  - apply samples0_close.
  - by vm_compute.
  - exists 1002. split; [left|lia].
  - by left.
Defined.

Lemma timer_test_overruns_witness :
  do_timer_test env0 (λ i, samples0 !! i) [] 200000 5 = CUB ↔
  (∀ x, x ∈ samples0 → x < 200000) ∨ (∀ x, x ∈ samples0 → outlying env0 200000 x) ∧ [] = @nil Z.
Proof.
  apply (timer_test_overruns env0 200000 samples0 [] (λ i, samples0 !! i)); [done|apply samples0_close|by vm_compute].
Defined.

Lemma timer_example :
  do_timer_test env0 (λ i, samples0 !! i) [0] 1000 5 = CRet [Outliners 1 90000 90000; Stats 1002 90000 1049 4154 1; WithinThresholds].
Proof. by vm_compute. Qed.

(** The two times of the last case, both of which woke up early: the element
    before the array is read. *)
Lemma early_overrun : do_timer_test env0 (λ i, [999000; 999500] !! i) (replicate 498 0) 1000000 2 = CUB.
Proof. by vm_compute. Qed.

(** Differences of 2^31 microseconds do not fit the int of the comparison. *)
Lemma not_sorted : qsort cmp [0; 3000000000] = [0; 3000000000].
Proof. by vm_compute. Qed.

(** The product of the two options is computed as an int. *)
Lemma runtime_overflow : parse_timer_opts (Some 1000000) (Some 3000) = CUB.
Proof. by vm_compute. Qed.
