(* ===== verification/Cgroup.v ===== *)
(** * Control groups

    lib/tst_cgroup.c: the table of controllers, the mounted hierarchies that
    are found by scanning the mount table, the mounting of missing ones, the
    directories of a test in each hierarchy, and their removal.  The kernel is
    an argument: it answers each call with an error number and may take the
    earlier calls into account.  A directory descriptor is the directory that
    was opened, and closing descriptors is left out, as are messages that do
    not end the test; of the others the text is abridged. *)

From S2P Require Import Prelude.
Open Scope Z_scope.

(** ** The kernel *)

(** A directory: the path of a mount point and the names below it. *)
Definition dirid : Type := list Z * list (list Z).

Record mntent := mk_mnt { mnt_type : list Z; mnt_dir_ : list Z; mnt_opts : list Z }.

Inductive call :=
  | KOpen (d : dirid)
  | KOpenFile (d : dirid) (file : list Z)
  | KMkdir (d : dirid)
  | KRmdir (d : dirid)
  | KMount (fstype : list Z) (data : option (list Z)) (path : list Z)
  | KUmount (path : list Z)
  | KRead (d : dirid) (file : list Z)
  | KPrint (d : dirid) (file text : list Z).

#[global] Instance call_eq_dec : EqDecision call.
Proof. solve_decision. Defined.

(** The calls so far with their error numbers, 0 for success. *)
Definition history : Type := list (call * Z).

Record kernel := mk_kernel {
  k_errno : history → call → Z;
  k_text : history → call → list Z;    (* what is read from a file *)
  k_mounts : history → list mntent;    (* /proc/self/mounts *)
}.

Definition EACCES := 13.
Definition EEXIST := 17.
Definition EINVAL := 22.
Definition EROFS := 30.

(** ** The state *)

Record cgroup_dir := mk_dir {
  dir_named : bool;             (* dir_name is not NULL *)
  dir_field : Z;                (* ctrl_field *)
  dir_fd : option dirid;        (* None is 0 *)
  we_created_it : bool;
}.

Record cgroup_root := mk_root {
  ver : Z;
  mnt_path : list Z;
  ctrl_field : Z;
  mnt_dir : cgroup_dir;
  ltp_dir : cgroup_dir;
  drain_dir : cgroup_dir;
  test_dir : cgroup_dir;
  nsdelegate : bool;
  we_mounted_it : bool;
  no_cpuset_prefix : bool;
  memory_recursiveprot : bool;
}.

Record cgroup_ctrl := mk_ctrl { ctrl_root : option nat; we_require_it : bool }.

(** The test directories share the buffer of their name.  [reports] are the
    types of the results that were reported. *)
Record cgroups := mk_cg {
  roots : list cgroup_root;
  controllers : list cgroup_ctrl;
  cgroup_test_dir : list Z;
  calls : history;
  reports : list Z;
}.

Definition TST_CG_V1 := 1.
Definition TST_CG_V2 := 2.
Definition CTRL_MEMORY : nat := 1.
Definition CTRL_CPUSET : nat := 3.
Definition CTRL_IO : nat := 5.
Definition CTRL_BLKIO : nat := 13.
Definition CTRLS_MAX : nat := 18.
Definition ROOTS_MAX : nat := CTRLS_MAX + 1.
Definition PATH_MAX : Z := 4096.
Definition BUFSIZ : Z := 8192.

Definition ctrl_names : list (list Z) :=
  str <$> ["cgroup"; "memory"; "cpu"; "cpuset"; "dmem"; "io"; "pids"; "hugetlb"; "cpuacct"; "devices"; "freezer";
           "net_cls"; "net_prio"; "blkio"; "misc"; "perf_event"; "debug"; "rdma"; "base"]%string.

Definition dir0 : cgroup_dir := mk_dir false 0 None false.
Definition root0 : cgroup_root := mk_root 0 [] 0 dir0 dir0 dir0 dir0 false false false false.
Definition ctrl0 : cgroup_ctrl := mk_ctrl None false.

Definition cg0 (h : history) : cgroups := mk_cg (replicate (ROOTS_MAX + 1) root0) (replicate (CTRLS_MAX + 1) ctrl0) [] h [].

Definition set_roots (rs : list cgroup_root) (s : cgroups) : cgroups := mk_cg rs (controllers s) (cgroup_test_dir s) (calls s) (reports s).
Definition set_ctrls (cs : list cgroup_ctrl) (s : cgroups) : cgroups := mk_cg (roots s) cs (cgroup_test_dir s) (calls s) (reports s).
Definition set_test_name (n : list Z) (s : cgroups) : cgroups := mk_cg (roots s) (controllers s) n (calls s) (reports s).
Definition add_call (c : call) (e : Z) (s : cgroups) : cgroups :=
  mk_cg (roots s) (controllers s) (cgroup_test_dir s) (calls s ++ [(c, e)]) (reports s).
Definition report (t : Z) (s : cgroups) : cgroups := mk_cg (roots s) (controllers s) (cgroup_test_dir s) (calls s) (reports s ++ [t]).

Definition set_mnt_dir (d : cgroup_dir) (r : cgroup_root) : cgroup_root :=
  mk_root (ver r) (mnt_path r) (ctrl_field r) d (ltp_dir r) (drain_dir r) (test_dir r) (nsdelegate r) (we_mounted_it r) (no_cpuset_prefix r)
    (memory_recursiveprot r).
Definition set_ltp_dir (d : cgroup_dir) (r : cgroup_root) : cgroup_root :=
  mk_root (ver r) (mnt_path r) (ctrl_field r) (mnt_dir r) d (drain_dir r) (test_dir r) (nsdelegate r) (we_mounted_it r) (no_cpuset_prefix r)
    (memory_recursiveprot r).
Definition set_drain_dir (d : cgroup_dir) (r : cgroup_root) : cgroup_root :=
  mk_root (ver r) (mnt_path r) (ctrl_field r) (mnt_dir r) (ltp_dir r) d (test_dir r) (nsdelegate r) (we_mounted_it r) (no_cpuset_prefix r)
    (memory_recursiveprot r).
Definition set_test_dir (d : cgroup_dir) (r : cgroup_root) : cgroup_root :=
  mk_root (ver r) (mnt_path r) (ctrl_field r) (mnt_dir r) (ltp_dir r) (drain_dir r) d (nsdelegate r) (we_mounted_it r) (no_cpuset_prefix r)
    (memory_recursiveprot r).
Definition set_mounted (b : bool) (r : cgroup_root) : cgroup_root :=
  mk_root (ver r) (mnt_path r) (ctrl_field r) (mnt_dir r) (ltp_dir r) (drain_dir r) (test_dir r) (nsdelegate r) b (no_cpuset_prefix r)
    (memory_recursiveprot r).

Definition set_field (f : Z) (d : cgroup_dir) : cgroup_dir := mk_dir (dir_named d) f (dir_fd d) (we_created_it d).
Definition set_created (b : bool) (d : cgroup_dir) : cgroup_dir := mk_dir (dir_named d) (dir_field d) (dir_fd d) b.

Definition root_at (i : nat) (s : cgroups) : cres cgroup_root := defined (roots s !! i).
Definition upd_root (i : nat) (f : cgroup_root → cgroup_root) (s : cgroups) : cres cgroups :=
  r ← root_at i s; CRet (set_roots (<[i := f r]> (roots s)) s).

(** ** Controllers *)

Definition has_ctrl (field : Z) (i : nat) : bool := negb (Z.land field (Z.shiftl 1 (Z.of_nat i)) =? 0).
Definition add_ctrl (field : Z) (i : nat) : Z := Z.lor field (Z.shiftl 1 (Z.of_nat i)).

Definition is_name_char (c : Z) : bool := (c =? "_"%cc) || (("a"%cc <=? c) && (c <=? "z"%cc)).

Fixpoint name_len (s : list Z) : nat :=
  match s with [] => 0%nat | c :: s => if is_name_char c then S (name_len s) else 0%nat end.

Fixpoint first_ctrl (name : list Z) (l : nat) (names : list (list Z)) (i : nat) : option nat :=
  match names with
  | [] => None
  | n :: names => if strncmp name n l =? 0 then Some i else first_ctrl name l names (S i)
  end.

Definition cgroup_find_ctrl (ctrl_name : list Z) (strict : bool) (s : cgroups) : cres (option nat * cgroups) :=
  let l := name_len ctrl_name in
  let c := default 0 (ctrl_name !! l) in
  let s := if (32 <? l)%nat && strict then report TWARN s else s in
  if negb ((c =? 10) || (c =? 0)) then
    if strict then CBrk TBROK (str "Unexpected char in " ++ ctrl_name ++ str ": " ++ [c]) else CRet (None, s)
  else CRet (first_ctrl ctrl_name l ctrl_names 0, s).

Definition root_of (i : nat) (s : cgroups) : option nat := c ← controllers s !! i; ctrl_root c.

Definition upd_ctrl (i : nat) (f : cgroup_ctrl → cgroup_ctrl) (s : cgroups) : cgroups := set_ctrls (alter f i (controllers s)) s.

(** ** Hierarchies *)

(** The live entries of the array from [i] on: the loops stop at the first
    one without a version, and [None] is a loop that leaves the array. *)
Fixpoint live (rs : list cgroup_root) (i : nat) : option (list nat) :=
  match rs with
  | [] => None
  | r :: rs => if ver r =? 0 then Some [] else l ← live rs (S i); Some (i :: l)
  end.

Definition cgroup_v2_mounted (s : cgroups) : bool := match roots s with r :: _ => negb (ver r =? 0) | [] => false end.
Definition cgroup_v1_mounted (s : cgroups) : bool := match roots s with _ :: r :: _ => negb (ver r =? 0) | _ => false end.
Definition cgroup_mounted (s : cgroups) : bool := cgroup_v2_mounted s || cgroup_v1_mounted s.
Definition cgroup_v2_nsdelegate (s : cgroups) : bool := match roots s with r :: _ => nsdelegate r | [] => false end.

Definition v1_roots (s : cgroups) : cres (list nat) := defined (live (drop 1 (roots s)) 1).
Definition each_root (s : cgroups) : cres (list nat) := if cgroup_v2_mounted s then defined (live (roots s) 0) else v1_roots s.

Definition cgroup_ctrl_on_v2 (i : nat) (s : cgroups) : bool :=
  match root_of i s with
  | Some r => match roots s !! r with Some r => ver r =? TST_CG_V2 | None => false end
  | None => false
  end.

Section Kernel.
Context (k : kernel).

Definition sys (c : call) (s : cgroups) : Z * cgroups := let e := k_errno k (calls s) c in (e, add_call c e s).

(** A call through its SAFE_ macro. *)
Definition safe (name : string) (c : call) (s : cgroups) : cres cgroups :=
  let '(e, s) := sys c s in
  if e =? 0 then CRet s else CBrk (Z.lor TBROK TERRNO) (str name ++ str " failed").

(** A directory that was not opened has the descriptor 0, which is none. *)
Definition fd_of (d : cgroup_dir) : cres dirid := defined (dir_fd d).

(** [SAFE_FILE_READAT] into a buffer of [BUFSIZ]: the string in it. *)
Definition safe_file_readat (d : dirid) (file : list Z) (s : cgroups) : cres (list Z * cgroups) :=
  let text := k_text k (calls s) (KRead d file) in
  s ← safe "read" (KRead d file) s;
  if BUFSIZ - 1 <=? Z.of_nat (length text) then CBrk TBROK (str "Buffer length too small") else CRet (c_str text, s).

Definition safe_file_printfat (d : dirid) (file text : list Z) : cgroups → cres cgroups := safe "vdprintf" (KPrint d file text).

(** ** Scanning *)

Fixpoint add_ctrls (strict : bool) (toks : list (list Z)) (field : Z) (s : cgroups) : cres (Z * cgroups) :=
  match toks with
  | [] => CRet (field, s)
  | t :: toks =>
      '(c, s) ← cgroup_find_ctrl t strict s;
      add_ctrls strict toks (match c with Some i => add_ctrl field i | None => field end) s
  end.

Definition has_opt (o : string) (toks : list (list Z)) : bool := bool_decide (str o ∈ toks).

(** The label [backref]. *)
Definition record_root (i : nat) (v : Z) (m : mntent) (field : Z) (no_prefix nsdel recprot : bool) (s : cgroups) : cres cgroups :=
  if PATH_MAX <=? Z.of_nat (length (mnt_dir_ m)) then CUB else
  s ← upd_root i (λ r,
    mk_root v (mnt_dir_ m) field (mk_dir true (dir_field (mnt_dir r)) (Some (mnt_dir_ m, [])) (we_created_it (mnt_dir r)))
      (ltp_dir r) (drain_dir r) (test_dir r) nsdel (we_mounted_it r) no_prefix recprot) s;
  CRet (set_ctrls (imap (λ c x, if has_ctrl field c then mk_ctrl (Some i) (we_require_it x) else x) (controllers s)) s).

(** The loop over the V1 hierarchies: whether the set is known, else the
    first free entry. *)
Fixpoint find_v1 (rs : list cgroup_root) (i : nat) (field : Z) (dir : list Z) : cres (option nat) :=
  match rs with
  | [] => CUB
  | r :: rs =>
      if ver r =? 0 then CRet (Some i)
      else if Z.land field (ctrl_field r) =? 0 then find_v1 rs (S i) field dir
      else if field =? ctrl_field r then CRet None
      else CBrk TBROK (str "The intersection of two distinct sets of mounted controllers should be null? Check '" ++ mnt_path r ++
                       str "' and '" ++ dir ++ str "'")
  end.

Definition cgroup_root_scan (m : mntent) (s : cgroups) : cres cgroups :=
  let d : dirid := (mnt_dir_ m, []) in
  s ← safe "open" (KOpen d) s;
  let opts := strtok_all ","%cc (mnt_opts m) in
  if bool_decide (mnt_type m = str "cgroup") then
    '(field, s) ← add_ctrls false opts 0 s;
    if field =? 0 then CRet s else
    i ← find_v1 (drop 1 (roots s)) 1 field (mnt_dir_ m);
    match i with
    | None => CRet s
    | Some i =>
        if (ROOTS_MAX <=? i)%nat then CBrk TBROK (str "Unique controller mounts have exceeded our limit 19?")
        else record_root i TST_CG_V1 m field (has_opt "noprefix" opts) false false s
    end
  else
    '(buf, s) ← safe_file_readat d (str "cgroup.controllers") s;
    '(field, s) ← add_ctrls true (strtok_all " "%cc buf) 0 s;
    r ← root_at 0 s;
    if negb (ver r =? 0) && (field =? ctrl_field r) then CRet s
    else if negb (ctrl_field r =? 0) then CBrk TBROK (str "Available V2 controllers are changing between scans?")
    else record_root 0 TST_CG_V2 m field false (has_opt "nsdelegate" opts) (has_opt "memory_recursiveprot" opts) s.

Fixpoint scan_mounts (ms : list mntent) (s : cgroups) : cres cgroups :=
  match ms with
  | [] => CRet s
  | m :: ms =>
      s ← (if strncmp (mnt_type m) (str "cgroup") 6 =? 0 then cgroup_root_scan m s else CRet s);
      scan_mounts ms s
  end.

Definition tst_cg_scan (s : cgroups) : cres cgroups :=
  match k_mounts k (calls s) with
  | [] => CBrk (Z.lor TBROK TERRNO) (str "Can't read mounts or no mounts?")
  | ms => scan_mounts ms s
  end.

(** ** Mounting *)

Section Mount.
Context (tmpdir : list Z).

Definition mount_path (name : list Z) : cres (list Z) :=
  let p := tmpdir ++ str "/cgroup_" ++ name in if PATH_MAX <=? Z.of_nat (length p) then CUB else CRet p.

Definition cgroup_mount_v2 (s : cgroups) : cres cgroups :=
  path ← mount_path (str "unified");
  let '(e, s) := sys (KMkdir (path, [])) s in
  s ← (if e =? 0 then upd_root 0 (λ r, set_mnt_dir (set_created true (mnt_dir r)) r) s else CRet s);
  if (e =? 0) || (e =? EEXIST) then
    let '(ret, s) := sys (KMount (str "cgroup2") (Some (str "memory_recursiveprot")) path) s in
    let '(ret, s) := if ret =? EINVAL then sys (KMount (str "cgroup2") None path) s else (ret, s) in
    if ret =? 0 then
      s ← tst_cg_scan s;
      upd_root 0 (set_mounted true) s
    else
      r ← root_at 0 s;
      if we_created_it (mnt_dir r) then
        s ← upd_root 0 (λ r, set_mnt_dir (set_created false (mnt_dir r)) r) s;
        safe "rmdir" (KRmdir (path, [])) s
      else CRet s
  else if e =? EACCES then CRet s
  else CBrk (Z.lor TBROK TERRNO) (str "mkdir(" ++ path ++ str ", 0777)").

Definition cgroup_mount_v1 (ctrl : nat) (name : list Z) (s : cgroups) : cres cgroups :=
  if (ctrl =? CTRL_BLKIO)%nat && bool_decide (is_Some (root_of CTRL_IO s)) then CRet (report TCONF s) else
  path ← mount_path name;
  let '(e, s) := sys (KMkdir (path, [])) s in
  let made_dir := e =? 0 in
  if made_dir || (e =? EEXIST) then
    let '(ret, s) := sys (KMount (str "cgroup") (Some name) path) s in
    if negb (ret =? 0) then
      if made_dir then safe "rmdir" (KRmdir (path, [])) s else CRet s
    else
      s ← tst_cg_scan s;
      match root_of ctrl s with
      | None => CRet s
      | Some r =>
          s ← upd_root r (λ r, set_mnt_dir (set_created made_dir (mnt_dir r)) (set_mounted true r)) s;
          if (ctrl =? CTRL_MEMORY)%nat then
            r ← root_at r s;
            d ← fd_of (mnt_dir r);
            safe_file_printfat d (str "memory.use_hierarchy") (str "1") s
          else CRet s
      end
  else if e =? EACCES then CRet s
  else CBrk (Z.lor TBROK TERRNO) (str "mkdir(" ++ path ++ str ", 0777)").

(** ** Directories *)

Definition cgroup_dir_mk (parent : cgroup_dir) (dir_name : list Z) (s : cgroups) : cres (cgroup_dir * cgroups) :=
  p ← fd_of parent;
  let d : dirid := (p.1, p.2 ++ [dir_name]) in
  let '(e, s) := sys (KMkdir d) s in
  if (e =? 0) || (e =? EEXIST) then
    s ← safe "openat" (KOpen d) s;
    CRet (mk_dir true (dir_field parent) (Some d) (e =? 0), s)
  else if e =? EACCES then CBrk (Z.lor TCONF TERRNO) (str "Lack permission to make '" ++ dir_name ++ str "'; premake it or run as root")
  else if e =? EROFS then CBrk (Z.lor TCONF TERRNO) (str "'" ++ dir_name ++ str "' must not be read-only")
  else CBrk (Z.lor TBROK TERRNO) (str "mkdirat('" ++ dir_name ++ str "', 0777)").

Fixpoint copy_files (src dst : dirid) (files : list (list Z)) (s : cgroups) : cres cgroups :=
  match files with
  | [] => CRet s
  | f :: files =>
      '(knob_val, s) ← safe_file_readat src f s;
      s ← safe_file_printfat dst f knob_val s;
      copy_files src dst files s
  end.

Definition cgroup_copy_cpuset (root : cgroup_root) (s : cgroups) : cres cgroups :=
  src ← fd_of (mnt_dir root);
  dst ← fd_of (ltp_dir root);
  copy_files src dst (str <$> (if no_cpuset_prefix root then ["mems"; "cpus"] else ["cpuset.mems"; "cpuset.cpus"])%string) s.

(** ** Requiring a controller *)

Record tst_cg_opts := mk_opts { needs_ver : Z; test_pid : Z; needs_nsdelegate : bool }.

(** Up to the label [mkdirs]. *)
Definition require_root (ctrl : nat) (name : list Z) (base : bool) (o : tst_cg_opts) (s : cgroups) : cres cgroups :=
  if bool_decide (is_Some (root_of ctrl s)) then CRet s else
  s ← tst_cg_scan s;
  if bool_decide (is_Some (root_of ctrl s)) then CRet s else
  s ← (if negb (cgroup_v2_mounted s) && negb (needs_ver o =? TST_CG_V1) then cgroup_mount_v2 s else CRet s);
  if bool_decide (is_Some (root_of ctrl s)) then CRet s else
  s ← (if negb (needs_ver o =? TST_CG_V2) then cgroup_mount_v1 ctrl name s else CRet s);
  let s := if base then upd_ctrl ctrl (λ c, mk_ctrl (Some 0%nat) (we_require_it c)) s else s in
  if bool_decide (is_Some (root_of ctrl s)) then CRet s
  else CBrk TCONF (str "'" ++ name ++ str "' controller required, but not available").

Definition cgsc : list Z := str "cgroup.subtree_control".

(** The ltp directory with the controller enabled in it. *)
Definition require_ltp (ctrl : nat) (name : list Z) (base : bool) (i : nat) (s : cgroups) : cres cgroups :=
  let on_v2 := cgroup_ctrl_on_v2 ctrl s in
  root ← root_at i s;
  s ← (if on_v2 && negb base then
         d ← fd_of (mnt_dir root);
         if we_mounted_it root then safe_file_printfat d cgsc (str "+" ++ name) s
         else CRet (sys (KPrint d cgsc (str "+" ++ name)) s).2
       else CRet s);
  s ← match dir_fd (ltp_dir root) with
      | None => '(d, s) ← cgroup_dir_mk (mnt_dir root) (str "ltp") s; upd_root i (set_ltp_dir d) s
      | Some _ => upd_root i (λ r, set_ltp_dir (set_field (Z.lor (dir_field (ltp_dir r)) (dir_field (mnt_dir r))) (ltp_dir r)) r) s
      end;
  if base then CRet s else
  root ← root_at i s;
  d ← fd_of (ltp_dir root);
  if on_v2 then safe_file_printfat d cgsc (str "+" ++ name) s
  else
    s ← safe_file_printfat d (str "cgroup.clone_children") (str "1") s;
    if (ctrl =? CTRL_CPUSET)%nat then cgroup_copy_cpuset root s else CRet s.

Context (getpid : Z).

(** The label [mkdirs]. *)
Definition require_dirs (ctrl : nat) (name : list Z) (base : bool) (o : tst_cg_opts) (s : cgroups) : cres cgroups :=
  i ← defined (root_of ctrl s);
  if needs_nsdelegate o && cgroup_v2_mounted s && negb (cgroup_v2_nsdelegate s) then
    CBrk TCONF (str "Requires cgroup2 to be mounted with nsdelegate") else
  s ← upd_root i (λ r, set_mnt_dir (set_field (add_ctrl (dir_field (mnt_dir r)) ctrl) (mnt_dir r)) r) s;
  if cgroup_ctrl_on_v2 ctrl s && (needs_ver o =? TST_CG_V1) then
    CBrk TCONF (str "V1 '" ++ name ++ str "' controller required, but it's mounted on V2") else
  if negb (cgroup_ctrl_on_v2 ctrl s) && (needs_ver o =? TST_CG_V2) then
    CBrk TCONF (str "V2 '" ++ name ++ str "' controller required, but it's mounted on V1") else
  s ← require_ltp ctrl name base i s;
  root ← root_at i s;
  '(d, s) ← cgroup_dir_mk (ltp_dir root) (str "drain") s;
  s ← upd_root i (set_drain_dir d) s;
  let s := set_test_name (str "test-" ++ fmt_li (if test_pid o =? 0 then getpid else test_pid o)) s in
  root ← root_at i s;
  '(d, s) ← cgroup_dir_mk (ltp_dir root) (cgroup_test_dir s) s;
  upd_root i (set_test_dir d) s.

(** The name of the controller is read before the pointer is compared with
    NULL. *)
Definition tst_cg_require (ctrl_name : list Z) (o : tst_cg_opts) (s : cgroups) : cres cgroups :=
  '(ctrl, s) ← cgroup_find_ctrl ctrl_name true s;
  ctrl ← defined ctrl;
  name ← defined (ctrl_names !! ctrl);
  let base := bool_decide (name = str "base") in
  if base && negb (needs_ver o =? TST_CG_V2) then CBrk TCONF (str "Base control only support needs_ver TST_CG_V2!") else
  c ← defined (controllers s !! ctrl);
  let s := if we_require_it c then report TWARN s else s in
  let s := upd_ctrl ctrl (λ c, mk_ctrl (ctrl_root c) true) s in
  s ← require_root ctrl name base o s;
  require_dirs ctrl name base o s.
End Mount.

(** ** Cleaning up *)

Fixpoint print_all (d : dirid) (file : list Z) (toks : list (list Z)) (s : cgroups) : cres cgroups :=
  match toks with
  | [] => CRet s
  | t :: toks =>
      let '(e, s) := sys (KPrint d file t) s in
      if e =? 0 then print_all d file toks s else CBrk (Z.lor TBROK TERRNO) (str "Failed to drain " ++ t)
  end.

Definition cgroup_drain (v : Z) (source dest : cgroup_dir) (s : cgroups) : cres cgroups :=
  let file_name := str (if v =? TST_CG_V1 then "tasks" else "cgroup.procs") in
  src ← fd_of source;
  '(pid_list, s) ← safe_file_readat src file_name s;
  dst ← fd_of dest;
  s ← safe "openat" (KOpenFile dst file_name) s;
  print_all dst file_name (strtok_all 10 pid_list) s.

Definition safe_unlinkat (parent : cgroup_dir) (name : list Z) (s : cgroups) : cres cgroups :=
  d ← fd_of parent;
  safe "unlinkat" (KRmdir (d.1, d.2 ++ [name])) s.

(** A loop over hierarchies or controllers. *)
Fixpoint for_all (f : nat → cgroups → cres cgroups) (ix : list nat) (s : cgroups) : cres cgroups :=
  match ix with [] => CRet s | i :: ix => s ← f i s; for_all f ix s end.

Definition remove_test (i : nat) (s : cgroups) : cres cgroups :=
  root ← root_at i s;
  if negb (dir_named (test_dir root)) then CRet s else
  s ← cgroup_drain (ver root) (test_dir root) (drain_dir root) s;
  safe_unlinkat (ltp_dir root) (cgroup_test_dir s) s.

Definition remove_ltp (i : nat) (s : cgroups) : cres cgroups :=
  root ← root_at i s;
  if negb (we_created_it (ltp_dir root)) then CRet s else
  s ← cgroup_drain (ver root) (drain_dir root) (mnt_dir root) s;
  s ← (if dir_named (drain_dir root) then safe_unlinkat (ltp_dir root) (str "drain") s else CRet s);
  if dir_named (ltp_dir root) then safe_unlinkat (mnt_dir root) (str "ltp") s else CRet s.

Definition disable_ctrl (c : nat) (s : cgroups) : cres cgroups :=
  name ← defined (ctrl_names !! c);
  if negb (cgroup_ctrl_on_v2 c s) then CRet s else
  i ← defined (root_of c s);
  root ← root_at i s;
  if negb (we_mounted_it root) || bool_decide (name = str "base") then CRet s else
  d ← fd_of (mnt_dir root);
  safe_file_printfat d cgsc (str "-" ++ name) s.

Definition unmount (i : nat) (s : cgroups) : cres cgroups :=
  root ← root_at i s;
  if negb (we_mounted_it root) then CRet s else
  let '(e, s) := sys (KUmount (mnt_path root)) s in
  if negb (e =? 0) then CRet s else safe "rmdir" (KRmdir (mnt_path root, [])) s.

(** The label [clear_data]. *)
Definition clear_data (s : cgroups) : cgroups :=
  mk_cg (replicate (ROOTS_MAX + 1) root0) (replicate (CTRLS_MAX + 1) ctrl0) (cgroup_test_dir s) (calls s) (reports s).

Definition tst_cg_cleanup (s : cgroups) : cres cgroups :=
  if negb (cgroup_mounted s) then CRet (clear_data s) else
  ix ← each_root s;
  s ← for_all remove_test ix s;
  s ← for_all remove_ltp ix s;
  s ← for_all disable_ctrl (seq 0 (CTRLS_MAX + 1)) s;
  s ← for_all unmount ix s;
  CRet (clear_data s).
End Kernel.
