(* ===== verification/CgroupFacts.v ===== *)
(** * Control groups: the table of hierarchies

    What every operation keeps: the V2 hierarchy comes first and the V1 ones
    follow without a gap and end before the array does, no controller is on
    two V1 hierarchies, a controller points to a hierarchy that has it, and
    the directories of a hierarchy are either all open or all unused.  Shows
    that scanning finds every mounted hierarchy and that nothing leaves the
    array. *)

From S2P Require Import Prelude Cgroup.
Open Scope Z_scope.

(** ** The invariant *)

Definition ltp : list Z := str "ltp".
Definition drain : list Z := str "drain".

Definition unopened (r : cgroup_root) : Prop := ltp_dir r = dir0 ∧ drain_dir r = dir0 ∧ test_dir r = dir0.

(** The directories of a test below the mount point [p]. *)
Definition opened (p name : list Z) (r : cgroup_root) : Prop :=
  (dir_named (ltp_dir r) = true ∧ dir_fd (ltp_dir r) = Some (p, [ltp])) ∧
  (dir_named (drain_dir r) = true ∧ dir_fd (drain_dir r) = Some (p, [ltp; drain])) ∧
  (dir_named (test_dir r) = true ∧ dir_fd (test_dir r) = Some (p, [ltp; name])).

Definition root_ok (r : cgroup_root) : Prop :=
  dir_fd (mnt_dir r) = Some (mnt_path r, []) ∧ (unopened r ∨ ∃ p name, opened p name r).

Definition v2_ok (r : cgroup_root) : Prop := ver r = 2 ∧ root_ok r ∨ ver r = 0 ∧ ctrl_field r = 0 ∧ unopened r.
Definition v1_ok (r : cgroup_root) : Prop := ver r = 1 ∧ ctrl_field r ≠ 0 ∧ root_ok r.

Definition apart (vs : list cgroup_root) : Prop :=
  ∀ i j r1 r2, vs !! i = Some r1 → vs !! j = Some r2 → i ≠ j → Z.land (ctrl_field r1) (ctrl_field r2) = 0.

Inductive roots_ok : list cgroup_root → Prop :=
  Roots_ok r0 vs n : (length vs + S n = 19)%nat → v2_ok r0 → Forall v1_ok vs → apart vs → roots_ok (r0 :: vs ++ replicate (S n) root0).

(** [base] is no controller of the kernel and only uses the V2 hierarchy. *)
Definition points (rs : list cgroup_root) (cs : list cgroup_ctrl) : Prop :=
  ∀ c x i, cs !! c = Some x → ctrl_root x = Some i →
    ∃ r, rs !! i = Some r ∧ ver r ≠ 0 ∧ (has_ctrl (ctrl_field r) c = true ∨ c = CTRLS_MAX ∧ i = 0%nat).

Definition found (rs : list cgroup_root) (cs : list cgroup_ctrl) : Prop :=
  ∀ i r c x, rs !! i = Some r → has_ctrl (ctrl_field r) c = true → cs !! c = Some x → is_Some (ctrl_root x).

Definition tables_ok (rs : list cgroup_root) (cs : list cgroup_ctrl) : Prop :=
  roots_ok rs ∧ length cs = 19%nat ∧ points rs cs ∧ found rs cs.

Definition wf (s : cgroups) : Prop := tables_ok (roots s) (controllers s).

(** ** Calls that leave the tables alone *)

(** Only mount points are made or removed. *)
Definition neutral (h : history) : Prop :=
  Forall (λ x, match x.1 with KMkdir d | KRmdir d => d.2 = [] | _ => True end) h.

Definition quiet (s s' : cgroups) : Prop :=
  roots s' = roots s ∧ controllers s' = controllers s ∧ cgroup_test_dir s' = cgroup_test_dir s ∧ ∃ h, calls s' = calls s ++ h ∧ neutral h.

#[export] Instance quiet_preorder : PreOrder quiet.
Proof.
  split.
  - intros s. split_and!; [done..|]. exists []. rewrite app_nil_r. by split; [|constructor].
  - intros s1 s2 s3 (E1 & E2 & E3 & h & E4 & H) (F1 & F2 & F3 & h' & F4 & H'). unfold quiet. split_and!; [congruence..|].
    exists (h ++ h'). rewrite F4, E4, app_assoc. by split; [|apply Forall_app].
Qed.

Lemma quiet_wf s s' : quiet s s' → wf s → wf s'.
Proof. intros (E1 & E2 & _). unfold wf. by rewrite E1, E2. Qed.

Lemma res_quiet t s : quiet s (report t s).
Proof. unfold quiet. cbn. split_and!; [done..|]. exists []. rewrite app_nil_r. by split; [|constructor]. Qed.

Section Kernel.
Context (k : kernel).

Lemma sys_quiet c s : neutral [(c, 0)] → quiet s (sys k c s).2.
Proof. unfold quiet, neutral. rewrite Forall_singleton. intros H. cbn. split_and!; [done..|]. eexists. split; [done|]. by rewrite Forall_singleton. Qed.

Lemma safe_quiet name c s : neutral [(c, 0)] → good (λ s', quiet s s' ∧ (c, 0) ∈ calls s') (safe k name c s).
Proof.
  intros H. unfold safe. pose proof (sys_quiet c s H) as Hq. unfold sys in *. cbv zeta in *. destruct (Z.eqb_spec (k_errno k (calls s) c) 0) as [E|]; [|done].
  rewrite E in *. split; [done|]. cbn. rewrite elem_of_app. right. by left.
Qed.

Ltac neutral_call := by (repeat constructor).

Lemma readat_quiet d f s : good (λ x, quiet s x.2 ∧ x.1 = c_str (k_text k (calls s) (KRead d f))) (safe_file_readat k d f s).
Proof.
  unfold safe_file_readat. eapply good_bind; [apply safe_quiet; neutral_call|]. intros s' [Hq _]. by destruct (_ <=? _).
Qed.

(** ** Names of controllers *)

Definition ctrl_of (name : list Z) : option nat :=
  let l := name_len name in
  let c := default 0 (name !! l) in
  if negb ((c =? 10) || (c =? 0)) then None else first_ctrl name l ctrl_names 0.

Definition fields (toks : list (list Z)) (field : Z) : Z :=
  foldl (λ f t, match ctrl_of t with Some i => add_ctrl f i | None => f end) field toks.

Lemma find_ctrl_spec name strict s : good (λ x, quiet s x.2 ∧ x.1 = ctrl_of name) (cgroup_find_ctrl name strict s).
Proof.
  unfold cgroup_find_ctrl, ctrl_of.
  assert (quiet s (if (32 <? name_len name)%nat && strict then report TWARN s else s)) by (destruct (_ && _); [apply res_quiet|reflexivity]).
  destruct (negb _); [|done]. by destruct strict.
Qed.

Lemma add_ctrls_spec strict toks : ∀ field s, good (λ x, quiet s x.2 ∧ x.1 = fields toks field) (add_ctrls strict toks field s).
Proof.
  induction toks as [|t toks IH]; intros field s; cbn [add_ctrls]; [by split|]. eapply good_bind; [apply find_ctrl_spec|].
  intros [c s1] [Hq E]. cbn [fst snd] in *. subst c. eapply good_mono; [apply IH|]. intros x [Hx ->]. split; [by etransitivity|done].
Qed.

(** ** The array of hierarchies *)

Lemma has_ctrl_bit f c : has_ctrl f c = Z.testbit f (Z.of_nat c).
Proof.
  unfold has_ctrl. rewrite Z.shiftl_1_l. destruct (Z.eqb_spec (Z.land f (2 ^ Z.of_nat c)) 0) as [E|E]; cbn [negb].
  - apply (f_equal (λ z, Z.testbit z (Z.of_nat c))) in E. rewrite Z.land_spec, Z.pow2_bits_true, andb_true_r, Z.bits_0 in E by lia. done.
  - symmetry. destruct (Z.testbit f (Z.of_nat c)) eqn:Eb; [done|]. contradict E. apply Z.bits_inj'. intros n Hn. rewrite Z.land_spec, Z.bits_0.
    rewrite Z.pow2_bits_eqb by lia. destruct (Z.eqb_spec (Z.of_nat c) n) as [<-|]; [by rewrite Eb|by rewrite andb_false_r].
Qed.

Lemma live_spec vs : Forall (λ r, ver r ≠ 0) vs → ∀ n i, live (vs ++ replicate (S n) root0) i = Some (seq i (length vs)).
Proof.
  induction 1 as [|r vs Hr Hvs IH]; intros n i; [done|]. cbn [app live length seq]. destruct (Z.eqb_spec (ver r) 0); [done|]. by rewrite IH.
Qed.

Lemma v1_live vs : Forall v1_ok vs → Forall (λ r, ver r ≠ 0) vs.
Proof. intros H. eapply Forall_impl; [exact H|]. intros r (-> & _). done. Qed.

(** The first free entry comes after sets that have nothing in common with
    the new one; otherwise the set is there already. *)
Lemma find_v1_spec field dir vs n : Forall v1_ok vs → ∀ i,
  good (λ o, match o with
             | Some j => j = (i + length vs)%nat ∧ Forall (λ r, Z.land field (ctrl_field r) = 0) vs
             | None => ∃ j r, vs !! j = Some r ∧ ctrl_field r = field
             end) (find_v1 (vs ++ replicate (S n) root0) i field dir).
Proof.
  induction 1 as [|r vs (Hv & Hf & Hr) Hvs IH]; intros i.
  - cbn. split; [lia|constructor].
  - cbn [app find_v1]. rewrite Hv. cbn [Z.eqb]. destruct (Z.eqb_spec (Z.land field (ctrl_field r)) 0) as [Hl|Hl].
    + eapply good_mono; [apply IH|]. intros [j|]; [intros [-> ?]|intros (j & r' & ? & ?)].
      * split; [cbn; lia|by constructor].
      * by exists (S j), r'.
    + destruct (Z.eqb_spec field (ctrl_field r)) as [->|]; [|done]. by exists 0%nat, r.
Qed.

(** ** Recording a hierarchy *)

Definition recorded (v : Z) (m : mntent) (field : Z) (no_prefix nsdel recprot : bool) (r : cgroup_root) : cgroup_root :=
  mk_root v (mnt_dir_ m) field (mk_dir true (dir_field (mnt_dir r)) (Some (mnt_dir_ m, [])) (we_created_it (mnt_dir r)))
    (ltp_dir r) (drain_dir r) (test_dir r) nsdel (we_mounted_it r) no_prefix recprot.

Definition attached (i : nat) (field : Z) (cs : list cgroup_ctrl) : list cgroup_ctrl :=
  imap (λ c x, if has_ctrl field c then mk_ctrl (Some i) (we_require_it x) else x) cs.

Definition short (m : mntent) : Prop := Z.of_nat (length (mnt_dir_ m)) < PATH_MAX.

Lemma record_root_eq i v m field a b c s r : short m → roots s !! i = Some r →
  record_root i v m field a b c s =
    CRet (mk_cg (<[i := recorded v m field a b c r]> (roots s)) (attached i field (controllers s)) (cgroup_test_dir s) (calls s) (reports s)).
Proof.
  intros Hm Hr. unfold record_root, short in *. destruct (Z.leb_spec PATH_MAX (Z.of_nat (length (mnt_dir_ m)))); [lia|].
  unfold upd_root, root_at. by rewrite Hr.
Qed.

Lemma attached_lookup i field cs c x : attached i field cs !! c = Some x →
  ∃ y, cs !! c = Some y ∧ x = if has_ctrl field c then mk_ctrl (Some i) (we_require_it y) else y.
Proof. unfold attached. rewrite list_lookup_imap. destruct (cs !! c) as [y|]; cbn; [|done]. intros [= <-]. by exists y. Qed.

Lemma attached_points rs cs i r r' : rs !! i = Some r → ctrl_field r = 0 → ver r' ≠ 0 → points rs cs →
  points (<[i := r']> rs) (attached i (ctrl_field r') cs).
Proof.
  intros Hr Hf Hv Hp c x j Hx Hj. pose proof (lookup_lt_Some _ _ _ Hr). apply attached_lookup in Hx as (y & Hy & ->).
  destruct (has_ctrl (ctrl_field r') c) eqn:Ec; cbn in Hj.
  - injection Hj as <-. exists r'. rewrite list_lookup_insert_eq by done. auto.
  - destruct (Hp c y j Hy Hj) as (r2 & Hr2 & Hv2 & Hc). destruct (decide (i = j)) as [<-|].
    + exists r'. rewrite list_lookup_insert_eq by done. split_and!; [done..|]. right. destruct Hc as [Hc|]; [|done].
      replace r2 with r in Hc by congruence. rewrite Hf, has_ctrl_bit, Z.bits_0 in Hc. done.
    + exists r2. by rewrite list_lookup_insert_ne.
Qed.

Lemma attached_found rs cs i r' : (i < length rs)%nat → found rs cs → found (<[i := r']> rs) (attached i (ctrl_field r') cs).
Proof.
  intros Hi Hf j r c x Hj Hc Hx. apply attached_lookup in Hx as (y & Hy & ->). destruct (has_ctrl (ctrl_field r') c) eqn:Ec; [done|].
  destruct (decide (i = j)) as [<-|]; [|rewrite list_lookup_insert_ne in Hj by done; by eapply Hf].
  rewrite list_lookup_insert_eq in Hj by done. congruence.
Qed.

Lemma insert_free {A} (x : A) r0 vs y (ys : list A) : <[S (length vs) := x]> (r0 :: vs ++ y :: ys) = r0 :: (vs ++ [x]) ++ ys.
Proof.
  change (r0 :: <[length vs := x]> (vs ++ y :: ys) = r0 :: (vs ++ [x]) ++ ys). f_equal.
  rewrite insert_app_r_alt by done. rewrite Nat.sub_diag. cbn. by rewrite <- app_assoc.
Qed.

Lemma apart_snoc vs r : apart vs → Forall (λ x, Z.land (ctrl_field r) (ctrl_field x) = 0) vs → apart (vs ++ [r]).
Proof.
  intros Ha Hr i j r1 r2 Hi Hj Hne. rewrite Forall_forall in Hr.
  apply lookup_app_Some in Hi as [Hi|[Hi1 Hi]], Hj as [Hj|[Hj1 Hj]].
  - by eapply Ha.
  - apply list_lookup_singleton_Some in Hj as [_ <-]. rewrite Z.land_comm. apply Hr. by eapply list_elem_of_lookup_2.
  - apply list_lookup_singleton_Some in Hi as [_ <-]. apply Hr. by eapply list_elem_of_lookup_2.
  - apply list_lookup_singleton_Some in Hi as [? _], Hj as [? _]. lia.
Qed.

(** ** Scanning *)

Definition is_v1 (m : mntent) : Prop := mnt_type m = str "cgroup".

Definition opts_field (m : mntent) : Z := fields (strtok_all ","%cc (mnt_opts m)) 0.

Definition controllers_field (h : history) (m : mntent) : Z :=
  fields (strtok_all " "%cc (c_str (k_text k h (KRead (mnt_dir_ m, []) (str "cgroup.controllers"))))) 0.

Definition known (m : mntent) (rs : list cgroup_root) : Prop :=
  (is_v1 m → opts_field m ≠ 0 → ∃ i r, rs !! S i = Some r ∧ ver r = TST_CG_V1 ∧ ctrl_field r = opts_field m) ∧
  (¬ is_v1 m → ∃ r, rs !! 0%nat = Some r ∧ ver r = TST_CG_V2).

(** What an entry of the mount table changes. *)
Inductive scan_step (m : mntent) (rs : list cgroup_root) (cs : list cgroup_ctrl) : list cgroup_root → list cgroup_ctrl → Prop :=
  | Scan_known : known m rs → scan_step m rs cs rs cs
  | Scan_v2 r0 rs' h b c : ¬ is_v1 m → rs = r0 :: rs' → ctrl_field r0 = 0 → (ver r0 ≠ 0 → controllers_field h m ≠ 0) →
      scan_step m rs cs (recorded 2 m (controllers_field h m) false b c r0 :: rs') (attached 0 (controllers_field h m) cs)
  | Scan_v1 r0 vs n a : is_v1 m → opts_field m ≠ 0 → rs = r0 :: vs ++ replicate (S (S n)) root0 →
      Forall (λ r, Z.land (opts_field m) (ctrl_field r) = 0) vs → Forall v1_ok vs →
      scan_step m rs cs (r0 :: (vs ++ [recorded 1 m (opts_field m) a false false root0]) ++ replicate (S n) root0)
        (attached (S (length vs)) (opts_field m) cs).

Lemma free_unique (vs1 vs2 : list cgroup_root) n1 n2 : Forall (λ r, ver r ≠ 0) vs1 → Forall (λ r, ver r ≠ 0) vs2 →
  vs1 ++ replicate n1 root0 = vs2 ++ replicate n2 root0 → vs1 = vs2 ∧ n1 = n2.
Proof.
  intros H1. revert vs2. induction H1 as [|r1 vs1 Hr1 H1 IH]; intros vs2 H2 E.
  - destruct H2 as [|r2 vs2 Hr2 H2]; [|destruct n1; [done|injection E as <- _; by destruct Hr2]]. split; [done|]. apply (f_equal length) in E.
    by rewrite !length_app, !length_replicate in E.
  - destruct H2 as [|r2 vs2 Hr2 H2]; [destruct n2; [done|injection E as -> _; by destruct Hr1]|]. injection E as <- E. by destruct (IH vs2 H2 E) as [-> ->].
Qed.

Lemma roots_ok_inv r0 rs : roots_ok (r0 :: rs) →
  ∃ vs n, rs = vs ++ replicate (S n) root0 ∧ (length vs + S n = 19)%nat ∧ v2_ok r0 ∧ Forall v1_ok vs ∧ apart vs.
Proof. intros H. inversion H as [r0' vs n ? ? ? ? E]. subst. by exists vs, n. Qed.

Lemma scan_step_ok m rs cs rs' cs' : scan_step m rs cs rs' cs' → tables_ok rs cs → tables_ok rs' cs'.
Proof.
  intros [Hk|r0 rs1 h b c _ -> Hz _|r0 vs n a Hm Hz -> Hd Hvs]; [done|..]; intros (Hr & Hl & Hp & Hf);
    (split_and!; [|unfold attached; by rewrite length_imap|..]).
  - apply roots_ok_inv in Hr as (vs & n & -> & Hn & Hv2 & Hv1 & Ha). apply Roots_ok; [done| |done|done].
    left. split; [done|]. split; [done|]. destruct Hv2 as [(_ & _ & H)|(_ & _ & H)]; [exact H|by left].
  - by apply (attached_points (r0 :: rs1) _ 0 r0 (recorded 2 m (controllers_field h m) false b c r0)).
  - apply (attached_found (r0 :: rs1) _ 0 (recorded 2 m (controllers_field h m) false b c r0)); [cbn; lia|done].
  - apply roots_ok_inv in Hr as (vs' & n' & E & Hn & Hv2 & Hv1 & Ha).
    apply free_unique in E as [<- [= <-]]; [|by apply v1_live..]. apply Roots_ok; [rewrite length_app; cbn; lia|done| |by apply apart_snoc].
    apply Forall_app. split; [done|]. apply Forall_singleton. split_and!; [done..|]. split; [done|]. by left.
  - rewrite <- (insert_free _ r0 vs root0). apply (attached_points _ _ _ root0 (recorded 1 m (opts_field m) a false false root0)); try done.
    by apply (list_lookup_middle vs).
  - rewrite <- (insert_free _ r0 vs root0). apply (attached_found _ _ _ (recorded 1 m (opts_field m) a false false root0)); [|done].
    cbn. rewrite length_app. cbn. lia.
Qed.

(** The rest of the state. *)
Definition same_rest (s s' : cgroups) : Prop := cgroup_test_dir s' = cgroup_test_dir s ∧ ∃ h, calls s' = calls s ++ h ∧ neutral h.

Definition scans (m : mntent) (s s' : cgroups) : Prop := scan_step m (roots s) (controllers s) (roots s') (controllers s') ∧ same_rest s s'.

Lemma quiet_rest s s' : quiet s s' → same_rest s s'.
Proof. by intros (_ & _ & ?). Qed.

Lemma wf_shape s : wf s → ∃ r0 vs n, roots s = r0 :: vs ++ replicate (S n) root0 ∧ (length vs + S n = 19)%nat ∧ v2_ok r0 ∧ Forall v1_ok vs ∧ apart vs.
Proof. intros (Hr & _). revert Hr. generalize (roots s). intros rs [r0 vs n]. by exists r0, vs, n. Qed.

Lemma wf_root s i r : wf s → roots s !! i = Some r → v2_ok r ∨ v1_ok r ∨ r = root0.
Proof.
  intros Hwf Hr. destruct (wf_shape s Hwf) as (r0 & vs & n & E & _ & Hv2 & Hv1 & _). rewrite E in Hr. destruct i as [|i]; [injection Hr as ->; by left|right].
  change ((vs ++ replicate (S n) root0) !! i = Some r) in Hr. apply lookup_app_Some in Hr as [Hr|[_ Hr]].
  - left. by apply (Forall_lookup_1 _ _ _ _ Hv1 Hr).
  - right. by apply lookup_replicate in Hr as [-> _].
Qed.

Lemma wf_live s i r : wf s → roots s !! i = Some r → ver r ≠ 0 → root_ok r.
Proof. intros Hwf Hr Hv. destruct (wf_root s i r Hwf Hr) as [[[_ ?]|[? _]]|[(_ & _ & ?)| ->]]; done. Qed.

Lemma record_scans i v m field a b c s s0 r : short m → roots s !! i = Some r → quiet s0 s →
  scan_step m (roots s) (controllers s) (<[i := recorded v m field a b c r]> (roots s)) (attached i field (controllers s)) →
  good (scans m s0) (record_root i v m field a b c s).
Proof.
  intros Hm Hr (E1 & E2 & Hrest) Hst. rewrite (record_root_eq _ _ _ _ _ _ _ _ r Hm Hr). split; [|exact Hrest]. cbn. by rewrite <- E1, <- E2.
Qed.

Lemma v1_scan m s s0 : wf s → short m → is_v1 m → quiet s0 s → opts_field m ≠ 0 →
  good (scans m s0)
    (i ← find_v1 (drop 1 (roots s)) 1 (opts_field m) (mnt_dir_ m);
     match i with
     | None => CRet s
     | Some i =>
         if (ROOTS_MAX <=? i)%nat then CBrk TBROK (str "Unique controller mounts have exceeded our limit 19?")
         else record_root i TST_CG_V1 m (opts_field m) (has_opt "noprefix" (strtok_all ","%cc (mnt_opts m))) false false s
     end).
Proof.
  intros Hwf Hm Ht Q Hz. destruct (wf_shape s Hwf) as (r0 & vs & n & E & Hn & Hv2 & Hv1 & Ha). rewrite E. cbn [drop].
  eapply good_bind; [by apply find_v1_spec|]. intros [i|].
  - intros [-> Hd]. destruct (Nat.leb_spec ROOTS_MAX (1 + length vs)) as [|Hlt]; [done|]. unfold ROOTS_MAX, CTRLS_MAX in Hlt.
    destruct n as [|n]; [lia|]. assert (roots s !! S (length vs) = Some root0) as E0 by (rewrite E; by apply (list_lookup_middle vs)).
    eapply (record_scans _ _ _ _ _ _ _ _ _ root0); [done|done|done|]. cbn [Nat.add]. rewrite E at 2. cbn [replicate]. rewrite insert_free. by eapply Scan_v1.
  - intros (j & r & Hj & Hf). split; [|by apply quiet_rest]. destruct Q as (E1 & E2 & _). rewrite <- E1, <- E2. apply Scan_known. split; [|done]. intros _ _. exists j, r.
    rewrite E. split_and!; [|by apply (Forall_lookup_1 _ _ _ _ Hv1 Hj)|done]. cbn. by apply lookup_app_l_Some.
Qed.

Lemma root_scan_spec m s : wf s → short m → good (scans m s) (cgroup_root_scan k m s).
Proof.
  intros Hwf Hm. unfold cgroup_root_scan. eapply good_bind; [apply safe_quiet; by repeat constructor|]. intros s1 [Q1 _].
  case_bool_decide as Ht.
  - eapply good_bind; [apply add_ctrls_spec|]. intros [field s2] [Q2 E]. cbn [fst snd] in *. subst field.
    change (fields _ 0) with (opts_field m). assert (quiet s s2) as Q by (by etransitivity).
    destruct (Z.eqb_spec (opts_field m) 0) as [Hz|Hz]; [|by apply v1_scan; [eapply quiet_wf|..]].
    split; [|by apply quiet_rest]. destruct Q as (-> & -> & _). apply Scan_known. split; [by intros _ []|]. intros H. by destruct H.
  - eapply good_bind; [apply readat_quiet|]. intros [buf s2] [Q2 E]. cbn [fst snd] in *. subst buf.
    eapply good_bind; [apply add_ctrls_spec|]. intros [field s3] [Q3 E]. cbn [fst snd] in *.
    change (fields _ 0) with (controllers_field (calls s1) m) in E. assert (quiet s s3) as Q by (by do 2 (etransitivity; [done|])).
    destruct (wf_shape s3) as (r0 & vs & n & Er & Hn & Hv2 & Hv1 & Ha); [by eapply quiet_wf|]. unfold root_at. rewrite Er. cbn [lookup list_lookup defined].
    rewrite cbind_Ret. destruct (negb (ver r0 =? 0) && (field =? ctrl_field r0)) eqn:Ek.
    + split; [|by apply quiet_rest]. destruct Q as (E1 & E2 & _). rewrite <- E1, <- E2. apply Scan_known. split; [intros H; by destruct Ht|]. intros _.
      exists r0. split; [by rewrite Er|]. destruct Hv2 as [[? _]|[E0 _]]; [done|]. by rewrite E0 in Ek.
    + destruct (Z.eqb_spec (ctrl_field r0) 0) as [Hz|]; [|done]. eapply (record_scans _ _ _ _ _ _ _ _ _ r0); [done|by rewrite Er|done|].
      subst field. rewrite Er at 2. apply (Scan_v2 _ _ _ r0 _ (calls s1)); [done|done|done|]. intros Hv E0. rewrite E0, Hz in Ek.
      destruct (Z.eqb_spec (ver r0) 0); done.
Qed.

Lemma scans_wf m s s' : scans m s s' → wf s → wf s'.
Proof. intros [Hst _]. by apply (scan_step_ok m). Qed.

Definition scanned_type (m : mntent) : bool := strncmp (mnt_type m) (str "cgroup") 6 =? 0.

Lemma scan_mounts_ind (P : cgroups → Prop) ms : Forall short ms →
  (∀ m s s', m ∈ ms → wf s → P s → scans m s s' → P s') → ∀ s, wf s → P s → good (λ s', wf s' ∧ P s') (scan_mounts k ms s).
Proof.
  induction 1 as [|m ms Hm Hms IH]; intros HP s Hwf Hs; cbn [scan_mounts]; [done|].
  apply (good_bind (λ s', wf s' ∧ P s')).
  - destruct (_ =? 0); [|done]. eapply good_mono; [by apply root_scan_spec|]. intros s' Hst. split; [by eapply scans_wf|]. eapply HP; [by left|done..].
  - intros s' [??]. apply IH; [|done..]. intros m' s1 s2 ?. apply HP. by right.
Qed.

(** What stays when more is scanned. *)
Definition keeps (rs rs' : list cgroup_root) : Prop :=
  (∀ i r, rs !! S i = Some r → ver r ≠ 0 → rs' !! S i = Some r) ∧
  (∀ r, rs !! 0%nat = Some r → ver r = TST_CG_V2 → ∃ r', rs' !! 0%nat = Some r' ∧ ver r' = TST_CG_V2).

Lemma scan_step_keeps m rs cs rs' cs' : scan_step m rs cs rs' cs' → keeps rs rs'.
Proof.
  intros [Hk|r0 rs1 h b c _ -> Hz _|r0 vs n a Hm Hz -> Hd Hvs]; (split; [|by eauto]); [done|done|].
  intros i r Hi Hv. rewrite <- (insert_free _ r0 vs root0). destruct (decide (length vs = i)) as [<-|]; [|by rewrite list_lookup_insert_ne by congruence].
  assert (Some r = Some root0) as [= ->]; [|done]. rewrite <- Hi. by apply (list_lookup_middle vs).
Qed.

Lemma known_keeps m rs rs' : keeps rs rs' → known m rs → known m rs'.
Proof.
  intros [H1 H2] [K1 K2]. split.
  - intros Ht Hz. destruct (K1 Ht Hz) as (i & r & Hi & Hv & Hf). exists i, r. split_and!; [|done..]. apply H1; [done|]. by rewrite Hv.
  - intros Ht. destruct (K2 Ht) as (r & Hr & Hv). by eapply H2.
Qed.

Lemma scan_step_known m rs cs rs' cs' : scan_step m rs cs rs' cs' → known m rs'.
Proof.
  intros [Hk|r0 rs1 h b c Ht -> Hz _|r0 vs n a Ht Hz -> Hd Hvs]; [done|split; [intros H; by destruct Ht|]|split; [|intros H; by destruct H]].
  - intros _. by eexists.
  - intros _ _. exists (length vs), (recorded 1 m (opts_field m) a false false root0). split_and!; [|done..]. rewrite <- app_assoc. by apply (list_lookup_middle vs).
Qed.

Lemma scan_mounts_known ms : Forall short ms → ∀ s, wf s →
  good (λ s', wf s' ∧ keeps (roots s) (roots s') ∧ ∀ m, m ∈ ms → scanned_type m = true → known m (roots s')) (scan_mounts k ms s).
Proof.
  induction 1 as [|m ms Hm Hms IH]; intros s Hwf; cbn [scan_mounts].
  { split_and!; [done|by split; eauto|]. intros m Hm. by apply not_elem_of_nil in Hm. }
  apply (good_bind (λ s', wf s' ∧ keeps (roots s) (roots s') ∧ (scanned_type m = true → known m (roots s')))).
  - change (strncmp (mnt_type m) (str "cgroup") 6 =? 0) with (scanned_type m). destruct (scanned_type m); [|by split_and!; [|split; eauto|]].
    eapply good_mono; [by apply root_scan_spec|]. intros s' Hst. split_and!; [by eapply scans_wf|..]; destruct Hst as [Hst _].
    + by eapply scan_step_keeps. + intros _. by eapply scan_step_known.
  - intros s1 (Hwf1 & Hk1 & Hm1). eapply good_mono; [by apply IH|]. intros s2 (Hwf2 & Hk2 & Hall). split_and!; [done|..].
    + destruct Hk1 as [A1 B1], Hk2 as [A2 B2]. split; [by eauto|]. intros r Hr Hv. destruct (B1 r Hr Hv) as (r' & ? & ?). by eauto.
    + intros m' [->|Hm']%elem_of_cons Ht; [eapply known_keeps; eauto|by apply Hall].
Qed.

(** C25. Scanning keeps the tables in order and finds everything that is
    mounted: every set of V1 controllers of the mount table has its own
    hierarchy, the V2 hierarchy is noted, and every controller of an entry
    points to a hierarchy that has it.  Nothing is written past the array of
    hierarchies, whatever the mount table holds. *)
Theorem cg_scan_correct s : wf s → (∀ m, m ∈ k_mounts k (calls s) → short m) →
  good (λ s', wf s' ∧ ∀ m, m ∈ k_mounts k (calls s) → scanned_type m = true →
         known m (roots s') ∧
         (is_v1 m → ∀ c, (c < CTRLS_MAX)%nat → has_ctrl (opts_field m) c = true →
            ∃ i r, root_of c s' = Some i ∧ roots s' !! i = Some r ∧ ver r ≠ 0 ∧ has_ctrl (ctrl_field r) c = true))
    (tst_cg_scan k s).
Proof.
  intros Hwf Hsh. unfold tst_cg_scan. destruct (k_mounts k (calls s)) as [|m0 ms0] eqn:E; [done|]. rewrite <- E in *.
  eapply good_mono; [apply scan_mounts_known; [by apply Forall_forall|done]|]. intros s' (Hwf' & _ & Hall). split; [done|]. intros m Hm Ht.
  specialize (Hall m Hm Ht). split; [done|]. intros H1 c Hc Hb. destruct Hwf' as (Hr & Hl & Hp & Hf). destruct (proj1 Hall H1) as (i & r & Hi & _ & Ef).
  { intros E0. rewrite has_ctrl_bit, E0, Z.bits_0 in Hb. done. }
  destruct (lookup_lt_is_Some_2 (controllers s') c) as [x Hx]; [unfold CTRLS_MAX in *; lia|]. rewrite <- Ef in Hb.
  destruct (Hf (S i) r c x Hi Hb Hx) as [j Hj]. destruct (Hp c x j Hx Hj) as (r' & Hr' & Hv & [Hc'|[-> _]]); [|lia].
  exists j, r'. split_and!; [|done..]. unfold root_of. by rewrite Hx.
Qed.
End Kernel.
