(* ===== verification/CgroupRequire.v ===== *)
(** * Control groups: requiring a controller

    The directories that [tst_cg_require] makes in the hierarchy of a
    controller, with the calls that it takes; what it guarantees when it
    returns; and that no sequence of calls of the interface leaves the tables
    or uses a directory that was not opened. *)

From S2P Require Import Prelude Cgroup CgroupFacts.
Open Scope Z_scope.

Section Kernel.
Context (k : kernel).

(** ** The calls *)

(** Between both histories the directory [d] was made, or found if [b] is
    false, and nothing else was changed in a hierarchy. *)
Definition makes (d : dirid) (b : bool) (h h' : history) : Prop :=
  ∃ h1 e h2, h' = h ++ h1 ++ (KMkdir d, e) :: h2 ∧ neutral h1 ∧ neutral h2 ∧ e = k_errno k (h ++ h1) (KMkdir d) ∧
    (e = 0 ∧ b = true ∨ e = EEXIST ∧ b = false).

Definition only_calls (s s' : cgroups) : Prop :=
  roots s' = roots s ∧ controllers s' = controllers s ∧ cgroup_test_dir s' = cgroup_test_dir s.

Lemma dir_mk_spec parent name s p : dir_fd parent = Some p →
  good (λ x, only_calls s x.2 ∧ ∃ b, x.1 = mk_dir true (dir_field parent) (Some (p.1, p.2 ++ [name])) b ∧
             makes (p.1, p.2 ++ [name]) b (calls s) (calls x.2)) (cgroup_dir_mk k parent name s).
Proof.
  intros Hp. unfold cgroup_dir_mk, fd_of. rewrite Hp. cbn [defined]. rewrite cbind_Ret. cbv zeta. set (d := (p.1, p.2 ++ [name])).
  unfold sys. cbv zeta. set (e := k_errno k (calls s) (KMkdir d)). cbn beta iota. destruct ((e =? 0) || (e =? EEXIST)) eqn:Ee.
  - eapply good_bind; [apply safe_quiet; by repeat constructor|]. intros s' [(E1 & E2 & E3 & h & E4 & Hn) _]. split; [done|]. eexists. split; [done|].
    exists [], e, h. cbn [fst snd] in *. rewrite E4. cbn. rewrite <- app_assoc. split_and!; [done|constructor|done|by rewrite app_nil_r|].
    destruct (Z.eqb_spec e 0); [by left|]. destruct (Z.eqb_spec e EEXIST); [by right|done].
  - destruct (e =? EACCES); [done|]. by destruct (e =? EROFS).
Qed.

Definition later (h h' : history) : Prop := ∃ n, h' = h ++ n ∧ neutral n.

Lemma later_refl h : later h h.
Proof. exists []. rewrite app_nil_r. by split; [|constructor]. Qed.

Lemma later_trans h1 h2 h3 : later h1 h2 → later h2 h3 → later h1 h3.
Proof. intros (a & -> & Ha) (b & -> & Hb). exists (a ++ b). rewrite app_assoc. by split; [|apply Forall_app]. Qed.

Lemma quiet_later s s' : quiet s s' → later (calls s) (calls s').
Proof. by intros (_ & _ & _ & ?). Qed.

Lemma makes_before d b h0 h h' : later h0 h → makes d b h h' → makes d b h0 h'.
Proof.
  intros (n & -> & Hn) (h1 & e & h2 & -> & ? & ? & ? & ?). exists (n ++ h1), e, h2. rewrite <- !app_assoc in *. split_and!; [done|by apply Forall_app|done..].
Qed.

Lemma makes_after d b h h' h'' : makes d b h h' → later h' h'' → makes d b h h''.
Proof.
  intros (h1 & e & h2 & -> & ? & ? & ? & ?) (n & -> & Hn). exists h1, e, (h2 ++ n). rewrite <- !app_assoc. cbn [app].
  split_and!; [done|done|by apply Forall_app|done..].
Qed.

Lemma upd_root_eq i f s r : roots s !! i = Some r → upd_root i f s = CRet (set_roots (<[i := f r]> (roots s)) s).
Proof. intros H. unfold upd_root, root_at. by rewrite H. Qed.

Lemma root_at_eq i s r : roots s !! i = Some r → root_at i s = CRet r.
Proof. intros H. unfold root_at. by rewrite H. Qed.

(** ** The ltp directory *)

(** What the ltp directory of [r] becomes. *)
Definition ltp_made (r : cgroup_root) (d : cgroup_dir) (h h' : history) : Prop :=
  dir_named d = true ∧
  match dir_fd (ltp_dir r) with
  | None => dir_fd d = Some (mnt_path r, [ltp]) ∧ dir_field d = dir_field (mnt_dir r) ∧ makes (mnt_path r, [ltp]) (we_created_it d) h h'
  | Some x => dir_fd d = Some x ∧ dir_field d = Z.lor (dir_field (ltp_dir r)) (dir_field (mnt_dir r)) ∧
              we_created_it d = we_created_it (ltp_dir r) ∧ later h h'
  end.

Lemma ltp_made_after r d h h' h'' : ltp_made r d h h' → later h' h'' → ltp_made r d h h''.
Proof.
  intros [Hn H] Hl. split; [done|]. destruct (dir_fd (ltp_dir r)); destruct H as (? & ? & H); split_and!; try done.
  - by destruct H. - by eapply later_trans; [apply H|]. - by eapply makes_after.
Qed.

Lemma ltp_made_before r d h0 h h' : later h0 h → ltp_made r d h h' → ltp_made r d h0 h'.
Proof.
  intros Hl [Hn H]. split; [done|]. destruct (dir_fd (ltp_dir r)); destruct H as (? & ? & H); split_and!; try done.
  - by destruct H. - by eapply later_trans; [|apply H]. - by eapply makes_before.
Qed.

Lemma enable_mnt_spec (on_v2 base : bool) name root s : dir_fd (mnt_dir root) = Some (mnt_path root, []) →
  good (quiet s)
    (if on_v2 && negb base then
       d ← fd_of (mnt_dir root);
       if we_mounted_it root then safe_file_printfat k d cgsc (str "+" ++ name) s
       else CRet (sys k (KPrint d cgsc (str "+" ++ name)) s).2
     else CRet s).
Proof.
  intros Hm. destruct (on_v2 && negb base); [|cbn; reflexivity]. unfold fd_of. rewrite Hm. cbn [defined]. rewrite cbind_Ret.
  destruct (we_mounted_it root); [|apply sys_quiet; by repeat constructor].
  eapply good_mono; [apply safe_quiet; by repeat constructor|]. by intros s' [? _].
Qed.

Lemma ltp_dir_spec i r s : roots s !! i = Some r → dir_fd (mnt_dir r) = Some (mnt_path r, []) →
  (is_Some (dir_fd (ltp_dir r)) → dir_named (ltp_dir r) = true) →
  good (λ s', ∃ d, roots s' = <[i := set_ltp_dir d r]> (roots s) ∧ controllers s' = controllers s ∧ cgroup_test_dir s' = cgroup_test_dir s ∧
                   ltp_made r d (calls s) (calls s'))
    match dir_fd (ltp_dir r) with
    | None => '(d, s) ← cgroup_dir_mk k (mnt_dir r) (str "ltp") s; upd_root i (set_ltp_dir d) s
    | Some _ => upd_root i (λ r, set_ltp_dir (set_field (Z.lor (dir_field (ltp_dir r)) (dir_field (mnt_dir r))) (ltp_dir r)) r) s
    end.
Proof.
  intros Hr Hm Hn. destruct (dir_fd (ltp_dir r)) as [x|] eqn:Ex.
  - rewrite (upd_root_eq _ _ _ r Hr). eexists. split_and!; [done..|]. split; [by apply Hn|]. rewrite Ex. split_and!; [done..|apply later_refl].
  - eapply good_bind; [by apply (dir_mk_spec _ _ _ _ Hm)|]. intros [d s1] [(E1 & E2 & E3) (b & Ed & Hmk)]. cbn [fst snd] in *. subst d.
    rewrite (upd_root_eq _ _ _ r) by by rewrite E1. eexists. cbn [roots controllers cgroup_test_dir set_roots calls]. rewrite E1.
    split_and!; [done..|]. split; [done|]. rewrite Ex. done.
Qed.

Lemma copy_files_spec src dst files : ∀ s, good (quiet s) (copy_files k src dst files s).
Proof.
  induction files as [|f files IH]; intros s; cbn [copy_files]; [cbn; reflexivity|]. eapply good_bind; [apply readat_quiet|].
  intros [v s1] [Q1 _]. cbn [fst snd] in *. eapply good_bind; [apply safe_quiet; by repeat constructor|]. intros s2 [Q2 _].
  eapply good_mono; [apply IH|]. intros s3 Q3. by do 2 (etransitivity; [done|]).
Qed.

Lemma enable_ltp_spec (on_v2 : bool) ctrl name root s x p : dir_fd (mnt_dir root) = Some x → dir_fd (ltp_dir root) = Some p →
  good (λ s', quiet s s' ∧ (on_v2 = true → (KPrint p cgsc (str "+" ++ name), 0) ∈ calls s'))
    (d ← fd_of (ltp_dir root);
     if on_v2 then safe_file_printfat k d cgsc (str "+" ++ name) s
     else
       s ← safe_file_printfat k d (str "cgroup.clone_children") (str "1") s;
       if (ctrl =? CTRL_CPUSET)%nat then cgroup_copy_cpuset k root s else CRet s).
Proof.
  intros Hm Hp. unfold fd_of. rewrite Hp. cbn [defined]. rewrite cbind_Ret. destruct on_v2.
  - eapply good_mono; [apply safe_quiet; by repeat constructor|]. by intros s' [? ?].
  - eapply good_bind; [apply safe_quiet; by repeat constructor|]. intros s1 [Q1 _]. destruct (_ =? _)%nat; [|done].
    unfold cgroup_copy_cpuset, fd_of. rewrite Hm, Hp. cbn [defined]. rewrite !cbind_Ret.
    eapply good_mono; [apply copy_files_spec|]. intros s2 Q2. split; [by etransitivity|done].
Qed.

Lemma require_ltp_spec ctrl name base i r s : roots s !! i = Some r → dir_fd (mnt_dir r) = Some (mnt_path r, []) →
  (is_Some (dir_fd (ltp_dir r)) → dir_named (ltp_dir r) = true) →
  good (λ s', ∃ d, roots s' = <[i := set_ltp_dir d r]> (roots s) ∧ controllers s' = controllers s ∧ cgroup_test_dir s' = cgroup_test_dir s ∧
                   ltp_made r d (calls s) (calls s') ∧
                   (cgroup_ctrl_on_v2 ctrl s = true → base = false → ∀ p, dir_fd d = Some p → (KPrint p cgsc (str "+" ++ name), 0) ∈ calls s'))
    (require_ltp k ctrl name base i s).
Proof.
  intros Hr Hm Hn. unfold require_ltp, root_at. rewrite Hr. cbn [defined]. rewrite cbind_Ret.
  eapply good_bind; [by apply enable_mnt_spec|]. intros s1 Q1. pose proof Q1 as (E1 & E2 & E3 & _).
  eapply good_bind; [apply (ltp_dir_spec i r s1); by rewrite ?E1|]. intros s2 (d & F1 & F2 & F3 & Hd). rewrite E1, E2, E3 in *.
  apply (ltp_made_before _ _ _ _ _ (quiet_later _ _ Q1)) in Hd. destruct base.
  - cbn. exists d. by split_and!.
  - rewrite F1, list_lookup_insert_eq by (by eapply lookup_lt_Some). cbn [defined]. rewrite cbind_Ret.
    assert (∃ p, dir_fd d = Some p) as [p Hp] by (destruct Hd as [_ Hd]; destruct (dir_fd (ltp_dir r)); destruct Hd as (-> & _); by eexists).
    eapply good_mono; [by apply (enable_ltp_spec _ _ _ _ _ (mnt_path r, []) p)|]. intros s3 [Q3 Hen]. pose proof Q3 as (G1 & G2 & G3 & _).
    exists d. rewrite G1, G2, G3. split_and!; [done..|by eapply ltp_made_after; [|by apply quiet_later]|].
    intros Hv _ p' [= <-]%(eq_trans (eq_sym Hp)). by apply Hen.
Qed.

(** ** All directories *)

Definition with_ctrl (ctrl : nat) (r : cgroup_root) : cgroup_root := set_mnt_dir (set_field (add_ctrl (dir_field (mnt_dir r)) ctrl) (mnt_dir r)) r.

(** The directories of [r'] below [p] were made by these calls. *)
Definition dirs_made (r r' : cgroup_root) (p T : list Z) (h h' : history) : Prop :=
  ∃ h1 h2 b1 b2, ltp_made r (ltp_dir r') h h1 ∧ makes (p, [ltp; drain]) b1 h1 h2 ∧ makes (p, [ltp; T]) b2 h2 h'.

(** Everything but the directories of the test. *)
Definition same_root (r r' : cgroup_root) : Prop :=
  ver r' = ver r ∧ mnt_path r' = mnt_path r ∧ ctrl_field r' = ctrl_field r ∧ dir_fd (mnt_dir r') = dir_fd (mnt_dir r).

Lemma has_add f c : has_ctrl (add_ctrl f c) c = true.
Proof. rewrite has_ctrl_bit. unfold add_ctrl. rewrite Z.lor_spec, Z.shiftl_1_l, Z.pow2_bits_true by lia. apply orb_true_r. Qed.

Lemma has_lor f g c : has_ctrl g c = true → has_ctrl (Z.lor f g) c = true.
Proof. rewrite !has_ctrl_bit, Z.lor_spec. intros ->. apply orb_true_r. Qed.

Lemma root_ok_ltp r : root_ok r → dir_fd (ltp_dir r) = None ∨ ∃ p, dir_fd (ltp_dir r) = Some (p, [ltp]) ∧ dir_named (ltp_dir r) = true.
Proof. intros [_ [(-> & _)|(p & name & [? ?] & _)]]; [by left|right]. by exists p. Qed.

Context (tmpdir : list Z) (getpid : Z).

Definition test_name (o : tst_cg_opts) : list Z := str "test-" ++ fmt_li (if test_pid o =? 0 then getpid else test_pid o).

Lemma make_two_spec T i r s p : roots s !! i = Some r → dir_fd (ltp_dir r) = Some (p, [ltp]) →
  good (λ s', ∃ b1 b2 h,
          roots s' = <[i := set_test_dir (mk_dir true (dir_field (ltp_dir r)) (Some (p, [ltp; T])) b2)
                              (set_drain_dir (mk_dir true (dir_field (ltp_dir r)) (Some (p, [ltp; drain])) b1) r)]> (roots s) ∧
          controllers s' = controllers s ∧ cgroup_test_dir s' = T ∧ makes (p, [ltp; drain]) b1 (calls s) h ∧ makes (p, [ltp; T]) b2 h (calls s'))
    (root ← root_at i s;
     '(d, s) ← cgroup_dir_mk k (ltp_dir root) (str "drain") s;
     s ← upd_root i (set_drain_dir d) s;
     let s := set_test_name T s in
     root ← root_at i s;
     '(d, s) ← cgroup_dir_mk k (ltp_dir root) (cgroup_test_dir s) s;
     upd_root i (set_test_dir d) s).
Proof.
  intros Hr Hp. pose proof (lookup_lt_Some _ _ _ Hr) as Hlt. rewrite (root_at_eq _ _ _ Hr), cbind_Ret.
  eapply good_bind; [by apply (dir_mk_spec _ _ _ _ Hp)|]. intros [d s1] [(E1 & E2 & E3) (b1 & Ed & Hmk1)]. cbn [fst snd] in *. subst d.
  rewrite (upd_root_eq _ _ _ r) by by rewrite E1. rewrite cbind_Ret. cbv zeta. set (r2 := set_drain_dir _ r). set (s2 := set_test_name _ _).
  assert (roots s2 !! i = Some r2) as Hr2 by (cbn; by rewrite E1, list_lookup_insert_eq). rewrite (root_at_eq _ _ _ Hr2), cbind_Ret.
  eapply good_bind; [by apply (dir_mk_spec (ltp_dir r2) _ _ _ Hp)|]. intros [d s3] [(F1 & F2 & F3) (b2 & Ed & Hmk2)]. cbn [fst snd] in *. subst d.
  rewrite (upd_root_eq _ _ _ r2) by by rewrite F1. exists b1, b2, (calls s2). cbn [good roots controllers cgroup_test_dir set_roots calls]. rewrite F1, F2, F3.
  cbn [roots controllers cgroup_test_dir set_roots set_test_name s2]. rewrite E1, list_insert_insert_eq. by split_and!.
Qed.

Definition required (ctrl : nat) (name : list Z) (base : bool) (o : tst_cg_opts) (i : nat) (r : cgroup_root) (s s' : cgroups) : Prop :=
  ∃ r' p, roots s' = <[i := r']> (roots s) ∧ controllers s' = controllers s ∧ cgroup_test_dir s' = test_name o ∧ same_root r r' ∧
    opened p (test_name o) r' ∧ dirs_made (with_ctrl ctrl r) r' p (test_name o) (calls s) (calls s') ∧
    has_ctrl (dir_field (test_dir r')) ctrl = true ∧
    (ver r = TST_CG_V2 → base = false → (KPrint (p, [ltp]) cgsc (str "+" ++ name), 0) ∈ calls s').

(** Where the ltp directory is and that it has the controller. *)
Lemma ltp_made_dir ctrl r d h h' : root_ok r → ltp_made (with_ctrl ctrl r) d h h' →
  (∃ p, dir_fd d = Some (p, [ltp])) ∧ has_ctrl (dir_field d) ctrl = true.
Proof.
  intros Hok [_ Hd]. cbn [ltp_dir with_ctrl set_mnt_dir mnt_path mnt_dir dir_field set_field] in Hd. split.
  - destruct (root_ok_ltp r Hok) as [E|(p & E & _)]; rewrite E in Hd; destruct Hd as (-> & _); by eexists.
  - destruct (dir_fd (ltp_dir r)); destruct Hd as (_ & -> & _); [apply has_lor|]; apply has_add.
Qed.

Lemma on_v2_eq ctrl s i r : root_of ctrl s = Some i → roots s !! i = Some r → cgroup_ctrl_on_v2 ctrl s = (ver r =? TST_CG_V2).
Proof. intros Hi Hr. unfold cgroup_ctrl_on_v2. by rewrite Hi, Hr. Qed.

Definition set_root (i : nat) (r : cgroup_root) (s : cgroups) : cgroups := set_roots (<[i := r]> (roots s)) s.

Lemma make_dirs_spec ctrl name base o i r s : root_of ctrl s = Some i → roots s !! i = Some r → root_ok r →
  good (required ctrl name base o i r s)
    (s ← require_ltp k ctrl name base i (set_root i (with_ctrl ctrl r) s);
     root ← root_at i s;
     '(d, s) ← cgroup_dir_mk k (ltp_dir root) (str "drain") s;
     s ← upd_root i (set_drain_dir d) s;
     let s := set_test_name (test_name o) s in
     root ← root_at i s;
     '(d, s) ← cgroup_dir_mk k (ltp_dir root) (cgroup_test_dir s) s;
     upd_root i (set_test_dir d) s).
Proof.
  intros Hi Hr Hok. pose proof (lookup_lt_Some _ _ _ Hr) as Hlt. set (s1 := set_root i _ s).
  assert (roots s1 !! i = Some (with_ctrl ctrl r)) as Hr1 by (cbn; by rewrite list_lookup_insert_eq).
  eapply good_bind; [apply (require_ltp_spec ctrl name base i (with_ctrl ctrl r) s1); [done|by destruct Hok|]|].
  { cbn. intros [x Hx]. destruct (root_ok_ltp r Hok) as [E|(? & _ & ?)]; [congruence|done]. }
  intros s2 (d & E1 & E2 & E3 & Hd & Hen). destruct (ltp_made_dir ctrl r d _ _ Hok Hd) as [[p Hp] Hf].
  set (r2 := set_ltp_dir d (with_ctrl ctrl r)) in *. assert (roots s2 !! i = Some r2) as Hr2.
  { rewrite E1, list_lookup_insert_eq; [done|]. cbn. by rewrite length_insert. }
  eapply good_mono; [by apply (make_two_spec (test_name o) i r2 s2 p)|]. intros s3 (b1 & b2 & h & F1 & F2 & F3 & M1 & M2).
  assert (on_v2_of : cgroup_ctrl_on_v2 ctrl s1 = (ver r =? TST_CG_V2)) by by apply (on_v2_eq ctrl s1 i (with_ctrl ctrl r)).
  eexists _, p. split_and!; [rewrite F1, E1; cbn; by rewrite !list_insert_insert_eq|by rewrite F2, E2|done|done| | | |].
  - split_and!; [by destruct Hd|exact Hp|done|done|done|done].
  - by exists (calls s2), h, b1, b2.
  - exact Hf.
  - intros Hv Hb. rewrite on_v2_of, Hv in Hen. specialize (Hen eq_refl Hb (p, [ltp]) Hp). clear -Hen M1 M2.
    destruct M1 as (? & ? & ? & -> & _), M2 as (? & ? & ? & -> & _). rewrite !elem_of_app. auto.
Qed.

Lemma require_dirs_spec ctrl name base o i r s : root_of ctrl s = Some i → roots s !! i = Some r → (ver r ≠ 0 → root_ok r) →
  (ver r = 0 → needs_ver o = TST_CG_V2) →
  good (λ s', ver r ≠ 0 ∧ (needs_ver o = TST_CG_V1 → ver r ≠ TST_CG_V2) ∧ (needs_ver o = TST_CG_V2 → ver r = TST_CG_V2) ∧
              required ctrl name base o i r s s') (require_dirs k getpid ctrl name base o s).
Proof.
  intros Hi Hr Hok Hdead. pose proof (lookup_lt_Some _ _ _ Hr) as Hlt. unfold require_dirs. rewrite Hi. cbn [defined]. rewrite cbind_Ret.
  destruct (needs_nsdelegate o && _ && _); [done|]. rewrite (upd_root_eq _ _ _ r Hr), cbind_Ret. change (set_roots _ s) with (set_root i (with_ctrl ctrl r) s).
  rewrite (on_v2_eq ctrl (set_root i (with_ctrl ctrl r) s) i (with_ctrl ctrl r)) by (try done; cbn; by rewrite list_lookup_insert_eq).
  cbn [ver with_ctrl set_mnt_dir]. change (str "test-" ++ _) with (test_name o).
  destruct (Z.eqb_spec (ver r) TST_CG_V2) as [Hv|Hv], (Z.eqb_spec (needs_ver o) TST_CG_V1) as [N1|N1], (Z.eqb_spec (needs_ver o) TST_CG_V2) as [N2|N2];
    cbn [andb negb]; try done.
  all: assert (ver r ≠ 0) as Hv0 by (intros E; rewrite E in *; by auto).
  all: eapply good_mono; [by apply make_dirs_spec; [..|apply Hok]|intros s' Hs'; by split_and!].
Qed.

(** ** Changing a hierarchy *)

Lemma roots_ok_insert rs i r r' : roots_ok rs → rs !! i = Some r → i = 0%nat ∨ ver r ≠ 0 → (v2_ok r → v2_ok r') → (v1_ok r → v1_ok r') →
  ctrl_field r' = ctrl_field r → roots_ok (<[i := r']> rs).
Proof.
  intros [r0 vs n Hn Hv2 Hv1 Ha] Hr Hi H2 H1 Hf. destruct i as [|i].
  - injection Hr as ->. apply Roots_ok; auto.
  - change (roots_ok (r0 :: <[i := r']> (vs ++ replicate (S n) root0))). change ((vs ++ replicate (S n) root0) !! i = Some r) in Hr.
    destruct Hi as [|Hi]; [done|]. apply lookup_app_Some in Hr as [Hr|[_ Hr]]; [|apply lookup_replicate in Hr as [-> _]; by destruct Hi].
    rewrite insert_app_l by (by eapply lookup_lt_Some). apply Roots_ok; [by rewrite length_insert|done|..].
    + apply Forall_insert; [done|]. apply H1. by eapply (Forall_lookup_1 _ _ _ _ Hv1).
    + intros j1 j2 x1 x2 [(<- & -> & _)|[? L1]]%list_lookup_insert_Some [(<- & -> & _)|[? L2]]%list_lookup_insert_Some Hne; rewrite ?Hf; try done; by eapply Ha.
Qed.

Lemma tables_insert rs cs i r r' : tables_ok rs cs → rs !! i = Some r → i = 0%nat ∨ ver r ≠ 0 → ver r' = ver r → ctrl_field r' = ctrl_field r →
  (root_ok r → root_ok r') → (ver r = 0 → unopened r → unopened r') → tables_ok (<[i := r']> rs) cs.
Proof.
  intros (Hro & Hl & Hp & Hf) Hr Hi Hv Hc Hok Hun. split_and!; [|done|..].
  - eapply roots_ok_insert; [done..| | |done].
    + unfold v2_ok. rewrite Hv, Hc. intros [[? ?]|(? & ? & ?)]; [left|right]; auto.
    + unfold v1_ok. rewrite Hv, Hc. intros (? & ? & ?). auto.
  - intros c x j Hx Hj. destruct (Hp c x j Hx Hj) as (r2 & Hr2 & Hv2 & Hc2). destruct (decide (i = j)) as [<-|]; [|exists r2; by rewrite list_lookup_insert_ne].
    exists r'. rewrite list_lookup_insert_eq by (by eapply lookup_lt_Some). replace r2 with r in * by congruence. by rewrite Hv, Hc.
  - intros j r2 c x [(<- & <- & _)|[? Hj]]%list_lookup_insert_Some; [rewrite Hc|]; by eapply Hf.
Qed.

(** All but the flags of a hierarchy. *)
Definition flags (r r' : cgroup_root) : Prop :=
  same_root r r' ∧ ltp_dir r' = ltp_dir r ∧ drain_dir r' = drain_dir r ∧ test_dir r' = test_dir r.

Lemma wf_flags i r r' s : wf s → roots s !! i = Some r → i = 0%nat ∨ ver r ≠ 0 → flags r r' → wf (set_root i r' s).
Proof.
  intros Hwf Hr Hi ((Hv & Hp & Hf & Hd) & E1 & E2 & E3). eapply tables_insert; [exact Hwf|done..| |].
  - unfold root_ok, unopened, opened. by rewrite Hd, Hp, E1, E2, E3.
  - unfold unopened. by rewrite E1, E2, E3.
Qed.

Lemma alter_lookup (f : cgroup_ctrl → cgroup_ctrl) (i : nat) (cs : list cgroup_ctrl) c x : alter f i cs !! c = Some x →
  ∃ y, cs !! c = Some y ∧ x = if decide (i = c) then f y else y.
Proof.
  destruct (decide (i = c)) as [<-|]; [rewrite list_lookup_alter_eq|rewrite list_lookup_alter_ne by done].
  - destruct (cs !! i) as [y|]; cbn; [|done]. intros [= <-]. by exists y.
  - intros. by exists x.
Qed.

Lemma wf_ctrls f i s : wf s → (∀ x, ctrl_root (f x) = ctrl_root x) → wf (upd_ctrl i f s).
Proof.
  intros (Hr & Hl & Hp & Hf) E. split_and!; cbn [roots controllers upd_ctrl set_ctrls]; [done|by rewrite length_alter|..].
  - intros c x j Hx Hj. apply alter_lookup in Hx as (y & Hy & ->). destruct (decide (i = c)); [rewrite E in Hj|]; by eapply Hp.
  - intros j r c x Hj Hc Hx. apply alter_lookup in Hx as (y & Hy & ->). destruct (decide (i = c)); [rewrite E|]; by eapply Hf.
Qed.

(** ** Finding the hierarchy *)

Section Keep.
Context (P : cgroups → Prop).
Hypothesis (short_mounts : ∀ h m, m ∈ k_mounts k h → short m).
Hypothesis (short_tmpdir : Z.of_nat (length tmpdir) < PATH_MAX - 32).
Hypothesis (keep_quiet : ∀ s s', quiet s s' → P s → P s').
Hypothesis (keep_scan : ∀ h m s s', m ∈ k_mounts k h → wf s → P s → scans k m s s' → P s').
Hypothesis (keep_flags : ∀ i r r' s, wf s → roots s !! i = Some r → flags r r' → P s → P (set_root i r' s)).

Definition kept (s : cgroups) : Prop := wf s ∧ P s.

Lemma kept_quiet s s' : quiet s s' → kept s → kept s'.
Proof. intros Hq [? ?]. split; [by eapply quiet_wf|by eapply keep_quiet]. Qed.

Lemma scan_kept s : kept s → good kept (tst_cg_scan k s).
Proof.
  intros [Hwf HP]. unfold tst_cg_scan. destruct (k_mounts k (calls s)) as [|m0 ms0] eqn:E; [done|]. rewrite <- E.
  apply scan_mounts_ind; [apply Forall_forall; intros m; apply short_mounts| |done|done]. intros m s1 s2 Hm. by eapply keep_scan.
Qed.

Lemma flags_kept i r f s : kept s → roots s !! i = Some r → i = 0%nat ∨ ver r ≠ 0 → flags r (f r) → good kept (upd_root i f s).
Proof. intros [Hwf HP] Hr Hi Hf. rewrite (upd_root_eq _ _ _ r Hr). split; [by apply (wf_flags i r)|by apply (keep_flags i r)]. Qed.

Lemma root0_at s : kept s → ∃ r, roots s !! 0%nat = Some r.
Proof. intros [Hwf _]. destruct (wf_shape s Hwf) as (r0 & vs & n & -> & _). by exists r0. Qed.

Lemma flags0_kept f s : kept s → (∀ r, flags r (f r)) → good kept (upd_root 0 f s).
Proof. intros Hs Hf. destruct (root0_at s Hs) as [r Hr]. apply (flags_kept 0 r); auto. Qed.

Lemma safe_kept name c s : neutral [(c, 0)] → kept s → good kept (safe k name c s).
Proof. intros Hn Hs. eapply good_mono; [by apply safe_quiet|]. intros s' [Hq _]. by eapply kept_quiet. Qed.

Lemma mount_path_short name : (length name ≤ 16)%nat → ∃ p, mount_path tmpdir name = CRet p.
Proof.
  intros Hn. unfold mount_path. rewrite !length_app. change (length (str "/cgroup_")) with 8%nat.
  destruct (Z.leb_spec PATH_MAX (Z.of_nat (length tmpdir + (8 + length name)))); [lia|by eexists].
Qed.

Lemma sys_kept c s : neutral [(c, 0)] → kept s → kept (sys k c s).2.
Proof. intros Hn. apply kept_quiet. by apply sys_quiet. Qed.

Lemma mount_v2_kept s : kept s → good kept (cgroup_mount_v2 k tmpdir s).
Proof.
  intros Hs. unfold cgroup_mount_v2. destruct (mount_path_short (str "unified")) as [p ->]; [cbn; lia|]. rewrite cbind_Ret.
  pose proof (sys_kept (KMkdir (p, [])) s (ltac:(by repeat constructor)) Hs) as Hs1. destruct (sys k (KMkdir (p, [])) s) as [e s1]. cbn [snd] in Hs1.
  apply (good_bind kept); [destruct (e =? 0); [|done]; by apply flags0_kept|]. clear s1 Hs1. intros s1 Hs1.
  destruct ((e =? 0) || (e =? EEXIST)); [|by destruct (e =? EACCES)].
  pose proof (sys_kept (KMount (str "cgroup2") (Some (str "memory_recursiveprot")) p) s1 (ltac:(by repeat constructor)) Hs1) as Hs2.
  destruct (sys k (KMount _ _ p) s1) as [ret s2]. cbn [snd] in Hs2.
  pose proof (sys_kept (KMount (str "cgroup2") None p) s2 (ltac:(by repeat constructor)) Hs2) as Hs3. destruct (sys k (KMount _ None p) s2) as [ret' s3]. cbn [snd] in Hs3.
  assert (kept (if ret =? EINVAL then (ret', s3) else (ret, s2)).2) as Hs4 by by destruct (ret =? EINVAL).
  destruct (if ret =? EINVAL then _ else _) as [ret4 s4]. cbn [snd] in Hs4. destruct (ret4 =? 0).
  - eapply good_bind; [by apply scan_kept|]. intros s5 Hs5. by apply flags0_kept.
  - destruct (root0_at s4 Hs4) as [r Hr]. rewrite (root_at_eq _ _ _ Hr), cbind_Ret. destruct (we_created_it (mnt_dir r)); [|done].
    eapply good_bind; [by apply flags0_kept|]. intros s5 Hs5. by apply safe_kept; [repeat constructor|].
Qed.

Lemma root_of_live ctrl s i : kept s → root_of ctrl s = Some i → ∃ r, roots s !! i = Some r ∧ ver r ≠ 0 ∧ root_ok r.
Proof.
  intros [Hwf _] Hi. pose proof Hwf as (Hro & _ & Hp & _). unfold root_of in Hi. destruct (controllers s !! ctrl) as [x|] eqn:Hx; [|done].
  destruct (Hp ctrl x i Hx Hi) as (r & Hr & Hv & _). exists r. split_and!; [done..|]. by eapply wf_live.
Qed.

Lemma mount_v1_kept ctrl name s : (length name ≤ 16)%nat → kept s → good kept (cgroup_mount_v1 k tmpdir ctrl name s).
Proof.
  intros Hn Hs. unfold cgroup_mount_v1. destruct (_ && _); [eapply kept_quiet; [apply res_quiet|done]|].
  destruct (mount_path_short name Hn) as [p ->]. rewrite cbind_Ret.
  pose proof (sys_kept (KMkdir (p, [])) s (ltac:(by repeat constructor)) Hs) as Hs1. destruct (sys k (KMkdir (p, [])) s) as [e s1]. cbn [snd] in Hs1. cbv zeta.
  destruct ((e =? 0) || (e =? EEXIST)); [|by destruct (e =? EACCES)].
  pose proof (sys_kept (KMount (str "cgroup") (Some name) p) s1 (ltac:(by repeat constructor)) Hs1) as Hs2.
  destruct (sys k (KMount _ _ p) s1) as [ret s2]. cbn [snd] in Hs2. destruct (negb (ret =? 0)).
  { destruct (e =? 0); [|done]. by apply safe_kept; [repeat constructor|]. }
  eapply good_bind; [by apply scan_kept|]. intros s3 Hs3. destruct (root_of ctrl s3) as [i|] eqn:Hi; [|done].
  destruct (root_of_live ctrl s3 i Hs3 Hi) as (r & Hr & Hv & Hok).
  rewrite (upd_root_eq _ _ _ r Hr), cbind_Ret. set (r' := set_mnt_dir _ _). assert (kept (set_root i r' s3)) as Hs4.
  { split; [apply (wf_flags i r); auto; by destruct Hs3|apply (keep_flags i r); by destruct Hs3]. }
  destruct (ctrl =? CTRL_MEMORY)%nat; [|done]. rewrite (root_at_eq _ _ r'), cbind_Ret by (cbn; by rewrite list_lookup_insert_eq by (by eapply lookup_lt_Some)).
  unfold fd_of. change (dir_fd (mnt_dir r')) with (dir_fd (mnt_dir r)). destruct Hok as [-> _]. cbn [defined]. rewrite cbind_Ret.
  by apply safe_kept; [repeat constructor|].
Qed.

Hypothesis (keep_ctrls : ∀ cs s, P s → P (set_ctrls cs s)).

Definition to_base (ctrl : nat) (s : cgroups) : cgroups := upd_ctrl ctrl (λ c, mk_ctrl (Some 0%nat) (we_require_it c)) s.

Lemma require_root_kept ctrl name base o s : (length name ≤ 16)%nat → kept s →
  good (λ s', kept s' ∧ is_Some (root_of ctrl s') ∨ base = true ∧ ∃ s0, kept s0 ∧ s' = to_base ctrl s0)
    (require_root k tmpdir ctrl name base o s).
Proof.
  intros Hn Hs. unfold require_root. case_bool_decide; [by left|]. eapply good_bind; [by apply scan_kept|]. intros s1 Hs1.
  case_bool_decide; [by left|]. apply (good_bind kept); [destruct (_ && _); [by apply mount_v2_kept|done]|]. intros s2 Hs2.
  case_bool_decide; [by left|]. apply (good_bind kept); [destruct (negb _); [by apply mount_v1_kept|done]|]. intros s3 Hs3.
  destruct base.
  - case_bool_decide; [|done]. right. split; [done|]. by exists s3.
  - case_bool_decide; [|done]. by left.
Qed.

Lemma name_short ctrl name : ctrl_names !! ctrl = Some name → (length name ≤ 16)%nat.
Proof.
  assert (Forall (λ n, length n ≤ 16)%nat ctrl_names) as H by by_dec. intros Hc. by apply (Forall_lookup_1 _ _ _ _ H Hc).
Qed.

Lemma base_index ctrl : ctrl_names !! ctrl = Some (str "base") → ctrl = CTRLS_MAX.
Proof.
  intros H. assert (NoDup ctrl_names) as Hd by by_dec. eapply NoDup_lookup; [exact Hd|exact H|]. by vm_compute.
Qed.

(** With the V2 hierarchy mounted, [base] may point to it. *)
Lemma to_base_wf s r : wf s → roots s !! 0%nat = Some r → ver r ≠ 0 → wf (to_base CTRLS_MAX s).
Proof.
  intros (Hro & Hl & Hp & Hf) Hr Hv. split_and!; cbn [roots controllers to_base upd_ctrl set_ctrls]; [done|by rewrite length_alter|..].
  - intros c x j Hx Hj. apply alter_lookup in Hx as (y & Hy & ->). destruct (decide (CTRLS_MAX = c)) as [<-|]; [|by eapply Hp].
    injection Hj as <-. exists r. auto.
  - intros j r2 c x Hj Hc Hx. apply alter_lookup in Hx as (y & Hy & ->). destruct (decide (CTRLS_MAX = c)); [done|by eapply Hf].
Qed.

Lemma first_ctrl_lookup name l names : ∀ i j, first_ctrl name l names i = Some j → ∃ n, names !! (j - i)%nat = Some n ∧ (i ≤ j)%nat ∧ strncmp name n l = 0.
Proof.
  induction names as [|n names IH]; intros i j; cbn [first_ctrl]; [done|]. destruct (Z.eqb_spec (strncmp name n l) 0).
  - intros [= <-]. exists n. by rewrite Nat.sub_diag.
  - intros H. destruct (IH _ _ H) as (n' & Hn' & Hle & ?). exists n'. split_and!; [|lia|done]. by replace (j - i)%nat with (S (j - S i)) by lia.
Qed.

Lemma ctrl_of_name name c : ctrl_of name = Some c → ∃ n, ctrl_names !! c = Some n ∧ strncmp name n (name_len name) = 0.
Proof.
  unfold ctrl_of. destruct (negb _); [done|]. intros (n & Hn & _ & ?)%first_ctrl_lookup. rewrite Nat.sub_0_r in Hn. by exists n.
Qed.

Lemma required_wf ctrl name base o i r s s' : wf s → roots s !! i = Some r → ver r ≠ 0 → root_ok r → required ctrl name base o i r s s' → wf s'.
Proof.
  intros Hwf Hr Hv Hok (r' & p & E1 & E2 & _ & (F1 & F2 & F3 & F4) & Ho & _). unfold wf. rewrite E1, E2.
  eapply tables_insert; [exact Hwf|exact Hr|by right|done|done| |done]. intros [Hm _]. split; [by rewrite F4, F2|]. right. by eexists _, _.
Qed.

(** The hierarchy fits what the options ask for. *)
Definition fits (o : tst_cg_opts) (r : cgroup_root) : Prop :=
  (needs_ver o = TST_CG_V1 → ver r ≠ TST_CG_V2) ∧ (needs_ver o = TST_CG_V2 → ver r = TST_CG_V2).

Lemma require_kept ctrl_name ctrl o s : ctrl_of ctrl_name = Some ctrl → kept s →
  good (λ s', ∃ name i r s0, ctrl_names !! ctrl = Some name ∧ kept s0 ∧ root_of ctrl s0 = Some i ∧ roots s0 !! i = Some r ∧ ver r ≠ 0 ∧ root_ok r ∧
                fits o r ∧ required ctrl name (bool_decide (name = str "base")) o i r s0 s' ∧ wf s')
    (tst_cg_require k tmpdir getpid ctrl_name o s).
Proof.
  intros Hc Hs. unfold tst_cg_require. eapply good_bind; [apply find_ctrl_spec|]. intros [c s1] [Q1 E]. cbn [fst snd] in *. rewrite E, Hc. clear c E.
  cbn [defined]. rewrite cbind_Ret. destruct (ctrl_of_name ctrl_name ctrl Hc) as (name & Hname & _). rewrite Hname. cbn [defined]. rewrite cbind_Ret.
  cbv zeta. set (base := bool_decide _). destruct (base && _) eqn:Hb; [done|]. apply (kept_quiet _ _ Q1) in Hs. pose proof Hs as [(_ & Hl & _) _].
  destruct (lookup_lt_is_Some_2 (controllers s1) ctrl) as [x Hx]; [rewrite Hl; by apply lookup_lt_Some in Hname|]. rewrite Hx. cbn [defined]. rewrite cbind_Ret.
  assert (kept (upd_ctrl ctrl (λ c, mk_ctrl (ctrl_root c) true) (if we_require_it x then report TWARN s1 else s1))) as Hs2.
  { assert (kept (if we_require_it x then report TWARN s1 else s1)) as [? ?]; [|split; [by apply wf_ctrls|by apply keep_ctrls]].
    destruct (we_require_it x); [eapply kept_quiet; [apply res_quiet|done]|done]. }
  eapply good_bind; [by apply require_root_kept; [eapply name_short|]|]. intros s3 H3. clear -H3 Hb Hname keep_ctrls.
  assert (needs_ver o = TST_CG_V2 ∨ base = false) as Hbase.
  { destruct base; [|by right]. left. destruct (Z.eqb_spec (needs_ver o) TST_CG_V2); done. }
  assert (∃ i r, root_of ctrl s3 = Some i ∧ roots s3 !! i = Some r ∧ (ver r ≠ 0 → root_ok r ∧ kept s3) ∧ (ver r = 0 → needs_ver o = TST_CG_V2)) as (i & r & Hi & Hr & Hlive & Hdead).
  { destruct H3 as [[Hk [i Hi]]|(Eb & s0 & Hk & ->)].
    - destruct (root_of_live ctrl s3 i Hk Hi) as (r & Hr & ? & ?). by exists i, r.
    - destruct Hbase as [Hv2|]; [|congruence]. apply bool_decide_eq_true in Eb. rewrite Eb in Hname. apply base_index in Hname as ->.
      destruct (root0_at s0 Hk) as [r Hr]. exists 0%nat, r. destruct Hk as [Hwf HP]. split_and!; [|done| |done].
      + unfold root_of. cbn. rewrite list_lookup_alter_eq. destruct Hwf as (_ & Hl & _).
        destruct (lookup_lt_is_Some_2 (controllers s0) CTRLS_MAX) as [y ->]; [rewrite Hl; unfold CTRLS_MAX; lia|done].
      + intros Hv. split; [|split; [by eapply to_base_wf|by apply keep_ctrls]]. destruct (wf_shape s0 Hwf) as (r0 & vs & n & E & _ & Hv2' & _).
        rewrite E in Hr. injection Hr as ->. destruct Hv2' as [[_ ?]|[? _]]; done. }
  eapply good_mono; [apply (require_dirs_spec ctrl name base o i r s3 Hi Hr); [by intros; apply Hlive|done]|].
  intros s4 (Hv & H1 & H2 & Hreq). destruct (Hlive Hv) as [Hok Hk]. exists name, i, r, s3. split_and!; try done.
  eapply (required_wf _ _ _ _ i r s3); [by destruct Hk|done..].
Qed.
End Keep.

(** The directory was made or was there. *)
Definition there (d : dirid) (h : history) : Prop := (KMkdir d, 0) ∈ h ∨ (KMkdir d, EEXIST) ∈ h.

Lemma makes_there d b h h' : makes d b h h' → there d h'.
Proof. intros (h1 & e & h2 & -> & _ & _ & _ & [[-> _]|[-> _]]); [left|right]; rewrite !elem_of_app; right; right; by left. Qed.

Lemma makes_keeps d b h h' x : makes d b h h' → x ∈ h → x ∈ h'.
Proof. intros (h1 & e & h2 & -> & _) Hx. rewrite elem_of_app. by left. Qed.

(** C17. A required controller is ready when the call returns, whatever the
    kernel answers and whether the controller was found, mounted or required
    before: it belongs to a mounted hierarchy of the version that is asked
    for, the drain directory and the test directory with the pid in its name
    were made or found there and are open below the ltp directory, the test
    directory has the controller, and on V2 the controller was enabled below
    ltp. *)
Theorem cg_require_correct ctrl_name ctrl o s : ctrl_of ctrl_name = Some ctrl → wf s → (∀ h m, m ∈ k_mounts k h → short m) →
  Z.of_nat (length tmpdir) < PATH_MAX - 32 →
  good (λ s', wf s' ∧ ∃ i r p, root_of ctrl s' = Some i ∧ roots s' !! i = Some r ∧ ver r ≠ 0 ∧ fits o r ∧
          opened p (test_name o) r ∧ has_ctrl (dir_field (test_dir r)) ctrl = true ∧
          there (p, [ltp; drain]) (calls s') ∧ there (p, [ltp; test_name o]) (calls s') ∧
          (ver r = TST_CG_V2 → ctrl ≠ CTRLS_MAX → ∃ name, ctrl_names !! ctrl = Some name ∧ (KPrint (p, [ltp]) cgsc (str "+" ++ name), 0) ∈ calls s'))
    (tst_cg_require k tmpdir getpid ctrl_name o s).
Proof.
  intros Hc Hwf Hsh Htmp. eapply good_mono; [apply (require_kept (λ _, True) Hsh Htmp); by try split|].
  intros s' (name & i & r & s0 & Hname & _ & Hi & Hr & Hv & Hok & Hfit & (r' & p & E1 & E2 & E3 & (F1 & F2 & F3 & F4) & Ho & Hmade & Hctrl & Hen) & Hwf').
  split; [done|]. exists i, r', p. destruct Hmade as (h1 & h2 & b1 & b2 & _ & M1 & M2). split_and!; try done.
  - unfold root_of. by rewrite E2.
  - rewrite E1. by apply list_lookup_insert_eq, (lookup_lt_Some _ _ _ Hr).
  - by rewrite F1.
  - unfold fits. by rewrite F1.
  - destruct (makes_there _ _ _ _ M1); [left|right]; by eapply makes_keeps.
  - by eapply makes_there.
  - rewrite F1. intros H2 Hbase. exists name. split; [done|]. apply Hen; [done|]. apply bool_decide_eq_false. intros ->. by apply base_index in Hname.
Qed.
End Kernel.
