(* ===== verification/CgroupCleanup.v ===== *)
(** * Control groups: cleaning up

    Which directories [tst_cg_cleanup] removes.  Shows that no sequence of
    calls leaves the tables or uses a directory that was not opened, and that
    cleaning up after any requests leaves the directories in the hierarchies
    as they were. *)

From S2P Require Import Prelude Cgroup CgroupFacts CgroupRequire.
Open Scope Z_scope.

(** ** The directories that exist *)

Definition dirs_step (D : list dirid) (x : call * Z) : list dirid :=
  match x with
  | (KMkdir d, e) => if e =? 0 then d :: D else D
  | (KRmdir d, e) => if e =? 0 then filter (λ d', d' ≠ d) D else D
  | _ => D
  end.

(** After the calls [h], when there were [D]. *)
Definition dirs (D : list dirid) (h : history) : list dirid := foldl dirs_step D h.

Lemma dirs_app D h1 h2 : dirs D (h1 ++ h2) = dirs (dirs D h1) h2.
Proof. apply foldl_app. Qed.

Lemma dirs_neutral h d : neutral h → d.2 ≠ [] → ∀ D, d ∈ dirs D h ↔ d ∈ D.
Proof.
  intros Hn Hd. induction Hn as [|[c e] h Hc Hn IH]; intros D; [done|]. change (d ∈ dirs (dirs_step D (c, e)) h ↔ d ∈ D). rewrite IH.
  destruct c as [| |d'|d'| | | |]; cbn in *; try done; destruct (e =? 0); try done.
  - rewrite elem_of_cons. split; [intros [->|]|]; [done..|auto].
  - rewrite list_elem_of_filter. split; [by intros [_ ?]|]. intros. split; [by intros ->|done].
Qed.

Lemma dirs_later h h' d D : later h h' → d.2 ≠ [] → d ∈ dirs D h' ↔ d ∈ dirs D h.
Proof. intros (n & -> & Hn) Hd. rewrite dirs_app. by apply dirs_neutral. Qed.

(** Removing a directory that satisfies [R], in whatever order. *)
Definition cut (R : dirid → Prop) (s s' : cgroups) : Prop :=
  ∀ D d, d.2 ≠ [] → d ∈ dirs D (calls s') ↔ d ∈ dirs D (calls s) ∧ ¬ R d.

Lemma cut_nothing s s' : later (calls s) (calls s') → cut (λ _, False) s s'.
Proof. intros Hl D d Hd. rewrite (dirs_later _ _ _ _ Hl Hd). tauto. Qed.

Lemma cut_trans R1 R2 s1 s2 s3 : cut R1 s1 s2 → cut R2 s2 s3 → cut (λ d, R1 d ∨ R2 d) s1 s3.
Proof. intros H1 H2 D d Hd. rewrite (H2 D d Hd), (H1 D d Hd). tauto. Qed.

Lemma cut_iff R R' s s' : cut R s s' → (∀ d, d.2 ≠ [] → R d ↔ R' d) → cut R' s s'.
Proof. intros H HR D d Hd. rewrite (H D d Hd), (HR d Hd). done. Qed.

Section Kernel.
Context (k : kernel).

(** ** The steps *)

Lemma quiet_calls s s' : quiet s s' → only_calls s s'.
Proof. by intros (? & ? & ? & _). Qed.

Lemma only_calls_trans s1 s2 s3 : only_calls s1 s2 → only_calls s2 s3 → only_calls s1 s3.
Proof. unfold only_calls. intuition congruence. Qed.

Lemma print_all_quiet d file toks : ∀ s, good (quiet s) (print_all k d file toks s).
Proof.
  induction toks as [|t toks IH]; intros s; cbn [print_all]; [cbn; reflexivity|].
  pose proof (sys_quiet k (KPrint d file t) s (ltac:(by repeat constructor))) as Hq. destruct (sys k _ s) as [e s1]. cbn [snd] in Hq.
  destruct (e =? 0); [|done]. eapply good_mono; [apply IH|]. intros s2 Q2. by etransitivity.
Qed.

Lemma drain_quiet v src dst s : is_Some (dir_fd src) → is_Some (dir_fd dst) → good (quiet s) (cgroup_drain k v src dst s).
Proof.
  intros [a Ha] [b Hb]. unfold cgroup_drain, fd_of. rewrite Ha, Hb. cbn [defined]. rewrite cbind_Ret. eapply good_bind; [apply readat_quiet|].
  intros [text s1] [Q1 _]. cbn [fst snd] in *. rewrite cbind_Ret. eapply good_bind; [apply safe_quiet; by repeat constructor|]. intros s2 [Q2 _].
  eapply good_mono; [apply print_all_quiet|]. intros s3 Q3. by do 2 (etransitivity; [done|]).
Qed.

Lemma unlinkat_cut parent p name s : dir_fd parent = Some p →
  good (λ s', only_calls s s' ∧ cut (λ d, d = (p.1, p.2 ++ [name])) s s') (safe_unlinkat k parent name s).
Proof.
  intros Hp. unfold safe_unlinkat, fd_of. rewrite Hp. cbn [defined]. rewrite cbind_Ret. unfold safe, sys. cbv zeta.
  destruct (Z.eqb_spec (k_errno k (calls s) (KRmdir (p.1, p.2 ++ [name]))) 0) as [->|]; [|done]. split; [done|]. intros D d _. cbn [calls add_call].
  rewrite dirs_app. cbn. rewrite list_elem_of_filter. tauto.
Qed.

Lemma for_all_cut f (R : nat → dirid → Prop) s0 ix : ∀ s, only_calls s0 s →
  (∀ i s, i ∈ ix → only_calls s0 s → good (λ s', only_calls s s' ∧ cut (R i) s s') (f i s)) →
  good (λ s', only_calls s s' ∧ cut (λ d, ∃ i, i ∈ ix ∧ R i d) s s') (for_all f ix s).
Proof.
  induction ix as [|i ix IH]; intros s Hs Hf; cbn [for_all].
  - split; [done|]. eapply cut_iff; [apply cut_nothing, later_refl|]. intros d _. split; [done|]. by intros (i & Hi%not_elem_of_nil & _).
  - eapply good_bind; [apply Hf; [by left|done]|]. intros s1 [H1 C1].
    eapply good_mono; [apply IH; [by eapply only_calls_trans|intros j s2 Hj; apply Hf; by right]|]. intros s2 [H2 C2].
    split; [by eapply only_calls_trans|]. eapply cut_iff; [by eapply cut_trans|]. intros d _. cbn. setoid_rewrite elem_of_cons. firstorder (subst; auto).
Qed.

(** What the cleanup of the hierarchy [i] of [s] removes. *)
Definition test_cut (s : cgroups) (i : nat) (d : dirid) : Prop :=
  ∃ r p name, roots s !! i = Some r ∧ opened p name r ∧ d = (p, [ltp; cgroup_test_dir s]).

Definition ltp_cut (s : cgroups) (i : nat) (d : dirid) : Prop :=
  ∃ r p name, roots s !! i = Some r ∧ opened p name r ∧ we_created_it (ltp_dir r) = true ∧ (d = (p, [ltp; drain]) ∨ d = (mnt_path r, [ltp])).

Lemma unopened_opened r p name : unopened r → ¬ opened p name r.
Proof. intros (E & _) ((H & _) & _). by rewrite E in H. Qed.

Lemma opened_path r p name p' name' : opened p name r → opened p' name' r → p = p'.
Proof. intros ((_ & E) & _) ((_ & E') & _). congruence. Qed.

Lemma remove_test_cut i s s0 r : roots s0 !! i = Some r → root_ok r → only_calls s0 s →
  good (λ s', only_calls s s' ∧ cut (test_cut s0 i) s s') (remove_test k i s).
Proof.
  intros Hr Hok (E1 & E2 & E3). unfold remove_test. rewrite (root_at_eq i s r), cbind_Ret by by rewrite E1. destruct Hok as [Hm [Hun|(p & name & Ho)]].
  - assert (dir_named (test_dir r) = false) as -> by (by destruct Hun as (_ & _ & ->)). cbn [negb good]. split; [done|].
    eapply cut_iff; [apply cut_nothing, later_refl|]. intros d _. split; [done|]. intros (r' & p & name & Hr' & Ho & _).
    replace r' with r in Ho by congruence. by eapply unopened_opened.
  - pose proof Ho as ((_ & Hl) & (_ & Hd) & (Hn & Ht)). rewrite Hn. cbn [negb]. eapply good_bind; [by apply drain_quiet; [rewrite Ht|rewrite Hd]|].
    intros s1 Q1. eapply good_mono; [by apply (unlinkat_cut _ _ _ _ Hl)|]. intros s2 [H2 C2]. pose proof (quiet_calls _ _ Q1) as (_ & _ & F3).
    split; [eapply only_calls_trans; [by apply quiet_calls|done]|]. eapply cut_iff; [eapply cut_trans; [apply cut_nothing, quiet_later, Q1|exact C2]|].
    intros d _. cbn. rewrite F3, E3. split.
    + intros [[]| ->]. by exists r, p, name.
    + intros (r' & p' & name' & Hr' & Ho' & ->). replace r' with r in Ho' by congruence. right. by rewrite (opened_path _ _ _ _ _ Ho Ho').
Qed.

Lemma remove_ltp_cut i s s0 r : roots s0 !! i = Some r → root_ok r → only_calls s0 s →
  good (λ s', only_calls s s' ∧ cut (ltp_cut s0 i) s s') (remove_ltp k i s).
Proof.
  intros Hr Hok (E1 & E2 & E3). unfold remove_ltp. rewrite (root_at_eq i s r), cbind_Ret by by rewrite E1.
  destruct (we_created_it (ltp_dir r)) eqn:Ec; cbn [negb].
  - destruct Hok as [Hm [Hun|(p & name & Ho)]]; [by destruct Hun as (E & _); rewrite E in Ec|].
    pose proof Ho as ((Hn & Hl) & (Hn' & Hd) & _). eapply good_bind; [by apply drain_quiet; [rewrite Hd|rewrite Hm]|]. intros s1 Q1.
    rewrite Hn, Hn'. eapply good_bind; [by apply (unlinkat_cut _ _ _ _ Hl)|]. intros s2 [H2 C2].
    eapply good_mono; [by apply (unlinkat_cut _ _ _ _ Hm)|]. intros s3 [H3 C3].
    split; [eapply only_calls_trans; [by apply quiet_calls|by eapply only_calls_trans]|].
    eapply cut_iff; [eapply cut_trans; [eapply cut_trans; [apply cut_nothing, quiet_later, Q1|exact C2]|exact C3]|].
    intros d _. cbn. split.
    + intros [[[]| ->]| ->]; exists r, p, name; auto.
    + intros (r' & p' & name' & Hr' & Ho' & _ & Hd'). replace r' with r in * by congruence. rewrite <- (opened_path _ _ _ _ _ Ho Ho') in Hd'. tauto.
  - split; [done|]. eapply cut_iff; [apply cut_nothing, later_refl|]. intros d _. split; [done|]. intros (r' & p & name & Hr' & _ & Hc & _). congruence.
Qed.

Lemma each_root_spec s : wf s → ∃ ix, each_root s = CRet ix ∧ ∀ i, i ∈ ix ↔ ∃ r, roots s !! i = Some r ∧ ver r ≠ 0.
Proof.
  intros Hwf. destruct (wf_shape s Hwf) as (r0 & vs & n & E & _ & Hv2 & Hv1 & _).
  assert (∀ i, i ∈ seq 1 (length vs) ↔ ∃ r, roots s !! S (i - 1) = Some r ∧ (0 < i)%nat ∧ ver r ≠ 0) as Hin.
  { intros i. rewrite elem_of_seq, E. split.
    - intros Hi. destruct (lookup_lt_is_Some_2 vs (i - 1)) as [r Hr]; [lia|]. exists r. split_and!; [by apply (lookup_app_l_Some vs)|lia|].
      by apply (Forall_lookup_1 _ _ _ _ (v1_live vs Hv1) Hr).
    - intros (r & Hr & Hi & Hv). change ((vs ++ replicate (S n) root0) !! (i - 1)%nat = Some r) in Hr.
      apply lookup_app_Some in Hr as [Hr%lookup_lt_Some|[_ Hr]]; [lia|]. apply lookup_replicate in Hr as [-> _]. by destruct Hv. }
  unfold each_root, v1_roots, cgroup_v2_mounted. rewrite E. cbn [drop]. rewrite drop_0, (live_spec vs (v1_live vs Hv1)).
  destruct (Z.eqb_spec (ver r0) 0) as [H0|H0]; cbn [negb defined].
  - eexists. split; [done|]. intros i. rewrite Hin. destruct i as [|i].
    + split; [intros (? & _ & ? & _); lia|]. intros (r & [= <-] & ?). done.
    + rewrite E. replace (S (S i - 1)) with (S i) by lia. split; intros (r & ?); exists r; intuition lia.
  - cbn [live]. destruct (Z.eqb_spec (ver r0) 0); [done|]. rewrite (live_spec vs (v1_live vs Hv1)). eexists. split; [done|]. intros i.
    rewrite elem_of_cons, Hin. destruct i as [|i].
    + split; [|auto]. intros _. by exists r0.
    + rewrite E. replace (S (S i - 1)) with (S i) by lia. split; [intros [|(r & ?)]; [done|exists r; tauto]|]. intros (r & ?). right. exists r. intuition lia.
Qed.

Lemma quiet_cut s s' : quiet s s' → only_calls s s' ∧ cut (λ _, False) s s'.
Proof. intros Q. split; [by apply quiet_calls|by apply cut_nothing, quiet_later]. Qed.

Lemma disable_cut c s s0 : wf s0 → (c < 19)%nat → only_calls s0 s → good (λ s', only_calls s s' ∧ cut (λ _, False) s s') (disable_ctrl k c s).
Proof.
  intros Hwf Hc (E1 & E2 & E3). unfold disable_ctrl. destruct (lookup_lt_is_Some_2 ctrl_names c) as [name ->]; [exact Hc|]. cbn [defined]. rewrite cbind_Ret.
  assert (quiet s s) as Q by reflexivity. destruct (cgroup_ctrl_on_v2 c s) eqn:Ev; [|by apply quiet_cut]. cbn [negb].
  unfold cgroup_ctrl_on_v2 in Ev. destruct (root_of c s) as [i|]; [|done]. destruct (roots s !! i) as [r|] eqn:Hr; [|done]. cbn [defined]. rewrite cbind_Ret.
  rewrite (root_at_eq _ _ _ Hr), cbind_Ret. destruct (_ || _); [by apply quiet_cut|]. apply Z.eqb_eq in Ev.
  destruct (wf_live s0 i r Hwf) as [Hm _]; [by rewrite <- E1|by rewrite Ev|]. unfold fd_of. rewrite Hm. cbn [defined]. rewrite cbind_Ret.
  eapply good_mono; [apply safe_quiet; by repeat constructor|]. intros s' [Q' _]. by apply quiet_cut.
Qed.

Lemma unmount_cut i s s0 : is_Some (roots s0 !! i) → only_calls s0 s → good (λ s', only_calls s s' ∧ cut (λ _, False) s s') (unmount k i s).
Proof.
  intros [r Hr] (E1 & E2 & E3). unfold unmount. rewrite (root_at_eq i s r), cbind_Ret by by rewrite E1.
  assert (quiet s s) as Q by reflexivity. destruct (we_mounted_it r); cbn [negb]; [|by apply quiet_cut].
  pose proof (sys_quiet k (KUmount (mnt_path r)) s (ltac:(by repeat constructor))) as Q1. destruct (sys k _ s) as [e s1]. cbn [snd] in Q1.
  destruct (e =? 0); [|by apply quiet_cut]. eapply good_mono; [apply safe_quiet; by repeat constructor|]. intros s2 [Q2 _].
  apply quiet_cut. by etransitivity.
Qed.

Lemma opened_live s i r p name : wf s → roots s !! i = Some r → opened p name r → ver r ≠ 0.
Proof.
  intros Hwf Hr Ho Hv. destruct (wf_root s i r Hwf Hr) as [[[? _]|(_ & _ & Hun)]|[(? & _)| ->]]; [congruence|by eapply unopened_opened|congruence|].
  by apply (unopened_opened root0 p name).
Qed.

Lemma not_mounted s i r : wf s → cgroup_mounted s = false → roots s !! i = Some r → ver r = 0.
Proof.
  intros Hwf Hm Hr. destruct (wf_shape s Hwf) as (r0 & vs & n & E & _ & Hv2 & Hv1 & _). unfold cgroup_mounted, cgroup_v2_mounted, cgroup_v1_mounted in Hm.
  rewrite E in *. destruct (Z.eqb_spec (ver r0) 0) as [H0|]; [|done]. destruct i as [|i]; [by injection Hr as <-|]. destruct Hv1 as [|r1 vs [H1 _] _].
  - change (replicate (S n) root0 !! i = Some r) in Hr. by apply lookup_replicate in Hr as [-> _].
  - cbn in Hm. by rewrite H1 in Hm.
Qed.

(** All data are cleared, and the directories of the test are removed. *)
Lemma cleanup_cut s : wf s →
  good (λ s', roots s' = replicate 20 root0 ∧ controllers s' = replicate 19 ctrl0 ∧
              cut (λ d, ∃ i, test_cut s i d ∨ ltp_cut s i d) s s') (tst_cg_cleanup k s).
Proof.
  intros Hwf. unfold tst_cg_cleanup. destruct (each_root_spec s Hwf) as (ix & Eix & Hix).
  assert (∀ i d, test_cut s i d ∨ ltp_cut s i d → ∃ r, roots s !! i = Some r ∧ ver r ≠ 0) as Hlive.
  { intros i d [(r & p & name & Hr & Ho & _)|(r & p & name & Hr & Ho & _)]; exists r; split; [done|by eapply opened_live|done|by eapply opened_live]. }
  destruct (cgroup_mounted s) eqn:Em; cbn [negb].
  - rewrite Eix, cbind_Ret. assert (∀ i, i ∈ ix → ∃ r, roots s !! i = Some r ∧ root_ok r) as Hok.
    { intros i (r & Hr & Hv)%Hix. exists r. split; [done|by eapply wf_live]. }
    eapply good_bind; [apply (for_all_cut _ (test_cut s) s); [done|]|].
    { intros i s1 (r & Hr & ?)%Hok H1. by apply (remove_test_cut i s1 s r). }
    intros s1 [H1 C1]. eapply good_bind; [apply (for_all_cut _ (ltp_cut s) s); [done|]|].
    { intros i s2 (r & Hr & ?)%Hok H2. by apply (remove_ltp_cut i s2 s r). }
    intros s2 [H2 C2]. assert (only_calls s s2) as H02 by by eapply only_calls_trans. eapply good_bind; [apply (for_all_cut _ (λ _ _, False) s); [done|]|].
    { intros c s3 Hc H3. apply (disable_cut c s3 s); [done| |done]. apply elem_of_seq in Hc. unfold CTRLS_MAX in Hc. lia. }
    intros s3 [H3 C3]. eapply good_bind; [apply (for_all_cut _ (λ _ _, False) s); [by eapply only_calls_trans|]|].
    { intros i s4 (r & Hr & _)%Hok H4. by apply (unmount_cut i s4 s). }
    intros s4 [H4 C4]. split_and!; [done|done|]. eapply cut_iff; [exact (cut_trans _ _ _ _ _ (cut_trans _ _ _ _ _ (cut_trans _ _ _ _ _ C1 C2) C3) C4)|].
    intros d _. cbn. split.
    + intros [[[(i & _ & ?)|(i & _ & ?)]|(i & _ & [])]|(i & _ & [])]; exists i; auto.
    + intros (i & Hi). pose proof (Hlive i d Hi) as Hi2. apply Hix in Hi2. left. left. destruct Hi; [left|right]; by exists i.
  - split_and!; [done|done|]. eapply cut_iff; [apply cut_nothing, later_refl|]. intros d _. split; [done|]. intros (i & (r & Hr & Hv)%Hlive).
    apply Hv. by eapply not_mounted.
Qed.

(** ** Sequences of calls *)

Inductive cg_op := OpScan | OpRequire (ctrl_name : list Z) (o : tst_cg_opts) | OpCleanup.

Context (tmpdir : list Z) (getpid : Z).

Definition cg_run_op (op : cg_op) (s : cgroups) : cres cgroups :=
  match op with
  | OpScan => tst_cg_scan k s
  | OpRequire ctrl_name o => tst_cg_require k tmpdir getpid ctrl_name o s
  | OpCleanup => tst_cg_cleanup k s
  end.

Fixpoint cg_run (ops : list cg_op) (s : cgroups) : cres cgroups :=
  match ops with [] => CRet s | op :: ops => s ← cg_run_op op s; cg_run ops s end.

(** A controller that is not in the table makes the program read through a
    null pointer. *)
Definition op_known (op : cg_op) : Prop := match op with OpRequire ctrl_name _ => is_Some (ctrl_of ctrl_name) | _ => True end.

Lemma wf_cleared s : roots s = replicate 20 root0 → controllers s = replicate 19 ctrl0 → wf s.
Proof.
  intros E1 E2. unfold wf, tables_ok. rewrite E1, E2. split_and!; [|done|..].
  - apply (Roots_ok root0 [] 18); [done|by right|constructor|]. intros i j r1 r2 Hi. by rewrite lookup_nil in Hi.
  - intros c x i [-> _]%lookup_replicate. done.
  - intros i r c x [-> _]%lookup_replicate Hc. by rewrite has_ctrl_bit, Z.bits_0 in Hc.
Qed.

(** C33. When the paths of the mount table are shorter than PATH_MAX and that
    of the temporary directory is shorter by 32, no sequence of scans,
    requests for known controllers and cleanups leaves the arrays of
    hierarchies and controllers, overflows a path, or uses a directory that
    was not opened, whatever hierarchies are mounted with whatever options,
    and whatever the files and the results of the calls are; and after each of
    them the tables are in order. *)
Theorem cg_in_bounds ops h : Forall op_known ops → (∀ h m, m ∈ k_mounts k h → short m) → Z.of_nat (length tmpdir) < PATH_MAX - 32 →
  good wf (cg_run ops (cg0 h)).
Proof.
  intros Hops Hsh Htmp. assert (wf (cg0 h)) as Hwf by by apply wf_cleared. revert Hwf. generalize (cg0 h).
  induction Hops as [|op ops Hop Hops IH]; intros s Hwf; cbn [cg_run]; [done|]. apply (good_bind wf); [|apply IH]. destruct op as [|ctrl_name o|]; cbn [cg_run_op].
  - unfold tst_cg_scan. destruct (k_mounts k (calls s)) as [|m0 ms0] eqn:E; [done|]. rewrite <- E.
    eapply good_mono; [apply scan_mounts_known; [apply Forall_forall; intros m; apply Hsh|done]|]. by intros s' [? _].
  - destruct Hop as [ctrl Hc]. eapply good_mono; [apply (require_kept k tmpdir getpid (λ _, True) Hsh Htmp); by try split|].
    by intros s' (? & ? & ? & ? & _ & _ & _ & _ & _ & _ & _ & _ & ?).
  - eapply good_mono; [by apply cleanup_cut|]. intros s' (? & ? & _). by apply wf_cleared.
Qed.
End Kernel.
