(* ===== verification/CgroupRestore.v ===== *)
(** * Control groups: what is left

    With a kernel that makes a directory exactly when it does not exist, the
    directories that a program requires and cleans up are gone, and nothing
    else has changed in the hierarchies. *)

From S2P Require Import Prelude Cgroup CgroupFacts CgroupRequire CgroupCleanup.
Open Scope Z_scope.

Section Restore.
Context (k : kernel) (tmpdir : list Z) (getpid : Z).

(** The directories at the start, and the controllers of the V2 hierarchy. *)
Context (D0 : list dirid) (F2 : Z) (T : list Z).

(** What is known of the kernel: making a directory fails with EEXIST when
    it exists and only succeeds when it does not, a mount point has one entry
    that does not change, and there is one V2 hierarchy. *)
Record kernel_ok : Prop := mk_ok {
  mkdir_new : ∀ h d, k_errno k h (KMkdir d) = 0 → d ∉ dirs D0 h;
  mkdir_exists : ∀ h d, k_errno k h (KMkdir d) = EEXIST → d ∈ dirs D0 h;
  one_entry : ∀ h1 h2 m1 m2, m1 ∈ k_mounts k h1 → m2 ∈ k_mounts k h2 → mnt_dir_ m1 = mnt_dir_ m2 → m1 = m2;
  one_v2 : ∀ h h' m, m ∈ k_mounts k h → ¬ is_v1 m → controllers_field k h' m = F2;
  short_paths : ∀ h m, m ∈ k_mounts k h → short m;
}.

(** ** What the state says about the directories *)

Definition owns (r : cgroup_root) (d : dirid) : Prop :=
  opened (mnt_path r) T r ∧
  (d = (mnt_path r, [ltp; drain]) ∨ d = (mnt_path r, [ltp; T]) ∨ we_created_it (ltp_dir r) = true ∧ d = (mnt_path r, [ltp])).

Definition of_mount (i : nat) (r : cgroup_root) : Prop :=
  ∃ h m, m ∈ k_mounts k h ∧ mnt_dir_ m = mnt_path r ∧
    match i with O => ¬ is_v1 m ∧ ctrl_field r = F2 | S _ => is_v1 m ∧ ctrl_field r = opts_field m end.

Record tracked (s : cgroups) : Prop := mk_tracked {
  t_dirs : ∀ d, d.2 ≠ [] → d ∈ dirs D0 (calls s) ↔ d ∈ D0 ∨ ∃ i r, roots s !! i = Some r ∧ owns r d;
  t_roots : ∀ i r, roots s !! i = Some r →
    unopened r ∨ opened (mnt_path r) T r ∧ (we_created_it (ltp_dir r) = true ↔ (mnt_path r, [ltp]) ∉ D0) ∧ cgroup_test_dir s = T;
  t_mounts : ∀ i r, roots s !! i = Some r → ver r ≠ 0 → of_mount i r;
}.

Lemma unopened_owns r d : unopened r → ¬ owns r d.
Proof. intros Hun [Ho _]. by eapply unopened_opened. Qed.

(** A change that leaves the directories of the test alone. *)
Definition alike (r r' : cgroup_root) : Prop :=
  ltp_dir r' = ltp_dir r ∧ drain_dir r' = drain_dir r ∧ test_dir r' = test_dir r ∧ (mnt_path r' = mnt_path r ∨ unopened r).

Lemma alike_unopened r r' : alike r r' → unopened r → unopened r'.
Proof. intros (E1 & E2 & E3 & _). unfold unopened. by rewrite E1, E2, E3. Qed.

Lemma alike_opened r r' : alike r r' → ¬ unopened r → ∀ p name, mnt_path r' = mnt_path r ∧ (opened p name r' ↔ opened p name r).
Proof. intros (E1 & E2 & E3 & [E|?]) Hn p name; [|done]. unfold opened. by rewrite E1, E2, E3. Qed.

Lemma alike_owns r r' d : alike r r' → owns r' d ↔ owns r d.
Proof.
  intros Ha. destruct Ha as (E1 & E2 & E3 & [E|Hun]).
  - unfold owns, opened. by rewrite E1, E2, E3, E.
  - split; intros H; exfalso; eapply unopened_owns, H; [|done]. unfold unopened in *. by rewrite E1, E2, E3.
Qed.

Lemma tracked_insert s s' i r r' : tracked s → roots s !! i = Some r → roots s' = <[i := r']> (roots s) → later (calls s) (calls s') →
  cgroup_test_dir s' = cgroup_test_dir s → alike r r' → (ver r' ≠ 0 → of_mount i r') → tracked s'.
Proof.
  intros [Hd Hr Hm] Hi E Hl Ht Ha Hof. pose proof (lookup_lt_Some _ _ _ Hi) as Hlt. split.
  - intros d Hn. rewrite (dirs_later _ _ _ _ Hl Hn), (Hd d Hn), E. f_equiv. split; intros (j & x & Hj & Hx).
    + destruct (decide (i = j)) as [<-|]; [|exists j, x; by rewrite list_lookup_insert_ne].
      exists i, r'. rewrite list_lookup_insert_eq by done. split; [done|]. apply (alike_owns r); [done|]. congruence.
    + apply list_lookup_insert_Some in Hj as [(<- & <- & _)|[_ Hj]]; [|by exists j, x]. exists i, r. split; [done|]. by apply (alike_owns r r').
  - intros j x. rewrite E, Ht. intros [(<- & <- & _)|[_ Hj]]%list_lookup_insert_Some; [|by apply (Hr j)].
    destruct (Hr i r Hi) as [?|(Ho & Hc & Hn)]; [left; by eapply alike_unopened|].
    destruct (alike_opened r r' Ha) with (p := mnt_path r) (name := T) as [Ep Ho']; [intros Hun; by eapply unopened_opened|].
    right. rewrite Ep. destruct Ha as (-> & _). split_and!; [by apply Ho'|done|done].
  - intros j x. rewrite E. intros [(<- & <- & _)|[_ Hj]]%list_lookup_insert_Some; [done|by apply Hm].
Qed.

Lemma tracked_quiet s s' : quiet s s' → tracked s → tracked s'.
Proof.
  intros (E1 & E2 & E3 & Hl) [Hd Hr Hm]. split; rewrite ?E1, ?E3; [|done..]. intros d Hn. rewrite (dirs_later (calls s)); [by apply Hd|done..].
Qed.

Lemma alike_same r r' : ltp_dir r' = ltp_dir r → drain_dir r' = drain_dir r → test_dir r' = test_dir r → unopened r → alike r r'.
Proof. intros ? ? ? ?. unfold alike. auto. Qed.

Hypothesis (Hk : kernel_ok).

Lemma tracked_scan h m s s' : m ∈ k_mounts k h → wf s → tracked s → scans k m s s' → tracked s'.
Proof.
  intros Hm Hwf Ht [Hst [En Hl]]. remember (roots s) as rs eqn:Ers. remember (roots s') as rs' eqn:Ers'. remember (controllers s) as cs eqn:Ecs.
  remember (controllers s') as cs' eqn:Ecs'. destruct Hst as [_|r0 rs1 h' b c Hv E Hz Hn|r0 vs n a Hv Hz E Hd Hvs].
  - apply (tracked_quiet s s'); [|done]. split_and!; [congruence|congruence|done|exact Hl].
  - assert (ver r0 = 0) as Hdead.
    { destruct (decide (ver r0 = 0)) as [|Hlive]; [done|]. specialize (Hn Hlive). rewrite (one_v2 Hk _ _ _ Hm Hv) in Hn.
      destruct (t_mounts s Ht 0 r0) as (h2 & m2 & _ & _ & _ & Ef); [by rewrite <- Ers, E|done|congruence]. }
    destruct (wf_shape s Hwf) as (r0' & vs & n & E' & _ & Hv2 & _). assert (r0' = r0) as -> by congruence.
    assert (unopened r0) as Hun by (destruct Hv2 as [[? _]|(_ & _ & ?)]; [congruence|done]).
    eapply (tracked_insert s s' 0 r0); [done|by rewrite <- Ers, E|by rewrite <- Ers', <- Ers, E|done|done|by apply alike_same|].
    intros _. exists h, m. split_and!; [done|done|done|]. cbn. by apply (one_v2 Hk h).
  - eapply (tracked_insert s s' (S (length vs)) root0 (recorded 1 m (opts_field m) a false false root0)); [done| | |done|done|by apply alike_same|].
    + rewrite <- Ers, E. by apply (list_lookup_middle vs).
    + rewrite <- Ers', <- Ers, E. symmetry. apply (insert_free _ r0 vs root0).
    + intros _. by exists h, m.
Qed.

Lemma tracked_flags i r r' s : wf s → roots s !! i = Some r → flags r r' → tracked s → tracked (set_root i r' s).
Proof.
  intros _ Hr ((Ev & Ep & Ef & Ed) & E1 & E2 & E3) Ht. eapply (tracked_insert s _ i r r'); [done|done|done|apply later_refl|done|unfold alike; auto|].
  rewrite Ev. intros Hv. destruct (t_mounts s Ht i r Hr Hv) as (h & m & Hm & Em & H). exists h, m. rewrite Ep, Ef. done.
Qed.

Lemma tracked_ctrls cs s : tracked s → tracked (set_ctrls cs s).
Proof. intros [Hd Hr Hm]. by split. Qed.

(** Two hierarchies are not mounted at the same place. *)
Lemma mounts_distinct s i j r r' : wf s → tracked s → roots s !! i = Some r → roots s !! j = Some r' → ver r ≠ 0 → ver r' ≠ 0 →
  mnt_path r = mnt_path r' → i = j.
Proof.
  intros Hwf Ht Hi Hj Hv Hv' Ep. destruct (t_mounts s Ht i r Hi Hv) as (h & m & Hm & Em & H), (t_mounts s Ht j r' Hj Hv') as (h' & m' & Hm' & Em' & H').
  assert (m = m') as <- by (eapply (one_entry Hk); [done|done|congruence]). destruct i as [|i], j as [|j]; [done|by destruct H, H'|by destruct H', H|]. f_equal.
  destruct (wf_shape s Hwf) as (r0 & vs & n & E & _ & _ & Hv1 & Ha). rewrite E in Hi, Hj.
  change ((vs ++ replicate (S n) root0) !! i = Some r) in Hi. change ((vs ++ replicate (S n) root0) !! j = Some r') in Hj.
  apply lookup_app_Some in Hi as [Hi|[_ [-> _]%lookup_replicate]]; [|done]. apply lookup_app_Some in Hj as [Hj|[_ [-> _]%lookup_replicate]]; [|done].
  destruct (decide (i = j)) as [|Hne]; [done|]. destruct H as [_ H], H' as [_ H']. pose proof (Ha i j r r' Hi Hj Hne) as Hl. rewrite H, <- H', Z.land_diag in Hl.
  destruct (Forall_lookup_1 _ _ _ _ Hv1 Hj) as (_ & ? & _). congruence.
Qed.

(** ** A request *)

Lemma makes_dirs d b h h' : makes k d b h h' → d.2 ≠ [] →
  (∀ x, x.2 ≠ [] → x ∈ dirs D0 h' ↔ x = d ∨ x ∈ dirs D0 h) ∧ (if b then d ∉ dirs D0 h else d ∈ dirs D0 h).
Proof.
  intros (h1 & e & h2 & -> & Hn1 & Hn2 & Ee & Hb) Hd. assert (later h (h ++ h1)) as Hl by by exists h1.
  assert (if b then d ∉ dirs D0 h else d ∈ dirs D0 h) as Hin.
  { destruct Hb as [[E ->]|[E ->]]; rewrite <- (dirs_later _ _ _ _ Hl Hd); rewrite E in Ee; symmetry in Ee; [by apply (mkdir_new Hk)|by apply (mkdir_exists Hk)]. }
  split; [|done]. intros x Hx. rewrite app_assoc, dirs_app. cbn [dirs foldl]. change (foldl dirs_step ?D h2) with (dirs D h2).
  rewrite dirs_neutral by done. destruct Hb as [[-> ->]|[-> ->]].
  - cbn. change (foldl dirs_step D0 (h ++ h1)) with (dirs D0 (h ++ h1)). by rewrite elem_of_cons, (dirs_later _ _ _ _ Hl Hx).
  - cbn. change (foldl dirs_step D0 (h ++ h1)) with (dirs D0 (h ++ h1)). rewrite (dirs_later _ _ _ _ Hl Hx). split; [auto|]. by intros [->|].
Qed.

Lemma ltp_found s i r : wf s → tracked s → roots s !! i = Some r → ver r ≠ 0 → unopened r →
  (mnt_path r, [ltp]) ∈ dirs D0 (calls s) ↔ (mnt_path r, [ltp]) ∈ D0.
Proof.
  intros Hwf Ht Hr Hv Hun. rewrite (t_dirs s Ht) by done. split; [|auto]. intros [|(j & r' & Hj & Ho & H)]; [done|].
  assert (mnt_path r = mnt_path r') as Ep by (destruct H as [[= ?]|[[= ?]|[_ [= ?]]]]; done).
  assert (i = j) as <- by (eapply (mounts_distinct s i j r r'); try done; by eapply opened_live). replace r' with r in Ho by congruence.
  by apply unopened_opened in Ho.
Qed.

(** What a request has made of the ltp directory. *)
Lemma ltp_after ctrl s i r r' p h1 : wf s → tracked s → roots s !! i = Some r → ver r ≠ 0 → same_root r r' → opened p T r' →
  ltp_made k (with_ctrl ctrl r) (ltp_dir r') (calls s) h1 →
  p = mnt_path r ∧ (we_created_it (ltp_dir r') = true ↔ (p, [ltp]) ∉ D0) ∧
  (∀ x, x.2 ≠ [] → x ∈ dirs D0 h1 ∨ x = (p, [ltp; drain]) ∨ x = (p, [ltp; T]) ↔ x ∈ D0 ∨ owns r' x ∨ ∃ j y, j ≠ i ∧ roots s !! j = Some y ∧ owns y x).
Proof.
  intros Hwf Ht Hr Hv (F1 & F2' & F3 & F4) Ho [_ Hl]. cbn [ltp_dir with_ctrl set_mnt_dir mnt_path] in Hl. pose proof Ho as ((_ & Hp) & _).
  assert (∀ x, x.2 ≠ [] → x ∈ dirs D0 (calls s) ↔ x ∈ D0 ∨ owns r x ∨ ∃ j y, j ≠ i ∧ roots s !! j = Some y ∧ owns y x) as Hd.
  { intros x Hx. rewrite (t_dirs s Ht x Hx). split.
    - intros [|(j & y & Hj & Hy)]; [auto|]. destruct (decide (j = i)) as [->|]; [right; left; by replace r with y by congruence|right; right; by exists j, y].
    - intros [|[|(j & y & _ & ? & ?)]]; [auto|right; by exists i, r|right; by exists j, y]. }
  assert (p = mnt_path r → ∀ x, owns r' x ↔ x = (p, [ltp; drain]) ∨ x = (p, [ltp; T]) ∨ we_created_it (ltp_dir r') = true ∧ x = (p, [ltp])) as Hown.
  { intros -> x. unfold owns. rewrite F2'. tauto. }
  destruct (t_roots s Ht i r Hr) as [Hun|(Ho0 & Hc & _)].
  - destruct Hun as (El & Hun'). pose proof (conj El Hun') as Hun. rewrite El in Hl. cbn [dir_fd dir0] in Hl. destruct Hl as (Hfd & _ & Hmk).
    assert (p = mnt_path r) as -> by congruence. destruct (makes_dirs _ _ _ _ Hmk) as [Hx Hb]; [done|].
    assert (we_created_it (ltp_dir r') = true ↔ (mnt_path r, [ltp]) ∉ D0) as Hcr.
    { rewrite <- (ltp_found s i r) by done. by destruct (we_created_it (ltp_dir r')). }
    split_and!; [done|exact Hcr|]. intros x Hnx. rewrite (Hx x Hnx), (Hd x Hnx), (Hown eq_refl).
    pose proof (unopened_owns r x Hun) as Hno. destruct (decide (x ∈ D0)); [tauto|]. destruct (decide ((mnt_path r, [ltp]) ∈ D0)) as [Hin|]; [|tauto].
    assert (x ≠ (mnt_path r, [ltp])) by (by intros ->). tauto.
  - pose proof Ho0 as ((_ & Hp0) & _). rewrite Hp0 in Hl. destruct Hl as (Hfd & _ & Ec & Hlat). assert (p = mnt_path r) as -> by congruence.
    rewrite Ec. split_and!; [done|exact Hc|]. intros x Hnx. rewrite (dirs_later _ _ _ _ Hlat Hnx), (Hd x Hnx), (Hown eq_refl), Ec. unfold owns at 1. tauto.
Qed.

Lemma tracked_required ctrl name base o i r s s' : wf s → tracked s → roots s !! i = Some r → ver r ≠ 0 → test_name getpid o = T →
  required k getpid ctrl name base o i r s s' → tracked s'.
Proof.
  intros Hwf Ht Hr Hv ET (r' & p & E1 & E2 & E3 & Hsame & Ho & (h1 & h2 & b1 & b2 & Hl & M1 & M2) & _). rewrite ET in *. pose proof Hsame as (F1 & F2' & F3 & _).
  destruct (ltp_after ctrl s i r r' p h1 Hwf Ht Hr Hv Hsame Ho Hl) as (-> & Hc & Hd). pose proof (lookup_lt_Some _ _ _ Hr) as Hlt. split.
  - intros x Hx. rewrite (proj1 (makes_dirs _ _ _ _ M2 ltac:(done)) x Hx), (proj1 (makes_dirs _ _ _ _ M1 ltac:(done)) x Hx), E1.
    transitivity (x ∈ dirs D0 h1 ∨ x = (mnt_path r, [ltp; drain]) ∨ x = (mnt_path r, [ltp; T])); [tauto|]. rewrite (Hd x Hx). f_equiv. split.
    + intros [?|(j & y & ? & ? & ?)]; [exists i, r'; by rewrite list_lookup_insert_eq|exists j, y; by rewrite list_lookup_insert_ne].
    + intros (j & y & [(<- & <- & _)|[? Hj]]%list_lookup_insert_Some & Hy); [by left|right; by exists j, y].
  - intros j y. rewrite E1, E3. intros [(<- & <- & _)|[_ Hj]]%list_lookup_insert_Some; [right; by rewrite F2'|].
    destruct (t_roots s Ht j y Hj) as [|(? & ? & _)]; auto.
  - intros j y. rewrite E1. intros [(<- & <- & _)|[_ Hj]]%list_lookup_insert_Some Hy; [|by apply (t_mounts s Ht)].
    destruct (t_mounts s Ht i r Hr Hv) as (h & m & Hm & Em & H). exists h, m. rewrite F2', F3. done.
Qed.

(** ** Requests and their cleanup *)

Hypothesis (short_tmpdir : Z.of_nat (length tmpdir) < PATH_MAX - 32).

Lemma requests_tracked reqs : Forall (λ x, is_Some (ctrl_of x.1) ∧ test_name getpid x.2 = T) reqs → ∀ s, wf s → tracked s →
  good (λ s', wf s' ∧ tracked s') (cg_run k tmpdir getpid ((λ x, OpRequire x.1 x.2) <$> reqs) s).
Proof.
  induction 1 as [|[ctrl_name o] reqs [[ctrl Hc] HT] _ IH]; intros s Hwf Ht; [done|]. cbn [fmap list_fmap cg_run cg_run_op fst snd] in *.
  apply (good_bind (λ s', wf s' ∧ tracked s')); [|intros s1 [? ?]; by apply IH].
  eapply good_mono; [apply (require_kept k tmpdir getpid tracked); [exact (short_paths Hk)|done|exact tracked_quiet|exact tracked_scan|exact tracked_flags|exact tracked_ctrls|exact Hc|by split]|].
  intros s1 (name & i & r & s0 & _ & [Hwf0 Ht0] & _ & Hr & Hv & _ & _ & Hreq & Hwf1). split; [done|]. by apply (tracked_required ctrl name (bool_decide (name = str "base")) o i r s0 s1).
Qed.

Lemma tracked_start : tracked (cg0 []).
Proof.
  split.
  - intros d _. change (d ∈ dirs D0 (calls (cg0 []))) with (d ∈ D0). split; [auto|]. intros [?|(i & r & Hr & Ho)]; [done|]. apply lookup_replicate in Hr as [-> _]. by apply unopened_owns in Ho.
  - intros i r [-> _]%lookup_replicate. by left.
  - intros i r [-> _]%lookup_replicate. done.
Qed.

Hypothesis (tree : ∀ p, (p, [ltp; drain]) ∈ D0 → (p, [ltp]) ∈ D0).
Hypothesis (unused : ∀ p, (p, [ltp; T]) ∉ D0).

(** The drain directories stay where the ltp directory was not made by the
    requests. *)
Definition left_drain (s : cgroups) (d : dirid) : Prop :=
  ∃ i r, roots s !! i = Some r ∧ opened (mnt_path r) T r ∧ (mnt_path r, [ltp]) ∈ D0 ∧ d = (mnt_path r, [ltp; drain]).

Lemma cut_restores s d : wf s → tracked s → T ≠ drain → d.2 ≠ [] →
  d ∈ dirs D0 (calls s) ∧ ¬ (∃ i, test_cut s i d ∨ ltp_cut s i d) ↔ d ∈ D0 ∨ left_drain s d.
Proof.
  intros Hwf Ht Hne Hd. rewrite (t_dirs s Ht d Hd).
  assert (∀ i r p name, roots s !! i = Some r → opened p name r →
    p = mnt_path r ∧ opened (mnt_path r) T r ∧ (we_created_it (ltp_dir r) = true ↔ (mnt_path r, [ltp]) ∉ D0) ∧ cgroup_test_dir s = T) as Hop.
  { intros i r p name Hr Ho. destruct (t_roots s Ht i r Hr) as [Hun|(? & ? & ?)]; [by apply unopened_opened in Ho|]. split_and!; try done. by eapply opened_path. }
  split.
  - intros [[?|(i & r & Hr & Ho & H)] Hn]; [by left|]. destruct (Hop i r _ _ Hr Ho) as (_ & _ & Hc & ET). destruct (we_created_it (ltp_dir r)) eqn:Ec.
    + exfalso. apply Hn. exists i. destruct H as [->|[->|[_ ->]]]; [right|left|right]; exists r, (mnt_path r), T; rewrite ?ET; auto.
    + right. exists i, r. destruct H as [->|[->|[? _]]]; [|exfalso; apply Hn; exists i; left; exists r, (mnt_path r), T; by rewrite ET|done]. split_and!; try done.
      destruct (decide ((mnt_path r, [ltp]) ∈ D0)) as [|Hni]; [done|]. by apply Hc in Hni.
  - intros [Hin|(i & r & Hr & Ho & Hin & ->)].
    + split; [by left|]. intros (i & [(r & p & name & Hr & Ho & ->)|(r & p & name & Hr & Ho & Hc & H)]); destruct (Hop _ _ _ _ Hr Ho) as (-> & _ & Hcr & ET).
      * rewrite ET in Hin. by apply unused in Hin.
      * apply Hcr in Hc. destruct H as [->| ->]; [by apply tree in Hin|done].
    + split; [right; exists i, r; split; [done|]; split; [done|auto]|].
      intros (j & [(y & p & name & Hj & Hy & [= _ E])|(y & p & name & Hj & Hy & Hc & [[= Ep]|[=]])]); destruct (Hop _ _ _ _ Hj Hy) as (-> & _ & Hcr & ET); [congruence|].
      apply Hcr in Hc. congruence.
Qed.

(** C8. Cleaning up undoes requiring: on a kernel that keeps to its interface,
    with paths that fit their buffers, for requests of known controllers that
    all ask for the same test directory, one that exists in no hierarchy
    before: when the requests and the cleanup return, all tables are empty,
    and in the hierarchies exactly those directories exist that existed
    before, and the drain directories below ltp directories that existed
    before. *)
Theorem cg_cleanup_restores pid reqs : T = str "test-" ++ fmt_li pid →
  Forall (λ x, is_Some (ctrl_of x.1) ∧ test_name getpid x.2 = T) reqs →
  good (λ s, good (λ s', roots s' = roots (cg0 []) ∧ controllers s' = controllers (cg0 []) ∧
                         ∀ d, d.2 ≠ [] → d ∈ dirs D0 (calls s') ↔ d ∈ D0 ∨ left_drain s d) (tst_cg_cleanup k s))
    (cg_run k tmpdir getpid ((λ x, OpRequire x.1 x.2) <$> reqs) (cg0 [])).
Proof.
  intros ET Hreqs. eapply good_mono; [apply requests_tracked; [done|by apply wf_cleared|apply tracked_start]|]. intros s [Hwf Ht].
  eapply good_mono; [by apply cleanup_cut|]. intros s' (E1 & E2 & C). split_and!; [done|done|]. intros d Hd. rewrite (C D0 d Hd).
  apply cut_restores; [done|done|by rewrite ET|done].
Qed.
End Restore.
