(* ===== verification/CgroupDemo.v ===== *)
(** * Control groups: examples

    Runs on a small kernel with a V2 hierarchy that has [memory] and [pids]
    and a V1 hierarchy with [cpu] and [cpuacct]. *)

From S2P Require Import Prelude Cgroup CgroupFacts CgroupRequire CgroupCleanup CgroupRestore.
Open Scope Z_scope.

Definition demo_mounts : list mntent :=
  [mk_mnt (str "proc") (str "/proc") (str "rw");
   mk_mnt (str "cgroup2") (str "/c2") (str "rw,nsdelegate");
   mk_mnt (str "cgroup") (str "/c1") (str "rw,cpu,cpuacct")].

(** Directories are made as long as they do not exist; everything else
    succeeds. *)
Definition demo_kernel (D : list dirid) : kernel :=
  mk_kernel (λ h c, match c with KMkdir d => if bool_decide (d ∈ dirs D h) then EEXIST else 0 | _ => 0 end)
    (λ h c, match c with KRead _ f => if bool_decide (f = str "cgroup.controllers") then str "memory pids" ++ [10] else str "7" ++ [10] | _ => [] end)
    (λ _, demo_mounts).

Definition demo_opts : tst_cg_opts := mk_opts 0 0 false.

(** The ltp directory of the V1 hierarchy exists. *)
Definition demo_dirs : list dirid := [(str "/c1", [ltp]); (str "/c1", [str "user"])].

Definition demo_reqs : list (list Z * tst_cg_opts) := [(str "memory", demo_opts); (str "cpu", demo_opts); (str "pids", mk_opts 2 0 true)].

Definition demo_run (D : list dirid) (ops : list cg_op) : cres cgroups := cg_run (demo_kernel D) (str "/tmp") 5 ops (cg0 []).

Definition require_ops (reqs : list (list Z * tst_cg_opts)) : list cg_op := (λ x, OpRequire x.1 x.2) <$> reqs.

(** The requests make the directories, and the cleanup removes them. *)
Lemma demo_restored : ∃ s, demo_run demo_dirs (require_ops demo_reqs ++ [OpCleanup]) = CRet s ∧
  dirs demo_dirs (calls s) = (str "/c1", [ltp; drain]) :: demo_dirs.
Proof. eexists. split; vm_compute; reflexivity. Qed.

Lemma demo_short h m : m ∈ k_mounts (demo_kernel demo_dirs) h → short m.
Proof. intros Hm. assert (Forall short demo_mounts) as H by (repeat constructor). rewrite Forall_forall in H. by apply H. Qed.

Lemma demo_kernel_ok : kernel_ok (demo_kernel demo_dirs) demo_dirs 66.
Proof.
  split.
  - intros h d. cbn. by case_bool_decide.
  - intros h d. cbn. by case_bool_decide.
  - intros h1 h2 m1 m2. change (m1 ∈ demo_mounts → m2 ∈ demo_mounts → mnt_dir_ m1 = mnt_dir_ m2 → m1 = m2). unfold demo_mounts.
    rewrite !elem_of_cons, !elem_of_nil. by intros [->|[->|[->|[]]]] [->|[->|[->|[]]]].
  - intros h h' m _ _. unfold controllers_field. cbn [k_text demo_kernel]. by vm_compute.
  - exact demo_short.
Qed.

Lemma cg_scan_witness :
  (∃ s, tst_cg_scan (demo_kernel demo_dirs) (cg0 []) = CRet s) ∧
  good (λ s, wf s ∧ known (mk_mnt (str "cgroup") (str "/c1") (str "rw,cpu,cpuacct")) (roots s)) (tst_cg_scan (demo_kernel demo_dirs) (cg0 [])).
Proof.
  split; [eexists; vm_compute; reflexivity|].
  eapply good_mono; [apply (cg_scan_correct (demo_kernel demo_dirs) (cg0 [])); [by apply wf_cleared|apply demo_short]|].
  intros s [Hwf Hall]. split; [done|]. apply Hall; [|done]. right. right. by left.
Defined.

Lemma cg_require_witness :
  (∃ s, tst_cg_require (demo_kernel demo_dirs) (str "/tmp") 5 (str "memory") demo_opts (cg0 []) = CRet s) ∧
  good (λ s, ∃ i r p, root_of CTRL_MEMORY s = Some i ∧ roots s !! i = Some r ∧ opened p (str "test-5") r)
    (tst_cg_require (demo_kernel demo_dirs) (str "/tmp") 5 (str "memory") demo_opts (cg0 [])).
Proof.
  split; [eexists; vm_compute; reflexivity|].
  eapply good_mono; [apply (cg_require_correct (demo_kernel demo_dirs) (str "/tmp") 5 (str "memory") CTRL_MEMORY demo_opts (cg0 []));
    [reflexivity|by apply wf_cleared|apply demo_short|reflexivity]|].
  intros s (_ & i & r & p & Hi & Hr & _ & _ & Ho & _). by exists i, r, p.
Defined.

Lemma cg_in_bounds_witness :
  (∃ s, demo_run demo_dirs (OpScan :: require_ops demo_reqs ++ [OpCleanup]) = CRet s) ∧ good wf (demo_run demo_dirs (OpScan :: require_ops demo_reqs ++ [OpCleanup])).
Proof.
  split; [eexists; vm_compute; reflexivity|].
  apply (cg_in_bounds (demo_kernel demo_dirs) (str "/tmp") 5); [|apply demo_short|reflexivity]. repeat constructor; by eexists.
Defined.

Lemma cg_cleanup_restores_witness :
  (∃ s s', demo_run demo_dirs (require_ops demo_reqs) = CRet s ∧ tst_cg_cleanup (demo_kernel demo_dirs) s = CRet s') ∧
  good (λ s, good (λ s', roots s' = roots (cg0 []) ∧ controllers s' = controllers (cg0 []) ∧
                         ∀ d, d.2 ≠ [] → d ∈ dirs demo_dirs (calls s') ↔ d ∈ demo_dirs ∨ left_drain demo_dirs (str "test-5") s d)
                   (tst_cg_cleanup (demo_kernel demo_dirs) s))
    (demo_run demo_dirs (require_ops demo_reqs)).
Proof.
  split; [eexists _, _; split; vm_compute; reflexivity|].
  apply (cg_cleanup_restores (demo_kernel demo_dirs) (str "/tmp") 5 demo_dirs 66 (str "test-5") demo_kernel_ok) with (pid := 5); [reflexivity|..].
  - intros p. unfold demo_dirs. rewrite !elem_of_cons, elem_of_nil. by intros [[=]|[[=]|[]]].
  - intros p. unfold demo_dirs. rewrite !elem_of_cons, elem_of_nil. by intros [[=]|[[=]|[]]].
  - reflexivity.
  - repeat constructor; cbn; by eexists.
Defined.

(** ** Defects *)

(** A part of the name of a controller is as good as the name, also none. *)
Lemma part_of_name : ctrl_of (str "mem") = Some CTRL_MEMORY ∧ ctrl_of [] = Some 0%nat.
Proof. by vm_compute. Qed.

(** The name of an unknown controller is read through a null pointer. *)
Lemma unknown_controller : demo_run demo_dirs [OpRequire (str "network") demo_opts] = CUB.
Proof. by vm_compute. Qed.

(** A test directory that existed before is removed. *)
Lemma found_directory_removed :
  let D := [(str "/c2", [ltp]); (str "/c2", [ltp; str "test-5"])] in
  ∃ s, demo_run D [OpRequire (str "memory") demo_opts; OpCleanup] = CRet s ∧ (str "/c2", [ltp; str "test-5"]) ∉ dirs D (calls s).
Proof. eexists. split; [vm_compute; reflexivity|]. by_dec. Qed.

(** With two pids the directory of the first one stays, since all
    hierarchies share the name of the test directory. *)
Lemma first_pid_left :
  ∃ s, demo_run [] [OpRequire (str "memory") (mk_opts 0 8 false); OpRequire (str "pids") (mk_opts 0 9 false); OpCleanup] = CRet s ∧
    (str "/c2", [ltp; str "test-8"]) ∈ dirs [] (calls s).
Proof. eexists. split; [vm_compute; reflexivity|]. by_dec. Qed.
