(* ===== verification/RandomRange.v ===== *)
(** * Random numbers of a range

    lib/random_range.c: random numbers of a range that are multiples of a
    number, random bits of a mask, and the parser of lists of ranges.  What
    [lrand48] returns is an argument; an overflow of a signed type is [None],
    as are accesses outside of a buffer. *)

From S2P Require Import Prelude.
Open Scope Z_scope.

(** ** Numbers *)

(** A signed result of [w] bits. *)
Definition sint (w z : Z) : option Z := if (- 2 ^ (w - 1) <=? z) && (z <? 2 ^ (w - 1)) then Some z else None.

(** The part that the three functions have in common: an error, or the least
    and the greatest multiple and their number. *)
Definition multiples (w min max mult : Z) : option (list Z + Z * Z * Z) :=
  if mult <? 1 then Some (inl (str "mult arg must be greater than 0")) else
  let '(lo, hi) := if max <? min then (max, min) else (min, max) in
  let r := Z.rem lo mult in
  lo ← (if r =? 0 then Some lo else d ← sint w (mult - r); sint w (lo + d));
  let r := Z.rem hi mult in
  hi ← (if r =? 0 then Some hi else sint w (hi - r));
  if hi <? lo then
    Some (inl (str "no numbers in the range " ++ fmt_li min ++ str ":" ++ fmt_li max ++ str " that are a multiple of " ++ fmt_li mult))
  else
    d ← sint w (hi - lo);
    nmults ← sint w (Z.quot d mult + 1);
    Some (inr (lo, hi, nmults)).

(** [min + ((n % nmults) * mult)]. *)
Definition pick_multiple (n lo nmults mult : Z) : option (list Z + Z) :=
  d ← sint 64 (Z.rem n nmults * mult);
  v ← sint 64 (lo + d);
  Some (inr v).

Definition random_range (lrand48 min max mult : Z) : option (list Z + Z) :=
  x ← multiples 32 min max mult;
  match x with
  | inl err => Some (inl err)
  | inr (lo, _, nmults) => pick_multiple lrand48 lo nmults mult
  end.

Definition random_rangel (lrand48 min max mult : Z) : option (list Z + Z) :=
  x ← multiples 64 min max mult;
  match x with
  | inl err => Some (inl err)
  | inr (lo, _, nmults) => pick_multiple lrand48 lo nmults mult
  end.

(** The depth is at most 33, where [cnt] ends it. *)
Fixpoint divider (fuel : nat) (min max cnt rand : Z) : option Z :=
  if 32 <? cnt then Some (-1) else
  diff ← sint 64 (max - min);
  if diff <=? 2147483647 then sint 64 (min + rand) else
  let half := Z.quot diff 2 in
  med ← sint 64 (min + half);
  bit ← (if 31 <=? cnt then None else Some (negb (Z.land rand (Z.shiftl 1 cnt) =? 0)));
  if half <=? 2147483647 then sint 64 ((if (bit : bool) then med else min) + rand) else
  match fuel with
  | O => None
  | S fuel => if (bit : bool) then divider fuel med max (cnt + 1) rand else divider fuel min med (cnt + 1) rand
  end.

Definition random_rangell (lrand48 min max mult : Z) : option (list Z + Z) :=
  x ← multiples 64 min max mult;
  match x with
  | inl err => Some (inl err)
  | inr (lo, hi, nmults) =>
      if hi <=? 2147483647 then pick_multiple lrand48 lo nmults mult
      else randnum ← divider 33 lo hi 0 lrand48; pick_multiple randnum lo nmults mult
  end.

(** ** Bits *)

Fixpoint count_set (n : nat) (nshift : Z) (mask : Z) : Z :=
  match n with
  | O => 0
  | S n => (if Z.testbit mask nshift then 1 else 0) + count_set n (nshift + 1) mask
  end.

(** The shifts until [bit] set bits were seen; a shift by the width of the
    type is not defined. *)
Fixpoint find_bit (fuel : nat) (mask bit nshift : Z) : option Z :=
  if bit =? 0 then Some nshift else
  match fuel with
  | O => None
  | S fuel => find_bit fuel (Z.shiftr mask 1) (if Z.testbit mask 0 then bit - 1 else bit) (nshift + 1)
  end.

Definition random_bit (lrand48 mask : Z) : option Z :=
  if mask =? 0 then Some 0 else
  x ← random_range lrand48 1 (count_set 64 0 mask) 1;
  match x with
  | inl _ => None
  | inr bit => nshift ← find_bit 64 mask bit 0; Some (wraps 64 (Z.shiftl 1 (nshift - 1)))
  end.

(** ** Lists of ranges *)

Record range := mk_range { r_min : Z; r_max : Z; r_mult : Z }.

(** The string up to a separator, and the rest after it. *)
Fixpoint cut_at (sep : Z) (s : list Z) : list Z * option (list Z) :=
  match s with
  | [] => ([], None)
  | c :: s => if c =? sep then ([], Some s) else let '(a, b) := cut_at sep s in (c :: a, b)
  end.

Definition ERRMSG_SIZE : Z := 256.

Section Parse.
(** The function that parses a number, [None] for a failure. *)
Context (parse_func : list Z → option Z).

(** One number, with the error message in its buffer. *)
Definition parse_number (s : list Z) (default : Z) : option (list Z + Z) :=
  if (length s =? 0)%nat then Some (inr default) else
  match parse_func s with
  | Some v => Some (inr v)
  | None =>
      let msg := str "error parsing string " ++ s ++ str " into an integer" in
      if ERRMSG_SIZE <=? Z.of_nat (length msg) then None else Some (inl msg)
  end.

Definition parse_range (tok : list Z) (defmin defmax defmult : Z) : option (list Z + range) :=
  let '(n1str, rest) := cut_at ":"%cc tok in
  let '(n2str, multstr) := match rest with None => (None, None) | Some s => let '(a, b) := cut_at ":"%cc s in (Some a, b) end in
  min ← parse_number n1str defmin;
  match min with
  | inl err => Some (inl err)
  | inr min =>
      max ← match n2str with None => Some (inr min) | Some s => parse_number s defmax end;
      match max with
      | inl err => Some (inl err)
      | inr max =>
          mult ← match multstr with None => Some (inr defmult) | Some s => parse_number s defmult end;
          match mult with
          | inl err => Some (inl err)
          | inr mult => Some (inr (mk_range min max mult))
          end
      end
  end.

(** [room] is what is left of the array. *)
Fixpoint parse_toks (toks : list (list Z)) (room : nat) (defmin defmax defmult : Z) : option (list Z + list range) :=
  match toks with
  | [] => Some (inr [])
  | tok :: toks =>
      match room with
      | O => None
      | S room =>
          r ← parse_range tok defmin defmax defmult;
          match r with
          | inl err => Some (inl err)
          | inr r =>
              rs ← parse_toks toks room defmin defmax defmult;
              match rs with inl err => Some (inl err) | inr rs => Some (inr (r :: rs)) end
          end
      end
  end.

Definition parse_ranges (s : list Z) (defmin defmax defmult : Z) : option (list Z + list range) :=
  let ncommas := length (filter (λ c, c = ","%cc) s) in
  parse_toks (strtok_all ","%cc s) (ncommas + 1) defmin defmax defmult.
End Parse.
