(* ===== verification/RandomRangeFacts.v ===== *)
(** * Random numbers of a range: correctness

    The numbers that are drawn are the multiples in the range and each of
    them can be drawn, a random bit is one of the mask, and a list of ranges is
    parsed to what it spells. *)

From S2P Require Import Prelude RandomRange.
Open Scope Z_scope.

(** ** Multiples *)

Lemma sint_small w z : - 2 ^ (w - 1) ≤ z < 2 ^ (w - 1) → sint w z = Some z.
Proof. intros H. unfold sint. destruct (Z.leb_spec (- 2 ^ (w - 1)) z), (Z.ltb_spec z (2 ^ (w - 1))); [done|lia..]. Qed.

(** The least multiple that is not below, the greatest that is not above. *)
Definition up (mult z : Z) : Z := - (- z / mult) * mult.
Definition down (mult z : Z) : Z := z / mult * mult.

Lemma down_spec mult z : 1 ≤ mult → z - mult < down mult z ≤ z.
Proof. intros Hm. unfold down. pose proof (Z.div_mod z mult). pose proof (Z.mod_pos_bound z mult). lia. Qed.

Lemma up_spec mult z : 1 ≤ mult → z ≤ up mult z < z + mult.
Proof. intros Hm. unfold up. pose proof (Z.div_mod (- z) mult). pose proof (Z.mod_pos_bound (- z) mult). lia. Qed.

Lemma multiple_between mult lo hi k : 1 ≤ mult → lo ≤ k * mult ≤ hi ↔ up mult lo ≤ k * mult ≤ down mult hi.
Proof.
  intros Hm. pose proof (up_spec mult lo Hm). pose proof (down_spec mult hi Hm). unfold up, down in *. split; [|lia]. intros [H1 H2].
  split; apply Z.mul_le_mono_nonneg_r; nia.
Qed.

Lemma rem_up mult z : 0 ≤ z → 1 ≤ mult → (if Z.rem z mult =? 0 then z else z + (mult - Z.rem z mult)) = up mult z.
Proof.
  intros Hz Hm. rewrite Z.rem_mod_nonneg by lia. unfold up. destruct (Z.eqb_spec (z mod mult) 0) as [E|E].
  - rewrite Z.div_opp_l_z by lia. pose proof (Z.div_mod z mult). lia.
  - rewrite Z.div_opp_l_nz by lia. pose proof (Z.div_mod z mult). lia.
Qed.

Lemma rem_down mult z : 0 ≤ z → 1 ≤ mult → z - Z.rem z mult = down mult z.
Proof. intros Hz Hm. rewrite Z.rem_mod_nonneg by lia. unfold down. pose proof (Z.div_mod z mult). lia. Qed.

Section Ranges.
Context (w min max mult : Z).
Hypothesis (Hmin : 0 ≤ min) (Hmax : 0 ≤ max) (Hmult : 1 ≤ mult) (Hfit : Z.max min max + mult < 2 ^ (w - 1)).

Definition lo : Z := up mult (Z.min min max).
Definition hi : Z := down mult (Z.max min max).
Definition count : Z := (hi - lo) / mult + 1.

Definition no_multiple : list Z :=
  str "no numbers in the range " ++ fmt_li min ++ str ":" ++ fmt_li max ++ str " that are a multiple of " ++ fmt_li mult.

Lemma multiples_spec : multiples w min max mult = Some (if hi <? lo then inl no_multiple else inr (lo, hi, count)).
Proof.
  unfold multiples. destruct (Z.ltb_spec mult 1); [lia|].
  assert ((if max <? min then (max, min) else (min, max)) = (Z.min min max, Z.max min max)) as ->.
  { destruct (Z.ltb_spec max min); f_equal; lia. }
  set (a := Z.min min max). set (b := Z.max min max). assert (0 ≤ a ≤ b) as Hab by lia. cbn beta iota.
  pose proof (Z.rem_bound_pos a mult). pose proof (Z.rem_bound_pos b mult).
  assert ((if Z.rem a mult =? 0 then Some a else d ← sint w (mult - Z.rem a mult); sint w (a + d)) = Some lo) as ->.
  { unfold lo. fold a. rewrite <- (rem_up mult a) by lia. destruct (Z.rem a mult =? 0); [done|]. rewrite (sint_small w (mult - Z.rem a mult)) by lia.
    rewrite obind_Some. apply sint_small. lia. }
  rewrite obind_Some. assert ((if Z.rem b mult =? 0 then Some b else sint w (b - Z.rem b mult)) = Some hi) as ->.
  { unfold hi. fold b. rewrite <- (rem_down mult b) by lia. destruct (Z.eqb_spec (Z.rem b mult) 0) as [->|]; [f_equal; lia|]. apply sint_small. lia. }
  rewrite obind_Some. destruct (Z.ltb_spec hi lo); [done|]. pose proof (up_spec mult a Hmult) as Hlo. pose proof (down_spec mult b Hmult) as Hhi.
  change (up mult a) with lo in Hlo. change (down mult b) with hi in Hhi. rewrite (sint_small w (hi - lo)) by lia. rewrite obind_Some, Z.quot_div_nonneg by lia.
  rewrite sint_small; [done|]. assert (0 ≤ (hi - lo) / mult) by (apply Z.div_pos; lia). assert ((hi - lo) / mult ≤ hi - lo) by (apply Z.div_le_upper_bound; nia). lia.
Qed.

(** A number that may be drawn. *)
Definition wanted (v : Z) : Prop := Z.min min max ≤ v ≤ Z.max min max ∧ (mult | v).

Lemma wanted_index v : wanted v ↔ ∃ k, v = lo + k * mult ∧ 0 ≤ k < count ∧ lo ≤ hi.
Proof.
  unfold wanted. pose proof (up_spec mult (Z.min min max) Hmult) as Hlo. pose proof (down_spec mult (Z.max min max) Hmult) as Hhi.
  change (up _ _) with lo in Hlo. change (down _ _) with hi in Hhi.
  assert (∃ i, lo = i * mult) as [i Ei] by by eexists. assert (∃ j, hi = j * mult) as [j Ej] by by eexists.
  assert (count = j - i + 1) as Ec by (unfold count; rewrite Ei, Ej, <- Z.mul_sub_distr_r, Z.div_mul by lia; lia). rewrite Ec. split.
  - intros [Hv [q ->]]. pose proof (proj1 (multiple_between mult _ _ q Hmult) Hv) as Hq. change (up _ _) with lo in Hq. change (down _ _) with hi in Hq.
    exists (q - i). rewrite Ei, Ej in *. split_and!; [lia|nia|nia|nia].
  - intros (q & -> & Hq & _). split; [|exists (i + q); lia]. rewrite Ei, Ej in *. nia.
Qed.

Lemma count_pos : lo ≤ hi → 0 < count.
Proof. intros H. unfold count. assert (0 ≤ (hi - lo) / mult) by (apply Z.div_pos; lia). lia. Qed.

Lemma pick_spec n : w ≤ 64 → 1 ≤ w → 0 ≤ n → lo ≤ hi → pick_multiple n lo count mult = Some (inr (lo + n mod count * mult)) ∧ wanted (lo + n mod count * mult).
Proof.
  intros Hw Hw1 Hn Hle. pose proof (count_pos Hle) as Hc. pose proof (Z.mod_pos_bound n count Hc) as Hr.
  assert (wanted (lo + n mod count * mult)) as Hv by (apply wanted_index; by exists (n mod count)). split; [|done].
  assert (2 ^ (w - 1) ≤ 2 ^ (64 - 1)) by (apply Z.pow_le_mono_r; lia). destruct Hv as [Hv _].
  pose proof (up_spec mult (Z.min min max) Hmult) as Hlo. change (up _ _) with lo in Hlo.
  unfold pick_multiple. rewrite Z.rem_mod_nonneg by lia. rewrite (sint_small 64 (_ * mult)) by nia. rewrite obind_Some, sint_small by lia. done.
Qed.

Lemma no_wanted : hi < lo → ∀ v, ¬ wanted v.
Proof. intros H v Hv. apply wanted_index in Hv as (k & _ & _ & ?). lia. Qed.

Lemma wanted_lo : lo ≤ hi → wanted lo.
Proof. intros H. apply wanted_index. exists 0. pose proof (count_pos H). lia. Qed.

(** Drawing from the multiples: all results are wanted, an error is reported
    exactly when there are none. *)
Definition draws (f : Z → option (list Z + Z)) : Prop := ∀ n, 0 ≤ n < 2 ^ 31 →
  (∃ v, f n = Some (inr v) ∧ wanted v) ∨ f n = Some (inl no_multiple) ∧ ∀ v, ¬ wanted v.

(** Every wanted number is drawn for some random number. *)
Definition draws_all (f : Z → option (list Z + Z)) : Prop := ∀ v, wanted v → ∃ n, 0 ≤ n < 2 ^ 31 ∧ f n = Some (inr v).

Lemma draw_spec f : w ≤ 64 → 1 ≤ w →
  (∀ n, f n = x ← multiples w min max mult;
              match x with inl err => Some (inl err) | inr (lo, _, nmults) => pick_multiple n lo nmults mult end) →
  draws f ∧ (count ≤ 2 ^ 31 → draws_all f).
Proof.
  intros Hw Hw1 Hf. split.
  - intros n Hn. rewrite Hf, multiples_spec, obind_Some. destruct (Z.ltb_spec hi lo) as [Hlt|Hle].
    + right. split; [done|by apply no_wanted].
    + left. eexists. apply pick_spec; lia.
  - intros Hc v Hv. apply wanted_index in Hv as (k & -> & Hk & Hle). exists k. split; [lia|]. rewrite Hf, multiples_spec, obind_Some.
    destruct (Z.ltb_spec hi lo); [lia|]. rewrite (proj1 (pick_spec k Hw Hw1 (proj1 Hk) Hle)). by rewrite Z.mod_small.
Qed.
End Ranges.

(** ** Wide ranges *)

Lemma divider_spec fuel : ∀ min max cnt rand, 0 ≤ min ≤ max → max < 2 ^ 61 → 0 ≤ rand < 2 ^ 31 → 0 ≤ cnt ≤ 30 → max - min ≤ 2 ^ (61 - cnt) →
  30 - cnt ≤ Z.of_nat fuel → ∃ v, divider fuel min max cnt rand = Some v ∧ 0 ≤ v.
Proof.
  induction fuel as [|fuel IH]; intros min max cnt rand Hm Hmax Hr Hc Hd Hf; cbn [divider]; (destruct (Z.ltb_spec 32 cnt); [lia|]);
    rewrite (sint_small 64 (max - min)), obind_Some by lia; (destruct (Z.leb_spec (max - min) 2147483647); [rewrite sint_small by lia; eexists; split; [done|lia]|]);
    rewrite Z.quot_div_nonneg by lia; pose proof (Z.div_mod (max - min) 2 ltac:(lia)) as Hdm; pose proof (Z.mod_pos_bound (max - min) 2 ltac:(lia)) as Hmb;
    set (half := (max - min) / 2) in *; rewrite (sint_small 64 (min + half)), obind_Some by lia; (destruct (Z.leb_spec 31 cnt); [lia|]); rewrite obind_Some.
  - assert (cnt = 30) as -> by lia. change (2 ^ (61 - 30)) with (2 ^ 31) in Hd. destruct (Z.leb_spec half 2147483647); [|lia].
    destruct (negb _); rewrite sint_small by lia; eexists; (split; [done|lia]).
  - destruct (Z.leb_spec half 2147483647); [destruct (negb _); rewrite sint_small by lia; eexists; (split; [done|lia])|].
    assert (cnt < 30) as Hlt by (destruct (Z.eq_dec cnt 30) as [->|]; [change (2 ^ (61 - 30)) with (2 ^ 31) in Hd; lia|lia]).
    assert (2 ^ (61 - cnt) = 2 * 2 ^ (61 - (cnt + 1))) as Hp by (rewrite <- Z.pow_succ_r by lia; f_equal; lia).
    destruct (negb _); apply IH; lia.
Qed.

Lemma rangell_draws min max mult : 0 ≤ min → 0 ≤ max → 1 ≤ mult → Z.max min max + mult < 2 ^ 61 →
  draws min max mult (λ n, random_rangell n min max mult).
Proof.
  intros Hmin Hmax Hmult Hfit n Hn. unfold random_rangell. rewrite multiples_spec, obind_Some by lia. destruct (Z.ltb_spec (hi min max mult) (lo min max mult)) as [Hlt|Hle].
  - right. split; [done|apply (no_wanted 64); lia].
  - left. assert (∀ x, 0 ≤ x → ∃ v, pick_multiple x (lo min max mult) (count min max mult) mult = Some (inr v) ∧ wanted min max mult v) as Hpick.
    { intros x Hx. eexists. apply (pick_spec 64); lia. }
    destruct (_ <=? _); [apply Hpick; lia|]. pose proof (up_spec mult (Z.min min max) Hmult) as Hlo. pose proof (down_spec mult (Z.max min max) Hmult) as Hhi.
    change (up _ _) with (lo min max mult) in Hlo. change (down _ _) with (hi min max mult) in Hhi.
    destruct (divider_spec 33 (lo min max mult) (hi min max mult) 0 n) as (x & -> & Hx); [lia..|]. rewrite obind_Some. by apply Hpick.
Qed.

(** A range that is not too wide: the random number is added to its start. *)
Lemma divider_narrow fuel min max cnt rand : 0 ≤ cnt ≤ 32 → 0 ≤ min ≤ max → max - min < 2 ^ 31 → max < 2 ^ 62 → 0 ≤ rand < 2 ^ 31 →
  divider fuel min max cnt rand = Some (min + rand).
Proof.
  intros Hc Hm Hd Hmax Hr. destruct fuel; cbn [divider]; (destruct (Z.ltb_spec 32 cnt); [lia|]);
    rewrite (sint_small 64 (max - min)), obind_Some by lia; (destruct (Z.leb_spec (max - min) 2147483647); [|lia]); apply sint_small; lia.
Qed.

(** Numbers that are off by a constant reach every index as well. *)
Lemma mod_onto c a k : 0 ≤ k < c → ∃ n, 0 ≤ n < c ∧ (a + n) mod c = k.
Proof.
  intros Hk. exists ((k - a) mod c). split; [apply Z.mod_pos_bound; lia|].
  rewrite Z.add_mod_idemp_r by lia. replace (a + (k - a)) with k by lia. by apply Z.mod_small.
Qed.

Lemma rangell_draws_all min max mult : 0 ≤ min → 0 ≤ max → 1 ≤ mult → Z.max min max + mult < 2 ^ 61 → Z.max min max - Z.min min max < 2 ^ 31 →
  draws_all min max mult (λ n, random_rangell n min max mult).
Proof.
  intros Hmin Hmax Hmult Hfit Hdiff v Hv. apply (wanted_index 64) in Hv as (k & -> & Hk & Hle); [|lia..].
  pose proof (up_spec mult (Z.min min max) Hmult) as Hlo. pose proof (down_spec mult (Z.max min max) Hmult) as Hhi.
  change (up _ _) with (lo min max mult) in Hlo. change (down _ _) with (hi min max mult) in Hhi.
  assert (count min max mult ≤ 2 ^ 31) as Hc.
  { unfold count. assert ((hi min max mult - lo min max mult) / mult ≤ hi min max mult - lo min max mult) by (apply Z.div_le_upper_bound; nia). lia. }
  assert (∀ x, 0 ≤ x → pick_multiple x (lo min max mult) (count min max mult) mult = Some (inr (lo min max mult + x mod count min max mult * mult))) as Hpick.
  { intros x Hx. apply (pick_spec 64); lia. }
  assert (∀ n, random_rangell n min max mult = if hi min max mult <=? 2147483647 then pick_multiple n (lo min max mult) (count min max mult) mult
    else randnum ← divider 33 (lo min max mult) (hi min max mult) 0 n; pick_multiple randnum (lo min max mult) (count min max mult) mult) as E.
  { intros n. unfold random_rangell. rewrite multiples_spec, obind_Some by lia. by destruct (Z.ltb_spec (hi min max mult) (lo min max mult)); [lia|]. }
  destruct (Z.leb_spec (hi min max mult) 2147483647) as [Hs|Hs].
  - exists k. split; [lia|]. rewrite E, Hpick, Z.mod_small by lia. done.
  - destruct (mod_onto (count min max mult) (lo min max mult) k Hk) as (n & Hn & Hmod). exists n. split; [lia|].
    rewrite E, divider_narrow, obind_Some, Hpick, Hmod by lia. done.
Qed.

(** C34. For bounds that are not negative, in either order, and a positive
    multiplier, where the greater bound and the multiplier together stay below
    2^31 for [random_range], 2^63 for [random_rangel] and 2^61 for
    [random_rangell], the functions draw multiples in the range: every result
    is one of them, and an error is reported exactly when there are none.
    Each of them is drawn for some random number, for [random_rangel] when
    there are at most 2^31 multiples and for [random_rangell] when the bounds
    are less than 2^31 apart. *)
Theorem random_range_correct min max mult : 0 ≤ min → 0 ≤ max → 1 ≤ mult →
  (Z.max min max + mult < 2 ^ 31 →
     draws min max mult (λ n, random_range n min max mult) ∧ draws_all min max mult (λ n, random_range n min max mult)) ∧
  (Z.max min max + mult < 2 ^ 63 →
     draws min max mult (λ n, random_rangel n min max mult) ∧
     (count min max mult ≤ 2 ^ 31 → draws_all min max mult (λ n, random_rangel n min max mult))) ∧
  (Z.max min max + mult < 2 ^ 61 →
     draws min max mult (λ n, random_rangell n min max mult) ∧
     (Z.max min max - Z.min min max < 2 ^ 31 → draws_all min max mult (λ n, random_rangell n min max mult))).
Proof.
  intros Hmin Hmax Hmult. split_and!; intros Hfit.
  - destruct (draw_spec 32 min max mult Hmin Hmax Hmult Hfit (λ n, random_range n min max mult)) as [H1 H2]; [lia|lia|done|]. split; [done|].
    intros v Hv. apply H2; [|done]. pose proof (up_spec mult (Z.min min max) Hmult) as Hlo. pose proof (down_spec mult (Z.max min max) Hmult) as Hhi.
    apply (wanted_index 32) in Hv as (k & _ & _ & Hle); [|done..]. unfold count. change (up _ _) with (lo min max mult) in Hlo. change (down _ _) with (hi min max mult) in Hhi.
    assert ((hi min max mult - lo min max mult) / mult ≤ hi min max mult - lo min max mult) by (apply Z.div_le_upper_bound; nia). lia.
  - by apply (draw_spec 64 min max mult Hmin Hmax Hmult Hfit (λ n, random_rangel n min max mult)).
  - split; [by apply rangell_draws|by apply rangell_draws_all].
Qed.

(** ** Bits *)

Lemma count_set_range n : ∀ i mask, 0 ≤ count_set n i mask ≤ Z.of_nat n.
Proof. induction n as [|n IH]; intros i mask; cbn [count_set]; [lia|]. specialize (IH (i + 1) mask). destruct (Z.testbit mask i); lia. Qed.

Lemma count_set_shift n mask : ∀ i, 0 ≤ i → count_set n (i + 1) mask = count_set n i (Z.shiftr mask 1).
Proof. induction n as [|n IH]; intros i Hi; cbn [count_set]; [done|]. by rewrite IH, Z.shiftr_spec by lia. Qed.

Lemma find_bit_0 fuel mask nshift : find_bit fuel mask 0 nshift = Some nshift.
Proof. by destruct fuel. Qed.

(** The [bit]-th of the set bits is found. *)
Lemma find_bit_spec fuel : ∀ mask bit nshift, 1 ≤ bit ≤ count_set fuel 0 mask →
  ∃ i : nat, (i < fuel)%nat ∧ Z.testbit mask (Z.of_nat i) = true ∧ count_set i 0 mask = bit - 1 ∧
    find_bit fuel mask bit nshift = Some (nshift + Z.of_nat i + 1).
Proof.
  induction fuel as [|fuel IH]; intros mask bit nshift Hb; [cbn in Hb; lia|]. cbn [count_set find_bit] in *. rewrite count_set_shift in Hb by lia.
  destruct (Z.eqb_spec bit 0); [lia|]. destruct (Z.testbit mask 0) eqn:E0.
  - destruct (Z.eq_dec bit 1) as [->|]; [exists 0%nat; rewrite find_bit_0; split_and!; [lia|done|done|f_equal; lia]|].
    destruct (IH (Z.shiftr mask 1) (bit - 1) (nshift + 1)) as (i & Hi & Ht & Hc & ->); [lia|]. exists (S i).
    rewrite Z.shiftr_spec in Ht by lia. cbn [count_set]. rewrite count_set_shift, E0, Hc by lia.
    split_and!; [lia|by replace (Z.of_nat (S i)) with (Z.of_nat i + 1) by lia|lia|f_equal; lia].
  - destruct (IH (Z.shiftr mask 1) bit (nshift + 1)) as (i & Hi & Ht & Hc & ->); [lia|]. exists (S i).
    rewrite Z.shiftr_spec in Ht by lia. cbn [count_set]. rewrite count_set_shift, E0, Hc by lia.
    split_and!; [lia|by replace (Z.of_nat (S i)) with (Z.of_nat i + 1) by lia|lia|f_equal; lia].
Qed.

Lemma count_set_none n : ∀ i mask, count_set n i mask = 0 → ∀ j, i ≤ j < i + Z.of_nat n → Z.testbit mask j = false.
Proof.
  induction n as [|n IH]; intros i mask; cbn [count_set]; [lia|]. pose proof (count_set_range n (i + 1) mask). intros E j Hj.
  destruct (Z.eq_dec i j) as [->|]; [destruct (Z.testbit mask j); [lia|done]|]. destruct (Z.testbit mask i); [lia|]. apply (IH (i + 1)); lia.
Qed.

Lemma count_set_pos mask : mask ≠ 0 → - 2 ^ 63 ≤ mask < 2 ^ 63 → 1 ≤ count_set 64 0 mask ≤ 64.
Proof.
  intros Hm Hr. pose proof (count_set_range 64 0 mask). destruct (Z.eq_dec (count_set 64 0 mask) 0) as [E|]; [|lia].
  assert (mask mod 2 ^ 64 = 0) as E0.
  { apply Z.bits_inj'. intros j Hj. rewrite Z.bits_0. destruct (Z.ltb_spec j 64).
    - rewrite Z.mod_pow2_bits_low by lia. apply (count_set_none 64 0 mask E). lia.
    - apply Z.mod_pow2_bits_high. lia. }
  pose proof (Z.div_mod mask (2 ^ 64)). nia.
Qed.

Lemma draw_index n c : 0 ≤ n → 1 ≤ c ≤ 64 → random_range n 1 c 1 = Some (inr (1 + n mod c)).
Proof.
  intros Hn Hc. unfold random_range. rewrite multiples_spec, obind_Some by lia.
  assert (lo 1 c 1 = 1) as El by (unfold lo, up; rewrite Z.div_1_r; lia). assert (hi 1 c 1 = c) as Eh by (unfold hi, down; rewrite Z.div_1_r; lia).
  assert (count 1 c 1 = c) as Ec by (unfold count; rewrite El, Eh, Z.div_1_r; lia). rewrite El, Eh, Ec. destruct (Z.ltb_spec c 1); [lia|].
  destruct (pick_spec 32 1 c 1 ltac:(lia) ltac:(lia) ltac:(lia) ltac:(lia) n ltac:(lia) ltac:(lia) Hn ltac:(lia)) as [E _].
  rewrite El, Ec in E. rewrite E. do 2 f_equal. lia.
Qed.

(** A random bit of a mask is one of its bits, and the random numbers are
    spread evenly over them: the bit that is returned has as many set bits
    below it as the random number says, modulo the number of set bits. *)
Theorem random_bit_correct n mask : mask ≠ 0 → - 2 ^ 63 ≤ mask < 2 ^ 63 → 0 ≤ n →
  ∃ i : nat, (i < 64)%nat ∧ Z.testbit mask (Z.of_nat i) = true ∧ count_set i 0 mask = n mod count_set 64 0 mask ∧
    random_bit n mask = Some (wraps 64 (2 ^ Z.of_nat i)).
Proof.
  intros Hm Hr Hn. pose proof (count_set_pos mask Hm Hr) as Hc. pose proof (Z.mod_pos_bound n (count_set 64 0 mask) ltac:(lia)).
  destruct (find_bit_spec 64 mask (1 + n mod count_set 64 0 mask) 0) as (i & Hi & Ht & Hi' & E); [lia|]. exists i. split_and!; [done|done|lia|].
  unfold random_bit. destruct (Z.eqb_spec mask 0); [done|]. rewrite draw_index, obind_Some by lia. rewrite E, obind_Some. do 2 f_equal.
  rewrite Z.shiftl_1_l. f_equal. lia.
Qed.
