(* ===== verification/RandomRangeParse.v ===== *)
(** * Lists of ranges: the parser

    [parse_ranges] never leaves its buffers as long as the parts of the list
    are not too long for its error message, and it parses a list to the ranges
    it spells. *)

From S2P Require Import Prelude RandomRange RandomRangeFacts.
Open Scope Z_scope.

(** ** Splitting *)

Lemma split_sep_none sep s : sep ∉ s → split_sep sep s = [s].
Proof.
  induction s as [|c s IH]; [done|]. intros [Hc Hs]%not_elem_of_cons. cbn [split_sep]. rewrite IH by done. by destruct (Z.eqb_spec c sep).
Qed.

Lemma split_sep_app sep s rest : sep ∉ s → split_sep sep (s ++ sep :: rest) = s :: split_sep sep rest.
Proof.
  induction s as [|c s IH]; [cbn; by rewrite Z.eqb_refl|]. intros [Hc Hs]%not_elem_of_cons. cbn [app split_sep]. rewrite IH by done. by destruct (Z.eqb_spec c sep).
Qed.

Lemma split_sep_length sep s : length (split_sep sep s) = S (length (filter (λ c, c = sep) s)).
Proof.
  induction s as [|c s IH]; [done|]. cbn [split_sep]. rewrite filter_cons. destruct (Z.eqb_spec c sep) as [->|].
  - rewrite decide_True by done. cbn [length]. by rewrite IH.
  - rewrite decide_False by done. destruct (split_sep sep s); [done|exact IH].
Qed.

Lemma strtok_all_length sep s : (length (strtok_all sep s) ≤ length (filter (λ c, c = sep) s) + 1)%nat.
Proof. unfold strtok_all. rewrite length_filter, split_sep_length. lia. Qed.

Lemma cut_at_none sep s : sep ∉ s → cut_at sep s = (s, None).
Proof.
  induction s as [|c s IH]; [done|]. intros [Hc Hs]%not_elem_of_cons. cbn [cut_at]. destruct (Z.eqb_spec c sep); [done|]. by rewrite IH.
Qed.

Lemma cut_at_app sep s rest : sep ∉ s → cut_at sep (s ++ sep :: rest) = (s, Some rest).
Proof.
  induction s as [|c s IH]; [cbn; by rewrite Z.eqb_refl|]. intros [Hc Hs]%not_elem_of_cons. cbn [app cut_at]. destruct (Z.eqb_spec c sep); [done|]. by rewrite IH.
Qed.

Lemma cut_at_length sep s a b : cut_at sep s = (a, b) → (length a ≤ length s)%nat ∧ ∀ x, b = Some x → (length x ≤ length s)%nat.
Proof.
  revert a b. induction s as [|c s IH]; intros a b; cbn [cut_at]; [by intros [= <- <-]|]. destruct (c =? sep).
  - intros [= <- <-]. cbn. split; [lia|]. intros x [= <-]. lia.
  - destruct (cut_at sep s) as [a' b']. intros [= <- <-]. destruct (IH a' b' eq_refl) as [? Hb]. cbn. split; [lia|]. intros x Hx. specialize (Hb x Hx). lia.
Qed.

Section Parse.
Context (parse_func : list Z → option Z) (defmin defmax defmult : Z).

(** ** Any list *)

Definition fits_errmsg (s : list Z) : Prop := (length s ≤ 218)%nat.

Lemma parse_number_defined s d : fits_errmsg s → is_Some (parse_number parse_func s d).
Proof.
  intros Hs. unfold parse_number. destruct (_ =? _)%nat; [done|]. destruct (parse_func s); [done|]. rewrite !length_app.
  change (length (str "error parsing string ")) with 21%nat. change (length (str " into an integer")) with 16%nat.
  unfold fits_errmsg, ERRMSG_SIZE in *. destruct (Z.leb_spec 256 (Z.of_nat (21 + (length s + 16)))); [lia|done].
Qed.

Lemma parse_range_defined tok : fits_errmsg tok → is_Some (parse_range parse_func tok defmin defmax defmult).
Proof.
  intros Ht. unfold parse_range, fits_errmsg in *. destruct (cut_at ":"%cc tok) as [n1 rest] eqn:E1. destruct (cut_at_length _ _ _ _ E1) as [H1 Hr].
  assert (∃ n2 m, match rest with None => (None, None) | Some s => let '(a, b) := cut_at ":"%cc s in (Some a, b) end = (n2, m) ∧
    (∀ x, n2 = Some x → length x ≤ 218)%nat ∧ (∀ x, m = Some x → length x ≤ 218)%nat) as (n2 & m & -> & H2 & H3).
  { destruct rest as [s|]; [|by exists None, None]. specialize (Hr s eq_refl). destruct (cut_at ":"%cc s) as [a b] eqn:E2.
    destruct (cut_at_length _ _ _ _ E2) as [Ha Hb]. exists (Some a), b. split_and!; [done|intros x [= <-]; lia|]. intros x Hx. specialize (Hb x Hx). lia. }
  destruct (parse_number_defined n1 defmin) as [[e|min] ->]; [unfold fits_errmsg; lia|done|]. rewrite obind_Some.
  assert (is_Some match n2 with None => Some (inr min) | Some s => parse_number parse_func s defmax end) as [[e|max] ->]; [|done|].
  { destruct n2 as [s|]; [|done]. apply parse_number_defined. by apply H2. }
  rewrite obind_Some. assert (is_Some match m with None => Some (inr defmult) | Some s => parse_number parse_func s defmult end) as [[e|mult] ->]; [|done|done].
  destruct m as [s|]; [|done]. apply parse_number_defined. by apply H3.
Qed.

Lemma parse_toks_defined toks : Forall fits_errmsg toks → ∀ room, (length toks ≤ room)%nat →
  ∃ x, parse_toks parse_func toks room defmin defmax defmult = Some x ∧ ∀ rs, x = inr rs → length rs = length toks.
Proof.
  induction 1 as [|tok toks Ht Hts IH]; intros room Hr; cbn [parse_toks]; [eexists; split; [done|by intros rs [= <-]]|]. destruct room as [|room]; [cbn in Hr; lia|].
  destruct (parse_range_defined tok Ht) as [[e|r] ->]; rewrite obind_Some; [by eexists|]. destruct (IH room) as (x & -> & Hx); [cbn in Hr; lia|].
  rewrite obind_Some. destruct x as [e|rs]; eexists; (split; [done|]); [done|]. intros rs' [= <-]. cbn. by rewrite (Hx rs eq_refl).
Qed.

(** ** A list that spells ranges *)

(** The texts of the fields; the last ones may be missing. *)
Inductive item :=
  | One (min : list Z)
  | Two (min max : list Z)
  | Three (min max mult : list Z).

Definition item_text (i : item) : list Z :=
  match i with
  | One min => min
  | Two min max => min ++ ":"%cc :: max
  | Three min max mult => min ++ ":"%cc :: max ++ ":"%cc :: mult
  end.

(** A field is empty or the text of a number. *)
Definition field_val (s : list Z) (default v : Z) : Prop := (":"%cc ∉ s) ∧ (","%cc ∉ s) ∧ (s = [] ∧ v = default ∨ s ≠ [] ∧ parse_func s = Some v).

Definition spells (i : item) (r : range) : Prop :=
  match i with
  | One min => min ≠ [] ∧ field_val min defmin (r_min r) ∧ r_max r = r_min r ∧ r_mult r = defmult
  | Two min max => field_val min defmin (r_min r) ∧ field_val max defmax (r_max r) ∧ r_mult r = defmult
  | Three min max mult => field_val min defmin (r_min r) ∧ field_val max defmax (r_max r) ∧ field_val mult defmult (r_mult r)
  end.

Fixpoint list_text (l : list item) : list Z :=
  match l with [] => [] | [i] => item_text i | i :: l => item_text i ++ ","%cc :: list_text l end.

Lemma parse_number_val s d v : field_val s d v → parse_number parse_func s d = Some (inr v).
Proof.
  intros (_ & _ & [[-> ->]|[Hs E]]); [done|]. unfold parse_number. destruct s; [done|]. cbn [length Nat.eqb]. by rewrite E.
Qed.

Lemma parse_range_item i r : spells i r → parse_range parse_func (item_text i) defmin defmax defmult = Some (inr r).
Proof.
  destruct r as [a b c], i as [min|min max|min max mult]; cbn [spells item_text r_min r_max r_mult].
  - intros (_ & Hmin & -> & ->). unfold parse_range. rewrite cut_at_none by apply Hmin. by rewrite (parse_number_val _ _ _ Hmin), obind_Some.
  - intros (Hmin & Hmax & ->). unfold parse_range. rewrite cut_at_app by apply Hmin. rewrite cut_at_none by apply Hmax.
    by rewrite (parse_number_val _ _ _ Hmin), obind_Some, (parse_number_val _ _ _ Hmax), obind_Some.
  - intros (Hmin & Hmax & Hmult). unfold parse_range. rewrite cut_at_app by apply Hmin. rewrite cut_at_app by apply Hmax.
    by rewrite (parse_number_val _ _ _ Hmin), obind_Some, (parse_number_val _ _ _ Hmax), obind_Some, (parse_number_val _ _ _ Hmult), obind_Some.
Qed.

Lemma item_text_ok i r : spells i r → item_text i ≠ [] ∧ (","%cc ∉ item_text i).
Proof.
  destruct i as [min|min max|min max mult]; cbn [spells item_text].
  - by intros (? & (_ & ? & _) & _).
  - intros ((_ & H1 & _) & (_ & H2 & _) & _). split; [by destruct min|]. rewrite elem_of_app, elem_of_cons. intuition congruence.
  - intros ((_ & H1 & _) & (_ & H2 & _) & (_ & H3 & _)). split; [by destruct min|]. rewrite !elem_of_app, !elem_of_cons, elem_of_app, elem_of_cons.
    intuition congruence.
Qed.

Lemma list_tokens l rs : Forall2 spells l rs → strtok_all ","%cc (list_text l) = item_text <$> l.
Proof.
  unfold strtok_all. induction 1 as [|i r l rs Hi Hl IH]; [done|]. destruct (item_text_ok i r Hi) as [Hne Hc]. destruct Hl as [|i' r' l rs Hi' Hl].
  - cbn [list_text fmap list_fmap]. rewrite split_sep_none by done. by rewrite filter_cons_True.
  - change (list_text (i :: i' :: l)) with (item_text i ++ ","%cc :: list_text (i' :: l)). rewrite split_sep_app by done. rewrite filter_cons_True by done.
    rewrite IH. done.
Qed.

(** C35. The parser of lists of ranges: when no part of the list is longer than
    218 characters it leaves neither its array nor its error message, and
    returns at most one range more than there are commas; and a list that
    spells ranges, with missing numbers for the defaults, gives exactly these
    ranges. *)
Theorem parse_ranges_correct s : Forall fits_errmsg (strtok_all ","%cc s) →
  ∃ x, parse_ranges parse_func s defmin defmax defmult = Some x ∧
    (∀ rs, x = inr rs → (length rs ≤ length (filter (λ c, c = ","%cc) s) + 1)%nat) ∧
    (∀ l rs, s = list_text l → Forall2 spells l rs → x = inr rs).
Proof.
  intros Hs. unfold parse_ranges. pose proof (strtok_all_length ","%cc s) as Hlen.
  destruct (parse_toks_defined _ Hs _ Hlen) as (x & E & Hx). exists x. split_and!; [done|intros rs ->; by rewrite (Hx rs eq_refl)|].
  intros l rs -> Hl. rewrite (list_tokens l rs Hl) in *. clear Hs Hx. revert E Hlen. generalize (length (filter (λ c, c = ","%cc) (list_text l)) + 1)%nat.
  intros room E Hlen. enough (parse_toks parse_func (item_text <$> l) room defmin defmax defmult = Some (inr rs)) by congruence. clear E x. revert room Hlen.
  induction Hl as [|i r l rs Hi Hl IH]; intros room Hlen; [done|]. destruct room as [|room]; [cbn in Hlen; lia|]. cbn [fmap list_fmap parse_toks].
  rewrite (parse_range_item i r Hi), obind_Some. rewrite IH, obind_Some; [done|]. cbn in Hlen. lia.
Qed.
End Parse.

(** ** Examples *)

Definition parse_dec (s : list Z) : option Z := if forallb isdigit s then Some (dval 0 s) else None.

Lemma parse_ranges_witness :
  parse_ranges parse_dec (str "3,:12:4,5:") 1 100 2 = Some (inr [mk_range 3 3 2; mk_range 1 12 4; mk_range 5 100 2]).
Proof.
  destruct (parse_ranges_correct parse_dec 1 100 2 (str "3,:12:4,5:")) as (x & -> & _ & Hx); [repeat constructor; unfold fits_errmsg; cbn; lia|].
  f_equal. apply (Hx [One (str "3"); Three [] (str "12") (str "4"); Two (str "5") []]); [reflexivity|].
  repeat constructor; unfold field_val; cbn; try by_dec; by auto.
Defined.

Lemma random_range_witness : ∃ n, 0 ≤ n < 2 ^ 31 ∧ random_range n 17 5 4 = Some (inr 12).
Proof.
  destruct (random_range_correct 17 5 4) as [[_ Hall] _]; [lia|lia|lia|lia|]. apply Hall. split; [lia|]. by exists 3.
Defined.

Lemma random_bit_witness : ∃ i : nat, Z.testbit 40 (Z.of_nat i) = true ∧ random_bit 7 40 = Some (wraps 64 (2 ^ Z.of_nat i)).
Proof. destruct (random_bit_correct 7 40) as (i & _ & Hi & _ & E); [lia|lia|lia|]. by exists i. Defined.

(** ** Defects *)

(** The remainder of a negative number is negative: the bounds are moved
    upwards, a number above the range is drawn, and multiples are missed. *)
Lemma above_negative_range : random_range 0 (-5) (-2) 3 = Some (inr 0).
Proof. by vm_compute. Qed.

Lemma first_multiple_missed n : 0 ≤ n → random_range n (-5) 1 3 = Some (inr 0).
Proof.
  intros Hn. unfold random_range. change (multiples 32 (-5) 1 3) with (Some (inr (0, 0, 1) : list Z + Z * Z * Z)). rewrite obind_Some.
  unfold pick_multiple. by rewrite Z.rem_1_r.
Qed.

(** With a negative bound the number of [divider] may be negative, and the
    result lies below the range. *)
Lemma below_wide_range : random_rangell 0 (-5000000000) 5000000000 1 = Some (inr (-10000000000)).
Proof. by vm_compute. Qed.

(** The least multiple overflows near the end of the type. *)
Lemma bound_overflows : random_range 0 2147483647 2147483647 2 = None.
Proof. by vm_compute. Qed.

(** A long part that is no number overflows the error message. *)
Lemma message_overflows : parse_ranges (λ _, None) (replicate 219 ("x"%cc)) 0 0 1 = None.
Proof. by vm_compute. Qed.
